(* ===== verification/_CoqProject ===== *)
-Q . S2P
Prelude.v
PyTime.v
PyVal.v
Env.v
Schedule.v
ScheduleFacts.v
Anchors.v
AnchorsFacts.v
NextDue.v
Cadence.v
FireLog.v
FireLogFacts.v
StoragePaths.v
FrameWriter.v
DiskMonitor.v
Runner.v
RunnerFacts.v
CameraHealth.v
Throttle.v
Bytes.v
Multipart.v
MultipartFacts.v
MultipartRound.v
Upload.v
UploadFacts.v
RenderQueue.v
RenderQueueFacts.v
Idempotency.v
IdempotencyFacts.v
AttemptLimiter.v
BatchedDelete.v
Events.v
EventsFacts.v
Dispatcher.v
DispatcherFacts.v
DispatcherRuns.v
RenderScheduler.v
RenderSchedulerFacts.v
FrameTable.v
FrameOrder.v
FrameOrderFacts.v
FrameEdits.v
FrameOrderRuns.v
FrameDims.v
FrameBrowse.v
FrameBrowseFacts.v
Sessions.v
SessionsFacts.v
Accounts.v
Csrf.v
IpAddress.v
IpAddressFacts.v
Ssrf.v
SsrfFacts.v
CameraConfig.v
EventTriggers.v
EventTriggersFacts.v
Reconcile.v
ReconcileFacts.v
CameraSessions.v
CameraSessionsFacts.v
CaptureSlots.v
CaptureSlotsFacts.v
StoragePathsFacts.v
RequestOrigin.v
RequestOriginFacts.v
ApiToken.v
ApiTokenFacts.v
RequestGates.v
RequestGatesFacts.v
Projects.v
ProjectsFacts.v
