(* ===== verification/Prelude.v ===== *)
(** * Timelapse Manager: capture, frames, rendering, notifications and request guards

    Timelapse Manager (src/src/timelapse_manager/) captures still images from
    network cameras on a schedule, stores them per project and renders videos from
    them.  This library models the part that decides when to capture, makes sure a
    capture happens once and is stored durably, keeps the stored frames in order and
    shows them, tells the operator about cameras
    and disks that fail, runs and repeats the render jobs, reads uploads, signs users
    in and keeps their sessions, and protects the login and the requests that must not
    run twice.  Every definition follows the
    Python code it is named after; names beginning with an underscore lose it, and
    the text in brackets before a definition names the function.

    ** The program and its model

    The supervisor (capture/supervisor.py) runs one loop per project.  Each cycle
    asks the schedule gate (capture/schedule.py) and the disk gate
    (storage/monitor.py), fires the exact-time anchors that are due
    (capture/anchors.py) against a durable fire log (db/models/exact_time_fire.py),
    plans the next interval capture, takes it, writes the frame
    (capture/frame_writer.py), ends the campaign at its frame cap, and reports the
    outcome to the camera's health book (capture/camera_health.py).  A reconcile pass
    keeps the registry of loops in step with the project rows, and a second registry of
    listeners that take a capture when the camera reports an event
    (capture/event_triggers.py).  A capture works from the camera's session, its cached
    configuration and login (capture/camera_sessions.py, capture/camera_config.py), holds
    one of the camera's slots and moves a PTZ camera into position first.

    Frames are rows with a file each (storage/frames.py).  Users delete, restore,
    exclude and re-time them, one by one or many at once; imports and edits can put a
    project's numbering out of the order of its capture times, and a repair after the
    commit renumbers it, in chunks when it is long, while captures go on.  The browser
    pages through them by number, jumps to instants and gaps
    (web/routers/frames.py, web/ribbon.py) and selects them
    (storage/frame_selection.py); the usual size of a project's frames is cached.  The
    files lie under a common root or in a directory of the project's own, which a policy
    keeps away from the application's files and from other projects
    (storage/paths.py, services/projects.py); thumbnails have a cache beside them, and a
    report lists files no row refers to (storage/thumbnail_cache.py, orphans.py).

    Render jobs are rows that the worker (render/queue.py) claims, runs in tasks of
    its own within two sets of slots, and settles; users and shutdowns cancel them
    while they run.  The scheduler (render/scheduler.py) adds the recurring ones from
    what the job table says, and pruning (render/post_actions.py) removes old rows
    from it.  Everything worth telling is a row of the event table
    (monitoring/events.py); rows of some severity are alerts until someone or a
    later event clears them (monitoring/alerts.py), and the dispatcher
    (monitoring/dispatcher.py) sends each new row to the channels its rules name,
    with its position kept across restarts.  On the web side, a request passes a stack of
    gates before its route (web/middleware.py, web/body_limit.py): its host, the size of
    its body, the client it is counted under, encryption, the first-run setup, the
    credentials of the API (security/token.py) and the token against forged requests;
    uploaded frames arrive as a stream that is
    parsed and spooled to disk under limits (web/multipart.py), a request with an
    idempotency key is run once (web/idempotency.py), and costly attempts are
    counted per key before the work (security/attempt_limiter.py).  A sign-in
    (web/routers/auth.py) checks a local password or asks the directory, and issues a
    session (security/sessions.py) that every later request is resolved to; it ends by
    its timeouts, by revocation, when its account changes (services/users.py), or when
    the periodic question to the directory (security/session_revalidation.py) says so.
    Forms carry masked tokens bound to the session or to the sign-in page
    (security/csrf.py, web/presession.py).  Requests the server itself makes, to cameras,
    webhooks and the like, resolve their host once, check every address against the
    policy and dial only what was checked (security/ssrf.py, security/pinned_http.py);
    the login shared by cameras without one of their own is lent only to hosts inside
    the configured subnets (security/credential_binding.py).

    - [Prelude]: exceptions as values ([result]), loops that keep an extremum, list
      lemmas, tactics and the hint database [tlm].
    - [PyTime]: datetime and zoneinfo.  An instant is a UTC count of microseconds
      ([Z]); a zone is its initial offset and its list of transitions; conversion
      both ways with Python's [fold] rules, and the facts about gaps and repeats.
    - [PyVal]: the JSON-like values of stored documents, [str.strip], [int()],
      ["HH:MM"] texts.
    - [Env]: the interface [CaptureEnv] to code outside the repository (zone
      database, coordinate lookup, solar computation), with a concrete instance
      [demo_env]; capture/geo.py on top of it.
    - [Schedule], [ScheduleFacts]: capture/schedule.py.
    - [Anchors], [AnchorsFacts]: capture/anchors.py.
    - [NextDue]: capture/next_due.py.  [Cadence]: capture/cadence.py.
    - [FireLog]: the database hops of the anchor path of the supervisor and the
      handlers that compose them.  [FireLogFacts]: any number of workers, restarts,
      crashes and abandoned write threads as a step relation over those hops.
    - [FrameWriter]: capture/frame_writer.py, with the points where a write can fail
      or the process can die; its directory and the value it stores are those of
      [StoragePaths].
    - [DiskMonitor]: storage/monitor.py.
    - [Runner], [RunnerFacts]: planning functions and the cycle of the project loop;
      it composes [Schedule], [DiskMonitor], [FireLog] and [FrameWriter] the way
      [_run_cycle] does, on an explicit [World].
    - [CameraHealth]: capture/camera_health.py and the reporting of its transitions.
    - [Throttle]: security/throttle.py.
    - [Bytes]: the operations of [bytes] and latin-1 text the upload code uses.
      [Multipart]: the incremental and the one-shot multipart reader;
      [MultipartFacts]: its steps, and that it does not look ahead;
      [MultipartRound]: chunking and the round trip with an encoder.
      [Upload]: the streaming upload, its spool files on a [Disk], and the
      ownership of the spool directory; [UploadFacts].
    - [RenderQueue], [RenderQueueFacts]: render/queue.py and the rows of
      db/models/render_job.py.
    - [Idempotency], [IdempotencyFacts]: web/idempotency.py.
    - [AttemptLimiter]: security/attempt_limiter.py.
    - [BatchedDelete]: db/batched_delete.py.
    - [Events], [EventsFacts]: monitoring/events.py, alerts.py, routing.py and
      event_retention.py.  [Dispatcher]:
      monitoring/dispatcher.py; [DispatcherFacts]: its invariants;
      [DispatcherRuns]: concrete runs of it.
    - [RenderScheduler], [RenderSchedulerFacts]: render/scheduler.py and the two
      prunes of render/post_actions.py.
    - [FrameTable]: the rows of db/models/frame.py, the operations on one and on many
      of them, and the use-cases of services/frames.py.  [FrameOrder]: detection of
      disorder, the renumbering at once and in chunks, the repair after a commit;
      [FrameOrderFacts]; [FrameEdits]: the edits together with the repair;
      [FrameOrderRuns]: chunks with captures, edits and deletions in between.
    - [FrameDims]: the cache of predominant dimensions (storage/frames.py).
    - [FrameBrowse], [FrameBrowseFacts]: pages, windows, gaps, jumps and figures
      (storage/frames.py, web/routers/frames.py, web/ribbon.py) and
      storage/frame_selection.py.
    - [StoragePaths]: storage/paths.py with the symbolic links under it, the storage path
      of services/projects.py, storage/thumbnail_cache.py, orphans.py and the files of
      storage/projects.py; [StoragePathsFacts].
    - [Projects], [ProjectsFacts]: services/projects.py and services/milestones.py, with
      the rows of db/models/project.py and the validators of encode/overlay.py; requests
      that read before others write, and write the columns that differ from what they
      read.
    - [Sessions]: security/sessions.py, security/session_revalidation.py and the gates
      of security/authz.py and principal.py; [SessionsFacts]: lookups in flight while
      other requests write.  [Accounts]: services/users.py, security/login.py and the
      sign-in of web/routers/auth.py on the same tables.
    - [Csrf]: security/csrf.py, security/cookie_header.py and web/presession.py.
    - [IpAddress], [IpAddressFacts]: the addresses and networks of Python's ipaddress
      module, as text and as sets of numbers.  [Ssrf]: security/ssrf.py, pinned_http.py,
      credential_binding.py and ssrf_settings_service.py; [SsrfFacts]: lookups, dials and
      writes while the cache ages, names move and the settings change.
    - [RequestOrigin], [RequestOriginFacts]: security/proxy_networks.py, the effective
      client, the [Host] header and the HTTPS redirect of web/middleware.py, the peer policy
      and bearer check of security/token.py, web/safe_redirect.py.  [ApiToken],
      [ApiTokenFacts]: the token file and its cache.  [RequestGates], [RequestGatesFacts]:
      the gates of web/middleware.py and web/body_limit.py in the order of
      web/app_wiring.py, and the principals of security/principal.py; the session lookup
      is the interface [SessionResolver], which [Sessions] implements.
    - [CameraConfig]: the secrets of security/crypto.py, the configuration of
      capture/camera_config.py and the login a camera is given.  [CameraSessions],
      [CameraSessionsFacts]: the session cache of capture/camera_sessions.py.
      [CaptureSlots], [CaptureSlotsFacts]: its capture slots, asyncio's semaphore
      included, and the PTZ move of the supervisor under them.
    - [EventTriggers], [EventTriggersFacts]: capture/event_triggers.py, the topics of
      cameras/events.py and the supervisor's listener.
    - [Reconcile], [ReconcileFacts]: the supervisor's registries and its passes.

    ** State and effects

    Pure functions are Rocq functions.  A database transaction is one function on
    the tables it touches: SQLite has a single writer, so interleaving is the
    interleaving of transactions, and it is written out as an inductive step
    relation where several tasks share rows ([FireLogFacts.step],
    [CameraHealth.report_step], [Throttle.login_step], [RenderQueue.step],
    [Upload.handover_step], [Idempotency.site_step], [AttemptLimiter.usage_step],
    [Dispatcher.notify_step], [RenderSchedulerFacts.table_step],
    [FrameEdits.edit_step], [FrameOrderRuns.shelf_step], [FrameDims.dims_step],
    [SessionsFacts.auth_step], [Accounts.account_step], [SsrfFacts.net_step],
    [Reconcile.sup_step], [CameraSessions.site_step], [CaptureSlots.slot_step],
    [StoragePaths.storage_step], [Projects.project_step],
    [ApiToken.token_step]).
    A task of the render worker or of the dispatcher is a program counter that moves from one [await] to
    the next; a cancellation can arrive at each of them.  What a camera, the clock,
    the random generator or the file system answers is an input ([CycleInputs],
    [attempt_outcome], [fault]).  A function that can raise returns [result].

    ** What the theorems show

    - Schedule: a parsed schedule raises only where a sun offset leaves the calendar; the
      next transition is the first instant the gate changes; the open stretches are
      exactly the open time.
    - Anchors: parsing is a normal form; a clock anchor fires at its wall-clock time,
      or at the end of the gap that skips it; the due decisions are sound and
      complete; the wake-up is the earliest fire to come.
    - Fire log: one attempt at a time, one frame per anchor and local day (up to
      abandoned writes), one alert, retries inside the grace window, settled rows
      final, recovery announced; the handler is a run of the step relation, and says
      exactly which outcomes of a capture lead to which rows, a timeout with the write
      still under way and a failing mark included.
    - Frame writer: rows, the files their stored values resolve to, and counts agree
      after any interruption.
    - Disk gate: moves only for cause, does not flap.
    - Runner: slots stay on the grid, no capture against a closed gate, no interval
      capture beyond a known cap (anchor frames and frames other paths store meanwhile
      are counted apart), retries never postpone a slot, the loop neither oversleeps nor
      spins.
    - Camera health: the alert is the one the outcomes call for, and the database
      agrees with the latch.
    - Display: the next and the missed capture, and the planned rate.
    - Login throttle: as long as the clock does not run back and attempts are settled
      within the window, the pruned table answers as the whole history would, a source
      keeps to its budget and pays only for itself, a sign-in forgives its own
      pair, a username is delayed and never locked.
    - Uploads: the reader's loop ends; the cutting into chunks is invisible; a form
      within the limits is accepted and comes back as it was sent; what an accepted
      upload left on disk is what the body says; the spool directory is removed
      once, never under its worker.
    - Render queue: the slots are never overdrawn, a job runs at most twice, a
      settled job is final, a slot is held until its job is settled, an undisturbed
      drain cycle leaves nothing it could have started.
    - Idempotency: no two handlers of a key at once, and none within the time to
      live of a success, as long as handlers end within it.
    - Attempt limiter: it answers as the whole history of calls would.
    - Events: paging shows every active alert once; an event goes to exactly the
      channels of its rules; retention deletes nothing that is open, an audit record
      or the newest row.
    - Dispatcher: across polls, sends, stops, crashes and restarts an event below the
      stored cursor was routed and settled, or was too old to be caught up when a start
      found it, the marks stay within the log, alerts are
      cleared by exactly the resolves that answer them, the backlog is bounded, and
      concurrent events of one key do not both send.
    - Recurring renders: a pass creates exactly the jobs that are due, they never
      pile up, and pruning after a render leaves the cadence as it was.
    - Frames: a renumbering puts every frame from its bound on in the order of capture
      time and id, the chunked one gives the same numbering, and captures between its
      chunks never collide; the first disorder is found exactly; after any edits and
      the repair of their commit the project is in order; a deletion removes its row,
      its file and its count; an offset and its inverse cancel.
    - Browsing: a scroll shows each frame that stays once, whatever else is
      deleted, restored or captured meanwhile; a window is a slice of the newest-first
      list; the gaps found by the query are those of the reference definition; the
      batched figures are the single ones; the count of a selection is its size; the
      cached dimensions are never older than the last commit.
    - Storage paths: resolving a path ends and leaves no link unresolved; what a project's
      values name stays out of the protected directories, where nothing is mounted a second
      time; the directories of two projects resolve to different paths, edits coming one
      after the other; pruning stays inside the cache; the orphans are exactly the files
      no row of the directory's projects refers to.
    - Projects: whatever overlaps, names stay unique, every stored document is one its
      check accepts, projects have their camera and milestones their project; so a stored
      schedule parses and evaluates, sun offsets beyond the calendar apart.  An edit of a
      milestone that read the current row keeps a position.  Pausing takes exactly one
      target from the supervisor; an edit keeps the columns it does not name; an accepted
      timestamp format has no character that could leave its quotes.
    - Sessions: a revoked session stays denied whatever is in flight; none outlives its
      cap or its idle timeout; an answer is a row and a user that were stored when the
      lookup read or wrote them, so a re-check that could not be written is never acted
      on; a directory refusal ends the session; the idle clock
      is right to within a touch interval; purging is invisible; a login replaces the
      session; during an outage the directory is asked once per window.
    - Accounts: an administrator who can sign in remains; changing an account ends its
      sessions; a sign-in needs a password or the directory's word, and a directory
      login never takes over a local account.
    - Tokens: a token verifies for its secret and for no other, a cookie is read only
      when it is unambiguous, and the sign-in form is bound to its browser.
    - Requests: a client that sends one well-formed forwarding header cannot choose the
      address it is counted under, nor the one its bearer token is judged by; a request that reaches its route passed every gate, with
      its body as it came and within the limit; it acts for a session only with a token of
      that session; a token is answered as the file has it during the call; redirects stay on the host, and a
      checked local path leads a browser where it says.
    - Outbound requests: the default policy admits exactly the public ranges it names; no
      connection reaches an address the policy of that moment refuses, and a contained
      one writes only inside the live subnets; a cached answer is at most its time to
      live old; the shared login is released only for hosts all of whose addresses are
      inside; saving a subnet list keeps its meaning; addresses and networks survive
      printing and parsing.
    - Reconciliation: a project never has two tasks of a kind; a pass ends, and leaves
      registered exactly the projects whose rows qualified when it read them, each with
      the target of those rows; a task is stopped only for a cause.
    - Event triggers: records survive storing; the bounded tracker decides as one that
      forgets nothing would, while the instances are few, and keeps to its bounds in any
      case; capture jobs of a topic are queued a cooldown apart; a full queue keeps the newest jobs;
      subscriptions are paced.
    - Camera sessions: stored credentials come back; the fingerprint covers everything a
      capture is built from; a cached session was loaded from the rows the last pass read,
      default login included; loads of a camera do not overlap; a session with the shared
      login is handed out only after the binding rule said yes, for the subnets and
      addresses of that call.
    - Capture slots: the slots of a semaphore add up whatever is cancelled; who waits,
      waits for somebody ahead; on a PTZ camera a capture runs alone and in position.

    Some theorems record behaviour that differs from the
    comments of the code: [next_transition_across_clock_change],
    [next_anchor_wake_misses_early_offset], [late_write_captures_twice],
    [added_cap_overshoots_once], [closed_window_hides_disk_recovery],
    [failed_write_leaves_stale_alert], [cutting_can_refuse],
    [cancel_before_start_wedges], [failed_render_reported_twice],
    [idle_with_pending_job], [slow_handler_loses_its_key],
    [late_success_reopens_window], [failed_clear_is_not_repeated],
    [failed_rules_read_settles], [failed_count_starts_over],
    [keep_zero_renders_again], [edited_time_stays_inferred],
    [unlinked_before_commit], [deleted_top_breaks_renumber],
    [mixed_bounds_type_error], [missed_touch_expires_early],
    [concurrent_disables_lock_out], [disabled_directory_user_signs_in],
    [finished_runner_is_kept], [moved_listener_leaves_alert],
    [start_date_edit_not_applied], [bad_triggers_stop_listeners],
    [absent_flag_differs], [mode_change_moves_camera],
    [moved_project_file_reported], [alias_of_default_directory_accepted],
    [rightmost_hop_taken], [second_forwarded_line_ignored],
    [malformed_hop_believes_client], [early_401_for_503],
    [clone_without_interval_idle], [nan_interval_accepted],
    [lost_camera_reads_as_taken_name], [overlapping_edits_share_a_path],
    [overlapping_edits_clear_position], [huge_sun_offset_raises],
    [mount_below_accepted_path], [late_release_deletes_another_row],
    [slow_capture_closes_the_gap], [anchor_frame_beyond_cap].

    ** Bounds and fuel

    Recursion is structural, over lists of transitions, candidates, windows, events,
    chunks or decisions.  Fuel is used in eight places.  The bisection for the end of
    a clock gap has [bisect_fuel], the binary logarithm of the search interval, which
    halves in every turn; [clock_anchor_fires_on_time] proves the search complete
    with it.  The reader's loop [drain] gets one turn more than the buffer has
    bytes; every turn that goes on consumes some, and [feed_drains] proves the turns
    enough.  [split_on] gets the length of the body, and every turn drops at least
    the two dashes of the delimiter.  [launch_for] gets the number of free slots, and
    every turn takes one; [drain_cycle_leaves_nothing_behind] shows that it stops
    only without a slot or without a pending job.  [finish_renumber] gets three turns a
    row and three more, and [chunked_renumber_same] proves them enough; [chunks_of]
    gets the length of its list; the lookup of the dimensions is five statements long; [join_real] gets one
    unit more than there are links, and [join_from_total] proves it enough where no link
    leads into itself.  Monotonic readings, durations in
    seconds and rates are exact rationals where the code has floats; coordinates and disk percentages are binary64
    floats ([SpecFloat]).  [MAX_SCAN_DAYS] bounds [next_transition] as in the code.

    ** What is not modelled

    Web routers, templates and the JSON API, most services behind them, camera
    adapters and discovery, ffmpeg encoding, the SQLAlchemy engine, migrations and
    backups, settings, command line, logging and problem reports: input, output and
    calls into libraries.  Of the request gates, what Starlette makes of headers and URLs is
    a parameter, and the headers added to responses are left out.  Of the supervisor, the one-shot path, the display snapshots, the
    degradation reports and the HTTP clients are left out; of the listeners, the event
    sources; of a session, the HTTP negotiation state.  Of the render queue, what a job prepares, encodes, zips and runs
    afterwards is an outcome a step chooses, the removal of partial files and the
    row selection of the codec backfill are left out.  Of the uploads, the sweep of
    stale spool directories.  Of monitoring, the channels themselves, the probes and
    the redaction of secrets; of the recurring renders, the settings a job is given,
    the output files and the other actions after a render.  Of the frames, the decoding
    of imported and uploaded images, the drawing of thumbnails and the sunlight bands of the ribbon.  Of
    the sign-in, the cryptography (digests and password hashes are arguments), the LDAP
    connector, the setup code file and the pages.  Of the outbound requests, the splitting
    of a URL (an argument), credentials inside a URL, TLS and the transports.  The text of log lines and event messages is not
    modelled.

    Next in the plan: the confinement of render outputs, and the services of cameras,
    renders and notifications. *)

From stdpp Require Export base tactics numbers list sorting gmap strings.
From stdpp Require Import options.

Declare Scope tlm_scope.
Delimit Scope tlm_scope with tlm.
#[global] Open Scope tlm_scope.
#[global] Open Scope Z_scope.

(** ** Python exceptions as values

    A function of the program that can raise returns [result A].  The only
    exceptions the modelled code raises or catches are [ValueError] (with the
    field path its message names), the [ZoneInfoNotFoundError] of an unknown
    timezone key, a failed [assert], those of the upload reader
    (web/multipart.py), the refusal of the audit log, SQLite's refusal of a
    duplicate key, and those of the frame store and its paths (storage/frames.py,
    storage/paths.py, storage/frame_selection.py, services/errors.py), and the [TypeError] of
    a comparison. *)
Inductive pyexc :=
  | ValueError (field : string)
  | ZoneInfoNotFoundError (key : string)
  | AssertionError
  | MultipartError (message : string)
  | BodyTooLargeError
  | TooManyFilesError
  | InsufficientSpoolSpaceError
  | OSError
  | PermissionError
  | IntegrityError
  | FrameNotFoundError
  | ConfirmationRequiredError
  | NotFoundError
  | ValidationError
  | StoragePathError (message : string)
  | PathContainmentError
  | DescriptorError (message : string)
  | TypeError
  | OverflowError
  | ConflictError
  | OperationalError
  | StaleDataError
  | LdapProvisioningError
  | HTTPException (status : Z)
  | SsrfError (message : string)
  | GaiError
  | UnicodeError
  | ConnectError (message : string)
  | CredentialDecryptError
  | OtherCaptureError (message : string)
  | CameraMissingError.

Inductive result (A : Type) :=
  | Ok (a : A)
  | Raise (e : pyexc).
Arguments Ok {A} a.
Arguments Raise {A} e.

#[export] Instance pyexc_eq_dec : EqDecision pyexc.
Proof. solve_decision. Defined.
#[export] Instance result_eq_dec `{EqDecision A} : EqDecision (result A).
Proof. solve_decision. Defined.

#[export] Instance result_ret : MRet result := @Ok.
#[export] Instance result_bind : MBind result := λ A B f m,
  match m with Ok a => f a | Raise e => Raise e end.
#[export] Instance result_fmap : FMap result := λ A B f m,
  match m with Ok a => Ok (f a) | Raise e => Raise e end.

Definition is_ok {A} (m : result A) : Prop := ∃ a, m = Ok a.

(** [try m except ValueError: h] when [m] can only raise [ValueError]s. *)
Definition result_default {A} (h : A) (m : result A) : A :=
  match m with Ok a => a | Raise _ => h end.

(** [ [f(x) for x in l] ] where [f] may raise: stops at the first exception. *)
Fixpoint traverse {A B} (f : A → result B) (l : list A) : result (list B) :=
  match l with
  | [] => Ok []
  | x :: l => y ← f x; ys ← traverse f l; Ok (y :: ys)
  end.

(** [any(f(x) for x in l)]: stops at the first [True], an exception before it
    propagates. *)
Fixpoint any_result {A} (f : A → result bool) (l : list A) : result bool :=
  match l with
  | [] => Ok false
  | x :: l => b ← f x; if (b : bool) then Ok true else any_result f l
  end.

(** The present values of a list, in order: a loop that appends when it has one. *)
Definition somes {A} (l : list (option A)) : list A := omap (λ o, o) l.

(** ** Optional instants: the "keep the smallest (largest) so far" loops *)
Definition keep_min (acc : option Z) (x : Z) : option Z :=
  match acc with
  | None => Some x
  | Some a => Some (if x <? a then x else a)
  end.
Definition keep_max (acc : option Z) (x : Z) : option Z :=
  match acc with
  | None => Some x
  | Some a => Some (if x >? a then x else a)
  end.

(** A Python [set] of integers, built with [.add] (a map to [()]: insertion does
    not rebuild the tree). *)
Definition set_of_list (l : list Z) : gmap Z () :=
  foldr (λ x acc, <[x := tt]> acc) ∅ l.

(** ** Tactics *)

(** Linear arithmetic with quotients and remainders by constants. *)
Ltac divmod := Z.to_euclidean_division_equations; lia.
(** Case analysis on a boolean comparison, leaving the arithmetic fact. *)
Ltac case_cmp :=
  match goal with
  | |- context [ Z.ltb ?a ?b ] => destruct (Z.ltb_spec a b)
  | |- context [ Z.leb ?a ?b ] => destruct (Z.leb_spec a b)
  | |- context [ Z.eqb ?a ?b ] => destruct (Z.eqb_spec a b)
  | |- context [ Z.gtb ?a ?b ] => rewrite (Z.gtb_ltb a b)
  | |- context [ Z.geb ?a ?b ] => rewrite (Z.geb_leb a b)
  | H : context [ Z.ltb ?a ?b ] |- _ => destruct (Z.ltb_spec a b)
  | H : context [ Z.leb ?a ?b ] |- _ => destruct (Z.leb_spec a b)
  | H : context [ Z.eqb ?a ?b ] |- _ => destruct (Z.eqb_spec a b)
  | H : context [ Z.gtb ?a ?b ] |- _ => rewrite (Z.gtb_ltb a b) in H
  | H : context [ Z.geb ?a ?b ] |- _ => rewrite (Z.geb_leb a b) in H
  end.

(** Unfold the error monad in a hypothesis or the goal. *)
Ltac simpl_result :=
  repeat (unfold mbind, mret, fmap, result_bind, result_ret, result_fmap in *; simpl in *).

(** Split a successful bind [x ← m; k = Ok v] into [m = Ok x] and [k = Ok v]. *)
Ltac inv_bind H :=
  match type of H with
  | mbind _ ?m = Ok _ => destruct m eqn:?; simpl in H; [|discriminate H]
  end.

Create HintDb tlm.

(** ** Results *)
Lemma bind_ok {A B} (f : A → result B) (m : result A) (b : B) :
  mbind f m = Ok b ↔ ∃ a, m = Ok a ∧ f a = Ok b.
Proof. destruct m; naive_solver. Qed.

Lemma traverse_ok {A B} (f : A → result B) (l : list A) (l' : list B) :
  traverse f l = Ok l' ↔ Forall2 (λ x y, f x = Ok y) l l'.
Proof.
  revert l'. induction l as [|x l IH]; intros l'; simpl.
  - split; [intros [= <-]; constructor|]. by intros ->%Forall2_nil_inv_l.
  - rewrite bind_ok. split.
    + intros (y & Hy & (ys & Hys & [= <-])%bind_ok). constructor; [done|by apply IH].
    + intros (y & ys & Hy & Hys & ->)%Forall2_cons_inv_l.
      exists y. split; [done|]. apply bind_ok. exists ys. by rewrite IH.
Qed.

Lemma traverse_elem_l {A B} (f : A → result B) (l : list A) (l' : list B) (x : A) :
  traverse f l = Ok l' → x ∈ l → ∃ y, y ∈ l' ∧ f x = Ok y.
Proof.
  intros Hl%traverse_ok (i & Hi)%list_elem_of_lookup.
  destruct (Forall2_lookup_l _ _ _ _ _ Hl Hi) as (y & Hy & ?).
  exists y. split; [|done]. apply list_elem_of_lookup. by exists i.
Qed.

Lemma traverse_elem_r {A B} (f : A → result B) (l : list A) (l' : list B) (y : B) :
  traverse f l = Ok l' → y ∈ l' → ∃ x, x ∈ l ∧ f x = Ok y.
Proof.
  intros Hl%traverse_ok (i & Hi)%list_elem_of_lookup.
  destruct (Forall2_lookup_r _ _ _ _ _ Hl Hi) as (x & Hx & ?).
  exists x. split; [|done]. apply list_elem_of_lookup. by exists i.
Qed.

Lemma traverse_raise {A B} (f : A → result B) (l : list A) (e : pyexc) :
  traverse f l = Raise e → ∃ x, x ∈ l ∧ f x = Raise e.
Proof.
  induction l as [|x l IH]; simpl; [done|]. destruct (f x) as [y|e'] eqn:Hx; simpl.
  - destruct (traverse f l) as [ys|e']; simpl; [done|]. intros Hr. destruct (IH Hr) as (z & Hz & ?).
    exists z. split; [by right|done].
  - intros [= <-]. exists x. split; [left|done].
Qed.

Lemma traverse_is_ok {A B} (f : A → result B) (l : list A) :
  Forall (λ x, is_ok (f x)) l → is_ok (traverse f l).
Proof.
  induction 1 as [|x l [y Hy] _ [ys Hys]]; [by exists []|].
  exists (y :: ys). simpl. by rewrite Hy, Hys.
Qed.

Lemma any_result_ok {A} (f : A → result bool) (l : list A) (b : bool) :
  Forall (λ x, is_ok (f x)) l →
  any_result f l = Ok b → b = true ↔ ∃ x, x ∈ l ∧ f x = Ok true.
Proof.
  induction 1 as [|x l [y Hy] Hl IH]; simpl.
  - intros [= <-]. split; [done|]. by intros (x & ?%elem_of_nil & _).
  - rewrite Hy. destruct y; simpl.
    + intros [= <-]. split; [|done]. intros _. exists x. set_solver.
    + intros Hb. rewrite (IH Hb). split.
      * intros (z & Hz & ?). exists z. set_solver.
      * intros (z & [->|Hz]%elem_of_cons & ?); [congruence|by exists z].
Qed.

Lemma any_result_is_ok {A} (f : A → result bool) (l : list A) :
  Forall (λ x, is_ok (f x)) l → is_ok (any_result f l).
Proof.
  induction 1 as [|x l [y Hy] _ [b Hb]]; simpl; [by exists false|].
  rewrite Hy. destruct y; simpl; [by exists true|by exists b].
Qed.

Lemma any_result_ext {A} (f g : A → result bool) (l : list A) :
  (∀ x, x ∈ l → f x = g x) → any_result f l = any_result g l.
Proof.
  induction l as [|x l IH]; intros Hfg; [done|]. simpl.
  rewrite (Hfg x) by set_solver. destruct (g x) as [[]|]; [done| |done].
  simpl. apply IH. set_solver.
Qed.

(** ** Keep-the-extremum loops *)
Lemma fold_keep_min (l : list Z) (acc : option Z) :
  match foldl keep_min acc l with
  | None => acc = None ∧ l = []
  | Some m => (Some m = acc ∨ m ∈ l) ∧ (∀ x, x ∈ l → m ≤ x) ∧ (∀ a, acc = Some a → m ≤ a)
  end.
Proof.
  revert acc. induction l as [|x l IH]; intros acc; simpl.
  - destruct acc; [|done]. repeat split; [by left|set_solver|naive_solver lia].
  - specialize (IH (keep_min acc x)). destruct (foldl _ _ l) as [m|].
    + destruct IH as (Hin & Hle & Hacc).
      destruct acc as [a|]; simpl in *; [case_cmp|];
        specialize (Hacc _ eq_refl);
        (split; [set_solver|split]); intros y;
        rewrite ?elem_of_cons; naive_solver lia.
    + destruct IH as [Hk _]. by destruct acc.
Qed.

Lemma fold_keep_max (l : list Z) (acc : option Z) :
  match foldl keep_max acc l with
  | None => acc = None ∧ l = []
  | Some m => (Some m = acc ∨ m ∈ l) ∧ (∀ x, x ∈ l → x ≤ m) ∧ (∀ a, acc = Some a → a ≤ m)
  end.
Proof.
  revert acc. induction l as [|x l IH]; intros acc; simpl.
  - destruct acc; [|done]. repeat split; [by left|set_solver|naive_solver lia].
  - specialize (IH (keep_max acc x)). destruct (foldl _ _ l) as [m|].
    + destruct IH as (Hin & Hle & Hacc).
      destruct acc as [a|]; simpl in *; repeat case_cmp;
        specialize (Hacc _ eq_refl);
        (split; [set_solver|split]); intros y;
        rewrite ?elem_of_cons; naive_solver lia.
    + destruct IH as [Hk _]. by destruct acc.
Qed.

(** ** Filters *)
Lemma filter_all {A} (P : A → Prop) `{∀ x, Decision (P x)} (l : list A) :
  (∀ x, x ∈ l → P x) → filter P l = l.
Proof.
  induction l as [|x l IH]; intros Hl; [done|].
  rewrite filter_cons_True by set_solver. rewrite IH; [done|set_solver].
Qed.

(** Rows with distinct keys are the same when their keys are. *)
Lemma NoDup_fmap_eq {A B} (f : A → B) (l : list A) (x y : A) : NoDup (f <$> l) → x ∈ l → y ∈ l → f x = f y → x = y.
Proof.
  induction l as [|z l IH]; [by intros _ ?%elem_of_nil|]. cbn. intros [Hz Hn]%NoDup_cons.
  intros [->|Hx]%elem_of_cons [->|Hy]%elem_of_cons Hf; [done| | |by apply IH].
  - destruct Hz. rewrite Hf. by apply list_elem_of_fmap_2.
  - destruct Hz. rewrite <-Hf. by apply list_elem_of_fmap_2.
Qed.

Lemma filter_none {A} (P : A → Prop) `{∀ x, Decision (P x)} (l : list A) :
  (∀ x, x ∈ l → ¬ P x) → filter P l = [].
Proof.
  induction l as [|x l IH]; intros Hl; [done|].
  rewrite filter_cons_False by set_solver. apply IH. set_solver.
Qed.

Lemma Forall_filtered {A} (Q P : A → Prop) `{!∀ x, Decision (P x)} (l : list A) :
  Forall Q l → Forall Q (filter P l).
Proof. rewrite !Forall_forall. intros Hl x [_ Hx]%list_elem_of_filter. by apply Hl. Qed.

(** ** Sets of integers *)
Lemma elem_of_option_list {A} (o : option A) (x : A) : x ∈ option_list o ↔ o = Some x.
Proof.
  destruct o as [y|]; simpl; [|by rewrite elem_of_nil].
  rewrite list_elem_of_singleton. naive_solver.
Qed.

Lemma elem_of_somes {A} (l : list (option A)) (x : A) : x ∈ somes l ↔ Some x ∈ l.
Proof. unfold somes. rewrite list_elem_of_omap. naive_solver. Qed.

Lemma set_of_list_lookup (l : list Z) (x : Z) :
  set_of_list l !! x = if decide (x ∈ l) then Some tt else None.
Proof.
  unfold set_of_list. induction l as [|y l IH]; [done|]. cbn [foldr].
  rewrite lookup_insert, IH. repeat case_decide; set_solver.
Qed.

Lemma elem_of_set_of_list (l : list Z) (x : Z) :
  x ∈ (map_to_list (set_of_list l)).*1 ↔ x ∈ l.
Proof.
  rewrite list_elem_of_fmap. split.
  - intros ([y []] & -> & Hy%elem_of_map_to_list). rewrite set_of_list_lookup in Hy.
    by case_decide.
  - intros Hx. exists (x, tt). split; [done|]. apply elem_of_map_to_list.
    rewrite set_of_list_lookup. by case_decide.
Qed.

Lemma StronglySorted_filter {A} (R : relation A) (P : A → Prop) `{∀ x, Decision (P x)}
    (l : list A) :
  StronglySorted R l → StronglySorted R (filter P l).
Proof.
  induction 1 as [|x l ? IH Hall]; [constructor|].
  rewrite filter_cons. case_decide; [|done]. constructor; [done|].
  rewrite Forall_forall in *. intros y [_ Hy]%list_elem_of_filter. by apply Hall.
Qed.

Lemma filter_ext_in {A} (P Q : A → Prop) `{∀ x, Decision (P x), ∀ x, Decision (Q x)} (l : list A) :
  (∀ x, x ∈ l → P x ↔ Q x) → filter P l = filter Q l.
Proof.
  induction l as [|x l IH]; intros Hl; [done|]. rewrite !filter_cons, IH by set_solver.
  pose proof (Hl x (list_elem_of_here x l)). repeat case_decide; tauto.
Qed.

Lemma filter_comm {A} (P Q : A → Prop) `{∀ x, Decision (P x), ∀ x, Decision (Q x)} (l : list A) :
  filter P (filter Q l) = filter Q (filter P l).
Proof. rewrite !list_filter_filter. apply list_filter_iff. tauto. Qed.

(** ** Piecewise-constant functions of time

    [steps_only_at f lo hi cs]: on [[lo, hi]] the value of [f] changes only at
    the instants of [cs] (and takes its new value there). *)
Definition steps_only_at {A} (f : Z → A) (lo hi : Z) (cs : list Z) : Prop :=
  ∀ t1 t2, lo ≤ t1 → t1 ≤ t2 → t2 ≤ hi → (∀ c, c ∈ cs → ¬ (t1 < c ≤ t2)) → f t1 = f t2.

(** The last instant of [cs] that [t] has reached. *)
Lemma last_reached (cs : list Z) (lo t : Z) :
  lo ≤ t →
  ∃ c, (c = lo ∨ c ∈ cs) ∧ lo ≤ c ≤ t ∧ (∀ c', c' ∈ cs → ¬ (c < c' ≤ t)).
Proof.
  intros Hlo. induction cs as [|x cs (c & Hc & Hct & Hmax)].
  - exists lo. set_solver by lia.
  - destruct (decide (c < x ∧ x ≤ t)).
    + exists x. split; [set_solver|]. split; [lia|].
      intros c' [->|Hc']%elem_of_cons; [lia|]. intros ?. apply (Hmax c' Hc'). lia.
    + exists c. split; [set_solver|]. split; [lia|].
      intros c' [->|Hc']%elem_of_cons; [lia|]. by apply Hmax.
Qed.

(** Until the first change, nothing changed. *)
Lemma constant_until {A} (f : Z → A) (lo hi : Z) (cs : list Z) (t : Z) :
  steps_only_at f lo hi cs → lo ≤ t ≤ hi →
  (∀ c, c ∈ cs → lo < c ≤ t → f c = f lo) → f t = f lo.
Proof.
  intros Hf Ht Hcs. destruct (last_reached cs lo t) as (c & Hc & Hct & Hmax); [lia|].
  rewrite <-(Hf c t); [|lia..|done].
  destruct Hc as [->|Hc]; [done|]. destruct (decide (c = lo)) as [->|]; [done|].
  apply Hcs; [done|lia].
Qed.

(** A comparison with [c] has one value on a stretch that does not reach [c]. *)
Lemma no_cross (c t1 t2 : Z) :
  t1 ≤ t2 → ¬ (t1 < c ≤ t2) → (c <=? t1) = (c <=? t2) ∧ (t1 <? c) = (t2 <? c).
Proof. intros. split; repeat case_cmp; lia. Qed.
