(* ===== verification/PyTime.v ===== *)
(** * Dates, times and zones as the code uses them

    The part of Python's [datetime] and [zoneinfo] modules that the capture
    code relies on.

    - An aware-UTC [datetime] is a [Z]: microseconds since the Unix epoch.
    - A wall-clock reading ([datetime] fields without the zone) is a [Z] as
      well: microseconds since 1970-01-01T00:00 on that wall clock.
    - A [date] is a [Z]: days since 1970-01-01; a [timedelta] is a [Z] of
      microseconds.
    - A [ZoneInfo] is its transition table, the form [zoneinfo] itself compiles
      a TZif file to: an initial offset and, for every transition, its UTC
      instant and the offset from then on.  [astimezone] and [utcoffset] follow
      [ZoneInfo.fromutc] and [ZoneInfo._find_trans], PEP 495 folds included.

    The calendar range of [datetime] (years 1 to 9999) is checked where the code adds an
    offset of the user's to an instant ([dt_plus]); elsewhere it is not modelled. *)

From Stdlib Require QArith_base.
From S2P Require Import Prelude.
From stdpp Require Import options.

Definition SECOND : Z := 1000000.
Definition MINUTE : Z := 60 * SECOND.
Definition HOUR : Z := 60 * MINUTE.
Definition DAY : Z := 24 * HOUR.

(** The calendar: 0001-01-01 to 9999-12-31. *)
Definition DATETIME_MIN : Z := -719162 * DAY.
Definition DATETIME_END : Z := 2932897 * DAY.
Definition in_calendar (t : Z) : bool := (DATETIME_MIN <=? t)%Z && (t <? DATETIME_END)%Z.
(** [datetime + timedelta] *)
Definition dt_plus (t delta : Z) : result Z :=
  if in_calendar (t + delta) then Ok (t + delta)%Z else Raise OverflowError.
(** [timedelta(minutes=n)]: a [timedelta] has at most 999999999 days. *)
Definition timedelta_minutes (n : Z) : result Z :=
  if (-999999999 * DAY <=? n * MINUTE)%Z && (n * MINUTE <? 1000000000 * DAY)%Z
  then Ok (n * MINUTE)%Z else Raise OverflowError.

(** [timedelta.total_seconds()] *)
Definition total_seconds (us : Z) : QArith_base.Q := QArith_base.Qdiv (QArith_base.inject_Z us) (QArith_base.inject_Z SECOND).

(** [datetime.date()], [datetime.time()], [datetime.combine], [date.weekday()]
    (Monday is 0; 1970-01-01 was a Thursday). *)
Definition date_of (wall : Z) : Z := wall / DAY.
Definition time_of (wall : Z) : Z := wall mod DAY.
Definition dt_combine (day time : Z) : Z := day * DAY + time.
Definition weekday (day : Z) : Z := (day + 3) mod 7.

Record zoneinfo := ZI {
  zi_before : Z;               (** offset before the first transition *)
  zi_trans : list (Z * Z);     (** (UTC instant, offset from then on) *)
}.

Definition UTC_zone : zoneinfo := ZI 0 [].

(** An aware [datetime] attached to a zone: its wall reading and its fold. *)
Record local_dt := LDT { ld_wall : Z; ld_fold : bool }.

(** The offset in force at UTC instant [u]. *)
Fixpoint utc_offset (off : Z) (trans : list (Z * Z)) (u : Z) : Z :=
  match trans with
  | [] => off
  | (t, o) :: rest => if u <? t then off else utc_offset o rest u
  end.
Definition offset_at (tz : zoneinfo) (u : Z) : Z := utc_offset (zi_before tz) (zi_trans tz) u.

(** The last transition at or before [u], with the offset it replaced. *)
Fixpoint fold_scan (prev off : Z) (since : option Z) (trans : list (Z * Z)) (u : Z) : bool :=
  match trans with
  | (t, o) :: rest =>
      if u <? t then
        match since with None => false | Some s => u - s <? prev - off end
      else fold_scan off o (Some t) rest u
  | [] => match since with None => false | Some s => u - s <? prev - off end
  end.

(** [u.astimezone(tz)] ([ZoneInfo.fromutc]): the fold is set exactly in the
    second pass over a repeated stretch. *)
Definition astimezone (tz : zoneinfo) (u : Z) : local_dt :=
  LDT (u + offset_at tz u)
      (fold_scan (zi_before tz) (zi_before tz) None (zi_trans tz) u).

(** [dt.utcoffset()] ([ZoneInfo._find_trans]): the transition table in wall
    time, [max] of the two offsets for fold 0 and [min] for fold 1. *)
Fixpoint wall_offset (fold : bool) (off : Z) (trans : list (Z * Z)) (w : Z) : Z :=
  match trans with
  | [] => off
  | (t, o) :: rest =>
      if w <? t + (if fold then off `min` o else off `max` o) then off
      else wall_offset fold o rest w
  end.
Definition utcoffset (tz : zoneinfo) (dt : local_dt) : Z :=
  wall_offset (ld_fold dt) (zi_before tz) (zi_trans tz) (ld_wall dt).

(** [dt.astimezone(UTC)] for a [dt] in [tz]. *)
Definition to_utc (tz : zoneinfo) (dt : local_dt) : Z := ld_wall dt - utcoffset tz dt.

(** [datetime.combine(day, time, tzinfo=tz).astimezone(UTC)] (fold 0). *)
Definition wall_to_utc (tz : zoneinfo) (wall : Z) : Z := to_utc tz (LDT wall false).

(** A well-formed zone: consecutive transitions are further apart than the two
    shifts they make, so the skipped and repeated stretches never overlap. *)
Fixpoint zone_ok_from (off : Z) (trans : list (Z * Z)) : bool :=
  match trans with
  | [] => true
  | (t, o) :: rest =>
      match rest with
      | [] => true
      | (t2, o2) :: _ => (t <? t2) && (Z.abs (o - off) + Z.abs (o2 - o) <=? t2 - t)
      end && zone_ok_from o rest
  end.
Definition zone_ok (tz : zoneinfo) : bool := zone_ok_from (zi_before tz) (zi_trans tz).

(** Transitions and offsets of a TZif file are whole seconds. *)
Definition whole_second (x : Z) : bool := x mod SECOND =? 0.
Definition zone_whole_seconds (tz : zoneinfo) : bool :=
  whole_second (zi_before tz) &&
  forallb (λ to, whole_second to.1 && whole_second to.2) (zi_trans tz).

(** All offsets of the zone lie in [[lo, hi]]. *)
Definition zone_within (lo hi : Z) (tz : zoneinfo) : bool :=
  (lo <=? zi_before tz) && (zi_before tz <=? hi) &&
  forallb (λ to, (lo <=? to.2) && (to.2 <=? hi)) (zi_trans tz).

(** The zone keeps one offset over the UTC range [[lo, hi]]: nothing skips or
    repeats there. *)
Definition steady (tz : zoneinfo) (lo hi off : Z) : Prop :=
  ∀ u, lo ≤ u ≤ hi → offset_at tz u = off ∧ wall_to_utc tz (u + off) = u.

(** A checkable sufficient condition: every transition lies after [hi], or so far
    before [lo] that the stretch it skips or repeats is over by [lo]. *)
Fixpoint quiet_from (off : Z) (trans : list (Z * Z)) (lo hi : Z) : bool :=
  match trans with
  | [] => true
  | (t, o) :: rest =>
      ((hi <? t) || (t + Z.abs (o - off) <=? lo)) && quiet_from o rest lo hi
  end.
Definition quiet (tz : zoneinfo) (lo hi : Z) : bool :=
  quiet_from (zi_before tz) (zi_trans tz) lo hi.

(** Unfold the time constants so that [lia] computes with them. *)
Ltac unfold_time := unfold date_of, time_of, dt_combine, DAY, HOUR, MINUTE, SECOND in *.
Ltac time_lia := unfold_time; Z.div_mod_to_equations; lia.

(** ** Days and times of day *)
Lemma dt_combine_date_time (w : Z) : dt_combine (date_of w) (time_of w) = w.
Proof. time_lia. Qed.

Lemma time_of_bounds (w : Z) : 0 ≤ time_of w < DAY.
Proof. time_lia. Qed.

Lemma date_of_dt_combine (d t : Z) : 0 ≤ t < DAY → date_of (dt_combine d t) = d.
Proof. time_lia. Qed.

Lemma date_of_bounds (w d : Z) : date_of w = d ↔ d * DAY ≤ w < (d + 1) * DAY.
Proof. time_lia. Qed.

#[export] Hint Resolve time_of_bounds : tlm.

(** ** UTC to local and back *)
Section zone_scan.
Implicit Types (off prev u w : Z) (trans : list (Z * Z)).

Lemma zone_ok_cons off t o trans :
  zone_ok_from off ((t, o) :: trans) = true →
  zone_ok_from o trans = true ∧
  (∀ t2 o2 rest, trans = (t2, o2) :: rest →
     t < t2 ∧ Z.abs (o - off) + Z.abs (o2 - o) ≤ t2 - t).
Proof.
  cbn. destruct trans as [|[t2 o2] rest].
  - intros _. split; [done|]. naive_solver.
  - intros [[?%Z.ltb_lt ?%Z.leb_le]%andb_true_iff ?]%andb_true_iff.
    split; [done|]. intros ??? [= <- <- <-]. lia.
Qed.

(** Past a transition, the wall reading has reached the transition's earlier
    wall reading. *)
Lemma wall_after_transition off t o trans u :
  zone_ok_from off ((t, o) :: trans) = true → t ≤ u →
  t + off `min` o ≤ u + utc_offset o trans u.
Proof.
  revert off t o. induction trans as [|[t2 o2] trans IH]; intros off t o Hok Hu;
    [simpl; lia|].
  apply zone_ok_cons in Hok as [Hok Hsep]. specialize (Hsep _ _ _ eq_refl).
  simpl. case_cmp; [lia|]. specialize (IH _ _ _ Hok ltac:(lia)). lia.
Qed.

Lemma scan_roundtrip prev off since trans u :
  zone_ok_from off trans = true →
  (∀ s, since = Some s → s ≤ u ∧ ∀ t o rest, trans = (t, o) :: rest →
     Z.abs (off - prev) + Z.abs (o - off) ≤ t - s) →
  wall_offset (fold_scan prev off since trans u) off trans
    (u + utc_offset off trans u) = utc_offset off trans u.
Proof.
  revert prev off since.
  induction trans as [|[t o] trans IH]; intros prev off since Hok Hsince; [done|].
  simpl. destruct (Z.ltb_spec u t) as [Hu|Hu].
  - rewrite (proj2 (Z.ltb_lt _ _)); [done|].
    destruct since as [s|]; [|lia].
    destruct (Hsince _ eq_refl) as [? Hsep]. specialize (Hsep _ _ _ eq_refl).
    case_cmp; lia.
  - pose proof (wall_after_transition _ _ _ _ _ Hok Hu) as Hw.
    apply zone_ok_cons in Hok as [Hok Hsep].
    rewrite (proj2 (Z.ltb_ge _ _)).
    + apply IH; [done|]. intros s [= <-]. split; [done|].
      intros t2 o2 rest ->. by apply (Hsep t2 o2 rest).
    + destruct trans as [|[t2 o2] rest]; simpl in *.
      * case_cmp; lia.
      * specialize (Hsep _ _ _ eq_refl).
        destruct (Z.ltb_spec u t2) as [|Hu2]; [case_cmp; lia|].
        pose proof (wall_after_transition _ _ _ _ _ Hok Hu2).
        destruct (fold_scan _ _ _ _ _); lia.
Qed.
End zone_scan.

(** Converting an instant to a zone and back is the identity, in repeated
    stretches as well: the fold distinguishes the two passes. *)
Lemma to_utc_astimezone (tz : zoneinfo) (u : Z) :
  zone_ok tz = true → to_utc tz (astimezone tz u) = u.
Proof.
  intros Hok. unfold to_utc, utcoffset, astimezone, offset_at; simpl.
  rewrite scan_roundtrip by done. lia.
Qed.

(** ** Stretches without a transition *)
Lemma quiet_scan (off : Z) (trans : list (Z * Z)) (lo hi u : Z) :
  zone_ok_from off trans = true → quiet_from off trans lo hi = true → lo ≤ u ≤ hi →
  utc_offset off trans u = utc_offset off trans lo ∧
  wall_offset false off trans (u + utc_offset off trans u) = utc_offset off trans u.
Proof.
  revert off. induction trans as [|[t o] trans IH]; intros off Hok Hq Hu; [done|].
  simpl in Hq. apply andb_true_iff in Hq as [[Ht%Z.ltb_lt|Ht%Z.leb_le]%orb_true_iff Hq].
  - simpl. rewrite !(proj2 (Z.ltb_lt _ t)) by lia. split; [done|].
    rewrite (proj2 (Z.ltb_lt _ _)); [done|lia].
  - pose proof (zone_ok_cons _ _ _ _ Hok) as [Hok' Hsep].
    destruct (IH o Hok' Hq Hu) as [IH1 IH2].
    simpl. rewrite !(proj2 (Z.ltb_ge _ t)) by lia. split; [done|].
    rewrite (proj2 (Z.ltb_ge _ _)); [done|].
    destruct trans as [|[t2 o2] rest]; [simpl in *; lia|].
    specialize (Hsep _ _ _ eq_refl). simpl in *.
    destruct (Z.ltb_spec u t2) as [|Hu2]; [lia|].
    pose proof (wall_after_transition _ _ _ _ _ Hok' Hu2). lia.
Qed.

Lemma quiet_steady (tz : zoneinfo) (lo hi : Z) :
  zone_ok tz = true → quiet tz lo hi = true → steady tz lo hi (offset_at tz lo).
Proof.
  intros Hok Hq u Hu. destruct (quiet_scan _ _ _ _ _ Hok Hq Hu) as [H1 H2].
  unfold offset_at, wall_to_utc, to_utc, utcoffset; simpl. split; [done|].
  rewrite <-H1, H2. lia.
Qed.

Lemma steady_weaken (tz : zoneinfo) (lo hi lo' hi' off : Z) :
  lo ≤ lo' → hi' ≤ hi → steady tz lo hi off → steady tz lo' hi' off.
Proof. intros ?? Hs u ?. apply Hs. lia. Qed.

(** ** Skipped stretches (spring forward) *)

(** [wall_time_exists]: the reading survives the round trip through UTC. *)
Definition wall_exists (tz : zoneinfo) (dt : local_dt) : bool :=
  ld_wall dt =? ld_wall (astimezone tz (to_utc tz dt)).

(** The transition that skips the wall reading [w], if any: its instant and the
    offsets before and after. *)
Fixpoint gap_scan (off : Z) (trans : list (Z * Z)) (w : Z) : option (Z * Z * Z) :=
  match trans with
  | [] => None
  | (t, o) :: rest =>
      if (t + off <=? w) && (w <? t + o) then Some (t, off, o) else gap_scan o rest w
  end.
Definition gap_at (tz : zoneinfo) (w : Z) : option (Z * Z * Z) :=
  gap_scan (zi_before tz) (zi_trans tz) w.

Lemma gap_scan_lower (off t1 o1 : Z) (trans : list (Z * Z)) (w t p o : Z) :
  zone_ok_from off ((t1, o1) :: trans) = true →
  gap_scan o1 trans w = Some (t, p, o) →
  t1 + off `max` o1 ≤ w ∧ t1 ≤ w - o ∧ t1 < t ∧ p < o.
Proof.
  revert off t1 o1. induction trans as [|[t2 o2] trans IH]; intros off t1 o1 Hok; [done|].
  apply zone_ok_cons in Hok as [Hok' Hsep]. specialize (Hsep _ _ _ eq_refl).
  simpl. destruct (_ && _) eqn:Hc.
  - intros [= <- <- <-]. apply andb_true_iff in Hc as [?%Z.leb_le ?%Z.ltb_lt]. lia.
  - intros Hg. specialize (IH _ _ _ Hok' Hg). lia.
Qed.

(** In a skipped stretch, fold 0 reads the offset before the transition, fold 1
    the one after it, and each is in force on the corresponding side. *)
Lemma gap_scan_spec (off : Z) (trans : list (Z * Z)) (w t p o : Z) :
  zone_ok_from off trans = true →
  gap_scan off trans w = Some (t, p, o) →
  t + p ≤ w < t + o ∧ (t, o) ∈ trans ∧
  wall_offset false off trans w = p ∧ wall_offset true off trans w = o ∧
  (∀ u, w - o ≤ u < t → utc_offset off trans u = p) ∧
  (∀ u, t ≤ u ≤ w - p → utc_offset off trans u = o).
Proof.
  revert off. induction trans as [|[t1 o1] trans IH]; intros off Hok; [done|].
  pose proof (zone_ok_cons _ _ _ _ Hok) as [Hok' Hsep].
  simpl. destruct (_ && _) eqn:Hc.
  - intros [= -> -> ->]. apply andb_true_iff in Hc as [?%Z.leb_le ?%Z.ltb_lt].
    split_and!; [lia|lia|set_solver|case_cmp; lia|..].
    + rewrite (proj2 (Z.ltb_ge _ _)) by lia.
      destruct trans as [|[t2 o2] rest]; [done|]. simpl.
      specialize (Hsep _ _ _ eq_refl). case_cmp; [done|lia].
    + intros u ?. case_cmp; [done|lia].
    + intros u ?. rewrite (proj2 (Z.ltb_ge _ _)) by lia.
      destruct trans as [|[t2 o2] rest]; [done|]. simpl.
      specialize (Hsep _ _ _ eq_refl). case_cmp; [done|lia].
  - intros Hg. destruct (IH o1 Hok' Hg) as (Hw & Hin & Hf & Ht & Hu1 & Hu2).
    pose proof (gap_scan_lower _ _ _ _ _ _ _ _ Hok Hg).
    split_and!; [lia|lia|set_solver| | | |].
    + case_cmp; [lia|done].
    + case_cmp; [lia|done].
    + intros u ?. case_cmp; [lia|]. by apply Hu1.
    + intros u ?. case_cmp; [lia|]. by apply Hu2.
Qed.

Lemma wall_past_transition (off t o : Z) (trans : list (Z * Z)) (w : Z) :
  zone_ok_from off ((t, o) :: trans) = true → t + off `max` o ≤ w →
  t ≤ w - wall_offset false o trans w.
Proof.
  revert off t o. induction trans as [|[t2 o2] trans IH]; intros off t o Hok Hw;
    [simpl; lia|].
  apply zone_ok_cons in Hok as [Hok' Hsep]. specialize (Hsep _ _ _ eq_refl).
  simpl. case_cmp; [lia|]. specialize (IH _ _ _ Hok' ltac:(lia)). lia.
Qed.

(** Outside the skipped stretches a wall reading (with fold 0) names an instant
    whose offset is the one the reading was resolved with. *)
Lemma no_gap_scan (off : Z) (trans : list (Z * Z)) (w : Z) :
  zone_ok_from off trans = true → gap_scan off trans w = None →
  utc_offset off trans (w - wall_offset false off trans w) = wall_offset false off trans w.
Proof.
  revert off. induction trans as [|[t1 o1] trans IH]; intros off Hok; [done|].
  pose proof (zone_ok_cons _ _ _ _ Hok) as [Hok' Hsep].
  simpl. destruct (_ && _) eqn:Hc; [done|]. intros Hg.
  apply andb_false_iff in Hc.
  destruct (Z.ltb_spec w (t1 + off `max` o1)) as [Hw|Hw].
  - rewrite (proj2 (Z.ltb_lt _ _)); [done|].
    destruct Hc as [?%Z.leb_gt|?%Z.ltb_ge]; lia.
  - pose proof (wall_past_transition _ _ _ _ _ Hok Hw).
    rewrite (proj2 (Z.ltb_ge _ _)) by lia. by apply IH.
Qed.

Section gaps.
Context (tz : zoneinfo) (Hok : zone_ok tz = true).

(** A fold-0 wall reading fails the round trip exactly when some transition
    skips it. *)
Lemma wall_exists_no_gap (w : Z) :
  wall_exists tz (LDT w false) = true ↔ gap_at tz w = None.
Proof using Hok.
  unfold wall_exists, to_utc, utcoffset, astimezone, offset_at, gap_at; simpl.
  destruct (gap_scan _ _ _) as [[[t p] o]|] eqn:Hg.
  - destruct (gap_scan_spec _ _ _ _ _ _ Hok Hg) as (? & ? & -> & ? & ? & Hu).
    rewrite Hu by lia. split; [intros ?%Z.eqb_eq; lia|done].
  - rewrite no_gap_scan by done. split; [done|]. intros _. apply Z.eqb_eq. lia.
Qed.

Lemma gap_at_spec (w t p o : Z) :
  gap_at tz w = Some (t, p, o) →
  t + p ≤ w < t + o ∧ (t, o) ∈ zi_trans tz ∧
  to_utc tz (LDT w false) = w - p ∧ to_utc tz (LDT w true) = w - o ∧
  (∀ u, w - o ≤ u < t → offset_at tz u = p) ∧
  (∀ u, t ≤ u ≤ w - p → offset_at tz u = o).
Proof using Hok.
  intros Hg. destruct (gap_scan_spec _ _ _ _ _ _ Hok Hg) as (? & ? & Hf & Ht & Hu1 & Hu2).
  unfold to_utc, utcoffset; simpl. rewrite Hf, Ht. split_and!; done || lia.
Qed.
End gaps.

(** Every offset the zone can answer lies within its bounds. *)
Lemma zone_within_offset_at (lo hi : Z) (tz : zoneinfo) (u : Z) :
  zone_within lo hi tz = true → lo ≤ offset_at tz u ≤ hi.
Proof.
  unfold zone_within, offset_at. destruct tz as [off trans]; simpl.
  intros [[?%Z.leb_le ?%Z.leb_le]%andb_true_iff Hall]%andb_true_iff.
  revert off H H0 Hall. induction trans as [|[t o] trans IH]; intros off ?? Hall; [simpl; lia|].
  simpl in *. apply andb_true_iff in Hall as [[?%Z.leb_le ?%Z.leb_le]%andb_true_iff ?].
  case_cmp; [lia|]. by apply IH.
Qed.

Lemma zone_within_utcoffset (lo hi : Z) (tz : zoneinfo) (dt : local_dt) :
  zone_within lo hi tz = true → lo ≤ utcoffset tz dt ≤ hi.
Proof.
  unfold zone_within, utcoffset. destruct tz as [off trans]; simpl.
  intros [[?%Z.leb_le ?%Z.leb_le]%andb_true_iff Hall]%andb_true_iff.
  revert off H H0 Hall. induction trans as [|[t o] trans IH]; intros off ?? Hall; [simpl; lia|].
  simpl in *. apply andb_true_iff in Hall as [[?%Z.leb_le ?%Z.leb_le]%andb_true_iff ?].
  case_cmp; [lia|]. by apply IH.
Qed.

(** The offset of an instant's own local reading is the one in force there. *)
Lemma utcoffset_astimezone (tz : zoneinfo) (u : Z) :
  zone_ok tz = true → utcoffset tz (astimezone tz u) = offset_at tz u.
Proof. intros Hok. pose proof (to_utc_astimezone tz u Hok). unfold to_utc in *; simpl in *. lia. Qed.

(** Fold 0 names the earliest instant with the given reading. *)
Lemma first_reading_scan (off : Z) (trans : list (Z * Z)) (w u : Z) :
  gap_scan off trans w = None → u + utc_offset off trans u = w →
  utc_offset off trans u ≤ wall_offset false off trans w.
Proof.
  revert off. induction trans as [|[t o] trans IH]; intros off; [done|].
  simpl. destruct (_ && _) eqn:Hc; [done|]. intros Hg.
  apply andb_false_iff in Hc.
  destruct (Z.ltb_spec u t), (Z.ltb_spec w (t + off `max` o)); intros Hu.
  - lia.
  - lia.
  - destruct Hc as [?%Z.leb_gt|?%Z.ltb_ge]; lia.
  - by apply IH.
Qed.

Lemma first_reading (tz : zoneinfo) (w u : Z) :
  gap_at tz w = None → ld_wall (astimezone tz u) = w → to_utc tz (LDT w false) ≤ u.
Proof.
  unfold to_utc, utcoffset, astimezone, offset_at; simpl. intros Hg Hu.
  pose proof (first_reading_scan _ _ _ _ Hg Hu). lia.
Qed.

(** The transition of a gap is one of the zone's, on whole seconds with it. *)
Lemma gap_scan_whole (off : Z) (trans : list (Z * Z)) (w t p o : Z) :
  whole_second off = true →
  forallb (λ to, whole_second to.1 && whole_second to.2) trans = true →
  gap_scan off trans w = Some (t, p, o) →
  whole_second t = true ∧ whole_second p = true ∧ whole_second o = true.
Proof.
  revert off. induction trans as [|[t1 o1] trans IH]; intros off Hoff; [done|].
  simpl. intros [[Ht1 Ho1]%andb_true_iff Hall]%andb_true_iff.
  destruct (_ && _); [naive_solver|by apply IH].
Qed.
