(* ===== verification/PyVal.v ===== *)
(** * Stored JSON values and the string functions applied to them

    The project's [schedule], [exact_time_anchors] and [event_triggers] columns
    hold JSON documents that the parsers of the capture package take apart with
    [isinstance] tests.  [pyval] is the type of those documents (a [datetime]
    can also occur where a caller built the document by hand).  Strings are
    byte strings: the whitespace and digits that [str.strip] and [int] accept
    are the ASCII ones. *)

From Stdlib Require Import SpecFloat Ascii.
From S2P Require Import Prelude PyTime.
From stdpp Require Import options.

(** A [datetime] value: its wall reading and, when aware, its UTC offset. *)
Record pydatetime := PDT { pdt_wall : Z; pdt_off : option Z }.

Inductive pyval :=
  | PNone
  | PBool (b : bool)
  | PInt (z : Z)
  | PFloat (f : spec_float)
  | PStr (s : string)
  | PList (l : list pyval)
  | PDict (kvs : list (string * pyval))
  | PDatetime (d : pydatetime).

(** [bool(v)] *)
Definition truthy (v : pyval) : bool :=
  match v with
  | PNone => false
  | PBool b => b
  | PInt z => negb (z =? 0)
  | PFloat (S754_zero _) => false
  | PFloat _ => true
  | PStr s => negb (String.eqb s "")
  | PList l => match l with [] => false | _ => true end
  | PDict kvs => match kvs with [] => false | _ => true end
  | PDatetime _ => true
  end.

(** [d.get(key, default)] *)
Fixpoint dict_get (kvs : list (string * pyval)) (key : string) (default : pyval) : pyval :=
  match kvs with
  | [] => default
  | (k, v) :: kvs => if String.eqb k key then v else dict_get kvs key default
  end.

(** [v == s] for a string literal [s]. *)
Definition val_eq_str (v : pyval) (s : string) : bool :=
  match v with PStr s' => String.eqb s' s | _ => false end.

(** [v in (s1, s2, ...)] for string literals. *)
Definition val_in_strs (v : pyval) (ss : list string) : bool := existsb (val_eq_str v) ss.

(** ** Strings *)
Definition char_code (c : ascii) : Z := Z.of_nat (nat_of_ascii c).
Definition is_space (c : ascii) : bool :=
  let n := char_code c in
  ((9 <=? n) && (n <=? 13)) || ((28 <=? n) && (n <=? 32)).
Definition digit_value (c : ascii) : option Z :=
  let n := char_code c in
  if (48 <=? n) && (n <=? 57) then Some (n - 48) else None.

Fixpoint lstrip (s : string) : string :=
  match s with
  | EmptyString => EmptyString
  | String c s' => if is_space c then lstrip s' else s
  end.
Fixpoint rstrip (s : string) : string :=
  match s with
  | EmptyString => EmptyString
  | String c s' =>
      match rstrip s' with
      | EmptyString => if is_space c then EmptyString else String c EmptyString
      | s'' => String c s''
      end
  end.
(** [s.strip()] *)
Definition strip (s : string) : string := rstrip (lstrip s).

(** [s.split(sep)] for a one-character separator. *)
Fixpoint split_on (sep : ascii) (s : string) : list string :=
  match s with
  | EmptyString => [EmptyString]
  | String c s' =>
      if Ascii.eqb c sep then EmptyString :: split_on sep s'
      else match split_on sep s' with
           | [] => [String c EmptyString]
           | p :: ps => String c p :: ps
           end
  end.

(** The digits of an [int] literal: single underscores between digits. *)
Fixpoint int_digits (acc : Z) (after_digit : bool) (s : string) : option Z :=
  match s with
  | EmptyString => if after_digit then Some acc else None
  | String c s' =>
      match digit_value c with
      | Some d => int_digits (10 * acc + d) true s'
      | None => if Ascii.eqb c "_" && after_digit then int_digits acc false s' else None
      end
  end.
(** [int(s)], [None] for the [ValueError]. *)
Definition py_int (s : string) : option Z :=
  match strip s with
  | String "-" s' => Z.opp <$> int_digits 0 false s'
  | String "+" s' => int_digits 0 false s'
  | s' => int_digits 0 false s'
  end.

(** [f"{n:02d}"] for [0 <= n < 100], the range the clock fields are in. *)
Definition digit_char (d : Z) : ascii := ascii_of_nat (Z.to_nat (48 + d)).
Definition fmt02 (n : Z) : string :=
  String (digit_char (n / 10)) (String (digit_char (n mod 10)) EmptyString).

(** A clock time [HH:MM] as text. *)
Definition fmt_hhmm (hour minute : Z) : string := fmt02 hour +:+ ":" +:+ fmt02 minute.

(** The shared body of the two [_parse_hhmm] functions: split, convert, check
    the range. *)
Definition parse_clock (value : pyval) (field_path : string) : result (Z * Z) :=
  match value with
  | PStr s =>
      match split_on ":" s with
      | [h; m] =>
          match py_int h, py_int m with
          | Some hour, Some minute =>
              if (0 <=? hour) && (hour <=? 23) && ((0 <=? minute) && (minute <=? 59))
              then Ok (hour, minute) else Raise (ValueError field_path)
          | _, _ => Raise (ValueError field_path)
          end
      | _ => Raise (ValueError field_path)
      end
  | _ => Raise (ValueError field_path)
  end.

(** The instant an aware [datetime] names; a naive one is read as UTC, the
    coercion every entry point of the package applies. *)
Definition aware_instant (d : pydatetime) : Z :=
  match pdt_off d with None => pdt_wall d | Some off => pdt_wall d - off end.

(** ** Lemmas *)
Lemma parse_clock_range (v : pyval) (p : string) (h m : Z) :
  parse_clock v p = Ok (h, m) → 0 ≤ h ≤ 23 ∧ 0 ≤ m ≤ 59.
Proof.
  unfold parse_clock. destruct v; try done.
  destruct (split_on _ _) as [|x [|y [|]]]; try done.
  destruct (py_int x), (py_int y); try done.
  destruct (_ && _ && _) eqn:Hc; [|done]. intros [= <- <-]. lia.
Qed.

(** Writing a clock time and reading it back is the identity, checked on all
    1440 times of day. *)
Lemma parse_fmt_hhmm (h m : Z) (p : string) :
  0 ≤ h ≤ 23 → 0 ≤ m ≤ 59 → parse_clock (PStr (fmt_hhmm h m)) p = Ok (h, m).
Proof.
  intros Hh Hm.
  assert (forallb (λ h, forallb (λ m,
    match split_on ":" (fmt_hhmm h m) with
    | [x; y] => bool_decide (py_int x = Some h ∧ py_int y = Some m)
    | _ => false
    end) (seqZ 0 60)) (seqZ 0 24) = true) as Hall by (vm_compute; done).
  rewrite forallb_forall in Hall.
  specialize (Hall h ltac:(apply list_elem_of_In, elem_of_seqZ; lia)).
  rewrite forallb_forall in Hall.
  specialize (Hall m ltac:(apply list_elem_of_In, elem_of_seqZ; lia)).
  unfold parse_clock. destruct (split_on _ _) as [|x [|y [|]]]; try done.
  apply bool_decide_eq_true in Hall as [-> ->].
  rewrite (proj2 (andb_true_iff _ _)); [done|]. lia.
Qed.

#[export] Hint Resolve parse_clock_range : tlm.
