(* ===== verification/Env.v ===== *)
(** * What the capture core takes from outside the repository

    The timezone database, the sun computations of [astral], the
    coordinate-to-zone lookup of [tzfpy] and the ISO-8601 reader are not part of
    the repository.  They are the operations of the class [CaptureEnv], a
    parameter of every definition that calls them; what a theorem relies on is
    a named hypothesis about them.

    [capture/geo.py]: coordinates to zone, and the coordinate check shown to the
    operator. *)

From Stdlib Require Import SpecFloat.
From S2P Require Import Prelude PyTime PyVal.
From stdpp Require Import options.

(** Doubles: [SpecFloat] at binary64. *)
Abbreviation float := spec_float.
Definition float_of_Z (z : Z) : float := binary_normalize 53 1024 z 0 false.

Class CaptureEnv := {
  (** [ZoneInfo(key)]; [None] for [ZoneInfoNotFoundError] or [ValueError]. *)
  env_zoneinfo : string → option zoneinfo;
  (** [astral.sun.sun(observer, date, tzinfo)]: the ["sunrise"] and ["sunset"]
      entries, as UTC instants; [None] for [ValueError] (polar day or night). *)
  env_sun : float → float → Z → zoneinfo → option (option Z * option Z);
  (** [astral.sun.noon]; [None] for [ValueError]. *)
  env_noon : float → float → Z → zoneinfo → option Z;
  (** [astral.sun.elevation(observer, when)] at a UTC instant. *)
  env_elevation : float → float → Z → float;
  (** [tzfpy.get_tz(longitude, latitude)]. *)
  env_get_tz : float → float → string;
  (** [datetime.fromisoformat]; [None] for [ValueError]. *)
  env_fromisoformat : string → option pydatetime;
}.

(** ** capture/geo.py *)
Definition geo_in_range (latitude longitude : float) : bool :=
  SFleb (float_of_Z (-90)) latitude && SFleb latitude (float_of_Z 90) &&
  (SFleb (float_of_Z (-180)) longitude && SFleb longitude (float_of_Z 180)).

Inductive coord_code :=
  | coord_ok | coord_missing | coord_out_of_range | coord_suspect_null_island
  | coord_approximate.

(** [CoordinateCheck] without its display message. *)
Record CoordinateCheck := {
  cc_ok : bool;
  cc_code : coord_code;
  cc_timezone : option string;
  cc_approximate : bool;
}.

Section geo.
Context `{CaptureEnv}.

Definition resolve_timezone (latitude longitude : option float) : option string :=
  match latitude, longitude with
  | Some lat, Some lon =>
      if negb (geo_in_range lat lon) then None else Some (env_get_tz lon lat)
  | _, _ => None
  end.

Definition resolve_zoneinfo (latitude longitude : option float) : option zoneinfo :=
  match resolve_timezone latitude longitude with
  | None => None
  | Some name => env_zoneinfo name
  end.

Definition validate_coordinates (latitude longitude : option float) : CoordinateCheck :=
  match latitude, longitude with
  | Some lat, Some lon =>
      if negb (geo_in_range lat lon) then
        {| cc_ok := false; cc_code := coord_out_of_range;
           cc_timezone := None; cc_approximate := false |}
      else
        match resolve_timezone latitude longitude with
        | None =>
            {| cc_ok := false; cc_code := coord_out_of_range;
               cc_timezone := None; cc_approximate := false |}
        | Some tz =>
            let approximate := String.prefix "Etc/" tz in
            if SFeqb lat (float_of_Z 0) && SFeqb lon (float_of_Z 0) then
              {| cc_ok := true; cc_code := coord_suspect_null_island;
                 cc_timezone := Some tz; cc_approximate := approximate |}
            else if approximate then
              {| cc_ok := true; cc_code := coord_approximate;
                 cc_timezone := Some tz; cc_approximate := true |}
            else
              {| cc_ok := true; cc_code := coord_ok;
                 cc_timezone := Some tz; cc_approximate := false |}
        end
  | _, _ =>
      {| cc_ok := false; cc_code := coord_missing;
         cc_timezone := None; cc_approximate := false |}
  end.
End geo.

(** ** A concrete environment, for evaluating the definitions

    Zone ["Test/Spring"] is UTC-6 and moves to UTC-5 and back in 2024 on the
    dates of US daylight saving; ["Test/Fixed"] is UTC+2.  The sun rises at
    06:00 and sets at 18:00 UTC everywhere, except at latitude 89, where it
    does neither. *)
Definition tz_spring : zoneinfo :=
  ZI (-6 * HOUR)
     [ (1710057600 * SECOND, -5 * HOUR);     (* 2024-03-10 08:00 UTC *)
       (1730617200 * SECOND, -6 * HOUR) ].   (* 2024-11-03 07:00 UTC *)
Definition tz_fixed2 : zoneinfo := ZI (2 * HOUR) [].

Definition demo_env : CaptureEnv := {|
  env_zoneinfo key :=
    if String.eqb key "UTC" then Some UTC_zone
    else if String.eqb key "Test/Spring" then Some tz_spring
    else if String.eqb key "Test/Fixed" then Some tz_fixed2
    else None;
  env_sun lat lon d tz :=
    if SFeqb lat (float_of_Z 89) then None
    else Some (Some (d * DAY + 6 * HOUR), Some (d * DAY + 18 * HOUR));
  env_noon lat lon d tz := Some (d * DAY + 12 * HOUR);
  env_elevation lat lon u := float_of_Z 30;
  env_get_tz lon lat := "Test/Spring";
  env_fromisoformat s :=
    if String.eqb s "2024-03-11T00:00:00+00:00"
    then Some (PDT (19793 * DAY) (Some 0)) else None;
|}.

(** The operator-facing check accepts a pair exactly when the solar
    computations can use it: the check is [ok] precisely for the pairs
    [resolve_timezone] names a zone for, and reports that zone. *)
Lemma validate_coordinates_resolves `{CaptureEnv} (lat lon : option float) :
  cc_timezone (validate_coordinates lat lon) = resolve_timezone lat lon ∧
  cc_ok (validate_coordinates lat lon) = bool_decide (is_Some (resolve_timezone lat lon)).
Proof.
  unfold validate_coordinates, resolve_timezone.
  destruct lat as [lat|], lon as [lon|]; try done.
  destruct (geo_in_range lat lon); simpl; [|done].
  repeat case_match; simpl; split; try done; symmetry; by apply bool_decide_eq_true.
Qed.
