(* ===== verification/Schedule.v ===== *)
(** * The capture gate: capture/schedule.py

    Parsing of the stored schedule document, the gate predicate
    [is_within_window], its next change [next_transition], and the open
    stretches of a range.  Instants are UTC microseconds (see [PyTime]). *)

From Stdlib Require Import SpecFloat.
From S2P Require Import Prelude PyTime PyVal Env.
From stdpp Require Import pretty options.
Local Open Scope Z_scope.

Definition MAX_SCAN_DAYS : Z := 400.
Definition FULL_WEEK_MASK : Z := 127.

(** [_parse_hhmm]: a clock time as microseconds since local midnight. *)
Definition parse_hhmm (value : pyval) (field_path : string) : result Z :=
  hm ← parse_clock value field_path;
  Ok (hm.1 * HOUR + hm.2 * MINUTE).

(** [time.strftime("%H:%M")] *)
Definition strftime_hhmm (t : Z) : string := fmt_hhmm (t / HOUR) (t mod HOUR / MINUTE).

Record Window := MkWindow { start_time : string; end_time : string }.

(** [Window.contains]; [local_now] is the local wall reading. *)
Definition window_contains (w : Window) (local_now : Z) : result bool :=
  start ← parse_hhmm (PStr (start_time w)) "window.start_time";
  end_ ← parse_hhmm (PStr (end_time w)) "window.end_time";
  let current := time_of local_now in
  if start =? end_ then Ok true
  else if start <? end_ then Ok ((start <=? current) && (current <? end_))
  else Ok ((current >=? start) || (current <? end_)).

Inductive sun_event := sunrise | sunset.
Record SunAnchor := MkSunAnchor { sa_anchor : sun_event; sa_offset_minutes : Z }.

Record Schedule := MkSchedule {
  enabled : bool;
  timezone : string;
  windows : list Window;
  sun_window : option (SunAnchor * SunAnchor);
  day_of_week_mask : Z;
  start_date : option Z;
  end_date : option Z;
}.

(** The dataclass defaults: [Schedule()]. *)
Definition default_schedule : Schedule :=
  MkSchedule true "UTC" [] None FULL_WEEK_MASK None None.

(** [Schedule.__post_init__]: a naive campaign bound is read as UTC. *)
Definition mk_schedule (en : bool) (tz : string) (ws : list Window)
    (sw : option (SunAnchor * SunAnchor)) (mask : Z) (sd ed : option pydatetime) : Schedule :=
  MkSchedule en tz ws sw mask (aware_instant <$> sd) (aware_instant <$> ed).

Definition is_always_open (s : Schedule) : bool :=
  negb (enabled s) ||
  (match windows s with [] => true | _ => false end &&
   match sun_window s with None => true | _ => false end &&
   (day_of_week_mask s =? FULL_WEEK_MASK) &&
   match start_date s with None => true | _ => false end &&
   match end_date s with None => true | _ => false end).

(** [_parse_sun_anchor] *)
Definition parse_sun_anchor (raw : pyval) (field_path : string) : result SunAnchor :=
  match raw with
  | PDict kvs =>
      let anchor := dict_get kvs "anchor" PNone in
      if negb (val_in_strs anchor ["sunrise"; "sunset"]) then
        Raise (ValueError (field_path +:+ ".anchor"))
      else
        match dict_get kvs "offset_minutes" (PInt 0) with
        | PInt offset =>
            Ok (MkSunAnchor (if val_eq_str anchor "sunrise" then sunrise else sunset) offset)
        | _ => Raise (ValueError (field_path +:+ ".offset_minutes"))
        end
  | _ => Raise (ValueError field_path)
  end.

(** [_parse_sun_window] *)
Definition parse_sun_window (raw : pyval) : result (option (SunAnchor * SunAnchor)) :=
  match raw with
  | PNone => Ok None
  | PList [o; c] =>
      open_anchor ← parse_sun_anchor o "sun_window[0]";
      close_anchor ← parse_sun_anchor c "sun_window[1]";
      Ok (Some (open_anchor, close_anchor))
  | _ => Raise (ValueError "sun_window")
  end.

(** One item of the ["windows"] list: validated and rewritten in canonical
    form. *)
Definition parse_window (index : nat) (item : pyval) : result Window :=
  let path := "windows[" +:+ pretty index +:+ "]" in
  match item with
  | PDict kvs =>
      start ← parse_hhmm (dict_get kvs "start_time" PNone) (path +:+ ".start_time");
      end_ ← parse_hhmm (dict_get kvs "end_time" PNone) (path +:+ ".end_time");
      Ok (MkWindow (strftime_hhmm start) (strftime_hhmm end_))
  | _ => Raise (ValueError path)
  end.

Section schedule.
Context `{CaptureEnv}.

(** [Schedule.tzinfo()] *)
Definition schedule_tzinfo (s : Schedule) : result zoneinfo :=
  match env_zoneinfo (timezone s) with
  | Some tz => Ok tz
  | None => Raise (ZoneInfoNotFoundError (timezone s))
  end.

(** [_parse_aware_datetime] *)
Definition parse_aware_datetime (value : pyval) (field_path : string) : result pydatetime :=
  parsed ← match value with
           | PDatetime d => Ok d
           | PStr s =>
               match env_fromisoformat s with
               | Some d => Ok d
               | None => Raise (ValueError field_path)
               end
           | _ => Raise (ValueError field_path)
           end;
  match pdt_off parsed with
  | None => Ok (PDT (pdt_wall parsed) (Some 0))
  | Some _ => Ok parsed
  end.

(** An optional campaign bound: absent and [null] both mean no bound. *)
Definition parse_bound (kvs : list (string * pyval)) (key : string)
    : result (option pydatetime) :=
  match dict_get kvs key PNone with
  | PNone => Ok None
  | v => Some <$> parse_aware_datetime v key
  end.

(** [parse_schedule]; [raw] is [None] or a JSON object. *)
Definition parse_schedule (raw : option (list (string * pyval))) : result Schedule :=
  match raw with
  | None | Some [] => Ok default_schedule
  | Some kvs =>
      let en := truthy (dict_get kvs "enabled" (PBool true)) in
      match dict_get kvs "timezone" (PStr "UTC") with
      | PStr tz_name =>
          match env_zoneinfo tz_name with
          | None => Raise (ValueError "timezone")
          | Some _ =>
              let raw_windows := dict_get kvs "windows" (PList []) in
              ws ← match (if truthy raw_windows then raw_windows else PList []) with
                   | PList items => traverse (λ ix, parse_window ix.1 ix.2) (imap pair items)
                   | _ => Raise (ValueError "windows")
                   end;
              sw ← parse_sun_window (dict_get kvs "sun_window" PNone);
              mask ← match dict_get kvs "day_of_week_mask" (PInt FULL_WEEK_MASK) with
                     | PInt mask =>
                         if (0 <=? mask) && (mask <=? FULL_WEEK_MASK) then Ok mask
                         else Raise (ValueError "day_of_week_mask")
                     | _ => Raise (ValueError "day_of_week_mask")
                     end;
              sd ← parse_bound kvs "start_date";
              ed ← parse_bound kvs "end_date";
              Ok (mk_schedule en tz_name ws sw mask sd ed)
          end
      | _ => Raise (ValueError "timezone")
      end
  end.

(** [compute_sun_times]: [(None, None)] on polar degeneracy. *)
Definition compute_sun_times (lat lon : float) (on_date : Z) (tz : zoneinfo)
    : option Z * option Z :=
  match env_sun lat lon on_date tz with
  | None => (None, None)
  | Some events => events
  end.

Definition compute_solar_noon (lat lon : float) (on_date : Z) (tz : zoneinfo) : option Z :=
  env_noon lat lon on_date tz.

(** [_sun_is_up_at_noon] *)
Definition sun_is_up_at_noon (lat lon : float) (on_date : Z) (tz : zoneinfo) : bool :=
  SFltb (S754_zero false)
    (env_elevation lat lon (wall_to_utc tz (dt_combine on_date (12 * HOUR)))).

(** [_anchor_instant] *)
Definition anchor_instant (a : SunAnchor) (sunrise_utc sunset_utc : Z) : result Z :=
  let base := match sa_anchor a with sunrise => sunrise_utc | sunset => sunset_utc end in
  offset ← timedelta_minutes (sa_offset_minutes a);
  dt_plus base offset.

(** [_in_sun_window]; [local_now] is the aware local reading. *)
Definition in_sun_window (s : Schedule) (local_now : local_dt)
    (latitude longitude : option float) : result bool :=
  match sun_window s, latitude, longitude with
  | Some (open_anchor, close_anchor), Some lat, Some lon =>
      tz ← schedule_tzinfo s;
      let on_date := date_of (ld_wall local_now) in
      match compute_sun_times lat lon on_date tz with
      | (Some sunrise_utc, Some sunset_utc) =>
          open_at ← anchor_instant open_anchor sunrise_utc sunset_utc;
          close_at ← anchor_instant close_anchor sunrise_utc sunset_utc;
          let now_utc := to_utc tz local_now in
          if open_at <=? close_at
          then Ok ((open_at <=? now_utc) && (now_utc <? close_at))
          else Ok ((now_utc >=? open_at) || (now_utc <? close_at))
      | _ => Ok (sun_is_up_at_noon lat lon on_date tz)
      end
  | _, _, _ => Ok false
  end.

Definition is_within_window (s : Schedule) (now : Z) (latitude longitude : option float)
    : result bool :=
  if negb (enabled s) then Ok true
  else if match start_date s with Some d => now <? d | None => false end then Ok false
  else if match end_date s with Some d => now >=? d | None => false end then Ok false
  else
    tz ← schedule_tzinfo s;
    let local_now := astimezone tz now in
    if Z.land (Z.shiftr (day_of_week_mask s) (weekday (date_of (ld_wall local_now)))) 1 =? 0
    then Ok false
    else
      let has_clock := match windows s with [] => false | _ => true end in
      let has_sun := match sun_window s with None => false | _ => true end in
      if negb has_clock && negb has_sun then Ok true
      else
        in_clock ← (if has_clock
                    then any_result (λ w, window_contains w (ld_wall local_now)) (windows s)
                    else Ok false);
        in_sun ← (if has_sun then in_sun_window s local_now latitude longitude
                  else Ok false);
        Ok (in_clock || in_sun).

(** [_local_wall_to_utc] *)
Definition local_wall_to_utc (local_day wall : Z) (tz : zoneinfo) : Z :=
  wall_to_utc tz (dt_combine local_day wall).

(** The candidates of one window, and of one local day, in [_iter_candidates]. *)
Definition window_candidates (tz : zoneinfo) (local_day : Z) (w : Window) : result (list Z) :=
  start ← parse_hhmm (PStr (start_time w)) "window.start_time";
  end_ ← parse_hhmm (PStr (end_time w)) "window.end_time";
  Ok [local_wall_to_utc local_day start tz; local_wall_to_utc local_day end_ tz].

Definition sun_candidates (s : Schedule) (tz : zoneinfo) (latitude longitude : option float)
    (local_day : Z) : result (list Z) :=
  match sun_window s, latitude, longitude with
  | Some (open_anchor, close_anchor), Some lat, Some lon =>
      match compute_sun_times lat lon local_day tz with
      | (Some sunrise_utc, Some sunset_utc) =>
          open_at ← anchor_instant open_anchor sunrise_utc sunset_utc;
          close_at ← anchor_instant close_anchor sunrise_utc sunset_utc;
          Ok [open_at; close_at]
      | _ => Ok []
      end
  | _, _, _ => Ok []
  end.

Definition day_candidates (s : Schedule) (tz : zoneinfo) (latitude longitude : option float)
    (local_day : Z) : result (list Z) :=
  edges ← traverse (window_candidates tz local_day) (windows s);
  sun ← sun_candidates s tz latitude longitude local_day;
  Ok (local_wall_to_utc local_day 0 tz :: mjoin edges ++ sun).

(** [_iter_candidates]: the set of candidate instants in
    [(now_utc, now_utc + horizon]], sorted. *)
Definition iter_candidates (s : Schedule) (now_utc : Z) (tz : zoneinfo)
    (latitude longitude : option float) (horizon_days : Z) : result (list Z) :=
  let local_start_day := date_of (ld_wall (astimezone tz now_utc)) in
  days ← traverse (λ day_offset,
           day_candidates s tz latitude longitude (local_start_day + day_offset))
           (seqZ 0 (horizon_days + 1));
  let candidates : gmap Z () :=
    set_of_list (option_list (start_date s) ++ option_list (end_date s) ++ mjoin days) in
  let horizon := now_utc + horizon_days * DAY in
  Ok (merge_sort Z.le
        (filter (λ c, now_utc < c ∧ c ≤ horizon) (map_to_list candidates).*1)).

(** The search loop of [next_transition]. *)
Fixpoint first_change (s : Schedule) (latitude longitude : option float)
    (open_now : bool) (now_utc : Z) (cs : list Z) : result (option Z) :=
  match cs with
  | [] => Ok None
  | candidate :: cs =>
      if candidate <=? now_utc then first_change s latitude longitude open_now now_utc cs
      else
        state ← is_within_window s candidate latitude longitude;
        if negb (Bool.eqb state open_now) then Ok (Some candidate)
        else first_change s latitude longitude open_now now_utc cs
  end.

Definition next_transition (s : Schedule) (now : Z) (latitude longitude : option float)
    : result (bool * option Z) :=
  open_now ← is_within_window s now latitude longitude;
  if is_always_open s then Ok (open_now, None)
  else
    tz ← schedule_tzinfo s;
    if match end_date s with Some d => now >=? d | None => false end
    then Ok (open_now, None)
    else
      cs ← iter_candidates s now tz latitude longitude MAX_SCAN_DAYS;
      change ← first_change s latitude longitude open_now now cs;
      Ok (open_now, change).

(** The loop of [open_stretches]: [opened] is the pending opening, [acc] the
    stretches closed so far. *)
Fixpoint stretch_loop (s : Schedule) (latitude longitude : option float)
    (opened : option Z) (acc : list (Z * Z)) (instants : list Z)
    : result (option Z * list (Z * Z)) :=
  match instants with
  | [] => Ok (opened, acc)
  | instant :: rest =>
      state ← is_within_window s instant latitude longitude;
      match (state : bool), opened with
      | true, None => stretch_loop s latitude longitude (Some instant) acc rest
      | false, Some o =>
          stretch_loop s latitude longitude None (acc ++ [(o, instant)]) rest
      | _, _ => stretch_loop s latitude longitude opened acc rest
      end
  end.

Definition open_stretches (s : Schedule) (start end_ : Z) (latitude longitude : option float)
    : result (list (Z * Z)) :=
  if end_ <=? start then Ok []
  else if is_always_open s then Ok [(start, end_)]
  else
    let span_days := (end_ - start) / DAY + 1 in
    tz ← schedule_tzinfo s;
    cs ← iter_candidates s start tz latitude longitude span_days;
    let edges := filter (λ c, c < end_) cs in
    r ← stretch_loop s latitude longitude None [] (start :: edges);
    Ok (match r.1 with
        | Some o => r.2 ++ [(o, end_)]
        | None => r.2
        end).
End schedule.

(** ** Evaluation on concrete schedules *)
Definition at_utc (day hour minute : Z) : Z := day * DAY + hour * HOUR + minute * MINUTE.

Definition office_hours : Schedule :=
  MkSchedule true "Test/Fixed" [MkWindow "09:00" "17:30"] None 31 None None.
