(* ===== verification/ScheduleFacts.v ===== *)
(** * Correctness of the capture gate

    The gate changes only at the candidate instants [next_transition] and
    [open_stretches] evaluate, hence the change they report is the first one and
    the stretches they list are exactly the open time; a parsed schedule makes the
    evaluator raise only where a sun offset leaves the calendar. *)

From Stdlib Require Import SpecFloat.
From S2P Require Import Prelude PyTime PyVal Env Schedule.
From stdpp Require Import options.
Local Open Scope Z_scope.

(** A window whose two ends read as clock times. *)
Definition window_ok (w : Window) : Prop :=
  is_ok (parse_hhmm (PStr (start_time w)) "window.start_time") ∧
  is_ok (parse_hhmm (PStr (end_time w)) "window.end_time").

(** A schedule the evaluator can run: a known zone and readable windows. *)
Definition schedule_ok `{CaptureEnv} (s : Schedule) : Prop :=
  is_Some (env_zoneinfo (timezone s)) ∧ Forall window_ok (windows s).

Lemma parse_hhmm_range (v : pyval) (p : string) (t : Z) :
  parse_hhmm v p = Ok t → 0 ≤ t < DAY.
Proof.
  unfold parse_hhmm. intros ([h m] & Hhm & [= <-])%bind_ok.
  apply parse_clock_range in Hhm. unfold_time. lia.
Qed.

(** On the local day [d] a sun offset of the schedule takes the sunrise or sunset it is
    relative to out of the calendar. *)
Definition sun_leaves_calendar `{CaptureEnv} (s : Schedule) (tz : zoneinfo)
    (lat lon : option float) (d : Z) : Prop :=
  ∃ opening closing la lo sunrise_utc sunset_utc a,
    sun_window s = Some (opening, closing) ∧ lat = Some la ∧ lon = Some lo ∧
    compute_sun_times la lo d tz = (Some sunrise_utc, Some sunset_utc) ∧
    (a = opening ∨ a = closing) ∧
    let base := match sa_anchor a with sunrise => sunrise_utc | sunset => sunset_utc end in
    (in_calendar base = true → in_calendar (base + sa_offset_minutes a * MINUTE) = false).

Lemma anchor_instant_cases (a : SunAnchor) (sr ss : Z) :
  is_ok (anchor_instant a sr ss) ∨
  anchor_instant a sr ss = Raise OverflowError ∧
  (let base := match sa_anchor a with sunrise => sr | sunset => ss end in
   in_calendar base = true → in_calendar (base + sa_offset_minutes a * MINUTE) = false).
Proof.
  unfold anchor_instant, timedelta_minutes, dt_plus. set (x := sa_offset_minutes a * MINUTE).
  set (base := match sa_anchor a with sunrise => sr | sunset => ss end).
  destruct (_ && _) eqn:Hb; cbn [mbind result_bind].
  - destruct (in_calendar _) eqn:Hc; [left; by eexists|]. by right.
  - right. split; [done|]. revert Hb. clearbody x base.
    unfold in_calendar, DATETIME_MIN, DATETIME_END. unfold_time. lia.
Qed.

(** The sun candidates of a day, or an offset that leaves the calendar. *)
Lemma sun_candidates_cases `{CaptureEnv} (s : Schedule) (tz : zoneinfo) (lat lon : option float)
    (d : Z) :
  is_ok (sun_candidates s tz lat lon d) ∨
  sun_candidates s tz lat lon d = Raise OverflowError ∧ sun_leaves_calendar s tz lat lon d.
Proof.
  unfold sun_candidates. destruct (sun_window s) as [[oa ca]|] eqn:Hsw; [|left; by eexists].
  destruct lat as [la|]; [|left; by eexists]. destruct lon as [lo|]; [|left; by eexists].
  destruct (compute_sun_times la lo d tz) as [[sr|] [ss|]] eqn:Ht; try (left; by eexists).
  destruct (anchor_instant_cases oa sr ss) as [[o ->]|[-> Ho]]; cbn [mbind result_bind].
  - destruct (anchor_instant_cases ca sr ss) as [[c ->]|[-> Hc]]; cbn [mbind result_bind];
      [left; by eexists|right; split; [done|]].
    exists oa, ca, la, lo, sr, ss, ca. by split_and!; [..|right|].
  - right; split; [done|]. exists oa, ca, la, lo, sr, ss, oa. by split_and!; [..|left|].
Qed.

Section piecewise.
Context `{CaptureEnv} (s : Schedule) (lat lon : option float) (tz : zoneinfo).
Context (Htz : env_zoneinfo (timezone s) = Some tz).
Context (Hws : Forall window_ok (windows s)).
Context (Hzone : zone_ok tz = true).
Context (lo hi off : Z) (Hsteady : steady tz lo hi off).
Context (Hsun : ∀ d, date_of (lo + off) ≤ d ≤ date_of (hi + off) →
  is_ok (sun_candidates s tz lat lon d)).

(** The instants at which the gate may change, in [(lo, hi]]. *)
Context (cs : list Z).
Context (Hstart : ∀ c, start_date s = Some c → lo < c ≤ hi → c ∈ cs).
Context (Hend : ∀ c, end_date s = Some c → lo < c ≤ hi → c ∈ cs).
Context (Hday : ∀ d l c,
  date_of (lo + off) ≤ d ≤ date_of (hi + off) →
  day_candidates s tz lat lon d = Ok l → c ∈ l → lo < c ≤ hi → c ∈ cs).

Lemma steady_wall (u : Z) : lo ≤ u ≤ hi → ld_wall (astimezone tz u) = u + off.
Proof using Hsteady. intros Hu. simpl. by rewrite (proj1 (Hsteady u Hu)). Qed.

Lemma steady_local_wall (d t u : Z) :
  dt_combine d t = u + off → lo ≤ u ≤ hi → local_wall_to_utc d t tz = u.
Proof using Hsteady.
  intros He Hu. unfold local_wall_to_utc. rewrite He. by apply (Hsteady u Hu).
Qed.

Lemma day_candidates_ok (d : Z) (sun : list Z) :
  sun_candidates s tz lat lon d = Ok sun →
  ∃ edges, traverse (window_candidates tz d) (windows s) = Ok edges ∧
  day_candidates s tz lat lon d =
    Ok (local_wall_to_utc d 0 tz :: mjoin edges ++ sun).
Proof using Hws.
  intros Hs.
  destruct (traverse_is_ok (window_candidates tz d) (windows s)) as [edges He].
  - eapply Forall_impl; [exact Hws|]. intros w [[a Ha] [b Hb]].
    unfold window_candidates. rewrite Ha, Hb. by eexists.
  - exists edges. split; [done|]. unfold day_candidates. by rewrite He, Hs.
Qed.

Section stretch.
Context (t1 t2 : Z) (H1 : lo ≤ t1) (H12 : t1 ≤ t2) (H2 : t2 ≤ hi).
Context (Hnone : ∀ c, c ∈ cs → ¬ (t1 < c ≤ t2)).

Lemma same_date : date_of (t1 + off) = date_of (t2 + off).
Proof using All.
  destruct (decide (date_of (t1 + off) = date_of (t2 + off))) as [|Hne]; [done|exfalso].
  set (d := date_of (t2 + off)) in *. set (m := d * DAY - off).
  assert (t1 < m ≤ t2) as Hm by (subst m d; time_lia).
  destruct (Hsun d) as [sun Hs]; [subst d; time_lia|].
  destruct (day_candidates_ok d sun Hs) as (edges & _ & Hd).
  apply (Hnone m); [|done]. apply (Hday d _ m) in Hd; [done| | |lia].
  - subst d; time_lia.
  - rewrite (steady_local_wall d 0 m); [set_solver| |lia]. subst m. unfold dt_combine. lia.
Qed.

Lemma date_in_range : date_of (lo + off) ≤ date_of (t2 + off) ≤ date_of (hi + off).
Proof using H1 H12 H2. time_lia. Qed.

(** A clock edge [a] of the common day is on the same side of both. *)
Lemma same_side_clock (w : Window) (a b : Z) :
  w ∈ windows s →
  parse_hhmm (PStr (start_time w)) "window.start_time" = Ok a →
  parse_hhmm (PStr (end_time w)) "window.end_time" = Ok b →
  ∀ e, e = a ∨ e = b →
  (e <=? time_of (t1 + off)) = (e <=? time_of (t2 + off)) ∧
  (time_of (t1 + off) <? e) = (time_of (t2 + off) <? e).
Proof using All.
  intros Hw Ha Hb e He. pose proof same_date as Hdate.
  set (d := date_of (t2 + off)) in *. set (x := d * DAY + e - off).
  assert (0 ≤ e < DAY) by
    (destruct He as [->| ->]; eauto using parse_hhmm_range).
  assert (¬ (t1 < x ≤ t2)) as Hx.
  { intros Hx. destruct (Hsun d) as [sun Hs]; [apply date_in_range|].
    destruct (day_candidates_ok d sun Hs) as (edges & Hedges & Hd).
    apply (Hnone x); [|done]. apply (Hday d _ x date_in_range Hd); [|lia].
    apply elem_of_cons; right. apply elem_of_app; left. apply list_elem_of_join.
    destruct (traverse_elem_l _ _ _ _ Hedges Hw) as (l & Hl & Hwl).
    exists l. split; [|done]. unfold window_candidates in Hwl. rewrite Ha, Hb in Hwl.
    injection Hwl as <-.
    destruct He as [<-| <-];
      (rewrite (steady_local_wall d e x); [set_solver|subst x; unfold dt_combine; lia|lia]). }
  assert (time_of (t1 + off) = t1 + off - d * DAY ∧ time_of (t2 + off) = t2 + off - d * DAY)
    as [-> ->].
  { revert Hdate. subst d. clear. intros Hdate. split; [rewrite <-Hdate|]; time_lia. }
  destruct (no_cross x t1 t2 H12 Hx) as [Hc1 Hc2]. subst x.
  revert Hc1 Hc2. clear. intros. split; repeat case_cmp; lia.
Qed.

(** A sun anchor of the common day is on the same side of both. *)
Lemma same_side_sun (sun : list Z) (x : Z) :
  sun_candidates s tz lat lon (date_of (t2 + off)) = Ok sun → x ∈ sun →
  (x <=? t1) = (x <=? t2) ∧ (t1 <? x) = (t2 <? x).
Proof using All.
  intros Hs Hx. apply no_cross; [done|]. intros Hin.
  destruct (day_candidates_ok (date_of (t2 + off)) sun Hs) as (edges & _ & Hd).
  apply (Hnone x); [|done]. apply (Hday _ _ x date_in_range Hd); [|lia].
  apply elem_of_cons; right. apply elem_of_app; by right.
Qed.

Lemma same_clock (w : Window) :
  w ∈ windows s → window_contains w (t1 + off) = window_contains w (t2 + off).
Proof using All.
  intros Hw. destruct (proj1 (Forall_forall _ _) Hws w Hw) as [[a Ha] [b Hb]].
  pose proof (same_side_clock w a b Hw Ha Hb a (or_introl eq_refl)) as [Ha1 Ha2].
  pose proof (same_side_clock w a b Hw Ha Hb b (or_intror eq_refl)) as [Hb1 Hb2].
  unfold window_contains. rewrite Ha, Hb. simpl.
  by rewrite !Z.geb_leb, Ha1, Hb2.
Qed.

Lemma same_sun (l1 l2 : local_dt) :
  l1 = astimezone tz t1 → l2 = astimezone tz t2 →
  in_sun_window s l1 lat lon = in_sun_window s l2 lat lon.
Proof using All.
  intros -> ->. pose proof same_date as Hdate. pose proof same_side_sun as Hside.
  unfold in_sun_window, schedule_tzinfo. rewrite Htz.
  destruct (sun_window s) as [[oa ca]|] eqn:Hsw; [|done].
  destruct lat as [la|] eqn:Hla; [|done]. destruct lon as [lo'|] eqn:Hlo; [|done].
  cbn -[date_of astimezone to_utc].
  rewrite !to_utc_astimezone, !steady_wall, Hdate by (done || lia).
  destruct (Hsun _ date_in_range) as [sun Hs]. specialize (λ x, Hside sun x Hs).
  unfold sun_candidates in Hs. rewrite Hsw in Hs.
  destruct (compute_sun_times la lo' _ tz) as [[sr|] [ss|]]; try done.
  destruct (anchor_instant oa sr ss) as [oi|]; [|done].
  destruct (anchor_instant ca sr ss) as [ci|]; [|done].
  cbn [mbind result_bind] in *. injection Hs as <-.
  destruct (Hside oi) as [Ho1 Ho2]; [set_solver|].
  destruct (Hside ci) as [Hc1 Hc2]; [set_solver|].
  by rewrite !Z.geb_leb, Ho1, Hc2.
Qed.

Lemma same_gate : is_within_window s t1 lat lon = is_within_window s t2 lat lon.
Proof using All.
  unfold is_within_window, schedule_tzinfo. rewrite Htz.
  destruct (enabled s); cbn [negb]; [|done].
  assert (match start_date s with Some d => t1 <? d | None => false end =
          match start_date s with Some d => t2 <? d | None => false end) as ->.
  { destruct (start_date s) as [c|] eqn:Hc; [|done].
    apply no_cross; [done|]. intros Hin. apply (Hnone c); [|done]. apply Hstart; [done|lia]. }
  assert (match end_date s with Some d => t1 >=? d | None => false end =
          match end_date s with Some d => t2 >=? d | None => false end) as ->.
  { destruct (end_date s) as [c|] eqn:Hc; [|done]. rewrite !Z.geb_leb.
    apply no_cross; [done|]. intros Hin. apply (Hnone c); [|done]. apply Hend; [done|lia]. }
  do 2 lazymatch goal with |- (if ?b then _ else _) = _ => destruct b; [done|] end.
  cbn [mbind result_bind].
  rewrite (same_sun _ _ eq_refl eq_refl).
  pose proof (steady_wall t1 ltac:(lia)) as Hw1. pose proof (steady_wall t2 ltac:(lia)) as Hw2.
  rewrite Hw1, Hw2, same_date.
  rewrite (any_result_ext (λ w, window_contains w (t1 + off))
             (λ w, window_contains w (t2 + off))); [done|].
  apply same_clock.
Qed.
End stretch.

Lemma gate_steps_only_at :
  steps_only_at (λ t, is_within_window s t lat lon) lo hi cs.
Proof using All. intros t1 t2 ????. by apply same_gate. Qed.
End piecewise.

(** ** The evaluator never raises on a runnable schedule *)
Lemma window_contains_is_ok (w : Window) (t : Z) : window_ok w → is_ok (window_contains w t).
Proof.
  intros [[a Ha] [b Hb]]. unfold window_contains. rewrite Ha, Hb. cbn [mbind result_bind].
  repeat case_match; by eexists.
Qed.

Section gate.
Context `{CaptureEnv} (s : Schedule) (lat lon : option float) (tz : zoneinfo).
Context (Htz : env_zoneinfo (timezone s) = Some tz).

(** The sun window is evaluated where the candidates of its day are. *)
Lemma in_sun_window_cases (l : local_dt) :
  is_ok (in_sun_window s l lat lon) ∨
  in_sun_window s l lat lon = Raise OverflowError ∧
  sun_candidates s tz lat lon (date_of (ld_wall l)) = Raise OverflowError.
Proof using Htz.
  unfold in_sun_window, sun_candidates, schedule_tzinfo. rewrite Htz. cbn [mbind result_bind].
  destruct (sun_window s) as [[oa ca]|]; [|left; by eexists].
  destruct lat as [la|]; [|left; by eexists]. destruct lon as [lo|]; [|left; by eexists].
  cbn [mbind result_bind].
  destruct (compute_sun_times la lo _ tz) as [[sr|] [ss|]]; try (left; by eexists).
  destruct (anchor_instant_cases oa sr ss) as [[o ->]|[-> _]]; cbn [mbind result_bind]; [|by right].
  destruct (anchor_instant_cases ca sr ss) as [[c ->]|[-> _]]; cbn [mbind result_bind]; [|by right].
  left. case_match; by eexists.
Qed.

Context (Hws : Forall window_ok (windows s)).

Lemma gate_cases (t : Z) :
  is_ok (is_within_window s t lat lon) ∨
  is_within_window s t lat lon = Raise OverflowError ∧
  sun_candidates s tz lat lon (date_of (ld_wall (astimezone tz t))) = Raise OverflowError.
Proof using All.
  unfold is_within_window, schedule_tzinfo. rewrite Htz.
  destruct (any_result_is_ok (λ w, window_contains w (ld_wall (astimezone tz t))) (windows s))
    as [a Ha].
  { eapply Forall_impl; [exact Hws|]. intros w Hw. by apply window_contains_is_ok. }
  cbn [mbind result_bind]. rewrite Ha.
  destruct (in_sun_window_cases (astimezone tz t)) as [[b Hb]|[Hb Hs]]; rewrite Hb; cbn [mbind result_bind];
    [left|rewrite Hs];
    repeat match goal with
      | |- is_ok (if ?c then _ else _) => destruct c
      | |- is_ok (if ?c then _ else _) ∨ _ => destruct c
      end; try (by eexists); try (left; by eexists);
    repeat case_match; simplify_eq; try (by eexists); try (left; by eexists); by right.
Qed.

Lemma gate_is_ok (t : Z) :
  is_ok (sun_candidates s tz lat lon (date_of (ld_wall (astimezone tz t)))) →
  is_ok (is_within_window s t lat lon).
Proof using All. intros [l Hl]. destruct (gate_cases t) as [?|[_ Hr]]; [done|]. by rewrite Hl in Hr. Qed.

(** The candidates of a day with readable windows fail only on the sun. *)
Lemma day_candidates_cases (d : Z) :
  is_ok (day_candidates s tz lat lon d) ∨
  day_candidates s tz lat lon d = Raise OverflowError ∧
  sun_candidates s tz lat lon d = Raise OverflowError.
Proof using Hws.
  destruct (traverse_is_ok (window_candidates tz d) (windows s)) as [edges He].
  { eapply Forall_impl; [exact Hws|]. intros w [[a Ha] [b Hb]].
    unfold window_candidates. rewrite Ha, Hb. by eexists. }
  unfold day_candidates. rewrite He. cbn [mbind result_bind].
  destruct (sun_candidates_cases s tz lat lon d) as [[sun ->]|[-> _]]; cbn [mbind result_bind];
    [left; by eexists|by right].
Qed.
End gate.

Lemma weekday_bounds (d : Z) : 0 ≤ weekday d < 7.
Proof. unfold weekday. apply Z.mod_pos_bound. lia. Qed.

(** A schedule with nothing that could close it is open at every instant. *)
Lemma always_open_gate `{CaptureEnv} (s : Schedule) (t : Z) (lat lon : option float) :
  schedule_ok s → is_always_open s = true → is_within_window s t lat lon = Ok true.
Proof.
  intros [[tz Htz] _] Ho. unfold is_always_open in Ho.
  unfold is_within_window, schedule_tzinfo. rewrite Htz.
  destruct (enabled s); [|done]. simpl in Ho.
  rewrite !andb_true_iff in Ho. destruct Ho as ((((Hw & Hsw) & Hm%Z.eqb_eq) & Hsd) & Hed).
  destruct (windows s), (sun_window s), (start_date s), (end_date s); try done.
  rewrite Hm. cbn [mbind result_bind negb].
  pose proof (weekday_bounds (date_of (ld_wall (astimezone tz t)))) as Hwd.
  set (wd := weekday _) in *. clearbody wd.
  assert (wd = 0 ∨ wd = 1 ∨ wd = 2 ∨ wd = 3 ∨ wd = 4 ∨ wd = 5 ∨ wd = 6) as Hc by lia.
  by repeat destruct Hc as [->|Hc]; [..|subst].
Qed.

(** A campaign that has ended keeps its gate. *)
Lemma ended_gate `{CaptureEnv} (s : Schedule) (now t : Z) (lat lon : option float) :
  match end_date s with Some d => now >=? d | None => false end = true → now ≤ t →
  is_within_window s t lat lon = is_within_window s now lat lon.
Proof.
  intros He Ht. destruct (end_date s) as [d|] eqn:Hd; [|done]. unfold is_within_window. rewrite Hd.
  destruct (negb (enabled s)); [done|].
  rewrite (proj2 (Z.geb_le now d)), (proj2 (Z.geb_le t d)) by lia.
  by repeat case_match.
Qed.

Lemma sun_raise_leaves `{CaptureEnv} (s : Schedule) (tz : zoneinfo) (lat lon : option float) (d : Z) :
  sun_candidates s tz lat lon d = Raise OverflowError → sun_leaves_calendar s tz lat lon d.
Proof. intros Hr. destruct (sun_candidates_cases s tz lat lon d) as [[l Hl]|[_ ?]]; [congruence|done]. Qed.

(** ** The candidate list *)
Section candidates.
Context `{CaptureEnv} (s : Schedule) (lat lon : option float) (tz : zoneinfo).
Context (Hws : Forall window_ok (windows s)).

Lemma iter_candidates_spec (now n : Z) :
  (∀ i, 0 ≤ i ≤ n →
     is_ok (sun_candidates s tz lat lon (date_of (ld_wall (astimezone tz now)) + i))) →
  ∃ cs, iter_candidates s now tz lat lon n = Ok cs ∧ StronglySorted Z.le cs ∧
  ∀ c, c ∈ cs ↔ now < c ≤ now + n * DAY ∧
    (start_date s = Some c ∨ end_date s = Some c ∨
     ∃ i l, 0 ≤ i ≤ n ∧ c ∈ l ∧
       day_candidates s tz lat lon (date_of (ld_wall (astimezone tz now)) + i) = Ok l).
Proof using Hws.
  intros Hsun. unfold iter_candidates. set (D := date_of _) in *.
  destruct (traverse_is_ok (λ i, day_candidates s tz lat lon (D + i)) (seqZ 0 (n + 1)))
    as [days Hdays].
  { apply Forall_forall. intros i Hi%elem_of_seqZ. destruct (Hsun i) as [sun Hs]; [lia|].
    destruct (day_candidates_ok s lat lon tz Hws (D + i) sun Hs) as (? & _ & ->). by eexists. }
  rewrite Hdays. cbn [mbind result_bind].
  eexists. split; [done|]. split; [apply StronglySorted_merge_sort; apply _|].
  intros c. rewrite merge_sort_Permutation, list_elem_of_filter, elem_of_set_of_list.
  rewrite !elem_of_app, !elem_of_option_list, list_elem_of_join. f_equiv. f_equiv. f_equiv.
  split.
  - intros (l & Hc & Hl). destruct (traverse_elem_r _ _ _ _ Hdays Hl) as (i & Hi%elem_of_seqZ & ?).
    exists i, l. split; [lia|done].
  - intros (i & l & Hi & Hc & Hl).
    destruct (traverse_elem_l _ _ _ i Hdays) as (l' & Hl' & ?); [apply elem_of_seqZ; lia|].
    exists l'. split; [congruence|done].
Qed.

(** Otherwise a scanned day's sun offsets leave the calendar. *)
Lemma iter_candidates_cases (now n : Z) :
  (∀ i, 0 ≤ i ≤ n →
     is_ok (sun_candidates s tz lat lon (date_of (ld_wall (astimezone tz now)) + i))) ∨
  iter_candidates s now tz lat lon n = Raise OverflowError ∧
  ∃ i, 0 ≤ i ≤ n ∧
    sun_candidates s tz lat lon (date_of (ld_wall (astimezone tz now)) + i) = Raise OverflowError.
Proof using Hws.
  unfold iter_candidates. set (D := date_of _).
  destruct (traverse (λ i, day_candidates s tz lat lon (D + i)) (seqZ 0 (n + 1))) as [days|e] eqn:Ht.
  - left. intros i Hi. destruct (traverse_elem_l _ _ _ i Ht) as (l & _ & Hl); [apply elem_of_seqZ; lia|].
    destruct (sun_candidates_cases s tz lat lon (D + i)) as [?|[Hr _]]; [done|].
    unfold day_candidates in Hl. apply bind_ok in Hl as (? & _ & (sun & Hsun & _)%bind_ok). by eexists.
  - right. apply traverse_raise in Ht as (i & Hi%elem_of_seqZ & Hd).
    destruct (day_candidates_cases s lat lon tz Hws (D + i)) as [[l Hl]|[Hr Hs]]; [congruence|].
    assert (e = OverflowError) as -> by congruence. split; [done|]. exists i. split; [lia|done].
Qed.
End candidates.

(** The candidates of a range cover every change of the gate in it. *)
Lemma candidates_cover `{CaptureEnv} (s : Schedule) (lat lon : option float) (tz : zoneinfo)
    (now n off : Z) :
  env_zoneinfo (timezone s) = Some tz → Forall window_ok (windows s) → zone_ok tz = true →
  0 ≤ n → steady tz now (now + n * DAY) off →
  (∀ i, 0 ≤ i ≤ n →
     is_ok (sun_candidates s tz lat lon (date_of (ld_wall (astimezone tz now)) + i))) →
  ∃ cs, iter_candidates s now tz lat lon n = Ok cs ∧ StronglySorted Z.le cs ∧
    (∀ c, c ∈ cs → now < c ≤ now + n * DAY) ∧
    (∀ t, now ≤ t ≤ now + n * DAY → is_ok (is_within_window s t lat lon)) ∧
    steps_only_at (λ t, is_within_window s t lat lon) now (now + n * DAY) cs.
Proof.
  intros Htz Hws Hzone Hn Hst Hsun.
  destruct (iter_candidates_spec s lat lon tz Hws now n Hsun) as (cs & Hcs & Hsorted & Hin).
  rewrite (steady_wall tz now (now + n * DAY) off Hst) in Hsun by (unfold_time; lia).
  assert (∀ d, date_of (now + off) ≤ d ≤ date_of (now + n * DAY + off) →
    is_ok (sun_candidates s tz lat lon d)) as Hday.
  { intros d Hd. replace d with (date_of (now + off) + (d - date_of (now + off))) by lia.
    apply Hsun. revert Hd. clear. time_lia. }
  exists cs. split_and!; [done|done|naive_solver| |].
  { intros t Ht. apply (gate_is_ok s lat lon tz Htz Hws). apply Hday.
    rewrite (steady_wall tz now (now + n * DAY) off Hst) by done. revert Ht. clear. time_lia. }
  apply (gate_steps_only_at s lat lon tz Htz Hws Hzone now (now + n * DAY) off Hst Hday cs).
  - intros c ??. apply Hin. auto.
  - intros c ??. apply Hin. auto.
  - intros d l c Hd Hl Hc Hr. apply Hin. split; [done|]. right; right.
    rewrite (steady_wall tz now (now + n * DAY) off Hst) by (unfold_time; lia).
    exists (d - date_of (now + off)), l. split; [|split; [done|]].
    + revert Hd. clear. time_lia.
    + by rewrite Zplus_minus.
Qed.

(** The search loop returns the first element of a sorted list with another
    state. *)
Lemma first_change_spec `{CaptureEnv} (s : Schedule) (lat lon : option float)
    (b : bool) (now : Z) (cs : list Z) :
  StronglySorted Z.le cs → (∀ c, c ∈ cs → now < c ∧ is_ok (is_within_window s c lat lon)) →
  ∃ r, first_change s lat lon b now cs = Ok r ∧
  match r with
  | Some c => c ∈ cs ∧ is_within_window s c lat lon = Ok (negb b) ∧
      ∀ c', c' ∈ cs → c' < c → is_within_window s c' lat lon = Ok b
  | None => ∀ c', c' ∈ cs → is_within_window s c' lat lon = Ok b
  end.
Proof.
  induction 1 as [|c cs Hsorted IH Hall]; intros Hnow; simpl.
  { exists None. split; [done|]. set_solver. }
  rewrite (proj2 (Z.leb_gt _ _)) by (apply Hnow; set_solver).
  destruct (proj2 (Hnow c ltac:(set_solver))) as [st Hst]. rewrite Hst. cbn [mbind result_bind].
  rewrite Forall_forall in Hall.
  destruct (Bool.eqb st b) eqn:Heq; simpl.
  - apply eqb_prop in Heq as ->. destruct IH as (r & -> & Hr); [set_solver|].
    exists r. split; [done|]. destruct r as [c'|].
    + destruct Hr as (? & ? & Hbefore). split_and!; [set_solver|done|].
      intros x [->|Hx]%elem_of_cons ?; [done|]. by apply Hbefore.
    + by intros x [->|Hx]%elem_of_cons; [|apply Hr].
  - exists (Some c). split; [done|]. split_and!; [set_solver| |].
    + rewrite Hst. by destruct st, b.
    + intros x [->|Hx]%elem_of_cons ?; [lia|]. specialize (Hall x Hx). lia.
Qed.

(** C35: [next_transition] is exact.  For a runnable schedule in a zone that keeps
    one offset over the scan horizon, it returns the gate state at [now] and the
    very first instant at which the state differs: up to it the gate keeps its
    state, at it the state is the opposite one; when it returns no instant, the
    gate does not change within the horizon.  Its one other outcome is the
    [OverflowError] of a sun offset that leaves the calendar on a scanned day. *)
Theorem next_transition_exact `{CaptureEnv} (s : Schedule) (now : Z) (lat lon : option float)
    (tz : zoneinfo) (off : Z) :
  env_zoneinfo (timezone s) = Some tz →
  Forall window_ok (windows s) →
  zone_ok tz = true →
  steady tz now (now + MAX_SCAN_DAYS * DAY) off →
  (∃ b r, next_transition s now lat lon = Ok (b, r) ∧
    is_within_window s now lat lon = Ok b ∧
    match r with
    | Some c =>
        now < c ≤ now + MAX_SCAN_DAYS * DAY ∧
        is_within_window s c lat lon = Ok (negb b) ∧
        ∀ t, now ≤ t < c → is_within_window s t lat lon = Ok b
    | None => ∀ t, now ≤ t ≤ now + MAX_SCAN_DAYS * DAY → is_within_window s t lat lon = Ok b
    end) ∨
  next_transition s now lat lon = Raise OverflowError ∧
  ∃ i, 0 ≤ i ≤ MAX_SCAN_DAYS ∧
    sun_leaves_calendar s tz lat lon (date_of (ld_wall (astimezone tz now)) + i).
Proof.
  intros Htz Hws Hzone Hst.
  unfold next_transition. destruct (gate_cases s lat lon tz Htz Hws now) as [[b Hb]|[Hb Hs]]; cycle 1.
  { right. rewrite Hb. split; [done|]. exists 0. split; [done|]. rewrite Z.add_0_r.
    by apply sun_raise_leaves. }
  rewrite Hb. cbn [mbind result_bind].
  destruct (is_always_open s) eqn:Ho.
  { left. exists b, None. split_and!; [done|done|]. intros t _.
    assert (schedule_ok s) as Hs by (split; [by eexists|done]).
    rewrite (always_open_gate s t lat lon Hs Ho), <-Hb. symmetry. by apply always_open_gate. }
  unfold schedule_tzinfo. rewrite Htz. cbn [mbind result_bind].
  destruct (match end_date s with Some d => now >=? d | None => false end) eqn:He.
  { left. exists b, None. split_and!; [done|done|]. intros t Ht. rewrite <-Hb. apply ended_gate; [done|lia]. }
  destruct (iter_candidates_cases s lat lon tz Hws now MAX_SCAN_DAYS) as [Hsun|(-> & i & Hi & Hs)]; cycle 1.
  { right. split; [done|]. exists i. split; [done|]. by apply sun_raise_leaves. }
  left. destruct (candidates_cover s lat lon tz now MAX_SCAN_DAYS off Htz Hws Hzone ltac:(done) Hst Hsun)
    as (cs & -> & Hsorted & Hrange & Hok & Hsteps). cbn [mbind result_bind].
  destruct (first_change_spec s lat lon b now cs Hsorted) as (r & -> & Hr).
  { intros c Hc%Hrange. split; [lia|]. apply Hok. lia. }
  exists b, r. split_and!; [done|done|]. destruct r as [c|].
  - destruct Hr as (Hc & Hstate & Hbefore). specialize (Hrange _ Hc). split_and!; [lia|lia|done|].
    intros t Ht. rewrite <-Hb.
    apply (constant_until _ _ _ _ t Hsteps); [lia|]. intros x Hx Hxt.
    rewrite Hb. apply Hbefore; [done|lia].
  - intros t Ht. rewrite <-Hb. apply (constant_until _ _ _ _ t Hsteps); [lia|].
    intros x Hx Hxt. rewrite Hb. by apply Hr.
Qed.

(** ** Open stretches *)
Section stretches.
Context `{CaptureEnv} (s : Schedule) (lat lon : option float).
Context (start end_ : Z).
Local Abbreviation gate t := (is_within_window s t lat lon).

(** [t] lies in one of the stretches; [t] lies in the pending one. *)
Definition covered (l : list (Z * Z)) (t : Z) : Prop := ∃ p, p ∈ l ∧ p.1 ≤ t < p.2.
Definition pending (opened : option Z) (t : Z) : Prop := ∃ o, opened = Some o ∧ o ≤ t.

(** A stretch that starts at an open instant and ends with a real gate change
    (or at the range's end). *)
Definition real_stretch (p : Z * Z) : Prop :=
  start ≤ p.1 < p.2 ∧ p.2 ≤ end_ ∧ gate p.1 = Ok true ∧ (p.2 = end_ ∨ gate p.2 = Ok false).

Definition in_order (l : list (Z * Z)) : Prop := StronglySorted (λ p q, p.2 < q.1) l.

(** The loop state at position [pos]: the closed stretches lie before [pos], in
    order; an opening is pending exactly when the gate is open at [pos]; and
    together they cover exactly the open time before [pos]. *)
Record loop_inv (pos : Z) (opened : option Z) (acc : list (Z * Z)) : Prop := {
  li_pos : start ≤ pos < end_;
  li_gate : gate pos = Ok (bool_decide (is_Some opened));
  li_opened : ∀ o, opened = Some o →
    start ≤ o ≤ pos ∧ gate o = Ok true ∧ ∀ p, p ∈ acc → p.2 < o;
  li_acc : ∀ p, p ∈ acc → real_stretch p ∧ p.2 ≤ pos;
  li_order : in_order acc;
  li_cover : ∀ t, start ≤ t < pos → covered acc t ∨ pending opened t ↔ gate t = Ok true;
}.

Lemma in_order_snoc (acc : list (Z * Z)) (o x : Z) :
  in_order acc → (∀ p, p ∈ acc → p.2 < o) → in_order (acc ++ [(o, x)]).
Proof.
  unfold in_order. induction 1 as [|p acc ? IH Hall]; intros Ho; simpl; [repeat constructor|].
  constructor; [apply IH; set_solver|]. apply Forall_app. split; [done|].
  constructor; [|done]. simpl. apply Ho. set_solver.
Qed.

Lemma covered_snoc (l : list (Z * Z)) (o x t : Z) :
  covered (l ++ [(o, x)]) t ↔ covered l t ∨ o ≤ t < x.
Proof.
  unfold covered. split.
  - intros (p & [?| ->%list_elem_of_singleton]%elem_of_app & ?); eauto.
  - intros [(p & ? & ?)|?]; [exists p|exists (o, x)]; set_solver.
Qed.

(** Moving the position over a stretch of constant gate keeps the coverage. *)
Lemma loop_inv_cover (pos i : Z) (opened : option Z) (acc : list (Z * Z)) (t : Z) :
  loop_inv pos opened acc → (∀ t, pos ≤ t < i → gate t = gate pos) → start ≤ t < i →
  covered acc t ∨ pending opened t ↔ gate t = Ok true.
Proof.
  intros Hinv Hconst Ht. destruct (decide (t < pos)) as [Hlt|Hge].
  { apply (li_cover _ _ _ Hinv). lia. }
  rewrite Hconst, (li_gate _ _ _ Hinv) by lia. destruct opened as [o|].
  - split; [done|]. intros _. right. exists o.
    destruct (li_opened _ _ _ Hinv o eq_refl). split; [done|lia].
  - split; [|done]. intros [(p & Hp & ?)|(o & ? & _)]; [|done].
    destruct (li_acc _ _ _ Hinv p Hp). lia.
Qed.

Lemma loop_inv_step (pos i : Z) (opened : option Z) (acc : list (Z * Z)) (st : bool) :
  loop_inv pos opened acc → pos ≤ i < end_ → gate i = Ok st →
  (∀ t, pos ≤ t < i → gate t = gate pos) →
  match st, opened with
  | true, None => loop_inv i (Some i) acc
  | false, Some o => loop_inv i None (acc ++ [(o, i)])
  | _, _ => loop_inv i opened acc
  end.
Proof.
  intros Hinv Hi Hst Hconst. pose proof (λ t, loop_inv_cover _ i _ _ t Hinv Hconst) as Hcov.
  destruct Hinv as [Hpos Hg Ho Hacc Horder _].
  assert (∀ p, p ∈ acc → real_stretch p ∧ p.2 ≤ i) as Hacc'.
  { intros p Hp. destruct (Hacc p Hp). split; [done|lia]. }
  destruct st, opened as [o|].
  - split; [lia|by rewrite Hst| |done..].
    intros ? [= <-]. destruct (Ho o eq_refl) as (? & ? & ?). split_and!; [lia..|done|done].
  - split; [lia|by rewrite Hst| |done|done|].
    + intros ? [= <-]. split_and!; [lia..|done|].
      intros p Hp. destruct (Hacc p Hp) as [(? & ? & ? & Hend) ?].
      destruct (decide (p.2 = i)) as [He|]; [|lia]. destruct Hend as [|Hf]; [lia|].
      rewrite He in Hf. congruence.
    + intros t Ht. rewrite <-Hcov by done. unfold pending. naive_solver lia.
  - destruct (Ho o eq_refl) as (? & Hot & Hlt).
    split; [lia|by rewrite Hst|done| |by apply in_order_snoc|].
    + intros p [Hp| ->%list_elem_of_singleton]%elem_of_app; [by apply Hacc'|].
      split; [|simpl; lia]. split_and!; simpl; [lia| |lia|done|by right].
      destruct (decide (o = i)) as [->|]; [congruence|lia].
    + intros t Ht. rewrite <-Hcov, covered_snoc by done. unfold pending. naive_solver lia.
  - by split; [lia|rewrite Hst|..].
Qed.

(** The loop ends in a state of the invariant, past every instant given. *)
Lemma stretch_loop_spec (pos : Z) (opened : option Z) (acc : list (Z * Z)) (instants : list Z) :
  loop_inv pos opened acc → StronglySorted Z.le instants →
  (∀ i, i ∈ instants → pos ≤ i < end_ ∧ is_ok (gate i)) →
  steps_only_at (λ t, gate t) pos (end_ - 1) instants →
  ∃ r pos', stretch_loop s lat lon opened acc instants = Ok r ∧
    loop_inv pos' r.1 r.2 ∧ (∀ t, pos' ≤ t < end_ → gate t = gate pos').
Proof.
  intros Hinv Hsort. revert pos opened acc Hinv.
  induction Hsort as [|i instants Hsort IH Hall]; intros pos opened acc Hinv Hin Hsteps.
  { exists (opened, acc), pos. split_and!; [done|done|].
    intros t ?. symmetry. apply Hsteps; [lia..|set_solver]. }
  destruct (Hin i ltac:(set_solver)) as [Hi [st Hst]]. rewrite Forall_forall in Hall.
  assert (∀ o' acc', loop_inv i o' acc' → ∃ r pos',
    stretch_loop s lat lon o' acc' instants = Ok r ∧
    loop_inv pos' r.1 r.2 ∧ (∀ t, pos' ≤ t < end_ → gate t = gate pos')) as IH'.
  { intros o' acc' Hinv'. apply (IH i o' acc' Hinv').
    - intros j Hj. specialize (Hall _ Hj). destruct (Hin j ltac:(set_solver)). split; [lia|done].
    - intros t1 t2 ??? Hc. apply Hsteps; [lia..|].
      intros c [->|?]%elem_of_cons; [lia|by apply Hc]. }
  pose proof (loop_inv_step _ i _ _ st Hinv Hi Hst) as Hinv'. simpl. rewrite Hst.
  cbn [mbind result_bind]. lapply Hinv'.
  - destruct st, opened as [o|]; apply IH'.
  - intros t Ht. symmetry. apply Hsteps; [lia..|].
    intros c [->|Hc]%elem_of_cons; [lia|]. specialize (Hall _ Hc). lia.
Qed.

(** The list returned for a final loop state. *)
Lemma close_last_spec (pos : Z) (r : option Z * list (Z * Z)) :
  loop_inv pos r.1 r.2 → (∀ t, pos ≤ t < end_ → gate t = gate pos) →
  let l := match r.1 with Some o => r.2 ++ [(o, end_)] | None => r.2 end in
  Forall real_stretch l ∧ in_order l ∧
  ∀ t, start ≤ t < end_ → covered l t ↔ gate t = Ok true.
Proof.
  intros Hinv Hconst. pose proof (λ t, loop_inv_cover _ end_ _ _ t Hinv Hconst) as Hcov.
  destruct Hinv as [Hpos Hg Ho Hacc Horder _]. destruct r as [[o|] acc]; cbn [fst snd] in *.
  - destruct (Ho o eq_refl) as (? & Hot & Hlt). split_and!.
    + apply Forall_app. split; [apply Forall_forall; intros p Hp; by apply Hacc|].
      constructor; [|done]. split_and!; simpl; [lia..|done|by left].
    + by apply in_order_snoc.
    + intros t Ht. rewrite <-Hcov, covered_snoc by done. unfold pending. naive_solver lia.
  - split_and!; [apply Forall_forall; intros p Hp; by apply Hacc|done|].
    intros t Ht. rewrite <-Hcov by done. split; [by left|]. by intros [?|(? & ? & ?)].
Qed.
End stretches.

(** [open_stretches] lists exactly the open time of the range: the stretches
    are in order and do not touch, each starts open and ends with a real closing
    (or at the end of the range), and an instant of the range lies in one of them
    precisely when the gate is open at it; no sun offset leaves the calendar on a day
    of the range. *)
Theorem open_stretches_exact `{CaptureEnv} (s : Schedule) (start end_ : Z)
    (lat lon : option float) (tz : zoneinfo) (off : Z) :
  env_zoneinfo (timezone s) = Some tz →
  Forall window_ok (windows s) →
  zone_ok tz = true →
  start < end_ →
  steady tz start (end_ + DAY) off →
  (∀ i, 0 ≤ i ≤ (end_ - start) / DAY + 1 →
     ¬ sun_leaves_calendar s tz lat lon (date_of (ld_wall (astimezone tz start)) + i)) →
  ∃ l, open_stretches s start end_ lat lon = Ok l ∧
    Forall (real_stretch s lat lon start end_) l ∧ in_order l ∧
    ∀ t, start ≤ t < end_ → covered l t ↔ is_within_window s t lat lon = Ok true.
Proof.
  intros Htz Hws Hzone Hlt Hst Hcal.
  assert (schedule_ok s) as Hs by (split; [by eexists|done]).
  assert (∀ i, 0 ≤ i ≤ (end_ - start) / DAY + 1 →
    is_ok (sun_candidates s tz lat lon (date_of (ld_wall (astimezone tz start)) + i))) as Hsun.
  { intros i Hi. edestruct sun_candidates_cases as [?|[_ ?]]; [done|by destruct (Hcal i Hi)]. }
  unfold open_stretches. rewrite (proj2 (Z.leb_gt _ _)) by lia.
  destruct (is_always_open s) eqn:Ho.
  { exists [(start, end_)]. split_and!; [done| | |].
    - constructor; [|done]. split_and!; simpl; [lia..| |by left]. by apply always_open_gate.
    - repeat constructor.
    - intros t Ht. rewrite always_open_gate by done. split; [done|].
      intros _. exists (start, end_). split; [set_solver|done]. }
  unfold schedule_tzinfo. rewrite Htz. cbn [mbind result_bind].
  set (n := (end_ - start) / DAY + 1).
  assert (0 ≤ n ∧ end_ ≤ start + n * DAY ≤ end_ + DAY) as (Hn & Hn1 & Hn2)
    by (subst n; time_lia).
  destruct (candidates_cover s lat lon tz start n off Htz Hws Hzone Hn) as
    (cs & -> & Hsorted & Hrange & Hok & Hsteps); [|done|].
  { eapply steady_weaken; [..|exact Hst]; lia. }
  cbn [mbind result_bind stretch_loop].
  destruct (Hok start) as [b Hb]; [lia|]. rewrite Hb. cbn [mbind result_bind].
  set (edges := filter (λ c, c < end_) cs).
  set (opened := if b then Some start else None).
  assert (loop_inv s lat lon start end_ start opened []) as Hinv.
  { subst opened. split; [lia|by destruct b| |set_solver|constructor|lia].
    intros o. destruct b; [|done]. intros [= <-]. split_and!; [lia..|done|set_solver]. }
  destruct (stretch_loop_spec s lat lon start end_ start opened [] edges Hinv)
    as (r & pos' & Hr & Hinv' & Hconst).
  - by apply StronglySorted_filter.
  - intros i [? Hi]%list_elem_of_filter. specialize (Hrange _ Hi). split; [lia|]. apply Hok. lia.
  - intros t1 t2 ??? Hc. apply Hsteps; [lia..|]. intros c Hcs ?.
    apply (Hc c); [|done]. apply list_elem_of_filter. split; [lia|done].
  - exists (match r.1 with Some o => r.2 ++ [(o, end_)] | None => r.2 end). split.
    + subst opened. destruct b; by rewrite Hr.
    + by apply (close_last_spec _ _ _ _ _ pos').
Qed.

(** ** Parsing *)
Lemma strftime_parse (v : pyval) (p q : string) (t : Z) :
  parse_hhmm v p = Ok t → parse_hhmm (PStr (strftime_hhmm t)) q = Ok t.
Proof.
  unfold parse_hhmm. intros ([h m] & Hhm & [= <-])%bind_ok.
  apply parse_clock_range in Hhm. cbn [fst snd]. unfold strftime_hhmm.
  replace ((h * HOUR + m * MINUTE) / HOUR) with h by time_lia.
  replace ((h * HOUR + m * MINUTE) mod HOUR / MINUTE) with m by time_lia.
  by rewrite parse_fmt_hhmm by lia.
Qed.

Lemma parse_window_ok (i : nat) (v : pyval) (w : Window) : parse_window i v = Ok w → window_ok w.
Proof.
  unfold parse_window. destruct v; try done.
  intros (a & Ha & (b & Hb & [= <-])%bind_ok)%bind_ok.
  split; simpl; eexists; eauto using strftime_parse.
Qed.

Lemma parse_schedule_ok `{CaptureEnv} (raw : option (list (string * pyval))) (s : Schedule) :
  is_Some (env_zoneinfo "UTC") → parse_schedule raw = Ok s →
  schedule_ok s ∧ 0 ≤ day_of_week_mask s ≤ FULL_WEEK_MASK.
Proof.
  intros Hutc. unfold parse_schedule. destruct raw as [[|kv kvs]|].
  1, 3: intros [= <-]; split; [split; [done|constructor]|by cbv].
  destruct (dict_get (kv :: kvs) "timezone" (PStr "UTC")) as [| | | |tz_name| | |]; try done.
  destruct (env_zoneinfo tz_name) as [tz|] eqn:Htz; [|done].
  intros (ws & Hws & (sw & _ & (mask & Hmask & (sd & _ & (ed & _ & [= <-])%bind_ok)%bind_ok)%bind_ok)%bind_ok)%bind_ok.
  split; [split; [by eexists|]|]; simpl.
  - destruct (if truthy _ then _ else _); try done.
    apply Forall_forall. intros w Hw.
    destruct (traverse_elem_r _ _ _ _ Hws Hw) as (ix & _ & Hix). by eapply parse_window_ok.
  - destruct (dict_get _ "day_of_week_mask" _); try done.
    destruct (_ && _) eqn:Hm; [|done]. injection Hmask as <-. lia.
Qed.

(** What the evaluator does with a runnable schedule: it answers, or an offset of the sun
    window has left the calendar on a day it looked at. *)
Definition answers_or_overflows `{CaptureEnv} {A} (s : Schedule) (lat lon : option float)
    (answer : result A) : Prop :=
  is_ok answer ∨
  answer = Raise OverflowError ∧
  ∃ tz d, env_zoneinfo (timezone s) = Some tz ∧ sun_leaves_calendar s tz lat lon d.

Lemma gate_answers `{CaptureEnv} (s : Schedule) (now : Z) (lat lon : option float) :
  schedule_ok s → answers_or_overflows s lat lon (is_within_window s now lat lon).
Proof.
  intros [[tz Htz] Hws]. destruct (gate_cases s lat lon tz Htz Hws now) as [?|[? ?%sun_raise_leaves]];
    [by left|right]. eauto.
Qed.

Lemma next_transition_answers `{CaptureEnv} (s : Schedule) (now : Z) (lat lon : option float) :
  schedule_ok s → answers_or_overflows s lat lon (next_transition s now lat lon).
Proof.
  intros Hs. destruct (gate_answers s now lat lon Hs) as [[b Hb]|[Hr Hd]]; unfold next_transition;
    [rewrite Hb|rewrite Hr; by right]. destruct Hs as [[tz Htz] Hws].
  unfold schedule_tzinfo. rewrite Htz. cbn [mbind result_bind].
  destruct (is_always_open s); [left; by eexists|].
  destruct (match end_date s with Some d => now >=? d | None => false end); [left; by eexists|].
  destruct (iter_candidates s now tz lat lon MAX_SCAN_DAYS) as [cs|e] eqn:Hc; cbn [mbind result_bind]; cycle 1.
  { destruct (iter_candidates_cases s lat lon tz Hws now MAX_SCAN_DAYS) as [Hsun|(Hr & i & _ & Hs%sun_raise_leaves)].
    - destruct (iter_candidates_spec s lat lon tz Hws now MAX_SCAN_DAYS Hsun) as (? & ? & _). congruence.
    - right. split; [congruence|eauto]. }
  clear Hc. induction cs as [|c cs IH]; simpl; [left; by eexists|]. destruct (c <=? now); [done|].
  destruct (gate_answers s c lat lon) as [[st Hst]|[Hr Hd]]; [split; eauto|rewrite Hst|rewrite Hr; by right].
  cbn [mbind result_bind]. destruct (negb _); [left; by eexists|done].
Qed.

(** A schedule that parses is one the evaluator can run: whatever the document, the
    instant and the location, [is_within_window] and [next_transition] answer, except
    that an offset of the sun window may leave the calendar, which raises
    [OverflowError]. *)
Theorem parsed_schedule_evaluates `{CaptureEnv} (raw : option (list (string * pyval)))
    (s : Schedule) (now : Z) (lat lon : option float) :
  is_Some (env_zoneinfo "UTC") →
  parse_schedule raw = Ok s →
  0 ≤ day_of_week_mask s ≤ FULL_WEEK_MASK ∧
  answers_or_overflows s lat lon (is_within_window s now lat lon) ∧
  answers_or_overflows s lat lon (next_transition s now lat lon).
Proof.
  intros Hutc Hp. destruct (parse_schedule_ok raw s Hutc Hp) as [Hs Hm].
  split_and!; [apply Hm|apply Hm|by apply gate_answers|by apply next_transition_answers].
Qed.

(** An offset of a million million minutes is accepted at parse time; the gate then
    raises on every day that has a sunrise. *)
Definition far_document : list (string * pyval) :=
  [ ("timezone", PStr "Test/Fixed");
    ("sun_window", PList [PDict [("anchor", PStr "sunrise"); ("offset_minutes", PInt 1000000000000)];
                          PDict [("anchor", PStr "sunset")]]) ].

Theorem huge_sun_offset_raises :
  ∃ s, @parse_schedule demo_env (Some far_document) = Ok s ∧
    @is_within_window demo_env s (at_utc 19820 12 0) (Some (float_of_Z 40)) (Some (float_of_Z (-90)))
      = Raise OverflowError ∧
    @next_transition demo_env s (at_utc 19820 12 0) (Some (float_of_Z 40)) (Some (float_of_Z (-90)))
      = Raise OverflowError.
Proof. eexists. split; [vm_compute; reflexivity|]. vm_compute. done. Qed.

(** ** Daylight-saving changes

    Windows that meet a skipped or repeated hour of ["Test/Spring"] on
    2024-03-10 (day 19792) and 2024-11-03 (day 20030). *)
Definition gap_schedule : Schedule :=
  MkSchedule true "Test/Spring" [MkWindow "02:30" "05:00"] None FULL_WEEK_MASK None None.
Definition repeat_schedule : Schedule :=
  MkSchedule true "Test/Spring" [MkWindow "01:30" "05:00"] None FULL_WEEK_MASK None None.

(** Across a clock change [next_transition] is not exact.  With a window from
    02:30 on the day the clocks jump from 02:00 to 03:00, the gate opens at 03:00
    (08:00 UTC), but the reported opening is 03:30 (08:30 UTC).  With a window from
    01:30 on the day the clocks go back from 02:00 to 01:00, the gate closes at the
    change (07:00 UTC) and opens again half an hour later, but the reported next
    change is the closing at 05:00 (11:00 UTC). *)
Theorem next_transition_across_clock_change :
  (let now := at_utc 19792 6 0 in
   @next_transition demo_env gap_schedule now None None
     = Ok (false, Some (at_utc 19792 8 30)) ∧
   @is_within_window demo_env gap_schedule (at_utc 19792 8 0) None None = Ok true) ∧
  (let now := at_utc 20030 6 40 in
   @next_transition demo_env repeat_schedule now None None
     = Ok (true, Some (at_utc 20030 11 0)) ∧
   @is_within_window demo_env repeat_schedule (at_utc 20030 7 0) None None = Ok false).
Proof. vm_compute. done. Qed.

(** ** Witnesses *)
Lemma office_windows_ok : Forall window_ok (windows office_hours).
Proof. constructor; [|constructor]. split; by eexists. Qed.

Lemma next_transition_exact_witness :
  (∃ b r, @next_transition demo_env office_hours (at_utc 19792 12 0) None None = Ok (b, r) ∧
    @is_within_window demo_env office_hours (at_utc 19792 12 0) None None = Ok b ∧
    match r with
    | Some c =>
        at_utc 19792 12 0 < c ≤ at_utc 19792 12 0 + MAX_SCAN_DAYS * DAY ∧
        @is_within_window demo_env office_hours c None None = Ok (negb b) ∧
        ∀ t, at_utc 19792 12 0 ≤ t < c →
          @is_within_window demo_env office_hours t None None = Ok b
    | None => ∀ t, at_utc 19792 12 0 ≤ t ≤ at_utc 19792 12 0 + MAX_SCAN_DAYS * DAY →
          @is_within_window demo_env office_hours t None None = Ok b
    end) ∨
  @next_transition demo_env office_hours (at_utc 19792 12 0) None None = Raise OverflowError ∧
  ∃ i, 0 ≤ i ≤ MAX_SCAN_DAYS ∧
    @sun_leaves_calendar demo_env office_hours tz_fixed2 None None
      (date_of (ld_wall (astimezone tz_fixed2 (at_utc 19792 12 0))) + i).
Proof.
  apply (@next_transition_exact demo_env office_hours _ None None tz_fixed2
           (offset_at tz_fixed2 (at_utc 19792 12 0))).
  - reflexivity.
  - apply office_windows_ok.
  - reflexivity.
  - apply quiet_steady; reflexivity.
Defined.

(** A week of April 2024 in a zone with clock changes in March and November, with
    a sun window beside the clock window. *)
Definition spring_schedule : Schedule :=
  MkSchedule true "Test/Spring" [MkWindow "22:00" "02:00"]
    (Some (MkSunAnchor sunrise (-30), MkSunAnchor sunset 45)) FULL_WEEK_MASK None None.

(** The sun times of the demonstration environment, a week of which is far from the ends
    of the calendar. *)
Lemma spring_in_calendar i :
  0 ≤ i ≤ (at_utc 19827 0 0 - at_utc 19820 0 0) / DAY + 1 →
  ¬ @sun_leaves_calendar demo_env spring_schedule tz_spring (Some (float_of_Z 40)) (Some (float_of_Z (-90)))
      (date_of (ld_wall (astimezone tz_spring (at_utc 19820 0 0))) + i).
Proof.
  intros Hi. change ((at_utc 19827 0 0 - at_utc 19820 0 0) / DAY + 1) with 8 in Hi.
  change (date_of (ld_wall (astimezone tz_spring (at_utc 19820 0 0)))) with 19819.
  intros (oa & ca & la & lo & sr & ss & a & [= <- <-] & [= <-] & [= <-] & Ht & Ha & Hcal).
  assert (i = 0 ∨ i = 1 ∨ i = 2 ∨ i = 3 ∨ i = 4 ∨ i = 5 ∨ i = 6 ∨ i = 7 ∨ i = 8) as Hc by lia.
  repeat destruct Hc as [->|Hc]; [..|subst i]; vm_compute in Ht; injection Ht as <- <-;
    destruct Ha as [->| ->]; vm_compute in Hcal; by specialize (Hcal eq_refl).
Qed.

Lemma open_stretches_exact_witness :
  ∃ l, @open_stretches demo_env spring_schedule (at_utc 19820 0 0) (at_utc 19827 0 0)
         (Some (float_of_Z 40)) (Some (float_of_Z (-90))) = Ok l ∧
    Forall (@real_stretch demo_env spring_schedule (Some (float_of_Z 40)) (Some (float_of_Z (-90)))
              (at_utc 19820 0 0) (at_utc 19827 0 0)) l ∧ in_order l ∧
    ∀ t, at_utc 19820 0 0 ≤ t < at_utc 19827 0 0 → covered l t ↔
      @is_within_window demo_env spring_schedule t (Some (float_of_Z 40))
        (Some (float_of_Z (-90))) = Ok true.
Proof.
  apply (@open_stretches_exact demo_env spring_schedule _ _ _ _ tz_spring
           (offset_at tz_spring (at_utc 19820 0 0))).
  - reflexivity.
  - constructor; [|constructor]. split; by eexists.
  - reflexivity.
  - reflexivity.
  - apply quiet_steady; reflexivity.
  - apply spring_in_calendar.
Defined.

(** A stored document with a window, a sun window, a mask and a start date. *)
Definition demo_document : list (string * pyval) :=
  [ ("timezone", PStr "Test/Spring");
    ("windows", PList [PDict [("start_time", PStr " 6:5"); ("end_time", PStr "18:00")]]);
    ("sun_window", PList [PDict [("anchor", PStr "sunrise"); ("offset_minutes", PInt (-30))];
                          PDict [("anchor", PStr "sunset")]]);
    ("day_of_week_mask", PInt 31);
    ("start_date", PStr "2024-03-11T00:00:00+00:00") ].

Definition demo_schedule : Schedule :=
  MkSchedule true "Test/Spring" [MkWindow "06:05" "18:00"]
    (Some (MkSunAnchor sunrise (-30), MkSunAnchor sunset 0)) 31 (Some (at_utc 19793 0 0)) None.

Lemma parsed_schedule_evaluates_witness :
  @parse_schedule demo_env (Some demo_document) = Ok demo_schedule ∧
  0 ≤ day_of_week_mask demo_schedule ≤ FULL_WEEK_MASK ∧
  @answers_or_overflows demo_env bool demo_schedule None None
    (@is_within_window demo_env demo_schedule (at_utc 19793 9 0) None None) ∧
  @answers_or_overflows demo_env (bool * option Z) demo_schedule None None
    (@next_transition demo_env demo_schedule (at_utc 19793 9 0) None None).
Proof.
  split; [vm_compute; reflexivity|].
  apply (@parsed_schedule_evaluates demo_env (Some demo_document)).
  - by eexists.
  - vm_compute; reflexivity.
Defined.
