(* ===== verification/Anchors.v ===== *)
(** * Exact-time anchors: capture/anchors.py

    An anchor fires one capture per local day, at a wall-clock time or at a sun
    event, shifted by an offset of at most twelve hours.  [date] values are day
    numbers; the ["YYYY-MM-DD"] text the code uses as the day's key is their
    printed form. *)

From Stdlib Require Import SpecFloat.
From S2P Require Import Prelude PyTime PyVal Env Schedule.
From stdpp Require Import pretty options.
Local Open Scope Z_scope.

Definition EXACT_TIME_GRACE : Z := 30 * MINUTE.
Definition ANCHOR_RETRY_BASE : Z := 15 * SECOND.
Definition ANCHOR_MAX_ATTEMPTS : Z := 7.
Definition ANCHOR_AUTH_MAX_ATTEMPTS : Z := 2.
Definition ANCHOR_RETRY_GRACE_MARGIN : Z := 30 * SECOND.
Definition MAX_OFFSET_MINUTES : Z := 12 * 60.

Inductive AnchorKind := KClock | KSolarNoon | KSunrise | KSunset.
#[export] Instance AnchorKind_eq_dec : EqDecision AnchorKind.
Proof. solve_decision. Defined.

Definition kind_text (k : AnchorKind) : string :=
  match k with
  | KClock => "clock" | KSolarNoon => "solar_noon"
  | KSunrise => "sunrise" | KSunset => "sunset"
  end.

(** [kind in _VALID_KINDS] *)
Definition kind_of (v : pyval) : option AnchorKind :=
  if val_eq_str v "clock" then Some KClock
  else if val_eq_str v "solar_noon" then Some KSolarNoon
  else if val_eq_str v "sunrise" then Some KSunrise
  else if val_eq_str v "sunset" then Some KSunset
  else None.

(** [_is_solar] *)
Definition is_solar (k : AnchorKind) : bool :=
  match k with KClock => false | _ => true end.

Record Anchor := MkAnchor {
  a_id : string;
  a_kind : AnchorKind;
  a_time : option string;
  a_offset_minutes : Z;
  a_enabled : bool;
}.
#[export] Instance Anchor_eq_dec : EqDecision Anchor.
Proof. solve_decision. Defined.

Record AnchorDecision := MkDecision {
  d_anchor : Anchor;
  d_local_date : Z;
  d_instant : option Z;
  d_within_grace : bool;
  d_has_geo : bool;
}.

(** ** Parsing and serializing *)

(** [_parse_offset] *)
Definition parse_offset (value : pyval) (field_path : string) : result Z :=
  let in_range offset :=
    if (- MAX_OFFSET_MINUTES <=? offset) && (offset <=? MAX_OFFSET_MINUTES)
    then Ok offset else Raise (ValueError field_path) in
  match value with
  | PNone => Ok 0
  | PInt offset => in_range offset
  | PStr s =>
      if String.eqb s "" then Ok 0
      else match py_int (strip s) with
           | Some offset => in_range offset
           | None => Raise (ValueError field_path)
           end
  | _ => Raise (ValueError field_path)
  end.

(** [_parse_hhmm] of this module: the normalised text. *)
Definition parse_hhmm_text (value : pyval) (field_path : string) : result string :=
  hm ← parse_clock value field_path;
  Ok (fmt_hhmm hm.1 hm.2).

(** One item of [parse_anchors]; [fresh index] is the [uuid4().hex] drawn when
    the item carries no identity. *)
Definition parse_anchor (fresh : nat → string) (index : nat) (item : pyval) : result Anchor :=
  let path := "anchors[" +:+ pretty index +:+ "]" in
  match item with
  | PDict kvs =>
      match kind_of (dict_get kvs "kind" PNone) with
      | None => Raise (ValueError (path +:+ ".kind"))
      | Some kind =>
          clock_time ← (if decide (kind = KClock)
                        then Some <$> parse_hhmm_text (dict_get kvs "time" PNone) (path +:+ ".time")
                        else Ok None);
          offset ← parse_offset (dict_get kvs "offset_minutes" PNone) (path +:+ ".offset_minutes");
          let enabled := truthy (dict_get kvs "enabled" (PBool true)) in
          let anchor_id :=
            match dict_get kvs "id" PNone with
            | PStr s => strip s
            | _ => ""
            end in
          let anchor_id := if String.eqb anchor_id "" then fresh index else anchor_id in
          Ok (MkAnchor anchor_id kind clock_time offset enabled)
      end
  | _ => Raise (ValueError path)
  end.

Definition parse_anchors (fresh : nat → string) (raw : pyval) : result (list Anchor) :=
  if negb (truthy raw) then Ok []
  else match raw with
       | PList items => traverse (λ ix, parse_anchor fresh ix.1 ix.2) (imap pair items)
       | _ => Raise (ValueError "anchors")
       end.

Definition serialize_anchor (a : Anchor) : pyval :=
  PDict [ ("id", PStr (a_id a));
          ("kind", PStr (kind_text (a_kind a)));
          ("time", match a_time a with Some t => PStr t | None => PNone end);
          ("offset_minutes", PInt (a_offset_minutes a));
          ("enabled", PBool (a_enabled a)) ].

(** ** Fire instants *)

(** [_clock_fire_local]: the wall reading of the fire time (fold 0: adding a
    [timedelta] clears the fold). *)
Definition clock_fire_local (a : Anchor) (on_date : Z) : result local_dt :=
  match a_time a with
  | None => Raise AssertionError
  | Some text =>
      hm ← parse_clock (PStr text) "anchor.time";
      Ok (LDT (dt_combine on_date (hm.1 * HOUR + hm.2 * MINUTE)
               + a_offset_minutes a * MINUTE) false)
  end.

(** [_wall_time_exists] *)
Definition wall_time_exists (dt : local_dt) (tz : zoneinfo) : bool :=
  ld_wall dt =? ld_wall (astimezone tz (to_utc tz dt)).

(** The bisection loop of [_first_valid_instant_after_gap], over POSIX seconds.
    Each turn halves [hi - lo], so [log2_up (hi - lo)] turns reach the loop's
    exit (lemma [bisect_exit]). *)
Fixpoint bisect (fuel : nat) (tz : zoneinfo) (post_offset lo hi : Z) : Z * Z :=
  match fuel with
  | O => (lo, hi)
  | S fuel =>
      if hi - lo >? 1 then
        let mid := (lo + hi) / 2 in
        if utcoffset tz (astimezone tz (mid * SECOND)) =? post_offset
        then bisect fuel tz post_offset lo mid
        else bisect fuel tz post_offset mid hi
      else (lo, hi)
  end.
Definition bisect_fuel (lo hi : Z) : nat := Z.to_nat (Z.log2_up (hi - lo)).

Definition first_valid_instant_after_gap (dt : local_dt) (tz : zoneinfo) : local_dt :=
  let before := to_utc tz (LDT (ld_wall dt) true) in
  let after := to_utc tz (LDT (ld_wall dt) false) in
  let post_offset := utcoffset tz (astimezone tz after) in
  let lo := before `quot` SECOND in
  let hi := after `quot` SECOND in
  let r := bisect (bisect_fuel lo hi) tz post_offset lo hi in
  astimezone tz (r.2 * SECOND).

Section anchors.
Context `{CaptureEnv}.

Definition anchor_fire_instant (a : Anchor) (on_date : Z) (tz : zoneinfo)
    (latitude longitude : option float) : result (option Z) :=
  let offset := a_offset_minutes a * MINUTE in
  if decide (a_kind a = KClock) then
    fire_local ← clock_fire_local a on_date;
    let fire_local :=
      if negb (wall_time_exists fire_local tz)
      then first_valid_instant_after_gap fire_local tz else fire_local in
    Ok (Some (to_utc tz fire_local))
  else
    match latitude, longitude with
    | Some lat, Some lon =>
        let event_utc :=
          match a_kind a with
          | KSolarNoon => compute_solar_noon lat lon on_date tz
          | KSunrise => (compute_sun_times lat lon on_date tz).1
          | _ => (compute_sun_times lat lon on_date tz).2
          end in
        match event_utc with
        | None => Ok None
        | Some e => Ok (Some (e + offset))
        end
    | _, _ => Ok None
    end.

Definition clock_anchor_in_dst_gap (a : Anchor) (on_date : Z) (tz : zoneinfo) : result bool :=
  match a_kind a, a_time a with
  | KClock, Some _ =>
      fire_local ← clock_fire_local a on_date;
      Ok (negb (wall_time_exists fire_local tz))
  | _, _ => Ok false
  end.

(** [_effective_tz] *)
Definition effective_tz (a : Anchor) (tz : zoneinfo) (solar_tz : option zoneinfo) : zoneinfo :=
  match solar_tz with
  | Some stz => if is_solar (a_kind a) then stz else tz
  | None => tz
  end.

(** [_local_date_of] *)
Definition local_date_of (now : Z) (tz : zoneinfo) : Z := date_of (ld_wall (astimezone tz now)).

(** The inner loop of [due_anchors]: the most recent due instant so far, with its
    base date. *)
Definition keep_due (now : Z) (acc : option (Z * Z)) (cand : Z * option Z) : option (Z * Z) :=
  match cand with
  | (_, None) => acc
  | (base, Some instant) =>
      if instant >? now then acc
      else match acc with
           | None => Some (instant, base)
           | Some (due_instant, _) =>
               if instant >? due_instant then Some (instant, base) else acc
           end
  end.

(** The fire instants of an anchor for the given base dates. *)
Definition fire_instants (a : Anchor) (tz : zoneinfo) (latitude longitude : option float)
    (bases : list Z) : result (list (Z * option Z)) :=
  traverse (λ base, instant ← anchor_fire_instant a base tz latitude longitude;
                    Ok (base, instant)) bases.

(** The decision of [due_anchors] for one anchor, if any. *)
Definition due_anchor (now : Z) (tz : zoneinfo) (latitude longitude : option float)
    (grace : Z) (solar_tz : option zoneinfo) (a : Anchor) : result (option AnchorDecision) :=
  if negb (a_enabled a) then Ok None
  else
    let eff_tz := effective_tz a tz solar_tz in
    let today := local_date_of now eff_tz in
    if is_solar (a_kind a) &&
       match latitude, longitude with Some _, Some _ => false | _, _ => true end
    then Ok (Some (MkDecision a today None false false))
    else
      cands ← fire_instants a eff_tz latitude longitude [today + 1; today; today - 1];
      match foldl (keep_due now) None cands with
      | None => Ok None
      | Some (due_instant, due_base) =>
          Ok (Some (MkDecision a due_base (Some due_instant)
                      (now <=? due_instant + grace) true))
      end.

Definition due_anchors (anchors : list Anchor) (now : Z) (tz : zoneinfo)
    (latitude longitude : option float) (grace : Z) (solar_tz : option zoneinfo)
    : result (list AnchorDecision) :=
  somes <$> traverse (due_anchor now tz latitude longitude grace solar_tz) anchors.

(** The future instants among candidates. *)
Definition future_instants (now : Z) (cands : list (Z * option Z)) : list Z :=
  filter (λ i, now < i) (somes cands.*2).

Definition next_anchor_wake (anchors : list Anchor) (now : Z) (tz : zoneinfo)
    (latitude longitude : option float) (solar_tz : option zoneinfo) : result (option Z) :=
  per_anchor ← traverse (λ a,
      let eff_tz := effective_tz a tz solar_tz in
      let today := local_date_of now eff_tz in
      fire_instants a eff_tz latitude longitude [today - 1; today; today + 1])
    (filter (λ a, a_enabled a = true) anchors);
  Ok (foldl keep_min None (future_instants now (mjoin per_anchor))).

Definition next_solar_capture_instant (a : Anchor) (now : Z)
    (latitude longitude : option float) : result (option Z) :=
  if negb (is_solar (a_kind a)) || negb (a_enabled a) then Ok None
  else match resolve_zoneinfo latitude longitude with
       | None => Ok None
       | Some tz =>
           let today := local_date_of now tz in
           cands ← fire_instants a tz latitude longitude [today - 1; today; today + 1];
           Ok (foldl keep_min None (future_instants now cands))
       end.
End anchors.

Definition anchor_retry_delay (attempts remaining : Z) (auth : bool) : option Z :=
  let limit := if auth then ANCHOR_AUTH_MAX_ATTEMPTS else ANCHOR_MAX_ATTEMPTS in
  if (attempts <? 1) || (attempts >=? limit) then None
  else
    let delay := ANCHOR_RETRY_BASE * Z.shiftl 1 (attempts - 1) in
    if delay >? remaining - ANCHOR_RETRY_GRACE_MARGIN then None else Some delay.
