(* ===== verification/AnchorsFacts.v ===== *)
(** * What the exact-time anchors guarantee

    The stored anchor list is normalised once and for all, a clock anchor fires
    exactly at its wall-clock time (or at the end of a spring-forward gap), the
    due test overlooks no fire within its grace window, and the wake-up time is
    the earliest fire to come. *)

From Stdlib Require Import SpecFloat.
From S2P Require Import Prelude PyTime PyVal Env Schedule Anchors.
From stdpp Require Import pretty options.
Local Open Scope Z_scope.

(** ** Stripping *)
Lemma lstrip_head (s : string) :
  lstrip s = "" ∨ ∃ c s', lstrip s = String c s' ∧ is_space c = false.
Proof.
  induction s as [|c s IH]; [by left|]. simpl.
  destruct (is_space c) eqn:Hc; [done|]. right. by exists c, s.
Qed.

Lemma rstrip_idem (s : string) : rstrip (rstrip s) = rstrip s.
Proof.
  induction s as [|c s IH]; [done|]. cbn [rstrip].
  destruct (rstrip s) as [|c' s'] eqn:Hs.
  - destruct (is_space c) eqn:Hc; [done|]. simpl. by rewrite Hc.
  - cbn [rstrip] in *. by rewrite IH.
Qed.

Lemma strip_idem (s : string) : strip (strip s) = strip s.
Proof.
  unfold strip. destruct (lstrip_head s) as [->|(c & s' & -> & Hc)]; [done|].
  rewrite <-(rstrip_idem (String c s')) at 2. f_equal. cbn [rstrip].
  destruct (rstrip s'); rewrite ?Hc; simpl; by rewrite Hc.
Qed.

(** ** The stored list *)

(** What every parsed anchor satisfies. *)
Record anchor_wf (a : Anchor) : Prop := {
  wf_clock : a_kind a = KClock →
    ∃ h m, 0 ≤ h ≤ 23 ∧ 0 ≤ m ≤ 59 ∧ a_time a = Some (fmt_hhmm h m);
  wf_solar : a_kind a ≠ KClock → a_time a = None;
  wf_offset : - MAX_OFFSET_MINUTES ≤ a_offset_minutes a ≤ MAX_OFFSET_MINUTES;
  wf_id : a_id a ≠ "" ∧ strip (a_id a) = a_id a;
}.

(** The identities drawn for items that have none ([uuid4().hex]: 32 hex
    digits): no surrounding blanks, not empty. *)
Definition fresh_ok (fresh : nat → string) : Prop :=
  ∀ i, fresh i ≠ "" ∧ strip (fresh i) = fresh i.

Lemma parse_offset_range (v : pyval) (p : string) (z : Z) :
  parse_offset v p = Ok z → - MAX_OFFSET_MINUTES ≤ z ≤ MAX_OFFSET_MINUTES.
Proof.
  unfold parse_offset, MAX_OFFSET_MINUTES.
  destruct v; try done; [naive_solver lia| |]; repeat case_match; try done;
    intros [= <-]; lia.
Qed.

Lemma parse_anchor_wf (fresh : nat → string) (i : nat) (v : pyval) (a : Anchor) :
  fresh_ok fresh → parse_anchor fresh i v = Ok a → anchor_wf a.
Proof.
  intros Hfresh. unfold parse_anchor. destruct v as [| | | | | |kvs|]; try done.
  destruct (kind_of _) as [k|]; [|done].
  intros (ct & Hct & (off & Hoff & [= <-])%bind_ok)%bind_ok.
  apply parse_offset_range in Hoff.
  assert (∀ s, (if String.eqb (strip s) "" then fresh i else strip s) ≠ "" ∧
    strip (if String.eqb (strip s) "" then fresh i else strip s) =
    (if String.eqb (strip s) "" then fresh i else strip s)) as Hid.
  { intros s. destruct (String.eqb_spec (strip s) ""); [apply Hfresh|].
    split; [done|apply strip_idem]. }
  constructor; cbn [a_kind a_time a_offset_minutes a_id].
  - intros ->. rewrite decide_True in Hct by done. unfold parse_hhmm_text in Hct.
    destruct (parse_clock _ _) as [[h m]|] eqn:Hc; [|done]. simplify_eq/=.
    apply parse_clock_range in Hc as [??]. eauto.
  - intros ?. rewrite decide_False in Hct by done. by simplify_eq.
  - done.
  - destruct (dict_get kvs "id" PNone); try apply (Hid ""); apply Hid.
Qed.

Lemma kind_of_text (k : AnchorKind) : kind_of (PStr (kind_text k)) = Some k.
Proof. by destruct k. Qed.

Lemma parse_serialize (fresh : nat → string) (i : nat) (a : Anchor) :
  anchor_wf a → parse_anchor fresh i (serialize_anchor a) = Ok a.
Proof.
  intros [Hclock Hsolar Hoff [Hne Hid]]. destruct a as [id k t off en]; simpl in *.
  unfold parse_anchor, serialize_anchor.
  set (path := ("anchors[" +:+ pretty i +:+ "]")%string). clearbody path.
  cbn [a_kind a_time a_offset_minutes a_id a_enabled dict_get String.eqb Ascii.eqb Bool.eqb].
  rewrite kind_of_text, Hid.
  assert ((if decide (k = KClock)
           then Some <$> parse_hhmm_text (match t with Some t => PStr t | None => PNone end)
                           (path +:+ ".time")
           else Ok None) = Ok t) as ->.
  { case_decide as Hk; [|by rewrite Hsolar].
    destruct (Hclock Hk) as (h & m & Hh & Hm & ->). unfold parse_hhmm_text.
    by rewrite parse_fmt_hhmm. }
  cbn [mbind result_bind]. unfold parse_offset.
  rewrite (proj2 (andb_true_iff _ _)) by lia. cbn [mbind result_bind truthy].
  destruct (String.eqb_spec id ""); done.
Qed.

Lemma parse_anchors_wf (fresh : nat → string) (raw : pyval) (l : list Anchor) :
  fresh_ok fresh → parse_anchors fresh raw = Ok l → Forall anchor_wf l.
Proof.
  intros Hfresh Hl. unfold parse_anchors in Hl.
  destruct (negb (truthy raw)); [by simplify_eq|].
  destruct raw as [| | | | |items| |]; try done.
  apply Forall_forall. intros a Ha.
  destruct (traverse_elem_r _ _ _ _ Hl Ha) as ([i v] & _ & Hv). by eapply parse_anchor_wf.
Qed.

(** Parsing the stored anchor list normalises it.  Every parsed anchor is
    well formed: a clock anchor carries a canonical ["HH:MM"] in range and a
    solar one no time, the offset is within twelve hours and the identity is
    non-empty; writing the parsed anchors back and reading them again, with any
    supply of fresh identities, returns the same list: identities are stable
    across edits and nothing is redrawn or rounded a second time. *)
Theorem parse_anchors_normal (fresh : nat → string) (raw : pyval) (l : list Anchor) :
  fresh_ok fresh → parse_anchors fresh raw = Ok l →
  Forall anchor_wf l ∧
  ∀ fresh', parse_anchors fresh' (PList (serialize_anchor <$> l)) = Ok l.
Proof.
  intros Hfresh Hl. pose proof (parse_anchors_wf _ _ _ Hfresh Hl) as Hwf.
  split; [done|]. intros fresh'. unfold parse_anchors.
  destruct l as [|a l]; [done|]. cbn [truthy fmap list_fmap negb].
  apply traverse_ok. change (serialize_anchor a :: _) with (serialize_anchor <$> a :: l).
  rewrite imap_fmap. apply Forall2_same_length_lookup_2; [by rewrite length_imap|].
  intros i [j v] b Hv Hb. rewrite list_lookup_imap, Hb in Hv. simplify_eq/=.
  apply parse_serialize. by eapply Forall_lookup_1.
Qed.

(** ** The bisection of a spring-forward gap *)

(** [hi - lo <= 2^fuel] turns are enough, and [bisect_fuel] grants them. *)
Lemma bisect_fuel_enough (lo hi : Z) : hi - lo ≤ 2 ^ Z.of_nat (bisect_fuel lo hi).
Proof.
  unfold bisect_fuel. rewrite Z2Nat.id by apply Z.log2_up_nonneg.
  destruct (decide (1 < hi - lo)); [by apply Z.log2_up_spec|].
  rewrite Z.log2_up_eqn0 by lia. lia.
Qed.

Lemma bisect_exact (tz : zoneinfo) (post_offset T : Z) (fuel : nat) (lo hi : Z) :
  zone_ok tz = true → lo < T ≤ hi → hi - lo ≤ 2 ^ Z.of_nat fuel →
  (∀ s, lo ≤ s ≤ hi → offset_at tz (s * SECOND) = post_offset ↔ T ≤ s) →
  bisect fuel tz post_offset lo hi = (T - 1, T).
Proof.
  intros Hok. revert lo hi. induction fuel as [|fuel IH]; intros lo hi HT Hfuel Hoff.
  - simpl in *. f_equal; lia.
  - rewrite Nat2Z.inj_succ, Z.pow_succ_r in Hfuel by lia.
    simpl. rewrite Z.gtb_ltb. destruct (Z.ltb_spec 1 (hi - lo)); [|f_equal; lia].
    rewrite utcoffset_astimezone by done.
    assert (lo < (lo + hi) / 2 < hi ∧ 2 * ((lo + hi) / 2) ≤ lo + hi < 2 * ((lo + hi) / 2) + 2)
      as [Hmid Hmid2] by (Z.div_mod_to_equations; lia).
    specialize (Hoff ((lo + hi) / 2) ltac:(lia)) as Hm.
    case_cmp; apply IH; try lia; intros; apply Hoff; lia.
Qed.

Lemma whole_second_quot (x : Z) : whole_second x = true → x `quot` SECOND * SECOND = x.
Proof.
  unfold whole_second. intros Hx%Z.eqb_eq. apply Z.mod_divide in Hx as [k ->]; [|done].
  by rewrite Z.quot_mul.
Qed.

Lemma whole_second_sub (x y : Z) :
  whole_second x = true → whole_second y = true → whole_second (x - y) = true.
Proof. unfold whole_second. intros ?%Z.eqb_eq ?%Z.eqb_eq. apply Z.eqb_eq. time_lia. Qed.

(** In a gap, the code's bisection returns the transition itself. *)
Lemma first_valid_instant_gap (tz : zoneinfo) (w t p o : Z) :
  zone_ok tz = true → zone_whole_seconds tz = true → whole_second w = true →
  gap_at tz w = Some (t, p, o) →
  first_valid_instant_after_gap (LDT w false) tz = astimezone tz t.
Proof.
  intros Hok Hws Hw Hg.
  destruct (gap_at_spec tz Hok w t p o Hg) as (Hwt & _ & Hf & Ht & Hpre & Hpost).
  apply andb_true_iff in Hws as [Hb Htr].
  destruct (gap_scan_whole _ _ _ _ _ _ Hb Htr Hg) as (Hst & Hsp & Hso).
  unfold first_valid_instant_after_gap. cbn [ld_wall]. rewrite Hf, Ht.
  rewrite utcoffset_astimezone by done. rewrite (Hpost (w - p)) by lia.
  pose proof (whole_second_quot _ (whole_second_sub _ _ Hw Hso)) as Hlo.
  pose proof (whole_second_quot _ (whole_second_sub _ _ Hw Hsp)) as Hhi.
  pose proof (whole_second_quot _ Hst) as HT.
  set (lo := (w - o) `quot` SECOND) in *. set (hi := (w - p) `quot` SECOND) in *.
  set (T := t `quot` SECOND) in *. clearbody lo hi T.
  rewrite (bisect_exact tz o T); [cbn [snd]; by rewrite HT|done|..].
  - unfold SECOND in *. lia.
  - apply bisect_fuel_enough.
  - intros s Hs. unfold SECOND in *. split.
    + intros Ho. destruct (decide (T ≤ s)); [done|]. rewrite Hpre in Ho by lia. lia.
    + intros. apply Hpost. lia.
Qed.

(** ** Clock fire instants *)

(** The wall reading a clock anchor [h:m] with its offset names on day [d]. *)
Definition fire_wall (a : Anchor) (h m d : Z) : Z :=
  d * DAY + h * HOUR + m * MINUTE + a_offset_minutes a * MINUTE.

(** [a] is a clock anchor for [h:m]. *)
Definition clock_at (a : Anchor) (h m : Z) : Prop :=
  a_kind a = KClock ∧ ∃ text, a_time a = Some text ∧
    parse_clock (PStr text) "anchor.time" = Ok (h, m).

Lemma fire_wall_whole (a : Anchor) (h m d : Z) : whole_second (fire_wall a h m d) = true.
Proof. unfold whole_second, fire_wall. apply Z.eqb_eq. time_lia. Qed.

Lemma clock_fire_local_ok (a : Anchor) (h m d : Z) :
  clock_at a h m → clock_fire_local a d = Ok (LDT (fire_wall a h m d) false).
Proof.
  intros [_ (text & Ht & Hc)]. unfold clock_fire_local. rewrite Ht, Hc.
  cbn [mbind result_bind fst snd]. unfold fire_wall, dt_combine. do 3 f_equal. lia.
Qed.

(** The fire instant: the first instant with the wall reading, or the end of the
    gap that skips it. *)
Definition clock_fire (tz : zoneinfo) (w : Z) : Z :=
  match gap_at tz w with
  | None => to_utc tz (LDT w false)
  | Some (t, _, _) => t
  end.

Lemma fire_clock `{CaptureEnv} (a : Anchor) (h m d : Z) (tz : zoneinfo)
    (lat lon : option float) :
  zone_ok tz = true → zone_whole_seconds tz = true → clock_at a h m →
  anchor_fire_instant a d tz lat lon = Ok (Some (clock_fire tz (fire_wall a h m d))).
Proof.
  intros Hok Hws Hc. pose proof Hc as [Hk _]. unfold anchor_fire_instant.
  rewrite decide_True by done. rewrite (clock_fire_local_ok a h m d) by done.
  cbn [mbind result_bind].
  set (w := fire_wall a h m d). unfold clock_fire.
  change (wall_time_exists ?x ?z) with (wall_exists z x).
  destruct (gap_at tz w) as [[[t p] o]|] eqn:Hg.
  - destruct (wall_exists tz (LDT w false)) eqn:He.
    + apply (wall_exists_no_gap tz Hok) in He. congruence.
    + cbn [negb]. rewrite (first_valid_instant_gap tz w t p o); [|done..|apply fire_wall_whole|done].
      by rewrite to_utc_astimezone.
  - by rewrite (proj2 (wall_exists_no_gap tz Hok w)).
Qed.

(** A clock anchor fires at its wall-clock time.  On every day [d] the fire
    instant exists; when the zone does not skip the reading [HH:MM + offset] of
    that day, it is the first instant at which the local clock shows it (the
    first pass of a repeated hour); when a spring-forward transition skips it,
    the instant is exactly that transition, the first valid instant after the
    gap, found by the code's bisection; and [clock_anchor_in_dst_gap] tells the
    two cases apart. *)
Theorem clock_anchor_fires_on_time `{CaptureEnv} (a : Anchor) (h m d : Z) (tz : zoneinfo)
    (lat lon : option float) :
  zone_ok tz = true → zone_whole_seconds tz = true → clock_at a h m →
  ∃ u, anchor_fire_instant a d tz lat lon = Ok (Some u) ∧
    match gap_at tz (fire_wall a h m d) with
    | None =>
        ld_wall (astimezone tz u) = fire_wall a h m d ∧
        (∀ u', ld_wall (astimezone tz u') = fire_wall a h m d → u ≤ u') ∧
        clock_anchor_in_dst_gap a d tz = Ok false
    | Some (t, p, o) =>
        u = t ∧ t + p ≤ fire_wall a h m d < t + o ∧
        clock_anchor_in_dst_gap a d tz = Ok true
    end.
Proof.
  intros Hok Hws Hc. eexists. split; [by apply fire_clock|].
  pose proof Hc as [Hk (text & Ht & _)].
  assert (clock_anchor_in_dst_gap a d tz =
    Ok (negb (wall_exists tz (LDT (fire_wall a h m d) false)))) as ->.
  { unfold clock_anchor_in_dst_gap. rewrite Hk, Ht. by rewrite (clock_fire_local_ok a h m d). }
  unfold clock_fire. destruct (gap_at tz _) as [[[t p] o]|] eqn:Hg.
  - pose proof (gap_at_spec tz Hok _ t p o Hg) as (Hw & _). split; [done|]. split; [done|].
    destruct (wall_exists _ _) eqn:He; [|done].
    apply (wall_exists_no_gap tz Hok) in He. congruence.
  - pose proof (proj2 (wall_exists_no_gap tz Hok _) Hg) as He. split_and!.
    + unfold wall_exists in He. by apply Z.eqb_eq in He.
    + intros u' Hu'. by apply first_reading.
    + by rewrite He.
Qed.

(** ** Due anchors *)

(** The fire lies where the zone's offsets allow: between the readings taken
    with the largest and the smallest of them. *)
Lemma clock_fire_bounds (tz : zoneinfo) (L H w : Z) :
  zone_ok tz = true → zone_within L H tz = true → w - H ≤ clock_fire tz w ≤ w - L.
Proof.
  intros Hok Hin. unfold clock_fire. destruct (gap_at tz w) as [[[t p] o]|] eqn:Hg.
  - destruct (gap_at_spec tz Hok w t p o Hg) as (Hw & _ & _ & _ & _ & Hpost).
    pose proof (zone_within_offset_at L H tz t Hin) as Ho. rewrite Hpost in Ho by lia.
    pose proof (gap_at_spec tz Hok w t p o Hg) as (_ & _ & Hf & _).
    pose proof (zone_within_utcoffset L H tz (LDT w false) Hin).
    unfold to_utc in Hf; simpl in Hf. lia.
  - pose proof (zone_within_utcoffset L H tz (LDT w false) Hin). unfold to_utc; simpl. lia.
Qed.

(** The inner loop of [due_anchors] keeps the latest elapsed instant. *)
Lemma keep_due_fold (now : Z) (cands : list (Z * option Z)) (acc : option (Z * Z)) :
  match foldl (keep_due now) acc cands with
  | None => acc = None ∧ ∀ b i, (b, Some i) ∈ cands → now < i
  | Some (i, b) =>
      (acc = Some (i, b) ∨ (b, Some i) ∈ cands ∧ i ≤ now) ∧
      (∀ b' i', (b', Some i') ∈ cands → i' ≤ now → i' ≤ i) ∧
      (∀ i' b', acc = Some (i', b') → i' ≤ i)
  end.
Proof.
  revert acc. induction cands as [|[b [i|]] cands IH]; intros acc.
  - simpl. destruct acc as [[i b]|]; [|set_solver].
    split; [by left|]. split; [set_solver|]. naive_solver.
  - cbn [foldl]. specialize (IH (keep_due now acc (b, Some i))).
    destruct (foldl _ _ _) as [[j c]|].
    + destruct IH as (Hin & Hmax & Hacc). cbn [keep_due] in *.
      rewrite Z.gtb_ltb in *. destruct (Z.ltb_spec now i) as [Hi|Hi].
      { split; [set_solver|]. split; [|done].
        intros b' i' [[= -> ->]|?]%elem_of_cons; [lia|eauto]. }
      destruct acc as [[i0 b0]|].
      * rewrite Z.gtb_ltb in *. destruct (Z.ltb_spec i0 i) as [Hlt|Hge];
          specialize (Hacc _ _ eq_refl) as Hj;
          (split; [set_solver|]); split.
        -- intros b' i' [[= -> ->]|?]%elem_of_cons; [lia|eauto].
        -- intros i' b' [= -> ->]. lia.
        -- intros b' i' [[= -> ->]|?]%elem_of_cons; [lia|eauto].
        -- intros i' b' [= -> ->]. lia.
      * specialize (Hacc _ _ eq_refl). split; [set_solver|]. split; [|done].
        intros b' i' [[= -> ->]|?]%elem_of_cons; [lia|eauto].
    + destruct IH as [Hk Hall]. cbn [keep_due] in Hk. rewrite Z.gtb_ltb in Hk.
      destruct (Z.ltb_spec now i).
      * split; [done|]. intros b' i' [[= -> ->]|?]%elem_of_cons; [lia|eauto].
      * exfalso. destruct acc as [[i0 b0]|]; [|done]. rewrite Z.gtb_ltb in Hk. by case_match.
  - cbn [foldl keep_due]. specialize (IH acc). destruct (foldl _ _ _) as [[j c]|]; set_solver.
Qed.

Lemma fire_instants_elem `{CaptureEnv} (a : Anchor) (tz : zoneinfo) (lat lon : option float)
    (bases : list Z) (cands : list (Z * option Z)) (b : Z) (o : option Z) :
  fire_instants a tz lat lon bases = Ok cands →
  (b, o) ∈ cands ↔ b ∈ bases ∧ anchor_fire_instant a b tz lat lon = Ok o.
Proof.
  intros Hc. split.
  - intros Hin. destruct (traverse_elem_r _ _ _ _ Hc Hin) as (b' & Hb' & Hf).
    apply bind_ok in Hf as (o' & ? & [= -> ->]). done.
  - intros [Hb Ho]. destruct (traverse_elem_l _ _ _ _ Hc Hb) as (y & Hy & Hf).
    rewrite Ho in Hf. by simplify_eq/=.
Qed.

Lemma effective_tz_clock (a : Anchor) (tz : zoneinfo) (stz : option zoneinfo) :
  a_kind a = KClock → effective_tz a tz stz = tz.
Proof. unfold effective_tz. intros ->. by destruct stz. Qed.

(** What [due_anchors] reports is true.  Every decision is about an enabled
    anchor of the list; a decision that carries an instant names the fire
    instant of its anchor on its own local date, in the anchor's effective zone,
    an instant that has elapsed, and says "within grace" exactly when [now] is
    no later than the grace after it; a decision without an instant is a solar
    anchor without geolocation. *)
Theorem due_anchors_sound `{CaptureEnv} (anchors : list Anchor) (now : Z) (tz : zoneinfo)
    (lat lon : option float) (grace : Z) (stz : option zoneinfo)
    (ds : list AnchorDecision) (dec : AnchorDecision) :
  due_anchors anchors now tz lat lon grace stz = Ok ds → dec ∈ ds →
  d_anchor dec ∈ anchors ∧ a_enabled (d_anchor dec) = true ∧
  match d_instant dec with
  | Some u =>
      anchor_fire_instant (d_anchor dec) (d_local_date dec)
        (effective_tz (d_anchor dec) tz stz) lat lon = Ok (Some u) ∧
      u ≤ now ∧ (d_within_grace dec = true ↔ now ≤ u + grace) ∧ d_has_geo dec = true
  | None =>
      is_solar (a_kind (d_anchor dec)) = true ∧ (lat = None ∨ lon = None) ∧
      d_within_grace dec = false ∧ d_has_geo dec = false
  end.
Proof.
  unfold due_anchors. destruct (traverse _ _) as [os|] eqn:Ht; [|done].
  intros [= <-] Hd%elem_of_somes.
  destruct (traverse_elem_r _ _ _ _ Ht Hd) as (a & Ha & Hdue).
  unfold due_anchor in Hdue. destruct (a_enabled a) eqn:Hen; cbn [negb] in Hdue; [|done].
  destruct (_ && _) eqn:Hgeo.
  - simplify_eq/=. apply andb_true_iff in Hgeo as [? Hgeo].
    split_and!; try done. destruct lat, lon; naive_solver.
  - apply bind_ok in Hdue as (cands & Hc & Hdue).
    pose proof (keep_due_fold now cands None) as Hk.
    destruct (foldl _ _ _) as [[i b]|]; [|done].
    destruct Hk as ([?|[Hin Hi]] & _ & _); [done|].
    simplify_eq/=. apply (fire_instants_elem _ _ _ _ _ _ _ _ Hc) in Hin as [_ Hfire].
    split_and!; try done. apply Z.leb_le.
Qed.

Section due.
Context `{CaptureEnv} (tz : zoneinfo) (L H' : Z).
Context (Hok : zone_ok tz = true) (Hws : zone_whole_seconds tz = true).
Context (Hin : zone_within L H' tz = true) (Hspread : H' - L ≤ 11 * HOUR + 30 * MINUTE).
Context (a : Anchor) (h m : Z) (Ha : clock_at a h m).
Context (Hhm : 0 ≤ h ≤ 23 ∧ 0 ≤ m ≤ 59).
Context (Hoff : - MAX_OFFSET_MINUTES ≤ a_offset_minutes a ≤ MAX_OFFSET_MINUTES).

Local Abbreviation fire d := (clock_fire tz (fire_wall a h m d)).

(** A fire at most [grace <= 30 min] ago has a base date next to today's. *)
Lemma recent_base (d now : Z) :
  fire d ≤ now ≤ fire d + EXACT_TIME_GRACE →
  local_date_of now tz - 1 ≤ d ≤ local_date_of now tz + 1.
Proof using Hok Hin Hspread Hhm Hoff.
  intros Hnow. pose proof (clock_fire_bounds tz L H' (fire_wall a h m d) Hok Hin).
  pose proof (zone_within_offset_at L H' tz now Hin).
  unfold local_date_of, astimezone, fire_wall, EXACT_TIME_GRACE, MAX_OFFSET_MINUTES in *.
  cbn [ld_wall]. time_lia.
Qed.

(** Fires of later days are further than the grace away. *)
Lemma fire_increasing (d d' : Z) : d < d' → fire d + EXACT_TIME_GRACE < fire d'.
Proof using Hok Hin Hspread.
  intros Hd. pose proof (clock_fire_bounds tz L H' (fire_wall a h m d) Hok Hin).
  pose proof (clock_fire_bounds tz L H' (fire_wall a h m d') Hok Hin).
  assert (DAY ≤ fire_wall a h m d' - fire_wall a h m d) by (unfold fire_wall; time_lia).
  unfold EXACT_TIME_GRACE in *. time_lia.
Qed.

Lemma fire_instants_clock (lat lon : option float) (bases : list Z) :
  fire_instants a tz lat lon bases = Ok ((λ d, (d, Some (fire d))) <$> bases).
Proof using Hok Hws Ha.
  apply traverse_ok. induction bases as [|b bases IH]; [constructor|].
  constructor; [|done]. by rewrite (fire_clock a h m b).
Qed.

Lemma due_clock (d now : Z) (lat lon : option float) (stz : option zoneinfo) :
  a_enabled a = true → fire d ≤ now ≤ fire d + EXACT_TIME_GRACE →
  due_anchor now tz lat lon EXACT_TIME_GRACE stz a =
    Ok (Some (MkDecision a d (Some (fire d)) true true)).
Proof using All.
  intros Hen Hnow. pose proof (recent_base d now Hnow) as Hbase.
  pose proof Ha as [Hk _]. unfold due_anchor.
  rewrite Hen, Hk, effective_tz_clock by done. cbn [negb is_solar andb].
  rewrite fire_instants_clock. cbn [mbind result_bind].
  set (today := local_date_of now tz) in *.
  pose proof (keep_due_fold now ((λ d, (d, Some (fire d))) <$> [today + 1; today; today - 1]) None)
    as Hfold.
  assert ((d, Some (fire d)) ∈ (λ d, (d, Some (fire d))) <$> [today + 1; today; today - 1]) as Hd.
  { apply list_elem_of_fmap. exists d. split; [done|]. rewrite !elem_of_cons. lia. }
  destruct (foldl _ _ _) as [[i b]|].
  - destruct Hfold as ([?|[Hb Hi]] & Hmax & _); [done|].
    specialize (Hmax _ _ Hd ltac:(lia)).
    apply list_elem_of_fmap in Hb as (b' & [= -> ->] & _).
    assert (b' = d) as ->.
    { destruct (Z.lt_trichotomy b' d) as [Hlt|[?|Hlt]]; [|done|];
        apply fire_increasing in Hlt; unfold EXACT_TIME_GRACE in *; unfold_time; lia. }
    by rewrite (proj2 (Z.leb_le _ _)) by lia.
  - destruct Hfold as [_ Hall]. specialize (Hall _ _ Hd). lia.
Qed.
End due.

(** [due_anchors] answers when the clock anchors are well formed. *)
Lemma anchor_fire_is_ok `{CaptureEnv} (a : Anchor) (d : Z) (tz : zoneinfo)
    (lat lon : option float) :
  anchor_wf a → is_ok (anchor_fire_instant a d tz lat lon).
Proof.
  intros [Hclock _ _ _]. unfold anchor_fire_instant. case_decide as Hk.
  - destruct (Hclock Hk) as (h & m & Hh & Hm & Ht).
    unfold clock_fire_local. rewrite Ht, parse_fmt_hhmm by done. eexists. done.
  - destruct lat, lon; try (eexists; done). case_match; eexists; done.
Qed.

Lemma fire_instants_is_ok `{CaptureEnv} (a : Anchor) (bases : list Z) (tz : zoneinfo)
    (lat lon : option float) :
  anchor_wf a → is_ok (fire_instants a tz lat lon bases).
Proof.
  intros Hwf. apply traverse_is_ok, Forall_forall. intros d _.
  destruct (anchor_fire_is_ok a d tz lat lon Hwf) as [o ->]. by eexists.
Qed.

Lemma due_anchors_is_ok `{CaptureEnv} (anchors : list Anchor) (now : Z) (tz : zoneinfo)
    (lat lon : option float) (grace : Z) (stz : option zoneinfo) :
  Forall anchor_wf anchors → is_ok (due_anchors anchors now tz lat lon grace stz).
Proof.
  intros Hwf. unfold due_anchors.
  destruct (traverse_is_ok (due_anchor now tz lat lon grace stz) anchors) as [l ->];
    [|by eexists].
  eapply Forall_impl; [exact Hwf|]. intros a Ha. cbv beta. unfold due_anchor.
  destruct (negb _); [by eexists|]. destruct (_ && _); [by eexists|].
  destruct (fire_instants_is_ok a [local_date_of now (effective_tz a tz stz) + 1;
     local_date_of now (effective_tz a tz stz); local_date_of now (effective_tz a tz stz) - 1]
     (effective_tz a tz stz) lat lon Ha) as [c ->].
  cbn [mbind result_bind]. repeat case_match; by eexists.
Qed.

(** No fire is overlooked.  In a zone whose offsets span at most eleven and a
    half hours, [due_anchors] over a list of well-formed anchors answers, and
    for every enabled clock anchor whose fire instant for some base date [d] lies
    at most the thirty-minute grace before [now], the list it answers has a
    decision for that anchor with exactly that base date and instant, within
    grace: offsets that carry the instant to the neighbouring day and clock
    changes included. *)
Theorem due_anchors_complete `{CaptureEnv} (anchors : list Anchor) (a : Anchor) (d now u : Z)
    (tz : zoneinfo) (L H' : Z) (lat lon : option float) (stz : option zoneinfo) :
  zone_ok tz = true → zone_whole_seconds tz = true → zone_within L H' tz = true →
  H' - L ≤ 11 * HOUR + 30 * MINUTE →
  Forall anchor_wf anchors → a ∈ anchors → a_kind a = KClock → a_enabled a = true →
  anchor_fire_instant a d tz lat lon = Ok (Some u) → u ≤ now ≤ u + EXACT_TIME_GRACE →
  ∃ ds, due_anchors anchors now tz lat lon EXACT_TIME_GRACE stz = Ok ds ∧
    MkDecision a d (Some u) true true ∈ ds.
Proof.
  intros Hok Hws Hin Hsp Hwf Ha Hk Hen Hfire Hnow.
  destruct (due_anchors_is_ok anchors now tz lat lon EXACT_TIME_GRACE stz Hwf) as [ds Hds].
  exists ds. split; [done|].
  rewrite Forall_forall in Hwf. destruct (Hwf a Ha) as [Hclock _ Hoff _].
  destruct (Hclock Hk) as (h & m & Hh & Hm & Ht).
  assert (clock_at a h m) as Hat.
  { split; [done|]. eexists. split; [done|]. by apply parse_fmt_hhmm. }
  rewrite (fire_clock a h m d) in Hfire by done. injection Hfire as <-.
  unfold due_anchors in Hds. destruct (traverse _ _) as [os|] eqn:Htr; [|done].
  injection Hds as <-. apply elem_of_somes.
  destruct (traverse_elem_l _ _ _ _ Htr Ha) as (y & Hy & Hdue).
  rewrite (due_clock tz L H' Hok Hws Hin Hsp a h m Hat (conj Hh Hm) Hoff d) in Hdue by done.
  by injection Hdue as <-.
Qed.

(** ** The next wake-up *)
Lemma fold_keep_min_some (l : list Z) (x : Z) :
  x ∈ l → ∃ m, foldl keep_min None l = Some m ∧ m ≤ x.
Proof.
  intros Hx. pose proof (fold_keep_min l None) as Hf. destruct (foldl _ _ _) as [m|].
  - destruct Hf as (_ & Hle & _). eauto.
  - destruct Hf as [_ ->]. by apply elem_of_nil in Hx.
Qed.

Lemma elem_of_future_instants (now i : Z) (cands : list (Z * option Z)) :
  i ∈ future_instants now cands ↔ now < i ∧ ∃ b, (b, Some i) ∈ cands.
Proof.
  unfold future_instants. rewrite list_elem_of_filter, elem_of_somes, list_elem_of_fmap.
  split; [intros (? & [b o] & -> & ?)|intros (? & b & ?)]; [by eauto|].
  split; [done|]. by exists (b, Some i).
Qed.

Section wake.
Context `{CaptureEnv} (anchors : list Anchor) (now : Z) (tz : zoneinfo).
Context (lat lon : option float) (stz : option zoneinfo).

(** The wake candidates of one anchor. *)
Definition wake_bases (a : Anchor) : list Z :=
  let today := local_date_of now (effective_tz a tz stz) in [today - 1; today; today + 1].

Lemma next_anchor_wake_spec :
  Forall anchor_wf anchors →
  ∃ r, next_anchor_wake anchors now tz lat lon stz = Ok r ∧
    (∀ i, r = Some i → now < i ∧ ∃ a d, a ∈ anchors ∧ a_enabled a = true ∧
       d ∈ wake_bases a ∧ anchor_fire_instant a d (effective_tz a tz stz) lat lon = Ok (Some i)) ∧
    (∀ a d u, a ∈ anchors → a_enabled a = true → d ∈ wake_bases a → now < u →
       anchor_fire_instant a d (effective_tz a tz stz) lat lon = Ok (Some u) →
       ∃ i, r = Some i ∧ i ≤ u).
Proof.
  intros Hwf. unfold next_anchor_wake.
  destruct (traverse_is_ok (λ a, fire_instants a (effective_tz a tz stz) lat lon (wake_bases a))
              (filter (λ a, a_enabled a = true) anchors)) as [css Hcss].
  { apply Forall_forall. intros a [_ Ha]%list_elem_of_filter. rewrite Forall_forall in Hwf.
    by apply fire_instants_is_ok, Hwf. }
  eexists. split; [apply bind_ok; exists css; split; [exact Hcss|done]|].
  split.
  - intros i Hi. pose proof (fold_keep_min (future_instants now (mjoin css)) None) as Hf.
    rewrite Hi in Hf. destruct Hf as ([?|Hin] & _); [done|].
    apply elem_of_future_instants in Hin as (Hlt & b & (cs & Hb & Hcs)%list_elem_of_join).
    split; [done|].
    destruct (traverse_elem_r _ _ _ _ Hcss Hcs) as (a & [Hen Ha]%list_elem_of_filter & Hfa).
    apply (fire_instants_elem _ _ _ _ _ _ _ _ Hfa) in Hb as [Hb Hfire].
    by exists a, b.
  - intros a d u Ha Hen Hd Hu Hfire. apply fold_keep_min_some, elem_of_future_instants.
    split; [done|]. exists d.
    destruct (traverse_elem_l _ _ _ a Hcss) as (cs & Hcs & Hfa).
    { by apply list_elem_of_filter. }
    apply list_elem_of_join. exists cs. split; [|done].
    by apply (fire_instants_elem _ _ _ _ _ _ _ _ Hfa).
Qed.
End wake.

(** The anchor wake-up time is the earliest fire to come.  Over well-formed
    anchors [next_anchor_wake] answers; an instant it answers lies after [now]
    and is the fire instant of an enabled anchor; and it is no later than any
    future fire, on any day, of an enabled clock anchor whose [HH:MM + offset]
    is at least the spread of the zone's offsets past midnight (in a zone
    without clock changes: not before midnight). *)
Theorem next_anchor_wake_earliest `{CaptureEnv} (anchors : list Anchor) (now : Z)
    (tz : zoneinfo) (L H' : Z) (lat lon : option float) (stz : option zoneinfo) :
  zone_ok tz = true → zone_whole_seconds tz = true → zone_within L H' tz = true →
  H' - L ≤ 11 * HOUR + 30 * MINUTE → Forall anchor_wf anchors →
  ∃ r, next_anchor_wake anchors now tz lat lon stz = Ok r ∧
    (∀ i, r = Some i → now < i ∧ ∃ a d, a ∈ anchors ∧ a_enabled a = true ∧
       anchor_fire_instant a d (effective_tz a tz stz) lat lon = Ok (Some i)) ∧
    (∀ a h m d u, a ∈ anchors → a_enabled a = true → clock_at a h m →
       H' - L ≤ h * HOUR + m * MINUTE + a_offset_minutes a * MINUTE → now < u →
       anchor_fire_instant a d tz lat lon = Ok (Some u) →
       ∃ i, r = Some i ∧ i ≤ u).
Proof.
  intros Hok Hws Hin Hsp Hwf.
  destruct (next_anchor_wake_spec anchors now tz lat lon stz Hwf) as (r & Hr & Hsound & Hcomp).
  exists r. split; [done|]. split; [naive_solver|].
  intros a h m d u Ha Hen Hat Hearly Hu Hfire.
  pose proof Hat as [Hk (text & Htext & Hpc)].
  apply parse_clock_range in Hpc as [Hh Hm].
  rewrite Forall_forall in Hwf. destruct (Hwf a Ha) as [_ _ Hoff _].
  rewrite (fire_clock a h m d) in Hfire by done. injection Hfire as <-.
  specialize (Hcomp a). rewrite effective_tz_clock in Hcomp by done.
  set (today := local_date_of now tz) in *.
  assert (wake_bases now tz stz a = [today - 1; today; today + 1]) as Hbases.
  { unfold wake_bases. by rewrite effective_tz_clock. }
  rewrite Hbases in Hcomp.
  assert (today * DAY ≤ now + offset_at tz now < (today + 1) * DAY) as Htoday.
  { subst today. unfold local_date_of, astimezone; simpl. time_lia. }
  pose proof (zone_within_offset_at L H' tz now Hin) as Hnow.
  pose proof (clock_fire_bounds tz L H' (fire_wall a h m (today + 1)) Hok Hin) as Htom.
  pose proof (clock_fire_bounds tz L H' (fire_wall a h m d) Hok Hin) as Hd.
  assert (today - 1 ≤ d) as Hlo.
  { unfold fire_wall, MAX_OFFSET_MINUTES in *. unfold_time. lia. }
  destruct (decide (d ≤ today + 1)) as [Hhi|Hhi].
  - apply (Hcomp d); [done|done| |done|by apply fire_clock].
    rewrite !elem_of_cons. lia.
  - destruct (Hcomp (today + 1) (clock_fire tz (fire_wall a h m (today + 1)))) as (i & Hi & Hle);
      [done|done|set_solver| |by apply fire_clock|].
    { unfold fire_wall in *. unfold_time. lia. }
    exists i. split; [done|].
    pose proof (fire_increasing tz L H' Hok Hin Hsp a h m (today + 1) d ltac:(lia)).
    unfold EXACT_TIME_GRACE in *. unfold_time. lia.
Qed.

(** An offset that carries the fire to the day before can hide the next
    fire.  The clock anchor ["00:00"] with an offset of minus twelve hours fires
    every day at noon; at 13:00 UTC [next_anchor_wake] answers [None], although
    the anchor fires the next day at noon (for the base date two days ahead,
    which the three-day scan does not reach). *)
Theorem next_anchor_wake_misses_early_offset :
  let a := MkAnchor "a1" KClock (Some "00:00") (-720) true in
  let now := at_utc 19792 13 0 in
  @next_anchor_wake demo_env [a] now UTC_zone None None None = Ok None ∧
  @anchor_fire_instant demo_env a 19794 UTC_zone None None = Ok (Some (at_utc 19793 12 0)) ∧
  now < at_utc 19793 12 0.
Proof. split_and!; reflexivity. Qed.

(** ** Retry delays *)
Lemma anchor_retry_delay_some (attempts remaining delay : Z) (auth : bool) :
  anchor_retry_delay attempts remaining auth = Some delay →
  1 ≤ attempts < (if auth then ANCHOR_AUTH_MAX_ATTEMPTS else ANCHOR_MAX_ATTEMPTS) ∧
  delay = ANCHOR_RETRY_BASE * 2 ^ (attempts - 1) ∧
  delay + ANCHOR_RETRY_GRACE_MARGIN ≤ remaining.
Proof.
  unfold anchor_retry_delay. destruct (_ || _) eqn:Hlim; [done|].
  rewrite Z.gtb_ltb.
  destruct (remaining - ANCHOR_RETRY_GRACE_MARGIN <? _) eqn:Hd; [done|]. intros [= <-].
  apply orb_false_iff in Hlim as [?%Z.ltb_ge Hge]. rewrite Z.geb_leb in Hge.
  apply Z.leb_gt in Hge. apply Z.ltb_ge in Hd. rewrite Z.shiftl_mul_pow2 in * by lia. lia.
Qed.

(** ** Witnesses *)
Definition noon_anchor : Anchor := MkAnchor "a1" KClock (Some "12:00") 0 true.
Definition gap_anchor : Anchor := MkAnchor "a2" KClock (Some "02:00") 30 true.

Lemma noon_anchor_at : clock_at noon_anchor 12 0.
Proof. split; [done|]. by eexists. Defined.
Lemma gap_anchor_at : clock_at gap_anchor 2 0.
Proof. split; [done|]. by eexists. Defined.
Lemma clock_anchor_wf (id : string) (h m off : Z) (en : bool) :
  id ≠ "" → strip id = id → 0 ≤ h ≤ 23 → 0 ≤ m ≤ 59 →
  - MAX_OFFSET_MINUTES ≤ off ≤ MAX_OFFSET_MINUTES →
  anchor_wf (MkAnchor id KClock (Some (fmt_hhmm h m)) off en).
Proof. constructor; simpl; [eauto|done|done|done]. Qed.
Lemma demo_anchors_wf : Forall anchor_wf [noon_anchor; gap_anchor].
Proof.
  apply Forall_cons_2; [|apply Forall_cons_2; [|constructor]].
  - apply (clock_anchor_wf "a1" 12 0 0 true); unfold MAX_OFFSET_MINUTES; done || lia.
  - apply (clock_anchor_wf "a2" 2 0 30 true); unfold MAX_OFFSET_MINUTES; done || lia.
Qed.

(** A list with an item without identity, blanks and a text offset. *)
Definition demo_anchor_list : pyval :=
  PList [ PDict [("kind", PStr "clock"); ("time", PStr "7:5"); ("id", PStr " k1 ")];
          PDict [("kind", PStr "sunset"); ("offset_minutes", PStr " -15 "); ("enabled", PInt 0)] ].
Definition demo_fresh (i : nat) : string := "fresh" +:+ String (digit_char (Z.of_nat (Nat.modulo i 10))) "".

Lemma demo_fresh_ok : fresh_ok demo_fresh.
Proof.
  intros i. unfold demo_fresh.
  pose proof (Nat.mod_upper_bound i 10 ltac:(lia)) as Hi. revert Hi.
  generalize (Nat.modulo i 10). intros n Hn.
  do 10 (destruct n as [|n]; [split; [discriminate|reflexivity]|]). lia.
Qed.

Lemma parse_anchors_normal_witness :
  let l := [MkAnchor "k1" KClock (Some "07:05") 0 true;
            MkAnchor "fresh1" KSunset None (-15) false] in
  parse_anchors demo_fresh demo_anchor_list = Ok l ∧
  Forall anchor_wf l ∧
  ∀ fresh', parse_anchors fresh' (PList (serialize_anchor <$> l)) = Ok l.
Proof.
  cbv zeta. split; [vm_compute; reflexivity|].
  apply (parse_anchors_normal demo_fresh demo_anchor_list).
  - exact demo_fresh_ok.
  - vm_compute. reflexivity.
Defined.

(** 02:30 on 2024-03-10 in a zone that moves from 02:00 to 03:00 that night. *)
Lemma clock_anchor_fires_on_time_witness :
  ∃ u, @anchor_fire_instant demo_env gap_anchor 19792 tz_spring None None = Ok (Some u) ∧
    match gap_at tz_spring (fire_wall gap_anchor 2 0 19792) with
    | None =>
        ld_wall (astimezone tz_spring u) = fire_wall gap_anchor 2 0 19792 ∧
        (∀ u', ld_wall (astimezone tz_spring u') = fire_wall gap_anchor 2 0 19792 → u ≤ u') ∧
        clock_anchor_in_dst_gap gap_anchor 19792 tz_spring = Ok false
    | Some (t, p, o) =>
        u = t ∧ t + p ≤ fire_wall gap_anchor 2 0 19792 < t + o ∧
        clock_anchor_in_dst_gap gap_anchor 19792 tz_spring = Ok true
    end.
Proof.
  apply (@clock_anchor_fires_on_time demo_env gap_anchor 2 0 19792 tz_spring None None).
  - reflexivity.
  - reflexivity.
  - exact gap_anchor_at.
Defined.

Lemma due_anchors_sound_witness :
  let dec := MkDecision noon_anchor 19792 (Some (at_utc 19792 17 0)) true true in
  d_anchor dec ∈ [noon_anchor; gap_anchor] ∧ a_enabled (d_anchor dec) = true ∧
  match d_instant dec with
  | Some u =>
      @anchor_fire_instant demo_env (d_anchor dec) (d_local_date dec)
        (effective_tz (d_anchor dec) tz_spring None) None None = Ok (Some u) ∧
      u ≤ at_utc 19792 17 10 ∧
      (d_within_grace dec = true ↔ at_utc 19792 17 10 ≤ u + EXACT_TIME_GRACE) ∧
      d_has_geo dec = true
  | None =>
      is_solar (a_kind (d_anchor dec)) = true ∧ (None = @None float ∨ None = @None float) ∧
      d_within_grace dec = false ∧ d_has_geo dec = false
  end.
Proof.
  cbv zeta.
  apply (@due_anchors_sound demo_env [noon_anchor; gap_anchor] (at_utc 19792 17 10)
           tz_spring None None EXACT_TIME_GRACE None
           [MkDecision noon_anchor 19792 (Some (at_utc 19792 17 0)) true true;
            MkDecision gap_anchor 19792 (Some (at_utc 19792 8 0)) false true]).
  - vm_compute. reflexivity.
  - left.
Defined.

Lemma due_anchors_complete_witness :
  ∃ ds, @due_anchors demo_env [noon_anchor; gap_anchor] (at_utc 19792 8 20) tz_spring
          None None EXACT_TIME_GRACE None = Ok ds ∧
    MkDecision gap_anchor 19792 (Some (at_utc 19792 8 0)) true true ∈ ds.
Proof.
  apply (@due_anchors_complete demo_env [noon_anchor; gap_anchor] gap_anchor 19792
           (at_utc 19792 8 20) (at_utc 19792 8 0) tz_spring (-6 * HOUR) (-5 * HOUR)
           None None None).
  - reflexivity.
  - reflexivity.
  - reflexivity.
  - vm_compute. discriminate.
  - exact demo_anchors_wf.
  - right; left.
  - reflexivity.
  - reflexivity.
  - vm_compute. reflexivity.
  - vm_compute. split; discriminate.
Defined.

Lemma next_anchor_wake_earliest_witness :
  ∃ r, @next_anchor_wake demo_env [noon_anchor; gap_anchor] (at_utc 19792 18 0) tz_spring
         None None None = Ok r ∧
    (∀ i, r = Some i → at_utc 19792 18 0 < i ∧ ∃ a d, a ∈ [noon_anchor; gap_anchor] ∧
       a_enabled a = true ∧
       @anchor_fire_instant demo_env a d (effective_tz a tz_spring None) None None = Ok (Some i)) ∧
    (∀ a h m d u, a ∈ [noon_anchor; gap_anchor] → a_enabled a = true → clock_at a h m →
       -5 * HOUR - -6 * HOUR ≤ h * HOUR + m * MINUTE + a_offset_minutes a * MINUTE →
       at_utc 19792 18 0 < u →
       @anchor_fire_instant demo_env a d tz_spring None None = Ok (Some u) →
       ∃ i, r = Some i ∧ i ≤ u).
Proof.
  apply (@next_anchor_wake_earliest demo_env [noon_anchor; gap_anchor] (at_utc 19792 18 0)
           tz_spring (-6 * HOUR) (-5 * HOUR) None None None).
  - reflexivity.
  - reflexivity.
  - reflexivity.
  - vm_compute. discriminate.
  - exact demo_anchors_wf.
Defined.
