(* ===== verification/NextDue.v ===== *)
(** * Last, next and missed captures: capture/next_due.py

    The helpers behind the project views.  [fresh] is the identity supply of
    [parse_anchors] (the identities play no part in the answers). *)

From Stdlib Require Import SpecFloat.
From S2P Require Import Prelude PyTime PyVal Env Schedule Anchors AnchorsFacts.
From stdpp Require Import options.
Local Open Scope Z_scope.

Definition as_utc (value : option pydatetime) : option Z := aware_instant <$> value.

Section next_due.
Context `{CaptureEnv}.

(** [_schedule_tz]: any failure falls back to UTC. *)
Definition schedule_tz (schedule_raw : option (list (string * pyval))) : result zoneinfo :=
  match (s ← parse_schedule schedule_raw; schedule_tzinfo s) with
  | Ok tz => Ok tz
  | Raise _ =>
      match env_zoneinfo "UTC" with
      | Some tz => Ok tz
      | None => Raise (ZoneInfoNotFoundError "UTC")
      end
  end.

(** [_enabled_anchors] ([parse_anchors] raises nothing but [ValueError]). *)
Definition enabled_anchors (fresh : nat → string) (raw : pyval) : list Anchor :=
  if negb (truthy raw) then []
  else result_default [] (filter (λ a, a_enabled a = true) <$> parse_anchors fresh raw).

(** The instant the anchor scan starts from: [max(now, start)]. *)
Definition scan_from (now : Z) (start : option Z) : Z :=
  match start with Some s => Z.max now s | None => now end.

(** The next interval tick: [now] before the first capture or when it is due. *)
Definition interval_tick (now : Z) (last : option Z) (interval_seconds : Z) : Z :=
  match last with
  | None => now
  | Some last => Z.max now (last + interval_seconds * SECOND)
  end.

(** The tail of [next_capture_instant]: the earliest candidate, deferred to the
    campaign start and dropped at its end. *)
Definition soonest_within (start end_ : option Z) (candidates : list Z) : option Z :=
  match foldl keep_min None candidates with
  | None => None
  | Some soonest =>
      let soonest :=
        match start with
        | Some s => if soonest <? s then s else soonest
        | None => soonest
        end in
      if match end_ with Some e => soonest >=? e | None => false end then None
      else Some soonest
  end.

Definition next_capture_instant (fresh : nat → string) (now : pydatetime)
    (interval_seconds : option Z) (last_captured_at : option pydatetime)
    (anchors_raw : pyval) (schedule_raw : option (list (string * pyval)))
    (latitude longitude : option float) (start_date end_date : option pydatetime)
    (finished : bool) : result (option Z) :=
  let now := aware_instant now in
  let start := as_utc start_date in
  let end_ := as_utc end_date in
  if finished || match end_ with Some e => e <=? now | None => false end then Ok None
  else
    let anchors := enabled_anchors fresh anchors_raw in
    wake ← match anchors with
           | [] => Ok None
           | _ =>
               tz ← schedule_tz schedule_raw;
               next_anchor_wake anchors (scan_from now start) tz latitude longitude
                 (resolve_zoneinfo latitude longitude)
           end;
    let ticks :=
      match interval_seconds with
      | Some n => if n =? 0 then [] else [interval_tick now (as_utc last_captured_at) n]
      | None => []
      end in
    Ok (soonest_within start end_ (option_list wake ++ ticks)).

(** The two [continue] guards of [missed_anchor_instant], and the instants that
    pass them. *)
Definition instant_counts (now grace : Z) (since : option Z) (instant : Z) : bool :=
  negb (instant + grace >? now) &&
  negb match since with Some s => instant <? s | None => false end.
Definition elapsed_instants (now grace : Z) (since : option Z)
    (cands : list (Z * option Z)) : list Z :=
  filter (λ i, instant_counts now grace since i = true) (somes cands.*2).

(** The fires of one anchor for yesterday and today. *)
Definition missed_candidates (now : Z) (tz : zoneinfo) (solar_tz : option zoneinfo)
    (latitude longitude : option float) (a : Anchor) : result (list (Z * option Z)) :=
  let eff_tz := effective_tz a tz solar_tz in
  let today := local_date_of now eff_tz in
  fire_instants a eff_tz latitude longitude [today - 1; today].

Definition missed_anchor_instant (fresh : nat → string) (now : pydatetime)
    (anchors_raw : pyval) (schedule_raw : option (list (string * pyval)))
    (latitude longitude : option float) (last_captured_at active_since : option pydatetime)
    (grace : Z) : result (option Z) :=
  let now := aware_instant now in
  let since := as_utc active_since in
  tz ← schedule_tz schedule_raw;
  let solar_tz := resolve_zoneinfo latitude longitude in
  per_anchor ← traverse (missed_candidates now tz solar_tz latitude longitude)
                 (enabled_anchors fresh anchors_raw);
  match foldl keep_max None (elapsed_instants now grace since (mjoin per_anchor)) with
  | None => Ok None
  | Some latest =>
      match as_utc last_captured_at with
      | Some last => if last >=? latest then Ok None else Ok (Some latest)
      | None => Ok (Some latest)
      end
  end.

(** ** Facts *)
Lemma elem_of_elapsed (now grace i : Z) (since : option Z) (cands : list (Z * option Z)) :
  i ∈ elapsed_instants now grace since cands ↔
  i + grace ≤ now ∧ (∀ s, since = Some s → s ≤ i) ∧ ∃ b, (b, Some i) ∈ cands.
Proof.
  unfold elapsed_instants, instant_counts.
  rewrite list_elem_of_filter, elem_of_somes, list_elem_of_fmap, andb_true_iff, !negb_true_iff,
    Z.gtb_ltb, Z.ltb_ge.
  assert ((match since with Some s => i <? s | None => false end) = false ↔
    ∀ s, since = Some s → s ≤ i) as ->.
  { destruct since as [s|]; [rewrite Z.ltb_ge|]; naive_solver. }
  split.
  - intros ((? & ?) & [b o] & -> & ?). eauto.
  - intros (? & ? & b & ?). split; [done|]. by exists (b, Some i).
Qed.

Lemma fold_keep_max_some (l : list Z) (x : Z) :
  x ∈ l → ∃ m, foldl keep_max None l = Some m ∧ m ∈ l ∧ x ≤ m.
Proof.
  intros Hx. pose proof (fold_keep_max l None) as Hf. destruct (foldl _ _ _) as [m|].
  - destruct Hf as ([?|Hm] & Hle & _); [done|]. eauto.
  - destruct Hf as [_ ->]. by apply elem_of_nil in Hx.
Qed.

Lemma enabled_anchors_wf (fresh : nat → string) (raw : pyval) :
  fresh_ok fresh →
  Forall anchor_wf (enabled_anchors fresh raw) ∧
  Forall (λ a, a_enabled a = true) (enabled_anchors fresh raw).
Proof.
  intros Hf. unfold enabled_anchors. destruct (negb _); [by split|].
  destruct (parse_anchors fresh raw) as [l|] eqn:Hl; [|by split]. simpl.
  apply parse_anchors_wf in Hl; [|done]. rewrite !Forall_forall in *.
  split; intros a [??]%list_elem_of_filter; auto.
Qed.

Lemma soonest_within_spec (start end_ : option Z) (cands : list Z) :
  match soonest_within start end_ cands with
  | Some u =>
      (∀ s, start = Some s → s ≤ u) ∧ (∀ e, end_ = Some e → u < e) ∧
      (start = Some u ∨ u ∈ cands) ∧ (∃ c, c ∈ cands ∧ c ≤ u) ∧
      (∀ c, c ∈ cands → u ≤ scan_from c start)
  | None => cands = [] ∨ ∃ e, end_ = Some e ∧ ∀ c, c ∈ cands → e ≤ scan_from c start
  end.
Proof.
  unfold soonest_within. pose proof (fold_keep_min cands None) as Hmin.
  destruct (foldl _ _ _) as [m|]; [|left; naive_solver].
  destruct Hmin as ([?|Hm] & Hle & _); [done|].
  set (u := match start with Some s => if m <? s then s else m | None => m end).
  assert (m ≤ u ∧ (∀ s, start = Some s → s ≤ u) ∧ (start = Some u ∨ u = m) ∧
    ∀ c, m ≤ c → u ≤ scan_from c start) as (Hmu & Hsu & Hu & Hall).
  { subst u. destruct start as [s|]; simpl; [destruct (Z.ltb_spec m s)|]; naive_solver lia. }
  clearbody u. destruct end_ as [e|]; [rewrite Z.geb_leb; destruct (Z.leb_spec e u)|].
  - right. exists e. split; [done|]. intros c ?%Hle%Hall. lia.
  - split_and!; [done|naive_solver|naive_solver|by exists m|eauto].
  - split_and!; [done|naive_solver|naive_solver|by exists m|eauto].
Qed.

(** The planned next capture.  [next_capture_instant] answers for any stored
    anchor list and any schedule document.  An instant it answers is never in the
    past, never before the campaign start, always before its end, and only given
    while the campaign is unfinished; it is the campaign start, the interval tick
    or the next anchor wake-up, and none of those comes earlier.  When it answers
    [None], the campaign is finished or over, there is no candidate at all, or
    every candidate lies at or after the campaign end. *)
Theorem next_capture_instant_planned (fresh : nat → string) (now : pydatetime)
    (interval : option Z) (last : option pydatetime) (anchors_raw : pyval)
    (schedule_raw : option (list (string * pyval))) (lat lon : option float)
    (start_date end_date : option pydatetime) (finished : bool) (tz : zoneinfo) :
  let t := aware_instant now in
  let start := as_utc start_date in
  let planned wake c := wake = Some c ∨
    ∃ n, interval = Some n ∧ n ≠ 0 ∧ c = interval_tick t (as_utc last) n in
  fresh_ok fresh → schedule_tz schedule_raw = Ok tz →
  ∃ wake r,
    next_anchor_wake (enabled_anchors fresh anchors_raw) (scan_from t start) tz lat lon
      (resolve_zoneinfo lat lon) = Ok wake ∧
    next_capture_instant fresh now interval last anchors_raw schedule_raw lat lon
      start_date end_date finished = Ok r ∧
    match r with
    | Some u =>
        finished = false ∧ t ≤ u ∧ (∀ s, start = Some s → s ≤ u) ∧
        (∀ e, as_utc end_date = Some e → u < e) ∧
        (start = Some u ∨ planned wake u) ∧ (∀ c, planned wake c → u ≤ scan_from c start)
    | None =>
        finished = true ∨ (∀ c, ¬ planned wake c) ∨
        ∃ e, as_utc end_date = Some e ∧
          (e ≤ t ∨ ∀ c, planned wake c → e ≤ scan_from c start)
    end.
Proof.
  cbv zeta. intros Hfresh Htz. set (t := aware_instant now). set (start := as_utc start_date).
  destruct (enabled_anchors_wf fresh anchors_raw Hfresh) as [Hwf _].
  destruct (next_anchor_wake_spec _ (scan_from t start) tz lat lon (resolve_zoneinfo lat lon) Hwf)
    as (wake & Hwake & Hfuture & _).
  exists wake. unfold next_capture_instant. fold t start.
  destruct (_ || _) eqn:Hover.
  { exists None. split_and!; [done..|].
    apply orb_true_iff in Hover as [->|He]; [by left|]. right; right.
    destruct (as_utc end_date) as [e|]; [|done]. exists e. split; [done|]. left. lia. }
  apply orb_false_iff in Hover as [-> _].
  eexists. split; [done|]. split.
  { apply bind_ok. exists wake. split; [|done].
    destruct (enabled_anchors fresh anchors_raw); [by rewrite <-Hwake|]. by rewrite Htz. }
  set (cands := option_list wake ++ _).
  assert (∀ c, c ∈ cands ↔ wake = Some c ∨
    ∃ n, interval = Some n ∧ n ≠ 0 ∧ c = interval_tick t (as_utc last) n) as Hc.
  { intros c. subst cands. rewrite elem_of_app, elem_of_option_list. f_equiv.
    destruct interval as [n|]; [destruct (Z.eqb_spec n 0)|]; set_solver. }
  clearbody cands. pose proof (soonest_within_spec start (as_utc end_date) cands) as Hs.
  destruct (soonest_within _ _ _) as [u|].
  - destruct Hs as (Hs1 & Hs2 & Hs3 & (c & Hin & Hcu) & Hs4). setoid_rewrite Hc in Hs4.
    rewrite Hc in Hs3. split_and!; [done| |done..].
    transitivity c; [|done]. apply Hc in Hin as [Hw|(n & _ & _ & ->)].
    + apply Hfuture in Hw as [Hw _]. destruct start; simpl in Hw; lia.
    + unfold interval_tick. case_match; lia.
  - right. destruct Hs as [->|(e & He & Hall)].
    + left. setoid_rewrite <-Hc. intros c. apply not_elem_of_nil.
    + right. exists e. setoid_rewrite <-Hc. eauto.
Qed.

(** An elapsed, un-captured fire: enabled anchor, base date yesterday or today in
    the anchor's own zone, grace over, not before the project became active. *)
Definition elapsed_fire (anchors : list Anchor) (tz : zoneinfo) (lat lon : option float)
    (now grace : Z) (since : option Z) (u : Z) : Prop :=
  ∃ a d, a ∈ anchors ∧
    let eff_tz := effective_tz a tz (resolve_zoneinfo lat lon) in
    (d = local_date_of now eff_tz - 1 ∨ d = local_date_of now eff_tz) ∧
    anchor_fire_instant a d eff_tz lat lon = Ok (Some u) ∧
    u + grace ≤ now ∧ ∀ s, since = Some s → s ≤ u.

Lemma missed_scan (anchors : list Anchor) (tz : zoneinfo) (lat lon : option float)
    (now grace : Z) (since : option Z) :
  Forall anchor_wf anchors →
  ∃ css,
    traverse (missed_candidates now tz (resolve_zoneinfo lat lon) lat lon) anchors = Ok css ∧
    ∀ u, u ∈ elapsed_instants now grace since (mjoin css) ↔
         elapsed_fire anchors tz lat lon now grace since u.
Proof.
  intros Hwf.
  destruct (traverse_is_ok (missed_candidates now tz (resolve_zoneinfo lat lon) lat lon) anchors) as [css Hcss].
  { eapply Forall_impl; [exact Hwf|]. intros a Ha. by apply fire_instants_is_ok. }
  exists css. split; [done|]. intros u. rewrite elem_of_elapsed.
  setoid_rewrite list_elem_of_join. split.
  - intros (Hg & Hs & b & cs & Hb & Hcs).
    destruct (traverse_elem_r _ _ _ _ Hcss Hcs) as (a & Ha & Hfa).
    apply (fire_instants_elem _ _ _ _ _ _ _ _ Hfa) in Hb as [Hb Hfire].
    exists a, b. set_solver.
  - intros (a & d & Ha & Hd & Hfire & Hg & Hs). split; [done|]. split; [done|].
    destruct (traverse_elem_l _ _ _ _ Hcss Ha) as (cs & Hcs & Hfa).
    exists d, cs. split; [|done]. apply (fire_instants_elem _ _ _ _ _ _ _ _ Hfa). set_solver.
Qed.

(** The overdue signal is exact.  [missed_anchor_instant] answers an instant
    exactly when the most recent elapsed fire (of an enabled anchor, for
    yesterday or today, past its grace and not before the project became active)
    has no capture at or after it, and then answers that fire. *)
Theorem missed_anchor_instant_exact (fresh : nat → string) (now : pydatetime)
    (anchors_raw : pyval) (schedule_raw : option (list (string * pyval)))
    (lat lon : option float) (last since : option pydatetime) (grace : Z) (tz : zoneinfo) :
  let fire := elapsed_fire (enabled_anchors fresh anchors_raw) tz lat lon (aware_instant now)
                grace (as_utc since) in
  fresh_ok fresh → schedule_tz schedule_raw = Ok tz →
  ∃ r, missed_anchor_instant fresh now anchors_raw schedule_raw lat lon last since grace = Ok r ∧
    ∀ u, r = Some u ↔
      fire u ∧ (∀ u', fire u' → u' ≤ u) ∧ (∀ l, as_utc last = Some l → l < u).
Proof.
  cbv zeta. intros Hfresh Htz. unfold missed_anchor_instant. rewrite Htz.
  cbn [mbind result_bind].
  destruct (enabled_anchors_wf fresh anchors_raw Hfresh) as [Hwf _].
  destruct (missed_scan _ tz lat lon (aware_instant now) grace (as_utc since) Hwf)
    as (css & -> & Hel). cbn [mbind result_bind].
  setoid_rewrite <-Hel. generalize (elapsed_instants (aware_instant now) grace
    (as_utc since) (mjoin css)). intros l.
  pose proof (fold_keep_max l None) as Hmax. destruct (foldl _ _ _) as [m|].
  - destruct Hmax as ([?|Hm] & Hle & _); [done|].
    assert (∀ u, u ∈ l → (∀ u', u' ∈ l → u' ≤ u) → u = m) as Huniq.
    { intros u Hu Hall. specialize (Hle _ Hu). specialize (Hall _ Hm). lia. }
    destruct (as_utc last) as [lst|]; [destruct (Z.geb_spec lst m)|];
      (eexists; split; [done|]); intros u; split; try done.
    + intros (Hu & Hall & Hl). specialize (Hl _ eq_refl). rewrite (Huniq u) in Hl by done. lia.
    + intros [= <-]. split_and!; [done|done|]. intros ? [= <-]. lia.
    + intros (Hu & Hall & _). by rewrite (Huniq u).
    + intros [= <-]. by split_and!.
    + intros (Hu & Hall & _). by rewrite (Huniq u).
  - destruct Hmax as [_ ->]. eexists. split; [done|]. intros u. split; [done|].
    intros [Hu _]. by apply elem_of_nil in Hu.
Qed.
End next_due.

(** ** Witnesses *)
(** Noon in a zone two hours east of UTC, hourly ticks, a campaign that ends. *)
Definition noon_list : pyval :=
  PList [PDict [("id", PStr "a1"); ("kind", PStr "clock"); ("time", PStr "12:00")]].
Definition fixed_zone_doc : option (list (string * pyval)) :=
  Some [("timezone", PStr "Test/Fixed")].

Lemma next_capture_instant_planned_witness :
  let t := at_utc 19792 9 30 in
  let planned wake c := wake = Some c ∨
    ∃ n, Some 3600 = Some n ∧ n ≠ 0 ∧ c = interval_tick t (Some (at_utc 19792 9 15)) n in
  ∃ wake r,
    @next_anchor_wake demo_env (enabled_anchors demo_fresh noon_list) (scan_from t None)
      tz_fixed2 None None (@resolve_zoneinfo demo_env None None) = Ok wake ∧
    @next_capture_instant demo_env demo_fresh (PDT t None) (Some 3600)
      (Some (PDT (at_utc 19792 9 15) None)) noon_list fixed_zone_doc None None None
      (Some (PDT (at_utc 19900 0 0) None)) false = Ok r ∧
    match r with
    | Some u =>
        false = false ∧ t ≤ u ∧ (∀ s, None = Some s → s ≤ u) ∧
        (∀ e, Some (at_utc 19900 0 0) = Some e → u < e) ∧
        (None = Some u ∨ planned wake u) ∧ (∀ c, planned wake c → u ≤ scan_from c None)
    | None =>
        false = true ∨ (∀ c, ¬ planned wake c) ∨
        ∃ e, Some (at_utc 19900 0 0) = Some e ∧
          (e ≤ t ∨ ∀ c, planned wake c → e ≤ scan_from c None)
    end.
Proof.
  apply (@next_capture_instant_planned demo_env demo_fresh (PDT (at_utc 19792 9 30) None)
           (Some 3600) (Some (PDT (at_utc 19792 9 15) None)) noon_list fixed_zone_doc None None
           None (Some (PDT (at_utc 19900 0 0) None)) false tz_fixed2).
  - exact demo_fresh_ok.
  - vm_compute. reflexivity.
Defined.

Lemma missed_anchor_instant_exact_witness :
  let fire := @elapsed_fire demo_env (enabled_anchors demo_fresh noon_list) tz_fixed2 None None
                (at_utc 19792 11 0) EXACT_TIME_GRACE (Some (at_utc 19700 0 0)) in
  ∃ r, @missed_anchor_instant demo_env demo_fresh (PDT (at_utc 19792 11 0) None) noon_list
         fixed_zone_doc None None (Some (PDT (at_utc 19792 8 0) None))
         (Some (PDT (at_utc 19700 0 0) None)) EXACT_TIME_GRACE = Ok r ∧
    ∀ u, r = Some u ↔
      fire u ∧ (∀ u', fire u' → u' ≤ u) ∧ (∀ l, Some (at_utc 19792 8 0) = Some l → l < u).
Proof.
  apply (@missed_anchor_instant_exact demo_env demo_fresh (PDT (at_utc 19792 11 0) None) noon_list
           fixed_zone_doc None None (Some (PDT (at_utc 19792 8 0) None))
           (Some (PDT (at_utc 19700 0 0) None)) EXACT_TIME_GRACE tz_fixed2).
  - exact demo_fresh_ok.
  - vm_compute. reflexivity.
Defined.
