(* ===== verification/Cadence.v ===== *)
(** * Planned captures per day: capture/cadence.py

    The count behind the storage estimates.  The code's floating-point quotients
    are the exact rationals they approximate ([Q]). *)

From Stdlib Require Import SpecFloat QArith Qround.
From S2P Require Import Prelude PyTime PyVal Env Schedule ScheduleFacts Anchors AnchorsFacts NextDue.
From stdpp Require Import options.
Local Open Scope Z_scope.

Definition HORIZON : Z := 7 * DAY.

(** [timedelta.total_seconds() / n] *)
Definition seconds_over (delta n : Z) : Q :=
  Qdiv (Qdiv (inject_Z delta) (inject_Z SECOND)) (inject_Z n).

Section cadence.
Context `{CaptureEnv}.

(** [_gate_schedule] *)
Definition gate_schedule (schedule_raw : option (list (string * pyval))) : Schedule :=
  result_default default_schedule (parse_schedule schedule_raw).

(** The fires of one anchor in [[begin, stop)]. *)
Definition one_anchor_fires (begin stop : Z) (tz : zoneinfo) (latitude longitude : option float)
    (a : Anchor) : result Z :=
  let day := local_date_of begin tz - 1 in
  let last := local_date_of stop tz + 1 in
  cands ← fire_instants a tz latitude longitude (seqZ day (last - day + 1));
  Ok (Z.of_nat (length (filter (λ i, begin ≤ i ∧ i < stop) (somes cands.*2)))).

(** [_anchor_fires] *)
Definition anchor_fires (anchors : list Anchor) (begin stop : Z) (schedule_tz : zoneinfo)
    (latitude longitude : option float) : result Z :=
  let solar_tz :=
    if existsb (λ a, negb (bool_decide (a_kind a = KClock))) anchors
    then resolve_zoneinfo latitude longitude else None in
  counts ← traverse (λ a, one_anchor_fires begin stop (effective_tz a schedule_tz solar_tz)
                            latitude longitude a) anchors;
  Ok (foldl Z.add 0 counts).

(** The loop of [_interval_ticks] over the open stretches: the ticks so far and
    the next due instant. *)
Definition tick_step (interval_seconds begin : Z) (acc : Q * Z) (stretch : Z * Z) : Q * Z :=
  let '(ticks, due) := acc in
  let '(opens, closes) := stretch in
  if opens =? begin then
    (Qplus ticks (seconds_over (closes - opens) interval_seconds), closes)
  else
    let first := Z.max opens due in
    if first <? closes then
      let interval := interval_seconds * SECOND in
      let count := Qceiling (Qdiv (inject_Z (closes - first)) (inject_Z interval)) in
      (Qplus ticks (inject_Z count), first + count * interval)
    else (ticks, due).

(** [_interval_ticks] *)
Definition interval_ticks (interval_seconds : Z) (s : Schedule) (begin stop : Z)
    (latitude longitude : option float) : result Q :=
  if is_always_open s then Ok (seconds_over (stop - begin) interval_seconds)
  else
    stretches ← open_stretches s begin stop latitude longitude;
    Ok (foldl (tick_step interval_seconds begin) (0%Q, begin) stretches).1.

Definition captures_per_day (fresh : nat → string) (now : pydatetime)
    (interval_seconds : option Z) (anchors_raw : pyval)
    (schedule_raw : option (list (string * pyval))) (latitude longitude : option float)
    (start_date end_date : option pydatetime) (finished : bool) : result (option Q) :=
  if finished then Ok None
  else
    let begin := scan_from (aware_instant now) (as_utc start_date) in
    tz ← schedule_tz schedule_raw;
    let begin_wall := ld_wall (astimezone tz begin) in
    let stop := to_utc tz (LDT (begin_wall + HORIZON) false) in
    let stop := match as_utc end_date with Some e => Z.min stop e | None => stop end in
    if stop <=? begin then Ok None
    else
      let stop_wall := ld_wall (astimezone tz stop) in
      let horizon_days := seconds_over (stop_wall - begin_wall) 86400 in
      let horizon_days :=
        if Qle_bool horizon_days 0 then seconds_over (stop - begin) 86400 else horizon_days in
      fires ← anchor_fires (enabled_anchors fresh anchors_raw) begin stop tz latitude longitude;
      total ← match interval_seconds with
              | Some n =>
                  if n >? 0 then
                    ticks ← interval_ticks n (gate_schedule schedule_raw) begin stop
                              latitude longitude;
                    Ok (Qplus (inject_Z fires) ticks)
                  else Ok (inject_Z fires)
              | None => Ok (inject_Z fires)
              end;
      if Qle_bool total 0 then Ok None else Ok (Some (Qdiv total horizon_days)).
End cadence.

(** ** Counting days *)
Lemma count_days (P : Z → Prop) `{∀ x, Decision (P x)} (s n a b : Z) :
  s ≤ a ≤ b → b ≤ s + n → (∀ d, s ≤ d < s + n → P d ↔ a ≤ d < b) →
  Z.of_nat (length (filter P (seqZ s n))) = b - a.
Proof.
  intros Hs Hb HP.
  replace (seqZ s n) with (seqZ s (a - s) ++ seqZ a (b - a) ++ seqZ b (s + n - b)).
  - rewrite !filter_app, (filter_none P (seqZ s _)), (filter_all P (seqZ a _)),
      (filter_none P (seqZ b _)); [|intros x Hx%elem_of_seqZ; rewrite HP by lia; lia..].
    rewrite app_nil_r. simpl. rewrite length_seqZ. lia.
  - replace n with ((a - s) + ((b - a) + (s + n - b))) at 2 by lia.
    rewrite seqZ_app by lia. replace (s + (a - s)) with a by lia.
    rewrite seqZ_app by lia. by replace (a + (b - a)) with b by lia.
Qed.

(** Counting the images is counting the days. *)
Lemma seqZ_map_filter_length (P Q : Z → Prop) `{∀ x, Decision (P x)} `{∀ x, Decision (Q x)}
    (f : Z → Z) (l : list Z) :
  (∀ d, d ∈ l → P (f d) ↔ Q d) →
  length (filter P (somes ((λ d, (d, Some (f d))) <$> l).*2)) = length (filter Q l).
Proof.
  induction l as [|d l IH]; intros HPQ; [done|].
  change (somes (_ <$> d :: l).*2) with (f d :: somes ((λ d, (d, Some (f d))) <$> l).*2).
  rewrite !filter_cons. specialize (HPQ d ltac:(set_solver)) as Hd.
  repeat case_decide; simpl; rewrite ?IH by set_solver; naive_solver.
Qed.

Section steady_rate.
Context `{CaptureEnv} (tz : zoneinfo) (begin off : Z).
Context (Hok : zone_ok tz = true) (Hws : zone_whole_seconds tz = true).
Context (Hst : steady tz (begin - 3 * DAY) (begin + 10 * DAY) off).

Lemma steady_no_gap (u : Z) :
  begin - 3 * DAY ≤ u ≤ begin + 10 * DAY → clock_fire tz (u + off) = u.
Proof using Hok Hst.
  intros Hu. destruct (Hst u Hu) as [Ho Hw]. unfold clock_fire.
  rewrite (proj1 (wall_exists_no_gap tz Hok (u + off))); [done|].
  unfold wall_exists, wall_to_utc in *. rewrite Hw. unfold astimezone; simpl. rewrite Ho.
  by apply Z.eqb_eq.
Qed.

(** Seven days hold exactly seven fires of a daily clock anchor. *)
Lemma week_of_fires (a : Anchor) (h m : Z) (lat lon : option float) :
  clock_at a h m → 0 ≤ h ≤ 23 → 0 ≤ m ≤ 59 →
  - MAX_OFFSET_MINUTES ≤ a_offset_minutes a ≤ MAX_OFFSET_MINUTES →
  one_anchor_fires begin (begin + HORIZON) tz lat lon a = Ok 7.
Proof using All.
  intros Hat Hh Hm Hoff. unfold one_anchor_fires.
  rewrite (fire_instants_clock tz Hok Hws a h m Hat). cbn [mbind result_bind]. f_equal.
  unfold HORIZON.
  assert (local_date_of begin tz = date_of (begin + off)) as ->.
  { unfold local_date_of, astimezone; simpl. rewrite (proj1 (Hst begin ltac:(time_lia))). done. }
  assert (local_date_of (begin + 7 * DAY) tz = date_of (begin + off) + 7) as ->.
  { unfold local_date_of, astimezone; simpl.
    rewrite (proj1 (Hst (begin + 7 * DAY) ltac:(time_lia))). time_lia. }
  set (D := date_of (begin + off)).
  assert (D * DAY ≤ begin + off < (D + 1) * DAY) as HD by (subst D; time_lia).
  clearbody D.
  set (c := h * HOUR + m * MINUTE + a_offset_minutes a * MINUTE).
  assert (-12 * HOUR ≤ c < 36 * HOUR) as Hc
    by (subst c; unfold MAX_OFFSET_MINUTES in *; unfold_time; lia).
  assert (∀ d, fire_wall a h m d = d * DAY + c) as Hwall
    by (intros d; subst c; unfold fire_wall; lia).
  clearbody c. clear Hat Hh Hm Hoff.
  assert (∀ d, D - 1 ≤ d < D - 1 + 10 → clock_fire tz (fire_wall a h m d) = d * DAY + c - off)
    as Hfire.
  { intros d Hd. rewrite Hwall.
    replace (d * DAY + c) with (d * DAY + c - off + off) at 1 by lia.
    apply steady_no_gap. unfold_time. lia. }
  replace (D + 7 + 1 - (D - 1) + 1) with 10 by lia.
  set (first := (begin + off - c + (DAY - 1)) / DAY).
  assert ((first - 1) * DAY < begin + off - c ≤ first * DAY) as Hfirst by (subst first; time_lia).
  clearbody first.
  transitivity (Z.of_nat (length (filter (λ d, first ≤ d < first + 7) (seqZ (D - 1) 10)))).
  - f_equal. rewrite (seqZ_map_filter_length
      (λ i, begin ≤ i ∧ i < begin + 7 * DAY) (λ d, first ≤ d < first + 7)
      (λ d, clock_fire tz (fire_wall a h m d))); [done|].
    intros d Hd%elem_of_seqZ. rewrite Hfire by lia. unfold_time. lia.
  - rewrite (count_days _ (D - 1) 10 first (first + 7)); unfold_time; lia.
Qed.
End steady_rate.

Lemma week_of_all_fires `{CaptureEnv} (tz : zoneinfo) (begin off : Z) (anchors : list Anchor)
    (lat lon : option float) :
  zone_ok tz = true → zone_whole_seconds tz = true →
  steady tz (begin - 3 * DAY) (begin + 10 * DAY) off →
  Forall anchor_wf anchors → Forall (λ a, a_kind a = KClock) anchors →
  anchor_fires anchors begin (begin + HORIZON) tz lat lon =
    Ok (7 * Z.of_nat (length anchors)).
Proof.
  intros Hok Hws Hst Hwf Hclock. unfold anchor_fires. generalize
    (if existsb (λ a, negb (bool_decide (a_kind a = KClock))) anchors
     then resolve_zoneinfo lat lon else None). intros stz.
  assert (traverse (λ a, one_anchor_fires begin (begin + HORIZON) (effective_tz a tz stz) lat lon a)
    anchors = Ok (replicate (length anchors) 7)) as ->.
  { apply traverse_ok. induction anchors as [|a anchors IH]; [constructor|].
    apply Forall_cons in Hwf as [Ha Hwf]. apply Forall_cons in Hclock as [Hk Hclock].
    constructor; [|by apply IH]. rewrite effective_tz_clock by done.
    destruct (wf_clock a Ha Hk) as (h & m & Hh & Hm & Ht).
    apply (week_of_fires tz begin off Hok Hws Hst a h m); [|done|done|apply Ha].
    split; [done|]. eexists. split; [done|]. by apply parse_fmt_hhmm. }
  cbn [mbind result_bind]. f_equal. clear.
  assert (∀ n acc, foldl Z.add acc (replicate n 7) = acc + 7 * Z.of_nat n) as Hsum.
  { induction n as [|n IH]; intros acc; cbn [replicate foldl]; [lia|]. rewrite IH. lia. }
  apply Hsum.
Qed.

(** The capture rate in a week without a clock change, from its two counts. *)
Definition steady_rate (anchors : nat) (interval : option Z) : Q :=
  Qplus (inject_Z (Z.of_nat anchors))
    (match interval with
     | Some n => if n >? 0 then Qdiv (inject_Z 86400) (inject_Z n) else 0%Q
     | None => 0%Q
     end).

Lemma week_days : (seconds_over HORIZON 86400 == 7)%Q.
Proof. reflexivity. Qed.

Lemma week_total (k n : Z) : 0 ≤ k → 0 < n →
  (0 < inject_Z (7 * k) + seconds_over HORIZON n)%Q ∧
  ((inject_Z (7 * k) + seconds_over HORIZON n) / seconds_over HORIZON 86400 ==
   inject_Z k + inject_Z 86400 / inject_Z n)%Q.
Proof.
  intros Hk Hn. assert (¬ (inject_Z n == 0)%Q) as Hnz.
  { change 0%Q with (inject_Z 0). rewrite inject_Z_injective. lia. }
  assert (seconds_over HORIZON n == inject_Z 604800 / inject_Z n)%Q as Hs.
  { unfold seconds_over. by assert (inject_Z HORIZON / inject_Z SECOND == inject_Z 604800)%Q
      as -> by reflexivity. }
  split.
  - rewrite Hs. apply (Qle_lt_trans _ (inject_Z (7 * k) + 0)).
    + rewrite Qplus_0_r. change 0%Q with (inject_Z 0). rewrite <-Zle_Qle. lia.
    + apply Qplus_lt_r. unfold Qdiv. apply Qmult_lt_0_compat; [done|].
      apply Qinv_lt_0_compat. change 0%Q with (inject_Z 0). by rewrite <-Zlt_Qlt.
  - rewrite Hs, week_days, inject_Z_mult. change (inject_Z 7) with 7%Q.
    field_simplify_eq; [|done]. change (inject_Z 604800) with (604800 # 1)%Q.
    change (inject_Z 86400) with (86400 # 1)%Q. ring.
Qed.

Lemma week_anchors_only (k : nat) :
  ∃ r, (if Qle_bool (inject_Z (7 * Z.of_nat k)) 0 then Ok None
        else Ok (Some (inject_Z (7 * Z.of_nat k) / seconds_over HORIZON 86400)%Q)) = Ok r ∧
    match r with Some q => (q == inject_Z (Z.of_nat k) + 0)%Q | None => k = 0%nat end.
Proof.
  destruct (Qle_bool _ _) eqn:Hle; (eexists; split; [done|]); simpl.
  - apply Qle_bool_iff in Hle. change 0%Q with (inject_Z 0) in Hle. rewrite <-Zle_Qle in Hle. lia.
  - rewrite week_days, inject_Z_mult. change (inject_Z 7) with 7%Q. field.
Qed.

(** A daily anchor counts once a day and an interval its quotient.  For a
    running project without an end date, whose enabled anchors are all clock
    anchors, in a week around which the schedule zone keeps one offset and with an
    always-open gate, [captures_per_day] is exactly the number of enabled anchors
    plus [86400 / interval] (whatever the offsets of the anchors and the time of
    day); and it is [None] exactly when there is neither an anchor nor an
    interval. *)
Theorem captures_per_day_exact `{CaptureEnv} (fresh : nat → string) (now : pydatetime)
    (interval : option Z) (anchors_raw : pyval) (schedule_raw : option (list (string * pyval)))
    (lat lon : option float) (start_date : option pydatetime) (tz : zoneinfo) (off : Z) :
  let begin := scan_from (aware_instant now) (as_utc start_date) in
  let anchors := enabled_anchors fresh anchors_raw in
  fresh_ok fresh → schedule_tz schedule_raw = Ok tz →
  zone_ok tz = true → zone_whole_seconds tz = true →
  steady tz (begin - 3 * DAY) (begin + 10 * DAY) off →
  is_always_open (gate_schedule schedule_raw) = true →
  Forall (λ a, a_kind a = KClock) anchors →
  ∃ r, captures_per_day fresh now interval anchors_raw schedule_raw lat lon start_date None false
         = Ok r ∧
    match r with
    | Some q => (q == steady_rate (length anchors) interval)%Q
    | None => anchors = [] ∧ ∀ n, interval = Some n → n ≤ 0
    end.
Proof.
  cbv zeta. intros Hfresh Htz Hok Hws Hst Hopen Hclock.
  destruct (enabled_anchors_wf fresh anchors_raw Hfresh) as [Hwf _].
  unfold captures_per_day. rewrite Htz. cbn [mbind result_bind as_utc fmap option_fmap option_map].
  set (begin := scan_from (aware_instant now) (as_utc start_date)) in *.
  assert (ld_wall (astimezone tz begin) = begin + off) as ->.
  { simpl. by rewrite (proj1 (Hst begin ltac:(time_lia))). }
  assert (to_utc tz (LDT (begin + off + HORIZON) false) = begin + HORIZON) as ->.
  { replace (begin + off + HORIZON) with (begin + HORIZON + off) by lia.
    apply Hst. unfold HORIZON. time_lia. }
  assert (ld_wall (astimezone tz (begin + HORIZON)) = begin + HORIZON + off) as ->.
  { simpl. by rewrite (proj1 (Hst (begin + HORIZON) ltac:(unfold HORIZON; time_lia))). }
  rewrite (proj2 (Z.leb_gt (begin + HORIZON) begin)) by (unfold HORIZON; time_lia).
  replace (begin + HORIZON + off - (begin + off)) with HORIZON by lia.
  replace (begin + HORIZON - begin) with HORIZON by lia.
  change (Qle_bool (seconds_over HORIZON 86400) 0) with false.
  rewrite (week_of_all_fires tz begin off) by done. cbn [mbind result_bind].
  unfold interval_ticks. rewrite Hopen. replace (begin + HORIZON - begin) with HORIZON by lia.
  set (k := length (enabled_anchors fresh anchors_raw)).
  pose proof (week_anchors_only k) as Hnoint.
  assert (k = 0%nat → enabled_anchors fresh anchors_raw = []) as Hnil by apply nil_length_inv.
  unfold steady_rate. fold k. destruct interval as [n|]; [destruct (Z.gtb_spec n 0) as [Hn|Hn]|].
  - destruct (week_total (Z.of_nat k) n) as [Hpos Heq]; [lia|lia|].
    cbn [mbind result_bind]. clear Hnoint. destruct (Qle_bool _ _) eqn:Hle.
    + apply Qle_bool_iff in Hle. exfalso. exact (Qlt_not_le _ _ Hpos Hle).
    + eexists. split; [done|]. exact Heq.
  - destruct Hnoint as (r & Hr & Hcase). exists r. split; [done|].
    destruct r; [done|]. split; [auto|]. intros ? [= <-]. lia.
  - destruct Hnoint as (r & Hr & Hcase). exists r. split; [done|].
    destruct r; [done|]. split; [auto|]. done.
Qed.

Lemma captures_per_day_exact_witness :
  ∃ r, @captures_per_day demo_env demo_fresh (PDT (at_utc 19792 9 30) None) (Some 3600)
         noon_list fixed_zone_doc None None None None false = Ok r ∧
    match r with
    | Some q => (q == steady_rate 1%nat (Some 3600%Z))%Q
    | None => enabled_anchors demo_fresh noon_list = [] ∧ ∀ n, Some 3600 = Some n → n ≤ 0
    end.
Proof.
  apply (@captures_per_day_exact demo_env demo_fresh (PDT (at_utc 19792 9 30) None) (Some 3600)
           noon_list fixed_zone_doc None None None tz_fixed2 (2 * HOUR)).
  - exact demo_fresh_ok.
  - vm_compute. reflexivity.
  - reflexivity.
  - reflexivity.
  - apply (quiet_steady tz_fixed2 _ _); reflexivity.
  - vm_compute. reflexivity.
  - vm_compute. repeat constructor.
Defined.
