(* ===== verification/FireLog.v ===== *)
(** * The exact-time fire log: capture/supervisor.py and db/models/exact_time_fire.py

    One row per (project, anchor, local day) records what was decided for an
    anchor.  Every database hop of the supervisor that touches the log is one
    function on its state: SQLite runs one writing transaction at a time, so a
    hop is atomic, and concurrency is the interleaving of hops (file
    [FireLogFacts]).

    The texts of event messages are not modelled; the metadata that the code
    stores beside them is. *)

From Stdlib Require Import SpecFloat.
From S2P Require Import Prelude PyTime PyVal Env Schedule Anchors AnchorsFacts NextDue Cadence.
From stdpp Require Import options.
Local Open Scope Z_scope.

(** ** Data *)
Inductive fire_status := captured | failed | retry_pending | skipped_missed | skipped_no_geo.
#[export] Instance fire_status_eq_dec : EqDecision fire_status.
Proof. solve_decision. Defined.

(** The unique key: project, anchor identity, local date. *)
Definition fire_key : Type := Z * string * Z.

(** [ExactTimeFire], the columns beside the key. *)
Record ExactTimeFire := MkFire {
  f_status : fire_status;
  f_fired_at : Z;
  f_frame_id : option Z;
  f_detail : option string;
  f_attempts : Z;
  f_next_attempt_at : option Z;
}.
#[export] Instance ExactTimeFire_eq_dec : EqDecision ExactTimeFire.
Proof. solve_decision. Defined.

(** The events the anchor path writes (metadata of [_write_event]). *)
Inductive fire_event :=
  | ev_skipped (k : fire_key) (kind : AnchorKind) (status : fire_status)
  | ev_anchor_retry (k : fire_key) (attempts next_attempt_at : Z) (last_error : string)
  | ev_anchor_failed (k : fire_key) (kind : AnchorKind) (attempts : Z) (last_error : option string)
  | ev_anchor_recovered (k : fire_key) (previous_local_date : Z).
#[export] Instance fire_event_eq_dec : EqDecision fire_event.
Proof. solve_decision. Defined.

Record FireLog := MkLog {
  fires : gmap fire_key ExactTimeFire;
  events : list fire_event;             (** oldest first *)
}.
Definition empty_log : FireLog := MkLog ∅ [].

Definition put (k : fire_key) (row : ExactTimeFire) (l : FireLog) : FireLog :=
  MkLog (<[k := row]> (fires l)) (events l).
Definition write_event (e : fire_event) (l : FireLog) : FireLog :=
  MkLog (fires l) (events l ++ [e]).

(** [_AnchorClaim] *)
Inductive AnchorClaim :=
  | claimed (attempts : Z)
  | pending (attempts next_attempt_at : Z)
  | finalized (attempts : Z) (detail : option string)
  | done.

(** ** The hops *)

(** [_claim_exact_time_fire]: the insert the unique constraint arbitrates; [wall]
    is the server clock stored in [fired_at].  A fresh row has [attempts = 1]. *)
Definition claim_exact_time_fire (k : fire_key) (status : fire_status)
    (detail : option string) (wall : Z) (l : FireLog) : bool * FireLog :=
  match fires l !! k with
  | Some _ => (false, l)
  | None => (true, put k (MkFire status wall None detail 1 None) l)
  end.

(** [_finalize_in_session]: conditional on the expected status and attempt. *)
Definition finalize_in_session (k : fire_key) (kind : AnchorKind) (attempts : Z)
    (detail : option string) (expected_status : fire_status) (l : FireLog) : bool * FireLog :=
  match fires l !! k with
  | Some row =>
      if decide (f_status row = expected_status ∧ f_attempts row = attempts) then
        (true, write_event (ev_anchor_failed k kind attempts detail)
                 (put k (MkFire failed (f_fired_at row) (f_frame_id row) detail attempts None) l))
      else (false, l)
  | None => (false, l)
  end.

(** [_finalize_anchor_failure] *)
Definition finalize_anchor_failure (k : fire_key) (kind : AnchorKind) (attempts : Z)
    (detail : option string) (expected_status : fire_status) (l : FireLog) : bool * FireLog :=
  finalize_in_session k kind attempts detail expected_status l.

(** The WHERE clause of the reclaim: still pending, and due. *)
Definition reclaim_due (row : ExactTimeFire) (now : Z) : bool :=
  bool_decide (f_status row = retry_pending) &&
  match f_next_attempt_at row with None => true | Some due => due <=? now end.

(** [_reclaim_anchor_retry] *)
Definition reclaim_anchor_retry (k : fire_key) (kind : AnchorKind) (now : Z)
    (within_grace : bool) (l : FireLog) : AnchorClaim * FireLog :=
  match fires l !! k with
  | None => (done, l)
  | Some row =>
      if negb (bool_decide (f_status row = retry_pending)) then (done, l)
      else if negb within_grace then
        let '(fin, l') :=
          finalize_in_session k kind (f_attempts row) (f_detail row) retry_pending l in
        if (fin : bool) then (finalized (f_attempts row) (f_detail row), l') else (done, l')
      else
        match f_next_attempt_at row with
        | Some due =>
            if due >? now then (pending (f_attempts row) due, l)
            else if reclaim_due row now then
              (claimed (f_attempts row + 1),
               put k (MkFire failed (f_fired_at row) (f_frame_id row) (f_detail row)
                        (f_attempts row + 1) None) l)
            else (done, l)
        | None =>
            if reclaim_due row now then
              (claimed (f_attempts row + 1),
               put k (MkFire failed (f_fired_at row) (f_frame_id row) (f_detail row)
                        (f_attempts row + 1) None) l)
            else (done, l)
        end
  end.

(** [_claim_anchor_attempt] *)
Definition claim_anchor_attempt (k : fire_key) (kind : AnchorKind) (status : fire_status)
    (detail : option string) (within_grace : bool) (now wall : Z) (l : FireLog)
    : AnchorClaim * FireLog :=
  let '(inserted, l) := claim_exact_time_fire k status detail wall l in
  if (inserted : bool) then (claimed 1, l)
  else if decide (status = skipped_no_geo) then (done, l)
  else reclaim_anchor_retry k kind now within_grace l.

(** [_schedule_anchor_retry]: conditional on the attempt's provisional state. *)
Definition schedule_anchor_retry (k : fire_key) (attempts next_attempt_at : Z)
    (detail : string) (l : FireLog) : bool * FireLog :=
  match fires l !! k with
  | Some row =>
      if decide (f_status row = failed ∧ f_attempts row = attempts ∧ f_next_attempt_at row = None)
      then
        (true, write_event (ev_anchor_retry k attempts next_attempt_at detail)
                 (put k (MkFire retry_pending (f_fired_at row) (f_frame_id row) (Some detail)
                           attempts (Some next_attempt_at)) l))
      else (false, l)
  | None => (false, l)
  end.

(** The previous day's row of the same project and anchor: the latest earlier
    local date that has one ([ORDER BY local_date DESC LIMIT 1]). *)
Definition previous_day (k : fire_key) (l : FireLog) : option (Z * ExactTimeFire) :=
  map_fold (λ k' row acc,
    if decide (k'.1 = k.1 ∧ k'.2 < k.2) then
      match acc with
      | None => Some (k'.2, row)
      | Some (d, r) => if k'.2 >? d then Some (k'.2, row) else Some (d, r)
      end
    else acc) None (fires l).

(** [_record_exact_time_outcome] *)
Definition record_exact_time_outcome (k : fire_key) (status : fire_status)
    (frame_id : option Z) (detail : option string) (l : FireLog) : FireLog :=
  match fires l !! k with
  | None => l
  | Some row =>
      let l := put k (MkFire status (f_fired_at row) frame_id detail (f_attempts row) None) l in
      if negb (bool_decide (status = captured)) then l
      else match previous_day k l with
           | None => l
           | Some (d, prev) =>
               if decide (f_status prev = failed ∨ f_status prev = retry_pending)
               then write_event (ev_anchor_recovered k d) l else l
           end
  end.

(** [_release_exact_time_fire] *)
Definition release_exact_time_fire (k : fire_key) (l : FireLog) : FireLog :=
  MkLog (delete k (fires l)) (events l).

(** ** One decision, start to end

    What the capture attempt did, as [_attempt_anchor_capture] sees it.  The frame
    is stored and the row marked ([mark_captured]) in one worker thread, which
    cancelling the attempt at its time limit does not stop: a time-out can find
    the thread before the frame is stored, between the store and the callback, or
    in the callback, whose first statement appends to [written_frame_id].
    [elapsed] is the time the attempt took on the injected clock. *)
Inductive attempt_outcome :=
  (** the frame was stored and the row marked *)
  | frame_written (frame_id : Z)
  (** so it was, and a later step raised or timed out (the audit event, say) *)
  | written_then_failed (frame_id : Z)
  (** the frame was stored, and marking the row raised *)
  | written_mark_failed (frame_id : Z)
  (** the disk gate refused *)
  | low_disk
  (** the attempt raised, or timed out with no write started *)
  | attempt_failed (auth : bool) (text : string) (elapsed : Z)
  (** the attempt timed out, and its thread goes on: the frame is not stored yet,
      or stored and the callback not entered *)
  | timed_out_writing (stored : option Z) (text : string) (elapsed : Z)
  (** the attempt timed out while its thread was marking the row *)
  | timed_out_marking (frame_id : Z).

(** The time a failing attempt took. *)
Definition outcome_elapsed (outcome : attempt_outcome) : Z :=
  match outcome with
  | attempt_failed _ _ elapsed | timed_out_writing _ _ elapsed => elapsed
  | _ => 0
  end.

(** The first lines of [_fire_anchor_decision]: the claim row's status. *)
Definition claim_status (dec : AnchorDecision) : fire_status * option string :=
  if negb (d_has_geo dec) then
    (skipped_no_geo, Some "camera has no geolocation for solar-noon anchor")
  else if d_within_grace dec then (failed, None)
  else (skipped_missed, Some "anchor fire instant missed by more than the grace window").

(** The live runners' [last_error] and [last_error_at], by project. *)
Definition runner_notes : Type := gmap Z (option string * option Z).

(** [_note_anchor_failure] *)
Definition note_anchor_failure (project : Z) (detail : option string) (clock : Z)
    (notes : runner_notes) : runner_notes :=
  match notes !! project with
  | None => notes
  | Some _ =>
      let text := match detail with
                  | Some s => if String.eqb s "" then "exact-time anchor capture failed" else s
                  | None => "exact-time anchor capture failed"
                  end in
      <[project := (Some text, Some clock)]> notes
  end.

Record Supervisor := MkSup { sup_log : FireLog; sup_notes : runner_notes }.

Definition decision_key (project : Z) (dec : AnchorDecision) : fire_key :=
  (project, a_id (d_anchor dec), d_local_date dec).

(** [_handle_anchor_failure] *)
Definition handle_anchor_failure (project : Z) (dec : AnchorDecision) (attempts failed_at : Z)
    (auth : bool) (text : string) (s : Supervisor) : option Z * Supervisor :=
  let k := decision_key project dec in
  let instant := default failed_at (d_instant dec) in
  let remaining := instant + EXACT_TIME_GRACE - failed_at in
  match anchor_retry_delay attempts remaining auth with
  | Some delay =>
      let retry_at := failed_at + delay in
      let '(scheduled, l) := schedule_anchor_retry k attempts retry_at text (sup_log s) in
      (if (scheduled : bool) then Some retry_at else None, MkSup l (sup_notes s))
  | None =>
      let '(fin, l) :=
        finalize_anchor_failure k (a_kind (d_anchor dec)) attempts (Some text) failed (sup_log s) in
      (None, MkSup l (if (fin : bool)
                      then note_anchor_failure project (Some text) failed_at (sup_notes s)
                      else sup_notes s))
  end.

(** [_attempt_anchor_capture].  Once [written_frame_id] holds the frame the
    attempt counts as made, whether or not the row was marked; a time-out is a
    [TimeoutCaptureError], which is not a rejected login. *)
Definition attempt_anchor_capture (project : Z) (dec : AnchorDecision) (attempts now : Z)
    (outcome : attempt_outcome) (s : Supervisor) : option Z * Supervisor :=
  let k := decision_key project dec in
  match outcome with
  | frame_written frame_id | written_then_failed frame_id =>
      (None, MkSup (record_exact_time_outcome k captured (Some frame_id) None (sup_log s))
                   (sup_notes s))
  | written_mark_failed _ | timed_out_marking _ => (None, s)
  | low_disk => (None, MkSup (release_exact_time_fire k (sup_log s)) (sup_notes s))
  | attempt_failed auth text elapsed =>
      handle_anchor_failure project dec attempts (now + elapsed) auth text s
  | timed_out_writing _ text elapsed =>
      handle_anchor_failure project dec attempts (now + elapsed) false text s
  end.

(** [_fire_anchor_decision]; [outcome] is what the capture does if one is made,
    [wall] the server clock of the claim. *)
Definition fire_anchor_decision (project : Z) (dec : AnchorDecision) (now wall : Z)
    (outcome : attempt_outcome) (s : Supervisor) : option Z * Supervisor :=
  let k := decision_key project dec in
  let kind := a_kind (d_anchor dec) in
  let '(status, detail) := claim_status dec in
  let '(claim, l) :=
    claim_anchor_attempt k kind status detail (d_within_grace dec) now wall (sup_log s) in
  match claim with
  | pending _ next_attempt_at => (Some next_attempt_at, MkSup l (sup_notes s))
  | finalized _ detail =>
      (None, MkSup l (note_anchor_failure project detail now (sup_notes s)))
  | done => (None, MkSup l (sup_notes s))
  | claimed attempts =>
      if negb (bool_decide (status = failed)) then
        (None, MkSup (write_event (ev_skipped k kind status) l) (sup_notes s))
      else attempt_anchor_capture project dec attempts now outcome (MkSup l (sup_notes s))
  end.

(** ** One evaluation of all anchors of a project *)
Section evaluate.
Context `{CaptureEnv}.

(** The part of [CaptureTarget] the anchor path reads. *)
Record AnchorTarget := MkAnchorTarget {
  at_project_id : Z;
  at_exact_time_anchors : pyval;
  at_schedule : option (list (string * pyval));
  at_latitude : option float;
  at_longitude : option float;
  at_active_since : option Z;
}.

(** The decisions in order; each may ask for a retry wake. *)
Fixpoint fire_decisions (project : Z) (now : Z) (wall : Z)
    (outcomes : AnchorDecision → attempt_outcome) (decisions : list AnchorDecision)
    (s : Supervisor) : list Z * Supervisor :=
  match decisions with
  | [] => ([], s)
  | dec :: rest =>
      let '(retry_at, s) := fire_anchor_decision project dec now wall (outcomes dec) s in
      let '(wakes, s) := fire_decisions project now wall outcomes rest s in
      (option_list retry_at ++ wakes, s)
  end.

(** The catch-up floor: an instant before the project became active is not a
    miss. *)
Definition after_floor (floor : option Z) (dec : AnchorDecision) : bool :=
  match floor, d_instant dec with
  | Some f, Some i => i >=? f
  | _, _ => true
  end.

(** [_evaluate_exact_time_anchors] (the [asyncio.timeout] guard around a hung
    database hop is a [crash] step of [FireLogFacts]). *)
Definition evaluate_exact_time_anchors (fresh : nat → string) (t : AnchorTarget) (now wall : Z)
    (outcomes : AnchorDecision → attempt_outcome) (s : Supervisor)
    : result (option Z * Supervisor) :=
  if negb (truthy (at_exact_time_anchors t)) then Ok (None, s)
  else match parse_anchors fresh (at_exact_time_anchors t) with
       | Raise _ => Ok (None, s)
       | Ok anchors =>
           tz ← schedule_tzinfo (gate_schedule (at_schedule t));
           let lat := at_latitude t in
           let lon := at_longitude t in
           let solar_tz := resolve_zoneinfo lat lon in
           decisions ← due_anchors anchors now tz lat lon EXACT_TIME_GRACE solar_tz;
           let decisions := filter (λ d, after_floor (at_active_since t) d = true) decisions in
           let '(retry_wakes, s) :=
             fire_decisions (at_project_id t) now wall outcomes decisions s in
           wake ← next_anchor_wake anchors now tz lat lon solar_tz;
           Ok (foldl keep_min wake retry_wakes, s)
       end.
End evaluate.
