(* ===== verification/FireLogFacts.v ===== *)
(** * Interleavings of the fire log's hops

    The workers that fire anchors (runners, relaunched runners, stale runners of
    a process that is being replaced) interleave at the database.  [step] is the
    relation of everything that can happen, hop by hop: claims, frame writes in
    their worker threads, failures, attempts abandoned at their time limit while
    the write thread keeps running, low-disk releases and crashes.

    [kstep] is the abstract machine of one key; [step_refines] shows that the
    interleaved system runs it for every key at once, and the guarantees are
    invariants of the abstract machine. *)

From Stdlib Require Import SpecFloat.
From S2P Require Import Prelude PyTime PyVal Env Schedule Anchors AnchorsFacts NextDue Cadence FireLog.
From stdpp Require Import relations options.
Local Open Scope Z_scope.

(** ** The system *)
Inductive phase := Capturing | Written (frame_id : Z).
#[export] Instance phase_eq_dec : EqDecision phase.
Proof. solve_decision. Defined.

(** An attempt somebody is making: it claimed attempt [att_n] of its key. *)
Record attempt := MkAttempt {
  att_project : Z;
  att_dec : AnchorDecision;
  att_n : Z;
  att_phase : phase;
}.
Definition att_key (a : attempt) : fire_key := decision_key (att_project a) (att_dec a).

Record Sys := MkSys {
  sys_sup : Supervisor;
  sys_active : list attempt;              (** attempts under way *)
  sys_late : list (fire_key * phase);     (** write threads of abandoned attempts *)
  sys_frames : list (fire_key * Z);       (** frames on disk *)
  sys_abandoned : list fire_key;          (** attempts abandoned so far *)
}.
Definition initial_sys (notes : runner_notes) : Sys := MkSys (MkSup empty_log notes) [] [] [] [].

Definition mark_captured (k : fire_key) (frame_id : Z) (s : Supervisor) : Supervisor :=
  MkSup (record_exact_time_outcome k captured (Some frame_id) None (sup_log s)) (sup_notes s).

Inductive step : Sys → Sys → Prop :=
  (** a worker's claim hop wins an attempt *)
  | step_claim s act late fr ab project dec now wall l n :
      claim_status dec = (failed, None) →
      claim_anchor_attempt (decision_key project dec) (a_kind (d_anchor dec)) failed None
        (d_within_grace dec) now wall (sup_log s) = (claimed n, l) →
      step (MkSys s act late fr ab)
           (MkSys (MkSup l (sup_notes s)) (MkAttempt project dec n Capturing :: act) late fr ab)
  (** a claim hop that starts no attempt: a skip, a pending retry, a finalised
      one, or nothing to do; the skip's event and the runner note follow in hops
      of their own, unless the worker dies first *)
  | step_settle s act late fr ab project dec now wall status detail claim l es notes :
      claim_status dec = (status, detail) →
      claim_anchor_attempt (decision_key project dec) (a_kind (d_anchor dec)) status detail
        (d_within_grace dec) now wall (sup_log s) = (claim, l) →
      (status = failed → ∀ n, claim ≠ claimed n) →
      es = [] ∨ es = [ev_skipped (decision_key project dec) (a_kind (d_anchor dec)) status] →
      step (MkSys s act late fr ab)
           (MkSys (MkSup (foldl (λ l e, write_event e l) l es) notes) act late fr ab)
  (** the write thread stores the frame, then marks the row *)
  | step_write s a1 a2 late fr ab project dec n f :
      step (MkSys s (a1 ++ MkAttempt project dec n Capturing :: a2) late fr ab)
           (MkSys s (a1 ++ MkAttempt project dec n (Written f) :: a2) late
              ((decision_key project dec, f) :: fr) ab)
  | step_mark s a1 a2 late fr ab project dec n f :
      step (MkSys s (a1 ++ MkAttempt project dec n (Written f) :: a2) late fr ab)
           (MkSys (mark_captured (decision_key project dec) f s) (a1 ++ a2) late fr ab)
  (** the attempt failed before anything was written *)
  | step_fail s a1 a2 late fr ab project dec n failed_at auth text r s' :
      handle_anchor_failure project dec n failed_at auth text s = (r, s') →
      step (MkSys s (a1 ++ MkAttempt project dec n Capturing :: a2) late fr ab)
           (MkSys s' (a1 ++ a2) late fr ab)
  (** the attempt hit its time limit while its write thread runs: it is handled
      as a failure and the thread carries on *)
  | step_abandon s a1 a2 late fr ab project dec n ph failed_at auth text r s' :
      handle_anchor_failure project dec n failed_at auth text s = (r, s') →
      step (MkSys s (a1 ++ MkAttempt project dec n ph :: a2) late fr ab)
           (MkSys s' (a1 ++ a2) ((decision_key project dec, ph) :: late) fr
              (decision_key project dec :: ab))
  (** the attempt hit its time limit while its thread was marking the row: the
      frame is known to be written, and the thread carries on *)
  | step_detach s a1 a2 late fr ab project dec n f :
      step (MkSys s (a1 ++ MkAttempt project dec n (Written f) :: a2) late fr ab)
           (MkSys s (a1 ++ a2) ((decision_key project dec, Written f) :: late) fr ab)
  | step_late_write s act l1 l2 fr ab k f :
      step (MkSys s act (l1 ++ (k, Capturing) :: l2) fr ab)
           (MkSys s act (l1 ++ (k, Written f) :: l2) ((k, f) :: fr) ab)
  | step_late_mark s act l1 l2 fr ab k f :
      step (MkSys s act (l1 ++ (k, Written f) :: l2) fr ab)
           (MkSys (mark_captured k f s) act (l1 ++ l2) fr ab)
  (** low disk: the capture was skipped *)
  | step_release s a1 a2 late fr ab project dec n :
      step (MkSys s (a1 ++ MkAttempt project dec n Capturing :: a2) late fr ab)
           (MkSys (MkSup (release_exact_time_fire (decision_key project dec) (sup_log s))
                         (sup_notes s)) (a1 ++ a2) late fr ab)
  (** a worker, or a whole process, dies; or a hop of its own raises, such as the
      mark of a frame it stored *)
  | step_crash s a1 a2 late fr ab a :
      step (MkSys s (a1 ++ a :: a2) late fr ab) (MkSys s (a1 ++ a2) late fr ab)
  | step_crash_late s act l1 l2 fr ab x :
      step (MkSys s act (l1 ++ x :: l2) fr ab) (MkSys s act (l1 ++ l2) fr ab).

Definition reachable (s : Sys) : Prop := ∃ notes, rtc step (initial_sys notes) s.

(** ** One key's view *)
Record kview := KV {
  v_row : option ExactTimeFire;
  v_active : list (Z * phase);
  v_late : list phase;
  v_frames : list Z;
  v_abandoned : nat;
  v_alerts : nat;
}.

Definition is_alert (k : fire_key) (e : fire_event) : bool :=
  match e with ev_anchor_failed k' _ _ _ => bool_decide (k' = k) | _ => false end.
Definition alerts (k : fire_key) (es : list fire_event) : nat :=
  length (filter (λ e, is_alert k e = true) es).

(** The entries of a list that belong to a key. *)
Definition at_key {A B} (key : A → fire_key) (val : A → B) (k : fire_key) (l : list A) : list B :=
  val <$> filter (λ a, key a = k) l.

Definition view (k : fire_key) (s : Sys) : kview :=
  KV (fires (sup_log (sys_sup s)) !! k)
     (at_key att_key (λ a, (att_n a, att_phase a)) k (sys_active s))
     (at_key fst snd k (sys_late s))
     (at_key fst snd k (sys_frames s))
     (length (filter (λ k', k' = k) (sys_abandoned s)))
     (alerts k (events (sup_log (sys_sup s)))).

(** The provisional row of attempt [n] under way. *)
Definition provisional (n : Z) (row : ExactTimeFire) : Prop :=
  f_status row = failed ∧ f_attempts row = n ∧ f_next_attempt_at row = None.

(** What handling a failure of attempt [n] may do to the row and the alerts. *)
Inductive kfail (n : Z) : option ExactTimeFire → nat → option ExactTimeFire → nat → Prop :=
  | kfail_none row al : kfail n row al row al
  | kfail_retry row row' al :
      provisional n row → 1 ≤ n < ANCHOR_MAX_ATTEMPTS →
      f_status row' = retry_pending → f_attempts row' = n →
      kfail n (Some row) al (Some row') al
  | kfail_final row row' al :
      f_status row = failed → f_attempts row = n → provisional n row' →
      kfail n (Some row) al (Some row') (S al).

(** The abstract machine of one key. *)
Inductive kstep : kview → kview → Prop :=
  | kstep_new act late fr ab al row :
      provisional 1 row →
      kstep (KV None act late fr ab al) (KV (Some row) ((1, Capturing) :: act) late fr ab al)
  | kstep_skip act late fr ab al row :
      f_attempts row = 1 → f_status row = skipped_missed ∨ f_status row = skipped_no_geo →
      kstep (KV None act late fr ab al) (KV (Some row) act late fr ab al)
  | kstep_retry act late fr ab al row row' :
      f_status row = retry_pending → provisional (f_attempts row + 1) row' →
      kstep (KV (Some row) act late fr ab al)
            (KV (Some row') ((f_attempts row + 1, Capturing) :: act) late fr ab al)
  | kstep_expire act late fr ab al row row' :
      f_status row = retry_pending → provisional (f_attempts row) row' →
      kstep (KV (Some row) act late fr ab al) (KV (Some row') act late fr ab (S al))
  | kstep_write row a1 a2 late fr ab al n f :
      kstep (KV row (a1 ++ (n, Capturing) :: a2) late fr ab al)
            (KV row (a1 ++ (n, Written f) :: a2) late (f :: fr) ab al)
  | kstep_mark row row' a1 a2 late fr ab al n f :
      f_status row' = captured → f_attempts row' = f_attempts row →
      kstep (KV (Some row) (a1 ++ (n, Written f) :: a2) late fr ab al)
            (KV (Some row') (a1 ++ a2) late fr ab al)
  | kstep_fail row row' a1 a2 late fr ab al al' n :
      kfail n row al row' al' →
      kstep (KV row (a1 ++ (n, Capturing) :: a2) late fr ab al) (KV row' (a1 ++ a2) late fr ab al')
  | kstep_abandon row row' a1 a2 late fr ab al al' n ph :
      kfail n row al row' al' →
      kstep (KV row (a1 ++ (n, ph) :: a2) late fr ab al)
            (KV row' (a1 ++ a2) (ph :: late) fr (S ab) al')
  | kstep_detach row a1 a2 late fr ab al n f :
      kstep (KV row (a1 ++ (n, Written f) :: a2) late fr ab al)
            (KV row (a1 ++ a2) (Written f :: late) fr ab al)
  | kstep_late_write row act l1 l2 fr ab al f :
      kstep (KV row act (l1 ++ Capturing :: l2) fr ab al)
            (KV row act (l1 ++ Written f :: l2) (f :: fr) ab al)
  | kstep_late_mark row row' act l1 l2 fr ab al f :
      f_status row' = captured → f_attempts row' = f_attempts row →
      kstep (KV (Some row) act (l1 ++ Written f :: l2) fr ab al)
            (KV (Some row') act (l1 ++ l2) fr ab al)
  | kstep_release row a1 a2 late fr ab al n :
      kstep (KV row (a1 ++ (n, Capturing) :: a2) late fr ab al) (KV None (a1 ++ a2) late fr ab al)
  | kstep_crash row a1 a2 late fr ab al a :
      kstep (KV row (a1 ++ a :: a2) late fr ab al) (KV row (a1 ++ a2) late fr ab al)
  | kstep_crash_late row act l1 l2 fr ab al x :
      kstep (KV row act (l1 ++ x :: l2) fr ab al) (KV row act (l1 ++ l2) fr ab al).

(** ** Views of lists *)
Lemma at_key_app {A B} (key : A → fire_key) (val : A → B) k (l1 l2 : list A) :
  at_key key val k (l1 ++ l2) = at_key key val k l1 ++ at_key key val k l2.
Proof. unfold at_key. by rewrite filter_app, fmap_app. Qed.

Lemma at_key_cons {A B} (key : A → fire_key) (val : A → B) k (x : A) (l : list A) :
  at_key key val k (x :: l) =
  if decide (key x = k) then val x :: at_key key val k l else at_key key val k l.
Proof. unfold at_key. rewrite filter_cons. by case_decide. Qed.

Lemma alerts_snoc k es e :
  alerts k (es ++ [e]) = (alerts k es + if is_alert k e then 1 else 0)%nat.
Proof.
  unfold alerts. rewrite filter_app, length_app, filter_cons. f_equal.
  destruct (is_alert k e); case_decide; done.
Qed.

(** ** What the hops touch *)

(** The hop changes nothing of any other key. *)
Definition touches (k0 : fire_key) (l l' : FireLog) : Prop :=
  ∀ k, k ≠ k0 → fires l' !! k = fires l !! k ∧ alerts k (events l') = alerts k (events l).

#[export] Instance touches_preorder k0 : PreOrder (touches k0).
Proof.
  split; [by intros l k ?|]. intros l1 l2 l3 H1 H2 k Hk.
  destruct (H1 k Hk), (H2 k Hk). by split; etrans.
Qed.
Lemma touches_put k0 row l : touches k0 l (put k0 row l).
Proof. intros k Hk. simpl. by rewrite lookup_insert_ne. Qed.
Lemma touches_event k0 e l :
  (∀ k, k ≠ k0 → is_alert k e = false) → touches k0 l (write_event e l).
Proof. intros He k Hk. simpl. rewrite alerts_snoc, He by done. split; [done|lia]. Qed.
Lemma touches_alert k0 kind n detail l :
  touches k0 l (write_event (ev_anchor_failed k0 kind n detail) l).
Proof. apply touches_event. intros k Hk. simpl. by apply bool_decide_eq_false. Qed.
Lemma touches_release k0 l : touches k0 l (release_exact_time_fire k0 l).
Proof. intros k Hk. simpl. by rewrite lookup_delete_ne. Qed.
#[export] Hint Resolve touches_put touches_event touches_alert touches_release : tlm.
#[export] Hint Extern 1 (∀ k, _ → is_alert k _ = false) => done : tlm.

(** A hop is a few writes: each touches only its key, and so does their sequence. *)
Ltac touch :=
  first [reflexivity | by eauto with tlm | etrans; [|by eauto with tlm]; by eauto with tlm].

Lemma touches_foldl_events k0 es l :
  (∀ e, e ∈ es → ∀ k, k ≠ k0 → is_alert k e = false) →
  touches k0 l (foldl (λ l e, write_event e l) l es).
Proof.
  revert l. induction es as [|e es IH]; intros l He; [reflexivity|]. simpl.
  etrans; [apply touches_event|apply IH]; set_solver.
Qed.

Lemma touches_finalize k kind n detail st l b l' :
  finalize_in_session k kind n detail st l = (b, l') → touches k l l'.
Proof. unfold finalize_in_session. repeat case_match; intros [= <- <-]; touch. Qed.

Lemma touches_schedule k n at_ detail l b l' :
  schedule_anchor_retry k n at_ detail l = (b, l') → touches k l l'.
Proof. unfold schedule_anchor_retry. repeat case_match; intros [= <- <-]; touch. Qed.

Lemma touches_record k st f detail l : touches k l (record_exact_time_outcome k st f detail l).
Proof. unfold record_exact_time_outcome. repeat case_match; touch. Qed.
#[export] Hint Resolve touches_finalize touches_schedule touches_record : tlm.

Lemma touches_claim k kind st detail g now wall l c l' :
  claim_anchor_attempt k kind st detail g now wall l = (c, l') → touches k l l'.
Proof.
  unfold claim_anchor_attempt, claim_exact_time_fire, reclaim_anchor_retry.
  repeat case_match; intros; simplify_eq; touch.
Qed.

Lemma touches_failure project dec n t auth text s r s' :
  handle_anchor_failure project dec n t auth text s = (r, s') →
  touches (decision_key project dec) (sup_log s) (sup_log s').
Proof.
  unfold handle_anchor_failure, finalize_anchor_failure.
  repeat case_match; intros; simplify_eq; simpl; touch.
Qed.
#[export] Hint Resolve touches_claim touches_failure : tlm.

(** ** What the hops do to their own key *)
Lemma alerts_other_event k e l : is_alert k e = false → alerts k (events (write_event e l)) = alerts k (events l).
Proof. intros He. simpl. rewrite alerts_snoc, He. lia. Qed.

Lemma finalize_own k kind n detail st l b l' :
  finalize_in_session k kind n detail st l = (b, l') →
  if b then
    ∃ row row', fires l !! k = Some row ∧ f_status row = st ∧ f_attempts row = n ∧
      fires l' !! k = Some row' ∧ provisional n row' ∧
      alerts k (events l') = S (alerts k (events l))
  else l' = l.
Proof.
  unfold finalize_in_session. destruct (fires l !! k) as [row|] eqn:Hrow; [|by intros [= <- <-]].
  case_decide as Hc; intros [= <- <-]; [|done]. destruct Hc as [<- <-].
  eexists _, _. simpl. rewrite lookup_insert_eq, alerts_snoc. simpl.
  rewrite bool_decide_true by done. repeat split; lia || done.
Qed.

Lemma failure_own project dec n t auth text s r s' :
  handle_anchor_failure project dec n t auth text s = (r, s') →
  let k := decision_key project dec in
  kfail n (fires (sup_log s) !! k) (alerts k (events (sup_log s)))
          (fires (sup_log s') !! k) (alerts k (events (sup_log s'))).
Proof.
  cbv zeta. unfold handle_anchor_failure. set (k := decision_key project dec).
  destruct (anchor_retry_delay _ _ _) as [delay|] eqn:Hd.
  - destruct (schedule_anchor_retry _ _ _ _ _) as [b l] eqn:Hs. intros [= <- <-].
    cbn [sup_log]. apply anchor_retry_delay_some in Hd as [Hn _].
    assert (1 ≤ n < ANCHOR_MAX_ATTEMPTS) as Hn'.
    { unfold ANCHOR_MAX_ATTEMPTS, ANCHOR_AUTH_MAX_ATTEMPTS in *. destruct auth; lia. }
    unfold schedule_anchor_retry in Hs. destruct (fires (sup_log s) !! k) as [row|] eqn:Hrow.
    + case_decide as Hp; injection Hs as <- <-; [|rewrite Hrow; constructor].
      rewrite alerts_other_event by done. simpl. rewrite lookup_insert_eq.
      by apply kfail_retry.
    + injection Hs as <- <-. rewrite Hrow. constructor.
  - unfold finalize_anchor_failure.
    destruct (finalize_in_session _ _ _ _ _ _) as [b l] eqn:Hs. intros [= <- <-].
    apply finalize_own in Hs. cbn [sup_log]. destruct b.
    + destruct Hs as (row & row' & -> & ? & ? & -> & ? & ->). by apply kfail_final.
    + subst l. constructor.
Qed.

Lemma record_own k f l :
  let l' := record_exact_time_outcome k captured (Some f) None l in
  alerts k (events l') = alerts k (events l) ∧
  match fires l !! k with
  | None => fires l' !! k = None
  | Some row => ∃ row', fires l' !! k = Some row' ∧ f_status row' = captured ∧
                  f_attempts row' = f_attempts row
  end.
Proof.
  cbv zeta. unfold record_exact_time_outcome. destruct (fires l !! k) as [row|] eqn:Hrow; [|done].
  rewrite bool_decide_true by done. cbn [negb].
  split.
  - destruct (previous_day k _) as [[d p]|]; [|done]. case_decide; [|done].
    by rewrite alerts_other_event.
  - exists (MkFire captured (f_fired_at row) (Some f) None (f_attempts row) None).
    split; [|done].
    destruct (previous_day k _) as [[d p]|]; [case_decide|]; simpl; by rewrite lookup_insert_eq.
Qed.

Lemma reclaim_own k kind now g l c l' :
  reclaim_anchor_retry k kind now g l = (c, l') →
  match c with
  | claimed n => g = true ∧ alerts k (events l') = alerts k (events l) ∧
      ∃ row row', fires l !! k = Some row ∧ f_status row = retry_pending ∧
        n = f_attempts row + 1 ∧ fires l' !! k = Some row' ∧ provisional n row'
  | finalized _ _ => alerts k (events l') = S (alerts k (events l)) ∧
      ∃ row row', fires l !! k = Some row ∧ f_status row = retry_pending ∧
        fires l' !! k = Some row' ∧ provisional (f_attempts row) row'
  | _ => l' = l
  end.
Proof.
  unfold reclaim_anchor_retry. destruct (fires l !! k) as [row|] eqn:Hrow; [|by intros [= <- <-]].
  destruct (bool_decide_reflect (f_status row = retry_pending)) as [Hst|]; cbn [negb];
    [|by intros [= <- <-]].
  destruct g; cbn [negb].
  - assert (∀ b : bool, (if b then (claimed (f_attempts row + 1),
       put k (MkFire failed (f_fired_at row) (f_frame_id row) (f_detail row)
                (f_attempts row + 1) None) l) else (done, l)) = (c, l') →
      match c with
      | claimed n => true = true ∧ alerts k (events l') = alerts k (events l) ∧
          ∃ row0 row', Some row = Some row0 ∧ f_status row0 = retry_pending ∧
            n = f_attempts row0 + 1 ∧ fires l' !! k = Some row' ∧ provisional n row'
      | finalized _ _ => False | _ => l' = l end) as Htake.
    { intros []; intros [= <- <-]; [|done]. split_and!; [done..|]. eexists _, _. simpl.
      rewrite lookup_insert_eq. done. }
    destruct (f_next_attempt_at row) as [due|]; [destruct (due >? now)|];
      [by intros [= <- <-]|..]; intros Hb; specialize (Htake _ Hb); by destruct c.
  - destruct (finalize_in_session _ _ _ _ _ _) as [b l1] eqn:Hf. apply finalize_own in Hf.
    destruct b; intros [= <- <-]; [|done].
    destruct Hf as (row0 & row' & Hrow0 & ? & ? & ? & Hp & ?). split; [done|].
    exists row, row'. split_and!; try done; apply Hp.
Qed.

Lemma claim_own k kind st detail g now wall l c l' :
  claim_anchor_attempt k kind st detail g now wall l = (c, l') →
  match c with
  | claimed n => alerts k (events l') = alerts k (events l) ∧
      ((n = 1 ∧ fires l !! k = None ∧ ∃ row', fires l' !! k = Some row' ∧
          f_status row' = st ∧ f_attempts row' = 1 ∧ f_next_attempt_at row' = None) ∨
       (g = true ∧ st ≠ skipped_no_geo ∧
        ∃ row row', fires l !! k = Some row ∧ f_status row = retry_pending ∧
          n = f_attempts row + 1 ∧ fires l' !! k = Some row' ∧ provisional n row'))
  | finalized _ _ => alerts k (events l') = S (alerts k (events l)) ∧
      ∃ row row', fires l !! k = Some row ∧ f_status row = retry_pending ∧
        fires l' !! k = Some row' ∧ provisional (f_attempts row) row'
  | _ => l' = l
  end.
Proof.
  unfold claim_anchor_attempt, claim_exact_time_fire.
  destruct (fires l !! k) as [row|] eqn:Hrow.
  - case_decide; [by intros [= <- <-]|]. intros Hr%reclaim_own.
    destruct c; try done; [|by rewrite Hrow in Hr].
    destruct Hr as (? & ? & Hr). rewrite Hrow in Hr. naive_solver.
  - intros [= <- <-]. split; [done|]. left. split_and!; [done..|]. eexists. simpl.
    by rewrite lookup_insert_eq.
Qed.

Lemma claim_status_cases dec st detail :
  claim_status dec = (st, detail) →
  (st = failed ∧ d_within_grace dec = true) ∨
  (st = skipped_missed ∧ d_within_grace dec = false) ∨ st = skipped_no_geo.
Proof. unfold claim_status. destruct (d_has_geo dec), (d_within_grace dec); naive_solver. Qed.

(** ** The interleaved system runs the abstract machine for every key *)
Ltac view_simpl :=
  unfold view, mark_captured;
  cbn [sys_sup sys_active sys_late sys_frames sys_abandoned sup_log sup_notes];
  rewrite ?at_key_app, ?at_key_cons, ?filter_cons;
  unfold att_key; cbn [att_project att_dec att_n att_phase fst snd].

(** The key of a hop is touched or not: in the second case its view stays. *)
Tactic Notation "own_key" constr(k0) constr(k) constr(Ht) :=
  destruct (decide (k0 = k)) as [<-|Hk];
  [right; view_simpl; rewrite ?decide_True by done
  |left; destruct (Ht k (not_eq_sym Hk)) as [H1 H2]; view_simpl;
   rewrite ?decide_False by done; cbn [sup_log] in *; by rewrite ?H1, ?H2].

Section refines.
Context (k : fire_key) (s : Supervisor) (act a1 a2 : list attempt).
Context (late l1 l2 : list (fire_key * phase)) (fr : list (fire_key * Z)) (ab : list fire_key).
Context (project : Z) (dec : AnchorDecision) (n : Z).

Local Abbreviation key := (decision_key project dec).
Local Abbreviation refines x y := (view k y = view k x ∨ kstep (view k x) (view k y)).

Lemma refines_claim now wall l :
  claim_anchor_attempt key (a_kind (d_anchor dec)) failed None (d_within_grace dec) now wall
    (sup_log s) = (claimed n, l) →
  refines (MkSys s act late fr ab)
    (MkSys (MkSup l (sup_notes s)) (MkAttempt project dec n Capturing :: act) late fr ab).
Proof.
  intros Hc. pose proof (touches_claim _ _ _ _ _ _ _ _ _ _ Hc) as Ht. own_key key k Ht.
  apply claim_own in Hc as [-> Hc].
  destruct Hc as [(-> & -> & row' & -> & ? & ? & ?)|(_ & _ & row & row' & -> & ? & -> & -> & ?)];
    by constructor.
Qed.

Lemma refines_settle now wall status detail claim l es notes :
  claim_status dec = (status, detail) →
  claim_anchor_attempt key (a_kind (d_anchor dec)) status detail (d_within_grace dec) now wall
    (sup_log s) = (claim, l) →
  (status = failed → ∀ n, claim ≠ claimed n) →
  es = [] ∨ es = [ev_skipped key (a_kind (d_anchor dec)) status] →
  refines (MkSys s act late fr ab)
    (MkSys (MkSup (foldl (λ l e, write_event e l) l es) notes) act late fr ab).
Proof.
  intros Hst Hc Hno Hes. pose proof (touches_claim _ _ _ _ _ _ _ _ _ _ Hc) as Ht.
  set (l' := foldl (λ l e, write_event e l) l es).
  assert (fires l' = fires l ∧ ∀ k', alerts k' (events l') = alerts k' (events l)) as [Hf He].
  { subst l'. destruct Hes as [->| ->]; simpl; [done|]. split; [done|].
    intros k'. by rewrite alerts_snoc, Nat.add_0_r. }
  clearbody l'. destruct (decide (key = k)) as [<-|Hk]; view_simpl; rewrite Hf, He; cycle 1.
  { left. by destruct (Ht k (not_eq_sym Hk)) as [-> ->]. }
  apply claim_own in Hc. apply claim_status_cases in Hst. destruct claim; try (subst; by left).
  - destruct Hc as [-> [(-> & -> & row' & -> & ? & ? & ?)|(Hg & ? & _)]].
    + right. apply kstep_skip; [done|]. naive_solver.
    + naive_solver congruence.
  - destruct Hc as (-> & row & row' & -> & ? & -> & ?). right.
    by apply (kstep_expire _ _ _ _ _ row).
Qed.

Lemma refines_mark f :
  refines (MkSys s (a1 ++ MkAttempt project dec n (Written f) :: a2) late fr ab)
    (MkSys (mark_captured key f s) (a1 ++ a2) late fr ab).
Proof.
  pose proof (touches_record key captured (Some f) None (sup_log s)) as Ht. own_key key k Ht.
  destruct (record_own key f (sup_log s)) as [-> Hr]. destruct (fires (sup_log s) !! _) as [row|].
  - destruct Hr as (row' & -> & ? & ?). by eapply kstep_mark.
  - rewrite Hr. apply kstep_crash.
Qed.

Lemma refines_late_mark k0 f :
  refines (MkSys s act (l1 ++ (k0, Written f) :: l2) fr ab)
    (MkSys (mark_captured k0 f s) act (l1 ++ l2) fr ab).
Proof.
  pose proof (touches_record k0 captured (Some f) None (sup_log s)) as Ht. own_key k0 k Ht.
  destruct (record_own k0 f (sup_log s)) as [-> Hr]. destruct (fires (sup_log s) !! _) as [row|].
  - destruct Hr as (row' & -> & ? & ?). by eapply kstep_late_mark.
  - rewrite Hr. apply kstep_crash_late.
Qed.

Lemma refines_failure ph failed_at auth text r s' :
  handle_anchor_failure project dec n failed_at auth text s = (r, s') →
  refines (MkSys s (a1 ++ MkAttempt project dec n Capturing :: a2) late fr ab)
    (MkSys s' (a1 ++ a2) late fr ab) ∧
  refines (MkSys s (a1 ++ MkAttempt project dec n ph :: a2) late fr ab)
    (MkSys s' (a1 ++ a2) ((key, ph) :: late) fr (key :: ab)).
Proof.
  intros Hh. pose proof (touches_failure _ _ _ _ _ _ _ _ _ Hh) as Ht.
  apply failure_own in Hh. split; own_key key k Ht; [by apply kstep_fail|by apply kstep_abandon].
Qed.

Lemma refines_release :
  refines (MkSys s (a1 ++ MkAttempt project dec n Capturing :: a2) late fr ab)
    (MkSys (MkSup (release_exact_time_fire key (sup_log s)) (sup_notes s)) (a1 ++ a2) late fr ab).
Proof.
  pose proof (touches_release key (sup_log s)) as Ht. own_key key k Ht.
  simpl. rewrite lookup_delete_eq. apply kstep_release.
Qed.
End refines.

Lemma step_refines (s s' : Sys) (k : fire_key) :
  step s s' → view k s' = view k s ∨ kstep (view k s) (view k s').
Proof.
  destruct 1.
  - by eapply refines_claim.
  - by eapply refines_settle.
  - view_simpl. repeat case_decide; [right|by left]. apply kstep_write.
  - apply refines_mark.
  - by eapply (refines_failure _ _ _ _ _ _ _ _ _ _ Capturing).
  - by eapply refines_failure.
  - view_simpl. repeat case_decide; [right|by left]. apply kstep_detach.
  - view_simpl. repeat case_decide; [right|by left]. apply kstep_late_write.
  - apply refines_late_mark.
  - apply refines_release.
  - view_simpl. case_decide; [right|by left]. apply kstep_crash.
  - view_simpl. case_decide; [right|by left]. apply kstep_crash_late.
Qed.

(** ** The invariant of one key *)
Definition unwritten (l : list phase) : nat := length (filter (λ p, p = Capturing) l).

Lemma unwritten_app l1 l2 : unwritten (l1 ++ l2) = (unwritten l1 + unwritten l2)%nat.
Proof. unfold unwritten. by rewrite filter_app, length_app. Qed.
Lemma unwritten_cons p l :
  unwritten (p :: l) = ((if decide (p = Capturing) then 1 else 0) + unwritten l)%nat.
Proof. unfold unwritten. rewrite filter_cons. by case_decide. Qed.

(** A row that a worker can still claim. *)
Definition open_row (row : option ExactTimeFire) : Prop :=
  match row with None => True | Some r => f_status r = retry_pending end.

Record kinv (v : kview) : Prop := {
  ki_one : (length (v_active v) ≤ 1)%nat;
  ki_active n ph : (n, ph) ∈ v_active v →
    ∃ r, v_row v = Some r ∧ (f_status r = captured ∨ provisional n r);
  ki_attempts r : v_row v = Some r →
    1 ≤ f_attempts r ≤ ANCHOR_MAX_ATTEMPTS ∧
    (f_status r = retry_pending → f_attempts r < ANCHOR_MAX_ATTEMPTS);
  ki_frames : (length (v_frames v) + unwritten (v_late v) + unwritten (v_active v).*2
               ≤ 1 + v_abandoned v)%nat;
  ki_open : open_row (v_row v) →
    (length (v_frames v) + unwritten (v_late v) ≤ v_abandoned v)%nat ∧ v_alerts v = 0%nat;
  ki_alerts : (v_alerts v ≤ 1)%nat ∧ (v_active v ≠ [] → v_alerts v = 0%nat);
}.

(** With one attempt at most, the one at hand is the only one. *)
Lemma only_one {A} (a1 a2 : list A) (x : A) :
  (length (a1 ++ x :: a2) ≤ 1)%nat → a1 = [] ∧ a2 = [].
Proof. rewrite length_app. simpl. destruct a1, a2; simpl; naive_solver lia. Qed.

Lemma open_no_active v : kinv v → open_row (v_row v) → v_active v = [].
Proof.
  intros Hv Ho. destruct (v_active v) as [|[n ph] act] eqn:Ha; [done|exfalso].
  destruct (ki_active v Hv n ph) as (r & Hr & Hc); [rewrite Ha; by left|].
  rewrite Hr in Ho. unfold provisional in Hc. simpl in Ho. naive_solver congruence.
Qed.

(** Clean-up after a case: list counts, then arithmetic. *)
Ltac kinv_crush :=
  cbn [v_row v_active v_late v_frames v_abandoned v_alerts length] in *;
  rewrite ?fmap_app, ?fmap_cons, ?unwritten_app, ?unwritten_cons, ?length_app in *;
  cbn [fst snd length app fmap list_fmap] in *; rewrite ?unwritten_cons in *;
  change (unwritten []) with 0%nat in *; unfold provisional, open_row, ANCHOR_MAX_ATTEMPTS in *;
  repeat case_decide; try done; try lia.

Lemma kinv_initial : kinv (KV None [] [] [] 0 0).
Proof. split; kinv_crush; naive_solver set_solver. Qed.

Lemma kinv_new act late fr ab al row :
  provisional 1 row → kinv (KV None act late fr ab al) →
  kinv (KV (Some row) ((1, Capturing) :: act) late fr ab al).
Proof.
  intros Hp Hv. pose proof (open_no_active _ Hv I) as Ha. simpl in Ha. subst act.
  destruct (ki_open _ Hv I) as [Hf Hal]. split; kinv_crush.
  - intros n ph [[= -> ->]|?%elem_of_nil]%elem_of_cons; [|done]. eauto.
  - intros r [= <-]. destruct Hp as (-> & -> & _). naive_solver lia.
Qed.

Lemma kinv_retry act late fr ab al row row' :
  f_status row = retry_pending → provisional (f_attempts row + 1) row' →
  kinv (KV (Some row) act late fr ab al) →
  kinv (KV (Some row') ((f_attempts row + 1, Capturing) :: act) late fr ab al).
Proof.
  intros Hst Hp Hv. pose proof (open_no_active _ Hv Hst) as Ha. simpl in Ha. subst act.
  destruct (ki_open _ Hv Hst) as [Hf Hal]. destruct (ki_attempts _ Hv row eq_refl) as [Hr Hr'].
  specialize (Hr' Hst). split; kinv_crush.
  - intros n ph [[= -> ->]|?%elem_of_nil]%elem_of_cons; [|done]. eauto.
  - intros r [= <-]. destruct Hp as (-> & -> & _). split; [lia|done].
Qed.

Lemma kinv_expire act late fr ab al row row' :
  f_status row = retry_pending → provisional (f_attempts row) row' →
  kinv (KV (Some row) act late fr ab al) →
  kinv (KV (Some row') act late fr ab (S al)).
Proof.
  intros Hst Hp Hv. pose proof (open_no_active _ Hv Hst) as Ha. simpl in Ha. subst act.
  destruct (ki_open _ Hv Hst) as [Hf Hal]. destruct (ki_attempts _ Hv row eq_refl) as [Hr _].
  split; kinv_crush.
  - intros n ph ?%elem_of_nil. done.
  - intros r [= <-]. destruct Hp as (-> & -> & _). split; [lia|done].
  - destruct Hp as (-> & _). done.
  - subst al. split; [lia|done].
Qed.

(** A failed (or abandoned) attempt: the row may reopen, the attempt is gone. *)
Lemma kinv_fail a1 a2 late late' fr ab ab' row row' al al' n ph :
  kfail n row al row' al' →
  kinv (KV row (a1 ++ (n, ph) :: a2) late fr ab al) →
  (length fr + unwritten late' ≤ ab')%nat →
  kinv (KV row' (a1 ++ a2) late' fr ab' al').
Proof.
  intros Hf Hv Hle. destruct (only_one _ _ _ (ki_one _ Hv)) as [-> ->].
  destruct (ki_alerts _ Hv) as [_ Hal]. specialize (Hal ltac:(done)). simpl in Hal.
  destruct (ki_active _ Hv n ph ltac:(by left)) as (r & Hr & Hc). simpl in Hr. subst row.
  pose proof (ki_attempts _ Hv r eq_refl) as Hat. simpl in Hat.
  inversion Hf; subst; split; kinv_crush; try (intros ?? ?%elem_of_nil; done);
    try (intros ? [= <-]; naive_solver lia); naive_solver congruence.
Qed.

(** A frame written and marked: the row closes for good. *)
Lemma kinv_mark row row' act act' late fr ab al :
  f_status row' = captured → f_attempts row' = f_attempts row →
  kinv (KV (Some row) act late fr ab al) → act' ⊆ act → (length act' ≤ length act)%nat →
  (unwritten act'.*2 ≤ unwritten act.*2)%nat →
  kinv (KV (Some row') act' late fr ab al).
Proof.
  intros Hst Hatt Hv Hsub Hlen Hun. destruct (ki_attempts _ Hv row eq_refl) as [Hr _].
  pose proof (ki_one _ Hv). pose proof (ki_frames _ Hv). destruct (ki_alerts _ Hv) as [Ha1 Ha2].
  split; kinv_crush.
  - intros n ph Hin. eauto.
  - intros r [= <-]. rewrite Hatt, Hst. done.
  - congruence.
  - split; [done|]. intros Hne. apply Ha2. intros ->. destruct act'; [done|simpl in *; lia].
Qed.

(** Close what [kinv_crush] leaves: no attempt is left, or the row is at hand. *)
Ltac kinv_close :=
  try (intros ?? ?%elem_of_nil; done); try (intros ? [= <-]);
  naive_solver (lia || congruence).

Lemma kinv_skip act late fr ab al row :
  f_attempts row = 1 → f_status row = skipped_missed ∨ f_status row = skipped_no_geo →
  kinv (KV None act late fr ab al) → kinv (KV (Some row) act late fr ab al).
Proof.
  intros Hn Hst Hv. pose proof (open_no_active _ Hv I) as Ha. simpl in Ha. subst act.
  destruct (ki_open _ Hv I) as [Hf Hal]. pose proof (ki_frames _ Hv).
  split; kinv_crush; kinv_close.
Qed.

Lemma kinv_write row a1 a2 late fr ab al n f :
  kinv (KV row (a1 ++ (n, Capturing) :: a2) late fr ab al) →
  kinv (KV row (a1 ++ (n, Written f) :: a2) late (f :: fr) ab al).
Proof.
  intros Hv. destruct (only_one _ _ _ (ki_one _ Hv)) as [-> ->]. pose proof (ki_frames _ Hv).
  destruct (ki_active _ Hv n Capturing ltac:(by left)) as (r & Hr & Hc). simpl in Hr. subst row.
  pose proof (ki_alerts _ Hv). pose proof (ki_attempts _ Hv).
  split; kinv_crush; try kinv_close.
  intros n' ph [[= -> ->]|?%elem_of_nil]%elem_of_cons; [|done]. eauto.
Qed.

(** Fewer write threads, or one of them done. *)
Lemma kinv_late row act late late' fr fr' ab al :
  (length fr' + unwritten late' ≤ length fr + unwritten late)%nat →
  kinv (KV row act late fr ab al) → kinv (KV row act late' fr' ab al).
Proof.
  intros Hle Hv. pose proof (ki_frames _ Hv). destruct Hv.
  split; kinv_crush. intros Ho. destruct (ki_open0 Ho). split; [lia|done].
Qed.

Lemma kinv_release row a1 a2 late fr ab al n :
  kinv (KV row (a1 ++ (n, Capturing) :: a2) late fr ab al) →
  kinv (KV None (a1 ++ a2) late fr ab al).
Proof.
  intros Hv. pose proof (ki_frames _ Hv). destruct (only_one _ _ _ (ki_one _ Hv)) as [-> ->].
  destruct (ki_alerts _ Hv) as [_ Hal]. specialize (Hal ltac:(done)).
  split; kinv_crush; kinv_close.
Qed.

Lemma kinv_crash row a1 a2 late fr ab al a :
  kinv (KV row (a1 ++ a :: a2) late fr ab al) → kinv (KV row (a1 ++ a2) late fr ab al).
Proof.
  intros Hv. pose proof (ki_frames _ Hv). destruct (only_one _ _ _ (ki_one _ Hv)) as [-> ->].
  destruct Hv. split; kinv_crush; kinv_close.
Qed.

Lemma kinv_step v v' : kstep v v' → kinv v → kinv v'.
Proof.
  destruct 1; intros Hv.
  - by apply kinv_new.
  - by apply kinv_skip.
  - by eapply kinv_retry.
  - by eapply kinv_expire.
  - by apply kinv_write.
  - eapply kinv_mark; try done; [set_solver|rewrite !length_app; simpl; lia|].
    rewrite !fmap_app, !unwritten_app, fmap_cons, unwritten_cons. lia.
  - pose proof (ki_frames _ Hv) as Hfr. eapply kinv_fail; [done|done|]. kinv_crush.
  - pose proof (ki_frames _ Hv) as Hfr. eapply kinv_fail; [done|done|]. kinv_crush.
  - eapply kinv_late; [|by eapply kinv_crash]. kinv_crush.
  - eapply kinv_late; [|done]. kinv_crush.
  - eapply kinv_mark; try done. eapply kinv_late; [|done]. kinv_crush.
  - by eapply kinv_release.
  - by eapply kinv_crash.
  - eapply kinv_late; [|done]. kinv_crush.
Qed.

Lemma reachable_kinv (s : Sys) (k : fire_key) : reachable s → kinv (view k s).
Proof.
  intros [notes Hs]. revert s Hs.
  apply (rtc_ind_r (λ s, kinv (view k s)) (initial_sys notes)); [apply kinv_initial|].
  intros s1 s2 _ Hstep IH. destruct (step_refines _ _ k Hstep) as [->|Hk]; [done|].
  by eapply kinv_step.
Qed.

(** ** The guarantees *)
Definition attempts_under_way (k : fire_key) (s : Sys) : list attempt :=
  filter (λ a, att_key a = k) (sys_active s).
Definition frames_of (k : fire_key) (s : Sys) : list (fire_key * Z) :=
  filter (λ f, f.1 = k) (sys_frames s).
Definition abandoned_of (k : fire_key) (s : Sys) : list fire_key :=
  filter (λ k', k' = k) (sys_abandoned s).
Definition alerts_of (k : fire_key) (s : Sys) : nat := alerts k (events (sup_log (sys_sup s))).

(** At most one worker makes an attempt.  However the hops of any number of
    workers, restarts and crashes interleave, at most one attempt of an anchor's
    local day is under way at any time; while its row is still the attempt's
    own, it is the provisional one with its attempt number; and no row ever
    counts fewer than one or more than seven attempts, a row that waits for a
    retry fewer than seven. *)
Theorem one_attempt_at_a_time (s : Sys) (k : fire_key) :
  reachable s →
  (length (attempts_under_way k s) ≤ 1)%nat ∧
  (∀ a, a ∈ attempts_under_way k s →
     ∃ row, fires (sup_log (sys_sup s)) !! k = Some row ∧
       (f_status row = captured ∨ provisional (att_n a) row)) ∧
  (∀ row, fires (sup_log (sys_sup s)) !! k = Some row →
     1 ≤ f_attempts row ≤ ANCHOR_MAX_ATTEMPTS ∧
     (f_status row = retry_pending → f_attempts row < ANCHOR_MAX_ATTEMPTS)).
Proof.
  intros Hs. pose proof (reachable_kinv s k Hs) as [Hone Hact Hatt _ _ _]. split_and!.
  - by rewrite <-(length_fmap (λ a, (att_n a, att_phase a)) (attempts_under_way k s)).
  - intros a Ha. apply (Hact (att_n a) (att_phase a)).
    apply (list_elem_of_fmap_2 (λ a, (att_n a, att_phase a))), Ha.
  - exact Hatt.
Qed.

(** C1: at most one frame per anchor and local day, up to abandoned writes.  The
    number of frames stored for a key never exceeds one plus the number of its
    attempts that hit their time limit while their write was running; in
    particular, as long as no attempt was abandoned, an anchor's local day gets at
    most one frame, through retries, low-disk releases, restarts and crashes at
    any point. *)
Theorem at_most_one_frame (s : Sys) (k : fire_key) :
  reachable s →
  (length (frames_of k s) ≤ 1 + length (abandoned_of k s))%nat ∧
  (abandoned_of k s = [] → length (frames_of k s) ≤ 1)%nat.
Proof.
  intros Hs. pose proof (ki_frames _ (reachable_kinv s k Hs)) as Hf. simpl in Hf.
  unfold at_key in Hf. rewrite length_fmap in Hf. unfold frames_of, abandoned_of. split; [lia|].
  intros Hnil. rewrite Hnil in Hf. simpl in Hf. lia.
Qed.

(** One alert.  An anchor's local day raises the [anchor_failed] alert at
    most once, never while an attempt is under way, and never while a retry is
    still pending. *)
Theorem one_failure_alert (s : Sys) (k : fire_key) :
  reachable s →
  (alerts_of k s ≤ 1)%nat ∧
  (attempts_under_way k s ≠ [] → alerts_of k s = 0%nat) ∧
  (∀ row, fires (sup_log (sys_sup s)) !! k = Some row → f_status row = retry_pending →
     alerts_of k s = 0%nat).
Proof.
  intros Hs. pose proof (reachable_kinv s k Hs) as [_ _ _ _ Hopen [Hle Hact]].
  simpl in *. split_and!; [done| |].
  - intros Hne. apply Hact. unfold at_key. by intros ?%fmap_nil_inv.
  - intros row Hrow Hst. apply Hopen. by rewrite Hrow.
Qed.

(** ** The handler is a run of the system *)
Lemma fire_settles project dec now wall status detail claim l s act late fr ab es notes :
  claim_status dec = (status, detail) →
  claim_anchor_attempt (decision_key project dec) (a_kind (d_anchor dec)) status detail
    (d_within_grace dec) now wall (sup_log s) = (claim, l) →
  (status = failed → ∀ n, claim ≠ claimed n) →
  es = [] ∨ es = [ev_skipped (decision_key project dec) (a_kind (d_anchor dec)) status] →
  rtc step (MkSys s act late fr ab)
    (MkSys (MkSup (foldl (λ l e, write_event e l) l es) notes) act late fr ab).
Proof. intros. apply rtc_once. by eapply step_settle. Qed.

(** An attempt is made: the camera has what the anchor needs, the decision is
    within its grace, and the row is new or waits for a retry that is due. *)
Definition attempt_made (project : Z) (dec : AnchorDecision) (now : Z) (s : Supervisor) : Prop :=
  d_has_geo dec = true ∧ d_within_grace dec = true ∧
  ∀ row, fires (sup_log s) !! decision_key project dec = Some row →
    f_status row = retry_pending ∧ ∀ due, f_next_attempt_at row = Some due → due ≤ now.

(** The frames an attempt stored, the write thread it left behind, and whether it
    was given up with its frame not known to be stored. *)
Definition outcome_frames (k : fire_key) (outcome : attempt_outcome) : list (fire_key * Z) :=
  match outcome with
  | frame_written f | written_then_failed f | written_mark_failed f | timed_out_marking f
  | timed_out_writing (Some f) _ _ => [(k, f)]
  | _ => []
  end.
Definition outcome_late (k : fire_key) (outcome : attempt_outcome) : list (fire_key * phase) :=
  match outcome with
  | timed_out_writing (Some f) _ _ | timed_out_marking f => [(k, Written f)]
  | timed_out_writing None _ _ => [(k, Capturing)]
  | _ => []
  end.
Definition outcome_abandoned (k : fire_key) (outcome : attempt_outcome) : list fire_key :=
  match outcome with timed_out_writing _ _ _ => [k] | _ => [] end.

(** A claim hop wins an attempt exactly when one is made. *)
Lemma reclaim_claims k kind now g l row :
  fires l !! k = Some row →
  (∃ n l', reclaim_anchor_retry k kind now g l = (claimed n, l')) ↔
  g = true ∧ f_status row = retry_pending ∧ ∀ due, f_next_attempt_at row = Some due → due ≤ now.
Proof.
  intros Hrow. unfold reclaim_anchor_retry, reclaim_due. rewrite Hrow.
  destruct (bool_decide_reflect (f_status row = retry_pending)); cbn [negb andb]; [|naive_solver].
  destruct g; cbn [negb].
  - destruct (f_next_attempt_at row) as [due|]; [|naive_solver].
    rewrite Z.gtb_ltb. destruct (Z.ltb_spec now due); [|rewrite (proj2 (Z.leb_le due now)) by lia].
    + split; [naive_solver|]. intros (_ & _ & Hdue). specialize (Hdue _ eq_refl). lia.
    + split; [intros _|by eauto]. split_and!; [done..|]. by intros ? [= <-].
  - destruct (finalize_in_session _ _ _ _ _ _) as [[] ?]; naive_solver.
Qed.

Lemma attempt_made_claims project dec now wall s status detail claim l :
  claim_status dec = (status, detail) →
  claim_anchor_attempt (decision_key project dec) (a_kind (d_anchor dec)) status detail
    (d_within_grace dec) now wall (sup_log s) = (claim, l) →
  attempt_made project dec now s ↔ status = failed ∧ ∃ n, claim = claimed n.
Proof.
  unfold attempt_made, claim_status, claim_anchor_attempt, claim_exact_time_fire.
  intros Hst Hc. destruct (fires (sup_log s) !! _) as [row|] eqn:Hrow; cycle 1.
  { injection Hc as <- <-. destruct (d_has_geo dec), (d_within_grace dec);
      injection Hst as <- <-; (split; [intros (? & ? & _)|intros (? & _)]); try done.
    split; [done|by eexists]. }
  destruct (d_has_geo dec); cycle 1.
  { injection Hst as <- <-. split; [by intros (? & _)|by intros (? & _)]. }
  destruct (d_within_grace dec); injection Hst as <- <-; cycle 1.
  { split; [by intros (_ & ? & _)|by intros (? & _)]. }
  rewrite decide_False in Hc by done.
  pose proof (reclaim_claims _ (a_kind (d_anchor dec)) now true _ _ Hrow) as [Hr1 Hr2]. split.
  - intros (_ & _ & Hrow'). destruct (Hrow' _ eq_refl) as [Hp Hdue].
    destruct Hr2 as (n & l' & Hr); [done|]. rewrite Hr in Hc. injection Hc as <- <-.
    split; [done|by eexists].
  - intros (_ & n & ->). destruct Hr1 as (_ & ? & ?); [by eauto|].
    split_and!; [done..|]. by intros ? [= <-].
Qed.

(** A made attempt, from its claim to the end of the handler. *)
Lemma attempt_runs project dec now wall outcome l n s s' r act late fr ab :
  let k := decision_key project dec in
  claim_status dec = (failed, None) →
  claim_anchor_attempt k (a_kind (d_anchor dec)) failed None (d_within_grace dec) now wall
    (sup_log s) = (claimed n, l) →
  attempt_anchor_capture project dec n now outcome (MkSup l (sup_notes s)) = (r, s') →
  rtc step (MkSys s act late fr ab)
    (MkSys s' act (outcome_late k outcome ++ late) (outcome_frames k outcome ++ fr)
       (outcome_abandoned k outcome ++ ab)).
Proof.
  cbv zeta. set (k := decision_key project dec). intros Hst Hc Ha.
  eapply rtc_l; [exact (step_claim s act late fr ab project dec now wall l n Hst Hc)|].
  pose proof (λ f, step_write (MkSup l (sup_notes s)) [] act late fr ab project dec n f) as Hw.
  fold k in Hw. unfold attempt_anchor_capture in Ha. fold k in Ha.
  destruct outcome as [f|f|f| |auth text e|[f|] text e|f]; cbn [outcome_late outcome_frames
    outcome_abandoned app]; try (eapply rtc_l; [exact (Hw f)|]); apply rtc_once.
  1-2: injection Ha as <- <-; apply (step_mark (MkSup l (sup_notes s)) [] act _ _ _ project dec n f).
  - injection Ha as <- <-. apply (step_crash _ [] act).
  - injection Ha as <- <-. apply (step_release (MkSup l (sup_notes s)) [] act _ _ _ project dec n).
  - by eapply (step_fail _ [] act).
  - by eapply (step_abandon _ [] act).
  - by eapply (step_abandon _ [] act).
  - injection Ha as <- <-. apply (step_detach _ [] act _ _ _ project dec n f).
Qed.

(** C2: [_fire_anchor_decision] refines the interleaved system.  Whatever the
    capture does (a frame stored and marked, a failing mark, a skip, an error, a
    time-out that leaves its write thread running before or after the frame is
    stored), a complete run of the handler is a sequence of the system's steps.
    If an attempt is made it leaves exactly the frames the capture stored, the
    write thread the time-out left running, and its key among the abandoned ones
    when it was given up with its frame not known to be stored; otherwise it
    leaves frames, threads and abandoned keys alone.  Either way no attempt of its
    own stays under way, so the guarantees about reachable states hold after any
    sequence of complete handler runs, and between them. *)
Theorem fire_anchor_decision_refines (project : Z) (dec : AnchorDecision) (now wall : Z)
    (outcome : attempt_outcome) (s s' : Supervisor) (r : option Z)
    (act : list attempt) (late : list (fire_key * phase)) (fr : list (fire_key * Z))
    (ab : list fire_key) :
  let k := decision_key project dec in
  fire_anchor_decision project dec now wall outcome s = (r, s') →
  (attempt_made project dec now s →
     rtc step (MkSys s act late fr ab)
       (MkSys s' act (outcome_late k outcome ++ late) (outcome_frames k outcome ++ fr)
          (outcome_abandoned k outcome ++ ab))) ∧
  (¬ attempt_made project dec now s →
     rtc step (MkSys s act late fr ab) (MkSys s' act late fr ab)).
Proof.
  cbv zeta. unfold fire_anchor_decision. destruct (claim_status dec) as [status detail] eqn:Hst.
  destruct (claim_anchor_attempt _ _ _ _ _ _ _ _) as [claim l] eqn:Hc.
  rewrite (attempt_made_claims _ _ _ _ _ _ _ _ _ Hst Hc).
  set (k := decision_key project dec) in *.
  destruct claim as [n|n t|n d|]; cycle 1; [intros [= <- <-]; (split; [naive_solver|intros _])..|].
  1-3: eapply (fire_settles _ _ _ _ _ _ _ _ _ _ _ _ _ []); [done..|by left].
  destruct (bool_decide_reflect (status = failed)) as [->|Hne]; cbn [negb]; cycle 1.
  { intros [= <- <-]. split; [naive_solver|intros _].
    eapply (fire_settles _ _ _ _ _ _ _ _ _ _ _ _ _ [ev_skipped k (a_kind (d_anchor dec)) status]);
      [done..|by right]. }
  assert (detail = None) as ->.
  { unfold claim_status in Hst. destruct (d_has_geo dec), (d_within_grace dec); naive_solver. }
  intros Ha. split; [intros _|naive_solver]. by eapply attempt_runs.
Qed.

(** ** Retries *)

(** A retry starts in time.  When handling a failure asks for a retry, the
    retry lies [15 s * 2^(n-1)] after the failed attempt [n], with [n] at most
    six (one after a rejected login), no later than thirty seconds before the
    grace window of the anchor's instant closes, and the row waits for it; when
    it asks for none, the row does not wait for one because of this failure. *)
Theorem retry_starts_in_grace (project : Z) (dec : AnchorDecision) (n failed_at instant : Z)
    (auth : bool) (text : string) (s s' : Supervisor) (r : option Z) :
  let k := decision_key project dec in
  d_instant dec = Some instant →
  handle_anchor_failure project dec n failed_at auth text s = (r, s') →
  match r with
  | Some t =>
      t = failed_at + 15 * SECOND * 2 ^ (n - 1) ∧ 1 ≤ n ≤ (if auth then 1 else 6) ∧
      t ≤ instant + EXACT_TIME_GRACE - 30 * SECOND ∧
      ∃ row, fires (sup_log s') !! k = Some row ∧ f_status row = retry_pending ∧
        f_attempts row = n ∧ f_next_attempt_at row = Some t
  | None =>
      ∀ row', fires (sup_log s') !! k = Some row' → f_status row' = retry_pending →
        fires (sup_log s) !! k = Some row'
  end.
Proof.
  cbv zeta. intros Hi. unfold handle_anchor_failure. rewrite Hi. cbn [default from_option id].
  set (k := decision_key project dec). destruct (anchor_retry_delay _ _ _) as [delay|] eqn:Hd.
  - apply anchor_retry_delay_some in Hd as (Hn & -> & Hle).
    unfold schedule_anchor_retry. destruct (fires (sup_log s) !! k) as [row|] eqn:Hrow.
    + case_decide as Hp; intros [= <- <-]; [|simpl; congruence].
      unfold ANCHOR_RETRY_BASE, ANCHOR_RETRY_GRACE_MARGIN, ANCHOR_MAX_ATTEMPTS,
        ANCHOR_AUTH_MAX_ATTEMPTS in *. split; [lia|]. split; [destruct auth; lia|].
      split; [lia|]. eexists. simpl. rewrite lookup_insert_eq. done.
    + intros [= <- <-]. simpl. intros row' Hrow'. congruence.
  - unfold finalize_anchor_failure, finalize_in_session.
    destruct (fires (sup_log s) !! k) as [row|] eqn:Hrow; [case_decide|];
      intros [= <- <-]; simpl; [|congruence..].
    rewrite lookup_insert_eq. by intros ? [= <-].
Qed.

(** A captured anchor is settled.  Once the row of an anchor's local day is
    [captured] (or failed for good, or skipped), running the handler again for
    it, with any decision for the key and any capture outcome, changes nothing and
    asks for no wake-up. *)
Theorem settled_anchor_is_final (project : Z) (dec : AnchorDecision) (now wall : Z)
    (outcome : attempt_outcome) (s : Supervisor) (row : ExactTimeFire) :
  fires (sup_log s) !! decision_key project dec = Some row → f_status row ≠ retry_pending →
  fire_anchor_decision project dec now wall outcome s = (None, s).
Proof.
  intros Hrow Hst. unfold fire_anchor_decision. destruct (claim_status dec) as [status detail].
  unfold claim_anchor_attempt, claim_exact_time_fire. rewrite Hrow.
  unfold reclaim_anchor_retry. rewrite Hrow, bool_decide_false by done. cbn [negb].
  case_decide; by destruct s.
Qed.

(** ** Wake-ups after an evaluation *)
Lemma touches_fire project dec now wall outcome s r s' :
  fire_anchor_decision project dec now wall outcome s = (r, s') →
  touches (decision_key project dec) (sup_log s) (sup_log s').
Proof.
  unfold fire_anchor_decision. destruct (claim_status dec) as [status detail].
  destruct (claim_anchor_attempt _ _ _ _ _ _ _ _) as [claim l] eqn:Hc.
  apply touches_claim in Hc. destruct claim; try (intros [= <- <-]; exact Hc).
  destruct (negb _); [intros [= <- <-]; simpl; touch|].
  destruct outcome; simpl; intros; simplify_eq; simpl; touch.
Qed.

(** A failure of an attempt that owns its row returns the retry it parks. *)
Lemma failure_wake project dec n t0 auth text s r s' row t :
  handle_anchor_failure project dec n t0 auth text s = (r, s') →
  (∀ r0, fires (sup_log s) !! decision_key project dec = Some r0 → f_status r0 ≠ retry_pending) →
  fires (sup_log s') !! decision_key project dec = Some row →
  f_status row = retry_pending → f_next_attempt_at row = Some t → r = Some t.
Proof.
  unfold handle_anchor_failure, finalize_anchor_failure, schedule_anchor_retry,
    finalize_in_session. set (k := decision_key project dec).
  intros Hh Hown. destruct (anchor_retry_delay _ _ _), (fires (sup_log s) !! k) as [r0|] eqn:Hr;
    try (injection Hh as <- <-; simpl; congruence);
    case_decide; injection Hh as <- <-; simpl; rewrite ?lookup_insert_eq, ?Hr; naive_solver.
Qed.

Lemma fire_wake project dec now wall outcome s r s' row t :
  fire_anchor_decision project dec now wall outcome s = (r, s') → d_has_geo dec = true →
  fires (sup_log s') !! decision_key project dec = Some row →
  f_status row = retry_pending → f_next_attempt_at row = Some t → r = Some t.
Proof.
  intros Hf Hgeo Hrow Hst Ht. unfold fire_anchor_decision in Hf.
  destruct (claim_status dec) as [status detail] eqn:Hcs. set (k := decision_key project dec) in *.
  destruct (claim_anchor_attempt _ _ _ _ _ _ _ _) as [claim l] eqn:Hc.
  assert (status ≠ skipped_no_geo) as Hng.
  { unfold claim_status in Hcs. rewrite Hgeo in Hcs. simpl in Hcs.
    destruct (d_within_grace dec); by simplify_eq. }
  pose proof (claim_own _ _ _ _ _ _ _ _ _ _ Hc) as Hown. destruct claim as [n|n due|n d|].
  - assert (∀ r0, fires l !! k = Some r0 → f_status r0 ≠ retry_pending) as Hno.
    { destruct Hown as [_ [(_ & _ & row' & -> & <- & _)|(_ & _ & _ & row' & _ & _ & _ & -> & Hp & _)]];
        intros ? [= <-]; [|congruence].
      apply claim_status_cases in Hcs. naive_solver congruence. }
    destruct (negb _); [injection Hf as <- <-; simpl in Hrow; naive_solver|].
    unfold attempt_anchor_capture in Hf. cbn [sup_log sup_notes] in Hf. fold k in Hf.
    destruct outcome as [f|f|f| |auth text e|w text e|f]; try (by eapply failure_wake);
      injection Hf as <- <-; try (exfalso; naive_solver).
    1-2: exfalso; cbn [sup_log] in Hrow; pose proof (record_own k f l) as [_ Hr];
      destruct (fires l !! k); [destruct Hr as (? & ? & ? & _)|]; congruence.
    simpl in Hrow. by rewrite lookup_delete_eq in Hrow.
  - subst l. injection Hf as <- <-. simpl in Hrow. f_equal.
    unfold claim_anchor_attempt, claim_exact_time_fire in Hc. rewrite Hrow in Hc.
    rewrite decide_False in Hc by done. unfold reclaim_anchor_retry in Hc.
    rewrite Hrow, bool_decide_true, Ht in Hc by done. cbn [negb] in Hc.
    repeat case_match; naive_solver.
  - injection Hf as <- <-. simpl in Hrow.
    destruct Hown as (_ & _ & row' & _ & _ & Hr & Hp & _). congruence.
  - subst l. injection Hf as <- <-. simpl in Hrow. exfalso.
    unfold claim_anchor_attempt, claim_exact_time_fire in Hc. rewrite Hrow in Hc.
    rewrite decide_False in Hc by done. unfold reclaim_anchor_retry, finalize_in_session in Hc.
    rewrite Hrow, bool_decide_true, Ht in Hc by done. cbn [negb] in Hc.
    unfold reclaim_due in Hc. rewrite Ht, bool_decide_true in Hc by done.
    destruct (d_within_grace dec); cbn [negb andb] in Hc.
    + rewrite Z.gtb_ltb in Hc. destruct (Z.ltb_spec now t); [done|].
      by rewrite (proj2 (Z.leb_le _ _)) in Hc by lia.
    + by rewrite decide_True in Hc.
Qed.

Lemma fire_decisions_wake project now wall outcomes ds s wakes s' k row t :
  fire_decisions project now wall outcomes ds s = (wakes, s') →
  (∀ d, d ∈ ds → decision_key project d = k → d_has_geo d = true) →
  (∃ d, d ∈ ds ∧ decision_key project d = k) →
  fires (sup_log s') !! k = Some row →
  f_status row = retry_pending → f_next_attempt_at row = Some t → t ∈ wakes.
Proof.
  intros Hf Hgeo Hin Hrow Hst Ht. revert s wakes Hf Hgeo Hin.
  induction ds as [|d ds IH]; intros s wakes Hf Hgeo Hin; [set_solver|].
  simpl in Hf. destruct (fire_anchor_decision _ _ _ _ _ _) as [r s1] eqn:H1.
  destruct (fire_decisions _ _ _ _ _ _) as [ws s2] eqn:H2. injection Hf as <- <-.
  rewrite elem_of_app, elem_of_option_list.
  destruct (decide (Exists (λ d', decision_key project d' = k) ds)) as [Hex|Hno].
  - right. apply (IH s1); [done|set_solver|by apply Exists_exists].
  - left. destruct Hin as (d' & [->|Hd']%elem_of_cons & Hk);
      [|exfalso; apply Hno, Exists_exists; eauto].
    assert (fires (sup_log s2) !! k = fires (sup_log s1) !! k) as Hsame.
    { clear -H2 Hno. revert s1 ws H2. induction ds as [|d ds IH]; intros s1 ws H2; simpl in H2.
      { by injection H2 as <- <-. }
      destruct (fire_anchor_decision _ _ _ _ _ _) as [r s3] eqn:H1.
      destruct (fire_decisions _ _ _ _ _ _) as [ws' s4] eqn:H3. injection H2 as <- <-.
      rewrite Exists_cons in Hno. rewrite (IH ltac:(naive_solver) s3 ws') by done.
      apply touches_fire in H1. by apply H1; naive_solver. }
    subst k. rewrite Hsame in Hrow. eapply fire_wake; [done| |done..]. apply Hgeo; [by left|done].
Qed.

(** The wakes a run of decisions asks for lie in the future. *)
Lemma failure_future project dec n now e auth text s t s' :
  0 ≤ e → handle_anchor_failure project dec n (now + e) auth text s = (Some t, s') → now < t.
Proof.
  intros He Hf. unfold handle_anchor_failure in Hf.
  destruct (anchor_retry_delay _ _ _) as [delay|] eqn:Hd; repeat case_match; simplify_eq.
  apply anchor_retry_delay_some in Hd as (Hn & -> & _).
  assert (0 < 2 ^ (n - 1)) by (apply Z.pow_pos_nonneg; lia).
  unfold ANCHOR_RETRY_BASE, SECOND. lia.
Qed.

Lemma fire_future project dec now wall outcome s r s' t :
  0 ≤ outcome_elapsed outcome →
  fire_anchor_decision project dec now wall outcome s = (r, s') → r = Some t → now < t.
Proof.
  intros He Hf ->. unfold fire_anchor_decision in Hf.
  destruct (claim_status dec) as [status detail].
  destruct (claim_anchor_attempt _ _ _ _ _ _ _ _) as [claim l] eqn:Hc.
  destruct claim as [n|n due|n d|]; try done.
  - destruct (negb _); [done|]. destruct outcome as [f|f|f| |auth text e|w text e|f]; try done;
      simpl in He, Hf; by eapply failure_future.
  - simplify_eq. unfold claim_anchor_attempt, claim_exact_time_fire, reclaim_anchor_retry in Hc.
    destruct (fires (sup_log s) !! _) as [row|] eqn:Hrow; [|done]. rewrite ?Hrow in Hc.
    repeat case_match; simplify_eq; lia.
Qed.

Lemma fire_decisions_future project now wall outcomes ds s wakes s' t :
  (∀ d, 0 ≤ outcome_elapsed (outcomes d)) →
  fire_decisions project now wall outcomes ds s = (wakes, s') → t ∈ wakes → now < t.
Proof.
  intros He. revert s wakes. induction ds as [|d ds IH]; intros s wakes Hf Hin; simpl in Hf.
  - injection Hf as <- <-. by apply elem_of_nil in Hin.
  - destruct (fire_anchor_decision _ _ _ _ _ _) as [r s1] eqn:H1.
    destruct (fire_decisions _ _ _ _ _ _) as [ws s2] eqn:H2. injection Hf as <- <-.
    apply elem_of_app in Hin as [Hr%elem_of_option_list|Hin]; [|by eapply IH].
    by eapply fire_future; [apply He|..].
Qed.

Lemma next_anchor_wake_future `{CaptureEnv} anchors now tz lat lon stz i :
  next_anchor_wake anchors now tz lat lon stz = Ok (Some i) → now < i.
Proof.
  unfold next_anchor_wake. intros (css & _ & [= Hi])%bind_ok.
  pose proof (fold_keep_min (future_instants now (mjoin css)) None) as Hf. rewrite Hi in Hf.
  destruct Hf as ([?|Hin] & _); [done|]. by apply elem_of_future_instants in Hin as [? _].
Qed.

Lemma evaluate_wake_future `{CaptureEnv} fresh t now wall outcomes s x s' :
  (∀ d, 0 ≤ outcome_elapsed (outcomes d)) →
  evaluate_exact_time_anchors fresh t now wall outcomes s = Ok (Some x, s') → now < x.
Proof.
  intros He. unfold evaluate_exact_time_anchors. destruct (negb (truthy _)); [done|].
  destruct (parse_anchors _ _) as [anchors|]; [|done].
  intros (tz & _ & Hr)%bind_ok. cbv zeta in Hr. apply bind_ok in Hr as (ds & _ & Hr).
  destruct (fire_decisions _ _ _ _ _ _) as [wakes s1] eqn:Hf.
  apply bind_ok in Hr as (wake & Hwake & [= Hx <-]).
  pose proof (fold_keep_min wakes wake) as Hmin. rewrite Hx in Hmin.
  destruct Hmin as ([<-|Hm] & _); [by eapply next_anchor_wake_future|].
  by eapply fire_decisions_future.
Qed.

(** The runner wakes in time and never spins.  The wake-up instant an anchor
    evaluation returns is strictly in the future, and after the evaluation every
    due anchor whose row waits for a retry is covered: the wake-up is no later
    than that retry. *)
Theorem evaluation_wakes_in_time `{CaptureEnv} (fresh : nat → string) (t : AnchorTarget)
    (now wall : Z) (outcomes : AnchorDecision → attempt_outcome) (s s' : Supervisor)
    (w : option Z) (anchors : list Anchor) (tz : zoneinfo) (ds : list AnchorDecision) :
  parse_anchors fresh (at_exact_time_anchors t) = Ok anchors →
  schedule_tzinfo (gate_schedule (at_schedule t)) = Ok tz →
  due_anchors anchors now tz (at_latitude t) (at_longitude t) EXACT_TIME_GRACE
    (resolve_zoneinfo (at_latitude t) (at_longitude t)) = Ok ds →
  (∀ d, 0 ≤ outcome_elapsed (outcomes d)) →
  evaluate_exact_time_anchors fresh t now wall outcomes s = Ok (w, s') →
  (∀ x, w = Some x → now < x) ∧
  (∀ dec row x, dec ∈ ds → after_floor (at_active_since t) dec = true →
     (∀ d, d ∈ ds → a_id (d_anchor d) = a_id (d_anchor dec) → d_has_geo d = true) →
     fires (sup_log s') !! decision_key (at_project_id t) dec = Some row →
     f_status row = retry_pending → f_next_attempt_at row = Some x →
     ∃ y, w = Some y ∧ y ≤ x).
Proof.
  intros Hp Htz Hds He Hev. split; [intros x ->; by eapply evaluate_wake_future|].
  revert Hev. unfold evaluate_exact_time_anchors. rewrite Hp, Htz.
  cbn [mbind result_bind]. cbv zeta. rewrite Hds. cbn [mbind result_bind].
  destruct (negb (truthy _)) eqn:Htr.
  { unfold parse_anchors in Hp. rewrite Htr in Hp. injection Hp as <-.
    injection Hds as <-. intros _ dec ?? ?%elem_of_nil. done. }
  destruct (fire_decisions _ _ _ _ _ _) as [wakes s1] eqn:Hf.
  intros (wake & Hwake & [= <- <-])%bind_ok.
  intros dec row x Hdec Hfl Hgeo Hrow Hst Hx.
  assert (x ∈ wakes) as Hin.
  { eapply fire_decisions_wake; try done.
    - intros d [_ Hd]%list_elem_of_filter Hk. apply Hgeo; [done|]. by simplify_eq/=.
    - exists dec. by rewrite list_elem_of_filter. }
  pose proof (fold_keep_min wakes wake) as Hmin. destruct (foldl keep_min wake wakes) as [m|].
  - destruct Hmin as (_ & Hle & _). eauto.
  - destruct Hmin as [_ ->]. by apply elem_of_nil in Hin.
Qed.

(** ** Recovery *)
Lemma previous_day_spec (k : fire_key) (l : FireLog) :
  match previous_day k l with
  | None => ∀ k' row, fires l !! k' = Some row → k'.1 = k.1 → k.2 ≤ k'.2
  | Some (d, row) =>
      fires l !! (k.1, d) = Some row ∧ d < k.2 ∧
      ∀ k' row', fires l !! k' = Some row' → k'.1 = k.1 → k'.2 < k.2 → k'.2 ≤ d
  end.
Proof.
  unfold previous_day.
  apply (map_fold_weak_ind (λ acc m,
    match acc with
    | None => ∀ (k' : fire_key) (row : ExactTimeFire), m !! k' = Some row → k'.1 = k.1 → k.2 ≤ k'.2
    | Some (d, row) => m !! (k.1, d) = Some row ∧ d < k.2 ∧
        ∀ (k' : fire_key) row', m !! k' = Some row' → k'.1 = k.1 → k'.2 < k.2 → k'.2 ≤ d
    end)).
  - intros k' row. by rewrite lookup_empty.
  - intros [p d] row m acc Hnone IH. cbn [fst snd]. case_decide as Hc.
    + destruct Hc as [-> Hd]. destruct acc as [[d0 r0]|].
      * destruct IH as (H0 & Hd0 & Hmax). rewrite Z.gtb_ltb.
        destruct (Z.ltb_spec d0 d); (split; [|split; [lia|]]).
        -- apply lookup_insert_eq.
        -- intros [p' d'] row' [[[= <- <-] _]|[_ Hk]]%lookup_insert_Some ??; [simpl; lia|].
           specialize (Hmax _ _ Hk). simpl in *. naive_solver lia.
        -- rewrite lookup_insert_ne; [done|]. congruence.
        -- intros [p' d'] row' [[[= <- <-] _]|[_ Hk]]%lookup_insert_Some ??; [simpl; lia|].
           by eapply Hmax.
      * split; [apply lookup_insert_eq|]. split; [done|].
        intros [p' d'] row' [[[= <- <-] _]|[_ Hk]]%lookup_insert_Some ??; [simpl; lia|].
        specialize (IH _ _ Hk). simpl in *. naive_solver lia.
    + destruct acc as [[d0 r0]|].
      * destruct IH as (H0 & Hd0 & Hmax). split; [|split; [done|]].
        -- rewrite lookup_insert_ne; [done|]. intros [= -> ->]. by apply Hc.
        -- intros [p' d'] row' [[[= <- <-] _]|[_ Hk]]%lookup_insert_Some ??; [naive_solver|].
           by eapply Hmax.
      * intros [p' d'] row' [[[= <- <-] _]|[_ Hk]]%lookup_insert_Some Heq;
          [|by eapply IH].
        destruct (decide (d < k.2)); [by destruct Hc|simpl; lia].
Qed.

(** Recovery is announced exactly after a failed day.  Marking a claimed row
    captured clears its retry, and writes the [anchor_recovered] event exactly
    when the latest earlier day of the same project and anchor that has a row
    ended [failed] or was left [retry_pending]; it writes nothing else and
    changes no other row. *)
Theorem capture_announces_recovery (k : fire_key) (f : Z) (l : FireLog) (row : ExactTimeFire) :
  fires l !! k = Some row →
  let l' := record_exact_time_outcome k captured (Some f) None l in
  fires l' = <[k := MkFire captured (f_fired_at row) (Some f) None (f_attempts row) None]> (fires l) ∧
  ((∃ d prev, events l' = events l ++ [ev_anchor_recovered k d] ∧
      fires l !! (k.1, d) = Some prev ∧ d < k.2 ∧
      (f_status prev = failed ∨ f_status prev = retry_pending) ∧
      ∀ d' prev', fires l !! (k.1, d') = Some prev' → d' < k.2 → d' ≤ d) ∨
   (events l' = events l ∧
    ∀ d prev, fires l !! (k.1, d) = Some prev → d < k.2 →
      (∀ d' prev', fires l !! (k.1, d') = Some prev' → d' < k.2 → d' ≤ d) →
      f_status prev ≠ failed ∧ f_status prev ≠ retry_pending)).
Proof.
  intros Hrow. cbv zeta. unfold record_exact_time_outcome.
  rewrite Hrow, bool_decide_true by done. cbn [negb].
  set (row' := MkFire captured _ _ _ _ _).
  pose proof (previous_day_spec k (put k row' l)) as Hp. simpl in Hp.
  assert (∀ d, d < k.2 → <[k:=row']> (fires l) !! (k.1, d) = fires l !! (k.1, d)) as Hother.
  { intros d Hd. apply lookup_insert_ne. intros Heq.
    apply (f_equal snd) in Heq. simpl in Heq. lia. }
  destruct (previous_day k (put k row' l)) as [[d prev]|].
  - destruct Hp as (Hprev & Hd & Hmax). rewrite Hother in Hprev by done.
    assert (∀ d' prev', fires l !! (k.1, d') = Some prev' → d' < k.2 → d' ≤ d) as Hmax'.
    { intros d' prev' Hf Hlt. rewrite <-Hother in Hf by done. by apply (Hmax (k.1, d') prev'). }
    case_decide as Hst; (split; [done|]); [left|right].
    + exists d, prev. by split_and!.
    + split; [done|]. intros d' prev' Hf Hlt Hall.
      assert (d' = d) as -> by (pose proof (Hmax' _ _ Hf Hlt); pose proof (Hall _ _ Hprev Hd); lia).
      naive_solver.
  - split; [done|]. right. split; [done|]. intros d prev Hf Hlt _.
    rewrite <-Hother in Hf by done. specialize (Hp _ _ Hf eq_refl). simpl in Hp. lia.
Qed.

(** ** A run that captures twice *)
Definition demo_decision : AnchorDecision :=
  MkDecision noon_anchor 19792 (Some (at_utc 19792 12 0)) true true.
Definition demo_key : fire_key := decision_key 1 demo_decision.

(** Attempt 1 is abandoned at its time limit (two minutes) with its write thread
    running; the retry, fifteen seconds later, is claimed and writes a frame; then
    the first thread finishes and writes another. *)
Definition double_capture : Sys :=
  let l1 := (claim_anchor_attempt demo_key KClock failed None true
               (at_utc 19792 12 0) 0 empty_log).2 in
  let s2 := (handle_anchor_failure 1 demo_decision 1 (at_utc 19792 12 2) false "timed out"
               (MkSup l1 ∅)).2 in
  let l3 := (claim_anchor_attempt demo_key KClock failed None true
               (at_utc 19792 12 3) 0 (sup_log s2)).2 in
  MkSys (mark_captured demo_key 7 (MkSup l3 ∅)) [] [(demo_key, Written 8)]
    [(demo_key, 8); (demo_key, 7)] [demo_key].

Lemma double_capture_run : rtc step (initial_sys ∅) double_capture.
Proof.
  eapply rtc_l.
  { eapply (step_claim _ _ _ _ _ 1 demo_decision (at_utc 19792 12 0) 0 _ 1); [done|].
    vm_compute. reflexivity. }
  eapply rtc_l.
  { eapply (step_abandon _ [] [] _ _ _ 1 demo_decision 1 Capturing (at_utc 19792 12 2) false
             "timed out"). vm_compute. reflexivity. }
  eapply rtc_l.
  { eapply (step_claim _ _ _ _ _ 1 demo_decision (at_utc 19792 12 3) 0 _ 2); [done|].
    vm_compute. reflexivity. }
  eapply rtc_l; [apply (step_write _ [] [] _ _ _ 1 demo_decision 2 7)|].
  eapply rtc_l; [apply (step_mark _ [] [] _ _ _ 1 demo_decision 2 7)|].
  eapply rtc_l; [apply (step_late_write _ _ [] [] _ _ demo_key 8)|].
  vm_compute. apply rtc_refl.
Qed.

(** The bound is reached.  An attempt abandoned during its write can leave
    two frames for the same anchor and local day: the retry was claimed and
    written before the first write thread finished, and its own write is not
    conditional on the row. *)
Theorem late_write_captures_twice :
  reachable double_capture ∧ length (frames_of demo_key double_capture) = 2%nat ∧
  length (abandoned_of demo_key double_capture) = 1%nat.
Proof. split; [exists ∅; apply double_capture_run|]. split; vm_compute; reflexivity. Qed.

(** ** Witnesses *)
Lemma double_capture_reachable : reachable double_capture.
Proof. exists ∅. apply double_capture_run. Qed.

Lemma one_attempt_at_a_time_witness :
  (length (attempts_under_way demo_key double_capture) ≤ 1)%nat ∧
  (∀ a, a ∈ attempts_under_way demo_key double_capture →
     ∃ row, fires (sup_log (sys_sup double_capture)) !! demo_key = Some row ∧
       (f_status row = captured ∨ provisional (att_n a) row)) ∧
  (∀ row, fires (sup_log (sys_sup double_capture)) !! demo_key = Some row →
     1 ≤ f_attempts row ≤ ANCHOR_MAX_ATTEMPTS ∧
     (f_status row = retry_pending → f_attempts row < ANCHOR_MAX_ATTEMPTS)).
Proof. apply (one_attempt_at_a_time double_capture demo_key). exact double_capture_reachable. Defined.

Lemma at_most_one_frame_witness :
  (length (frames_of demo_key double_capture) ≤
     1 + length (abandoned_of demo_key double_capture))%nat ∧
  (abandoned_of demo_key double_capture = [] →
     length (frames_of demo_key double_capture) ≤ 1)%nat.
Proof. apply (at_most_one_frame double_capture demo_key). exact double_capture_reachable. Defined.

Lemma one_failure_alert_witness :
  (alerts_of demo_key double_capture ≤ 1)%nat ∧
  (attempts_under_way demo_key double_capture ≠ [] → alerts_of demo_key double_capture = 0%nat) ∧
  (∀ row, fires (sup_log (sys_sup double_capture)) !! demo_key = Some row →
     f_status row = retry_pending → alerts_of demo_key double_capture = 0%nat).
Proof. apply (one_failure_alert double_capture demo_key). exact double_capture_reachable. Defined.

Definition demo_sup : Supervisor := MkSup empty_log ∅.
(** The log after a first failed attempt at noon. *)
Definition demo_retry : Supervisor :=
  (fire_anchor_decision 1 demo_decision (at_utc 19792 12 0) 0
     (attempt_failed false "unreachable" 0) demo_sup).2.

(** The log after a first attempt that timed out with its frame being written. *)
Definition demo_late : Supervisor :=
  (fire_anchor_decision 1 demo_decision (at_utc 19792 12 0) 0
     (timed_out_writing None "timed out" (2 * MINUTE)) demo_sup).2.

Lemma demo_attempt_made : attempt_made 1 demo_decision (at_utc 19792 12 0) demo_sup.
Proof. split_and!; [done..|]. by intros row [=]. Qed.

Lemma fire_anchor_decision_refines_witness :
  rtc step (MkSys demo_sup [] [] [] [])
    (MkSys demo_late [] [(demo_key, Capturing)] [] [demo_key]).
Proof.
  apply (fire_anchor_decision_refines 1 demo_decision (at_utc 19792 12 0) 0
           (timed_out_writing None "timed out" (2 * MINUTE)) demo_sup demo_late
           (Some (at_utc 19792 12 2 + 15 * SECOND))).
  - vm_compute. reflexivity.
  - exact demo_attempt_made.
Defined.

Definition demo_claimed : Supervisor :=
  MkSup (claim_anchor_attempt demo_key KClock failed None true
           (at_utc 19792 12 0) 0 empty_log).2 ∅.

Lemma retry_starts_in_grace_witness :
  at_utc 19792 12 2 + 15 * SECOND = at_utc 19792 12 2 + 15 * SECOND * 2 ^ (1 - 1) ∧
  1 ≤ 1 ≤ 6 ∧
  at_utc 19792 12 2 + 15 * SECOND ≤ at_utc 19792 12 0 + EXACT_TIME_GRACE - 30 * SECOND ∧
  ∃ row, fires (sup_log (handle_anchor_failure 1 demo_decision 1 (at_utc 19792 12 2) false
                  "timed out" demo_claimed).2) !! demo_key = Some row ∧
    f_status row = retry_pending ∧ f_attempts row = 1 ∧
    f_next_attempt_at row = Some (at_utc 19792 12 2 + 15 * SECOND).
Proof.
  apply (retry_starts_in_grace 1 demo_decision 1 (at_utc 19792 12 2) (at_utc 19792 12 0) false
           "timed out" demo_claimed _ (Some (at_utc 19792 12 2 + 15 * SECOND))).
  - reflexivity.
  - vm_compute. reflexivity.
Defined.

Definition demo_captured : Supervisor :=
  (fire_anchor_decision 1 demo_decision (at_utc 19792 12 0) 0 (frame_written 7) demo_sup).2.

Lemma settled_anchor_is_final_witness :
  fire_anchor_decision 1 demo_decision (at_utc 19792 12 5) 0 (frame_written 9) demo_captured
    = (None, demo_captured).
Proof.
  apply (settled_anchor_is_final 1 demo_decision (at_utc 19792 12 5) 0 (frame_written 9)
           demo_captured (MkFire captured 0 (Some 7) None 1 None)).
  - vm_compute. reflexivity.
  - discriminate.
Defined.

Definition demo_target : AnchorTarget :=
  MkAnchorTarget 1 noon_list fixed_zone_doc None None None.

Lemma evaluation_wakes_in_time_witness :
  let r := @evaluate_exact_time_anchors demo_env demo_fresh demo_target (at_utc 19792 10 5) 0
             (λ _, attempt_failed false "unreachable" 0) demo_sup in
  let s' := MkSup (schedule_anchor_retry (1, "a1", 19792) 1 (at_utc 19792 10 5 + 15 * SECOND)
     "unreachable" (claim_exact_time_fire (1, "a1", 19792) failed None 0 empty_log).2).2 ∅ in
  r = Ok (Some (at_utc 19792 10 5 + 15 * SECOND), s') ∧
  (∀ x, Some (at_utc 19792 10 5 + 15 * SECOND) = Some x → at_utc 19792 10 5 < x) ∧
  (∀ dec row x, dec ∈ [MkDecision noon_anchor 19792 (Some (at_utc 19792 10 0)) true true] →
     after_floor None dec = true →
     (∀ d, d ∈ [MkDecision noon_anchor 19792 (Some (at_utc 19792 10 0)) true true] →
        a_id (d_anchor d) = a_id (d_anchor dec) → d_has_geo d = true) →
     fires (sup_log s') !! decision_key 1 dec = Some row →
     f_status row = retry_pending → f_next_attempt_at row = Some x →
     ∃ y, Some (at_utc 19792 10 5 + 15 * SECOND) = Some y ∧ y ≤ x).
Proof.
  cbv zeta. split; [vm_compute; reflexivity|].
  apply (@evaluation_wakes_in_time demo_env demo_fresh demo_target (at_utc 19792 10 5) 0
           (λ _, attempt_failed false "unreachable" 0) demo_sup _ _ [noon_anchor] tz_fixed2).
  - vm_compute. reflexivity.
  - vm_compute. reflexivity.
  - vm_compute. reflexivity.
  - intros d. discriminate.
  - vm_compute. reflexivity.
Defined.

Lemma capture_announces_recovery_witness :
  let k : fire_key := (1, "a1", 19793) in
  let prev := MkFire failed 0 None None 7 None in
  let row := MkFire failed 0 None None 1 None in
  let l := MkLog (<[k := row]> (<[(1, "a1", 19792) := prev]> ∅)) [] in
  let l' := record_exact_time_outcome k captured (Some 5) None l in
  fires l' = <[k := MkFire captured (f_fired_at row) (Some 5) None (f_attempts row) None]> (fires l) ∧
  ((∃ d prev, events l' = events l ++ [ev_anchor_recovered k d] ∧
      fires l !! (k.1, d) = Some prev ∧ d < k.2 ∧
      (f_status prev = failed ∨ f_status prev = retry_pending) ∧
      ∀ d' prev', fires l !! (k.1, d') = Some prev' → d' < k.2 → d' ≤ d) ∨
   (events l' = events l ∧
    ∀ d prev, fires l !! (k.1, d) = Some prev → d < k.2 →
      (∀ d' prev', fires l !! (k.1, d') = Some prev' → d' < k.2 → d' ≤ d) →
      f_status prev ≠ failed ∧ f_status prev ≠ retry_pending)).
Proof. cbv zeta. apply capture_announces_recovery. vm_compute. reflexivity. Defined.
