(* ===== verification/StoragePaths.v ===== *)
(** * Storage paths, thumbnails and orphaned files

    storage/paths.py decides where the files of a project live, which directories an
    operator may point a project at, and which file a stored value may name.  A text is
    the list of its code points; a path is the list of its components below the root.
    [realpath] and [normpath] are those of Python's posixpath, over a file system given
    by its symbolic links and by what [os.stat] identifies each path with ([Fs]).
    storage/thumbnail_cache.py, storage/orphans.py and storage/projects.py use them.  The
    directories of the settings are absolute. *)

From S2P Require Import Prelude PyTime.
From stdpp Require Import options.
Local Open Scope Z_scope.

Abbreviation text := (list Z).
Abbreviation path := (list text).

(** ** Texts and paths *)
Definition SEP : Z := 47.
Definition DOT : text := [46].
Definition DOTDOT : text := [46; 46].
(** [split("/")] *)
Fixpoint split_sep (t : text) : list text :=
  match t with
  | [] => [[]]
  | c :: t =>
      match split_sep t with
      | [] => [[c]]
      | w :: ws => if c =? SEP then [] :: w :: ws else (c :: w) :: ws
      end
  end.
Definition isabs (t : text) : bool := match t with c :: _ => c =? SEP | [] => false end.
(** the text of an absolute path *)
Definition path_text (p : path) : text := match p with [] => [SEP] | _ => flat_map (λ name, SEP :: name) p end.
(** components that stand for nothing *)
Definition void (name : text) : bool := bool_decide (name = [] ∨ name = DOT).
(** [os.path.normpath] of an absolute path *)
Definition norm_step (cur : path) (name : text) : path :=
  if void name then cur else if bool_decide (name = DOTDOT) then removelast cur else cur ++ [name].
Definition normpath (p : path) : path := foldl norm_step [] p.
(** [os.path.dirname], [os.path.basename] of a real path *)
Definition dirname (p : path) : path := removelast p.
Definition basename (p : path) : text := List.last p [].
(** the decimal text of an id *)
Fixpoint digits_of (fuel : nat) (n : Z) : text :=
  match fuel with
  | O => []
  | S fuel => if n <? 10 then [48 + n] else digits_of fuel (n / 10) ++ [48 + n mod 10]
  end.
Definition id_text (n : Z) : text := digits_of (Z.to_nat n + 1) n.
Definition is_digits (t : text) : bool := negb (bool_decide (t = [])) && forallb (λ c, (48 <=? c) && (c <=? 57)) t.
Definition int_of (t : text) : Z := foldl (λ n c, 10 * n + (c - 48)) 0 t.

Definition ascii_text (s : string) : text := map (Z.of_N ∘ Ascii.N_of_ascii) (String.list_ascii_of_string s).

(** ** The file system *)
Record Fs := MkFs {
  fs_links : gmap path text;
  fs_identity : path → option (Z * Z);
  fs_cwd : path;
}.

(** [lstat] raises [ValueError] on a NUL and on code points without an encoding. *)
Definition unencodable (c : Z) : bool := (c =? 0) || ((55296 <=? c) && (c <=? 57343) && negb ((56448 <=? c) && (c <=? 56575))).
Definition bad_name (name : text) : bool := existsb unencodable name.

(** [_joinrealpath]: done, given up at a loop of links (with what is left unresolved), or
    raised; [jr_fuel] is the end of the fuel. *)
Inductive joined :=
  | jr_ok (p : path) (seen : gmap path (option path))
  | jr_loop (p : path)
  | jr_raise
  | jr_fuel.
Section real.
Context (fs : Fs).
(** the loop of a call; [resolve] is the call for the target of a link *)
Definition walk (resolve : gmap path (option path) → path → list text → joined) : gmap path (option path) → path → list text → joined :=
  fix go (seen : gmap path (option path)) (cur : path) (rest : list text) {struct rest} : joined :=
    match rest with
    | [] => jr_ok cur seen
    | name :: rest =>
        if void name then go seen cur rest
        else if bool_decide (name = DOTDOT) then go seen (removelast cur) rest
        else if bad_name name then jr_raise
        else
          let new := cur ++ [name] in
          match fs_links fs !! new with
          | None => go seen new rest
          | Some target =>
              match seen !! new with
              | Some (Some p) => go seen p rest
              | Some None => jr_loop (new ++ rest)
              | None =>
                  match resolve (<[new := None]> seen) (if isabs target then [] else cur) (split_sep target) with
                  | jr_ok p seen => go (<[new := Some p]> seen) p rest
                  | jr_loop p => jr_loop (p ++ rest)
                  | r => r
                  end
              end
          end
    end.
Fixpoint join_real (fuel : nat) : gmap path (option path) → path → list text → joined :=
  match fuel with
  | O => λ _ _ _, jr_fuel
  | S fuel => walk (join_real fuel)
  end.
(** [os.path.realpath], [_real]: every call for a link marks another link as seen *)
Definition join_from (cur : path) (names : list text) : joined := join_real (S (size (fs_links fs))) ∅ cur names.
Definition real_from (cur : path) (names : list text) : result path :=
  match join_from cur names with
  | jr_ok p _ => Ok p
  | jr_loop p => Ok (normpath p)
  | jr_raise | jr_fuel => Raise (ValueError "path")
  end.
Definition realpath (t : text) : result path := real_from (if isabs t then [] else fs_cwd fs) (split_sep t).

(** [_is_within]: by name, or by the identity of the path or an ancestor *)
Definition ancestors (p : path) : list path := (λ n, take n p) <$> reverse (seq 0 (S (length p))).
Definition is_within (p root : path) : bool :=
  bool_decide (root `prefix_of` p) ||
  match fs_identity fs root with
  | None => false
  | Some i => existsb (λ a, bool_decide (fs_identity fs a = Some i)) (ancestors p)
  end.
End real.

(** ** Layout *)
(** What the path code reads of the settings: absolute texts; [pt_files] are the token,
    certificate, key, database and configuration files, those that are set. *)
Record PathSettings := MkPathSettings {
  pt_data_dir : text;
  pt_frames_root : text;
  pt_files : list text;
  pt_allowed_roots : option (list text);
  pt_output_subdir : text;
}.
Record ProjectRef := MkProjectRef { pf_id : Z; pf_storage_path : option text }.
(** [Path(x) / name] *)
Definition under (dir : text) (name : text) : text := dir ++ SEP :: name.
Definition uses_default_layout (project : ProjectRef) : bool := match pf_storage_path project with None | Some [] => true | _ => false end.
Definition default_frame_dir (settings : PathSettings) (id : Z) : text := under (pt_frames_root settings) (id_text id).
(** [frame_dir], [frame_dir_under_root] *)
Definition frame_dir (settings : PathSettings) (project : ProjectRef) : text :=
  match pf_storage_path project with
  | None | Some [] => default_frame_dir settings (pf_id project)
  | Some dir => dir
  end.
(** [to_stored] of a file in a directory *)
Definition to_stored (project : ProjectRef) (dir name : text) : text := if uses_default_layout project then name else under dir name.
(** [resolve_absolute] *)
Definition resolve_absolute (settings : PathSettings) (project_id : Z) (stored : text) : text :=
  if isabs stored then stored else under (default_frame_dir settings project_id) stored.
(** [frame_boundaries] *)
Definition frame_boundaries (fs : Fs) (settings : PathSettings) (project : ProjectRef) : result (list path) :=
  current ← realpath fs (frame_dir settings project);
  dflt ← realpath fs (default_frame_dir settings (pf_id project));
  Ok (if bool_decide (current = dflt) then [current] else [current; dflt]).
(** [resolve_contained_frame_path] with the boundaries it was given or computes *)
Definition contained_in (fs : Fs) (settings : PathSettings) (project : ProjectRef) (stored : text) (bounds : list path) : result path :=
  match realpath fs (resolve_absolute settings (pf_id project) stored) with
  | Raise _ => Raise PathContainmentError
  | Ok real => if existsb (is_within fs real) bounds then Ok real else Raise PathContainmentError
  end.
Definition resolve_contained_frame_path (fs : Fs) (settings : PathSettings) (project : ProjectRef) (stored : text) : result path :=
  bounds ← frame_boundaries fs settings project;
  contained_in fs settings project stored bounds.

(** ** The storage_path policy *)
(** [_protected_dirs] *)
Definition protected_candidates (settings : PathSettings) : list path :=
  let data_dir := normpath (split_sep (pt_data_dir settings)) in
  [data_dir; data_dir ++ [ascii_text "thumbnails"]; data_dir ++ [ascii_text "reports"]] ++
  ((λ file, removelast (normpath (split_sep file))) <$> pt_files settings).
Fixpoint keep_protected (fs : Fs) (candidates : list path) (seen : list path) : result (list path) :=
  match candidates with
  | [] => Ok seen
  | candidate :: candidates =>
      real ← real_from fs [] candidate;
      if bool_decide (real = [] ∨ real ∈ seen) then keep_protected fs candidates seen
      else if match fs_identity fs real with None => false | i => bool_decide (i = fs_identity fs []) end then keep_protected fs candidates seen
      else keep_protected fs candidates (seen ++ [real])
  end.
Definition protected_dirs (fs : Fs) (settings : PathSettings) : result (list path) := keep_protected fs (protected_candidates settings) [].
(** [_overlaps_protected] *)
Definition offends (fs : Fs) (p frames directory : path) : bool :=
  is_within fs p directory &&
  negb (is_within fs frames directory && negb (is_within fs directory frames) && is_within fs p frames).
Definition overlaps_protected (fs : Fs) (p : path) (protected : list path) (frames : path) : option path :=
  List.find (offends fs p frames) protected.
(** [_allowed_roots] *)
Definition allowed_roots (fs : Fs) (settings : PathSettings) : result (list path) :=
  traverse (realpath fs) (match pt_allowed_roots settings with None => [pt_frames_root settings] | Some roots => roots end).
Definition MAX_STORAGE_PATH_BYTES : Z := 4096.
(** [_check_storage_path_text] *)
Definition is_control (c : Z) : bool := (c <? 32) || ((127 <=? c) && (c <=? 159)) || (c =? 8232) || (c =? 8233).
Definition utf8_length (t : text) : Z := foldr (λ c n, n + (if c <? 128 then 1 else if c <? 2048 then 2 else if c <? 65536 then 3 else 4)) 0 t.
Definition is_surrogate (c : Z) : bool := (55296 <=? c) && (c <=? 57343).
Definition check_storage_path_text (t : text) : result unit :=
  if existsb is_control t then Raise (StoragePathError "control characters")
  else if existsb is_surrogate t then Raise (StoragePathError "invalid characters")
  else if MAX_STORAGE_PATH_BYTES <? utf8_length t then Raise (StoragePathError "too long")
  else if negb (isabs t) then Raise (StoragePathError "not absolute")
  else if bool_decide (DOTDOT ∈ split_sep (map (λ c, if c =? 92 then SEP else c) t)) then Raise (StoragePathError "'..'")
  else Ok tt.
(** [_same_real_path] *)
Definition same_real_path (fs : Fs) (real : path) (other : text) : bool :=
  match realpath fs other with Ok p => bool_decide (real = p) | Raise _ => false end.
(** [_check_layout_collision] *)
Definition layout_collision (settings : PathSettings) (real frames : path) (project_id : option Z) : bool :=
  bool_decide (basename real = pt_output_subdir settings) ||
  (bool_decide (dirname real = frames) && is_digits (basename real) &&
   match project_id with None => true | Some id => negb (int_of (basename real) =? id) end).
(** [str.strip] *)
Definition is_white (c : Z) : bool :=
  ((9 <=? c) && (c <=? 13)) || ((28 <=? c) && (c <=? 32)) || (c =? 133) || (c =? 160) || (c =? 5760) || ((8192 <=? c) && (c <=? 8202)) ||
  (c =? 8232) || (c =? 8233) || (c =? 8239) || (c =? 8287) || (c =? 12288).
Fixpoint strip_left (t : text) : text := match t with c :: t' => if is_white c then strip_left t' else t | [] => [] end.
Definition strip_text (t : text) : text := reverse (strip_left (reverse (strip_left t))).
(** [validate_storage_path] *)
Definition validate_storage_path (fs : Fs) (raw : option text) (settings : PathSettings) (is_admin : bool) (project_id : option Z)
    (other_storage_paths : list text) : result (option path) :=
  match strip_text <$> raw with
  | None | Some [] => Ok None
  | Some t =>
      _ ← check_storage_path_text t;
      real ← match realpath fs t with Ok p => Ok p | Raise _ => Raise (StoragePathError "cannot be resolved") end;
      frames ← realpath fs (pt_frames_root settings);
      protected ← protected_dirs fs settings;
      if existsb (λ directory, is_within fs directory real) protected then Raise (StoragePathError "contains the data directory")
      else if is_within fs frames real then Raise (StoragePathError "not below the frames root")
      else if existsb (λ candidate, bool_decide (is_Some (overlaps_protected fs candidate protected frames))) [real; dirname real]
      then Raise (StoragePathError "inside a protected directory")
      else if layout_collision settings real frames project_id then Raise (StoragePathError "collides with the layout")
      else if existsb (same_real_path fs real) other_storage_paths then Raise (StoragePathError "already used")
      else if is_admin then Ok (Some real)
      else
        roots ← allowed_roots fs settings;
        if existsb (λ root, is_within fs real root && is_within fs (dirname real) root) roots then Ok (Some real)
        else Raise (StoragePathError "outside the allowed roots")
  end.

(** ** The column: services/projects.py *)
Definition or_none_text (t : option text) : option text := match t with Some [] => None | v => v end.
(** [_storage_path_unchanged] *)
Definition storage_path_unchanged (raw stored : option text) : bool := bool_decide (or_none_text (strip_text <$> raw) = or_none_text stored).
(** [_checked_storage_path]: against the paths of the other projects *)
Definition other_storage_paths (id : Z) (t : gmap Z (option text)) : list text :=
  omap (λ e : Z * option text, if bool_decide (e.1 = id) then None else or_none_text e.2) (map_to_list t).
Definition checked_storage_path (fs : Fs) (settings : PathSettings) (is_admin : bool) (id : Z) (raw : option text) (t : gmap Z (option text))
    : result (option text) :=
  match validate_storage_path fs raw settings is_admin (Some id) (other_storage_paths id t) with
  | Ok v => Ok (path_text <$> v)
  | Raise (StoragePathError _) => Raise ValidationError
  | Raise e => Raise e
  end.
(** what [update_project] does to the column *)
Definition update_storage_path (fs : Fs) (settings : PathSettings) (is_admin : bool) (id : Z) (raw : option text) (t : gmap Z (option text))
    : result (gmap Z (option text)) :=
  match t !! id with
  | None => Raise NotFoundError
  | Some stored =>
      if storage_path_unchanged raw stored then Ok t
      else v ← checked_storage_path fs settings is_admin id raw t; Ok (<[id := v]> t)
  end.
(** The column over time, each edit seeing what the one before it wrote: a new project,
    also a clone, has none. *)
Inductive storage_step (fs : Fs) (settings : PathSettings) : gmap Z (option text) → gmap Z (option text) → Prop :=
  | sp_create id t : 0 ≤ id → t !! id = None → storage_step fs settings t (<[id := None]> t)
  | sp_update is_admin id raw t t' : update_storage_path fs settings is_admin id raw t = Ok t' → storage_step fs settings t t'
  | sp_delete id t : storage_step fs settings t (delete id t).

(** ** Directories *)
Inductive entry_kind := ek_dir | ek_file | ek_other.
#[global] Instance entry_kind_eq_dec : EqDecision entry_kind.
Proof. solve_decision. Defined.
(** an entry of [os.scandir], with its own kind: links are not followed *)
Record DirEntry := MkDirEntry { en_name : text; en_kind : entry_kind; en_mtime : Z; en_size : Z }.
(** [None]: the directory does not exist or cannot be read *)
Abbreviation listing := (path → option (list DirEntry)).
(** what is taken off the disk, where the file system lets it *)
Inductive disk_op := op_rmtree (p : path) | op_unlink (p : path) | op_rmdir (dir : text).

(** ** Thumbnails: storage/thumbnail_cache.py *)
Definition thumbnail_cache_root (settings : PathSettings) : text := under (pt_data_dir settings) (ascii_text "thumbnails").
Definition thumbnail_cache_dir (settings : PathSettings) (project_id : Z) : text := under (thumbnail_cache_root settings) (id_text project_id).
(** [contained_thumbnail_dir] *)
Definition contained_thumbnail_dir (fs : Fs) (settings : PathSettings) (project_id : Z) : result path :=
  root ← realpath fs (thumbnail_cache_root settings);
  real ← realpath fs (thumbnail_cache_dir settings project_id);
  if bool_decide (real = root) || negb (is_within fs real root) then Raise PathContainmentError else Ok real.
Definition DEFAULT_THUMBNAIL_WIDTH : Z := 320.
Definition THUMBNAIL_WIDTHS : list Z := [320; 640].
Definition THUMBNAIL_TEMP_MARKER : text := ascii_text ".tmp-".
(** [thumbnail_file_name] *)
Definition thumbnail_file_name (frame_id width : Z) : result text :=
  if bool_decide (width ∉ THUMBNAIL_WIDTHS) then Raise (ValueError "width")
  else if width =? DEFAULT_THUMBNAIL_WIDTH then Ok (id_text frame_id ++ ascii_text ".jpg")
  else Ok (id_text frame_id ++ ascii_text "_" ++ id_text width ++ ascii_text ".jpg").
(** [remove_frame_thumbnails] *)
Definition remove_frame_thumbnails (fs : Fs) (settings : PathSettings) (project_id frame_id : Z) : list disk_op :=
  match contained_thumbnail_dir fs settings project_id with
  | Raise _ => []
  | Ok dir =>
      omap (λ width, match thumbnail_file_name frame_id width with Ok name => Some (op_unlink (dir ++ [name])) | Raise _ => None end) THUMBNAIL_WIDTHS
  end.
(** [_remove_tree] *)
Definition remove_tree (fs : Fs) (dir : path) : list disk_op := if bool_decide (is_Some (fs_links fs !! dir)) then [] else [op_rmtree dir].
(** [remove_project_thumbnails] *)
Definition remove_project_thumbnails (fs : Fs) (settings : PathSettings) (project_id : Z) : list disk_op :=
  match contained_thumbnail_dir fs settings project_id with Raise _ => [] | Ok dir => remove_tree fs dir end.
(** [in] on texts *)
Fixpoint text_contains (needle t : text) : bool :=
  bool_decide (needle `prefix_of` t) || match t with [] => false | _ :: t => text_contains needle t end.
(** [_remove_stale_temp_files] *)
Definition stale_temp_files (dirs : listing) (dir : path) (cutoff : Z) : list disk_op :=
  match dirs dir with
  | None => []
  | Some entries =>
      (λ e, op_unlink (dir ++ [en_name e])) <$>
        filter (λ e, text_contains THUMBNAIL_TEMP_MARKER (en_name e) = true ∧ en_kind e = ek_file ∧ en_mtime e < cutoff) entries
  end.
(** [prune_thumbnail_cache]: the ids listed, then for each of them what becomes of its cache *)
Definition listed_ids (entries : list DirEntry) : list Z :=
  (int_of ∘ en_name) <$> filter (λ e, is_digits (en_name e) = true ∧ en_kind e = ek_dir) entries.
Definition prune_one (fs : Fs) (dirs : listing) (settings : PathSettings) (live : gset Z) (cutoff : Z) (project_id : Z) : list disk_op :=
  match contained_thumbnail_dir fs settings project_id with
  | Raise _ => []
  | Ok dir => if bool_decide (project_id ∈ live) then stale_temp_files dirs dir cutoff else remove_tree fs dir
  end.
Definition TEMP_FILE_MAX_AGE : Z := 3600 * SECOND.
Definition prune_thumbnail_cache (fs : Fs) (dirs : listing) (settings : PathSettings) (live : gset Z) (now : Z) : list disk_op :=
  match dirs (normpath (split_sep (thumbnail_cache_root settings))) with
  | None => []
  | Some entries => flat_map (prune_one fs dirs settings live (now - TEMP_FILE_MAX_AGE)) (listed_ids entries)
  end.

(** ** Deleting a project: storage/projects.py *)
(** [_gather_frame_files] *)
Definition gather_frame_files (fs : Fs) (settings : PathSettings) (project : ProjectRef) (stored : list text) : result (list path) :=
  bounds ← frame_boundaries fs settings project;
  Ok (omap (λ s, match contained_in fs settings project s bounds with Ok p => Some p | Raise _ => None end) stored).
(** the files of [delete_project_with_files] once the rows are gone, render outputs apart *)
Definition delete_project_files (fs : Fs) (settings : PathSettings) (project : ProjectRef) (stored : list text) : result (list disk_op) :=
  frames ← gather_frame_files fs settings project stored;
  Ok ((op_unlink <$> frames) ++
      (if uses_default_layout project then [op_rmdir (frame_dir settings project)] else []) ++
      remove_project_thumbnails fs settings (pf_id project)).

(** ** Orphaned files: storage/orphans.py *)
Record OrphanFile := MkOrphan { or_project : Z; or_path : path; or_size : Z; or_temp : bool }.
Fixpoint points_leb (s t : text) : bool :=
  match s, t with
  | [], _ => true
  | _ :: _, [] => false
  | c :: s, d :: t => (c <? d) || ((c =? d) && points_leb s t)
  end.
Definition by_name (x y : DirEntry) : Prop := points_leb (en_name x) (en_name y) = true.
#[global] Instance by_name_dec : RelDecision by_name := λ x y, bool_eq_dec (points_leb (en_name x) (en_name y)) true.
Definition by_text (x y : path) : Prop := points_leb (path_text x) (path_text y) = true.
#[global] Instance by_text_dec : RelDecision by_text := λ x y, bool_eq_dec (points_leb (path_text x) (path_text y)) true.
Definition TEMP_SUFFIX : text := ascii_text ".tmp".
Definition ends_with (suffix t : text) : bool := bool_decide (suffix `suffix_of` t).
(** [_known_paths]: the rows of some projects, as (project, stored path) *)
Definition known_paths (settings : PathSettings) (rows : list (Z * option text)) (members : list Z) : list path :=
  omap (λ row : Z * option text,
          match row.2 with
          | Some (c :: t) => if bool_decide (row.1 ∈ members) then Some (normpath (split_sep (resolve_absolute settings row.1 (c :: t)))) else None
          | _ => None
          end) rows.
(** [_scan_directory] *)
Definition is_orphan (directory : path) (known : list path) (newest : Z) (e : DirEntry) : bool :=
  bool_decide (en_kind e = ek_file) && negb (bool_decide (directory ++ [en_name e] ∈ known)) && (en_mtime e <=? newest).
Definition scan_directory (dirs : listing) (directory : path) (project_id : Z) (known : list path) (newest : Z) : list OrphanFile :=
  match dirs directory with
  | None => []
  | Some entries =>
      (λ e, MkOrphan project_id (directory ++ [en_name e]) (en_size e) (ends_with TEMP_SUFFIX (en_name e))) <$>
        filter (λ e, is_orphan directory known newest e = true) (merge_sort by_name entries)
  end.
(** [find_orphan_files]: the directory of each project, and who shares one *)
Definition directory_of (settings : PathSettings) (project : ProjectRef) : path := normpath (split_sep (frame_dir settings project)).
Definition members_of (settings : PathSettings) (projects : list ProjectRef) (directory : path) : list Z :=
  pf_id <$> filter (λ p, directory_of settings p = directory) projects.
Definition orphans_in (settings : PathSettings) (dirs : listing) (projects : list ProjectRef) (rows : list (Z * option text))
    (project_id : option Z) (newest : Z) (directory : path) : list OrphanFile :=
  let members := members_of settings projects directory in
  let owner := match project_id with Some id => id | None => List.hd 0 members end in
  scan_directory dirs directory owner (known_paths settings rows members) newest.
Definition find_orphan_files (settings : PathSettings) (dirs : listing) (projects : list ProjectRef) (rows : list (Z * option text))
    (project_id : option Z) (min_age now : Z) : list OrphanFile :=
  let asked d := match project_id with None => true | Some id => bool_decide (id ∈ members_of settings projects d) end in
  flat_map (orphans_in settings dirs projects rows project_id (now - min_age))
    (merge_sort by_text (filter (λ d, asked d = true) (remove_dups (directory_of settings <$> projects)))).
