(* ===== verification/FrameWriter.v ===== *)
(** * Durable frames: capture/frame_writer.py

    A frame is a file on disk and a row in the database, written in that order
    under the project's write lock.  [write] is the whole method; [fault] names
    the point where the run is interrupted, by an exception or by the death of
    the process.  The per-project lock and the transaction make one call atomic
    towards the other writers of the project.  The directory, the value stored in
    the row and the file a stored value stands for are those of storage/paths.py
    (StoragePaths); files are known by the text of their absolute path. *)

From Stdlib Require Import Ascii.
From S2P Require Import Prelude PyTime PyVal StoragePaths.
From stdpp Require Import options.
Local Open Scope Z_scope.

Inductive lifecycle := lc_active | lc_paused | lc_archived.
#[export] Instance lifecycle_eq_dec : EqDecision lifecycle.
Proof. solve_decision. Defined.

(** The columns of [Project] the capture path reads or writes. *)
Record Project := MkProject {
  p_frame_count : option Z;
  p_max_frame_count : option Z;
  p_lifecycle : lifecycle;
  p_storage_path : option text;
}.

Inductive frame_origin := origin_captured | origin_uploaded.

Record Frame := MkFrame {
  fr_project_id : Z;
  fr_sequence_index : Z;
  fr_capture_timestamp : Z;
  fr_file_path : text;
  fr_width : Z;
  fr_height : Z;
  fr_file_size_bytes : Z;
  fr_origin : frame_origin;
  fr_stream_id : option string;
  fr_capture_timestamp_inferred : bool;
  fr_capture_reason : option string;
}.

(** What the adapter hands over. *)
Record CapturedFrame := MkCaptured {
  cf_image_bytes : list Z;
  cf_format : string;
  cf_width : Z;
  cf_height : Z;
  cf_captured_at : Z;
}.

Record WrittenFrame := MkWritten {
  w_frame_id : Z;
  w_sequence_index : Z;
  w_file_path : text;
  w_project_frame_count : Z;
  w_project_max_frame_count : option Z;
}.

(** The configured directories, the database tables and the files on disk (path to
    content). *)
Record Store := MkStore {
  s_paths : PathSettings;
  s_projects : gmap Z Project;
  s_frames : gmap Z Frame;
  s_files : gmap text (list Z);
}.

(** ** Operations *)

Definition max_over {A} (f : A → option Z) (m : gmap Z A) : option Z :=
  map_fold (λ _ x acc, match f x with Some v => keep_max acc v | None => acc end) None m.

(** [_next_sequence_index]: one past the project's current maximum. *)
Definition next_sequence_index (frames : gmap Z Frame) (project_id : Z) : Z :=
  default 0 (max_over (λ f, if decide (fr_project_id f = project_id)
                            then Some (fr_sequence_index f) else None) frames) + 1.

(** The row id SQLite assigns: one past the largest. *)
Definition next_frame_id (frames : gmap Z Frame) : Z :=
  default 0 (map_fold (λ i _ acc, keep_max acc i) None frames) + 1.

(** ASCII [str.lower]. *)
Fixpoint lower (s : string) : string :=
  match s with
  | EmptyString => EmptyString
  | String c s' =>
      let n := char_code c in
      String (if (65 <=? n) && (n <=? 90) then ascii_of_nat (Z.to_nat (n + 32)) else c) (lower s')
  end.

(** [_extension] *)
Definition extension (image_format : string) : string :=
  let l := lower image_format in
  if String.eqb l "jpeg" || String.eqb l "jpg" then "jpg"
  else if String.eqb l "png" then "png" else l.

Inductive fault :=
  | no_fault
  | fault_file            (** [mkdir] or [_atomic_write] raises; the temporary file is removed *)
  | fault_row             (** the insert, flush or commit raises; the file is removed again *)
  | fault_row_unlink      (** the same, and removing the file fails as well *)
  | crash_before_file
  | crash_before_commit   (** the process dies between the rename and the commit *)
  | crash_after_commit.   (** the process dies before the call returns *)

Inductive write_outcome :=
  | written (w : WrittenFrame)
  | write_raised
  | write_crashed.

(** [FrameWriter.destination_dir] *)
Definition destination_dir (settings : PathSettings) (project_id : Z) (project : Project) : text :=
  frame_dir settings (MkProjectRef project_id (p_storage_path project)).

(** The file name, from the [uuid4().hex] drawn for it. *)
Definition file_name (token : string) (captured : CapturedFrame) : text :=
  ascii_text (token +:+ "." +:+ extension (cf_format captured)).

(** [FrameWriter.write]; [token] is the [uuid4().hex] of the file name. *)
Definition write (project_id : Z) (captured : CapturedFrame) (origin : frame_origin)
    (capture_timestamp : option Z) (stream_id : option string) (inferred : bool)
    (capture_reason : option string) (token : string) (flt : fault) (st : Store)
    : write_outcome * Store :=
  let effective_timestamp := default (cf_captured_at captured) capture_timestamp in
  match s_projects st !! project_id with
  | None => (write_raised, st)
  | Some project =>
      let sequence_index := next_sequence_index (s_frames st) project_id in
      let destination := destination_dir (s_paths st) project_id project in
      let name := file_name token captured in
      let final_path := under destination name in
      match flt with
      | fault_file => (write_raised, st)
      | crash_before_file => (write_crashed, st)
      | _ =>
          let files := <[final_path := cf_image_bytes captured]> (s_files st) in
          match flt with
          | crash_before_commit =>
              (write_crashed, MkStore (s_paths st) (s_projects st) (s_frames st) files)
          | fault_row =>
              (write_raised,
               MkStore (s_paths st) (s_projects st) (s_frames st) (delete final_path files))
          | fault_row_unlink =>
              (write_raised, MkStore (s_paths st) (s_projects st) (s_frames st) files)
          | _ =>
              let frame_id := next_frame_id (s_frames st) in
              let stored_path :=
                to_stored (MkProjectRef project_id (p_storage_path project)) destination name in
              let frame :=
                MkFrame project_id sequence_index effective_timestamp stored_path
                  (cf_width captured) (cf_height captured)
                  (Z.of_nat (length (cf_image_bytes captured))) origin stream_id inferred
                  capture_reason in
              let count := default 0 (p_frame_count project) + 1 in
              (match flt with
               | crash_after_commit => write_crashed
               | _ => written (MkWritten frame_id sequence_index final_path count
                                 (p_max_frame_count project))
               end,
               MkStore (s_paths st)
                 (<[project_id := MkProject (Some count) (p_max_frame_count project)
                                    (p_lifecycle project)
                                    (p_storage_path project)]> (s_projects st))
                 (<[frame_id := frame]> (s_frames st)) files)
          end
      end
  end.

(** ** Maxima over a table *)
Lemma max_over_spec {A} (f : A → option Z) (m : gmap Z A) :
  match max_over f m with
  | None => ∀ i x, m !! i = Some x → f x = None
  | Some v => (∃ i x, m !! i = Some x ∧ f x = Some v) ∧
              ∀ i x v', m !! i = Some x → f x = Some v' → v' ≤ v
  end.
Proof.
  unfold max_over. apply (map_fold_weak_ind (λ acc m,
    match acc with
    | None => ∀ i x, m !! i = Some x → f x = None
    | Some v => (∃ i x, m !! i = Some x ∧ f x = Some v) ∧
                ∀ i x v', m !! i = Some x → f x = Some v' → v' ≤ v
    end)).
  - intros i x. by rewrite lookup_empty.
  - intros i x m' acc Hi IH. destruct (f x) as [v|] eqn:Hf.
    + assert (∀ w, keep_max acc v = Some w →
        (∃ i0 x0, <[i:=x]> m' !! i0 = Some x0 ∧ f x0 = Some w) ∧
        ∀ i0 x0 v', <[i:=x]> m' !! i0 = Some x0 → f x0 = Some v' → v' ≤ w) as Hgoal;
        [|destruct acc; by apply Hgoal].
      intros w Hw. destruct acc as [a|]; simpl in Hw; injection Hw as <-.
      * destruct IH as [(j & y & Hj & Hy) Hmax]. rewrite Z.gtb_ltb.
        destruct (Z.ltb_spec a v); split.
        -- exists i, x. by rewrite lookup_insert_eq.
        -- intros k z v' [[<- <-]|[_ Hk]]%lookup_insert_Some Hz; [by simplify_eq|].
           specialize (Hmax _ _ _ Hk Hz). lia.
        -- exists j, y. rewrite lookup_insert_ne; [done|]. intros ->. congruence.
        -- intros k z v' [[<- <-]|[_ Hk]]%lookup_insert_Some Hz; [by simplify_eq|].
           by eapply Hmax.
      * split; [exists i, x; by rewrite lookup_insert_eq|].
        intros k z v' [[<- <-]|[_ Hk]]%lookup_insert_Some Hz; [by simplify_eq|].
        by rewrite (IH _ _ Hk) in Hz.
    + destruct acc as [a|].
      * destruct IH as [(j & y & Hj & Hy) Hmax]. split.
        -- exists j, y. rewrite lookup_insert_ne; [done|]. intros ->. congruence.
        -- intros k z v' [[<- <-]|[_ Hk]]%lookup_insert_Some Hz; [congruence|]. by eapply Hmax.
      * intros k z [[<- <-]|[_ Hk]]%lookup_insert_Some; [done|]. by eapply IH.
Qed.

(** The new sequence index exceeds every one of the project. *)
Lemma next_sequence_index_fresh (frames : gmap Z Frame) (pid i : Z) (f : Frame) :
  frames !! i = Some f → fr_project_id f = pid →
  fr_sequence_index f < next_sequence_index frames pid.
Proof.
  intros Hi Hp. unfold next_sequence_index. set (g := λ f, _).
  pose proof (max_over_spec g frames) as Hm. destruct (max_over g frames) as [v|].
  - destruct Hm as [_ Hmax]. specialize (Hmax i f (fr_sequence_index f) Hi). simpl.
    assert (g f = Some (fr_sequence_index f)) by (unfold g; by rewrite decide_True).
    specialize (Hmax H). lia.
  - specialize (Hm i f Hi). unfold g in Hm. by rewrite decide_True in Hm.
Qed.

Lemma next_frame_id_fresh (frames : gmap Z Frame) : frames !! next_frame_id frames = None.
Proof.
  assert (∀ i f, frames !! i = Some f → i < next_frame_id frames) as Hlt.
  { unfold next_frame_id.
    assert (match map_fold (λ i (_ : Frame) acc, keep_max acc i) None frames with
            | None => frames = ∅
            | Some v => ∀ i f, frames !! i = Some f → i ≤ v
            end) as Hmax.
    { apply (map_fold_weak_ind (λ acc (m : gmap Z Frame),
        match acc with None => m = ∅ | Some v => ∀ i f, m !! i = Some f → i ≤ v end)); [done|].
      intros i f m acc _ IH. destruct acc as [v|]; simpl.
      - intros j g [[<- <-]|[_ Hj%IH]]%lookup_insert_Some; rewrite Z.gtb_ltb; case_match; lia.
      - subst m. by intros j g [[<- <-]|[_ ?]]%lookup_insert_Some; [|rewrite lookup_empty in *]. }
    intros i f Hi. destruct (map_fold _ _ _) as [v|]; simpl.
    - specialize (Hmax _ _ Hi). lia.
    - subst frames. by rewrite lookup_empty in Hi. }
  destruct (frames !! next_frame_id frames) as [f|] eqn:Hf; [|done].
  specialize (Hlt _ _ Hf). lia.
Qed.

(** ** The store's invariant *)
Definition rows_of (pid : Z) (frames : gmap Z Frame) : gmap Z Frame :=
  filter (λ x, fr_project_id x.2 = pid) frames.

(** The file a row stands for: what the readers open. *)
Definition row_file (st : Store) (f : Frame) : text :=
  resolve_absolute (s_paths st) (fr_project_id f) (fr_file_path f).

Record store_ok (st : Store) : Prop := {
  so_file i f : s_frames st !! i = Some f →
    ∃ bytes, s_files st !! row_file st f = Some bytes ∧
      Z.of_nat (length bytes) = fr_file_size_bytes f;
  so_sequence i j f g : s_frames st !! i = Some f → s_frames st !! j = Some g →
    fr_project_id f = fr_project_id g → fr_sequence_index f = fr_sequence_index g → i = j;
  so_path i j f g : s_frames st !! i = Some f → s_frames st !! j = Some g →
    row_file st f = row_file st g → i = j;
  so_count pid p : s_projects st !! pid = Some p →
    default 0 (p_frame_count p) = Z.of_nat (size (rows_of pid (s_frames st)));
  (** what the [storage_path] policy lets into the column *)
  so_absolute pid p : s_projects st !! pid = Some p →
    uses_default_layout (MkProjectRef pid (p_storage_path p)) = false →
    isabs (default [] (p_storage_path p)) = true;
}.

(** The file a write creates. *)
Definition frame_path (st : Store) (pid : Z) (p : Project) (token : string) (c : CapturedFrame)
    : text :=
  under (destination_dir (s_paths st) pid p) (file_name token c).

(** The drawn file name is a plain name that is not in use (what a UUID is for). *)
Definition token_fresh (st : Store) (pid : Z) (token : string) (c : CapturedFrame) : Prop :=
  SEP ∉ file_name token c ∧
  ∀ p, s_projects st !! pid = Some p → s_files st !! frame_path st pid p token c = None.

(** Files that no row stands for. *)
Definition orphan (st : Store) (path : text) : Prop :=
  is_Some (s_files st !! path) ∧ ∀ i f, s_frames st !! i = Some f → row_file st f ≠ path.

(** What [to_stored] puts into the row of a frame is read back as the file written: a
    bare name below the numbered directory, or the absolute path. *)
Lemma stored_path_resolves (st : Store) (pid : Z) (p : Project) (token : string)
    (c : CapturedFrame) :
  store_ok st → SEP ∉ file_name token c → s_projects st !! pid = Some p →
  resolve_absolute (s_paths st) pid
    (to_stored (MkProjectRef pid (p_storage_path p)) (destination_dir (s_paths st) pid p)
       (file_name token c)) = frame_path st pid p token c.
Proof.
  intros Hst Hsep Hp. pose proof (so_absolute st Hst pid p Hp) as Ha.
  unfold to_stored, resolve_absolute, frame_path, destination_dir, frame_dir in *.
  unfold uses_default_layout in *. cbn in *.
  assert (isabs (file_name token c) = false) as Hn.
  { destruct (file_name token c) as [|x t] eqn:Hx; [done|]. cbn.
    apply Z.eqb_neq. intros ->. apply Hsep. left. }
  destruct (p_storage_path p) as [[|x dir]|]; cbn in *; [by rewrite Hn| |by rewrite Hn].
  by rewrite (Ha eq_refl).
Qed.

Lemma rows_of_insert (frames : gmap Z Frame) (i pid : Z) (f : Frame) :
  frames !! i = None →
  size (rows_of pid (<[i := f]> frames)) =
    ((if decide (fr_project_id f = pid) then 1 else 0) + size (rows_of pid frames))%nat.
Proof.
  intros Hi. unfold rows_of. rewrite map_filter_insert. case_decide as Hp; simpl in Hp.
  - rewrite map_size_insert_None, decide_True by (done || by apply map_lookup_filter_None_2; left).
    done.
  - by rewrite decide_False, delete_id by done.
Qed.

Section write.
Context (st : Store) (pid : Z) (c : CapturedFrame) (origin : frame_origin) (ts : option Z).
Context (stream : option string) (inferred : bool) (reason : option string) (token : string).
Context (Hfresh : token_fresh st pid token c) (Hst : store_ok st).

Local Abbreviation run flt := (write pid c origin ts stream inferred reason token flt st).

Lemma files_only_ok (p : Project) :
  s_projects st !! pid = Some p →
  store_ok (MkStore (s_paths st) (s_projects st) (s_frames st)
              (<[frame_path st pid p token c := cf_image_bytes c]> (s_files st))).
Proof using Hfresh Hst.
  intros Hp. destruct Hst as [Hf Hs Hpa Hc Ha]. split; [|done..].
  intros i f Hi. destruct (Hf i f Hi) as (b & Hb & Hl). exists b. split; [|done].
  unfold row_file in *. cbn in *. rewrite lookup_insert_ne; [done|]. intros Heq.
  by rewrite <-Heq, (proj2 Hfresh p Hp) in Hb.
Qed.

Lemma committed_ok (p : Project) :
  s_projects st !! pid = Some p → store_ok (run no_fault).2.
Proof using Hfresh Hst.
  intros Hp. unfold write. rewrite Hp. fold (frame_path st pid p token c). simpl.
  destruct (files_only_ok p Hp) as [Hf Hs Hpa Hc Ha]; simpl in *.
  pose proof (stored_path_resolves st pid p token c Hst (proj1 Hfresh) Hp) as Hres.
  pose proof (next_frame_id_fresh (s_frames st)) as Hid. set (fid := next_frame_id _) in *.
  assert (∀ i f, s_frames st !! i = Some f → row_file st f ≠ frame_path st pid p token c) as Hnew.
  { intros i f Hi Heq. destruct (so_file st Hst i f Hi) as (b & Hb & _).
    by rewrite Heq, (proj2 Hfresh p Hp) in Hb. }
  unfold row_file in *. split; unfold row_file; simpl in *.
  - intros i f [[<- <-]|[_ Hi]]%lookup_insert_Some; [|by apply (Hf i)]. simpl.
    exists (cf_image_bytes c). rewrite Hres. by rewrite lookup_insert_eq.
  - intros i j f g [[<- <-]|[_ Hi]]%lookup_insert_Some [[<- <-]|[_ Hj]]%lookup_insert_Some; simpl;
      intros Hpr Hseq; [done|..|by eapply Hs].
    + symmetry in Hpr. pose proof (next_sequence_index_fresh _ _ _ _ Hj Hpr). lia.
    + pose proof (next_sequence_index_fresh _ _ _ _ Hi Hpr). lia.
  - intros i j f g [[<- <-]|[_ Hi]]%lookup_insert_Some [[<- <-]|[_ Hj]]%lookup_insert_Some; simpl;
      rewrite ?Hres; intros Heq; [done|..|by eapply Hpa].
    + by destruct (Hnew _ _ Hj).
    + by destruct (Hnew _ _ Hi).
  - intros pid' p' [[<- <-]|[Hne Hp']]%lookup_insert_Some; rewrite rows_of_insert by done; simpl.
    + rewrite decide_True by done. specialize (Hc _ _ Hp). simpl in *. lia.
    + rewrite decide_False by done. by apply Hc.
  - intros pid' p' [[<- <-]|[Hne Hp']]%lookup_insert_Some; [by apply (Ha pid p Hp)|by apply (Ha pid' p')].
Qed.
End write.

(** C23: file first, then row.  Wherever a write is interrupted (an exception in
    any step, a failing clean-up, the death of the process before or after the
    file is in place, or after the commit), the store stays sound: the file every
    row's stored value resolves to exists with the recorded size, sequence indices
    are unique per project, no two rows share a file and the project's frame count
    is its number of rows.  The name drawn for the file is a plain one that is not
    in use, and an explicit storage path is absolute, as the policy has it. *)
Theorem write_keeps_store_sound (st : Store) (pid : Z) (c : CapturedFrame)
    (origin : frame_origin) (ts : option Z) (stream : option string) (inferred : bool)
    (reason : option string) (token : string) (flt : fault) :
  token_fresh st pid token c → store_ok st →
  store_ok (write pid c origin ts stream inferred reason token flt st).2.
Proof.
  intros Hfresh Hst. destruct (s_projects st !! pid) as [p|] eqn:Hp; cycle 1.
  { unfold write. by rewrite Hp. }
  pose proof (committed_ok st pid c origin ts stream inferred reason token Hfresh Hst p Hp) as Hdone.
  destruct flt; [exact Hdone| | | | | |];
    unfold write in *; rewrite Hp in *; fold (frame_path st pid p token c) in *; simpl in *; try done;
    try exact (files_only_ok st pid c token Hfresh Hst p Hp).
  rewrite delete_insert_id by (by apply Hfresh). by destruct st.
Qed.

(** What a write does.  A successful write gets the sequence index one past
    the project's largest, larger than any before; it adds exactly one row (with a
    new id) and one file, its own, and raises the frame count by one, reporting
    the new count and the cap stored at that moment; it leaves every other
    project alone.  A write that raises changes nothing at all, unless removing
    the file failed; a write cut off by a crash before the commit, or whose clean-up
    failed, leaves at most one file that no row stands for, and no row; after the
    commit the frame is there. *)
Theorem write_effect (st : Store) (pid : Z) (c : CapturedFrame) (origin : frame_origin)
    (ts : option Z) (stream : option string) (inferred : bool) (reason : option string)
    (token : string) (flt : fault) (o : write_outcome) (st' : Store) :
  token_fresh st pid token c → store_ok st →
  write pid c origin ts stream inferred reason token flt st = (o, st') →
  match o with
  | written w =>
      ∃ p, s_projects st !! pid = Some p ∧ w_file_path w = frame_path st pid p token c ∧
      s_frames st !! w_frame_id w = None ∧
      (∀ i f, s_frames st !! i = Some f → fr_project_id f = pid →
         fr_sequence_index f < w_sequence_index w) ∧
      w_project_frame_count w = default 0 (p_frame_count p) + 1 ∧
      w_project_max_frame_count w = p_max_frame_count p ∧
      (∃ row, s_frames st' = <[w_frame_id w := row]> (s_frames st) ∧ fr_project_id row = pid ∧
         fr_sequence_index row = w_sequence_index w ∧ row_file st' row = w_file_path w) ∧
      s_files st' = <[w_file_path w := cf_image_bytes c]> (s_files st) ∧
      (∀ pid', pid' ≠ pid → s_projects st' !! pid' = s_projects st !! pid')
  | write_raised => st' = st ∨ flt = fault_row_unlink ∧ s_frames st' = s_frames st ∧
      ∃ p, s_projects st !! pid = Some p ∧ orphan st' (frame_path st pid p token c) ∧
        delete (frame_path st pid p token c) (s_files st') = s_files st
  | write_crashed =>
      flt = crash_after_commit ∧
        st' = (write pid c origin ts stream inferred reason token no_fault st).2 ∨
      s_frames st' = s_frames st ∧ s_projects st' = s_projects st ∧
      ∃ p, s_projects st !! pid = Some p ∧
        delete (frame_path st pid p token c) (s_files st') = s_files st
  end.
Proof.
  intros Hfresh Hst. unfold write. destruct (s_projects st !! pid) as [p|] eqn:Hp; cycle 1.
  { intros [= <- <-]. by left. }
  fold (frame_path st pid p token c). pose proof (proj2 Hfresh p Hp) as Hnone.
  pose proof (stored_path_resolves st pid p token c Hst (proj1 Hfresh) Hp) as Hres.
  destruct flt; intros [= <- <-]; cbn.
  - exists p. split_and!; try done.
    + apply next_frame_id_fresh.
    + intros i f Hi Hf. by eapply next_sequence_index_fresh.
    + eexists. split_and!; [done..|]. exact Hres.
    + intros pid' Hne. by rewrite lookup_insert_ne.
  - by left.
  - left. rewrite delete_insert_id by done. by destruct st.
  - right. split_and!; [done..|]. exists p. split_and!; [done| |by rewrite delete_insert_id].
    unfold orphan; simpl. split; [rewrite lookup_insert_eq; by eexists|].
    intros i f Hi Heq. destruct (so_file st Hst i f Hi) as (b & Hb & _). unfold row_file in Hb, Heq. cbn in Heq. rewrite Heq, Hnone in Hb. done.
  - right. split_and!; [done..|]. exists p. split; [done|]. by rewrite delete_id.
  - right. split_and!; [done..|]. exists p. split; [done|]. by rewrite delete_insert_id.
  - by left.
Qed.

(** ** Witnesses *)
Definition demo_capture : CapturedFrame := MkCaptured [255; 216; 255] "JPEG" 640 480 (19792 * DAY).
Definition demo_paths : PathSettings :=
  MkPathSettings (ascii_text "/data") (ascii_text "/data/frames") [] None (ascii_text "renders").
Definition demo_store : Store :=
  MkStore demo_paths {[ 1 := MkProject (Some 0) (Some 2) lc_active None ]} ∅ ∅.

Lemma demo_store_fresh : token_fresh demo_store 1 "abc" demo_capture.
Proof. split; [by apply (bool_decide_unpack _); vm_compute|]. intros p _. apply lookup_empty. Qed.

Lemma demo_store_ok : store_ok demo_store.
Proof.
  split; simpl.
  - intros i f. by rewrite lookup_empty.
  - intros i j f g. by rewrite lookup_empty.
  - intros i j f g. by rewrite lookup_empty.
  - intros pid p [<- <-]%lookup_singleton_Some. reflexivity.
  - intros pid p [<- <-]%lookup_singleton_Some. done.
Qed.

(** The row of the default layout holds the bare name. *)
Example demo_row_is_relative :
  fr_file_path <$> (s_frames (write 1 demo_capture origin_captured None None false None "abc" no_fault
     demo_store).2 !! 1) = Some (ascii_text "abc.jpg").
Proof. reflexivity. Qed.

Lemma write_keeps_store_sound_witness :
  store_ok (write 1 demo_capture origin_captured None None false None "abc" crash_before_commit
              demo_store).2.
Proof.
  apply (write_keeps_store_sound demo_store 1 demo_capture origin_captured None None false None
           "abc" crash_before_commit); [exact demo_store_fresh|exact demo_store_ok].
Defined.

Lemma write_effect_witness :
  let w := MkWritten 1 1 (ascii_text "/data/frames/1/abc.jpg") 1 (Some 2) in
  let st' := (write 1 demo_capture origin_captured None None false None "abc" no_fault
                demo_store).2 in
  ∃ p, s_projects demo_store !! 1 = Some p ∧ w_file_path w = frame_path demo_store 1 p "abc" demo_capture ∧
    s_frames demo_store !! w_frame_id w = None ∧
    (∀ i f, s_frames demo_store !! i = Some f → fr_project_id f = 1 →
       fr_sequence_index f < w_sequence_index w) ∧
    w_project_frame_count w = default 0 (p_frame_count p) + 1 ∧
    w_project_max_frame_count w = p_max_frame_count p ∧
    (∃ row, s_frames st' = <[w_frame_id w := row]> (s_frames demo_store) ∧ fr_project_id row = 1 ∧
       fr_sequence_index row = w_sequence_index w ∧ row_file st' row = w_file_path w) ∧
    s_files st' = <[w_file_path w := cf_image_bytes demo_capture]> (s_files demo_store) ∧
    (∀ pid', pid' ≠ 1 → s_projects st' !! pid' = s_projects demo_store !! pid').
Proof.
  apply (write_effect demo_store 1 demo_capture origin_captured None None false None "abc" no_fault
           (written (MkWritten 1 1 (ascii_text "/data/frames/1/abc.jpg") 1 (Some 2)))).
  - exact demo_store_fresh.
  - exact demo_store_ok.
  - vm_compute. reflexivity.
Defined.
