(* ===== verification/DiskMonitor.v ===== *)
(** * The disk-space gate: storage/monitor.py

    A throttled, hysteresis-latched free-space gate, one latch per volume.  A
    path is its components, leaf first, so that the parent of a path is its
    tail; which paths exist and what the probes read is given at each call. *)

From Stdlib Require Import SpecFloat QArith.
From S2P Require Import Prelude PyTime Env.
From stdpp Require Import options.
Local Open Scope Z_scope.

Definition path : Type := list string.

(** [_nearest_existing]: the root answers for itself. *)
Fixpoint nearest_existing (exists_ : path → bool) (p : path) : path :=
  if exists_ p then p
  else match p with
       | [] => []
       | _ :: parent => nearest_existing exists_ parent
       end.

Record VolumeState := MkVolume {
  v_last_checked_at : Z;
  v_free_bytes : Z;
  v_total_bytes : Z;
  v_paused : bool;
}.

Record DiskSpaceMonitor := MkMonitor {
  m_low_bytes : Z;
  m_low_percent : float;
  m_resume_bytes : Z;
  m_resume_percent : float;
  m_check_interval : Q;
  m_volumes : gmap path VolumeState;
}.

(** [DiskSpaceMonitor.__init__] *)
Definition new_monitor (low_bytes : Z) (low_percent : float) (resume_bytes : Z)
    (resume_percent : float) (check_interval : Q) : result DiskSpaceMonitor :=
  if resume_bytes <? low_bytes then Raise (ValueError "resume_watermark_bytes")
  else if SFltb resume_percent low_percent then Raise (ValueError "resume_watermark_percent")
  else Ok (MkMonitor low_bytes low_percent resume_bytes resume_percent check_interval ∅).

(** [free / total * 100.0] in binary64 (sizes below [2^53] bytes convert exactly). *)
Definition free_percent (free total : Z) : float :=
  if total >? 0
  then SFmul 53 1024 (SFdiv 53 1024 (float_of_Z free) (float_of_Z total)) (float_of_Z 100)
  else S754_zero false.

(** The two conditions of [_decide]. *)
Definition above_resume (m : DiskSpaceMonitor) (free total : Z) : bool :=
  (free >? m_resume_bytes m) && SFltb (m_resume_percent m) (free_percent free total).
Definition below_low (m : DiskSpaceMonitor) (free total : Z) : bool :=
  (free <? m_low_bytes m) || SFltb (free_percent free total) (m_low_percent m).

(** [_decide] *)
Definition decide_paused (m : DiskSpaceMonitor) (free total : Z) (prior_paused : bool) : bool :=
  if prior_paused then negb (above_resume m free total) else below_low m free total.

(** [_is_stale] *)
Definition is_stale (m : DiskSpaceMonitor) (v : VolumeState) (now : Z) : bool :=
  Qle_bool (m_check_interval m)
    (Qdiv (inject_Z (now - v_last_checked_at v)) (inject_Z SECOND)).

(** [is_capture_allowed] *)
Definition is_capture_allowed (exists_ : path → bool) (get_free get_total : path → Z)
    (m : DiskSpaceMonitor) (p : path) (moment : Z) : bool * DiskSpaceMonitor :=
  let key := nearest_existing exists_ p in
  let state := m_volumes m !! key in
  match state with
  | Some v =>
      if negb (is_stale m v moment) then (negb (v_paused v), m)
      else
        let free := get_free key in
        let total := get_total key in
        let paused := decide_paused m free total (v_paused v) in
        (negb paused,
         MkMonitor (m_low_bytes m) (m_low_percent m) (m_resume_bytes m) (m_resume_percent m)
           (m_check_interval m) (<[key := MkVolume moment free total paused]> (m_volumes m)))
  | None =>
      let free := get_free key in
      let total := get_total key in
      let paused := decide_paused m free total false in
      (negb paused,
       MkMonitor (m_low_bytes m) (m_low_percent m) (m_resume_bytes m) (m_resume_percent m)
         (m_check_interval m) (<[key := MkVolume moment free total paused]> (m_volumes m)))
  end.

(** [pause_state] *)
Definition pause_state (exists_ : path → bool) (m : DiskSpaceMonitor) (p : path) : bool :=
  match m_volumes m !! nearest_existing exists_ p with
  | Some v => v_paused v
  | None => false
  end.

(** ** Order of binary64 values *)
Lemma SFltb_trans (x y z : float) :
  SFltb x y = true → SFltb y z = true → SFltb x z = true.
Proof.
  unfold SFltb, SFcompare.
  destruct x as [[]|[]| |[] mx ex], y as [[]|[]| |[] my ey], z as [[]|[]| |[] mz ez]; try done;
    destruct (Z.compare_spec ex ey); try done; destruct (Z.compare_spec ey ez); try done;
    destruct (Z.compare_spec ex ez); try done; try lia;
    change (Pos.compare_cont Eq) with Pos.compare;
    destruct (Pos.compare_spec mx my); try done; destruct (Pos.compare_spec my mz); try done;
    destruct (Pos.compare_spec mx mz); try done; lia.
Qed.

(** ** Hysteresis *)

Section calls.
Context (exists_ : path → bool) (get_free get_total : path → Z).
Context (m : DiskSpaceMonitor) (p : path) (now : Z).

Local Abbreviation key := (nearest_existing exists_ p).
Local Abbreviation reading_free := (get_free key).
Local Abbreviation reading_total := (get_total key).

(** The call probes. *)
Definition probes : bool :=
  match m_volumes m !! key with Some v => is_stale m v now | None => true end.

Lemma allowed_unfold :
  let r := is_capture_allowed exists_ get_free get_total m p now in
  r.1 = negb (pause_state exists_ r.2 p) ∧
  pause_state exists_ r.2 p =
    (if probes then decide_paused m reading_free reading_total (pause_state exists_ m p)
     else pause_state exists_ m p) ∧
  (probes = false → r.2 = m) ∧
  (∀ k, k ≠ key → m_volumes r.2 !! k = m_volumes m !! k).
Proof.
  cbv zeta. unfold is_capture_allowed, pause_state, probes.
  destruct (m_volumes m !! key) as [v|] eqn:Hv.
  - destruct (is_stale m v now); cbn [negb fst snd m_volumes]; [|by rewrite Hv].
    rewrite lookup_insert_eq. split_and!; [done..|]. intros k Hk. by rewrite lookup_insert_ne.
  - cbn [fst snd m_volumes]. rewrite lookup_insert_eq. split_and!; [done..|].
    intros k Hk. by rewrite lookup_insert_ne.
Qed.
End calls.

(** The gate answers from its latch, and the latch moves only for cause.  A
    call answers the latch it leaves behind; a call within the throttle interval
    of the last probe reads no probe and changes nothing; a call that probes
    closes an open gate exactly when the reading is below one of the low
    watermarks, and reopens a closed one exactly when it is above both resume
    watermarks; other volumes keep their state. *)
Theorem gate_moves_for_cause (exists_ : path → bool) (get_free get_total : path → Z)
    (m : DiskSpaceMonitor) (p : path) (now : Z) :
  let key := nearest_existing exists_ p in
  let r := is_capture_allowed exists_ get_free get_total m p now in
  r.1 = negb (pause_state exists_ r.2 p) ∧
  (probes exists_ m p now = false → r.2 = m) ∧
  (probes exists_ m p now = true → pause_state exists_ m p = false →
     pause_state exists_ r.2 p = below_low m (get_free key) (get_total key)) ∧
  (probes exists_ m p now = true → pause_state exists_ m p = true →
     pause_state exists_ r.2 p = negb (above_resume m (get_free key) (get_total key))) ∧
  (∀ k, k ≠ key → m_volumes r.2 !! k = m_volumes m !! k).
Proof.
  cbv zeta. destruct (allowed_unfold exists_ get_free get_total m p now) as (H1 & H2 & H3 & H4).
  split_and!; [done|done|..|done].
  - intros Hp Hl. by rewrite H2, Hp, Hl.
  - intros Hp Hl. by rewrite H2, Hp, Hl.
Qed.

(** ** No flapping *)

(** A reading that triggers neither edge. *)
Definition in_band (m : DiskSpaceMonitor) (free total : Z) : bool :=
  negb (below_low m free total) && negb (above_resume m free total).

(** A call: the probes' readings at its time, and the time. *)
Definition calls (exists_ : path → bool) (p : path) (m : DiskSpaceMonitor)
    (l : list ((path → Z) * (path → Z) * Z)) : DiskSpaceMonitor :=
  foldl (λ m c, (is_capture_allowed exists_ c.1.1 c.1.2 m p c.2).2) m l.

Lemma settings_kept exists_ get_free get_total m p now :
  let m' := (is_capture_allowed exists_ get_free get_total m p now).2 in
  m_low_bytes m' = m_low_bytes m ∧ m_low_percent m' = m_low_percent m ∧
  m_resume_bytes m' = m_resume_bytes m ∧ m_resume_percent m' = m_resume_percent m ∧
  m_check_interval m' = m_check_interval m.
Proof. unfold is_capture_allowed. repeat case_match; done. Qed.

Lemma decide_same_settings m m' free total b :
  m_low_bytes m' = m_low_bytes m → m_low_percent m' = m_low_percent m →
  m_resume_bytes m' = m_resume_bytes m → m_resume_percent m' = m_resume_percent m →
  in_band m' free total = in_band m free total ∧
  decide_paused m' free total b = decide_paused m free total b.
Proof.
  unfold in_band, decide_paused, below_low, above_resume. intros -> -> -> ->. done.
Qed.

(** No flapping.  While every reading stays between the watermarks (not below
    a low one, not above both resume ones), any number of calls, at any times,
    leave the gate as it was. *)
Theorem gate_does_not_flap (exists_ : path → bool) (p : path) (m : DiskSpaceMonitor)
    (l : list ((path → Z) * (path → Z) * Z)) :
  let key := nearest_existing exists_ p in
  Forall (λ c, in_band m (c.1.1 key) (c.1.2 key) = true) l →
  pause_state exists_ (calls exists_ p m l) p = pause_state exists_ m p.
Proof.
  cbv zeta. unfold calls. revert m.
  induction l as [|[[gf gt] now] l IH]; intros m Hall; [done|].
  apply Forall_cons in Hall as [Hband Hall]. cbn [foldl fst snd] in *.
  destruct (settings_kept exists_ gf gt m p now) as (Hs1 & Hs2 & Hs3 & Hs4 & _).
  rewrite IH.
  - destruct (allowed_unfold exists_ gf gt m p now) as (_ & -> & _).
    destruct (probes _ _ _ _); [|done].
    unfold in_band in Hband. apply andb_true_iff in Hband as [Hb1%negb_true_iff Hb2].
    unfold decide_paused. by destruct (pause_state exists_ m p).
  - eapply Forall_impl; [exact Hall|]. intros c Hc. cbv beta in *.
    by rewrite (proj1 (decide_same_settings m _ _ _ true Hs1 Hs2 Hs3 Hs4)).
Qed.

(** The constructor's check makes the band real.  In a monitor the
    constructor accepted, no reading triggers both edges, so deciding again on
    the same reading never reverses the decision. *)
Theorem gate_decision_stable (low_bytes : Z) (low_percent : float) (resume_bytes : Z)
    (resume_percent : float) (check_interval : Q) (m : DiskSpaceMonitor)
    (free total : Z) (prior : bool) :
  new_monitor low_bytes low_percent resume_bytes resume_percent check_interval = Ok m →
  below_low m free total && above_resume m free total = false ∧
  decide_paused m free total (decide_paused m free total prior) = decide_paused m free total prior.
Proof.
  unfold new_monitor. destruct (Z.ltb_spec resume_bytes low_bytes); [done|].
  destruct (SFltb resume_percent low_percent) eqn:Hp; [done|]. intros [= <-].
  set (m := MkMonitor _ _ _ _ _ _).
  assert (below_low m free total && above_resume m free total = false) as Hdis.
  { unfold below_low, above_resume; simpl. rewrite Z.gtb_ltb.
    destruct (Z.ltb_spec free low_bytes), (Z.ltb_spec resume_bytes free); simpl; try done; try lia.
    destruct (SFltb (free_percent free total) low_percent) eqn:Hlow; [|done]. simpl.
    destruct (SFltb resume_percent (free_percent free total)) eqn:Hres; [|done].
    by rewrite (SFltb_trans _ _ _ Hres Hlow) in Hp. }
  split; [done|]. unfold decide_paused. destruct prior.
  - destruct (above_resume m free total); simpl; [|done]. by rewrite andb_true_r in Hdis.
  - destruct (below_low m free total) eqn:Hb; [|done]. simpl in Hdis. by rewrite Hdis.
Qed.

(** ** Witnesses *)
Definition demo_monitor : DiskSpaceMonitor :=
  MkMonitor 1000 (float_of_Z 5) 2000 (float_of_Z 8) (30 # 1)%Q ∅.

Lemma gate_does_not_flap_witness :
  pause_state (λ _, true) (calls (λ _, true) ["frames"] demo_monitor
    [((λ _, 1500), (λ _, 10000), 0); ((λ _, 1999), (λ _, 20000), 40 * SECOND)]) ["frames"]
  = pause_state (λ _, true) demo_monitor ["frames"].
Proof.
  apply (gate_does_not_flap (λ _, true) ["frames"] demo_monitor).
  repeat constructor.
Defined.

Lemma gate_decision_stable_witness :
  below_low demo_monitor 1500 10000 && above_resume demo_monitor 1500 10000 = false ∧
  decide_paused demo_monitor 1500 10000 (decide_paused demo_monitor 1500 10000 true)
    = decide_paused demo_monitor 1500 10000 true.
Proof.
  apply (gate_decision_stable 1000 (float_of_Z 5) 2000 (float_of_Z 8) (30 # 1)%Q demo_monitor).
  reflexivity.
Defined.
