(* ===== verification/Runner.v ===== *)
(** * The capture runner: one project's loop in capture/supervisor.py

    [plan_next] and the grid arithmetic are the code's pure planning functions;
    [run_cycle] is one cycle of the loop, with the schedule gate, the disk gate,
    the exact-time anchors, the frame cap, the capture and its bookkeeping
    composed as the code composes them.

    Monotonic readings and durations in seconds are rationals ([Q]) where the
    code has floats; instants are UTC microseconds.  What the camera, the clock
    and the random generator do in a cycle is its [CycleInputs].  The camera
    health book, which the loop also feeds, is the subject of [CameraHealth]. *)

From Stdlib Require Import SpecFloat QArith Qround Qminmax.
From S2P Require Import Prelude PyTime PyVal Env Schedule Anchors.
From S2P Require Import AnchorsFacts NextDue Cadence FireLog FrameWriter DiskMonitor.
From stdpp Require Import options.
Local Open Scope Z_scope.

(** ** Planning *)
Inductive action := act_capture | act_wait.
Record Decision := MkPlan {
  pl_action : action;
  pl_sleep_seconds : Q;
  pl_next_retry_at : option Z;
}.

(** The [timedelta(seconds=...)] constructor, which
    rounds to whole microseconds, ties to even. *)
Definition timedelta_seconds (q : Q) : Z :=
  let x := Qmult q (inject_Z SECOND) in
  let f := Qfloor x in
  let r := Qminus x (inject_Z f) in
  match Qcompare r (1 # 2) with
  | Lt => f
  | Gt => f + 1
  | Eq => if Z.even f then f else f + 1
  end.

(** [_seconds_until] *)
Definition seconds_until (when : option Z) (now : Z) (dflt : Q) : Q :=
  match when with
  | None => dflt
  | Some w => Qmax 0 (total_seconds (w - now))
  end.

(** [_retry_wall] *)
Definition retry_wall (now : Z) (now_mono : Q) (next_retry_mono : option Q) : option Z :=
  match next_retry_mono with
  | None => None
  | Some r => if Qle_bool r now_mono then None
              else Some (now + timedelta_seconds (Qminus r now_mono))
  end.

(** [_plan_next] *)
Definition plan_next (now : Z) (is_open : bool) (next_change : option Z) (interval : option Q)
    (max_idle_sleep now_mono : Q) (next_due_mono next_retry_mono : option Q)
    (next_wake : option Z) : Decision :=
  let until_change := seconds_until next_change now max_idle_sleep in
  let until_wake := seconds_until next_wake now max_idle_sleep in
  if negb is_open || match interval with None => true | Some _ => false end then
    MkPlan act_wait (Qmin (Qmin until_change until_wake) max_idle_sleep)
      (retry_wall now now_mono next_retry_mono)
  else
    let due_mono := match next_retry_mono with Some r => Some r | None => next_due_mono end in
    let due_in := match due_mono with None => 0%Q | Some d => Qmax 0 (Qminus d now_mono) end in
    if Qle_bool due_in 0 then MkPlan act_capture 0 None
    else
      MkPlan act_wait (Qmin (Qmin (Qmin due_in until_change) until_wake) max_idle_sleep)
        (retry_wall now now_mono next_retry_mono).

(** [_advance_due] *)
Definition advance_due (due : option Q) (interval now_mono : Q) : Q :=
  let due := default now_mono due in
  if negb (Qle_bool due now_mono) then due
  else
    let missed := Qfloor (Qdiv (Qminus now_mono due) interval) + 1 in
    Qplus due (Qmult (inject_Z missed) interval).

(** [_retry_instant] *)
Definition retry_instant (now_mono delay : Q) (next_due_mono : option Q) : Q :=
  let retry := Qplus now_mono delay in
  match next_due_mono with
  | Some d => Qmin retry d
  | None => retry
  end.

(** [_backoff_delay]; [jitter] is what [rng.uniform(-f, f)] draws. *)
Definition backoff_delay (attempt : Z) (base maximum jitter : Q) (saturate : bool) : Q :=
  let exponent := Z.max 0 (attempt - 1) in
  let raw := if saturate then maximum else Qmult base (inject_Z (2 ^ exponent)) in
  let capped := Qmin raw maximum in
  Qmax 0 (Qmult capped (Qplus 1 jitter)).

(** [_campaign_end_reason] *)
Inductive end_reason := reached_end_date | reached_frame_count.
Definition campaign_end_reason (now : Z) (end_date : option Z) (frame_count : Z)
    (max_frame_count : option Z) : option end_reason :=
  if match end_date with Some e => now >=? e | None => false end then Some reached_end_date
  else if match max_frame_count with Some m => frame_count >=? m | None => false end
  then Some reached_frame_count
  else None.

(** ** A project's live state *)
Inductive run_state := rs_idle | rs_running | rs_error | rs_stopped.
Inductive pause_reason := pr_window | pr_low_disk.
#[export] Instance run_state_eq_dec : EqDecision run_state.
Proof. solve_decision. Defined.
#[export] Instance pause_reason_eq_dec : EqDecision pause_reason.
Proof. solve_decision. Defined.

(** [CaptureState]: the fields the cycle reads and writes. *)
Record CaptureState := MkState {
  cs_state : run_state;
  cs_last_success_at : option Z;
  cs_last_error_at : option Z;
  cs_last_error : option string;
  cs_frames_captured : Z;
  cs_attempt_count : Z;
  cs_next_retry_at : option Z;
  cs_frozen_frame_run_count : Z;
  cs_last_frame_hash : option string;
  cs_last_capture_at : option Z;
  cs_pause_reason : option pause_reason;
  cs_next_due_mono : option Q;
  cs_next_retry_mono : option Q;
  cs_live_max_frame_count : option Z;
  cs_live_cap_read : bool;
}.
Definition initial_state : CaptureState :=
  MkState rs_idle None None None 0 0 None 0 None None None None None None false.

(** [CaptureTarget]: what the loop reads of its launch-time snapshot. *)
Record CaptureTarget := MkTarget {
  t_project_id : Z;
  t_interval_seconds : option Z;
  t_schedule : option (list (string * pyval));
  t_latitude : option float;
  t_longitude : option float;
  t_start_date : option Z;
  t_max_frame_count : option Z;
  t_exact_time_anchors : pyval;
  t_active_since : option Z;
  t_volume_path : path;
  t_stream_id : option string;
}.
Definition anchor_target (t : CaptureTarget) : AnchorTarget :=
  MkAnchorTarget (t_project_id t) (t_exact_time_anchors t) (t_schedule t)
    (t_latitude t) (t_longitude t) (t_active_since t).

(** [_live_frame_cap] *)
Definition live_frame_cap (t : CaptureTarget) (s : CaptureState) : option Z :=
  if cs_live_cap_read s then cs_live_max_frame_count s else t_max_frame_count t.

(** The capture settings the cycle reads. *)
Record CaptureSettings := MkSettings {
  set_backoff_base : Q;
  set_backoff_max : Q;
  set_frozen_frame_enabled : bool;
  set_frozen_frame_threshold : Z;
  set_max_idle_sleep : Q;
}.

(** Events of the loop. *)
Inductive runner_event :=
  | rev_low_disk (project : Z)
  | rev_disk_recovered (project : Z)
  | rev_frozen (project : Z) (identical_frames : Z)
  | rev_campaign_ended (project : Z) (reason : end_reason)
  | rev_runner_error (project : Z) (message : string).

(** The database, the disk monitor, the fire log and the events. *)
Record World := MkWorld {
  wd_store : Store;
  wd_monitor : DiskSpaceMonitor;
  wd_sup : Supervisor;
  wd_events : list runner_event;
}.
Definition emit (e : runner_event) (w : World) : World :=
  MkWorld (wd_store w) (wd_monitor w) (wd_sup w) (wd_events w ++ [e]).

(** What one cycle meets. *)
Inductive capture_result :=
  | cap_frame (frame : CapturedFrame) (token digest : string) (flt : fault)
  | cap_error (auth : bool) (text : string).
(** What can fail once the frame is stored: the hash of the frozen-frame check, or the
    write of its event; [text] is what the failure is recorded as. *)
Inductive report_fault := rf_none | rf_hash (text : string) | rf_event (text : string).
(** A call of the writer by another path: an anchor, event or manual capture, an
    import. *)
Record FrameWrite := MkFrameWrite {
  fw_captured : CapturedFrame;
  fw_origin : frame_origin;
  fw_timestamp : option Z;
  fw_stream_id : option string;
  fw_inferred : bool;
  fw_reason : option string;
  fw_token : string;
}.
Record CycleInputs := MkInputs {
  ci_now : Z;                (** the clock at the top of the cycle *)
  ci_plan_mono : Q;          (** the monotonic reading of the planning step *)
  ci_done_now : Z;           (** the clock and the monotonic readings after the attempt *)
  ci_due_mono : Q;
  ci_fail_mono : Q;
  ci_jitter : Q;             (** the backoff jitter drawn *)
  ci_exists : path → bool;   (** the file system as the disk gate sees it *)
  ci_free : path → Z;
  ci_total : path → Z;
  ci_wall : Z;
  ci_fresh : nat → string;
  ci_outcomes : AnchorDecision → attempt_outcome;
  ci_anchor_frames : list FrameWrite;
                             (** the frames its anchor captures wrote: any list of them, whatever
                                 the outcomes above say *)
  ci_capture : capture_result;
  ci_other_frames : list FrameWrite;
                             (** the frames other paths wrote between the cap guard and the
                                 write of the capture *)
  ci_report : report_fault;
  ci_guard_fault : option pyexc;  (** the read of the cap guard fails *)
  ci_end_fault : option pyexc;    (** the write of [_end_campaign] fails *)
}.

(** ** Steps of a cycle *)

(** [_evaluate_disk_gate] *)
Definition evaluate_disk_gate (t : CaptureTarget) (s : CaptureState) (i : CycleInputs)
    (w : World) : bool * World :=
  let was_low := bool_decide (cs_pause_reason s = Some pr_low_disk) in
  let '(allowed, mon) :=
    is_capture_allowed (ci_exists i) (ci_free i) (ci_total i) (wd_monitor w)
      (t_volume_path t) (ci_now i) in
  let w := MkWorld (wd_store w) mon (wd_sup w) (wd_events w) in
  let now_paused := negb allowed in
  if now_paused && negb was_low then (allowed, emit (rev_low_disk (t_project_id t)) w)
  else if was_low && negb now_paused then (allowed, emit (rev_disk_recovered (t_project_id t)) w)
  else (allowed, w).

(** [_frame_cap_reached] *)
Definition frame_cap_reached (project_id : Z) (st : Store) : bool :=
  match s_projects st !! project_id with
  | Some p =>
      match p_max_frame_count p with
      | Some m => default 0 (p_frame_count p) >=? m
      | None => false
      end
  | None => false
  end.

(** [_end_campaign] *)
Definition end_campaign (project_id : Z) (reason : end_reason) (w : World) : World :=
  match s_projects (wd_store w) !! project_id with
  | None => w
  | Some p =>
      if decide (p_lifecycle p = lc_archived) then w
      else
        emit (rev_campaign_ended project_id reason)
          (MkWorld
             (MkStore (s_paths (wd_store w))
                (<[project_id := MkProject (p_frame_count p) (p_max_frame_count p) lc_archived
                                   (p_storage_path p)]> (s_projects (wd_store w)))
                (s_frames (wd_store w)) (s_files (wd_store w)))
             (wd_monitor w) (wd_sup w) (wd_events w))
  end.

(** The grid step of the loop: [float(max(1, interval_seconds))]. *)
Definition interval_of (t : CaptureTarget) : option Q :=
  (λ n, inject_Z (Z.max 1 n)) <$> t_interval_seconds t.

(** [_advance_cadence] *)
Definition advance_cadence (t : CaptureTarget) (mono : Q) (s : CaptureState) : CaptureState :=
  match interval_of t with
  | None => s
  | Some n =>
      MkState (cs_state s) (cs_last_success_at s) (cs_last_error_at s) (cs_last_error s)
        (cs_frames_captured s) (cs_attempt_count s) (cs_next_retry_at s)
        (cs_frozen_frame_run_count s) (cs_last_frame_hash s) (cs_last_capture_at s)
        (cs_pause_reason s) (Some (advance_due (cs_next_due_mono s) n mono))
        (cs_next_retry_mono s) (cs_live_max_frame_count s) (cs_live_cap_read s)
  end.

(** [_record_success], with the live cap that [_capture_once] takes from the
    written frame. *)
Definition record_success (now : Z) (live_cap : option Z) (s : CaptureState) : CaptureState :=
  MkState rs_running (Some now) (cs_last_error_at s) None (cs_frames_captured s + 1) 0 None
    (cs_frozen_frame_run_count s) (cs_last_frame_hash s) (Some now) None (cs_next_due_mono s)
    None live_cap true.

(** [_record_transient_failure] *)
Definition record_transient_failure (cfg : CaptureSettings) (now : Z) (mono jitter : Q)
    (auth : bool) (text : string) (s : CaptureState) : CaptureState :=
  let attempts := cs_attempt_count s + 1 in
  let delay := backoff_delay attempts (set_backoff_base cfg) (set_backoff_max cfg) jitter auth in
  let retry_mono := retry_instant mono delay (cs_next_due_mono s) in
  MkState rs_error (cs_last_success_at s) (Some now) (Some text) (cs_frames_captured s) attempts
    (Some (now + timedelta_seconds (Qminus retry_mono mono)))
    (cs_frozen_frame_run_count s) (cs_last_frame_hash s) (cs_last_capture_at s)
    (cs_pause_reason s) (cs_next_due_mono s) (Some retry_mono)
    (cs_live_max_frame_count s) (cs_live_cap_read s).

(** [_check_frozen_frame]; [digest] is the hash of the image.  With the error it
    raises, if it does. *)
Definition check_frozen_frame (cfg : CaptureSettings) (project_id : Z) (digest : string)
    (flt : report_fault) (s : CaptureState) (w : World) : option string * CaptureState * World :=
  if negb (set_frozen_frame_enabled cfg) then (None, s, w)
  else match flt with
  | rf_hash text => (Some text, s, w)
  | _ =>
    let run := if decide (cs_last_frame_hash s = Some digest)
               then cs_frozen_frame_run_count s + 1 else 1 in
    let set run hash :=
      MkState (cs_state s) (cs_last_success_at s) (cs_last_error_at s) (cs_last_error s)
        (cs_frames_captured s) (cs_attempt_count s) (cs_next_retry_at s) run hash
        (cs_last_capture_at s) (cs_pause_reason s) (cs_next_due_mono s) (cs_next_retry_mono s)
        (cs_live_max_frame_count s) (cs_live_cap_read s) in
    if run >=? Z.max 1 (set_frozen_frame_threshold cfg)
    then match flt with
         | rf_event text => (Some text, set 0 None, w)
         | _ => (None, set 0 None, emit (rev_frozen project_id run) w)
         end
    else (None, set run (Some digest), w)
  end.

(** [_mark_waiting] *)
Definition mark_waiting (schedule_open disk_ok : bool) (s : CaptureState) : CaptureState :=
  let reason := if negb schedule_open then Some pr_window
                else if negb disk_ok then Some pr_low_disk else None in
  let st := if decide (cs_state s = rs_error) then rs_error
            else if schedule_open && disk_ok then rs_running else rs_idle in
  MkState st (cs_last_success_at s) (cs_last_error_at s) (cs_last_error s)
    (cs_frames_captured s) (cs_attempt_count s) (cs_next_retry_at s)
    (cs_frozen_frame_run_count s) (cs_last_frame_hash s) (cs_last_capture_at s)
    reason (cs_next_due_mono s) (cs_next_retry_mono s)
    (cs_live_max_frame_count s) (cs_live_cap_read s).

Definition clear_pause (s : CaptureState) : CaptureState :=
  MkState (cs_state s) (cs_last_success_at s) (cs_last_error_at s) (cs_last_error s)
    (cs_frames_captured s) (cs_attempt_count s) (cs_next_retry_at s)
    (cs_frozen_frame_run_count s) (cs_last_frame_hash s) (cs_last_capture_at s)
    None (cs_next_due_mono s) (cs_next_retry_mono s)
    (cs_live_max_frame_count s) (cs_live_cap_read s).
Definition set_state (st : run_state) (s : CaptureState) : CaptureState :=
  MkState st (cs_last_success_at s) (cs_last_error_at s) (cs_last_error s)
    (cs_frames_captured s) (cs_attempt_count s) (cs_next_retry_at s)
    (cs_frozen_frame_run_count s) (cs_last_frame_hash s) (cs_last_capture_at s)
    (cs_pause_reason s) (cs_next_due_mono s) (cs_next_retry_mono s)
    (cs_live_max_frame_count s) (cs_live_cap_read s).

(** The frames of the other paths go through the same writer. *)
Definition write_frames (t : CaptureTarget) (frames : list FrameWrite) (st : Store) : Store :=
  foldl (λ st f, (write (t_project_id t) (fw_captured f) (fw_origin f) (fw_timestamp f)
                    (fw_stream_id f) (fw_inferred f) (fw_reason f) (fw_token f) no_fault st).2)
    st frames.

(** How an attempt ends: the frame count after the write, a contained failure (before
    or after the frame was stored), or the end of the process or of the task during the
    write. *)
Inductive attempt_end := ae_count (n : Z) | ae_failed | ae_died.

(** [_attempt_capture] with [_capture_once] (camera work, write, bookkeeping). *)
Definition attempt_capture (cfg : CaptureSettings) (t : CaptureTarget) (i : CycleInputs)
    (s : CaptureState) (w : World) : attempt_end * CaptureState * World :=
  let s := clear_pause s in
  let w := MkWorld (write_frames t (ci_other_frames i) (wd_store w)) (wd_monitor w) (wd_sup w)
             (wd_events w) in
  let fail auth text s w :=
    (ae_failed,
     record_transient_failure cfg (ci_done_now i) (ci_fail_mono i) (ci_jitter i) auth text
       (advance_cadence t (ci_due_mono i) s), w) in
  match ci_capture i with
  | cap_error auth text => fail auth text s w
  | cap_frame frame token digest flt =>
      let '(o, store) :=
        write (t_project_id t) frame origin_captured None (t_stream_id t) false None
          token flt (wd_store w) in
      let w := MkWorld store (wd_monitor w) (wd_sup w) (wd_events w) in
      match o with
      | written wf =>
          let s := record_success (ci_done_now i) (w_project_max_frame_count wf) s in
          let '(error, s, w) := check_frozen_frame cfg (t_project_id t) digest (ci_report i) s w in
          match error with
          | Some text => fail false text s w
          | None => (ae_count (w_project_frame_count wf), advance_cadence t (ci_due_mono i) s, w)
          end
      | write_raised => fail false "frame write failed" s w
      | write_crashed => (ae_died, s, w)
      end
  end.

(** The runner's [last_error] and [last_error_at] live in one object, which the
    anchor path also writes ([note_anchor_failure]): it is lent to the anchor
    evaluation and read back. *)
Definition lend_notes (t : CaptureTarget) (s : CaptureState) (sup : Supervisor) : Supervisor :=
  MkSup (sup_log sup)
    (<[t_project_id t := (cs_last_error s, cs_last_error_at s)]> (sup_notes sup)).
Definition take_notes (t : CaptureTarget) (sup : Supervisor) (s : CaptureState) : CaptureState :=
  match sup_notes sup !! t_project_id t with
  | None => s
  | Some (error, at_) =>
      MkState (cs_state s) (cs_last_success_at s) at_ error (cs_frames_captured s)
        (cs_attempt_count s) (cs_next_retry_at s) (cs_frozen_frame_run_count s)
        (cs_last_frame_hash s) (cs_last_capture_at s) (cs_pause_reason s) (cs_next_due_mono s)
        (cs_next_retry_mono s) (cs_live_max_frame_count s) (cs_live_cap_read s)
  end.

(** ** The cycle *)
Inductive cycle_end :=
  | ce_sleep (seconds : Q)
  | ce_stop                  (** the campaign ended: the runner exits *)
  | ce_raised (e : pyexc)    (** contained by the loop *)
  | ce_died.

Section cycle.
Context `{CaptureEnv} (cfg : CaptureSettings).
(** [_anchor_jitter]: a fixed delay per project, drawn from a seeded generator. *)
Context (anchor_jitter : Z → Z).

Definition max_idle : Q := Qmax 1 (set_max_idle_sleep cfg).

(** The gate of the cycle: the schedule (always open when its evaluation fails)
    composed with the campaign start. *)
Definition schedule_gate (schedule : Schedule) (t : CaptureTarget) (now : Z) : bool * option Z :=
  let '(open, change) :=
    result_default (true, None) (next_transition schedule now (t_latitude t) (t_longitude t)) in
  match t_start_date t with
  | Some start =>
      if now <? start
      then (false, Some (match change with None => start | Some c => Z.min c start end))
      else (open, change)
  | None => (open, change)
  end.

(** [_run_cycle] after the anchor evaluation: the cap guard, the plan, the capture
    or the wait. *)
Definition run_cycle_planned (t : CaptureTarget) (i : CycleInputs) (schedule_open disk_ok : bool)
    (next_change next_wake : option Z) (s : CaptureState) (w : World)
    : cycle_end * CaptureState * World :=
  let is_open := schedule_open && disk_ok in
  let stop s w :=
    match ci_end_fault i with
    | Some e => (ce_raised e, s, w)
    | None => (ce_stop, set_state rs_stopped s, end_campaign (t_project_id t) reached_frame_count w)
    end in
  let guarded := is_open && match live_frame_cap t s with Some _ => true | None => false end in
  match (if guarded then ci_guard_fault i else None) with Some e => (ce_raised e, s, w) | None =>
  if guarded && frame_cap_reached (t_project_id t) (wd_store w) then stop s w
  else
    let plan := plan_next (ci_now i) is_open next_change (interval_of t) max_idle
                  (ci_plan_mono i) (cs_next_due_mono s) (cs_next_retry_mono s) next_wake in
    match pl_action plan with
    | act_capture =>
        let '(o, s, w) := attempt_capture cfg t i s w in
        match o with
        | ae_died => (ce_died, s, w)
        | ae_failed => (ce_sleep (pl_sleep_seconds plan), s, w)
        | ae_count n =>
            if match live_frame_cap t s with Some cap => n >=? cap | None => false end
            then stop s w
            else (ce_sleep (pl_sleep_seconds plan), s, w)
        end
    | act_wait => (ce_sleep (pl_sleep_seconds plan), mark_waiting schedule_open disk_ok s, w)
    end
  end.

(** [_run_cycle].  The evaluation of the anchors can only raise on the zone of the
    schedule, before its first hop: parsed anchors have valid times. *)
Definition run_cycle (schedule : Schedule) (t : CaptureTarget) (i : CycleInputs)
    (s : CaptureState) (w : World) : cycle_end * CaptureState * World :=
  let '(schedule_open, next_change) := schedule_gate schedule t (ci_now i) in
  let '(disk_ok, w) :=
    if (schedule_open : bool) then evaluate_disk_gate t s i w else (true, w) in
  match evaluate_exact_time_anchors (ci_fresh i) (anchor_target t) (ci_now i) (ci_wall i)
          (ci_outcomes i) (lend_notes t s (wd_sup w)) with
  | Raise e => (ce_raised e, s, w)
  | Ok (wake, sup) =>
      let w := MkWorld (write_frames t (ci_anchor_frames i) (wd_store w))
                 (wd_monitor w) sup (wd_events w) in
      let next_wake := (λ x, x + anchor_jitter (t_project_id t)) <$> wake in
      run_cycle_planned t i schedule_open disk_ok next_change next_wake (take_notes t sup s) w
  end.

(** [_contain_cycle_error]: one event per distinct failure; [text] renders the
    exception. *)
Definition contain_cycle_error (text : pyexc → string) (t : CaptureTarget) (now : Z) (e : pyexc)
    (s : CaptureState) (w : World) : Q * CaptureState * World :=
  let message := text e in
  let first_of_streak := negb (bool_decide (cs_last_error s = Some message)) in
  let s' := MkState (cs_state s) (cs_last_success_at s) (Some now) (Some message)
    (cs_frames_captured s) (cs_attempt_count s) (cs_next_retry_at s)
    (cs_frozen_frame_run_count s) (cs_last_frame_hash s) (cs_last_capture_at s)
    (cs_pause_reason s) (cs_next_due_mono s) (cs_next_retry_mono s)
    (cs_live_max_frame_count s) (cs_live_cap_read s) in
  (Qmin (30 # 1) max_idle, s',
   if first_of_streak then emit (rev_runner_error (t_project_id t) message) w else w).

(** One turn of [_run_project]: the sleep before the next turn, [None] when the
    runner is over. *)
Definition run_turn (text : pyexc → string) (t : CaptureTarget) (i : CycleInputs)
    (s : CaptureState) (w : World) : option Q * CaptureState * World :=
  let '(r, s, w) := run_cycle (gate_schedule (t_schedule t)) t i s w in
  match r with
  | ce_sleep q => (Some q, s, w)
  | ce_stop | ce_died => (None, s, w)
  | ce_raised e =>
      let '(q, s, w) := contain_cycle_error text t (ci_done_now i) e s w in (Some q, s, w)
  end.
End cycle.
