(* ===== verification/RunnerFacts.v ===== *)
(** * What the capture runner guarantees

    The interval grid neither drifts nor bursts, retries never postpone a slot, a
    frame is taken only when every gate allows it, the frame cap is not overshot,
    and the loop neither oversleeps nor spins. *)

From Stdlib Require Import SpecFloat QArith Qround Qminmax Lqa.
From S2P Require Import Prelude PyTime PyVal Env Schedule ScheduleFacts Anchors.
From S2P Require Import AnchorsFacts NextDue Cadence FireLog FireLogFacts FrameWriter DiskMonitor Runner.
From stdpp Require Import options.
Local Open Scope Z_scope.

(** ** Rationals *)
Lemma Qle_bool_false (x y : Q) : Qle_bool x y = false ↔ (y < x)%Q.
Proof.
  split.
  - intros Hb. apply Qnot_le_lt. intros Hle%Qle_bool_iff. congruence.
  - intros Hlt. destruct (Qle_bool x y) eqn:Hb; [|done].
    apply Qle_bool_iff in Hb. exfalso. by apply (Qlt_not_le _ _ Hlt).
Qed.

Lemma Qmult_lt_shift (x y i : Q) : (0 < i)%Q → (x < y)%Q → (x * i < y * i)%Q.
Proof. intros. by apply Qmult_lt_compat_r. Qed.

Lemma inject_lt_le (a b : Z) : (inject_Z a < inject_Z b + 1)%Q → a ≤ b.
Proof.
  change 1%Q with (inject_Z 1). rewrite <-inject_Z_plus, <-Zlt_Qlt. lia.
Qed.

(** ** The grid *)

(** The next slot.  After an attempt at [now], the next due instant is the
    first point of the grid [due + k * interval] that lies strictly after [now]:
    on the grid (no drift by the capture's latency), in the future (missed slots
    are skipped, not made up in a burst), and no earlier grid point would do. *)
Theorem advance_due_first_slot (due : option Q) (interval now : Q) :
  (0 < interval)%Q →
  let start := default now due in
  let next := advance_due due interval now in
  (now < next)%Q ∧
  (∃ k, 0 ≤ k ∧ (next == start + inject_Z k * interval)%Q) ∧
  (∀ j, 0 ≤ j → (now < start + inject_Z j * interval)%Q →
     (next <= start + inject_Z j * interval)%Q).
Proof.
  intros Hi. cbv zeta. unfold advance_due. set (start := default now due). clearbody start.
  destruct (Qle_bool start now) eqn:Hle; cbn [negb].
  - apply Qle_bool_iff in Hle. set (x := ((now - start) / interval)%Q).
    assert (x * interval == now - start)%Q as Hx.
    { unfold x. field. intros H0. rewrite H0 in Hi. by apply Qlt_irrefl in Hi. }
    pose proof (Qfloor_le x) as Hfl. pose proof (Qlt_floor x) as Hfu.
    rewrite inject_Z_plus in *. set (f := Qfloor x) in *. change (inject_Z 1) with 1%Q in *.
    assert (0 ≤ f) as Hf.
    { apply inject_lt_le. change (inject_Z 0) with 0%Q. assert (0 <= x)%Q; [|lra].
      unfold x, Qdiv. apply Qmult_le_0_compat; [lra|]. by apply Qlt_le_weak, Qinv_lt_0_compat. }
    apply (Qmult_lt_shift _ _ _ Hi) in Hfu. split; [lra|]. split.
    + exists (f + 1). split; [lia|]. by rewrite inject_Z_plus.
    + intros j Hj Hlt. assert (f + 1 ≤ j) as Hfj.
      { apply Z.lt_pred_le. replace (Z.pred (f + 1)) with f by lia. apply Z.nle_gt. intros Hjf.
        apply (Qlt_not_le _ _ Hlt). assert (inject_Z j <= x)%Q as Hjx.
        { eapply Qle_trans; [|exact Hfl]. by rewrite <-Zle_Qle. }
        apply (Qmult_le_compat_r _ _ interval) in Hjx; [lra|lra]. }
      rewrite Zle_Qle, inject_Z_plus in Hfj. change (inject_Z 1) with 1%Q in Hfj.
      apply (Qmult_le_compat_r _ _ interval) in Hfj; [lra|lra].
  - apply Qle_bool_false in Hle. split; [done|]. split.
    + exists 0. split; [done|]. change (inject_Z 0) with 0%Q. lra.
    + intros j Hj _. rewrite Zle_Qle in Hj. change (inject_Z 0) with 0%Q in Hj.
      apply (Qmult_le_compat_r _ _ interval) in Hj; lra.
Qed.

(** ** Planning *)
Lemma Qmin3 (a b c : Q) : (Qmin (Qmin a b) c <= a)%Q ∧ (Qmin (Qmin a b) c <= b)%Q ∧
  (Qmin (Qmin a b) c <= c)%Q.
Proof.
  pose proof (Q.le_min_l (Qmin a b) c). pose proof (Q.le_min_r (Qmin a b) c).
  pose proof (Q.le_min_l a b). pose proof (Q.le_min_r a b). lra.
Qed.

Lemma Qmin_pos (a b : Q) : (0 < a)%Q → (0 < b)%Q → (0 < Qmin a b)%Q.
Proof. intros. by apply Q.min_glb_lt. Qed.
Lemma Qmin_nonneg (a b : Q) : (0 <= a)%Q → (0 <= b)%Q → (0 <= Qmin a b)%Q.
Proof. intros. by apply Q.min_glb. Qed.

Lemma seconds_until_nonneg (when : option Z) (now : Z) (d : Q) :
  (0 <= d)%Q → (0 <= seconds_until when now d)%Q.
Proof. intros. destruct when; simpl; [apply Q.le_max_l|done]. Qed.

Lemma total_seconds_pos (us : Z) : 0 < us → (0 < total_seconds us)%Q.
Proof.
  intros Hus. unfold total_seconds, Qdiv. apply Qmult_lt_0_compat; [|done].
  change 0%Q with (inject_Z 0). by rewrite <-Zlt_Qlt.
Qed.

Lemma seconds_until_pos (when : option Z) (now : Z) (d : Q) :
  (0 < d)%Q → (∀ x, when = Some x → now < x) → (0 < seconds_until when now d)%Q.
Proof.
  intros Hd Hw. destruct when as [x|]; simpl; [|done].
  eapply Qlt_le_trans; [|apply Q.le_max_r]. apply total_seconds_pos.
  specialize (Hw x eq_refl). lia.
Qed.

Lemma seconds_until_some (x now : Z) (d : Q) :
  now ≤ x → (seconds_until (Some x) now d == total_seconds (x - now))%Q.
Proof.
  intros Hx. simpl. apply Q.max_r. unfold total_seconds, Qdiv.
  apply Qmult_le_0_compat; [|done]. change 0%Q with (inject_Z 0). rewrite <-Zle_Qle. lia.
Qed.

(** The monotonic instant the interval path waits for. *)
Definition due_mono (next_due next_retry : option Q) : option Q :=
  match next_retry with Some r => Some r | None => next_due end.

(** The plan captures exactly when the gate is open, there is an interval, and
    nothing is left to wait for. *)
Lemma plan_captures now is_open change interval idle mono due retry wake :
  pl_action (plan_next now is_open change interval idle mono due retry wake) = act_capture ↔
  is_open = true ∧ is_Some interval ∧ (∀ d, due_mono due retry = Some d → (d <= mono)%Q).
Proof.
  unfold plan_next. destruct is_open; cbn [negb orb]; [|naive_solver].
  destruct interval as [n|]; [|split; [done|intros (_ & [? ?] & _); done]].
  fold (due_mono due retry). destruct (due_mono due retry) as [d|].
  - destruct (Qle_bool _ _) eqn:Hq; simpl.
    + apply Qle_bool_iff in Hq. split; [|done]. intros _. split_and!; [done|by eexists|].
      intros ? [= <-]. pose proof (Q.le_max_r 0 (d - mono)). lra.
    + apply Qle_bool_false in Hq. split; [done|]. intros (_ & _ & Hd). specialize (Hd d eq_refl).
      rewrite Q.max_l in Hq by lra. by apply Qlt_irrefl in Hq.
  - simpl. split; [|done]. intros _. split_and!; [done|by eexists|done].
Qed.

Lemma plan_sleep_bounds now is_open change interval idle mono due retry wake :
  (0 <= idle)%Q →
  let p := plan_next now is_open change interval idle mono due retry wake in
  (0 <= pl_sleep_seconds p <= idle)%Q ∧
  (pl_action p = act_wait →
     (∀ c, change = Some c → now ≤ c → pl_sleep_seconds p <= total_seconds (c - now))%Q ∧
     (∀ c, wake = Some c → now ≤ c → pl_sleep_seconds p <= total_seconds (c - now))%Q ∧
     (is_open = true → is_Some interval → ∀ d, due_mono due retry = Some d →
        pl_sleep_seconds p <= d - mono)%Q ∧
     ((0 < idle)%Q → (∀ c, change = Some c → now < c) → (∀ c, wake = Some c → now < c) →
        (0 < pl_sleep_seconds p)%Q)).
Proof.
  intros Hidle. cbv zeta. unfold plan_next.
  set (uc := seconds_until change now idle). set (uw := seconds_until wake now idle).
  assert (0 <= uc)%Q as Huc by by apply seconds_until_nonneg.
  assert (0 <= uw)%Q as Huw by by apply seconds_until_nonneg.
  assert (∀ c, change = Some c → now ≤ c → uc == total_seconds (c - now))%Q as Hc.
  { intros c -> ?. by apply seconds_until_some. }
  assert (∀ c, wake = Some c → now ≤ c → uw == total_seconds (c - now))%Q as Hw.
  { intros c -> ?. by apply seconds_until_some. }
  assert ((0 < idle)%Q → (∀ c, change = Some c → now < c) → (0 < uc)%Q) as Hpc
    by (intros; by apply seconds_until_pos).
  assert ((0 < idle)%Q → (∀ c, wake = Some c → now < c) → (0 < uw)%Q) as Hpw
    by (intros; by apply seconds_until_pos).
  clearbody uc uw. destruct (_ || _) eqn:Hno; cbn [pl_action pl_sleep_seconds].
  - pose proof (Qmin3 uc uw idle) as (H1 & H2 & H3).
    split; [split; [by repeat apply Qmin_nonneg|done]|]. intros _. split_and!.
    + intros c ??. rewrite <-(Hc c) by done. done.
    + intros c ??. rewrite <-(Hw c) by done. done.
    + intros -> [n ->]. done.
    + intros. repeat apply Qmin_pos; auto.
  - fold (due_mono due retry). destruct (due_mono due retry) as [d|]; cycle 1.
    { change (Qle_bool 0 0) with true. cbn [pl_action pl_sleep_seconds]. split; [lra|done]. }
    destruct (Qle_bool _ _) eqn:Hq; cbn [pl_action pl_sleep_seconds]; [split; [lra|done]|].
    apply Qle_bool_false in Hq. set (di := Qmax 0 (d - mono)) in *.
    assert (di == d - mono)%Q as Hdi.
    { unfold di in *. destruct (Q.max_dec 0 (d - mono)) as [He|He]; [|done].
      rewrite He in Hq. by apply Qlt_irrefl in Hq. }
    pose proof (Qmin3 (Qmin di uc) uw idle) as (H1 & H2 & H3).
    pose proof (Q.le_min_l di uc). pose proof (Q.le_min_r di uc).
    split; [split; [|done]|].
    { repeat apply Qmin_nonneg; try done. lra. }
    intros _. split_and!.
    + intros c ??. rewrite <-(Hc c) by done. lra.
    + intros c ??. rewrite <-(Hw c) by done. lra.
    + intros _ _ ? [= <-]. lra.
    + intros. repeat apply Qmin_pos; auto.
Qed.

(** The plan.  The loop captures exactly when the gate is open, the project
    has an interval, and the pending retry (or, without one, the grid's next slot)
    has been reached, the first frame being due at once.  Every sleep lies between
    zero and the idle ceiling; a waiting loop sleeps past neither the next change
    of the gate, nor the next anchor wake-up, nor the instant the next frame is
    due, and it never spins: when those lie in the future the sleep is positive. *)
Theorem plan_next_sound (now : Z) (is_open : bool) (change : option Z) (interval : option Q)
    (idle mono : Q) (due retry : option Q) (wake : option Z) :
  (0 <= idle)%Q →
  let p := plan_next now is_open change interval idle mono due retry wake in
  (pl_action p = act_capture ↔
     is_open = true ∧ is_Some interval ∧ (∀ d, due_mono due retry = Some d → (d <= mono)%Q)) ∧
  (0 <= pl_sleep_seconds p <= idle)%Q ∧
  (pl_action p = act_wait →
     (∀ c, change = Some c → now ≤ c → pl_sleep_seconds p <= total_seconds (c - now))%Q ∧
     (∀ c, wake = Some c → now ≤ c → pl_sleep_seconds p <= total_seconds (c - now))%Q ∧
     (is_open = true → is_Some interval → ∀ d, due_mono due retry = Some d →
        pl_sleep_seconds p <= d - mono)%Q ∧
     ((0 < idle)%Q → (∀ c, change = Some c → now < c) → (∀ c, wake = Some c → now < c) →
        (0 < pl_sleep_seconds p)%Q)).
Proof.
  intros Hidle. cbv zeta. split; [apply plan_captures|]. by apply plan_sleep_bounds.
Qed.

(** ** Backoff *)

(** The backoff stays within its bounds.  With a jitter within the configured
    fraction (at most one), the delay is never negative and never exceeds the
    ceiling plus its jitter; after a rejected login it is at least the ceiling
    less its jitter at once, and otherwise the delays before jitter double from
    the base up to the ceiling. *)
Theorem backoff_delay_bounds (attempt : Z) (base maximum jitter fraction : Q) (saturate : bool) :
  (0 <= base)%Q → (0 <= maximum)%Q → (0 <= fraction <= 1)%Q → (- fraction <= jitter <= fraction)%Q →
  let d := backoff_delay attempt base maximum jitter saturate in
  (0 <= d <= maximum * (1 + fraction))%Q ∧
  (saturate = true → maximum * (1 - fraction) <= d)%Q ∧
  (saturate = false → 1 ≤ attempt →
     d == Qmin (base * inject_Z (2 ^ (attempt - 1))) maximum * (1 + jitter))%Q.
Proof.
  intros Hb Hm Hf Hj. cbv zeta. unfold backoff_delay.
  set (raw := if saturate then maximum else _).
  assert (0 <= raw)%Q as Hraw.
  { subst raw. destruct saturate; [done|]. apply Qmult_le_0_compat; [done|].
    change 0%Q with (inject_Z 0). rewrite <-Zle_Qle. lia. }
  assert (0 <= Qmin raw maximum <= maximum)%Q as [Hc0 Hc1].
  { split; [by apply Qmin_nonneg|apply Q.le_min_r]. }
  set (capped := Qmin raw maximum) in *.
  assert (0 <= capped * (1 + jitter))%Q as Hpos by (apply Qmult_le_0_compat; lra).
  rewrite (Q.max_r _ _ Hpos). split_and!.
  - done.
  - apply (Qle_trans _ (maximum * (1 + jitter))).
    + apply Qmult_le_compat_r; lra.
    + rewrite !(Qmult_comm maximum). apply Qmult_le_compat_r; lra.
  - intros ->. assert (capped == maximum)%Q as ->.
    { subst capped raw. cbv iota. apply Q.min_l. apply Qle_refl. }
    rewrite !(Qmult_comm maximum). apply Qmult_le_compat_r; lra.
  - intros -> Ha. subst capped raw. cbv iota. by replace (Z.max 0 (attempt - 1)) with (attempt - 1) by lia.
Qed.

(** ** What an attempt does *)
Lemma advance_due_le (due : option Q) (interval now : Q) :
  (0 < interval)%Q →
  (now < advance_due due interval now)%Q ∧
  (advance_due due interval now <= Qmax (default now due) (now + interval))%Q.
Proof.
  intros Hi. unfold advance_due. set (start := default now due). clearbody start.
  pose proof (Q.le_max_l start (now + interval)). pose proof (Q.le_max_r start (now + interval)).
  destruct (Qle_bool start now) eqn:Hle; cbn [negb]; [|apply Qle_bool_false in Hle; lra].
  set (x := ((now - start) / interval)%Q).
  assert (x * interval == now - start)%Q as Hx.
  { unfold x. field. intros H0'. rewrite H0' in Hi. by apply Qlt_irrefl in Hi. }
  pose proof (Qfloor_le x) as Hfl. pose proof (Qlt_floor x) as Hfu.
  rewrite inject_Z_plus in *. change (inject_Z 1) with 1%Q in *.
  apply (Qmult_lt_shift _ _ _ Hi) in Hfu.
  apply (Qmult_le_compat_r _ _ interval) in Hfl; lra.
Qed.

Lemma interval_of_pos t n : interval_of t = Some n → (0 < n)%Q.
Proof.
  unfold interval_of. destruct (t_interval_seconds t) as [z|]; [|done]. intros [= <-].
  change 0%Q with (inject_Z 0). rewrite <-Zlt_Qlt. lia.
Qed.

(** The pending retry never lies beyond the next slot. *)
Definition retry_within_slot (s : CaptureState) : Prop :=
  ∀ r, cs_next_retry_mono s = Some r → ∃ d, cs_next_due_mono s = Some d ∧ (r <= d)%Q.

(** The store after an attempt: the write's, when there was one. *)
Definition attempt_store (t : CaptureTarget) (i : CycleInputs) (st : Store) : write_outcome * Store :=
  let st := write_frames t (ci_other_frames i) st in
  match ci_capture i with
  | cap_error _ _ => (write_raised, st)
  | cap_frame frame token _ flt =>
      write (t_project_id t) frame origin_captured None (t_stream_id t) false None token flt st
  end.

Lemma frozen_keeps cfg pid digest flt s w error s' w' :
  check_frozen_frame cfg pid digest flt s w = (error, s', w') →
  cs_next_due_mono s' = cs_next_due_mono s ∧ cs_next_retry_mono s' = cs_next_retry_mono s ∧
  cs_live_max_frame_count s' = cs_live_max_frame_count s ∧
  cs_live_cap_read s' = cs_live_cap_read s ∧ cs_frames_captured s' = cs_frames_captured s ∧
  cs_attempt_count s' = cs_attempt_count s ∧ wd_store w' = wd_store w.
Proof. unfold check_frozen_frame. repeat case_match; intros [= <- <- <-]; done. Qed.

(** A failure counts one more attempt, on top of none when the frame had been stored. *)
Lemma failure_effect cfg t i n auth text s :
  interval_of t = Some n →
  let s' := record_transient_failure cfg (ci_done_now i) (ci_fail_mono i) (ci_jitter i) auth text
              (advance_cadence t (ci_due_mono i) s) in
  cs_state s' = rs_error ∧
  cs_next_due_mono s' = Some (advance_due (cs_next_due_mono s) n (ci_due_mono i)) ∧
  (∃ r, cs_next_retry_mono s' = Some r ∧
     (r <= advance_due (cs_next_due_mono s) n (ci_due_mono i))%Q) ∧
  cs_attempt_count s' = cs_attempt_count s + 1.
Proof.
  intros Hn. unfold advance_cadence. rewrite Hn. simpl. split_and!; [done|done| |done].
  eexists. split; [done|]. apply Q.le_min_r.
Qed.

Lemma attempt_effect cfg t i s w n o s' w' :
  interval_of t = Some n → attempt_capture cfg t i s w = (o, s', w') →
  (attempt_store t i (wd_store w)).2 = wd_store w' ∧
  match o with
  | ae_count c => ∃ wf, (attempt_store t i (wd_store w)).1 = written wf ∧
      c = w_project_frame_count wf ∧ cs_live_cap_read s' = true ∧
      cs_live_max_frame_count s' = w_project_max_frame_count wf ∧
      cs_next_retry_mono s' = None ∧
      cs_next_due_mono s' = Some (advance_due (cs_next_due_mono s) n (ci_due_mono i)) ∧
      cs_frames_captured s' = cs_frames_captured s + 1
  | ae_failed => (attempt_store t i (wd_store w)).1 ≠ write_crashed ∧ cs_state s' = rs_error ∧
      cs_next_due_mono s' = Some (advance_due (cs_next_due_mono s) n (ci_due_mono i)) ∧
      (∃ r, cs_next_retry_mono s' = Some r ∧
         (r <= advance_due (cs_next_due_mono s) n (ci_due_mono i))%Q) ∧
      (cs_attempt_count s' = cs_attempt_count s + 1 ∨ cs_frames_captured s' = cs_frames_captured s + 1)
  | ae_died => (attempt_store t i (wd_store w)).1 = write_crashed
  end.
Proof.
  intros Hn. unfold attempt_capture, attempt_store.
  set (fail auth text s := record_transient_failure cfg (ci_done_now i) (ci_fail_mono i)
    (ci_jitter i) auth text (advance_cadence t (ci_due_mono i) s)).
  assert (∀ auth text s, cs_state (fail auth text s) = rs_error ∧
    cs_next_due_mono (fail auth text s) = Some (advance_due (cs_next_due_mono s) n (ci_due_mono i)) ∧
    (∃ r, cs_next_retry_mono (fail auth text s) = Some r ∧
       (r <= advance_due (cs_next_due_mono s) n (ci_due_mono i))%Q) ∧
    cs_attempt_count (fail auth text s) = cs_attempt_count s + 1) as Hfail
    by (intros; by apply failure_effect).
  assert (∀ auth text s, cs_frames_captured (fail auth text s) = cs_frames_captured s) as Hkeep
    by (intros; unfold fail, advance_cadence; by rewrite Hn).
  destruct (ci_capture i) as [frame token digest flt|auth text].
  - cbn [wd_store]. destruct (write _ _ _ _ _ _ _ _ _ _) as [wo store]. cbn [wd_store fst snd].
    destruct wo as [wf| |].
    + destruct (check_frozen_frame _ _ _ _ _ _) as [[[text|] s1] w1] eqn:Hf; intros [= <- <- <-];
        apply frozen_keeps in Hf as (Hd & Hr & Hm & Hc & Hfc & _ & ->); simpl in *; (split; [done|]).
      * destruct (Hfail false text s1) as (H1 & H2 & H3 & _). rewrite Hd in H2, H3.
        split_and!; [done..|]. right. rewrite <-Hfc. exact (Hkeep false text s1).
      * exists wf. unfold advance_cadence. rewrite Hn. simpl. rewrite Hd, Hr, Hm, Hc, Hfc. done.
    + intros [= <- <- <-]. split; [done|]. destruct (Hfail false "frame write failed" (clear_pause s)) as (?&?&?&?).
      split_and!; [done..|by left].
    + intros [= <- <- <-]. done.
  - intros [= <- <- <-]. split; [done|]. destruct (Hfail auth text (clear_pause s)) as (?&?&?&?).
    split_and!; [done..|by left].
Qed.

(** What a write does to the project's row. *)
Definition counted (n : Z) (p : Project) : Project :=
  MkProject (Some n) (p_max_frame_count p) (p_lifecycle p) (p_storage_path p).

Lemma write_cases pid c o ts st_id inf reason token flt st wo st' :
  write pid c o ts st_id inf reason token flt st = (wo, st') →
  match wo with
  | written wf => ∃ p, s_projects st !! pid = Some p ∧
      w_project_frame_count wf = default 0 (p_frame_count p) + 1 ∧
      w_project_max_frame_count wf = p_max_frame_count p ∧
      s_projects st' = <[pid := counted (w_project_frame_count wf) p]> (s_projects st)
  | write_raised => s_projects st' = s_projects st ∧ s_frames st' = s_frames st
  | write_crashed => s_projects st' = s_projects st ∧ s_frames st' = s_frames st ∨
      ∃ p, s_projects st !! pid = Some p ∧
      s_projects st' = <[pid := counted (default 0 (p_frame_count p) + 1) p]> (s_projects st)
  end.
Proof.
  unfold write. destruct (s_projects st !! pid) as [p|] eqn:Hp; [|by intros [= <- <-]].
  destruct flt; intros [= <- <-]; cbn; try done; try (by left); [by exists p|]. right. by exists p.
Qed.

(** The frames of the other paths raise the count by their number and leave the cap. *)
Lemma write_frames_counts t frames st p :
  s_projects st !! t_project_id t = Some p →
  ∃ p', s_projects (write_frames t frames st) !! t_project_id t = Some p' ∧
    default 0 (p_frame_count p') = default 0 (p_frame_count p) + Z.of_nat (length frames) ∧
    p_max_frame_count p' = p_max_frame_count p ∧ p_lifecycle p' = p_lifecycle p.
Proof.
  revert st p. induction frames as [|f frames IH]; intros st p Hp; [exists p; simpl; split_and!; [done|lia|done..]|].
  cbn [write_frames foldl]. destruct (write _ _ _ _ _ _ _ _ _ st) as [wo st1] eqn:Hw.
  pose proof Hw as Hc. apply write_cases in Hc. unfold write in Hw. rewrite Hp in Hw. injection Hw as <- _.
  destruct Hc as (q & Hq & _ & _ & Hst). rewrite Hp in Hq. injection Hq as <-.
  destruct (IH st1 (counted (default 0 (p_frame_count p) + 1) p)) as (p' & Hp' & Hn & Hm & Hl).
  { by rewrite Hst, lookup_insert_eq. }
  exists p'. cbn in *. split_and!; [done| |done..]. rewrite Hn. lia.
Qed.

Lemma end_campaign_frames pid reason w : s_frames (wd_store (end_campaign pid reason w)) = s_frames (wd_store w).
Proof. unfold end_campaign. by repeat case_match. Qed.

(** ** The cycle *)
Section cycle.
Context `{CaptureEnv} (cfg : CaptureSettings) (anchor_jitter : Z → Z).
Context (schedule : Schedule) (t : CaptureTarget) (i : CycleInputs).

(** The store as the planning step finds it: the anchors of the cycle have been
    fired. *)
Definition planned_store (w : World) : Store :=
  write_frames t (ci_anchor_frames i) (wd_store w).

(** The disk gate's answer, when it is asked. *)
Definition disk_allows (w : World) : bool :=
  (is_capture_allowed (ci_exists i) (ci_free i) (ci_total i) (wd_monitor w)
     (t_volume_path t) (ci_now i)).1.

Lemma disk_gate_effect s w b w' :
  evaluate_disk_gate t s i w = (b, w') →
  b = disk_allows w ∧ wd_store w' = wd_store w ∧ wd_sup w' = wd_sup w.
Proof.
  unfold evaluate_disk_gate, disk_allows. destruct (is_capture_allowed _ _ _ _ _ _) as [a mon].
  repeat case_match; intros [= <- <-]; done.
Qed.

(** The anchors' notes touch nothing but [last_error] and its time. *)
Lemma take_notes_same sup s :
  cs_next_due_mono (take_notes t sup s) = cs_next_due_mono s ∧
  cs_next_retry_mono (take_notes t sup s) = cs_next_retry_mono s ∧
  cs_attempt_count (take_notes t sup s) = cs_attempt_count s ∧
  cs_frames_captured (take_notes t sup s) = cs_frames_captured s ∧
  live_frame_cap t (take_notes t sup s) = live_frame_cap t s.
Proof. unfold take_notes. by repeat case_match. Qed.

(** A cycle that is not cut short by an exception is its planned part, run in a
    world whose store is the planned one and from a state that plans alike. *)
Lemma run_cycle_unfold s w r s' w' :
  run_cycle cfg anchor_jitter schedule t i s w = (r, s', w') →
  (∃ e, r = ce_raised e ∧ s' = s ∧ wd_store w' = wd_store w ∧
     evaluate_exact_time_anchors (ci_fresh i) (anchor_target t) (ci_now i) (ci_wall i)
       (ci_outcomes i) (lend_notes t s (wd_sup w)) = Raise e) ∨
  (∃ disk_ok wake sup s1 w1,
     (cs_next_due_mono s1 = cs_next_due_mono s ∧ cs_next_retry_mono s1 = cs_next_retry_mono s ∧
      cs_attempt_count s1 = cs_attempt_count s ∧
      cs_frames_captured s1 = cs_frames_captured s ∧ live_frame_cap t s1 = live_frame_cap t s) ∧
     ((schedule_gate schedule t (ci_now i)).1 = true → disk_ok = disk_allows w) ∧
     evaluate_exact_time_anchors (ci_fresh i) (anchor_target t) (ci_now i) (ci_wall i)
       (ci_outcomes i) (lend_notes t s (wd_sup w)) = Ok (wake, sup) ∧
     wd_store w1 = planned_store w ∧
     run_cycle_planned cfg t i (schedule_gate schedule t (ci_now i)).1 disk_ok
       (schedule_gate schedule t (ci_now i)).2
       ((λ x, x + anchor_jitter (t_project_id t)) <$> wake) s1 w1 = (r, s', w')).
Proof.
  unfold run_cycle. destruct (schedule_gate _ _ _) as [open change].
  destruct (if open then evaluate_disk_gate t s i w else (true, w)) as [disk_ok w0] eqn:Hd.
  assert (wd_store w0 = wd_store w ∧ wd_sup w0 = wd_sup w ∧
    (open = true → disk_ok = disk_allows w)) as (Hst & Hsup & Hok).
  { destruct open; [|injection Hd as <- <-; done].
    apply disk_gate_effect in Hd as (-> & -> & ->). done. }
  rewrite Hsup. destruct (evaluate_exact_time_anchors _ _ _ _ _ _) as [[wake sup]|e] eqn:He.
  - intros Hr. right. exists disk_ok, wake, sup, (take_notes t sup s). eexists. cbn [fst snd].
    split; [apply take_notes_same|]. split_and!; [done|done| |exact Hr]. cbn. unfold planned_store. by rewrite Hst.
  - intros [= <- <- <-]. left. by exists e.
Qed.

(** The planned part of a cycle: stopped or cut short at the guard, an attempt made when
    the gates, the guard and the grid allow it, or a wait. *)
Lemma planned_cases open disk_ok change wake s w r s' w' :
  run_cycle_planned cfg t i open disk_ok change wake s w = (r, s', w') →
  let guarded := open && disk_ok && match live_frame_cap t s with Some _ => true | None => false end in
  (guarded = true ∧ (∃ e, r = ce_raised e) ∧ s' = s ∧ w' = w) ∨
  (guarded = true ∧ frame_cap_reached (t_project_id t) (wd_store w) = true ∧ r = ce_stop ∧
     s' = set_state rs_stopped s ∧ w' = end_campaign (t_project_id t) reached_frame_count w) ∨
  ((guarded = true → frame_cap_reached (t_project_id t) (wd_store w) = false) ∧
   let plan := plan_next (ci_now i) (open && disk_ok) change (interval_of t) (max_idle cfg)
                 (ci_plan_mono i) (cs_next_due_mono s) (cs_next_retry_mono s) wake in
   (pl_action plan = act_wait ∧ r = ce_sleep (pl_sleep_seconds plan) ∧
      s' = mark_waiting open disk_ok s ∧ w' = w ∨
    pl_action plan = act_capture ∧ ∃ o s1 w1, attempt_capture cfg t i s w = (o, s1, w1) ∧
      match o with
      | ae_died => r = ce_died ∧ s' = s1 ∧ w' = w1
      | ae_failed => r = ce_sleep (pl_sleep_seconds plan) ∧ s' = s1 ∧ w' = w1
      | ae_count n =>
          let full := match live_frame_cap t s1 with Some cap => n >=? cap | None => false end in
          (full = true ∧ ((∃ e, r = ce_raised e) ∧ s' = s1 ∧ w' = w1 ∨
             r = ce_stop ∧ s' = set_state rs_stopped s1 ∧
             w' = end_campaign (t_project_id t) reached_frame_count w1)) ∨
          (full = false ∧ r = ce_sleep (pl_sleep_seconds plan) ∧ s' = s1 ∧ w' = w1)
      end)).
Proof.
  unfold run_cycle_planned. cbv zeta. set (guarded := _ && _ && _). intros Hr.
  destruct (if guarded then ci_guard_fault i else None) as [e|] eqn:Hf.
  { injection Hr as <- <- <-. left. destruct guarded; [|done]. split_and!; by eauto. }
  destruct (guarded && _) eqn:Hg.
  { apply andb_true_iff in Hg as [-> Hg].
    destruct (ci_end_fault i) as [e|]; injection Hr as <- <- <-; [left|right; left]; split_and!; by eauto. }
  right; right. split; [by intros ->|].
  destruct (pl_action _); [right; split; [done|]|injection Hr as <- <- <-; by left].
  destruct (attempt_capture cfg t i s w) as [[o s1] w1]. exists o, s1, w1. split; [done|].
  destruct o; [|by injection Hr as <- <- <-..].
  destruct (match live_frame_cap t s1 with Some _ => _ | None => _ end); [left|right; by injection Hr as <- <- <-].
  split; [done|]. destruct (ci_end_fault i); injection Hr as <- <- <-; [left|right]; split_and!; by eauto.
Qed.

(** A frame is taken only when every gate allows it.  If a cycle adds an
    interval frame (on top of those its anchors wrote), then the schedule was open
    or could not be evaluated, the campaign had started, the disk gate allowed
    capturing, the project has an interval whose pending retry or slot had been
    reached, and no frame cap the loop knows of was already reached. *)
Theorem frame_only_when_allowed s w r s' w' :
  run_cycle cfg anchor_jitter schedule t i s w = (r, s', w') →
  s_frames (wd_store w') ≠ s_frames (wd_store w) →
  s_frames (wd_store w') ≠ s_frames (planned_store w) →
  ((∃ c, next_transition schedule (ci_now i) (t_latitude t) (t_longitude t) = Ok (true, c)) ∨
   (∃ e, next_transition schedule (ci_now i) (t_latitude t) (t_longitude t) = Raise e)) ∧
  (∀ start, t_start_date t = Some start → start ≤ ci_now i) ∧
  disk_allows w = true ∧ is_Some (t_interval_seconds t) ∧
  (∀ d, due_mono (cs_next_due_mono s) (cs_next_retry_mono s) = Some d → (d <= ci_plan_mono i)%Q) ∧
  (is_Some (live_frame_cap t s) → frame_cap_reached (t_project_id t) (planned_store w) = false).
Proof.
  intros Hr Hne0 Hne.
  apply run_cycle_unfold in Hr as [(e & -> & -> & Hw & _)|(disk_ok & wake & sup & s1 & w1 & (Hdue1 & Hret1 & _ & _ & Hcap1) & Hdisk & _ & Hst & Hr)];
    [by rewrite Hw in Hne0|].
  destruct (schedule_gate schedule t (ci_now i)) as [open change] eqn:Hg. cbn [fst snd] in *.
  apply planned_cases in Hr. cbv zeta in Hr. rewrite Hst, Hdue1, Hret1, Hcap1 in Hr.
  destruct Hr as [(_ & _ & _ & ->)|[(_ & _ & _ & _ & ->)|(Hcap & [(_ & _ & _ & ->)|(Hact & _)])]].
  { by rewrite Hst in Hne. }
  { by rewrite end_campaign_frames, Hst in Hne. }
  { by rewrite Hst in Hne. }
  apply plan_captures in Hact as (Hopen & Hint & Hdue).
  apply andb_true_iff in Hopen as [-> ->]. split_and!.
  - revert Hg. unfold schedule_gate. destruct (next_transition _ _ _ _) as [[b c]|e]; simpl;
      [|by eauto]. intros Hg. left. exists c. f_equal. f_equal.
    repeat case_match; simplify_eq; done.
  - intros start Hs. revert Hg. unfold schedule_gate. rewrite Hs.
    destruct (result_default _ _) as [b c]. destruct (Z.ltb_spec (ci_now i) start); [done|lia].
  - by rewrite <-Hdisk.
  - destruct Hint as [n Hn]. unfold interval_of in Hn. destruct (t_interval_seconds t); by eauto.
  - exact Hdue.
  - intros [cap Hlive]. rewrite Hlive in Hcap. by apply Hcap.
Qed.

(** The project's row and its count. *)
Definition count_in (st : Store) : option Z :=
  (λ p, default 0 (p_frame_count p)) <$> s_projects st !! t_project_id t.
Definition archived_in (st : Store) : Prop :=
  ∃ p, s_projects st !! t_project_id t = Some p ∧ p_lifecycle p = lc_archived.

Lemma end_campaign_effect reason w p :
  s_projects (wd_store w) !! t_project_id t = Some p →
  archived_in (wd_store (end_campaign (t_project_id t) reason w)) ∧
  count_in (wd_store (end_campaign (t_project_id t) reason w)) = count_in (wd_store w).
Proof.
  intros Hp. unfold end_campaign, archived_in, count_in. rewrite Hp. case_decide as Ha.
  - rewrite Hp. eauto.
  - cbn. rewrite lookup_insert_eq. simpl. eauto.
Qed.

(** An attempt stores at most one frame beside those of the other paths. *)
Lemma attempt_counts st wo st' p :
  s_projects st !! t_project_id t = Some p → attempt_store t i st = (wo, st') →
  ∃ p', s_projects st' !! t_project_id t = Some p' ∧ p_max_frame_count p' = p_max_frame_count p ∧
    default 0 (p_frame_count p) ≤ default 0 (p_frame_count p') ≤
      default 0 (p_frame_count p) + Z.of_nat (length (ci_other_frames i)) + 1 ∧
    (∀ wf, wo = written wf → w_project_frame_count wf = default 0 (p_frame_count p') ∧
       w_project_max_frame_count wf = p_max_frame_count p).
Proof.
  intros Hp. unfold attempt_store.
  destruct (write_frames_counts t (ci_other_frames i) st p Hp) as (q & Hq & Hn & Hm & _).
  set (st1 := write_frames _ _ _) in *. destruct (ci_capture i); cycle 1.
  { intros [= <- <-]. exists q. split_and!; [done|done|lia|lia|done]. }
  intros Hw. apply write_cases in Hw. destruct wo as [wf| |].
  - destruct Hw as (q' & Hq' & Hc & Hmx & ->). rewrite Hq in Hq'. injection Hq' as <-.
    exists (counted (w_project_frame_count wf) q). rewrite lookup_insert_eq. cbn.
    split_and!; [done|done|lia|lia|]. intros wf' [= <-]. split; [done|congruence].
  - destruct Hw as [-> _]. exists q. split_and!; [done|done|lia|lia|done].
  - destruct Hw as [[-> _]|(q' & Hq' & ->)].
    + exists q. split_and!; [done|done|lia|lia|done].
    + rewrite Hq in Hq'. injection Hq' as <-. rewrite lookup_insert_eq. eexists. split; [done|].
      cbn. split_and!; [done|lia|lia|done].
Qed.

Lemma below_cap w p m :
  s_projects (wd_store w) !! t_project_id t = Some p → p_max_frame_count p = Some m →
  frame_cap_reached (t_project_id t) (wd_store w) = (m <=? default 0 (p_frame_count p)).
Proof. intros Hp Hm. unfold frame_cap_reached. by rewrite Hp, Hm, Z.geb_leb. Qed.

(** What the planned part does to a capped project whose row is [p]. *)
Lemma planned_respects_cap open disk_ok change wake s w r s' w' p m :
  run_cycle_planned cfg t i open disk_ok change wake s w = (r, s', w') →
  s_projects (wd_store w) !! t_project_id t = Some p → p_max_frame_count p = Some m →
  is_Some (live_frame_cap t s) →
  let c := default 0 (p_frame_count p) in
  ∃ n, count_in (wd_store w') = Some n ∧ c ≤ n ∧ (m ≤ c → n ≤ c) ∧
    (c < m → n ≤ m + Z.of_nat (length (ci_other_frames i))) ∧
    (m ≤ c → open && disk_ok = true → r = ce_stop ∨ ∃ e, r = ce_raised e) ∧
    (r = ce_stop → m ≤ n ∧ archived_in (wd_store w')) ∧
    (∀ q, r = ce_sleep q → cs_state s' = rs_running → n < m).
Proof.
  intros Hr Hp Hm [cap Hlive] c. pose proof (below_cap w p m Hp Hm) as Hb. fold c in Hb.
  assert (count_in (wd_store w) = Some c) as Hc by (unfold count_in; by rewrite Hp).
  apply planned_cases in Hr. cbv zeta in Hr. rewrite Hlive, andb_true_r, Hb in Hr.
  destruct Hr as [(Ho & [e ->] & -> & ->)|[(Ho & Hle & -> & -> & ->)|(Hcap & [(_ & -> & -> & ->)|(Hact & o & s1 & w1 & Ha & Ho)])]].
  - exists c. split_and!; [done|lia|lia|lia|by eauto|done|done].
  - destruct (end_campaign_effect reached_frame_count w p Hp) as [Harch ->].
    exists c. split_and!; [done|lia|lia|lia|by left|intros _; split; [lia|done]|done].
  - exists c. split_and!; [done|lia|lia|lia| |done|].
    + intros Hle Ho. specialize (Hcap Ho). lia.
    + intros q _. unfold mark_waiting. cbn. destruct (decide (cs_state s = rs_error)); [done|].
      destruct (open && disk_ok) eqn:Ho; [|done]. specialize (Hcap eq_refl). lia.
  - apply plan_captures in Hact as (Hopen & [d Hd] & _). specialize (Hcap Hopen).
    destruct (attempt_effect _ _ _ _ _ _ _ _ _ Hd Ha) as [Hw1 Heff].
    destruct (attempt_store t i (wd_store w)) as [wo st1] eqn:Has. cbn [fst snd] in *. subst st1.
    destruct (attempt_counts _ _ _ _ Hp Has) as (p1 & Hp1 & Hm1 & Hn1 & Hwf). fold c in Hn1.
    assert (count_in (wd_store w1) = Some (default 0 (p_frame_count p1))) as Hc1
      by (unfold count_in; by rewrite Hp1).
    exists (default 0 (p_frame_count p1)). destruct o as [n| |].
    + destruct Heff as (wf & -> & -> & Hread & Hcapmax & _). destruct (Hwf wf eq_refl) as [Hcnt Hmax].
      assert (live_frame_cap t s1 = Some m) as Hlive1
        by (unfold live_frame_cap; by rewrite Hread, Hcapmax, Hmax).
      rewrite Hlive1, Hcnt, Z.geb_leb in Ho.
      destruct Ho as [(Hfull & [([e ->] & -> & ->)|(-> & -> & ->)])|(Hfull & -> & -> & ->)];
        [|destruct (end_campaign_effect reached_frame_count w1 p1 Hp1) as [Harch ->]|];
        split_and!; try done; try lia; try (intros; lia); try (intros _; split; [lia|done]).
    + destruct Heff as (_ & Herr & _). destruct Ho as (-> & -> & ->).
      split_and!; try done; try lia; try (intros; lia). intros q _ Hrun. congruence.
    + destruct Ho as (-> & -> & ->). split_and!; try done; try lia; intros; lia.
Qed.

(** Both gates of the cycle stand open. *)
Definition gates_open (w : World) : Prop :=
  (schedule_gate schedule t (ci_now i)).1 = true ∧ disk_allows w = true.

(** C24: the frame cap.  Take a cycle of a loop that knows a cap, with [c] frames and the
    cap [m] stored at its start, and [fired] the count its anchor captures (which no cap
    bounds) bring that to.  Whatever the capture meets, a failure after the frame was
    stored included: if [fired] has reached the cap, the interval capture adds nothing,
    and with open gates the cycle ends the campaign or raises; otherwise the final count
    exceeds the cap by no more than the frames other paths stored while the capture ran.
    A cycle that ends the campaign leaves the project archived with the cap reached, and
    a loop that goes on as running is below its cap. *)
Theorem frame_cap_not_overshot s w r s' w' p m :
  run_cycle cfg anchor_jitter schedule t i s w = (r, s', w') →
  s_projects (wd_store w) !! t_project_id t = Some p → p_max_frame_count p = Some m →
  is_Some (live_frame_cap t s) →
  let c := default 0 (p_frame_count p) in
  let fired := c + Z.of_nat (length (ci_anchor_frames i)) in
  ∃ n, count_in (wd_store w') = Some n ∧ c ≤ n ∧ (m ≤ fired → n ≤ fired) ∧
    (fired < m → n ≤ m + Z.of_nat (length (ci_other_frames i))) ∧
    (m ≤ fired → gates_open w → r = ce_stop ∨ ∃ e, r = ce_raised e) ∧
    (r = ce_stop → m ≤ n ∧ archived_in (wd_store w')) ∧
    (∀ q, r = ce_sleep q → cs_state s' = rs_running → n < m).
Proof.
  intros Hr Hp Hm Hlive c fired.
  apply run_cycle_unfold in Hr as [(e & -> & -> & Hw & _)|(disk_ok & wake & sup & s1 & w1 & (_ & _ & _ & _ & Hcap1) & Hdisk & _ & Hst & Hr)].
  - exists c. rewrite Hw. split_and!; [unfold count_in; by rewrite Hp|lia|lia|lia|by eauto|done|done].
  - destruct (write_frames_counts t (ci_anchor_frames i) (wd_store w) p Hp) as (p1 & Hp1 & Hn1 & Hm1 & _).
    fold c in Hn1. fold fired in Hn1. fold (planned_store w) in Hp1. rewrite <-Hst in Hp1. rewrite <-Hcap1 in Hlive.
    rewrite Hm in Hm1.
    destruct (planned_respects_cap _ _ _ _ _ _ _ _ _ _ _ Hr Hp1 Hm1 Hlive) as (n & Hn & H1 & H2 & H3 & H4 & H5 & H6).
    rewrite Hn1 in H1, H2, H3, H4. exists n. split_and!; [done|lia|done|done| |done|done].
    intros Hle [Hg Hd]. apply H4; [done|]. by rewrite Hg, (Hdisk Hg), Hd.
Qed.

(** Retries never postpone a slot.  If no pending retry lies beyond the next
    grid slot before a cycle, none does after it, whatever the cycle met; and
    after a failed attempt the retry comes no later than one interval after the
    attempt, or at the slot that was already planned. *)
Theorem retry_never_postpones_slot s w r s' w' :
  run_cycle cfg anchor_jitter schedule t i s w = (r, s', w') → retry_within_slot s →
  retry_within_slot s' ∧
  (∀ n x, interval_of t = Some n → cs_attempt_count s' = cs_attempt_count s + 1 →
     0 ≤ cs_attempt_count s → cs_next_retry_mono s' = Some x →
     (x <= Qmax (default (ci_due_mono i) (cs_next_due_mono s)) (ci_due_mono i + n))%Q).
Proof.
  intros Hr Hinv.
  apply run_cycle_unfold in Hr as [(e & -> & -> & _)|(disk_ok & wake & sup & s1 & w1 & (Hdue1 & Hret1 & Hatt1 & _ & _) & _ & _ & _ & Hr)].
  { split; [done|]. intros. lia. }
  assert (retry_within_slot s1) as Hinv1 by (unfold retry_within_slot in *; by rewrite Hdue1, Hret1).
  rewrite <-Hdue1, <-Hatt1. clear s Hinv Hdue1 Hret1 Hatt1.
  apply planned_cases in Hr. cbv zeta in Hr.
  destruct Hr as [(_ & _ & -> & _)|[(_ & _ & _ & -> & _)|(_ & [(_ & _ & -> & _)|(Hact & o & s2 & w2 & Ha & Ho)])]];
    [split; [done|]; simpl; intros; lia..|].
  apply plan_captures in Hact as (_ & [n Hn] & _).
  destruct (attempt_effect _ _ _ _ _ _ _ _ _ Hn Ha) as [_ Heff].
  destruct (advance_due_le (cs_next_due_mono s1) n (ci_due_mono i) (interval_of_pos _ _ Hn)) as [_ Hadv].
  destruct o as [c| |].
  - destruct Heff as (wf & _ & _ & _ & _ & Hretry & _).
    assert (cs_next_retry_mono s' = None) as Hs'.
    { by destruct Ho as [(_ & [(_ & -> & _)|(_ & -> & _)])|(_ & _ & -> & _)]. }
    unfold retry_within_slot. rewrite Hs'. naive_solver.
  - destruct Heff as (_ & _ & Hdue & (x & Hx & Hle) & _). destruct Ho as (_ & -> & _). split.
    + intros y Hy. exists (advance_due (cs_next_due_mono s1) n (ci_due_mono i)).
      split; [done|]. congruence.
    + intros n' y Hn' _ _ Hy. assert (n' = n) as -> by congruence. assert (y = x) as -> by congruence.
      by eapply Qle_trans.
  - destruct Ho as (_ & -> & _). clear -Ha Hinv1. unfold attempt_capture in Ha. cbn [wd_store] in Ha.
    destruct (ci_capture i); [|done]. destruct (write _ _ _ _ _ _ _ _ _ _) as [[wf| |] st];
      [destruct (check_frozen_frame _ _ _ _ _ _) as [[[]]]; done|done|]. injection Ha as <- <-.
    split; [exact Hinv1|]. simpl. intros. lia.
Qed.
End cycle.

(** ** Sleeping *)
Lemma first_change_future `{CaptureEnv} s lat lon b now cs c :
  first_change s lat lon b now cs = Ok (Some c) → now < c.
Proof.
  induction cs as [|x cs IH]; simpl; [done|]. destruct (Z.leb_spec x now); [done|].
  intros (st & _ & Hr)%bind_ok. destruct (negb _); [by injection Hr as <-|auto].
Qed.

Lemma next_transition_future `{CaptureEnv} s now lat lon b c :
  next_transition s now lat lon = Ok (b, Some c) → now < c.
Proof.
  unfold next_transition. intros (o & _ & Hr)%bind_ok.
  destruct (is_always_open s); [done|]. apply bind_ok in Hr as (tz & _ & Hr).
  destruct (match end_date s with Some _ => _ | None => _ end); [done|].
  apply bind_ok in Hr as (cs & _ & (ch & Hch & [= _ ->])%bind_ok).
  by eapply first_change_future.
Qed.

Lemma schedule_gate_future `{CaptureEnv} s t now c :
  (schedule_gate s t now).2 = Some c → now < c.
Proof.
  unfold schedule_gate.
  destruct (next_transition s now (t_latitude t) (t_longitude t)) as [[b [ch|]]|e] eqn:Hn; simpl;
    [apply next_transition_future in Hn|..]; destruct (t_start_date t) as [st|]; simpl;
    try destruct (Z.ltb_spec now st); simpl; intros [= <-]; lia.
Qed.

(** The loop neither oversleeps nor spins.  The sleep a cycle returns lies
    between zero and the idle ceiling (at least one second, as configured), and a
    cycle that returns no sleep at all has made a capture attempt: it has either
    stored a frame or counted a failure. *)
Theorem cycle_sleeps_or_attempts `{CaptureEnv} (cfg : CaptureSettings) (anchor_jitter : Z → Z)
    (schedule : Schedule) (t : CaptureTarget) (i : CycleInputs) (s s' : CaptureState)
    (w w' : World) (q : Q) :
  (∀ d, 0 ≤ outcome_elapsed (ci_outcomes i d)) →
  0 ≤ anchor_jitter (t_project_id t) →
  run_cycle cfg anchor_jitter schedule t i s w = (ce_sleep q, s', w') →
  (0 <= q <= max_idle cfg)%Q ∧
  ((q == 0)%Q → cs_frames_captured s' = cs_frames_captured s + 1 ∨
                cs_attempt_count s' = cs_attempt_count s + 1).
Proof.
  intros Hel Hj Hr. assert (0 < max_idle cfg)%Q as Hidle.
  { unfold max_idle. eapply Qlt_le_trans; [|apply Q.le_max_l]. done. }
  apply run_cycle_unfold in Hr as [(e & ? & _)|(disk_ok & wake & sup & s1 & w1 & (_ & _ & Hatt1 & Hfr1 & _) & _ & Hev & _ & Hr)];
    [done|]. rewrite <-Hatt1, <-Hfr1.
  assert (∀ c, (λ x, x + anchor_jitter (t_project_id t)) <$> wake = Some c → ci_now i < c) as Hwake.
  { intros c. destruct wake as [x|]; [|done]. intros [= <-].
    apply evaluate_wake_future in Hev; [lia|done]. }
  apply planned_cases in Hr. cbv zeta in Hr. set (pl := plan_next _ _ _ _ _ _ _ _ _) in *.
  destruct Hr as [(_ & [e ?] & _)|[(_ & _ & ? & _)|(_ & Hr)]]; [done|done|].
  destruct (plan_sleep_bounds (ci_now i) ((schedule_gate schedule t (ci_now i)).1 && disk_ok)
    (schedule_gate schedule t (ci_now i)).2 (interval_of t) (max_idle cfg) (ci_plan_mono i)
    (cs_next_due_mono s1) (cs_next_retry_mono s1)
    ((λ x, x + anchor_jitter (t_project_id t)) <$> wake)) as [Hb Hw]; [lra|].
  fold pl in Hb, Hw. destruct Hr as [(Hact & [= ->] & -> & ->)|(Hact & o & s2 & w2 & Ha & Ho)].
  - split; [done|]. intros H0.
    destruct (Hw Hact) as (_ & _ & _ & Hpos).
    assert (0 < pl_sleep_seconds pl)%Q as Hp.
    { apply Hpos; [done| |done]. intros c. apply schedule_gate_future. }
    rewrite H0 in Hp. by apply Qlt_irrefl in Hp.
  - subst pl. apply plan_captures in Hact as (_ & [n Hn] & _).
    destruct (attempt_effect _ _ _ _ _ _ _ _ _ Hn Ha) as [_ Heff]. destruct o as [c| |]; [..|naive_solver].
    + destruct Ho as [(_ & [([e ?] & _)|(? & _)])|(_ & [= ->] & -> & ->)]; [done|done|].
      split; [done|]. intros _. left. naive_solver.
    + destruct Ho as ([= ->] & -> & ->). split; [done|]. intros _. naive_solver.
Qed.

(** ** Frozen frames *)
Definition feed_frames (cfg : CaptureSettings) (pid : Z) (digests : list string)
    (s : CaptureState) (w : World) : CaptureState * World :=
  foldl (λ sw d, let r := check_frozen_frame cfg pid d rf_none sw.1 sw.2 in (r.1.2, r.2)) (s, w) digests.

(** The run so far, as the state keeps it. *)
Definition frozen_run (d : string) (s : CaptureState) : Z :=
  if decide (cs_last_frame_hash s = Some d) then cs_frozen_frame_run_count s else 0.

Lemma frozen_step cfg pid d s w s' w' :
  set_frozen_frame_enabled cfg = true →
  0 ≤ frozen_run d s < Z.max 1 (set_frozen_frame_threshold cfg) →
  check_frozen_frame cfg pid d rf_none s w = (None, s', w') →
  let n := Z.max 1 (set_frozen_frame_threshold cfg) in
  if frozen_run d s + 1 =? n
  then frozen_run d s' = 0 ∧ wd_events w' = wd_events w ++ [rev_frozen pid n]
  else frozen_run d s' = frozen_run d s + 1 ∧ wd_events w' = wd_events w.
Proof.
  intros Hen Hrun. unfold check_frozen_frame. rewrite Hen. cbn [negb]. cbv zeta.
  unfold frozen_run in *. set (n := Z.max 1 (set_frozen_frame_threshold cfg)) in *.
  assert ((if decide (cs_last_frame_hash s = Some d) then cs_frozen_frame_run_count s + 1 else 1) =
    (if decide (cs_last_frame_hash s = Some d) then cs_frozen_frame_run_count s else 0) + 1) as ->
    by (case_decide; lia).
  set (run := if decide (cs_last_frame_hash s = Some d) then _ else 0) in *. clearbody run n.
  rewrite Z.geb_leb. destruct (Z.leb_spec n (run + 1)); intros [= <- <-].
  - rewrite (proj2 (Z.eqb_eq (run + 1) n)) by lia. simpl. replace (run + 1) with n by lia. done.
  - rewrite (proj2 (Z.eqb_neq (run + 1) n)) by lia. simpl. by rewrite decide_True.
Qed.

(** The frozen-camera warning.  Over any number [k] of identical frames, the
    detector warns exactly once per full run of the threshold's length (counting
    the run it starts in), each time with that length, and keeps the remainder. *)
Theorem frozen_camera_warns_per_run (cfg : CaptureSettings) (pid : Z) (d : string) (k : nat)
    (s : CaptureState) (w : World) :
  let n := Z.max 1 (set_frozen_frame_threshold cfg) in
  set_frozen_frame_enabled cfg = true → 0 ≤ frozen_run d s < n →
  let r := feed_frames cfg pid (replicate k d) s w in
  wd_events r.2 = wd_events w ++
    replicate (Z.to_nat ((frozen_run d s + Z.of_nat k) / n)) (rev_frozen pid n) ∧
  frozen_run d r.1 = (frozen_run d s + Z.of_nat k) mod n.
Proof.
  cbv zeta. intros Hen. unfold feed_frames. set (n := Z.max 1 (set_frozen_frame_threshold cfg)).
  revert s w. induction k as [|k IH]; intros s w Hrun.
  - simpl. rewrite Z.add_0_r, Z.div_small, Z.mod_small by lia. by rewrite app_nil_r.
  - cbn [replicate foldl fst snd].
    destruct (check_frozen_frame cfg pid d rf_none s w) as [[er s1] w1] eqn:Hc. cbn [fst snd].
    assert (er = None) as -> by (revert Hc; unfold check_frozen_frame; repeat case_match; naive_solver).
    pose proof (frozen_step cfg pid d s w s1 w1 Hen Hrun Hc) as Hstep. cbv zeta in Hstep. fold n in Hstep.
    destruct (Z.eqb_spec (frozen_run d s + 1) n) as [Heq|Hne]; destruct Hstep as [Hr1 He1].
    + destruct (IH s1 w1) as [IHe IHr]; [lia|]. rewrite IHe, IHr, He1, Hr1.
      replace (frozen_run d s + Z.of_nat (S k)) with (0 + Z.of_nat k + 1 * n) by lia.
      rewrite Z.div_add, Z.mod_add by lia. split; [|done].
      rewrite <-app_assoc. f_equal. rewrite Z2Nat.inj_add; [|apply Z.div_pos; lia|lia].
      by rewrite Nat.add_comm.
    + destruct (IH s1 w1) as [IHe IHr]; [lia|]. rewrite IHe, IHr, He1, Hr1.
      by replace (frozen_run d s + Z.of_nat (S k)) with (frozen_run d s + 1 + Z.of_nat k) by lia.
Qed.

(** ** Concrete cycles *)
Definition demo_cfg : CaptureSettings := MkSettings 2 300 true 3 60.
Definition demo_runner (cap : option Z) : CaptureTarget :=
  MkTarget 1 (Some 3600) None None None None cap PNone None ["frames"] None.
(** A cycle at [now] that finds [free] of 100000 bytes and a camera that answers. *)
Definition demo_inputs (now free : Z) (mono : Q) (token : string) : CycleInputs :=
  MkInputs now mono now mono mono 0 (λ _, true) (λ _, free) (λ _, 100000) 0 demo_fresh
    (λ _, low_disk) [] (cap_frame demo_capture token "d1" no_fault) [] rf_none None None.
Definition demo_world (count : Z) (cap : option Z) : World :=
  MkWorld (MkStore demo_paths {[ 1 := MkProject (Some count) cap lc_active None ]} ∅ ∅)
    (MkMonitor 1000 (float_of_Z 5) 2000 (float_of_Z 8) 30 ∅) (MkSup empty_log ∅) [].
(** A runner whose last write reported that the project has no cap. *)
Definition uncapped_state : CaptureState :=
  MkState rs_running None None None 0 0 None 0 None None None None None None true.

(** A cap added to an uncapped project lets one more frame through.  A runner
    whose last write saw no cap does not consult the stored one before the next
    capture: with five frames stored and a cap of five set meanwhile, the next
    cycle stores a sixth, and only then archives the project. *)
Theorem added_cap_overshoots_once :
  let r := @run_cycle demo_env demo_cfg (λ _, 0) default_schedule (demo_runner None)
             (demo_inputs (at_utc 19793 12 0) 50000 7200 "t1") uncapped_state
             (demo_world 5 (Some 5)) in
  r.1.1 = ce_stop ∧
  (p_frame_count <$> s_projects (wd_store r.2) !! 1) = Some (Some 6) ∧
  wd_events r.2 = [rev_campaign_ended 1 reached_frame_count].
Proof. vm_compute. split_and!; reflexivity. Qed.

(** A closed window hides the recovery of the disk.  A project pauses for low
    disk inside its window; the window closes, which overwrites the pause reason
    the edge is taken against; overnight the disk recovers; the next morning the
    project captures again, but no [disk_recovered] event is ever written, so
    nothing resolves the [low_disk] warning. *)
Theorem closed_window_hides_disk_recovery :
  let t := demo_runner None in
  let c1 := @run_cycle demo_env demo_cfg (λ _, 0) office_hours t
              (demo_inputs (at_utc 19793 15 0) 500 0 "t1") initial_state (demo_world 0 None) in
  let c2 := @run_cycle demo_env demo_cfg (λ _, 0) office_hours t
              (demo_inputs (at_utc 19793 16 0) 500 3600 "t2") c1.1.2 c1.2 in
  let c3 := @run_cycle demo_env demo_cfg (λ _, 0) office_hours t
              (demo_inputs (at_utc 19794 8 0) 50000 61200 "t3") c2.1.2 c2.2 in
  cs_pause_reason c1.1.2 = Some pr_low_disk ∧ cs_pause_reason c2.1.2 = Some pr_window ∧
  cs_frames_captured c3.1.2 = 1 ∧ wd_events c3.2 = [rev_low_disk 1].
Proof. vm_compute. split_and!; reflexivity. Qed.

(** ** Witnesses *)
Lemma advance_due_first_slot_witness :
  let next := advance_due (Some 10%Q) 60 (200%Q) in
  (200 < next)%Q ∧ (∃ k, 0 ≤ k ∧ (next == 10 + inject_Z k * 60)%Q) ∧
  (∀ j, 0 ≤ j → (200 < 10 + inject_Z j * 60)%Q → (next <= 10 + inject_Z j * 60)%Q).
Proof. apply (advance_due_first_slot (Some 10%Q) 60 200). reflexivity. Defined.

Lemma plan_next_sound_witness :
  let p := plan_next 0 true (Some (5 * SECOND)) (Some 60%Q) 30 100 (Some 110%Q) None None in
  (pl_action p = act_capture ↔
     true = true ∧ is_Some (Some 60%Q) ∧
     (∀ d, due_mono (Some 110%Q) None = Some d → (d <= 100)%Q)) ∧
  (0 <= pl_sleep_seconds p <= 30)%Q ∧
  (pl_action p = act_wait →
     (∀ c, Some (5 * SECOND) = Some c → 0 ≤ c → (pl_sleep_seconds p <= total_seconds (c - 0))%Q) ∧
     (∀ c, None = Some c → 0 ≤ c → (pl_sleep_seconds p <= total_seconds (c - 0))%Q) ∧
     (true = true → is_Some (Some 60%Q) → ∀ d, due_mono (Some 110%Q) None = Some d →
        pl_sleep_seconds p <= d - 100)%Q ∧
     ((0 < 30)%Q → (∀ c, Some (5 * SECOND) = Some c → 0 < c) → (∀ c, None = Some c → 0 < c) →
        (0 < pl_sleep_seconds p)%Q)).
Proof.
  apply (plan_next_sound 0 true (Some (5 * SECOND)) (Some 60%Q) 30 100 (Some 110%Q) None None).
  discriminate.
Defined.

Lemma backoff_delay_bounds_witness :
  let d := backoff_delay 4 2 300 (1 # 10) false in
  (0 <= d <= 300 * (1 + (2 # 10)))%Q ∧
  (false = true → (300 * (1 - (2 # 10)) <= d)%Q) ∧
  (false = false → 1 ≤ 4 →
     (d == Qmin (2 * inject_Z (2 ^ (4 - 1))) 300 * (1 + (1 # 10)))%Q).
Proof.
  apply (backoff_delay_bounds 4 2 300 (1 # 10) (2 # 10) false); try discriminate;
    split; discriminate.
Defined.

Definition demo_cycle : cycle_end * CaptureState * World :=
  @run_cycle demo_env demo_cfg (λ _, 0) office_hours (demo_runner (Some 2))
    (demo_inputs (at_utc 19793 15 0) 50000 0 "t1") initial_state (demo_world 1 (Some 2)).

Lemma frame_only_when_allowed_witness :
  let t := demo_runner (Some 2) in
  let i := demo_inputs (at_utc 19793 15 0) 50000 0 "t1" in
  let w := demo_world 1 (Some 2) in
  ((∃ c, @next_transition demo_env office_hours (ci_now i) None None = Ok (true, c)) ∨
   (∃ e, @next_transition demo_env office_hours (ci_now i) None None = Raise e)) ∧
  (∀ start, t_start_date t = Some start → start ≤ ci_now i) ∧
  disk_allows t i w = true ∧ is_Some (t_interval_seconds t) ∧
  (∀ d, due_mono None None = Some d → (d <= ci_plan_mono i)%Q) ∧
  (is_Some (live_frame_cap t initial_state) →
     frame_cap_reached 1 (planned_store t i w) = false).
Proof.
  cbv zeta.
  apply (@frame_only_when_allowed demo_env demo_cfg (λ _, 0) office_hours (demo_runner (Some 2))
           (demo_inputs (at_utc 19793 15 0) 50000 0 "t1") initial_state (demo_world 1 (Some 2))
           ce_stop demo_cycle.1.2 demo_cycle.2).
  - vm_compute. reflexivity.
  - intros Heq. apply (f_equal size) in Heq. vm_compute in Heq. discriminate.
  - intros Heq. apply (f_equal size) in Heq. vm_compute in Heq. discriminate.
Defined.

(** A cycle that starts at its cap of two with a due anchor, and one whose second frame is
    stored but whose frozen-frame event is not. *)
Definition anchored_inputs : CycleInputs :=
  MkInputs (at_utc 19793 15 0) 0 (at_utc 19793 15 1) 60 60 0 (λ _, true) (λ _, 50000)
    (λ _, 100000) 0 demo_fresh (λ _, low_disk)
    [MkFrameWrite demo_capture origin_captured None None false (Some "anchor:clock") "a1"]
    (cap_frame demo_capture "t1" "d1" no_fault) [] rf_none None None.
Definition anchored_cycle : cycle_end * CaptureState * World :=
  @run_cycle demo_env demo_cfg (λ _, 0) office_hours (demo_runner (Some 2)) anchored_inputs
    initial_state (demo_world 2 (Some 2)).
Definition unreported_inputs : CycleInputs :=
  MkInputs (at_utc 19793 15 0) 0 (at_utc 19793 15 1) 60 60 0 (λ _, true) (λ _, 50000)
    (λ _, 100000) 0 demo_fresh (λ _, low_disk) []
    (cap_frame demo_capture "t1" "d1" no_fault) [] (rf_hash "cannot schedule new futures") None None.

(** The anchor frame goes beyond the cap; the interval capture does not happen. *)
Example anchor_frame_beyond_cap :
  anchored_cycle.1.1 = ce_stop ∧
  count_in (demo_runner (Some 2)) (wd_store anchored_cycle.2) = Some 3.
Proof. vm_compute. split; reflexivity. Qed.

(** A failure after the write skips the stop at the cap; the loop's next cycle makes it. *)
Example unreported_frame_stops_later :
  let t := demo_runner (Some 2) in
  let c1 := @run_cycle demo_env demo_cfg (λ _, 0) office_hours t unreported_inputs
              initial_state (demo_world 1 (Some 2)) in
  let c2 := @run_cycle demo_env demo_cfg (λ _, 0) office_hours t
              (demo_inputs (at_utc 19793 15 2) 50000 120 "t2") c1.1.2 c1.2 in
  cs_state c1.1.2 = rs_error ∧ count_in t (wd_store c1.2) = Some 2 ∧
  c2.1.1 = ce_stop ∧ count_in t (wd_store c2.2) = Some 2.
Proof. vm_compute. split_and!; reflexivity. Qed.

Lemma frame_cap_not_overshot_witness :
  ∃ n, count_in (demo_runner (Some 2)) (wd_store anchored_cycle.2) = Some n ∧ 2 ≤ n ∧
    (2 ≤ 2 + 1 → n ≤ 2 + 1) ∧ (2 + 1 < 2 → n ≤ 2 + 0) ∧
    (2 ≤ 2 + 1 → @gates_open demo_env office_hours (demo_runner (Some 2)) anchored_inputs
                   (demo_world 2 (Some 2)) → ce_stop = ce_stop ∨ ∃ e, ce_stop = ce_raised e) ∧
    (ce_stop = ce_stop → 2 ≤ n ∧ archived_in (demo_runner (Some 2)) (wd_store anchored_cycle.2)) ∧
    (∀ q, ce_stop = ce_sleep q → cs_state anchored_cycle.1.2 = rs_running → n < 2).
Proof.
  apply (@frame_cap_not_overshot demo_env demo_cfg (λ _, 0) office_hours (demo_runner (Some 2))
           anchored_inputs initial_state (demo_world 2 (Some 2))
           ce_stop anchored_cycle.1.2 anchored_cycle.2 (MkProject (Some 2) (Some 2) lc_active None) 2).
  - vm_compute. reflexivity.
  - vm_compute. reflexivity.
  - reflexivity.
  - by eexists.
Defined.

Definition failing_inputs : CycleInputs :=
  MkInputs (at_utc 19793 15 0) 0 (at_utc 19793 15 1) 60 60 0 (λ _, true) (λ _, 50000)
    (λ _, 100000) 0 demo_fresh (λ _, low_disk) [] (cap_error false "unreachable") []
    rf_none None None.
Definition failing_cycle : cycle_end * CaptureState * World :=
  @run_cycle demo_env demo_cfg (λ _, 0) office_hours (demo_runner None) failing_inputs
    initial_state (demo_world 0 None).

Lemma retry_never_postpones_slot_witness :
  retry_within_slot failing_cycle.1.2 ∧
  (∀ n x, interval_of (demo_runner None) = Some n → cs_attempt_count failing_cycle.1.2 = 0 + 1 →
     0 ≤ 0 → cs_next_retry_mono failing_cycle.1.2 = Some x →
     (x <= Qmax (default (ci_due_mono failing_inputs) None) (ci_due_mono failing_inputs + n))%Q).
Proof.
  apply (@retry_never_postpones_slot demo_env demo_cfg (λ _, 0) office_hours (demo_runner None)
           failing_inputs initial_state (demo_world 0 None) failing_cycle.1.1 failing_cycle.1.2
           failing_cycle.2).
  - vm_compute. reflexivity.
  - intros r Hr. discriminate Hr.
Defined.

Lemma cycle_sleeps_or_attempts_witness :
  (0 <= 0 <= max_idle demo_cfg)%Q ∧
  ((0 == 0)%Q → cs_frames_captured failing_cycle.1.2 = 0 + 1 ∨
                cs_attempt_count failing_cycle.1.2 = 0 + 1).
Proof.
  apply (@cycle_sleeps_or_attempts demo_env demo_cfg (λ _, 0) office_hours (demo_runner None)
           failing_inputs initial_state failing_cycle.1.2 (demo_world 0 None) failing_cycle.2 0).
  - intros d. discriminate.
  - discriminate.
  - vm_compute. reflexivity.
Defined.

Lemma frozen_camera_warns_per_run_witness :
  let n := Z.max 1 (set_frozen_frame_threshold demo_cfg) in
  let r := feed_frames demo_cfg 1 (replicate 7 "d1") initial_state (demo_world 0 None) in
  wd_events r.2 = [] ++ replicate (Z.to_nat ((0 + Z.of_nat 7) / n)) (rev_frozen 1 n) ∧
  frozen_run "d1" r.1 = (0 + Z.of_nat 7) mod n.
Proof.
  apply (frozen_camera_warns_per_run demo_cfg 1 "d1" 7 initial_state (demo_world 0 None)).
  - reflexivity.
  - vm_compute. split; [discriminate|reflexivity].
Defined.
