(* ===== verification/CameraHealth.v ===== *)
(** * Camera health: capture/camera_health.py and its reporting in capture/supervisor.py

    One record per camera, fed by every capture outcome on it.  Each call decides
    synchronously which event it causes; the events are then written one after
    the other, in decision order, and a write that fails undoes its decision
    ([rearm]). *)

From S2P Require Import Prelude.
From stdpp Require Import relations options.
Local Open Scope Z_scope.

(** ** Failures *)

(** The exceptions a capture attempt ends with, as far as health tells them apart.
    [local] is the flag of [CaptureError]. *)
Inductive capture_exc :=
  | ExAuth (local : bool)
  | ExUnreachable (local : bool)
  | ExTimeout (local : bool)
  | ExOtherCapture (local : bool)
  | ExPTZ (local : bool) (cause : option capture_exc)
  | ExCameraMissing
  | ExOperationalError
  | ExAny.

Inductive failure_kind := fk_camera | fk_auth | fk_local | fk_project.
#[export] Instance failure_kind_eq_dec : EqDecision failure_kind.
Proof. solve_decision. Defined.

Definition is_local_failure (e : capture_exc) : bool :=
  match e with
  | ExAuth l | ExUnreachable l | ExTimeout l | ExOtherCapture l | ExPTZ l _ => l
  | ExCameraMissing | ExOperationalError => true
  | ExAny => false
  end.

(** [_ptz_cause]: past every PTZ layer. *)
Fixpoint ptz_cause (e : capture_exc) : option capture_exc :=
  match e with
  | ExPTZ _ None => None
  | ExPTZ _ (Some c) => ptz_cause c
  | _ => Some e
  end.

Definition classify_failure (e : capture_exc) : failure_kind :=
  if is_local_failure e then fk_local
  else match e with
       | ExPTZ _ _ =>
           match ptz_cause e with
           | None => fk_project
           | Some c =>
               if is_local_failure c then fk_local
               else match c with
                    | ExAuth _ => fk_auth
                    | ExUnreachable _ | ExTimeout _ => fk_camera
                    | _ => fk_project
                    end
           end
       | ExAuth _ => fk_auth
       | _ => fk_camera
       end.

(** ** The book *)
Record CameraHealth := MkHealth {
  h_consecutive_failures : Z;
  h_offline_alerted : bool;
  h_last_error : option string;
  h_local_streak : bool;
  h_project_streaks : gmap (option Z) Z;
  h_listener_streaks : gmap Z Z;
  h_events_alerted : bool;
}.
Definition fresh_health : CameraHealth := MkHealth 0 false None false ∅ ∅ false.

Inductive transition_kind := tk_offline | tk_recovered | tk_local | tk_events_unavailable | tk_events_available.
#[export] Instance transition_kind_eq_dec : EqDecision transition_kind.
Proof. solve_decision. Defined.

Record HealthTransition := MkTransition {
  ht_kind : transition_kind;
  ht_camera_id : Z;
  ht_consecutive_failures : Z;
  ht_error : option string;
  ht_auth_failed : bool;
}.

Record CameraHealthBook := MkBook {
  b_threshold : Z;
  b_cameras : gmap Z CameraHealth;
}.
Definition new_book (offline_failure_threshold : Z) : CameraHealthBook :=
  MkBook (Z.max 1 offline_failure_threshold) ∅.

(** [_entry] and [health]: a fresh record for a camera never seen. *)
Definition health (b : CameraHealthBook) (camera : Z) : CameraHealth :=
  default fresh_health (b_cameras b !! camera).
Definition put_health (b : CameraHealthBook) (camera : Z) (h : CameraHealth) : CameraHealthBook :=
  MkBook (b_threshold b) (<[camera := h]> (b_cameras b)).

Definition is_offline (b : CameraHealthBook) (camera : Z) : bool :=
  h_offline_alerted (health b camera).
Definition is_events_unavailable (b : CameraHealthBook) (camera : Z) : bool :=
  h_events_alerted (health b camera).

Definition set_offline (v : bool) (h : CameraHealth) : CameraHealth :=
  MkHealth (h_consecutive_failures h) v (h_last_error h) (h_local_streak h)
    (h_project_streaks h) (h_listener_streaks h) (h_events_alerted h).
Definition set_local (v : bool) (h : CameraHealth) : CameraHealth :=
  MkHealth (h_consecutive_failures h) (h_offline_alerted h) (h_last_error h) v
    (h_project_streaks h) (h_listener_streaks h) (h_events_alerted h).
Definition set_listeners (m : gmap Z Z) (alerted : bool) (h : CameraHealth) : CameraHealth :=
  MkHealth (h_consecutive_failures h) (h_offline_alerted h) (h_last_error h) (h_local_streak h)
    (h_project_streaks h) m alerted.

Definition seed (cameras : list Z) (b : CameraHealthBook) : CameraHealthBook :=
  foldl (λ b c, put_health b c (set_offline true (health b c))) b cameras.
Definition seed_events (cameras : list Z) (b : CameraHealthBook) : CameraHealthBook :=
  foldl (λ b c, put_health b c (set_listeners (h_listener_streaks (health b c)) true (health b c)))
    b cameras.

(** The longest streak of any project. *)
Definition longest_streak (m : gmap (option Z) Z) : Z := map_fold (λ _ n acc, Z.max n acc) 0 m.

Definition record_success (camera : Z) (b : CameraHealthBook)
    : option HealthTransition * CameraHealthBook :=
  let h := health b camera in
  let h' := MkHealth 0 false None false ∅ (h_listener_streaks h) (h_events_alerted h) in
  if negb (h_offline_alerted h) then (None, put_health b camera h')
  else (Some (MkTransition tk_recovered camera 0 None false), put_health b camera h').

Definition record_failure (camera : Z) (error : string) (auth local : bool)
    (project : option Z) (b : CameraHealthBook) : option HealthTransition * CameraHealthBook :=
  let h := health b camera in
  if local then
    if h_local_streak h then (None, put_health b camera h)
    else (Some (MkTransition tk_local camera (h_consecutive_failures h) (Some error) false),
          put_health b camera (set_local true h))
  else
    let streak := default 0 (h_project_streaks h !! project) + 1 in
    let streaks := <[project := streak]> (h_project_streaks h) in
    let h := MkHealth (h_consecutive_failures h + 1) (h_offline_alerted h) (Some error)
               (h_local_streak h) streaks (h_listener_streaks h) (h_events_alerted h) in
    if h_offline_alerted h then (None, put_health b camera h)
    else
      let longest := longest_streak streaks in
      if negb auth && (longest <? b_threshold b) then (None, put_health b camera h)
      else (Some (MkTransition tk_offline camera longest (Some error) auth),
            put_health b camera (set_offline true h)).

Definition record_listener_failure (camera project : Z) (error : string) (b : CameraHealthBook)
    : option HealthTransition * CameraHealthBook :=
  let h := health b camera in
  let streak := default 0 (h_listener_streaks h !! project) + 1 in
  let m := <[project := streak]> (h_listener_streaks h) in
  if h_events_alerted h || (streak <? b_threshold b)
  then (None, put_health b camera (set_listeners m (h_events_alerted h) h))
  else (Some (MkTransition tk_events_unavailable camera streak (Some error) false),
        put_health b camera (set_listeners m true h)).

Definition record_listener_success (camera project : Z) (b : CameraHealthBook)
    : option HealthTransition * CameraHealthBook :=
  let h := health b camera in
  let m := delete project (h_listener_streaks h) in
  if negb (h_events_alerted h) || negb (bool_decide (m = ∅))
  then (None, put_health b camera (set_listeners m (h_events_alerted h) h))
  else (Some (MkTransition tk_events_available camera 0 None false),
        put_health b camera (set_listeners m false h)).

Definition forget_listener (camera project : Z) (b : CameraHealthBook) : CameraHealthBook :=
  match b_cameras b !! camera with
  | None => b
  | Some h => put_health b camera
                (set_listeners (delete project (h_listener_streaks h)) (h_events_alerted h) h)
  end.

Definition resolve_events (camera : Z) (b : CameraHealthBook)
    : option HealthTransition * CameraHealthBook :=
  match b_cameras b !! camera with
  | None => (None, b)
  | Some h =>
      if negb (h_events_alerted h) || negb (bool_decide (h_listener_streaks h = ∅))
      then (None, b)
      else (Some (MkTransition tk_events_available camera 0 None false),
            put_health b camera (set_listeners (h_listener_streaks h) false h))
  end.

Definition rearm (t : HealthTransition) (b : CameraHealthBook) : CameraHealthBook :=
  let c := ht_camera_id t in
  let h := health b c in
  match ht_kind t with
  | tk_offline => put_health b c (set_offline false h)
  | tk_recovered => put_health b c (set_offline true h)
  | tk_events_unavailable => put_health b c (set_listeners (h_listener_streaks h) false h)
  | tk_events_available => put_health b c (set_listeners (h_listener_streaks h) true h)
  | tk_local => put_health b c (set_local false h)
  end.

(** ** Outcomes *)

(** What an attempt reports: [None] is a success. *)
Record outcome := MkOutcome { o_camera : Z; o_project : Z; o_exc : option capture_exc; o_text : string }.

(** [_report_camera_outcome], up to the event write. *)
Definition report_outcome (o : outcome) (b : CameraHealthBook)
    : option HealthTransition * CameraHealthBook :=
  match o_exc o with
  | None => record_success (o_camera o) b
  | Some e =>
      match classify_failure e with
      | fk_project => (None, b)
      | k => record_failure (o_camera o) (o_text o) (bool_decide (k = fk_auth))
               (bool_decide (k = fk_local)) (Some (o_project o)) b
      end
  end.

(** [_emit_camera_health_transition]: decisions queue for their camera's lock
    (FIFO) and are written in turn; the write may fail. *)
Record Reporting := MkReporting {
  r_book : CameraHealthBook;
  r_queue : list HealthTransition;      (** decided, not yet written: oldest first *)
  r_written : list HealthTransition;    (** events in the database, oldest first *)
}.

Definition not_of (camera : Z) (q : list HealthTransition) : Prop :=
  Forall (λ t, ht_camera_id t ≠ camera) q.

(** With [calm], a write fails only while its camera has no later decision
    waiting. *)
Inductive report_step (calm : bool) : Reporting → Reporting → Prop :=
  | rs_outcome b q ws o t b' :
      report_outcome o b = (t, b') →
      report_step calm (MkReporting b q ws) (MkReporting b' (q ++ option_list t) ws)
  | rs_write b q1 t q2 ws :
      not_of (ht_camera_id t) q1 →
      report_step calm (MkReporting b (q1 ++ t :: q2) ws) (MkReporting b (q1 ++ q2) (ws ++ [t]))
  | rs_write_fails b q1 t q2 ws :
      not_of (ht_camera_id t) q1 → (calm = true → not_of (ht_camera_id t) q2) →
      report_step calm (MkReporting b (q1 ++ t :: q2) ws) (MkReporting (rearm t b) (q1 ++ q2) ws).

(** Whether the database shows a standing alert of the camera: the last of its
    offline and recovered events decides. *)
Definition alert_stands (camera : Z) (initially : bool) (ws : list HealthTransition) : bool :=
  foldl (λ st t, if decide (ht_camera_id t = camera) then
                   match ht_kind t with
                   | tk_offline => true | tk_recovered => false | _ => st
                   end
                 else st) initially ws.

(** ** The specification: failures since the last success *)

(** The counted failures of a camera since its last success, oldest first: the
    project and whether the camera rejected the login. *)
Definition outage_step (camera : Z) (tail : list (Z * bool)) (o : outcome) : list (Z * bool) :=
  if decide (o_camera o = camera) then
    match o_exc o with
    | None => []
    | Some e =>
        match classify_failure e with
        | fk_camera => tail ++ [(o_project o, false)]
        | fk_auth => tail ++ [(o_project o, true)]
        | _ => tail
        end
    end
  else tail.
Definition outage (camera : Z) (os : list outcome) : list (Z * bool) :=
  foldl (outage_step camera) [] os.

Definition failures_of (project : Z) (tail : list (Z * bool)) : Z :=
  Z.of_nat (length (filter (λ x, x.1 = project) tail)).

(** The camera counts as offline: a rejected login, or [threshold] failures of one
    project. *)
Definition offline_spec (threshold : Z) (tail : list (Z * bool)) : bool :=
  existsb snd tail || existsb (λ x, threshold <=? failures_of x.1 tail) tail.

Fixpoint report_all (os : list outcome) (b : CameraHealthBook)
    : list (option HealthTransition) * CameraHealthBook :=
  match os with
  | [] => ([], b)
  | o :: os =>
      let '(t, b) := report_outcome o b in
      let '(ts, b) := report_all os b in (t :: ts, b)
  end.

(** ** Streaks *)
Lemma longest_streak_spec (m : gmap (option Z) Z) :
  (∀ p n, m !! p = Some n → n ≤ longest_streak m) ∧
  (longest_streak m = 0 ∨ ∃ p, m !! p = Some (longest_streak m)).
Proof.
  unfold longest_streak. apply (map_fold_weak_ind (λ acc (m : gmap (option Z) Z),
    (∀ p n, m !! p = Some n → n ≤ acc) ∧ (acc = 0 ∨ ∃ p, m !! p = Some acc))).
  - split; [|by left]. intros p n. by rewrite lookup_empty.
  - intros p n m' acc Hp [Hle Hmax]. split.
    + intros q x [[<- <-]|[_ Hq]]%lookup_insert_Some; [lia|]. specialize (Hle _ _ Hq). lia.
    + destruct (Z.max_spec n acc) as [[? ->]|[? ->]].
      * destruct Hmax as [->|[q Hq]]; [by left|]. right. exists q.
        rewrite lookup_insert_ne; [done|]. intros ->. congruence.
      * right. exists p. apply lookup_insert_eq.
Qed.

Lemma failures_of_app p t1 t2 : failures_of p (t1 ++ t2) = failures_of p t1 + failures_of p t2.
Proof. unfold failures_of. rewrite filter_app, length_app. lia. Qed.
Lemma failures_of_single p q a : failures_of p [(q, a)] = if decide (q = p) then 1 else 0.
Proof. unfold failures_of. rewrite filter_cons. simpl. by case_decide. Qed.

(** What the record of a camera says about its outage. *)
Record tracks (th : Z) (h : CameraHealth) (tail : list (Z * bool)) : Prop := {
  tr_streaks p : h_project_streaks h !! Some p =
    if failures_of p tail =? 0 then None else Some (failures_of p tail);
  tr_none : h_project_streaks h !! None = None;
  tr_count : h_consecutive_failures h = Z.of_nat (length tail);
  tr_offline : h_offline_alerted h = offline_spec th tail;
}.

Lemma failures_of_elem p tail : failures_of p tail ≠ 0 → ∃ a, (p, a) ∈ tail.
Proof.
  unfold failures_of. intros Hne. destruct (filter (λ x, x.1 = p) tail) as [|[q a] l] eqn:Hf; [done|].
  assert ((q, a) ∈ filter (λ x, x.1 = p) tail) as [Hq Hin]%list_elem_of_filter by (rewrite Hf; by left).
  simpl in Hq. subst q. by exists a.
Qed.

Lemma offline_spec_false th tail :
  0 < th → offline_spec th tail = false ↔
  (∀ x, x ∈ tail → x.2 = false) ∧ ∀ p, failures_of p tail < th.
Proof.
  intros Hth. unfold offline_spec. rewrite orb_false_iff, <-!not_true_iff_false, !existsb_exists.
  split.
  - intros [Ha Hb]. split.
    + intros x Hx. apply not_true_iff_false. intros Hx2. apply Ha. exists x.
      by rewrite <-list_elem_of_In.
    + intros p. apply Z.nle_gt. intros Hle.
      destruct (failures_of_elem p tail) as [a Hin]; [lia|].
      apply Hb. exists (p, a). rewrite <-list_elem_of_In. split; [done|]. by apply Z.leb_le.
  - intros [Ha Hb]. split.
    + intros (x & Hx%list_elem_of_In & Hx2). by rewrite (Ha x Hx) in Hx2.
    + intros (x & _ & Hle%Z.leb_le). specialize (Hb x.1). lia.
Qed.

Lemma offline_spec_mono th tail x : offline_spec th tail = true → offline_spec th (tail ++ [x]) = true.
Proof.
  unfold offline_spec. rewrite !orb_true_iff, !existsb_exists. intros [(y & Hy & Ha)|(y & Hy & Hle)].
  - left. exists y. split; [|done]. apply in_app_iff. by left.
  - right. exists y. split; [apply in_app_iff; by left|]. apply Z.leb_le.
    apply Z.leb_le in Hle. rewrite failures_of_app. unfold failures_of at 2. lia.
Qed.

Lemma streaks_insert th h tail p a :
  tracks th h tail →
  let m := <[Some p := default 0 (h_project_streaks h !! Some p) + 1]> (h_project_streaks h) in
  (∀ q, m !! Some q = if failures_of q (tail ++ [(p, a)]) =? 0 then None
                      else Some (failures_of q (tail ++ [(p, a)]))) ∧
  m !! None = None ∧
  (longest_streak m < th ↔ 0 < th ∧ ∀ q, failures_of q (tail ++ [(p, a)]) < th).
Proof.
  intros [Hs Hn _ _]. cbv zeta. set (m := <[_ := _]> _).
  assert (∀ q, m !! Some q = if failures_of q (tail ++ [(p, a)]) =? 0 then None
    else Some (failures_of q (tail ++ [(p, a)]))) as Hm.
  { intros q. subst m. rewrite failures_of_app, failures_of_single.
    assert (0 ≤ failures_of q tail) by (unfold failures_of; lia).
    destruct (decide (p = q)) as [->|Hne].
    - rewrite lookup_insert_eq, Hs. rewrite (proj2 (Z.eqb_neq (failures_of q tail + 1) 0)) by lia.
      destruct (Z.eqb_spec (failures_of q tail) 0); simpl; f_equal; lia.
    - rewrite lookup_insert_ne by congruence. by rewrite Hs, Z.add_0_r. }
  assert (m !! None = None) as Hmn by (subst m; by rewrite lookup_insert_ne).
  split_and!; [done|done|]. clearbody m.
  destruct (longest_streak_spec m) as [Hle Hmax]. split.
  - intros Hlt. assert (0 ≤ longest_streak m).
    { destruct Hmax as [->|[[q|] Hq]]; [done| |congruence]. rewrite Hm in Hq.
      destruct (Z.eqb_spec (failures_of q (tail ++ [(p, a)])) 0); [done|].
      injection Hq as <-. unfold failures_of. lia. }
    split; [lia|]. intros q. specialize (Hm q).
    destruct (Z.eqb_spec (failures_of q (tail ++ [(p, a)])) 0); [lia|].
    specialize (Hle _ _ Hm). lia.
  - intros [Hth Hall]. destruct Hmax as [->|[[q|] Hq]]; [done| |congruence].
    rewrite Hm in Hq. destruct (Z.eqb_spec (failures_of q (tail ++ [(p, a)])) 0); [done|].
    injection Hq as <-. apply Hall.
Qed.

(** One counted failure: the record follows, and the alert is raised exactly when
    the camera becomes offline. *)
Lemma track_failure b camera p a text tail :
  0 < b_threshold b → tracks (b_threshold b) (health b camera) tail →
  let r := record_failure camera text a false (Some p) b in
  tracks (b_threshold b) (health r.2 camera) (tail ++ [(p, a)]) ∧
  match r.1 with
  | Some t => ht_kind t = tk_offline ∧ ht_camera_id t = camera ∧ ht_auth_failed t = a ∧
      offline_spec (b_threshold b) tail = false ∧
      offline_spec (b_threshold b) (tail ++ [(p, a)]) = true
  | None => offline_spec (b_threshold b) (tail ++ [(p, a)]) = offline_spec (b_threshold b) tail
  end.
Proof.
  intros Hth Htr. pose proof (streaks_insert _ _ _ p a Htr) as (Hm & Hn & Hlong).
  destruct Htr as [_ _ Hc Ho]. unfold record_failure, health, put_health. cbn [b_cameras].
  fold (health b camera). set (m := <[_ := _]> _) in *. clearbody m.
  cbn [h_offline_alerted]. rewrite Ho.
  destruct (offline_spec (b_threshold b) tail) eqn:Hoff.
  - cbn [fst snd b_cameras]. rewrite lookup_insert_eq. cbn.
    rewrite offline_spec_mono by done. split; [|done].
    split; cbn; [done|done|rewrite Hc, length_app; simpl; lia|by rewrite offline_spec_mono].
  - apply offline_spec_false in Hoff as [Hauth Hcnt]; [|done].
    assert (offline_spec (b_threshold b) (tail ++ [(p, a)]) =
      negb (negb a && (longest_streak m <? b_threshold b))) as Hspec.
    { destruct (negb a && (longest_streak m <? b_threshold b)) eqn:Hq; cbn [negb].
      - apply andb_true_iff in Hq as [?%negb_true_iff Hlt%Z.ltb_lt]. subst a.
        apply offline_spec_false; [done|]. split; [|by apply Hlong].
        intros x [Hx|[= ->]%list_elem_of_singleton]%elem_of_app; [by apply Hauth|done].
      - apply not_false_iff_true. intros Hf%offline_spec_false; [|done].
        destruct Hf as [Ha Hall]. apply andb_false_iff in Hq as [Hq%negb_false_iff|Hq%Z.ltb_ge].
        + specialize (Ha (p, a) ltac:(set_solver)). simpl in Ha. congruence.
        + assert (longest_streak m < b_threshold b) by by apply Hlong. lia. }
    destruct (negb a && (longest_streak m <? b_threshold b)); cbn [negb] in Hspec;
      cbn [fst snd b_cameras]; rewrite lookup_insert_eq; cbn; rewrite Hspec.
    + split; [|done]. split; cbn; [done|done|rewrite Hc, length_app; simpl; lia|by rewrite Hspec].
    + split; [|done]. split; cbn; [done|done|rewrite Hc, length_app; simpl; lia|by rewrite Hspec].
Qed.

Lemma health_put_ne b c c' h : c ≠ c' → health (put_health b c h) c' = health b c'.
Proof. intros. unfold health, put_health. cbn. by rewrite lookup_insert_ne. Qed.
Lemma health_put_eq b c h : health (put_health b c h) c = h.
Proof. unfold health, put_health. cbn. by rewrite lookup_insert_eq. Qed.

(** A report touches only its camera, and leaves the threshold alone. *)
Lemma report_outcome_frame o b :
  let r := report_outcome o b in
  b_threshold r.2 = b_threshold b ∧
  (∀ c, c ≠ o_camera o → health r.2 c = health b c) ∧
  (∀ t, r.1 = Some t → ht_camera_id t = o_camera o).
Proof.
  cbv zeta. unfold report_outcome, record_success, record_failure.
  destruct (o_exc o) as [e|]; [destruct (classify_failure e)|]; repeat case_match; cbn;
    (split_and!; [done|intros; by rewrite ?health_put_ne by done|naive_solver]).
Qed.

Lemma track_outcome o b camera tail :
  0 < b_threshold b → tracks (b_threshold b) (health b camera) tail →
  let r := report_outcome o b in
  tracks (b_threshold b) (health r.2 camera) (outage_step camera tail o) ∧
  match r.1 with
  | Some t =>
      ht_camera_id t = camera →
      match ht_kind t with
      | tk_offline => offline_spec (b_threshold b) tail = false ∧
          offline_spec (b_threshold b) (outage_step camera tail o) = true
      | tk_recovered => offline_spec (b_threshold b) tail = true ∧ outage_step camera tail o = []
      | _ => outage_step camera tail o = tail
      end
  | None => offline_spec (b_threshold b) (outage_step camera tail o) =
            offline_spec (b_threshold b) tail
  end.
Proof.
  intros Hth Htr. cbv zeta. pose proof (report_outcome_frame o b) as (_ & Hother & Hcam).
  unfold outage_step. destruct (decide (o_camera o = camera)) as [<-|Hne]; cycle 1.
  { rewrite Hother by done. split; [done|]. destruct (report_outcome o b).1 as [t|]; [|done].
    intros Hc. by rewrite (Hcam t eq_refl) in Hc. }
  clear Hother Hcam. unfold report_outcome. destruct (o_exc o) as [e|].
  - destruct (classify_failure e) eqn:Hk; cbn [fst snd].
    + rewrite !bool_decide_false by done.
      destruct (track_failure b (o_camera o) (o_project o) false (o_text o) tail Hth Htr) as [H1 H2].
      split; [done|]. destruct (record_failure _ _ _ _ _ _).1; [|done].
      destruct H2 as (Hkind & _ & _ & ? & ?). by rewrite Hkind.
    + rewrite bool_decide_true, bool_decide_false by done.
      destruct (track_failure b (o_camera o) (o_project o) true (o_text o) tail Hth Htr) as [H1 H2].
      split; [done|]. destruct (record_failure _ _ _ _ _ _).1; [|done].
      destruct H2 as (Hkind & _ & _ & ? & ?). by rewrite Hkind.
    + rewrite bool_decide_false, bool_decide_true by done. unfold record_failure.
      destruct (h_local_streak _); cbn [fst snd]; rewrite health_put_eq; [done|].
      split; [|done]. by destruct Htr; split.
    + done.
  - destruct Htr as [_ _ _ Ho]. unfold record_success. rewrite Ho.
    destruct (offline_spec _ tail) eqn:Hoff; cbn [negb fst snd]; rewrite health_put_eq;
      (split; [|done]); split; done.
Qed.

(** The offline alert says what the outcomes say.  From an empty book, after
    any sequence of capture outcomes of any projects and cameras, a camera is
    marked offline exactly when, since its last success, some attempt was refused
    for its login or one project failed the configured number of times in a row
    on it (blips of several projects do not add up; local failures and one
    project's refused moves do not count); and each report raises the alert
    exactly at the outcome that makes the camera offline, and resolves it exactly
    at the first success after. *)
Theorem offline_alert_matches_outcomes (threshold : Z) (os : list outcome) (o : outcome) (camera : Z) :
  let b := (report_all os (new_book threshold)).2 in
  let r := report_outcome o b in
  let th := Z.max 1 threshold in
  is_offline b camera = offline_spec th (outage camera os) ∧
  is_offline r.2 camera = offline_spec th (outage camera (os ++ [o])) ∧
  (is_offline b camera = false → is_offline r.2 camera = true →
     ∃ t, r.1 = Some t ∧ ht_kind t = tk_offline ∧ ht_camera_id t = camera) ∧
  (is_offline b camera = true → is_offline r.2 camera = false →
     ∃ t, r.1 = Some t ∧ ht_kind t = tk_recovered ∧ ht_camera_id t = camera) ∧
  (is_offline b camera = is_offline r.2 camera → ∀ t, r.1 = Some t → ht_camera_id t = camera →
     ht_kind t ≠ tk_offline ∧ ht_kind t ≠ tk_recovered).
Proof.
  cbv zeta. set (th := Z.max 1 threshold).
  assert (∀ os b tail, b_threshold b = th → tracks th (health b camera) tail →
    b_threshold (report_all os b).2 = th ∧
    tracks th (health (report_all os b).2 camera) (foldl (outage_step camera) tail os)) as Hall.
  { clear os o. induction os as [|o os IH]; intros b tail Hb Htr; [done|].
    cbn [report_all foldl]. destruct (report_outcome o b) as [t b1] eqn:Hr.
    destruct (report_all os b1) as [ts b2] eqn:Hr2. cbn [snd].
    pose proof (report_outcome_frame o b) as (Hth & _). rewrite Hr in Hth. cbn in Hth.
    pose proof (track_outcome o b camera tail ltac:(lia)) as Ht. rewrite Hb, Hr in Ht.
    destruct (Ht Htr) as [Ht1 _]. replace b2 with (report_all os b1).2 by by rewrite Hr2.
    apply IH; [congruence|done]. }
  destruct (Hall os (new_book threshold) []) as [Hth Htr]; [done| |].
  { unfold health, new_book. cbn. rewrite lookup_empty. by split. }
  fold (outage camera os) in Htr. set (b := (report_all os (new_book threshold)).2) in *.
  pose proof (track_outcome o b camera (outage camera os) ltac:(lia)) as Ho.
  rewrite Hth in Ho. destruct (Ho Htr) as [Htr' Htrans].
  unfold outage in Htr' |- *. rewrite foldl_app. cbn [foldl]. unfold is_offline.
  rewrite (tr_offline _ _ _ Htr), (tr_offline _ _ _ Htr'). fold (outage camera os) in *.
  pose proof (report_outcome_frame o b) as (_ & _ & Hcam).
  assert (o_camera o ≠ camera → outage_step camera (outage camera os) o = outage camera os) as Hsame.
  { intros Hne. unfold outage_step. by rewrite decide_False. }
  destruct (report_outcome o b).1 as [t|].
  - specialize (Hcam t eq_refl). destruct (decide (o_camera o = camera)) as [He|Hne]; cycle 1.
    { rewrite (Hsame Hne). split_and!; try done; [congruence..|].
      intros _ t' [= <-] Hc. congruence. }
    rewrite He in Hcam. specialize (Htrans Hcam).
    destruct (ht_kind t) eqn:Hk; try rewrite Htrans; split_and!; try done;
      try (intros; exists t; done); try congruence; try (intros _ t' [= <-] _; by rewrite Hk).
    + destruct Htrans as [-> ->]. done.
    + destruct Htrans as [-> ->]. done.
    + destruct Htrans as [-> ->]. done.
    + destruct Htrans as [-> ->]. done.
  - rewrite Htrans. split_and!; try done; congruence.
Qed.

(** ** The events tell the truth *)
Definition own (camera : Z) (l : list HealthTransition) : list HealthTransition :=
  filter (λ t, ht_camera_id t = camera) l.

(** Offline and recovered events alternate, starting from [st]. *)
Fixpoint alternates (st : bool) (l : list HealthTransition) : Prop :=
  match l with
  | [] => True
  | t :: l =>
      match ht_kind t with
      | tk_offline => st = false ∧ alternates true l
      | tk_recovered => st = true ∧ alternates false l
      | _ => alternates st l
      end
  end.
(** The state the last of them leaves. *)
Definition final (st : bool) (l : list HealthTransition) : bool :=
  foldl (λ st t, match ht_kind t with tk_offline => true | tk_recovered => false | _ => st end) st l.

Lemma alert_stands_own camera st ws : alert_stands camera st ws = final st (own camera ws).
Proof.
  unfold alert_stands, final, own. revert st. induction ws as [|t ws IH]; intros st; [done|].
  cbn [foldl]. rewrite filter_cons. case_decide; cbn [foldl]; by rewrite IH.
Qed.

Lemma alternates_app st l1 l2 : alternates st (l1 ++ l2) ↔ alternates st l1 ∧ alternates (final st l1) l2.
Proof.
  revert st. induction l1 as [|t l1 IH]; intros st; cbn; [tauto|].
  destruct (ht_kind t); rewrite IH; tauto.
Qed.
Lemma final_app st l1 l2 : final st (l1 ++ l2) = final (final st l1) l2.
Proof. unfold final. by rewrite foldl_app. Qed.

Lemma own_app c l1 l2 : own c (l1 ++ l2) = own c l1 ++ own c l2.
Proof. apply filter_app. Qed.
Lemma own_cons c t l : own c (t :: l) = if decide (ht_camera_id t = c) then t :: own c l else own c l.
Proof. unfold own. rewrite filter_cons. done. Qed.
Lemma own_none c l : not_of c l → own c l = [].
Proof.
  unfold not_of. induction 1 as [|t l Ht _ IH]; [done|]. rewrite own_cons. by rewrite decide_False.
Qed.

(** The latch moves exactly with the decisions. *)
Lemma report_latch o b t b' c :
  report_outcome o b = (t, b') →
  alternates (is_offline b c) (own c (option_list t)) ∧
  final (is_offline b c) (own c (option_list t)) = is_offline b' c.
Proof.
  intros Hr. pose proof (report_outcome_frame o b) as (_ & Hother & Hcam). rewrite Hr in *. cbn in *.
  destruct (decide (c = o_camera o)) as [->|Hne]; cycle 1.
  { unfold is_offline. rewrite Hother by done. rewrite own_none; [done|].
    destruct t as [t|]; [|constructor]. constructor; [|constructor].
    rewrite (Hcam t eq_refl). congruence. }
  assert (own (o_camera o) (option_list t) = option_list t) as ->.
  { destruct t as [t|]; [|done]. change (option_list (Some t)) with [t].
    rewrite own_cons. by rewrite decide_True by auto. }
  clear Hother Hcam. unfold report_outcome in Hr. unfold is_offline.
  assert (∀ a l, record_failure (o_camera o) (o_text o) a l (Some (o_project o)) b = (t, b') →
    alternates (h_offline_alerted (health b (o_camera o))) (option_list t) ∧
    final (h_offline_alerted (health b (o_camera o))) (option_list t) =
      h_offline_alerted (health b' (o_camera o))) as Hfail.
  { intros a l. unfold record_failure. cbn [h_offline_alerted].
    destruct l; [destruct (h_local_streak _)|destruct (h_offline_alerted (health b _)) eqn:Hoff;
      [|destruct (negb a && _)]]; intros [= <- <-]; rewrite health_put_eq; cbn; rewrite ?Hoff; done. }
  destruct (o_exc o) as [e|]; [destruct (classify_failure e); by eauto || by injection Hr as <- <-|].
  unfold record_success in Hr. destruct (h_offline_alerted (health b (o_camera o)));
    cbn [negb] in Hr; injection Hr as <- <-; rewrite health_put_eq; done.
Qed.

(** The invariant: written and waiting events of the camera alternate and end at
    the latch. *)
Definition in_step (c : Z) (st : bool) (r : Reporting) : Prop :=
  alternates st (own c (r_written r) ++ own c (r_queue r)) ∧
  final st (own c (r_written r) ++ own c (r_queue r)) = is_offline (r_book r) c.

Lemma rearm_latch t b c :
  is_offline (rearm t b) c =
  if decide (ht_camera_id t = c) then
    match ht_kind t with tk_offline => false | tk_recovered => true | _ => is_offline b c end
  else is_offline b c.
Proof.
  unfold rearm, is_offline. case_decide as Hc.
  - subst c. destruct (ht_kind t); by rewrite health_put_eq.
  - destruct (ht_kind t); by rewrite health_put_ne.
Qed.

Lemma calm_in_step c st r r' : report_step true r r' → in_step c st r → in_step c st r'.
Proof.
  unfold in_step. destruct 1 as [b q ws o t b' Ho|b q1 t q2 ws Hq1|b q1 t q2 ws Hq1 Hq2];
    cbn [r_book r_queue r_written]; rewrite ?own_app, ?own_cons; intros [Ha Hf].
  - destruct (report_latch o b t b' c Ho) as [Ha' Hf'].
    rewrite !app_assoc, alternates_app, (final_app _ _ (own c (option_list t))), Hf. done.
  - case_decide as Hc; [|by rewrite app_nil_r]. subst c. rewrite (own_none _ _ Hq1) in *.
    cbn [app] in *. by rewrite <-app_assoc.
  - rewrite rearm_latch. case_decide as Hc; [|done]. subst c.
    rewrite (own_none _ _ Hq1), (own_none _ _ (Hq2 eq_refl)) in *. cbn [app] in *.
    rewrite app_nil_r. rewrite alternates_app in Ha. rewrite final_app in Hf. cbn in Ha, Hf.
    destruct (ht_kind t); naive_solver.
Qed.

(** No stale alert.  Starting from a book whose latch agrees with the database
    (seeded at start-up), after any interleaving of reports, event writes and
    write failures that strike only while the camera has no later decision
    waiting, once the camera's events are all written the database shows a
    standing offline alert exactly when the camera is marked offline. *)
Theorem alert_agrees_with_latch (c : Z) (st : bool) (b : CameraHealthBook) (r : Reporting) :
  is_offline b c = st → rtc (report_step true) (MkReporting b [] []) r → not_of c (r_queue r) →
  alert_stands c st (r_written r) = is_offline (r_book r) c.
Proof.
  intros Hb Hr Hq. assert (in_step c st r) as [_ Hf].
  { clear Hq. revert r Hr. apply rtc_ind_r; [by split|].
    intros r1 r2 _ Hstep. by apply calm_in_step. }
  by rewrite alert_stands_own, <-Hf, (own_none _ _ Hq), app_nil_r.
Qed.

Definition demo_outcome (ok : bool) : outcome :=
  MkOutcome 4 1 (if ok then None else Some (ExAuth false)) "rejected".

(** A failed write can strike with later decisions waiting: the offline event of a
    first outage cannot be written while its recovery and a second outage are
    already decided.  Undoing the first decision clears the latch the second
    outage set; its alert is then written and stands with the latch clear, and the
    next success resolves nothing. *)
Theorem failed_write_leaves_stale_alert :
  let b0 := new_book 3 in
  let r1 := report_outcome (demo_outcome false) b0 in
  let r2 := report_outcome (demo_outcome true) r1.2 in
  let r3 := report_outcome (demo_outcome false) r2.2 in
  ∃ o1 rc o2, r1.1 = Some o1 ∧ r2.1 = Some rc ∧ r3.1 = Some o2 ∧
    rtc (report_step false) (MkReporting b0 [] [])
      (MkReporting (rearm o1 r3.2) [] [rc; o2]) ∧
    alert_stands 4 false [rc; o2] = true ∧ is_offline (rearm o1 r3.2) 4 = false ∧
    (report_outcome (demo_outcome true) (rearm o1 r3.2)).1 = None.
Proof.
  cbv zeta. eexists _, _, _. split; [vm_compute; reflexivity|].
  split; [vm_compute; reflexivity|]. split; [vm_compute; reflexivity|]. split.
  - eapply rtc_l; [eapply (rs_outcome _ _ _ _ (demo_outcome false)); vm_compute; reflexivity|].
    eapply rtc_l; [eapply (rs_outcome _ _ _ _ (demo_outcome true)); vm_compute; reflexivity|].
    eapply rtc_l; [eapply (rs_outcome _ _ _ _ (demo_outcome false)); vm_compute; reflexivity|].
    cbn [app option_list].
    eapply rtc_l; [apply (rs_write_fails false _ []); [constructor|done]|]. cbn [app].
    eapply rtc_l; [apply (rs_write false _ []); constructor|]. cbn [app].
    eapply rtc_l; [apply (rs_write false _ []); constructor|]. cbn [app].
    vm_compute. apply rtc_refl.
  - split_and!; vm_compute; reflexivity.
Qed.

(** ** Witnesses *)
Lemma alert_agrees_with_latch_witness :
  alert_stands 4 true [MkTransition tk_recovered 4 0 None false] =
  is_offline (report_outcome (demo_outcome true) (seed [4] (new_book 3))).2 4.
Proof.
  apply (alert_agrees_with_latch 4 true (seed [4] (new_book 3))
           (MkReporting (report_outcome (demo_outcome true) (seed [4] (new_book 3))).2 []
              [MkTransition tk_recovered 4 0 None false])).
  - reflexivity.
  - eapply rtc_l; [eapply (rs_outcome _ _ _ _ (demo_outcome true)); vm_compute; reflexivity|].
    eapply rtc_l; [apply (rs_write true _ []); constructor|]. vm_compute. apply rtc_refl.
  - constructor.
Defined.
