(* ===== verification/Bytes.v ===== *)
(** * Byte strings

    The functions of Python's [bytes] and latin-1 [str] that the web layer uses,
    on lists of 8-bit characters: [find], [partition], [split], [strip], [lower].
    A latin-1 text and its bytes are the same list. *)

From Stdlib Require Import Ascii.
From S2P Require Import Prelude PyVal.
From stdpp Require Import options.
Local Open Scope Z_scope.

Notation bytes := (list ascii).

(** A literal: [b "--"]. *)
Definition b (s : string) : bytes := String.list_ascii_of_string s.
Definition CR : ascii := "013"%char.
Definition LF : ascii := "010"%char.
Definition CRLF : bytes := [CR; LF].

(** [len(s)] *)
Definition len (s : bytes) : Z := Z.of_nat (length s).

(** [s.find(d)]: the first index at which [d] occurs. *)
Fixpoint find (d s : bytes) : option nat :=
  if decide (d `prefix_of` s) then Some 0%nat
  else match s with
       | [] => None
       | _ :: s => S <$> find d s
       end.

(** [s.partition(c)]: what comes before the first [c], whether there is one, and
    what comes after it. *)
Fixpoint partition_at (c : ascii) (s : bytes) : bytes * bool * bytes :=
  match s with
  | [] => ([], false, [])
  | x :: s => if Ascii.eqb x c then ([], true, s)
              else let '(before, found, after) := partition_at c s in (x :: before, found, after)
  end.

(** [s.split(c)] *)
Fixpoint split_at_char (c : ascii) (s : bytes) : list bytes :=
  match s with
  | [] => [[]]
  | x :: s =>
      if Ascii.eqb x c then [] :: split_at_char c s
      else match split_at_char c s with
           | [] => [[x]]
           | p :: ps => (x :: p) :: ps
           end
  end.

(** [s.split(b"\r\n")] *)
Fixpoint split_lines (s : bytes) : list bytes :=
  match s with
  | [] => [[]]
  | x :: s' =>
      match s' with
      | y :: s'' =>
          if Ascii.eqb x CR && Ascii.eqb y LF then [] :: split_lines s''
          else match split_lines s' with
               | [] => [[x]]
               | p :: ps => (x :: p) :: ps
               end
      | [] => [[x]]
      end
  end.

(** [s.strip()], [s.strip(chars)], [s.rstrip(chars)] by the set they strip. *)
Fixpoint lstrip_by (p : ascii → bool) (s : bytes) : bytes :=
  match s with
  | [] => []
  | x :: s' => if p x then lstrip_by p s' else s
  end.
Definition rstrip_by (p : ascii → bool) (s : bytes) : bytes := reverse (lstrip_by p (reverse s)).
Definition strip_by (p : ascii → bool) (s : bytes) : bytes := rstrip_by p (lstrip_by p s).

(** The whitespace of a latin-1 text, as [str.strip()] has it. *)
Definition latin1_space (c : ascii) : bool :=
  is_space c || (char_code c =? 133) || (char_code c =? 160).
Definition is_blank (c : ascii) : bool := Ascii.eqb c " " || Ascii.eqb c "009".
Definition is_char (c x : ascii) : bool := Ascii.eqb x c.

(** [str.lower()] on a latin-1 text. *)
Definition lower_char (c : ascii) : ascii :=
  let n := char_code c in
  if ((65 <=? n) && (n <=? 90)) || ((192 <=? n) && (n <=? 222) && negb (n =? 215))
  then ascii_of_nat (Z.to_nat (n + 32)) else c.
Definition lower_text (s : bytes) : bytes := lower_char <$> s.

(** ** Searching *)
Lemma find_Some d s i :
  find d s = Some i ↔ d `prefix_of` drop i s ∧ (i ≤ length s)%nat ∧
                      (∀ j, (j < i)%nat → ¬ d `prefix_of` drop j s).
Proof.
  revert i. induction s as [|x s IH]; intros i; cbn [find]; case_decide as Hd.
  1, 3: split; [intros [= <-]; split_and!; [done|lia|lia]|];
    intros (_ & _ & Hmin); destruct i as [|i]; [done|]; by destruct (Hmin 0%nat ltac:(lia)).
  - split; [done|]. intros (Hp & Hle & _). simpl in Hle. by assert (i = 0%nat) as -> by lia.
  - destruct i as [|i].
    + split; [|by intros (Hp & _)]. by intros (j & _ & ?)%fmap_Some.
    + transitivity (find d s = Some i).
      { rewrite fmap_Some. split; [by intros (j & ? & [= ->])|by eauto]. }
      rewrite IH. cbn [drop length]. split; intros (Hp & Hle & Hmin); split_and!; [done|lia| |done|lia|].
      * intros [|j] Hj; [done|]. apply Hmin. lia.
      * intros j Hj. apply (Hmin (S j)). lia.
Qed.

Lemma find_None d s : find d s = None ↔ ∀ j, (j ≤ length s)%nat → ¬ d `prefix_of` drop j s.
Proof.
  induction s as [|x s IH]; cbn [find]; case_decide as Hd.
  - split; [done|]. intros Hn. by destruct (Hn 0%nat ltac:(lia)).
  - split; [|done]. intros _ j Hj. simpl in Hj. by assert (j = 0%nat) as -> by lia.
  - split; [done|]. intros Hn. by destruct (Hn 0%nat ltac:(lia)).
  - rewrite fmap_None, IH. cbn [length]. split; intros Hn.
    + intros [|j] Hj; [done|]. apply Hn. lia.
    + intros j Hj. apply (Hn (S j)). lia.
Qed.

(** An occurrence that ends within [s] does not depend on what follows. *)
Lemma occurs_app (d s t : bytes) (j : nat) :
  (j + length d ≤ length s)%nat → d `prefix_of` drop j (s ++ t) ↔ d `prefix_of` drop j s.
Proof.
  intros Hj. rewrite drop_app_le by lia. split; [|by apply prefix_app_r].
  intros [r Hr]. assert (d = take (length d) (drop j s)) as ->.
  { rewrite <-(take_app_le _ t), Hr, take_app_length; [done|]. rewrite length_drop. lia. }
  apply prefix_take.
Qed.

Lemma occurs_length (d s : bytes) (j : nat) : (j ≤ length s)%nat → d `prefix_of` drop j s → (j + length d ≤ length s)%nat.
Proof. intros Hj Hp%prefix_length. rewrite length_drop in Hp. lia. Qed.

(** What is found first in [s] is found first in any continuation of [s]. *)
Lemma find_app d s t i : find d s = Some i → find d (s ++ t) = Some i.
Proof.
  rewrite !find_Some. intros (Hp & Hle & Hmin). pose proof (occurs_length _ _ _ Hle Hp).
  rewrite length_app, occurs_app by done. split_and!; [done|lia|].
  intros j Hj. rewrite occurs_app by lia. by apply Hmin.
Qed.

(** When [d] does not occur in [s], only the last [length d - 1] bytes of [s] matter
    for finding it later. *)
Lemma find_tail d s t k :
  find d s = None → (k + length d ≤ S (length s))%nat → (k ≤ length s)%nat →
  find d (s ++ t) = Nat.add k <$> find d (drop k s ++ t).
Proof.
  intros Hn Hk Hks. rewrite find_None in Hn.
  assert (∀ j, (j < k)%nat → ¬ d `prefix_of` drop j (s ++ t)) as Hlow.
  { intros j Hj. rewrite occurs_app by lia. apply Hn. lia. }
  assert (∀ j, drop (k + j) (s ++ t) = drop j (drop k s ++ t)) as Hdrop.
  { intros j. rewrite <-drop_drop. by rewrite drop_app_le. }
  assert (length (drop k s ++ t) + k = length (s ++ t))%nat as Hlen.
  { rewrite !length_app, length_drop. lia. }
  destruct (find d (drop k s ++ t)) as [i|] eqn:Hf; simpl.
  - rewrite find_Some in Hf |- *. destruct Hf as (Hp & Hle & Hmin). rewrite Hdrop.
    split_and!; [done|lia|]. intros j Hj. destruct (decide (j < k)%nat); [by apply Hlow|].
    replace j with (k + (j - k))%nat by lia. rewrite Hdrop. apply Hmin. lia.
  - rewrite find_None in Hf |- *. intros j Hj. destruct (decide (j < k)%nat); [by apply Hlow|].
    replace j with (k + (j - k))%nat by lia. rewrite Hdrop. apply Hf. lia.
Qed.

(** The cut at an occurrence. *)
Lemma find_cut d s i : find d s = Some i → s = take i s ++ d ++ drop (i + length d) s.
Proof.
  intros ([r Hr] & Hle & _)%find_Some. rewrite <-drop_drop, Hr, drop_app_length.
  rewrite <-Hr. by rewrite take_drop.
Qed.

Lemma find_here d t : find d (d ++ t) = Some 0%nat.
Proof. apply find_Some. split_and!; [by exists t|lia|lia]. Qed.

(** ** Stripping *)
Lemma lstrip_by_head p c s : p c = false → lstrip_by p (c :: s) = c :: s.
Proof. cbn. by intros ->. Qed.

Lemma lstrip_by_nil p s : lstrip_by p s = [] ↔ Forall (λ c, p c = true) s.
Proof.
  induction s as [|c s IH]; [done|]. cbn. rewrite Forall_cons.
  destruct (p c); [rewrite IH|]; naive_solver.
Qed.

Lemma rstrip_by_nil p s : rstrip_by p s = [] ↔ Forall (λ c, p c = true) s.
Proof.
  unfold rstrip_by. transitivity (lstrip_by p (reverse s) = []); [|by rewrite lstrip_by_nil, Forall_reverse].
  split; [|by intros ->]. intros H%(f_equal reverse). by rewrite reverse_involutive in H.
Qed.

Lemma lstrip_by_not_nil p s : lstrip_by p s ≠ [] → ∃ c t, lstrip_by p s = c :: t ∧ p c = false.
Proof.
  induction s as [|c s IH]; [done|]. cbn. destruct (p c) eqn:Hc; [done|]. by eauto.
Qed.

Lemma strip_by_nil p s : strip_by p s = [] ↔ Forall (λ c, p c = true) s.
Proof.
  unfold strip_by. rewrite rstrip_by_nil, <-(lstrip_by_nil p s). split.
  2: { intros Hn. by rewrite Hn. }
  intros Hf. destruct (decide (lstrip_by p s = [])) as [|(c & t & Heq & Hc)%lstrip_by_not_nil]; [done|].
  rewrite Heq in Hf. inversion Hf. congruence.
Qed.

Lemma rstrip_by_snoc p s c : rstrip_by p (s ++ [c]) = if p c then rstrip_by p s else s ++ [c].
Proof.
  unfold rstrip_by. rewrite reverse_snoc. cbn [lstrip_by]. destruct (p c); [done|].
  by rewrite reverse_cons, reverse_involutive.
Qed.

Lemma rstrip_by_none p s : Forall (λ c, p c = false) s → rstrip_by p s = s.
Proof.
  intros Hf. destruct s as [|c s] using rev_ind; [done|]. rewrite rstrip_by_snoc.
  apply Forall_app in Hf as [_ Hc]. inversion Hc as [|? ? Hp]. by rewrite Hp.
Qed.

(** A text whose first and last characters are not stripped is left alone. *)
Lemma strip_by_ends p c s d :
  p c = false → p d = false → strip_by p (c :: s ++ [d]) = c :: s ++ [d].
Proof.
  intros Hc Hd. unfold strip_by. rewrite lstrip_by_head by done.
  change (c :: s ++ [d]) with ((c :: s) ++ [d]). by rewrite rstrip_by_snoc, Hd.
Qed.
