(* ===== verification/Multipart.v ===== *)
(** * Reading uploads: web/multipart.py

    The incremental reader [MultipartParser] (feed chunks, get events), its client
    [stream_multipart], which spools file parts and keeps the wanted text fields,
    the in-memory reader [parse_multipart], and the ownership of a spool directory.
    Bytes are lists of characters (file [Bytes]); the UTF-8 decoding of text fields
    and the free space of the disk are parameters. *)

From Stdlib Require Import Ascii.
From S2P Require Import Prelude PyVal Bytes.
From stdpp Require Import options.
Local Open Scope Z_scope.

(** ** Headers *)

(** [key, _, value = piece.strip().partition("=")] with [key.strip().lower()] *)
Definition parameter (piece : bytes) : bytes * bytes :=
  let '(key, _, value) := partition_at "=" (strip_by latin1_space piece) in
  (lower_text (strip_by latin1_space key), value).

(** The value without surrounding whitespace, then without surrounding double quotes
    (character 34). *)
Definition unquote (value : bytes) : bytes :=
  strip_by (is_char "034") (strip_by latin1_space value).

(** [multipart_boundary] *)
Definition multipart_boundary (content_type : bytes) : option bytes :=
  if negb (bool_decide (b "multipart/form-data" `prefix_of` content_type)) then None
  else
    match list_find (λ piece, (parameter piece).1 = b "boundary")
            (split_at_char ";" content_type) with
    | None => None
    | Some (_, piece) =>
        match unquote (parameter piece).2 with [] => None | token => Some token end
    end.

(** [_part_headers]: a later header of the same name replaces an earlier one. *)
Definition part_headers (header_blob : bytes) : gmap bytes bytes :=
  foldl (λ headers line,
    match line with
    | [] => headers
    | _ =>
        let '(key, _, value) := partition_at ":" line in
        <[lower_text (strip_by latin1_space key) := strip_by latin1_space value]> headers
    end) ∅ (split_lines header_blob).

(** [disposition_param] *)
Definition disposition_param (disposition param : bytes) : option bytes :=
  match list_find (λ piece, (parameter piece).1 = param) (split_at_char ";" disposition) with
  | None => None
  | Some (_, piece) => Some (unquote (parameter piece).2)
  end.

Definition octet_stream : bytes := b "application/octet-stream".

(** ** The incremental reader *)
Definition MAX_FIELD_BYTES : Z := 64 * 1024.
Definition MAX_PART_HEADER_BYTES : Z := 16 * 1024.
Definition MAX_PREAMBLE_BYTES : Z := 64 * 1024.
Definition MAX_EXTRA_PARTS : Z := 32.
Definition MAX_TEXT_TOTAL_BYTES : Z := 64 * 1024.

Inductive MultipartEvent :=
  | PartStart (name : bytes) (filename : option bytes) (content_type : bytes)
  | PartData (data : bytes)
  | PartEnd
  | FormEnd.

Inductive parser_state := PREAMBLE | AFTER_DELIMITER | HEADERS | CONTENT | EPILOGUE.
#[export] Instance parser_state_eq_dec : EqDecision parser_state.
Proof. solve_decision. Defined.

Record MultipartParser := MkParser {
  mp_state : parser_state;
  mp_buf : bytes;
  mp_discarded : Z;
  mp_is_file : bool;
  mp_part_bytes : Z;
}.

(** [self._delimiter] for a boundary. *)
Definition delimiter_of (boundary : bytes) : bytes := CRLF ++ b "--" ++ boundary.

(** [MultipartParser.__init__]; [done] *)
Definition new_parser : MultipartParser := MkParser PREAMBLE CRLF 0 false 0.
Definition parser_done (p : MultipartParser) : bool := bool_decide (mp_state p = EPILOGUE).

(** What a step answers: whether it made progress, the parser, the events added. *)
Notation step_result := (result (bool * MultipartParser * list MultipartEvent)).

Section parser.
Context (delimiter : bytes).

(** [len(self._delimiter) - 1]: the tail that could still start a delimiter. *)
Definition keep : Z := len delimiter - 1.

(** [_preamble] *)
Definition preamble (p : MultipartParser) : step_result :=
  let buf := mp_buf p in
  match find delimiter buf with
  | Some index =>
      Ok (true, MkParser AFTER_DELIMITER (drop (index + length delimiter) buf)
                  (mp_discarded p) (mp_is_file p) (mp_part_bytes p), [])
  | None =>
      if len buf >? keep then
        let discarded := mp_discarded p + (len buf - keep) in
        if discarded >? MAX_PREAMBLE_BYTES then Raise (MultipartError "the multipart body has no first boundary")
        else Ok (false, MkParser PREAMBLE (drop (Z.to_nat (len buf - keep)) buf) discarded
                          (mp_is_file p) (mp_part_bytes p), [])
      else Ok (false, p, [])
  end.

(** [_after_delimiter] *)
Definition after_delimiter (p : MultipartParser) : step_result :=
  let buf := mp_buf p in
  if decide (take 2 buf = b "--") then
    Ok (false, MkParser EPILOGUE [] (mp_discarded p) (mp_is_file p) (mp_part_bytes p), [FormEnd])
  else
    match find CRLF buf with
    | None =>
        let pending := rstrip_by (is_char CR) buf in
        if (len buf >? 1024)
           || (negb (bool_decide (pending = b "-"))
               && negb (bool_decide (strip_by is_blank pending = [])))
        then Raise (MultipartError "a boundary is not followed by a line break")
        else Ok (false, p, [])
    | Some end_ =>
        if negb (bool_decide (strip_by is_blank (take end_ buf) = []))
        then Raise (MultipartError "a boundary is not followed by a line break")
        else Ok (true, MkParser HEADERS (drop (end_ + 2) buf) (mp_discarded p) (mp_is_file p)
                         (mp_part_bytes p), [])
    end.

(** The event and the file flag of a header block. *)
Definition part_start (blob : bytes) : MultipartEvent * bool :=
  let headers := part_headers blob in
  let disposition := default [] (headers !! b "content-disposition") in
  let name := default [] (disposition_param disposition (b "name")) in
  let filename := disposition_param disposition (b "filename") in
  (PartStart name filename (default octet_stream (headers !! b "content-type")),
   bool_decide (is_Some filename)).

(** [_headers] *)
Definition headers (p : MultipartParser) : step_result :=
  let buf := mp_buf p in
  let start blob consumed :=
    let '(event, is_file) := part_start blob in
    Ok (true, MkParser CONTENT (drop consumed buf) (mp_discarded p) is_file 0, [event]) in
  if decide (CRLF `prefix_of` buf) then start [] 2%nat
  else
    match find (CRLF ++ CRLF) buf with
    | None => if len buf >? MAX_PART_HEADER_BYTES
              then Raise (MultipartError "a multipart part header is too large")
              else Ok (false, p, [])
    | Some end_ =>
        if Z.of_nat end_ >? MAX_PART_HEADER_BYTES
        then Raise (MultipartError "a multipart part header is too large")
        else start (take end_ buf) (end_ + 4)%nat
    end.

(** [_emit]: the new byte count of the part, and the event. *)
Definition emit_data (p : MultipartParser) (data : bytes) : result (Z * list MultipartEvent) :=
  match data with
  | [] => Ok (mp_part_bytes p, [])
  | _ =>
      let part_bytes := mp_part_bytes p + len data in
      if negb (mp_is_file p) && (part_bytes >? MAX_FIELD_BYTES)
      then Raise (MultipartError "a multipart text field is too large")
      else Ok (part_bytes, [PartData data])
  end.

(** [_content] *)
Definition content (p : MultipartParser) : step_result :=
  let buf := mp_buf p in
  match find delimiter buf with
  | Some index =>
      e ← emit_data p (take index buf);
      Ok (true, MkParser AFTER_DELIMITER (drop (index + length delimiter) buf)
                  (mp_discarded p) (mp_is_file p) e.1, e.2 ++ [PartEnd])
  | None =>
      let safe := len buf - keep in
      if safe >? 0 then
        e ← emit_data p (take (Z.to_nat safe) buf);
        Ok (false, MkParser CONTENT (drop (Z.to_nat safe) buf) (mp_discarded p) (mp_is_file p) e.1,
            e.2)
      else Ok (false, p, [])
  end.

(** [_step] (never called once the closing delimiter has been seen). *)
Definition parser_step (p : MultipartParser) : step_result :=
  match mp_state p with
  | PREAMBLE => preamble p
  | AFTER_DELIMITER => after_delimiter p
  | HEADERS => headers p
  | CONTENT | EPILOGUE => content p
  end.

(** [while self._step(events): pass].  Every step that makes progress takes bytes
    from the buffer, so [S (length buf)] turns are enough ([drain_enough] in
    [MultipartFacts]). *)
Fixpoint drain (fuel : nat) (p : MultipartParser) : result (MultipartParser * list MultipartEvent) :=
  match fuel with
  | O => Ok (p, [])
  | S fuel =>
      r ← parser_step p;
      if (r.1.1 : bool) then q ← drain fuel r.1.2; Ok (q.1, r.2 ++ q.2) else Ok (r.1.2, r.2)
  end.

Definition append (p : MultipartParser) (chunk : bytes) : MultipartParser :=
  MkParser (mp_state p) (mp_buf p ++ chunk) (mp_discarded p) (mp_is_file p) (mp_part_bytes p).

(** [feed] *)
Definition feed (p : MultipartParser) (chunk : bytes)
    : result (MultipartParser * list MultipartEvent) :=
  if decide (mp_state p = EPILOGUE) then Ok (p, [])
  else drain (S (length (mp_buf p ++ chunk))) (append p chunk).

(** [finish] *)
Definition finish (p : MultipartParser) : result () :=
  if decide (mp_state p = EPILOGUE) then Ok ()
  else Raise (MultipartError "the multipart body ended before its closing boundary").

(** Feeding a sequence of chunks. *)
Fixpoint feed_all (p : MultipartParser) (chunks : list bytes)
    : result (MultipartParser * list MultipartEvent) :=
  match chunks with
  | [] => Ok (p, [])
  | chunk :: chunks =>
      r ← feed p chunk;
      q ← feed_all r.1 chunks;
      Ok (q.1, r.2 ++ q.2)
  end.
End parser.

(** ** Text fields: [bytes.decode("utf-8", errors="replace")]

    A text is its list of code points.  An ill-formed sequence becomes one U+FFFD for
    its longest well-formed beginning. *)
Notation text := (list Z).

Definition in_range (c : ascii) (lo hi : Z) : bool := (lo <=? char_code c) && (char_code c <=? hi).
(** The range of the second byte of a three- or four-byte sequence. *)
Definition second_ok (c0 c1 : ascii) : bool :=
  let n := char_code c0 in
  if n =? 224 then in_range c1 160 191
  else if n =? 237 then in_range c1 128 159
  else if n =? 240 then in_range c1 144 191
  else if n =? 244 then in_range c1 128 143
  else in_range c1 128 191.
Definition low6 (c : ascii) : Z := char_code c mod 64.

Fixpoint utf8_decode (s : bytes) : text :=
  match s with
  | [] => []
  | c0 :: s1 =>
      if in_range c0 0 127 then char_code c0 :: utf8_decode s1
      else if in_range c0 194 223 then
        match s1 with
        | c1 :: s2 =>
            if in_range c1 128 191
            then (char_code c0 mod 32 * 64 + low6 c1) :: utf8_decode s2
            else 65533 :: utf8_decode s1
        | [] => [65533]
        end
      else if in_range c0 224 239 then
        match s1 with
        | c1 :: s2 =>
            if second_ok c0 c1 then
              match s2 with
              | c2 :: s3 =>
                  if in_range c2 128 191
                  then (char_code c0 mod 16 * 4096 + low6 c1 * 64 + low6 c2) :: utf8_decode s3
                  else 65533 :: utf8_decode s2
              | [] => [65533]
              end
            else 65533 :: utf8_decode s1
        | [] => [65533]
        end
      else if in_range c0 240 244 then
        match s1 with
        | c1 :: s2 =>
            if second_ok c0 c1 then
              match s2 with
              | c2 :: s3 =>
                  if in_range c2 128 191 then
                    match s3 with
                    | c3 :: s4 =>
                        if in_range c3 128 191
                        then (char_code c0 mod 8 * 262144 + low6 c1 * 4096 + low6 c2 * 64
                              + low6 c3) :: utf8_decode s4
                        else 65533 :: utf8_decode s3
                    | [] => [65533]
                    end
                  else 65533 :: utf8_decode s2
              | [] => [65533]
              end
            else 65533 :: utf8_decode s1
        | [] => [65533]
        end
      else 65533 :: utf8_decode s1
  end.

(** ** The in-memory reader *)
Definition spool_path : Type := nat.
Record FilePart := MkFilePart {
  fp_name : bytes;
  fp_filename : bytes;
  fp_content_type : bytes;
  fp_data : bytes;
  fp_path : option spool_path;
  fp_size : Z;
}.
Record MultipartForm := MkForm {
  form_fields : gmap bytes text;
  form_files : list FilePart;
}.
Definition empty_form : MultipartForm := MkForm ∅ [].

(** [body.split(delimiter)] for a delimiter that is not empty: each occurrence takes
    at least one byte, so [length body] turns are enough. *)
Fixpoint split_on (fuel : nat) (delimiter body : bytes) : list bytes :=
  match fuel with
  | O => [body]
  | S fuel =>
      match find delimiter body with
      | None => [body]
      | Some i => take i body :: split_on fuel delimiter (drop (i + length delimiter) body)
      end
  end.
Definition split_body (delimiter body : bytes) : list bytes := split_on (length body) delimiter body.

(** [content[:-2] if content.endswith(CRLF)] *)
Definition trim_crlf (content : bytes) : bytes :=
  if decide (CRLF `suffix_of` content) then take (length content - 2) content else content.

(** The loop body of [parse_multipart]. *)
Definition parse_segment (form : MultipartForm) (segment : bytes) : MultipartForm :=
  if decide (segment ∈ [[]; b "--" ++ CRLF; b "--"; CRLF]) then form
  else
    let segment := if decide (CRLF `prefix_of` segment) then drop 2 segment else segment in
    match find (CRLF ++ CRLF) segment with
    | None => form
    | Some i =>
        let headers := part_headers (take i segment) in
        let content := trim_crlf (drop (i + 4) segment) in
        let disposition := default [] (headers !! b "content-disposition") in
        match default [] (disposition_param disposition (b "name")) with
        | [] => form
        | name =>
            match disposition_param disposition (b "filename") with
            | None => MkForm (<[name := utf8_decode content]> (form_fields form)) (form_files form)
            | Some filename =>
                match filename, content with
                | [], _ | _, [] => form
                | _, _ =>
                    MkForm (form_fields form)
                      (form_files form ++
                       [MkFilePart name filename
                          (default octet_stream (headers !! b "content-type")) content None 0])
                end
            end
        end
    end.

(** [parse_multipart] *)
Definition parse_multipart (body content_type : bytes) : MultipartForm :=
  match multipart_boundary content_type with
  | None => empty_form
  | Some boundary => foldl parse_segment empty_form (split_body (b "--" ++ boundary) body)
  end.
