(* ===== verification/MultipartFacts.v ===== *)
(** * What the upload reader guarantees

    The reader terminates; its events do not depend on how the body is cut into
    chunks; and the parts of a well-formed body come back exactly. *)

From Stdlib Require Import Ascii.
From S2P Require Import Prelude PyVal Bytes Multipart.
From stdpp Require Import options.
Local Open Scope Z_scope.

(** ** Events up to the cutting of content

    A reader may report a part's content in any number of pieces: [bytewise] cuts it
    into single bytes. *)
Definition bytewise (events : list MultipartEvent) : list MultipartEvent :=
  events ≫= λ event,
    match event with
    | PartData data => (λ c, PartData [c]) <$> data
    | _ => [event]
    end.

Lemma bytewise_app es es' : bytewise (es ++ es') = bytewise es ++ bytewise es'.
Proof. apply bind_app. Qed.

(** The total content a list of events carries, part starts reset nothing: used only
    within one part. *)
Lemma bytewise_data (x y : bytes) : bytewise [PartData (x ++ y)] = bytewise [PartData x; PartData y].
Proof. cbn. by rewrite fmap_app, !app_nil_r. Qed.

(** ** Parsers up to the preamble counter

    [_discarded] is read only while the first boundary is being looked for. *)
Definition set_discarded (n : Z) (p : MultipartParser) : MultipartParser :=
  MkParser (mp_state p) (mp_buf p) n (mp_is_file p) (mp_part_bytes p).

Inductive parser_sim (p : MultipartParser) : MultipartParser → Prop :=
  | sim_same : parser_sim p p
  | sim_discarded n : mp_state p ≠ PREAMBLE → parser_sim p (set_discarded n p).

Lemma sim_intro st buf n m is_file part_bytes :
  st ≠ PREAMBLE → parser_sim (MkParser st buf n is_file part_bytes) (MkParser st buf m is_file part_bytes).
Proof. intros Hne. by apply (sim_discarded (MkParser st buf n is_file part_bytes) m). Qed.

#[export] Instance parser_sim_equiv : Equivalence parser_sim.
Proof.
  split.
  - constructor.
  - intros p q [|n Hn]; [constructor|].
    replace p with (set_discarded (mp_discarded p) (set_discarded n p)) at 2 by by destruct p.
    by constructor.
  - intros p q r Hpq Hqr. destruct Hpq as [|n Hn]; [done|].
    destruct Hqr as [|m Hm]; [by constructor|]. by apply (sim_discarded p m).
Qed.

Lemma parser_sim_state p q : parser_sim p q → mp_state q = mp_state p.
Proof. by intros []. Qed.

Lemma append_sim p q more : parser_sim p q → parser_sim (append p more) (append q more).
Proof. intros [|n Hn]; [constructor|]. by apply (sim_discarded (append p more) n). Qed.

Lemma append_nil p : append p [] = p.
Proof. destruct p. unfold append. simpl. by rewrite app_nil_r. Qed.

Lemma delimiter_length boundary : (4 ≤ length (delimiter_of boundary))%nat.
Proof. unfold delimiter_of. rewrite !length_app. simpl. lia. Qed.

(** What may wait after a boundary: blanks, then perhaps half of the line break. *)
Lemma pending_blank (s : bytes) (n : nat) :
  Forall (λ c, is_blank c = true) s →
  strip_by is_blank (rstrip_by (is_char CR) (take n (s ++ [CR]))) = [].
Proof.
  intros Hs. apply strip_by_nil.
  assert (∀ t, Forall (λ c, is_blank c = true) t → rstrip_by (is_char CR) t = t) as Hr.
  { intros t Ht. apply rstrip_by_none. eapply Forall_impl; [exact Ht|]. intros c. unfold is_blank, is_char.
    rewrite orb_true_iff, !Ascii.eqb_eq. by intros [-> | ->]. }
  destruct (decide (n ≤ length s)%nat).
  - rewrite take_app_le, Hr by (done || by apply Forall_take). by apply Forall_take.
  - rewrite take_ge by (rewrite length_app; simpl; lia). rewrite rstrip_by_snoc. cbn. by rewrite Hr.
Qed.

Section facts.
Context (delimiter : bytes) (Hd : (4 ≤ length delimiter)%nat).

Lemma keep_eq : keep delimiter = Z.of_nat (length delimiter) - 1.
Proof using Hd. done. Qed.

(** ** One step *)

(** Outside the preamble a step ignores the counter, and stays outside. *)
Lemma step_discarded n p f p1 es :
  mp_state p ≠ PREAMBLE → parser_step delimiter p = Ok (f, p1, es) →
  parser_step delimiter (set_discarded n p) = Ok (f, set_discarded n p1, es) ∧ mp_state p1 ≠ PREAMBLE.
Proof using Hd.
  destruct p as [[] buf dis isf pb]; intros Hne; [done|..]; clear Hne; unfold parser_step;
    cbn [mp_state set_discarded]; unfold after_delimiter, headers, content, emit_data;
    cbn [mp_buf mp_is_file mp_part_bytes mp_discarded set_discarded mp_state];
    repeat (case_match; simplify_eq/=; try done);
    intros; simplify_eq/=; done.
Qed.

Lemma step_sim p q f p1 es :
  parser_sim p q → parser_step delimiter p = Ok (f, p1, es) →
  ∃ q1, parser_step delimiter q = Ok (f, q1, es) ∧ parser_sim p1 q1.
Proof using Hd.
  intros [|n Hn] Hp; [by exists p1|].
  destruct (step_discarded n p f p1 es Hn Hp) as [Hq Hn1].
  exists (set_discarded n p1). split; [done|]. by constructor.
Qed.

(** A step that makes progress takes bytes from the buffer. *)
Lemma step_consumes p p1 es :
  parser_step delimiter p = Ok (true, p1, es) → (length (mp_buf p1) < length (mp_buf p))%nat.
Proof using Hd.
  unfold parser_step.
  assert (∀ d i, find d (mp_buf p) = Some i → (i + length d ≤ length (mp_buf p))%nat) as Hin.
  { intros d i (Hp & Hle & _)%find_Some. by apply occurs_length. }
  destruct (mp_state p); unfold preamble, after_delimiter, headers, content;
    repeat (case_match; simplify_eq/=; try done); intros Hs;
    try (apply bind_ok in Hs as (e & He & Hs)); simplify_eq/=; rewrite ?length_drop;
    repeat match goal with H : find _ _ = Some _ |- _ => apply Hin in H end; simpl in *; try lia.
  match goal with Hp : CRLF `prefix_of` _ |- _ => pose proof (prefix_length _ _ Hp) end.
  simpl in *. lia.
Qed.

(** What made progress still does when more has arrived, and leaves the rest alone. *)
Lemma step_progress_append p p1 es more :
  parser_step delimiter p = Ok (true, p1, es) →
  parser_step delimiter (append p more) = Ok (true, append p1 more, es).
Proof using Hd.
  assert (∀ (d s : bytes) i, find d s = Some i → (i + length d ≤ length s)%nat) as Hin.
  { intros d s i (Hp & Hle & _)%find_Some. by apply occurs_length. }
  destruct p as [st buf dis isf pb]. unfold parser_step, append. cbn [mp_state].
  assert (content delimiter (MkParser st buf dis isf pb) = Ok (true, p1, es) →
          content delimiter (MkParser st (buf ++ more) dis isf pb) = Ok (true, append p1 more, es))
    as Hcontent.
  { unfold content. cbn [mp_buf mp_is_file mp_part_bytes mp_discarded mp_state].
    destruct (find delimiter buf) as [i|] eqn:Hf.
    2: { case_match; [|done]. intros (? & _ & ?)%bind_ok. simplify_eq. }
    pose proof (Hin _ _ _ Hf). rewrite (find_app _ _ _ _ Hf), take_app_le, drop_app_le by lia.
    intros (e & He & Hs)%bind_ok. simplify_eq. unfold emit_data in *. cbn in *. by rewrite He. }
  destruct st; unfold preamble, after_delimiter, headers;
    cbn [mp_buf mp_is_file mp_part_bytes mp_discarded mp_state].
  - destruct (find delimiter buf) as [i|] eqn:Hf; [|by repeat case_match].
    intros [= <- <-]. pose proof (Hin _ _ _ Hf). rewrite (find_app _ _ _ _ Hf).
    by rewrite drop_app_le.
  - destruct (decide (take 2 buf = _)) as [|Hne]; [done|].
    destruct (find CRLF buf) as [i|] eqn:Hf; [|by case_match].
    pose proof (Hin _ _ _ Hf) as Hi. simpl in Hi. rewrite (find_app _ _ _ _ Hf), !take_app_le by lia.
    rewrite decide_False by done. case_match; [done|]. intros [= <- <-]. cbn.
    by rewrite drop_app_le by lia.
  - destruct (decide (CRLF `prefix_of` buf)) as [Hp|Hp].
    + rewrite decide_True by by apply prefix_app_r. apply prefix_length in Hp. simpl in Hp.
      destruct (part_start []). intros [= <- <-]. cbn. by rewrite drop_app_le by lia.
    + destruct (find (CRLF ++ CRLF) buf) as [i|] eqn:Hf; [|by case_match].
      pose proof (Hin _ _ _ Hf) as Hi. simpl in Hi. rewrite (find_app _ _ _ _ Hf), take_app_le by lia.
      rewrite decide_False.
      2: { pose proof (occurs_app CRLF buf more 0) as Ho. rewrite !drop_0 in Ho. rewrite Ho; simpl; lia || done. }
      case_match; [done|]. destruct (part_start (take i buf)). intros [= <- <-]. cbn.
      by rewrite drop_app_le by lia.
  - apply Hcontent.
  - apply Hcontent.
Qed.

(** Emitting in two pieces is emitting at once. *)
Lemma emit_app p (x y : bytes) n1 e1 n2 e2 :
  emit_data p x = Ok (n1, e1) →
  emit_data (MkParser (mp_state p) (mp_buf p) (mp_discarded p) (mp_is_file p) n1) y = Ok (n2, e2) →
  ∃ e, emit_data p (x ++ y) = Ok (n2, e) ∧ bytewise e = bytewise (e1 ++ e2).
Proof using Hd.
  unfold emit_data. destruct x as [|c x]; [intros [= <- <-]; destruct p; simpl; eauto|].
  case_match eqn:H1; [done|]. intros [= <- <-].
  destruct y as [|c' y]; [intros [= <- <-]|].
  { rewrite app_nil_r, H1. by eexists. }
  cbn [mp_part_bytes mp_is_file]. case_match eqn:H2; [done|]. intros [= <- <-].
  assert (len ((c :: x) ++ c' :: y) = len (c :: x) + len (c' :: y)) as Hlen.
  { unfold len. rewrite length_app. lia. }
  simpl app at 1. change (c :: x ++ c' :: y) with ((c :: x) ++ c' :: y).
  rewrite Hlen, Z.add_assoc, H2. eexists. split; [done|]. apply bytewise_data.
Qed.

(** The cut the reader makes when it holds back the tail of its buffer. *)
Lemma held_back (buf more : bytes) (k : nat) :
  find delimiter buf = None → Z.of_nat k = len buf - keep delimiter → (k ≤ length buf)%nat →
  find delimiter (buf ++ more) = Nat.add k <$> find delimiter (drop k buf ++ more).
Proof using Hd.
  rewrite keep_eq. unfold len. intros Hf Hk Hle.
  apply find_tail; [done|lia|lia].
Qed.

Lemma drop_held (buf more : bytes) (k i : nat) :
  (k ≤ length buf)%nat → drop (k + i) (buf ++ more) = drop i (drop k buf ++ more).
Proof using Hd. intros Hk. rewrite <-drop_drop. by rewrite drop_app_le. Qed.

Lemma take_held (buf more : bytes) (k i : nat) :
  (k ≤ length buf)%nat → take (k + i) (buf ++ more) = take k buf ++ take i (drop k buf ++ more).
Proof using Hd.
  intros Hk. by rewrite <-take_take_drop, take_app_le, drop_app_le.
Qed.

Lemma preamble_wait p p' es more f p2 es2 :
  mp_state p = PREAMBLE →
  preamble delimiter p = Ok (false, p', es) → preamble delimiter (append p' more) = Ok (f, p2, es2) →
  ∃ p3, preamble delimiter (append p more) = Ok (f, p3, es2) ∧ es = [] ∧ parser_sim p2 p3.
Proof using Hd.
  pose proof keep_eq as Hk.
  destruct p as [st buf dis isf pb]. cbn [mp_state]. intros ->. unfold preamble at 1.
  cbn [mp_buf mp_is_file mp_part_bytes mp_discarded]. destruct (find delimiter buf) eqn:Hf; [done|].
  case_match eqn:Hlen; [|intros [= <- <-]; by eauto using sim_same].
  case_match eqn:Hmax; [done|]. intros [= <- <-]. rewrite Z.gtb_lt in Hlen.
  set (k := Z.to_nat (len buf - keep delimiter)).
  assert (Z.of_nat k = len buf - keep delimiter) as Hkz by lia.
  assert (k ≤ length buf)%nat as Hkl by (unfold len in *; lia).
  unfold preamble, append. cbn [mp_buf mp_is_file mp_part_bytes mp_discarded mp_state].
  rewrite (held_back buf more k Hf Hkz Hkl).
  destruct (find delimiter (drop k buf ++ more)) as [i|]; cbn [fmap option_fmap option_map].
  - intros [= <- <- <-]. eexists. split; [done|]. split; [done|].
    rewrite <-(Nat.add_assoc k), (drop_held buf more k) by exact Hkl. by apply sim_intro.
  - assert (len (drop k buf ++ more) = keep delimiter + len more) as ->.
    { unfold len in *. rewrite length_app, length_drop. lia. }
    assert (len (buf ++ more) = len buf + len more) as -> by (unfold len; rewrite length_app; lia).
    assert (0 ≤ len more) as Hm by (unfold len; lia).
    rewrite (proj2 (Z.gtb_lt (len buf + len more) _)) by lia.
    replace (dis + (len buf + len more - keep delimiter))
      with (dis + (len buf - keep delimiter) + len more) by lia.
    destruct (keep delimiter + len more >? keep delimiter) eqn:Hgt.
    + replace (keep delimiter + len more - keep delimiter) with (len more) by lia.
      case_match; [done|]. intros [= <- <- <-]. eexists. split; [done|]. split; [done|].
      replace (Z.to_nat (len buf + len more - keep delimiter)) with (k + Z.to_nat (len more))%nat by lia.
      rewrite drop_held by done. constructor.
    + rewrite Z.gtb_ltb, Z.ltb_ge in Hgt. assert (len more = 0) as Hm0 by lia.
      rewrite Hm0, !Z.add_0_r, Hmax. intros [= <- <- <-]. eexists. split; [done|]. split; [done|].
      fold k. destruct more; [|done]. rewrite !app_nil_r. constructor.
Qed.

Lemma content_wait p p' es more f p2 es2 :
  content delimiter p = Ok (false, p', es) → content delimiter (append p' more) = Ok (f, p2, es2) →
  ∃ es3, content delimiter (append p more) = Ok (f, p2, es3) ∧ bytewise es3 = bytewise (es ++ es2).
Proof using Hd.
  pose proof keep_eq as Hk.
  destruct p as [st buf dis isf pb]. unfold content at 1.
  cbn [mp_buf mp_is_file mp_part_bytes mp_discarded].
  destruct (find delimiter buf) eqn:Hf; [by intros (? & _ & ?)%bind_ok|].
  case_match eqn:Hlen; [|intros [= <- <-]; by eauto]. rewrite Z.gtb_lt in Hlen.
  set (k := Z.to_nat (len buf - keep delimiter)).
  assert (Z.of_nat k = len buf - keep delimiter) as Hkz by lia.
  assert (k ≤ length buf)%nat as Hkl by (unfold len in *; lia).
  intros ([n1 e1] & He1 & [= <- <-])%bind_ok. cbn [fst snd] in *.
  set (q := MkParser CONTENT (drop k buf) dis isf n1). set (p := MkParser st buf dis isf pb) in *.
  assert (∀ y n2 e2, emit_data (append q more) y = Ok (n2, e2) →
    ∃ e, emit_data (append p more) (take k buf ++ y) = Ok (n2, e) ∧
         bytewise e = bytewise (e1 ++ e2)) as Hemit.
  { intros y n2 e2. by apply (emit_app p (take k buf) y n1 e1 n2 e2). }
  unfold content. cbn [append mp_buf mp_is_file mp_part_bytes mp_discarded mp_state q p].
  rewrite (held_back buf more k Hf Hkz Hkl).
  destruct (find delimiter (drop k buf ++ more)) as [i|]; cbn [fmap option_fmap option_map].
  - intros ([n2 e2] & (e & He & Heq)%Hemit & [= <- <- <-])%bind_ok. cbn [fst snd].
    rewrite take_held by done. change (MkParser _ (buf ++ more) _ _ _) with (append p more).
    rewrite He. eexists. split; [cbn; by rewrite <-(Nat.add_assoc k), (drop_held buf more k) by exact Hkl|].
    by rewrite app_assoc, !(bytewise_app _ [PartEnd]), Heq.
  - assert (len (drop k buf ++ more) - keep delimiter = len more) as ->.
    { unfold len in *. rewrite length_app, length_drop. lia. }
    assert (len (buf ++ more) = len buf + len more) as -> by (unfold len; rewrite length_app; lia).
    assert (0 ≤ len more) as Hm by (unfold len; lia).
    rewrite (proj2 (Z.gtb_lt (len buf + len more - _) _)) by lia.
    replace (Z.to_nat (len buf + len more - keep delimiter)) with (k + Z.to_nat (len more))%nat by lia.
    rewrite take_held, drop_held by done. change (MkParser _ (buf ++ more) _ _ _) with (append p more).
    destruct (len more >? 0) eqn:Hgt.
    + intros ([n2 e2] & (e & He & Heq)%Hemit & [= <- <- <-])%bind_ok. cbn [fst snd].
      rewrite He. by eexists.
    + rewrite Z.gtb_ltb, Z.ltb_ge in Hgt. assert (len more = 0) as -> by lia.
      intros [= <- <- <-].
      destruct (Hemit [] n1 [] eq_refl) as (e & He & Heq).
      rewrite Z2Nat.inj_0, take_0, drop_0, He. by exists e.
Qed.

(** A step that waits loses nothing: the next one does what it would have done on the
    whole. *)
Lemma step_wait_append p p' es more f p2 es2 :
  parser_step delimiter p = Ok (false, p', es) → mp_state p' ≠ EPILOGUE →
  parser_step delimiter (append p' more) = Ok (f, p2, es2) →
  ∃ p3 es3, parser_step delimiter (append p more) = Ok (f, p3, es3) ∧
            bytewise es3 = bytewise (es ++ es2) ∧ parser_sim p2 p3.
Proof using Hd.
  intros Hs Hne H2. destruct (mp_state p) eqn:Hst; unfold parser_step in Hs; rewrite Hst in Hs.
  - assert (mp_state p' = PREAMBLE) as Hst'.
    { unfold preamble in Hs. repeat (case_match; simplify_eq/=; try done). }
    unfold parser_step in *. cbn [append mp_state] in *. rewrite Hst in *. rewrite Hst' in H2.
    destruct (preamble_wait _ _ _ _ _ _ _ Hst Hs H2) as (p3 & ? & -> & ?). by eauto.
  - unfold after_delimiter in Hs. repeat (case_match; simplify_eq/=; try done). eauto using sim_same.
  - unfold headers in Hs. repeat (case_match; simplify_eq/=; try done). eauto using sim_same.
  - assert (mp_state p' = CONTENT) as Hst'.
    { unfold content in Hs. destruct (find _ _); [by apply bind_ok in Hs as (? & _ & ?)|].
      case_match; [|by simplify_eq]. apply bind_ok in Hs as (? & _ & ?). by simplify_eq. }
    unfold parser_step in *. cbn [append mp_state] in *. rewrite Hst in *. rewrite Hst' in H2.
    destruct (content_wait _ _ _ _ _ _ _ Hs H2) as (es3 & ? & ?). eauto using sim_same.
  - assert (mp_state p' = EPILOGUE ∨ mp_state p' = CONTENT) as [?|Hst']; [|done|].
    { unfold content in Hs. destruct (find _ _); [by apply bind_ok in Hs as (? & _ & ?)|].
      case_match; [|left; by simplify_eq]. apply bind_ok in Hs as (? & _ & ?). right. by simplify_eq. }
    unfold parser_step in *. cbn [append mp_state] in *. rewrite Hst in *. rewrite Hst' in H2.
    destruct (content_wait _ _ _ _ _ _ _ Hs H2) as (es3 & ? & ?). eauto using sim_same.
Qed.

(** ** Draining the buffer *)
Inductive runs : MultipartParser → list MultipartEvent → MultipartParser → Prop :=
  | runs_wait p p' es : parser_step delimiter p = Ok (false, p', es) → runs p es p'
  | runs_go p p1 es p' es' :
      parser_step delimiter p = Ok (true, p1, es) → runs p1 es' p' → runs p (es ++ es') p'.

Lemma drain_runs fuel p p' es :
  (length (mp_buf p) < fuel)%nat → drain delimiter fuel p = Ok (p', es) ↔ runs p es p'.
Proof using Hd.
  revert p es. induction fuel as [|fuel IH]; intros p es Hf; [lia|]. cbn [drain]. split.
  - intros ([[f p1] e1] & Hs & Hr)%bind_ok. cbn in Hr. destruct f.
    + apply bind_ok in Hr as ([p2 e2] & Hr & [= <- <-]). pose proof (step_consumes _ _ _ Hs).
      apply (runs_go _ p1); [done|]. apply IH; [lia|done].
    + simplify_eq. by constructor.
  - intros Hr. destruct Hr as [p p' es Hs|p p1 es p' es' Hs Hr]; rewrite Hs; cbn; [done|].
    pose proof (step_consumes _ _ _ Hs). apply IH in Hr; [|lia]. by rewrite Hr.
Qed.

(** A step raises nothing but [MultipartError]. *)
Lemma step_raise p e : parser_step delimiter p = Raise e → ∃ m, e = MultipartError m.
Proof using Hd.
  assert (∀ data e', emit_data p data = Raise e' → ∃ m, e' = MultipartError m) as Hemit.
  { unfold emit_data. intros data e'. repeat case_match; intros; simplify_eq; eauto. }
  unfold parser_step. destruct (mp_state p); unfold preamble, after_delimiter, headers, content.
  all: repeat (case_match; simplify_eq/=; try done); intros Hs; simplify_eq; eauto;
    (destruct (emit_data p _) eqn:He; simpl in Hs; simplify_eq; eauto).
Qed.

Lemma drain_raise fuel p e : drain delimiter fuel p = Raise e → ∃ m, e = MultipartError m.
Proof using Hd.
  revert p. induction fuel as [|fuel IH]; intros p; [done|]. cbn [drain].
  destruct (parser_step delimiter p) as [[[[] p1] e1]|e'] eqn:Hs; cbn; [|done|].
  - destruct (drain delimiter fuel p1) as [[]|] eqn:Hr; cbn; [done|]. intros; simplify_eq. by eapply IH.
  - intros; simplify_eq. by eapply step_raise.
Qed.

Lemma feed_runs p chunk p' es :
  mp_state p ≠ EPILOGUE → feed delimiter p chunk = Ok (p', es) ↔ runs (append p chunk) es p'.
Proof using Hd.
  intros Hne. unfold feed. rewrite decide_False by done. apply drain_runs. simpl. lia.
Qed.

Lemma runs_sim p q es p' :
  parser_sim p q → runs p es p' → ∃ q', runs q es q' ∧ parser_sim p' q'.
Proof using Hd.
  intros Hpq Hr. revert q Hpq. induction Hr as [p p' es Hs|p p1 es p' es' Hs _ IH]; intros q Hpq.
  - destruct (step_sim _ _ _ _ _ Hpq Hs) as (q1 & Hq & ?). exists q1. split; [by constructor|done].
  - destruct (step_sim _ _ _ _ _ Hpq Hs) as (q1 & Hq & Hsim).
    destruct (IH _ Hsim) as (q' & ? & ?). exists q'. split; [by apply (runs_go _ q1)|done].
Qed.

(** The closing delimiter is recognised whatever follows it. *)
Lemma step_closing p p' es more :
  mp_state p ≠ EPILOGUE → parser_step delimiter p = Ok (false, p', es) → mp_state p' = EPILOGUE →
  parser_step delimiter (append p more) = Ok (false, p', es).
Proof using Hd.
  unfold parser_step. intros Hne Hs He. cbn [append mp_state]. destruct (mp_state p) eqn:Hst; [| | | |done].
  - unfold preamble in Hs. repeat (case_match; simplify_eq/=; try congruence).
  - unfold after_delimiter in *. cbn [append mp_buf]. destruct (decide (take 2 (mp_buf p) = _)) as [Heq|].
    + rewrite decide_True; [done|]. rewrite take_app_le; [done|].
      apply (f_equal length) in Heq. rewrite length_take in Heq.
      change (length (b "--")) with 2%nat in Heq. lia.
    + repeat (case_match; simplify_eq/=; try congruence).
  - unfold headers in Hs. repeat (case_match; simplify_eq/=; try congruence).
  - unfold content in Hs. destruct (find _ _); [by apply bind_ok in Hs as (? & _ & ?)|].
    case_match; [apply bind_ok in Hs as (? & _ & ?)|]; simplify_eq/=; congruence.
Qed.

Lemma step_not_epilogue p p1 es :
  parser_step delimiter p = Ok (true, p1, es) → mp_state p1 ≠ EPILOGUE.
Proof using Hd.
  unfold parser_step. destruct (mp_state p); unfold preamble, after_delimiter, headers, content;
    repeat (case_match; simplify_eq/=; try done); intros Hs;
    try (apply bind_ok in Hs as (e & He & Hs)); by simplify_eq/=.
Qed.

Lemma runs_closed p es p' more :
  mp_state p ≠ EPILOGUE → runs p es p' → mp_state p' = EPILOGUE → runs (append p more) es p'.
Proof using Hd.
  intros Hne Hr He. induction Hr as [p p' es Hs|p p1 es p' es' Hs _ IH].
  - constructor. by apply step_closing.
  - apply (runs_go _ (append p1 more)); [by apply step_progress_append|].
    apply IH; [by eapply step_not_epilogue|done].
Qed.

(** Two feeds are one feed of both chunks. *)
Lemma runs_append p es p' more es2 p2 :
  runs p es p' → mp_state p' ≠ EPILOGUE → runs (append p' more) es2 p2 →
  ∃ p3 es3, runs (append p more) es3 p3 ∧ bytewise es3 = bytewise (es ++ es2) ∧ parser_sim p2 p3.
Proof using Hd.
  intros Hr Hne Hr2. induction Hr as [p p' es Hs|p p1 es p' es' Hs _ IH].
  - inversion Hr2 as [? ? ? Hs2|? q1 e1 ? e2 Hs2 Hr3]; simplify_eq.
    + destruct (step_wait_append _ _ _ _ _ _ _ Hs Hne Hs2) as (p3 & es3 & ? & ? & ?).
      exists p3, es3. by split; [constructor|].
    + destruct (step_wait_append _ _ _ _ _ _ _ Hs Hne Hs2) as (p3 & es3 & Hs3 & Hb & Hsim).
      destruct (runs_sim _ _ _ _ Hsim Hr3) as (p4 & Hr4 & Hsim4).
      exists p4, (es3 ++ e2). split_and!; [by apply (runs_go _ p3)| |done].
      by rewrite app_assoc, !(bytewise_app _ e2), Hb.
  - destruct (IH Hne Hr2) as (p3 & es3 & Hr3 & Hb & Hsim).
    exists p3, (es ++ es3). split_and!; [|by rewrite <-app_assoc, !(bytewise_app es), Hb|done].
    apply (runs_go _ (append p1 more)); [by apply step_progress_append|done].
Qed.

(** ** One feed or many *)
Lemma feed_closed p chunk : mp_state p = EPILOGUE → feed delimiter p chunk = Ok (p, []).
Proof using Hd. intros He. unfold feed. by rewrite decide_True. Qed.

Lemma feed_all_closed p chunks : mp_state p = EPILOGUE → feed_all delimiter p chunks = Ok (p, []).
Proof using Hd.
  intros He. induction chunks as [|c cs IH]; [done|]. cbn. rewrite feed_closed by done. cbn. by rewrite IH.
Qed.

Lemma feed_all_joined c cs p p' es :
  feed_all delimiter p (c :: cs) = Ok (p', es) →
  ∃ q es', feed delimiter p (c ++ concat cs) = Ok (q, es') ∧ bytewise es' = bytewise es ∧ parser_sim p' q.
Proof using Hd.
  destruct (decide (mp_state p = EPILOGUE)) as [He|Hne].
  { rewrite feed_all_closed, feed_closed by done. intros [= <- <-]. eauto using sim_same. }
  revert c p es Hne. induction cs as [|c' cs IH]; intros c p es Hne; cbn [feed_all];
    intros ([p1 e1] & Hf & ([p2 e2] & Hr & [= <- <-])%bind_ok)%bind_ok; cbn [fst snd concat] in *.
  { simplify_eq. rewrite !app_nil_r. eauto using sim_same. }
  apply feed_runs in Hf; [|done]. destruct (decide (mp_state p1 = EPILOGUE)) as [He1|Hne1].
  - change (feed_all delimiter p1 (c' :: cs) = Ok (p2, e2)) in Hr.
    rewrite feed_all_closed in Hr by done. simplify_eq. exists p2, e1.
    rewrite app_nil_r, feed_runs by done.
    assert (append p (c ++ c' ++ concat cs) = append (append p c) (c' ++ concat cs)) as ->.
    { unfold append. simpl. by rewrite app_assoc. }
    split_and!; [|done|constructor]. by apply runs_closed.
  - destruct (IH c' p1 e2 Hne1 Hr) as (q & es' & Hq & Hb & Hsim). apply feed_runs in Hq; [|done].
    destruct (runs_append _ _ _ _ _ _ Hf Hne1 Hq) as (p3 & es3 & Hr3 & Hb3 & Hsim3).
    exists p3, es3. rewrite feed_runs by done. split_and!.
    + by unfold append in *; rewrite app_assoc.
    + by rewrite Hb3, !bytewise_app, Hb.
    + by transitivity q.
Qed.

(** ** Bodies within the limits whatever the cutting

    [tame]: the first boundary, a boundary line and a header block end early enough
    that no incomplete part of them can reach a limit. *)
Definition tame (p : MultipartParser) : Prop :=
  match mp_state p with
  | PREAMBLE => ∃ i, find delimiter (mp_buf p) = Some i ∧ mp_discarded p + Z.of_nat i ≤ MAX_PREAMBLE_BYTES
  | AFTER_DELIMITER =>
      take 2 (mp_buf p) = b "--" ∨ ∃ i, find CRLF (mp_buf p) = Some i ∧ Z.of_nat i < 1024
  | HEADERS =>
      CRLF `prefix_of` mp_buf p ∨
      ∃ i, find (CRLF ++ CRLF) (mp_buf p) = Some i ∧ Z.of_nat i + 3 ≤ MAX_PART_HEADER_BYTES
  | CONTENT | EPILOGUE => True
  end.

Inductive runs_tame : MultipartParser → list MultipartEvent → MultipartParser → Prop :=
  | tame_wait p p' es : tame p → parser_step delimiter p = Ok (false, p', es) → runs_tame p es p'
  | tame_go p p1 es p' es' :
      tame p → parser_step delimiter p = Ok (true, p1, es) → runs_tame p1 es' p' →
      runs_tame p (es ++ es') p'.

Lemma runs_tame_runs p es p' : runs_tame p es p' → runs p es p'.
Proof using Hd. induction 1; [by constructor|by eapply runs_go]. Qed.

Lemma tame_sim p q : parser_sim p q → tame p → tame q.
Proof using Hd. intros [|n Hn]; [done|]. unfold tame. simpl. by destruct (mp_state p). Qed.

Lemma runs_tame_sim p q es p' :
  parser_sim p q → runs_tame p es p' → ∃ q', runs_tame q es q' ∧ parser_sim p' q'.
Proof using Hd.
  intros Hpq Hr. revert q Hpq.
  induction Hr as [p p' es Ht Hs|p p1 es p' es' Ht Hs _ IH]; intros q Hpq;
    pose proof (tame_sim _ _ Hpq Ht); destruct (step_sim _ _ _ _ _ Hpq Hs) as (q1 & Hq & Hsim).
  - exists q1. split; [by constructor|done].
  - destruct (IH _ Hsim) as (q' & ? & ?). exists q'. split; [by apply (tame_go _ q1)|done].
Qed.

(** Nothing of a tame body is refused early. *)
Lemma after_delimiter_early p more :
  mp_state p = AFTER_DELIMITER → tame (append p more) → is_ok (after_delimiter (append p more)) →
  is_ok (after_delimiter p).
Proof using Hd.
  destruct p as [st buf dis isf pb]. unfold tame, append. cbn [mp_state]. intros ->.
  unfold after_delimiter. cbn [mp_buf mp_is_file mp_part_bytes mp_discarded mp_state].
  intros Ht [r Hr]. destruct (decide (take 2 buf = _)) as [|Hn]; [by eexists|].
  destruct (find CRLF buf) as [i|] eqn:Hf.
  { pose proof (find_Some CRLF buf i) as [(Hp & Hle & _) _]; [done|].
    apply occurs_length in Hp; [|done]. simpl in Hp.
    rewrite (find_app _ _ _ _ Hf), !take_app_le, decide_False in Hr by (done || lia).
    case_match; [done|]. by eexists. }
  destruct (decide (take 2 (buf ++ more) = _)) as [Heq|Hn'] in Hr.
  - assert (buf = [] ∨ buf = b "-") as [-> | ->]; [|by eexists..].
    destruct buf as [|c [|c' buf]]; [by left| |].
    + right. cbn in Heq. by simplify_eq.
    + cbn in Heq, Hn. by simplify_eq.
  - destruct Ht as [?|(i & Hi & Hmax)]; [done|]. rewrite Hi in Hr.
    case_match eqn:Hbl; [done|]. apply negb_false_iff, bool_decide_eq_true, strip_by_nil in Hbl.
    pose proof Hi as ([r' Hr'] & Hle & _)%find_Some.
    assert (length buf ≤ S i)%nat as Hlen.
    { apply Nat.nlt_ge. intros Hlt. rewrite find_None in Hf. apply (Hf i); [lia|].
      apply (occurs_app CRLF buf more); [simpl; lia|]. by exists r'. }
    assert (buf = take (length buf) (take i (buf ++ more) ++ [CR])) as Hbuf.
    { rewrite <-(take_app_length buf more) at 1. rewrite <-(take_drop i (buf ++ more)) at 1.
      rewrite Hr'. change (CRLF ++ r') with ([CR] ++ LF :: r'). rewrite app_assoc, take_app_le; [done|].
      rewrite length_app, length_take. simpl. lia. }
    rewrite orb_false_intro; [by eexists| |].
    { rewrite Z.gtb_ltb. apply Z.ltb_ge. unfold len. lia. }
    rewrite andb_comm, (bool_decide_true (strip_by _ _ = [])); [done|].
    rewrite Hbuf. by apply pending_blank.
Qed.

Lemma preamble_early p more :
  mp_state p = PREAMBLE → tame (append p more) → is_ok (preamble delimiter p).
Proof using Hd.
  destruct p as [st buf dis isf pb]. unfold tame, append. cbn [mp_state]. intros ->.
  unfold preamble. cbn [mp_buf mp_is_file mp_part_bytes mp_discarded mp_state].
  intros (i & Hi & Hmax). destruct (find delimiter buf) eqn:Hf; [by eexists|].
  assert (len buf - keep delimiter ≤ Z.of_nat i).
  { apply Z.nlt_ge. intros Hlt. rewrite keep_eq in Hlt. unfold len in Hlt.
    apply find_Some in Hi as (Hp & _). apply occurs_app in Hp; [|lia].
    rewrite find_None in Hf. apply (Hf i); [lia|done]. }
  case_match; [|by eexists]. rewrite Z.gtb_ltb, (proj2 (Z.ltb_ge _ _)); [by eexists|lia].
Qed.

Lemma headers_early p more :
  mp_state p = HEADERS → tame (append p more) → is_ok (headers (append p more)) → is_ok (headers p).
Proof using Hd.
  destruct p as [st buf dis isf pb]. unfold tame, append. cbn [mp_state]. intros ->.
  unfold headers. cbn [mp_buf mp_is_file mp_part_bytes mp_discarded mp_state].
  intros Ht [r Hr]. destruct (decide (CRLF `prefix_of` buf)).
  { destruct (part_start []). by eexists. }
  destruct (find (CRLF ++ CRLF) buf) as [i|] eqn:Hf.
  { pose proof (find_app _ _ more _ Hf) as Hf'. apply find_Some in Hf as (Hp & Hle & _).
    apply occurs_length in Hp; [|done]. simpl in Hp. rewrite Hf' in Hr. rewrite decide_False in Hr.
    2: { pose proof (occurs_app CRLF buf more 0) as Ho. rewrite !drop_0 in Ho. rewrite Ho; [done|simpl; lia]. }
    case_match; [done|]. destruct (part_start _). by eexists. }
  assert (len buf ≤ MAX_PART_HEADER_BYTES) as Hlen.
  { destruct Ht as [Hp|(i & Hi & Hmax)].
    - assert (length buf ≤ 1)%nat; [|unfold len, MAX_PART_HEADER_BYTES; lia]. apply Nat.nlt_ge. intros Hlt.
      pose proof (occurs_app CRLF buf more 0) as Ho. rewrite !drop_0 in Ho. apply Ho in Hp; [done|simpl; lia].
    - cut (Z.of_nat (length buf) ≤ Z.of_nat i + 3); [unfold len; lia|]. apply Z.nlt_ge. intros Hlt.
      apply find_Some in Hi as (Hp & _). apply occurs_app in Hp; [|simpl; lia].
      rewrite find_None in Hf. apply (Hf i); [lia|done]. }
  rewrite Z.gtb_ltb, (proj2 (Z.ltb_ge _ _) Hlen). by eexists.
Qed.

Lemma emit_ok p data :
  is_ok (emit_data p data) ↔
  data = [] ∨ mp_is_file p = true ∨ mp_part_bytes p + len data ≤ MAX_FIELD_BYTES.
Proof using Hd.
  unfold emit_data. destruct data as [|c data]; [split; [by left|by eexists]|].
  destruct (mp_is_file p); cbn [negb andb]; [split; [by right; left|by eexists]|].
  rewrite Z.gtb_ltb. case_cmp; split; try by eexists.
  - by intros [? ?].
  - intros [?|[?|?]]; [done|done|lia].
  - intros _. right. right. lia.
Qed.

Lemma emit_le p (x y : bytes) :
  (length x ≤ length y)%nat → is_ok (emit_data p y) → is_ok (emit_data p x).
Proof using Hd.
  rewrite !emit_ok. unfold len. intros Hl [->|[?|?]]; [|by eauto|right; right; lia].
  left. by apply nil_length_inv; simpl in *; lia.
Qed.

Lemma emit_rest p (x y : bytes) n e st buf dis :
  emit_data p x = Ok (n, e) → is_ok (emit_data p (x ++ y)) →
  is_ok (emit_data (MkParser st buf dis (mp_is_file p) n) y).
Proof using Hd.
  rewrite !emit_ok. cbn. unfold len. rewrite length_app. intros He Hxy.
  assert (n = mp_part_bytes p + Z.of_nat (length x)) as ->.
  { unfold emit_data in He. destruct x; [simplify_eq; simpl; lia|]. case_match; [done|]. by simplify_eq. }
  destruct Hxy as [[-> ->]%app_nil|[?|?]]; [by left|by eauto|right; right; lia].
Qed.

Lemma content_early p more :
  is_ok (content delimiter (append p more)) →
  ∃ f p1 e1, content delimiter p = Ok (f, p1, e1) ∧
    (f = false → is_ok (content delimiter (append p1 more))).
Proof using Hd.
  destruct p as [st buf dis isf pb]. set (p := MkParser st buf dis isf pb).
  unfold content at 1 2. cbn [append mp_buf mp_is_file mp_part_bytes mp_discarded p].
  assert (∀ x, emit_data (MkParser st (buf ++ more) dis isf pb) x = emit_data p x) as He by done.
  intros [r Hr]. destruct (find delimiter buf) as [i|] eqn:Hf.
  { rewrite (find_app _ _ _ _ Hf) in Hr. apply bind_ok in Hr as ([n e] & Hr & _).
    apply find_Some in Hf as (_ & Hle & _). rewrite take_app_le, He in Hr by done. rewrite Hr. by eexists _, _, _. }
  destruct (len buf - keep delimiter >? 0) eqn:Hlen.
  2: { eexists _, _, _. split; [done|]. intros _. unfold content. cbn [append mp_buf p]. by eexists. }
  rewrite Z.gtb_lt in Hlen. set (k := Z.to_nat (len buf - keep delimiter)).
  assert (Z.of_nat k = len buf - keep delimiter) as Hkz by lia.
  assert (k ≤ length buf)%nat as Hkl by (pose proof keep_eq; unfold len in *; lia).
  assert (∀ y, is_ok (emit_data p (take k buf ++ y)) → ∃ n e, emit_data p (take k buf) = Ok (n, e) ∧
    is_ok (emit_data (append (MkParser CONTENT (drop k buf) dis isf n) more) y)) as Hsplit.
  { intros y Hy. destruct (emit_le p (take k buf) (take k buf ++ y)) as [[n e] Hn];
      [rewrite length_app; lia|done|].
    exists n, e. split; [done|]. by apply (emit_rest p (take k buf) y n e). }
  rewrite (held_back buf more k Hf Hkz Hkl) in Hr. unfold content.
  destruct (find delimiter (drop k buf ++ more)) as [i|] eqn:Hh; cbn [fmap option_fmap option_map] in Hr.
  - apply bind_ok in Hr as (en & Hr & _). rewrite take_held, He in Hr by done.
    destruct (Hsplit _ (ex_intro _ _ Hr)) as (n & e & Hn & [r2 Hr2]). rewrite Hn.
    eexists _, _, _. split; [done|]. intros _. cbn [append mp_buf fst]. rewrite Hh.
    cbn [append mp_buf mp_state mp_discarded mp_is_file mp_part_bytes fst] in *. rewrite Hr2. by eexists.
  - assert (len (buf ++ more) - keep delimiter = Z.of_nat k + len more) as Hsafe.
    { unfold len in *. rewrite length_app. lia. }
    assert (len (drop k buf ++ more) - keep delimiter = len more) as Hsafe'.
    { unfold len in *. rewrite length_app, length_drop. lia. }
    rewrite Hsafe, (proj2 (Z.gtb_lt _ _)) in Hr by (unfold len; lia).
    apply bind_ok in Hr as (en & Hr & _).
    replace (Z.to_nat (Z.of_nat k + len more)) with (k + Z.to_nat (len more))%nat in Hr by (unfold len; lia).
    rewrite take_held, He in Hr by done.
    destruct (Hsplit _ (ex_intro _ _ Hr)) as (n & e & Hn & [r2 Hr2]). rewrite Hn.
    eexists _, _, _. split; [done|]. intros _. cbn [append mp_buf fst]. rewrite Hh, Hsafe'.
    case_match; [|by eexists]. cbn [append mp_buf mp_state mp_discarded mp_is_file mp_part_bytes fst] in *. rewrite Hr2. by eexists.
Qed.

(** Nothing of a tame body is refused early, and what is left stays tame. *)
Lemma step_early p more :
  tame (append p more) → is_ok (parser_step delimiter (append p more)) →
  ∃ f p1 es1, parser_step delimiter p = Ok (f, p1, es1) ∧
    (f = false → mp_state p1 ≠ EPILOGUE →
     tame (append p1 more) ∧ is_ok (parser_step delimiter (append p1 more))).
Proof using Hd.
  intros Ht Hs. unfold parser_step in *. cbn [append mp_state] in *.
  destruct (mp_state p) eqn:Hst.
  - destruct (preamble_early _ _ Hst Ht) as [[[f p1] e1] Hp].
    exists f, p1, e1. split; [done|]. intros -> _. unfold tame in Ht. cbn [append mp_state mp_buf mp_discarded] in Ht.
    rewrite Hst in Ht. destruct Ht as (i & Hi & Hmax). unfold preamble in Hp.
    destruct (find delimiter (mp_buf p)) eqn:Hf; [done|].
    assert (∀ q j, mp_state q = PREAMBLE → find delimiter (mp_buf q ++ more) = Some j →
              mp_discarded q + Z.of_nat j ≤ MAX_PREAMBLE_BYTES →
              tame (append q more) ∧ is_ok match mp_state q with PREAMBLE => preamble delimiter (append q more)
                | AFTER_DELIMITER => after_delimiter (append q more) | HEADERS => headers (append q more)
                | _ => content delimiter (append q more) end) as Hq.
    { intros q j Hq Hj Hmj. unfold tame, preamble. cbn [append mp_state mp_buf mp_discarded]. rewrite Hq, Hj.
      split; [by eauto|by eexists]. }
    destruct (len (mp_buf p) >? keep delimiter) eqn:Hlen; [|simplify_eq; by apply (Hq p1 i)].
    case_match; [done|]. simplify_eq. rewrite Z.gtb_lt in Hlen.
    set (k := Z.to_nat (len (mp_buf p) - keep delimiter)) in *.
    assert (Z.of_nat k = len (mp_buf p) - keep delimiter) as Hkz by lia.
    assert (k ≤ length (mp_buf p))%nat as Hkl by (pose proof keep_eq; unfold len in *; lia).
    rewrite (held_back _ more k Hf Hkz Hkl) in Hi. apply fmap_Some in Hi as (j & Hj & ->).
    apply (Hq _ j); [done..|]. cbn [mp_discarded]. lia.
  - destruct (after_delimiter_early _ _ Hst Ht Hs) as [[[f p1] e1] Hp]. exists f, p1, e1. split; [done|].
    intros -> Hne. assert (p1 = p) as ->; [|by rewrite Hst].
    unfold after_delimiter in Hp. repeat (case_match; simplify_eq/=; try done).
  - destruct (headers_early _ _ Hst Ht Hs) as [[[f p1] e1] Hp]. exists f, p1, e1. split; [done|].
    intros -> Hne. assert (p1 = p) as ->; [|by rewrite Hst].
    unfold headers in Hp. repeat (case_match; simplify_eq/=; try done).
  - destruct (content_early _ _ Hs) as (f & p1 & e1 & Hp & Hok). exists f, p1, e1. split; [done|].
    intros -> Hne. assert (mp_state p1 = CONTENT) as Hst1.
    { unfold content in Hp. destruct (find _ _); [by apply bind_ok in Hp as (? & _ & ?)|].
      case_match; [|by simplify_eq]. apply bind_ok in Hp as (? & _ & ?). by simplify_eq. }
    unfold tame. cbn [append mp_state]. rewrite Hst1. auto.
  - destruct (content_early _ _ Hs) as (f & p1 & e1 & Hp & Hok). exists f, p1, e1. split; [done|].
    intros -> Hne. assert (mp_state p1 = EPILOGUE ∨ mp_state p1 = CONTENT) as [?|Hst1]; [|done|].
    { unfold content in Hp. destruct (find _ _); [by apply bind_ok in Hp as (? & _ & ?)|].
      case_match; [|left; by simplify_eq]. apply bind_ok in Hp as (? & _ & ?). right. by simplify_eq. }
    unfold tame. cbn [append mp_state]. rewrite Hst1. auto.
Qed.

(** A tame run can be interrupted anywhere and resumed. *)
Lemma runs_tame_split p more es p2 :
  mp_state p ≠ EPILOGUE → runs_tame (append p more) es p2 →
  ∃ p1 es1, runs p es1 p1 ∧
    (mp_state p1 ≠ EPILOGUE → ∃ es3 p3, runs_tame (append p1 more) es3 p3).
Proof using Hd.
  intros Hne Hr. remember (append p more) as q eqn:Hq. revert p Hne Hq.
  induction Hr as [q q' es Ht Hs|q q1 es q' es' Ht Hs Hr IH]; intros p Hne ->.
  all: destruct (step_early p more Ht ltac:(by eexists)) as (f & p1 & es1 & Hp & Hwait).
  all: destruct f; [pose proof (step_progress_append _ _ _ more Hp) as Hp'; rewrite Hp' in Hs; simplify_eq|].
  - exists p1, es1. split; [by constructor|]. intros Hne1.
    destruct (Hwait eq_refl Hne1) as (Ht1 & [[[f' p2] e2] Hs2]).
    destruct (step_wait_append _ _ _ _ _ _ _ Hp Hne1 Hs2) as (p3 & es3 & Hs3 & _ & _).
    rewrite Hs3 in Hs. simplify_eq. exists e2, p2. by constructor.
  - destruct (IH p1) as (p3 & es3 & Hr3 & Hrest); [by eapply step_not_epilogue|done|].
    exists p3, (es ++ es3). split; [by apply (runs_go _ p1)|done].
  - exists p1, es1. split; [by constructor|]. intros Hne1.
    destruct (Hwait eq_refl Hne1) as (Ht1 & [[[f' p2] e2] Hs2]).
    destruct (step_wait_append _ _ _ _ _ _ _ Hp Hne1 Hs2) as (p3 & es3 & Hs3 & _ & Hsim).
    rewrite Hs3 in Hs. simplify_eq. symmetry in Hsim.
    destruct (runs_tame_sim _ _ _ _ Hsim Hr) as (p4 & Hr4 & _).
    exists (e2 ++ es'), p4. by apply (tame_go _ p2).
Qed.

(** Every way of cutting a tame body is accepted. *)
Lemma feed_all_tame c cs p es p' :
  mp_state p ≠ EPILOGUE → runs_tame (append p (c ++ concat cs)) es p' →
  is_ok (feed_all delimiter p (c :: cs)).
Proof using Hd.
  revert c p es p'. induction cs as [|c' cs IH]; intros c p es p' Hne Hr; cbn [concat] in Hr.
  - rewrite app_nil_r in Hr. apply runs_tame_runs, feed_runs in Hr; [|done]. cbn. rewrite Hr. by eexists.
  - assert (append p (c ++ c' ++ concat cs) = append (append p c) (c' ++ concat cs)) as Heq.
    { unfold append. simpl. by rewrite app_assoc. }
    rewrite Heq in Hr. destruct (runs_tame_split (append p c) _ _ _ Hne Hr) as (p1 & es1 & Hr1 & Hrest).
    apply feed_runs in Hr1; [|done]. cbn [feed_all]. rewrite Hr1. cbn [mbind result_bind fst snd].
    change (is_ok (q ← feed_all delimiter p1 (c' :: cs); Ok (q.1, es1 ++ q.2))).
    destruct (decide (mp_state p1 = EPILOGUE)) as [He|Hne1].
    + rewrite feed_all_closed by done. by eexists.
    + destruct (Hrest Hne1) as (es3 & p3 & Hr3). destruct (IH c' p1 es3 p3 Hne1 Hr3) as [r Hok].
      rewrite Hok. by eexists.
Qed.
End facts.
