(* ===== verification/MultipartRound.v ===== *)
(** * Uploads come back as they were sent

    The encoding a browser produces for a form, the round trip of its headers and
    bodies through the reader for every cutting into chunks, and where the cutting
    does matter (the size limits). *)

From Stdlib Require Import Ascii.
From S2P Require Import Prelude PyVal Bytes Multipart MultipartFacts.
From stdpp Require Import options.
Local Open Scope Z_scope.

(** A character that does not occur in a literal. *)
Ltac not_in := apply (bool_decide_unpack _); vm_compute; exact I.

(** ** Splitting texts that are put together *)
Lemma partition_at_app c (pre post : bytes) :
  c ∉ pre → partition_at c (pre ++ c :: post) = (pre, true, post).
Proof.
  induction pre as [|x pre IH]; intros Hn; cbn.
  - by rewrite Ascii.eqb_refl.
  - apply not_elem_of_cons in Hn as [Hx Hn]. destruct (Ascii.eqb_spec x c); [done|]. by rewrite IH.
Qed.

Lemma split_at_char_app c (pre post : bytes) :
  c ∉ pre → split_at_char c (pre ++ c :: post) = pre :: split_at_char c post.
Proof.
  induction pre as [|x pre IH]; intros Hn; cbn.
  - by rewrite Ascii.eqb_refl.
  - apply not_elem_of_cons in Hn as [Hx Hn]. destruct (Ascii.eqb_spec x c); [done|]. by rewrite IH.
Qed.

Lemma split_at_char_none c (s : bytes) : c ∉ s → split_at_char c s = [s].
Proof.
  induction s as [|x s IH]; intros Hn; cbn; [done|].
  apply not_elem_of_cons in Hn as [Hx Hn]. destruct (Ascii.eqb_spec x c); [done|]. by rewrite IH.
Qed.

Lemma split_lines_app (l rest : bytes) : CR ∉ l → split_lines (l ++ CRLF ++ rest) = l :: split_lines rest.
Proof.
  induction l as [|x l IH]; intros Hn; [done|]. apply not_elem_of_cons in Hn as [Hx Hn].
  destruct (Ascii.eqb_spec x CR); [congruence|].
  assert (split_lines ((x :: l) ++ CRLF ++ rest) =
    match split_lines (l ++ CRLF ++ rest) with [] => [[x]] | p :: ps => (x :: p) :: ps end) as ->.
  { cbn [app split_lines]. destruct (l ++ CRLF ++ rest) eqn:Hl; [by destruct l|].
    rewrite (proj2 (Ascii.eqb_neq x CR)) by done. done. }
  by rewrite IH.
Qed.

Lemma split_lines_one (l : bytes) : CR ∉ l → split_lines l = [l].
Proof.
  induction l as [|x l IH]; intros Hn; [done|]. apply not_elem_of_cons in Hn as [Hx Hn].
  cbn [split_lines]. destruct l as [|y l]; [done|].
  rewrite (proj2 (Ascii.eqb_neq x CR)) by done. cbn [andb]. by rewrite IH.
Qed.

(** A text with no CR in front does not hide the first occurrence of what starts with
    one. *)
Lemma find_skip (d l s : bytes) : CR ∉ l → find (CR :: d) (l ++ s) = Nat.add (length l) <$> find (CR :: d) s.
Proof.
  induction l as [|x l IH]; intros Hn; cbn [app length].
  - by destruct (find _ s).
  - apply not_elem_of_cons in Hn as [Hx Hn]. cbn [find]. rewrite decide_False.
    + rewrite IH by done. by destruct (find _ s).
    + intros Hp%prefix_cons_inv_1. done.
Qed.

(** The delimiter right after a content that does not hold it is found there. *)
Lemma find_delimiter boundary (content rest : bytes) :
  CR ∉ boundary → find (delimiter_of boundary) content = None →
  find (delimiter_of boundary) (content ++ delimiter_of boundary ++ rest) = Some (length content).
Proof.
  intros Hcr Hn. set (d := delimiter_of boundary) in *. apply find_Some. split_and!.
  - rewrite drop_app_length. by exists rest.
  - rewrite length_app. lia.
  - intros j Hj Hp. destruct (decide (j + length d ≤ length content)%nat) as [Hle|Hgt].
    { apply occurs_app in Hp; [|done]. rewrite find_None in Hn. apply (Hn j); [lia|done]. }
    destruct (d !! (length content - j)%nat) as [x|] eqn:Hx.
    2: { apply lookup_ge_None in Hx. lia. }
    pose proof (prefix_lookup_Some _ _ _ _ Hx Hp) as Hl. rewrite lookup_drop in Hl.
    replace (j + (length content - j))%nat with (length content + 0)%nat in Hl by lia.
    rewrite lookup_app_r in Hl by lia. replace (length content + 0 - length content)%nat with 0%nat in Hl by lia.
    injection Hl as <-. destruct (length content - j)%nat as [|m] eqn:Hm; [lia|].
    apply Hcr. unfold d, delimiter_of in Hx. destruct m as [|[|[|m]]]; try done.
    exact (list_elem_of_lookup_2 boundary m CR Hx).
Qed.

(** ** The encoding *)
Definition QUOTE : ascii := "034".

Record part := MkPart {
  pt_name : bytes;
  pt_filename : option bytes;
  pt_content_type : bytes;
  pt_content : bytes;
}.

Definition quoted (s : bytes) : bytes := QUOTE :: s ++ [QUOTE].
Definition encode_disposition (name : bytes) (filename : option bytes) : bytes :=
  b "form-data; name=" ++ quoted name ++
  match filename with None => [] | Some f => b "; filename=" ++ quoted f end.
Definition encode_headers (pt : part) : bytes :=
  b "Content-Disposition: " ++ encode_disposition (pt_name pt) (pt_filename pt) ++
  CRLF ++ b "Content-Type: " ++ pt_content_type pt.

(** What follows a boundary, for the parts still to come. *)
Fixpoint encode_after (boundary : bytes) (parts : list part) (epilogue : bytes) : bytes :=
  match parts with
  | [] => b "--" ++ epilogue
  | pt :: parts =>
      CRLF ++ encode_headers pt ++ (CRLF ++ CRLF) ++ pt_content pt ++
      delimiter_of boundary ++ encode_after boundary parts epilogue
  end.
Definition encode_form (boundary : bytes) (parts : list part) (epilogue : bytes) : bytes :=
  b "--" ++ boundary ++ encode_after boundary parts epilogue.

Definition part_events (pt : part) : list MultipartEvent :=
  PartStart (pt_name pt) (pt_filename pt) (pt_content_type pt) ::
  match pt_content pt with [] => [] | content => [PartData content] end ++ [PartEnd].
Definition form_events (parts : list part) : list MultipartEvent :=
  (parts ≫= part_events) ++ [FormEnd].

(** A name that needs no escaping. *)
Definition plain_char (c : ascii) : bool :=
  negb (existsb (Ascii.eqb c) [CR; LF; QUOTE; ";"%char]).
Definition plain (s : bytes) : Prop := Forall (λ c, plain_char c = true) s.
#[export] Instance plain_dec s : Decision (plain s).
Proof. unfold plain. apply _. Defined.

(** The parts the reader accepts for a boundary. *)
Record part_ok (boundary : bytes) (pt : part) : Prop := {
  ok_name : plain (pt_name pt);
  ok_filename : plain (default [] (pt_filename pt));
  ok_type : plain (pt_content_type pt);
  ok_type_stripped : strip_by latin1_space (pt_content_type pt) = pt_content_type pt;
  ok_content : find (delimiter_of boundary) (pt_content pt) = None;
  ok_headers : len (encode_headers pt) + 3 ≤ MAX_PART_HEADER_BYTES;
  ok_field : pt_filename pt = None → len (pt_content pt) ≤ MAX_FIELD_BYTES;
}.

(** ** The headers of a part *)
Lemma plain_not_in c s : plain s → plain_char c = false → c ∉ s.
Proof. intros Hs Hc Hin. unfold plain in Hs. rewrite Forall_forall in Hs. apply Hs in Hin. congruence. Qed.

Lemma unquote_quoted s : plain s → unquote (quoted s) = s.
Proof.
  intros Hs. unfold unquote, quoted. rewrite (strip_by_ends latin1_space QUOTE s QUOTE) by done.
  assert (Forall (λ c, is_char QUOTE c = false) s) as Hq.
  { eapply Forall_impl; [exact Hs|]. intros c Hc. unfold is_char. apply Ascii.eqb_neq. by intros ->. }
  change (is_char "034") with (is_char QUOTE). unfold strip_by. cbn [lstrip_by].
  change (is_char QUOTE QUOTE) with true. cbn iota.
  destruct s as [|c s]; [done|]. cbn [app]. apply Forall_cons in Hq as Hq'. rewrite lstrip_by_head by apply Hq'.
  change (c :: s ++ [QUOTE]) with ((c :: s) ++ [QUOTE]). rewrite rstrip_by_snoc.
  change (is_char QUOTE QUOTE) with true. cbn iota. by apply rstrip_by_none.
Qed.

Lemma plain_quoted c s : plain s → plain_char c = false → c ≠ QUOTE → c ∉ quoted s.
Proof.
  intros Hs Hc Hq. unfold quoted. rewrite not_elem_of_cons, not_elem_of_app, list_elem_of_singleton.
  split_and!; [done|by eapply plain_not_in|done].
Qed.

Lemma parameter_quoted c key s :
  "="%char ∉ c :: key → latin1_space c = false →
  parameter (" "%char :: (c :: key) ++ "="%char :: quoted s) =
  (lower_text (strip_by latin1_space (c :: key)), quoted s).
Proof.
  intros Hn Hc. unfold parameter, strip_by at 1. cbn [lstrip_by]. change (latin1_space " ") with true. cbn iota.
  cbn [app lstrip_by]. rewrite Hc. unfold quoted.
  assert (c :: key ++ "="%char :: QUOTE :: s ++ [QUOTE] = (c :: key ++ "="%char :: QUOTE :: s) ++ [QUOTE]) as ->.
  { cbn. by rewrite <-app_assoc. }
  rewrite rstrip_by_snoc. change (latin1_space QUOTE) with false. cbn iota.
  assert ((c :: key ++ "="%char :: QUOTE :: s) ++ [QUOTE] = (c :: key) ++ "="%char :: QUOTE :: s ++ [QUOTE]) as ->.
  { cbn. by rewrite <-app_assoc. }
  by rewrite partition_at_app.
Qed.

Lemma disposition_pieces name filename :
  plain name → plain (default [] filename) →
  split_at_char ";" (encode_disposition name filename) =
  b "form-data" :: (b " name=" ++ quoted name) ::
  match filename with None => [] | Some f => [b " filename=" ++ quoted f] end.
Proof.
  intros Hn Hf. unfold encode_disposition.
  assert (∀ s, plain s → ";"%char ∉ quoted s) as Hq by (intros; by apply plain_quoted).
  change (b "form-data; name=" ++ quoted name ++ ?r) with (b "form-data" ++ ";"%char :: b " name=" ++ quoted name ++ r).
  rewrite split_at_char_app by (not_in). f_equal.
  assert (";"%char ∉ b " name=" ++ quoted name) as Hn1.
  { apply not_elem_of_app. split; [not_in|by apply Hq]. }
  destruct filename as [f|].
  - change (b "; filename=" ++ quoted f) with (";"%char :: b " filename=" ++ quoted f).
    rewrite app_assoc, split_at_char_app by done. f_equal. apply split_at_char_none.
    apply not_elem_of_app. split; [not_in|by apply Hq].
  - rewrite app_nil_r. by apply split_at_char_none.
Qed.

Lemma disposition_name name filename :
  plain name → plain (default [] filename) →
  disposition_param (encode_disposition name filename) (b "name") = Some name.
Proof.
  intros Hn Hf. unfold disposition_param. rewrite disposition_pieces by done. cbn [list_find].
  rewrite decide_False by (vm_compute; done).
  pose proof (parameter_quoted "n" (b "ame") name ltac:(not_in) eq_refl) as Hp.
  change (" "%char :: ("n"%char :: b "ame") ++ "="%char :: quoted name) with (b " name=" ++ quoted name) in Hp.
  rewrite decide_True by (by rewrite Hp).
  change (Some (unquote (parameter (b " name=" ++ quoted name)).2) = Some name).
  rewrite Hp. cbn [snd]. by rewrite unquote_quoted.
Qed.

Lemma disposition_filename name filename :
  plain name → plain (default [] filename) →
  disposition_param (encode_disposition name filename) (b "filename") = filename.
Proof.
  intros Hn Hf. unfold disposition_param. rewrite disposition_pieces by done. cbn [list_find].
  rewrite decide_False by (vm_compute; done).
  pose proof (parameter_quoted "n" (b "ame") name ltac:(not_in) eq_refl) as Hp.
  change (" "%char :: ("n"%char :: b "ame") ++ "="%char :: quoted name) with (b " name=" ++ quoted name) in Hp.
  rewrite decide_False by (by rewrite Hp). destruct filename as [f|]; [|done]. cbn [list_find].
  pose proof (parameter_quoted "f" (b "ilename") f ltac:(not_in) eq_refl) as Hpf.
  change (" "%char :: ("f"%char :: b "ilename") ++ "="%char :: quoted f) with (b " filename=" ++ quoted f) in Hpf.
  rewrite decide_True by (by rewrite Hpf).
  change (Some (unquote (parameter (b " filename=" ++ quoted f)).2) = Some f).
  rewrite Hpf. cbn [snd]. by rewrite unquote_quoted.
Qed.

Lemma strip_by_space p c s : p c = true → strip_by p (c :: s) = strip_by p s.
Proof. intros Hc. unfold strip_by. cbn [lstrip_by]. by rewrite Hc. Qed.

Lemma strip_disposition name filename :
  strip_by latin1_space (encode_disposition name filename) = encode_disposition name filename.
Proof.
  assert (∃ s, encode_disposition name filename = "f"%char :: s ++ [QUOTE]) as [s ->];
    [|by apply strip_by_ends].
  unfold encode_disposition, quoted. destruct filename as [f|].
  - exists (b "orm-data; name=" ++ (QUOTE :: name ++ [QUOTE]) ++ b "; filename=" ++ QUOTE :: f).
    cbn. by rewrite <-!app_assoc.
  - exists (b "orm-data; name=" ++ QUOTE :: name). cbn. by rewrite app_nil_r.
Qed.

Lemma disposition_no_cr name filename :
  plain name → plain (default [] filename) → CR ∉ encode_disposition name filename.
Proof.
  intros Hn Hf. assert (∀ s, plain s → CR ∉ quoted s) as Hq by (intros; by apply plain_quoted).
  unfold encode_disposition. rewrite !not_elem_of_app. split_and!; [not_in|by apply Hq|].
  destruct filename as [f|]; [|set_solver]. apply not_elem_of_app.
  split; [not_in|by apply Hq].
Qed.

Lemma part_headers_encoded pt :
  plain (pt_name pt) → plain (default [] (pt_filename pt)) → plain (pt_content_type pt) →
  strip_by latin1_space (pt_content_type pt) = pt_content_type pt →
  part_headers (encode_headers pt) =
  <[b "content-type" := pt_content_type pt]>
    (<[b "content-disposition" := encode_disposition (pt_name pt) (pt_filename pt)]> ∅).
Proof.
  intros Hn Hf Ht Hst. unfold part_headers, encode_headers. rewrite app_assoc.
  pose proof (disposition_no_cr _ _ Hn Hf) as Hcr.
  rewrite split_lines_app by (apply not_elem_of_app; split; [not_in|done]).
  rewrite split_lines_one.
  2: { apply not_elem_of_app. split; [not_in|by eapply plain_not_in]. }
  change (b "Content-Disposition: " ++ ?r) with (b "Content-Disposition" ++ ":"%char :: " "%char :: r).
  change (b "Content-Type: " ++ ?r) with (b "Content-Type" ++ ":"%char :: " "%char :: r).
  cbn [foldl]. rewrite !partition_at_app by (not_in).
  rewrite !strip_by_space by done. rewrite strip_disposition, Hst. done.
Qed.

Lemma part_start_encoded boundary pt :
  part_ok boundary pt →
  part_start (encode_headers pt) =
  (PartStart (pt_name pt) (pt_filename pt) (pt_content_type pt), bool_decide (is_Some (pt_filename pt))).
Proof.
  intros [Hn Hf Ht Hst _ _ _]. unfold part_start. rewrite part_headers_encoded by done.
  rewrite lookup_insert_ne by done. rewrite !lookup_insert_eq. cbn [from_option id].
  by rewrite disposition_name, disposition_filename.
Qed.

(** ** The body *)
Lemma find_cons (d : bytes) x s :
  find d (x :: s) = if decide (d `prefix_of` x :: s) then Some 0%nat else S <$> find d s.
Proof. done. Qed.

Lemma find_two_lines (l1 : bytes) c (l2 rest : bytes) :
  CR ∉ l1 → CR ∉ c :: l2 →
  find (CRLF ++ CRLF) (l1 ++ CRLF ++ (c :: l2) ++ CRLF ++ CRLF ++ rest) =
  Some (length (l1 ++ CRLF ++ c :: l2)).
Proof.
  intros H1 H2. change (CRLF ++ CRLF) with (CR :: [LF; CR; LF]).
  rewrite (find_skip [LF; CR; LF] l1) by done.
  assert (c ≠ CR) as Hc by set_solver.
  change (CRLF ++ ?r) with (CR :: LF :: r) at 1. rewrite !find_cons.
  rewrite decide_False.
  2: { intros Hp. do 2 apply prefix_cons_inv_2 in Hp. apply prefix_cons_inv_1 in Hp. done. }
  rewrite decide_False by (intros Hp; apply prefix_cons_inv_1 in Hp; done).
  rewrite (find_skip [LF; CR; LF] (c :: l2)) by done.
  change (find (CR :: [LF; CR; LF]) _) with (find [CR; LF; CR; LF] ([CR; LF; CR; LF] ++ rest)).
  rewrite find_here. cbn [fmap option_fmap option_map]. f_equal.
  rewrite length_app. cbn [length app CRLF]. lia.
Qed.

Lemma find_headers boundary pt rest :
  part_ok boundary pt →
  find (CRLF ++ CRLF) (encode_headers pt ++ (CRLF ++ CRLF) ++ rest) = Some (length (encode_headers pt)).
Proof.
  intros [Hn Hf Ht _ _ _ _].
  pose proof (find_two_lines (b "Content-Disposition: " ++ encode_disposition (pt_name pt) (pt_filename pt))
    "C" (b "ontent-Type: " ++ pt_content_type pt) rest) as H.
  unfold encode_headers. rewrite <-!app_assoc in *. apply H.
  - apply not_elem_of_app. split; [not_in|by apply disposition_no_cr].
  - change (CR ∉ b "Content-Type: " ++ pt_content_type pt).
    apply not_elem_of_app. split; [not_in|by eapply plain_not_in].
Qed.

(** A tame run that ends with the closing delimiter. *)
Definition closes (d : bytes) (p : MultipartParser) (es : list MultipartEvent) : Prop :=
  ∃ p', runs_tame d p es p' ∧ mp_state p' = EPILOGUE.

Lemma closes_go d p p1 es es' :
  tame d p → parser_step d p = Ok (true, p1, es) → closes d p1 es' → closes d p (es ++ es').
Proof. intros Ht Hs (p' & Hr & He). exists p'. split; [by eapply tame_go|done]. Qed.

(** The reader on one part of a well-formed body: three steps, from boundary to
    boundary. *)
Lemma part_runs boundary pt rest dis isf pb es :
  CR ∉ boundary → part_ok boundary pt →
  (∀ isf pb, closes (delimiter_of boundary) (MkParser AFTER_DELIMITER rest dis isf pb) es) →
  closes (delimiter_of boundary)
    (MkParser AFTER_DELIMITER
       (CRLF ++ encode_headers pt ++ (CRLF ++ CRLF) ++ pt_content pt ++ delimiter_of boundary ++ rest)
       dis isf pb) (part_events pt ++ es).
Proof.
  intros Hcr Hok Hrest. pose proof (part_start_encoded _ _ Hok) as Hstart.
  set (isf' := bool_decide (is_Some (pt_filename pt))) in *.
  set (d := delimiter_of boundary) in *. set (after := pt_content pt ++ d ++ rest).
  assert (closes d (MkParser CONTENT after dis isf' 0)
    (match pt_content pt with [] => [] | _ => [PartData (pt_content pt)] end ++ [PartEnd] ++ es)) as H3.
  { rewrite app_assoc. apply (closes_go _ _ (MkParser AFTER_DELIMITER rest dis isf' (len (pt_content pt))));
      [done| |apply Hrest].
    unfold parser_step, content, after. cbn [mp_state mp_buf mp_discarded mp_is_file].
    unfold d at 1. rewrite find_delimiter by (done || apply Hok). rewrite take_app_length.
    rewrite <-drop_drop, drop_app_length, drop_app_length.
    unfold emit_data. destruct (pt_content pt) as [|c data] eqn:Hdata; [done|].
    cbn [mp_is_file mp_part_bytes]. rewrite Z.add_0_l.
    assert (negb isf' && (len (c :: data) >? MAX_FIELD_BYTES) = false) as ->; [|done].
    unfold isf'. case_bool_decide as Hf; [done|]. cbn [negb andb]. rewrite Z.gtb_ltb. apply Z.ltb_ge.
    rewrite <-Hdata. apply Hok. by apply eq_None_not_Some. }
  assert (closes d (MkParser HEADERS (encode_headers pt ++ (CRLF ++ CRLF) ++ after) dis isf pb)
    (part_events pt ++ es)) as H2.
  { pose proof (find_headers boundary pt after Hok) as Hh. pose proof (ok_headers _ _ Hok) as Hlen.
    assert (part_events pt ++ es = [PartStart (pt_name pt) (pt_filename pt) (pt_content_type pt)] ++
      (match pt_content pt with [] => [] | _ => [PartData (pt_content pt)] end ++ [PartEnd] ++ es)) as ->.
    { unfold part_events. cbn [app]. rewrite <-app_assoc. by destruct (pt_content pt). }
    apply (closes_go _ _ (MkParser CONTENT after dis isf' 0)); [| |done].
    - right. exists (length (encode_headers pt)). by split.
    - unfold parser_step, headers. cbn [mp_state mp_buf mp_discarded mp_is_file].
      rewrite decide_False by (intros Hp; by apply prefix_cons_inv_1 in Hp). rewrite Hh.
      rewrite Z.gtb_ltb, (proj2 (Z.ltb_ge _ _)) by (unfold len in *; lia).
      rewrite take_app_length, Hstart. rewrite <-drop_drop, drop_app_length. done. }
  change (part_events pt ++ es) with ([] ++ (part_events pt ++ es)).
  apply (closes_go _ _ (MkParser HEADERS (encode_headers pt ++ (CRLF ++ CRLF) ++ after) dis isf pb)); [| |done].
  - right. exists 0%nat. cbn [mp_buf]. by rewrite find_here.
  - unfold parser_step, after_delimiter. cbn [mp_state mp_buf mp_discarded mp_is_file].
    rewrite decide_False by done. by rewrite find_here.
Qed.

Lemma parts_run boundary parts epilogue dis isf pb :
  CR ∉ boundary → Forall (part_ok boundary) parts →
  closes (delimiter_of boundary)
    (MkParser AFTER_DELIMITER (encode_after boundary parts epilogue) dis isf pb) (form_events parts).
Proof.
  intros Hcr Hok. revert isf pb. induction Hok as [|pt parts Hpt _ IH]; intros isf pb.
  - eexists. split; [by constructor; [left|]|done].
  - assert (form_events (pt :: parts) = part_events pt ++ form_events parts) as ->.
    { unfold form_events. cbn. by rewrite app_assoc. }
    by apply part_runs.
Qed.

Lemma form_runs boundary parts epilogue :
  CR ∉ boundary → Forall (part_ok boundary) parts →
  closes (delimiter_of boundary) (append new_parser (encode_form boundary parts epilogue)) (form_events parts).
Proof.
  intros Hcr Hok. change (form_events parts) with ([] ++ form_events parts).
  assert (find (delimiter_of boundary) (CRLF ++ encode_form boundary parts epilogue) = Some 0%nat) as Hf.
  { unfold encode_form. rewrite (app_assoc (b "--")), app_assoc. apply find_here. }
  eapply closes_go; [|unfold parser_step, preamble; cbn [append new_parser mp_state mp_buf]; rewrite Hf; done|].
  - exists 0%nat. cbn [append new_parser mp_buf mp_discarded]. by rewrite Hf.
  - cbn [mp_discarded mp_is_file mp_part_bytes]. rewrite Nat.add_0_l. unfold encode_form.
    rewrite (app_assoc (b "--")), app_assoc.
    change (CRLF ++ b "--" ++ boundary) with (delimiter_of boundary). rewrite drop_app_length.
    by apply parts_run.
Qed.

(** The reader accepts the encoding in every cutting, and reads the parts back. *)
Lemma form_accepted boundary parts epilogue chunks :
  CR ∉ boundary → Forall (part_ok boundary) parts →
  concat chunks = encode_form boundary parts epilogue →
  ∃ p es, feed_all (delimiter_of boundary) new_parser chunks = Ok (p, es) ∧
          finish p = Ok () ∧ bytewise es = bytewise (form_events parts).
Proof.
  intros Hcr Hok Hbody. pose proof (delimiter_length boundary) as Hd.
  destruct (form_runs boundary parts epilogue Hcr Hok) as (p' & Hr & He).
  destruct chunks as [|c cs]; [done|]. cbn [concat] in Hbody.
  rewrite <-Hbody in Hr. destruct (feed_all_tame _ Hd c cs new_parser _ _ ltac:(done) Hr) as [[p es] Hall].
  exists p, es. split; [done|].
  destruct (feed_all_joined _ Hd _ _ _ _ _ Hall) as (q & es' & Hq & Hb & Hsim).
  apply runs_tame_runs, (feed_runs _ Hd) in Hr; [|done..]. rewrite Hr in Hq. simplify_eq.
  split; [|done]. unfold finish. rewrite <-(parser_sim_state _ _ Hsim), He. done.
Qed.

(** ** The properties *)

(** The reader's loop ends: the turns it is given (one more than the bytes it holds)
    are always enough, so a [feed] that returns has drained the buffer: it stopped at a
    step that waits for more bytes, or at the closing delimiter, and one that does not
    return raised [MultipartError] from one of the steps. *)
Theorem feed_drains boundary p chunk :
  mp_state p ≠ EPILOGUE →
  (∃ p' es, feed (delimiter_of boundary) p chunk = Ok (p', es) ∧
            runs (delimiter_of boundary) (append p chunk) es p') ∨
  (∃ message, feed (delimiter_of boundary) p chunk = Raise (MultipartError message)).
Proof.
  intros Hne. destruct (feed (delimiter_of boundary) p chunk) as [[p' es]|e] eqn:Hf.
  - left. exists p', es. split; [done|]. by apply feed_runs; [apply delimiter_length| |].
  - right. unfold feed in Hf. rewrite decide_False in Hf by done.
    destruct (drain_raise _ (delimiter_length boundary) _ _ _ Hf) as [m ->]. by exists m.
Qed.

Lemma feed_drains_witness :
  (∃ p' es, feed (delimiter_of (b "B")) new_parser (b "--B") = Ok (p', es) ∧
            runs (delimiter_of (b "B")) (append new_parser (b "--B")) es p') ∨
  (∃ message, feed (delimiter_of (b "B")) new_parser (b "--B") = Raise (MultipartError message)).
Proof. apply (feed_drains (b "B") new_parser (b "--B")). vm_compute. discriminate. Defined.

(** C5: the cutting of a body into chunks is invisible: when a sequence of chunks is
    accepted, the whole body in one chunk is accepted, with the same parts and the same
    content byte for byte, and leaves the reader in the same state (up to the count of
    dropped preamble bytes, which nothing reads any more). *)
Theorem chunks_invisible boundary chunks p es :
  feed_all (delimiter_of boundary) new_parser chunks = Ok (p, es) →
  ∃ q es', feed (delimiter_of boundary) new_parser (concat chunks) = Ok (q, es') ∧
           bytewise es' = bytewise es ∧ parser_sim p q.
Proof.
  pose proof (delimiter_length boundary) as Hd. destruct chunks as [|c cs].
  - intros [= <- <-]. exists new_parser, []. split; [|done].
    apply (feed_runs _ Hd); [done|]. rewrite append_nil. constructor. unfold parser_step, preamble.
    cbn [new_parser mp_state mp_buf]. assert (find (delimiter_of boundary) CRLF = None) as ->.
    { apply find_None. intros j Hj Hp%occurs_length; [|done]. simpl in *. lia. }
    rewrite keep_eq, Z.gtb_ltb, (proj2 (Z.ltb_ge _ _)) by (unfold len; simpl length at 1; lia). done.
  - apply feed_all_joined, Hd.
Qed.

(** An upload comes back as it was sent, however the network cuts it: for every list
    of parts the reader's limits allow, every sequence of chunks that makes up their
    encoding is accepted, ends at the closing delimiter and yields exactly these parts,
    names, file names, types and contents. *)
Theorem upload_roundtrip boundary parts epilogue chunks :
  CR ∉ boundary → Forall (part_ok boundary) parts →
  concat chunks = encode_form boundary parts epilogue →
  ∃ p es, feed_all (delimiter_of boundary) new_parser chunks = Ok (p, es) ∧
          finish p = Ok () ∧ bytewise es = bytewise (form_events parts).
Proof. apply form_accepted. Qed.

Definition two_parts : list part :=
  [MkPart (b "token") None (b "text/plain") (b "secret");
   MkPart (b "files") (Some (b "a.jpg")) (b "image/jpeg") (b "--B pixels")].

Lemma upload_roundtrip_witness :
  ∃ p es, feed_all (delimiter_of (b "B")) new_parser
            [take 7 (encode_form (b "B") two_parts CRLF); drop 7 (encode_form (b "B") two_parts CRLF)] = Ok (p, es) ∧
          finish p = Ok () ∧ bytewise es = bytewise (form_events two_parts).
Proof.
  apply (upload_roundtrip (b "B") two_parts CRLF).
  - not_in.
  - unfold two_parts. repeat constructor; try (vm_compute; reflexivity); try (vm_compute; discriminate).
  - vm_compute. reflexivity.
Defined.

Lemma chunks_invisible_witness :
  ∃ q es', feed (delimiter_of (b "B")) new_parser (concat [b "--"; b "B--"]) = Ok (q, es') ∧
           bytewise es' = bytewise [FormEnd] ∧ parser_sim (MkParser EPILOGUE [] 0 false 0) q.
Proof.
  apply (chunks_invisible (b "B") [b "--"; b "B--"] (MkParser EPILOGUE [] 0 false 0) [FormEnd]).
  vm_compute. reflexivity.
Defined.

(** ** Where the cutting matters

    The limits are checked on what has arrived, so a body close to one can be accepted in
    one piece and refused in two: 1025 blanks after a boundary. *)
Definition blanks : bytes := b "--B" ++ replicate 1025 " "%char.
Lemma cutting_can_refuse :
  is_ok (feed (delimiter_of (b "B")) new_parser (blanks ++ CRLF ++ CRLF)) ∧
  feed_all (delimiter_of (b "B")) new_parser [blanks; CRLF ++ CRLF] =
    Raise (MultipartError "a boundary is not followed by a line break").
Proof. split; [eexists; vm_compute; reflexivity|vm_compute; reflexivity]. Qed.
