(* ===== verification/Upload.v ===== *)
(** * Spooled uploads: the client side of web/multipart.py

    [_SpoolFile] (batched writes to the spool directory, with the size limit and the
    free-space floor), [stream_multipart] (the fold of the reader's events that keeps
    the wanted text fields and writes the wanted file parts to disk),
    [stream_body_to_file], [read_body_limited], and [UploadSpool], the hand-over of a
    spool directory between a request and its worker.

    The file system is explicit: [Disk] holds the files of one spool directory, and
    what the disk answers (free bytes, a write that fails half way) is an input,
    numbered by batch. *)

From Stdlib Require Import Ascii.
From S2P Require Import Prelude PyVal Bytes Multipart.
From stdpp Require Import options.
Local Open Scope Z_scope.

(** ** Effects: a spool directory and exceptions *)
Record Disk := MkDisk {
  dk_files : gmap spool_path bytes;
  (** names given out by [uuid4]: every name is new *)
  dk_names : nat;
  (** batches offered to the disk so far *)
  dk_batches : nat;
}.
Definition empty_disk : Disk := MkDisk ∅ 0 0.

Definition io (A : Type) : Type := Disk → Disk * result A.
#[export] Instance io_ret : MRet io := λ A a d, (d, Ok a).
#[export] Instance io_bind : MBind io := λ A B f m d,
  let '(d, r) := m d in match r with Ok a => f a d | Raise e => (d, Raise e) end.
Definition io_raise {A} (e : pyexc) : io A := λ d, (d, Raise e).
Definition io_lift {A} (r : result A) : io A := λ d, (d, r).

(** What the disk answers to the [n]-th batch: the free bytes, and whether writing it
    raises [OSError] after some of its bytes; and whether creating a file fails. *)
Class DiskAnswers := {
  disk_free : nat → Z;
  disk_fault : nat → option nat;
  open_fault : spool_path → bool;
}.

(** ** [_SpoolFile] *)
Definition SPOOL_WRITE_BYTES : Z := 1024 * 1024.

Record SpoolFile := MkSpool {
  sf_path : spool_path;
  sf_size : Z;
  sf_limit : Z;
  sf_free_floor : Z;
  sf_handle : bool;
  sf_pending : list bytes;
  sf_pending_bytes : Z;
}.

(** [spool_dir / uuid.uuid4().hex] *)
Definition fresh_path : io spool_path := λ d,
  (MkDisk (dk_files d) (S (dk_names d)) (dk_batches d), Ok (dk_names d)).

Definition new_spool (path : spool_path) (limit free_floor : Z) : SpoolFile :=
  MkSpool path 0 limit free_floor false [] 0.

Section spool.
Context `{DiskAnswers}.

(** [open]: an exclusive create. *)
Definition spool_open (s : SpoolFile) : io SpoolFile := λ d,
  if open_fault (sf_path s) then (d, Raise OSError)
  else (MkDisk (<[sf_path s := []]> (dk_files d)) (dk_names d) (dk_batches d),
        Ok (MkSpool (sf_path s) (sf_size s) (sf_limit s) (sf_free_floor s) true
              (sf_pending s) (sf_pending_bytes s))).

(** [_write_checked] *)
Definition write_checked (s : SpoolFile) (blob : bytes) : io () := λ d,
  let n := dk_batches d in
  let tell data :=
    MkDisk (<[sf_path s := default [] (dk_files d !! sf_path s) ++ data]> (dk_files d))
      (dk_names d) (S n) in
  if negb (sf_free_floor s =? 0) && (disk_free n - len blob <? sf_free_floor s)
  then (MkDisk (dk_files d) (dk_names d) (S n), Raise InsufficientSpoolSpaceError)
  else match disk_fault n with
       | Some k => (tell (take k blob), Raise OSError)
       | None => (tell blob, Ok ())
       end.

(** [_flush] *)
Definition spool_flush (s : SpoolFile) : io SpoolFile :=
  if negb (sf_handle s) then mret s
  else match sf_pending s with
       | [] => mret s
       | pending =>
           write_checked s (concat pending) ≫=
             λ _, mret (MkSpool (sf_path s) (sf_size s) (sf_limit s) (sf_free_floor s)
                          (sf_handle s) [] 0)
       end.

(** [write] *)
Definition spool_write (s : SpoolFile) (data : bytes) : io SpoolFile :=
  if sf_size s + len data >? sf_limit s then io_raise BodyTooLargeError
  else
    (if sf_handle s then mret s else spool_open s) ≫= λ s,
    let s := MkSpool (sf_path s) (sf_size s + len data) (sf_limit s) (sf_free_floor s)
               (sf_handle s) (sf_pending s ++ [data]) (sf_pending_bytes s + len data) in
    if sf_pending_bytes s >=? SPOOL_WRITE_BYTES then spool_flush s else mret s.

(** [abort]: only the handle is closed. *)
Definition spool_abort (s : SpoolFile) : SpoolFile :=
  MkSpool (sf_path s) (sf_size s) (sf_limit s) (sf_free_floor s) false
    (sf_pending s) (sf_pending_bytes s).

(** [close] *)
Definition spool_close (s : SpoolFile) : io SpoolFile :=
  spool_flush s ≫= λ s, mret (spool_abort s).

(** ** [stream_multipart] *)

(** The keyword arguments. *)
Record UploadLimits := MkLimits {
  ul_file_field : bytes;
  ul_text_fields : list bytes;
  ul_max_file_bytes : Z;
  ul_max_total_bytes : Z;
  ul_max_files : Z;
  ul_low_watermark_bytes : Z;
}.

(** The local variables of the event loop. *)
Record Upload := MkUpload {
  up_form : MultipartForm;
  up_name : bytes;
  up_filename : option bytes;
  up_content_type : bytes;
  up_text : bytes;
  up_keep_text : bool;
  up_extra_parts : Z;
  up_file_parts : Z;
  up_text_total : Z;
  up_spool : option SpoolFile;
}.
Definition new_upload : Upload := MkUpload empty_form [] None [] [] false 0 0 0 None.

(** [bool(filename)] for an optional text. *)
Definition present (filename : option bytes) : bool :=
  match filename with Some (_ :: _) => true | _ => false end.

Context (limits : UploadLimits).

(** [filename and name == file_field] *)
Definition wanted_file (name : bytes) (filename : option bytes) : bool :=
  present filename && bool_decide (name = ul_file_field limits).
(** [filename is None and name in text_fields] *)
Definition wanted_text (name : bytes) (filename : option bytes) : bool :=
  bool_decide (filename = None) && bool_decide (name ∈ ul_text_fields limits).

(** The branch for [PartStart]. *)
Definition on_start (u : Upload) (name : bytes) (filename : option bytes) (content_type : bytes)
    : io Upload :=
  let keep_text := wanted_text name filename in
  let go extra files spool :=
    mret (MkUpload (up_form u) name filename content_type [] keep_text extra files
            (up_text_total u) spool) in
  if wanted_file name filename then
    let files := up_file_parts u + 1 in
    if files >? ul_max_files limits then io_raise TooManyFilesError
    else fresh_path ≫= λ path,
         go (up_extra_parts u) files
           (Some (new_spool path (ul_max_file_bytes limits) (ul_low_watermark_bytes limits)))
  else
    let extra := up_extra_parts u + 1 in
    if extra >? MAX_EXTRA_PARTS
    then io_raise (MultipartError "the multipart body has too many parts")
    else go extra (up_file_parts u) None.

(** The branch for [PartData]. *)
Definition on_data (u : Upload) (data : bytes) : io Upload :=
  match up_spool u with
  | Some spool =>
      spool_write spool data ≫= λ spool,
      mret (MkUpload (up_form u) (up_name u) (up_filename u) (up_content_type u) (up_text u)
              (up_keep_text u) (up_extra_parts u) (up_file_parts u) (up_text_total u) (Some spool))
  | None =>
      if up_keep_text u then
        let text_total := up_text_total u + len data in
        if text_total >? MAX_TEXT_TOTAL_BYTES
        then io_raise (MultipartError "the multipart text fields are too large")
        else mret (MkUpload (up_form u) (up_name u) (up_filename u) (up_content_type u)
                     (up_text u ++ data) (up_keep_text u) (up_extra_parts u) (up_file_parts u)
                     text_total None)
      else mret u
  end.

(** The branch for [PartEnd]. *)
Definition on_end (u : Upload) : io Upload :=
  let close_part form :=
    MkUpload form [] None (up_content_type u) (up_text u) (up_keep_text u) (up_extra_parts u)
      (up_file_parts u) (up_text_total u) None in
  let form := up_form u in
  match up_spool u with
  | Some spool =>
      spool_close spool ≫= λ spool,
      mret (close_part
        (if sf_size spool =? 0 then form
         else MkForm (form_fields form)
                (form_files form ++
                 [MkFilePart (up_name u) (default [] (up_filename u)) (up_content_type u) []
                    (Some (sf_path spool)) (sf_size spool)])))
  | None =>
      mret (close_part
        (if up_keep_text u
         then MkForm (<[up_name u := utf8_decode (up_text u)]> (form_fields form)) (form_files form)
         else form))
  end.

Definition on_event (u : Upload) (event : MultipartEvent) : io Upload :=
  match event with
  | PartStart name filename content_type => on_start u name filename content_type
  | PartData data => on_data u data
  | PartEnd => on_end u
  | FormEnd => mret u
  end.

Fixpoint on_events (u : Upload) (events : list MultipartEvent) : io Upload :=
  match events with
  | [] => mret u
  | event :: events => on_event u event ≫= λ u, on_events u events
  end.

(** The [async for chunk in request.stream()] loop. *)
Fixpoint read_chunks (delimiter : bytes) (total : Z) (parser : MultipartParser) (u : Upload)
    (chunks : list bytes) : io (MultipartParser * Upload) :=
  match chunks with
  | [] => mret (parser, u)
  | chunk :: chunks =>
      let total := total + len chunk in
      if total >? ul_max_total_bytes limits then io_raise BodyTooLargeError
      else
        io_lift (feed delimiter parser chunk) ≫= λ r,
        on_events u r.2 ≫= λ u,
        read_chunks delimiter total r.1 u chunks
  end.

(** [stream_multipart] (on an exception the open handle is closed, which leaves the
    files as they are). *)
Definition stream_multipart (content_type : bytes) (chunks : list bytes) : io MultipartForm :=
  match multipart_boundary content_type with
  | None =>
      io_raise (MultipartError "the request is not multipart/form-data with a boundary")
  | Some boundary =>
      read_chunks (delimiter_of boundary) 0 new_parser new_upload chunks ≫= λ r,
      io_lift (finish r.1) ≫= λ _,
      mret (up_form r.2)
  end.

(** [stream_body_to_file] *)
Fixpoint spool_chunks (s : SpoolFile) (chunks : list bytes) : io SpoolFile :=
  match chunks with
  | [] => mret s
  | chunk :: chunks => spool_write s chunk ≫= λ s, spool_chunks s chunks
  end.
Definition stream_body_to_file (path : spool_path) (max_bytes low_watermark_bytes : Z)
    (chunks : list bytes) : io Z :=
  spool_chunks (new_spool path max_bytes low_watermark_bytes) chunks ≫= λ s,
  spool_close s ≫= λ s,
  mret (sf_size s).
End spool.

(** [read_body_limited]: the body cached on the request, if any, and the chunks still to
    come; answers the body and the cache. *)
Fixpoint collect_body (limit total : Z) (chunks : list bytes) : result bytes :=
  match chunks with
  | [] => Ok []
  | chunk :: chunks =>
      let total := total + len chunk in
      if total >? limit then Raise BodyTooLargeError
      else rest ← collect_body limit total chunks; Ok (chunk ++ rest)
  end.
Definition read_body_limited (cached : option bytes) (limit : Z) (chunks : list bytes)
    : result (bytes * option bytes) :=
  match cached with
  | Some data => Ok (data, cached)
  | None => data ← collect_body limit 0 chunks; Ok (data, Some data)
  end.

(** [_create_spool]'s space check, on the free bytes of the disk. *)
Definition create_spool_check (free expected_bytes low_watermark_bytes : Z) : result () :=
  if free - Z.max expected_bytes 0 <? low_watermark_bytes
  then Raise InsufficientSpoolSpaceError else Ok ().

(** ** [UploadSpool] *)
Inductive owner := owner_request | owner_worker | owner_gone.
#[export] Instance owner_eq_dec : EqDecision owner.
Proof. solve_decision. Defined.

(** [claim]: the new state and the answer. *)
Definition claim (state : owner) : owner * bool :=
  if decide (state = owner_request) then (owner_worker, true) else (state, false).
(** The locked part of [release]: the new state, and whether the directory is then
    removed. *)
Definition release (state : owner) : owner * bool :=
  if decide (state = owner_request) then (owner_gone, true) else (state, false).
(** The locked part of [finish], which always removes the directory afterwards. *)
Definition finish_spool (state : owner) : owner * bool := (owner_gone, true).

(** A request and its worker around one spool directory.  The request leaves through
    [release] ([upload_spool]'s exit); the worker, if it ever starts, begins with
    [claim_or_raise] and ends with [finish].  Each locked section is one step, the
    removal after it another. *)
Inductive request_pc := req_running | req_removing | req_left.
Inductive worker_pc := work_queued | work_running | work_removing | work_ended.
#[export] Instance request_pc_eq_dec : EqDecision request_pc.
Proof. solve_decision. Defined.
#[export] Instance worker_pc_eq_dec : EqDecision worker_pc.
Proof. solve_decision. Defined.

Record Handover := MkHandover {
  ho_state : owner;
  ho_request : request_pc;
  ho_worker : worker_pc;
  ho_removals : nat;
}.
Definition new_spool_dir : Handover := MkHandover owner_request req_running work_queued 0.

Inductive handover_step : Handover → Handover → Prop :=
  | step_release st w n :
      handover_step (MkHandover st req_running w n)
        (MkHandover (release st).1 (if (release st).2 then req_removing else req_left) w n)
  | step_request_removes st w n :
      handover_step (MkHandover st req_removing w n) (MkHandover st req_left w (S n))
  | step_claim st r n :
      handover_step (MkHandover st r work_queued n)
        (MkHandover (claim st).1 r (if (claim st).2 then work_running else work_ended) n)
  | step_finish st r n :
      handover_step (MkHandover st r work_running n)
        (MkHandover (finish_spool st).1 r (if (finish_spool st).2 then work_removing else work_ended) n)
  | step_worker_removes st r n :
      handover_step (MkHandover st r work_removing n) (MkHandover st r work_ended (S n)).
