(* ===== verification/UploadFacts.v ===== *)
(** * What a spooled upload delivers

    [stream_multipart] against the list of parts the body holds: on a disk that works it
    accepts a body exactly when the parts are within the limits, and then the form holds
    the wanted text fields, and the files on disk are the wanted file parts, byte for
    byte, whatever the cutting of the body.  The hand-over of a spool directory removes
    it once and never under a running worker. *)

From Stdlib Require Import Ascii.
From S2P Require Import Prelude PyVal Bytes Multipart MultipartFacts MultipartRound Upload.
From stdpp Require Import options.
Local Open Scope Z_scope.

(** ** The parts behind a list of events

    [absorb] puts parts together: those complete, and the one being read; [None] when the
    events are out of order. *)
Definition progress : Type := list part * option part.

Definition absorb (acc : progress) (event : MultipartEvent) : option progress :=
  match event, acc with
  | PartStart name filename content_type, (done, None) =>
      Some (done, Some (MkPart name filename content_type []))
  | PartData data, (done, Some pt) =>
      Some (done, Some (MkPart (pt_name pt) (pt_filename pt) (pt_content_type pt)
                          (pt_content pt ++ data)))
  | PartEnd, (done, Some pt) => Some (done ++ [pt], None)
  | FormEnd, (done, None) => Some acc
  | _, _ => None
  end.
Fixpoint absorb_all (acc : progress) (events : list MultipartEvent) : option progress :=
  match events with
  | [] => Some acc
  | event :: events => absorb acc event ≫= λ acc, absorb_all acc events
  end.

Lemma absorb_all_app acc es es' :
  absorb_all acc (es ++ es') = absorb_all acc es ≫= λ acc, absorb_all acc es'.
Proof.
  revert acc. induction es as [|e es IH]; intros acc; [done|]. cbn.
  destruct (absorb acc e); [apply IH|done].
Qed.

(** The pieces in which the content is reported do not matter. *)
Lemma absorb_bytes done pt data :
  absorb_all (done, Some pt) ((λ c, PartData [c]) <$> data) =
  Some (done, Some (MkPart (pt_name pt) (pt_filename pt) (pt_content_type pt) (pt_content pt ++ data))).
Proof.
  revert pt. induction data as [|c data IH]; intros [n f t s]; cbn.
  - by rewrite app_nil_r.
  - rewrite IH. cbn. by rewrite <-app_assoc.
Qed.

Definition no_empty_data (es : list MultipartEvent) : Prop := PartData [] ∉ es.

Lemma absorb_bytewise acc es :
  no_empty_data es → absorb_all acc (bytewise es) = absorb_all acc es.
Proof.
  revert acc. induction es as [|e es IH]; intros acc Hne; [done|].
  apply not_elem_of_cons in Hne as [He Hne].
  change (bytewise (e :: es)) with (bytewise ([e] ++ es)). rewrite bytewise_app, absorb_all_app.
  cbn [absorb_all]. assert (absorb_all acc (bytewise [e]) = absorb acc e) as ->.
  2: { destruct (absorb acc e); [by apply IH|done]. }
  destruct e as [? ? ?|data| |]; cbn; rewrite ?app_nil_r; cbn; try by destruct (absorb _ _).
  1, 3, 4: by destruct acc as [? []].
  destruct acc as [done [pt|]].
  - by rewrite absorb_bytes.
  - by destruct data.
Qed.

Lemma absorb_form parts done :
  absorb_all (done, None) (form_events parts) = Some (done ++ parts, None).
Proof.
  unfold form_events. revert done. induction parts as [|[n f t s] parts IH]; intros done.
  - cbn. by rewrite app_nil_r.
  - change ((?x :: parts) ≫= part_events) with (part_events x ++ (parts ≫= part_events)).
    rewrite <-app_assoc, absorb_all_app.
    assert (absorb_all (done, None) (part_events (MkPart n f t s)) = Some (done ++ [MkPart n f t s], None)) as ->.
    { unfold part_events. by destruct s. }
    cbn [mbind option_bind]. rewrite IH. by rewrite <-app_assoc.
Qed.

(** ** The reader reports its events in order *)
Definition is_content (p : MultipartParser) : bool := bool_decide (mp_state p = CONTENT).
Definition is_open (acc : progress) : bool := bool_decide (is_Some acc.2).

Lemma emit_order p data n es done pt :
  emit_data p data = Ok (n, es) →
  no_empty_data es ∧
  absorb_all (done, Some pt) es =
  Some (done, Some (MkPart (pt_name pt) (pt_filename pt) (pt_content_type pt) (pt_content pt ++ data))).
Proof.
  unfold emit_data. destruct data as [|c data].
  - intros [= <- <-]. rewrite app_nil_r. destruct pt. split; [by apply not_elem_of_nil|done].
  - case_match; [done|]. intros [= <- <-]. split; [|done]. unfold no_empty_data. set_solver.
Qed.

Lemma step_order delimiter p f p1 es acc :
  parser_step delimiter p = Ok (f, p1, es) → mp_state p ≠ EPILOGUE → is_open acc = is_content p →
  no_empty_data es ∧ ∃ acc', absorb_all acc es = Some acc' ∧ is_open acc' = is_content p1.
Proof.
  destruct acc as [done cur]. unfold is_open, is_content. unfold parser_step. cbn [snd].
  intros Hs Hne Ho. destruct (mp_state p) eqn:Hst; [| | | |done].
  - destruct cur; [done|]. unfold preamble in Hs.
    repeat (case_match; simplify_eq/=; try done); (split; [apply not_elem_of_nil|]);
      eexists; (split; [done|]); by rewrite ?Hst.
  - destruct cur; [done|]. unfold after_delimiter in Hs.
    repeat (case_match; simplify_eq/=; try done); (split; [unfold no_empty_data; set_solver|]);
      eexists; (split; [done|]); by rewrite ?Hst.
  - destruct cur; [done|]. unfold headers, part_start in Hs.
    repeat (case_match; simplify_eq/=; try done); (split; [unfold no_empty_data; set_solver|]);
      eexists; (split; [done|]); by rewrite ?Hst.
  - destruct cur as [pt|]; [|done]. unfold content in Hs. destruct (find _ _).
    + apply bind_ok in Hs as ([k e] & He & [= <- <- <-]).
      destruct (emit_order _ _ _ _ done pt He) as [Hn Ha]. split.
      { unfold no_empty_data in *. cbn. set_solver. }
      eexists. cbn [snd]. rewrite absorb_all_app, Ha. by split.
    + case_match.
      * apply bind_ok in Hs as ([k e] & He & [= <- <- <-]).
        destruct (emit_order _ _ _ _ done pt He) as [Hn Ha]. split; [done|]. eexists. by split.
      * simplify_eq. split; [apply not_elem_of_nil|]. eexists. split; [done|]. by rewrite Hst.
Qed.

Lemma runs_order delimiter p es p' acc :
  runs delimiter p es p' → mp_state p ≠ EPILOGUE → is_open acc = is_content p →
  no_empty_data es ∧ ∃ acc', absorb_all acc es = Some acc' ∧ is_open acc' = is_content p'.
Proof.
  intros Hr. revert acc. induction Hr as [p p' es Hs|p p1 es p' es' Hs _ IH]; intros acc Hne Ho.
  - by eapply step_order.
  - destruct (step_order _ _ _ _ _ _ Hs Hne Ho) as (Hn & acc1 & Ha & Ho1).
    destruct (IH acc1) as (Hn' & acc' & Ha' & Ho'); [|done|].
    { unfold parser_step in Hs. intros He. destruct (mp_state p);
        unfold preamble, after_delimiter, headers, content in Hs;
        repeat (case_match; simplify_eq/=; try done);
        apply bind_ok in Hs as (? & _ & ?); by simplify_eq. }
    split; [unfold no_empty_data in *; set_solver|]. exists acc'. by rewrite absorb_all_app, Ha.
Qed.

Lemma feed_order boundary p chunk p' es acc :
  feed (delimiter_of boundary) p chunk = Ok (p', es) → is_open acc = is_content p →
  no_empty_data es ∧ ∃ acc', absorb_all acc es = Some acc' ∧ is_open acc' = is_content p'.
Proof.
  intros Hf Ho. destruct (decide (mp_state p = EPILOGUE)) as [He|Hne].
  - rewrite feed_closed in Hf by (done || apply delimiter_length). simplify_eq.
    split; [apply not_elem_of_nil|]. by exists acc.
  - apply feed_runs in Hf; [|apply delimiter_length|done]. by eapply runs_order.
Qed.

Lemma feed_all_order boundary chunks p p' es acc :
  feed_all (delimiter_of boundary) p chunks = Ok (p', es) → is_open acc = is_content p →
  no_empty_data es ∧ ∃ acc', absorb_all acc es = Some acc'.
Proof.
  revert p es acc. induction chunks as [|c cs IH]; intros p es acc; cbn [feed_all].
  - intros [= <- <-] _. split; [apply not_elem_of_nil|]. by exists acc.
  - intros ([p1 e1] & Hf & ([p2 e2] & Hr & [= <- <-])%bind_ok)%bind_ok Ho. cbn [fst snd] in *.
    destruct (feed_order _ _ _ _ _ _ Hf Ho) as (Hne1 & acc1 & Ha1 & Ho1).
    destruct (IH _ _ _ Hr Ho1) as (Hne2 & acc2 & Ha2).
    split; [unfold no_empty_data in *; set_solver|]. exists acc2. by rewrite absorb_all_app, Ha1.
Qed.

Lemma form_no_empty parts : no_empty_data (form_events parts).
Proof.
  unfold no_empty_data, form_events. rewrite not_elem_of_app. split; [|set_solver].
  induction parts as [|[n f t data] parts IH]; [cbn; set_solver|].
  change (PartData [] ∉ part_events (MkPart n f t data) ++ (parts ≫= part_events)).
  rewrite not_elem_of_app. split; [|done]. unfold part_events. cbn. destruct data; set_solver.
Qed.

(** ** Spool files *)
Lemma len_app (s t : bytes) : len (s ++ t) = len s + len t.
Proof. unfold len. rewrite length_app. lia. Qed.
Lemma len_nonneg (s : bytes) : 0 ≤ len s.
Proof. unfold len. lia. Qed.

Section upload.
Context `{DiskAnswers} (limits : UploadLimits) (Hmax0 : 0 ≤ ul_max_file_bytes limits).

(** Something about the disk that can make a write fail. *)
Definition disk_trouble : Prop :=
  (∃ n k, disk_fault n = Some k) ∨ (∃ path, open_fault path = true) ∨
  (ul_low_watermark_bytes limits ≠ 0 ∧
   ∃ n, disk_free n < ul_low_watermark_bytes limits + ul_max_file_bytes limits).

(** The file and the pending batch together are the content received so far. *)
Record spool_holds (d : Disk) (s : SpoolFile) (content : bytes) : Prop := {
  sh_size : sf_size s = len content;
  sh_limit : sf_limit s = ul_max_file_bytes limits;
  sh_floor : sf_free_floor s = ul_low_watermark_bytes limits;
  sh_max : len content ≤ ul_max_file_bytes limits;
  sh_content :
    if sf_handle s
    then ∃ w, dk_files d !! sf_path s = Some w ∧ content = w ++ concat (sf_pending s)
    else content = [] ∧ sf_pending s = [];
}.

(** Only the file [path] of the directory changed. *)
Definition only_path (path : spool_path) (d d' : Disk) : Prop :=
  dk_names d' = dk_names d ∧ ∀ k, k ≠ path → dk_files d' !! k = dk_files d !! k.

Lemma spool_flush_spec d s content :
  spool_holds d s content →
  match spool_flush s d with
  | (d', Ok s') => spool_holds d' s' content ∧ sf_path s' = sf_path s ∧ sf_handle s' = sf_handle s ∧
                   sf_pending s' = [] ∧ only_path (sf_path s) d d'
  | (d', Raise e) => disk_trouble
  end.
Proof.
  intros Hh. destruct (Hh) as [Hs Hl Hf Hm Hc]. unfold spool_flush.
  destruct (sf_handle s) eqn:Hhd; cbn [negb].
  2: { cbn. split_and!; try done. naive_solver. }
  destruct (sf_pending s) as [|x pend] eqn:Hp; [by cbn; split_and!|].
  rewrite <-Hp in *. destruct Hc as (w & Hw & ->).
  unfold mbind, io_bind, write_checked. rewrite Hw. cbn [from_option id].
  destruct (negb (sf_free_floor s =? 0) && _) eqn:Hfree; cbn.
  { right. right. rewrite Hf in *. apply andb_prop in Hfree as [H0 Hlt].
    apply negb_true_iff, Z.eqb_neq in H0. split; [done|]. exists (dk_batches d). apply Z.ltb_lt in Hlt.
    pose proof (len_nonneg w). rewrite len_app in Hm. lia. }
  destruct (disk_fault _) as [k|] eqn:Hk; cbn; [left; by eauto|].
  split_and!; try done.
  - split; try done. exists (w ++ concat (sf_pending s)). cbn. by rewrite lookup_insert_eq, app_nil_r.
  - split; [done|]. intros k Hne. cbn. by rewrite lookup_insert_ne.
Qed.

Lemma spool_open_spec d s content :
  spool_holds d s content → sf_handle s = false →
  match spool_open s d with
  | (d', Ok s') => spool_holds d' s' content ∧ sf_path s' = sf_path s ∧ sf_handle s' = true ∧
                   only_path (sf_path s) d d'
  | (d', Raise e) => disk_trouble
  end.
Proof.
  intros [Hs Hl Hf Hm Hc] Hhd. rewrite Hhd in Hc. destruct Hc as [-> Hp]. unfold spool_open.
  destruct (open_fault _) eqn:Ho; [right; left; by eauto|]. split_and!; try done.
  - split; try done. cbn. exists []. rewrite lookup_insert_eq, Hp. done.
  - split; [done|]. intros k Hne. cbn. by rewrite lookup_insert_ne.
Qed.

Lemma only_path_trans path d d1 d2 : only_path path d d1 → only_path path d1 d2 → only_path path d d2.
Proof. intros [H1 H2] [H3 H4]. split; [congruence|]. intros k Hk. rewrite H4, H2; done. Qed.

Lemma only_path_refl path d : only_path path d d.
Proof. done. Qed.

Lemma spool_write_spec d s content data :
  spool_holds d s content →
  match spool_write s data d with
  | (d', Ok s') => spool_holds d' s' (content ++ data) ∧ sf_path s' = sf_path s ∧
                   only_path (sf_path s) d d'
  | (d', Raise e) => len (content ++ data) > ul_max_file_bytes limits ∨ disk_trouble
  end.
Proof.
  intros Hh. unfold spool_write. rewrite (sh_size _ _ _ Hh), (sh_limit _ _ _ Hh), <-len_app.
  rewrite Z.gtb_ltb. case_cmp; [cbn; left; lia|].
  assert (∀ d1 s1, spool_holds d1 s1 content → sf_handle s1 = true → sf_path s1 = sf_path s →
    only_path (sf_path s) d d1 →
    let s2 := MkSpool (sf_path s1) (sf_size s1 + len data) (sf_limit s1) (sf_free_floor s1)
               (sf_handle s1) (sf_pending s1 ++ [data]) (sf_pending_bytes s1 + len data) in
    match (if sf_pending_bytes s2 >=? SPOOL_WRITE_BYTES then spool_flush s2 else mret s2) d1 with
    | (d', Ok s') => spool_holds d' s' (content ++ data) ∧ sf_path s' = sf_path s ∧
                     only_path (sf_path s) d d'
    | (d', Raise e) => len (content ++ data) > ul_max_file_bytes limits ∨ disk_trouble
    end) as Hrest.
  { intros d1 s1 [Hs1 Hl1 Hf1 Hm1 Hc1] Hhd Hp1 Ho s2. rewrite Hhd in Hc1. destruct Hc1 as (w & Hw & ->).
    assert (spool_holds d1 s2 ((w ++ concat (sf_pending s1)) ++ data)) as Hh2.
    { split; cbn; try done; [by rewrite Hs1, <-len_app|]. rewrite Hhd. exists w. split; [done|].
      rewrite concat_app. cbn. by rewrite app_nil_r, app_assoc. }
    destruct (sf_pending_bytes s2 >=? SPOOL_WRITE_BYTES); [|done]. pose proof (spool_flush_spec d1 s2 _ Hh2) as Hfl.
    destruct (spool_flush s2 d1) as [d' [s'|e]]; [|by right].
    destruct Hfl as (? & Hp' & _ & _ & Ho'). cbn in Hp', Ho'. split_and!; [done|by rewrite Hp'|].
    rewrite Hp1 in Ho'. by eapply only_path_trans. }
  unfold mbind, io_bind. destruct (sf_handle s) eqn:Hhd; [by apply Hrest|].
  pose proof (spool_open_spec d s content Hh Hhd) as Hopen.
  destruct (spool_open s d) as [d1 [s1|e]]; [|by right]. destruct Hopen as (? & ? & ? & ?).
  by apply Hrest.
Qed.

(** A closed file holds the whole content (an empty part has no file). *)
Lemma spool_close_spec d s content :
  spool_holds d s content →
  match spool_close s d with
  | (d', Ok s') => sf_size s' = len content ∧ sf_path s' = sf_path s ∧ only_path (sf_path s) d d' ∧
                   (content ≠ [] → dk_files d' !! sf_path s = Some content)
  | (d', Raise e) => disk_trouble
  end.
Proof.
  intros Hh. pose proof (spool_flush_spec d s content Hh) as Hfl. unfold spool_close, mbind, io_bind.
  destruct (spool_flush s d) as [d' [s'|e]]; [|done]. cbn. destruct Hfl as (Hh' & Hp & Hhd & Hpend & Ho).
  split_and!; [apply Hh'|done..|]. intros Hne. pose proof (sh_content _ _ _ Hh') as Hc.
  destruct (sf_handle s'); [|by destruct Hc]. destruct Hc as (w & Hw & ->).
  by rewrite <-Hp, Hw, Hpend, app_nil_r.
Qed.

(** ** The event loop *)
Definition part_file (pt : part) : bool := wanted_file limits (pt_name pt) (pt_filename pt).
Definition part_text (pt : part) : bool := wanted_text limits (pt_name pt) (pt_filename pt).

(** The form a list of parts calls for: the last value of each wanted text field, and the
    wanted file parts that are not empty, in order. *)
Definition fields_of (parts : list part) : gmap bytes text :=
  foldl (λ fields pt, if part_text pt then <[pt_name pt := utf8_decode (pt_content pt)]> fields else fields)
    ∅ parts.
Definition files_of (parts : list part) : list part :=
  filter (λ pt, part_file pt = true ∧ pt_content pt ≠ []) parts.

(** A file of the form, the part it stands for, and the file on disk. *)
Definition file_matches (d : Disk) (bound : nat) (fp : FilePart) (pt : part) : Prop :=
  ∃ path, (path < bound)%nat ∧ dk_files d !! path = Some (pt_content pt) ∧
    fp = MkFilePart (pt_name pt) (default [] (pt_filename pt)) (pt_content_type pt) []
           (Some path) (len (pt_content pt)).

(** The limits on a list of parts. *)
Definition count (p : part → bool) (parts : list part) : Z := Z.of_nat (length (filter (λ pt, p pt = true) parts)).
Definition text_total (parts : list part) : Z :=
  foldl (λ n pt, if part_text pt then n + len (pt_content pt) else n) 0 parts.
Record within_limits (parts : list part) : Prop := {
  wl_files : count part_file parts ≤ ul_max_files limits;
  wl_extra : count (λ pt, negb (part_file pt)) parts ≤ MAX_EXTRA_PARTS;
  wl_text : text_total parts ≤ MAX_TEXT_TOTAL_BYTES;
  wl_size : ∀ pt, pt ∈ parts → part_file pt = true → len (pt_content pt) ≤ ul_max_file_bytes limits;
}.

Definition parts_of (acc : progress) : list part := acc.1 ++ option_list acc.2.

(** What the loop's variables hold when [acc] has been read. *)
Record upload_inv (u : Upload) (d : Disk) (acc : progress) : Prop := {
  ui_fields : form_fields (up_form u) = fields_of acc.1;
  ui_files : Forall2 (file_matches d (default (dk_names d) (sf_path <$> up_spool u)))
               (form_files (up_form u)) (files_of acc.1);
  ui_extra : up_extra_parts u = count (λ pt, negb (part_file pt)) (parts_of acc);
  ui_count : up_file_parts u = count part_file (parts_of acc);
  ui_text : up_text_total u = text_total (parts_of acc);
  ui_within : within_limits (parts_of acc);
  ui_names : ∀ s, up_spool u = Some s → (sf_path s < dk_names d)%nat;
  ui_current :
    match acc.2 with
    | None => up_spool u = None
    | Some pt =>
        up_name u = pt_name pt ∧ up_filename u = pt_filename pt ∧
        up_content_type u = pt_content_type pt ∧ up_keep_text u = part_text pt ∧
        (part_text pt = true → up_text u = pt_content pt) ∧
        if part_file pt then ∃ s, up_spool u = Some s ∧ spool_holds d s (pt_content pt)
        else up_spool u = None
    end;
}.

Lemma files_only_path d d' bound path fps pts :
  only_path path d d' → (bound ≤ path)%nat →
  Forall2 (file_matches d bound) fps pts → Forall2 (file_matches d' bound) fps pts.
Proof.
  intros [_ Ho] Hb Hf. eapply Forall2_impl; [exact Hf|]. intros fp pt (k & Hk & Hd & ->). exists k. split_and!; [done| |done].
  rewrite Ho; [done|lia].
Qed.

Lemma files_bound d bound bound' fps pts :
  (bound ≤ bound')%nat → Forall2 (file_matches d bound) fps pts → Forall2 (file_matches d bound') fps pts.
Proof.
  intros Hb Hf. eapply Forall2_impl; [exact Hf|]. intros fp pt (k & Hk & ?). exists k. split; [lia|done].
Qed.

Lemma count_snoc p parts pt : count p (parts ++ [pt]) = count p parts + (if p pt then 1 else 0).
Proof.
  unfold count. rewrite filter_app, length_app. destruct (p pt) eqn:Hp.
  - rewrite (filter_singleton_True _ pt []) by done. cbn. lia.
  - rewrite (filter_singleton_False _ pt []) by (rewrite Hp; done). cbn. lia.
Qed.

Lemma text_total_snoc parts pt :
  text_total (parts ++ [pt]) = if part_text pt then text_total parts + len (pt_content pt) else text_total parts.
Proof. unfold text_total. by rewrite foldl_app. Qed.

Lemma within_snoc parts pt :
  within_limits (parts ++ [pt]) ↔
  within_limits parts ∧
  (if part_file pt then count part_file parts + 1 ≤ ul_max_files limits ∧ len (pt_content pt) ≤ ul_max_file_bytes limits
   else count (λ pt, negb (part_file pt)) parts + 1 ≤ MAX_EXTRA_PARTS) ∧
  (part_text pt = true → text_total parts + len (pt_content pt) ≤ MAX_TEXT_TOTAL_BYTES).
Proof using Hmax0.
  split.
  - intros [H1 H2 H3 H4]. rewrite !count_snoc, text_total_snoc in *. pose proof (len_nonneg (pt_content pt)).
    split_and!.
    + split; [destruct (part_file pt); lia|destruct (part_file pt); simpl in *; lia|
        destruct (part_text pt); lia|]. intros pt' Hin. apply H4. set_solver.
    + destruct (part_file pt) eqn:Hf; simpl in *; [|lia]. split; [lia|]. apply H4; [set_solver|done].
    + intros Ht. by rewrite Ht in H3.
  - intros ([H1 H2 H3 H4] & Hf & Ht). split; rewrite ?count_snoc, ?text_total_snoc.
    + destruct (part_file pt); lia.
    + destruct (part_file pt); simpl; lia.
    + destruct (part_text pt); [by apply Ht|done].
    + intros pt' [Hin| ->%list_elem_of_singleton]%elem_of_app; [by apply H4|].
      intros Hpf. rewrite Hpf in Hf. apply Hf.
Qed.
Lemma text_not_file pt : part_text pt = true → part_file pt = false.
Proof using Hmax0.
  unfold part_text, part_file, wanted_text, wanted_file. destruct (pt_filename pt); [|done].
  by rewrite andb_false_l.
Qed.

(** What an event must do: read on, or stop for a reason. *)
Definition step_spec (r : Disk * result Upload) (acc' : progress) : Prop :=
  match r with
  | (d', Ok u') => upload_inv u' d' acc'
  | (_, Raise _) => ¬ within_limits (parts_of acc') ∨ disk_trouble
  end.

Lemma on_start_spec u d done name filename content_type :
  upload_inv u d (done, None) →
  step_spec (on_start limits u name filename content_type d)
    (done, Some (MkPart name filename content_type [])).
Proof using Hmax0.
  intros [Hfields Hfiles Hextra Hcount Htext Hwithin Hnames Hcur]. cbn [snd fst] in *.
  set (pt := MkPart name filename content_type []).
  change (parts_of (done, None)) with (done ++ []) in *. rewrite app_nil_r in *. rewrite Hcur in Hfiles.
  unfold on_start. change (wanted_file limits name filename) with (part_file pt).
  change (wanted_text limits name filename) with (part_text pt).
  assert (∀ u' d', up_form u' = up_form u → dk_files d' = dk_files d → (dk_names d ≤ dk_names d')%nat →
    default (dk_names d') (sf_path <$> up_spool u') = dk_names d →
    up_extra_parts u' = count (λ pt, negb (part_file pt)) (done ++ [pt]) →
    up_file_parts u' = count part_file (done ++ [pt]) → up_text_total u' = up_text_total u →
    within_limits (done ++ [pt]) → (∀ s, up_spool u' = Some s → (sf_path s < dk_names d')%nat) →
    (up_name u' = pt_name pt ∧ up_filename u' = pt_filename pt ∧
        up_content_type u' = pt_content_type pt ∧ up_keep_text u' = part_text pt ∧
        (part_text pt = true → up_text u' = pt_content pt) ∧
        if part_file pt then ∃ s, up_spool u' = Some s ∧ spool_holds d' s (pt_content pt)
        else up_spool u' = None) → upload_inv u' d' (done, Some pt)) as Hinv.
  { intros u' d' Hform Hdf Hdn Hpath He Hc Ht Hw Hn Hcur'. split; cbn [snd fst];
      change (parts_of (done, Some pt)) with (done ++ [pt]); try done.
    - by rewrite Hform.
    - rewrite Hform, Hpath. eapply Forall2_impl; [exact Hfiles|]. intros fp pt' (k & ? & Hk & ?).
      exists k. by rewrite Hdf.
    - rewrite Ht, text_total_snoc, Htext. change (len (pt_content pt)) with 0. destruct (part_text pt); lia. }
  destruct (part_file pt) eqn:Hpf.
  - rewrite Z.gtb_ltb. case_cmp.
    { left. change (parts_of (done, Some pt)) with (done ++ [pt]). rewrite within_snoc, Hpf, <-Hcount. intros (_ & [? _] & _). lia. }
    cbn. apply Hinv; cbn; try done; try lia.
    + rewrite count_snoc, Hpf, Hextra. cbn. lia.
    + by rewrite count_snoc, Hpf, Hcount.
    + apply within_snoc. rewrite Hpf, <-Hcount. split_and!; [done|lia|exact Hmax0|].
      intros Ht%text_not_file. congruence.
    + intros s [= <-]. cbn. lia.
    + split_and!; try done. eexists. split; [done|]. by split.
  - rewrite Z.gtb_ltb. case_cmp.
    { left. change (parts_of (done, Some pt)) with (done ++ [pt]). rewrite within_snoc, Hpf, <-Hextra. intros (_ & ? & _). lia. }
    cbn. apply Hinv; cbn; try done; try lia.
    + rewrite count_snoc, Hpf, Hextra. done.
    + rewrite count_snoc, Hpf, Hcount. lia.
    + apply within_snoc. rewrite Hpf, <-Hextra. split_and!; [done|lia|].
      intros _. change (len (pt_content pt)) with 0. pose proof (wl_text _ Hwithin). lia.
Qed.
(** Growing the current part changes its counters only by its content. *)
Lemma count_grow p done pt pt' :
  p pt = p pt' → count p (done ++ [pt]) = count p (done ++ [pt']).
Proof using Hmax0. intros Hp. by rewrite !count_snoc, Hp. Qed.

Lemma on_data_spec u d done pt data :
  upload_inv u d (done, Some pt) →
  step_spec (on_data u data d)
    (done, Some (MkPart (pt_name pt) (pt_filename pt) (pt_content_type pt) (pt_content pt ++ data))).
Proof using Hmax0.
  intros [Hfields Hfiles Hextra Hcount Htext Hwithin Hnames Hcur]. cbn [snd fst] in *.
  set (pt' := MkPart _ _ _ (pt_content pt ++ data)).
  change (parts_of (done, Some pt)) with (done ++ [pt]) in *.
  assert (part_file pt' = part_file pt) as Hpf by done. assert (part_text pt' = part_text pt) as Hpt by done.
  destruct Hcur as (Hn & Hf & Ht & Hk & Htx & Hsp). apply within_snoc in Hwithin as (Hw & Hwf & Hwt).
  assert (∀ u' d', up_form u' = up_form u → dk_names d' = dk_names d →
    (sf_path <$> up_spool u') = (sf_path <$> up_spool u) →
    Forall2 (file_matches d' (default (dk_names d) (sf_path <$> up_spool u))) (form_files (up_form u)) (files_of done) →
    up_extra_parts u' = up_extra_parts u → up_file_parts u' = up_file_parts u →
    up_text_total u' = text_total (done ++ [pt']) → within_limits (done ++ [pt']) →
    (up_name u' = pt_name pt ∧ up_filename u' = pt_filename pt ∧
        up_content_type u' = pt_content_type pt ∧ up_keep_text u' = part_text pt ∧
        (part_text pt = true → up_text u' = pt_content pt') ∧
        if part_file pt then ∃ s, up_spool u' = Some s ∧ spool_holds d' s (pt_content pt')
        else up_spool u' = None) → upload_inv u' d' (done, Some pt')) as Hinv.
  { intros u' d' Hform Hdn Hpath Hfs He Hc Htt Hwl Hcur'. split; cbn [snd fst];
      change (parts_of (done, Some pt')) with (done ++ [pt']); try done.
    - by rewrite Hform.
    - by rewrite Hform, Hpath, Hdn.
    - rewrite He, Hextra. by apply count_grow.
    - rewrite Hc, Hcount. by apply count_grow.
    - intros s Hs. rewrite Hs in Hpath. destruct (up_spool u) as [s'|] eqn:Hu; [|done]. simplify_eq/=.
      rewrite Hdn, Hpath. by apply Hnames. }
  assert (part_file pt = true → part_text pt = false) as Hexcl.
  { intros Hpf'. destruct (part_text pt) eqn:E; [|done]. apply text_not_file in E. congruence. }
  unfold on_data, step_spec. destruct (part_file pt) eqn:Hpf'.
  - destruct Hsp as (s & Hs & Hh). rewrite Hs in *. pose proof (spool_write_spec d s _ data Hh) as Hwr.
    unfold mbind, io_bind. destruct (spool_write s data d) as [d' [s'|e]].
    + destruct Hwr as (Hh' & Hp & Ho). apply Hinv; cbn; try done.
      * apply Ho.
      * by rewrite Hp.
      * by eapply files_only_path.
      * rewrite Htext, !text_total_snoc, Hpt, (Hexcl eq_refl). done.
      * apply within_snoc. rewrite Hpf, Hpt, (Hexcl eq_refl). split_and!; [done|apply Hwf|apply Hh'|done].
      * split_and!; try done. 2: by eexists. rewrite (Hexcl eq_refl). done.
    + destruct Hwr as [Hgt|?]; [left|by right].
      change (parts_of (done, Some pt')) with (done ++ [pt']). rewrite within_snoc, Hpf.
      intros (_ & [_ ?] & _). cbn in *. lia.
  - rewrite Hsp in *. rewrite Hk. destruct (part_text pt) eqn:Hpt'.
    + assert (text_total (done ++ [pt']) = up_text_total u + len data) as Htt.
      { rewrite Htext, !text_total_snoc, Hpt, Hpt'. change (pt_content pt') with (pt_content pt ++ data).
        rewrite len_app. lia. }
      rewrite Z.gtb_ltb. case_cmp.
      { left. intros Hwl. pose proof (wl_text _ Hwl) as Hx.
        change (parts_of (done, Some pt')) with (done ++ [pt']) in Hx. lia. }
      cbn. apply Hinv; cbn; try done.
      * apply within_snoc. rewrite Hpf, Hpt. split_and!; [done..|]. intros _.
        rewrite text_total_snoc, Hpt in Htt. lia.
      * split_and!; try done. intros _. by rewrite Htx.
    + cbn. apply Hinv; try done.
      * by rewrite Hsp.
      * rewrite Htext, !text_total_snoc, Hpt, Hpt'. done.
      * apply within_snoc. rewrite Hpf, Hpt. by split_and!.
Qed.

Lemma files_snoc done pt :
  files_of (done ++ [pt]) = files_of done ++ (if part_file pt && negb (bool_decide (pt_content pt = [])) then [pt] else []).
Proof using Hmax0.
  unfold files_of. rewrite filter_app. f_equal. destruct (part_file pt) eqn:Hf; cbn [andb].
  - case_bool_decide as Hc; cbn [negb].
    + rewrite (filter_singleton_False _ pt []); [done|]. naive_solver.
    + by rewrite (filter_singleton_True _ pt []).
  - rewrite (filter_singleton_False _ pt []); [done|]. rewrite Hf. naive_solver.
Qed.

Lemma on_end_spec u d done pt :
  upload_inv u d (done, Some pt) → step_spec (on_end u d) (done ++ [pt], None).
Proof using Hmax0.
  intros [Hfields Hfiles Hextra Hcount Htext Hwithin Hnames Hcur]. cbn [snd fst] in *.
  change (parts_of (done, Some pt)) with (done ++ [pt]) in *.
  destruct Hcur as (Hn & Hf & Ht & Hk & Htx & Hsp).
  assert (∀ form d', form_fields form = fields_of (done ++ [pt]) →
    Forall2 (file_matches d' (dk_names d')) (form_files form) (files_of (done ++ [pt])) →
    upload_inv (MkUpload form [] None (up_content_type u) (up_text u) (up_keep_text u) (up_extra_parts u)
      (up_file_parts u) (up_text_total u) None) d' (done ++ [pt], None)) as Hinv.
  { intros form d' Hff Hfs. split; cbn [snd fst up_form up_spool up_extra_parts up_file_parts up_text_total];
      change (parts_of (done ++ [pt], None)) with ((done ++ [pt]) ++ []); rewrite ?app_nil_r; done. }
  assert (part_file pt = true → part_text pt = false) as Hexcl.
  { intros Hpf'. destruct (part_text pt) eqn:E; [|done]. apply text_not_file in E. congruence. }
  assert (fields_of (done ++ [pt]) =
    if part_text pt then <[pt_name pt := utf8_decode (pt_content pt)]> (fields_of done) else fields_of done) as Hfld.
  { unfold fields_of. by rewrite foldl_app. }
  unfold on_end, step_spec. destruct (part_file pt) eqn:Hpf.
  - destruct Hsp as (s & Hs & Hh). rewrite Hs in *. pose proof (spool_close_spec d s _ Hh) as Hcl.
    unfold mbind, io_bind. destruct (spool_close s d) as [d' [s'|e]]; [|by right]. cbn.
    destruct Hcl as (Hsz & Hp & Ho & Hfile). apply Hinv.
    + rewrite Hfld, (Hexcl eq_refl), Hsz. by destruct (len (pt_content pt) =? 0).
    + pose proof (Hnames s eq_refl) as Hlt. pose proof (proj1 Ho) as Hdn.
      assert (Forall2 (file_matches d' (dk_names d')) (form_files (up_form u)) (files_of done)) as Hold.
      { eapply files_bound; [|by eapply files_only_path]. cbn. lia. }
      rewrite files_snoc, Hpf, Hsz. cbn [andb]. destruct (pt_content pt) as [|c data] eqn:Hc.
      * rewrite bool_decide_true by done. cbn. by rewrite app_nil_r.
      * rewrite bool_decide_false by done. cbn [negb]. rewrite (proj2 (Z.eqb_neq _ _)) by (unfold len; simpl; lia).
        cbn [form_files]. apply Forall2_app; [done|]. constructor; [|constructor].
        exists (sf_path s). rewrite Hc, Hn, Hf, Ht, Hp. split_and!; [lia|by apply Hfile|done].
  - rewrite Hsp in *. cbn. apply Hinv.
    + rewrite Hfld, Hk. destruct (part_text pt); cbn; [|done]. by rewrite Hfields, Hn, Htx.
    + rewrite files_snoc, Hpf. cbn [andb]. rewrite app_nil_r. rewrite Hk. by destruct (part_text pt).
Qed.

Lemma on_event_spec u d acc acc' event :
  upload_inv u d acc → absorb acc event = Some acc' → step_spec (on_event limits u event d) acc'.
Proof using Hmax0.
  intros Hinv Ha. destruct acc as [done [pt|]], event; cbn in Ha; simplify_eq; cbn [on_event].
  - by apply on_data_spec.
  - by apply on_end_spec.
  - by apply on_start_spec.
  - done.
Qed.
(** Reading on never brings a body back within the limits. *)
Lemma absorb_within acc acc' event :
  absorb acc event = Some acc' → within_limits (parts_of acc') → within_limits (parts_of acc).
Proof using Hmax0.
  destruct acc as [done [pt|]], event; cbn [absorb]; intros [= <-].
  - change (within_limits (done ++ [MkPart (pt_name pt) (pt_filename pt) (pt_content_type pt) (pt_content pt ++ data)]) →
      within_limits (done ++ [pt])).
    rewrite !within_snoc. change (part_file (MkPart _ _ _ _)) with (part_file pt).
    change (part_text (MkPart _ _ _ _)) with (part_text pt). cbn [pt_content]. rewrite len_app.
    pose proof (len_nonneg data). intros (? & Hf & Ht). split_and!; [done| |].
    + destruct (part_file pt); [|done]. split; [apply Hf|]. destruct Hf. lia.
    + intros Htt. apply Ht in Htt. lia.
  - change (within_limits ((done ++ [pt]) ++ []) → within_limits (done ++ [pt])). by rewrite app_nil_r.
  - change (within_limits (done ++ [MkPart name filename content_type []]) → within_limits (done ++ [])).
    rewrite app_nil_r, within_snoc. by intros [? _].
  - done.
Qed.

Lemma absorb_all_within acc acc' es :
  absorb_all acc es = Some acc' → within_limits (parts_of acc') → within_limits (parts_of acc).
Proof using Hmax0.
  revert acc. induction es as [|e es IH]; intros acc; cbn; [by intros [= ->]|].
  intros (acc1 & Ha & Hr)%bind_Some Hw. eapply absorb_within; [done|]. by eapply IH.
Qed.

Lemma on_events_spec es u d acc acc' :
  upload_inv u d acc → absorb_all acc es = Some acc' → step_spec (on_events limits u es d) acc'.
Proof using Hmax0.
  revert u d acc. induction es as [|e es IH]; intros u d acc Hinv; cbn; [by intros [= <-]|].
  intros (acc1 & Ha & Hr)%bind_Some. pose proof (on_event_spec u d acc acc1 e Hinv Ha) as Hs.
  unfold mbind, io_bind. destruct (on_event limits u e d) as [d1 [u1|ex]]; [by apply (IH _ _ acc1)|].
  destruct Hs as [Hn|?]; [left|by right]. intros Hw. apply Hn. by eapply absorb_all_within.
Qed.

(** ** The whole request *)
Lemma len_concat_cons (c : bytes) cs : len (concat (c :: cs)) = len c + len (concat cs).
Proof using Hmax0. cbn. apply len_app. Qed.

Lemma read_chunks_spec boundary chunks total p u d acc :
  upload_inv u d acc → is_open acc = is_content p → total ≤ ul_max_total_bytes limits →
  match read_chunks limits (delimiter_of boundary) total p u chunks d with
  | (d', Ok (p', u')) =>
      ∃ es acc', feed_all (delimiter_of boundary) p chunks = Ok (p', es) ∧
        absorb_all acc es = Some acc' ∧ is_open acc' = is_content p' ∧ no_empty_data es ∧
        upload_inv u' d' acc' ∧ total + len (concat chunks) ≤ ul_max_total_bytes limits
  | (_, Raise _) =>
      total + len (concat chunks) > ul_max_total_bytes limits ∨ disk_trouble ∨
      (∀ p' es acc', feed_all (delimiter_of boundary) p chunks = Ok (p', es) →
         absorb_all acc es = Some acc' → ¬ within_limits (parts_of acc'))
  end.
Proof using Hmax0.
  revert total p u d acc. induction chunks as [|c cs IH]; intros total p u d acc Hinv Ho Ht; cbn [read_chunks].
  { cbn. exists [], acc. split_and!; try done; [apply not_elem_of_nil|unfold len; simpl; lia]. }
  rewrite len_concat_cons. pose proof (len_nonneg (concat cs)). rewrite Z.gtb_ltb. case_cmp; [left; cbn; lia|].
  unfold mbind, io_bind, io_lift. cbn [feed_all].
  destruct (feed (delimiter_of boundary) p c) as [[p1 e1]|ex] eqn:Hf; [|by right; right].
  destruct (feed_order _ _ _ _ _ _ Hf Ho) as (Hne1 & acc1 & Ha1 & Ho1). cbn [fst snd].
  pose proof (on_events_spec e1 u d acc acc1 Hinv Ha1) as Hs.
  destruct (on_events limits u e1 d) as [d1 [u1|ex]]; cbn in Hs.
  - pose proof (IH (total + len c) p1 u1 d1 acc1 Hs Ho1 ltac:(lia)) as Hr.
    destruct (read_chunks limits (delimiter_of boundary) (total + len c) p1 u1 cs d1) as [d' [[p' u']|ex]].
    + destruct Hr as (es & acc' & Hfa & Ha & Ho' & Hne & Hinv' & Htot).
      exists (e1 ++ es), acc'. rewrite absorb_all_app, Ha1. unfold mbind, result_bind. cbn [fst snd]. rewrite Hfa.
      split_and!; try done; [|lia]. unfold no_empty_data in *. set_solver.
    + destruct Hr as [?|[?|Hr]]; [left; lia|by right; left|]. right; right.
      intros p' es acc' Hfa Ha. unfold mbind, result_bind in Hfa. cbn [fst snd] in Hfa.
    destruct (feed_all (delimiter_of boundary) p1 cs) as [[p2 e2]|] eqn:Hcs; [cbn in Hfa; simplify_eq|done].
      rewrite absorb_all_app, Ha1 in Ha. by apply (Hr p' e2 acc' eq_refl).
  - destruct Hs as [Hn|?]; [|by right; left]. right; right.
    intros p' es acc' Hfa Ha Hw. unfold mbind, result_bind in Hfa. cbn [fst snd] in Hfa.
    destruct (feed_all (delimiter_of boundary) p1 cs) as [[p2 e2]|] eqn:Hcs; [cbn in Hfa; simplify_eq|done].
    rewrite absorb_all_app, Ha1 in Ha.
    apply Hn. by eapply absorb_all_within.
Qed.

Lemma new_upload_inv : 0 ≤ ul_max_files limits → upload_inv new_upload empty_disk ([], None).
Proof using Hmax0.
  intros Hf. split; try done. split; try done. set_solver.
Qed.

(** The form a request yields for a list of parts. *)
Definition form_matches (d : Disk) (form : MultipartForm) (parts : list part) : Prop :=
  form_fields form = fields_of parts ∧
  Forall2 (file_matches d (dk_names d)) (form_files form) (files_of parts).

(** The parts a body holds, read in one piece. *)
Definition body_parts (boundary body : bytes) (parts : list part) : Prop :=
  ∃ p es, feed (delimiter_of boundary) new_parser body = Ok (p, es) ∧ finish p = Ok () ∧
          absorb_all ([], None) es = Some (parts, None).
End upload.

(** ** The properties *)

(** C25: an accepted upload is what the body says, however it was cut into chunks: when
    [stream_multipart] returns, the body read in one piece is a complete form whose parts
    are within the limits, the fields are the last value of each wanted text field, and
    the files on disk are exactly the wanted non-empty file parts, in order and byte for
    byte. *)
Theorem accepted_upload_is_the_body `{DiskAnswers} limits content_type chunks d form :
  0 ≤ ul_max_file_bytes limits → 0 ≤ ul_max_files limits → 0 ≤ ul_max_total_bytes limits →
  stream_multipart limits content_type chunks empty_disk = (d, Ok form) →
  ∃ boundary parts, multipart_boundary content_type = Some boundary ∧
    body_parts boundary (concat chunks) parts ∧ within_limits limits parts ∧
    len (concat chunks) ≤ ul_max_total_bytes limits ∧ form_matches limits d form parts.
Proof.
  intros Hm Hn Ht. unfold stream_multipart. destruct (multipart_boundary content_type) as [boundary|]; [|done].
  unfold mbind, io_bind, io_lift, mret, io_ret.
  pose proof (read_chunks_spec limits Hm boundary chunks 0 new_parser new_upload empty_disk ([], None)
    (new_upload_inv limits Hm Hn) eq_refl Ht) as Hr.
  destruct (read_chunks _ _ _ _ _ _ _) as [d' [[p u]|ex]]; [|done]. cbn [fst snd].
  destruct (finish p) as [[]|] eqn:Hfin; [|done]. intros [= <- <-].
  destruct Hr as (es & acc & Hfa & Ha & Ho & Hne & Hinv & Htot).
  assert (mp_state p = EPILOGUE) as Hst by (unfold finish in Hfin; by case_decide).
  assert (is_open acc = false) as Hclosed by (rewrite Ho; unfold is_content; by rewrite Hst).
  destruct acc as [parts [|]]; [done|]. exists boundary, parts.
  destruct Hinv as [Hfields Hfiles _ _ _ Hwl _ Hcur]. cbn in Hcur. rewrite Hcur in Hfiles. cbn in Hfiles, Hfields.
  change (parts_of (parts, None)) with (parts ++ []) in Hwl. rewrite app_nil_r in Hwl.
  split_and!; [done| |done|lia|done].
  destruct chunks as [|c cs]; [cbn in Hfa; simplify_eq|].
  destruct (feed_all_joined _ (delimiter_length boundary) _ _ _ _ _ Hfa) as (q & es' & Hq & Hb & Hsim).
  destruct (feed_order _ _ _ _ _ ([], None) Hq eq_refl) as (Hne' & _ & _).
  exists q, es'. split_and!; [done| |].
  - unfold finish. by rewrite (parser_sim_state _ _ Hsim), Hst.
  - rewrite <-absorb_bytewise, Hb, absorb_bytewise by done. done.
Qed.

(** An upload within the limits is stored whole: for every list of parts the reader and
    the limits allow, on a disk that works, every sequence of chunks that makes up its
    encoding is accepted, and the form and the files on disk are those parts. *)
Theorem upload_within_limits_is_stored `{DiskAnswers} limits content_type boundary parts epilogue chunks :
  0 ≤ ul_max_file_bytes limits → 0 ≤ ul_max_files limits →
  multipart_boundary content_type = Some boundary → CR ∉ boundary → Forall (part_ok boundary) parts →
  concat chunks = encode_form boundary parts epilogue →
  len (concat chunks) ≤ ul_max_total_bytes limits → within_limits limits parts → ¬ disk_trouble limits →
  ∃ d form, stream_multipart limits content_type chunks empty_disk = (d, Ok form) ∧
            form_matches limits d form parts.
Proof.
  intros Hm Hn Hct Hcr Hok Hbody Htot Hwl Hdisk. unfold stream_multipart. rewrite Hct.
  unfold mbind, io_bind, io_lift, mret, io_ret.
  assert (0 ≤ ul_max_total_bytes limits) as Ht by (pose proof (len_nonneg (concat chunks)); lia).
  pose proof (read_chunks_spec limits Hm boundary chunks 0 new_parser new_upload empty_disk ([], None)
    (new_upload_inv limits Hm Hn) eq_refl Ht) as Hr.
  destruct (form_accepted boundary parts epilogue chunks Hcr Hok Hbody) as (p0 & es0 & Hfa0 & Hfin0 & Hb0).
  assert (∀ p es acc, feed_all (delimiter_of boundary) new_parser chunks = Ok (p, es) →
    absorb_all ([], None) es = Some acc → no_empty_data es → acc = (parts, None)) as Hparts.
  { intros p es acc Hfa Ha Hne. rewrite Hfa in Hfa0. simplify_eq.
    rewrite <-absorb_bytewise, Hb0, absorb_bytewise in Ha; [|by apply form_no_empty|done].
    rewrite absorb_form in Ha. by simplify_eq. }
  destruct (read_chunks _ _ _ _ _ _ _) as [d' [[p u]|ex]].
  - destruct Hr as (es & acc & Hfa & Ha & _ & Hne & Hinv & _).
    rewrite (Hparts _ _ _ Hfa Ha Hne) in Hinv. rewrite Hfa in Hfa0. simplify_eq. cbn [fst snd]. rewrite Hfin0.
    exists d', (up_form u). split; [done|]. destruct Hinv as [Hfields Hfiles _ _ _ _ _ Hcur].
    cbn in Hcur. rewrite Hcur in Hfiles. by split.
  - exfalso. destruct Hr as [?|[?|Hr]]; [lia|done|].
    destruct (feed_all_order boundary chunks new_parser p0 es0 ([], None) Hfa0 eq_refl) as (Hne & acc & Ha).
    pose proof (Hparts _ _ _ Hfa0 Ha Hne) as ->. apply (Hr _ _ _ Hfa0 Ha).
    change (within_limits limits (parts ++ [])). by rewrite app_nil_r.
Qed.

(** A working disk, and a form of a text field and a file, cut inside its boundary. *)
Definition good_disk : DiskAnswers :=
  {| disk_free := λ _, 1000000000; disk_fault := λ _, None; open_fault := λ _, false |}.
Definition demo_limits : UploadLimits :=
  MkLimits (b "files") [b "csrf_token"] 1000 5000 3 100.
Definition demo_parts : list part :=
  [MkPart (b "csrf_token") None (b "text/plain") (b "t0ken");
   MkPart (b "files") (Some (b "a.jpg")) (b "image/jpeg") (b "--B pixels")].
Definition demo_type : bytes := b "multipart/form-data; boundary=B".
Definition demo_chunks : list bytes :=
  let body := encode_form (b "B") demo_parts CRLF in [take 3 body; []; drop 3 body].

Lemma demo_parts_ok : Forall (part_ok (b "B")) demo_parts.
Proof.
  unfold demo_parts. repeat constructor; try (vm_compute; reflexivity); try (vm_compute; discriminate).
Qed.
Lemma demo_within : within_limits demo_limits demo_parts.
Proof.
  split; try (vm_compute; discriminate). intros pt Hin _.
  apply elem_of_cons in Hin as [->|Hin]; [vm_compute; discriminate|].
  apply elem_of_cons in Hin as [->|?%elem_of_nil]; [vm_compute; discriminate|done].
Qed.
Lemma good_disk_works : ¬ disk_trouble (H := good_disk) demo_limits.
Proof. intros [(n & k & ?)|[(p & ?)|(_ & n & Hn)]]; [done|done|]. cbn in Hn. lia. Qed.

Lemma upload_within_limits_is_stored_witness :
  ∃ d form, stream_multipart (H := good_disk) demo_limits demo_type demo_chunks empty_disk = (d, Ok form) ∧
            form_matches demo_limits d form demo_parts.
Proof.
  apply (upload_within_limits_is_stored (H := good_disk) demo_limits demo_type (b "B") demo_parts CRLF demo_chunks).
  - vm_compute. discriminate.
  - vm_compute. discriminate.
  - vm_compute. reflexivity.
  - not_in.
  - exact demo_parts_ok.
  - vm_compute. reflexivity.
  - vm_compute. discriminate.
  - exact demo_within.
  - exact good_disk_works.
Defined.

Lemma accepted_upload_is_the_body_witness :
  ∃ boundary parts, multipart_boundary demo_type = Some boundary ∧
    body_parts boundary (concat demo_chunks) parts ∧ within_limits demo_limits parts ∧
    len (concat demo_chunks) ≤ ul_max_total_bytes demo_limits ∧
    form_matches demo_limits (stream_multipart (H := good_disk) demo_limits demo_type demo_chunks empty_disk).1
      (MkForm {[b "csrf_token" := [116; 48; 107; 101; 110]]}
         [MkFilePart (b "files") (b "a.jpg") (b "image/jpeg") [] (Some 0%nat) 10]) parts.
Proof.
  apply (accepted_upload_is_the_body (H := good_disk) demo_limits demo_type demo_chunks).
  - vm_compute. discriminate.
  - vm_compute. discriminate.
  - vm_compute. discriminate.
  - vm_compute. reflexivity.
Defined.

(** ** The spool directory *)

(** Who is responsible for the removal, in every reachable state. *)
Definition handover_inv (h : Handover) : Prop :=
  match ho_state h, ho_request h, ho_worker h, ho_removals h with
  | owner_request, req_running, work_queued, 0%nat
  | owner_worker, (req_running | req_left), work_running, 0%nat
  | owner_gone, req_removing, (work_queued | work_ended), 0%nat
  | owner_gone, req_left, (work_queued | work_ended), 1%nat
  | owner_gone, (req_running | req_left), work_removing, 0%nat
  | owner_gone, req_running, work_ended, 1%nat => True
  | _, _, _, _ => False
  end.

Lemma handover_invariant h : rtc handover_step new_spool_dir h → handover_inv h.
Proof.
  apply (rtc_ind_r (λ h, handover_inv h)); [done|]. intros h1 h2 _ Hs Hi.
  destruct Hs; cbn in *; unfold handover_inv in *; cbn in *;
    repeat (case_match; simplify_eq/=; try done).
Qed.

(** A spool directory is removed exactly once and never under a running worker: in
    every interleaving of the request's exit and the worker's start and end, there is at
    most one removal, none while the worker runs, and when the request has left and the
    worker is not between its start and its end, the directory has been removed. *)
Theorem spool_removed_once h :
  rtc handover_step new_spool_dir h →
  (ho_removals h ≤ 1)%nat ∧
  (ho_worker h = work_running → ho_removals h = 0%nat ∧ ho_request h ≠ req_removing) ∧
  (ho_request h = req_left → ho_worker h = work_queued ∨ ho_worker h = work_ended → ho_removals h = 1%nat).
Proof.
  intros Hi%handover_invariant. destruct h as [[] [] [] [|[|n]]]; try done; cbn; naive_solver lia.
Qed.

Lemma spool_removed_once_witness :
  ∃ h, rtc handover_step new_spool_dir h ∧ ho_request h = req_left ∧ ho_worker h = work_ended ∧
       ho_removals h = 1%nat.
Proof.
  exists (MkHandover owner_gone req_left work_ended 1).
  assert (rtc handover_step new_spool_dir (MkHandover owner_gone req_left work_ended 1)) as Hr.
  { eapply rtc_l; [apply step_claim|]. eapply rtc_l; [apply step_release|].
    eapply rtc_l; [apply step_finish|]. eapply rtc_l; [apply step_worker_removes|]. done. }
  destruct (spool_removed_once _ Hr) as (_ & _ & H). split; [exact Hr|]. split; [done|]. split; [done|].
  apply H; [done|by right].
Defined.
