(* ===== verification/RenderQueue.v ===== *)
(** * The render queue: render/queue.py

    Jobs are rows of the table [render_job] (db/models/render_job.py); a worker claims
    pending rows against two sets of slots (renders and exports), runs one task per
    claimed row, and settles every row it took.  A database transaction is one function
    on [Db]; the coroutines around them ([_launch_for], [_run_job], [_settle],
    [_sweep_orphans], [cancel_job], [stop]) are the steps of a relation on [Queue], one
    step per stretch between two [await]s, so that cancellations, a stop, a crash and a
    claim that lands after the stop can come in between. *)

From S2P Require Import Prelude PyTime.
From stdpp Require Import options.
Local Open Scope Z_scope.

(** ** The table *)
Inductive job_kind := manual | scheduled | archive | export.
Inductive job_status := pending | encoding | done | failed.
#[export] Instance job_kind_eq_dec : EqDecision job_kind.
Proof. solve_decision. Defined.
#[export] Instance job_status_eq_dec : EqDecision job_status.
Proof. solve_decision. Defined.

Record RenderJob := MkJob {
  rj_project : Z;
  rj_kind : job_kind;
  rj_status : job_status;
  rj_output : option string;
  rj_started_at : option Z;
  rj_completed_at : option Z;
  rj_streamable : option bool;
  rj_codec : option string;
  rj_mime : option string;
  rj_requeues : Z;
}.

Definition is_export (j : RenderJob) : bool := bool_decide (rj_kind j = export).

(** The events the worker writes. *)
Inductive RenderEvent :=
  | render_failed (job : Z) (reason : string)
  | render_requeued (job : Z)
  | state_write_failed (job : Z).
#[export] Instance RenderEvent_eq_dec : EqDecision RenderEvent.
Proof. solve_decision. Defined.

Record Db := MkDb {
  db_jobs : gmap Z RenderJob;
  (** [sqlite_autoincrement]: the next id, larger than every id ever given out *)
  db_next : Z;
  db_events : list RenderEvent;
}.

Definition set_job (db : Db) (id : Z) (j : RenderJob) : Db :=
  MkDb (<[id := j]> (db_jobs db)) (db_next db) (db_events db).
Definition add_event (db : Db) (e : RenderEvent) : Db :=
  MkDb (db_jobs db) (db_next db) (db_events db ++ [e]).
(** [_log_render_failed] *)
Definition log_render_failed (db : Db) (id : Z) (reason : string) : Db :=
  add_event db (render_failed id reason).

Definition with_status (j : RenderJob) (st : job_status) (completed : option Z) : RenderJob :=
  MkJob (rj_project j) (rj_kind j) st (rj_output j) (rj_started_at j) completed (rj_streamable j)
    (rj_codec j) (rj_mime j) (rj_requeues j).

(** A job is enqueued by the trigger endpoint or the scheduler. *)
Definition enqueue (db : Db) (project : Z) (kind : job_kind) : Db :=
  MkDb (<[db_next db := MkJob project kind pending None None None None None None 0]> (db_jobs db))
    (db_next db + 1) (db_events db).

(** ** Transactions *)

(** [_claim_oldest_pending]: the oldest pending job of one family, flipped to encoding. *)
Definition claimable (exports : bool) (j : RenderJob) : bool :=
  bool_decide (rj_status j = pending) && Bool.eqb (is_export j) exports.
Definition oldest_pending (exports : bool) (jobs : gmap Z RenderJob) : option Z :=
  foldl keep_min None
    ((filter (λ p, claimable exports p.2 = true) (map_to_list jobs)).*1).
Definition claim_oldest_pending (exports : bool) (now : Z) (db : Db) : Db * option Z :=
  match oldest_pending exports (db_jobs db) with
  | None => (db, None)
  | Some id =>
      match db_jobs db !! id with
      | None => (db, None)
      | Some j =>
          (set_job db id
             (MkJob (rj_project j) (rj_kind j) encoding (rj_output j) (Some now)
                (rj_completed_at j) (rj_streamable j) (rj_codec j) (rj_mime j) (rj_requeues j)),
           Some id)
      end
  end.

(** [_flip_if_sync] *)
Definition flip_if_sync (id : Z) (expected : job_status) (event_reason : option string) (now : Z)
    (db : Db) : Db * bool :=
  match db_jobs db !! id with
  | Some j =>
      if decide (rj_status j = expected) then
        let db := set_job db id (with_status j failed (Some now)) in
        (match event_reason with Some reason => log_render_failed db id reason | None => db end, true)
      else (db, false)
  | None => (db, false)
  end.

(** [_encoding_rows_sync], [_row_activity_sync] *)
Definition rows_with (st : job_status) (db : Db) : list (Z * RenderJob) :=
  filter (λ p, rj_status p.2 = st) (map_to_list (db_jobs db)).
Definition encoding_rows_sync (db : Db) : list (Z * option Z) :=
  (λ p, (p.1, rj_started_at p.2)) <$> rows_with encoding db.

Definition ORPHAN_REASON : string := "orphaned (no live task)".

(** [_fail_orphans_sync]: one conditional write per row; the ids it failed. *)
Fixpoint fail_orphans_sync (ids : list Z) (reason : option string) (now : Z) (db : Db)
    : Db * list Z :=
  match ids with
  | [] => (db, [])
  | id :: ids =>
      let '(db, changed) := flip_if_sync id encoding reason now db in
      let '(db, reclaimed) := fail_orphans_sync ids reason now db in
      (db, if changed then id :: reclaimed else reclaimed)
  end.

(** [_cancel_untracked_sync]: the status the row was settled from. *)
Definition cancel_untracked_sync (id : Z) (user_requested : bool) (now : Z) (db : Db)
    : Db * option job_status :=
  match db_jobs db !! id with
  | None => (db, None)
  | Some j =>
      match rj_status j with
      | pending =>
          let '(db, flipped) := flip_if_sync id pending None now db in
          (db, if flipped then Some pending else None)
      | encoding =>
          let reason := if user_requested then None else Some ORPHAN_REASON in
          let '(db, reclaimed) := fail_orphans_sync [id] reason now db in
          (db, match reclaimed with [] => None | _ => Some encoding end)
      | done | failed => (db, None)
      end
  end.

Record RenderResult := MkResult {
  rr_success : bool;
  rr_output_path : option string;
  rr_streamable : bool;
  rr_error : option string;
}.
Record MediaInfo := MkMedia { mi_codec : option string; mi_mime : option string }.

(** [_record_result_sync] *)
Definition record_result_sync (id : Z) (result : RenderResult) (media : option MediaInfo) (now : Z)
    (db : Db) : Db :=
  match db_jobs db !! id with
  | None => db
  | Some j =>
      let '(codec, mime) :=
        match media with Some m => (mi_codec m, mi_mime m) | None => (rj_codec j, rj_mime j) end in
      let job st output :=
        MkJob (rj_project j) (rj_kind j) st output (rj_started_at j) (Some now)
          (Some (rr_streamable result)) codec mime (rj_requeues j) in
      match rr_success result, rr_output_path result with
      | true, Some path => set_job db id (job done (Some path))
      | _, _ =>
          log_render_failed (set_job db id (job failed (rj_output j))) id
            (default "unknown error" (rr_error result))
      end
  end.

(** [_mark_cancelled_sync] *)
Definition mark_cancelled_sync (id : Z) (now : Z) (db : Db) : Db :=
  match db_jobs db !! id with
  | None => db
  | Some j => if decide (rj_status j = done) then db
              else set_job db id (with_status j failed (Some now))
  end.

(** [_mark_failed_sync] *)
Definition mark_failed_sync (id : Z) (reason : string) (now : Z) (db : Db) : Db :=
  match db_jobs db !! id with
  | None => db
  | Some j => if decide (rj_status j = done) then db
              else log_render_failed (set_job db id (with_status j failed (Some now))) id reason
  end.

Definition MAX_SHUTDOWN_REQUEUES : Z := 1.

(** [_mark_interrupted_by_shutdown_sync] *)
Definition mark_interrupted_sync (id : Z) (within_grace : bool) (now : Z) (db : Db) : Db :=
  match db_jobs db !! id with
  | None => db
  | Some j =>
      if decide (rj_status j = done) then db
      else if within_grace && bool_decide (rj_status j = encoding) && negb (is_export j)
              && (rj_requeues j <? MAX_SHUTDOWN_REQUEUES)
      then
        add_event
          (set_job db id
             (MkJob (rj_project j) (rj_kind j) pending None None None (rj_streamable j)
                (rj_codec j) (rj_mime j) (rj_requeues j + 1)))
          (render_requeued id)
      else
        log_render_failed (set_job db id (with_status j failed (Some now))) id
          (if rj_requeues j >=? MAX_SHUTDOWN_REQUEUES
           then "interrupted by a service shutdown again after a requeue; not requeued twice"
           else "render cancelled")
  end.

(** [_store_backfill] *)
Definition store_backfill (id : Z) (media : MediaInfo) (db : Db) : Db * bool :=
  match db_jobs db !! id with
  | None => (db, false)
  | Some j =>
      match rj_codec j, rj_mime j with
      | None, None =>
          (set_job db id
             (MkJob (rj_project j) (rj_kind j) (rj_status j) (rj_output j) (rj_started_at j)
                (rj_completed_at j) (rj_streamable j) (mi_codec media) (mi_mime media)
                (rj_requeues j)), true)
      | _, _ => (db, false)
      end
  end.

(** ** [_ExportGate] *)
Record ExportGate := MkGate { eg_started : bool; eg_cancelled : bool }.
Definition new_gate : ExportGate := MkGate false false.
Definition gate_start (g : ExportGate) : ExportGate * bool :=
  if eg_cancelled g then (g, false) else (MkGate true (eg_cancelled g), true).
Definition cancel_if_queued (g : ExportGate) : ExportGate * bool :=
  if eg_started g then (g, false) else (MkGate (eg_started g) true, true).

(** ** Tasks

    The coroutine [_run_job] of a claimed job: where it is waiting.  [Created] is the
    task before its first turn on the event loop; a task cancelled there ends without
    having run at all, its [finally] clause included: [Dead], an entry of [_job_tasks]
    that nothing removes.  [Settling] is
    [_settle]: the recorder being tried, whether it was called from an [except] clause
    (and so is followed by [_finish]), and whether a cancellation was held back. *)
Inductive recorder :=
  | RecordResult (result : RenderResult) (media : option MediaInfo)
  | MarkFailed (reason : string)
  | MarkCancelled
  | MarkInterrupted (within_grace : bool).

Inductive task_pc :=
  | Created
  | Dead
  | Preparing
  | Working
  | Probing (result : RenderResult)
  | Settling (write : recorder) (in_handler : bool) (held_back : bool)
  | PostActing.

Record Task := MkTask {
  tk_export : bool;  (** the slot it holds: export or render *)
  tk_pc : task_pc;
}.

(** A recorder's transaction. *)
Definition record (w : recorder) (id now : Z) (db : Db) : Db :=
  match w with
  | RecordResult result media => record_result_sync id result media now db
  | MarkFailed reason => mark_failed_sync id reason now db
  | MarkCancelled => mark_cancelled_sync id now db
  | MarkInterrupted within_grace => mark_interrupted_sync id within_grace now db
  end.

(** The [except asyncio.CancelledError] clause: which recorder settles the job. *)
Definition cancel_recorder (user_cancelled stopped within_grace : bool) : recorder :=
  if user_cancelled then MarkCancelled
  else if stopped then MarkInterrupted within_grace
  else MarkFailed "render cancelled".

(** [_stop_within_grace], with [monotonic()] and the start of the stop in microseconds. *)
Definition stop_within_grace (stop_began_at : option Z) (monotonic shutdown_grace : Z) : bool :=
  match stop_began_at with
  | None => false
  | Some began => monotonic - began <? shutdown_grace
  end.

(** A cancellation reaching the coroutine: held back while a write is in progress,
    otherwise it enters the handler. *)
Definition deliver_cancel (handler : recorder) (t : Task) : Task :=
  match tk_pc t with
  | Created | Dead => MkTask (tk_export t) Dead
  | Settling w in_handler _ => MkTask (tk_export t) (Settling w in_handler true)
  | _ => MkTask (tk_export t) (Settling handler true false)
  end.

(** What follows the end of [_settle]: [None] is [_finish]. *)
Definition after_settle (handler : recorder) (t : Task) : option task_pc :=
  match tk_pc t with
  | Settling w in_handler held_back =>
      if in_handler then None
      else if held_back then Some (Settling handler true false)
      else match w with
           | RecordResult result _ => if rr_success result then Some PostActing else None
           | _ => None
           end
  | pc => Some pc
  end.

(** ** The worker *)
Record Queue := MkQueue {
  q_db : Db;
  q_tasks : gmap Z Task;
  q_user_cancels : gset Z;
  (** free slots of [_semaphore] and [_export_semaphore] *)
  q_render_free : Z;
  q_export_free : Z;
  (** [_launch_for] holding the claim lock and a slot: the family, and the claimed id *)
  q_launching : option (bool * option Z);
  (** the orphans [_sweep_orphans] has still to fail *)
  q_sweep : list Z;
  q_stopped : bool;
  (** a claim thread that outlived the stop *)
  q_lost : option bool;
  q_idle : bool;
  (** the jobs a task was created for, in order *)
  q_runs : list Z;
}.

Section worker.
(** [max(1, settings.render.max_concurrent)] and the same for exports *)
Context (max_renders max_exports : Z).

Definition with_db (q : Queue) (db : Db) : Queue :=
  MkQueue db (q_tasks q) (q_user_cancels q) (q_render_free q) (q_export_free q) (q_launching q)
    (q_sweep q) (q_stopped q) (q_lost q) (q_idle q) (q_runs q).
Definition with_task (q : Queue) (id : Z) (t : Task) : Queue :=
  MkQueue (q_db q) (<[id := t]> (q_tasks q)) (q_user_cancels q) (q_render_free q) (q_export_free q)
    (q_launching q) (q_sweep q) (q_stopped q) (q_lost q) (q_idle q) (q_runs q).
Definition set_launching (q : Queue) (l : option (bool * option Z)) : Queue :=
  MkQueue (q_db q) (q_tasks q) (q_user_cancels q) (q_render_free q) (q_export_free q) l
    (q_sweep q) (q_stopped q) (q_lost q) (q_idle q) (q_runs q).
Definition set_sweep (q : Queue) (ids : list Z) : Queue :=
  MkQueue (q_db q) (q_tasks q) (q_user_cancels q) (q_render_free q) (q_export_free q) (q_launching q)
    ids (q_stopped q) (q_lost q) (q_idle q) (q_runs q).
Definition set_idle (q : Queue) (idle : bool) : Queue :=
  MkQueue (q_db q) (q_tasks q) (q_user_cancels q) (q_render_free q) (q_export_free q) (q_launching q)
    (q_sweep q) (q_stopped q) (q_lost q) idle (q_runs q).

Definition free_slots (exports : bool) (q : Queue) : Z :=
  if exports then q_export_free q else q_render_free q.
(** [semaphore.acquire()] ([n = -1]) and [semaphore.release()] ([n = 1]) *)
Definition add_slots (exports : bool) (n : Z) (q : Queue) : Queue :=
  MkQueue (q_db q) (q_tasks q) (q_user_cancels q)
    (if exports then q_render_free q else q_render_free q + n)
    (if exports then q_export_free q + n else q_export_free q)
    (q_launching q) (q_sweep q) (q_stopped q) (q_lost q) (q_idle q) (q_runs q).

(** [_finish]; the user's cancel that waited for the task forgets it too. *)
Definition finish_job (id : Z) (t : Task) (q : Queue) : Queue :=
  add_slots (tk_export t) 1
    (MkQueue (q_db q) (delete id (q_tasks q)) (q_user_cancels q ∖ {[id]}) (q_render_free q)
       (q_export_free q) (q_launching q) (q_sweep q) (q_stopped q) (q_lost q) (q_idle q) (q_runs q)).

(** The end of [_launch_for]'s [try]: the task is created and registered. *)
Definition register_task (id : Z) (exports : bool) (q : Queue) : Queue :=
  MkQueue (q_db q) (<[id := MkTask exports Created]> (q_tasks q)) (q_user_cancels q)
    (q_render_free q) (q_export_free q) None (q_sweep q) (q_stopped q) (q_lost q) (q_idle q)
    (q_runs q ++ [id]).

(** The read of [_sweep_orphans], under the claim lock. *)
Definition orphan_ids (q : Queue) : list Z :=
  filter (λ id, q_tasks q !! id = None) ((encoding_rows_sync (q_db q)).*1).

(** The handler a cancellation of job [id] would run. *)
Definition handler_of (id : Z) (within_grace : bool) (q : Queue) : recorder :=
  cancel_recorder (bool_decide (id ∈ q_user_cancels q)) (q_stopped q) within_grace.

(** [cancel_job] of a job that has a task: the user's cancels are remembered until the
    task has ended. *)
Definition cancel_task (id : Z) (user_requested within_grace : bool) (t : Task) (q : Queue) : Queue :=
  let q := MkQueue (q_db q) (q_tasks q)
             (if user_requested then {[id]} ∪ q_user_cancels q else q_user_cancels q)
             (q_render_free q) (q_export_free q) (q_launching q) (q_sweep q) (q_stopped q)
             (q_lost q) (q_idle q) (q_runs q) in
  with_task q id (deliver_cancel (handler_of id within_grace q) t).

(** [stop]: every task is cancelled; the drain loop is cancelled, and with it a launch in
    progress, whose slot is released; its claim thread may still commit. *)
Definition stop_queue (graces : Z → bool) (q : Queue) : Queue :=
  let q := MkQueue (q_db q) (q_tasks q) (q_user_cancels q) (q_render_free q) (q_export_free q)
             (q_launching q) (q_sweep q) true (q_lost q) (q_idle q) (q_runs q) in
  let q := MkQueue (q_db q)
             (map_imap (λ id t, Some (deliver_cancel (handler_of id (graces id) q) t)) (q_tasks q))
             (q_user_cancels q) (q_render_free q) (q_export_free q) (q_launching q) (q_sweep q)
             true (q_lost q) (q_idle q) (q_runs q) in
  match q_launching q with
  | None => q
  | Some (exports, claimed) =>
      let q := add_slots exports 1 (set_launching q None) in
      MkQueue (q_db q) (q_tasks q) (q_user_cancels q) (q_render_free q) (q_export_free q)
        (q_launching q) (q_sweep q) (q_stopped q)
        (match claimed with None => Some exports | Some _ => None end) (q_idle q) (q_runs q)
  end.

(** A new process on the same database. *)
Definition boot (db : Db) : Queue :=
  MkQueue db ∅ ∅ max_renders max_exports None [] false None false [].
Definition restart (q : Queue) : Queue :=
  MkQueue (q_db q) ∅ ∅ max_renders max_exports None [] false None false (q_runs q).

(** One step of the world: the drain loop, a task, a request, the service, the process.
    [now] is the clock of the transaction the step makes. *)
Inductive step : Queue → Queue → Prop :=
  (** the trigger endpoint or the scheduler, with its [notify] *)
  | step_enqueue q project kind :
      step q (set_idle (with_db q (enqueue (q_db q) project kind)) false)
  (** a render or its project is deleted *)
  | step_delete q id :
      step q (with_db q (MkDb (delete id (db_jobs (q_db q))) (db_next (q_db q)) (db_events (q_db q))))
  (** [_launch_for]: a free slot is taken, then the claim lock *)
  | step_launch q exports :
      q_stopped q = false → q_launching q = None → q_sweep q = [] → 0 < free_slots exports q →
      step q (set_launching (add_slots exports (-1) q) (Some (exports, None)))
  (** the claim thread finds nothing *)
  | step_claim_none q exports now db :
      q_launching q = Some (exports, None) → claim_oldest_pending exports now (q_db q) = (db, None) →
      step q (add_slots exports 1 (set_launching (with_db q db) None))
  (** the claim thread commits *)
  | step_claim q exports now db id :
      q_launching q = Some (exports, None) → claim_oldest_pending exports now (q_db q) = (db, Some id) →
      step q (set_launching (with_db q db) (Some (exports, Some id)))
  (** the claim raises *)
  | step_claim_error q exports :
      q_launching q = Some (exports, None) → step q (add_slots exports 1 (set_launching q None))
  (** back on the loop: the task is created and registered *)
  | step_register q exports id :
      q_launching q = Some (exports, Some id) → step q (register_task id exports q)
  (** [_sweep_orphans]: the read, and each of the writes *)
  | step_sweep q :
      q_stopped q = false → q_launching q = None → q_sweep q = [] → step q (set_sweep q (orphan_ids q))
  | step_sweep_flip q id ids now :
      q_sweep q = id :: ids →
      step q (set_sweep (with_db q (fail_orphans_sync [id] (Some ORPHAN_REASON) now (q_db q)).1) ids)
  | step_sweep_error q : step q (set_sweep q [])
  (** the drain loop parks *)
  | step_park q :
      q_stopped q = false → q_launching q = None → q_sweep q = [] →
      step q (set_idle q (bool_decide (q_tasks q = ∅)))
  (** [_run_job] takes its first turn *)
  | step_start q id t :
      q_tasks q !! id = Some t → tk_pc t = Created →
      step q (with_task q id (MkTask (tk_export t) Preparing))
  (** the spec is built *)
  | step_prepared q id t :
      q_tasks q !! id = Some t → tk_pc t = Preparing →
      step q (with_task q id (MkTask (tk_export t) Working))
  (** the disk is below its watermark *)
  | step_low_disk q id t :
      q_tasks q !! id = Some t → tk_pc t = Working →
      step q (with_task q id
        (MkTask (tk_export t) (Settling (MarkFailed "insufficient free disk space to render") false false)))
  (** the encoder or the export thread answers *)
  | step_result q id t result :
      q_tasks q !! id = Some t → tk_pc t = Working →
      step q (with_task q id (MkTask (tk_export t) (Probing result)))
  (** the output has been probed, or need not be *)
  | step_probed q id t result media :
      q_tasks q !! id = Some t → tk_pc t = Probing result →
      step q (with_task q id (MkTask (tk_export t) (Settling (RecordResult result media) false false)))
  (** an exception in the [try] block *)
  | step_raise q id t reason :
      q_tasks q !! id = Some t →
      match tk_pc t with Preparing | Working | Probing _ | PostActing => True | _ => False end →
      step q (with_task q id (MkTask (tk_export t) (Settling (MarkFailed reason) true false)))
  (** [_settle]: the write lands *)
  | step_settled q id t w in_handler held_back within_grace now :
      q_tasks q !! id = Some t → tk_pc t = Settling w in_handler held_back →
      step q
        (let q := with_db q (record w id now (q_db q)) in
         match after_settle (handler_of id within_grace q) t with
         | Some pc => with_task q id (MkTask (tk_export t) pc)
         | None => finish_job id t q
         end)
  (** the write fails: it will be tried again *)
  | step_write_failed q id t w in_handler held_back (reported : bool) :
      q_tasks q !! id = Some t → tk_pc t = Settling w in_handler held_back → q_stopped q = false →
      step q (if reported then with_db q (add_event (q_db q) (state_write_failed id)) else q)
  (** the write fails and the worker is stopping: it is given up *)
  | step_abandoned q id t w in_handler held_back within_grace :
      q_tasks q !! id = Some t → tk_pc t = Settling w in_handler held_back → q_stopped q = true →
      step q
        (match after_settle (handler_of id within_grace q) t with
         | Some pc => with_task q id (MkTask (tk_export t) pc)
         | None => finish_job id t q
         end)
  (** post-render actions are done *)
  | step_post_done q id t :
      q_tasks q !! id = Some t → tk_pc t = PostActing → step q (finish_job id t q)
  (** [cancel_job] of a job with a task *)
  | step_cancel q id t (user_requested within_grace : bool) :
      q_tasks q !! id = Some t →
      step q (cancel_task id user_requested within_grace t q)
  (** [cancel_job] of a job without one, under the claim lock *)
  | step_cancel_untracked q id user_requested now :
      q_tasks q !! id = None → q_launching q = None →
      step q (with_db q (cancel_untracked_sync id user_requested now (q_db q)).1)
  (** [backfill_codecs] stores a probe *)
  | step_backfill q id media : step q (with_db q (store_backfill id media (q_db q)).1)
  (** the service stops; a claim thread that outlived it commits; the process ends (or
      dies) and a new one starts *)
  | step_stop q graces : q_stopped q = false → step q (stop_queue graces q)
  | step_lost_claim q exports now :
      q_lost q = Some exports →
      step q
        (let q := with_db q (claim_oldest_pending exports now (q_db q)).1 in
         MkQueue (q_db q) (q_tasks q) (q_user_cancels q) (q_render_free q) (q_export_free q)
           (q_launching q) (q_sweep q) (q_stopped q) None (q_idle q) (q_runs q))
  | step_restart q : step q (restart q).
End worker.

(** ** What the worker reports *)

(** [activity] *)
Record RenderActivity := MkActivity {
  ra_live_tasks : Z; ra_pending_rows : Z; ra_encoding_rows : Z; ra_orphans : Z;
}.
Definition activity (q : Queue) : RenderActivity :=
  MkActivity (Z.of_nat (size (q_tasks q))) (Z.of_nat (length (rows_with pending (q_db q))))
    (Z.of_nat (length (rows_with encoding (q_db q)))) (Z.of_nat (length (orphan_ids q))).

(** [render_time_ceiling] (encode/ffmpeg_impl.py), in seconds. *)
Definition render_time_ceiling (max_job_seconds frame_count : Z) : Z :=
  if max_job_seconds >? 0 then max_job_seconds else Z.max 3600 (2 * frame_count).

(** [encoding_overruns], on the rows of the last sweep and the budgets of the prepared
    jobs; times in seconds. *)
Definition encoding_overruns (max_job_seconds now : Z) (budgets : gmap Z Z)
    (rows : list (Z * option Z)) : list Z :=
  let floor := render_time_ceiling max_job_seconds 0 in
  omap (λ p, match p.2 with
             | None => None
             | Some started_at => Some (now - started_at - default floor (budgets !! p.1))
             end) rows.

(** ** One uninterrupted drain cycle: [_sweep_orphans], then [_launch_ready_jobs] *)

(** [_launch_for] with the claims committing and no other step in between.  Every turn
    takes a slot or ends, so [free] turns are enough. *)
Fixpoint launch_for (fuel : nat) (exports : bool) (now : Z) (q : Queue) : Queue :=
  match fuel with
  | O => q
  | S fuel =>
      if free_slots exports q <=? 0 then q
      else
        match claim_oldest_pending exports now (q_db q) with
        | (db, None) => with_db q db
        | (db, Some id) =>
            launch_for fuel exports now
              (register_task id exports (with_db (add_slots exports (-1) q) db))
        end
  end.
Definition launch_all (exports : bool) (now : Z) (q : Queue) : Queue :=
  launch_for (Z.to_nat (free_slots exports q)) exports now q.
Definition drain_cycle (now : Z) (q : Queue) : Queue :=
  let q := with_db q (fail_orphans_sync (orphan_ids q) (Some ORPHAN_REASON) now (q_db q)).1 in
  launch_all true now (launch_all false now q).
