(* ===== verification/RenderQueueFacts.v ===== *)
(** * What the render queue guarantees

    Over every interleaving of the worker, its tasks, requests, stops, crashes and late
    claims: slots are never overdrawn, a job runs at most twice, a settled job stays
    settled, a slot is freed only when its job's row is settled, and an undisturbed drain
    cycle leaves no orphan and no startable job waiting. *)

From S2P Require Import Prelude PyTime RenderQueue.
From stdpp Require Import options.
Local Open Scope Z_scope.

(** ** Moves of a row *)

(** How often a job may have been run: once per stay in [encoding]. *)
Definition budget (j : RenderJob) : Z := rj_requeues j + (if decide (rj_status j = pending) then 0 else 1).

(** What a transaction can do to a row. *)
Definition job_move (j j' : RenderJob) : Prop :=
  rj_kind j' = rj_kind j ∧
  ((rj_status j' = rj_status j ∧ rj_requeues j' = rj_requeues j) ∨
   ((rj_status j' = failed ∨ rj_status j' = done) ∧ rj_requeues j' = rj_requeues j) ∨
   (rj_status j = encoding ∧ rj_status j' = pending ∧ rj_requeues j' = rj_requeues j + 1 ∧
    rj_requeues j < MAX_SHUTDOWN_REQUEUES) ∨
   (rj_status j = pending ∧ rj_status j' = encoding ∧ rj_requeues j' = rj_requeues j)).

(** A transaction that moves the row [id] at most. *)
Definition moves (id : Z) (jobs jobs' : gmap Z RenderJob) : Prop :=
  jobs' = jobs ∨ ∃ j j', jobs !! id = Some j ∧ jobs' = <[id := j']> jobs ∧ job_move j j'.

(** The row [id], if there is one, ends in one of these. *)
Definition row_in (sts : list job_status) (id : Z) (jobs : gmap Z RenderJob) : Prop :=
  ∀ j, jobs !! id = Some j → rj_status j ∈ sts.

Lemma not_in_active : pending ∉ [encoding; done; failed].
Proof. by apply (bool_decide_unpack _). Qed.

Lemma flip_moves id expected reason now db :
  moves id (db_jobs db) (db_jobs (flip_if_sync id expected reason now db).1) ∧
  db_next (flip_if_sync id expected reason now db).1 = db_next db.
Proof.
  unfold flip_if_sync. destruct (db_jobs db !! id) as [j|] eqn:Hj; [|by split; [left|]].
  case_decide; [|by split; [left|]]. split; [|by destruct reason]. right. exists j.
  eexists. split; [done|]. split; [by destruct reason|]. split; [done|]. right. left. split; [by left|done].
Qed.

Lemma flip_row id expected reason now db :
  expected ≠ failed → ∀ j, db_jobs (flip_if_sync id expected reason now db).1 !! id = Some j →
  rj_status j ≠ expected.
Proof.
  intros Hne j. unfold flip_if_sync. destruct (db_jobs db !! id) as [j0|] eqn:Hj; [|cbn; by rewrite Hj].
  case_decide; cbn [fst]; [|rewrite Hj; by intros [= <-]].
  destruct reason; cbn; rewrite lookup_insert_eq; intros [= <-]; by cbn.
Qed.

Lemma record_moves w id now db :
  moves id (db_jobs db) (db_jobs (record w id now db)) ∧ db_next (record w id now db) = db_next db.
Proof.
  destruct w as [result media|reason| |grace]; cbn [record];
    unfold record_result_sync, mark_failed_sync, mark_cancelled_sync, mark_interrupted_sync;
    (destruct (db_jobs db !! id) as [j|] eqn:Hj; [|by split; [left|]]).
  - destruct media as [m|]; (destruct (rr_success result), (rr_output_path result));
      (split; [|done]); right; exists j; eexists; (split; [done|]); (split; [done|]);
      (split; [done|]); right; left; cbn; auto.
  - case_decide; [by split; [left|]|]. split; [|done]. right. exists j. eexists.
    split; [done|]. split; [done|]. split; [done|]. right. left. cbn. auto.
  - case_decide; [by split; [left|]|]. split; [|done]. right. exists j. eexists.
    split; [done|]. split; [done|]. split; [done|]. right. left. cbn. auto.
  - case_decide; [by split; [left|]|]. destruct (grace && _ && _ && _) eqn:Hq; (split; [|done]); right;
      exists j; eexists; (split; [done|]); (split; [done|]); (split; [done|]); cbn.
    + right. right. left. rewrite !andb_true_iff, bool_decide_eq_true, Z.ltb_lt in Hq.
      destruct Hq as [[[_ ?] _] ?]. done.
    + auto.
Qed.

(** A job's first settling write, and any later one, leaves the row terminal, unless it
    requeues. *)
Lemma record_row w id now db :
  match w with MarkInterrupted _ => row_in [pending; done; failed] | _ => row_in [done; failed] end
    id (db_jobs (record w id now db)).
Proof.
  destruct w as [result media|reason| |grace]; cbn [record];
    unfold record_result_sync, mark_failed_sync, mark_cancelled_sync, mark_interrupted_sync, row_in;
    (destruct (db_jobs db !! id) as [j0|] eqn:Hj; [|by rewrite Hj]).
  - destruct media, (rr_success result), (rr_output_path result); cbn; intros j;
      rewrite lookup_insert_eq; intros [= <-]; cbn; set_solver.
  - case_decide as Hd; intros j; [rewrite Hj; intros [= <-]; rewrite Hd; set_solver|].
    cbn. rewrite lookup_insert_eq. intros [= <-]. cbn. set_solver.
  - case_decide as Hd; intros j; [rewrite Hj; intros [= <-]; rewrite Hd; set_solver|].
    cbn. rewrite lookup_insert_eq. intros [= <-]. cbn. set_solver.
  - case_decide as Hd; intros j; [rewrite Hj; intros [= <-]; rewrite Hd; set_solver|].
    destruct (grace && _ && _ && _); cbn; rewrite lookup_insert_eq; intros [= <-]; cbn; set_solver.
Qed.

Lemma backfill_moves id media db :
  moves id (db_jobs db) (db_jobs (store_backfill id media db).1) ∧
  db_next (store_backfill id media db).1 = db_next db ∧
  (∀ j', db_jobs (store_backfill id media db).1 !! id = Some j' →
     ∃ j, db_jobs db !! id = Some j ∧ rj_status j' = rj_status j).
Proof.
  unfold store_backfill. destruct (db_jobs db !! id) as [j|] eqn:Hj.
  2: { split; [by left|]. split; [done|]. intros j'. cbn. by rewrite Hj. }
  destruct (rj_codec j) eqn:Hc, (rj_mime j) eqn:Hm; cbn [fst].
  1, 2, 3: split; [by left|]; split; [done|]; intros j'; rewrite Hj; intros [= <-]; by exists j.
  split; [|split; [done|]].
  - right. exists j. eexists. split; [done|]. split; [done|]. split; [done|]. by left.
  - intros j'. cbn. rewrite lookup_insert_eq. intros [= <-]. by exists j.
Qed.

(** ** The claim *)
Lemma oldest_pending_spec exports jobs id :
  oldest_pending exports jobs = Some id ↔
  (∃ j, jobs !! id = Some j ∧ claimable exports j = true) ∧
  (∀ k j, jobs !! k = Some j → claimable exports j = true → id ≤ k).
Proof.
  unfold oldest_pending. set (l := filter _ _). set (ids := l.*1).
  assert (∀ k, k ∈ ids ↔ ∃ j, jobs !! k = Some j ∧ claimable exports j = true) as Hids.
  { intros k. unfold ids, l. rewrite list_elem_of_fmap. split.
    - intros ([k' j] & -> & [Hc Hin]%list_elem_of_filter). apply elem_of_map_to_list in Hin. by exists j.
    - intros (j & Hj & Hc). exists (k, j). split; [done|]. apply list_elem_of_filter.
      split; [done|]. by apply elem_of_map_to_list. }
  pose proof (fold_keep_min ids None) as Hf. destruct (foldl keep_min None ids) as [m|].
  - destruct Hf as ([?|Hm] & Hle & _); [done|]. split.
    + intros [= <-]. split; [by apply Hids|]. intros k j Hj Hc. apply Hle, Hids. by exists j.
    + intros [Hex Hmin]. f_equal. apply Hids in Hex. apply Hids in Hm as (j & Hj & Hc).
      pose proof (Hmin m j Hj Hc). pose proof (Hle id Hex). lia.
  - destruct Hf as [_ Hnil]. split; [done|]. intros [Hex _]. apply Hids in Hex. rewrite Hnil in Hex. set_solver.
Qed.

Lemma oldest_pending_none exports jobs :
  oldest_pending exports jobs = None ↔ ∀ k j, jobs !! k = Some j → claimable exports j = false.
Proof.
  unfold oldest_pending. set (ids := (filter _ _).*1).
  assert (∀ k j, jobs !! k = Some j → claimable exports j = true → k ∈ ids) as Hids.
  { intros k j Hj Hc. apply list_elem_of_fmap. exists (k, j). split; [done|]. apply list_elem_of_filter.
    split; [done|]. by apply elem_of_map_to_list. }
  pose proof (fold_keep_min ids None) as Hf. destruct (foldl keep_min None ids) as [m|].
  - destruct Hf as ([?|Hm] & _); [done|]. split; [done|]. intros Hno.
    apply list_elem_of_fmap in Hm as ([k j] & -> & [Hc Hin]%list_elem_of_filter).
    apply elem_of_map_to_list in Hin. cbn in Hc. rewrite (Hno _ _ Hin) in Hc. done.
  - destruct Hf as [_ Hnil]. split; [|done]. intros _ k j Hj.
    destruct (claimable exports j) eqn:Hc; [|done]. pose proof (Hids _ _ Hj Hc) as Hin.
    rewrite Hnil in Hin. set_solver.
Qed.

(** A claim that answers [id] took its pending row to [encoding]. *)
Lemma claim_spec exports now db db' id :
  claim_oldest_pending exports now db = (db', Some id) →
  ∃ j j', db_jobs db !! id = Some j ∧ rj_status j = pending ∧ is_export j = exports ∧
    db_jobs db' = <[id := j']> (db_jobs db) ∧ rj_status j' = encoding ∧ rj_kind j' = rj_kind j ∧
    rj_requeues j' = rj_requeues j ∧ db_next db' = db_next db ∧ db_events db' = db_events db.
Proof.
  unfold claim_oldest_pending. destruct (oldest_pending exports (db_jobs db)) as [k|] eqn:Ho; [|done].
  apply oldest_pending_spec in Ho as [(j & Hj & Hc) _]. rewrite Hj. intros [= <- <-].
  unfold claimable in Hc. apply andb_prop in Hc as [Hp He]. apply bool_decide_eq_true in Hp.
  apply eqb_prop in He. exists j. eexists. split_and!; done.
Qed.

Lemma claim_none exports now db db' :
  claim_oldest_pending exports now db = (db', None) → db' = db ∧ oldest_pending exports (db_jobs db) = None.
Proof.
  unfold claim_oldest_pending. destruct (oldest_pending exports (db_jobs db)) as [k|] eqn:Ho; [|by intros [= <-]].
  apply oldest_pending_spec in Ho as [(j & Hj & _) _]. by rewrite Hj.
Qed.

(** ** The invariant *)

(** The holders of one family's slots. *)
Definition holders (exports : bool) (tasks : gmap Z Task) : gset Z :=
  dom (filter (λ p, tk_export p.2 = exports) tasks).

Lemma elem_of_holders exports tasks id :
  id ∈ holders exports tasks ↔ ∃ t, tasks !! id = Some t ∧ tk_export t = exports.
Proof.
  unfold holders. rewrite elem_of_dom. unfold is_Some. setoid_rewrite map_lookup_filter_Some. done.
Qed.

Lemma holders_update exports tasks id t t' :
  tasks !! id = Some t → tk_export t' = tk_export t →
  holders exports (<[id := t']> tasks) = holders exports tasks.
Proof.
  intros Ht He. apply set_eq. intros k. rewrite !elem_of_holders.
  destruct (decide (k = id)) as [->|Hne]; [rewrite lookup_insert_eq, Ht|by rewrite lookup_insert_ne].
  naive_solver congruence.
Qed.

Lemma holders_insert exports tasks id t :
  tasks !! id = None →
  Z.of_nat (size (holders exports (<[id := t]> tasks))) =
  Z.of_nat (size (holders exports tasks)) + (if Bool.eqb (tk_export t) exports then 1 else 0).
Proof.
  intros Hn. destruct (Bool.eqb (tk_export t) exports) eqn:He.
  - assert (holders exports (<[id := t]> tasks) = {[id]} ∪ holders exports tasks) as ->.
    { apply set_eq. intros k. rewrite elem_of_union, elem_of_singleton, !elem_of_holders.
      destruct (decide (k = id)) as [->|Hne]; [|rewrite lookup_insert_ne by done; naive_solver].
      rewrite lookup_insert_eq. apply eqb_prop in He. naive_solver. }
    rewrite size_union, size_singleton; [lia|]. rewrite disjoint_singleton_l, elem_of_holders, Hn. naive_solver.
  - assert (holders exports (<[id := t]> tasks) = holders exports tasks) as ->; [|lia].
    apply set_eq. intros k. rewrite !elem_of_holders.
    destruct (decide (k = id)) as [->|Hne]; [|by rewrite lookup_insert_ne].
    rewrite lookup_insert_eq, Hn. apply eqb_false_iff in He. naive_solver.
Qed.

Lemma holders_delete exports tasks id t :
  tasks !! id = Some t →
  Z.of_nat (size (holders exports (delete id tasks))) =
  Z.of_nat (size (holders exports tasks)) - (if Bool.eqb (tk_export t) exports then 1 else 0).
Proof.
  intros Ht. rewrite <-(insert_delete_id tasks id t Ht) at 2.
  rewrite holders_insert by apply lookup_delete_eq. lia.
Qed.

(** Where the first settling write of a task is still to come. *)
Definition unsettled (t : Task) : bool :=
  match tk_pc t with
  | Created | Dead | Preparing | Working | Probing _ | Settling _ false _ => true
  | Settling _ true _ | PostActing => false
  end.
(** Only a result or a low disk is recorded from inside the [try], and no result from an
    [except] clause. *)
Definition handler_ok (w : recorder) : bool := match w with RecordResult _ _ => false | _ => true end.
Definition pc_ok (t : Task) : bool :=
  match tk_pc t with
  | Settling w false _ => match w with MarkCancelled | MarkInterrupted _ => false | _ => true end
  | Settling w true _ => handler_ok w
  | _ => true
  end.

(** The row of a live task. *)
Definition task_row (t : Task) (j : RenderJob) : Prop :=
  is_export j = tk_export t ∧ rj_status j ≠ pending ∧ (unsettled t = true → rj_status j = encoding).

(** Slots taken by a launch in progress. *)
Definition launch_slot (exports : bool) (q : Queue) : Z :=
  match q_launching q with Some (e, _) => if Bool.eqb e exports then 1 else 0 | None => 0 end.
(** A claimed job whose task is not registered yet. *)
Definition in_flight (id : Z) (q : Queue) : Z :=
  match q_launching q with Some (_, Some k) => if decide (k = id) then 1 else 0 | _ => 0 end.
Definition runs_of (id : Z) (q : Queue) : Z := Z.of_nat (length (filter (λ k, k = id) (q_runs q))).

Section invariant.
Context (max_renders max_exports : Z).
Definition slots (exports : bool) : Z := if exports then max_exports else max_renders.

Record inv (q : Queue) : Prop := {
  inv_slots : ∀ e, free_slots e q + Z.of_nat (size (holders e (q_tasks q))) + launch_slot e q = slots e;
  inv_free : ∀ e, 0 ≤ free_slots e q;
  inv_tasks : ∀ id t, q_tasks q !! id = Some t →
    pc_ok t = true ∧ ∀ j, db_jobs (q_db q) !! id = Some j → task_row t j;
  inv_launch : ∀ e id, q_launching q = Some (e, Some id) →
    q_tasks q !! id = None ∧
    ∀ j, db_jobs (q_db q) !! id = Some j → rj_status j = encoding ∧ is_export j = e;
  inv_sweep : ∀ id, id ∈ q_sweep q →
    q_launching q = None ∧ q_tasks q !! id = None ∧
    ∀ j, db_jobs (q_db q) !! id = Some j → rj_status j ≠ pending;
  inv_rows : ∀ id j, db_jobs (q_db q) !! id = Some j →
    id < db_next (q_db q) ∧ 0 ≤ rj_requeues j ≤ MAX_SHUTDOWN_REQUEUES ∧
    runs_of id q + in_flight id q ≤ budget j;
  inv_runs : ∀ id, runs_of id q + in_flight id q ≤ 1 + MAX_SHUTDOWN_REQUEUES;
  inv_ids : ∀ id, is_Some (q_tasks q !! id) ∨ id ∈ q_sweep q ∨ 0 < runs_of id q + in_flight id q →
    id < db_next (q_db q);
}.

Lemma budget_move j j' :
  0 ≤ rj_requeues j ≤ MAX_SHUTDOWN_REQUEUES → job_move j j' →
  budget j ≤ budget j' ∧ 0 ≤ rj_requeues j' ≤ MAX_SHUTDOWN_REQUEUES ∧ is_export j' = is_export j.
Proof.
  intros Hr [Hk Hm]. unfold budget, is_export. rewrite Hk.
  destruct Hm as [[-> ->]|[[Hs ->]|[(Hs & Hs' & -> & Hlt)|(Hs & Hs' & ->)]]].
  - split_and!; [lia|lia|lia|done].
  - rewrite (decide_False (P := rj_status j' = pending)) by (destruct Hs; congruence).
    destruct (decide (rj_status j = pending)); split_and!; lia || done.
  - rewrite (decide_False (P := rj_status j = pending)), (decide_True (P := rj_status j' = pending)) by congruence.
    split_and!; lia || done.
  - rewrite (decide_True (P := rj_status j = pending)), (decide_False (P := rj_status j' = pending)) by congruence.
    split_and!; lia || done.
Qed.

Lemma budget_bounds j : 0 ≤ rj_requeues j ≤ MAX_SHUTDOWN_REQUEUES → 0 ≤ budget j ≤ 1 + MAX_SHUTDOWN_REQUEUES.
Proof. unfold budget. case_decide; lia. Qed.

(** A transaction on one row keeps the invariant when it respects its task, a launch and
    the sweep. *)
Lemma inv_db q db' id :
  inv q → moves id (db_jobs (q_db q)) (db_jobs db') → db_next db' = db_next (q_db q) →
  (∀ t, q_tasks q !! id = Some t → ∀ j', db_jobs db' !! id = Some j' →
     rj_status j' ≠ pending ∧ (unsettled t = true → rj_status j' = encoding)) →
  (∀ e, q_launching q = Some (e, Some id) → row_in [encoding] id (db_jobs db')) →
  (id ∈ q_sweep q → row_in [encoding; done; failed] id (db_jobs db')) →
  inv (with_db q db').
Proof.
  intros [Hs Hf Ht Hl Hw Hr Hruns Hids] Hmv Hnext Hct Hcl Hcw.
  destruct Hmv as [Heq|(j & j' & Hj & Heq & Hmv)].
  { split; cbn [with_db q_db q_tasks q_launching q_sweep q_runs]; rewrite ?Heq, ?Hnext; try done. }
  destruct (Hr _ _ Hj) as (Hlt & Hreq & Hbud). destruct (budget_move _ _ Hreq Hmv) as (Hb & Hreq' & He).
  rewrite Heq in Hct, Hcl, Hcw.
  split; cbn [with_db q_db q_tasks q_launching q_sweep q_runs]; rewrite ?Heq, ?Hnext; try done.
  - intros k t Hk. destruct (Ht k t Hk) as [Hpc Hrow]. split; [done|]. intros i.
    destruct (decide (k = id)) as [->|Hne]; [|rewrite lookup_insert_ne by done; apply Hrow].
    rewrite lookup_insert_eq. intros [= <-]. destruct (Hrow _ Hj) as (He0 & _).
    destruct (Hct t Hk j') as [Hnp Hun]; [apply lookup_insert_eq|]. split_and!; [congruence|done|done].
  - intros e k Hk. destruct (Hl e k Hk) as [Hn Hrow]. split; [done|]. intros i.
    destruct (decide (k = id)) as [->|Hne]; [|rewrite lookup_insert_ne by done; apply Hrow].
    rewrite lookup_insert_eq. intros [= <-]. destruct (Hrow _ Hj) as [_ He0].
    split; [|congruence]. pose proof (Hcl e Hk j' (lookup_insert_eq _ _ _)) as Hin.
    by apply list_elem_of_singleton in Hin.
  - intros k Hk. destruct (Hw k Hk) as (Hln & Hn & Hrow). split_and!; [done|done|]. intros i.
    destruct (decide (k = id)) as [->|Hne]; [|rewrite lookup_insert_ne by done; apply Hrow].
    rewrite lookup_insert_eq. intros [= <-]. pose proof (Hcw Hk j' (lookup_insert_eq _ _ _)) as Hin.
    intros Hp. rewrite Hp in Hin. by apply not_in_active in Hin.
  - intros k i. destruct (decide (k = id)) as [->|Hne]; [|rewrite lookup_insert_ne by done; apply Hr].
    rewrite lookup_insert_eq. intros [= <-]. split_and!; [done|lia|lia|].
    change (runs_of id (with_db q db')) with (runs_of id q).
    change (in_flight id (with_db q db')) with (in_flight id q). lia.
Qed.

(** Moving a task to another point of the coroutine. *)
Lemma inv_task q id t t' :
  inv q → q_tasks q !! id = Some t → tk_export t' = tk_export t → pc_ok t' = true →
  (unsettled t' = true → unsettled t = true) → inv (with_task q id t').
Proof.
  intros [Hs Hf Ht Hl Hw Hr Hruns Hids] Hid He Hpc Hun.
  split; cbn [with_task q_db q_tasks q_launching q_sweep q_runs]; try done.
  - intros e. change (free_slots e (with_task q id t')) with (free_slots e q).
    change (launch_slot e (with_task q id t')) with (launch_slot e q).
    by rewrite (holders_update e _ id t t').
  - intros k tk. destruct (decide (k = id)) as [->|Hne]; [|rewrite lookup_insert_ne by done; apply Ht].
    rewrite lookup_insert_eq. intros [= <-]. split; [done|]. intros j Hj.
    destruct (Ht id t Hid) as [_ Hrow]. destruct (Hrow _ Hj) as (? & ? & ?). split_and!; [congruence|done|auto].
  - intros e k Hk. destruct (Hl e k Hk) as [Hn Hrow]. split; [|done].
    destruct (decide (k = id)) as [->|Hne]; [congruence|by rewrite lookup_insert_ne].
  - intros k Hk. destruct (Hw k Hk) as (Hln & Hn & Hrow). split_and!; [done| |done].
    destruct (decide (k = id)) as [->|Hne]; [congruence|by rewrite lookup_insert_ne].
  - intros k [[tk Hk]|Hk]; [|by apply Hids; right]. apply Hids. left.
    destruct (decide (k = id)) as [->|Hne]; [by exists t|]. rewrite lookup_insert_ne in Hk by done. by exists tk.
Qed.

Lemma inv_finish q id t : inv q → q_tasks q !! id = Some t → inv (finish_job id t q).
Proof.
  intros [Hs Hf Ht Hl Hw Hr Hruns Hids] Hid.
  assert (∀ k, is_Some (delete id (q_tasks q) !! k) → is_Some (q_tasks q !! k)) as Hdel.
  { intros k [tk [_ Hk]%lookup_delete_Some]. by exists tk. }
  split; cbn [finish_job add_slots q_db q_tasks q_launching q_sweep q_runs]; try done.
  - intros e. specialize (Hs e). change (launch_slot e (finish_job id t q)) with (launch_slot e q).
    rewrite (holders_delete e _ id t Hid). unfold free_slots in *. cbn.
    destruct e, (tk_export t); cbn in *; lia.
  - intros e. specialize (Hf e). unfold free_slots in *. cbn. destruct e, (tk_export t); lia.
  - intros k tk [_ Hk]%lookup_delete_Some. by apply Ht.
  - intros e k Hk. destruct (Hl e k Hk) as [Hn Hrow]. split; [|done]. apply lookup_delete_None. by right.
  - intros k Hk. destruct (Hw k Hk) as (Hln & Hn & Hrow). split_and!; [done| |done]. apply lookup_delete_None. by right.
  - intros k [Hk|Hk]; apply Hids; [left; by apply Hdel|by right].
Qed.
(** The database and everything the invariant reads are the same. *)
Lemma inv_same q q' :
  q_db q' = q_db q → q_tasks q' = q_tasks q → q_render_free q' = q_render_free q →
  q_export_free q' = q_export_free q → q_launching q' = q_launching q → q_sweep q' = q_sweep q →
  q_runs q' = q_runs q → inv q → inv q'.
Proof.
  intros Hdb Ht Hr He Hl Hw Hruns [I1 I2 I3 I4 I5 I6 I7 I8].
  split; unfold free_slots, launch_slot, in_flight, runs_of in *; rewrite ?Hdb, ?Ht, ?Hr, ?He, ?Hl, ?Hw, ?Hruns; done.
Qed.

Lemma runs_fresh q id : inv q → db_next (q_db q) ≤ id → runs_of id q + in_flight id q = 0.
Proof.
  intros Hinv Hid. assert (0 ≤ runs_of id q) by (unfold runs_of; lia).
  assert (0 ≤ in_flight id q) by (unfold in_flight; repeat case_match; lia).
  destruct (decide (0 < runs_of id q + in_flight id q)) as [Hlt|]; [|lia].
  pose proof (inv_ids q Hinv id (or_intror (or_intror Hlt))). lia.
Qed.

Lemma inv_enqueue q project kind : inv q → inv (with_db q (enqueue (q_db q) project kind)).
Proof.
  intros Hinv. destruct (Hinv) as [Hs Hf Ht Hl Hw Hr Hruns Hids].
  split; cbn [with_db enqueue q_db q_tasks q_launching q_sweep q_runs db_jobs db_next]; try done.
  - intros k t Hk. destruct (Ht k t Hk) as [? Hrow]. split; [done|]. intros j.
    rewrite lookup_insert_ne; [apply Hrow|]. pose proof (Hids k (or_introl (mk_is_Some _ _ Hk))). lia.
  - intros e k Hk. destruct (Hl e k Hk) as [? Hrow]. split; [done|]. intros j.
    rewrite lookup_insert_ne; [apply Hrow|]. intros <-. pose proof (runs_fresh q _ Hinv (Z.le_refl _)) as H0.
    unfold in_flight in H0. rewrite Hk, decide_True in H0 by done. unfold runs_of in H0. lia.
  - intros k Hk. destruct (Hw k Hk) as (? & ? & Hrow). split_and!; [done..|]. intros j.
    rewrite lookup_insert_ne; [apply Hrow|]. pose proof (Hids k (or_intror (or_introl Hk))). lia.
  - intros k j. destruct (decide (db_next (q_db q) = k)) as [<-|Hne].
    + rewrite lookup_insert_eq. intros [= <-]. split; [lia|]. split; [cbn; unfold MAX_SHUTDOWN_REQUEUES; lia|].
      pose proof (runs_fresh q _ Hinv (Z.le_refl _)) as H0.
      change (runs_of (db_next (q_db q)) q + in_flight (db_next (q_db q)) q ≤ 0). lia.
    + rewrite lookup_insert_ne by done. intros Hj. destruct (Hr k j Hj) as (? & ? & ?). split; [lia|done].
  - intros k Hk. pose proof (Hids k Hk). lia.
Qed.

Lemma inv_delete q id :
  inv q → inv (with_db q (MkDb (delete id (db_jobs (q_db q))) (db_next (q_db q)) (db_events (q_db q)))).
Proof.
  intros [Hs Hf Ht Hl Hw Hr Hruns Hids].
  split; cbn [with_db q_db q_tasks q_launching q_sweep q_runs db_jobs db_next]; try done.
  - intros k t Hk. destruct (Ht k t Hk) as [? Hrow]. split; [done|]. intros j [_ Hj]%lookup_delete_Some. by apply Hrow.
  - intros e k Hk. destruct (Hl e k Hk) as [? Hrow]. split; [done|]. intros j [_ Hj]%lookup_delete_Some. by apply Hrow.
  - intros k Hk. destruct (Hw k Hk) as (? & ? & Hrow). split_and!; [done..|].
    intros j [_ Hj]%lookup_delete_Some. by apply Hrow.
  - intros k j [_ Hj]%lookup_delete_Some. by apply (Hr k j).
Qed.

(** The launch: a slot is taken, given back, or handed to the task. *)
Lemma inv_take_slot q e :
  inv q → q_launching q = None → q_sweep q = [] → 0 < free_slots e q →
  inv (set_launching (add_slots e (-1) q) (Some (e, None))).
Proof.
  intros [Hs Hf Ht Hl Hw Hr Hruns Hids] Hln Hsw Hfree. set (q' := set_launching _ _).
  assert (∀ k, runs_of k q' + in_flight k q' = runs_of k q + in_flight k q) as Hsum.
  { intros k. unfold runs_of, in_flight. cbn. by rewrite Hln. }
  split; cbn [q' set_launching add_slots q_db q_tasks q_launching q_sweep q_runs]; try done.
  - intros e'. specialize (Hs e'). unfold free_slots, launch_slot in *. cbn. rewrite Hln in Hs.
    destruct e, e'; cbn in *; lia.
  - intros e'. specialize (Hf e'). unfold free_slots in *. cbn. destruct e, e'; lia.
  - intros k Hk. rewrite Hsw in Hk. by apply elem_of_nil in Hk.
  - intros k j Hj. rewrite Hsum. by apply Hr.
  - intros k. rewrite Hsum. apply Hruns.
  - intros k. rewrite Hsum. apply Hids.
Qed.

Lemma inv_give_back q e c : inv q → q_launching q = Some (e, c) → inv (add_slots e 1 (set_launching q None)).
Proof.
  intros [Hs Hf Ht Hl Hw Hr Hruns Hids] Hln.
  assert (∀ k, 0 ≤ in_flight k q) as Hin by (intros k; unfold in_flight; repeat case_match; lia).
  split; cbn [set_launching add_slots q_db q_tasks q_launching q_sweep q_runs]; try done.
  - intros e'. specialize (Hs e'). unfold free_slots, launch_slot in *. cbn. rewrite Hln in Hs.
    destruct e, e'; cbn in *; lia.
  - intros e'. specialize (Hf e'). unfold free_slots in *. cbn. destruct e, e'; lia.
  - intros k Hk. destruct (Hw k Hk) as (? & ? & ?). congruence.
  - intros k j Hj. destruct (Hr k j Hj) as (? & ? & ?). split; [done|]. split; [done|]. specialize (Hin k).
    unfold runs_of, in_flight in *. cbn in *. lia.
  - intros k. specialize (Hruns k). specialize (Hin k). unfold runs_of, in_flight in *. cbn in *. lia.
  - intros k [?|[?|Hk]]; apply Hids; [by left|by right; left|]. right. right. specialize (Hin k).
    unfold runs_of, in_flight in *. cbn in *. lia.
Qed.

Lemma inv_register q e id : inv q → q_launching q = Some (e, Some id) → inv (register_task id e q).
Proof.
  intros [Hs Hf Ht Hl Hw Hr Hruns Hids] Hln. destruct (Hl e id Hln) as [Hn Hrow].
  assert (∀ k, runs_of k (register_task id e q) + in_flight k (register_task id e q) =
               runs_of k q + in_flight k q) as Hsum.
  { intros k. unfold runs_of, in_flight. cbn. rewrite Hln, filter_app, length_app.
    case_decide as Hk; [rewrite (filter_singleton_True _ id []) by done|rewrite (filter_singleton_False _ id []) by done];
      cbn; lia. }
  split; cbn [register_task q_db q_tasks q_launching q_sweep].
  - intros e'. specialize (Hs e'). unfold free_slots, launch_slot in *. cbn. rewrite Hln in Hs.
    rewrite holders_insert by done. cbn. destruct e, e'; cbn in *; lia.
  - done.
  - intros k t. destruct (decide (k = id)) as [->|Hne]; [|rewrite lookup_insert_ne by done; apply Ht].
    rewrite lookup_insert_eq. intros [= <-]. split; [done|]. intros j Hj. destruct (Hrow j Hj) as [Hst He].
    split_and!; [done|congruence|done].
  - done.
  - intros k Hk. destruct (Hw k Hk) as (? & ? & ?). congruence.
  - intros k j Hj. rewrite Hsum. by apply Hr.
  - intros k. rewrite Hsum. apply Hruns.
  - intros k. rewrite Hsum. intros [Hk|[Hk|Hk]]; [|by apply Hids; right; left|by apply Hids; right; right].
    destruct (decide (k = id)) as [->|Hne]; [|rewrite lookup_insert_ne in Hk by done; by apply Hids; left].
    apply Hids. right. right. unfold in_flight. rewrite Hln, decide_True by done. unfold runs_of. lia.
Qed.
(** A claim moves a pending row, which no task, launch or sweep knows. *)
Lemma inv_claim_db q e now db' id :
  inv q → claim_oldest_pending e now (q_db q) = (db', Some id) → inv (with_db q db').
Proof.
  intros Hinv Hc. destruct (claim_spec _ _ _ _ _ Hc) as (j & j' & Hj & Hp & He & Heq & Hst & Hk & Hrq & Hn & _).
  apply (inv_db _ _ id); [done| |done|..].
  - right. exists j, j'. split_and!; [done|done|]. split; [done|]. by right; right; right.
  - intros t Ht. destruct (inv_tasks q Hinv id t Ht) as [_ Hrow]. by destruct (Hrow j Hj) as (_ & ? & _).
  - intros e' Hl. destruct (inv_launch q Hinv e' id Hl) as [_ Hrow]. destruct (Hrow j Hj). congruence.
  - intros Hw. destruct (inv_sweep q Hinv id Hw) as (_ & _ & Hrow). by destruct (Hrow j Hj).
Qed.

Lemma inv_claim q e now db' id :
  inv q → q_launching q = Some (e, None) → claim_oldest_pending e now (q_db q) = (db', Some id) →
  inv (set_launching (with_db q db') (Some (e, Some id))).
Proof.
  intros Hinv Hln Hc. pose proof (inv_claim_db q e now db' id Hinv Hc) as [Hs Hf Ht Hl Hw Hr Hruns Hids].
  destruct (claim_spec _ _ _ _ _ Hc) as (j & j' & Hj & Hp & He & Heq & Hst & Hk & Hrq & Hn & _).
  destruct (inv_rows q Hinv id j Hj) as (Hlt & Hreq & Hbud).
  assert (q_tasks q !! id = None) as Hnone.
  { destruct (q_tasks q !! id) as [t|] eqn:Htk; [|done]. destruct (inv_tasks q Hinv id t Htk) as [_ Hrow].
    by destruct (Hrow j Hj) as (_ & ? & _). }
  set (q' := set_launching _ _).
  assert (∀ k, runs_of k q' + in_flight k q' = runs_of k q + in_flight k q + (if decide (id = k) then 1 else 0)) as Hsum.
  { intros k. unfold runs_of, in_flight. cbn. rewrite Hln. lia. }
  assert (budget j = rj_requeues j ∧ budget j' = rj_requeues j + 1) as [Hbj Hbj'].
  { unfold budget. rewrite Hp, Hst, Hrq, decide_True, decide_False by done. lia. }
  split; cbn [q' set_launching with_db q_db q_tasks q_launching q_sweep q_runs]; try done.
  - intros e'. specialize (Hs e'). unfold free_slots, launch_slot in *. cbn in *. by rewrite Hln in Hs.
  - intros e' k [= <- <-]. split; [done|]. intros i. rewrite Heq, lookup_insert_eq. intros [= <-].
    split; [done|]. unfold is_export in *. by rewrite Hk.
  - intros k Hk'. destruct (inv_sweep q Hinv k Hk') as (? & _). congruence.
  - intros k i. rewrite Hsum. case_decide as Hik.
    + subst k. rewrite Heq, lookup_insert_eq. intros [= <-]. rewrite Hn. lia.
    + intros Hi. destruct (Hr k i Hi) as (? & ? & Hb). split; [done|]. split; [done|].
      unfold runs_of, in_flight in *. cbn in *. rewrite Hln in Hb |- *. lia.
  - intros k. rewrite Hsum. case_decide as Hik; [subst k; lia|]. rewrite Z.add_0_r. apply (inv_runs q Hinv).
  - intros k. rewrite Hsum, Hn. intros Hk'. case_decide as Hik; [by subst k|].
    apply (inv_ids q Hinv). by rewrite Z.add_0_r in Hk'.
Qed.

Lemma inv_sweep_read q : inv q → q_launching q = None → inv (set_sweep q (orphan_ids q)).
Proof.
  intros [Hs Hf Ht Hl Hw Hr Hruns Hids] Hln.
  assert (∀ k, k ∈ orphan_ids q → q_tasks q !! k = None ∧ ∃ j, db_jobs (q_db q) !! k = Some j ∧ rj_status j = encoding)
    as Horph.
  { intros k [Hn ([k' o] & -> & Hin)%list_elem_of_fmap]%list_elem_of_filter. split; [done|].
    unfold encoding_rows_sync in Hin. apply list_elem_of_fmap in Hin as ([i j] & [= -> ->] & Hin).
    unfold rows_with in Hin. apply list_elem_of_filter in Hin as [Hst Hin]. apply elem_of_map_to_list in Hin.
    by exists j. }
  split; cbn [set_sweep q_db q_tasks q_launching q_sweep q_runs]; try done.
  - intros k Hk. destruct (Horph k Hk) as (? & j & Hj & Hst). split_and!; [done..|]. intros j'. rewrite Hj.
    intros [= <-]. congruence.
  - intros k [Hk|[Hk|Hk]]; [by apply Hids; left| |by apply Hids; right; right].
    destruct (Horph k Hk) as (_ & j & Hj & _). by apply (Hr k j).
Qed.

Lemma inv_sweep_less q ids : inv q → (∀ k, k ∈ ids → k ∈ q_sweep q) → inv (set_sweep q ids).
Proof.
  intros [Hs Hf Ht Hl Hw Hr Hruns Hids] Hsub.
  split; cbn [set_sweep q_db q_tasks q_launching q_sweep q_runs]; try done.
  - intros k Hk. apply Hw. by apply Hsub.
  - intros k [Hk|[Hk|Hk]]; apply Hids; [by left|right; left; by apply Hsub|by right; right].
Qed.

Lemma flip_not_pending id expected reason now db :
  expected ≠ failed → (∀ j, db_jobs db !! id = Some j → rj_status j ≠ pending) →
  row_in [encoding; done; failed] id (db_jobs (flip_if_sync id expected reason now db).1).
Proof.
  intros Hne Hnp j Hj. destruct (rj_status j) eqn:Hst; try (by apply (bool_decide_unpack _)). exfalso.
  destruct (flip_moves id expected reason now db) as [[Heq|(i & i' & Hi & Heq & _ & Hm)] _].
  - rewrite Heq in Hj. by apply (Hnp j Hj).
  - rewrite Heq, lookup_insert_eq in Hj. simplify_eq. pose proof (Hnp i Hi).
    unfold flip_if_sync in Heq. rewrite Hi in Heq. case_decide.
    + assert (j = with_status i failed (Some now)) as ->; [|done].
      apply (f_equal (lookup id)) in Heq. destruct reason; cbn in Heq; rewrite !lookup_insert_eq in Heq; congruence.
    + cbn in Heq. apply (f_equal (lookup id)) in Heq. rewrite lookup_insert_eq, Hi in Heq. congruence.
Qed.
Lemma fail_one id reason now db :
  (fail_orphans_sync [id] reason now db).1 = (flip_if_sync id encoding reason now db).1.
Proof. cbn. by destruct (flip_if_sync id encoding reason now db). Qed.

(** Flipping a row that has no task. *)
Lemma inv_flip q id expected reason now :
  inv q → q_tasks q !! id = None → q_launching q = None → expected ≠ failed →
  inv (with_db q (flip_if_sync id expected reason now (q_db q)).1).
Proof.
  intros Hinv Hn Hln Hne. destruct (flip_moves id expected reason now (q_db q)) as [Hm Hnext].
  apply (inv_db _ _ id); [done|done|done|congruence|congruence|].
  intros Hw. destruct (inv_sweep q Hinv id Hw) as (_ & _ & Hrow). by apply flip_not_pending.
Qed.

Lemma with_db_same q : with_db q (q_db q) = q.
Proof. by destruct q. Qed.

Lemma inv_cancel_untracked q id user now :
  inv q → q_tasks q !! id = None → q_launching q = None →
  inv (with_db q (cancel_untracked_sync id user now (q_db q)).1).
Proof.
  intros Hinv Hn Hln. unfold cancel_untracked_sync.
  destruct (db_jobs (q_db q) !! id) as [j|]; [|cbn; by rewrite with_db_same].
  destruct (rj_status j); [| |cbn; by rewrite with_db_same..].
  - pose proof (inv_flip q id pending None now Hinv Hn Hln ltac:(done)) as H.
    by destruct (flip_if_sync id pending None now (q_db q)).
  - pose proof (inv_flip q id encoding (if user then None else Some ORPHAN_REASON) now Hinv Hn Hln ltac:(done)) as H.
    rewrite <-fail_one in H. by destruct (fail_orphans_sync [id] _ now (q_db q)).
Qed.

(** [_settle] and what follows it. *)
Definition resume (id : Z) (t : Task) (next : option task_pc) (q : Queue) : Queue :=
  match next with
  | Some pc => with_task q id (MkTask (tk_export t) pc)
  | None => finish_job id t q
  end.

Lemma inv_resume q id t handler :
  handler_ok handler = true → inv q → q_tasks q !! id = Some t → inv (resume id t (after_settle handler t) q).
Proof.
  intros Hh Hinv Ht. unfold after_settle, resume.
  destruct (tk_pc t) as [| | | |r|w [] held|] eqn:Hpc; try by apply inv_finish.
  1-5, 7: eapply inv_task; [done|done|done|by unfold pc_ok|unfold unsettled; cbn; by rewrite Hpc].
  destruct held.
  { eapply inv_task; [done|done|done|done|unfold unsettled; cbn; by rewrite Hpc]. }
  destruct w as [res media| | |]; try by apply inv_finish.
  destruct (rr_success res); [|by apply inv_finish].
  eapply inv_task; [done|done|done|done|unfold unsettled; cbn; by rewrite Hpc].
Qed.

Lemma resume_with_task id t t' next q :
  tk_export t' = tk_export t → resume id t' next (with_task q id t') = resume id t next q.
Proof.
  intros He. destruct q, next; unfold resume, with_task, finish_job, add_slots; cbn; rewrite He.
  - by rewrite insert_insert_eq.
  - by rewrite delete_insert_eq.
Qed.

Lemma with_db_task q db id t : with_db (with_task q id t) db = with_task (with_db q db) id t.
Proof. by destruct q. Qed.
Lemma with_db_finish q db id t : with_db (finish_job id t q) db = finish_job id t (with_db q db).
Proof. by destruct q. Qed.

Lemma inv_settled q id t w in_handler held now handler :
  handler_ok handler = true → inv q → q_tasks q !! id = Some t → tk_pc t = Settling w in_handler held →
  inv (resume id t (after_settle handler t) (with_db q (record w id now (q_db q)))).
Proof.
  intros Hh Hinv Ht Hpc. destruct (record_moves w id now (q_db q)) as [Hm Hn].
  pose proof (record_row w id now (q_db q)) as Hrow.
  assert (id ∉ q_sweep q) as Hnw by (intros Hw; destruct (inv_sweep q Hinv id Hw) as (_ & ? & _); congruence).
  assert (∀ e, q_launching q = Some (e, Some id) → False) as Hnl
    by (intros e Hl; destruct (inv_launch q Hinv e id Hl); congruence).
  destruct (after_settle handler t) as [pc|] eqn:Ha; cbn [resume].
  2: { rewrite <-with_db_finish. apply (inv_db _ _ id); cbn; try done; [by apply inv_finish| |naive_solver].
       intros t'. by rewrite lookup_delete_eq. }
  assert (in_handler = false) as ->.
  { unfold after_settle in Ha. rewrite Hpc in Ha. by destruct in_handler. }
  assert (∃ w', unsettled (MkTask (tk_export t) pc) = false ∧ pc_ok (MkTask (tk_export t) pc) = true ∧
    w' = w ∧ match w' with MarkInterrupted _ => False | _ => True end) as (w' & Hun & Hok & -> & Hw).
  { exists w. destruct (inv_tasks q Hinv id t Ht) as [Hpo _]. unfold pc_ok in Hpo. rewrite Hpc in Hpo.
    unfold after_settle in Ha. rewrite Hpc in Ha. split_and!; [..|by destruct w].
    all: destruct held; [by simplify_eq|]; destruct w as [res ?| | |]; try done;
      destruct (rr_success res); by simplify_eq. }
  rewrite <-with_db_task. apply (inv_db _ _ id); try done.
  - eapply inv_task; [done|done|done|done|]. by rewrite Hun.
  - intros t'. cbn. rewrite lookup_insert_eq. intros [= <-] j Hj. rewrite Hun. split; [|done].
    assert (rj_status j ∈ [done; failed]) as Hin by (by destruct w; try done; apply Hrow).
    intros Hp. rewrite Hp in Hin. by apply (bool_decide_pack _) in Hin.
  - intros e Hl. by destruct (Hnl e).
Qed.

Lemma lookup_stopped graces q id :
  q_tasks (stop_queue graces q) !! id =
  (λ t, deliver_cancel (cancel_recorder (bool_decide (id ∈ q_user_cancels q)) true (graces id)) t) <$> q_tasks q !! id.
Proof.
  unfold stop_queue. cbn.
  destruct (q_launching q) as [[e c]|]; cbn; rewrite map_lookup_imap; by destruct (q_tasks q !! id).
Qed.
Lemma inv_event q e : inv q → inv (with_db q (add_event (q_db q) e)).
Proof. intros [I1 I2 I3 I4 I5 I6 I7 I8]. by split. Qed.

Lemma cancel_recorder_ok user stopped grace : handler_ok (cancel_recorder user stopped grace) = true.
Proof. by destruct user, stopped. Qed.

Lemma deliver_cancel_ok handler t :
  handler_ok handler = true →
  tk_export (deliver_cancel handler t) = tk_export t ∧ (pc_ok t = true → pc_ok (deliver_cancel handler t) = true) ∧
  (unsettled (deliver_cancel handler t) = true → unsettled t = true).
Proof.
  intros Hh. destruct t as [e pc]. unfold deliver_cancel, pc_ok, unsettled. cbn. by destruct pc as [| | | | |? []|].
Qed.

(** Cancelling every task. *)
Lemma inv_cancel_all q tasks' :
  inv q → (∀ id, ∃ handler, handler_ok handler = true ∧ tasks' !! id = deliver_cancel handler <$> q_tasks q !! id) →
  inv (MkQueue (q_db q) tasks' (q_user_cancels q) (q_render_free q) (q_export_free q) (q_launching q)
         (q_sweep q) true (q_lost q) (q_idle q) (q_runs q)).
Proof.
  intros [Hs Hf Ht Hl Hw Hr Hruns Hids] Hall.
  assert (∀ id, q_tasks q !! id = None → tasks' !! id = None) as Hnone.
  { intros id Hn. destruct (Hall id) as (h & Hh0 & ->). by rewrite Hn. }
  split; cbn; try done.
  - intros e. specialize (Hs e). assert (holders e tasks' = holders e (q_tasks q)) as ->; [|done].
    apply set_eq. intros k. rewrite !elem_of_holders. destruct (Hall k) as (h & Hh0 & ->).
    destruct (q_tasks q !! k) as [t|]; cbn; [|done]. destruct (deliver_cancel_ok h t Hh0) as (He & _).
    naive_solver congruence.
  - intros k t' Hk. destruct (Hall k) as (h & Hh0 & Hh). rewrite Hh in Hk. apply fmap_Some in Hk as (t & Hk & ->).
    destruct (Ht k t Hk) as [Hpc Hrow]. destruct (deliver_cancel_ok h t Hh0) as (He & Hp & Hu). split; [by apply Hp|].
    intros j Hj. destruct (Hrow j Hj) as (? & ? & Hun). split_and!; [congruence|done|]. auto.
  - intros e k Hk. destruct (Hl e k Hk). auto.
  - intros k Hk. destruct (Hw k Hk) as (? & ? & ?). auto.
  - intros k [[t' Hk]|Hk]; [|by apply Hids; right]. apply Hids. left. destruct (Hall k) as (h & Hh0 & Hh).
    rewrite Hh in Hk. apply fmap_Some in Hk as (t & Hk & _). by exists t.
Qed.

Lemma inv_stop q graces : inv q → inv (stop_queue graces q).
Proof.
  intros Hinv. unfold stop_queue. cbn.
  set (tasks' := map_imap _ (q_tasks q)).
  assert (inv (MkQueue (q_db q) tasks' (q_user_cancels q) (q_render_free q) (q_export_free q) (q_launching q)
         (q_sweep q) true (q_lost q) (q_idle q) (q_runs q))) as Hinv'.
  { apply inv_cancel_all; [done|]. intros id. eexists. split; [apply cancel_recorder_ok|]. unfold tasks'.
    rewrite map_lookup_imap. unfold handler_of. by destruct (q_tasks q !! id). }
  destruct (q_launching q) as [[e c]|] eqn:Hln; [|done].
  eapply inv_same; [..|eapply (inv_give_back _ e c); [exact Hinv'|done]]; done.
Qed.

Context (Hr0 : 0 ≤ max_renders) (He0 : 0 ≤ max_exports).

Lemma inv_restart q : inv q → inv (restart max_renders max_exports q).
Proof using Hr0 He0.
  intros [Hs Hf Ht Hl Hw Hr Hruns Hids].
  assert (∀ k, 0 ≤ in_flight k q) as Hin by (intros k; unfold in_flight; repeat case_match; lia).
  assert (∀ k, runs_of k (restart max_renders max_exports q) + in_flight k (restart max_renders max_exports q) ≤
    runs_of k q + in_flight k q) as Hle.
  { intros k. specialize (Hin k). change (runs_of k q + 0 ≤ runs_of k q + in_flight k q). lia. }
  split; cbn [restart q_db q_tasks q_launching q_sweep]; try done.
  - intros e. unfold free_slots, launch_slot, slots, holders. cbn. rewrite map_filter_empty, dom_empty_L, size_empty.
    destruct e; lia.
  - intros e. unfold free_slots. cbn. destruct e; done.
  - intros k Hk. by apply elem_of_nil in Hk.
  - intros k j Hj. destruct (Hr k j Hj) as (? & ? & ?). specialize (Hle k). split; [done|]. split; [done|]. lia.
  - intros k. specialize (Hle k). specialize (Hruns k). lia.
  - intros k [[? Hk]|[Hk|Hk]]; [by rewrite lookup_empty in Hk|by apply elem_of_nil in Hk|].
    apply Hids. right. right. specialize (Hle k). lia.
Qed.

(** Every step keeps the invariant. *)
Lemma inv_step q q' : inv q → step max_renders max_exports q q' → inv q'.
Proof using Hr0 He0.
  intros Hinv Hs. destruct Hs.
  - eapply inv_same; [..|apply inv_enqueue; exact Hinv]; done.
  - by apply inv_delete.
  - by apply inv_take_slot.
  - destruct (claim_none _ _ _ _ H0) as [-> _]. rewrite with_db_same. by eapply inv_give_back.
  - by eapply inv_claim.
  - by eapply inv_give_back.
  - by apply inv_register.
  - by apply inv_sweep_read.
  - destruct (inv_sweep q Hinv id) as (Hln & Hn & Hrow); [rewrite H; apply elem_of_cons; by left|].
    assert (inv (with_db q (fail_orphans_sync [id] (Some ORPHAN_REASON) now (q_db q)).1)) as Hi.
    { rewrite fail_one. by apply inv_flip. }
    apply inv_sweep_less; [done|]. cbn. rewrite H. intros k Hk. apply elem_of_cons. by right.
  - apply inv_sweep_less; [done|]. intros k Hk. by apply elem_of_nil in Hk.
  - by eapply inv_same; [..|exact Hinv].
  - eapply inv_task; [done..|]. unfold unsettled. by rewrite H0.
  - eapply inv_task; [done..|]. unfold unsettled. by rewrite H0.
  - eapply inv_task; [done..|]. unfold unsettled. by rewrite H0.
  - eapply inv_task; [done..|]. unfold unsettled. by rewrite H0.
  - eapply inv_task; [done..|]. unfold unsettled. by rewrite H0.
  - eapply inv_task; [done..|]. done.
  - eapply inv_settled; [apply cancel_recorder_ok|done..].
  - destruct reported; [by apply inv_event|done].
  - apply inv_resume; [apply cancel_recorder_ok|done..].
  - by apply inv_finish.
  - unfold cancel_task. set (q1 := MkQueue _ _ _ _ _ _ _ _ _ _ _). destruct (deliver_cancel_ok (handler_of id within_grace q1) t (cancel_recorder_ok _ _ _)) as (He & Hp & Hu).
    destruct (inv_tasks q Hinv id t H) as [Hpc _].
    eapply (inv_task _ _ t); [by eapply inv_same; [..|exact Hinv]|done|done|by apply Hp|done].
  - by apply inv_cancel_untracked.
  - destruct (backfill_moves id media (q_db q)) as (Hm & Hn & Hst). apply (inv_db _ _ id); [done|done|done|..].
    + intros t Ht j' Hj'. destruct (Hst j' Hj') as (j & Hj & ->).
      destruct (inv_tasks q Hinv id t Ht) as [_ Hrow]. by destruct (Hrow j Hj) as (_ & ? & ?).
    + intros e Hl j' Hj'. destruct (Hst j' Hj') as (j & Hj & ->).
      destruct (inv_launch q Hinv e id Hl) as [_ Hrow]. destruct (Hrow j Hj) as [-> _]. by apply list_elem_of_singleton.
    + intros Hw j' Hj'. destruct (Hst j' Hj') as (j & Hj & ->). destruct (inv_sweep q Hinv id Hw) as (_ & _ & Hrow).
      pose proof (Hrow j Hj). destruct (rj_status j); try done; by apply (bool_decide_unpack _).
  - by apply inv_stop.
  - eapply inv_same; [..|instantiate (1 := with_db q (claim_oldest_pending exports now (q_db q)).1)]; try done.
    destruct (claim_oldest_pending exports now (q_db q)) as [db [id|]] eqn:Hc; cbn.
    + by eapply inv_claim_db.
    + destruct (claim_none _ _ _ _ Hc) as [-> _]. by rewrite with_db_same.
  - by apply inv_restart.
Qed.
End invariant.

(** ** Reachable states *)
Definition db_ok (db : Db) : Prop :=
  ∀ id j, db_jobs db !! id = Some j → id < db_next db ∧ 0 ≤ rj_requeues j ≤ MAX_SHUTDOWN_REQUEUES.

(** The states of a worker that starts on the database [db]. *)
Definition reachable (max_renders max_exports : Z) (db : Db) (q : Queue) : Prop :=
  rtc (step max_renders max_exports) (boot max_renders max_exports db) q.

Lemma inv_boot max_renders max_exports db :
  0 ≤ max_renders → 0 ≤ max_exports → db_ok db → inv max_renders max_exports (boot max_renders max_exports db).
Proof.
  intros Hr He Hdb. split; try done.
  - intros e. unfold free_slots, launch_slot, slots, holders. cbn. rewrite map_filter_empty, dom_empty_L, size_empty.
    destruct e; lia.
  - intros e. unfold free_slots. cbn. by destruct e.
  - intros id Hin. by apply elem_of_nil in Hin.
  - intros id j Hj. destruct (Hdb id j Hj) as [Hlt Hq]. split; [done|]. split; [done|].
    pose proof (budget_bounds j Hq). unfold runs_of, in_flight. cbn. lia.
  - intros id [[t Ht]|[Hin|Hlt]]; [done|by apply elem_of_nil in Hin|].
    unfold runs_of, in_flight in Hlt. cbn in Hlt. lia.
Qed.

Lemma inv_reachable max_renders max_exports db q :
  0 ≤ max_renders → 0 ≤ max_exports → db_ok db → reachable max_renders max_exports db q →
  inv max_renders max_exports q.
Proof.
  intros Hr He Hdb. apply (rtc_ind_r (λ q, inv max_renders max_exports q)); [by apply inv_boot|].
  intros q1 q2 _ Hs Hi. by eapply inv_step.
Qed.

(** ** Rows that are settled *)
Definition terminal (st : job_status) : bool :=
  match st with done | failed => true | pending | encoding => false end.

(** The row [id] stays as settled as it was, or is deleted. *)
Definition keeps (id : Z) (jobs jobs' : gmap Z RenderJob) : Prop :=
  ∀ j, jobs !! id = Some j → terminal (rj_status j) = true →
  jobs' !! id = None ∨ ∃ j', jobs' !! id = Some j' ∧ rj_status j' = rj_status j.

Lemma keeps_same id jobs : keeps id jobs jobs.
Proof. intros j Hj _. right. by exists j. Qed.

Lemma keeps_other id k jobs j' : k ≠ id → keeps id jobs (<[k := j']> jobs).
Proof. intros Hne j Hj _. right. exists j. by rewrite lookup_insert_ne. Qed.

Lemma flip_keeps id k expected reason now db :
  terminal expected = false → keeps id (db_jobs db) (db_jobs (flip_if_sync k expected reason now db).1).
Proof.
  intros He j Hj Ht. unfold flip_if_sync. destruct (db_jobs db !! k) as [i|] eqn:Hk; [|by apply keeps_same].
  case_decide as Hst; [|by apply keeps_same]. destruct (decide (k = id)) as [->|Hne].
  - simplify_eq. congruence.
  - pose proof (keeps_other id k (db_jobs db) (with_status i failed (Some now)) Hne j Hj Ht). by destruct reason.
Qed.

Lemma claim_keeps id exports now db :
  keeps id (db_jobs db) (db_jobs (claim_oldest_pending exports now db).1).
Proof.
  destruct (claim_oldest_pending exports now db) as [db' [k|]] eqn:Hc; cbn.
  - destruct (claim_spec _ _ _ _ _ Hc) as (j & j' & Hj & Hp & _ & -> & _).
    destruct (decide (k = id)) as [->|Hne]; [|by apply keeps_other]. intros i Hi. simplify_eq. by rewrite Hp.
  - destruct (claim_none _ _ _ _ Hc) as [-> _]. apply keeps_same.
Qed.

(** A recorder called from an [except] clause, or on another row, or on a row that is not
    settled, changes no settled row. *)
Lemma record_keeps id k w now db :
  handler_ok w = true ∨ k ≠ id ∨ (∀ j, db_jobs db !! id = Some j → terminal (rj_status j) = false) →
  keeps id (db_jobs db) (db_jobs (record w k now db)).
Proof.
  intros Hw j Hj Ht. destruct (decide (k = id)) as [->|Hne].
  - destruct Hw as [Hw|[?|Hw]]; [|done|rewrite (Hw j Hj) in Ht; done].
    destruct w as [|reason| |grace]; [done|..]; cbn [record];
      unfold mark_failed_sync, mark_cancelled_sync, mark_interrupted_sync; rewrite Hj;
      (case_decide as Hd; [right; by exists j|]); assert (rj_status j = failed) as Hf by (by destruct (rj_status j)).
    + right. eexists. cbn. rewrite lookup_insert_eq. split; [done|]. by rewrite Hf.
    + right. eexists. cbn. rewrite lookup_insert_eq. split; [done|]. by rewrite Hf.
    + rewrite (bool_decide_false (rj_status j = encoding)), andb_false_r by congruence. cbn [andb].
      right. eexists. cbn. rewrite lookup_insert_eq. split; [done|]. by rewrite Hf.
  - destruct (record_moves w k now db) as [[->|(i & i' & _ & -> & _)] _]; [by apply keeps_same|by apply keeps_other].
Qed.

Lemma cancel_untracked_keeps id k user now db :
  keeps id (db_jobs db) (db_jobs (cancel_untracked_sync k user now db).1).
Proof.
  unfold cancel_untracked_sync. destruct (db_jobs db !! k) as [i|]; [|apply keeps_same].
  destruct (rj_status i); [| |apply keeps_same..].
  - pose proof (flip_keeps id k pending None now db eq_refl). by destruct (flip_if_sync k pending None now db).
  - pose proof (flip_keeps id k encoding (if user then None else Some ORPHAN_REASON) now db eq_refl) as Hk.
    rewrite <-fail_one in Hk. by destruct (fail_orphans_sync [k] _ now db).
Qed.

Lemma backfill_keeps id k media db :
  keeps id (db_jobs db) (db_jobs (store_backfill k media db).1).
Proof.
  unfold store_backfill. destruct (db_jobs db !! k) as [i|] eqn:Hk; [|apply keeps_same].
  destruct (rj_codec i), (rj_mime i); try apply keeps_same.
  destruct (decide (k = id)) as [->|]; [|by apply keeps_other].
  intros j Hj _. right. simplify_eq. eexists. cbn. by rewrite lookup_insert_eq.
Qed.

Lemma step_keeps max_renders max_exports q q' id :
  inv max_renders max_exports q → step max_renders max_exports q q' →
  keeps id (db_jobs (q_db q)) (db_jobs (q_db q')).
Proof.
  intros Hinv Hs. destruct Hs; cbn; try apply keeps_same.
  - intros j Hj Ht. apply keeps_other; [|done|done]. destruct (inv_rows _ _ _ Hinv id j Hj). lia.
  - intros j Hj Ht. destruct (decide (id0 = id)) as [->|Hne]; [left; by rewrite lookup_delete_eq|].
    right. exists j. by rewrite lookup_delete_ne.
  - destruct (claim_none _ _ _ _ H0) as [-> _]. apply keeps_same.
  - pose proof (claim_keeps id exports now (q_db q)) as Hk. by rewrite H0 in Hk.
  - pose proof (flip_keeps id id0 encoding (Some ORPHAN_REASON) now (q_db q) eq_refl) as Hk.
    by rewrite <-fail_one in Hk.
  - assert (q_db (resume id0 t (after_settle (handler_of id0 within_grace (with_db q (record w id0 now (q_db q)))) t)
      (with_db q (record w id0 now (q_db q)))) = record w id0 now (q_db q)) as Hdb.
    { unfold resume. by case_match. }
    unfold resume in Hdb. rewrite Hdb. apply record_keeps.
    destruct (inv_tasks _ _ _ Hinv id0 t H) as [Hpc Hrow]. unfold pc_ok in Hpc. rewrite H0 in Hpc.
    destruct in_handler; [by left|]. destruct (decide (id0 = id)) as [->|]; [|by right; left]. right. right.
    intros j Hj. destruct (Hrow j Hj) as (_ & _ & Hun). rewrite Hun; [done|]. unfold unsettled. by rewrite H0.
  - destruct reported; apply keeps_same.
  - assert (q_db (resume id0 t (after_settle (handler_of id0 within_grace q) t) q) = q_db q) as Hdb.
    { unfold resume. by case_match. }
    unfold resume in Hdb. rewrite Hdb. apply keeps_same.
  - apply cancel_untracked_keeps.
  - apply backfill_keeps.
  - unfold stop_queue. cbn. destruct (q_launching q) as [[e c]|]; apply keeps_same.
  - apply claim_keeps.
Qed.

(** Rows come from [enqueue] only. *)
Lemma moves_dom k jobs jobs' id j' :
  moves k jobs jobs' → jobs' !! id = Some j' → is_Some (jobs !! id).
Proof.
  intros [->|(i & i' & Hi & -> & _)]; [by eexists|]. destruct (decide (k = id)) as [->|Hne]; [by eexists|].
  rewrite lookup_insert_ne by done. by eexists.
Qed.

Lemma claim_moves exports now db :
  ∃ k, moves k (db_jobs db) (db_jobs (claim_oldest_pending exports now db).1).
Proof.
  destruct (claim_oldest_pending exports now db) as [db' [k|]] eqn:Hc; cbn.
  - destruct (claim_spec _ _ _ _ _ Hc) as (j & j' & Hj & Hp & _ & -> & Hst & Hk & Hrq & _). exists k. right.
    exists j, j'. split_and!; [done|done|]. split; [done|]. by right; right; right.
  - destruct (claim_none _ _ _ _ Hc) as [-> _]. exists 0. by left.
Qed.

Lemma cancel_untracked_moves k user now db :
  moves k (db_jobs db) (db_jobs (cancel_untracked_sync k user now db).1).
Proof.
  unfold cancel_untracked_sync. destruct (db_jobs db !! k) as [i|]; [|by left].
  destruct (rj_status i); [| |by left..].
  - destruct (flip_moves k pending None now db) as [Hk _]. by destruct (flip_if_sync k pending None now db).
  - destruct (flip_moves k encoding (if user then None else Some ORPHAN_REASON) now db) as [Hk _].
    rewrite <-fail_one in Hk. by destruct (fail_orphans_sync [k] _ now db).
Qed.

Lemma step_rows max_renders max_exports q q' id j' :
  step max_renders max_exports q q' → db_jobs (q_db q') !! id = Some j' →
  is_Some (db_jobs (q_db q) !! id) ∨ db_next (q_db q) ≤ id.
Proof.
  intros Hs. destruct Hs; cbn; try (by left; eexists).
  - destruct (decide (db_next (q_db q) = id)) as [->|Hne]; [by right|]. rewrite lookup_insert_ne by done. by left; eexists.
  - intros [_ Hj]%lookup_delete_Some. by left; eexists.
  - destruct (claim_none _ _ _ _ H0) as [-> _]. by left; eexists.
  - destruct (claim_moves exports now (q_db q)) as [k Hk]. rewrite H0 in Hk. left. by eapply moves_dom.
  - destruct (flip_moves id0 encoding (Some ORPHAN_REASON) now (q_db q)) as [Hk _]. rewrite <-fail_one in Hk.
    left. by eapply moves_dom.
  - destruct (record_moves w id0 now (q_db q)) as [Hk _]. intros Hj. left. eapply moves_dom; [done|].
    by destruct (after_settle _ t) in Hj.
  - destruct reported; by left; eexists.
  - destruct (after_settle _ t); by left; eexists.
  - left. eapply moves_dom; [apply cancel_untracked_moves|done].
  - destruct (backfill_moves id0 media (q_db q)) as [Hk _]. left. by eapply moves_dom.
  - unfold stop_queue. cbn. destruct (q_launching q) as [[e c]|]; by left; eexists.
  - destruct (claim_moves exports now (q_db q)) as [k Hk]. left. by eapply moves_dom.
Qed.

(** Once the worker is stopping, every task has its cancellation. *)
Definition cancelled_pc (t : Task) : bool :=
  match tk_pc t with Dead | Settling _ true _ | Settling _ false true => true | _ => false end.
Definition stop_inv (q : Queue) : Prop :=
  q_stopped q = true → q_launching q = None ∧ ∀ id t, q_tasks q !! id = Some t → cancelled_pc t = true.

Lemma deliver_cancelled handler t : cancelled_pc (deliver_cancel handler t) = true.
Proof. destruct t as [e pc]. unfold deliver_cancel, cancelled_pc. cbn. by destruct pc as [| | | | |? []|]. Qed.

Lemma stop_inv_task q id t' :
  stop_inv q → (q_stopped q = true → cancelled_pc t' = true) → stop_inv (with_task q id t').
Proof.
  intros Hi Ht Hs. destruct (Hi Hs) as [Hl Hall]. split; [done|]. intros k t. cbn.
  destruct (decide (id = k)) as [->|Hne]; [rewrite lookup_insert_eq; intros [= <-]; auto|].
  rewrite lookup_insert_ne by done. apply Hall.
Qed.

Lemma stop_inv_finish q id t : stop_inv q → stop_inv (finish_job id t q).
Proof.
  intros Hi Hs. destruct (Hi Hs) as [Hl Hall]. split; [done|]. intros k tk. cbn.
  intros [_ Hk]%lookup_delete_Some. by eapply Hall.
Qed.

Lemma stop_inv_resume q id t handler w in_handler held :
  stop_inv q → q_tasks q !! id = Some t → tk_pc t = Settling w in_handler held →
  stop_inv (resume id t (after_settle handler t) q).
Proof.
  intros Hi Ht Hpc. unfold after_settle. rewrite Hpc. destruct in_handler; [by apply stop_inv_finish|].
  destruct held; [by apply stop_inv_task|].
  assert (q_stopped q = false) as Hns.
  { destruct (q_stopped q) eqn:Hs; [|done]. destruct (Hi Hs) as [_ Hall]. pose proof (Hall _ _ Ht) as Hc.
    unfold cancelled_pc in Hc. by rewrite Hpc in Hc. }
  destruct w as [res media| | |]; try by apply stop_inv_finish.
  destruct (rr_success res); [|by apply stop_inv_finish]. apply stop_inv_task; [done|congruence].
Qed.

Lemma stop_inv_step max_renders max_exports q q' :
  stop_inv q → step max_renders max_exports q q' → stop_inv q'.
Proof.
  intros Hi Hs.
  assert (∀ id t, q_tasks q !! id = Some t → cancelled_pc t = false → q_stopped q = false) as Hlive.
  { intros id t Ht Hc. destruct (q_stopped q) eqn:Hst; [|done]. destruct (Hi Hst) as [_ Hall].
    rewrite (Hall id t Ht) in Hc. done. }
  destruct Hs; try (exact Hi).
  1: intros Hst; cbn in Hst; congruence.
  1-4: intros Hst; cbn in Hst; destruct (Hi Hst); congruence.
  1-6: apply stop_inv_task; [done|]; rewrite (Hlive id t); [done|done|]; unfold cancelled_pc.
  1-5: by rewrite H0.
  1: by destruct (tk_pc t).
  - by eapply (stop_inv_resume (with_db q (record w id now (q_db q)))).
  - by destruct reported.
  - by eapply stop_inv_resume.
  - by apply stop_inv_finish.
  - apply stop_inv_task; [done|]. intros _. apply deliver_cancelled.
  - intros _. unfold stop_queue. cbn. split; [by destruct (q_launching q) as [[e c]|]|].
    intros id t. change (q_tasks (stop_queue graces q) !! id = Some t → cancelled_pc t = true).
    rewrite lookup_stopped. intros (t0 & _ & ->)%fmap_Some. apply deliver_cancelled.
  - done.
Qed.

(** A task reaches its post-render actions only by recording its result. *)
Lemma step_post max_renders max_exports q q' id t' :
  stop_inv q → step max_renders max_exports q q' → q_tasks q' !! id = Some t' → tk_pc t' = PostActing →
  (∃ t, q_tasks q !! id = Some t ∧ tk_pc t = PostActing) ∨ row_in [done; failed] id (db_jobs (q_db q')).
Proof.
  intros Hi Hs. destruct Hs; cbn; try (by intros; left; eauto).
  all: try (destruct (decide (id0 = id)) as [->|Hne];
    [rewrite lookup_insert_eq; intros [= <-] Hpc|rewrite lookup_insert_ne by done; by intros; left; eauto]); try done.
  - destruct (after_settle _ t) as [pc|] eqn:Ha; cbn.
    + destruct (decide (id0 = id)) as [->|Hne]; [|rewrite lookup_insert_ne by done; by intros; left; eauto].
      rewrite lookup_insert_eq. intros [= <-] Hpc. cbn in Hpc. right. unfold after_settle in Ha. rewrite H0 in Ha.
      destruct in_handler; [done|]. destruct held_back; [by simplify_eq|].
      destruct w as [res media| | |]; try done. apply (record_row (RecordResult res media)).
    + intros [_ Hk]%lookup_delete_Some. by intros; left; eauto.
  - destruct reported; by intros; left; eauto.
  - destruct (after_settle _ t) as [pc|] eqn:Ha; cbn.
    + destruct (decide (id0 = id)) as [->|Hne]; [|rewrite lookup_insert_ne by done; by intros; left; eauto].
      rewrite lookup_insert_eq. intros [= <-] Hpc. cbn in Hpc. destruct (Hi H1) as [_ Hall]. pose proof (Hall _ _ H) as Hc.
      unfold cancelled_pc in Hc. unfold after_settle in Ha. rewrite H0 in Ha, Hc.
      destruct in_handler; [done|]. destruct held_back; by simplify_eq/=.
    + intros [_ Hk]%lookup_delete_Some. by intros; left; eauto.
  - intros [_ Hk]%lookup_delete_Some. by intros; left; eauto.
  - exfalso. unfold deliver_cancel in Hpc. by destruct (tk_pc t).
  - rewrite lookup_stopped. intros (t & Ht & ->)%fmap_Some Hpc. exfalso. unfold deliver_cancel in Hpc.
    by destruct (tk_pc t).
Qed.

(** Post-render actions run on settled rows. *)
Definition post_inv (q : Queue) : Prop :=
  ∀ id t j, q_tasks q !! id = Some t → tk_pc t = PostActing → db_jobs (q_db q) !! id = Some j →
  terminal (rj_status j) = true.

Lemma post_inv_step max_renders max_exports q q' :
  inv max_renders max_exports q → stop_inv q → post_inv q → step max_renders max_exports q q' → post_inv q'.
Proof.
  intros Hinv Hst Hpost Hs id t' j' Ht' Hpc Hj'.
  destruct (step_post _ _ _ _ _ _ Hst Hs Ht' Hpc) as [(t & Ht & Hpc0)|Hrow].
  - destruct (step_rows _ _ _ _ _ _ Hs Hj') as [[j Hj]|Hge].
    + pose proof (Hpost id t j Ht Hpc0 Hj) as Hterm.
      destruct (step_keeps _ _ _ _ id Hinv Hs j Hj Hterm) as [Hn|(i & Hi & Heq)]; [congruence|].
      simplify_eq. by rewrite Heq.
    + pose proof (inv_ids _ _ _ Hinv id (or_introl (mk_is_Some _ _ Ht))). lia.
  - pose proof (Hrow j' Hj') as Hin. by destruct (rj_status j'); try done; apply (bool_decide_pack _) in Hin.
Qed.

Lemma reachable_inv max_renders max_exports db q :
  0 ≤ max_renders → 0 ≤ max_exports → db_ok db → reachable max_renders max_exports db q →
  inv max_renders max_exports q ∧ stop_inv q ∧ post_inv q.
Proof.
  intros Hr He Hdb. apply (rtc_ind_r (λ q, inv max_renders max_exports q ∧ stop_inv q ∧ post_inv q)).
  - split; [by apply inv_boot|]. split; [done|]. intros id t j Ht. cbn in Ht. by rewrite lookup_empty in Ht.
  - intros q1 q2 _ Hs (H1 & H2 & H3). split_and!; [by eapply inv_step|by eapply stop_inv_step|by eapply post_inv_step].
Qed.

(** A task leaves [_job_tasks] only when its row has left [encoding]. *)
Lemma step_frees max_renders max_exports q q' id t j :
  stop_inv q → post_inv q → step max_renders max_exports q q' → q' ≠ restart max_renders max_exports q →
  q_stopped q = false → q_tasks q !! id = Some t → q_tasks q' !! id = None →
  db_jobs (q_db q') !! id = Some j → rj_status j ≠ encoding.
Proof.
  intros Hst Hpost Hs Hnr Hns Ht. destruct Hs; cbn; try congruence.
  all: try (destruct (decide (id0 = id)) as [->|Hne];
    [by rewrite lookup_insert_eq|by rewrite lookup_insert_ne, Ht by done]).
  - destruct (after_settle _ t0) as [pc|] eqn:Ha; cbn.
    + destruct (decide (id0 = id)) as [->|Hne];
        [by rewrite lookup_insert_eq|by rewrite lookup_insert_ne, Ht by done].
    + intros [->|Hn]%lookup_delete_None; [|congruence]. intros Hj Henc. pose proof (record_row w id now (q_db q)) as Hrow.
      assert (rj_status j ∈ [pending; done; failed]) as Hin.
      { destruct w; pose proof (Hrow j Hj) as Hin; try done; apply elem_of_cons; by right. }
      rewrite Henc in Hin. by apply (bool_decide_pack _) in Hin.
  - destruct reported; cbn; congruence.
  - intros [->|Hn]%lookup_delete_None; [|congruence]. intros Hj Henc.
    pose proof (Hpost id t0 j H H0 Hj) as Hterm. by rewrite Henc in Hterm.
  - change (q_tasks (stop_queue graces q) !! id = None → db_jobs (q_db (stop_queue graces q)) !! id = Some j →
      rj_status j ≠ encoding). by rewrite lookup_stopped, Ht.
Qed.

(** ** The drain cycle *)
Lemma fail_orphans_lookup ids reason now db id :
  id ∉ ids → db_jobs (fail_orphans_sync ids reason now db).1 !! id = db_jobs db !! id.
Proof.
  revert db. induction ids as [|k ids IH]; intros db Hn; [done|]. apply not_elem_of_cons in Hn as [Hne Hn]. cbn.
  destruct (flip_moves k encoding reason now db) as [Hm _].
  destruct (flip_if_sync k encoding reason now db) as [db1 changed]. cbn [fst] in Hm.
  pose proof (IH db1 Hn) as Hih. destruct (fail_orphans_sync ids reason now db1) as [db2 rec]. cbn in *.
  rewrite Hih. destruct Hm as [->|(j & j' & _ & -> & _)]; [done|]. by rewrite lookup_insert_ne.
Qed.

Lemma fail_orphans_not_encoding ids reason now db id j :
  id ∈ ids → db_jobs (fail_orphans_sync ids reason now db).1 !! id = Some j → rj_status j ≠ encoding.
Proof.
  revert db. induction ids as [|k ids IH]; intros db Hin; [by apply elem_of_nil in Hin|]. cbn.
  pose proof (flip_row k encoding reason now db ltac:(done)) as Hrow.
  destruct (flip_if_sync k encoding reason now db) as [db1 changed]. cbn [fst] in Hrow.
  pose proof (IH db1) as Hih. pose proof (fail_orphans_lookup ids reason now db1 id) as Hl.
  destruct (fail_orphans_sync ids reason now db1) as [db2 rec]. cbn in *.
  destruct (decide (id ∈ ids)) as [Hi|Hi]; [by apply Hih|]. rewrite (Hl Hi).
  apply elem_of_cons in Hin as [->|?]; [apply Hrow|done].
Qed.

Lemma elem_of_orphans q id :
  id ∈ orphan_ids q ↔ q_tasks q !! id = None ∧ ∃ j, db_jobs (q_db q) !! id = Some j ∧ rj_status j = encoding.
Proof.
  unfold orphan_ids, encoding_rows_sync, rows_with. rewrite list_elem_of_filter. apply and_iff_compat_l.
  rewrite list_elem_of_fmap. split.
  - intros ([k o] & -> & ([i j] & [= -> ->] & [Hst Hin]%list_elem_of_filter)%list_elem_of_fmap).
    apply elem_of_map_to_list in Hin. by exists j.
  - intros (j & Hj & Hst). exists (id, rj_started_at j). split; [done|]. apply list_elem_of_fmap.
    exists (id, j). split; [done|]. apply list_elem_of_filter. split; [done|]. by apply elem_of_map_to_list.
Qed.

(** No row is [encoding] without a task. *)
Definition no_orphan (q : Queue) : Prop :=
  ∀ id j, db_jobs (q_db q) !! id = Some j → rj_status j = encoding → is_Some (q_tasks q !! id).

Lemma sweep_no_orphan q now :
  no_orphan (with_db q (fail_orphans_sync (orphan_ids q) (Some ORPHAN_REASON) now (q_db q)).1).
Proof.
  intros id j Hj Hst. cbn in *. destruct (decide (id ∈ orphan_ids q)) as [Hin|Hn].
  - by destruct (fail_orphans_not_encoding _ _ _ _ _ _ Hin Hj).
  - rewrite fail_orphans_lookup in Hj by done. destruct (q_tasks q !! id) as [t|] eqn:Ht; [by eexists|].
    destruct Hn. apply elem_of_orphans. split; [done|]. by exists j.
Qed.

(** One turn of [_launch_for]. *)
Definition launched (exports : bool) (db : Db) (id : Z) (q : Queue) : Queue :=
  register_task id exports (with_db (add_slots exports (-1) q) db).

Lemma launched_no_orphan exports now q db id :
  claim_oldest_pending exports now (q_db q) = (db, Some id) → no_orphan q → no_orphan (launched exports db id q).
Proof.
  intros Hc Hno k j. destruct (claim_spec _ _ _ _ _ Hc) as (i & i' & _ & _ & _ & Heq & _). cbn. rewrite Heq.
  destruct (decide (id = k)) as [->|Hne]; [intros _ _; rewrite lookup_insert_eq; by eexists|].
  rewrite !lookup_insert_ne by done. apply Hno.
Qed.

Lemma launch_for_spec fuel exports now q :
  (Z.to_nat (free_slots exports q) ≤ fuel)%nat → 0 ≤ free_slots exports q → no_orphan q →
  let q' := launch_for fuel exports now q in
  no_orphan q' ∧ 0 ≤ free_slots exports q' ∧
  (free_slots exports q' = 0 ∨ oldest_pending exports (db_jobs (q_db q')) = None) ∧
  free_slots (negb exports) q' = free_slots (negb exports) q ∧
  (oldest_pending (negb exports) (db_jobs (q_db q)) = None →
   oldest_pending (negb exports) (db_jobs (q_db q')) = None).
Proof.
  revert q. induction fuel as [|fuel IH]; intros q Hfuel Hfree Hno; cbn [launch_for].
  { split_and!; try done. left. lia. }
  case_cmp; [split_and!; try done; left; lia|].
  destruct (claim_oldest_pending exports now (q_db q)) as [db [id|]] eqn:Hc.
  - change (register_task id exports (with_db (add_slots exports (-1) q) db)) with (launched exports db id q).
    assert (free_slots exports (launched exports db id q) = free_slots exports q - 1) as Hf.
    { unfold free_slots. cbn. destruct exports; lia. }
    destruct (IH (launched exports db id q)) as (H1 & H2 & H3 & H4 & H5);
      [lia|lia|by eapply launched_no_orphan|].
    split_and!; [done|done|done| |].
    + rewrite H4. unfold free_slots. cbn. by destruct exports.
    + intros Hn. apply H5. destruct (claim_spec _ _ _ _ _ Hc) as (j & j' & Hj & Hp & He & Heq & Hst & Hk & _).
      cbn. rewrite Heq. apply oldest_pending_none. intros k i.
      destruct (decide (id = k)) as [->|Hne].
      * rewrite lookup_insert_eq. intros [= <-]. unfold claimable. by rewrite Hst.
      * rewrite lookup_insert_ne by done. by apply oldest_pending_none.
  - destruct (claim_none _ _ _ _ Hc) as [-> Hn]. rewrite with_db_same. split_and!; try done. by right.
Qed.

Lemma drain_cycle_spec max_renders max_exports now q :
  inv max_renders max_exports q →
  no_orphan (drain_cycle now q) ∧
  ∀ e, free_slots e (drain_cycle now q) = 0 ∨ oldest_pending e (db_jobs (q_db (drain_cycle now q))) = None.
Proof.
  intros Hinv. unfold drain_cycle, launch_all. set (q1 := with_db q _).
  assert (∀ e, 0 ≤ free_slots e q1) as Hf1 by apply (inv_free _ _ _ Hinv).
  destruct (launch_for_spec (Z.to_nat (free_slots false q1)) false now q1) as (H1 & H2 & H3 & H4 & _);
    [done|done|apply sweep_no_orphan|].
  set (q2 := launch_for (Z.to_nat (free_slots false q1)) false now q1) in *. cbn [negb] in *.
  destruct (launch_for_spec (Z.to_nat (free_slots true q2)) true now q2) as (G1 & G2 & G3 & G4 & G5);
    [done|by rewrite H4|done|].
  split; [done|]. intros []; [done|]. cbn [negb] in *. destruct H3 as [H3|H3]; [left; congruence|right; by apply G5].
Qed.

(** ** The cycle is made of steps *)
Lemma set_sweep_same q : q_sweep q = [] → set_sweep q [] = q.
Proof. destruct q. cbn. by intros ->. Qed.

Lemma sweep_steps max_renders max_exports ids now q :
  rtc (step max_renders max_exports) (set_sweep q ids)
    (set_sweep (with_db q (fail_orphans_sync ids (Some ORPHAN_REASON) now (q_db q)).1) []).
Proof.
  revert q. induction ids as [|id ids IH]; intros q.
  - cbn. by rewrite with_db_same.
  - eapply rtc_l; [by apply (step_sweep_flip _ _ (set_sweep q (id :: ids)) id ids now)|]. rewrite fail_one.
    specialize (IH (with_db q (flip_if_sync id encoding (Some ORPHAN_REASON) now (q_db q)).1)). cbn in IH |- *.
    destruct (flip_if_sync id encoding (Some ORPHAN_REASON) now (q_db q)) as [db1 ch]. cbn in IH |- *.
    destruct (fail_orphans_sync ids (Some ORPHAN_REASON) now db1) as [db2 rec]. done.
Qed.

Lemma launch_steps max_renders max_exports fuel exports now q :
  q_stopped q = false → q_launching q = None → q_sweep q = [] →
  rtc (step max_renders max_exports) q (launch_for fuel exports now q) ∧
  q_stopped (launch_for fuel exports now q) = false ∧ q_launching (launch_for fuel exports now q) = None ∧
  q_sweep (launch_for fuel exports now q) = [].
Proof.
  revert q. induction fuel as [|fuel IH]; intros q Hst Hln Hsw; cbn [launch_for]; [by split_and!|].
  case_cmp; [by split_and!|].
  destruct (claim_oldest_pending exports now (q_db q)) as [db [id|]] eqn:Hc.
  - destruct (IH (register_task id exports (with_db (add_slots exports (-1) q) db))) as (H1 & H2); [done..|].
    split; [|done]. eapply rtc_l; [by apply (step_launch _ _ q exports)|].
    eapply rtc_l; [by eapply (step_claim _ _ _ exports now db id)|].
    eapply rtc_l; [by apply (step_register _ _ _ exports id)|]. done.
  - destruct (claim_none _ _ _ _ Hc) as [-> Hn]. split_and!; try done.
    eapply rtc_l; [by apply (step_launch _ _ q exports)|].
    eapply rtc_l; [by eapply (step_claim_none _ _ _ exports now (q_db q))|].
    assert (∀ x y, x = y → rtc (step max_renders max_exports) x y) as Hrefl by (by intros x y ->).
    apply Hrefl. destruct q. cbn in *. rewrite Hln. destruct exports; unfold add_slots, set_launching, with_db; cbn; f_equal; lia.
Qed.

(** ** A task cancelled before its first turn *)
Lemma dead_task_stays max_renders max_exports q q' id t :
  inv max_renders max_exports q → step max_renders max_exports q q' → q' ≠ restart max_renders max_exports q →
  q_tasks q !! id = Some t → tk_pc t = Dead → q_tasks q' !! id = Some t.
Proof.
  intros Hinv Hs Hnr Ht Hd.
  assert (∀ id0 t0, q_tasks q !! id0 = Some t0 → tk_pc t0 ≠ Dead → id0 ≠ id) as Hother by naive_solver congruence.
  destruct Hs; cbn; try done.
  - rewrite lookup_insert_ne; [done|]. destruct (inv_launch _ _ _ Hinv exports id0 H). congruence.
  - rewrite lookup_insert_ne; [done|]. eapply Hother; [done|congruence].
  - rewrite lookup_insert_ne; [done|]. eapply Hother; [done|congruence].
  - rewrite lookup_insert_ne; [done|]. eapply Hother; [done|congruence].
  - rewrite lookup_insert_ne; [done|]. eapply Hother; [done|congruence].
  - rewrite lookup_insert_ne; [done|]. eapply Hother; [done|congruence].
  - rewrite lookup_insert_ne; [done|]. eapply Hother; [done|]. intros He. by rewrite He in H0.
  - assert (id0 ≠ id) as Hne by (eapply Hother; [done|congruence]).
    destruct (after_settle _ t0); cbn; [by rewrite lookup_insert_ne|by rewrite lookup_delete_ne].
  - by destruct reported.
  - assert (id0 ≠ id) as Hne by (eapply Hother; [done|congruence]).
    destruct (after_settle _ t0); cbn; [by rewrite lookup_insert_ne|by rewrite lookup_delete_ne].
  - rewrite lookup_delete_ne; [done|]. eapply Hother; [done|congruence].
  - destruct (decide (id0 = id)) as [->|Hne]; [|by rewrite lookup_insert_ne].
    rewrite lookup_insert_eq. assert (t0 = t) as -> by congruence. unfold deliver_cancel. rewrite Hd.
    destruct t. cbn in *. by rewrite Hd.
  - change (q_tasks (stop_queue graces q) !! id = Some t). rewrite lookup_stopped, Ht. cbn. f_equal.
    unfold deliver_cancel. rewrite Hd. destruct t. cbn in *. by rewrite Hd.
Qed.

Lemma full_slots max_renders max_exports q id t :
  inv max_renders max_exports q → q_tasks q !! id = Some t → slots max_renders max_exports (tk_export t) = 1 →
  free_slots (tk_export t) q = 0 ∧ launch_slot (tk_export t) q = 0 ∧
  ∀ k t', q_tasks q !! k = Some t' → tk_export t' = tk_export t → k = id.
Proof.
  intros Hinv Ht H1. pose proof (inv_slots _ _ _ Hinv (tk_export t)) as Hs. pose proof (inv_free _ _ _ Hinv (tk_export t)).
  assert (id ∈ holders (tk_export t) (q_tasks q)) as Hin by (apply elem_of_holders; by exists t).
  assert (0 ≤ launch_slot (tk_export t) q) by (unfold launch_slot; repeat case_match; lia).
  assert (size (holders (tk_export t) (q_tasks q)) ≠ 0%nat) as Hne.
  { rewrite size_non_empty_iff. set_solver. }
  split_and!; [lia|lia|]. intros k t' Hk He.
  assert (size (holders (tk_export t) (q_tasks q)) = 1%nat) as Hone by lia.
  apply (size_singleton_inv _ _ _ Hone); [|done]. apply elem_of_holders. by exists t'.
Qed.

(** ** The properties *)

(** C8: the two sets of slots are never overdrawn: however requests, cancels, stops,
    crashes and restarts interleave, at most [max_renders] renders and [max_exports]
    exports have a task, and a task whose job's row exists holds a slot of its own
    family. *)
Theorem render_slots_never_overdrawn max_renders max_exports db q :
  0 ≤ max_renders → 0 ≤ max_exports → db_ok db → reachable max_renders max_exports db q →
  Z.of_nat (size (holders false (q_tasks q))) ≤ max_renders ∧
  Z.of_nat (size (holders true (q_tasks q))) ≤ max_exports ∧
  ∀ id t j, q_tasks q !! id = Some t → db_jobs (q_db q) !! id = Some j → is_export j = tk_export t.
Proof.
  intros Hr He Hdb Hreach. pose proof (inv_reachable _ _ _ _ Hr He Hdb Hreach) as Hinv.
  assert (∀ e, 0 ≤ launch_slot e q) as Hl by (intros e; unfold launch_slot; repeat case_match; lia).
  pose proof (inv_slots _ _ _ Hinv) as Hs. pose proof (inv_free _ _ _ Hinv) as Hf.
  pose proof (Hs false). pose proof (Hf false). pose proof (Hl false).
  pose proof (Hs true). pose proof (Hf true). pose proof (Hl true). unfold slots in *. split_and!; [lia|lia|].
  intros id t j Ht Hj. destruct (inv_tasks _ _ _ Hinv id t Ht) as [_ Hrow]. by destruct (Hrow j Hj).
Qed.

(** A job is run at most twice, and a second time only after a clean stop requeued it:
    the tasks ever created for a job are at most one more than the requeues its row
    records, and at most two also for a row since deleted. *)
Theorem job_runs_at_most_twice max_renders max_exports db q id :
  0 ≤ max_renders → 0 ≤ max_exports → db_ok db → reachable max_renders max_exports db q →
  runs_of id q ≤ 2 ∧ ∀ j, db_jobs (q_db q) !! id = Some j → runs_of id q ≤ 1 + rj_requeues j.
Proof.
  intros Hr He Hdb Hreach. pose proof (inv_reachable _ _ _ _ Hr He Hdb Hreach) as Hinv.
  assert (0 ≤ in_flight id q) by (unfold in_flight; repeat case_match; lia).
  pose proof (inv_runs _ _ _ Hinv id). unfold MAX_SHUTDOWN_REQUEUES in *. split; [lia|].
  intros j Hj. destruct (inv_rows _ _ _ Hinv id j Hj) as (_ & _ & Hb). unfold budget in Hb. case_decide; lia.
Qed.

(** C18: A settled job is final: once its row is [done] or [failed], no step of the worker, of
    a request, of a stop or of a restart changes that status (the row can only be
    deleted); a failed render is never turned into a finished one by a late result. *)
Theorem settled_job_is_final max_renders max_exports db q q' id j :
  0 ≤ max_renders → 0 ≤ max_exports → db_ok db → reachable max_renders max_exports db q →
  step max_renders max_exports q q' →
  db_jobs (q_db q) !! id = Some j → terminal (rj_status j) = true →
  db_jobs (q_db q') !! id = None ∨ ∃ j', db_jobs (q_db q') !! id = Some j' ∧ rj_status j' = rj_status j.
Proof.
  intros Hr He Hdb Hreach Hs. pose proof (inv_reachable _ _ _ _ Hr He Hdb Hreach) as Hinv.
  by apply (step_keeps max_renders max_exports).
Qed.

(** A slot is held until the job is settled: while the worker is not stopping, a task
    leaves the worker only when its row has left [encoding] (or was deleted), so the
    worker does not lose track of a row it claimed. *)
Theorem slot_held_until_settled max_renders max_exports db q q' id t j :
  0 ≤ max_renders → 0 ≤ max_exports → db_ok db → reachable max_renders max_exports db q →
  step max_renders max_exports q q' → q' ≠ restart max_renders max_exports q → q_stopped q = false →
  q_tasks q !! id = Some t → q_tasks q' !! id = None →
  db_jobs (q_db q') !! id = Some j → rj_status j ≠ encoding.
Proof.
  intros Hr He Hdb Hreach. destruct (reachable_inv _ _ _ _ Hr He Hdb Hreach) as (_ & Hst & Hpost).
  by apply step_frees.
Qed.

(** C39: a drain cycle that is not disturbed does all there is to do: it ends, it is a
    sequence of steps of the worker, it leaves no row [encoding] without a task, and for
    each family it leaves no free slot or no pending job. *)
Theorem drain_cycle_leaves_nothing_behind max_renders max_exports db q now :
  0 ≤ max_renders → 0 ≤ max_exports → db_ok db → reachable max_renders max_exports db q →
  q_stopped q = false → q_launching q = None → q_sweep q = [] →
  rtc (step max_renders max_exports) q (drain_cycle now q) ∧ no_orphan (drain_cycle now q) ∧
  ∀ e, free_slots e (drain_cycle now q) = 0 ∨ oldest_pending e (db_jobs (q_db (drain_cycle now q))) = None.
Proof.
  intros Hr He Hdb Hreach Hst Hln Hsw. pose proof (inv_reachable _ _ _ _ Hr He Hdb Hreach) as Hinv.
  split; [|by eapply drain_cycle_spec]. unfold drain_cycle, launch_all. set (q1 := with_db q _).
  assert (rtc (step max_renders max_exports) q q1) as H1.
  { eapply rtc_l; [by apply step_sweep|]. rewrite <-(set_sweep_same q1); [|done]. apply sweep_steps. }
  destruct (launch_steps max_renders max_exports (Z.to_nat (free_slots false q1)) false now q1)
    as (H2 & Hst2 & Hln2 & Hsw2); [done..|].
  destruct (launch_steps max_renders max_exports
    (Z.to_nat (free_slots true (launch_for (Z.to_nat (free_slots false q1)) false now q1))) true now _ Hst2 Hln2 Hsw2)
    as (H3 & _).
  by etransitivity; [|etransitivity].
Qed.

(** A cancel can wedge the worker: when it reaches a task that has been created and
    has not had its first turn, the task ends without running its [finally] clause; with
    one slot, that slot is never free again and no other job of the family gets a task
    until the process is restarted. *)
Theorem cancel_before_start_wedges max_exports db q id t :
  0 ≤ max_exports → db_ok db → reachable 1 max_exports db q →
  q_tasks q !! id = Some t → tk_pc t = Created → tk_export t = false →
  ∃ q1, step 1 max_exports q q1 ∧
    ∀ q2, rtc (λ x y, step 1 max_exports x y ∧ y ≠ restart 1 max_exports x) q1 q2 →
      free_slots false q2 = 0 ∧ q_tasks q2 !! id = Some (MkTask false Dead) ∧
      ∀ k t', q_tasks q2 !! k = Some t' → tk_export t' = false → k = id.
Proof.
  intros He Hdb Hreach Ht Hpc Hex. pose proof (inv_reachable _ _ _ _ Z.le_0_1 He Hdb Hreach) as Hinv.
  eexists. split; [exact (step_cancel _ _ q id t true false Ht)|].
  unfold cancel_task. set (q1 := with_task _ _ _).
  assert (q_tasks q1 !! id = Some (MkTask false Dead)) as Hd1.
  { unfold q1. cbn. rewrite lookup_insert_eq. unfold deliver_cancel. by rewrite Hpc, Hex. }
  assert (inv 1 max_exports q1) as Hinv1 by (by eapply inv_step; [..|apply (step_cancel _ _ q id t true false Ht)]).
  intros q2 Hr. assert (inv 1 max_exports q2 ∧ q_tasks q2 !! id = Some (MkTask false Dead)) as [Hinv2 Hd2].
  { revert Hr. apply (rtc_ind_r (λ q2, inv 1 max_exports q2 ∧ q_tasks q2 !! id = Some (MkTask false Dead))); [done|].
    intros x y _ [Hs Hne] [Hix Hdx]. split; [by eapply inv_step|]. by eapply dead_task_stays. }
  destruct (full_slots _ _ _ _ _ Hinv2 Hd2 eq_refl) as (H1 & _ & H3). split_and!; [done|done|]. exact H3.
Qed.

(** ** Two runs of the worker

    One pending render on an empty database, and its way to a running task. *)
Definition demo_db : Db := enqueue (MkDb ∅ 1 []) 7 manual.
Definition demo_claimed : Db := (claim_oldest_pending false 5 demo_db).1.
Definition demo_created : Queue :=
  register_task 1 false (with_db (add_slots false (-1) (boot 1 1 demo_db)) demo_claimed).

Lemma demo_db_ok : db_ok demo_db.
Proof.
  intros id j. unfold demo_db, enqueue. cbn. rewrite lookup_insert_Some. intros [[<- <-]|[_ Hn]].
  - cbn. unfold MAX_SHUTDOWN_REQUEUES. lia.
  - by rewrite lookup_empty in Hn.
Qed.

Lemma demo_created_reachable : reachable 1 1 demo_db demo_created.
Proof.
  unfold reachable.
  eapply rtc_l; [apply (step_launch 1 1 _ false); vm_compute; reflexivity|].
  eapply rtc_l; [apply (step_claim 1 1 _ false 5 demo_claimed 1); vm_compute; reflexivity|].
  eapply rtc_l; [apply (step_register 1 1 _ false 1); vm_compute; reflexivity|]. apply rtc_refl.
Qed.

Definition boom : RenderResult := MkResult false None false (Some "boom").

(** The encoder reports a failure, and a cancel arrives while that is being recorded: the
    cancellation is held back, and its handler records the failure again. *)
Lemma failed_render_reported_twice :
  ∃ q, reachable 1 1 demo_db q ∧
    db_events (q_db q) = [render_failed 1 "boom"; render_failed 1 "render cancelled"].
Proof.
  eexists. split.
  { unfold reachable; etransitivity; [exact demo_created_reachable|].
    eapply rtc_l; [eapply (step_start 1 1 _ 1); vm_compute; reflexivity|].
    eapply rtc_l; [eapply (step_prepared 1 1 _ 1); vm_compute; reflexivity|].
    eapply rtc_l; [eapply (step_result 1 1 _ 1 _ boom); vm_compute; reflexivity|].
    eapply rtc_l; [eapply (step_probed 1 1 _ 1 _ boom None); vm_compute; reflexivity|].
    eapply rtc_l; [eapply (step_cancel 1 1 _ 1 _ false false); vm_compute; reflexivity|].
    eapply rtc_l; [eapply (step_settled 1 1 _ 1 _ (RecordResult boom None) false true false 6); vm_compute; reflexivity|].
    eapply rtc_l; [eapply (step_settled 1 1 _ 1 _ (MarkFailed "render cancelled") true false false 7); vm_compute; reflexivity|].
    apply rtc_refl. }
  vm_compute. reflexivity.
Qed.

(** A cycle whose claim raises (a locked database) parks as idle with a job pending. *)
Lemma idle_with_pending_job :
  ∃ q, reachable 1 1 demo_db q ∧ q_idle q = true ∧ oldest_pending false (db_jobs (q_db q)) = Some 1.
Proof.
  eexists. split.
  { unfold reachable. eapply rtc_l; [apply (step_launch 1 1 _ false); vm_compute; reflexivity|].
    eapply rtc_l; [apply (step_claim_error 1 1 _ false); vm_compute; reflexivity|].
    eapply rtc_l; [apply (step_park 1 1); vm_compute; reflexivity|]. apply rtc_refl. }
  split; vm_compute; reflexivity.
Qed.

Lemma render_slots_never_overdrawn_witness :
  Z.of_nat (size (holders false (q_tasks demo_created))) ≤ 1 ∧
  Z.of_nat (size (holders true (q_tasks demo_created))) ≤ 1 ∧
  ∀ id t j, q_tasks demo_created !! id = Some t → db_jobs (q_db demo_created) !! id = Some j →
            is_export j = tk_export t.
Proof. apply (render_slots_never_overdrawn 1 1 demo_db); [lia|lia|exact demo_db_ok|exact demo_created_reachable]. Defined.

Lemma job_runs_at_most_twice_witness :
  runs_of 1 demo_created ≤ 2 ∧
  ∀ j, db_jobs (q_db demo_created) !! 1 = Some j → runs_of 1 demo_created ≤ 1 + rj_requeues j.
Proof. apply (job_runs_at_most_twice 1 1 demo_db); [lia|lia|exact demo_db_ok|exact demo_created_reachable]. Defined.

(** A failed job, and a stop. *)
Definition demo_failed : Queue :=
  finish_job 1 (MkTask false (Settling (MarkFailed "no frames") true false))
    (with_db demo_created (mark_failed_sync 1 "no frames" 6 (q_db demo_created))).

Lemma demo_failed_reachable : reachable 1 1 demo_db demo_failed.
Proof.
  unfold reachable; etransitivity; [exact demo_created_reachable|].
  eapply rtc_l; [eapply (step_start 1 1 _ 1); vm_compute; reflexivity|].
  eapply rtc_l; [eapply (step_raise 1 1 _ 1 _ "no frames"); vm_compute; done|].
  eapply rtc_l; [eapply (step_settled 1 1 _ 1 _ (MarkFailed "no frames") true false false 6); vm_compute; reflexivity|].
  match goal with |- rtc _ ?x ?y => replace x with y; [apply rtc_refl|vm_compute; reflexivity] end.
Qed.

Definition failed_job : RenderJob :=
  MkJob 7 manual failed None (Some 5) (Some 6) None None None 0.

Lemma settled_job_is_final_witness :
  db_jobs (q_db (stop_queue (λ _, true) demo_failed)) !! 1 = None ∨
  ∃ j', db_jobs (q_db (stop_queue (λ _, true) demo_failed)) !! 1 = Some j' ∧ rj_status j' = failed.
Proof.
  apply (settled_job_is_final 1 1 demo_db demo_failed _ 1 failed_job).
  - lia.
  - lia.
  - exact demo_db_ok.
  - exact demo_failed_reachable.
  - apply step_stop. vm_compute. reflexivity.
  - vm_compute. reflexivity.
  - vm_compute. reflexivity.
Defined.

(** The failure of the job is being recorded. *)
Definition demo_settling : Queue :=
  with_task (with_task demo_created 1 (MkTask false Preparing)) 1
    (MkTask false (Settling (MarkFailed "no frames") true false)).

Lemma demo_settling_reachable : reachable 1 1 demo_db demo_settling.
Proof.
  unfold reachable. etransitivity; [exact demo_created_reachable|].
  eapply rtc_l; [eapply (step_start 1 1 _ 1); vm_compute; reflexivity|].
  eapply rtc_l; [eapply (step_raise 1 1 _ 1 _ "no frames"); vm_compute; done|]. apply rtc_refl.
Qed.

Lemma slot_held_until_settled_witness : rj_status failed_job ≠ encoding.
Proof.
  apply (slot_held_until_settled 1 1 demo_db demo_settling
    (finish_job 1 (MkTask false (Settling (MarkFailed "no frames") true false))
      (with_db demo_settling (mark_failed_sync 1 "no frames" 6 (q_db demo_settling)))) 1
    (MkTask false (Settling (MarkFailed "no frames") true false)) failed_job).
  - lia.
  - lia.
  - exact demo_db_ok.
  - exact demo_settling_reachable.
  - apply (step_settled 1 1 demo_settling 1 (MkTask false (Settling (MarkFailed "no frames") true false))
      (MarkFailed "no frames") true false false 6); vm_compute; reflexivity.
  - intros Heq. apply (f_equal (λ q, db_events (q_db q))) in Heq. vm_compute in Heq. discriminate Heq.
  - vm_compute. reflexivity.
  - vm_compute. reflexivity.
  - vm_compute. reflexivity.
  - vm_compute. reflexivity.
Defined.

Lemma drain_cycle_leaves_nothing_behind_witness :
  rtc (step 1 1) (boot 1 1 demo_db) (drain_cycle 5 (boot 1 1 demo_db)) ∧
  no_orphan (drain_cycle 5 (boot 1 1 demo_db)) ∧
  ∀ e, free_slots e (drain_cycle 5 (boot 1 1 demo_db)) = 0 ∨
       oldest_pending e (db_jobs (q_db (drain_cycle 5 (boot 1 1 demo_db)))) = None.
Proof.
  apply (drain_cycle_leaves_nothing_behind 1 1 demo_db); [lia|lia|exact demo_db_ok|apply rtc_refl|reflexivity..].
Defined.

Lemma cancel_before_start_wedges_witness :
  ∃ q1, step 1 1 demo_created q1 ∧
    ∀ q2, rtc (λ x y, step 1 1 x y ∧ y ≠ restart 1 1 x) q1 q2 →
      free_slots false q2 = 0 ∧ q_tasks q2 !! 1 = Some (MkTask false Dead) ∧
      ∀ k t', q_tasks q2 !! k = Some t' → tk_export t' = false → k = 1.
Proof.
  apply (cancel_before_start_wedges 1 demo_db demo_created 1 (MkTask false Created)).
  - lia.
  - exact demo_db_ok.
  - exact demo_created_reachable.
  - vm_compute. reflexivity.
  - reflexivity.
  - reflexivity.
Defined.

(** ** [_ExportGate] *)

(** The calls of the two sides, in the order the lock lets them in. *)
Fixpoint gate_calls (g : ExportGate) (calls : list bool) : list (bool * bool) :=
  match calls with
  | [] => []
  | true :: calls => let '(g, r) := gate_start g in (true, r) :: gate_calls g calls
  | false :: calls => let '(g, r) := cancel_if_queued g in (false, r) :: gate_calls g calls
  end.

Lemma gate_one_side g calls (side : bool) :
  (if side then eg_started g = true ∧ eg_cancelled g = false else eg_started g = false ∧ eg_cancelled g = true) →
  ∀ c, c ∈ gate_calls g calls → c = (c.1, Bool.eqb c.1 side).
Proof.
  destruct g as [st ca]. revert st ca. induction calls as [|[] calls IH]; intros st ca Hg c;
    [intros Hn; by apply elem_of_nil in Hn|..]; destruct side, st, ca; cbn; try (by destruct Hg);
    (intros [->|Hin]%elem_of_cons; [done|eapply IH; [|exact Hin]; done]).
Qed.

(** An export's start gate has one winner: in every order of calls from the export
    thread and from cancels, the side that calls first is told yes on every call and the
    other side no on every call, so a cancelled export that was queued never builds and a
    cancel waits for every export that started. *)
Theorem export_gate_one_winner side calls c :
  c ∈ gate_calls new_gate (side :: calls) → c = (c.1, Bool.eqb c.1 side).
Proof.
  destruct side; cbn; (intros [->|Hin]%elem_of_cons; [done|]).
  - by apply (gate_one_side (MkGate true false) calls true).
  - by apply (gate_one_side (MkGate false true) calls false).
Qed.

Lemma export_gate_one_winner_witness : (true, false) = (true, Bool.eqb true false).
Proof. apply (export_gate_one_winner false [true] (true, false)). vm_compute. right. left. Defined.
