(* ===== verification/Idempotency.v ===== *)
(** * Replay-safe requests: web/idempotency.py

    The cache of idempotency keys and the way a request goes through it.  The
    [OrderedDict] is a list of pairs, least recently used first; the clock is an argument
    (microseconds).  [run_idempotent] is two hops, before and after its handler, because
    other requests run in between; the hash of the form is an argument. *)

From Stdlib Require Import Ascii.
From S2P Require Import Prelude PyVal.
From stdpp Require Import options.
Local Open Scope Z_scope.

(** ** The cache *)
Notation cache_key := (Z * string * string)%type.

Record StoredResponse := MkStored {
  sr_status_code : Z;
  sr_media_type : option string;
  sr_body : string;
}.

Inductive Outcome := RESERVED | IN_PROGRESS | REPLAY (stored : StoredResponse) | MISMATCH.

Record Entry := MkEntry {
  en_fingerprint : string;
  en_expires_at : Z;
  en_response : option StoredResponse;
}.

Notation entries := (list (cache_key * Entry)).

(** [self._entries.get(key)] *)
Fixpoint get (key : cache_key) (es : entries) : option Entry :=
  match es with
  | [] => None
  | (k, e) :: es => if decide (k = key) then Some e else get key es
  end.
(** [del self._entries[key]] *)
Definition del (key : cache_key) (es : entries) : entries := filter (λ p, p.1 ≠ key) es.
(** A key set and moved to the end. *)
Definition put_last (key : cache_key) (e : Entry) (es : entries) : entries := del key es ++ [(key, e)].

Section cache.
Context (ttl : Z) (max_entries : nat).

(** [_purge_expired] *)
Definition purge_expired (now : Z) (es : entries) : entries :=
  filter (λ p, now < en_expires_at p.2) es.

(** [while len(self._entries) > self._max: popitem(last=False)] *)
Definition evict (es : entries) : entries := drop (length es - max_entries) es.

(** [reserve] *)
Definition reserve (now : Z) (key : cache_key) (fingerprint : string) (es : entries)
    : entries * Outcome :=
  let es := purge_expired now es in
  match get key es with
  | Some e =>
      let es := put_last key e es in
      if negb (String.eqb (en_fingerprint e) fingerprint) then (es, MISMATCH)
      else match en_response e with
           | None => (es, IN_PROGRESS)
           | Some stored => (es, REPLAY stored)
           end
  | None => (evict (es ++ [(key, MkEntry fingerprint (now + ttl) None)]), RESERVED)
  end.

(** [complete] *)
Definition complete (now : Z) (key : cache_key) (response : StoredResponse) (es : entries) : entries :=
  match get key es with
  | None => es
  | Some e => put_last key (MkEntry (en_fingerprint e) (now + ttl) (Some response)) es
  end.

(** [release] *)
Definition release (key : cache_key) (es : entries) : entries :=
  match get key es with
  | Some e => match en_response e with None => del key es | Some _ => es end
  | None => es
  end.

(** ** [run_idempotent] *)

(** [_KEY_RE]: 8 to 128 letters, digits, underscores or hyphens. *)
Definition key_char (c : ascii) : bool :=
  let n := char_code c in
  ((65 <=? n) && (n <=? 90)) || ((97 <=? n) && (n <=? 122)) || ((48 <=? n) && (n <=? 57))
  || (n =? 95) || (n =? 45).
Definition key_valid (key : string) : bool :=
  let cs := String.list_ascii_of_string key in
  forallb key_char cs && (8 <=? Z.of_nat (length cs)) && (Z.of_nat (length cs) <=? 128).

(** What the request is told before its handler, or that the handler runs: without the
    header, or owning a key. *)
Inductive Admission :=
  | Invalid                            (** 400 *)
  | InProgress                         (** 409 *)
  | Mismatch                           (** 422 *)
  | Replayed (stored : StoredResponse)
  | Run (owned : option cache_key).

Definition admit_request (now user_id : Z) (route : string) (header : option string)
    (fingerprint : string) (es : entries) : entries * Admission :=
  match header with
  | None => (es, Run None)
  | Some raw_key =>
      if negb (key_valid raw_key) then (es, Invalid)
      else
        let key := (user_id, route, raw_key) in
        match reserve now key fingerprint es with
        | (es, REPLAY stored) => (es, Replayed stored)
        | (es, IN_PROGRESS) => (es, InProgress)
        | (es, MISMATCH) => (es, Mismatch)
        | (es, RESERVED) => (es, Run (Some key))
        end
  end.

(** After the handler: [None] is an exception. *)
Definition handler_done (now : Z) (owned : option cache_key) (response : option StoredResponse)
    (es : entries) : entries :=
  match owned with
  | None => es
  | Some key =>
      match response with
      | None => release key es
      | Some r => if (200 <=? sr_status_code r) && (sr_status_code r <? 300)
                  then complete now key r es else release key es
      end
  end.

(** ** Requests in flight

    The handlers running for a key, the time each started, and the successful ends. *)
Record Site := MkSite {
  st_clock : Z;
  st_entries : entries;
  st_running : list (cache_key * Z);
  st_acted : list (cache_key * Z);
}.
Definition fresh_site : Site := MkSite 0 [] [] [].

Definition acted (response : option StoredResponse) : bool :=
  match response with
  | Some r => (200 <=? sr_status_code r) && (sr_status_code r <? 300)
  | None => false
  end.

Inductive site_step : Site → Site → Prop :=
  | site_tick c es run act d : 0 ≤ d → site_step (MkSite c es run act) (MkSite (c + d) es run act)
  | site_request c es run act user_id route header fingerprint es' admission :
      admit_request c user_id route header fingerprint es = (es', admission) →
      site_step (MkSite c es run act)
        (MkSite c es' (match admission with Run (Some key) => (key, c) :: run | _ => run end) act)
  | site_done c es run1 run2 act key t0 response :
      site_step (MkSite c es (run1 ++ (key, t0) :: run2) act)
        (MkSite c (handler_done c (Some key) response es) (run1 ++ run2)
           (if acted response then (key, c) :: act else act)).
End cache.
