(* ===== verification/IdempotencyFacts.v ===== *)
(** * At most once per key, and where not

    While the cache has room and handlers end within the time to live, a key's handler
    never runs twice at a time, nor again within the time to live of a success.  A handler
    slower than the time to live loses its key. *)

From S2P Require Import Prelude PyVal Idempotency.
From stdpp Require Import options.
Local Open Scope Z_scope.

(** ** The list as a map *)
Lemma get_filter (P : cache_key * Entry → Prop) `{!∀ p, Decision (P p)} key e es :
  get key es = Some e → P (key, e) → get key (filter P es) = Some e.
Proof.
  induction es as [|[k e'] es IH]; [done|]. cbn [get]. case_decide as Hk.
  - intros [= ->] HP. subst k. rewrite filter_cons_True by done. cbn [get]. by rewrite decide_True.
  - intros Hg HP. destruct (decide (P (k, e'))).
    + rewrite filter_cons_True by done. cbn [get]. rewrite decide_False by done. auto.
    + rewrite filter_cons_False by done. auto.
Qed.

Lemma get_app key es es' : get key (es ++ es') = match get key es with Some e => Some e | None => get key es' end.
Proof. induction es as [|[k e] es IH]; [done|]. cbn. by case_decide. Qed.

Lemma get_del_eq key es : get key (del key es) = None.
Proof.
  induction es as [|[k e] es IH]; [done|]. unfold del in *. destruct (decide (k = key)) as [->|Hne].
  - by rewrite filter_cons_False by (cbn; tauto).
  - rewrite filter_cons_True by done. cbn [get]. by rewrite decide_False.
Qed.

Lemma get_del_ne key k es : k ≠ key → get k (del key es) = get k es.
Proof.
  intros Hne. induction es as [|[i e] es IH]; [done|]. unfold del in *. destruct (decide (i = key)) as [->|Hi].
  - rewrite filter_cons_False by (cbn; tauto). cbn [get]. by rewrite decide_False.
  - rewrite filter_cons_True by done. cbn [get]. by case_decide.
Qed.

Lemma get_put_eq key e es : get key (put_last key e es) = Some e.
Proof. unfold put_last. rewrite get_app, get_del_eq. cbn. by rewrite decide_True. Qed.

Lemma get_put_ne key k e es : k ≠ key → get k (put_last key e es) = get k es.
Proof.
  intros Hne. unfold put_last. rewrite get_app, get_del_ne by done. cbn. rewrite decide_False by done.
  by destruct (get k es).
Qed.

Section facts.
Context (ttl : Z) (max_entries : nat) (Httl : 0 < ttl).

(** There is room for another key, and no handler has run for the time to live. *)
Definition calm (s : Site) : Prop :=
  (length (st_entries s) < max_entries)%nat ∧
  ∀ key t0, (key, t0) ∈ st_running s → st_clock s < t0 + ttl.

(** The entry of a key that is in progress, and of one that acted. *)
Definition held (es : entries) (key : cache_key) (t0 : Z) : Prop :=
  ∃ e, get key es = Some e ∧ en_response e = None ∧ en_expires_at e = t0 + ttl.
Definition answered (es : entries) (key : cache_key) (t : Z) : Prop :=
  ∃ e, get key es = Some e ∧ en_response e ≠ None ∧ t + ttl ≤ en_expires_at e.

Record site_inv (s : Site) : Prop := {
  si_once : NoDup (st_running s).*1;
  si_running : ∀ key t0, (key, t0) ∈ st_running s → held (st_entries s) key t0 ∧ t0 ≤ st_clock s;
  si_acted : ∀ key t, (key, t) ∈ st_acted s → t ≤ st_clock s ∧
    (st_clock s < t + ttl → answered (st_entries s) key t);
}.

Lemma purge_get now key e es :
  get key es = Some e → now < en_expires_at e → get key (purge_expired now es) = Some e.
Proof. intros Hg Hlt. by apply get_filter. Qed.

Lemma length_purge now es : (length (purge_expired now es) ≤ length es)%nat.
Proof. apply length_filter. Qed.

(** Reserving keeps every live entry, and finds the key free only if it has none. *)
Lemma reserve_spec now key fingerprint es es' o :
  (length es < max_entries)%nat → reserve ttl max_entries now key fingerprint es = (es', o) →
  (∀ k e, get k es = Some e → now < en_expires_at e → get k es' = Some e) ∧
  (o = RESERVED → get key es' = Some (MkEntry fingerprint (now + ttl) None) ∧
                  ∀ e, get key es = Some e → en_expires_at e ≤ now).
Proof using Type.
  intros Hfit. unfold reserve. destruct (get key (purge_expired now es)) as [e|] eqn:Hg.
  - intros Hr. assert (es' = put_last key e (purge_expired now es) ∧ o ≠ RESERVED) as [-> Ho].
    { by repeat case_match; simplify_eq. }
    split; [|done]. intros k e' He' Hlt. pose proof (purge_get _ _ _ _ He' Hlt) as Hp.
    destruct (decide (k = key)) as [->|Hne]; [rewrite get_put_eq; congruence|by rewrite get_put_ne].
  - intros [= <- <-]. unfold evict. pose proof (length_purge now es). rewrite length_app. cbn [length].
    replace (_ - max_entries)%nat with 0%nat by lia. rewrite drop_0. split.
    + intros k e' He' Hlt. rewrite get_app. by rewrite (purge_get _ _ _ _ He' Hlt).
    + intros _. split; [rewrite get_app, Hg; cbn; by rewrite decide_True|].
      intros e He. destruct (decide (now < en_expires_at e)) as [Hlt|]; [|lia].
      by rewrite (purge_get _ _ _ _ He Hlt) in Hg.
Qed.

Lemma site_inv_request c es run act key fingerprint es' o :
  site_inv (MkSite c es run act) → calm (MkSite c es run act) →
  reserve ttl max_entries c key fingerprint es = (es', o) →
  site_inv (MkSite c es' (match o with RESERVED => (key, c) :: run | _ => run end) act) ∧
  (o = RESERVED → key ∉ run.*1 ∧ ∀ t, (key, t) ∈ act → t + ttl ≤ c).
Proof using Httl.
  intros [Hn Hr Ha] [Hfit Hprompt] Hres. cbn in *. destruct (reserve_spec _ _ _ _ _ _ Hfit Hres) as [Hkeep Hnew].
  assert (∀ k t0, (k, t0) ∈ run → held es' k t0) as Hheld.
  { intros k t0 Hin. destruct (Hr _ _ Hin) as [(e & Hg & He & Hx) _]. exists e. split; [|done].
    apply Hkeep; [done|]. pose proof (Hprompt _ _ Hin). lia. }
  assert (∀ k t, (k, t) ∈ act → c < t + ttl → answered es' k t) as Hans.
  { intros k t Hin Hlt. destruct (Ha _ _ Hin) as [_ Hx]. destruct (Hx Hlt) as (e & Hg & He & Hexp).
    exists e. split; [|done]. apply Hkeep; [done|lia]. }
  assert (o = RESERVED → key ∉ run.*1 ∧ ∀ t, (key, t) ∈ act → t + ttl ≤ c) as Hfree.
  { intros Ho. destruct (Hnew Ho) as [_ Hexp]. split.
    - intros ([k t0] & -> & Hin)%list_elem_of_fmap. destruct (Hr _ _ Hin) as [(e & Hg & _ & Hx) _].
      pose proof (Hexp e Hg). pose proof (Hprompt _ _ Hin). cbn in *. lia.
    - intros t Hin. destruct (Ha _ _ Hin) as [_ Hx]. destruct (decide (c < t + ttl)) as [Hlt|]; [|lia].
      destruct (Hx Hlt) as (e & Hg & _ & ?). pose proof (Hexp e Hg). lia. }
  split; [|done]. split; cbn.
  - destruct o; try done. cbn. apply NoDup_cons. split; [by apply Hfree|done].
  - intros k t0 Hin. destruct o; try (split; [by apply Hheld|by apply (Hr k t0)]).
    apply elem_of_cons in Hin as [[= -> ->]|Hin]; [|split; [by apply Hheld|by apply (Hr k t0)]].
    split; [|lia]. destruct (Hnew eq_refl) as [Hg _]. by eexists.
  - intros k t Hin. split; [by apply (Ha k t)|by apply Hans].
Qed.

Lemma site_inv_done c es run1 run2 act key t0 response :
  site_inv (MkSite c es (run1 ++ (key, t0) :: run2) act) →
  site_inv (MkSite c (handler_done ttl c (Some key) response es) (run1 ++ run2)
              (if acted response then (key, c) :: act else act)).
Proof using Httl.
  intros [Hn Hr Ha]. cbn in *. destruct (Hr key t0) as [(e & Hg & He & Hx) _]; [set_solver|].
  assert (key ∉ (run1 ++ run2).*1) as Hnot.
  { rewrite fmap_app in Hn |- *. cbn in Hn. apply NoDup_app in Hn as (_ & Hd & Hn2).
    apply NoDup_cons in Hn2 as [Hk _]. rewrite not_elem_of_app. split; [|done].
    intros Hin. apply (Hd key Hin). apply elem_of_cons. by left. }
  assert (∀ k t, (k, t) ∈ run1 ++ run2 → k ≠ key ∧ held es k t ∧ t ≤ c) as Hrest.
  { intros k t Hin. split; [|apply Hr; set_solver]. intros ->. apply Hnot. apply list_elem_of_fmap.
    by exists (key, t). }
  assert (∀ k t, (k, t) ∈ act → c < t + ttl → k ≠ key) as Hact.
  { intros k t Hin Hlt ->. destruct (Ha _ _ Hin) as [_ H1]. destruct (H1 Hlt) as (e' & Hg' & Hne & _). congruence. }
  assert (∀ es', (∀ k, k ≠ key → get k es' = get k es) →
    (∀ k t, (k, t) ∈ run1 ++ run2 → held es' k t ∧ t ≤ c) ∧
    (∀ k t, (k, t) ∈ act → t ≤ c ∧ (c < t + ttl → answered es' k t))) as Hframe.
  { intros es' Hsame. split.
    - intros k t Hin. destruct (Hrest k t Hin) as (Hne & (e' & ? & ?) & ?). split; [|done]. exists e'. by rewrite Hsame.
    - intros k t Hin. destruct (Ha k t Hin) as [? H1]. split; [done|]. intros Hlt.
      destruct (H1 Hlt) as (e' & ? & ?). exists e'. rewrite Hsame; [done|by eapply Hact]. }
  assert (NoDup (run1 ++ run2).*1) as Hn'.
  { rewrite fmap_app in Hn |- *. cbn in Hn. eapply sublist_NoDup; [exact Hn|]. apply sublist_app; [done|].
    by apply sublist_cons. }
  assert (∀ es', es' = release key es → site_inv (MkSite c es' (run1 ++ run2) act)) as Hrel.
  { intros es' ->. destruct (Hframe (release key es)) as [H1 H2]; [|by split].
    intros k Hk. unfold release. rewrite Hg, He. by apply get_del_ne. }
  unfold handler_done, acted. destruct response as [r|]; [|by apply Hrel].
  destruct ((200 <=? sr_status_code r) && (sr_status_code r <? 300)); [|by apply Hrel].
  unfold complete. rewrite Hg.
  destruct (Hframe (put_last key (MkEntry (en_fingerprint e) (c + ttl) (Some r)) es)) as [H1 H2].
  { intros k Hk. by apply get_put_ne. }
  split; [done|done|]. cbn. intros k t [[= -> ->]|Hin]%elem_of_cons; [|by apply H2].
  split; [lia|]. intros _. eexists. rewrite get_put_eq. split; [done|]. split; [done|cbn; lia].
Qed.

Definition calm_step (s s' : Site) : Prop := site_step ttl max_entries s s' ∧ calm s ∧ calm s'.

Lemma site_inv_step s s' : site_inv s → calm_step s s' → site_inv s'.
Proof using Httl.
  intros Hi (Hs & Hc & _). destruct Hs as [c es run act d Hd|c es run act user route header fp es' adm Ha|].
  - destruct Hi as [Hn Hr Ha]. split; cbn in *; [done|..].
    + intros key t0 Hin. destruct (Hr _ _ Hin). split; [done|lia].
    + intros key t Hin. destruct (Ha _ _ Hin) as [? Hx]. split; [lia|]. intros Hlt. apply Hx. lia.
  - unfold admit_request in Ha. destruct header as [raw|]; [|by simplify_eq].
    destruct (negb (key_valid raw)); [by simplify_eq|].
    destruct (reserve ttl max_entries c (user, route, raw) fp es) as [es1 o] eqn:Hres.
    destruct (site_inv_request _ _ _ _ _ _ _ _ Hi Hc Hres) as [Hi' _]. by destruct o; simplify_eq.
  - by eapply site_inv_done.
Qed.

Lemma site_inv_reachable s : rtc calm_step fresh_site s → site_inv s.
Proof using Httl.
  apply (rtc_ind_r (λ s, site_inv s)); [|intros x y _ Hs Hi; by eapply site_inv_step].
  split; cbn; [constructor|..]; intros ? ? Hin; by apply elem_of_nil in Hin.
Qed.
End facts.

(** ** The properties *)

(** C36: a key's handler runs at most once: as long as the cache has room and every handler
    ends within the time to live, no two handlers run for one key at the same time, and a
    request gets to run a key only when no handler is running for it and every success of
    that key is at least the time to live ago. *)
Theorem key_runs_at_most_once ttl max_entries s s' user_id route raw_key fingerprint es :
  0 < ttl → rtc (calm_step ttl max_entries) fresh_site s → calm ttl max_entries s →
  admit_request ttl max_entries (st_clock s) user_id route (Some raw_key) fingerprint (st_entries s) =
    (es, Run (Some s')) →
  NoDup (st_running s).*1 ∧ s' = (user_id, route, raw_key) ∧ s' ∉ (st_running s).*1 ∧
  ∀ t, (s', t) ∈ st_acted s → t + ttl ≤ st_clock s.
Proof.
  intros Httl Hr Hc Ha. pose proof (site_inv_reachable ttl max_entries Httl s Hr) as Hi.
  split; [apply (si_once _ _ Hi)|]. unfold admit_request in Ha. destruct (negb (key_valid raw_key)); [done|].
  destruct (reserve ttl max_entries _ (user_id, route, raw_key) fingerprint (st_entries s)) as [es1 o] eqn:Hres.
  destruct o; try done. injection Ha as _ <-. split; [done|]. destruct s as [c es0 run act].
  destruct (site_inv_request ttl max_entries Httl _ _ _ _ _ _ _ _ Hi Hc Hres) as [_ Hfree]. by apply Hfree.
Qed.

(** One request on an empty site. *)
Lemma key_runs_at_most_once_witness :
  NoDup (st_running fresh_site).*1 ∧ (3, "offset", "12345678") = (3, "offset", "12345678") ∧
  (3, "offset", "12345678") ∉ (st_running fresh_site).*1 ∧
  ∀ t, ((3, "offset", "12345678"), t) ∈ st_acted fresh_site → t + 600 ≤ st_clock fresh_site.
Proof.
  apply (key_runs_at_most_once 600 10 fresh_site (3, "offset", "12345678") 3 "offset" "12345678" "f"
    [((3, "offset", "12345678"), MkEntry "f" 600 None)]).
  - lia.
  - apply rtc_refl.
  - split; [cbn; lia|]. intros ? ? Hin. by apply elem_of_nil in Hin.
  - vm_compute. reflexivity.
Defined.

(** A handler that outlives the time to live: a duplicate runs beside it, and when the
    first one fails it releases the key the second one holds, so a third runs too. *)
Definition slow_key : cache_key := (3, "offset", "12345678").
Lemma slow_handler_loses_its_key :
  ∃ s, rtc (site_step 600 10) fresh_site s ∧ st_running s = [(slow_key, 601); (slow_key, 600)].
Proof.
  eexists. split.
  { eapply rtc_l; [eapply (site_request 600 10 _ _ _ _ 3 "offset" (Some "12345678") "f"); vm_compute; reflexivity|].
    eapply rtc_l; [apply (site_tick 600 10 _ _ _ _ 600); lia|].
    eapply rtc_l; [eapply (site_request 600 10 _ _ _ _ 3 "offset" (Some "12345678") "f"); vm_compute; reflexivity|].
    eapply rtc_l; [apply (site_done 600 10 _ _ [(slow_key, 600)] [] _ slow_key 0 None)|].
    eapply rtc_l; [apply (site_tick 600 10 _ _ _ _ 1); lia|].
    eapply rtc_l; [eapply (site_request 600 10 _ _ _ _ 3 "offset" (Some "12345678") "f"); vm_compute; reflexivity|].
    apply rtc_refl. }
  vm_compute. reflexivity.
Qed.

(** ** What is remembered *)

(** A stored response is replayed: after a handler succeeded at [t], a duplicate of the
    request that arrives before the time to live is over, with nothing else in between,
    is answered with exactly that response, and the same key with another body is
    refused. *)
Theorem success_is_replayed ttl max_entries now later key fingerprint other response es e :
  get key es = Some e → en_fingerprint e = fingerprint → other ≠ fingerprint →
  now ≤ later < now + ttl →
  (reserve ttl max_entries later key fingerprint (complete ttl now key response es)).2 = REPLAY response ∧
  (reserve ttl max_entries later key other (complete ttl now key response es)).2 = MISMATCH.
Proof.
  intros Hg <- Hne Ht. unfold reserve, complete. rewrite Hg.
  set (e' := MkEntry (en_fingerprint e) (now + ttl) (Some response)).
  assert (get key (purge_expired later (put_last key e' es)) = Some e') as ->.
  { apply purge_get; [apply get_put_eq|cbn; lia]. }
  cbn [en_fingerprint en_response e']. rewrite String.eqb_refl. split; [done|].
  destruct (String.eqb_spec (en_fingerprint e) other); [congruence|done].
Qed.

Lemma success_is_replayed_witness :
  (reserve 600 10 20 slow_key "f" (complete 600 10 slow_key (MkStored 200 None "ok")
     [(slow_key, MkEntry "f" 605 None)])).2 = REPLAY (MkStored 200 None "ok") ∧
  (reserve 600 10 20 slow_key "g" (complete 600 10 slow_key (MkStored 200 None "ok")
     [(slow_key, MkEntry "f" 605 None)])).2 = MISMATCH.
Proof.
  apply (success_is_replayed 600 10 10 20 slow_key "f" "g" (MkStored 200 None "ok") _ (MkEntry "f" 605 None));
    [vm_compute; reflexivity|reflexivity|discriminate|lia].
Defined.
