(* ===== verification/AttemptLimiter.v ===== *)
(** * Counting attempts before the work: security/attempt_limiter.py

    Reservations per key inside a sliding window, released when the attempt proved
    legitimate.  The clock is an argument (microseconds); keys are texts.  The state the
    code keeps is pruned as it goes; the theorems relate it to the full history of
    attempts that were not released. *)

From S2P Require Import Prelude.
From stdpp Require Import options.
Local Open Scope Z_scope.

Record Reservation := MkReservation {
  rv_keys : list string;
  rv_token : Z;
}.

Record AttemptLimiter := MkLimiter {
  (** key -> [(reserved_at, token), ...] in reservation order *)
  al_hits : gmap string (list (Z * Z));
  al_next : Z;
}.
(** [__init__]: [itertools.count(1)] *)
Definition new_limiter : AttemptLimiter := MkLimiter ∅ 1.

Definition hits_of (key : string) (hits : gmap string (list (Z * Z))) : list (Z * Z) :=
  default [] (hits !! key).

(** [self._hits[key] = hits if hits else del self._hits[key]] *)
Definition store_hits (key : string) (l : list (Z * Z)) (hits : gmap string (list (Z * Z)))
    : gmap string (list (Z * Z)) :=
  match l with [] => delete key hits | _ => <[key := l]> hits end.

(** [tuple(dict.fromkeys(keys))]: the keys without repeats, in order. *)
Fixpoint fromkeys (keys : list string) : list string :=
  match keys with
  | [] => []
  | key :: keys => key :: filter (λ k, k ≠ key) (fromkeys keys)
  end.

Section limiter.
Context (max_attempts window : Z).

Definition is_live (now : Z) (hit : Z * Z) : Prop := now - window < hit.1.
#[local] Instance is_live_dec now hit : Decision (is_live now hit).
Proof. unfold is_live. apply _. Defined.

(** [_prune] *)
Definition prune (key : string) (now : Z) (hits : gmap string (list (Z * Z)))
    : gmap string (list (Z * Z)) :=
  match hits !! key with
  | None => hits
  | Some l => store_hits key (filter (is_live now) l) hits
  end.

(** The sweep over [list(self._hits)]. *)
Definition prune_all (now : Z) (hits : gmap string (list (Z * Z))) : gmap string (list (Z * Z)) :=
  foldl (λ hits key, prune key now hits) hits (map_to_list hits).*1.

(** [try_reserve]; [Raise] for no key. *)
Definition try_reserve (now : Z) (keys : list string) (st : AttemptLimiter)
    : result (AttemptLimiter * option Reservation) :=
  let unique := fromkeys keys in
  match unique with
  | [] => Raise (ValueError "at least one key is required")
  | _ =>
      let hits := prune_all now (al_hits st) in
      if existsb (λ key, max_attempts <=? Z.of_nat (length (hits_of key hits))) unique
      then Ok (MkLimiter hits (al_next st), None)
      else
        let token := al_next st in
        Ok (MkLimiter
              (foldl (λ hits key, <[key := hits_of key hits ++ [(now, token)]]> hits) hits unique)
              (token + 1),
            Some (MkReservation unique token))
  end.

(** [release] *)
Definition release_key (token : Z) (key : string) (hits : gmap string (list (Z * Z)))
    : gmap string (list (Z * Z)) :=
  match hits !! key with
  | None => hits
  | Some l => store_hits key (filter (λ hit, hit.2 ≠ token) l) hits
  end.
Definition release_attempt (r : Reservation) (st : AttemptLimiter) : AttemptLimiter :=
  MkLimiter (foldl (λ hits key, release_key (rv_token r) key hits) (al_hits st) (rv_keys r)) (al_next st).

(** [count] *)
Definition count_live (now : Z) (key : string) (st : AttemptLimiter) : AttemptLimiter * Z :=
  let hits := prune key now (al_hits st) in
  (MkLimiter hits (al_next st), Z.of_nat (length (hits_of key hits))).

(** [clear] *)
Definition clear_hits (st : AttemptLimiter) : AttemptLimiter := MkLimiter ∅ (al_next st).

(** ** The history

    Every attempt granted and not released: when, its token, its keys. *)
Record Attempt := MkAttempt { at_time : Z; at_token : Z; at_keys : list string }.

Definition live (now : Z) (key : string) (history : list Attempt) : list (Z * Z) :=
  (λ a, (at_time a, at_token a)) <$>
    filter (λ a, key ∈ at_keys a ∧ now - window < at_time a) history.

(** A limiter in use: the clock of the last call, the state, the history. *)
Record Usage := MkUsage { us_clock : Z; us_state : AttemptLimiter; us_history : list Attempt }.

Inductive usage_step : Usage → Usage → Prop :=
  | use_reserve c st h now keys st' o :
      c ≤ now → try_reserve now keys st = Ok (st', o) →
      usage_step (MkUsage c st h)
        (MkUsage now st'
           (match o with Some r => h ++ [MkAttempt now (rv_token r) (rv_keys r)] | None => h end))
  | use_release c st h a :
      a ∈ h →
      usage_step (MkUsage c st h)
        (MkUsage c (release_attempt (MkReservation (at_keys a) (at_token a)) st)
           (filter (λ a', at_token a' ≠ at_token a) h))
  | use_count c st h now key :
      c ≤ now → usage_step (MkUsage c st h) (MkUsage now (count_live now key st).1 h)
  | use_clear c st h :
      usage_step (MkUsage c st h) (MkUsage c (clear_hits st) []).
Definition unused : Usage := MkUsage 0 new_limiter [].

(** ** The state stands for the history *)
Record usage_inv (u : Usage) : Prop := {
  ui_live : ∀ now key, us_clock u ≤ now →
    filter (is_live now) (hits_of key (al_hits (us_state u))) = live now key (us_history u);
  ui_tokens : Forall (λ a, at_token a < al_next (us_state u)) (us_history u);
  ui_times : Forall (λ a, at_time a ≤ us_clock u) (us_history u);
  ui_bound : ∀ key, Z.of_nat (length (live (us_clock u) key (us_history u))) ≤ max_attempts;
  ui_unique : ∀ a a', a ∈ us_history u → a' ∈ us_history u → at_token a = at_token a' → a = a';
  ui_nodup : Forall (λ a, NoDup (at_keys a)) (us_history u);
}.

Lemma hits_store key k l hits :
  hits_of k (store_hits key l hits) = if decide (key = k) then l else hits_of k hits.
Proof.
  unfold hits_of, store_hits. case_decide as Hk.
  - subst. destruct l; [by rewrite lookup_delete_eq|by rewrite lookup_insert_eq].
  - destruct l; [by rewrite lookup_delete_ne|by rewrite lookup_insert_ne].
Qed.

Lemma hits_prune key now k hits :
  hits_of k (prune key now hits) = if decide (key = k) then filter (is_live now) (hits_of k hits) else hits_of k hits.
Proof.
  unfold prune. destruct (hits !! key) as [l|] eqn:Hl; [rewrite hits_store|].
  - case_decide; [|done]. subst. unfold hits_of. by rewrite Hl.
  - case_decide; [|done]. subst. unfold hits_of. by rewrite Hl.
Qed.

Lemma filter_live_twice now now' (l : list (Z * Z)) :
  now' ≤ now → filter (is_live now) (filter (is_live now') l) = filter (is_live now) l.
Proof.
  intros Hle. rewrite list_filter_filter. apply list_filter_iff. intros hit. unfold is_live. lia.
Qed.

(** Pruning drops what no later call counts. *)
Lemma hits_prune_live key now now' k hits :
  now' ≤ now →
  filter (is_live now) (hits_of k (prune key now' hits)) = filter (is_live now) (hits_of k hits).
Proof. intros Hle. rewrite hits_prune. case_decide; [|done]. by apply filter_live_twice. Qed.

Lemma hits_prune_all now k hits :
  hits_of k (prune_all now hits) = filter (is_live now) (hits_of k hits).
Proof.
  unfold prune_all. set (keys := (map_to_list hits).*1).
  assert (k ∈ keys ∨ hits_of k hits = []) as Hk.
  { unfold hits_of. destruct (hits !! k) as [l|] eqn:Hl; [left|by right]. apply list_elem_of_fmap.
    exists (k, l). split; [done|]. by apply elem_of_map_to_list. }
  assert (∀ ks hits, hits_of k (foldl (λ hits key, prune key now hits) hits ks) =
    if decide (k ∈ ks) then filter (is_live now) (hits_of k hits) else hits_of k hits) as Hfold.
  { clear. induction ks as [|key ks IH]; intros hits; cbn [foldl].
    { rewrite decide_False; [done|apply not_elem_of_nil]. }
    rewrite IH, hits_prune. destruct (decide (key = k)) as [->|Hne].
    - rewrite (decide_True (P := k ∈ k :: ks)) by (apply elem_of_cons; by left).
      case_decide; [by apply filter_live_twice|done].
    - destruct (decide (k ∈ ks)) as [Hin|Hn].
      + by rewrite decide_True by (apply elem_of_cons; by right).
      + rewrite decide_False; [done|]. apply not_elem_of_cons. by split; [congruence|]. }
  rewrite Hfold. case_decide as Hin; [done|]. destruct Hk as [?|Hk]; [done|]. by rewrite Hk.
Qed.

Lemma elem_of_fromkeys k keys : k ∈ fromkeys keys ↔ k ∈ keys.
Proof.
  induction keys as [|key keys IH]; [done|]. cbn. rewrite !elem_of_cons, list_elem_of_filter, IH.
  destruct (decide (k = key)); naive_solver.
Qed.
Lemma NoDup_fromkeys keys : NoDup (fromkeys keys).
Proof.
  induction keys as [|key keys IH]; [constructor|]. cbn. apply NoDup_cons. split; [|by apply NoDup_filter].
  rewrite list_elem_of_filter. tauto.
Qed.

Lemma hits_append now token k keys hits :
  NoDup keys →
  hits_of k (foldl (λ hits key, <[key := hits_of key hits ++ [(now, token)]]> hits) hits keys) =
  hits_of k hits ++ (if decide (k ∈ keys) then [(now, token)] else []).
Proof.
  revert hits. induction keys as [|key keys IH]; intros hits Hn; cbn [foldl].
  { rewrite decide_False by apply not_elem_of_nil. by rewrite app_nil_r. }
  apply NoDup_cons in Hn as [Hk Hn]. rewrite IH by done.
  destruct (decide (key = k)) as [->|Hne].
  - rewrite (decide_False (P := k ∈ keys)) by done.
    rewrite (decide_True (P := k ∈ k :: keys)) by (apply elem_of_cons; by left).
    unfold hits_of at 1. rewrite lookup_insert_eq. by rewrite app_nil_r.
  - unfold hits_of at 1. rewrite lookup_insert_ne by done. f_equal.
    apply decide_ext. rewrite elem_of_cons. split; [by right|]. by intros [->|?].
Qed.

Lemma hits_release token k keys hits :
  hits_of k (foldl (λ hits key, release_key token key hits) hits keys) =
  if decide (k ∈ keys) then filter (λ hit, hit.2 ≠ token) (hits_of k hits) else hits_of k hits.
Proof.
  revert hits. induction keys as [|key keys IH]; intros hits; cbn [foldl].
  { by rewrite decide_False by apply not_elem_of_nil. }
  assert (hits_of k (release_key token key hits) =
    if decide (key = k) then filter (λ hit, hit.2 ≠ token) (hits_of k hits) else hits_of k hits) as Hone.
  { unfold release_key. destruct (hits !! key) as [l|] eqn:Hl; [rewrite hits_store|];
      (destruct (decide (key = k)); [|done]); subst; unfold hits_of; by rewrite Hl. }
  rewrite IH, Hone. destruct (decide (key = k)) as [->|Hne].
  - rewrite (decide_True (P := k ∈ k :: keys)) by (apply elem_of_cons; by left).
    destruct (decide (k ∈ keys)); [|done]. rewrite list_filter_filter. apply list_filter_iff. tauto.
  - apply decide_ext. rewrite elem_of_cons. split; [by right|]. by intros [->|?].
Qed.

Lemma live_snoc now key h a :
  live now key (h ++ [a]) =
  live now key h ++ (if decide (key ∈ at_keys a ∧ now - window < at_time a) then [(at_time a, at_token a)] else []).
Proof.
  unfold live. rewrite filter_app, fmap_app. f_equal. case_decide as Ha.
  - by rewrite (filter_singleton_True _ a []).
  - by rewrite (filter_singleton_False _ a []).
Qed.

Lemma live_released now key h token :
  live now key (filter (λ a, at_token a ≠ token) h) = filter (λ hit, hit.2 ≠ token) (live now key h).
Proof.
  induction h as [|a h IH]; [done|]. unfold live in *.
  destruct (decide (at_token a ≠ token)) as [Ht|Ht], (decide (key ∈ at_keys a ∧ now - window < at_time a)) as [Hk|Hk].
  - rewrite (filter_cons_True (λ a, at_token a ≠ token)), !filter_cons_True by done. cbn [fmap list_fmap].
    rewrite (filter_cons_True (λ hit, hit.2 ≠ token)) by done. by f_equal.
  - rewrite (filter_cons_True (λ a, at_token a ≠ token)) by done.
    by rewrite !(filter_cons_False (λ a, key ∈ at_keys a ∧ now - window < at_time a)).
  - rewrite (filter_cons_False (λ a, at_token a ≠ token)) by done.
    rewrite (filter_cons_True (λ a, key ∈ at_keys a ∧ now - window < at_time a)) by done. cbn [fmap list_fmap].
    by rewrite (filter_cons_False (λ hit, hit.2 ≠ token)).
  - rewrite (filter_cons_False (λ a, at_token a ≠ token)) by done.
    by rewrite (filter_cons_False (λ a, key ∈ at_keys a ∧ now - window < at_time a)).
Qed.

Lemma live_mono u now now' key :
  usage_inv u → us_clock u ≤ now' → now' ≤ now →
  live now key (us_history u) = filter (is_live now) (live now' key (us_history u)).
Proof.
  intros Hi H1 H2. rewrite <-!(ui_live u Hi) by lia. by rewrite filter_live_twice.
Qed.

Lemma usage_reserve c st h now keys st' o :
  usage_inv (MkUsage c st h) → c ≤ now → try_reserve now keys st = Ok (st', o) →
  (o ≠ None ↔ ∀ key, key ∈ keys → Z.of_nat (length (live now key h)) < max_attempts) ∧
  usage_inv (MkUsage now st' (match o with Some r => h ++ [MkAttempt now (rv_token r) (rv_keys r)] | None => h end)).
Proof.
  intros Hi Hc. destruct (Hi) as [Hl Htok Htime Hb Hu Hnd]. cbn [us_clock us_state us_history] in *.
  assert (∀ key, hits_of key (prune_all now (al_hits st)) = live now key h) as Hpr.
  { intros key. rewrite hits_prune_all. by apply Hl. }
  assert (∀ now' key, now ≤ now' → filter (is_live now') (hits_of key (prune_all now (al_hits st))) = live now' key h) as Hpr'.
  { intros now' key Hle. rewrite hits_prune_all, filter_live_twice by done. apply Hl. lia. }
  assert (∀ key, Z.of_nat (length (live now key h)) ≤ max_attempts) as Hb'.
  { intros key. specialize (Hb key). rewrite (live_mono (MkUsage c st h) now c) by (done || cbn; lia). cbn [us_history].
    pose proof (length_filter (is_live now) (live c key h)). lia. }
  assert (Forall (λ a, at_time a ≤ now) h) as Htime' by (eapply Forall_impl; [exact Htime|cbn; lia]).
  unfold try_reserve. destruct (fromkeys keys) as [|k0 ks] eqn:Hks; [done|]. rewrite <-Hks.
  assert (fromkeys keys ≠ []) as Hne by (by rewrite Hks). clear k0 ks Hks.
  destruct (existsb _ (fromkeys keys)) eqn:He.
  - intros [= <- <-]. split; [|by split]. split; [done|]. intros Hall _. apply existsb_exists in He as (key & Hin & Hge).
    rewrite Hpr in Hge. apply Z.leb_le in Hge. apply list_elem_of_In in Hin.
    specialize (Hall key (proj1 (elem_of_fromkeys key keys) Hin)). lia.
  - intros [= <- <-]. assert (∀ key, key ∈ keys → Z.of_nat (length (live now key h)) < max_attempts) as Hfree.
    { intros key Hin. apply not_true_iff_false in He. apply Z.nle_gt. intros Hge. apply He. apply existsb_exists.
      exists key. split; [by apply list_elem_of_In, elem_of_fromkeys|]. rewrite Hpr. by apply Z.leb_le. }
    split; [done|]. split; cbn [us_clock us_state us_history al_hits al_next rv_token rv_keys].
    + intros now' key Hle. rewrite hits_append by apply NoDup_fromkeys. rewrite filter_app, Hpr', live_snoc by done.
      f_equal. cbn [at_keys at_time at_token]. destruct (decide (key ∈ fromkeys keys)) as [Hin|Hn].
      * destruct (decide (is_live now' (now, al_next st))) as [Hlive|Hlive].
        -- rewrite (filter_singleton_True _ _ []) by done. by rewrite decide_True.
        -- rewrite (filter_singleton_False _ _ []) by done. rewrite decide_False; [done|]. intros [_ ?]. by apply Hlive.
      * rewrite decide_False; [done|]. by intros [? _].
    + apply Forall_app. split; [|by repeat constructor; cbn; lia]. eapply Forall_impl; [exact Htok|]. cbn. lia.
    + apply Forall_app. split; [done|]. by repeat constructor; cbn; lia.
    + intros key. rewrite live_snoc, length_app. cbn [at_keys at_time]. case_decide as Hk.
      * destruct Hk as [Hin _]. specialize (Hfree key (proj1 (elem_of_fromkeys key keys) Hin)). cbn. lia.
      * specialize (Hb' key). cbn. lia.
    + intros a a' [Ha| ->%list_elem_of_singleton]%elem_of_app [Ha'| ->%list_elem_of_singleton]%elem_of_app Heq; cbn in Heq.
      * by apply Hu.
      * rewrite Forall_forall in Htok. specialize (Htok a Ha). lia.
      * rewrite Forall_forall in Htok. specialize (Htok a' Ha'). lia.
      * done.
    + apply Forall_app. split; [done|]. constructor; [apply NoDup_fromkeys|constructor].
Qed.

Lemma usage_release c st h a :
  usage_inv (MkUsage c st h) → a ∈ h →
  usage_inv (MkUsage c (release_attempt (MkReservation (at_keys a) (at_token a)) st)
               (filter (λ a', at_token a' ≠ at_token a) h)).
Proof.
  intros [Hl Htok Htime Hb Hu Hnd] Ha. cbn [us_clock us_state us_history] in *.
  split; cbn [us_clock us_state us_history release_attempt al_hits al_next rv_token rv_keys].
  - intros now key Hle. rewrite hits_release, live_released, <-Hl by done. case_decide as Hk.
    + rewrite !list_filter_filter. apply list_filter_iff. tauto.
    + rewrite Hl by done. symmetry. apply filter_all. intros [t k].
      intros (x & [= -> ->] & [[Hin _] Hx]%list_elem_of_filter)%list_elem_of_fmap Heq. cbn in Heq.
      by rewrite (Hu x a Hx Ha Heq) in Hin.
  - by apply Forall_filtered.
  - by apply Forall_filtered.
  - intros key. specialize (Hb key). rewrite live_released.
    pose proof (length_filter (λ hit, hit.2 ≠ at_token a) (live c key h)). lia.
  - intros x y [_ Hx]%list_elem_of_filter [_ Hy]%list_elem_of_filter. by apply Hu.
  - by apply Forall_filtered.
Qed.

Lemma usage_count c st h now key :
  usage_inv (MkUsage c st h) → c ≤ now → usage_inv (MkUsage now (count_live now key st).1 h).
Proof.
  intros Hi Hc. destruct (Hi) as [Hl Htok Htime Hb Hu Hnd]. cbn [us_clock us_state us_history] in *.
  split; cbn [us_clock us_state us_history count_live fst al_hits al_next]; try done.
  - intros now' k Hle. rewrite hits_prune_live by done. apply Hl. lia.
  - eapply Forall_impl; [exact Htime|]. cbn. lia.
  - intros k. specialize (Hb k). rewrite (live_mono (MkUsage c st h) now c) by (done || cbn; lia). cbn [us_history].
    pose proof (length_filter (is_live now) (live c k h)). lia.
Qed.

(** A state with no hits stands for the empty history. *)
Lemma usage_empty c next : 0 ≤ max_attempts → usage_inv (MkUsage c (MkLimiter ∅ next) []).
Proof.
  intros Hm. split; cbn; try by constructor.
  - done.
  - intros ? ? Hin. by apply elem_of_nil in Hin.
Qed.

Lemma usage_reachable u : 0 ≤ max_attempts → rtc usage_step unused u → usage_inv u.
Proof.
  intros Hm. apply (rtc_ind_r (λ u, usage_inv u)).
  - by apply usage_empty.
  - intros x y _ Hs Hi. destruct Hs as [c st h now keys st' o Hc Hr|c st h a Ha|c st h now key Hc|c st h].
    + by eapply usage_reserve.
    + by apply usage_release.
    + by eapply usage_count.
    + by apply usage_empty.
Qed.
End limiter.

(** ** The properties *)

(** The limiter answers as the whole history would: whatever calls came before, an
    attempt is granted exactly when every one of its keys has fewer than [max_attempts]
    attempts that were granted within the window and not released; pruning never changes
    an answer. *)
Theorem limiter_is_exact max_attempts window u now keys st' o :
  0 ≤ max_attempts → rtc (usage_step max_attempts window) unused u → us_clock u ≤ now →
  try_reserve max_attempts window now keys (us_state u) = Ok (st', o) →
  o ≠ None ↔ ∀ key, key ∈ keys → Z.of_nat (length (live window now key (us_history u))) < max_attempts.
Proof.
  intros Hm Hr Hc Ht. pose proof (usage_reachable max_attempts window u Hm Hr) as Hi. destruct u as [c st h].
  by apply (usage_reserve max_attempts window c st h now keys st' o Hi Hc Ht).
Qed.

(** No key ever has more than its budget of attempts in flight: at any time in any use,
    at most [max_attempts] granted, unreleased attempts of a key lie within the window,
    and that is the number [count] reports. *)
Theorem limiter_budget max_attempts window u now key :
  0 ≤ max_attempts → rtc (usage_step max_attempts window) unused u → us_clock u ≤ now →
  Z.of_nat (length (live window now key (us_history u))) ≤ max_attempts ∧
  (count_live window now key (us_state u)).2 = Z.of_nat (length (live window now key (us_history u))).
Proof.
  intros Hm Hr Hc. pose proof (usage_reachable max_attempts window u Hm Hr) as Hi. destruct u as [c st h]. cbn in Hc.
  pose proof (usage_count max_attempts window c st h now key Hi Hc) as Hi'.
  split; [apply (ui_bound _ _ _ Hi')|]. unfold count_live. cbn [snd us_state us_history].
  rewrite hits_prune, decide_True by done. by rewrite (ui_live _ _ _ Hi).
Qed.

(** Two attempts on one camera, of at most two in ten. *)
Definition used_twice : Usage :=
  MkUsage 6 (MkLimiter {["cam" := [(5, 1); (6, 2)]]} 3) [MkAttempt 5 1 ["cam"]; MkAttempt 6 2 ["cam"]].
Lemma used_twice_reachable : rtc (usage_step 2 10) unused used_twice.
Proof.
  eapply rtc_l; [eapply (use_reserve 2 10 _ _ _ 5 ["cam"]); [lia|vm_compute; reflexivity]|].
  eapply rtc_l; [eapply (use_reserve 2 10 _ _ _ 6 ["cam"; "cam"]); [lia|vm_compute; reflexivity]|].
  match goal with |- rtc _ ?x ?y => replace x with y; [apply rtc_refl|vm_compute; reflexivity] end.
Qed.

Lemma limiter_is_exact_witness :
  (None : option Reservation) ≠ None ↔
  ∀ key, key ∈ ["user"; "cam"] → Z.of_nat (length (live 10 8 key (us_history used_twice))) < 2.
Proof.
  apply (limiter_is_exact 2 10 used_twice 8 ["user"; "cam"]
    (MkLimiter {["cam" := [(5, 1); (6, 2)]]} 3) None).
  - lia.
  - exact used_twice_reachable.
  - cbn. lia.
  - vm_compute. reflexivity.
Defined.

Lemma limiter_budget_witness :
  Z.of_nat (length (live 10 8 "cam" (us_history used_twice))) ≤ 2 ∧
  (count_live 10 8 "cam" (us_state used_twice)).2 = Z.of_nat (length (live 10 8 "cam" (us_history used_twice))).
Proof. apply (limiter_budget 2 10 used_twice 8 "cam"); [lia|exact used_twice_reachable|cbn; lia]. Defined.
