(* ===== verification/BatchedDelete.v ===== *)
(** * Deletes in bounded batches: db/batched_delete.py

    Rows of any table, in the order of their ids; [build] is the row selection of the
    statement builder, evaluated in the table as it is at each batch. *)

From S2P Require Import Prelude.
From stdpp Require Import options.
Local Open Scope Z_scope.

(** One batch: [DELETE ... WHERE id IN (SELECT id ... ORDER BY id LIMIT limit)]. *)
Fixpoint delete_first {A} (limit : nat) (test : A → bool) (t : list A) : list A * nat :=
  match t with
  | [] => ([], 0%nat)
  | e :: rest =>
      match limit, test e with
      | S limit', true => let '(rest, n) := delete_first limit' test rest in (rest, S n)
      | _, _ => let '(rest, n) := delete_first limit test rest in (e :: rest, n)
      end
  end.

(** The loop of [prune_in_batches]; [batches] is what is left of [max_batches]. *)
Fixpoint prune_loop {A} (batches : nat) (build : list A → A → bool) (batch_size : nat) (total : Z)
    (t : list A) : list A * Z :=
  match batches with
  | O => (t, total)
  | S batches =>
      let '(t', deleted) := delete_first batch_size (build t) t in
      let total := total + Z.of_nat deleted in
      if (deleted <? batch_size)%nat then (t', total) else prune_loop batches build batch_size total t'
  end.
Definition prune_in_batches {A} (build : list A → A → bool) (batch_size max_batches : Z) (t : list A)
    : result (list A * Z) :=
  if batch_size <? 1 then Raise (ValueError "batch_size")
  else if max_batches <? 1 then Raise (ValueError "max_batches")
  else Ok (prune_loop (Z.to_nat max_batches) build (Z.to_nat batch_size) 0 t).

Lemma delete_first_spec {A} limit (test : A → bool) t t' n :
  delete_first limit test t = (t', n) →
  t' `sublist_of` t ∧ length t = (length t' + n)%nat ∧ (n ≤ limit)%nat ∧
  (∀ e, e ∈ t → e ∈ t' ∨ test e = true) ∧ ((n < limit)%nat → Forall (λ e, test e = false) t').
Proof.
  revert limit t' n. induction t as [|e t IH]; intros limit t' n; cbn.
  { intros [= <- <-]. split_and!; [constructor|done|lia|by left|constructor]. }
  destruct limit as [|limit]; [|destruct (test e) eqn:He].
  - destruct (delete_first 0 test t) as [rest k] eqn:Hd. intros [= <- <-].
    apply IH in Hd as (Hsub & Hlen & Hk & Hin & _). split_and!; [by constructor|cbn; lia|lia| |lia].
    intros x [->|Hx]%elem_of_cons; [by left; left|]. destruct (Hin x Hx); [left; by right|by right].
  - destruct (delete_first limit test t) as [rest k] eqn:Hd. intros [= <- <-].
    apply IH in Hd as (Hsub & Hlen & Hk & Hin & Hall). split_and!; [by constructor|cbn; lia|lia| |].
    + intros x [->|Hx]%elem_of_cons; [by right|by apply Hin].
    + intros ?. apply Hall. lia.
  - destruct (delete_first (S limit) test t) as [rest k] eqn:Hd. intros [= <- <-].
    apply IH in Hd as (Hsub & Hlen & Hk & Hin & Hall). split_and!; [by constructor|cbn; lia|lia| |].
    + intros x [->|Hx]%elem_of_cons; [by left; left|]. destruct (Hin x Hx); [left; by right|by right].
    + intros ?. constructor; [done|by apply Hall].
Qed.

(** With a selection that does not look at the other rows, a pass removes selected rows
    only, and all of them unless it ran into its cap. *)
Lemma prune_pass {A} (test : A → bool) batches batch_size total t t' n :
  prune_loop batches (λ _, test) batch_size total t = (t', n) →
  t' `sublist_of` t ∧ n = total + Z.of_nat (length t) - Z.of_nat (length t') ∧
  (∀ e, e ∈ t → e ∈ t' ∨ test e = true) ∧
  (n < total + Z.of_nat batches * Z.of_nat batch_size → Forall (λ e, test e = false) t').
Proof.
  revert total t. induction batches as [|batches IH]; intros total t; cbn [prune_loop].
  { intros [= <- <-]. split_and!; [done|lia|by left|lia]. }
  destruct (delete_first _ _ t) as [t1 k] eqn:Hd.
  apply delete_first_spec in Hd as (Hsub & Hlen & Hk & Hin & Hall).
  destruct (Nat.ltb_spec k batch_size) as [Hlt|Hge].
  - intros [= <- <-]. split_and!; [done|lia|done|]. intros _. by apply Hall.
  - intros Hl. apply IH in Hl as (Hsub' & Hn & Hin' & Hall'). split_and!; [by etransitivity|lia| |].
    + intros e He. destruct (Hin e He) as [He1|?]; [|by right]. by apply Hin'.
    + intros Hlt. apply Hall'. nia.
Qed.
