(* ===== verification/Events.v ===== *)
(** * The event log: levels, alerts, routing and retention

    monitoring/events.py, monitoring/alerts.py, monitoring/routing.py,
    monitoring/event_retention.py and db/batched_delete.py over the rows of
    db/models/event.py.

    The table is the list of its rows in the order of their ids.  SQLite gives a new row
    the id after the largest one ([event] is not AUTOINCREMENT), so an insert appends; an
    UPDATE maps over the rows and reports how many it changed; a DELETE filters them.
    Times are microseconds of naive UTC, as stored.  Of the JSON details only the string
    markers are kept ([type], [reason] and what else a writer stores); the redaction of
    secrets on the way in and the text of the messages are not modelled. *)

From Stdlib Require Import SpecFloat.
From S2P Require Import Prelude PyTime BatchedDelete PyVal.
From stdpp Require Import sorting options.
Local Open Scope Z_scope.

(** ** Levels *)
Inductive level := lv_debug | lv_info | lv_warning | lv_error | lv_critical.
#[export] Instance level_eq_dec : EqDecision level.
Proof. solve_decision. Defined.

(** [_LEVEL_RANK]: the names in order, with their ranks. *)
Definition LEVELS : list level := [lv_debug; lv_info; lv_warning; lv_error; lv_critical].
Definition level_name (l : level) : string :=
  match l with
  | lv_debug => "debug" | lv_info => "info" | lv_warning => "warning"
  | lv_error => "error" | lv_critical => "critical"
  end.
Definition level_rank (l : level) : Z :=
  match l with lv_debug => 0 | lv_info => 1 | lv_warning => 2 | lv_error => 3 | lv_critical => 4 end.
(** [_LEVEL_RANK.get(floor)] *)
Definition rank_of (name : string) : option Z :=
  level_rank <$> list_find (λ l, level_name l = name) LEVELS ≫= λ p, Some p.2.

(** [_levels_at_or_above] *)
Definition levels_at_or_above (floor : string) : list level :=
  match rank_of floor with
  | None => LEVELS
  | Some floor_rank => filter (λ l, floor_rank ≤ level_rank l) LEVELS
  end.

(** ** Rows *)
Inductive event_scope := scope_system | scope_camera | scope_project.
#[export] Instance event_scope_eq_dec : EqDecision event_scope.
Proof. solve_decision. Defined.

Record Event := MkEvent {
  ev_id : Z;
  ev_scope : event_scope;
  ev_scope_id : option Z;
  ev_level : level;
  ev_timestamp : Z;
  ev_metadata : option (gmap string string);
  ev_alert_cleared_at : option Z;
  ev_alert_cleared_by : option Z;
  ev_alert_clear_reason : option string;
}.
Notation events := (list Event).

(** [_type_of] ([_event_type_of] with an empty text for none) and [_reason_of] *)
Definition detail (key : string) (e : Event) : option string := ev_metadata e ≫= lookup key.
Definition type_of (e : Event) : option string := detail "type" e.
Definition reason_of (e : Event) : option string := detail "reason" e.

(** [func.max(Event.id)], 0 for an empty table. *)
Definition newest_id (t : events) : Z := foldr Z.max 0 (ev_id <$> t).

(** [_build_details] with the redacted metadata. *)
Definition build_details (type : option string) (metadata : option (gmap string string))
    : option (gmap string string) :=
  match type, metadata with
  | None, None => None
  | _, _ =>
      let details := default ∅ metadata in
      Some (match type with Some ty => <["type" := ty]> details | None => details end)
  end.

(** [log_event]: one new row; the insert can fail, and then leaves the table alone. *)
Definition log_event (inserts : bool) (scope : event_scope) (scope_id : option Z) (lv : level)
    (type : option string) (metadata : option (gmap string string)) (now : Z) (t : events) : events :=
  if inserts
  then t ++ [MkEvent (newest_id t + 1) scope scope_id lv now (build_details type metadata) None None None]
  else t.

(** ** Alerts (monitoring/alerts.py) *)
Definition ALERT_LEVEL_THRESHOLD : string := "warning".
Definition OPEN_ALERT_INDEX_LEVELS : list level := [lv_warning; lv_error; lv_critical].

Definition RESOLVE_TO_RAISE_REASONS (reason : string) : list string :=
  if String.eqb reason "disk_recovered" then ["low_disk"]
  else if String.eqb reason "camera_recovered" then ["camera_offline"]
  else if String.eqb reason "anchor_recovered" then ["anchor_failed"]
  else if String.eqb reason "events_available" then ["events_unavailable"]
  else [].

(** [set(a) <= set(b)] *)
Definition levels_within (a b : list level) : bool := bool_decide (Forall (λ l, l ∈ b) a).

(** [_open_alert_criteria]: the WHERE terms, as a test of one row. *)
Definition open_alert_criteria (levels : list level) (e : Event) : bool :=
  bool_decide (ev_alert_cleared_at e = None) &&
  (if negb (levels_within levels OPEN_ALERT_INDEX_LEVELS) then bool_decide (ev_level e ∈ levels)
   else bool_decide (ev_level e ∈ OPEN_ALERT_INDEX_LEVELS) &&
        (levels_within OPEN_ALERT_INDEX_LEVELS levels || bool_decide (ev_level e ∈ levels))).

(** [ORDER BY timestamp DESC, id DESC] *)
Definition newer_first (e1 e2 : Event) : Prop :=
  ev_timestamp e2 < ev_timestamp e1 ∨ (ev_timestamp e1 = ev_timestamp e2 ∧ ev_id e2 ≤ ev_id e1).
#[export] Instance newer_first_dec e1 e2 : Decision (newer_first e1 e2).
Proof. unfold newer_first. apply _. Defined.
Definition page (limit offset : Z) (rows : events) : events :=
  take (Z.to_nat (Z.max 1 limit)) (drop (Z.to_nat (Z.max 0 offset)) (merge_sort newer_first rows)).

(** [get_active_alerts]: the page of rows (their snapshot copies the row) and the total. *)
Definition get_active_alerts (scope : option event_scope) (scope_id : option Z) (level_floor : option string)
    (limit offset : Z) (t : events) : events * Z :=
  let levels := levels_at_or_above (default ALERT_LEVEL_THRESHOLD level_floor) in
  let rows := filter (λ e, open_alert_criteria levels e = true ∧
                           (scope = None ∨ scope = Some (ev_scope e)) ∧
                           (scope_id = None ∨ scope_id = ev_scope_id e)) t in
  (page limit offset rows, Z.of_nat (length rows)).

(** [_apply_event_filters] *)
Definition event_filters (scope : option event_scope) (scope_id : option Z) (level_floor : option string)
    (e : Event) : Prop :=
  (scope = None ∨ scope = Some (ev_scope e)) ∧ (scope_id = None ∨ scope_id = ev_scope_id e) ∧
  match level_floor with Some floor => ev_level e ∈ levels_at_or_above floor | None => True end.
#[export] Instance event_filters_dec scope scope_id level_floor e :
  Decision (event_filters scope scope_id level_floor e).
Proof. unfold event_filters. destruct level_floor; apply _. Defined.

(** [get_events] *)
Definition get_events (scope : option event_scope) (scope_id : option Z) (level_floor : option string)
    (limit offset : Z) (t : events) : events * Z :=
  let rows := filter (event_filters scope scope_id level_floor) t in
  (page limit offset rows, Z.of_nat (length rows)).

Definition AUDIT_EVENT_TYPES : list string := ["audit.control_action"; "security.auth_event"].
Definition is_audit (e : Event) : bool :=
  match type_of e with Some ty => bool_decide (ty ∈ AUDIT_EVENT_TYPES) | None => false end.

(** [get_audit_events] *)
Definition get_audit_events (role : option string) (scope : option event_scope) (scope_id : option Z)
    (level_floor : option string) (limit offset : Z) (t : events) : result (events * Z) :=
  if bool_decide (role = Some "admin")
  then Ok (get_events scope scope_id level_floor limit offset (filter (λ e, is_audit e = true) t))
  else Raise PermissionError.

(** An active alert: uncleared and at or above the threshold. *)
Definition is_open_alert (e : Event) : bool :=
  bool_decide (ev_alert_cleared_at e = None) &&
  bool_decide (ev_level e ∈ levels_at_or_above ALERT_LEVEL_THRESHOLD).

Definition cleared (by_ : option Z) (reason : string) (now : Z) (e : Event) : Event :=
  MkEvent (ev_id e) (ev_scope e) (ev_scope_id e) (ev_level e) (ev_timestamp e) (ev_metadata e)
    (Some now) by_ (Some reason).

(** [UPDATE event SET ... WHERE test]; the row count is the number of rows that pass. *)
Definition update_where (test : Event → bool) (change : Event → Event) (t : events) : events * Z :=
  ((λ e, if test e then change e else e) <$> t, Z.of_nat (length (filter (λ e, test e = true) t))).

(** [clear_alert] *)
Definition clear_alert (event_id user_id now : Z) (t : events) : events * Z :=
  update_where (λ e, (ev_id e =? event_id) && is_open_alert e) (cleared (Some user_id) "manual" now) t.

(** [clear_all_alerts] *)
Definition clear_all_alerts (user_id now : Z) (t : events) : events * Z :=
  update_where is_open_alert (cleared (Some user_id) "manual" now) t.

(** The WHERE clause of [auto_clear_for_event]. *)
Definition resolves (scope : event_scope) (scope_id : option Z) (reason : string)
    (resolve_event_id : option Z) (e : Event) : bool :=
  bool_decide (ev_alert_cleared_at e = None) && bool_decide (ev_scope e = scope) &&
  match reason_of e with Some r => bool_decide (r ∈ RESOLVE_TO_RAISE_REASONS reason) | None => false end &&
  bool_decide (ev_scope_id e = scope_id) &&
  match resolve_event_id with Some i => ev_id e <? i | None => true end.

(** [auto_clear_for_event] *)
Definition auto_clear_for_event (scope : event_scope) (scope_id : option Z) (reason : option string)
    (resolve_event_id : option Z) (now : Z) (t : events) : events * Z :=
  match reason with
  | None => (t, 0)
  | Some reason =>
      match RESOLVE_TO_RAISE_REASONS reason with
      | [] => (t, 0)
      | _ => update_where (resolves scope scope_id reason resolve_event_id) (cleared None "auto" now) t
      end
  end.

(** ** Routing (monitoring/routing.py) *)
Definition NOTIFY_DELIVERY_FAILED : string := "notify.delivery_failed".

(** [_type_matches] *)
Definition type_matches (event_type : string) (event_types : pyval) : bool :=
  match event_types with
  | PList l => existsb (λ v, val_eq_str v "all") l || existsb (λ v, val_eq_str v event_type) l
  | _ => false
  end.

(** [_level_meets] *)
Definition level_meets (lv : level) (min_level : pyval) : bool :=
  match min_level with
  | PStr name => bool_decide (lv ∈ levels_at_or_above name)
  | _ => true
  end.

(** [str(c)] for the entries of a rule's [channels]; stored rules hold names, and another
    value turns into a text no channel is called. *)
Definition channel_name (v : pyval) : option string :=
  match v with PStr s => Some s | _ => None end.

(** [evaluate_routing_rules] *)
Definition rule_channels (event_type : string) (lv : level) (rule : pyval) : list string :=
  match rule with
  | PDict kvs =>
      if negb (type_matches event_type (dict_get kvs "event_types" PNone)) then []
      else if negb (level_meets lv (dict_get kvs "min_level" PNone)) then []
      else match dict_get kvs "channels" PNone with PList l => omap channel_name l | _ => [] end
  | _ => []
  end.
Definition evaluate_routing_rules (event_type : string) (lv : level) (routing_rules : pyval) : gset string :=
  if String.eqb event_type NOTIFY_DELIVERY_FAILED then ∅
  else match routing_rules with
       | PList rules => list_to_set (mjoin (rule_channels event_type lv <$> rules))
       | _ => ∅
       end.

(** ** Retention (monitoring/event_retention.py) *)
Record EventRetention := MkRetention {
  er_info_days : Z;
  er_cleared_alert_days : Z;
  er_batch_size : Z;
}.

(** The two rules of [event_prune_predicate], as the test of one row. *)
Definition info_rule (r : EventRetention) (now : Z) (e : Event) : bool :=
  (0 <? er_info_days r) && bool_decide (ev_level e = lv_debug ∨ ev_level e = lv_info) &&
  (ev_timestamp e <? now - er_info_days r * DAY).
Definition cleared_rule (r : EventRetention) (now : Z) (e : Event) : bool :=
  (0 <? er_cleared_alert_days r) &&
  match ev_alert_cleared_at e with Some at_ => at_ <? now - er_cleared_alert_days r * DAY | None => false end.

(** [event_prune_predicate], evaluated in a table ([newest_id] is a sub-select). *)
Definition event_prune_predicate (r : EventRetention) (now : Z) (t : events) (e : Event) : bool :=
  (info_rule r now e || cleared_rule r now e) && negb (is_audit e) && (ev_id e <? newest_id t).

Definition EVENT_PRUNE_MAX_BATCHES : Z := 20.
(** [prune_events] *)
Definition prune_events (r : EventRetention) (now max_batches : Z) (t : events) : result (events * Z) :=
  if negb (0 <? er_info_days r) && negb (0 <? er_cleared_alert_days r) then Ok (t, 0)
  else prune_in_batches (event_prune_predicate r now) (er_batch_size r) max_batches t.
