(* ===== verification/EventsFacts.v ===== *)
(** * Facts about the event log: pages, routing, retention, resolves *)

From S2P Require Import Prelude PyVal BatchedDelete Events.
From stdpp Require Import sorting options.
Local Open Scope Z_scope.

(** ** The table: ids grow from the first row to the last *)
Definition id_lt (e1 e2 : Event) : Prop := ev_id e1 < ev_id e2.
Definition table_ok (t : events) : Prop := StronglySorted id_lt t ∧ Forall (λ e, 0 < ev_id e) t.

Lemma newest_nonneg t : 0 ≤ newest_id t.
Proof. unfold newest_id. induction t as [|e t IH]; cbn; lia. Qed.
Lemma newest_ge t e : e ∈ t → ev_id e ≤ newest_id t.
Proof.
  unfold newest_id. induction t as [|x t IH]; [by intros ?%elem_of_nil|].
  intros [->|Hin]%elem_of_cons; cbn; [lia|]. specialize (IH Hin). lia.
Qed.
Lemma newest_app t1 t2 : newest_id (t1 ++ t2) = Z.max (newest_id t1) (newest_id t2).
Proof.
  pose proof (newest_nonneg t2). unfold newest_id in *. induction t1 as [|x t1 IH]; cbn in *; lia.
Qed.
Lemma newest_ids t t' : ev_id <$> t' = ev_id <$> t → newest_id t' = newest_id t.
Proof. unfold newest_id. by intros ->. Qed.
Lemma newest_in t : table_ok t → t ≠ [] → ∃ e, e ∈ t ∧ ev_id e = newest_id t.
Proof.
  intros [_ Hp]. induction t as [|x t IH]; [done|]. intros _.
  apply Forall_cons in Hp as [Hx Hp]. change (newest_id (x :: t)) with (Z.max (ev_id x) (newest_id t)).
  destruct (Z.max_spec (ev_id x) (newest_id t)) as [[Hlt ->]|[Hle ->]].
  - destruct t as [|y t]; [cbn in Hlt; lia|]. destruct IH as (e & Hin & He); [done..|].
    exists e. split; [by right|done].
  - exists x. split; [by left|done].
Qed.

Lemma newest_snoc t e : newest_id t ≤ ev_id e → newest_id (t ++ [e]) = ev_id e.
Proof. intros Hle. rewrite newest_app. pose proof (newest_nonneg t). cbn. unfold newest_id in *. lia. Qed.

Lemma table_ok_snoc t e : table_ok t → newest_id t < ev_id e → table_ok (t ++ [e]).
Proof.
  intros [Hs Hp] Hlt. pose proof (newest_nonneg t). split; [|apply Forall_app; split; [done|by repeat constructor; lia]].
  clear Hp. assert (Forall (λ x, id_lt x e) t) as Hall.
  { apply Forall_forall. intros x Hx. unfold id_lt. pose proof (newest_ge t x Hx). lia. }
  clear Hlt. induction Hs as [|x t Hs IH Hx]; cbn; [by repeat constructor|].
  apply Forall_cons in Hall as [Hxe Hall]. pose proof (newest_nonneg t). constructor; [by apply IH|].
  apply Forall_app. by split; [|constructor].
Qed.
Lemma table_ok_log inserts scope scope_id lv type metadata now t :
  table_ok t → table_ok (log_event inserts scope scope_id lv type metadata now t).
Proof. intros Ht. unfold log_event. destruct inserts; [|done]. apply table_ok_snoc; [done|cbn; lia]. Qed.

Lemma Forall_of_sublist (P : Event → Prop) t t' : t' `sublist_of` t → Forall P t → Forall P t'.
Proof. rewrite !Forall_forall. intros Hsub Hall e He. apply Hall. by eapply elem_of_sublist. Qed.
Lemma table_ok_sublist t t' : t' `sublist_of` t → table_ok t → table_ok t'.
Proof.
  intros Hsub [Hs Hp]. split; [|by eapply Forall_of_sublist].
  induction Hsub as [|x t1 t2 Hsub IH|x t1 t2 Hsub IH].
  - done.
  - apply StronglySorted_inv in Hs as [Hs Hx]. apply Forall_cons in Hp as [_ Hp]. constructor; [by apply IH|].
    by eapply Forall_of_sublist.
  - apply StronglySorted_inv in Hs as [Hs _]. apply Forall_cons in Hp as [_ Hp]. by apply IH.
Qed.
Lemma table_ok_ids t t' : ev_id <$> t' = ev_id <$> t → table_ok t → table_ok t'.
Proof.
  revert t'. induction t as [|x t IH]; intros [|x' t'] Heq; try done. cbn in Heq. injection Heq as Hx Heq.
  intros [[Hs Hx']%StronglySorted_inv [Hpx Hp]%Forall_cons]. destruct (IH t' Heq (conj Hs Hp)) as [Hs' Hp'].
  split; constructor; [done| |lia|done]. clear IH Hs Hs' Hp Hp'. unfold id_lt in *.
  revert t' Heq. induction t as [|y t IH]; intros [|y' t'] Heq; try done. cbn in Heq. injection Heq as Hy Heq.
  apply Forall_cons in Hx' as [Hy' Hx']. constructor; [lia|by apply IH].
Qed.

Lemma update_ids test change t :
  (∀ e, ev_id (change e) = ev_id e) → ev_id <$> (update_where test change t).1 = ev_id <$> t.
Proof.
  intros Hc. unfold update_where. cbn [fst]. rewrite <-list_fmap_compose. apply list_fmap_ext.
  intros i e _. cbn. case_match; [apply Hc|done].
Qed.

(** Rows are told apart by their ids. *)
Lemma table_unique t e1 e2 : table_ok t → e1 ∈ t → e2 ∈ t → ev_id e1 = ev_id e2 → e1 = e2.
Proof.
  intros [Hs _]. induction Hs as [|x t Hs IH Hx]; [by intros ?%elem_of_nil|]. rewrite Forall_forall in Hx.
  intros [->|H1]%elem_of_cons [->|H2]%elem_of_cons Heq; [done|..|by apply IH].
  - specialize (Hx _ H2). unfold id_lt in Hx. lia.
  - specialize (Hx _ H1). unfold id_lt in Hx. lia.
Qed.

(** ** Retention *)
(** Deleting rows below the newest one leaves the newest one. *)
Lemma newest_kept t t' :
  table_ok t → t' `sublist_of` t → (∀ e, e ∈ t → e ∈ t' ∨ ev_id e < newest_id t) → newest_id t' = newest_id t.
Proof.
  intros Ht Hsub Hin. apply Z.le_antisymm.
  - destruct t' as [|x t']; [apply newest_nonneg|].
    destruct (newest_in (x :: t')) as (e & He & <-); [by eapply table_ok_sublist|done|].
    apply newest_ge. by eapply elem_of_sublist.
  - destruct t as [|x t]; [apply newest_nonneg|]. destruct (newest_in (x :: t)) as (e & He & Heq); [done..|].
    destruct (Hin e He) as [He'|Hlt]; [|lia]. rewrite <-Heq. by apply newest_ge.
Qed.

Section retention.
Context (r : EventRetention) (now : Z).

Lemma prune_predicate_newest t t' e :
  newest_id t' = newest_id t → event_prune_predicate r now t' e = event_prune_predicate r now t e.
Proof. unfold event_prune_predicate. by intros ->. Qed.

Lemma prune_predicate_older t e : event_prune_predicate r now t e = true → ev_id e < newest_id t.
Proof. unfold event_prune_predicate. rewrite !andb_true_iff, Z.ltb_lt. tauto. Qed.

Lemma prune_loop_spec batches batch_size total t t' n :
  table_ok t → prune_loop batches (event_prune_predicate r now) batch_size total t = (t', n) →
  t' `sublist_of` t ∧ n = total + Z.of_nat (length t) - Z.of_nat (length t') ∧
  n ≤ total + Z.of_nat batches * Z.of_nat batch_size ∧
  (∀ e, e ∈ t → e ∈ t' ∨ event_prune_predicate r now t e = true) ∧ newest_id t' = newest_id t ∧
  (n < total + Z.of_nat batches * Z.of_nat batch_size →
   Forall (λ e, event_prune_predicate r now t' e = false) t').
Proof.
  revert total t. induction batches as [|batches IH]; intros total t Ht; cbn [prune_loop].
  { intros [= <- <-]. split_and!; [done|lia|lia|by left|done|lia]. }
  destruct (delete_first _ _ t) as [t1 k] eqn:Hd.
  apply delete_first_spec in Hd as (Hsub & Hlen & Hk & Hin & Hall).
  assert (newest_id t1 = newest_id t) as Hnew.
  { apply newest_kept; [done..|]. intros e He. destruct (Hin e He) as [?|?%prune_predicate_older]; [by left|by right]. }
  destruct (Nat.ltb_spec k batch_size) as [Hlt|Hge].
  - intros [= <- <-]. split_and!; [done|lia|nia|done|done|]. intros _. specialize (Hall Hlt).
    eapply Forall_impl; [exact Hall|]. intros e. cbn. by rewrite (prune_predicate_newest t t1).
  - intros Hl. apply IH in Hl as (Hsub' & Hn & Hle & Hin' & Hnew' & Hall'); [|by eapply table_ok_sublist].
    split_and!; [by etransitivity|lia|nia| |congruence|].
    + intros e He. destruct (Hin e He) as [He1|?]; [|by right]. destruct (Hin' e He1) as [?|Hp]; [by left|right].
      by rewrite <-(prune_predicate_newest t t1).
    + intros Hlt. apply Hall'. nia.
Qed.
End retention.

Lemma prune_events_keeps r now max_batches t t' n :
  table_ok t → prune_events r now max_batches t = Ok (t', n) → t' `sublist_of` t ∧ newest_id t' = newest_id t.
Proof.
  intros Ht. unfold prune_events, prune_in_batches. destruct (negb _ && negb _); [by intros [= <- <-]|].
  destruct (_ <? 1); [done|]. destruct (_ <? 1); [done|]. intros [= Hl].
  by apply prune_loop_spec in Hl as (? & _ & _ & _ & ? & _).
Qed.

Lemma open_alert_not_prunable r now t e : event_prune_predicate r now t e = true → is_open_alert e = false.
Proof.
  unfold event_prune_predicate, info_rule, cleared_rule, is_open_alert. rewrite !andb_true_iff, orb_true_iff.
  intros [[[Hr|Hr] _] _]; rewrite !andb_true_iff in Hr.
  - destruct Hr as [[_ Hl%bool_decide_eq_true] _]. apply andb_false_iff. right.
    by destruct Hl as [-> | ->]; vm_compute.
  - destruct Hr as [_ Hr]. destruct (ev_alert_cleared_at e); [|done]. done.
Qed.

(** ** Pages *)
#[local] Instance newer_first_trans : Transitive newer_first.
Proof. intros x y z. unfold newer_first. lia. Qed.
#[local] Instance newer_first_total : Total newer_first.
Proof. intros x y. unfold newer_first. lia. Qed.

(** The first [n] pages of a listing, of [limit] rows each, one after the other. *)
Fixpoint listing (n : nat) (limit : Z) (query : Z → events) : events :=
  match n with
  | O => []
  | S n => listing n limit query ++ query (Z.of_nat n * limit)
  end.

Lemma listing_take n limit rows :
  1 ≤ limit → listing n limit (λ offset, page limit offset rows) = take (n * Z.to_nat limit) (merge_sort newer_first rows).
Proof.
  intros Hl. induction n as [|n IH]; [done|]. cbn [listing]. rewrite IH. unfold page.
  replace (Z.to_nat (Z.max 1 limit)) with (Z.to_nat limit) by lia.
  replace (Z.to_nat (Z.max 0 (Z.of_nat n * limit))) with (n * Z.to_nat limit)%nat by nia.
  rewrite take_take_drop. f_equal. lia.
Qed.

(** ** Open alerts: the terms shaped for the partial index select the plain condition *)
Lemma levels_within_spec a b : levels_within a b = true ↔ ∀ l, l ∈ a → l ∈ b.
Proof. unfold levels_within. rewrite bool_decide_eq_true, Forall_forall. done. Qed.

Lemma open_criteria_plain levels e :
  open_alert_criteria levels e = true ↔ ev_alert_cleared_at e = None ∧ ev_level e ∈ levels.
Proof.
  unfold open_alert_criteria. rewrite andb_true_iff, bool_decide_eq_true.
  destruct (levels_within levels OPEN_ALERT_INDEX_LEVELS) eqn:Hin; cbn [negb].
  - rewrite andb_true_iff, orb_true_iff, !bool_decide_eq_true, levels_within_spec.
    rewrite levels_within_spec in Hin. naive_solver.
  - by rewrite bool_decide_eq_true.
Qed.

(** ** Auto-clear *)

(** [r] is the resolve signal of the alert [e]: a later event of the same subject whose
    reason answers the alert's. *)
Definition answers (r e : Event) : Prop :=
  ev_id e < ev_id r ∧ ev_scope e = ev_scope r ∧ ev_scope_id e = ev_scope_id r ∧
  ∃ raised resolve, reason_of e = Some raised ∧ reason_of r = Some resolve ∧
    raised ∈ RESOLVE_TO_RAISE_REASONS resolve.
#[export] Instance answers_dec r e : Decision (answers r e).
Proof.
  unfold answers. apply and_dec; [apply _|]. apply and_dec; [apply _|]. apply and_dec; [apply _|].
  destruct (reason_of e) as [raised|]; [|right; naive_solver].
  destruct (reason_of r) as [resolve|]; [|right; naive_solver].
  destruct (decide (raised ∈ RESOLVE_TO_RAISE_REASONS resolve)); [left|right]; naive_solver.
Defined.

(** What one pass over the event [r] does to a row. *)
Definition resolved_by (r : Event) (now : Z) (e : Event) : Event :=
  if decide (ev_alert_cleared_at e = None ∧ answers r e) then cleared None "auto" now e else e.

Lemma auto_clear_pass r now t :
  (auto_clear_for_event (ev_scope r) (ev_scope_id r) (reason_of r) (Some (ev_id r)) now t).1 =
  resolved_by r now <$> t.
Proof.
  unfold auto_clear_for_event, resolved_by. destruct (reason_of r) as [resolve|] eqn:Hr.
  - assert (∀ e, resolves (ev_scope r) (ev_scope_id r) resolve (Some (ev_id r)) e = true ↔
      ev_alert_cleared_at e = None ∧ answers r e) as Hiff.
    { intros e. unfold resolves, answers. rewrite !andb_true_iff, !bool_decide_eq_true, Z.ltb_lt, Hr.
      destruct (reason_of e) as [raised|]; [rewrite bool_decide_eq_true|]; naive_solver. }
    destruct (RESOLVE_TO_RAISE_REASONS resolve) as [|x xs] eqn:Hres.
    + cbn [fst]. rewrite <-(list_fmap_id t) at 1. apply list_fmap_ext. intros i e _.
      rewrite decide_False; [done|]. rewrite <-Hiff. unfold resolves. rewrite Hres.
      destruct (reason_of e); rewrite ?bool_decide_eq_false_2 by apply not_elem_of_nil; by rewrite ?andb_false_r.
    + unfold update_where. cbn [fst]. apply list_fmap_ext. intros i e _. case_decide as Hd.
      * by rewrite (proj2 (Hiff e) Hd).
      * rewrite <-Hiff in Hd. by destruct (resolves _ _ _ _ e).
  - cbn [fst]. rewrite <-(list_fmap_id t) at 1. apply list_fmap_ext. intros i e _.
    rewrite decide_False; [done|]. unfold answers. rewrite Hr. naive_solver.
Qed.

(** ** The properties *)

(** Paging through the active alerts shows every one of them exactly once, newest first:
    the pages one after the other, as many as the reported total needs, are the uncleared
    events at or above the floor (within the scope asked for), in order. *)
Theorem alert_listing_complete scope scope_id level_floor limit n t :
  1 ≤ limit → (get_active_alerts scope scope_id level_floor limit 0 t).2 ≤ Z.of_nat n * limit →
  let l := listing n limit (λ offset, (get_active_alerts scope scope_id level_floor limit offset t).1) in
  StronglySorted newer_first l ∧
  l ≡ₚ filter (λ e, (ev_alert_cleared_at e = None ∧
                     ev_level e ∈ levels_at_or_above (default ALERT_LEVEL_THRESHOLD level_floor)) ∧
                    (scope = None ∨ scope = Some (ev_scope e)) ∧ (scope_id = None ∨ scope_id = ev_scope_id e)) t.
Proof.
  intros Hl. unfold get_active_alerts. set (levels := levels_at_or_above _). cbn [fst snd].
  set (rows := filter _ t). intros Htot. rewrite listing_take by done.
  rewrite take_ge by (rewrite merge_sort_Permutation; nia). split; [apply StronglySorted_merge_sort; apply _|].
  rewrite merge_sort_Permutation. unfold rows. apply reflexive_eq, list_filter_iff. intros e.
  by rewrite open_criteria_plain.
Qed.

(** An event reaches exactly the channels of the rules that match it, and the report of
    a failed delivery reaches none, whatever the rules say: no delivery failure can cause
    another notification. *)
Theorem routing_exact event_type lv rules channel :
  channel ∈ evaluate_routing_rules event_type lv (PList rules) ↔
  event_type ≠ NOTIFY_DELIVERY_FAILED ∧
  ∃ kvs names, PDict kvs ∈ rules ∧ type_matches event_type (dict_get kvs "event_types" PNone) = true ∧
    level_meets lv (dict_get kvs "min_level" PNone) = true ∧
    dict_get kvs "channels" PNone = PList names ∧ PStr channel ∈ names.
Proof.
  unfold evaluate_routing_rules. destruct (String.eqb_spec event_type NOTIFY_DELIVERY_FAILED) as [->|Hne].
  { rewrite elem_of_empty. naive_solver. }
  rewrite elem_of_list_to_set, list_elem_of_join. split.
  - intros (names & Hc & (rule & -> & Hin)%list_elem_of_fmap). split; [done|].
    unfold rule_channels in Hc. destruct rule; try by apply elem_of_nil in Hc.
    destruct (type_matches _ _) eqn:Ht; [|by apply elem_of_nil in Hc]. cbn in Hc.
    destruct (level_meets _ _) eqn:Hlv; [|by apply elem_of_nil in Hc]. cbn in Hc.
    destruct (dict_get kvs "channels" PNone) eqn:Hch; try by apply elem_of_nil in Hc.
    apply list_elem_of_omap in Hc as (v & Hv & Hn). destruct v; try done. injection Hn as ->. by exists kvs, l.
  - intros (_ & kvs & names & Hin & Ht & Hlv & Hch & Hn). exists (rule_channels event_type lv (PDict kvs)).
    split; [|by apply list_elem_of_fmap; exists (PDict kvs)]. unfold rule_channels. rewrite Ht, Hlv, Hch. cbn.
    apply list_elem_of_omap. by exists (PStr channel).
Qed.

(** Retention deletes only what it may: every deleted row is older than its window, is
    not an active alert, not an audit or security record and not the newest row (so no id
    is ever given out twice); a pass deletes at most its cap, reports the number it
    deleted, and when it stops below the cap nothing prunable is left. *)
Theorem retention_keeps_what_matters r now max_batches t t' n :
  1 ≤ er_batch_size r → 1 ≤ max_batches → table_ok t → prune_events r now max_batches t = Ok (t', n) →
  t' `sublist_of` t ∧ newest_id t' = newest_id t ∧
  (∀ e, e ∈ t → e ∈ t' ∨ ((info_rule r now e = true ∨ cleared_rule r now e = true) ∧
                          is_open_alert e = false ∧ is_audit e = false)) ∧
  n = Z.of_nat (length t) - Z.of_nat (length t') ∧ n ≤ er_batch_size r * max_batches ∧
  (n < er_batch_size r * max_batches → Forall (λ e, event_prune_predicate r now t' e = false) t').
Proof.
  intros Hb Hm Ht. unfold prune_events, prune_in_batches. destruct (negb _ && negb _) eqn:Hoff.
  - intros [= <- <-]. apply andb_true_iff in Hoff as [H1 H2]. split_and!; [done|done|by left|lia|nia|].
    intros _. apply Forall_forall. intros e _. unfold event_prune_predicate, info_rule, cleared_rule.
    by destruct (0 <? er_info_days r), (0 <? er_cleared_alert_days r).
  - rewrite !(proj2 (Z.ltb_ge _ _)) by done. intros [= Hl].
    apply prune_loop_spec in Hl as (Hsub & Hn & Hle & Hin & Hnew & Hall); [|done].
    split_and!; [done|done| |lia|nia|intros ?; apply Hall; nia].
    intros e He. destruct (Hin e He) as [?|Hp]; [by left|right]. pose proof (open_alert_not_prunable _ _ _ _ Hp).
    unfold event_prune_predicate in Hp. rewrite !andb_true_iff, orb_true_iff, negb_true_iff in Hp. tauto.
Qed.
