(* ===== verification/Dispatcher.v ===== *)
(** * The notification dispatcher (monitoring/dispatcher.py)

    One process polls the event table, clears the alerts a new event resolves, starts a
    task per event that sends it to its channels, and keeps two marks in the singleton row
    of db/models/notification_cursor.py: what has been read, and below which every event
    has settled.  A process can be stopped or die at any point; the next one resumes from
    the row.

    The poll loop is a program counter over the awaits of [_poll_loop] and
    [_poll_and_launch]; a task is one over those of [_dispatch_event] and
    [_deliver_with_retry].  A worker thread that a cancelled task was waiting for goes on
    and lands later, or never ([pr_threads]).  Messages are the snapshots of their rows.
    The bound on concurrent sends, the timeouts and the sleeps only delay a step; how
    channels are built from the settings is left out ([apply_channels] gets their names). *)

From Stdlib Require Import SpecFloat.
From S2P Require Import Prelude PyTime PyVal Events.
From stdpp Require Import sorting options.
Local Open Scope Z_scope.

Definition POLL_BATCH_SIZE : nat := 200.

#[export] Instance event_scope_countable : Countable event_scope.
Proof.
  refine (inj_countable' (λ sc, match sc with scope_system => 0 | scope_camera => 1 | scope_project => 2 end%nat)
    (λ n, match n with O => scope_system | 1%nat => scope_camera | _ => scope_project end) _).
  by intros [].
Defined.

(** [(event_type, scope, scope_id, channel)] *)
Notation debounce_key := (string * event_scope * option Z * string)%type.

(** ** One dispatch *)
Inductive dispatch_pc :=
  | D_created (rules : pyval)
  | D_next (now : Z) (todo : list string)
  | D_sending (now : Z) (channel : string) (todo : list string) (attempt : Z)
  | D_cancelled.
Record Dispatch := MkDispatch { dp_event : Event; dp_pc : dispatch_pc }.

(** [_event_type_of]: the empty text for an untyped event. *)
Definition event_type_of (e : Event) : string := default "" (type_of e).
Definition key_of (e : Event) (channel : string) : debounce_key :=
  (event_type_of e, ev_scope e, ev_scope_id e, channel).

Definition name_le (a b : string) : Prop := String.leb a b = true.
#[export] Instance name_le_dec a b : Decision (name_le a b).
Proof. unfold name_le. apply _. Defined.
(** [sorted(targets)] *)
Definition sorted_names (targets : gset string) : list string := merge_sort name_le (elements targets).

(** ** The poll loop *)
Notation marks := (Z * Z)%type.
Notation batch := (list (Event * bool)).
Inductive loop_pc :=
  | L_ready
  | L_polled (b : batch)
  | L_cleared (b : batch)
  | L_persist
  | L_writing (m : marks)
  | L_stopped.

(** A worker thread that outlives the task that waited for it. *)
Inductive thread := T_cursor (m : marks) | T_clear (resolves : events).

Record Process := MkProcess {
  pr_read : Z;
  pr_floor : Z;
  pr_catchup_until : Z;
  pr_cutoff : option Z;
  pr_known : bool;
  pr_persisted : option marks;
  pr_in_flight : gmap Z Dispatch;
  pr_last_sent : gmap debounce_key Z;
  pr_channels : gset string;
  pr_loop : loop_pc;
  pr_stopped : bool;
  pr_threads : list thread;
}.

Definition set_loop (pc : loop_pc) (p : Process) : Process :=
  MkProcess (pr_read p) (pr_floor p) (pr_catchup_until p) (pr_cutoff p) (pr_known p) (pr_persisted p)
    (pr_in_flight p) (pr_last_sent p) (pr_channels p) pc (pr_stopped p) (pr_threads p).
Definition set_in_flight (m : gmap Z Dispatch) (p : Process) : Process :=
  MkProcess (pr_read p) (pr_floor p) (pr_catchup_until p) (pr_cutoff p) (pr_known p) (pr_persisted p)
    m (pr_last_sent p) (pr_channels p) (pr_loop p) (pr_stopped p) (pr_threads p).
Definition set_last_sent (m : gmap debounce_key Z) (p : Process) : Process :=
  MkProcess (pr_read p) (pr_floor p) (pr_catchup_until p) (pr_cutoff p) (pr_known p) (pr_persisted p)
    (pr_in_flight p) m (pr_channels p) (pr_loop p) (pr_stopped p) (pr_threads p).
Definition set_read (read : Z) (p : Process) : Process :=
  MkProcess read (pr_floor p) (pr_catchup_until p) (pr_cutoff p) (pr_known p) (pr_persisted p)
    (pr_in_flight p) (pr_last_sent p) (pr_channels p) (pr_loop p) (pr_stopped p) (pr_threads p).
Definition set_persisted (m : marks) (p : Process) : Process :=
  MkProcess (pr_read p) (pr_floor p) (pr_catchup_until p) (pr_cutoff p) (pr_known p) (Some m)
    (pr_in_flight p) (pr_last_sent p) (pr_channels p) (pr_loop p) (pr_stopped p) (pr_threads p).
Definition set_threads (ts : list thread) (p : Process) : Process :=
  MkProcess (pr_read p) (pr_floor p) (pr_catchup_until p) (pr_cutoff p) (pr_known p) (pr_persisted p)
    (pr_in_flight p) (pr_last_sent p) (pr_channels p) (pr_loop p) (pr_stopped p) ts.

(** [_is_stale_catchup] *)
Definition is_stale_catchup (p : Process) (e : Event) : bool :=
  match pr_cutoff p with
  | None => false
  | Some cutoff => if pr_catchup_until p <? ev_id e then false else ev_timestamp e <? cutoff
  end.

(** [_poll_new_events]; a failing query reads nothing. *)
Definition poll_new_events (readable : bool) (p : Process) (t : events) : batch :=
  if readable
  then (λ e, (e, negb (is_stale_catchup p e))) <$>
         take POLL_BATCH_SIZE (filter (λ e, pr_read p < ev_id e) t)
  else [].

(** [_end_catchup_if_passed] *)
Definition end_catchup_if_passed (p : Process) : Process :=
  match pr_cutoff p with
  | Some _ =>
      if pr_catchup_until p <=? pr_read p
      then MkProcess (pr_read p) (pr_floor p) (pr_catchup_until p) None (pr_known p) (pr_persisted p)
             (pr_in_flight p) (pr_last_sent p) (pr_channels p) (pr_loop p) (pr_stopped p) (pr_threads p)
      else p
  | None => p
  end.

(** [_apply_channels], and the mark that a poll has been made. *)
Definition apply_channels (update : option (gset string)) (p : Process) : Process :=
  MkProcess (pr_read p) (pr_floor p) (pr_catchup_until p) (pr_cutoff p) true (pr_persisted p)
    (pr_in_flight p) (pr_last_sent p) (default (pr_channels p) update) (pr_loop p) (pr_stopped p)
    (pr_threads p).

(** [_poll_and_launch] up to the auto-clear. *)
Definition poll (readable : bool) (update : option (gset string)) (t : events) (p : Process) : Process :=
  if (POLL_BATCH_SIZE <=? size (pr_in_flight p))%nat then set_loop L_persist p
  else
    let b := poll_new_events readable p t in
    let p := apply_channels update p in
    match b with
    | [] => set_loop L_persist (end_catchup_if_passed p)
    | _ => set_loop (L_polled b) p
    end.

(** The events of a batch that are run through the auto-clear. *)
Definition to_clear (p : Process) (b : batch) : events := filter (λ e, pr_floor p < ev_id e) b.*1.

(** [_auto_clear_alerts_sync] *)
Definition auto_clear_alerts_sync (rs : events) (now : Z) (t : events) : events :=
  foldl (λ t r, (auto_clear_for_event (ev_scope r) (ev_scope_id r) (reason_of r) (Some (ev_id r)) now t).1) t rs.

Definition is_dict (v : pyval) : bool := match v with PDict _ => true | _ => false end.
(** [_load_routing_rules]; [None] for a query that failed. *)
Definition load_routing_rules (stored : option pyval) : pyval :=
  match stored with
  | Some (PList rules) => PList (filter (λ r, is_dict r = true) rules)
  | _ => PList []
  end.

(** A task per deliverable event. *)
Definition register (rules : pyval) (b : batch) (in_flight : gmap Z Dispatch) : gmap Z Dispatch :=
  foldl (λ m x, if (x.2 : bool) then <[ev_id x.1 := MkDispatch x.1 (D_created rules)]> m else m) in_flight b.

(** [_poll_and_launch] from the rules on: a task per deliverable event, then the read mark. *)
Definition launch (rules : pyval) (b : batch) (p : Process) : Process :=
  let read := match last b with Some x => Z.max (pr_read p) (ev_id x.1) | None => pr_read p end in
  set_loop L_persist (end_catchup_if_passed (set_in_flight (register rules b (pr_in_flight p)) (set_read read p))).

(** [_delivery_mark] *)
Definition delivery_mark (p : Process) : Z :=
  match foldl keep_min None (map_to_list (pr_in_flight p)).*1 with
  | Some lowest => lowest - 1
  | None => pr_read p
  end.

(** The loop goes back to sleep; a stop ends with its own write. *)
Definition after_cycle (p : Process) : Process :=
  set_loop (if pr_stopped p then L_stopped else L_ready) p.

(** [_persist_cursor] up to the write *)
Definition persist_cursor (p : Process) : Process :=
  let m := (delivery_mark p, pr_read p) in
  if negb (pr_known p) || bool_decide (Some m = pr_persisted p) then after_cycle p
  else set_loop (L_writing m) p.

(** [_write_cursor] *)
Definition write_cursor (m : marks) (cursor : option marks) : option marks :=
  match cursor with
  | Some c => Some (Z.max c.1 m.1, Z.max c.2 m.2)
  | None => Some m
  end.

(** ** Delivery *)
Section delivery.
Context (window max_retries : Z).

(** [max(1, self._settings.max_retries)] *)
Definition attempts : Z := Z.max 1 max_retries.

(** [_is_debounced] *)
Definition is_debounced (key : debounce_key) (now : Z) (p : Process) : bool :=
  match pr_last_sent p !! key with Some last => now - last <? window | None => false end.

(** [_prune_debounce] *)
Definition prune_debounce (now : Z) (p : Process) : Process :=
  set_last_sent (omap (λ ts, if window * 2 <? now - ts then None else Some ts) (pr_last_sent p)) p.

(** The [finally] of a send that was not delivered. *)
Definition release_key (key : debounce_key) (now : Z) (sent : gmap debounce_key Z) : gmap debounce_key Z :=
  if bool_decide (sent !! key = Some now) then delete key sent else sent.

Definition set_dispatch (id : Z) (d : Dispatch) (p : Process) : Process :=
  set_in_flight (<[id := d]> (pr_in_flight p)) p.

(** [_settled]: the task is done and leaves the map. *)
Definition settle (id : Z) (p : Process) : Process := set_in_flight (delete id (pr_in_flight p)) p.

(** [_dispatch_event] up to its loop: [None] when the event is routed nowhere. *)
Definition begin_dispatch (e : Event) (rules : pyval) (now : Z) (p : Process) : option (list string * Process) :=
  match sorted_names (evaluate_routing_rules (event_type_of e) (ev_level e) rules) with
  | [] => None
  | targets => Some (targets, prune_debounce now p)
  end.

(** One turn of the loop over the targets, up to the send: check and reserve in one go. *)
Definition next_channel (id : Z) (e : Event) (now : Z) (channel : string) (todo : list string) (p : Process)
    : Process :=
  if bool_decide (channel ∉ pr_channels p) || is_debounced (key_of e channel) now p
  then set_dispatch id (MkDispatch e (D_next now todo)) p
  else set_dispatch id (MkDispatch e (D_sending now channel todo 0))
         (set_last_sent (<[key_of e channel := now]> (pr_last_sent p)) p).

(** The end of a delivered send, and of one given up. *)
Definition delivered (id : Z) (e : Event) (now : Z) (channel : string) (todo : list string) (p : Process)
    : Process :=
  set_dispatch id (MkDispatch e (D_next now todo))
    (set_last_sent (<[key_of e channel := now]> (pr_last_sent p)) p).
Definition given_up (id : Z) (e : Event) (now : Z) (channel : string) (todo : list string) (p : Process)
    : Process :=
  set_dispatch id (MkDispatch e (D_next now todo))
    (set_last_sent (release_key (key_of e channel) now (pr_last_sent p)) p).

(** [_record_delivery_failure] *)
Definition record_delivery_failure (inserts : bool) (e : Event) (channel : string) (now : Z) (t : events) : events :=
  log_event inserts (ev_scope e) (ev_scope_id e) lv_error (Some NOTIFY_DELIVERY_FAILED)
    (Some (<["channel" := channel]> (<["failed_event_type" := event_type_of e]> ∅))) now t.

(** [stop] up to its last write: the loop and the dispatches are cancelled. *)
Definition cancelled_key (d : Dispatch) (sent : gmap debounce_key Z) : gmap debounce_key Z :=
  match dp_pc d with
  | D_sending now channel _ _ => release_key (key_of (dp_event d) channel) now sent
  | _ => sent
  end.
Definition left_running (p : Process) : list thread :=
  match pr_loop p with
  | L_writing m => [T_cursor m]
  | L_polled b => [T_clear (to_clear p b)]
  | _ => []
  end.
Definition stop (p : Process) : Process :=
  if pr_stopped p then p
  else MkProcess (pr_read p) (pr_floor p) (pr_catchup_until p) (pr_cutoff p) (pr_known p) (pr_persisted p)
         ((λ d, MkDispatch (dp_event d) D_cancelled) <$> pr_in_flight p)
         (foldr cancelled_key (pr_last_sent p) (map_to_list (pr_in_flight p)).*2)
         (pr_channels p) L_persist true (pr_threads p ++ left_running p).
End delivery.

(** ** Start *)
Record StartPosition := MkPosition {
  sp_delivery : Z;
  sp_read : Z;
  sp_catchup_until : Z;
  sp_cutoff : option Z;
  sp_persisted : bool;
}.
(** Which queries of a start succeed. *)
Record StartAnswers := MkAnswers { sa_newest : bool; sa_cursor : bool; sa_reset : bool; sa_count : bool }.

(** [_load_start_position], with the cursor row it leaves. *)
Definition load_start_position (catchup_max_age : Z) (a : StartAnswers) (now : Z) (t : events)
    (cursor : option marks) : result (StartPosition * option marks) :=
  if negb (sa_newest a) then Raise OSError
  else
    let newest := newest_id t in
    if negb (sa_cursor a) then Ok (MkPosition newest newest newest None false, cursor)
    else
      let reset :=
        if sa_reset a then Ok (MkPosition newest newest newest None true, Some (newest, newest))
        else Ok (MkPosition newest newest newest None false, cursor) in
      match cursor with
      | None => reset
      | Some (delivery, read) =>
          if newest <? delivery then reset
          else
            let read := Z.min (Z.max read delivery) newest in
            if newest <=? delivery then Ok (MkPosition delivery read delivery None true, cursor)
            else if negb (sa_count a) then Raise OSError
            else Ok (MkPosition delivery read newest (Some (now - catchup_max_age)) true, cursor)
      end.

(** [start]: an unreadable position is the beginning of the log. *)
Definition start (catchup_max_age : Z) (a : StartAnswers) (channels : gset string) (now : Z) (t : events)
    (cursor : option marks) : Process * option marks :=
  let '(pos, cursor) :=
    match load_start_position catchup_max_age a now t cursor with
    | Ok r => r
    | Raise _ => (MkPosition 0 0 0 None false, cursor)
    end in
  (MkProcess (sp_delivery pos) (sp_read pos) (sp_catchup_until pos) (sp_cutoff pos) (sp_persisted pos)
     (if sp_persisted pos then Some (sp_delivery pos, sp_read pos) else None)
     ∅ ∅ channels L_ready false [], cursor).

(** ** The process and its surroundings

    Ghosts: the events whose dispatch ended ([s_settled]); those left out on purpose, by a
    start with no cursor to resume from ([s_unseen]) or because they were older than a
    start's cutoff ([s_stale]); the events run through the auto-clear ([s_resolved]) and
    those whose pass failed ([s_failed]); the starts so far, each with its wall clock and
    the newest id of the log it found ([s_starts]).  [s_mono] is the monotonic clock of the
    event loop. *)

Record Site := MkSite {
  s_events : events;
  s_cursor : option marks;
  s_proc : option Process;
  s_mono : Z;
  s_settled : gset Z;
  s_unseen : gset Z;
  s_stale : gmap Z Z;
  s_resolved : events;
  s_failed : events;
  s_starts : list (Z * Z);
}.

Definition set_events (t : events) (s : Site) : Site :=
  MkSite t (s_cursor s) (s_proc s) (s_mono s) (s_settled s) (s_unseen s) (s_stale s) (s_resolved s) (s_failed s) (s_starts s).
Definition set_cursor (c : option marks) (s : Site) : Site :=
  MkSite (s_events s) c (s_proc s) (s_mono s) (s_settled s) (s_unseen s) (s_stale s) (s_resolved s) (s_failed s) (s_starts s).
Definition set_proc (p : option Process) (s : Site) : Site :=
  MkSite (s_events s) (s_cursor s) p (s_mono s) (s_settled s) (s_unseen s) (s_stale s) (s_resolved s) (s_failed s) (s_starts s).
Definition tick (mono : Z) (s : Site) : Site :=
  MkSite (s_events s) (s_cursor s) (s_proc s) mono (s_settled s) (s_unseen s) (s_stale s) (s_resolved s) (s_failed s) (s_starts s).
Definition mark_settled (id : Z) (s : Site) : Site :=
  MkSite (s_events s) (s_cursor s) (s_proc s) (s_mono s) ({[id]} ∪ s_settled s) (s_unseen s) (s_stale s) (s_resolved s)
    (s_failed s) (s_starts s).
Definition note_start (now : Z) (ids : gset Z) (s : Site) : Site :=
  MkSite (s_events s) (s_cursor s) (s_proc s) (s_mono s) (s_settled s) (ids ∪ s_unseen s) (s_stale s)
    (s_resolved s) (s_failed s) ((now, newest_id (s_events s)) :: s_starts s).
Definition mark_stale (ids : list Z) (cutoff : Z) (s : Site) : Site :=
  MkSite (s_events s) (s_cursor s) (s_proc s) (s_mono s) (s_settled s) (s_unseen s)
    (foldr (λ id m, <[id := cutoff]> m) (s_stale s) ids) (s_resolved s) (s_failed s) (s_starts s).
Definition note_clear (ok : bool) (rs : events) (s : Site) : Site :=
  MkSite (s_events s) (s_cursor s) (s_proc s) (s_mono s) (s_settled s) (s_unseen s) (s_stale s)
    (if ok then s_resolved s ++ rs else s_resolved s) (if ok then s_failed s else s_failed s ++ rs) (s_starts s).

(** A start has no cursor to resume from: the row was not read, there is none, or it lies
    beyond the log (an older database was restored). *)
Definition no_cursor (a : StartAnswers) (cursor : option marks) (t : events) : bool :=
  negb (sa_cursor a) || match cursor with Some (delivery, _) => newest_id t <? delivery | None => true end.
(** The ids such a start leaves behind: everything logged so far.  When the newest id is not
    read either, nothing is. *)
Definition passed_over (a : StartAnswers) (cursor : option marks) (t : events) : gset Z :=
  if sa_newest a && no_cursor a cursor t then list_to_set (ev_id <$> t) else ∅.

Section site.
Context (window max_retries catchup_max_age : Z).

Inductive notify_step : Site → Site → Prop :=
  (** what the rest of the program does to the table *)
  | n_log s scope scope_id lv type metadata now :
      notify_step s (set_events (log_event true scope scope_id lv type metadata now (s_events s)) s)
  | n_clear_alert s event_id user_id now :
      notify_step s (set_events (clear_alert event_id user_id now (s_events s)).1 s)
  | n_clear_all s user_id now :
      notify_step s (set_events (clear_all_alerts user_id now (s_events s)).1 s)
  | n_prune s r now max_batches t n :
      prune_events r now max_batches (s_events s) = Ok (t, n) → notify_step s (set_events t s)
  | n_tick s mono : s_mono s ≤ mono → notify_step s (tick mono s)
  (** the poll loop *)
  | n_poll s p readable update :
      s_proc s = Some p → pr_loop p = L_ready →
      notify_step s (set_proc (Some (poll readable update (s_events s) p)) s)
  | n_auto_clear s p b ok now :
      s_proc s = Some p → pr_loop p = L_polled b →
      notify_step s
        (note_clear ok (to_clear p b)
           (set_events (if (ok : bool) then auto_clear_alerts_sync (to_clear p b) now (s_events s) else s_events s)
              (set_proc (Some (set_loop (L_cleared b) p)) s)))
  | n_launch s p b stored :
      s_proc s = Some p → pr_loop p = L_cleared b →
      notify_step s
        (mark_stale (ev_id <$> (filter (λ x, x.2 = false) b).*1) (default 0 (pr_cutoff p))
           (set_proc (Some (launch (load_routing_rules stored) b p)) s))
  | n_persist s p :
      s_proc s = Some p → pr_loop p = L_persist →
      notify_step s (set_proc (Some (persist_cursor p)) s)
  | n_written s p m :
      s_proc s = Some p → pr_loop p = L_writing m →
      notify_step s (set_cursor (write_cursor m (s_cursor s)) (set_proc (Some (after_cycle (set_persisted m p))) s))
  | n_not_written s p m :
      s_proc s = Some p → pr_loop p = L_writing m →
      notify_step s (set_proc (Some (after_cycle p)) s)
  (** the dispatches *)
  | n_routed_nowhere s p id e rules :
      s_proc s = Some p → pr_in_flight p !! id = Some (MkDispatch e (D_created rules)) →
      begin_dispatch window e rules (s_mono s) p = None →
      notify_step s (mark_settled id (set_proc (Some (settle id p)) s))
  | n_begin s p id e rules todo p' :
      s_proc s = Some p → pr_in_flight p !! id = Some (MkDispatch e (D_created rules)) →
      begin_dispatch window e rules (s_mono s) p = Some (todo, p') →
      notify_step s (set_proc (Some (set_dispatch id (MkDispatch e (D_next (s_mono s) todo)) p')) s)
  | n_channel s p id e now channel todo :
      s_proc s = Some p → pr_in_flight p !! id = Some (MkDispatch e (D_next now (channel :: todo))) →
      notify_step s (set_proc (Some (next_channel window id e now channel todo p)) s)
  | n_delivered s p id e now channel todo attempt :
      s_proc s = Some p → pr_in_flight p !! id = Some (MkDispatch e (D_sending now channel todo attempt)) →
      notify_step s (set_proc (Some (delivered id e now channel todo p)) s)
  | n_retry s p id e now channel todo attempt :
      s_proc s = Some p → pr_in_flight p !! id = Some (MkDispatch e (D_sending now channel todo attempt)) →
      attempt + 1 < attempts max_retries →
      notify_step s (set_proc (Some (set_dispatch id (MkDispatch e (D_sending now channel todo (attempt + 1))) p)) s)
  | n_give_up s p id e now channel todo attempt inserts at_ :
      s_proc s = Some p → pr_in_flight p !! id = Some (MkDispatch e (D_sending now channel todo attempt)) →
      attempts max_retries ≤ attempt + 1 →
      notify_step s
        (set_events (record_delivery_failure inserts e channel at_ (s_events s))
           (set_proc (Some (given_up id e now channel todo p)) s))
  | n_settled s p id e now :
      s_proc s = Some p → pr_in_flight p !! id = Some (MkDispatch e (D_next now [])) →
      notify_step s (mark_settled id (set_proc (Some (settle id p)) s))
  (** stop, death, threads left behind, start *)
  | n_stop s p : s_proc s = Some p → notify_step s (set_proc (Some (stop p)) s)
  | n_late_cursor s p m ts :
      s_proc s = Some p → pr_threads p = T_cursor m :: ts →
      notify_step s (set_cursor (write_cursor m (s_cursor s)) (set_proc (Some (set_threads ts p)) s))
  | n_late_clear s p rs ts now :
      s_proc s = Some p → pr_threads p = T_clear rs :: ts →
      notify_step s
        (note_clear true rs (set_events (auto_clear_alerts_sync rs now (s_events s))
           (set_proc (Some (set_threads ts p)) s)))
  | n_exit s p : s_proc s = Some p → notify_step s (set_proc None s)
  | n_start s a channels now p cursor :
      s_proc s = None → start catchup_max_age a channels now (s_events s) (s_cursor s) = (p, cursor) →
      notify_step s
        (note_start now (passed_over a (s_cursor s) (s_events s))
           (set_cursor cursor (set_proc (Some p) s))).

Definition installed : Site := MkSite [] None None 0 ∅ ∅ ∅ [] [] [].
End site.
