(* ===== verification/DispatcherFacts.v ===== *)
(** * Facts about the notification dispatcher *)

From Stdlib Require Import SpecFloat.
From S2P Require Import Prelude PyTime PyVal Events EventsFacts Dispatcher.
From stdpp Require Import sorting options.
Local Open Scope Z_scope.
#[local] Arguments newest_id : simpl never.
#[local] Arguments POLL_BATCH_SIZE : simpl never.

(** ** What never changes in a row, and how the table evolves *)
Definition facts (e : Event) := (ev_id e, ev_scope e, ev_scope_id e, ev_timestamp e, ev_metadata e).

Lemma facts_id e e' : facts e = facts e' → ev_id e = ev_id e'.
Proof. unfold facts. congruence. Qed.
Lemma facts_reason e e' : facts e = facts e' → reason_of e = reason_of e'.
Proof. unfold facts, reason_of, detail. congruence. Qed.
Lemma facts_answers r r' e e' : facts r = facts r' → facts e = facts e' → answers r e → answers r' e'.
Proof.
  intros Hr He. unfold answers. rewrite (facts_reason _ _ Hr), (facts_reason _ _ He). unfold facts in *.
  injection Hr as -> -> -> _ _. by injection He as -> -> -> _ _.
Qed.

(** From [t] to [t']: new rows come after the newest one, old rows keep
    their facts and stay cleared, and a row is cleared automatically only by one of [rs]. *)
Record evolves (rs t t' : events) : Prop := {
  evo_ok : table_ok t → table_ok t';
  evo_newest : newest_id t ≤ newest_id t';
  evo_row : ∀ e', e' ∈ t' →
    newest_id t < ev_id e' ∨
    ∃ e, e ∈ t ∧ facts e = facts e' ∧ (ev_alert_cleared_at e ≠ None → ev_alert_cleared_at e' ≠ None);
  evo_auto : ∀ e', e' ∈ t' → ev_alert_clear_reason e' = Some "auto" →
    (∃ e, e ∈ t ∧ facts e = facts e' ∧ ev_alert_clear_reason e = Some "auto") ∨ ∃ r, r ∈ rs ∧ answers r e';
}.

Lemma evolves_refl t : evolves [] t t.
Proof. split; [done|lia|intros e He; right; by exists e|intros e He Hr; left; by exists e]. Qed.

Lemma evolves_log inserts scope scope_id lv type metadata now t :
  evolves [] t (log_event inserts scope scope_id lv type metadata now t).
Proof.
  unfold log_event. destruct inserts; [|apply evolves_refl].
  split.
  - intros Ht. apply table_ok_snoc; [done|cbn; lia].
  - rewrite newest_app. lia.
  - intros e' [He| ->%list_elem_of_singleton]%elem_of_app; [right; by exists e'|left; cbn; lia].
  - intros e' [He| ->%list_elem_of_singleton]%elem_of_app Hr; [left; by exists e'|done].
Qed.

Lemma evolves_sublist t t' :
  t' `sublist_of` t → newest_id t' = newest_id t → evolves [] t t'.
Proof.
  intros Hsub Hnew. assert (∀ e, e ∈ t' → e ∈ t) as Hin by (intros e He; by eapply elem_of_sublist).
  split; [by apply table_ok_sublist|lia| |].
  - intros e He. right. exists e. auto.
  - intros e He Hr. left. exists e. auto.
Qed.

(** An UPDATE of the alert columns. *)
Lemma evolves_update rs test by_ reason now t :
  (reason = "auto" → ∀ e, e ∈ t → test e = true → ∃ r, r ∈ rs ∧ answers r e) →
  evolves rs t (update_where test (cleared by_ reason now) t).1.
Proof.
  intros Hauto. pose proof (update_ids test (cleared by_ reason now) t (λ _, eq_refl)) as Hids. split.
  - by apply table_ok_ids.
  - by rewrite (newest_ids _ _ Hids).
  - intros e' (e & -> & He)%list_elem_of_fmap. right. exists e. by destruct (test e).
  - intros e' (e & -> & He)%list_elem_of_fmap. destruct (test e) eqn:Hte.
    + intros [= Hreason]. right. destruct (Hauto Hreason e He Hte) as (r & Hr & Ha). exists r.
      split; [done|]. by eapply facts_answers; [| |exact Ha].
    + left. by exists e.
Qed.

Lemma evolves_trans rs1 rs2 t1 t2 t3 : evolves rs1 t1 t2 → evolves rs2 t2 t3 → evolves (rs1 ++ rs2) t1 t3.
Proof.
  intros [Ho1 Hn1 Hr1 Ha1] [Ho2 Hn2 Hr2 Ha2]. split; [tauto|lia| |].
  - intros e3 He3. destruct (Hr2 e3 He3) as [?|(e2 & He2 & Hf2 & Hc2)]; [left; lia|].
    destruct (Hr1 e2 He2) as [Hid|(e1 & He1 & Hf1 & Hc1)].
    + left. by rewrite <-(facts_id _ _ Hf2).
    + right. exists e1. split; [done|]. split; [congruence|tauto].
  - intros e3 He3 Hr3. destruct (Ha2 e3 He3 Hr3) as [(e2 & He2 & Hf2 & Hr)|(r & Hin & Ha)].
    + destruct (Ha1 e2 He2 Hr) as [(e1 & He1 & Hf1 & Hr')|(r & Hin & Ha)].
      * left. exists e1. split; [done|]. split; [congruence|done].
      * right. exists r. split; [apply elem_of_app; by left|]. by eapply facts_answers; [| |exact Ha].
    + right. exists r. split; [apply elem_of_app; by right|done].
Qed.

Lemma resolved_by_facts r now e : facts (resolved_by r now e) = facts e.
Proof. unfold resolved_by. by case_decide. Qed.

Lemma evolves_pass r now t :
  evolves [r] t (auto_clear_for_event (ev_scope r) (ev_scope_id r) (reason_of r) (Some (ev_id r)) now t).1.
Proof.
  rewrite auto_clear_pass.
  assert (ev_id <$> (resolved_by r now <$> t) = ev_id <$> t) as Hids.
  { rewrite <-list_fmap_compose. apply list_fmap_ext. intros i e _. apply facts_id, resolved_by_facts. }
  split.
  - by apply table_ok_ids.
  - by rewrite (newest_ids _ _ Hids).
  - intros e' (e & -> & He)%list_elem_of_fmap. right. exists e. split; [done|].
    split; [by rewrite resolved_by_facts|]. unfold resolved_by. by case_decide.
  - intros e' (e & -> & He)%list_elem_of_fmap. unfold resolved_by. case_decide as Hd; [|intros ?; left; by exists e].
    intros _. right. exists r. split; [by apply list_elem_of_singleton|].
    by eapply facts_answers; [| |exact (proj2 Hd)].
Qed.

Lemma evolves_sync rs now t : evolves rs t (auto_clear_alerts_sync rs now t).
Proof.
  revert t. induction rs as [|r rs IH]; intros t; [apply evolves_refl|].
  change (r :: rs) with ([r] ++ rs) at 1. eapply evolves_trans; [apply evolves_pass|apply IH].
Qed.

Fixpoint resolved_all (rs : events) (now : Z) (e : Event) : Event :=
  match rs with
  | [] => e
  | r :: rs => resolved_all rs now (resolved_by r now e)
  end.

Lemma sync_rows rs now t : auto_clear_alerts_sync rs now t = resolved_all rs now <$> t.
Proof.
  revert t. induction rs as [|r rs IH]; intros t; [symmetry; apply list_fmap_id|].
  cbn [auto_clear_alerts_sync foldl]. rewrite auto_clear_pass.
  change (foldl _ ?x rs) with (auto_clear_alerts_sync rs now x). by rewrite IH, <-list_fmap_compose.
Qed.

Lemma resolved_all_facts rs now e : facts (resolved_all rs now e) = facts e.
Proof. revert e. induction rs as [|r rs IH]; intros e; [done|]. cbn. rewrite IH. apply resolved_by_facts. Qed.
Lemma resolved_all_cleared rs now e :
  ev_alert_cleared_at e ≠ None → ev_alert_cleared_at (resolved_all rs now e) ≠ None.
Proof.
  revert e. induction rs as [|r rs IH]; intros e; [done|]. cbn. intros Hc. apply IH.
  unfold resolved_by. by case_decide.
Qed.
Lemma resolved_all_answered rs now e r :
  r ∈ rs → answers r e → ev_alert_cleared_at (resolved_all rs now e) ≠ None.
Proof.
  revert e. induction rs as [|x rs IH]; intros e; [by intros ?%elem_of_nil|].
  intros [->|Hin]%elem_of_cons Ha; cbn.
  - apply resolved_all_cleared. unfold resolved_by. case_decide as Hd; [done|]. intros Hc. apply Hd. by split.
  - apply IH; [done|]. eapply facts_answers; [done| |exact Ha]. symmetry. apply resolved_by_facts.
Qed.

Lemma sync_clears rs now t r e :
  r ∈ rs → e ∈ auto_clear_alerts_sync rs now t → answers r e → ev_alert_cleared_at e ≠ None.
Proof.
  rewrite sync_rows. intros Hr (e0 & -> & _)%list_elem_of_fmap Ha. apply (resolved_all_answered _ _ _ r Hr).
  eapply facts_answers; [done|apply resolved_all_facts|exact Ha].
Qed.

(** ** The invariant *)
Definition through (s : Site) (id : Z) : Prop :=
  id ∈ s_settled s ∨ id ∈ s_unseen s ∨ is_Some (s_stale s !! id).
Definition heard_of (s : Site) (id : Z) : Prop :=
  id ∈ ev_id <$> s_resolved s ∨ id ∈ ev_id <$> s_failed s ∨ id ∈ s_unseen s.

(** Every row at or below [m] is through; every one at or below [r] was heard of. *)
Definition safe (s : Site) (m : Z) : Prop := ∀ e, e ∈ s_events s → ev_id e ≤ m → through s (ev_id e).
Definition heard (s : Site) (r : Z) : Prop := ∀ e, e ∈ s_events s → ev_id e ≤ r → heard_of s (ev_id e).

(** Marks that may be stored. *)
Definition marks_ok (s : Site) (m : marks) : Prop :=
  0 ≤ m.1 ≤ m.2 ∧ m.2 ≤ newest_id (s_events s) ∧ safe s m.1 ∧ heard s m.2.

(** Snapshots of rows. *)
Definition snapshots (s : Site) (rs : events) : Prop :=
  Forall (λ r, ev_id r ≤ newest_id (s_events s) ∧
               ∀ e, e ∈ s_events s → ev_id e = ev_id r → facts e = facts r) rs.

(** A batch: the next rows after the read mark, none left out. *)
Record batch_ok (s : Site) (p : Process) (b : batch) : Prop := {
  ba_length : (length b ≤ POLL_BATCH_SIZE)%nat;
  ba_backlog : (size (pr_in_flight p) < POLL_BATCH_SIZE)%nat;
  ba_after : ∀ x, x ∈ b → pr_read p < ev_id x.1;
  ba_snapshots : snapshots s b.*1;
  ba_all : ∀ x e, last b = Some x → e ∈ s_events s → pr_read p < ev_id e ≤ ev_id x.1 →
    ev_id e ∈ ev_id <$> b.*1;
  ba_last : ∀ x y, last b = Some x → y ∈ b → ev_id y.1 ≤ ev_id x.1;
  ba_stale : ∀ x, x ∈ b → x.2 = false → ∃ c, pr_cutoff p = Some c ∧ ev_timestamp x.1 < c;
}.

Definition thread_ok (s : Site) (th : thread) : Prop :=
  match th with T_cursor m => marks_ok s m | T_clear rs => snapshots s rs end.

Definition loop_ok (s : Site) (p : Process) : Prop :=
  match pr_loop p with
  | L_polled b => batch_ok s p b
  | L_cleared b => batch_ok s p b ∧ ∀ x, last b = Some x → heard s (ev_id x.1)
  | L_writing m => marks_ok s m
  | _ => True
  end.

Record proc_inv (s : Site) (p : Process) : Prop := {
  pi_read : 0 ≤ pr_read p ≤ newest_id (s_events s);
  pi_rows : ∀ e, e ∈ s_events s → ev_id e ≤ pr_read p → through s (ev_id e) ∨ is_Some (pr_in_flight p !! ev_id e);
  pi_heard : heard s (pr_read p);
  pi_floor : pr_floor p ≤ newest_id (s_events s) ∧ heard s (pr_floor p);
  pi_in_flight : ∀ id, is_Some (pr_in_flight p !! id) → 0 < id ≤ pr_read p;
  pi_backlog : (size (pr_in_flight p) < 2 * POLL_BATCH_SIZE)%nat;
  pi_threads : Forall (thread_ok s) (pr_threads p);
  pi_loop : loop_ok s p;
}.

Record site_inv (s : Site) : Prop := {
  si_table : table_ok (s_events s);
  si_cursor : ∀ m, s_cursor s = Some m → marks_ok s m;
  si_stale : ∀ e c, e ∈ s_events s → s_stale s !! ev_id e = Some c → ev_timestamp e < c;
  si_stale_old : ∀ id, is_Some (s_stale s !! id) → id ≤ newest_id (s_events s);
  si_snapshots : snapshots s (s_resolved s ++ s_failed s);
  si_sound : ∀ e, e ∈ s_events s → ev_alert_clear_reason e = Some "auto" → ∃ r, r ∈ s_resolved s ∧ answers r e;
  si_complete : ∀ r e, r ∈ s_resolved s → e ∈ s_events s → answers r e → ev_alert_cleared_at e ≠ None;
  si_proc : ∀ p, s_proc s = Some p → proc_inv s p;
}.

(** ** Frame lemmas

    The tables and ghosts of [s'] extend those of [s]: what was through or heard of still
    is, and the rows evolved. *)
Record extends (rs : events) (s s' : Site) : Prop := {
  ex_events : evolves rs (s_events s) (s_events s');
  ex_through : ∀ id, through s id → through s' id;
  ex_heard : ∀ id, heard_of s id → heard_of s' id;
}.

Lemma batch_newest s p b x : batch_ok s p b → last b = Some x → ev_id x.1 ≤ newest_id (s_events s).
Proof.
  intros Hb Hx. pose proof (ba_snapshots _ _ _ Hb) as Hsn. unfold snapshots in Hsn.
  rewrite Forall_forall in Hsn. destruct (Hsn x.1) as [? _]; [|done].
  apply list_elem_of_fmap. exists x. split; [done|]. by apply last_Some_elem_of.
Qed.

Section frame.
Context (rs : events) (s s' : Site) (Hex : extends rs s s').

Lemma old_row e' : e' ∈ s_events s' → ev_id e' ≤ newest_id (s_events s) →
  ∃ e, e ∈ s_events s ∧ facts e = facts e'.
Proof using Hex.
  intros He Hle. destruct (evo_row _ _ _ (ex_events _ _ _ Hex) e' He) as [?|(e & ? & ? & _)]; [lia|by exists e].
Qed.

Lemma safe_extends m : m ≤ newest_id (s_events s) → safe s m → safe s' m.
Proof using Hex.
  intros Hm Hs e' He' Hle. destruct (old_row e' He') as (e & He & Hf); [lia|].
  rewrite <-(facts_id _ _ Hf) in *. by apply (ex_through _ _ _ Hex), Hs.
Qed.
Lemma heard_extends m : m ≤ newest_id (s_events s) → heard s m → heard s' m.
Proof using Hex.
  intros Hm Hs e' He' Hle. destruct (old_row e' He') as (e & He & Hf); [lia|].
  rewrite <-(facts_id _ _ Hf) in *. by apply (ex_heard _ _ _ Hex), Hs.
Qed.
Lemma marks_extends m : marks_ok s m → marks_ok s' m.
Proof using Hex.
  intros (Hm & Hr & Hs & Hh). pose proof (evo_newest _ _ _ (ex_events _ _ _ Hex)).
  split_and!; [lia..|apply safe_extends; [lia|done]|by apply heard_extends].
Qed.
Lemma snapshots_extends l : snapshots s l → snapshots s' l.
Proof using Hex.
  intros Hl. pose proof (evo_newest _ _ _ (ex_events _ _ _ Hex)). eapply Forall_impl; [exact Hl|].
  intros r [Hle Hf]. split; [lia|]. intros e' He' Hid. destruct (old_row e' He') as (e & He & Hfe); [lia|].
  rewrite <-Hfe. apply Hf; [done|]. by rewrite (facts_id _ _ Hfe).
Qed.
Lemma thread_extends th : thread_ok s th → thread_ok s' th.
Proof using Hex. destruct th; [apply marks_extends|apply snapshots_extends]. Qed.

Lemma batch_extends p b : batch_ok s p b → batch_ok s' p b.
Proof using Hex.
  intros Hb. destruct (Hb) as [Hlen Hback Haft Hsn Hall Hlast Hst]. split; try done; [by apply snapshots_extends|].
  intros x e' Hx He' Hle. destruct (old_row e' He') as (e & He & Hf).
  { assert (ev_id x.1 ≤ newest_id (s_events s)) by (by apply (batch_newest s p b)). lia. }
  rewrite <-(facts_id _ _ Hf) in *. by apply (Hall x).
Qed.

Lemma loop_extends p : loop_ok s p → loop_ok s' p.
Proof using Hex.
  unfold loop_ok. destruct (pr_loop p) as [|b|b| |m|]; [done|by apply batch_extends| |done|apply marks_extends|done].
  intros [Hb Hh]. split; [by apply batch_extends|]. intros x Hx. apply heard_extends; [|by apply Hh].
  by eapply batch_newest.
Qed.

Lemma proc_extends p : proc_inv s p → proc_inv s' p.
Proof using Hex.
  intros [Hr Hrows Hh [Hfl Hf] Hin Hb Ht Hl]. pose proof (evo_newest _ _ _ (ex_events _ _ _ Hex)). split.
  - lia.
  - intros e' He' Hle. destruct (old_row e' He') as (e & He & Hfe); [lia|]. rewrite <-(facts_id _ _ Hfe) in *.
    destruct (Hrows e He Hle); [left; by apply (ex_through _ _ _ Hex)|by right].
  - apply heard_extends; [lia|done].
  - split; [lia|by apply heard_extends].
  - done.
  - done.
  - eapply Forall_impl; [exact Ht|]. intros th. apply thread_extends.
  - by apply loop_extends.
Qed.
End frame.

(** One step: the tables extend, and the new state accounts for what it adds. *)
Lemma notify_ids_step rs s s' :
  site_inv s → extends rs s s' →
  (∀ m, s_cursor s' = Some m → s_cursor s = Some m ∨ marks_ok s' m) →
  (∀ id c, s_stale s' !! id = Some c → s_stale s !! id = Some c ∨
     (id ≤ newest_id (s_events s') ∧ ∀ e, e ∈ s_events s' → ev_id e = id → ev_timestamp e < c)) →
  s_resolved s' = s_resolved s ++ rs → snapshots s rs →
  (∃ fs, s_failed s' = s_failed s ++ fs ∧ snapshots s fs) →
  (∀ r e, r ∈ rs → e ∈ s_events s' → answers r e → ev_alert_cleared_at e ≠ None) →
  (∀ p, s_proc s' = Some p → proc_inv s' p) → site_inv s'.
Proof.
  intros Hinv Hex Hcur Hst Hres Hsn (fs & Hfail & Hfs) Hcl Hp. destruct (ex_events _ _ _ Hex) as [Hok Hnew Hrow Hauto].
  pose proof (si_snapshots _ Hinv) as Hs. unfold snapshots in Hs. apply Forall_app in Hs as [Hs1 Hs2]. split.
  - apply Hok, Hinv.
  - intros m Hm. destruct (Hcur m Hm) as [Hm'|?]; [|done]. eapply marks_extends; [done|]. by apply (si_cursor _ Hinv).
  - intros e c He Hc. destruct (Hst _ _ Hc) as [Hc'|[_ Hall]]; [|by apply Hall].
    destruct (old_row rs s s' Hex e He) as (e0 & He0 & Hf); [by apply (si_stale_old _ Hinv)|].
    rewrite <-(facts_id _ _ Hf) in Hc'. pose proof (si_stale _ Hinv e0 c He0 Hc'). unfold facts in Hf. injection Hf. lia.
  - intros id [c Hc]. destruct (Hst _ _ Hc) as [Hc'|[? _]]; [|done].
    pose proof (si_stale_old _ Hinv id (mk_is_Some _ _ Hc')). lia.
  - rewrite Hres, Hfail. unfold snapshots. rewrite !Forall_app.
    split_and!; by apply (snapshots_extends rs s s').
  - intros e' He' Hr. rewrite Hres. destruct (Hauto e' He' Hr) as [(e & He & Hf & Hre)|(r & Hin & Ha)].
    + destruct (si_sound _ Hinv e He Hre) as (r & Hin & Ha). exists r. split; [apply elem_of_app; by left|].
      by eapply facts_answers; [| |exact Ha].
    + exists r. split; [apply elem_of_app; by right|done].
  - intros r e'. rewrite Hres. intros [Hin|Hin]%elem_of_app He' Ha; [|by eapply Hcl].
    rewrite Forall_forall in Hs1. destruct (Hs1 r Hin) as [Hle _].
    destruct (Hrow e' He') as [Hid|(e & He & Hf & Hc)].
    + destruct Ha as [Hlt _]. lia.
    + apply Hc. apply (si_complete _ Hinv r e Hin He). by eapply facts_answers; [| |exact Ha].
  - done.
Qed.

(** A step that runs nothing through the auto-clear. *)
Lemma inv_step_nil s s' :
  site_inv s → extends [] s s' → s_resolved s' = s_resolved s → s_failed s' = s_failed s →
  (∀ m, s_cursor s' = Some m → s_cursor s = Some m ∨ marks_ok s' m) →
  (∀ id c, s_stale s' !! id = Some c → s_stale s !! id = Some c ∨
     (id ≤ newest_id (s_events s') ∧ ∀ e, e ∈ s_events s' → ev_id e = id → ev_timestamp e < c)) →
  (∀ p, s_proc s' = Some p → proc_inv s' p) → site_inv s'.
Proof.
  intros Hinv Hex Hr Hf Hc Hst Hp. apply (notify_ids_step [] s); try done.
  - by rewrite Hr, app_nil_r.
  - constructor.
  - exists []. split; [by rewrite app_nil_r|constructor].
  - by intros ? ? ?%elem_of_nil.
Qed.

(** The rest of the program changes the table. *)
Lemma inv_table s t : site_inv s → evolves [] (s_events s) t → site_inv (set_events t s).
Proof.
  intros Hinv Hev. assert (extends [] s (set_events t s)) as Hex by (by split).
  apply (inv_step_nil s); try done.
  - by left.
  - by left.
  - intros p Hp. eapply proc_extends; [done|]. by apply (si_proc _ Hinv).
Qed.

Lemma loop_same s p p' :
  pr_read p' = pr_read p → pr_cutoff p' = pr_cutoff p → (size (pr_in_flight p') ≤ size (pr_in_flight p))%nat →
  pr_loop p' = pr_loop p → loop_ok s p → loop_ok s p'.
Proof.
  intros Hr Hc Hsz Hl. unfold loop_ok. rewrite Hl. destruct (pr_loop p); try done.
  - intros []. split; rewrite ?Hr, ?Hc; done || lia.
  - intros [[] ?]. split; [|done]. split; rewrite ?Hr, ?Hc; done || lia.
Qed.

(** Only the clock or the process changes, and the process is still accounted for. *)
Lemma inv_quiet s s' :
  site_inv s → s_events s' = s_events s → s_cursor s' = s_cursor s → s_settled s' = s_settled s →
  s_unseen s' = s_unseen s → s_stale s' = s_stale s → s_resolved s' = s_resolved s → s_failed s' = s_failed s →
  (∀ p, s_proc s' = Some p → proc_inv s p) → site_inv s'.
Proof.
  intros Hinv He Hc Hse Hu Hst Hr Hf Hp. assert (extends [] s s') as Hex.
  { split; [rewrite He; apply evolves_refl|unfold through; by rewrite Hse, Hu, Hst|unfold heard_of; by rewrite Hu, Hr, Hf]. }
  apply (inv_step_nil s); try done.
  - rewrite Hc. by left.
  - rewrite Hst. by left.
  - intros p Hps. eapply proc_extends; [done|]. by apply Hp.
Qed.

Lemma inv_proc s p' : site_inv s → proc_inv s p' → site_inv (set_proc (Some p') s).
Proof. intros Hinv Hp. apply (inv_quiet s); try done. by intros p [= <-]. Qed.

(** Neither marks, nor the loop, nor the set of dispatches change. *)
Lemma proc_same s p p' :
  pr_read p' = pr_read p → pr_floor p' = pr_floor p → pr_cutoff p' = pr_cutoff p →
  dom (pr_in_flight p') = dom (pr_in_flight p) → pr_threads p' = pr_threads p → pr_loop p' = pr_loop p →
  proc_inv s p → proc_inv s p'.
Proof.
  intros Hr Hf Hc Hd Ht Hl [? Hrows ? ? Hin Hback Hth Hloop].
  assert (∀ id, is_Some (pr_in_flight p' !! id) ↔ is_Some (pr_in_flight p !! id)) as Hiff.
  { intros id. by rewrite <-!elem_of_dom, Hd. }
  assert (size (pr_in_flight p') = size (pr_in_flight p)) as Hsz by (by rewrite <-!size_dom, Hd).
  split; rewrite ?Hr, ?Hf, ?Ht, ?Hsz; try done.
  - intros e He Hle. rewrite Hiff. by apply Hrows.
  - intros id Hid. apply Hin. by apply Hiff.
  - apply (loop_same s p); [done..|lia|done|done].
Qed.

Lemma dom_set_dispatch id d d0 (m : gmap Z Dispatch) : m !! id = Some d0 → dom (<[id := d]> m) = dom m.
Proof. intros Hm. rewrite dom_insert_L. assert (id ∈ dom m) by (by apply elem_of_dom_2 in Hm). set_solver. Qed.

(** ** The poll loop *)
Lemma delivery_mark_spec p :
  (∀ id, is_Some (pr_in_flight p !! id) → 0 < id ≤ pr_read p) → 0 ≤ pr_read p →
  0 ≤ delivery_mark p ≤ pr_read p ∧ ∀ id, id ≤ delivery_mark p → pr_in_flight p !! id = None.
Proof.
  intros Hin Hr. unfold delivery_mark. pose proof (fold_keep_min (map_to_list (pr_in_flight p)).*1 None) as Hf.
  assert (∀ id, is_Some (pr_in_flight p !! id) ↔ id ∈ (map_to_list (pr_in_flight p)).*1) as Hiff.
  { intros id. rewrite list_elem_of_fmap. split.
    - intros [d Hd]. exists (id, d). split; [done|]. by apply elem_of_map_to_list.
    - intros ([k d] & -> & Hd%elem_of_map_to_list). by exists d. }
  destruct (foldl _ _ _) as [m|].
  - destruct Hf as ([?|Hm] & Hle & _); [done|]. apply Hiff, Hin in Hm. split; [lia|].
    intros id Hid. destruct (pr_in_flight p !! id) eqn:Hd; [|done]. exfalso.
    specialize (Hle id). rewrite <-Hiff, Hd in Hle. specialize (Hle (mk_is_Some _ _ eq_refl)). lia.
  - destruct Hf as [_ Hnil]. split; [lia|]. intros id _. destruct (pr_in_flight p !! id) eqn:Hd; [|done].
    exfalso. assert (is_Some (pr_in_flight p !! id)) as Hs by (by rewrite Hd). rewrite Hiff, Hnil in Hs.
    by apply elem_of_nil in Hs.
Qed.

Lemma marks_of_proc s p : proc_inv s p → marks_ok s (delivery_mark p, pr_read p).
Proof.
  intros [Hr Hrows Hh Hf Hin Hb Ht Hl]. destruct (delivery_mark_spec p Hin) as [Hd Hnone]; [lia|].
  split_and!; cbn; [lia..| |done].
  intros e He Hle. destruct (Hrows e He) as [?|Hs]; [lia|done|]. rewrite (Hnone _ Hle) in Hs. by destruct Hs.
Qed.

Lemma marks_written s m cursor :
  marks_ok s m → (∀ c, cursor = Some c → marks_ok s c) → ∀ c, write_cursor m cursor = Some c → marks_ok s c.
Proof.
  intros Hm Hc c. unfold write_cursor. destruct cursor as [c0|]; [|by intros [= <-]].
  specialize (Hc c0 eq_refl). intros [= <-]. destruct Hm as (? & ? & Hs & Hh), Hc as (? & ? & Hs0 & Hh0).
  split_and!; cbn; [lia..| |].
  - intros e He Hle. destruct (Z.le_gt_cases (ev_id e) m.1); [by apply Hs|apply Hs0; [done|lia]].
  - intros e He Hle. destruct (Z.le_gt_cases (ev_id e) m.2); [by apply Hh|apply Hh0; [done|lia]].
Qed.

(** Changing only the program counter of the loop. *)
Lemma proc_set_loop s p pc : proc_inv s p → loop_ok s (set_loop pc p) → proc_inv s (set_loop pc p).
Proof. by intros [] ?; split. Qed.
Lemma proc_after_cycle s p : proc_inv s p → proc_inv s (after_cycle p).
Proof. intros Hp. apply proc_set_loop; [done|]. unfold loop_ok. cbn. by destruct (pr_stopped p). Qed.
Lemma proc_apply_channels s p update : proc_inv s p → proc_inv s (apply_channels update p).
Proof. by apply proc_same. Qed.
Lemma proc_end_catchup s p pc :
  match pc with L_ready | L_persist | L_stopped => True | _ => False end →
  proc_inv s (set_loop pc p) → proc_inv s (set_loop pc (end_catchup_if_passed p)).
Proof.
  intros Hpc Hp. unfold end_catchup_if_passed. destruct (pr_cutoff p); [|done]. destruct (pr_catchup_until p <=? pr_read p); [|done].
  destruct Hp. split; try done. unfold loop_ok. cbn. by destruct pc.
Qed.

Lemma elem_of_batch readable p t x :
  x ∈ poll_new_events readable p t → x.1 ∈ t ∧ pr_read p < ev_id x.1 ∧ x.2 = negb (is_stale_catchup p x.1).
Proof.
  unfold poll_new_events. destruct readable; [|by intros ?%elem_of_nil].
  intros (e & -> & He)%list_elem_of_fmap. cbn. apply elem_of_take in He as (i & Hi & _).
  apply list_elem_of_lookup_2, list_elem_of_filter in Hi as [? ?]. done.
Qed.

(** In a sorted table the first [n] rows of a query are all rows up to the last of them. *)
Lemma take_filter_all n (P : Event → Prop) `{!∀ e, Decision (P e)} t x e :
  table_ok t → last (take n (filter P t)) = Some x → e ∈ t → P e → ev_id e ≤ ev_id x →
  e ∈ take n (filter P t).
Proof.
  intros Ht Hx He HP Hle. assert (StronglySorted id_lt (filter P t)) as Hs by (apply StronglySorted_filter, Ht).
  assert (e ∈ filter P t) as Hin by (by apply list_elem_of_filter). clear He HP Ht. revert n Hx.
  induction Hs as [|y l Hs IH Hy]; [by apply elem_of_nil in Hin|]. intros [|n]; [done|]. cbn [take].
  intros Hx. apply elem_of_cons in Hin as [->|Hin]; [by left|].
  destruct (take n l) as [|z l'] eqn:Htk.
  - cbn in Hx. injection Hx as ->. rewrite Forall_forall in Hy. specialize (Hy e Hin). unfold id_lt in Hy. lia.
  - right. rewrite <-Htk in *. apply IH; [done|]. destruct (take n l); [done|]. exact Hx.
Qed.

Lemma take_filter_last n (P : Event → Prop) `{!∀ e, Decision (P e)} t x e :
  table_ok t → last (take n (filter P t)) = Some x → e ∈ take n (filter P t) → ev_id e ≤ ev_id x.
Proof.
  intros Ht. assert (StronglySorted id_lt (filter P t)) as Hs by (apply StronglySorted_filter, Ht). clear Ht.
  revert n. induction Hs as [|y l Hs IH Hy]; intros n; [by rewrite take_nil|]. destruct n as [|n]; [done|].
  cbn [take]. intros Hx He. destruct (take n l) as [|z l'] eqn:Htk.
  - cbn in Hx. injection Hx as ->. by apply list_elem_of_singleton in He as ->.
  - assert (last (take n l) = Some x) as Hx' by (rewrite Htk; exact Hx).
    apply elem_of_cons in He as [->|He]; [|apply (IH n Hx'); by rewrite Htk].
    assert (x ∈ l) as Hxl.
    { apply last_Some_elem_of in Hx'. apply elem_of_take in Hx' as (i & Hi & _). by eapply list_elem_of_lookup_2. }
    rewrite Forall_forall in Hy. specialize (Hy x Hxl). unfold id_lt in Hy. lia.
Qed.

Lemma batch_polled s p readable :
  site_inv s → (size (pr_in_flight p) < POLL_BATCH_SIZE)%nat →
  batch_ok s p (poll_new_events readable p (s_events s)).
Proof.
  intros Hinv Hsz. pose proof (si_table _ Hinv) as Ht. split.
  - unfold poll_new_events. destruct readable; [|cbn; lia]. rewrite length_fmap, length_take. lia.
  - done.
  - intros x Hx. by apply elem_of_batch in Hx as (_ & ? & _).
  - apply Forall_forall. intros r (x & -> & Hx)%list_elem_of_fmap. apply elem_of_batch in Hx as (Hx & _ & _).
    split; [by apply newest_ge|]. intros e He Hid. f_equal. by apply (table_unique (s_events s)).
  - intros x e Hx He [Hlt Hle]. unfold poll_new_events in *. destruct readable; [|done].
    rewrite fmap_last in Hx. destruct (last (take _ _)) as [y|] eqn:Hy; [|done]. injection Hx as <-. cbn in *.
    rewrite <-!list_fmap_compose. apply list_elem_of_fmap. exists e. split; [done|].
    by apply (take_filter_all _ _ _ y).
  - intros x y Hx Hy. unfold poll_new_events in *. destruct readable; [|done].
    rewrite fmap_last in Hx. destruct (last (take _ _)) as [z|] eqn:Hz; [|done]. injection Hx as <-. cbn in *.
    apply list_elem_of_fmap in Hy as (e & -> & He). cbn. by apply (take_filter_last POLL_BATCH_SIZE _ _ z e Ht Hz).
  - intros x Hx Hf. apply elem_of_batch in Hx as (_ & _ & Hx). rewrite Hx in Hf. apply negb_false_iff in Hf.
    unfold is_stale_catchup in Hf. destruct (pr_cutoff p) as [c|]; [|done]. exists c. split; [done|].
    case_match; [done|]. by apply Z.ltb_lt.
Qed.

Lemma proc_poll s p readable update :
  site_inv s → proc_inv s p → proc_inv s (poll readable update (s_events s) p).
Proof.
  intros Hinv Hp. unfold poll. destruct (Nat.leb_spec POLL_BATCH_SIZE (size (pr_in_flight p))) as [Hge|Hlt].
  { by apply proc_set_loop. }
  pose proof (batch_polled s p readable Hinv Hlt) as Hb.
  destruct (poll_new_events readable p (s_events s)) as [|x b] eqn:Hpoll.
  - apply proc_end_catchup; [done|]. apply proc_set_loop; [by apply proc_apply_channels|done].
  - apply proc_set_loop; [by apply proc_apply_channels|]. unfold loop_ok. cbn [pr_loop set_loop]. by destruct Hb.
Qed.

Lemma snapshots_clear s p b : snapshots s b.*1 → snapshots s (to_clear p b).
Proof. apply Forall_filtered. Qed.

(** What a pass over the batch leaves heard. *)
Lemma heard_batch s' p b x :
  proc_inv s' p → batch_ok s' p b → (∀ r, r ∈ to_clear p b → heard_of s' (ev_id r)) →
  last b = Some x → heard s' (ev_id x.1).
Proof.
  intros Hp Hb Hc Hx e He Hle. destruct (Z.le_gt_cases (ev_id e) (pr_read p)); [by apply (pi_heard _ _ Hp)|].
  destruct (Z.le_gt_cases (ev_id e) (pr_floor p)); [by apply (pi_floor _ _ Hp)|].
  pose proof (ba_all _ _ _ Hb x e Hx He ltac:(lia)) as (r & Hr & Hin)%list_elem_of_fmap. rewrite Hr.
  apply Hc. apply list_elem_of_filter. split; [lia|done].
Qed.

Lemma heard_of_note ok rs t po s id :
  heard_of s id ∨ id ∈ ev_id <$> rs → heard_of (note_clear ok rs (set_events t (set_proc po s))) id.
Proof.
  unfold heard_of, note_clear. cbn.
  destruct ok; rewrite ?fmap_app, ?elem_of_app; tauto.
Qed.

Lemma inv_clear s p pc ok rs now :
  site_inv s → s_proc s = Some p → snapshots s rs →
  let t := if (ok : bool) then auto_clear_alerts_sync rs now (s_events s) else s_events s in
  (∀ s', s' = note_clear ok rs (set_events t (set_proc (Some (set_loop pc p)) s)) →
         extends (if ok then rs else []) s s' → proc_inv s' p → loop_ok s' (set_loop pc p)) →
  site_inv (note_clear ok rs (set_events t (set_proc (Some (set_loop pc p)) s))).
Proof.
  intros Hinv Hp Hsn t Hloop. set (s' := note_clear ok rs _).
  assert (extends (if ok then rs else []) s s') as Hex.
  { split; cbn.
    - destruct ok; [apply evolves_sync|apply evolves_refl].
    - done.
    - intros id Hid. apply heard_of_note. by left. }
  assert (proc_inv s' p) as Hp' by (eapply proc_extends; [done|]; by apply (si_proc _ Hinv)).
  apply (notify_ids_step (if ok then rs else []) s); try done.
  - by left.
  - by left.
  - destruct ok; [done|]. by rewrite app_nil_r.
  - destruct ok; [done|constructor].
  - destruct ok; [exists []|by exists rs]. split; [by rewrite app_nil_r|constructor].
  - destruct ok; [|by intros ? ? ?%elem_of_nil]. intros r e Hr He Ha. by apply (sync_clears rs now (s_events s) r).
  - intros p' [= <-]. apply proc_set_loop; [done|]. by apply Hloop.
Qed.

Lemma inv_auto_clear s p b ok now :
  site_inv s → s_proc s = Some p → pr_loop p = L_polled b →
  site_inv (note_clear ok (to_clear p b)
    (set_events (if (ok : bool) then auto_clear_alerts_sync (to_clear p b) now (s_events s) else s_events s)
       (set_proc (Some (set_loop (L_cleared b) p)) s))).
Proof.
  intros Hinv Hp Hl. pose proof (pi_loop _ _ (si_proc _ Hinv p Hp)) as Hlo. unfold loop_ok in Hlo. rewrite Hl in Hlo.
  apply inv_clear; [done|done|by apply snapshots_clear, (ba_snapshots _ _ _ Hlo)|].
  intros s' -> Hex Hp'. assert (batch_ok _ p b) as Hb by (by eapply batch_extends).
  split; [by destruct Hb|]. intros x Hx. apply (heard_batch _ p b x Hp' Hb); [|done].
  intros r Hr. apply heard_of_note. right. apply list_elem_of_fmap. by exists r.
Qed.

Lemma inv_late_clear s p rs ts now :
  site_inv s → s_proc s = Some p → pr_threads p = T_clear rs :: ts →
  site_inv (note_clear true rs (set_events (auto_clear_alerts_sync rs now (s_events s))
    (set_proc (Some (set_threads ts p)) s))).
Proof.
  intros Hinv Hp Ht. pose proof (si_proc _ Hinv p Hp) as Hpi. pose proof (pi_threads _ _ Hpi) as Hth.
  rewrite Ht in Hth. apply Forall_cons in Hth as [Hrs Hts].
  assert (proc_inv s (set_threads ts p)) as Hpi'.
  { destruct Hpi. split; try done. by apply (loop_same s p). }
  apply (inv_clear (set_proc (Some (set_threads ts p)) s) (set_threads ts p) (pr_loop p) true rs now);
    [by apply inv_proc|done|done|]. intros s' -> _ Hp'. destruct Hp'. done.
Qed.

(** ** Launching *)
Lemma register_lookup rules b m id :
  is_Some (register rules b m !! id) ↔ is_Some (m !! id) ∨ ∃ x, x ∈ b ∧ x.2 = true ∧ ev_id x.1 = id.
Proof.
  unfold register. revert m. induction b as [|x b IH]; intros m; cbn.
  { split; [by left|]. intros [?|(x & ?%elem_of_nil & _)]; done. }
  rewrite IH. destruct x as [e []]; cbn.
  - rewrite lookup_insert_is_Some. split.
    + intros [[<-|[_ ?]]|(x & Hx & ?)].
      * right. exists (e, true). split; [by left|done].
      * by left.
      * right. exists x. split; [by right|done].
    + intros [?|(x & [->|Hx]%elem_of_cons & Ht & Hid)].
      * left. destruct (decide (ev_id e = id)); [by left|by right].
      * left. by left.
      * right. by exists x.
  - split.
    + intros [?|(x & Hx & ?)]; [by left|]. right. exists x. split; [by right|done].
    + intros [?|(x & [->|Hx]%elem_of_cons & Ht & Hid)]; [by left|done|]. right. by exists x.
Qed.
Lemma register_size rules b m : (size (register rules b m) ≤ size m + length b)%nat.
Proof.
  unfold register. revert m. induction b as [|x b IH]; intros m; cbn; [lia|]. specialize (IH (if x.2 then <[ev_id x.1 := MkDispatch x.1 (D_created rules)]> m else m)).
  destruct x.2; [|lia]. rewrite map_size_insert in IH. destruct (m !! ev_id x.1); cbn in *; lia.
Qed.

Lemma stale_lookup ids c m id c' :
  foldr (λ (id : Z) (m : gmap Z Z), <[id := c]> m) m ids !! id = Some c' → (id ∈ ids ∧ c' = c) ∨ m !! id = Some c'.
Proof.
  induction ids as [|i ids IH]; cbn; [by right|]. destruct (decide (i = id)) as [->|Hne].
  - rewrite lookup_insert_eq. intros [= <-]. left. split; [by left|done].
  - rewrite lookup_insert_ne by done. intros [[? ->]|?]%IH; [left; split; [by right|done]|by right].
Qed.
Lemma stale_is_Some ids c m id :
  is_Some (m !! id) ∨ id ∈ ids → is_Some (foldr (λ (id : Z) (m : gmap Z Z), <[id := c]> m) m ids !! id).
Proof.
  induction ids as [|i ids IH]; cbn; [by intros [?|?%elem_of_nil]|]. rewrite lookup_insert_is_Some, elem_of_cons.
  destruct (decide (i = id)); [by left|]. intros [?|[?|?]]; [right; tauto|congruence|right; tauto].
Qed.

Lemma inv_launch s p b rules :
  site_inv s → s_proc s = Some p → pr_loop p = L_cleared b →
  site_inv (mark_stale (ev_id <$> (filter (λ x, x.2 = false) b).*1) (default 0 (pr_cutoff p))
    (set_proc (Some (launch rules b p)) s)).
Proof.
  intros Hinv Hp Hl. pose proof (si_proc _ Hinv p Hp) as Hpi. pose proof (pi_loop _ _ Hpi) as Hlo.
  unfold loop_ok in Hlo. rewrite Hl in Hlo. destruct Hlo as [Hb Hh]. set (ids := ev_id <$> _).
  set (s' := mark_stale _ _ _).
  assert (∀ id, through s id ∨ id ∈ ids → through s' id) as Hthr.
  { unfold through. cbn. intros id [[?|[?|?]]|?]; [by left|right; by left|right; right..];
      apply stale_is_Some; [by left|by right]. }
  assert (extends [] s s') as Hex.
  { split; [apply evolves_refl| |done]. intros id Hid. apply Hthr. by left. }
  assert (∀ id, id ∈ ids → ∃ x, x ∈ b ∧ x.2 = false ∧ ev_id x.1 = id) as Hids.
  { intros id (e & -> & (x & -> & [? ?]%list_elem_of_filter)%list_elem_of_fmap)%list_elem_of_fmap. by exists x. }
  pose proof (ba_snapshots _ _ _ Hb) as Hsn. unfold snapshots in Hsn. rewrite Forall_forall in Hsn.
  apply (inv_step_nil s); try done.
  - by left.
  - intros id c Hc. destruct (stale_lookup _ _ _ _ _ Hc) as [[Hin ->]|?]; [right|by left].
    destruct (Hids id Hin) as (x & Hx & Hf & <-). destruct (ba_stale _ _ _ Hb x Hx Hf) as (c & -> & Hts).
    destruct (Hsn x.1) as [Hle Hsame]; [apply list_elem_of_fmap; by exists x|]. split; [done|].
    intros e He Hid. specialize (Hsame e He Hid). unfold facts in Hsame. injection Hsame. cbn. lia.
  - intros p' [= <-]. unfold launch. apply proc_end_catchup; [done|].
    set (read := match last b with Some x => _ | None => _ end). destruct Hpi as [Hr Hrows Hhe Hf Hin Hbl Hth _].
    assert (pr_read p ≤ read ≤ newest_id (s_events s) ∧
      (∀ x, x ∈ b → ev_id x.1 ≤ read) ∧ heard s read ∧
      (∀ e, e ∈ s_events s → pr_read p < ev_id e ≤ read → ev_id e ∈ ev_id <$> b.*1)) as (Hle & Hxs & Hhr & Hall).
    { unfold read. destruct (last b) as [x|] eqn:Hx.
      - pose proof (batch_newest s p b x Hb Hx). pose proof (ba_after _ _ _ Hb x ltac:(by apply last_Some_elem_of)).
        replace (Z.max _ _) with (ev_id x.1) by lia. split_and!; [lia..|by intros; eapply (ba_last _ _ _ Hb)|by apply Hh|].
        intros e He Hle. by apply (ba_all _ _ _ Hb x).
      - apply last_None in Hx as ->. split_and!; [lia..|by intros ? ?%elem_of_nil|done|lia]. }
    split; cbn.
    + lia.
    + intros e He Hid. rewrite register_lookup. destruct (Z.le_gt_cases (ev_id e) (pr_read p)).
      * destruct (Hrows e He) as [?|?]; [done|left; apply Hthr; by left|right; by left].
      * pose proof (Hall e He ltac:(lia)) as (r & Hre & (x & -> & Hx)%list_elem_of_fmap)%list_elem_of_fmap.
        destruct x.2 eqn:Hx2; [right; right; by exists x|]. left. apply Hthr. right. rewrite Hre. unfold ids.
        apply list_elem_of_fmap. exists x.1. split; [done|]. apply list_elem_of_fmap. exists x. split; [done|].
        by apply list_elem_of_filter.
    + eapply heard_extends; [exact Hex|lia|done].
    + split; [apply Hf|]. eapply heard_extends; [exact Hex|apply Hf|apply Hf].
    + intros id [?|(x & Hx & _ & <-)]%register_lookup; [specialize (Hin id ltac:(done)); lia|].
      pose proof (ba_after _ _ _ Hb x Hx). specialize (Hxs x Hx). lia.
    + pose proof (register_size rules b (pr_in_flight p)). pose proof (ba_length _ _ _ Hb).
      pose proof (ba_backlog _ _ _ Hb). lia.
    + eapply Forall_impl; [exact Hth|]. intros th. by eapply thread_extends.
    + done.
Qed.

(** ** Dispatches, stop and start *)
Lemma inv_settle s p id :
  site_inv s → s_proc s = Some p → is_Some (pr_in_flight p !! id) →
  site_inv (mark_settled id (set_proc (Some (settle id p)) s)).
Proof.
  intros Hinv Hp Hid. pose proof (si_proc _ Hinv p Hp) as Hpi. set (s' := mark_settled _ _).
  assert (∀ k, through s k ∨ k = id → through s' k) as Hthr by (unfold through; cbn; set_solver).
  assert (extends [] s s') as Hex by (split; [apply evolves_refl|by auto|done]).
  apply (inv_step_nil s); try done.
  - by left.
  - by left.
  - intros p' [= <-]. destruct (proc_extends [] s s' Hex p Hpi) as [Hr Hrows Hh Hf Hin Hb Ht Hl].
    assert (size (pr_in_flight (settle id p)) ≤ size (pr_in_flight p))%nat as Hsz.
    { cbn. rewrite map_size_delete. destruct (_ !! _); cbn; lia. }
    split; try done.
    + intros e He Hle. destruct (decide (ev_id e = id)) as [Heq|Hne]; [left; apply Hthr; by right|].
      destruct (Hrows e He Hle); [by left|right]. cbn. by rewrite lookup_delete_ne.
    + intros k. cbn. rewrite lookup_delete_is_Some. intros [_ Hk]. by apply Hin.
    + lia.
    + by apply (loop_same s' p).
Qed.

Lemma inv_dispatch s p id d d0 sent :
  site_inv s → s_proc s = Some p → pr_in_flight p !! id = Some d0 →
  site_inv (set_proc (Some (set_dispatch id d (set_last_sent sent p))) s).
Proof.
  intros Hinv Hp Hid. apply inv_proc; [done|]. apply (proc_same s p); try done.
  - cbn. by eapply dom_set_dispatch.
  - by apply (si_proc _ Hinv).
Qed.

Lemma inv_cursor s m : site_inv s → marks_ok s m → site_inv (set_cursor (write_cursor m (s_cursor s)) s).
Proof.
  intros Hinv Hm. assert (extends [] s (set_cursor (write_cursor m (s_cursor s)) s)) as Hex
    by (split; [apply evolves_refl|done|done]).
  apply (inv_step_nil s); try done.
  - intros c Hc. right. apply (marks_extends [] s _ Hex). apply (marks_written s m (s_cursor s)); [done| |done].
    apply (si_cursor _ Hinv).
  - by left.
  - intros p Hp. eapply proc_extends; [done|]. by apply (si_proc _ Hinv).
Qed.

Lemma proc_stop s p : proc_inv s p → proc_inv s (stop p).
Proof.
  intros Hp. unfold stop. destruct (pr_stopped p); [done|]. destruct Hp as [Hr Hrows Hh Hf Hin Hb Ht Hl].
  split; cbn; try done.
  - intros e He Hle. rewrite lookup_fmap, fmap_is_Some. by apply Hrows.
  - intros id. rewrite lookup_fmap, fmap_is_Some. apply Hin.
  - by rewrite map_size_fmap.
  - apply Forall_app. split; [done|]. unfold left_running, loop_ok in *. destruct (pr_loop p) as [|b| | |m|];
      try apply Forall_nil; try done; apply Forall_singleton; [|done].
    by apply snapshots_clear, (ba_snapshots _ _ _ Hl).
Qed.

(** A process that has just started: its marks are accounted for. *)
Lemma proc_fresh s p :
  0 ≤ pr_read p ≤ newest_id (s_events s) → safe s (pr_read p) → heard s (pr_read p) →
  pr_floor p ≤ newest_id (s_events s) → heard s (pr_floor p) →
  pr_in_flight p = ∅ → pr_threads p = [] → pr_loop p = L_ready → proc_inv s p.
Proof.
  intros Hr Hs Hh Hf Hhf Hin Hth Hl. split; rewrite ?Hin, ?Hth; try done.
  - intros e He Hle. left. by apply Hs.
  - intros id. rewrite lookup_empty. by intros [? ?].
  - rewrite map_size_empty. unfold POLL_BATCH_SIZE. lia.
  - unfold loop_ok. by rewrite Hl.
Qed.

(** The position a start reads: marks that are covered by the stored row, the beginning of
    the log, or its end, when there is no cursor. *)
Lemma start_position catchup_max_age a channels now t cursor p cursor' :
  (∀ c, cursor = Some c → 0 ≤ c.1 ≤ c.2 ∧ c.2 ≤ newest_id t) →
  start catchup_max_age a channels now t cursor = (p, cursor') →
  pr_in_flight p = ∅ ∧ pr_threads p = [] ∧ pr_loop p = L_ready ∧
  0 ≤ pr_read p ≤ newest_id t ∧ 0 ≤ pr_floor p ≤ newest_id t ∧
  ((cursor' = cursor ∧ ∃ c, cursor = Some c ∧ pr_read p ≤ c.1 ∧ pr_floor p ≤ c.2) ∨
   (cursor' = cursor ∧ pr_read p = 0 ∧ pr_floor p = 0) ∨
   (pr_read p = newest_id t ∧ pr_floor p = newest_id t ∧ sa_newest a && no_cursor a cursor t = true ∧
    (cursor' = cursor ∨ cursor' = Some (newest_id t, newest_id t)))).
Proof.
  intros Hc. pose proof (newest_nonneg t) as Hn. unfold start, load_start_position, no_cursor.
  destruct (sa_newest a); cbn [negb].
  2: { intros [= <- <-]. cbn. split_and!; try done; lia || naive_solver. }
  destruct (sa_cursor a); cbn [negb].
  2: { intros [= <- <-]. cbn. split_and!; try done; lia || naive_solver. }
  destruct cursor as [[d r]|].
  - specialize (Hc _ eq_refl). cbn in Hc. rewrite (proj2 (Z.ltb_ge _ _)) by lia.
    destruct (Z.leb_spec (newest_id t) d).
    { intros [= <- <-]. cbn. split_and!; try done; [lia..|]. left. split; [done|]. exists (d, r). cbn. split; [done|lia]. }
    destruct (sa_count a); cbn [negb]; intros [= <- <-]; cbn; split_and!; try done; try lia.
    + left. split; [done|]. exists (d, r). cbn. split; [done|lia].
    + right. left. done.
  - destruct (sa_reset a); intros [= <- <-]; cbn; split_and!; try done; try lia; right; right; split_and!; auto.
Qed.

Lemma inv_start s catchup_max_age a channels now p cursor :
  site_inv s → start catchup_max_age a channels now (s_events s) (s_cursor s) = (p, cursor) →
  site_inv (note_start now (passed_over a (s_cursor s) (s_events s)) (set_cursor cursor (set_proc (Some p) s))).
Proof.
  intros Hinv Hst. set (s' := note_start _ _ _).
  assert (∀ id, through s id → through s' id) as Hthr by (unfold through; cbn; set_solver).
  assert (∀ id, heard_of s id → heard_of s' id) as Hhrd by (unfold heard_of; cbn; set_solver).
  assert (extends [] s s') as Hex by (split; [apply evolves_refl|done|done]).
  destruct (start_position _ _ _ _ _ _ _ _ (λ c Hc, let '(conj H1 (conj H2 _)) := si_cursor _ Hinv c Hc in conj H1 H2) Hst)
    as (Hin & Hth & Hl & Hr & Hf & Hcases).
  assert (safe s' (pr_read p) ∧ heard s' (pr_read p) ∧ heard s' (pr_floor p) ∧
    ∀ m, cursor = Some m → s_cursor s = Some m ∨ marks_ok s' m) as (Hs & Hh & Hhf & Hcur).
  { assert (∀ m, marks_ok s m → marks_ok s' m) as Hmo by (intros m; by eapply marks_extends).
    destruct Hcases as [[-> (c & Hc & H1 & H2)]|[(-> & -> & ->)|(Hpr & Hpf & Hno & Hcur)]].
    - destruct (Hmo c (si_cursor _ Hinv c Hc)) as (H3 & H4 & Hs & Hh). split_and!.
      + intros e He Hle. apply Hs; [done|lia].
      + intros e He Hle. apply Hh; [done|lia].
      + intros e He Hle. apply Hh; [done|lia].
      + by left.
    - pose proof (si_table _ Hinv) as [_ Hpos]. rewrite Forall_forall in Hpos.
      split_and!; [..|by left]; intros e He Hle; specialize (Hpos e He); lia.
    - assert (∀ e, e ∈ s_events s → ev_id e ∈ s_unseen s') as Hun.
      { intros e He. cbn. unfold passed_over. rewrite Hno. apply elem_of_union_l, elem_of_list_to_set.
        by apply list_elem_of_fmap_2. }
      assert (safe s' (newest_id (s_events s)) ∧ heard s' (newest_id (s_events s))) as [Hs Hh].
      { split; intros e He Hle; right; [left|right]; by apply Hun. }
      rewrite Hpr, Hpf. split_and!; [done..|]. destruct Hcur as [->| ->]; [by left|].
      intros m [= <-]. right. pose proof (newest_nonneg (s_events s)). split_and!; cbn; [lia..|done|done]. }
  apply (inv_step_nil s); try done.
  - by left.
  - intros p' [= <-]. apply proc_fresh; change (s_events s') with (s_events s); done || lia.
Qed.

Section reachable.
Context (window max_retries catchup_max_age : Z).
Notation step := (notify_step window max_retries catchup_max_age).

Lemma notify_inv_step s s' : site_inv s → step s s' → site_inv s'.
Proof.
  intros Hinv Hs. destruct Hs as
    [s scope scope_id lv type metadata now|s event_id user_id now|s user_id now|s r now mb t n Hpr|s mono _
    |s p readable update Hp Hl|s p b ok now Hp Hl|s p b stored Hp Hl|s p Hp Hl|s p m Hp Hl|s p m Hp Hl
    |s p id e rules Hp Hid _|s p id e rules todo p' Hp Hid Hb|s p id e now ch todo Hp Hid|s p id e now ch todo k Hp Hid
    |s p id e now ch todo k Hp Hid _|s p id e now ch todo k ins at_ Hp Hid _|s p id e now Hp Hid
    |s p Hp|s p m ts Hp Ht|s p rs ts now Hp Ht|s p Hp|s a channels now p cursor Hp Hst].
  - apply inv_table; [done|apply evolves_log].
  - apply inv_table; [done|by apply evolves_update].
  - apply inv_table; [done|by apply evolves_update].
  - apply inv_table; [done|]. destruct (prune_events_keeps _ _ _ _ _ _ (si_table _ Hinv) Hpr). by apply evolves_sublist.
  - apply (inv_quiet s); try done. apply (si_proc _ Hinv).
  - apply inv_proc; [done|]. by apply proc_poll, (si_proc _ Hinv).
  - by apply inv_auto_clear.
  - by apply inv_launch.
  - apply inv_proc; [done|]. unfold persist_cursor. pose proof (si_proc _ Hinv p Hp) as Hpi.
    destruct (_ || _); [by apply proc_after_cycle|]. apply proc_set_loop; [done|]. by apply marks_of_proc.
  - pose proof (si_proc _ Hinv p Hp) as Hpi. pose proof (pi_loop _ _ Hpi) as Hlo. unfold loop_ok in Hlo. rewrite Hl in Hlo.
    apply (inv_cursor (set_proc _ s)); [|done]. apply inv_proc; [done|]. apply proc_after_cycle.
    by apply (proc_same s p).
  - apply inv_proc; [done|]. by apply proc_after_cycle, (si_proc _ Hinv).
  - apply inv_settle; [done|done|]. by eexists.
  - unfold begin_dispatch in Hb. destruct (sorted_names _); [done|]. injection Hb as <- <-. by eapply inv_dispatch.
  - unfold next_channel. destruct (_ || _); [|by eapply inv_dispatch].
    apply (inv_dispatch s p id (MkDispatch e (D_next now todo)) _ (pr_last_sent p) Hinv Hp Hid).
  - by eapply inv_dispatch.
  - apply (inv_dispatch s p id _ _ (pr_last_sent p) Hinv Hp Hid).
  - apply (inv_table (set_proc _ s)); [by eapply inv_dispatch|apply evolves_log].
  - apply inv_settle; [done|done|]. by eexists.
  - apply inv_proc; [done|]. by apply proc_stop, (si_proc _ Hinv).
  - pose proof (si_proc _ Hinv p Hp) as Hpi. pose proof (pi_threads _ _ Hpi) as Hth. rewrite Ht in Hth.
    apply Forall_cons in Hth as [Hm Hts]. apply (inv_cursor (set_proc _ s)); [|done]. apply inv_proc; [done|].
    destruct Hpi. split; try done. by apply (loop_same s p).
  - by apply inv_late_clear.
  - by apply (inv_quiet s).
  - by eapply inv_start.
Qed.

Lemma site_inv_installed : site_inv installed.
Proof.
  split; try done.
  - split; constructor.
  - intros id. cbn. rewrite lookup_empty. by intros [? ?].
  - constructor.
  - by intros ? ?%elem_of_nil.
  - by intros ? ? ?%elem_of_nil.
Qed.

Lemma notify_inv_reachable s : rtc step installed s → site_inv s.
Proof.
  apply (rtc_ind_r (λ s, site_inv s)); [apply site_inv_installed|]. intros x y _ Hs Hi. by eapply notify_inv_step.
Qed.
End reachable.

(** ** What a catch-up may leave out *)
Section catchup.
Context (window max_retries catchup_max_age : Z).
Notation step := (notify_step window max_retries catchup_max_age).

(** A start of the run whose cutoff is [c], and whose log reached [id]. *)
Definition cutoff_of_start (s : Site) (c id : Z) : Prop :=
  ∃ now newest, (now, newest) ∈ s_starts s ∧ c = now - catchup_max_age ∧ id ≤ newest.

Definition loop_batch (pc : loop_pc) : batch :=
  match pc with L_polled b | L_cleared b => b | _ => [] end.

Definition proc_stale (s : Site) (p : Process) : Prop :=
  (∀ c, pr_cutoff p = Some c → cutoff_of_start s c (pr_catchup_until p)) ∧
  ∀ x, x ∈ loop_batch (pr_loop p) → x.2 = false → is_Some (pr_cutoff p) ∧ ev_id x.1 ≤ pr_catchup_until p.
Definition stale_inv (s : Site) : Prop :=
  (∀ id c, s_stale s !! id = Some c → cutoff_of_start s c id) ∧
  ∀ p, s_proc s = Some p → proc_stale s p.

(** A step that starts nothing and leaves nothing out. *)
Lemma stale_keeps s s' :
  stale_inv s → s_stale s' = s_stale s → s_starts s' = s_starts s →
  (∀ p', s_proc s' = Some p' → ∃ p, s_proc s = Some p ∧ pr_catchup_until p' = pr_catchup_until p ∧
     (pr_cutoff p' = pr_cutoff p ∧ loop_batch (pr_loop p') ⊆ loop_batch (pr_loop p) ∨ proc_stale s p')) →
  stale_inv s'.
Proof.
  unfold stale_inv, proc_stale, cutoff_of_start. intros [Hs Hp] Hst Hsta Hproc. rewrite Hst, Hsta.
  split; [done|]. intros p' Hp'. destruct (Hproc p' Hp') as (p & Hp0 & Hu & [(Hc & Hl)|Hdone]); [|done].
  destruct (Hp p Hp0) as [H1 H2]. rewrite Hc, Hu. split; [done|]. intros x Hx. apply H2. by apply Hl.
Qed.

(** The process a step leaves: same cutoff, same batch or none. *)
Lemma stale_set_proc s p p' s' :
  stale_inv s → s_proc s = Some p → s_stale s' = s_stale s → s_starts s' = s_starts s →
  s_proc s' = Some p' → pr_catchup_until p' = pr_catchup_until p → pr_cutoff p' = pr_cutoff p →
  loop_batch (pr_loop p') ⊆ loop_batch (pr_loop p) → stale_inv s'.
Proof.
  intros Hi Hp Hst Hsta Hp' Hu Hc Hl. apply (stale_keeps s); try done.
  intros q Hq. rewrite Hp' in Hq. injection Hq as <-. exists p. split; [done|]. split; [done|]. by left.
Qed.

Lemma end_catchup_frame p :
  pr_catchup_until (end_catchup_if_passed p) = pr_catchup_until p ∧
  pr_loop (end_catchup_if_passed p) = pr_loop p ∧
  (pr_cutoff (end_catchup_if_passed p) = pr_cutoff p ∨ pr_cutoff (end_catchup_if_passed p) = None).
Proof. unfold end_catchup_if_passed. repeat case_match; cbn; auto. Qed.

(** A process with no batch at hand, and the cutoff it had or none. *)
Lemma proc_stale_idle s p p' :
  proc_stale s p → pr_catchup_until p' = pr_catchup_until p → loop_batch (pr_loop p') = [] →
  pr_cutoff p' = pr_cutoff p ∨ pr_cutoff p' = None → proc_stale s p'.
Proof.
  intros [H1 _] Hu Hl Hc. split; [|rewrite Hl; by intros ? ?%elem_of_nil].
  intros c Hpc. rewrite Hu. apply H1. destruct Hc; congruence.
Qed.

Lemma poll_stale s p readable update t : proc_stale s p → proc_stale s (poll readable update t p).
Proof.
  intros Hp. unfold poll. destruct (_ <=? _)%nat; [apply (proc_stale_idle s p); auto|].
  destruct (poll_new_events _ _ _) as [|x b] eqn:Hb.
  { destruct (end_catchup_frame (apply_channels update p)) as (Hu & _ & Hc).
    apply (proc_stale_idle s p); auto. }
  destruct Hp as [H1 _]. split; [exact H1|]. cbn [loop_batch pr_loop set_loop]. rewrite <-Hb.
  intros y Hy Hf. apply elem_of_batch in Hy as (_ & _ & Hx). rewrite Hf in Hx. symmetry in Hx.
  apply negb_false_iff in Hx. unfold is_stale_catchup in Hx. cbn.
  destruct (pr_cutoff p) as [c|]; [|done]. destruct (Z.ltb_spec (pr_catchup_until p) (ev_id y.1)); [done|].
  by split; [eexists|].
Qed.

Lemma mark_stale_lookup ids cutoff s id c :
  s_stale (mark_stale ids cutoff s) !! id = Some c → (id ∈ ids ∧ c = cutoff) ∨ s_stale s !! id = Some c.
Proof.
  cbn. induction ids as [|i ids IH]; cbn; [by right|]. rewrite lookup_insert_Some.
  intros [[<- <-]|[_ H]]; [left; by split; [left|]|]. destruct (IH H) as [[? ->]|?]; [left; by split; [right|]|by right].
Qed.

Lemma launch_stale s p b rules ids :
  stale_inv s → s_proc s = Some p → pr_loop p = L_cleared b →
  (∀ id, id ∈ ids → ∃ x, x ∈ b ∧ x.2 = false ∧ ev_id x.1 = id) →
  stale_inv (mark_stale ids (default 0 (pr_cutoff p)) (set_proc (Some (launch rules b p)) s)).
Proof.
  intros [Hs Hp] Hpr Hl Hids. destruct (Hp p Hpr) as [H1 H2]. rewrite Hl in H2. split.
  - intros id c [[Hin ->]|Hold]%mark_stale_lookup; [|by apply Hs].
    destruct (Hids id Hin) as (x & Hx & Hf & <-). destruct (H2 x Hx Hf) as [[c Hc] Hle].
    rewrite Hc. cbn. destruct (H1 c Hc) as (now & newest & ? & ? & ?). exists now, newest.
    split_and!; [done..|lia].
  - intros p' [= <-]. unfold launch.
    destruct (end_catchup_frame (set_in_flight (register rules b (pr_in_flight p))
      (set_read (match last b with Some x => Z.max (pr_read p) (ev_id x.1) | None => pr_read p end) p)))
      as (Hu & _ & Hc).
    apply (proc_stale_idle s p); [by apply Hp|exact Hu|done|exact Hc].
Qed.

Lemma start_stale s a channels now p cursor ids :
  stale_inv s → start catchup_max_age a channels now (s_events s) (s_cursor s) = (p, cursor) →
  stale_inv (note_start now ids (set_cursor cursor (set_proc (Some p) s))).
Proof.
  intros [Hs _] Hst. split.
  - intros id c Hc. destruct (Hs id c Hc) as (n & newest & ? & ? & ?). exists n, newest.
    split_and!; [by right|done|done].
  - intros p' [= <-]. unfold start, load_start_position in Hst.
    split.
    + intros c Hc. exists now, (newest_id (s_events s)). split; [by left|].
      repeat case_match; simplify_eq; cbn in *; try done; injection Hc as <-; (split; [done|lia]).
    + replace (pr_loop p) with L_ready; [by intros ? ?%elem_of_nil|].
      repeat case_match; simplify_eq; done.
Qed.

Lemma stale_inv_step s s' : stale_inv s → step s s' → stale_inv s'.
Proof.
  intros Hi Hs. pose proof (proj2 Hi) as Hproc. destruct Hs as
    [s scope scope_id lv type metadata now|s event_id user_id now|s user_id now|s r now mb t n Hpr|s mono _
    |s p readable update Hp Hl|s p b ok now Hp Hl|s p b stored Hp Hl|s p Hp Hl|s p m Hp Hl|s p m Hp Hl
    |s p id e rules Hp Hid _|s p id e rules todo p' Hp Hid Hb|s p id e now ch todo Hp Hid|s p id e now ch todo k Hp Hid
    |s p id e now ch todo k Hp Hid _|s p id e now ch todo k ins at_ Hp Hid _|s p id e now Hp Hid
    |s p Hp|s p m ts Hp Ht|s p rs ts now Hp Ht|s p Hp|s a channels now p cursor Hp Hst].
  1-5: exact Hi.
  - split; [apply Hi|]. intros p' [= <-]. by apply poll_stale, Hproc.
  - by apply (stale_set_proc s p (set_loop (L_cleared b) p)); [..|cbn; rewrite Hl].
  - apply (launch_stale s p b); [done|done|done|].
    intros id (x & -> & (y & -> & [? ?]%list_elem_of_filter)%list_elem_of_fmap)%list_elem_of_fmap. by exists y.
  - split; [apply Hi|]. intros p' [= <-]. unfold persist_cursor, after_cycle.
    apply (proc_stale_idle s p); [by apply Hproc|..]; repeat case_match; auto.
  - split; [apply Hi|]. intros p' [= <-]. unfold after_cycle.
    apply (proc_stale_idle s p); [by apply Hproc|..]; cbn; repeat case_match; auto.
  - split; [apply Hi|]. intros p' [= <-]. unfold after_cycle.
    apply (proc_stale_idle s p); [by apply Hproc|..]; cbn; repeat case_match; auto.
  - by apply (stale_set_proc s p (settle id p)).
  - unfold begin_dispatch in Hb. destruct (sorted_names _); [done|]. injection Hb as <- <-.
    by eapply (stale_set_proc s p).
  - unfold next_channel. by destruct (_ || _); eapply (stale_set_proc s p).
  - by eapply (stale_set_proc s p).
  - by eapply (stale_set_proc s p).
  - by eapply (stale_set_proc s p).
  - by eapply (stale_set_proc s p).
  - split; [apply Hi|]. intros p' [= <-]. unfold stop. destruct (pr_stopped p); [by apply Hproc|].
    apply (proc_stale_idle s p); [by apply Hproc|auto..].
  - by eapply (stale_set_proc s p).
  - by eapply (stale_set_proc s p).
  - split; [apply Hi|done].
  - by eapply start_stale.
Qed.

Lemma stale_inv_reachable s : rtc step installed s → stale_inv s.
Proof.
  apply (rtc_ind_r (λ s, stale_inv s)); [|intros x y _ Hs Hi; by eapply stale_inv_step].
  split; [|done]. intros id c. cbn. by rewrite lookup_empty.
Qed.
End catchup.

(** ** One send per key *)
Section debounce.
Context (window max_retries catchup_max_age : Z).

(** Every dispatch ends within the debounce window of its beginning. *)
Definition begun (pc : dispatch_pc) : option Z :=
  match pc with D_next now _ | D_sending now _ _ _ => Some now | _ => None end.
Definition calm (s : Site) : Prop :=
  ∀ p id d now, s_proc s = Some p → pr_in_flight p !! id = Some d → begun (dp_pc d) = Some now →
    s_mono s - now < window.
Definition calm_step (s s' : Site) : Prop := calm s ∧ notify_step window max_retries catchup_max_age s s'.

(** The sends in progress hold their keys, one each. *)
Record keys_inv (mono : Z) (p : Process) : Prop := {
  ki_begun : ∀ id d now, pr_in_flight p !! id = Some d → begun (dp_pc d) = Some now → now ≤ mono;
  ki_key : ∀ id e now channel todo k, pr_in_flight p !! id = Some (MkDispatch e (D_sending now channel todo k)) →
    pr_last_sent p !! key_of e channel = Some now;
  ki_one : ∀ id id' e e' now now' channel channel' todo todo' k k',
    pr_in_flight p !! id = Some (MkDispatch e (D_sending now channel todo k)) →
    pr_in_flight p !! id' = Some (MkDispatch e' (D_sending now' channel' todo' k')) →
    key_of e channel = key_of e' channel' → id = id';
}.

Lemma keys_same mono mono' p p' :
  mono ≤ mono' → pr_in_flight p' = pr_in_flight p → pr_last_sent p' = pr_last_sent p →
  keys_inv mono p → keys_inv mono' p'.
Proof.
  intros Hle Hin Hs [Hb Hk Ho]. split; rewrite Hin, ?Hs; [|done|done].
  intros id d now Hd Hn. specialize (Hb id d now Hd Hn). lia.
Qed.

Lemma keys_update mono p id d sent :
  keys_inv mono p → (∀ now, begun (dp_pc d) = Some now → now ≤ mono) →
  (∀ id' e now channel todo k, id' ≠ id →
     pr_in_flight p !! id' = Some (MkDispatch e (D_sending now channel todo k)) →
     sent !! key_of e channel = Some now) →
  (∀ e now channel todo k, d = MkDispatch e (D_sending now channel todo k) →
     sent !! key_of e channel = Some now ∧
     ∀ id' e' now' channel' todo' k', id' ≠ id →
       pr_in_flight p !! id' = Some (MkDispatch e' (D_sending now' channel' todo' k')) →
       key_of e' channel' ≠ key_of e channel) →
  keys_inv mono (set_dispatch id d (set_last_sent sent p)).
Proof.
  intros [Hb Hk Ho] Hnow Hothers Hself. split; cbn.
  - intros id' d' now. rewrite lookup_insert. case_decide; [intros [= <-]; by apply Hnow|by apply Hb].
  - intros id' e now ch todo k. rewrite lookup_insert. case_decide as Heq; [|by apply Hothers].
    intros [= Hd]. by destruct (Hself e now ch todo k Hd).
  - intros id1 id2 e1 e2 n1 n2 c1 c2 t1 t2 k1 k2. rewrite !lookup_insert. case_decide as H1; case_decide as H2.
    + congruence.
    + intros [= Hd] Hin Hkey. exfalso. destruct (Hself _ _ _ _ _ Hd) as [_ Hne]. by apply (Hne _ _ _ _ _ _ (not_eq_sym H2) Hin).
    + intros Hin [= Hd] Hkey. exfalso. destruct (Hself _ _ _ _ _ Hd) as [_ Hne]. by apply (Hne _ _ _ _ _ _ (not_eq_sym H1) Hin).
    + apply Ho.
Qed.

Lemma register_old rules b m id d :
  register rules b m !! id = Some d → m !! id = Some d ∨ dp_pc d = D_created rules.
Proof.
  unfold register. revert m. induction b as [|x b IH]; intros m; cbn; [by left|]. intros [Hm|?]%IH; [|by right].
  destruct x.2; [|by left]. rewrite lookup_insert in Hm. case_decide; [injection Hm as <-; by right|by left].
Qed.

Lemma keys_subset mono p p' :
  (∀ id d, pr_in_flight p' !! id = Some d → pr_in_flight p !! id = Some d ∨ begun (dp_pc d) = None) →
  pr_last_sent p' = pr_last_sent p → keys_inv mono p → keys_inv mono p'.
Proof.
  intros Hin Hs [Hb Hk Ho]. split; rewrite ?Hs.
  - intros id d now Hd Hn. destruct (Hin id d Hd); [by eapply Hb|congruence].
  - intros id e now ch todo k Hd. destruct (Hin _ _ Hd); [by eapply Hk|done].
  - intros id id' e e' n n' c c' t t' k k' Hd Hd'. destruct (Hin _ _ Hd), (Hin _ _ Hd'); try done. by eapply Ho.
Qed.

Lemma keys_cancelled mono p' :
  (∀ id d, pr_in_flight p' !! id = Some d → begun (dp_pc d) = None) → keys_inv mono p'.
Proof.
  intros Hin. split.
  - intros id d now Hd Hn. rewrite (Hin id d Hd) in Hn. done.
  - intros id e now ch todo k Hd. by specialize (Hin _ _ Hd).
  - intros id id' e e' n n' c c' t t' k k' Hd. by specialize (Hin _ _ Hd).
Qed.

Lemma end_catchup_keeps p :
  pr_in_flight (end_catchup_if_passed p) = pr_in_flight p ∧ pr_last_sent (end_catchup_if_passed p) = pr_last_sent p.
Proof. unfold end_catchup_if_passed. repeat case_match; done. Qed.

Lemma poll_keeps readable update t p :
  pr_in_flight (poll readable update t p) = pr_in_flight p ∧ pr_last_sent (poll readable update t p) = pr_last_sent p.
Proof.
  unfold poll. destruct (_ <=? _)%nat; [done|]. destruct (poll_new_events _ _ _); [|done].
  exact (end_catchup_keeps (apply_channels update p)).
Qed.

(** One dispatch moves on. *)
Lemma keys_dispatch s p id e pc p' :
  calm s → s_proc s = Some p → keys_inv (s_mono s) p → pr_in_flight p !! id = Some (MkDispatch e pc) →
  (∃ now c todo, pc = D_next now (c :: todo) ∧ p' = next_channel window id e now c todo p) ∨
  (∃ now c todo k, pc = D_sending now c todo k ∧
     (p' = delivered id e now c todo p ∨ p' = given_up id e now c todo p ∨
      p' = set_dispatch id (MkDispatch e (D_sending now c todo (k + 1))) p)) →
  keys_inv (s_mono s) p'.
Proof.
  intros Hcalm Hp Hki Hid. pose proof Hki as [Hb Hk Ho].
  pose proof (λ id d now, Hcalm p id d now Hp) as Hc.
  intros [(now & c & todo & -> & ->)|(now & c & todo & k & -> & Hp')].
  - pose proof (Hb id _ now Hid eq_refl) as Hnow. unfold next_channel. destruct (_ || _) eqn:Hd.
    + apply (keys_update (s_mono s) p id _ (pr_last_sent p)); try done; [naive_solver|]. intros id' ? ? ? ? ? _. apply Hk.
    + apply orb_false_iff in Hd as [_ Hd].
      assert (∀ id' e' now' channel' todo' k', pr_in_flight p !! id' = Some (MkDispatch e' (D_sending now' channel' todo' k')) →
        key_of e' channel' ≠ key_of e c) as Hfree.
      { intros id' e' now' c' todo' k' Hin Heq. pose proof (Hk _ _ _ _ _ _ Hin) as Hs.
        unfold is_debounced in Hd. rewrite Heq in Hs. rewrite Hs in Hd. apply Z.ltb_ge in Hd.
        pose proof (Hc id' _ now' Hin eq_refl). lia. }
      apply (keys_update (s_mono s) p id); [done|naive_solver| |].
      * intros id' e' now' c' todo' k' _ Hin. rewrite lookup_insert_ne; [by eapply Hk|].
        apply not_eq_sym. by eapply Hfree.
      * intros e' now' c' todo' k' [= <- <- <- <- <-]. split; [by rewrite lookup_insert_eq|].
        intros id' e' n' c' t' k' _ Hin. by eapply Hfree.
  - pose proof (Hb id _ now Hid eq_refl) as Hnow. pose proof (Hk _ _ _ _ _ _ Hid) as Hmine.
    assert (∀ id' e' now' channel' todo' k', id' ≠ id →
      pr_in_flight p !! id' = Some (MkDispatch e' (D_sending now' channel' todo' k')) →
      key_of e' channel' ≠ key_of e c) as Hfree.
    { intros id' e' now' c' todo' k' Hne Hin Heq. apply Hne. by eapply Ho. }
    destruct Hp' as [->|[->| ->]].
    + apply (keys_update (s_mono s) p id); [done|naive_solver| |done].
      intros id' e' now' c' todo' k' Hne Hin. rewrite lookup_insert_ne; [by eapply Hk|].
      apply not_eq_sym. by eapply Hfree.
    + apply (keys_update (s_mono s) p id); [done|naive_solver| |done].
      intros id' e' now' c' todo' k' Hne Hin. unfold release_key. case_bool_decide; [|by eapply Hk].
      rewrite lookup_delete_ne; [by eapply Hk|]. apply not_eq_sym. by eapply Hfree.
    + apply (keys_update (s_mono s) p id _ (pr_last_sent p)); [done|naive_solver|by intros; eapply Hk|].
      intros e' now' c' todo' k' [= <- <- <- <- <-]. by split.
Qed.

Lemma keys_begin s p id e rules todo p' :
  calm s → s_proc s = Some p → keys_inv (s_mono s) p →
  begin_dispatch window e rules (s_mono s) p = Some (todo, p') →
  keys_inv (s_mono s) (set_dispatch id (MkDispatch e (D_next (s_mono s) todo)) p').
Proof.
  intros Hcalm Hp Hki. pose proof Hki as [Hb Hk Ho]. unfold begin_dispatch. destruct (sorted_names _); [done|]. intros [= <- <-].
  apply keys_update; [done|by intros now [= <-]| |done]. intros id' e' now c todo' k _ Hin.
  rewrite lookup_omap, (Hk _ _ _ _ _ _ Hin). cbn. pose proof (Hcalm p id' _ now Hp Hin eq_refl).
  pose proof (Hb _ _ _ Hin eq_refl). by rewrite (proj2 (Z.ltb_ge _ _)) by lia.
Qed.

Definition site_keys (s : Site) : Prop := ∀ p, s_proc s = Some p → keys_inv (s_mono s) p.

Lemma site_keys_step s s' : calm_step s s' → site_keys s → site_keys s'.
Proof.
  intros [Hcalm Hs] Hk. pose proof (λ p Hp, keys_same (s_mono s) (s_mono s) p p (Z.le_refl _) eq_refl eq_refl (Hk p Hp)) as Hk0.
  destruct Hs as
    [s scope scope_id lv type metadata now|s event_id user_id now|s user_id now|s r now mb t n Hpr|s mono Hmono
    |s p readable update Hp Hl|s p b ok now Hp Hl|s p b stored Hp Hl|s p Hp Hl|s p m Hp Hl|s p m Hp Hl
    |s p id e rules Hp Hid _|s p id e rules todo p' Hp Hid Hb|s p id e now ch todo Hp Hid|s p id e now ch todo k Hp Hid
    |s p id e now ch todo k Hp Hid _|s p id e now ch todo k ins at_ Hp Hid _|s p id e now Hp Hid
    |s p Hp|s p m ts Hp Ht|s p rs ts now Hp Ht|s p Hp|s a channels now p cursor Hp Hst];
    intros p0 Hp0; cbn in Hp0; try (apply (Hk0 p0 Hp0)); try injection Hp0 as <-; cbn [s_mono tick].
  - apply (keys_same (s_mono s) mono p0); try done. by apply Hk.
  - destruct (poll_keeps readable update (s_events s) p) as [H1 H2]. by apply (keys_same (s_mono s) _ p); [..|apply Hk].
  - by apply (keys_same (s_mono s) _ p); [..|apply Hk].
  - apply (keys_subset _ p); [| |by apply Hk].
    + unfold launch. intros id d Hd. cbn in Hd.
      rewrite (proj1 (end_catchup_keeps _)) in Hd. cbn in Hd.
      destruct (register_old _ _ _ _ _ Hd) as [?| ->]; [by left|by right].
    + unfold launch. cbn. by rewrite (proj2 (end_catchup_keeps _)).
  - apply (keys_same (s_mono s) _ p); [done| | |by apply Hk]; unfold persist_cursor; by destruct (_ || _).
  - by apply (keys_same (s_mono s) _ p); [..|apply Hk].
  - by apply (keys_same (s_mono s) _ p); [..|apply Hk].
  - apply (keys_subset _ p); [|done|by apply Hk]. intros id' d. cbn. rewrite lookup_delete_Some. intros [_ ?]. by left.
  - exact (keys_begin s p id e rules todo p' Hcalm Hp (Hk p Hp) Hb).
  - apply (keys_dispatch s p id e _ _ Hcalm Hp (Hk p Hp) Hid). left. by exists now, ch, todo.
  - apply (keys_dispatch s p id e _ _ Hcalm Hp (Hk p Hp) Hid). right. exists now, ch, todo, k. auto.
  - apply (keys_dispatch s p id e _ _ Hcalm Hp (Hk p Hp) Hid). right. exists now, ch, todo, k. auto.
  - apply (keys_dispatch s p id e _ _ Hcalm Hp (Hk p Hp) Hid). right. exists now, ch, todo, k. auto.
  - apply (keys_subset _ p); [|done|by apply Hk]. intros id' d. cbn. rewrite lookup_delete_Some. intros [_ ?]. by left.
  - unfold stop. destruct (pr_stopped p); [by apply Hk|]. apply keys_cancelled. intros id d. cbn.
    rewrite lookup_fmap_Some. by intros (d0 & <- & _).
  - by apply (keys_same (s_mono s) _ p); [..|apply Hk].
  - by apply (keys_same (s_mono s) _ p); [..|apply Hk].
  - done.
  - apply keys_cancelled. intros id d. unfold start in Hst. destruct (match _ with Ok r => r | Raise _ => _ end).
    injection Hst as <- <-. cbn. by rewrite lookup_empty.
Qed.
End debounce.

(** ** The properties *)

(** C3: no event is lost: in every interleaving of logging, polling, sending, cursor writes,
    stops, crashes and restarts, a row at or below the stored delivery cursor has had its
    dispatch (delivered, given up, debounced or routed nowhere), unless it was left out on
    purpose: it was in the log when a start had no cursor to resume from (the row was not
    readable, or there was none), or it was in the log when a start caught up and older
    than [catchup_max_age] then. *)
Theorem no_event_lost window max_retries catchup_max_age s d r e :
  rtc (notify_step window max_retries catchup_max_age) installed s →
  s_cursor s = Some (d, r) → e ∈ s_events s → ev_id e ≤ d →
  ev_id e ∈ s_settled s ∨ ev_id e ∈ s_unseen s ∨
  ∃ started newest, (started, newest) ∈ s_starts s ∧ ev_id e ≤ newest ∧
    ev_timestamp e < started - catchup_max_age.
Proof.
  intros Hr Hc He Hle. pose proof (proj1 (stale_inv_reachable _ _ _ _ Hr)) as Hstart.
  apply notify_inv_reachable in Hr. destruct (si_cursor _ Hr _ Hc) as (_ & _ & Hs & _).
  destruct (Hs e He Hle) as [?|[?|[c Hst]]]; [by left|right; by left|right; right].
  destruct (Hstart _ _ Hst) as (now & newest & Hin & -> & Hnew). exists now, newest.
  split_and!; [done|done|by apply (si_stale _ Hr)].
Qed.

(** The stored marks never point past the log: the delivery cursor is at most the read
    mark, and the read mark at most the newest row, whatever retention deletes; so a start
    never resets a cursor, and no event to come is hidden behind one. *)
Theorem cursor_within_log window max_retries catchup_max_age s d r :
  rtc (notify_step window max_retries catchup_max_age) installed s → s_cursor s = Some (d, r) →
  0 ≤ d ≤ r ∧ r ≤ newest_id (s_events s) ∧
  ∀ scope scope_id lv type metadata now,
    Forall (λ e, e ∈ s_events s ∨ r < ev_id e) (log_event true scope scope_id lv type metadata now (s_events s)).
Proof.
  intros Hr%notify_inv_reachable Hc. destruct (si_cursor _ Hr _ Hc) as (H1 & H2 & _). split_and!; [apply H1|apply H1|done|].
  intros. apply Forall_app. split; [apply Forall_forall; by left|]. apply Forall_singleton. right. cbn in *. lia.
Qed.

(** Alerts follow the resolve signals: an alert is cleared automatically only by a later
    event of the same subject whose reason answers it, and once such an event is at or
    below the stored read mark the alert is cleared, unless the pass over that event
    failed or a start had no cursor.  An alert raised after the resolve stands. *)
Theorem alerts_follow_resolves window max_retries catchup_max_age s d rd :
  rtc (notify_step window max_retries catchup_max_age) installed s → s_cursor s = Some (d, rd) →
  (∀ e, e ∈ s_events s → ev_alert_clear_reason e = Some "auto" → ∃ r, r ∈ s_resolved s ∧ answers r e) ∧
  (∀ r e, r ∈ s_events s → e ∈ s_events s → answers r e → ev_id r ≤ rd →
     ev_alert_cleared_at e ≠ None ∨ ev_id r ∈ ev_id <$> s_failed s ∨ ev_id r ∈ s_unseen s).
Proof.
  intros Hi%notify_inv_reachable Hc. split; [apply (si_sound _ Hi)|]. intros r e Hr He Ha Hle.
  destruct (si_cursor _ Hi _ Hc) as (_ & _ & _ & Hh). destruct (Hh r Hr Hle) as [Hin|[?|?]]; [left|right; by left|right; by right].
  apply list_elem_of_fmap in Hin as (r' & Hid & Hin). apply (si_complete _ Hi r' e Hin He).
  pose proof (si_snapshots _ Hi) as Hsn. unfold snapshots in Hsn. rewrite Forall_forall in Hsn.
  destruct (Hsn r') as [_ Hf]; [apply elem_of_app; by left|]. eapply facts_answers; [|done|exact Ha]. by apply Hf.
Qed.

(** The backlog is bounded: however slow the channels, fewer than two batches of
    dispatches are in flight at any time. *)
Theorem dispatch_backlog_bounded window max_retries catchup_max_age s p :
  rtc (notify_step window max_retries catchup_max_age) installed s → s_proc s = Some p →
  (size (pr_in_flight p) < 2 * POLL_BATCH_SIZE)%nat.
Proof. intros Hi%notify_inv_reachable Hp. by apply (si_proc _ Hi). Qed.

(** Concurrent events do not send twice: as long as every dispatch ends within the
    debounce window of its beginning, at most one send per type, subject and channel is
    in progress. *)
Theorem one_send_per_key window max_retries catchup_max_age s p id id' e e' now now' channel todo todo' k k' :
  rtc (calm_step window max_retries catchup_max_age) installed s → s_proc s = Some p →
  pr_in_flight p !! id = Some (MkDispatch e (D_sending now channel todo k)) →
  pr_in_flight p !! id' = Some (MkDispatch e' (D_sending now' channel todo' k')) →
  key_of e channel = key_of e' channel → id = id'.
Proof.
  intros Hr Hp. assert (site_keys s) as Hk.
  { revert Hr. apply (rtc_ind_r (λ s, site_keys s)); [done|]. intros x y _ Hs Hk.
    by apply (site_keys_step window max_retries catchup_max_age x). }
  by apply (ki_one _ _ (Hk p Hp)).
Qed.
