(* ===== verification/DispatcherRuns.v ===== *)
(** * Runs of the notification dispatcher

    Concrete runs: instances of the properties of [DispatcherFacts], and the runs that
    show where the comments of the code promise more than it does. *)

From Stdlib Require Import SpecFloat.
From S2P Require Import Prelude PyTime PyVal Events EventsFacts Dispatcher DispatcherFacts.
From stdpp Require Import options.
Local Open Scope Z_scope.

Definition all_well : StartAnswers := MkAnswers true true true true.
Definition reason (r : string) : option (gmap string string) := Some {["reason" := r]}.
Definition log_camera (lv : level) (r : string) (now : Z) (s : Site) : Site :=
  set_events (log_event true scope_camera (Some 7) lv None (reason r) now (s_events s)) s.

Section runs.
Context (window max_retries : Z).
Notation step := (notify_step window max_retries 60).

Definition started (channels : gset string) (now : Z) (s : Site) : Site :=
  let r := start 60 all_well channels now (s_events s) (s_cursor s) in
  match s_proc s with
  | None => note_start now (passed_over all_well (s_cursor s) (s_events s)) (set_cursor r.2 (set_proc (Some r.1) s))
  | Some _ => s
  end.

(** The next step of the poll loop, with the answers of the auto-clear and the rules read. *)
Definition loop_turn (clears : bool) (stored : option pyval) (s : Site) : Site :=
  match s_proc s with
  | None => s
  | Some p =>
      match pr_loop p with
      | L_ready => set_proc (Some (poll true None (s_events s) p)) s
      | L_polled b =>
          note_clear clears (to_clear p b)
            (set_events (if clears then auto_clear_alerts_sync (to_clear p b) 0 (s_events s) else s_events s)
               (set_proc (Some (set_loop (L_cleared b) p)) s))
      | L_cleared b =>
          mark_stale (ev_id <$> (filter (λ x, x.2 = false) b).*1) (default 0 (pr_cutoff p))
            (set_proc (Some (launch (load_routing_rules stored) b p)) s)
      | L_persist => set_proc (Some (persist_cursor p)) s
      | L_writing m => set_cursor (write_cursor m (s_cursor s)) (set_proc (Some (after_cycle (set_persisted m p))) s)
      | L_stopped => s
      end
  end.

(** The next step of a dispatch; every send succeeds. *)
Definition turn (id : Z) (s : Site) : Site :=
  match s_proc s with
  | None => s
  | Some p =>
      match pr_in_flight p !! id with
      | Some (MkDispatch e (D_created rules)) =>
          match begin_dispatch window e rules (s_mono s) p with
          | None => mark_settled id (set_proc (Some (settle id p)) s)
          | Some (todo, p') => set_proc (Some (set_dispatch id (MkDispatch e (D_next (s_mono s) todo)) p')) s
          end
      | Some (MkDispatch e (D_next now [])) => mark_settled id (set_proc (Some (settle id p)) s)
      | Some (MkDispatch e (D_next now (channel :: todo))) =>
          set_proc (Some (next_channel window id e now channel todo p)) s
      | Some (MkDispatch e (D_sending now channel todo _)) => set_proc (Some (delivered id e now channel todo p)) s
      | _ => s
      end
  end.

(** At most one step. *)
Definition moves (s s' : Site) : Prop := s' = s ∨ step s s'.
Lemma moves_run s s' : moves s s' → rtc step s s'.
Proof. intros [->|?]; [done|by apply rtc_once]. Qed.

Lemma started_moves channels now s : moves s (started channels now s).
Proof.
  unfold started. destruct (s_proc s) eqn:Hp; [by left|]. right. eapply n_start; [done|]. apply surjective_pairing.
Qed.
Lemma log_moves lv r now s : moves s (log_camera lv r now s).
Proof. right. apply n_log. Qed.
Lemma loop_moves clears stored s : moves s (loop_turn clears stored s).
Proof.
  unfold loop_turn. destruct (s_proc s) as [p|] eqn:Hp; [|by left].
  destruct (pr_loop p) eqn:Hl; try (by left); right.
  - by apply n_poll.
  - by apply n_auto_clear.
  - by apply n_launch.
  - by apply n_persist.
  - by apply n_written.
Qed.
Lemma turn_moves id s : moves s (turn id s).
Proof.
  unfold turn. destruct (s_proc s) as [p|] eqn:Hp; [|by left].
  destruct (pr_in_flight p !! id) as [[e pc]|] eqn:Hid; [|by left].
  destruct pc as [rules|now [|channel todo]|now channel todo k|]; try (by left); right.
  - destruct (begin_dispatch _ _ _ _ _) as [[todo p']|] eqn:Hb; [by eapply n_begin|by eapply n_routed_nowhere].
  - by eapply n_settled.
  - by eapply n_channel.
  - by eapply n_delivered.
Qed.
Lemma started_run channels now s : rtc step s (started channels now s).
Proof. apply moves_run, started_moves. Qed.
Lemma log_run lv r now s : rtc step s (log_camera lv r now s).
Proof. apply moves_run, log_moves. Qed.
Lemma loop_run clears stored s : rtc step s (loop_turn clears stored s).
Proof. apply moves_run, loop_moves. Qed.
Lemma turn_run id s : rtc step s (turn id s).
Proof. apply moves_run, turn_moves. Qed.

(** [calm], decided. *)
Definition calmb (s : Site) : bool :=
  match s_proc s with
  | None => true
  | Some p =>
      forallb (λ d, match begun (dp_pc d) with Some now => s_mono s - now <? window | None => true end)
        (map_to_list (pr_in_flight p)).*2
  end.
Lemma calmb_calm s : calmb s = true → calm window s.
Proof.
  unfold calmb, calm. intros Hc p id d now Hp Hd Hb. rewrite Hp in Hc. rewrite forallb_forall in Hc.
  specialize (Hc d). rewrite Hb in Hc. apply Z.ltb_lt, Hc, list_elem_of_In, list_elem_of_fmap. exists (id, d).
  split; [done|]. by apply elem_of_map_to_list.
Qed.
Lemma calm_run s s' : moves s s' → calmb s = true → rtc (calm_step window max_retries 60) s s'.
Proof. intros [->|Hs] Hc; [done|]. apply rtc_once. split; [by apply calmb_calm|done]. Qed.

(** A camera goes offline, recovers and goes offline again before the dispatcher looks. *)
Definition offline_twice (clears : bool) : Site :=
  let s := log_camera lv_error "camera_offline" 101 (started {["email"]} 100 installed) in
  let s := log_camera lv_error "camera_offline" 103 (log_camera lv_info "camera_recovered" 102 s) in
  let s := Nat.iter 3 (loop_turn clears None) s in
  Nat.iter 2 (loop_turn clears None) (turn 3 (turn 2 (turn 1 s))).

Lemma iter_run n (f : Site → Site) s : (∀ s, rtc step s (f s)) → rtc step s (Nat.iter n f s).
Proof. intros Hf. induction n as [|n IH]; [done|]. etransitivity; [exact IH|apply Hf]. Qed.

Lemma offline_twice_reachable clears : rtc step installed (offline_twice clears).
Proof.
  unfold offline_twice. etransitivity; [|apply iter_run, loop_run].
  do 3 (etransitivity; [|apply turn_run]). etransitivity; [|apply iter_run, loop_run].
  do 3 (etransitivity; [|apply log_run]). apply started_run.
Qed.
End runs.

Lemma alert_listing_complete_witness :
  let l := listing 2 1 (λ offset, (get_active_alerts None None None 1 offset (s_events (offline_twice 60 true))).1) in
  StronglySorted newer_first l ∧
  l ≡ₚ filter (λ e, (ev_alert_cleared_at e = None ∧ ev_level e ∈ levels_at_or_above ALERT_LEVEL_THRESHOLD) ∧
                    (@None event_scope = None ∨ None = Some (ev_scope e)) ∧ (@None Z = None ∨ None = ev_scope_id e))
        (s_events (offline_twice 60 true)).
Proof. apply (alert_listing_complete None None None 1 2 (s_events (offline_twice 60 true))); vm_compute; discriminate. Defined.

Lemma no_event_lost_witness :
  ∃ e, e ∈ s_events (offline_twice 60 true) ∧ ev_id e = 3 ∧
  (ev_id e ∈ s_settled (offline_twice 60 true) ∨ ev_id e ∈ s_unseen (offline_twice 60 true) ∨
   ∃ started newest, (started, newest) ∈ s_starts (offline_twice 60 true) ∧ ev_id e ≤ newest ∧
     ev_timestamp e < started - 60).
Proof.
  eexists. split; [|split; [|apply (no_event_lost 60 3 60 (offline_twice 60 true) 3 3)]].
  - apply (list_elem_of_lookup_2 _ 2%nat). vm_compute. reflexivity.
  - reflexivity.
  - apply offline_twice_reachable.
  - vm_compute. reflexivity.
  - apply (list_elem_of_lookup_2 _ 2%nat). vm_compute. reflexivity.
  - vm_compute. discriminate.
Defined.

Lemma cursor_within_log_witness :
  0 ≤ 3 ≤ 3 ∧ 3 ≤ newest_id (s_events (offline_twice 60 true)) ∧
  ∀ scope scope_id lv type metadata now,
    Forall (λ e, e ∈ s_events (offline_twice 60 true) ∨ 3 < ev_id e)
      (log_event true scope scope_id lv type metadata now (s_events (offline_twice 60 true))).
Proof.
  apply (cursor_within_log 60 3 60 (offline_twice 60 true) 3 3); [apply offline_twice_reachable|vm_compute; reflexivity].
Defined.

Lemma alerts_follow_resolves_witness :
  (∀ e, e ∈ s_events (offline_twice 60 true) → ev_alert_clear_reason e = Some "auto" →
     ∃ r, r ∈ s_resolved (offline_twice 60 true) ∧ answers r e) ∧
  (∀ r e, r ∈ s_events (offline_twice 60 true) → e ∈ s_events (offline_twice 60 true) → answers r e → ev_id r ≤ 3 →
     ev_alert_cleared_at e ≠ None ∨ ev_id r ∈ ev_id <$> s_failed (offline_twice 60 true) ∨
     ev_id r ∈ s_unseen (offline_twice 60 true)).
Proof.
  apply (alerts_follow_resolves 60 3 60 (offline_twice 60 true) 3 3);
    [apply offline_twice_reachable|vm_compute; reflexivity].
Defined.

Lemma dispatch_backlog_bounded_witness :
  ∃ p, s_proc (offline_twice 60 true) = Some p ∧ (size (pr_in_flight p) < 2 * POLL_BATCH_SIZE)%nat.
Proof.
  eexists. split; [|apply (dispatch_backlog_bounded 60 3 60 (offline_twice 60 true));
    [apply offline_twice_reachable|]]; vm_compute; reflexivity.
Defined.

(** The second outage keeps its alert: only the first one is cleared. *)
Lemma second_outage_stands :
  ev_alert_clear_reason <$> s_events (offline_twice 60 true) = [Some "auto"; None; None].
Proof. vm_compute. reflexivity. Qed.

(** ** Where the comments promise more *)

(** A pass of the auto-clear that fails is not repeated: the read mark passes the resolve
    signal all the same, and the first outage's alert stands although the camera recovered. *)
Lemma failed_clear_is_not_repeated :
  rtc (notify_step 60 3 60) installed (offline_twice 60 false) ∧
  s_cursor (offline_twice 60 false) = Some (3, 3) ∧
  ev_alert_cleared_at <$> s_events (offline_twice 60 false) = [None; None; None].
Proof. split; [apply offline_twice_reachable|split; vm_compute; reflexivity]. Qed.

(** A rules read that fails settles the batch: the default reader answers the failure with no
    rules, so the events are routed nowhere and the cursor passes them, although the stored
    rules send every error by mail. *)
Definition mail_everything : pyval :=
  PList [PDict [("event_types", PList [PStr "all"]); ("channels", PList [PStr "email"])]].
Lemma failed_rules_read_settles :
  rtc (notify_step 60 3 60) installed (offline_twice 60 true) ∧
  s_cursor (offline_twice 60 true) = Some (3, 3) ∧ 3 ∈ s_settled (offline_twice 60 true) ∧
  pr_last_sent <$> s_proc (offline_twice 60 true) = Some ∅ ∧
  evaluate_routing_rules "" lv_error (load_routing_rules (Some mail_everything)) = {["email"]}.
Proof.
  split; [apply offline_twice_reachable|]. split; [vm_compute; reflexivity|].
  split; [apply (bool_decide_unpack _); vm_compute; reflexivity|]. split; vm_compute; reflexivity.
Qed.

(** A start whose count of the events to catch up on fails begins at the first event of the
    log, although the newest id and the cursor were read. *)
Lemma failed_count_starts_over e :
  ev_id e = 6 →
  load_start_position 60 (MkAnswers true true true false) 100 [e] (Some (5, 5)) = Raise OSError ∧
  pr_read (start 60 (MkAnswers true true true false) ∅ 100 [e] (Some (5, 5))).1 = 0.
Proof. intros He. unfold start, load_start_position, newest_id. cbn. rewrite He. cbn. done. Qed.

(** A send that succeeds after the window has passed puts its old stamp back over a newer
    reservation: two sends of one key are then in progress two seconds apart. *)
Definition three_alerts : Site :=
  let log s := log_camera lv_error "camera_offline" 101 s in
  Nat.iter 3 (loop_turn true (Some mail_everything)) (log (log (log (started {["email"]} 100 installed)))).
(** Event 1 starts its send, event 2 its own 61 s later, then the first one succeeds and
    event 3 gets its turn. *)
Definition late_success : Site :=
  let s := tick 61 (Nat.iter 2 (turn 60 1) three_alerts) in
  Nat.iter 2 (turn 60 3) (tick 63 (turn 60 1 (Nat.iter 2 (turn 60 2) s))).
(** The stamp of the send of an event that is in progress, with its key. *)
Definition sending (id : Z) (s : Site) : option (debounce_key * Z) :=
  p ← s_proc s; d ← pr_in_flight p !! id;
  match dp_pc d with D_sending now channel _ _ => Some (key_of (dp_event d) channel, now) | _ => None end.

Lemma late_success_reopens_window :
  rtc (notify_step 60 3 60) installed late_success ∧
  ∃ key, sending 2 late_success = Some (key, 61) ∧ sending 3 late_success = Some (key, 63).
Proof.
  split; [|eexists; split; vm_compute; reflexivity]. unfold late_success, three_alerts.
  etransitivity; [|apply iter_run, turn_run]. etransitivity; [|apply rtc_once, n_tick; vm_compute; discriminate].
  etransitivity; [|apply turn_run]. etransitivity; [|apply iter_run, turn_run].
  etransitivity; [|apply rtc_once, n_tick; vm_compute; discriminate]. etransitivity; [|apply iter_run, turn_run].
  etransitivity; [|apply iter_run, loop_run]. do 3 (etransitivity; [|apply log_run]). apply started_run.
Qed.

Lemma retention_keeps_what_matters_witness :
  ∃ t' n, prune_events (MkRetention 1 1 2) (10 * DAY) 20 (s_events (offline_twice 60 true)) = Ok (t', n) ∧ n = 2 ∧
  t' `sublist_of` s_events (offline_twice 60 true) ∧ newest_id t' = newest_id (s_events (offline_twice 60 true)) ∧
  (∀ e, e ∈ s_events (offline_twice 60 true) → e ∈ t' ∨
     ((info_rule (MkRetention 1 1 2) (10 * DAY) e = true ∨ cleared_rule (MkRetention 1 1 2) (10 * DAY) e = true) ∧
      is_open_alert e = false ∧ is_audit e = false)) ∧
  n = Z.of_nat (length (s_events (offline_twice 60 true))) - Z.of_nat (length t') ∧ n ≤ 2 * 20 ∧
  (n < 2 * 20 → Forall (λ e, event_prune_predicate (MkRetention 1 1 2) (10 * DAY) t' e = false) t').
Proof.
  eexists _, _. split; [vm_compute; reflexivity|]. split; [reflexivity|].
  apply (retention_keeps_what_matters (MkRetention 1 1 2) (10 * DAY) 20 (s_events (offline_twice 60 true))).
  - vm_compute. discriminate.
  - vm_compute. discriminate.
  - split; [repeat constructor|repeat constructor].
  - vm_compute. reflexivity.
Defined.

Lemma one_send_per_key_witness :
  ∃ p e now todo k, s_proc (turn 60 1 (turn 60 1 three_alerts)) = Some p ∧
    pr_in_flight p !! 1 = Some (MkDispatch e (D_sending now "email" todo k)) ∧ 1 = 1.
Proof.
  eexists _, _, _, _, _. split; [vm_compute; reflexivity|]. split; [vm_compute; reflexivity|].
  eapply (one_send_per_key 60 3 60 (turn 60 1 (turn 60 1 three_alerts))).
  - do 2 (etransitivity; [|apply calm_run; [apply turn_moves|vm_compute; reflexivity]]). unfold three_alerts. cbn [Nat.iter].
    do 3 (etransitivity; [|apply calm_run; [apply loop_moves|vm_compute; reflexivity]]).
    do 3 (etransitivity; [|apply calm_run; [apply log_moves|vm_compute; reflexivity]]).
    apply calm_run; [apply started_moves|vm_compute; reflexivity].
  - vm_compute. reflexivity.
  - vm_compute. reflexivity.
  - vm_compute. reflexivity.
  - reflexivity.
Defined.
