(* ===== verification/RenderScheduler.v ===== *)
(** * Recurring renders (render/scheduler.py) and the pruning after them

    The scheduler asks, for every active project and for its scheduled and its archive
    renders, whether a job is due, and inserts a pending row when it is.  The answer comes
    from the job table alone, so what deletes rows (render/post_actions.py: [_prune],
    [_auto_prune]) decides it too.

    The table is the list of its rows in the order of their ids (AUTOINCREMENT).  Times are
    microseconds; a stored [interval_seconds] is the exact rational its text or number
    denotes (an integer too large for a float makes [float] raise an error the source does
    not contain, and is outside the model).  The encode settings copied into a new job and
    the output files are not modelled; neither is the hourly housekeeping that shares the scheduler's loop. *)

From Stdlib Require Import QArith SpecFloat Ascii.
From S2P Require Import Prelude PyTime PyVal FrameWriter RenderQueue.
From stdpp Require Import options.
Local Open Scope Z_scope.

(** ** [float(raw)] *)
Inductive pyfloat := F_finite (q : Q) | F_inf (negative : bool) | F_nan.

Definition ch_is (c : ascii) (s : list ascii) : bool := match s with x :: _ => Ascii.eqb x c | [] => false end.
Definition starts_digit (s : list ascii) : bool :=
  match s with c :: _ => match digit_value c with Some _ => true | None => false end | [] => false end.

(** A run of digits, single underscores allowed between them, and the rest. *)
Fixpoint digit_run (after_digit : bool) (s : list ascii) : list Z * list ascii :=
  match s with
  | [] => ([], [])
  | c :: s' =>
      match digit_value c with
      | Some d => let '(ds, rest) := digit_run true s' in (d :: ds, rest)
      | None => if after_digit && Ascii.eqb c "_" && starts_digit s' then digit_run false s' else ([], s)
      end
  end.
Definition of_digits (ds : list Z) : Z := foldl (λ acc d, 10 * acc + d) 0 ds.

Definition sign_of (s : list ascii) : bool * list ascii :=
  match s with
  | c :: s' => if Ascii.eqb c "-" then (true, s') else if Ascii.eqb c "+" then (false, s') else (false, s)
  | [] => (false, [])
  end.
Definition power10 (e : Z) : Q := if 0 <=? e then inject_Z (10 ^ e) else (1 / inject_Z (10 ^ (- e)))%Q.

(** The exponent part, 0 without one; [None] when text is left over. *)
Definition exponent (s : list ascii) : option Z :=
  match s with
  | [] => Some 0
  | c :: s' =>
      if Ascii.eqb c "e" || Ascii.eqb c "E" then
        let '(negative, s') := sign_of s' in
        match digit_run false s' with
        | ([], _) => None
        | (ds, []) => Some (if (negative : bool) then - of_digits ds else of_digits ds)
        | _ => None
        end
      else None
  end.
Definition lower_text (s : list ascii) : string :=
  String.string_of_list_ascii
    ((λ c, let n := char_code c in if (65 <=? n) && (n <=? 90) then ascii_of_nat (Z.to_nat (n + 32)) else c) <$> s).

(** [float(s)] for a text, [None] for the [ValueError]. *)
Definition float_of_text (s : string) : option pyfloat :=
  let '(negative, body) := sign_of (String.list_ascii_of_string (strip s)) in
  let word := lower_text body in
  if String.eqb word "inf" || String.eqb word "infinity" then Some (F_inf negative)
  else if String.eqb word "nan" then Some F_nan
  else
    let '(whole, rest) := digit_run false body in
    let '(fraction, rest) := if ch_is "." rest then digit_run false (drop 1 rest) else ([], rest) in
    match whole ++ fraction with
    | [] => None
    | ds =>
        e ← exponent rest;
        let q := (inject_Z (of_digits ds) * power10 (e - Z.of_nat (length fraction)))%Q in
        Some (F_finite (if (negative : bool) then - q else q)%Q)
    end.

(** [float(raw)] for a stored value, [None] for [TypeError] and [ValueError]. *)
Definition to_float (v : pyval) : option pyfloat :=
  match v with
  | PBool b => Some (F_finite (if b then 1 else 0)%Q)
  | PInt z => Some (F_finite (inject_Z z))
  | PFloat (S754_zero _) => Some (F_finite 0)
  | PFloat (S754_finite s m e) =>
      let q := (inject_Z (Zpos m) * (if (0 <=? e)%Z then inject_Z (2 ^ e) else 1 / inject_Z (2 ^ (- e))))%Q in
      Some (F_finite (if s then - q else q)%Q)
  | PFloat (S754_infinity s) => Some (F_inf s)
  | PFloat S754_nan => Some F_nan
  | PStr s => float_of_text s
  | _ => None
  end.

(** ** The schedule *)
(** [_interval_seconds]; [None] is off. *)
Definition interval_seconds (schedule : pyval) : option pyfloat :=
  match schedule with
  | PDict kvs =>
      if negb (truthy schedule) then None
      else if negb (truthy (dict_get kvs "enabled" (PBool false))) then None
      else match dict_get kvs "interval_seconds" PNone with
           | PNone => None
           | raw =>
               match to_float raw with
               | Some (F_finite q) => if Qle_bool q 0 then None else Some (F_finite q)
               | Some (F_inf false) => Some (F_inf false)
               | _ => None
               end
           end
  | _ => None
  end.

Record JobRow := MkRow {
  jr_id : Z;
  jr_project : Z;
  jr_kind : job_kind;
  jr_status : job_status;
  jr_created_at : Z;
}.
Notation rows := (list JobRow).
Record ProjectRow := MkProjectRow {
  pj_id : Z;
  pj_lifecycle : lifecycle;
  pj_render_schedule : pyval;
  pj_archive_schedule : pyval;
}.

Definition in_flight (r : JobRow) : bool := bool_decide (jr_status r = pending ∨ jr_status r = encoding).
Definition of_pair (project : Z) (kind : job_kind) (r : JobRow) : bool :=
  (jr_project r =? project) && bool_decide (jr_kind r = kind).

(** [_JobHistory] and [_job_history]: the newest [created_at] per pair over the projects
    asked for, and the flag of an in-flight job; [None] for a pair in neither arm. *)
Record JobHistory := MkHistory { jh_last_created_at : option Z; jh_in_flight : bool }.
Definition job_history (project_ids : list Z) (t : rows) (project : Z) (kind : job_kind) : option JobHistory :=
  let newest := filter (λ r, of_pair project kind r = true ∧ jr_project r ∈ project_ids) t in
  let live := filter (λ r, of_pair project kind r = true ∧ in_flight r = true) t in
  match newest, live with
  | [], [] => None
  | _, _ => Some (MkHistory (foldl keep_max None (jr_created_at <$> newest))
                    (match live with [] => false | _ => true end))
  end.

(** [seconds >= interval] *)
Definition at_least (elapsed : Z) (interval : pyfloat) : bool :=
  match interval with
  | F_finite q => Qle_bool q (inject_Z elapsed / 1000000)
  | F_inf negative => negative
  | F_nan => false
  end.

(** [_is_due] *)
Definition is_due (history : option JobHistory) (interval : pyfloat) (now : Z) : bool :=
  match history with
  | None => true
  | Some h =>
      if jh_in_flight h then false
      else match jh_last_created_at h with
           | None => true
           | Some last_at => at_least (now - last_at) interval
           end
  end.

(** The pairs with a live schedule, in evaluation order. *)
Definition live_pairs (projects : list ProjectRow) : list (Z * job_kind * pyfloat) :=
  mjoin ((λ p, omap (λ ks : job_kind * pyval, (λ i, (pj_id p, ks.1, i)) <$> interval_seconds ks.2)
                 [(scheduled, pj_render_schedule p); (archive, pj_archive_schedule p)])
         <$> filter (λ p, pj_lifecycle p = lc_active) projects).

(** [_create_job]: [max_id] is the largest id the table ever gave out. *)
Definition create_job (project : Z) (kind : job_kind) (stamp : Z) (st : rows * Z) : rows * Z :=
  (st.1 ++ [MkRow (st.2 + 1) project kind pending stamp], st.2 + 1).

(** [_enqueue_due_jobs]: the ids created; the history is read before the inserts. *)
Definition due_pairs (now : Z) (projects : list ProjectRow) (t : rows) : list (Z * job_kind) :=
  let live := live_pairs projects in
  let ids := (λ l : Z * job_kind * pyfloat, l.1.1) <$> live in
  (λ l : Z * job_kind * pyfloat, l.1) <$>
    filter (λ l, is_due (job_history ids t l.1.1 l.1.2) l.2 now = true) live.
Definition enqueue_due_jobs (now stamp : Z) (projects : list ProjectRow) (st : rows * Z) : rows * Z :=
  foldl (λ st pk, create_job pk.1 pk.2 stamp st) st (due_pairs now projects st.1).

(** ** Pruning after a render (render/post_actions.py) *)
(** [candidates[keep:]] of the rows that pass, newest id first: all but the last [keep]. *)
Definition prunable (test : JobRow → bool) (keep : nat) (t : rows) : list Z :=
  let candidates := filter (λ r, test r = true) t in
  jr_id <$> take (length candidates - keep) candidates.
Definition delete_ids (ids : list Z) (t : rows) : rows := filter (λ r, jr_id r ∉ ids) t.

(** [auto_prune_enabled] *)
Definition auto_prune_enabled (schedule : pyval) : bool :=
  match schedule with
  | PDict kvs => truthy (dict_get kvs "auto_prune" (PBool true))
  | _ => true
  end.

(** [_auto_prune] *)
Definition auto_prune (p : ProjectRow) (kind : job_kind) (t : rows) : rows :=
  match kind with
  | scheduled | archive =>
      let schedule := match kind with scheduled => pj_render_schedule p | _ => pj_archive_schedule p end in
      if negb (auto_prune_enabled schedule) then t
      else delete_ids (prunable (λ r, of_pair (pj_id p) kind r && bool_decide (jr_status r = done)) 1 t) t
  | _ => t
  end.

(** [_prune], with the keep count of the action. *)
Definition prune_renders (keep : Z) (p : ProjectRow) (kind : job_kind) (t : rows) : rows :=
  match kind with
  | manual => t
  | _ =>
      delete_ids
        (prunable (λ r, (jr_project r =? pj_id p) && bool_decide (jr_kind r ≠ archive ∧ jr_kind r ≠ export) &&
                        bool_decide (jr_status r = done)) (Z.to_nat (Z.max 0 keep)) t) t
  end.
