(* ===== verification/RenderSchedulerFacts.v ===== *)
(** * Facts about the recurring renders *)

From Stdlib Require Import QArith SpecFloat.
From S2P Require Import Prelude PyTime PyVal FrameWriter RenderQueue RenderScheduler.
From stdpp Require Import options.
Local Open Scope Z_scope.

(** ** The due check *)
Lemma at_least_mono e1 e2 interval : e1 ≤ e2 → at_least e1 interval = true → at_least e2 interval = true.
Proof.
  intros Hle. destruct interval as [q|[]|]; [|done..]. cbn. rewrite !Qle_bool_iff. intros Hq.
  eapply Qle_trans; [exact Hq|]. apply Qmult_le_compat_r; [|done]. by rewrite <-Zle_Qle.
Qed.

Lemma of_pair_spec project kind r : of_pair project kind r = true ↔ jr_project r = project ∧ jr_kind r = kind.
Proof. unfold of_pair. by rewrite andb_true_iff, Z.eqb_eq, bool_decide_eq_true. Qed.

(** The history of a pair of a project that was asked for, read back as a condition on the
    rows. *)
Lemma due_spec ids t project kind interval now :
  project ∈ ids →
  is_due (job_history ids t project kind) interval now = true ↔
  ∀ r, r ∈ t → of_pair project kind r = true → in_flight r = false ∧ at_least (now - jr_created_at r) interval = true.
Proof.
  intros Hids. unfold job_history. set (newest := filter _ t). set (live := filter _ t).
  assert (∀ r, r ∈ newest ↔ r ∈ t ∧ of_pair project kind r = true) as Hnew.
  { intros r. unfold newest. rewrite list_elem_of_filter. split; [tauto|]. intros [Hr Hp]. split; [|done]. split; [done|].
    apply of_pair_spec in Hp as [-> _]. done. }
  assert (∀ r, r ∈ live ↔ r ∈ t ∧ of_pair project kind r = true ∧ in_flight r = true) as Hlive.
  { intros r. unfold live. rewrite list_elem_of_filter. tauto. }
  assert (live = [] ↔ ∀ r, r ∈ t → of_pair project kind r = true → in_flight r = false) as Hnone.
  { split.
    - intros Hl r Hr Hp. apply not_true_iff_false. intros Hf. assert (r ∈ live) as Hin by (by apply Hlive).
      rewrite Hl in Hin. by apply elem_of_nil in Hin.
    - intros Hall. destruct live as [|r l] eqn:Hl; [done|]. destruct (proj1 (Hlive r)) as (Hr & Hp & Hf); [by left|].
      by rewrite (Hall r Hr Hp) in Hf. }
  pose proof (fold_keep_max (jr_created_at <$> newest) None) as Hmax.
  assert (is_due (match newest, live with [], [] => None | _, _ => Some (MkHistory (foldl keep_max None (jr_created_at <$> newest)) (match live with [] => false | _ => true end)) end) interval now = true ↔
    live = [] ∧ ∀ r, r ∈ newest → at_least (now - jr_created_at r) interval = true) as ->.
  { destruct live as [|l ls]; cbn [jh_in_flight].
    - destruct newest as [|x xs] eqn:Hx; [cbn; split; [|done]; intros _; split; [done|by intros ? ?%elem_of_nil]|].
      rewrite <-Hx in *. cbn [is_due jh_in_flight jh_last_created_at].
      destruct (foldl keep_max None _) as [m|].
      + destruct Hmax as ([?|Hm] & Hle & _); [done|]. apply list_elem_of_fmap in Hm as (r0 & -> & Hr0). split.
        * intros Hd. split; [done|]. intros r Hr. eapply at_least_mono; [|exact Hd].
          specialize (Hle (jr_created_at r) (list_elem_of_fmap_2 _ _ _ Hr)). lia.
        * intros [_ Hall]. by apply Hall.
      + destruct Hmax as [_ Hnil]. apply fmap_nil_inv in Hnil. by rewrite Hnil in Hx.
    - destruct newest; cbn; split; [done|by intros [? _]|done|by intros [? _]]. }
  rewrite Hnone. split.
  - intros [H1 H2] r Hr Hp. split; [by apply H1|]. apply H2. by apply Hnew.
  - intros Hall. split; [intros r Hr Hp; by apply Hall|]. intros r [Hr Hp]%Hnew. by apply Hall.
Qed.

Lemma elem_of_live_pairs projects project kind interval :
  (project, kind, interval) ∈ live_pairs projects ↔
  ∃ p, p ∈ projects ∧ pj_lifecycle p = lc_active ∧ pj_id p = project ∧
    ((kind = scheduled ∧ interval_seconds (pj_render_schedule p) = Some interval) ∨
     (kind = archive ∧ interval_seconds (pj_archive_schedule p) = Some interval)).
Proof.
  unfold live_pairs. rewrite list_elem_of_join. split.
  - intros (l & Hl & (p & -> & [Hact Hp]%list_elem_of_filter)%list_elem_of_fmap). exists p. split; [done|]. split; [done|].
    apply list_elem_of_omap in Hl as ([k sch] & Hk & Hi). cbn in Hi.
    destruct (interval_seconds sch) as [i|] eqn:Hs; [|done]. injection Hi as -> -> ->. split; [done|].
    apply elem_of_cons in Hk as [[= -> ->]|Hk]; [by left|]. apply list_elem_of_singleton in Hk as [= -> ->]. by right.
  - intros (p & Hp & Hact & <- & Hk). eexists. split; [|apply list_elem_of_fmap; exists p; split; [done|by apply list_elem_of_filter]].
    apply list_elem_of_omap. destruct Hk as [[-> Hs]|[-> Hs]].
    + exists (scheduled, pj_render_schedule p). split; [by left|]. cbn. by rewrite Hs.
    + exists (archive, pj_archive_schedule p). split; [right; by left|]. cbn. by rewrite Hs.
Qed.

Lemma elem_of_due now projects t project kind :
  (project, kind) ∈ due_pairs now projects t ↔
  ∃ interval, (project, kind, interval) ∈ live_pairs projects ∧
    ∀ r, r ∈ t → of_pair project kind r = true → in_flight r = false ∧ at_least (now - jr_created_at r) interval = true.
Proof.
  unfold due_pairs. rewrite list_elem_of_fmap. split.
  - intros ([[p k] i] & [= -> ->] & [Hd Hin]%list_elem_of_filter). cbn in *. exists i. split; [done|].
    eapply due_spec; [|exact Hd]. apply list_elem_of_fmap. by exists (p, k, i).
  - intros (i & Hin & Hall). exists (project, kind, i). split; [done|]. apply list_elem_of_filter. split; [|done]. cbn.
    apply due_spec; [|done]. apply list_elem_of_fmap. by exists (project, kind, i).
Qed.

(** Each pair is evaluated once. *)
Lemma NoDup_live projects : NoDup (pj_id <$> projects) → NoDup ((λ l : Z * job_kind * pyfloat, l.1) <$> live_pairs projects).
Proof.
  unfold live_pairs. induction projects as [|p ps IH]; [constructor|]. intros [Hp Hps]%NoDup_cons.
  rewrite filter_cons. case_decide as Hact; [|by apply IH]. cbn [fmap list_fmap mjoin list_join]. rewrite fmap_app.
  apply NoDup_app. split_and!; [| |by apply IH].
  - cbn. destruct (interval_seconds (pj_render_schedule p)), (interval_seconds (pj_archive_schedule p)); cbn;
      repeat (constructor; [set_solver|]); try constructor.
  - intros [q k] (l & -> & Hl)%list_elem_of_fmap (l' & Heq & Hl')%list_elem_of_fmap.
    destruct l' as [[q' k'] i']. cbn in Heq. apply elem_of_live_pairs in Hl' as (p' & Hin & _ & Hid & _).
    apply Hp. apply list_elem_of_fmap. exists p'. split; [|done]. rewrite Hid.
    apply list_elem_of_omap in Hl as ([k0 sch] & _ & Hi). cbn in Hi. destruct (interval_seconds sch); [|done].
    injection Hi as <-. cbn in Heq. by injection Heq.
Qed.

Lemma NoDup_fmap_filter {A B} (f : A → B) (P : A → Prop) `{!∀ x, Decision (P x)} l :
  NoDup (f <$> l) → NoDup (f <$> filter P l).
Proof.
  induction l as [|x l IH]; [done|]. intros [Hx Hl]%NoDup_cons. rewrite filter_cons. case_decide; [|by apply IH].
  apply NoDup_cons. split; [|by apply IH]. intros (y & Heq & [_ Hy]%list_elem_of_filter)%list_elem_of_fmap.
  apply Hx, list_elem_of_fmap. by exists y.
Qed.

(** ** The job table in use

    A pass of the scheduler; a job of the worker moving on (a settled one is final); a row
    deleted; a manual render or an export queued; the projects edited. *)
Record Table := MkTable { tb_rows : rows; tb_max : Z; tb_projects : list ProjectRow }.

Definition set_status (id : Z) (st : job_status) (t : rows) : rows :=
  (λ r, if decide (jr_id r = id ∧ in_flight r = true)
        then MkRow (jr_id r) (jr_project r) (jr_kind r) st (jr_created_at r) else r) <$> t.

Inductive table_step : Table → Table → Prop :=
  | t_pass t m ps now stamp :
      table_step (MkTable t m ps)
        (MkTable (enqueue_due_jobs now stamp ps (t, m)).1 (enqueue_due_jobs now stamp ps (t, m)).2 ps)
  | t_status t m ps id st : table_step (MkTable t m ps) (MkTable (set_status id st t) m ps)
  | t_delete t m ps ids : table_step (MkTable t m ps) (MkTable (delete_ids ids t) m ps)
  | t_request t m ps project kind stamp :
      kind = manual ∨ kind = export →
      table_step (MkTable t m ps) (MkTable (create_job project kind stamp (t, m)).1 (m + 1) ps)
  | t_edit t m ps ps' : NoDup (pj_id <$> ps') → table_step (MkTable t m ps) (MkTable t m ps').
Definition empty_table : Table := MkTable [] 0 [].

(** The in-flight jobs of a pair. *)
Definition running (project : Z) (kind : job_kind) (t : rows) : rows :=
  filter (λ r, of_pair project kind r = true ∧ in_flight r = true) t.
Definition no_pile (t : rows) : Prop :=
  ∀ project kind, kind = scheduled ∨ kind = archive → (length (running project kind t) ≤ 1)%nat.

Lemma running_app project kind t1 t2 : running project kind (t1 ++ t2) = running project kind t1 ++ running project kind t2.
Proof. apply filter_app. Qed.

(** The rows a pass appends. *)
Definition new_rows (stamp m : Z) (pks : list (Z * job_kind)) : rows :=
  imap (λ i pk, MkRow (m + 1 + Z.of_nat i) pk.1 pk.2 pending stamp) pks.

Lemma enqueue_rows stamp pks t m :
  foldl (λ st pk, create_job pk.1 pk.2 stamp st) (t, m) pks = (t ++ new_rows stamp m pks, m + Z.of_nat (length pks)).
Proof.
  unfold new_rows. revert t m. induction pks as [|pk pks IH]; intros t m; cbn [foldl imap length].
  { rewrite app_nil_r. f_equal. lia. }
  unfold create_job at 2. cbn [fst snd]. rewrite IH. rewrite <-app_assoc. cbn [app]. f_equal; [|lia]. f_equal. f_equal.
  - f_equal. lia.
  - apply imap_ext. intros i x _. cbn. f_equal. lia.
Qed.

Lemma new_rows_cons stamp m pk pks :
  new_rows stamp m (pk :: pks) = MkRow (m + 1) pk.1 pk.2 pending stamp :: new_rows stamp (m + 1) pks.
Proof.
  unfold new_rows. cbn [imap]. f_equal; [f_equal; lia|]. apply imap_ext. intros i x _. cbn. f_equal. lia.
Qed.

Lemma elem_of_new_rows stamp m pks r :
  r ∈ new_rows stamp m pks → (jr_project r, jr_kind r) ∈ pks ∧ jr_created_at r = stamp ∧ m < jr_id r.
Proof.
  revert m. induction pks as [|[p k] pks IH]; intros m; [by intros ?%elem_of_nil|]. rewrite new_rows_cons.
  intros [Hr|Hr]%elem_of_cons.
  - subst r. cbn. split; [by left|]. split; [done|lia].
  - destruct (IH _ Hr) as (Hin & Hst & Hid). split; [by right|]. split; [done|lia].
Qed.

Lemma new_row_pending stamp m pks r : r ∈ new_rows stamp m pks → jr_status r = pending.
Proof.
  revert m. induction pks as [|pk pks IH]; intros m; [by intros ?%elem_of_nil|]. rewrite new_rows_cons.
  intros [->|Hr]%elem_of_cons; [done|eauto].
Qed.

Lemma pairs_of_new stamp m pks : (λ r, (jr_project r, jr_kind r)) <$> new_rows stamp m pks = pks.
Proof.
  revert m. induction pks as [|[p k] pks IH]; intros m; [done|]. rewrite new_rows_cons. cbn [fmap list_fmap]. by rewrite IH.
Qed.

Lemma elem_of_pair_of_new stamp m pks project kind :
  (∃ r, r ∈ new_rows stamp m pks ∧ jr_project r = project ∧ jr_kind r = kind) ↔ (project, kind) ∈ pks.
Proof.
  transitivity ((project, kind) ∈ (λ r, (jr_project r, jr_kind r)) <$> new_rows stamp m pks); [|by rewrite pairs_of_new].
  rewrite list_elem_of_fmap. split.
  - intros (r & Hr & <- & <-). by exists r.
  - intros (r & [= -> ->] & Hr). by exists r.
Qed.

Lemma running_new stamp m pks project kind :
  NoDup pks → (length (running project kind (new_rows stamp m pks)) ≤ if decide ((project, kind) ∈ pks) then 1 else 0)%nat.
Proof.
  revert m. induction pks as [|[p k] pks IH]; intros m; [intros _; cbn; case_decide; lia|].
  intros [Hpk Hn]%NoDup_cons. specialize (IH (m + 1) Hn). rewrite new_rows_cons.
  unfold running in *. rewrite filter_cons.
  destruct (decide (of_pair project kind _ = true ∧ _)) as [[Hd _]|Hd].
  - apply of_pair_spec in Hd as [Hp Hk]. cbn in Hp, Hk. subst p k.
    rewrite decide_False in IH by done. rewrite decide_True by (by left). cbn [length]. lia.
  - destruct (decide ((project, kind) ∈ (p, k) :: pks)) as [Hin|Hn'].
    + destruct (decide ((project, kind) ∈ pks)); lia.
    + rewrite decide_False in IH; [done|]. intros ?. apply Hn'. by right.
Qed.

Lemma NoDup_due now projects t : NoDup (pj_id <$> projects) → NoDup (due_pairs now projects t).
Proof. intros Hn. unfold due_pairs. apply NoDup_fmap_filter. by apply NoDup_live. Qed.

Lemma enqueue_spec now stamp ps t m :
  enqueue_due_jobs now stamp ps (t, m) =
  (t ++ new_rows stamp m (due_pairs now ps t), m + Z.of_nat (length (due_pairs now ps t))).
Proof. unfold enqueue_due_jobs. cbn [fst]. apply enqueue_rows. Qed.

Lemma running_none project kind t :
  (∀ r, r ∈ t → of_pair project kind r = true → in_flight r = false) → running project kind t = [].
Proof.
  intros Hall. unfold running. destruct (filter _ t) as [|r l] eqn:Hf; [done|].
  assert (r ∈ r :: l) as Hr by (by left). rewrite <-Hf in Hr. apply list_elem_of_filter in Hr as [[Hp Hl] Hr].
  by rewrite (Hall r Hr Hp) in Hl.
Qed.

Lemma running_fmap f project kind t :
  (∀ r, of_pair project kind (f r) = true ∧ in_flight (f r) = true → of_pair project kind r = true ∧ in_flight r = true) →
  (length (running project kind (f <$> t)) ≤ length (running project kind t))%nat.
Proof.
  intros Hf. unfold running. induction t as [|r t IH]; [done|]. cbn [fmap list_fmap]. rewrite !filter_cons.
  case_decide as H1; [rewrite decide_True by auto; cbn [length]; lia|]. case_decide; cbn [length]; lia.
Qed.

Lemma running_filter (P : JobRow → Prop) `{!∀ r, Decision (P r)} project kind t :
  (length (running project kind (filter P t)) ≤ length (running project kind t))%nat.
Proof.
  unfold running. induction t as [|r t IH]; [done|]. rewrite (filter_cons P).
  destruct (decide (P r)); rewrite !filter_cons; case_decide; cbn [length]; lia.
Qed.

Lemma rtc_table_inv (P : Table → Prop) a b :
  P a → (∀ x y, P x → table_step x y → P y) → rtc table_step a b → P b.
Proof. intros Ha Hs Hr. revert Ha. induction Hr as [|x y z Hxy _ IH]; [done|]. intros Ha. eauto. Qed.

(** C11: scheduled and archive renders do not pile up.  However the scheduler's passes, the
    worker's progress, deletions, manual renders and project edits interleave, a project has
    at most one scheduled and one archive job pending or encoding. *)
Theorem scheduled_never_pile_up b : rtc table_step empty_table b → no_pile (tb_rows b).
Proof.
  intros Hr. apply (rtc_table_inv (λ b, NoDup (pj_id <$> tb_projects b) ∧ no_pile (tb_rows b))) in Hr as [_ Hp]; [done| |].
  { split; [constructor|]. intros project kind _. cbn. lia. }
  clear. intros x y [Hn Hp] Hs. destruct Hs as [t m ps now stamp|t m ps id st|t m ps ids|t m ps project kind stamp Hk|t m ps ps' Hn'];
    cbn [tb_rows tb_projects] in *; (split; [done|]); [..|done].
  all: intros p k Hpk; specialize (Hp p k Hpk).
  - rewrite enqueue_spec. cbn [fst]. rewrite running_app, length_app.
    pose proof (running_new stamp m (due_pairs now ps t) p k (NoDup_due now ps t Hn)) as Hnew.
    destruct (decide ((p, k) ∈ due_pairs now ps t)) as [Hin|]; [|lia].
    apply elem_of_due in Hin as (i & _ & Hall). rewrite (running_none p k t); [cbn; lia|]. intros r Hr Hof. by apply Hall.
  - etrans; [|exact Hp]. apply running_fmap. intros r. destruct (decide _) as [[_ Hf]|]; [|done]. intros [Hof _]. by split.
  - etrans; [|exact Hp]. apply running_filter.
  - unfold create_job. cbn [fst snd]. rewrite running_app, length_app.
    replace (running p k [_]) with (@nil JobRow); [cbn; lia|]. symmetry. apply running_none.
    intros r ->%list_elem_of_singleton [_ Hkk]%of_pair_spec. cbn in Hkk. subst k. destruct Hk, Hpk; by subst kind.
Qed.

(** The scheduler creates exactly the jobs that are due.  A pass adds a job of a kind for a
    project precisely when the project is active with that schedule switched on at a positive
    interval, no such job is pending or encoding, and every such job on record was created at
    least the interval ago; each job added is pending, carries the time of the pass, and
    comes after every row that was there; no pair gets two. *)
Theorem due_jobs_exact now stamp projects t m :
  NoDup (pj_id <$> projects) →
  let t' := (enqueue_due_jobs now stamp projects (t, m)).1 in
  ∃ added, t' = t ++ added ∧ NoDup ((λ r, (jr_project r, jr_kind r)) <$> added) ∧
    (∀ r, r ∈ added → jr_status r = pending ∧ jr_created_at r = stamp ∧ m < jr_id r) ∧
    ∀ project kind, (∃ r, r ∈ added ∧ jr_project r = project ∧ jr_kind r = kind) ↔
      ∃ p interval, p ∈ projects ∧ pj_lifecycle p = lc_active ∧ pj_id p = project ∧
        ((kind = scheduled ∧ interval_seconds (pj_render_schedule p) = Some interval) ∨
         (kind = archive ∧ interval_seconds (pj_archive_schedule p) = Some interval)) ∧
        ∀ r, r ∈ t → of_pair project kind r = true →
          in_flight r = false ∧ at_least (now - jr_created_at r) interval = true.
Proof.
  intros Hn t'. unfold t'. rewrite enqueue_spec. cbn [fst]. set (due := due_pairs now projects t).
  exists (new_rows stamp m due). split; [done|]. rewrite pairs_of_new. split; [by apply NoDup_due|]. split.
  - intros r Hr. split; [by eapply new_row_pending|]. by apply elem_of_new_rows in Hr as (_ & ? & ?).
  - intros project kind. rewrite elem_of_pair_of_new. unfold due. rewrite elem_of_due. setoid_rewrite elem_of_live_pairs.
    split; [intros (i & (p & ?) & ?); exists p, i|intros (p & i & ?); exists i; split; [exists p|]]; naive_solver.
Qed.

(** ** Pruning *)
Lemma filter_keep {A} (P Q : A → Prop) `{!∀ x, Decision (P x)} `{!∀ x, Decision (Q x)} (l : list A) :
  (∀ x, x ∈ l → Q x → P x) → filter Q (filter P l) = filter Q l.
Proof.
  induction l as [|x l IH]; [done|]. intros Hall. rewrite (filter_cons P), (filter_cons Q x l).
  specialize (IH (λ y Hy, Hall y (list_elem_of_further y x l Hy))). pose proof (Hall x (list_elem_of_here x l)) as Hx.
  destruct (decide (P x)), (decide (Q x)); [rewrite filter_cons_True by done|rewrite filter_cons_False by done|tauto|]; by rewrite ?IH.
Qed.

(** A part of a list with an upper bound for each of its elements has the same maximum. *)
Lemma keep_max_cofinal l1 l2 :
  l1 ⊆ l2 → (∀ x, x ∈ l2 → ∃ y, y ∈ l1 ∧ x ≤ y) → foldl keep_max None l1 = foldl keep_max None l2.
Proof.
  intros Hsub Hcof. pose proof (fold_keep_max l1 None) as H1. pose proof (fold_keep_max l2 None) as H2.
  destruct (foldl keep_max None l1) as [a|], (foldl keep_max None l2) as [b|]; [|destruct H2 as [_ ->]|destruct H1 as [_ ->]|done].
  - destruct H1 as ([?|Ha] & Hla & _); [done|]. destruct H2 as ([?|Hb] & Hlb & _); [done|].
    destruct (Hcof b Hb) as (y & Hy & Hby). specialize (Hla y Hy). specialize (Hlb a (Hsub a Ha)). f_equal. lia.
  - destruct H1 as ([?|Ha] & _); [done|]. by apply Hsub, elem_of_nil in Ha.
  - destruct H2 as ([?|Hb] & _); [done|]. destruct (Hcof b Hb) as (y & Hy%elem_of_nil & _). done.
Qed.

(** The order the table's rows are kept in: by id, and stamped as they were created. *)
Definition older (r r' : JobRow) : Prop := jr_id r < jr_id r' ∧ jr_created_at r ≤ jr_created_at r'.
Notation in_order := (StronglySorted older).

Lemma in_order_filter (P : JobRow → Prop) `{!∀ r, Decision (P r)} t : in_order t → in_order (filter P t).
Proof.
  induction 1 as [|r t Ht IH Hr]; [constructor|]. rewrite filter_cons. case_decide; [|done]. constructor; [done|].
  apply Forall_forall. intros x [_ Hx]%list_elem_of_filter. by apply (proj1 (Forall_forall _ _) Hr).
Qed.

Lemma in_order_app t1 t2 x y : in_order (t1 ++ t2) → x ∈ t1 → y ∈ t2 → older x y.
Proof.
  induction t1 as [|r t1 IH]; [by intros _ ?%elem_of_nil|]. cbn. intros [Hs Hr]%StronglySorted_inv.
  intros [->|Hx]%elem_of_cons Hy; [|by apply IH]. apply (proj1 (Forall_forall _ _) Hr), elem_of_app. by right.
Qed.

Lemma in_order_same_id t x y : in_order t → x ∈ t → y ∈ t → jr_id x = jr_id y → x = y.
Proof.
  induction 1 as [|r t Ht IH Hr]; [by intros ?%elem_of_nil|]. rewrite Forall_forall in Hr.
  intros [->|Hx]%elem_of_cons [->|Hy]%elem_of_cons Hid; [done| | |by apply IH].
  - destruct (Hr y Hy). lia.
  - destruct (Hr x Hx). lia.
Qed.

(** A row of an ordered table goes exactly when it is a candidate with at least [keep]
    younger candidates; with a place to keep, the youngest candidate stays. *)
Lemma pruned_has_younger test keep t r :
  in_order t → (0 < keep)%nat → r ∈ t → jr_id r ∈ prunable test keep t →
  test r = true ∧ ∃ c, c ∈ t ∧ test c = true ∧ older r c ∧ jr_id c ∉ prunable test keep t.
Proof.
  intros Ht Hkeep Hr. unfold prunable. set (cs := filter _ t). set (n := (length cs - keep)%nat).
  assert (in_order cs) as Hcs by (by apply in_order_filter).
  assert (∀ x, x ∈ cs ↔ test x = true ∧ x ∈ t) as Hmem by (intros x; unfold cs; by rewrite list_elem_of_filter).
  intros (x & Hid & Hx)%list_elem_of_fmap.
  assert (x ∈ cs) as Hxc by (rewrite <-(take_drop n cs); apply elem_of_app; by left).
  assert (r = x) as -> by (apply (in_order_same_id t); [done|done|by apply Hmem|done]).
  split; [by apply Hmem|].
  destruct (drop n cs) as [|c rest] eqn:Hd.
  { apply (f_equal length) in Hd. rewrite length_drop in Hd. cbn in Hd.
    assert (n = 0%nat) as Hn0 by (unfold n in *; lia). rewrite Hn0 in Hx. by apply elem_of_nil in Hx. }
  assert (cs = take n cs ++ c :: rest) as Hsplit by (rewrite <-Hd; by rewrite take_drop).
  assert (c ∈ cs) as Hc by (rewrite Hsplit; apply elem_of_app; right; by left).
  rewrite Hsplit in Hcs. exists c. split; [by apply Hmem|]. split; [by apply Hmem|].
  split; [eapply in_order_app; [exact Hcs|done|by left]|].
  intros (y & Hyc & Hy)%list_elem_of_fmap. destruct (in_order_app _ _ y c Hcs Hy) as [Hlt _]; [by left|]. lia.
Qed.

Lemma job_history_ext ids t t' project kind :
  filter (λ r, of_pair project kind r = true ∧ in_flight r = true) t' =
    filter (λ r, of_pair project kind r = true ∧ in_flight r = true) t →
  t' ⊆ t →
  (∀ r, r ∈ t → of_pair project kind r = true →
     ∃ c, c ∈ t' ∧ of_pair project kind c = true ∧ jr_project c = jr_project r ∧ jr_created_at r ≤ jr_created_at c) →
  job_history ids t' project kind = job_history ids t project kind.
Proof.
  intros Hlive Hsub Hcof. unfold job_history. rewrite Hlive.
  set (n' := filter (λ r, of_pair project kind r = true ∧ jr_project r ∈ ids) t').
  set (n := filter (λ r, of_pair project kind r = true ∧ jr_project r ∈ ids) t).
  assert (foldl keep_max None (jr_created_at <$> n') = foldl keep_max None (jr_created_at <$> n)) as Hmax.
  { apply keep_max_cofinal.
    - intros x (r & -> & [Hp Hr]%list_elem_of_filter)%list_elem_of_fmap. apply list_elem_of_fmap_2.
      apply list_elem_of_filter. auto.
    - intros x (r & -> & [[Hp Hi] Hr]%list_elem_of_filter)%list_elem_of_fmap. destruct (Hcof r Hr Hp) as (c & Hc & Hpc & Heq & Hle).
      exists (jr_created_at c). split; [|done]. apply list_elem_of_fmap_2, list_elem_of_filter. by rewrite Heq. }
  rewrite Hmax. destruct (filter _ t) as [|l ls]; [|destruct n', n; done].
  destruct n' as [|x' xs'], n as [|x xs]; [done| | |done]; cbn [fmap list_fmap foldl keep_max] in Hmax.
  - pose proof (fold_keep_max (jr_created_at <$> xs) (Some (jr_created_at x))) as H. by rewrite <-Hmax in H; destruct H.
  - pose proof (fold_keep_max (jr_created_at <$> xs') (Some (jr_created_at x'))) as H. by rewrite Hmax in H; destruct H.
Qed.

(** Pruning after a recurring render does not disturb the schedule.  On a job table kept
    in the order of its ids and its creation times, removing the older finished renders of a
    kind after one completes leaves every pair's history, its newest creation time and its
    in-flight flag, as it was, so that no render comes due earlier or later for it. *)
Theorem auto_prune_keeps_cadence p kind t ids project k :
  StronglySorted older t → job_history ids (auto_prune p kind t) project k = job_history ids t project k.
Proof.
  intros Ht. unfold auto_prune.
  set (test := λ r, of_pair (pj_id p) kind r && bool_decide (jr_status r = done)).
  assert (job_history ids (delete_ids (prunable test 1 t) t) project k = job_history ids t project k) as Hprune;
    [|destruct kind; try done; by destruct (negb _)].
  apply job_history_ext.
  - apply filter_keep. intros r Hr [_ Hf] Hin. apply pruned_has_younger in Hin as [Htest _]; [|done|lia|done].
    unfold test in Htest. apply andb_true_iff in Htest as [_ Hd%bool_decide_eq_true]. unfold in_flight in Hf.
    apply bool_decide_eq_true in Hf. destruct Hf; congruence.
  - intros r [_ Hr]%list_elem_of_filter. done.
  - intros r Hr Hp. destruct (decide (jr_id r ∈ prunable test 1 t)) as [Hin|Hout].
    + apply pruned_has_younger in Hin as (Htest & c & Hc & Htc & [_ Hle] & Hkept); [|done|lia|done].
      exists c. split; [by apply list_elem_of_filter|]. unfold test in Htest, Htc.
      apply andb_true_iff in Htest as [[Hp1 Hk1]%of_pair_spec _]. apply andb_true_iff in Htc as [[Hp2 Hk2]%of_pair_spec _].
      apply of_pair_spec in Hp as [<- <-]. split; [apply of_pair_spec|]; split; congruence.
    + exists r. split; [by apply list_elem_of_filter|]. done.
Qed.

(** ** Instances *)
Definition daily : pyval := PDict [("enabled", PBool true); ("interval_seconds", PInt 86400)].
Definition hour : Z := 3600000000.
Definition daily_project : ProjectRow := MkProjectRow 1 lc_active daily PNone.

(** The configured prune action can take the row the cadence is counted from.  With [keep] 0
    a daily render that has just completed is deleted, and the next check, an hour later,
    queues another; with [keep] 1 the same happens when a manual render is newer. *)
Lemma keep_zero_renders_again :
  (let t := [MkRow 1 1 scheduled done 0] in
   due_pairs hour [daily_project] t = [] ∧
   due_pairs hour [daily_project] (prune_renders 0 daily_project scheduled t) = [(1, scheduled)]) ∧
  (let t := [MkRow 1 1 scheduled done 0; MkRow 2 1 manual done 1] in
   due_pairs hour [daily_project] t = [] ∧
   due_pairs hour [daily_project] (prune_renders 1 daily_project scheduled t) = [(1, scheduled)]).
Proof. vm_compute. done. Qed.

(** Texts and numbers that [float] takes, and some it does not. *)
Lemma interval_texts :
  let read v := interval_seconds (PDict [("enabled", PBool true); ("interval_seconds", v)]) in
  read (PStr " 1_0.5e1 ") = Some (F_finite 105) ∧ read (PStr "Infinity") = Some (F_inf false) ∧
  read (PStr "-3") = None ∧ read (PStr "nan") = None ∧ read (PStr "1__0") = None ∧ read (PStr "ten") = None ∧
  read (PInt 0) = None ∧ read (PBool true) = Some (F_finite 1).
Proof. vm_compute. done. Qed.

(** A day's cadence through a pass, the worker, a check too early and one in time. *)
Definition day_two : Table :=
  let t1 := enqueue_due_jobs 0 0 [daily_project] ([], 0) in
  let t2 := set_status 1 done t1.1 in
  let t3 := enqueue_due_jobs hour hour [daily_project] (t2, t1.2) in
  let t4 := enqueue_due_jobs (24 * hour) (24 * hour) [daily_project] t3 in
  MkTable t4.1 t4.2 [daily_project].

Lemma scheduled_never_pile_up_witness :
  tb_rows day_two = [MkRow 1 1 scheduled done 0; MkRow 2 1 scheduled pending (24 * hour)] ∧ no_pile (tb_rows day_two).
Proof.
  split; [vm_compute; reflexivity|]. apply scheduled_never_pile_up.
  eapply rtc_l; [apply (t_edit _ _ _ [daily_project]); repeat constructor; set_solver|].
  eapply rtc_l; [apply (t_pass _ _ _ 0 0)|]. eapply rtc_l; [apply (t_status _ _ _ 1 done)|].
  eapply rtc_l; [apply (t_pass _ _ _ hour hour)|]. eapply rtc_l; [apply (t_pass _ _ _ (24 * hour) (24 * hour))|].
  apply rtc_refl.
Defined.

Lemma due_jobs_exact_witness :
  ∃ added, (enqueue_due_jobs (24 * hour) (24 * hour) [daily_project] ([MkRow 1 1 scheduled done 0], 1)).1
           = [MkRow 1 1 scheduled done 0] ++ added ∧ ∃ r, r ∈ added ∧ jr_project r = 1 ∧ jr_kind r = scheduled.
Proof.
  destruct (due_jobs_exact (24 * hour) (24 * hour) [daily_project] [MkRow 1 1 scheduled done 0] 1) as (added & Heq & _ & _ & Hex);
    [repeat constructor; set_solver|].
  exists added. split; [exact Heq|]. apply Hex. exists daily_project, (F_finite 86400).
  split; [left|]. split; [reflexivity|]. split; [reflexivity|]. split; [left; split; reflexivity|].
  intros r ->%list_elem_of_singleton _. split; reflexivity.
Defined.

Lemma auto_prune_keeps_cadence_witness :
  let t := [MkRow 1 1 scheduled done 0; MkRow 2 1 manual done 1; MkRow 3 1 scheduled done 2] in
  auto_prune daily_project scheduled t = [MkRow 2 1 manual done 1; MkRow 3 1 scheduled done 2] ∧
  job_history [1] (auto_prune daily_project scheduled t) 1 scheduled = Some (MkHistory (Some 2) false).
Proof.
  intros t. split; [vm_compute; reflexivity|]. rewrite auto_prune_keeps_cadence; [vm_compute; reflexivity|].
  repeat constructor; cbn; lia.
Defined.
