(* ===== verification/FrameTable.v ===== *)
(** * The frame table and the lifecycle of its rows

    db/models/frame.py, the lifecycle half of storage/frames.py and the use-cases of
    services/frames.py on top of it.

    The table is the list of its rows in the order of their ids (AUTOINCREMENT: an id is
    never given out again).  A row object of a session is the row of the table with its id,
    so that a list of ids with a repetition changes one row twice.  A session carries what
    it has changed, the audit rows it has added, and the marks its commit hooks read
    ([session.info]).  Timestamps are microseconds of naive UTC; the calendar range check of
    [datetime] is not modelled.  The row of the sentinel administrator, the messages of the
    audit rows and the cached thumbnails of a deleted frame are left out. *)

From S2P Require Import Prelude PyTime.
From stdpp Require Import options.
Local Open Scope Z_scope.

Inductive frame_origin := og_captured | og_uploaded.
#[export] Instance frame_origin_eq_dec : EqDecision frame_origin.
Proof. solve_decision. Defined.
Inductive frame_state := fs_active | fs_soft_deleted.
#[export] Instance frame_state_eq_dec : EqDecision frame_state.
Proof. solve_decision. Defined.

Record FrameRow := MkFrameRow {
  fr_id : Z;
  fr_project : Z;
  fr_seq : Z;
  fr_ts : option Z;
  fr_path : option string;
  fr_width : option Z;
  fr_height : option Z;
  fr_size : option Z;
  fr_origin : frame_origin;
  fr_state : frame_state;
  fr_excluded_at : option Z;
  fr_inferred : bool;
}.
Notation frames := (list FrameRow).
#[export] Instance FrameRow_eq_dec : EqDecision FrameRow.
Proof. solve_decision. Defined.

Definition set_seq (v : Z) (r : FrameRow) : FrameRow :=
  MkFrameRow (fr_id r) (fr_project r) v (fr_ts r) (fr_path r) (fr_width r) (fr_height r) (fr_size r)
    (fr_origin r) (fr_state r) (fr_excluded_at r) (fr_inferred r).
Definition set_ts (v : option Z) (r : FrameRow) : FrameRow :=
  MkFrameRow (fr_id r) (fr_project r) (fr_seq r) v (fr_path r) (fr_width r) (fr_height r) (fr_size r)
    (fr_origin r) (fr_state r) (fr_excluded_at r) (fr_inferred r).
Definition set_state (v : frame_state) (r : FrameRow) : FrameRow :=
  MkFrameRow (fr_id r) (fr_project r) (fr_seq r) (fr_ts r) (fr_path r) (fr_width r) (fr_height r) (fr_size r)
    (fr_origin r) v (fr_excluded_at r) (fr_inferred r).
Definition set_excluded (v : option Z) (r : FrameRow) : FrameRow :=
  MkFrameRow (fr_id r) (fr_project r) (fr_seq r) (fr_ts r) (fr_path r) (fr_width r) (fr_height r) (fr_size r)
    (fr_origin r) (fr_state r) v (fr_inferred r).

(** [session.get(Frame, id)] and a change of that row. *)
Definition get_row (id : Z) (t : frames) : option FrameRow := snd <$> list_find (λ r, fr_id r = id) t.
Definition modify (id : Z) (f : FrameRow → FrameRow) (t : frames) : frames :=
  (λ r, if decide (fr_id r = id) then f r else r) <$> t.

(** ** A session *)
Record AuditRow := MkAudit {
  au_project : Z;
  au_warning : bool;
  au_frame : Z;
  au_action : string;
  au_previous : option Z;
  au_new : option Z;
  au_delta : option Z;
  au_actor : Z;
}.

Record FrameSession := MkSession {
  ss_frames : frames;
  ss_counts : gmap Z Z;
  ss_audit : list AuditRow;
  ss_dims_dirty : gset Z;
  ss_order_dirty : gmap Z (option (gset Z));
}.

Definition on_frames (f : frames → frames) (s : FrameSession) : FrameSession :=
  MkSession (f (ss_frames s)) (ss_counts s) (ss_audit s) (ss_dims_dirty s) (ss_order_dirty s).
Definition add_audit (l : list AuditRow) (s : FrameSession) : FrameSession :=
  MkSession (ss_frames s) (ss_counts s) (ss_audit s ++ l) (ss_dims_dirty s) (ss_order_dirty s).
Definition on_counts (f : gmap Z Z → gmap Z Z) (s : FrameSession) : FrameSession :=
  MkSession (ss_frames s) (f (ss_counts s)) (ss_audit s) (ss_dims_dirty s) (ss_order_dirty s).

(** [_mark_dimensions_dirty] *)
Definition mark_dimensions_dirty (project : Z) (s : FrameSession) : FrameSession :=
  MkSession (ss_frames s) (ss_counts s) (ss_audit s) ({[project]} ∪ ss_dims_dirty s) (ss_order_dirty s).

(** [_mark_order_dirty]; [None] stands for an unknown set of frames. *)
Definition mark_order_dirty (project : Z) (frame_id : option Z) (s : FrameSession) : FrameSession :=
  let dirty := ss_order_dirty s in
  let moved :=
    match frame_id with
    | None => None
    | Some id => match default (Some ∅) (dirty !! project) with Some ids => Some ({[id]} ∪ ids) | None => None end
    end in
  MkSession (ss_frames s) (ss_counts s) (ss_audit s) (ss_dims_dirty s) (<[project := moved]> dirty).

(** [_project_event] of an information-level action on one frame. *)
Definition frame_event (r : FrameRow) (action : string) (actor : Z) : AuditRow :=
  MkAudit (fr_project r) false (fr_id r) action None None None actor.

(** ** One frame *)
(** [_get_frame] *)
Definition get_frame (id : Z) (s : FrameSession) : result FrameRow :=
  match get_row id (ss_frames s) with Some r => Ok r | None => Raise FrameNotFoundError end.

(** [soft_delete] *)
Definition soft_delete (id actor : Z) (s : FrameSession) : result FrameSession :=
  r ← get_frame id s;
  Ok (add_audit [frame_event r "soft_delete" actor]
        (mark_dimensions_dirty (fr_project r) (on_frames (modify id (set_state fs_soft_deleted)) s))).

(** [restore] *)
Definition restore (id actor : Z) (s : FrameSession) : result FrameSession :=
  r ← get_frame id s;
  Ok (add_audit [frame_event r "restore" actor]
        (mark_dimensions_dirty (fr_project r) (on_frames (modify id (set_state fs_active)) s))).

(** [exclude] *)
Definition exclude (now id actor : Z) (s : FrameSession) : result FrameSession :=
  r ← get_frame id s;
  Ok (add_audit [frame_event r "exclude" actor] (on_frames (modify id (set_excluded (Some now))) s)).

(** [include] *)
Definition include (id actor : Z) (s : FrameSession) : result FrameSession :=
  r ← get_frame id s;
  Ok (add_audit [frame_event r "include" actor] (on_frames (modify id (set_excluded None)) s)).

(** [edit_capture_timestamp] *)
Definition edit_capture_timestamp (id new_timestamp actor : Z) (s : FrameSession) : result FrameSession :=
  r ← get_frame id s;
  Ok (add_audit [MkAudit (fr_project r) false id "edit_capture_timestamp" (fr_ts r) (Some new_timestamp) None actor]
        (mark_order_dirty (fr_project r) (Some id) (on_frames (modify id (set_ts (Some new_timestamp))) s))).

(** ** A selection of frames *)
Definition LOAD_CHUNK : nat := 500.

(** [list(dict.fromkeys(l))]: the distinct ids in the order of their first place. *)
Fixpoint distinct_from (seen : gset Z) (l : list Z) : list Z :=
  match l with
  | [] => []
  | x :: l => if decide (x ∈ seen) then distinct_from seen l else x :: distinct_from ({[x]} ∪ seen) l
  end.
Definition distinct (l : list Z) : list Z := distinct_from ∅ l.

(** [range(0, len(l), n)] slices *)
Fixpoint chunks_of {A} (fuel n : nat) (l : list A) : list (list A) :=
  match fuel, l with
  | S fuel, _ :: _ => take n l :: chunks_of fuel n (drop n l)
  | _, _ => []
  end.
Definition slices {A} (n : nat) (l : list A) : list (list A) := chunks_of (length l) n l.

(** [load_frames_by_id]: the ids found. *)
Definition load_frames_by_id (t : frames) (ids : list Z) : gset Z :=
  foldl (λ found chunk, foldl (λ found r, {[fr_id r]} ∪ found) found (filter (λ r, fr_id r ∈ chunk) t))
    ∅ (slices LOAD_CHUNK (distinct ids)).

(** [distinct_project_ids], before the sorting of its answer. *)
Fixpoint projects_until (limit : nat) (t : frames) (chunks : list (list Z)) (projects : gset Z) : gset Z :=
  match chunks with
  | [] => projects
  | chunk :: chunks =>
      let projects := projects ∪ list_to_set (fr_project <$> filter (λ r, fr_id r ∈ chunk) t) in
      if (limit <=? size projects)%nat then projects else projects_until limit t chunks projects
  end.
Definition distinct_project_ids (limit : nat) (t : frames) (ids : list Z) : gset Z :=
  projects_until limit t (slices LOAD_CHUNK (distinct ids)) ∅.

Record BulkResult := MkBulk { br_succeeded : list Z; br_failed : list Z }.

(** [_apply_many]: the loop keeps the result, the session and the audit rows to add. *)
Definition apply_one (found : gset Z) (mutate : FrameRow → FrameRow) (action : string) (changes_active_set : bool)
    (actor : Z) (acc : BulkResult * FrameSession * list AuditRow) (id : Z)
    : BulkResult * FrameSession * list AuditRow :=
  let '(res, s, events) := acc in
  match (if decide (id ∈ found) then get_row id (ss_frames s) else None) with
  | None => (MkBulk (br_succeeded res) (br_failed res ++ [id]), s, events)
  | Some r =>
      let s := on_frames (modify id mutate) s in
      let s := if changes_active_set then mark_dimensions_dirty (fr_project r) s else s in
      (MkBulk (br_succeeded res ++ [id]) (br_failed res), s, events ++ [frame_event r action actor])
  end.
Definition apply_many (ids : list Z) (actor : Z) (mutate : FrameRow → FrameRow) (action : string)
    (changes_active_set : bool) (s : FrameSession) : BulkResult * FrameSession :=
  let found := load_frames_by_id (ss_frames s) ids in
  let '(res, s, events) := foldl (apply_one found mutate action changes_active_set actor) (MkBulk [] [], s, []) ids in
  (res, add_audit events s).

Definition soft_delete_many (ids : list Z) (actor : Z) : FrameSession → BulkResult * FrameSession :=
  apply_many ids actor (set_state fs_soft_deleted) "soft_delete" true.
Definition restore_many (ids : list Z) (actor : Z) : FrameSession → BulkResult * FrameSession :=
  apply_many ids actor (set_state fs_active) "restore" true.
Definition exclude_many (now : Z) (ids : list Z) (actor : Z) : FrameSession → BulkResult * FrameSession :=
  apply_many ids actor (set_excluded (Some now)) "exclude" false.
Definition include_many (ids : list Z) (actor : Z) : FrameSession → BulkResult * FrameSession :=
  apply_many ids actor (set_excluded None) "include" false.

Record OffsetResult := MkOffset { of_shifted : list Z; of_skipped_null : list Z; of_failed : list Z }.

(** [offset_timestamps_many] *)
Definition offset_one (found : gset Z) (seconds actor : Z) (acc : OffsetResult * FrameSession * list AuditRow) (id : Z)
    : OffsetResult * FrameSession * list AuditRow :=
  let '(res, s, events) := acc in
  match (if decide (id ∈ found) then get_row id (ss_frames s) else None) with
  | None => (MkOffset (of_shifted res) (of_skipped_null res) (of_failed res ++ [id]), s, events)
  | Some r =>
      match fr_ts r with
      | None => (MkOffset (of_shifted res) (of_skipped_null res ++ [id]) (of_failed res), s, events)
      | Some previous =>
          let new := previous + seconds * SECOND in
          (MkOffset (of_shifted res ++ [id]) (of_skipped_null res) (of_failed res),
           mark_order_dirty (fr_project r) (Some id) (on_frames (modify id (set_ts (Some new))) s),
           events ++ [MkAudit (fr_project r) false id "edit_capture_timestamp" (Some previous) (Some new) (Some seconds) actor])
      end
  end.
Definition offset_timestamps_many (ids : list Z) (seconds actor : Z) (s : FrameSession) : OffsetResult * FrameSession :=
  let found := load_frames_by_id (ss_frames s) ids in
  let '(res, s, events) := foldl (offset_one found seconds actor) (MkOffset [] [] [], s, []) ids in
  (res, add_audit events s).

(** ** Deletion *)
Section deletion.
(** [resolve_contained_frame_path], [None] for its [PathContainmentError]; the files are
    on the disk of the machine. *)
Context (contained : Z → string → option string).

(** [permanent_delete], up to the flush, and then the file.  A project without a row keeps
    its file. *)
Definition delete_row (id actor : Z) (r : FrameRow) (s : FrameSession) : FrameSession :=
  let s := on_counts (λ c, match c !! fr_project r with
                           | Some n => if 0 <? n then <[fr_project r := n - 1]> c else c
                           | None => c
                           end) s in
  let s := on_frames (filter (λ r, fr_id r ≠ id)) s in
  add_audit [MkAudit (fr_project r) true id "permanent_delete" None None None actor]
    (mark_dimensions_dirty (fr_project r) s).
Definition unlink_path (r : FrameRow) (s : FrameSession) : option string :=
  match fr_path r, ss_counts s !! fr_project r with
  | Some stored, Some _ => contained (fr_project r) stored
  | _, _ => None
  end.
Definition permanent_delete (id actor : Z) (confirm : bool) (st : FrameSession * gset string)
    : result (FrameSession * gset string) :=
  let '(s, files) := st in
  if negb confirm then Raise ConfirmationRequiredError
  else
    r ← get_frame id s;
    let files := match unlink_path r s with Some path => files ∖ {[path]} | None => files end in
    Ok (delete_row id actor r s, files).

(** ** The use-cases (services/frames.py) *)
(** [_get_frame_in_project] *)
Definition get_frame_in_project (project id : Z) (s : FrameSession) : result FrameRow :=
  match get_row id (ss_frames s) with
  | Some r => if fr_project r =? project then Ok r else Raise NotFoundError
  | None => Raise NotFoundError
  end.
Definition soft_delete_frame (actor project id : Z) (s : FrameSession) : result FrameSession :=
  _ ← get_frame_in_project project id s; soft_delete id actor s.
Definition restore_frame (actor project id : Z) (s : FrameSession) : result FrameSession :=
  _ ← get_frame_in_project project id s; restore id actor s.
Definition exclude_frame (now actor project id : Z) (s : FrameSession) : result FrameSession :=
  _ ← get_frame_in_project project id s; exclude now id actor s.
Definition include_frame (actor project id : Z) (s : FrameSession) : result FrameSession :=
  _ ← get_frame_in_project project id s; include id actor s.
Definition edit_frame_timestamp (actor project id new_timestamp : Z) (s : FrameSession) : result FrameSession :=
  _ ← get_frame_in_project project id s; edit_capture_timestamp id new_timestamp actor s.
Definition permanent_delete_frame (actor project id : Z) (confirm : bool) (st : FrameSession * gset string)
    : result (FrameSession * gset string) :=
  if negb confirm then Raise ValidationError
  else _ ← get_frame_in_project project id st.1; permanent_delete id actor confirm st.
End deletion.
