(* ===== verification/FrameOrder.v ===== *)
(** * The browse order of a project's frames (storage/frames.py)

    The browser pages through a project by [sequence_index] and takes it for time order.
    An import, an upload or an edited timestamp can break that; the functions here find the
    first place where it is broken and renumber from there, in one transaction or in chunks
    that let captures through between them.

    The table enforces UNIQUE (project_id, sequence_index) row by row: a write to a taken
    index raises [IntegrityError].  The order in which SQLite visits the rows of one UPDATE is
    a parameter ([visit], any permutation).  The pauses between chunks and the two locks are
    in the step relation of [FrameOrderRuns]: within a transaction nothing interleaves. *)

From S2P Require Import Prelude PyTime FrameTable.
From stdpp Require Import sorting options.
Local Open Scope Z_scope.

Definition of_project (p : Z) (t : frames) : frames := filter (λ r, fr_project r = p) t.

(** [ORDER BY sequence_index] and [ORDER BY capture_timestamp IS NULL, capture_timestamp, id] *)
Definition seq_le (r r' : FrameRow) : Prop := fr_seq r ≤ fr_seq r'.
#[export] Instance seq_le_dec r r' : Decision (seq_le r r').
Proof. unfold seq_le. apply _. Defined.
Definition key_le (r r' : FrameRow) : Prop :=
  match fr_ts r, fr_ts r' with
  | Some a, Some b => a < b ∨ (a = b ∧ fr_id r ≤ fr_id r')
  | Some _, None => True
  | None, Some _ => False
  | None, None => fr_id r ≤ fr_id r'
  end.
#[export] Instance key_le_dec r r' : Decision (key_le r r').
Proof. unfold key_le. destruct (fr_ts r), (fr_ts r'); apply _. Defined.

(** [func.max(sequence_index)] over the rows that pass. *)
Definition max_seq (l : frames) : option Z := foldl keep_max None (fr_seq <$> l).

(** The index a capture or an upload gets (capture/frame_writer.py: [_next_sequence_index]). *)
Definition next_index (p : Z) (t : frames) : Z := default 0 (max_seq (of_project p t)) + 1.

(** ** Writing indexes *)
(** [UPDATE frame SET sequence_index = v WHERE id = id] *)
Definition set_index (id v : Z) (t : frames) : result frames :=
  match get_row id t with
  | None => Ok t
  | Some r =>
      if bool_decide (Exists (λ r', fr_project r' = fr_project r ∧ fr_seq r' = v ∧ fr_id r' ≠ id) t)
      then Raise IntegrityError
      else Ok (modify id (set_seq v) t)
  end.

(** [_set_sequence_indexes] *)
Fixpoint set_sequence_indexes (assignments : list (Z * Z)) (t : frames) : result frames :=
  match assignments with
  | [] => Ok t
  | (id, v) :: rest => t' ← set_index id v t; set_sequence_indexes rest t'
  end.

(** [_park_rows] *)
Definition park_rows (rows : list (Z * Z)) (offset : Z) (t : frames) : result frames :=
  set_sequence_indexes ((λ row, (row.1, row.2 + offset)) <$> rows) t.

(** [enumerate(ids, start)] *)
Definition number_from (start : Z) (ids : list Z) : list (Z * Z) :=
  imap (λ i id, (id, start + Z.of_nat i)) ids.

(** ** The suffix *)
(** [_suffix_predicate] *)
Definition in_suffix (p : Z) (from_ts : option Z) (r : FrameRow) : Prop :=
  fr_project r = p ∧
  match from_ts, fr_ts r with
  | Some bound, Some ts => bound ≤ ts
  | _, _ => True
  end.
#[export] Instance in_suffix_dec p from_ts r : Decision (in_suffix p from_ts r).
Proof. unfold in_suffix. destruct from_ts, (fr_ts r); apply _. Defined.
Definition before (p bound : Z) (r : FrameRow) : Prop :=
  fr_project r = p ∧ match fr_ts r with Some ts => ts < bound | None => False end.
#[export] Instance before_dec p bound r : Decision (before p bound r).
Proof. unfold before. destruct (fr_ts r); apply _. Defined.
Definition suffix_start (p : Z) (from_ts : option Z) (t : frames) : Z :=
  match from_ts with
  | None => 1
  | Some bound => default 0 (max_seq (filter (before p bound) t)) + 1
  end.

(** The suffix in its target order. *)
Definition suffix_rows (p : Z) (from_ts : option Z) (t : frames) : frames :=
  merge_sort key_le (filter (in_suffix p from_ts) t).

Section renumber.
(** The order in which an UPDATE visits its rows. *)
Context (visit : frames → frames).

(** [resequence_project_from] *)
Definition resequence_project_from (p : Z) (from_ts : option Z) (t : frames) : result (frames * Z) :=
  let start := suffix_start p from_ts t in
  let ids := fr_id <$> suffix_rows p from_ts t in
  match ids with
  | [] => Ok (t, 0)
  | _ =>
      let current_max := default 0 (max_seq (of_project p t)) in
      let offset := current_max + Z.of_nat (length ids) + 1 in
      t1 ← park_rows ((λ r, (fr_id r, fr_seq r)) <$> visit (filter (in_suffix p from_ts) t)) offset t;
      t2 ← set_sequence_indexes (number_from start ids) t1;
      Ok (t2, Z.of_nat (length ids))
  end.

(** [resequence_project] *)
Definition resequence_project (p : Z) (t : frames) : result (frames * Z) := resequence_project_from p None t.

(** ** Finding the disorder *)
(** The WHERE of the walk over the pairs a LAG window forms. *)
Definition flagged (prev cur : FrameRow) : bool :=
  match fr_ts cur, fr_ts prev with
  | None, _ => false
  | Some _, None => true
  | Some ts, Some prev_ts => (ts <? prev_ts) || ((ts =? prev_ts) && (fr_id cur <? fr_id prev))
  end.
Definition by_index (p : Z) (t : frames) : frames := merge_sort seq_le (of_project p t).
Definition flagged_times (walk : frames) : list Z :=
  omap (λ pc : FrameRow * FrameRow, if flagged pc.1 pc.2 then fr_ts pc.2 else None) (zip walk (drop 1 walk)).

(** [earliest_out_of_order_timestamp] *)
Definition earliest_out_of_order_timestamp (p : Z) (t : frames) : option Z :=
  foldl keep_min None (flagged_times (by_index p t)).

(** [_renumber_bound] *)
Definition renumber_bound (p : Z) (imported_ids : list Z) (t : frames) : option Z :=
  let imported_min := foldl keep_min None (omap fr_ts (filter (λ r, fr_id r ∈ imported_ids) t)) in
  let disorder := earliest_out_of_order_timestamp p t in
  match imported_min, disorder with
  | Some a, Some b => Some (Z.min a b)
  | Some a, None => Some a
  | None, d => d
  end.

(** [_resequence_after_import] *)
Definition resequence_after_import (p : Z) (imported_ids : list Z) (t : frames) : result (frames * Z) :=
  match renumber_bound p imported_ids t with
  | None => Ok (t, 0)
  | Some bound => resequence_project_from p (Some bound) t
  end.

(** ** In chunks *)
Definition RENUMBER_CHUNK_ROWS : Z := 5000.

(** What a chunked run keeps from its first transaction. *)
Record Renumber := MkRenumber {
  rn_project : Z;
  rn_chunk : nat;
  rn_start : Z;
  rn_offset : Z;
  rn_order : list Z;
}.
Inductive run_pc :=
  | R_parking (todo : list (Z * Z))
  | R_assigning (assigned : nat)
  | R_compacting (next_index : Z)
  | R_done.

Definition after_parking (todo : list (Z * Z)) : run_pc :=
  match todo with [] => R_assigning 0 | _ => R_parking todo end.

(** The first transaction of [resequence_project_chunked]: all there is to do, or the plan
    and the first chunk parked. *)
Definition begin_renumber (p : Z) (imported_ids : list Z) (chunk_rows : option Z) (t : frames)
    : result (frames * (Z + Renumber * run_pc)) :=
  let chunk := Z.max 1 (default RENUMBER_CHUNK_ROWS chunk_rows) in
  match renumber_bound p imported_ids t with
  | None => Ok (t, inl 0)
  | Some bound =>
      let size := Z.of_nat (length (filter (in_suffix p (Some bound)) t)) in
      if size <=? chunk then
        r ← resequence_project_from p (Some bound) t; Ok (r.1, inl r.2)
      else
        let rows := suffix_rows p (Some bound) t in
        let current_max := default 0 (max_seq (of_project p t)) in
        let offset := current_max + Z.of_nat (length rows) + 1 in
        let parking := (λ r, (fr_id r, fr_seq r)) <$> reverse (merge_sort seq_le rows) in
        let n := Z.to_nat chunk in
        t1 ← park_rows (take n parking) offset t;
        Ok (t1, inr (MkRenumber p n (suffix_start p (Some bound) t) offset (fr_id <$> rows),
                     after_parking (drop n parking)))
  end.

(** The rows of a tail that are not at their place yet. *)
Definition moves_down (next_index : Z) (tail : frames) : list (Z * Z) :=
  omap (λ x, x)
    (imap (λ i r, let target := next_index + Z.of_nat i in
                  if target =? fr_seq r then None else Some (fr_id r, target)) tail).

(** One turn of the loop of [_compact_tail]. *)
Definition compact_tail (p next_index : Z) (t : frames) : result (frames * run_pc) :=
  let tail := take (Z.to_nat RENUMBER_CHUNK_ROWS)
                (merge_sort seq_le (filter (λ r, fr_project r = p ∧ next_index ≤ fr_seq r) t)) in
  t' ← set_sequence_indexes (moves_down next_index tail) t;
  Ok (t', if Z.of_nat (length tail) <? RENUMBER_CHUNK_ROWS then R_done
          else R_compacting (next_index + Z.of_nat (length tail))).

(** One later transaction of the run. *)
Definition renumber_step (rn : Renumber) (pc : run_pc) (t : frames) : result (frames * run_pc) :=
  match pc with
  | R_parking todo =>
      t' ← park_rows (take (rn_chunk rn) todo) (rn_offset rn) t;
      Ok (t', after_parking (drop (rn_chunk rn) todo))
  | R_assigning n =>
      let ids := take (rn_chunk rn) (drop n (rn_order rn)) in
      t' ← set_sequence_indexes (number_from (rn_start rn + Z.of_nat n) ids) t;
      let n' := (n + rn_chunk rn)%nat in
      Ok (t', if (n' <? length (rn_order rn))%nat then R_assigning n'
              else R_compacting (rn_start rn + Z.of_nat (length (rn_order rn))))
  | R_compacting next_index => compact_tail (rn_project rn) next_index t
  | R_done => Ok (t, R_done)
  end.

(** The transactions one after the other, as many as [fuel]. *)
Fixpoint finish_renumber (fuel : nat) (rn : Renumber) (pc : run_pc) (t : frames) : option (result (frames * Z)) :=
  match pc, fuel with
  | R_done, _ => Some (Ok (t, Z.of_nat (length (rn_order rn))))
  | _, O => None
  | _, S fuel =>
      match renumber_step rn pc t with
      | Ok (t', pc') => finish_renumber fuel rn pc' t'
      | Raise e => Some (Raise e)
      end
  end.

(** [resequence_project_chunked] with nothing in between; [None] for too little fuel. *)
Definition resequence_project_chunked (p : Z) (imported_ids : list Z) (chunk_rows : option Z) (t : frames)
    : option (result (frames * Z)) :=
  match begin_renumber p imported_ids chunk_rows t with
  | Raise e => Some (Raise e)
  | Ok (t', inl n) => Some (Ok (t', n))
  | Ok (t', inr (rn, pc)) => finish_renumber (3 * length t + 3) rn pc t'
  end.

(** ** After a change of one timestamp *)
(** [_breaks_order] *)
Definition breaks_order (prev cur : FrameRow) : bool :=
  match fr_ts cur with
  | None => false
  | Some c =>
      match fr_ts prev with
      | None => true
      | Some q => (c <? q) || ((c =? q) && (fr_id cur <? fr_id prev))
      end
  end.

(** [_neighbours_out_of_order] *)
Definition row_before (p : Z) (row : FrameRow) (t : frames) : option FrameRow :=
  last (merge_sort seq_le (filter (λ r, fr_project r = p ∧ fr_seq r < fr_seq row) t)).
Definition row_after (p : Z) (row : FrameRow) (t : frames) : option FrameRow :=
  head (merge_sort seq_le (filter (λ r, fr_project r = p ∧ fr_seq row < fr_seq r) t)).
Definition out_of_place (p : Z) (row : FrameRow) (t : frames) : bool :=
  match row_before p row t with Some b => breaks_order b row | None => false end ||
  match row_after p row t with Some a => breaks_order row a | None => false end.
Fixpoint neighbours_out_of_order (p : Z) (t : frames) (frame_ids : list Z) : bool :=
  match frame_ids with
  | [] => false
  | id :: rest =>
      match get_row id (of_project p t) with
      | None => true
      | Some row => if out_of_place p row t then true else neighbours_out_of_order p t rest
      end
  end.

Definition TARGETED_CHECK_MAX_FRAMES : nat := 64.

(** [restore_project_order] *)
Definition restore_project_order (p : Z) (frame_ids : option (list Z)) (t : frames) : option (result (frames * Z)) :=
  let quiet :=
    match frame_ids with
    | Some ids => (length ids <=? TARGETED_CHECK_MAX_FRAMES)%nat && negb (neighbours_out_of_order p t ids)
    | None => false
    end in
  if quiet then Some (Ok (t, 0))
  else match earliest_out_of_order_timestamp p t with
       | None => Some (Ok (t, 0))
       | Some _ => resequence_project_chunked p [] None t
       end.

(** [_restore_order_after_commit] over the marks of the session; a failure is contained. *)
Definition restore_order_after_commit (dirty : gmap Z (option (gset Z))) (t : frames) : frames :=
  foldl (λ t p,
           match restore_project_order p (elements <$> default None (dirty !! p)) t with
           | Some (Ok (t', _)) => t'
           | _ => t
           end) t (merge_sort Z.le (map_to_list dirty).*1).

(** [_record_import_and_resequence]: [true] when the suffix is left to a chunked run; the
    end of [import_frames] then makes one. *)
Definition record_import_and_resequence (p : Z) (imported_ids : list Z) (t : frames) : result (frames * bool) :=
  match renumber_bound p imported_ids t with
  | None => Ok (t, false)
  | Some bound =>
      if RENUMBER_CHUNK_ROWS <? Z.of_nat (length (filter (in_suffix p (Some bound)) t)) then Ok (t, true)
      else r ← resequence_project_from p (Some bound) t; Ok (r.1, false)
  end.
Definition order_after_import (p : Z) (imported_ids : list Z) (t : frames) : option (result frames) :=
  match record_import_and_resequence p imported_ids t with
  | Raise e => Some (Raise e)
  | Ok (t', false) => Some (Ok t')
  | Ok (t', true) =>
      match resequence_project_chunked p imported_ids None t' with
      | Some (Ok (t'', _)) => Some (Ok t'')
      | Some (Raise e) => Some (Raise e)
      | None => None
      end
  end.
End renumber.
