(* ===== verification/FrameOrderFacts.v ===== *)
(** * Facts about the renumbering of frames *)

From S2P Require Import Prelude PyTime FrameTable FrameOrder.
From stdpp Require Import sorting options.
Local Open Scope Z_scope.

(** ** Tables

    Ids are unique, indexes are unique within a project and start at 1. *)
Record table_wf (t : frames) : Prop := {
  wf_ids : NoDup (fr_id <$> t);
  wf_unique : ∀ r r', r ∈ t → r' ∈ t → fr_project r = fr_project r' → fr_seq r = fr_seq r' → r = r';
  wf_pos : ∀ r, r ∈ t → 1 ≤ fr_seq r;
}.

Lemma NoDup_ids_eq t r r' : NoDup (fr_id <$> t) → r ∈ t → r' ∈ t → fr_id r = fr_id r' → r = r'.
Proof. apply NoDup_fmap_eq. Qed.

Lemma get_row_spec t id r : NoDup (fr_id <$> t) → get_row id t = Some r ↔ r ∈ t ∧ fr_id r = id.
Proof.
  intros Hn. unfold get_row. split.
  - intros Hg. apply fmap_Some in Hg as ([i x] & (Hx & Hid & _)%list_find_Some & ->). split; [by eapply list_elem_of_lookup_2|done].
  - intros [Hr Hid]. destruct (list_find_elem_of (λ r, fr_id r = id) t r Hr Hid) as [[i x] Hf]. rewrite Hf. cbn.
    apply list_find_Some in Hf as (Hx & Hxid & _). f_equal. apply (NoDup_ids_eq t); [done|by eapply list_elem_of_lookup_2|done|congruence].
Qed.

Lemma get_row_None t id : get_row id t = None ↔ ∀ r, r ∈ t → fr_id r ≠ id.
Proof.
  unfold get_row. rewrite fmap_None, list_find_None, Forall_forall. done.
Qed.

(** ** Indexes given by id *)
Definition reindex (g : gmap Z Z) (t : frames) : frames :=
  (λ r, match g !! fr_id r with Some v => set_seq v r | None => r end) <$> t.

Lemma reindex_ids g t : fr_id <$> reindex g t = fr_id <$> t.
Proof. unfold reindex. rewrite <-list_fmap_compose. apply list_fmap_ext. intros i r _. cbn. by destruct (g !! fr_id r). Qed.

Lemma elem_of_reindex g t r' :
  r' ∈ reindex g t ↔ ∃ r, r ∈ t ∧ r' = match g !! fr_id r with Some v => set_seq v r | None => r end.
Proof. unfold reindex. rewrite list_elem_of_fmap. naive_solver. Qed.

Lemma modify_reindex id v t : modify id (set_seq v) t = reindex {[id := v]} t.
Proof.
  unfold modify, reindex. apply list_fmap_ext. intros i r _. destruct (decide (fr_id r = id)) as [->|Hne].
  - by rewrite lookup_singleton_eq.
  - by rewrite lookup_singleton_ne.
Qed.

Lemma reindex_reindex g h t : reindex g (reindex h t) = reindex (g ∪ h) t.
Proof.
  unfold reindex. rewrite <-list_fmap_compose. apply list_fmap_ext. intros i r _. cbn.
  destruct (h !! fr_id r) as [v|] eqn:Hh; cbn.
  - destruct (g !! fr_id r) as [w|] eqn:Hg; [by rewrite (lookup_union_Some_l g h _ w)|].
    by rewrite lookup_union_r, Hh.
  - destruct (g !! fr_id r) as [w|] eqn:Hg; [by rewrite (lookup_union_Some_l g h _ w)|].
    by rewrite lookup_union_r, Hh.
Qed.

Lemma reindex_ext g h t : (∀ r, r ∈ t → g !! fr_id r = h !! fr_id r) → reindex g t = reindex h t.
Proof.
  intros Heq. unfold reindex. apply list_fmap_ext. intros i r Hr. rewrite Heq; [done|]. by eapply list_elem_of_lookup_2.
Qed.

Lemma reindex_empty t : reindex ∅ t = t.
Proof. unfold reindex. rewrite <-(list_fmap_id t) at 2. apply list_fmap_ext. intros i r _. by rewrite lookup_empty. Qed.

(** A batch of writes to indexes that are all free succeeds. *)
Lemma set_indexes_free p assigns t :
  NoDup (fr_id <$> t) → NoDup assigns.*1 → NoDup assigns.*2 →
  (∀ a r, a ∈ assigns → r ∈ t → fr_id r = a.1 → fr_project r = p) →
  (∀ a x r, a ∈ assigns → x ∈ t → fr_id x = a.1 → r ∈ t → fr_project r = p → fr_seq r = a.2 → fr_id r = a.1) →
  set_sequence_indexes assigns t = Ok (reindex (list_to_map assigns) t).
Proof.
  revert t. induction assigns as [|[id v] rest IH]; intros t Hids Hn1 Hn2 Hp Hfree.
  { cbn. by rewrite reindex_empty. }
  cbn in Hn1, Hn2. apply NoDup_cons in Hn1 as [Hid Hn1]. apply NoDup_cons in Hn2 as [Hv Hn2].
  assert (set_index id v t = Ok (reindex {[id := v]} t)) as Hone.
  { unfold set_index. destruct (get_row id t) as [r|] eqn:Hr.
    - apply get_row_spec in Hr as [Hr Hri]; [|done]. rewrite bool_decide_eq_false_2; [by rewrite modify_reindex|].
      intros (r' & Hr' & Hpr & Hs & Hne)%Exists_exists. apply Hne.
      apply (Hfree (id, v) r); [by left|done|done|done| |done]. rewrite Hpr. by apply (Hp (id, v)); [left| |].
    - f_equal. rewrite <-(reindex_empty t) at 1. apply reindex_ext. intros r Hri. rewrite lookup_empty, lookup_singleton_ne; [done|].
      intros Heq. by apply (proj1 (get_row_None t id) Hr r). }
  cbn. rewrite Hone. cbn. rewrite IH; [| | |done| |].
  - f_equal. rewrite reindex_reindex. apply reindex_ext. intros r _.
    destruct (decide (id = fr_id r)) as [->|Hne].
    + rewrite lookup_insert_eq. rewrite lookup_union_r; [by rewrite lookup_singleton_eq|].
      by apply not_elem_of_list_to_map_1.
    + rewrite lookup_insert_ne by done. destruct (list_to_map rest !! fr_id r) as [w|] eqn:Hw.
      * by apply lookup_union_Some_l.
      * by rewrite lookup_union_r, lookup_singleton_ne.
  - by rewrite reindex_ids.
  - done.
  - intros a r' Ha (r & Hr & ->)%elem_of_reindex Hid'. transitivity (fr_project r); [by destruct ({[id:=v]} !! fr_id r)|].
    apply (Hp a); [by right|done|]. by destruct ({[id:=v]} !! fr_id r).
  - intros a x' r' Ha (x & Hx & ->)%elem_of_reindex Hxa (r & Hr & ->)%elem_of_reindex.
    assert (fr_id x = a.1) as Hxi by (by destruct ({[id:=v]} !! fr_id x)).
    destruct (decide (fr_id r = id)) as [Heq|Hne].
    + rewrite Heq, lookup_singleton_eq. cbn. intros _ Hs. destruct Hv. rewrite Hs. by apply list_elem_of_fmap_2.
    + rewrite lookup_singleton_ne by done. intros Hpr Hs. apply (Hfree a x); [by right|done..].
Qed.

Lemma set_indexes_app a b t :
  set_sequence_indexes (a ++ b) t = (t' ← set_sequence_indexes a t; set_sequence_indexes b t').
Proof.
  revert t. induction a as [|[id v] a IH]; intros t; [done|]. cbn. destruct (set_index id v t); [|done]. cbn. apply IH.
Qed.

(** ** Order *)
Lemma flagged_breaks prev cur : flagged prev cur = breaks_order prev cur.
Proof. unfold flagged, breaks_order. by destruct (fr_ts cur), (fr_ts prev). Qed.

Lemma breaks_spec a b :
  breaks_order a b = true ↔
  ∃ tb, fr_ts b = Some tb ∧ match fr_ts a with None => True | Some ta => tb < ta ∨ (tb = ta ∧ fr_id b < fr_id a) end.
Proof.
  unfold breaks_order. destruct (fr_ts b) as [tb|], (fr_ts a) as [ta|];
    rewrite ?orb_true_iff, ?andb_true_iff, ?Z.ltb_lt, ?Z.eqb_eq; naive_solver.
Qed.

(** Breaking order is the converse of a strict weak order. *)
Lemma breaks_split a x b : breaks_order a b = true → breaks_order a x = true ∨ breaks_order x b = true.
Proof.
  rewrite !breaks_spec. intros (tb & Hb & Ha). destruct (fr_ts x) as [tx|] eqn:Hx; [|right; by exists tb].
  destruct (decide (tb < tx ∨ (tb = tx ∧ fr_id b < fr_id x))) as [?|Hn]; [right; eauto|]. left. exists tx. split; [done|].
  destruct (fr_ts a); [lia|done].
Qed.

Lemma key_le_not_breaks a b : key_le a b → breaks_order a b = false.
Proof.
  intros Hk. apply not_true_iff_false. rewrite breaks_spec. intros (tb & Hb & Ha). unfold key_le in Hk. rewrite Hb in Hk.
  destruct (fr_ts a); [lia|done].
Qed.

#[export] Instance key_le_total : Total key_le.
Proof. intros a b. unfold key_le. destruct (fr_ts a), (fr_ts b); [|by left|by right|]; lia. Qed.
#[export] Instance key_le_trans : Transitive key_le.
Proof. intros a b c. unfold key_le. destruct (fr_ts a), (fr_ts b), (fr_ts c); try done; lia. Qed.
#[export] Instance seq_le_total : Total seq_le.
Proof. intros a b. unfold seq_le. lia. Qed.
#[export] Instance seq_le_trans : Transitive seq_le.
Proof. intros a b c. unfold seq_le. lia. Qed.

(** The browse order of a project is time order: no row comes before one it should follow. *)
Definition inverted (p : Z) (t : frames) (r r' : FrameRow) : Prop :=
  r ∈ of_project p t ∧ r' ∈ of_project p t ∧ fr_seq r < fr_seq r' ∧ breaks_order r r' = true.
Definition ordered (p : Z) (t : frames) : Prop := ∀ r r', ¬ inverted p t r r'.

Lemma elem_of_project p t r : r ∈ of_project p t ↔ r ∈ t ∧ fr_project r = p.
Proof. unfold of_project. rewrite list_elem_of_filter. tauto. Qed.

Lemma elem_of_by_index p t r : r ∈ by_index p t ↔ r ∈ t ∧ fr_project r = p.
Proof. unfold by_index. rewrite merge_sort_Permutation. apply elem_of_project. Qed.

Lemma by_index_sorted p t : StronglySorted seq_le (by_index p t).
Proof. apply StronglySorted_merge_sort; apply _. Qed.

Lemma elem_of_adjacent {A} (l : list A) a b :
  (a, b) ∈ zip l (drop 1 l) ↔ ∃ l1 l2, l = l1 ++ a :: b :: l2.
Proof.
  induction l as [|x l IH]; [split; [by intros ?%elem_of_nil|by intros ([] & ? & ?)]|].
  destruct l as [|y l]; cbn.
  { split; [by intros ?%elem_of_nil|by intros ([|? []] & ? & ?)]. }
  rewrite elem_of_cons. cbn in IH. rewrite IH. split.
  - intros [[= -> ->]|(l1 & l2 & ->)]; [by exists [], l|by exists (x :: l1), l2].
  - intros (l1 & l2 & Heq). destruct l1 as [|z l1]; cbn in Heq; [left; congruence|right].
    injection Heq as -> Heq. by exists l1, l2.
Qed.

(** Between the two rows of an inverted pair some row sorts before its predecessor, and it is
    no later than the second of the pair. *)
Lemma adjacent_disorder l2 a b :
  breaks_order a b = true →
  ∃ pre x y post tx tb, a :: l2 ++ [b] = pre ++ x :: y :: post ∧ breaks_order x y = true ∧
    fr_ts y = Some tx ∧ fr_ts b = Some tb ∧ tx ≤ tb.
Proof.
  revert a. induction l2 as [|x l2 IH]; intros a Hab.
  - destruct (proj1 (breaks_spec a b) Hab) as (tb & Hb & _). exists [], a, b, [], tb, tb. done.
  - assert (breaks_order x b = true → ∃ pre x0 y post tx tb, a :: (x :: l2) ++ [b] = pre ++ x0 :: y :: post ∧
      breaks_order x0 y = true ∧ fr_ts y = Some tx ∧ fr_ts b = Some tb ∧ tx ≤ tb) as Hgo.
    { intros (pre & x0 & y & post & tx & tb & Heq & Hrest)%IH. exists (a :: pre), x0, y, post, tx, tb.
      split; [|done]. cbn in *. by rewrite Heq. }
    destruct (breaks_split a x b Hab) as [Hax|Hxb]; [|by apply Hgo].
    destruct (proj1 (breaks_spec _ _) Hax) as (tx & Hx & _). destruct (proj1 (breaks_spec _ _) Hab) as (tb & Hb & _).
    destruct (decide (tx ≤ tb)) as [Hle|Hgt].
    + by exists [], a, x, (l2 ++ [b]), tx, tb.
    + apply Hgo, breaks_spec. exists tb. split; [done|]. rewrite Hx. lia.
Qed.

Lemma elem_of_flagged_times walk b :
  b ∈ flagged_times walk ↔ ∃ l1 x y l2, walk = l1 ++ x :: y :: l2 ∧ breaks_order x y = true ∧ fr_ts y = Some b.
Proof.
  unfold flagged_times. rewrite list_elem_of_omap. split.
  - intros ([x y] & (l1 & l2 & ->)%elem_of_adjacent & Hf). cbn in Hf. rewrite flagged_breaks in Hf.
    destruct (breaks_order x y) eqn:Hb; [|done]. by exists l1, x, y, l2.
  - intros (l1 & x & y & l2 & -> & Hb & Hy). exists (x, y). split; [apply elem_of_adjacent; by exists l1, l2|]. cbn.
    by rewrite flagged_breaks, Hb.
Qed.

(** An inverted pair of a sorted walk is flagged no later than its second row. *)
Lemma inverted_flagged p t r r' :
  inverted p t r r' → ∃ b tb, b ∈ flagged_times (by_index p t) ∧ fr_ts r' = Some tb ∧ b ≤ tb.
Proof.
  intros ([Hr Hp]%elem_of_project & [Hr' Hp']%elem_of_project & Hlt & Hb).
  assert (r ∈ by_index p t) as Hin by (by apply elem_of_by_index).
  assert (r' ∈ by_index p t) as Hin' by (by apply elem_of_by_index).
  pose proof (by_index_sorted p t) as Hs. apply list_elem_of_split in Hin as (l1 & l2 & Heq). rewrite Heq in Hin', Hs.
  assert (r' ∈ l2) as Hl2.
  { apply elem_of_app in Hin' as [Hl1|[->|?]%elem_of_cons]; [|lia|done].
    assert (seq_le r' r) as Hle by (eapply StronglySorted_app_1_elem_of; [exact Hs|done|by left]). unfold seq_le in Hle. lia. }
  apply list_elem_of_split in Hl2 as (m & l3 & ->).
  destruct (adjacent_disorder m r r' Hb) as (pre & x & y & post & tx & tb & Hm & Hxy & Hy & Hr'ts & Hle).
  exists tx, tb. split; [|done]. apply elem_of_flagged_times. exists (l1 ++ pre), x, y, (post ++ l3). split; [|done].
  rewrite Heq. rewrite <-app_assoc. f_equal. replace (r :: m ++ r' :: l3) with ((r :: m ++ [r']) ++ l3) by (cbn; by rewrite <-app_assoc).
  by rewrite Hm, <-app_assoc.
Qed.

Lemma flagged_inverted p t b :
  table_wf t → b ∈ flagged_times (by_index p t) → ∃ r r', inverted p t r r' ∧ fr_ts r' = Some b.
Proof.
  intros Hwf (l1 & x & y & l2 & Heq & Hb & Hy)%elem_of_flagged_times. exists x, y. split; [|done].
  pose proof (by_index_sorted p t) as Hs. assert (x ∈ by_index p t) as Hx by (rewrite Heq; apply elem_of_app; right; by left).
  assert (y ∈ by_index p t) as Hyi by (rewrite Heq; apply elem_of_app; right; right; by left).
  rewrite Heq in Hs. apply StronglySorted_app_1_r, StronglySorted_inv in Hs as [_ Hall]. rewrite Forall_forall in Hall.
  assert (seq_le x y) as Hle by (apply Hall; by left). unfold seq_le in Hle.
  apply elem_of_by_index in Hx as [Hx Hpx]. apply elem_of_by_index in Hyi as [Hyi Hpy].
  split_and!; [by apply elem_of_project|by apply elem_of_project| |done].
  destruct (decide (fr_seq x = fr_seq y)) as [He|]; [|lia].
  assert (x = y) as <- by (apply (wf_unique t Hwf); congruence).
  apply breaks_spec in Hb as (tb & Htb & Hm). rewrite Htb in Hm. lia.
Qed.

Lemma earliest_spec p t :
  table_wf t →
  match earliest_out_of_order_timestamp p t with
  | None => ordered p t
  | Some b =>
      (∃ r r', inverted p t r r' ∧ fr_ts r' = Some b) ∧
      ∀ r r', inverted p t r r' →
        (∃ ts', fr_ts r' = Some ts' ∧ b ≤ ts') ∧ match fr_ts r with Some ts => b ≤ ts | None => True end
  end.
Proof.
  intros Hwf. unfold earliest_out_of_order_timestamp. pose proof (fold_keep_min (flagged_times (by_index p t)) None) as Hmin.
  destruct (foldl keep_min None _) as [b|].
  - destruct Hmin as ([?|Hb] & Hle & _); [done|]. split; [by apply flagged_inverted|].
    intros r r' Hi. destruct (inverted_flagged p t r r' Hi) as (b' & tb & Hb' & Htb & Hbt). specialize (Hle b' Hb').
    split; [exists tb; split; [done|lia]|]. destruct Hi as (_ & _ & _ & (tb' & Htb' & Hr)%breaks_spec).
    destruct (fr_ts r); [|done]. assert (tb' = tb) as -> by congruence. lia.
  - destruct Hmin as [_ Hnil]. intros r r' (b & _ & Hb & _)%inverted_flagged. rewrite Hnil in Hb. by apply elem_of_nil in Hb.
Qed.

(** The check finds the first disorder.  It answers nothing exactly when the browse
    order is time order; otherwise its answer is the timestamp of a row that comes after a
    later one, and both rows of every pair in the wrong order are at or after it, so that
    renumbering from there can repair everything. *)
Theorem first_disorder_exact p t :
  table_wf t →
  match earliest_out_of_order_timestamp p t with
  | None => ordered p t
  | Some b =>
      (∃ r r', inverted p t r r' ∧ fr_ts r' = Some b) ∧
      ∀ r r', inverted p t r r' →
        (∃ ts', fr_ts r' = Some ts' ∧ b ≤ ts') ∧ match fr_ts r with Some ts => b ≤ ts | None => True end
  end.
Proof. apply earliest_spec. Qed.

(** ** One renumbering *)
Lemma max_seq_spec l :
  match max_seq l with
  | None => l = []
  | Some m => (∃ r, r ∈ l ∧ fr_seq r = m) ∧ ∀ r, r ∈ l → fr_seq r ≤ m
  end.
Proof.
  unfold max_seq. pose proof (fold_keep_max (fr_seq <$> l) None) as Hm. destruct (foldl keep_max None _) as [m|].
  - destruct Hm as ([?|(r & -> & Hr)%list_elem_of_fmap] & Hle & _); [done|]. split; [by exists r|].
    intros r' Hr'. apply Hle. by apply list_elem_of_fmap_2.
  - destruct Hm as [_ Hnil]. by apply fmap_nil_inv in Hnil.
Qed.

Lemma max_seq_bound l r : r ∈ l → fr_seq r ≤ default 0 (max_seq l).
Proof.
  intros Hr. pose proof (max_seq_spec l) as Hm. destruct (max_seq l); [by apply Hm|]. subst l. by apply elem_of_nil in Hr.
Qed.

Lemma elem_of_suffix_rows p from_ts t r : r ∈ suffix_rows p from_ts t ↔ r ∈ t ∧ in_suffix p from_ts r.
Proof. unfold suffix_rows. rewrite merge_sort_Permutation, list_elem_of_filter. tauto. Qed.

Lemma NoDup_table t : NoDup (fr_id <$> t) → NoDup t.
Proof. apply NoDup_fmap_1. Qed.

Lemma NoDup_ids_sub (l t : frames) : NoDup (fr_id <$> t) → NoDup l → l ⊆ t → NoDup (fr_id <$> l).
Proof.
  intros Ht. induction 1 as [|r l Hr Hl IH]; [constructor|]. intros Hsub. cbn. apply NoDup_cons. split.
  - intros (r' & Hid & Hr')%list_elem_of_fmap. apply Hr.
    rewrite (NoDup_ids_eq t r r'); [done|done|apply Hsub; by left|apply Hsub; by right|done].
  - apply IH. intros x Hx. apply Hsub. by right.
Qed.

Lemma NoDup_suffix_ids p from_ts t : NoDup (fr_id <$> t) → NoDup (fr_id <$> suffix_rows p from_ts t).
Proof.
  intros Hn. unfold suffix_rows. rewrite merge_sort_Permutation. apply (NoDup_ids_sub _ t); [done| |].
  - apply NoDup_filter. by apply NoDup_table.
  - intros r [_ Hr]%list_elem_of_filter. done.
Qed.

(** Targets of a suffix lie above the prefix. *)
Lemma below_start p from_ts t r :
  r ∈ t → fr_project r = p → ¬ in_suffix p from_ts r → fr_seq r < suffix_start p from_ts t.
Proof.
  intros Hr Hp Hn. destruct from_ts as [b|]; cbn.
  - assert (fr_seq r ≤ default 0 (max_seq (filter (before p b) t))); [|lia]. apply max_seq_bound, list_elem_of_filter.
    split; [|done]. split; [done|]. unfold in_suffix in Hn. destruct (fr_ts r); [|tauto]. destruct (decide (b ≤ z)); [tauto|lia].
  - destruct Hn. by split.
Qed.

Lemma start_bound p from_ts t : (∀ r, r ∈ t → 1 ≤ fr_seq r) → 1 ≤ suffix_start p from_ts t ≤ default 0 (max_seq (of_project p t)) + 1.
Proof.
  intros Hpos. assert (0 ≤ default 0 (max_seq (of_project p t))) as H0.
  { pose proof (max_seq_spec (of_project p t)) as Hm. destruct (max_seq (of_project p t)) as [m|]; [|done]. cbn.
    destruct Hm as [(r & [Hr _]%elem_of_project & <-) _]. specialize (Hpos r Hr). lia. }
  destruct from_ts as [b|]; cbn; [|lia]. pose proof (max_seq_spec (filter (before p b) t)) as Hm.
  destruct (max_seq (filter (before p b) t)) as [m|]; cbn; [|lia]. destruct Hm as [(r & [[Hp _] Hr]%list_elem_of_filter & <-) _].
  specialize (Hpos r Hr). assert (fr_seq r ≤ default 0 (max_seq (of_project p t))); [|lia]. apply max_seq_bound. by apply elem_of_project.
Qed.

Lemma number_from_fst start ids : (number_from start ids).*1 = ids.
Proof.
  unfold number_from. revert start. induction ids as [|i ids IH]; intros start; [done|]. cbn. f_equal.
  etrans; [|apply (IH (start + 1))]. f_equal. apply imap_ext. intros j x _. cbn. f_equal. lia.
Qed.

Lemma elem_of_number_from start ids id v :
  (id, v) ∈ number_from start ids ↔ ∃ i, ids !! i = Some id ∧ v = start + Z.of_nat i.
Proof.
  unfold number_from. rewrite elem_of_lookup_imap. split.
  - intros (i & x & [= -> ->] & Hi). by exists i.
  - intros (i & Hi & ->). by exists i, id.
Qed.

Lemma number_from_snd start ids : NoDup (number_from start ids).*2.
Proof.
  replace (number_from start ids).*2 with ((λ i, start + Z.of_nat i) <$> seq 0 (length ids)).
  - apply NoDup_fmap_2; [intros i j; lia|apply NoDup_seq].
  - unfold number_from. apply list_eq. intros i. rewrite !list_lookup_fmap, list_lookup_imap.
    destruct (ids !! i) as [x|] eqn:Hi; cbn.
    + apply lookup_lt_Some in Hi. by rewrite lookup_seq_lt.
    + apply lookup_ge_None in Hi. by rewrite lookup_seq_ge.
Qed.

Lemma number_from_app start a b : number_from start (a ++ b) = number_from start a ++ number_from (start + Z.of_nat (length a)) b.
Proof. unfold number_from. rewrite imap_app. f_equal. apply imap_ext. intros i x _. cbn. f_equal. lia. Qed.

(** The final indexes, as a map by id. *)
Definition targets (p : Z) (from_ts : option Z) (t : frames) : gmap Z Z :=
  list_to_map (number_from (suffix_start p from_ts t) (fr_id <$> suffix_rows p from_ts t)).

Lemma targets_lookup p from_ts t id v :
  NoDup (fr_id <$> t) →
  targets p from_ts t !! id = Some v ↔
  ∃ i r, suffix_rows p from_ts t !! i = Some r ∧ fr_id r = id ∧ v = suffix_start p from_ts t + Z.of_nat i.
Proof.
  intros Hn. unfold targets. rewrite <-elem_of_list_to_map by (rewrite number_from_fst; by apply NoDup_suffix_ids).
  rewrite elem_of_number_from. setoid_rewrite list_lookup_fmap. setoid_rewrite fmap_Some. naive_solver.
Qed.

Lemma targets_None p from_ts t r :
  NoDup (fr_id <$> t) → r ∈ t → targets p from_ts t !! fr_id r = None ↔ ¬ in_suffix p from_ts r.
Proof.
  intros Hn Hr. split.
  - intros Hnone Hs. assert (r ∈ suffix_rows p from_ts t) as [i Hi]%list_elem_of_lookup by (by apply elem_of_suffix_rows).
    assert (targets p from_ts t !! fr_id r = Some (suffix_start p from_ts t + Z.of_nat i)) as Hsome; [|congruence].
    apply targets_lookup; [done|]. by exists i, r.
  - intros Hs. destruct (targets p from_ts t !! fr_id r) as [v|] eqn:Hv; [|done]. destruct Hs.
    apply targets_lookup in Hv as (i & r' & Hi & Hid & _); [|done]. apply list_elem_of_lookup_2, elem_of_suffix_rows in Hi as [Hr' Hs].
    by rewrite (NoDup_ids_eq t r r').
Qed.

(** The parked rows: the suffix, in any order, moved above everything. *)
Definition parked_map (offset : Z) (l : list (Z * Z)) : gmap Z Z := list_to_map ((λ x, (x.1, x.2 + offset)) <$> l).
Definition pairs (l : frames) : list (Z * Z) := (λ r, (fr_id r, fr_seq r)) <$> l.

Lemma pairs_fst l : (pairs l).*1 = fr_id <$> l.
Proof. unfold pairs. by rewrite <-list_fmap_compose. Qed.

Lemma NoDup_seqs p (l t : frames) :
  table_wf t → NoDup l → (∀ r, r ∈ l → r ∈ t ∧ fr_project r = p) → NoDup (fr_seq <$> l).
Proof.
  intros Hwf. induction 1 as [|r l Hr Hl IH]; [constructor|]. intros Hsub. cbn. apply NoDup_cons. split.
  - intros (r' & Hs & Hr')%list_elem_of_fmap. apply Hr. destruct (Hsub r) as [? ?]; [by left|]. destruct (Hsub r') as [? ?]; [by right|].
    rewrite (wf_unique t Hwf r r'); [done|done|done|congruence|done].
  - apply IH. intros x Hx. apply Hsub. by right.
Qed.

Lemma parked_lookup p t offset l r :
  NoDup (fr_id <$> t) → NoDup l → (∀ x, x ∈ l → x ∈ t ∧ fr_project x = p) → r ∈ t →
  parked_map offset (pairs l) !! fr_id r = if decide (r ∈ l) then Some (fr_seq r + offset) else None.
Proof.
  intros Hn Hnl Hsub Hr. unfold parked_map, pairs. rewrite <-list_fmap_compose.
  assert (NoDup (((λ x, (x.1, x.2 + offset)) ∘ (λ r, (fr_id r, fr_seq r)) <$> l).*1)) as Hnd.
  { rewrite <-list_fmap_compose. apply (NoDup_ids_sub l t); [done|done|]. intros x Hx. by apply Hsub. }
  destruct (decide (r ∈ l)) as [Hin|Hout].
  - apply elem_of_list_to_map_1; [done|]. apply list_elem_of_fmap. by exists r.
  - apply not_elem_of_list_to_map_1. rewrite <-list_fmap_compose. intros (x & Hid & Hx)%list_elem_of_fmap. cbn in Hid.
    destruct (Hsub x Hx) as [Hxt _]. by rewrite (NoDup_ids_eq t r x) in Hout.
Qed.

(** Parking rows of a project, in any order, above its highest index succeeds. *)
Lemma park_ok p t offset l :
  table_wf t → NoDup l → (∀ x, x ∈ l → x ∈ t ∧ fr_project x = p) →
  (∀ r, r ∈ t → fr_project r = p → fr_seq r ≤ offset) →
  park_rows (pairs l) offset t = Ok (reindex (parked_map offset (pairs l)) t).
Proof.
  intros Hwf Hnl Hsub Hoff. unfold park_rows. apply (set_indexes_free p); [apply Hwf| | | |].
  - unfold pairs. rewrite <-!list_fmap_compose. apply (NoDup_ids_sub l t); [apply Hwf|done|]. intros x Hx. by apply Hsub.
  - unfold pairs. rewrite <-!list_fmap_compose.
    replace ((snd ∘ ((λ x : Z * Z, (x.1, x.2 + offset)) ∘ (λ r, (fr_id r, fr_seq r)))) <$> l) with ((λ v, v + offset) <$> (fr_seq <$> l))
      by (by rewrite <-list_fmap_compose). apply NoDup_fmap_2; [intros x y; lia|]. by apply (NoDup_seqs p l t).
  - intros a r (x & -> & (y & -> & Hy)%list_elem_of_fmap)%list_elem_of_fmap Hr Hid. cbn in Hid.
    destruct (Hsub y Hy) as [Hyt Hp]. by rewrite (NoDup_ids_eq t r y (wf_ids t Hwf)).
  - intros a z r (x & -> & (y & -> & Hy)%list_elem_of_fmap)%list_elem_of_fmap _ _ Hr Hp Hs. cbn in Hs.
    destruct (Hsub y Hy) as [Hyt _]. pose proof (wf_pos t Hwf y Hyt). specialize (Hoff r Hr Hp). lia.
Qed.

Definition suffix_offset (p : Z) (from_ts : option Z) (t : frames) : Z :=
  default 0 (max_seq (of_project p t)) + Z.of_nat (length (suffix_rows p from_ts t)) + 1.

Lemma offset_above p from_ts t r : r ∈ t → fr_project r = p → fr_seq r ≤ suffix_offset p from_ts t.
Proof.
  intros Hr Hp. unfold suffix_offset. pose proof (max_seq_bound (of_project p t) r (proj2 (elem_of_project p t r) (conj Hr Hp))). lia.
Qed.

(** The assignments succeed on the parked table. *)
Lemma assign_ok p from_ts t l :
  table_wf t → l ≡ₚ filter (in_suffix p from_ts) t →
  set_sequence_indexes (number_from (suffix_start p from_ts t) (fr_id <$> suffix_rows p from_ts t))
    (reindex (parked_map (suffix_offset p from_ts t) (pairs l)) t) =
  Ok (reindex (targets p from_ts t) t).
Proof.
  intros Hwf Hl. set (off := suffix_offset p from_ts t).
  assert (∀ x, x ∈ l ↔ x ∈ t ∧ in_suffix p from_ts x) as Hmem by (intros x; rewrite Hl, list_elem_of_filter; tauto).
  assert (NoDup l) as Hnl by (rewrite Hl; apply NoDup_filter, NoDup_table, Hwf).
  assert (∀ r, r ∈ t → parked_map off (pairs l) !! fr_id r = if decide (r ∈ l) then Some (fr_seq r + off) else None) as Hpk.
  { intros r Hr. apply (parked_lookup p t); [apply Hwf|done| |done]. intros x [Hx [Hp _]]%Hmem. done. }
  rewrite (set_indexes_free p); [|rewrite reindex_ids; apply Hwf|rewrite number_from_fst; apply NoDup_suffix_ids, Hwf|apply number_from_snd| |].
  - f_equal. rewrite reindex_reindex. apply reindex_ext. intros r Hr. fold (targets p from_ts t).
    destruct (targets p from_ts t !! fr_id r) as [v|] eqn:Hv; [by apply lookup_union_Some_l|].
    rewrite lookup_union_r by done. rewrite Hpk by done. apply targets_None in Hv; [|apply Hwf|done].
    rewrite decide_False; [done|]. by intros [_ ?]%Hmem.
  - intros [id v] r' (i & Hi & _)%elem_of_number_from (r & Hr & ->)%elem_of_reindex Hid.
    transitivity (fr_project r); [by destruct (_ !! fr_id r)|]. rewrite list_lookup_fmap in Hi. apply fmap_Some in Hi as (x & Hx & ->).
    apply list_elem_of_lookup_2, elem_of_suffix_rows in Hx as [Hx [Hp _]]. cbn in Hid.
    rewrite (NoDup_ids_eq t r x (wf_ids t Hwf)); [done|done|done|]. by destruct (_ !! fr_id r).
  - intros [id v] x' r' (i & Hi & ->)%elem_of_number_from _ _ (r & Hr & ->)%elem_of_reindex Hp Hs. cbn [fst snd] in *. exfalso.
    rewrite list_lookup_fmap in Hi. apply fmap_Some in Hi as (x & Hx & _). apply lookup_lt_Some in Hx.
    pose proof (start_bound p from_ts t (wf_pos t Hwf)) as Hst. rewrite (Hpk r Hr) in Hs, Hp. destruct (decide (r ∈ l)) as [Hin|Hout].
    + cbn in Hs. pose proof (wf_pos t Hwf r Hr). unfold off, suffix_offset in Hs. lia.
    + assert (¬ in_suffix p from_ts r) as Hns by (intros ?; apply Hout, Hmem; done).
      pose proof (below_start p from_ts t r Hr Hp Hns). lia.
Qed.

Section renumbering.
Context (visit : frames → frames) (visit_perm : ∀ l, visit l ≡ₚ l).

Lemma resequence_from_eq p from_ts t :
  table_wf t →
  resequence_project_from visit p from_ts t =
  Ok (reindex (targets p from_ts t) t, Z.of_nat (length (suffix_rows p from_ts t))).
Proof using visit_perm.
  intros Hwf. unfold resequence_project_from.
  destruct (fr_id <$> suffix_rows p from_ts t) as [|id ids] eqn:Hids.
  { unfold targets. rewrite Hids. apply fmap_nil_inv in Hids. rewrite Hids. cbn. by rewrite reindex_empty. }
  assert (length (id :: ids) = length (suffix_rows p from_ts t)) as Hlen by (by rewrite <-Hids, length_fmap).
  rewrite Hlen. fold (suffix_offset p from_ts t). fold (pairs (visit (filter (in_suffix p from_ts) t))).
  rewrite (park_ok p); [|done| | |].
  - cbn [mbind result_bind]. rewrite <-Hids. rewrite assign_ok by done. done.
  - rewrite visit_perm. apply NoDup_filter, NoDup_table, Hwf.
  - intros x. rewrite visit_perm, list_elem_of_filter. intros [[Hp _] Hx]. done.
  - intros r. apply offset_above.
Qed.
End renumbering.

(** ** The order a renumbering leaves *)
Definition new_seq (g : gmap Z Z) (r : FrameRow) : Z := default (fr_seq r) (g !! fr_id r).
Definition moved (g : gmap Z Z) (r : FrameRow) : FrameRow := set_seq (new_seq g r) r.

Lemma reindex_moved g t : reindex g t = moved g <$> t.
Proof.
  unfold reindex. apply list_fmap_ext. intros i r _. unfold moved, new_seq. destruct (g !! fr_id r); [done|]. cbn. by destruct r.
Qed.

Lemma breaks_set_seq v w a b : breaks_order (set_seq v a) (set_seq w b) = breaks_order a b.
Proof. done. Qed.

Lemma inverted_reindex p g t y y' :
  inverted p (reindex g t) y y' ↔
  ∃ r r', y = moved g r ∧ y' = moved g r' ∧ r ∈ of_project p t ∧ r' ∈ of_project p t ∧
    new_seq g r < new_seq g r' ∧ breaks_order r r' = true.
Proof.
  unfold inverted. rewrite reindex_moved, !elem_of_project, !list_elem_of_fmap. setoid_rewrite elem_of_project. split.
  - intros ([(r & -> & Hr) Hp] & [(r' & -> & Hr') Hp'] & Hlt & Hb). by exists r, r'.
  - intros (r & r' & -> & -> & [Hr Hp] & [Hr' Hp'] & Hlt & Hb). split_and!; eauto.
Qed.

Lemma StronglySorted_lookup {A} (R : relation A) l i j a b :
  StronglySorted R l → l !! i = Some a → l !! j = Some b → (i < j)%nat → R a b.
Proof.
  intros Hs Hi Hj Hlt. pose proof (take_drop_middle l i a Hi) as Hl. rewrite <-Hl in Hs, Hj.
  apply StronglySorted_app_1_r, StronglySorted_inv in Hs as [_ Hall].
  rewrite lookup_app_r, length_take_le in Hj by (rewrite ?length_take; apply lookup_lt_Some in Hi; lia).
  destruct (j - i)%nat as [|k] eqn:Hk; [lia|]. cbn in Hj. by eapply Forall_lookup_1.
Qed.

Lemma new_seq_suffix p from_ts t r :
  table_wf t → r ∈ t → in_suffix p from_ts r →
  ∃ i, suffix_rows p from_ts t !! i = Some r ∧ new_seq (targets p from_ts t) r = suffix_start p from_ts t + Z.of_nat i.
Proof.
  intros Hwf Hr Hs. assert (r ∈ suffix_rows p from_ts t) as [i Hi]%list_elem_of_lookup by (by apply elem_of_suffix_rows).
  exists i. split; [done|]. unfold new_seq.
  assert (targets p from_ts t !! fr_id r = Some (suffix_start p from_ts t + Z.of_nat i)) as ->; [|done].
  apply targets_lookup; [apply Hwf|]. by exists i, r.
Qed.

Lemma new_seq_prefix p from_ts t r :
  table_wf t → r ∈ t → ¬ in_suffix p from_ts r → new_seq (targets p from_ts t) r = fr_seq r.
Proof. intros Hwf Hr Hs. unfold new_seq. apply (targets_None p from_ts t r (wf_ids t Hwf) Hr) in Hs. by rewrite Hs. Qed.

Lemma suffix_sorted p from_ts t i j r r' :
  suffix_rows p from_ts t !! i = Some r → suffix_rows p from_ts t !! j = Some r' → (i < j)%nat → key_le r r'.
Proof. apply StronglySorted_lookup. apply StronglySorted_merge_sort; apply _. Qed.

Lemma renumbered_ordered p b t :
  table_wf t →
  (∀ r r', inverted p t r r' → before p b r → before p b r' → False) →
  ordered p (reindex (targets p (Some b) t) t).
Proof.
  intros Hwf Hpre y y' (r & r' & -> & -> & [Hr Hp]%elem_of_project & [Hr' Hp']%elem_of_project & Hlt & Hb)%inverted_reindex.
  set (g := targets p (Some b) t) in *.
  assert (∀ x, x ∈ t → fr_project x = p → ¬ in_suffix p (Some b) x → before p b x) as Hbef.
  { intros x Hx Hpx Hn. split; [done|]. unfold in_suffix in Hn. destruct (fr_ts x); [|tauto]. destruct (decide (b ≤ z)); [tauto|lia]. }
  destruct (decide (in_suffix p (Some b) r)) as [Hs|Hn], (decide (in_suffix p (Some b) r')) as [Hs'|Hn'].
  - destruct (new_seq_suffix p (Some b) t r Hwf Hr Hs) as (i & Hi & Hei). destruct (new_seq_suffix p (Some b) t r' Hwf Hr' Hs') as (j & Hj & Hej).
    assert (key_le r r') as Hk by (eapply suffix_sorted; [exact Hi|exact Hj|unfold g in *; lia]).
    apply key_le_not_breaks in Hk. congruence.
  - destruct (new_seq_suffix p (Some b) t r Hwf Hr Hs) as (i & Hi & Hei). unfold g in *. rewrite (new_seq_prefix _ _ _ _ Hwf Hr' Hn') in Hlt.
    pose proof (below_start _ _ _ _ Hr' Hp' Hn'). lia.
  - apply breaks_spec in Hb as (tb & Htb & Hm). destruct (Hbef r Hr Hp Hn) as [_ Hlt']. destruct Hs' as [_ Hs']. rewrite Htb in Hs'.
    destruct (fr_ts r); lia.
  - unfold g in *. rewrite !new_seq_prefix in Hlt by done. apply (Hpre r r'); [|by apply Hbef..].
    by split_and!; [apply elem_of_project|apply elem_of_project| |].
Qed.

Lemma renumbered_wf p from_ts t : table_wf t → table_wf (reindex (targets p from_ts t) t).
Proof.
  intros Hwf. set (g := targets p from_ts t). constructor.
  - rewrite reindex_ids. apply Hwf.
  - rewrite reindex_moved. intros y y' (r & -> & Hr)%list_elem_of_fmap (r' & -> & Hr')%list_elem_of_fmap Hp Hs. cbn in Hp, Hs.
    f_equal. destruct (decide (in_suffix p from_ts r)) as [Hi|Hn], (decide (in_suffix p from_ts r')) as [Hi'|Hn'].
    + destruct (new_seq_suffix _ _ _ _ Hwf Hr Hi) as (i & Hri & Hei). destruct (new_seq_suffix _ _ _ _ Hwf Hr' Hi') as (j & Hrj & Hej).
      assert (i = j) as -> by (unfold g in *; lia). congruence.
    + destruct (new_seq_suffix _ _ _ _ Hwf Hr Hi) as (i & Hri & Hei). unfold g in *. rewrite (new_seq_prefix _ _ _ r' Hwf Hr' Hn') in Hs.
      pose proof (below_start p from_ts t r' Hr' ltac:(rewrite <-Hp; apply Hi) Hn'). lia.
    + destruct (new_seq_suffix _ _ _ _ Hwf Hr' Hi') as (i & Hri & Hei). unfold g in *. rewrite (new_seq_prefix _ _ _ r Hwf Hr Hn) in Hs.
      pose proof (below_start p from_ts t r Hr ltac:(rewrite Hp; apply Hi') Hn). lia.
    + unfold g in *. rewrite !new_seq_prefix in Hs by done. by apply (wf_unique t Hwf).
  - rewrite reindex_moved. intros y (r & -> & Hr)%list_elem_of_fmap. cbn. destruct (decide (in_suffix p from_ts r)) as [Hi|Hn].
    + destruct (new_seq_suffix _ _ _ _ Hwf Hr Hi) as (i & Hri & Hei). pose proof (start_bound p from_ts t (wf_pos t Hwf)). unfold g. lia.
    + unfold g. rewrite new_seq_prefix by done. by apply Hwf.
Qed.

(** The bound of an import or a repair is at or before every disorder. *)
Lemma bound_covers p imported t b :
  table_wf t → renumber_bound p imported t = Some b →
  ∀ r r', inverted p t r r' → before p b r → before p b r' → False.
Proof.
  intros Hwf Hb r r' Hi [_ Hbr] [_ Hbr']. pose proof (earliest_spec p t Hwf) as He. unfold renumber_bound in Hb.
  destruct (earliest_out_of_order_timestamp p t) as [d|]; [|by destruct (He r r')].
  destruct He as [_ Hall]. destruct (Hall r r' Hi) as [(ts' & Hts' & Hd) _]. rewrite Hts' in Hbr'.
  destruct (foldl keep_min None (omap fr_ts _)); injection Hb as <-; lia.
Qed.

Lemma bound_none p imported t : table_wf t → renumber_bound p imported t = None → ordered p t.
Proof.
  intros Hwf Hb. pose proof (earliest_spec p t Hwf) as He. unfold renumber_bound in Hb.
  destruct (earliest_out_of_order_timestamp p t); [|done]. by destruct (foldl keep_min None (omap fr_ts _)).
Qed.

Section repair.
Context (visit : frames → frames) (visit_perm : ∀ l, visit l ≡ₚ l).

Lemma after_import_eq p imported t :
  table_wf t →
  resequence_after_import visit p imported t =
  Ok match renumber_bound p imported t with
     | None => (t, 0)
     | Some b => (reindex (targets p (Some b) t) t, Z.of_nat (length (suffix_rows p (Some b) t)))
     end.
Proof using visit_perm.
  intros Hwf. unfold resequence_after_import. destruct (renumber_bound p imported t); [|done]. by apply resequence_from_eq.
Qed.

(** Rows that differ in their index only. *)
Definition same_but_index (t t' : frames) : Prop := Forall2 (λ r r', ∃ v, r' = set_seq v r) t t'.

Lemma reindex_same g t : same_but_index t (reindex g t).
Proof. rewrite reindex_moved. unfold same_but_index. apply Forall2_fmap_r. apply Forall_Forall2_diag, Forall_forall. intros r _. by exists (new_seq g r). Qed.

(** C12: renumbering restores the order.  Whatever was imported or edited, and in whatever
    order SQLite visits the rows of a statement, the renumbering of a project runs into no
    taken index, changes nothing but indexes, leaves every frame before its bound and every
    other project alone, gives the rest the next indexes in the order of their times, and
    afterwards the project's browse order is its time order. *)
Theorem resequence_orders p imported t :
  table_wf t →
  ∃ t' n, resequence_after_import visit p imported t = Ok (t', n) ∧
    ordered p t' ∧ table_wf t' ∧ same_but_index t t' ∧
    match renumber_bound p imported t with
    | None => t' = t ∧ n = 0
    | Some b =>
        (∀ r, r ∈ t → ¬ in_suffix p (Some b) r → r ∈ t') ∧
        n = Z.of_nat (length (suffix_rows p (Some b) t)) ∧
        (∀ i r, suffix_rows p (Some b) t !! i = Some r → set_seq (suffix_start p (Some b) t + Z.of_nat i) r ∈ t')
    end.
Proof using visit_perm.
  intros Hwf. rewrite after_import_eq by done. destruct (renumber_bound p imported t) as [b|] eqn:Hb.
  - eexists _, _. split; [done|]. split_and!; [by eapply renumbered_ordered, bound_covers|by apply renumbered_wf|apply reindex_same| |done|].
    + intros r Hr Hn. rewrite reindex_moved. apply list_elem_of_fmap. exists r. split; [|done]. unfold moved.
      rewrite new_seq_prefix by done. by destruct r.
    + intros i r Hi. rewrite reindex_moved. apply list_elem_of_fmap. exists r.
      pose proof Hi as Hin%list_elem_of_lookup_2%elem_of_suffix_rows. destruct Hin as [Hr Hs]. split; [|done].
      destruct (new_seq_suffix p (Some b) t r Hwf Hr Hs) as (j & Hj & Hn). unfold moved. rewrite Hn.
      assert (NoDup (suffix_rows p (Some b) t)) as Hnd by (eapply NoDup_fmap_1, NoDup_suffix_ids, Hwf).
      by rewrite (NoDup_lookup _ _ _ _ Hnd Hi Hj).
  - eexists _, _. split; [done|]. split_and!; [by eapply bound_none|done| |done|done].
    unfold same_but_index. apply Forall_Forall2_diag, Forall_forall. intros r _. exists (fr_seq r). by destruct r.
Qed.
End repair.

(** ** Chunks *)
Lemma park_rows_app a b offset t :
  park_rows (a ++ b) offset t = (t' ← park_rows a offset t; park_rows b offset t').
Proof. unfold park_rows. rewrite fmap_app. apply set_indexes_app. Qed.

(** The parking transactions together. *)
Lemma finish_parking rn todo t t' fuel :
  (1 ≤ rn_chunk rn)%nat → park_rows todo (rn_offset rn) t = Ok t' → (length todo ≤ fuel)%nat →
  ∃ fuel', (fuel ≤ fuel' + length todo)%nat ∧
    finish_renumber fuel rn (after_parking todo) t = finish_renumber fuel' rn (R_assigning 0) t'.
Proof.
  intros Hc. revert t fuel. induction todo as [todo IH] using (induction_ltof1 _ (@length _)). intros t fuel Hpark Hfuel.
  destruct todo as [|x todo]; cbn [after_parking].
  { cbn in Hpark. injection Hpark as ->. exists fuel. split; [lia|done]. }
  destruct fuel as [|fuel]; [cbn in Hfuel; lia|]. cbn [finish_renumber renumber_step].
  rewrite <-(take_drop (rn_chunk rn) (x :: todo)) in Hpark. rewrite park_rows_app in Hpark.
  destruct (park_rows (take (rn_chunk rn) (x :: todo)) (rn_offset rn) t) as [t1|]; [|done]. cbn [mbind result_bind] in Hpark |- *.
  assert (length (drop (rn_chunk rn) (x :: todo)) < length (x :: todo))%nat as Hlt by (rewrite length_drop; cbn; lia).
  destruct (IH _ Hlt t1 fuel Hpark) as (fuel' & Hle & Heq); [cbn in Hfuel, Hlt; lia|]. exists fuel'. split; [cbn [length] in *; lia|done].
Qed.

(** The assigning transactions together. *)
Lemma finish_assigning rn n t t' fuel :
  (1 ≤ rn_chunk rn)%nat → (n < length (rn_order rn))%nat →
  set_sequence_indexes (number_from (rn_start rn + Z.of_nat n) (drop n (rn_order rn))) t = Ok t' →
  (length (rn_order rn) - n ≤ fuel)%nat →
  ∃ fuel', (fuel ≤ fuel' + (length (rn_order rn) - n))%nat ∧
    finish_renumber fuel rn (R_assigning n) t =
    finish_renumber fuel' rn (R_compacting (rn_start rn + Z.of_nat (length (rn_order rn)))) t'.
Proof.
  intros Hc Hn. remember (length (rn_order rn) - n)%nat as m eqn:Hm. revert n t fuel Hn Hm.
  induction m as [m IH] using lt_wf_ind. intros n t fuel Hn Hm Hset Hfuel.
  destruct fuel as [|fuel]; [lia|]. cbn [finish_renumber renumber_step].
  rewrite <-(take_drop (rn_chunk rn) (drop n (rn_order rn))) in Hset. rewrite number_from_app, set_indexes_app in Hset.
  destruct (set_sequence_indexes (number_from _ (take _ _)) t) as [t1|]; [|done]. cbn [mbind result_bind] in Hset |- *.
  rewrite length_take, length_drop, drop_drop in Hset.
  destruct (n + rn_chunk rn <? length (rn_order rn))%nat eqn:Hlt.
  - apply Nat.ltb_lt in Hlt. destruct (IH (length (rn_order rn) - (n + rn_chunk rn))%nat ltac:(lia) (n + rn_chunk rn)%nat t1 fuel Hlt eq_refl) as (fuel' & Hle & Heq); [|lia|].
    + rewrite <-Hset. f_equal. f_equal. lia.
    + exists fuel'. split; [lia|done].
  - apply Nat.ltb_ge in Hlt. rewrite (drop_ge (rn_order rn) (n + rn_chunk rn)) in Hset by lia. cbn in Hset. injection Hset as ->.
    exists fuel. split; [lia|done].
Qed.

(** Nothing is left to compact. *)
Lemma finish_compacting rn next t fuel :
  (∀ r, r ∈ t → fr_project r = rn_project rn → fr_seq r < next) → (1 ≤ fuel)%nat →
  finish_renumber fuel rn (R_compacting next) t = Some (Ok (t, Z.of_nat (length (rn_order rn)))).
Proof.
  intros Hall Hf. destruct fuel as [|fuel]; [lia|]. cbn [finish_renumber renumber_step]. unfold compact_tail.
  assert (filter (λ r, fr_project r = rn_project rn ∧ next ≤ fr_seq r) t = []) as ->.
  { destruct (filter _ t) as [|r l] eqn:Hl; [done|]. assert (r ∈ r :: l) as Hr by (by left). rewrite <-Hl in Hr.
    apply list_elem_of_filter in Hr as [[Hp Hs] Hr]. specialize (Hall r Hr Hp). lia. }
  rewrite take_nil || (change (merge_sort seq_le []) with (@nil FrameRow); rewrite take_nil). cbn. by destruct fuel.
Qed.

Lemma reverse_sorted_perm p from_ts t :
  reverse (merge_sort seq_le (suffix_rows p from_ts t)) ≡ₚ filter (in_suffix p from_ts) t.
Proof. unfold suffix_rows. by rewrite reverse_Permutation, !merge_sort_Permutation. Qed.

Lemma length_suffix p from_ts t : length (suffix_rows p from_ts t) = length (filter (in_suffix p from_ts) t).
Proof. unfold suffix_rows. by rewrite merge_sort_Permutation. Qed.

Section chunks.
Context (visit : frames → frames) (visit_perm : ∀ l, visit l ≡ₚ l).

(** The parking of a whole suffix, from the highest index down. *)
Lemma park_suffix p b t :
  table_wf t →
  park_rows (pairs (reverse (merge_sort seq_le (suffix_rows p (Some b) t)))) (suffix_offset p (Some b) t) t =
  Ok (reindex (parked_map (suffix_offset p (Some b) t) (pairs (reverse (merge_sort seq_le (suffix_rows p (Some b) t))))) t).
Proof using.
  intros Hwf. apply (park_ok p); [done| | |intros r; apply offset_above].
  - rewrite reverse_sorted_perm. apply NoDup_filter, NoDup_table, Hwf.
  - intros x. rewrite reverse_sorted_perm, list_elem_of_filter. intros [[Hp _] Hx]. done.
Qed.

Lemma renumbered_below p b t r :
  table_wf t → r ∈ reindex (targets p (Some b) t) t → fr_project r = p →
  fr_seq r < suffix_start p (Some b) t + Z.of_nat (length (suffix_rows p (Some b) t)).
Proof using.
  intros Hwf. rewrite reindex_moved. intros (x & -> & Hx)%list_elem_of_fmap Hp. cbn [moved set_seq fr_project fr_seq] in *.
  destruct (decide (in_suffix p (Some b) x)) as [Hs|Hn].
  - destruct (new_seq_suffix _ _ _ _ Hwf Hx Hs) as (i & Hi%lookup_lt_Some & ->). lia.
  - rewrite new_seq_prefix by done. pose proof (below_start _ _ _ _ Hx Hp Hn). lia.
Qed.

Lemma chunked_eq p imported chunk t :
  table_wf t →
  resequence_project_chunked visit p imported chunk t = Some (resequence_after_import visit p imported t).
Proof using visit_perm.
  intros Hwf. rewrite (after_import_eq visit visit_perm) by done. unfold resequence_project_chunked, begin_renumber.
  destruct (renumber_bound p imported t) as [b|]; [|done].
  set (n := Z.to_nat (Z.max 1 (default RENUMBER_CHUNK_ROWS chunk))).
  set (c := Z.max 1 (default RENUMBER_CHUNK_ROWS chunk)) in *.
  destruct (Z.of_nat (length (filter (in_suffix p (Some b)) t)) <=? c) eqn:Hsmall.
  { by rewrite (resequence_from_eq visit visit_perm) by done. }
  apply Z.leb_gt in Hsmall. rewrite <-length_suffix in Hsmall.
  set (parking := (λ r, (fr_id r, fr_seq r)) <$> reverse (merge_sort seq_le (suffix_rows p (Some b) t))).
  fold (suffix_offset p (Some b) t).
  pose proof (park_suffix p b t Hwf) as Hpark. fold (pairs (reverse (merge_sort seq_le (suffix_rows p (Some b) t)))) in parking.
  change (pairs (reverse (merge_sort seq_le (suffix_rows p (Some b) t)))) with parking in Hpark.
  rewrite <-(take_drop n parking) in Hpark at 1. rewrite park_rows_app in Hpark.
  destruct (park_rows (take n parking) (suffix_offset p (Some b) t) t) as [t1|]; [|done]. cbn [mbind result_bind] in Hpark |- *.
  set (rn := MkRenumber p n (suffix_start p (Some b) t) (suffix_offset p (Some b) t) (fr_id <$> suffix_rows p (Some b) t)).
  assert (1 ≤ n)%nat as Hn by (unfold n, c; lia).
  assert (length (suffix_rows p (Some b) t) ≤ length t)%nat as Hlen by (rewrite length_suffix; apply length_filter).
  assert (length parking = length (suffix_rows p (Some b) t)) as Hlp.
  { unfold parking, pairs. rewrite length_fmap, length_reverse, merge_sort_Permutation. done. }
  destruct (finish_parking rn (drop n parking) t1 _ (3 * length t + 3)%nat Hn Hpark) as (f1 & Hf1 & ->); [rewrite length_drop; lia|].
  rewrite length_drop in Hf1.
  pose proof (assign_ok p (Some b) t (reverse (merge_sort seq_le (suffix_rows p (Some b) t))) Hwf (reverse_sorted_perm _ _ _)) as Has.
  destruct (finish_assigning rn 0 (reindex (parked_map (suffix_offset p (Some b) t) parking) t) (reindex (targets p (Some b) t) t) f1 Hn) as (f2 & Hf2 & ->).
  - cbn [rn_order rn]. rewrite length_fmap. lia.
  - rewrite drop_0, Z.add_0_r. exact Has.
  - cbn [rn_order rn]. rewrite length_fmap. lia.
  - cbn [rn_order rn_start rn] in *. rewrite length_fmap in *. rewrite finish_compacting; [cbn [rn_order rn]; by rewrite length_fmap| |lia].
    intros r Hr Hp. by apply renumbered_below.
Qed.

(** The chunks do not show in the result.  For every chunk size the chunked run ends,
    and it leaves exactly the table and reports exactly the count that the single
    transaction would. *)
Theorem chunked_renumber_same p imported chunk t :
  table_wf t →
  resequence_project_chunked visit p imported chunk t = Some (resequence_after_import visit p imported t).
Proof using visit_perm. apply chunked_eq. Qed.
End chunks.

(** ** The check of the neighbours *)
Definition same_place (r r0 : FrameRow) : Prop :=
  fr_id r = fr_id r0 ∧ fr_project r = fr_project r0 ∧ fr_seq r = fr_seq r0 ∧ fr_ts r = fr_ts r0.

Lemma breaks_same_place a a0 b b0 : same_place a a0 → same_place b b0 → breaks_order a b = breaks_order a0 b0.
Proof. intros (Hi & _ & _ & Ht) (Hi' & _ & _ & Ht'). unfold breaks_order. by rewrite Ht, Ht', Hi, Hi'. Qed.

Lemma last_sorted l x : StronglySorted seq_le l → last l = Some x → x ∈ l ∧ ∀ z, z ∈ l → fr_seq z ≤ fr_seq x.
Proof.
  intros Hs Hl. apply last_Some in Hl as [l' ->]. split; [apply elem_of_app; right; by left|].
  intros z [Hz|[->|?%elem_of_nil]%elem_of_cons]%elem_of_app; [|done|done].
  eapply (StronglySorted_app_1_elem_of seq_le); [exact Hs|done|by left].
Qed.
Lemma head_sorted l x : StronglySorted seq_le l → head l = Some x → x ∈ l ∧ ∀ z, z ∈ l → fr_seq x ≤ fr_seq z.
Proof.
  intros Hs Hh. destruct l as [|y l]; [done|]. injection Hh as ->. split; [by left|]. apply StronglySorted_inv in Hs as [_ Hall].
  intros z [->|Hz]%elem_of_cons; [done|]. rewrite Forall_forall in Hall. by apply Hall.
Qed.

Lemma row_before_spec p row t x :
  row_before p row t = Some x →
  x ∈ of_project p t ∧ fr_seq x < fr_seq row ∧ ∀ z, z ∈ of_project p t → fr_seq z < fr_seq row → fr_seq z ≤ fr_seq x.
Proof.
  intros [Hx Hall]%last_sorted; [|apply StronglySorted_merge_sort; apply _].
  rewrite merge_sort_Permutation, list_elem_of_filter in Hx. destruct Hx as [[Hp Hlt] Hx].
  split; [by apply elem_of_project|]. split; [done|]. intros z [Hz Hpz]%elem_of_project Hlz. apply Hall.
  rewrite merge_sort_Permutation, list_elem_of_filter. done.
Qed.
Lemma row_after_spec p row t x :
  row_after p row t = Some x →
  x ∈ of_project p t ∧ fr_seq row < fr_seq x ∧ ∀ z, z ∈ of_project p t → fr_seq row < fr_seq z → fr_seq x ≤ fr_seq z.
Proof.
  intros [Hx Hall]%head_sorted; [|apply StronglySorted_merge_sort; apply _].
  rewrite merge_sort_Permutation, list_elem_of_filter in Hx. destruct Hx as [[Hp Hlt] Hx].
  split; [by apply elem_of_project|]. split; [done|]. intros z [Hz Hpz]%elem_of_project Hlz. apply Hall.
  rewrite merge_sort_Permutation, list_elem_of_filter. done.
Qed.

Lemma row_before_some p row t x : x ∈ of_project p t → fr_seq x < fr_seq row → ∃ b, row_before p row t = Some b.
Proof.
  intros [Hx Hp]%elem_of_project Hlt. unfold row_before. destruct (last _) as [b|] eqn:Hl; [by exists b|]. apply last_None in Hl.
  assert (x ∈ merge_sort seq_le (filter (λ r, fr_project r = p ∧ fr_seq r < fr_seq row) t)) as Hin
    by (rewrite merge_sort_Permutation, list_elem_of_filter; done).
  rewrite Hl in Hin. by apply elem_of_nil in Hin.
Qed.
Lemma row_after_some p row t x : x ∈ of_project p t → fr_seq row < fr_seq x → ∃ b, row_after p row t = Some b.
Proof.
  intros [Hx Hp]%elem_of_project Hlt. unfold row_after. destruct (head _) as [b|] eqn:Hl; [by exists b|].
  assert (x ∈ merge_sort seq_le (filter (λ r, fr_project r = p ∧ fr_seq row < fr_seq r) t)) as Hin
    by (rewrite merge_sort_Permutation, list_elem_of_filter; done).
  destruct (merge_sort _ _); [by apply elem_of_nil in Hin|done].
Qed.

Lemma project_unique p t x y : table_wf t → x ∈ of_project p t → y ∈ of_project p t → fr_seq x = fr_seq y → x = y.
Proof. intros Hwf [Hx Hp]%elem_of_project [Hy Hp']%elem_of_project Hs. apply (wf_unique t Hwf); congruence. Qed.

(** Two rows with none between them are each other's neighbours. *)
Lemma neighbours p t x y :
  table_wf t → x ∈ of_project p t → y ∈ of_project p t → fr_seq x < fr_seq y →
  (∀ z, z ∈ of_project p t → fr_seq z ≤ fr_seq x ∨ fr_seq y ≤ fr_seq z) →
  row_before p y t = Some x ∧ row_after p x t = Some y.
Proof.
  intros Hwf Hx Hy Hlt Hgap. split.
  - destruct (row_before_some p y t x Hx Hlt) as [b Hb]. rewrite Hb. f_equal.
    destruct (row_before_spec _ _ _ _ Hb) as (Hin & Hltb & Hmax). specialize (Hmax x Hx Hlt).
    apply (project_unique p t); [done..|]. destruct (Hgap b Hin); lia.
  - destruct (row_after_some p x t y Hy Hlt) as [b Hb]. rewrite Hb. f_equal.
    destruct (row_after_spec _ _ _ _ Hb) as (Hin & Hltb & Hmin). specialize (Hmin y Hy Hlt).
    apply (project_unique p t); [done..|]. destruct (Hgap b Hin); lia.
Qed.

(** A disorder shows between two neighbours. *)
Lemma disorder_adjacent p t r r' :
  table_wf t → inverted p t r r' →
  ∃ x y, inverted p t x y ∧ row_before p y t = Some x ∧ row_after p x t = Some y.
Proof.
  intros Hwf (b & _ & (l1 & x & y & l2 & Heq & Hb & _)%elem_of_flagged_times & _)%inverted_flagged.
  pose proof (by_index_sorted p t) as Hs. rewrite Heq in Hs.
  assert (∀ z, z ∈ of_project p t ↔ z ∈ l1 ++ x :: y :: l2) as Hin.
  { intros z. rewrite <-Heq. unfold by_index. by rewrite merge_sort_Permutation. }
  assert (x ∈ of_project p t) as Hx by (apply Hin, elem_of_app; right; by left).
  assert (y ∈ of_project p t) as Hy by (apply Hin, elem_of_app; right; right; by left).
  apply StronglySorted_app in Hs as (Hl1 & _ & Hs). apply StronglySorted_inv in Hs as [Hs Hxl].
  apply StronglySorted_inv in Hs as [_ Hyl]. rewrite Forall_forall in Hxl, Hyl.
  assert (fr_seq x < fr_seq y) as Hlt.
  { assert (seq_le x y) as Hle by (apply Hxl; by left). unfold seq_le in Hle.
    destruct (decide (fr_seq x = fr_seq y)) as [He|]; [|lia]. rewrite (project_unique p t x y Hwf Hx Hy He) in Hb.
    apply breaks_spec in Hb as (tb & Htb & Hm). rewrite Htb in Hm. lia. }
  exists x, y. split; [done|]. apply (neighbours p); [done..|]. intros z Hz. apply Hin, elem_of_app in Hz as [Hz|[->|[->|Hz]%elem_of_cons]%elem_of_cons].
  - left. apply (Hl1 z x); [done|by left].
  - by left.
  - by right.
  - right. by apply Hyl.
Qed.

Lemma out_of_place_inverted p t row :
  row ∈ of_project p t → out_of_place p row t = true → ∃ r r', inverted p t r r'.
Proof.
  intros Hrow. unfold out_of_place. rewrite orb_true_iff. intros [H|H].
  - destruct (row_before p row t) as [b|] eqn:Hb; [|done]. apply row_before_spec in Hb as (Hin & Hlt & _). by exists b, row.
  - destruct (row_after p row t) as [a|] eqn:Ha; [|done]. apply row_after_spec in Ha as (Hin & Hlt & _). by exists row, a.
Qed.

Lemma NoDup_project p t : NoDup (fr_id <$> t) → NoDup (fr_id <$> of_project p t).
Proof.
  intros Hn. apply (NoDup_ids_sub _ t); [done|by apply NoDup_filter, NoDup_table|]. intros r [Hr _]%elem_of_project. done.
Qed.

Lemma neighbours_false p t ids :
  table_wf t → neighbours_out_of_order p t ids = false ↔
  ∀ id, id ∈ ids → ∃ row, row ∈ of_project p t ∧ fr_id row = id ∧ out_of_place p row t = false.
Proof.
  intros Hwf. induction ids as [|id ids IH]; cbn; [split; [by intros _ ? ?%elem_of_nil|done]|].
  destruct (get_row id (of_project p t)) as [row|] eqn:Hg.
  - apply get_row_spec in Hg as [Hrow Hid]; [|by apply NoDup_project, Hwf]. destruct (out_of_place p row t) eqn:Ho.
    + split; [done|]. intros Hall. destruct (Hall id) as (row' & Hr' & Hid' & Ho'); [by left|].
      rewrite (NoDup_ids_eq (of_project p t) row row') in Ho; [congruence|by apply NoDup_project, Hwf|done|done|congruence].
    + rewrite IH. split; [|intros Hall i Hi; apply Hall; by right]. intros Hall i [->|Hi]%elem_of_cons; [by exists row|by apply Hall].
  - split; [done|]. intros Hall. destruct (Hall id) as (row & Hr & Hid & _); [by left|].
    by apply (proj1 (get_row_None _ _) Hg row) in Hr.
Qed.

(** The rows of a project that are not where they were carry one of the ids. *)
Definition moved_at_most (p : Z) (ids : list Z) (t t' : frames) : Prop :=
  ∀ r, r ∈ of_project p t' → fr_id r ∉ ids → ∃ r0, r0 ∈ of_project p t ∧ same_place r r0.

Lemma quiet_neighbours p t t' ids :
  table_wf t' → ordered p t → moved_at_most p ids t t' → neighbours_out_of_order p t' ids = false → ordered p t'.
Proof.
  intros Hwf Hord Hmoved Hq r r' (x & y & Hi & Hb & Ha)%disorder_adjacent; [|done].
  rewrite neighbours_false in Hq by done. destruct Hi as (Hx & Hy & Hlt & Hbr).
  assert (∀ z, z ∈ of_project p t' → fr_id z ∈ ids → out_of_place p z t' = false) as Hz.
  { intros z Hz Hid. destruct (Hq _ Hid) as (row & Hrow & Hri & Ho).
    by rewrite (NoDup_ids_eq (of_project p t') z row) by (try done; apply NoDup_project, Hwf). }
  destruct (decide (fr_id x ∈ ids)) as [Hxi|Hxn].
  { specialize (Hz x Hx Hxi). unfold out_of_place in Hz. rewrite Ha, Hbr in Hz. by rewrite orb_true_r in Hz. }
  destruct (decide (fr_id y ∈ ids)) as [Hyi|Hyn].
  { specialize (Hz y Hy Hyi). unfold out_of_place in Hz. by rewrite Hb, Hbr in Hz. }
  destruct (Hmoved x Hx Hxn) as (x0 & Hx0 & Hsx). destruct (Hmoved y Hy Hyn) as (y0 & Hy0 & Hsy).
  apply (Hord x0 y0). split_and!; [done|done| |by rewrite <-(breaks_same_place x x0 y y0)].
  destruct Hsx as (_ & _ & <- & _), Hsy as (_ & _ & <- & _). done.
Qed.

(** Looking at the neighbours is as good as the full scan.  When a project was in order
    and at most the named frames moved, the check of their neighbours finds nothing exactly
    when the whole project is still in order. *)
Theorem neighbour_check_exact p t t' ids :
  table_wf t' → ordered p t → moved_at_most p ids t t' → (∀ id, id ∈ ids → ∃ r, r ∈ of_project p t' ∧ fr_id r = id) →
  neighbours_out_of_order p t' ids = false ↔ earliest_out_of_order_timestamp p t' = None.
Proof.
  intros Hwf Hord Hmoved Hpres. pose proof (earliest_spec p t' Hwf) as He. split.
  - intros Hq%(quiet_neighbours p t); [|done..]. destruct (earliest_out_of_order_timestamp p t'); [|done].
    destruct He as [(r & r' & Hi & _) _]. by destruct (Hq r r').
  - intros Hnone. rewrite Hnone in He. apply neighbours_false; [done|]. intros id (r & Hr & Hid)%Hpres. exists r. split; [done|]. split; [done|].
    apply not_true_iff_false. intros (x & y & Hi)%out_of_place_inverted; [|done]. by apply (He x y).
Qed.
