(* ===== verification/FrameEdits.v ===== *)
(** * Edits of frames, their commit, and the order they leave

    What a session may do to the frames ([edit_step]), the repair its commit hook makes
    (storage/frames.py: [_restore_order_after_commit]), and the facts about selections of
    frames. *)

From S2P Require Import Prelude PyTime FrameTable FrameOrder FrameOrderFacts.
From stdpp Require Import sorting options.
Local Open Scope Z_scope.

Section repair.
Context (visit : frames → frames) (visit_perm : ∀ l, visit l ≡ₚ l).

(** ** The repair of one project *)
Lemma of_project_reindex q g t :
  (∀ r, r ∈ t → fr_project r = q → g !! fr_id r = None) → of_project q (reindex g t) = of_project q t.
Proof using.
  intros Hg. unfold of_project, reindex. induction t as [|r t IH]; [done|]. cbn [fmap list_fmap]. rewrite !filter_cons.
  rewrite IH by (intros x Hx; apply Hg; by right).
  destruct (decide (fr_project r = q)) as [Hp|Hp].
  - rewrite (Hg r) by (done || by left). by rewrite decide_True.
  - rewrite decide_False; [done|]. by destruct (g !! fr_id r).
Qed.

Lemma ordered_project q t t' : of_project q t' = of_project q t → ordered q t → ordered q t'.
Proof using. intros Heq Ho r r' Hi. apply (Ho r r'). unfold inverted in *. by rewrite Heq in Hi. Qed.

Lemma restore_spec p frame_ids t t' :
  table_wf t' →
  match frame_ids with Some ids => ordered p t ∧ moved_at_most p ids t t' | None => True end →
  ∃ t'' n, restore_project_order visit p frame_ids t' = Some (Ok (t'', n)) ∧
    ordered p t'' ∧ table_wf t'' ∧ same_but_index t' t'' ∧
    (ordered p t' → t'' = t') ∧ ∀ q, q ≠ p → of_project q t'' = of_project q t'.
Proof using visit_perm.
  intros Hwf Hids. unfold restore_project_order.
  assert (same_but_index t' t') as Hrefl.
  { apply Forall_Forall2_diag, Forall_forall. intros r _. exists (fr_seq r). by destruct r. }
  destruct (match frame_ids with Some ids => _ | None => false end) eqn:Hq.
  { destruct frame_ids as [ids|]; [|done]. destruct Hids as [Hord Hmoved]. apply andb_true_iff in Hq as [_ Hq%negb_true_iff].
    exists t', 0. split_and!; try done. by apply (quiet_neighbours p t t' ids). }
  pose proof (earliest_spec p t' Hwf) as He. destruct (earliest_out_of_order_timestamp p t') as [d|] eqn:Hd.
  - rewrite (chunked_eq visit visit_perm) by done. rewrite (after_import_eq visit visit_perm) by done.
    assert (renumber_bound p [] t' = Some d) as Hb.
    { unfold renumber_bound. rewrite Hd. replace (filter (λ r, fr_id r ∈ []) t') with (@nil FrameRow); [done|].
      clear. induction t' as [|r t' IH]; [done|]. rewrite filter_cons_False by apply not_elem_of_nil. done. }
    rewrite Hb. eexists _, _. split; [done|]. split_and!; [by eapply renumbered_ordered, bound_covers|by apply renumbered_wf|apply reindex_same| |].
    + intros Ho. destruct He as [(r & r' & Hi & _) _]. by destruct (Ho r r').
    + intros q Hq'. apply of_project_reindex. intros r Hr Hp. apply targets_None; [apply Hwf|done|]. intros [Hp' _]. congruence.
  - exists t', 0. by split_and!.
Qed.

(** The order is repaired after a change.  After an upload, an edit or an offset of a
    project that was in order, the repair ends without a clash, changes nothing but
    indexes of that project, and leaves it in order; a project that is still in order is not
    written to. *)
Theorem order_restored p frame_ids t t' :
  table_wf t' →
  match frame_ids with Some ids => ordered p t ∧ moved_at_most p ids t t' | None => True end →
  ∃ t'' n, restore_project_order visit p frame_ids t' = Some (Ok (t'', n)) ∧
    ordered p t'' ∧ table_wf t'' ∧ same_but_index t' t'' ∧
    (ordered p t' → t'' = t') ∧ ∀ q, q ≠ p → of_project q t'' = of_project q t'.
Proof using visit_perm. apply restore_spec. Qed.
End repair.

(** ** What a session does to the frames *)
Inductive edit_step (contained : Z → string → option string) : FrameSession → FrameSession → Prop :=
  | e_soft_delete s id actor s' : soft_delete id actor s = Ok s' → edit_step contained s s'
  | e_restore s id actor s' : restore id actor s = Ok s' → edit_step contained s s'
  | e_exclude s now id actor s' : exclude now id actor s = Ok s' → edit_step contained s s'
  | e_include s id actor s' : include id actor s = Ok s' → edit_step contained s s'
  | e_edit s id ts actor s' : edit_capture_timestamp id ts actor s = Ok s' → edit_step contained s s'
  | e_soft_delete_many s ids actor : edit_step contained s (soft_delete_many ids actor s).2
  | e_restore_many s ids actor : edit_step contained s (restore_many ids actor s).2
  | e_exclude_many s now ids actor : edit_step contained s (exclude_many now ids actor s).2
  | e_include_many s ids actor : edit_step contained s (include_many ids actor s).2
  | e_offset s ids seconds actor : edit_step contained s (offset_timestamps_many ids seconds actor s).2
  | e_delete s id actor files s' files' :
      permanent_delete contained id actor true (s, files) = Ok (s', files') → edit_step contained s s'.

(** The marks of a session name every frame it moved. *)
Definition marked (dirty : gmap Z (option (gset Z))) (r : FrameRow) : Prop :=
  match dirty !! fr_project r with
  | Some (Some ids) => fr_id r ∈ ids
  | Some None => True
  | None => False
  end.
Definition tracked (t : frames) (s : FrameSession) : Prop :=
  ∀ r, r ∈ ss_frames s → marked (ss_order_dirty s) r ∨ ∃ r0, r0 ∈ t ∧ same_place r r0.

Lemma marked_mono p id dirty r s :
  marked (ss_order_dirty s) r → dirty = ss_order_dirty (mark_order_dirty p (Some id) s) → marked dirty r.
Proof.
  intros Hm ->. unfold marked, mark_order_dirty in *. cbn. destruct (decide (p = fr_project r)) as [->|Hne].
  - rewrite lookup_insert_eq. destruct (ss_order_dirty s !! fr_project r) as [[ids|]|]; cbn; [set_solver|done|done].
  - by rewrite lookup_insert_ne.
Qed.

Lemma marked_here p id s r : fr_project r = p → fr_id r = id → marked (ss_order_dirty (mark_order_dirty p (Some id) s)) r.
Proof.
  intros <- <-. unfold marked, mark_order_dirty. cbn. rewrite lookup_insert_eq.
  destruct (ss_order_dirty s !! fr_project r) as [[ids|]|]; cbn; [set_solver|done|set_solver].
Qed.

Lemma elem_of_modify id f t r' : r' ∈ modify id f t ↔ ∃ r, r ∈ t ∧ r' = if decide (fr_id r = id) then f r else r.
Proof. unfold modify. rewrite list_elem_of_fmap. naive_solver. Qed.

Lemma same_place_trans a b c : same_place a b → same_place b c → same_place a c.
Proof. unfold same_place. intuition congruence. Qed.
Lemma same_place_refl a : same_place a a.
Proof. done. Qed.

(** A change that leaves its row in place needs no mark. *)
Lemma tracked_modify t id f s s' :
  (∀ r, same_place (f r) r) → ss_frames s' = modify id f (ss_frames s) → ss_order_dirty s' = ss_order_dirty s →
  tracked t s → tracked t s'.
Proof.
  intros Hf Hfr Hd Ht r'. rewrite Hfr, Hd. intros (r & Hr & ->)%elem_of_modify.
  assert (same_place (if decide (fr_id r = id) then f r else r) r) as Hs by (case_decide; [apply Hf|done]).
  destruct (Ht r Hr) as [Hm|(r0 & Hr0 & Hs0)]; [left|right; exists r0; split; [done|by eapply same_place_trans]].
  unfold marked in *. destruct Hs as (-> & -> & _). done.
Qed.

(** A new timestamp marks its row. *)
Lemma tracked_retime t id v p s :
  (∀ r, r ∈ ss_frames s → fr_id r = id → fr_project r = p) →
  tracked t s → tracked t (mark_order_dirty p (Some id) (on_frames (modify id (set_ts v)) s)).
Proof.
  intros Hp Ht r' (r & Hr & ->)%elem_of_modify. case_decide as Hid.
  - left. apply marked_here; cbn; [by apply Hp|done].
  - destruct (Ht r Hr) as [Hm|Hs]; [left|by right]. by apply (marked_mono p id _ r (on_frames (modify id (set_ts v)) s)).
Qed.

(** ** Well-formed tables stay so *)
Lemma modify_ids id f t : (∀ r, fr_id (f r) = fr_id r) → fr_id <$> modify id f t = fr_id <$> t.
Proof.
  intros Hf. unfold modify. rewrite <-list_fmap_compose. apply list_fmap_ext. intros i r _. cbn. case_decide; [apply Hf|done].
Qed.

Lemma modify_wf id f t :
  (∀ r, fr_id (f r) = fr_id r ∧ fr_project (f r) = fr_project r ∧ fr_seq (f r) = fr_seq r) → table_wf t → table_wf (modify id f t).
Proof.
  intros Hf Hwf. constructor.
  - rewrite modify_ids; [apply Hwf|]. intros r. apply Hf.
  - intros y y' (r & Hr & ->)%elem_of_modify (r' & Hr' & ->)%elem_of_modify Hp Hs.
    destruct (Hf r) as (H1 & H2 & H3), (Hf r') as (H1' & H2' & H3').
    assert (r = r') as -> by (apply (wf_unique t Hwf); repeat case_decide; congruence). done.
  - intros y (r & Hr & ->)%elem_of_modify. pose proof (wf_pos t Hwf r Hr). destruct (Hf r) as (_ & _ & H3). case_decide; lia.
Qed.

Lemma filter_wf (P : FrameRow → Prop) `{!∀ r, Decision (P r)} t : table_wf t → table_wf (filter P t).
Proof.
  intros Hwf. constructor.
  - apply (NoDup_ids_sub _ t); [apply Hwf|by apply NoDup_filter, NoDup_table, Hwf|]. intros r [_ Hr]%list_elem_of_filter. done.
  - intros r r' [_ Hr]%list_elem_of_filter [_ Hr']%list_elem_of_filter. by apply Hwf.
  - intros r [_ Hr]%list_elem_of_filter. by apply Hwf.
Qed.

(** The loop of a bulk operation, one row at a time. *)
Definition keeps_place (t : frames) (s s' : FrameSession) : Prop :=
  table_wf (ss_frames s) → tracked t s → table_wf (ss_frames s') ∧ tracked t s'.

Lemma apply_one_keeps t found mutate action active actor acc id :
  (∀ r, same_place (mutate r) r) →
  keeps_place t acc.1.2 (apply_one found mutate action active actor acc id).1.2.
Proof.
  intros Hm Hwf Ht. destruct acc as [[res s] evs]. cbn [apply_one fst snd] in *.
  destruct (if decide (id ∈ found) then get_row id (ss_frames s) else None) as [r|]; [|done]. cbn [fst snd]. split.
  - destruct active; cbn; (apply modify_wf; [|done]); intros x; destruct (Hm x) as (? & ? & ? & _); done.
  - destruct active; by eapply (tracked_modify t id mutate s).
Qed.

Lemma foldl_keeps {A B} (P : A → Prop) (f : A → B → A) (l : list B) a :
  (∀ a b, P a → P (f a b)) → P a → P (foldl f a l).
Proof. intros Hf. revert a. induction l as [|b l IH]; intros a Ha; [done|]. cbn. apply IH. by apply Hf. Qed.

Lemma apply_many_keeps t ids actor mutate action active s :
  (∀ r, same_place (mutate r) r) → keeps_place t s (apply_many ids actor mutate action active s).2.
Proof.
  intros Hm Hwf Ht. unfold apply_many.
  pose proof (foldl_keeps (λ acc : BulkResult * FrameSession * list AuditRow, table_wf (ss_frames acc.1.2) ∧ tracked t acc.1.2)
    (apply_one (load_frames_by_id (ss_frames s) ids) mutate action active actor) ids (MkBulk [] [], s, [])) as Hk.
  destruct (foldl _ _ ids) as [[res s'] evs]. cbn [fst snd] in *. apply Hk; [|done].
  intros a b [? ?]. by apply apply_one_keeps.
Qed.

Lemma offset_one_keeps t found seconds actor acc id :
  keeps_place t acc.1.2 (offset_one found seconds actor acc id).1.2.
Proof.
  intros Hwf Ht. destruct acc as [[res s] evs]. cbn [offset_one fst snd] in *.
  destruct (if decide (id ∈ found) then get_row id (ss_frames s) else None) as [r|] eqn:Hg; [|done].
  destruct (fr_ts r) as [ts|]; [|done]. cbn [fst snd]. split.
  - cbn. by apply modify_wf.
  - apply tracked_retime; [|done]. intros x Hx Hid. destruct (decide (id ∈ found)); [|done].
    apply get_row_spec in Hg as [Hr Hri]; [|apply Hwf]. by rewrite (NoDup_ids_eq (ss_frames s) x r) by (congruence || apply Hwf).
Qed.

Lemma offset_many_keeps t ids seconds actor s : keeps_place t s (offset_timestamps_many ids seconds actor s).2.
Proof.
  intros Hwf Ht. unfold offset_timestamps_many.
  pose proof (foldl_keeps (λ acc : OffsetResult * FrameSession * list AuditRow, table_wf (ss_frames acc.1.2) ∧ tracked t acc.1.2)
    (offset_one (load_frames_by_id (ss_frames s) ids) seconds actor) ids (MkOffset [] [] [], s, [])) as Hk.
  destruct (foldl _ _ ids) as [[res s'] evs]. cbn [fst snd] in *. apply Hk; [|done].
  intros a b [? ?]. by apply offset_one_keeps.
Qed.

Lemma edit_step_keeps contained t s s' : edit_step contained s s' → keeps_place t s s'.
Proof.
  intros Hs Hwf Ht.
  destruct Hs as [s id actor s' Ho|s id actor s' Ho|s now id actor s' Ho|s id actor s' Ho|s id ts actor s' Ho|
                  s ids actor|s ids actor|s now ids actor|s ids actor|s ids seconds actor|s id actor files s' files' Ho].
  1-4: unfold soft_delete, restore, exclude, include, get_frame in Ho;
    destruct (get_row id (ss_frames s)) as [r|]; [|done]; injection Ho as <-;
    (split; [cbn; by apply modify_wf|eapply (tracked_modify t id _ s); [|reflexivity|reflexivity|done]; done]).
  - unfold edit_capture_timestamp, get_frame in Ho. destruct (get_row id (ss_frames s)) as [r|] eqn:Hg; [|done]. injection Ho as <-.
    apply get_row_spec in Hg as [Hr Hri]; [|apply Hwf]. split; [cbn; by apply modify_wf|].
    apply (tracked_retime t id (Some ts) (fr_project r) s); [|done].
    intros x Hx Hid. by rewrite (NoDup_ids_eq (ss_frames s) x r) by (congruence || apply Hwf).
  - by apply apply_many_keeps.
  - by apply apply_many_keeps.
  - by apply apply_many_keeps.
  - by apply apply_many_keeps.
  - by apply offset_many_keeps.
  - unfold permanent_delete, get_frame in Ho. cbn [negb] in Ho. destruct (get_row id (ss_frames s)) as [r|]; [|done].
    injection Ho as <- _. split; [cbn; by apply filter_wf|]. intros x [_ Hx]%list_elem_of_filter. by apply Ht.
Qed.

Lemma edits_keep contained t s s' : rtc (edit_step contained) s s' → keeps_place t s s'.
Proof.
  induction 1 as [|x y z Hxy _ IH]; [by intros ? ?|]. intros Hwf Ht. destruct (edit_step_keeps contained t x y Hxy Hwf Ht). by apply IH.
Qed.

(** ** The commit hook *)
Section commit.
Context (visit : frames → frames) (visit_perm : ∀ l, visit l ≡ₚ l).

(** Every project of the table was in order at [t0], or is still to be repaired. *)
Definition repairable (t0 : frames) (dirty : gmap Z (option (gset Z))) (todo : list Z) (t : frames) : Prop :=
  ∀ p, (p ∈ todo ∧ match dirty !! p with Some (Some ids) => moved_at_most p (elements ids) t0 t | _ => True end) ∨ ordered p t.

Lemma moved_project p ids t0 t t' : of_project p t' = of_project p t → moved_at_most p ids t0 t → moved_at_most p ids t0 t'.
Proof using. unfold moved_at_most. by intros ->. Qed.

Lemma commit_repairs t0 dirty todo t :
  (∀ p, ordered p t0) → table_wf t → repairable t0 dirty todo t →
  let t' := foldl (λ t p,
           match restore_project_order visit p (elements <$> default None (dirty !! p)) t with
           | Some (Ok (t', _)) => t'
           | _ => t
           end) t todo in
  (∀ p, ordered p t') ∧ table_wf t' ∧ same_but_index t t'.
Proof using visit_perm.
  intros Hord. revert t. induction todo as [|p todo IH]; intros t Hwf Hrep; cbn [foldl].
  { split_and!; [|done|].
    - intros p. destruct (Hrep p) as [[?%elem_of_nil _]|?]; done.
    - apply Forall_Forall2_diag, Forall_forall. intros r _. exists (fr_seq r). by destruct r. }
  assert (∃ t1 n, restore_project_order visit p (elements <$> default None (dirty !! p)) t = Some (Ok (t1, n)) ∧
    ordered p t1 ∧ table_wf t1 ∧ same_but_index t t1 ∧ ∀ q, q ≠ p → of_project q t1 = of_project q t) as (t1 & n & Heq & Ho1 & Hwf1 & Hsame & Hother).
  { destruct (Hrep p) as [[_ Hm]|Ho].
    - destruct (restore_spec visit visit_perm p (elements <$> default None (dirty !! p)) t0 t Hwf) as (t1 & n & Heq & ? & ? & ? & _ & ?); [|by exists t1, n].
      destruct (dirty !! p) as [[ids|]|]; cbn; [by split|done|done].
    - destruct (restore_spec visit visit_perm p (elements <$> default None (dirty !! p)) t t Hwf) as (t1 & n & Heq & ? & ? & ? & _ & ?); [|by exists t1, n].
      destruct (dirty !! p) as [[ids|]|]; cbn; [|done|done]. split; [done|]. intros r Hr _. exists r. done. }
  rewrite Heq. destruct (IH t1 Hwf1) as (Hall & Hwf2 & Hsame2).
  { intros q. destruct (decide (q = p)) as [->|Hne]; [by right|]. destruct (Hrep q) as [[[->|Hin]%elem_of_cons Hm]|Ho]; [done| |].
    - left. split; [done|]. destruct (dirty !! q) as [[ids|]|]; [|done|done]. by eapply moved_project; [apply Hother|].
    - right. by eapply ordered_project; [apply Hother|]. }
  split_and!; [done|done|]. unfold same_but_index in *. revert Hsame Hsame2. generalize (foldl (λ t p, match restore_project_order visit p (elements <$> default None (dirty !! p)) t with Some (Ok (t', _)) => t' | _ => t end) t1 todo).
  clear. intros t2 H1. revert t2. induction H1 as [|x y t t1 [v ->] _ IH]; intros t2 H2; [by inversion H2|].
  inversion H2 as [|? z ? l [w ->] Hl]; subst. constructor; [by exists w|by apply IH].
Qed.

(** C13: editing keeps the browse order.  A session may soft-delete, restore, exclude,
    include, delete, re-time and shift frames one by one or in selections, with repeated and
    unknown ids; when it commits, the repair that follows leaves every project in order, and
    differs from what the session wrote in nothing but indexes. *)
Theorem edits_keep_browse_order contained s s' :
  table_wf (ss_frames s) → (∀ p, ordered p (ss_frames s)) → ss_order_dirty s = ∅ →
  rtc (edit_step contained) s s' →
  let t' := restore_order_after_commit visit (ss_order_dirty s') (ss_frames s') in
  (∀ p, ordered p t') ∧ table_wf t' ∧ same_but_index (ss_frames s') t'.
Proof using visit_perm.
  intros Hwf Hord Hclean Hrun. destruct (edits_keep contained (ss_frames s) s s' Hrun Hwf) as [Hwf' Htr].
  { intros r Hr. right. by exists r. }
  apply (commit_repairs (ss_frames s)); [done|done|]. intros p.
  assert (p ∈ merge_sort Z.le (map_to_list (ss_order_dirty s')).*1 ↔ is_Some (ss_order_dirty s' !! p)) as Hin.
  { rewrite merge_sort_Permutation, list_elem_of_fmap. split.
    - intros ([q m] & -> & Hm%elem_of_map_to_list). by exists m.
    - intros [m Hm]. exists (p, m). split; [done|]. by apply elem_of_map_to_list. }
  destruct (ss_order_dirty s' !! p) as [[ids|]|] eqn:Hd.
  - left. split; [apply Hin; by eexists|]. intros r [Hr Hp]%elem_of_project Hn.
    destruct (Htr r Hr) as [Hm|(r0 & Hr0 & Hs)].
    + unfold marked in Hm. rewrite Hp, Hd in Hm. by apply elem_of_elements in Hm.
    + exists r0. split; [|done]. apply elem_of_project. split; [done|]. destruct Hs as (_ & Hp0 & _). congruence.
  - left. split; [apply Hin; by eexists|done].
  - right. intros x y ([Hx Hpx]%elem_of_project & [Hy Hpy]%elem_of_project & Hlt & Hb).
    assert (∀ r, r ∈ ss_frames s' → fr_project r = p → ∃ r0, r0 ∈ of_project p (ss_frames s) ∧ same_place r r0) as Hold.
    { intros r Hr Hp. destruct (Htr r Hr) as [Hm|(r0 & Hr0 & Hs)].
      - unfold marked in Hm. by rewrite Hp, Hd in Hm.
      - exists r0. split; [|done]. apply elem_of_project. split; [done|]. destruct Hs as (_ & Hp0 & _). congruence. }
    destruct (Hold x Hx Hpx) as (x0 & Hx0 & Hsx), (Hold y Hy Hpy) as (y0 & Hy0 & Hsy).
    apply (Hord p x0 y0). split_and!; [done|done| |by rewrite <-(breaks_same_place x x0 y y0)].
    destruct Hsx as (_ & _ & <- & _), Hsy as (_ & _ & <- & _). done.
Qed.
End commit.

(** ** Selections *)
Lemma chunks_of_join {A} fuel n (l : list A) : (0 < n)%nat → (length l ≤ fuel)%nat → mjoin (chunks_of fuel n l) = l.
Proof.
  intros Hn. revert l. induction fuel as [|fuel IH]; intros l Hl; [by destruct l; [|cbn in Hl; lia]|].
  destruct l as [|x l]; [done|]. cbn [chunks_of mjoin list_join]. rewrite IH; [apply take_drop|].
  rewrite length_drop. cbn in *. lia.
Qed.

Lemma elem_of_distinct_from seen l x : x ∈ distinct_from seen l ↔ x ∈ l ∧ x ∉ seen.
Proof.
  revert seen. induction l as [|y l IH]; intros seen; cbn; [set_solver|]. case_decide; rewrite ?elem_of_cons, IH; [set_solver|].
  destruct (decide (x = y)); set_solver.
Qed.

Lemma elem_of_load t ids id : id ∈ load_frames_by_id t ids ↔ id ∈ ids ∧ ∃ r, r ∈ t ∧ fr_id r = id.
Proof.
  unfold load_frames_by_id.
  assert (∀ chunks (acc : gset Z), id ∈ foldl (λ found chunk, foldl (λ found r, {[fr_id r]} ∪ found) found (filter (λ r, fr_id r ∈ chunk) t)) acc chunks
    ↔ id ∈ acc ∨ (id ∈ mjoin chunks ∧ ∃ r, r ∈ t ∧ fr_id r = id)) as Hfold.
  { assert (∀ l (acc : gset Z), id ∈ foldl (λ found r, {[fr_id r]} ∪ found) acc l ↔ id ∈ acc ∨ ∃ r, r ∈ l ∧ fr_id r = id) as Hone.
    { induction l as [|r l IH]; intros acc; cbn; [set_solver|]. rewrite IH. set_solver. }
    induction chunks as [|c chunks IH]; intros acc; cbn; [set_solver|]. rewrite IH, Hone.
    setoid_rewrite list_elem_of_filter. setoid_rewrite elem_of_app. naive_solver. }
  rewrite Hfold. unfold slices. rewrite chunks_of_join by (done || unfold LOAD_CHUNK; lia).
  unfold distinct. rewrite elem_of_distinct_from. set_solver.
Qed.

Definition has_row (t : frames) (id : Z) : Prop := id ∈ fr_id <$> t.
#[export] Instance has_row_dec t id : Decision (has_row t id).
Proof. unfold has_row. apply _. Defined.

Lemma get_row_dec t id : (∃ r, get_row id t = Some r ∧ has_row t id) ∨ (get_row id t = None ∧ ¬ has_row t id).
Proof.
  unfold has_row. destruct (get_row id t) as [r|] eqn:Hg.
  - left. exists r. split; [done|]. unfold get_row in Hg. apply fmap_Some in Hg as ([i x] & (Hx & Hid & _)%list_find_Some & ->).
    rewrite <-Hid. by eapply list_elem_of_fmap_2, list_elem_of_lookup_2.
  - right. split; [done|]. intros (r & -> & Hr)%list_elem_of_fmap. by apply (proj1 (get_row_None t _) Hg r).
Qed.

(** One frame after the other, unknown ones skipped. *)
Definition one_by_one (op : Z → FrameSession → result FrameSession) (ids : list Z) (s : FrameSession) : FrameSession :=
  foldl (λ s id, match op id s with Ok s' => s' | Raise _ => s end) s ids.

Definition single (mutate : FrameRow → FrameRow) (action : string) (active : bool) (actor id : Z) (s : FrameSession)
    : result FrameSession :=
  r ← get_frame id s;
  Ok (add_audit [frame_event r action actor]
        (let s := on_frames (modify id mutate) s in
         if active then mark_dimensions_dirty (fr_project r) s else s)).

Lemma apply_many_loop found mutate action active actor ids acc t0 :
  (∀ r, fr_id (mutate r) = fr_id r) →
  (∀ id, id ∈ ids → id ∈ found ↔ has_row t0 id) → fr_id <$> ss_frames acc.1.2 = fr_id <$> t0 →
  let fin := foldl (apply_one found mutate action active actor) acc ids in
  add_audit fin.2 fin.1.2 = one_by_one (single mutate action active actor) ids (add_audit acc.2 acc.1.2) ∧
  br_succeeded fin.1.1 = br_succeeded acc.1.1 ++ filter (has_row t0) ids ∧
  br_failed fin.1.1 = br_failed acc.1.1 ++ filter (λ id, ¬ has_row t0 id) ids.
Proof.
  intros Hm. revert acc. induction ids as [|id ids IH]; intros [[res s] evs] Hfound Hids; cbn [foldl].
  { cbn. by rewrite !app_nil_r. }
  cbn [fst snd] in Hids.
  assert (fr_id <$> ss_frames (apply_one found mutate action active actor (res, s, evs) id).1.2 = fr_id <$> t0) as Hids'.
  { cbn. destruct (if decide (id ∈ found) then _ else _); [|done]. destruct active; cbn; by rewrite modify_ids. }
  specialize (IH (apply_one found mutate action active actor (res, s, evs) id) (λ i Hi, Hfound i (list_elem_of_further _ _ _ Hi)) Hids').
  destruct IH as (Hs & Hok & Hfail). cbn zeta in *. rewrite Hs, Hok, Hfail. rewrite !filter_cons.
  assert (has_row (ss_frames s) id ↔ has_row t0 id) as Hrow by (unfold has_row; by rewrite Hids).
  specialize (Hfound id (list_elem_of_here _ _)). cbn [apply_one].
  destruct (get_row_dec (ss_frames s) id) as [(r & Hg & Hr)|[Hg Hr]]; rewrite Hg.
  - rewrite decide_True by tauto. rewrite (decide_True (P := has_row t0 id)) by tauto.
    rewrite (decide_False (P := ¬ has_row t0 id)) by tauto. cbn [fst snd br_succeeded br_failed mbind result_bind]. split_and!; [|by rewrite <-app_assoc|done].
    unfold one_by_one. cbn [foldl]. f_equal. unfold single, get_frame. cbn [ss_frames add_audit]. rewrite Hg. cbn [mbind result_bind].
    unfold add_audit. destruct active; cbn; by rewrite app_assoc.
  - rewrite decide_False by tauto. rewrite (decide_False (P := has_row t0 id)) by tauto.
    rewrite (decide_True (P := ¬ has_row t0 id)) by tauto. cbn [fst snd br_succeeded br_failed mbind result_bind]. split_and!; [|done|by rewrite <-app_assoc].
    unfold one_by_one. cbn [foldl]. f_equal. unfold single, get_frame. cbn [ss_frames add_audit]. by rewrite Hg.
Qed.

Lemma apply_many_spec ids actor mutate action active s :
  (∀ r, fr_id (mutate r) = fr_id r) →
  let fin := apply_many ids actor mutate action active s in
  fin.2 = one_by_one (single mutate action active actor) ids s ∧
  br_succeeded fin.1 = filter (has_row (ss_frames s)) ids ∧ br_failed fin.1 = filter (λ id, ¬ has_row (ss_frames s) id) ids.
Proof.
  intros Hm. unfold apply_many.
  pose proof (apply_many_loop (load_frames_by_id (ss_frames s) ids) mutate action active actor ids (MkBulk [] [], s, []) (ss_frames s) Hm) as H.
  destruct (foldl _ _ ids) as [[res s'] evs]. cbn [fst snd br_succeeded br_failed app] in *. destruct H as (Hs & Hok & Hfail); [|done|].
  - intros id Hid. rewrite elem_of_load. unfold has_row. rewrite list_elem_of_fmap. naive_solver.
  - split_and!; [|done|done]. rewrite Hs. f_equal. unfold add_audit. rewrite app_nil_r. by destruct s.
Qed.

(** A bulk action is its single action on each frame.  Soft-deleting, restoring,
    excluding or including a selection has the effect, the audit rows and the marks of doing
    it to one id after the other, skipping the unknown ones; the report divides the request
    into the known and the unknown ids, in order. *)
Theorem bulk_is_one_by_one ids actor now s :
  let known := filter (has_row (ss_frames s)) ids in
  let unknown := filter (λ id, ¬ has_row (ss_frames s) id) ids in
  soft_delete_many ids actor s = (MkBulk known unknown, one_by_one (λ id, soft_delete id actor) ids s) ∧
  restore_many ids actor s = (MkBulk known unknown, one_by_one (λ id, restore id actor) ids s) ∧
  exclude_many now ids actor s = (MkBulk known unknown, one_by_one (λ id, exclude now id actor) ids s) ∧
  include_many ids actor s = (MkBulk known unknown, one_by_one (λ id, include id actor) ids s).
Proof.
  intros known unknown.
  assert (∀ mutate action active, (∀ r, fr_id (mutate r) = fr_id r) →
    apply_many ids actor mutate action active s = (MkBulk known unknown, one_by_one (single mutate action active actor) ids s)) as Hgen.
  { intros mutate action active Hm. destruct (apply_many_spec ids actor mutate action active s Hm) as (H1 & H2 & H3).
    destruct (apply_many ids actor mutate action active s) as [[a b] s']. cbn in *. by subst. }
  split_and!; apply Hgen; done.
Qed.

(** ** Offsets *)
Definition occurrences (id : Z) (ids : list Z) : Z := Z.of_nat (length (filter (λ x, x = id) ids)).
Definition shift_by (f : Z → Z) (t : frames) : frames := (λ r, set_ts ((λ x, x + f (fr_id r)) <$> fr_ts r) r) <$> t.

Lemma shift_by_ids f t : fr_id <$> shift_by f t = fr_id <$> t.
Proof. unfold shift_by. by rewrite <-list_fmap_compose. Qed.

Lemma shift_by_compose f g t : shift_by f (shift_by g t) = shift_by (λ i, g i + f i) t.
Proof.
  unfold shift_by. rewrite <-list_fmap_compose. apply list_fmap_ext. intros i r _. cbn. unfold set_ts. cbn.
  destruct (fr_ts r); cbn; [|done]. by rewrite Z.add_assoc.
Qed.

Lemma shift_by_ext f g t :
  (∀ r, r ∈ t → fr_ts r ≠ None → f (fr_id r) = g (fr_id r)) → shift_by f t = shift_by g t.
Proof.
  intros Hfg. unfold shift_by. apply list_fmap_ext. intros i r Hr%list_elem_of_lookup_2. cbn. destruct (fr_ts r) eqn:Ht; [|done]. cbn.
  rewrite Hfg; [done|done|by rewrite Ht].
Qed.

Lemma shift_by_zero t : shift_by (λ _, 0) t = t.
Proof.
  unfold shift_by. rewrite <-(list_fmap_id t) at 2. apply list_fmap_ext. intros i r _. unfold set_ts. destruct r as [? ? ? ts]. cbn.
  destruct ts; cbn; [|done]. by rewrite Z.add_0_r.
Qed.

Definition timed (t : frames) (id : Z) : Prop := Exists (λ r, fr_id r = id ∧ fr_ts r ≠ None) t.
#[export] Instance timed_dec t id : Decision (timed t id).
Proof. unfold timed. apply _. Defined.

Lemma timed_row t r : NoDup (fr_id <$> t) → r ∈ t → timed t (fr_id r) ↔ fr_ts r ≠ None.
Proof.
  intros Hn Hr. unfold timed. rewrite Exists_exists. split; [|by exists r].
  intros (r' & Hr' & Hid & Hts). by rewrite (NoDup_ids_eq t r r').
Qed.

Lemma occurrences_cons id x l : occurrences id (x :: l) = (if decide (x = id) then 1 else 0) + occurrences id l.
Proof. unfold occurrences. rewrite filter_cons. case_decide; cbn [length]; lia. Qed.

(** One more shift of one row. *)
Lemma shift_one t f id d r ts :
  NoDup (fr_id <$> t) → r ∈ t → fr_id r = id → fr_ts r = Some ts →
  modify id (set_ts (Some (ts + f (fr_id r) + d))) (shift_by f t) = shift_by (λ i, f i + if decide (i = id) then d else 0) t.
Proof.
  intros Hn Hr Hid Hts. unfold modify, shift_by. rewrite <-list_fmap_compose.
  apply list_fmap_ext. intros i x Hx%list_elem_of_lookup_2. cbn. destruct (decide (fr_id x = id)) as [He|He].
  - assert (x = r) as -> by (apply (NoDup_ids_eq t); [done|done|done|congruence]). rewrite Hts. cbn. unfold set_ts. cbn. do 2 f_equal. lia.
  - by rewrite Z.add_0_r.
Qed.

Lemma offset_loop found seconds actor ids acc t0 f :
  NoDup (fr_id <$> t0) → (∀ id, id ∈ ids → id ∈ found ↔ has_row t0 id) → ss_frames acc.1.2 = shift_by f t0 →
  let fin := foldl (offset_one found seconds actor) acc ids in
  ss_frames fin.1.2 = shift_by (λ id, f id + seconds * SECOND * occurrences id ids) t0 ∧
  of_shifted fin.1.1 = of_shifted acc.1.1 ++ filter (timed t0) ids ∧
  of_skipped_null fin.1.1 = of_skipped_null acc.1.1 ++ filter (λ id, has_row t0 id ∧ ¬ timed t0 id) ids ∧
  of_failed fin.1.1 = of_failed acc.1.1 ++ filter (λ id, ¬ has_row t0 id) ids.
Proof.
  intros Hn. revert acc f. induction ids as [|id ids IH]; intros [[res s] evs] f Hfound Hfr; cbn [foldl].
  { cbn [fst snd] in *. rewrite !app_nil_r. split_and!; [|done..]. rewrite Hfr. apply shift_by_ext. intros r _ _. unfold occurrences. cbn. lia. }
  cbn [fst snd] in Hfr.
  pose proof (Hfound id (list_elem_of_here _ _)) as Hid.
  specialize (λ acc f, IH acc f (λ i Hi, Hfound i (list_elem_of_further _ _ _ Hi))). cbn zeta in IH |- *.
  assert (has_row (ss_frames s) id ↔ has_row t0 id) as Hrow by (unfold has_row; by rewrite Hfr, shift_by_ids).
  rewrite !filter_cons. cbn [offset_one].
  destruct (get_row_dec (ss_frames s) id) as [(r & Hg & Hr)|[Hg Hr]]; rewrite Hg.
  - rewrite decide_True by tauto. apply get_row_spec in Hg as [Hin Hri]; [|by rewrite Hfr, shift_by_ids].
    rewrite Hfr in Hin. unfold shift_by in Hin. apply list_elem_of_fmap in Hin as (r0 & -> & Hr0).
    assert (timed t0 id ↔ fr_ts r0 ≠ None) as Ht0 by (rewrite <-Hri; by apply (timed_row t0 r0)).
    cbn [fr_ts set_ts fr_id] in *. destruct (fr_ts r0) as [ts|] eqn:Hts; cbn [fmap option_fmap option_map].
    + destruct (IH (MkOffset (of_shifted res ++ [id]) (of_skipped_null res) (of_failed res),
        mark_order_dirty (fr_project r0) (Some id) (on_frames (modify id (set_ts (Some (ts + f (fr_id r0) + seconds * SECOND)))) s),
        evs ++ [MkAudit (fr_project r0) false id "edit_capture_timestamp" (Some (ts + f (fr_id r0))) (Some (ts + f (fr_id r0) + seconds * SECOND)) (Some seconds) actor])
        (λ i, f i + if decide (i = id) then seconds * SECOND else 0)) as (H1 & H2 & H3 & H4).
      { cbn [fst snd ss_frames mark_order_dirty on_frames]. rewrite Hfr. by apply shift_one. }
      cbn [fst snd of_shifted of_skipped_null of_failed set_ts fr_project] in *. rewrite H1, H2, H3, H4.
      rewrite (decide_True (P := timed t0 id)) by (by apply Ht0). rewrite (decide_False (P := has_row t0 id ∧ ¬ timed t0 id)) by (intros [_ []]; by apply Ht0).
      rewrite (decide_False (P := ¬ has_row t0 id)) by tauto. split_and!; [|by rewrite <-app_assoc|done|done].
      apply shift_by_ext. intros x _ _. rewrite occurrences_cons. destruct (decide (fr_id x = id)), (decide (id = fr_id x)); try congruence; lia.
    + destruct (IH (MkOffset (of_shifted res) (of_skipped_null res ++ [id]) (of_failed res), s, evs) f Hfr) as (H1 & H2 & H3 & H4).
      cbn [fst snd of_shifted of_skipped_null of_failed] in *. rewrite H1, H2, H3, H4.
      rewrite (decide_False (P := timed t0 id)) by (intros ?%Ht0; done). rewrite (decide_True (P := has_row t0 id ∧ ¬ timed t0 id)) by (split; [tauto|intros ?%Ht0; done]).
      rewrite (decide_False (P := ¬ has_row t0 id)) by tauto. split_and!; [|done|by rewrite <-app_assoc|done].
      apply shift_by_ext. intros x Hx Hxt. rewrite occurrences_cons. rewrite decide_False; [lia|]. intros ->.
      cbn in Hri. apply Hxt. rewrite (NoDup_ids_eq t0 x r0); [done..|congruence].
  - rewrite decide_False by tauto.
    destruct (IH (MkOffset (of_shifted res) (of_skipped_null res) (of_failed res ++ [id]), s, evs) f Hfr) as (H1 & H2 & H3 & H4).
    cbn [fst snd of_shifted of_skipped_null of_failed] in *. rewrite H1, H2, H3, H4.
    assert (¬ timed t0 id) as Hnt.
    { unfold timed. intros (r & Hr0 & Hri & _)%Exists_exists. apply Hr, Hrow. unfold has_row. rewrite <-Hri. by apply list_elem_of_fmap_2. }
    rewrite (decide_False (P := timed t0 id)) by done. rewrite (decide_False (P := has_row t0 id ∧ ¬ timed t0 id)) by tauto.
    rewrite (decide_True (P := ¬ has_row t0 id)) by tauto. split_and!; [|done|done|by rewrite <-app_assoc].
    apply shift_by_ext. intros x Hx _. rewrite occurrences_cons. rewrite decide_False; [lia|]. intros ->.
    apply Hr, Hrow. unfold has_row. by apply list_elem_of_fmap_2.
Qed.

Lemma offset_spec ids seconds actor s :
  NoDup (fr_id <$> ss_frames s) →
  let fin := offset_timestamps_many ids seconds actor s in
  ss_frames fin.2 = shift_by (λ id, seconds * SECOND * occurrences id ids) (ss_frames s) ∧
  fin.1 = MkOffset (filter (timed (ss_frames s)) ids) (filter (λ id, has_row (ss_frames s) id ∧ ¬ timed (ss_frames s) id) ids)
            (filter (λ id, ¬ has_row (ss_frames s) id) ids).
Proof.
  intros Hn. unfold offset_timestamps_many.
  destruct (offset_loop (load_frames_by_id (ss_frames s) ids) seconds actor ids (MkOffset [] [] [], s, []) (ss_frames s) (λ _, 0)) as (H1 & H2 & H3 & H4).
  - done.
  - intros id Hid. rewrite elem_of_load. unfold has_row. rewrite list_elem_of_fmap. naive_solver.
  - by rewrite shift_by_zero.
  - destruct (foldl _ _ ids) as [[res s'] evs]. cbn [fst snd of_shifted of_skipped_null of_failed app] in *. split; [exact H1|].
    destruct res. cbn in *. by subst.
Qed.

(** An offset can be undone.  Shifting a selection divides the request into shifted,
    untimed and unknown ids; shifting what it reports as shifted back by the same amount
    restores every timestamp, also when an id was named more than once, and shifts exactly
    those frames. *)
Theorem offset_roundtrip ids seconds actor actor' s :
  NoDup (fr_id <$> ss_frames s) →
  let out := offset_timestamps_many ids seconds actor s in
  let back := offset_timestamps_many (of_shifted out.1) (- seconds) actor' out.2 in
  of_shifted out.1 ++ of_skipped_null out.1 ++ of_failed out.1 ≡ₚ ids ∧
  ss_frames back.2 = ss_frames s ∧ back.1 = MkOffset (of_shifted out.1) [] [].
Proof.
  intros Hn out back. destruct (offset_spec ids seconds actor s Hn) as [Hf Hr]. fold out in Hf, Hr.
  assert (NoDup (fr_id <$> ss_frames out.2)) as Hn' by (by rewrite Hf, shift_by_ids).
  destruct (offset_spec (of_shifted out.1) (- seconds) actor' out.2 Hn') as [Hf' Hr']. fold back in Hf', Hr'.
  assert (∀ id, timed (ss_frames out.2) id ↔ timed (ss_frames s) id) as Htimed.
  { intros id. rewrite Hf. unfold timed, shift_by. rewrite Exists_fmap. rewrite !Exists_exists. cbn. by setoid_rewrite fmap_None. }
  assert (∀ id, has_row (ss_frames out.2) id ↔ has_row (ss_frames s) id) as Hrow by (intros id; unfold has_row; by rewrite Hf, shift_by_ids).
  assert (∀ id, timed (ss_frames s) id → has_row (ss_frames s) id) as Hth.
  { intros id (r & Hr0 & <- & _)%Exists_exists. by apply list_elem_of_fmap_2. }
  split_and!.
  - rewrite Hr. cbn. clear -Hth. induction ids as [|id ids IH]; [done|]. rewrite !filter_cons.
    destruct (decide (timed (ss_frames s) id)) as [Ht|Ht].
    + rewrite decide_False by tauto. rewrite decide_False by (specialize (Hth id); tauto). cbn. by constructor.
    + destruct (decide (has_row (ss_frames s) id)) as [Hh|Hh].
      * rewrite decide_True by tauto. rewrite decide_False by tauto. cbn [app]. rewrite <-Permutation_middle. by constructor.
      * rewrite decide_False by tauto. rewrite decide_True by tauto. rewrite app_assoc, <-Permutation_middle, <-app_assoc. by constructor.
  - rewrite Hf', Hf, shift_by_compose. rewrite <-(shift_by_zero (ss_frames s)) at 2. apply shift_by_ext.
    intros r Hin Hts. rewrite Hr. cbn [of_shifted].
    assert (occurrences (fr_id r) (filter (timed (ss_frames s)) ids) = occurrences (fr_id r) ids) as ->; [|lia].
    assert (timed (ss_frames s) (fr_id r)) as Ht by (by apply timed_row).
    unfold occurrences. f_equal. f_equal. clear -Ht. induction ids as [|x ids IH]; [done|]. rewrite (filter_cons (timed _)), (filter_cons _ x ids).
    destruct (decide (x = fr_id r)) as [->|Hne]; [rewrite decide_True by done; by rewrite filter_cons_True, IH|].
    case_decide; [by rewrite filter_cons_False|done].
  - assert (∀ (P Q : Z → Prop) `{!∀ x, Decision (P x)} `{!∀ x, Decision (Q x)}, (∀ x, P x → ¬ Q x) → filter Q (filter P ids) = []) as Hnone.
    { intros P Q ? ? HPQ. apply elem_of_nil_inv. intros x [Hq [Hp _]%list_elem_of_filter]%list_elem_of_filter. by apply (HPQ x). }
    rewrite Hr', Hr. cbn [of_shifted]. f_equal.
    + rewrite (list_filter_iff (timed (ss_frames out.2)) (timed (ss_frames s))) by done.
      clear. induction ids as [|x ids IH]; [done|]. rewrite (filter_cons (timed (ss_frames s)) x ids). case_decide; [|done]. by rewrite filter_cons_True, IH.
    + apply Hnone. intros x Hx [_ Hn1]. by apply Hn1, Htimed.
    + apply Hnone. intros x Hx Hn1. by apply Hn1, Hrow, Hth.
Qed.

(** ** Deletion *)
(** Deleting a frame for good removes that frame and nothing else.  It needs the
    confirmation and a known id; its row goes, every other row stays as it is, the project's
    count drops by one when it was positive, one audit row is added, and of the files at most
    the one the row's own path leads to inside the project's directories is removed. *)
Theorem permanent_delete_exact contained id actor confirm s files :
  NoDup (fr_id <$> ss_frames s) →
  match permanent_delete contained id actor confirm (s, files) with
  | Raise ConfirmationRequiredError => confirm = false
  | Raise FrameNotFoundError => confirm = true ∧ ¬ has_row (ss_frames s) id
  | Raise _ => False
  | Ok (s', files') =>
      confirm = true ∧ ∃ r, r ∈ ss_frames s ∧ fr_id r = id ∧ ss_frames s ≡ₚ r :: ss_frames s' ∧
        (∀ n, 0 < n → ss_counts s !! fr_project r = Some n → ss_counts s' !! fr_project r = Some (n - 1)) ∧
        (∀ q, q ≠ fr_project r → ss_counts s' !! q = ss_counts s !! q) ∧
        ss_audit s' = ss_audit s ++ [MkAudit (fr_project r) true id "permanent_delete" None None None actor] ∧
        ∀ f, f ∈ files → f ∈ files' ∨ ∃ stored, fr_path r = Some stored ∧ contained (fr_project r) stored = Some f
  end.
Proof.
  intros Hn. unfold permanent_delete, get_frame. destruct confirm; cbn [negb]; [|done].
  destruct (get_row_dec (ss_frames s) id) as [(r & Hg & _)|[Hg Hno]]; rewrite Hg; cbn [mbind result_bind]; [|done].
  apply get_row_spec in Hg as [Hr Hid]; [|done]. split; [done|]. exists r. split; [done|]. split; [done|]. split_and!.
  - cbn. clear -Hn Hr Hid. induction (ss_frames s) as [|x t IH]; [by apply elem_of_nil in Hr|]. cbn in Hn. apply NoDup_cons in Hn as [Hx Hn].
    rewrite filter_cons. apply elem_of_cons in Hr as [<-|Hr].
    + rewrite decide_False by (intros Hf; by apply Hf). constructor.
      replace (filter (λ r0, fr_id r0 ≠ id) t) with t; [done|]. clear -Hx Hid.
      induction t as [|y t IH]; [done|]. cbn in Hx. rewrite filter_cons_True by (intros Hy; apply Hx; rewrite Hid, <-Hy; left). f_equal. apply IH. set_solver.
    + rewrite decide_True by (intros Hxi; apply Hx; rewrite Hxi, <-Hid; by apply list_elem_of_fmap_2). rewrite IH at 1 by done. by constructor.
  - intros n Hpos Hc. cbn. rewrite Hc. rewrite (proj2 (Z.ltb_lt 0 n)) by done. by rewrite lookup_insert_eq.
  - intros q Hq. cbn. destruct (ss_counts s !! fr_project r) as [n|]; [|done]. destruct (0 <? n); [|done]. by rewrite lookup_insert_ne.
  - done.
  - intros f Hf. unfold unlink_path. destruct (fr_path r) as [stored|]; [|by left]. destruct (ss_counts s !! fr_project r); [|by left].
    destruct (contained (fr_project r) stored) as [path|] eqn:Hp; [|by left]. destruct (decide (f = path)) as [->|Hne]; [right; by exists stored|].
    left. set_solver.
Qed.

(** ** Instances *)
Definition table_ok (t : frames) : bool :=
  bool_decide (NoDup (fr_id <$> t)) && bool_decide (NoDup ((λ r, (fr_project r, fr_seq r)) <$> t)) &&
  bool_decide (Forall (λ r, 1 ≤ fr_seq r) t).

Lemma table_ok_wf t : table_ok t = true → table_wf t.
Proof.
  unfold table_ok. rewrite !andb_true_iff, !bool_decide_eq_true, Forall_forall. intros [[Hn Hu] Hp]. constructor; [done| |done].
  clear -Hu. intros r r' Hr Hr' Hpr Hs. induction t as [|x t IH]; [by apply elem_of_nil in Hr|]. cbn in Hu. apply NoDup_cons in Hu as [Hx Hu].
  apply elem_of_cons in Hr as [->|Hr]; apply elem_of_cons in Hr' as [->|Hr']; [done| | |by apply IH].
  - destruct Hx. apply list_elem_of_fmap. exists r'. by rewrite Hpr, Hs.
  - destruct Hx. apply list_elem_of_fmap. exists r. by rewrite Hpr, Hs.
Qed.

Definition frame (id project seq : Z) (ts : option Z) : FrameRow :=
  MkFrameRow id project seq ts (Some "f.jpg") None None None og_captured fs_active None false.
(** Two projects; the second one's frames 4 and 6 are the wrong way round. *)
Definition shelf : frames :=
  [frame 1 1 1 (Some 10); frame 2 1 2 (Some 20); frame 3 1 3 (Some 30);
   frame 4 2 1 (Some 50); frame 5 2 2 None; frame 6 2 3 (Some 40); frame 7 2 4 (Some 45)].

Lemma shelf_wf : table_wf shelf.
Proof. apply table_ok_wf. vm_compute. reflexivity. Qed.

Lemma first_disorder_exact_witness :
  earliest_out_of_order_timestamp 2 shelf = Some 40 ∧ earliest_out_of_order_timestamp 1 shelf = None ∧ ordered 1 shelf.
Proof.
  split; [vm_compute; reflexivity|]. split; [vm_compute; reflexivity|]. exact (first_disorder_exact 1 shelf shelf_wf).
Defined.

Lemma resequence_orders_witness :
  ∃ t' n, resequence_after_import reverse 2 [] shelf = Ok (t', n) ∧ ordered 2 t' ∧ n = 4 ∧
    (λ r, (fr_id r, fr_seq r)) <$> t' = [(1, 1); (2, 2); (3, 3); (4, 3); (5, 4); (6, 1); (7, 2)].
Proof.
  destruct (resequence_orders reverse (λ l, reverse_Permutation l) 2 [] shelf shelf_wf) as (t' & n & Heq & Ho & _).
  exists t', n. split; [exact Heq|]. split; [exact Ho|]. vm_compute in Heq. injection Heq as <- <-. split; reflexivity.
Defined.

Lemma chunked_renumber_same_witness :
  resequence_project_chunked reverse 2 [] (Some 1) shelf = Some (resequence_after_import reverse 2 [] shelf) ∧
  begin_renumber reverse 2 [] (Some 1) shelf ≠ Ok (shelf, inl 0).
Proof.
  split; [|vm_compute; discriminate].
  exact (chunked_renumber_same reverse (λ l, reverse_Permutation l) 2 [] (Some 1) shelf shelf_wf).
Defined.

(** Frame 2 is moved before frame 1. *)
Definition retimed : frames := modify 2 (set_ts (Some 5)) shelf.
Lemma retimed_wf : table_wf retimed.
Proof. apply table_ok_wf. vm_compute. reflexivity. Qed.
Lemma shelf_in_order : ordered 1 shelf.
Proof. exact (earliest_spec 1 shelf shelf_wf). Qed.
Lemma retimed_moves : moved_at_most 1 [2] shelf retimed.
Proof.
  intros r Hr Hid.
  change (of_project 1 retimed) with [frame 1 1 1 (Some 10); frame 2 1 2 (Some 5); frame 3 1 3 (Some 30)] in Hr. rewrite !elem_of_cons, elem_of_nil in Hr. destruct Hr as [->|[->|[->|[]]]].
  - exists (frame 1 1 1 (Some 10)). split; [by left|done].
  - destruct Hid. by left.
  - exists (frame 3 1 3 (Some 30)). split; [right; right; by left|done].
Qed.

Lemma neighbour_check_exact_witness :
  neighbours_out_of_order 1 retimed [2] = true ∧ earliest_out_of_order_timestamp 1 retimed ≠ None.
Proof.
  split; [vm_compute; reflexivity|]. intros Hn.
  apply (neighbour_check_exact 1 shelf retimed [2] retimed_wf shelf_in_order retimed_moves) in Hn.
  - vm_compute in Hn. discriminate.
  - intros id ->%list_elem_of_singleton. exists (frame 2 1 2 (Some 5)). split; [right; by left|done].
Defined.

Lemma order_restored_witness :
  ∃ t'' n, restore_project_order reverse 1 (Some [2]) retimed = Some (Ok (t'', n)) ∧ ordered 1 t'' ∧
    (λ r, (fr_id r, fr_seq r)) <$> of_project 1 t'' = [(1, 2); (2, 1); (3, 3)].
Proof.
  destruct (order_restored reverse (λ l, reverse_Permutation l) 1 (Some [2]) shelf retimed retimed_wf (conj shelf_in_order retimed_moves))
    as (t'' & n & Heq & Ho & _).
  exists t'', n. split; [exact Heq|]. split; [exact Ho|]. vm_compute in Heq. injection Heq as <- _. reflexivity.
Defined.

Definition desk : FrameSession := MkSession (of_project 1 shelf) {[1 := 3]} [] ∅ ∅.
Lemma desk_wf : table_wf (ss_frames desk).
Proof. apply table_ok_wf. vm_compute. reflexivity. Qed.
Lemma desk_in_order p : ordered p (ss_frames desk).
Proof.
  destruct (decide (p = 1)) as [->|Hne].
  - eapply ordered_project; [|exact shelf_in_order]. vm_compute. reflexivity.
  - intros r r' ([Hr Hp]%elem_of_project & _).
    change (ss_frames desk) with [frame 1 1 1 (Some 10); frame 2 1 2 (Some 20); frame 3 1 3 (Some 30)] in Hr. rewrite !elem_of_cons, elem_of_nil in Hr.
    destruct Hr as [->|[->|[->|[]]]]; cbn in Hp; congruence.
Qed.

Lemma edits_keep_browse_order_witness :
  let s' := (offset_timestamps_many [3; 3; 99] (-1) 7 desk).2 in
  let t' := restore_order_after_commit reverse (ss_order_dirty s') (ss_frames s') in
  (∀ p, ordered p t') ∧ (λ r, (fr_id r, fr_seq r, fr_ts r)) <$> t' = [(1, 2, Some 10); (2, 3, Some 20); (3, 1, Some (-1999970))].
Proof.
  intros s' t'.
  destruct (edits_keep_browse_order reverse (λ l, reverse_Permutation l) (λ _ _, None) desk s' desk_wf desk_in_order eq_refl) as (Ho & _).
  - apply rtc_once. apply e_offset.
  - split; [exact Ho|]. vm_compute. reflexivity.
Defined.

Lemma offset_roundtrip_witness :
  let out := offset_timestamps_many [3; 3; 99] (-1) 7 desk in
  ss_frames (offset_timestamps_many (of_shifted out.1) 1 7 out.2).2 = ss_frames desk ∧ of_shifted out.1 = [3; 3].
Proof.
  intros out. split; [|vm_compute; reflexivity].
  destruct (offset_roundtrip [3; 3; 99] (-1) 7 7 desk (wf_ids _ desk_wf)) as (_ & Hf & _). exact Hf.
Defined.

Lemma permanent_delete_exact_witness :
  ∃ s' files', permanent_delete (λ _ stored, Some stored) 2 7 true (desk, {["f.jpg"]}) = Ok (s', files') ∧
    ss_frames desk ≡ₚ frame 2 1 2 (Some 20) :: ss_frames s' ∧ files' = ∅.
Proof.
  pose proof (permanent_delete_exact (λ _ stored, Some stored) 2 7 true desk {["f.jpg"]} (wf_ids _ desk_wf)) as H.
  destruct (permanent_delete (λ _ stored, Some stored) 2 7 true (desk, {["f.jpg"]})) as [[s' files']|e] eqn:Hd.
  - destruct H as (_ & r & Hr & Hid & Hp & _). exists s', files'. split; [reflexivity|].
    change (ss_frames desk) with [frame 1 1 1 (Some 10); frame 2 1 2 (Some 20); frame 3 1 3 (Some 30)] in Hr. rewrite !elem_of_cons, elem_of_nil in Hr. destruct Hr as [->|[->|[->|[]]]]; [discriminate| |discriminate].
    split; [exact Hp|]. vm_compute in Hd. injection Hd as _ <-. reflexivity.
  - vm_compute in Hd. discriminate.
Defined.

(** Editing a timestamp leaves the mark that it was inferred. *)
Lemma edited_time_stays_inferred :
  let guess := MkFrameRow 1 1 1 (Some 10) None None None None og_uploaded fs_active None true in
  ∃ s', edit_capture_timestamp 1 500 7 (MkSession [guess] {[1 := 1]} [] ∅ ∅) = Ok s' ∧
    ss_frames s' = [set_ts (Some 500) guess] ∧ fr_inferred (set_ts (Some 500) guess) = true.
Proof. eexists. split; [vm_compute; reflexivity|]. split; reflexivity. Qed.

(** The file of a deleted frame goes before the transaction ends: a process that dies in
    between leaves a row (of the session before) whose file is gone. *)
Lemma unlinked_before_commit :
  ∃ s' files', permanent_delete (λ _ stored, Some stored) 2 7 true (desk, {["f.jpg"]}) = Ok (s', files') ∧
    frame 2 1 2 (Some 20) ∈ ss_frames desk ∧ "f.jpg" ∉ files'.
Proof.
  eexists _, ∅. split; [vm_compute; reflexivity|]. split; [right; by left|set_solver].
Qed.
