(* ===== verification/FrameOrderRuns.v ===== *)
(** * A chunked renumbering while captures go on

    storage/frames.py, [resequence_project_chunked]: its transactions one by one, with frames
    captured, edited and deleted between them.  The renumber lock keeps a second run of the
    project out; the write lock makes each transaction one step. *)

From S2P Require Import Prelude PyTime FrameTable FrameOrder FrameOrderFacts FrameEdits.
From stdpp Require Import sorting options.
Local Open Scope Z_scope.

Record Shelf := MkShelf {
  sh_frames : frames;
  sh_last_id : Z;
  sh_run : option (Renumber * run_pc);
}.

(** The highest row of a project stands below nothing. *)
Definition is_highest (t : frames) (r : FrameRow) : Prop :=
  ∀ x, x ∈ t → fr_project x = fr_project r → fr_seq x ≤ fr_seq r.
Definition parking (p : Z) (run : option (Renumber * run_pc)) : Prop :=
  match run with Some (rn, R_parking _) => rn_project rn = p | _ => False end.

(** What happens to the table between two transactions of a run: a frame is written, a row
    is changed in place, a row is deleted (while a project is being parked, not its
    highest row). *)
Inductive between : Shelf → Shelf → Prop :=
  | b_capture t l run r :
      fr_id r = l + 1 → fr_seq r = next_index (fr_project r) t →
      between (MkShelf t l run) (MkShelf (t ++ [r]) (l + 1) run)
  | b_edit t l run id f :
      (∀ r, fr_id (f r) = fr_id r ∧ fr_project (f r) = fr_project r ∧ fr_seq (f r) = fr_seq r) →
      between (MkShelf t l run) (MkShelf (modify id f t) l run)
  | b_delete t l run r :
      r ∈ t → (parking (fr_project r) run → ¬ is_highest t r) →
      between (MkShelf t l run) (MkShelf (filter (λ x, fr_id x ≠ fr_id r) t) l run).

(** One transaction of the run; the run is over when it is done. *)
Definition after_chunk (rn : Renumber) (pc : run_pc) : option (Renumber * run_pc) :=
  match pc with R_done => None | _ => Some (rn, pc) end.
Inductive shelf_step : Shelf → Shelf → Prop :=
  | s_between a b : between a b → shelf_step a b
  | s_chunk t l rn pc t' pc' :
      renumber_step rn pc t = Ok (t', pc') →
      shelf_step (MkShelf t l (Some (rn, pc))) (MkShelf t' l (after_chunk rn pc')).

(** ** Closing the gaps *)
Lemma moves_down_cons next x tail :
  moves_down next (x :: tail) = (if next =? fr_seq x then [] else [(fr_id x, next)]) ++ moves_down (next + 1) tail.
Proof.
  unfold moves_down. cbn. rewrite Z.add_0_r.
  assert (imap ((λ i r, if next + Z.of_nat i =? fr_seq r then None else Some (fr_id r, next + Z.of_nat i)) ∘ S) tail =
          imap (λ i r, if next + 1 + Z.of_nat i =? fr_seq r then None else Some (fr_id r, next + 1 + Z.of_nat i)) tail) as ->.
  { apply imap_ext. intros i r _. cbn. replace (next + Z.of_nat (S i)) with (next + 1 + Z.of_nat i) by lia. done. }
  by destruct (next =? fr_seq x).
Qed.

Lemma set_index_free p r v t :
  NoDup (fr_id <$> t) → r ∈ t → fr_project r = p → (∀ x, x ∈ t → fr_project x = p → fr_seq x = v → x = r) →
  set_index (fr_id r) v t = Ok (reindex {[fr_id r := v]} t).
Proof.
  intros Hn Hr Hp Hfree. unfold set_index. rewrite (proj2 (get_row_spec t (fr_id r) r Hn)) by done.
  rewrite bool_decide_eq_false_2; [by rewrite modify_reindex|]. intros (x & Hx & Hpx & Hs & Hne)%Exists_exists.
  apply Hne. f_equal. apply Hfree; [done|congruence|done].
Qed.

(** The rows of the tail go down to consecutive indexes, lowest first. *)
Lemma compact_ok p next tail t :
  NoDup (fr_id <$> t) → StronglySorted (λ r r', fr_seq r < fr_seq r') tail → NoDup (fr_id <$> tail) →
  (∀ r, r ∈ tail → r ∈ t ∧ fr_project r = p ∧ next ≤ fr_seq r) →
  (∀ r, r ∈ t → fr_project r = p → next ≤ fr_seq r → r ∈ tail ∨ ∀ x, x ∈ tail → fr_seq x < fr_seq r) →
  set_sequence_indexes (moves_down next tail) t = Ok (reindex (list_to_map (number_from next (fr_id <$> tail))) t).
Proof.
  revert next t. induction tail as [|x tail IH]; intros next t Hn Hs Hnd Hin Hrest.
  { cbn. by rewrite reindex_empty. }
  apply StronglySorted_inv in Hs as [Hs Hx]. rewrite Forall_forall in Hx. cbn in Hnd. apply NoDup_cons in Hnd as [Hxn Hnd].
  destruct (Hin x) as (Hxt & Hxp & Hxs); [by left|].
  assert (∀ r, r ∈ t → fr_id r = fr_id x → r = x) as Huniq by (intros; by apply (NoDup_ids_eq t)).
  rewrite moves_down_cons, set_indexes_app.
  assert (set_sequence_indexes (if next =? fr_seq x then [] else [(fr_id x, next)]) t = Ok (reindex {[fr_id x := next]} t)) as ->.
  { destruct (next =? fr_seq x) eqn:He; cbn.
    - apply Z.eqb_eq in He. f_equal. rewrite <-(reindex_empty t) at 1. rewrite !reindex_moved. apply list_fmap_ext. intros i r Hr%list_elem_of_lookup_2.
      unfold moved, new_seq. f_equal. rewrite lookup_empty. destruct (decide (fr_id r = fr_id x)) as [Heq|Hne].
      + rewrite (Huniq r Hr Heq), lookup_singleton_eq. cbn. lia.
      + by rewrite lookup_singleton_ne.
    - rewrite (set_index_free p x); [done|done|done|done|]. intros r Hr Hp Hsr. apply Z.eqb_neq in He.
      destruct (Hrest r Hr Hp ltac:(lia)) as [[->|Hrt]%elem_of_cons|Hab]; [done|specialize (Hx r Hrt); lia|].
      specialize (Hab x (list_elem_of_here _ _)). lia. }
  cbn [mbind result_bind]. rewrite IH.
  - f_equal. rewrite reindex_reindex. apply reindex_ext. intros r _. cbn [fmap list_fmap]. unfold number_from. rewrite imap_cons. cbn [list_to_map foldr uncurry].
    rewrite Z.add_0_r. replace (imap ((λ i id, (id, next + Z.of_nat i)) ∘ S) (fr_id <$> tail)) with (imap (λ i id, (id, next + 1 + Z.of_nat i)) (fr_id <$> tail)).
    2: { apply imap_ext. intros i y _. cbn. f_equal. lia. }
    change (imap (λ i id, (id, next + 1 + Z.of_nat i)) (fr_id <$> tail)) with (number_from (next + 1) (fr_id <$> tail)).
    destruct (decide (fr_id r = fr_id x)) as [->|Hne].
    + rewrite lookup_insert_eq, lookup_union_r; [by rewrite lookup_singleton_eq|]. apply not_elem_of_list_to_map_1. by rewrite number_from_fst.
    + rewrite lookup_insert_ne by done. destruct (list_to_map (number_from (next + 1) (fr_id <$> tail)) !! fr_id r) as [w|] eqn:Hw.
      * by apply lookup_union_Some_l.
      * by rewrite lookup_union_r, lookup_singleton_ne by done.
  - by rewrite reindex_ids.
  - done.
  - done.
  - intros r Hr. destruct (Hin r) as (Hrt & Hrp & Hrs); [by right|]. specialize (Hx r Hr). split_and!; [|done|lia].
    apply elem_of_reindex. exists r. split; [done|]. rewrite lookup_singleton_ne; [done|]. intros Heq. apply Hxn. rewrite Heq. by apply list_elem_of_fmap_2.
  - intros r' (r & Hr & ->)%elem_of_reindex. destruct (decide (fr_id x = fr_id r)) as [Heq|Hne].
    + rewrite Heq, lookup_singleton_eq. cbn. lia.
    + rewrite lookup_singleton_ne by done. intros Hp Hle. destruct (Hrest r Hr Hp ltac:(lia)) as [[->|Hrt]%elem_of_cons|Hab]; [done|by left|right].
      intros y Hy. apply Hab. by right.
Qed.

Lemma strictly_sorted l : StronglySorted seq_le l → NoDup (fr_seq <$> l) → StronglySorted (λ r r', fr_seq r < fr_seq r') l.
Proof.
  induction 1 as [|r l Hs IH Hr]; [constructor|]. cbn. intros [Hn Hnd]%NoDup_cons. constructor; [by apply IH|].
  rewrite Forall_forall in Hr |- *. intros x Hx. specialize (Hr x Hx). unfold seq_le in Hr.
  destruct (decide (fr_seq r = fr_seq x)) as [He|]; [|lia]. destruct Hn. rewrite He. by apply list_elem_of_fmap_2.
Qed.

Lemma strictly_at_least next tail i r :
  StronglySorted (λ r r', fr_seq r < fr_seq r') tail → (∀ x, x ∈ tail → next ≤ fr_seq x) → tail !! i = Some r → next + Z.of_nat i ≤ fr_seq r.
Proof.
  intros Hs. revert next i. induction Hs as [|x l Hs IH Hx]; intros next i Hall Hi; [done|]. rewrite Forall_forall in Hx.
  destruct i as [|i]; cbn in Hi.
  - injection Hi as ->. specialize (Hall r (list_elem_of_here _ _)). lia.
  - assert (next + 1 + Z.of_nat i ≤ fr_seq r); [|lia]. apply IH; [|done]. intros y Hy. specialize (Hx y Hy).
    specialize (Hall x (list_elem_of_here _ _)). lia.
Qed.

(** One chunk of the compaction. *)
Section tail.
Context (p next : Z) (m : nat) (t : frames).
Context (Hwf : table_wf t).
Notation sorted := (merge_sort seq_le (filter (λ r, fr_project r = p ∧ next ≤ fr_seq r) t)).
Notation tail := (take m sorted).
Notation moves := (list_to_map (number_from next (fr_id <$> tail)) : gmap Z Z).

Lemma elem_of_sorted r : r ∈ sorted ↔ r ∈ t ∧ fr_project r = p ∧ next ≤ fr_seq r.
Proof using. rewrite merge_sort_Permutation, list_elem_of_filter. tauto. Qed.

Lemma sorted_strictly : StronglySorted (λ r r', fr_seq r < fr_seq r') sorted.
Proof using Hwf.
  apply strictly_sorted; [apply StronglySorted_merge_sort; apply _|]. apply (NoDup_seqs p _ t); [done| |].
  - rewrite merge_sort_Permutation. apply NoDup_filter, NoDup_table, Hwf.
  - intros r (Hr & Hp & _)%elem_of_sorted. done.
Qed.

Lemma tail_facts :
  StronglySorted (λ r r', fr_seq r < fr_seq r') tail ∧ NoDup (fr_id <$> tail) ∧
  (∀ r, r ∈ tail → r ∈ t ∧ fr_project r = p ∧ next ≤ fr_seq r) ∧
  (∀ r, r ∈ t → fr_project r = p → next ≤ fr_seq r → r ∈ tail ∨ ∀ x, x ∈ tail → fr_seq x < fr_seq r).
Proof using Hwf.
  pose proof sorted_strictly as Hs. rewrite <-(take_drop m sorted) in Hs. apply StronglySorted_app in Hs as (Hab & Hs & _).
  assert (∀ r, r ∈ tail → r ∈ t ∧ fr_project r = p ∧ next ≤ fr_seq r) as Hin by (intros r Hr; eapply elem_of_sorted, subseteq_take, Hr).
  split; [done|]. split.
  { apply (NoDup_ids_sub _ t); [apply Hwf| |intros r Hr; by apply Hin].
    apply (sublist_NoDup _ sorted); [|apply sublist_take]. rewrite merge_sort_Permutation. apply NoDup_filter, NoDup_table, Hwf. }
  split; [done|]. intros r Hr Hp Hle. assert (r ∈ sorted) as Hrs by (by apply elem_of_sorted).
  rewrite <-(take_drop m sorted) in Hrs. apply elem_of_app in Hrs as [Hrs|Hrs]; [by left|right]. intros x Hx. by apply (Hab x r).
Qed.

Lemma tail_moves r :
  r ∈ t → (r ∉ tail ∧ new_seq moves r = fr_seq r) ∨ (∃ i, tail !! i = Some r ∧ new_seq moves r = next + Z.of_nat i ∧ next + Z.of_nat i ≤ fr_seq r).
Proof using Hwf.
  intros Hr. destruct tail_facts as (Hs & Hnd & Hin & _). unfold new_seq. destruct (moves !! fr_id r) as [v|] eqn:Hv.
  - right. apply elem_of_list_to_map_2, elem_of_number_from in Hv as (i & Hi & ->). rewrite list_lookup_fmap, fmap_Some in Hi.
    destruct Hi as (x & Hx & Hid). assert (x = r) as -> by (apply (NoDup_ids_eq t); [apply Hwf|apply Hin; by eapply list_elem_of_lookup_2|done|done]).
    exists i. split; [done|]. split; [done|]. apply (strictly_at_least next tail i r Hs); [|done]. intros y Hy. by apply Hin.
  - left. split; [|done]. intros Hrt. apply not_elem_of_list_to_map_2 in Hv. apply Hv. rewrite number_from_fst. by apply list_elem_of_fmap_2.
Qed.

Lemma tail_monotone r r' :
  r ∈ of_project p t → r' ∈ of_project p t → fr_seq r < fr_seq r' → new_seq moves r < new_seq moves r'.
Proof using Hwf.
  intros [Hr Hp]%elem_of_project [Hr' Hp']%elem_of_project Hlt. destruct tail_facts as (Hs & _ & Hin & Hrest).
  destruct (tail_moves r Hr) as [[Hout ->]|(i & Hi & -> & Hle)], (tail_moves r' Hr') as [[Hout' ->]|(j & Hj & -> & Hle')].
  - done.
  - pose proof Hj as Hjin%list_elem_of_lookup_2. destruct (decide (next ≤ fr_seq r)) as [Hge|]; [|lia].
    destruct (Hrest r Hr Hp Hge) as [?|Hab]; [done|]. specialize (Hab r' Hjin). lia.
  - lia.
  - destruct (decide (i < j)%nat); [lia|]. destruct (decide (i = j)) as [->|]; [simplify_eq; lia|].
    pose proof (StronglySorted_lookup _ _ j i r' r Hs Hj Hi ltac:(lia)) as Hgt. cbn in Hgt. lia.
Qed.
End tail.

(** ** Where the rows of the plan are *)
Section run.
Context (T0 : frames) (L0 p b : Z).
Context (HT0 : table_wf T0) (HL0 : ∀ r, r ∈ T0 → fr_id r ≤ L0).
Context (Hbound : ∀ r r', inverted p T0 r r' → ∃ ts, fr_ts r' = Some ts ∧ b ≤ ts).

Notation suffix r := (in_suffix p (Some b) r).
Notation S0 := (suffix_rows p (Some b) T0).
Notation order := (fr_id <$> S0).
Notation start := (suffix_start p (Some b) T0).
Notation K := (Z.of_nat (length S0)).
Notation offset := (suffix_offset p (Some b) T0).
Notation top := (default 0 (max_seq (of_project p T0)) + offset).
Notation final r := (new_seq (targets p (Some b) T0) r).
Notation park_list := (pairs (reverse (merge_sort seq_le S0))).

Definition place (pc : run_pc) (r : FrameRow) : Z :=
  if decide (suffix r) then
    match pc with
    | R_parking todo => if decide (fr_id r ∈ todo.*1) then fr_seq r else fr_seq r + offset
    | R_assigning n => if decide (fr_id r ∈ take n order) then final r else fr_seq r + offset
    | R_compacting _ | R_done => final r
    end
  else fr_seq r.

(** The prefix lies below the suffix. *)
Lemma prefix_below r r' :
  r ∈ T0 → fr_project r = p → ¬ suffix r → r' ∈ T0 → suffix r' → fr_seq r < fr_seq r'.
Proof using HT0 Hbound.
  intros Hr Hp Hn Hr' Hs. destruct (decide (fr_seq r < fr_seq r')) as [|Hge]; [done|exfalso].
  assert (∃ ts, fr_ts r = Some ts ∧ ts < b) as (ts & Hts & Hlt).
  { unfold in_suffix in Hn. destruct (fr_ts r) as [z|]; [|tauto]. exists z. split; [done|]. destruct (decide (b ≤ z)); [tauto|lia]. }
  assert (fr_seq r' ≠ fr_seq r) as Hne.
  { intros He. assert (r' = r) as -> by (apply (wf_unique T0 HT0); [done|done|destruct Hs; congruence|done]). done. }
  destruct (Hbound r' r) as (ts' & Hts' & Hb); [|congruence || (rewrite Hts in Hts'; injection Hts' as <-; lia)].
  destruct Hs as [Hp' Hs]. split_and!; [by apply elem_of_project|by apply elem_of_project|lia|].
  apply breaks_spec. exists ts. split; [done|]. destruct (fr_ts r'); [lia|done].
Qed.

Lemma final_spec r : r ∈ T0 → suffix r → ∃ i, S0 !! i = Some r ∧ final r = start + Z.of_nat i ∧ start ≤ final r < start + K.
Proof using HT0.
  intros Hr Hs. destruct (new_seq_suffix p (Some b) T0 r HT0 Hr Hs) as (i & Hi & Hf). exists i. split; [done|]. split; [done|].
  apply lookup_lt_Some in Hi. lia.
Qed.

Lemma parked_above r r' : r ∈ T0 → r' ∈ T0 → fr_project r' = p → fr_seq r' < fr_seq r + offset.
Proof using HT0. intros Hr Hr' Hp. pose proof (offset_above p (Some b) T0 r' Hr' Hp). pose proof (wf_pos T0 HT0 r Hr). lia. Qed.

Lemma targets_below r : r ∈ T0 → start + K ≤ fr_seq r + offset.
Proof using HT0.
  intros Hr. pose proof (start_bound p (Some b) T0 (wf_pos T0 HT0)). pose proof (wf_pos T0 HT0 r Hr). unfold suffix_offset. lia.
Qed.

Lemma elem_of_order n r : r ∈ T0 → suffix r → fr_id r ∈ take n order ↔ ∃ i, (i < n)%nat ∧ S0 !! i = Some r.
Proof using HT0.
  intros Hr Hs. rewrite <-fmap_take, list_elem_of_fmap. split.
  - intros (x & Hid & Hx). apply list_elem_of_lookup in Hx as [i Hi]. apply lookup_take_Some in Hi as [Hi Hlt]. exists i. split; [done|].
    pose proof Hi as [Hx _]%list_elem_of_lookup_2%elem_of_suffix_rows. by rewrite (NoDup_ids_eq T0 r x (wf_ids T0 HT0)).
  - intros (i & Hlt & Hi). exists r. split; [done|]. apply list_elem_of_lookup. exists i. by apply lookup_take_Some.
Qed.

Lemma park_list_lookup i x :
  park_list !! i = Some x → ∃ r, r ∈ T0 ∧ suffix r ∧ x = (fr_id r, fr_seq r) ∧ reverse (merge_sort seq_le S0) !! i = Some r.
Proof using.
  unfold pairs. rewrite list_lookup_fmap, fmap_Some. intros (r & Hr & ->). exists r. pose proof Hr as Hin%list_elem_of_lookup_2.
  rewrite reverse_sorted_perm, list_elem_of_filter in Hin. by destruct Hin.
Qed.

Lemma StronglySorted_reverse_lookup l i j x y :
  StronglySorted seq_le l → reverse l !! i = Some x → reverse l !! j = Some y → (i < j)%nat → fr_seq y ≤ fr_seq x.
Proof using.
  intros Hs Hi Hj Hlt. pose proof Hi as Hli%lookup_lt_Some. pose proof Hj as Hlj%lookup_lt_Some. rewrite length_reverse in Hli, Hlj.
  rewrite reverse_lookup in Hi, Hj by done. apply (StronglySorted_lookup seq_le l _ _ y x Hs Hj Hi). lia.
Qed.

(** The rows still to be parked are the lower ones. *)
Lemma todo_lower k r r' :
  r ∈ T0 → suffix r → r' ∈ T0 → suffix r' →
  fr_id r ∈ (drop k park_list).*1 → fr_id r' ∉ (drop k park_list).*1 → fr_seq r < fr_seq r'.
Proof using HT0.
  intros Hr Hs Hr' Hs' Hin Hout. apply list_elem_of_fmap in Hin as (x & Hid & Hx). apply list_elem_of_lookup in Hx as [i Hi].
  rewrite lookup_drop in Hi. destruct (park_list_lookup _ _ Hi) as (z & Hz & _ & -> & Hzi). cbn in Hid.
  assert (z = r) as -> by (by apply (NoDup_ids_eq T0 _ _ (wf_ids T0 HT0))).
  assert (r' ∈ reverse (merge_sort seq_le S0)) as [j Hj]%list_elem_of_lookup by (rewrite reverse_sorted_perm, list_elem_of_filter; done).
  destruct (decide (k ≤ j)%nat) as [Hkj|Hkj].
  { destruct Hout. apply list_elem_of_fmap. exists (fr_id r', fr_seq r'). split; [done|]. apply list_elem_of_lookup. exists (j - k)%nat.
    rewrite lookup_drop. unfold pairs. rewrite list_lookup_fmap. replace (k + (j - k))%nat with j by lia. by rewrite Hj. }
  assert (fr_seq r ≤ fr_seq r') as Hle by (eapply (StronglySorted_reverse_lookup (merge_sort seq_le S0)); [apply StronglySorted_merge_sort; apply _|exact Hj|exact Hzi|lia]).
  destruct (decide (fr_seq r = fr_seq r')) as [He|]; [|lia].
  assert (r = r') as -> by (apply (wf_unique T0 HT0); [done|done|destruct Hs, Hs'; congruence|done]).
  destruct Hout. apply list_elem_of_fmap. exists (fr_id r', fr_seq r'). split; [done|]. apply list_elem_of_lookup. exists i. by rewrite lookup_drop.
Qed.

(** A transaction of the run never puts two rows of the plan into a new wrong order. *)
Definition plan_pc (pc : run_pc) : Prop :=
  match pc with R_parking todo => ∃ k, (0 < k)%nat ∧ todo = drop k park_list | _ => True end.

Lemma place_not_worse pc x y :
  plan_pc pc → x ∈ of_project p T0 → y ∈ of_project p T0 → place pc x < place pc y → breaks_order x y = true →
  fr_seq x < fr_seq y.
Proof using HT0 Hbound.
  intros Hpc [Hx Hpx]%elem_of_project [Hy Hpy]%elem_of_project Hlt Hb. unfold place in Hlt.
  destruct (decide (suffix x)) as [Hsx|Hnx], (decide (suffix y)) as [Hsy|Hny]; [| | |done].
  - destruct (final_spec x Hx Hsx) as (i & Hi & Hfi & Hbi), (final_spec y Hy Hsy) as (j & Hj & Hfj & Hbj).
    assert ((i < j)%nat → False) as Hkey.
    { intros Hij. pose proof (key_le_not_breaks x y (suffix_sorted _ _ _ _ _ _ _ Hi Hj Hij)). congruence. }
    pose proof (parked_above x y Hx Hy Hpy) as Hxy. pose proof (targets_below x Hx) as Htx.
    destruct pc as [todo|n|next|]; [| |lia|lia].
    + destruct Hpc as (k & _ & ->). destruct (decide (fr_id x ∈ _)) as [Hxin|Hxout], (decide (fr_id y ∈ _)) as [Hyin|Hyout]; [done| | |lia].
      * by apply (todo_lower k).
      * lia.
    + destruct (decide (fr_id x ∈ _)) as [Hxin|Hxout], (decide (fr_id y ∈ _)) as [Hyin|Hyout]; [lia| |lia|lia].
      exfalso. apply Hkey. apply (elem_of_order n x Hx Hsx) in Hxin as (i' & Hin & Hi').
      assert (NoDup S0) as Hnd by (eapply NoDup_fmap_1, NoDup_suffix_ids, HT0). rewrite (NoDup_lookup _ _ _ _ Hnd Hi Hi').
      destruct (decide (i' < j)%nat) as [|Hge]; [done|]. destruct Hyout. apply (elem_of_order n y Hy Hsy). exists j. split; [lia|done].
  - exfalso. pose proof (prefix_below y x Hy Hpy Hny Hx Hsx). destruct (final_spec x Hx Hsx) as (i & Hi & Hfi & Hbi).
    pose proof (parked_above x y Hx Hy Hpy). pose proof (below_start p (Some b) T0 y Hy Hpy Hny).
    destruct pc; repeat case_decide; lia.
  - exfalso. apply breaks_spec in Hb as (ty & Hty & Hm). destruct Hsy as [_ Hsy]. rewrite Hty in Hsy.
    unfold in_suffix in Hnx. destruct (fr_ts x) as [tx|]; [|tauto]. destruct (decide (b ≤ tx)); [tauto|lia].
Qed.

Lemma place_pos pc r : r ∈ T0 → 1 ≤ place pc r.
Proof using HT0.
  intros Hr. pose proof (wf_pos T0 HT0 r Hr). pose proof (targets_below r Hr). pose proof (start_bound p (Some b) T0 (wf_pos T0 HT0)).
  unfold place. destruct (decide (suffix r)) as [Hs|]; [|lia]. destruct (final_spec r Hr Hs) as (i & _ & _ & ?).
  destruct pc; repeat case_decide; lia.
Qed.

Lemma place_top todo r : r ∈ T0 → fr_project r = p → place (R_parking todo) r ≤ top.
Proof using HT0.
  intros Hr Hp. pose proof (max_seq_bound (of_project p T0) r (proj2 (elem_of_project p T0 r) (conj Hr Hp))) as Hm.
  pose proof (offset_above p (Some b) T0 r Hr Hp). pose proof (wf_pos T0 HT0 r Hr). unfold place. repeat case_decide; lia.
Qed.

Lemma place_inj pc x y :
  plan_pc pc → x ∈ of_project p T0 → y ∈ of_project p T0 → place pc x = place pc y → x = y.
Proof using HT0 Hbound.
  intros Hpc Hxp Hyp He. pose proof Hxp as [Hx Hpx]%elem_of_project. pose proof Hyp as [Hy Hpy]%elem_of_project.
  assert (fr_seq x = fr_seq y → x = y) as Huniq by (intros; apply (wf_unique T0 HT0); congruence).
  unfold place in He.
  assert (∀ u v, u ∈ T0 → fr_project u = p → v ∈ T0 → fr_project v = p → ¬ suffix u → suffix v → place pc u < place pc v) as Hpre.
  { intros u v Hu Hpu Hv Hpv Hnu Hsv. unfold place. rewrite decide_False, decide_True by done.
    pose proof (prefix_below u v Hu Hpu Hnu Hv Hsv). destruct (final_spec v Hv Hsv) as (i & _ & _ & ?).
    pose proof (parked_above v u Hv Hu Hpu). pose proof (below_start p (Some b) T0 u Hu Hpu Hnu). destruct pc; repeat case_decide; lia. }
  destruct (decide (suffix x)) as [Hsx|Hnx], (decide (suffix y)) as [Hsy|Hny].
  - destruct (final_spec x Hx Hsx) as (i & Hi & Hfi & Hbi), (final_spec y Hy Hsy) as (j & Hj & Hfj & Hbj).
    assert (final x = final y → x = y) as Hfin by (intros Hf; assert (i = j) as -> by lia; congruence).
    pose proof (parked_above x y Hx Hy Hpy). pose proof (parked_above y x Hy Hx Hpx).
    pose proof (targets_below x Hx). pose proof (targets_below y Hy).
    destruct pc; repeat case_decide; try (by apply Hfin); try (apply Huniq; lia); lia.
  - specialize (Hpre y x Hy Hpy Hx Hpx Hny Hsx). unfold place in Hpre. rewrite decide_False, decide_True in Hpre by done. lia.
  - specialize (Hpre x y Hx Hpx Hy Hpy Hnx Hsy). unfold place in Hpre. rewrite decide_False, decide_True in Hpre by done. lia.
  - by apply Huniq.
Qed.

(** ** The invariant of a run *)
Definition run_room (pc : run_pc) (t : frames) : Prop :=
  match pc with
  | R_parking _ => (∃ r, r ∈ of_project p t ∧ top ≤ fr_seq r) ∧ ∀ r, r ∈ of_project p t → L0 < fr_id r → top < fr_seq r
  | R_compacting next => start + K ≤ next
  | _ => True
  end.

Record run_core (pc : run_pc) (t : frames) (l : Z) : Prop := {
  ri_wf : table_wf t;
  ri_ids : L0 ≤ l ∧ ∀ r, r ∈ t → fr_id r ≤ l;
  ri_old : ∀ r, r ∈ t → fr_id r ≤ L0 →
    ∃ r0, r0 ∈ T0 ∧ fr_id r0 = fr_id r ∧ fr_project r0 = fr_project r ∧ (fr_project r = p → fr_seq r = place pc r0);
  ri_after : ∀ r x, r ∈ of_project p t → x ∈ of_project p t → L0 < fr_id r → fr_id x ≤ L0 → fr_seq x < fr_seq r;
  ri_captured : ∀ r r', r ∈ of_project p t → r' ∈ of_project p t → L0 < fr_id r → fr_id r < fr_id r' → fr_seq r < fr_seq r';
}.
Record run_inv (pc : run_pc) (t : frames) (l : Z) : Prop := {
  ri_core :> run_core pc t l;
  ri_pc : plan_pc pc;
  ri_room : run_room pc t;
}.

(** Moving rows of the plan to their next places. *)
Lemma run_inv_moved pc pc' g t l :
  run_core pc t l → plan_pc pc' → run_room pc' (reindex g t) →
  (∀ r, r ∈ t → is_Some (g !! fr_id r) → fr_project r = p ∧ fr_id r ≤ L0) →
  (∀ r r0, r ∈ of_project p t → r0 ∈ of_project p T0 → fr_id r0 = fr_id r → fr_seq r = place pc r0 → new_seq g r = place pc' r0) →
  (∀ r x x0, r ∈ of_project p t → x ∈ of_project p t → L0 < fr_id r → x0 ∈ of_project p T0 → fr_id x0 = fr_id x →
     fr_seq x = place pc x0 → place pc' x0 < fr_seq r) →
  run_inv pc' (reindex g t) l.
Proof using HT0 Hbound.
  intros Hi Hpc' Hroom Hg Hplace Hbelow. destruct Hi as [Hwf Hids Hold Hafter Hcap].
  assert (∀ r, r ∈ t → L0 < fr_id r ∨ fr_project r ≠ p → moved g r = r) as Hsame.
  { intros r Hr Hor. unfold moved, new_seq. destruct (g !! fr_id r) as [v|] eqn:Hv; [|by destruct r].
    destruct (Hg r Hr) as [Hp Hle]; [by eexists|]. destruct Hor; [lia|done]. }
  assert (∀ r, r ∈ of_project p t → fr_id r ≤ L0 → ∃ r0, r0 ∈ of_project p T0 ∧ fr_id r0 = fr_id r ∧ fr_seq r = place pc r0 ∧ new_seq g r = place pc' r0) as Hplan.
  { intros r Hrp Hle. pose proof Hrp as [Hr Hp]%elem_of_project. destruct (Hold r Hr Hle) as (r0 & Hr0 & Hid & Hpr & Hs). specialize (Hs Hp).
    assert (r0 ∈ of_project p T0) as Hr0p by (apply elem_of_project; split; [done|congruence]).
    exists r0. split; [done|]. split; [done|]. split; [done|]. by apply Hplace. }
  assert (∀ r', r' ∈ of_project p (reindex g t) → ∃ r, r' = moved g r ∧ r ∈ of_project p t) as Hin.
  { intros r'. rewrite elem_of_project, reindex_moved. intros [(r & -> & Hr)%list_elem_of_fmap Hp]. exists r. split; [done|]. by apply elem_of_project. }
  constructor; [|done|done]. constructor.
  - constructor.
    + rewrite reindex_ids. apply Hwf.
    + rewrite reindex_moved. intros y y' (r & -> & Hr)%list_elem_of_fmap (r' & -> & Hr')%list_elem_of_fmap Hp Hs. cbn in Hp. f_equal.
      destruct (decide (fr_project r = p)) as [Hpr|Hpr].
      2: { rewrite !Hsame in Hs by (done || right; congruence). by apply (wf_unique t Hwf). }
      assert (r ∈ of_project p t) as Hrp by (by apply elem_of_project).
      assert (r' ∈ of_project p t) as Hrp' by (apply elem_of_project; split; [done|congruence]).
      destruct (decide (fr_id r ≤ L0)) as [Hle|Hgt], (decide (fr_id r' ≤ L0)) as [Hle'|Hgt'].
      * destruct (Hplan r Hrp Hle) as (r0 & Hr0 & Hid & _ & Hn), (Hplan r' Hrp' Hle') as (r0' & Hr0' & Hid' & _ & Hn').
        cbn in Hs. rewrite Hn, Hn' in Hs. apply (place_inj pc' r0 r0' Hpc' Hr0 Hr0') in Hs. apply (NoDup_ids_eq t); [apply Hwf|done|done|congruence].
      * rewrite (Hsame r') in Hs by (done || left; lia). destruct (Hplan r Hrp Hle) as (r0 & Hr0 & Hid & Hs0 & Hn). cbn in Hs.
        pose proof (Hbelow r' r r0 Hrp' Hrp ltac:(lia) Hr0 Hid Hs0). lia.
      * rewrite (Hsame r) in Hs by (done || left; lia). destruct (Hplan r' Hrp' Hle') as (r0 & Hr0 & Hid & Hs0 & Hn). cbn in Hs.
        pose proof (Hbelow r r' r0 Hrp Hrp' ltac:(lia) Hr0 Hid Hs0). lia.
      * rewrite !Hsame in Hs by (done || left; lia). by apply (wf_unique t Hwf).
    + rewrite reindex_moved. intros y (r & -> & Hr)%list_elem_of_fmap. destruct (decide (fr_id r ≤ L0 ∧ fr_project r = p)) as [[Hle Hp]|Hn].
      * destruct (Hplan r) as (r0 & [Hr0 _]%elem_of_project & _ & _ & Hn); [by apply elem_of_project|done|]. cbn. rewrite Hn. by apply place_pos.
      * rewrite Hsame; [by apply Hwf|done|]. destruct (decide (fr_project r = p)); [left; lia|by right].
  - split; [apply Hids|]. rewrite reindex_moved. intros y (r & -> & Hr)%list_elem_of_fmap. exact (proj2 Hids r Hr).
  - rewrite reindex_moved. intros y (r & -> & Hr)%list_elem_of_fmap Hle. cbn in Hle. destruct (Hold r Hr Hle) as (r0 & Hr0 & Hid & Hpr & Hs).
    exists r0. split; [done|]. split; [done|]. split; [done|]. cbn. intros Hp. apply Hplace; [by apply elem_of_project|apply elem_of_project; split; [done|congruence]|done|by apply Hs].
  - intros y z (r & -> & Hr)%Hin (x & -> & Hx)%Hin Hgt Hle. cbn in Hgt, Hle.
    destruct (Hplan x Hx Hle) as (x0 & Hx0 & Hid & Hs0 & Hn). cbn [moved fr_seq set_seq]. rewrite Hn.
    assert (new_seq g r = fr_seq r) as ->.
    { apply elem_of_project in Hr as [Hr _]. exact (f_equal fr_seq (Hsame r Hr (or_introl Hgt))). }
    by apply (Hbelow r x x0).
  - intros y z (r & -> & Hr)%Hin (r' & -> & Hr')%Hin Hgt Hlt. cbn in Hgt, Hlt.
    pose proof Hr as [Hr1 _]%elem_of_project. pose proof Hr' as [Hr1' _]%elem_of_project.
    rewrite !Hsame by (done || left; lia). by apply Hcap.
Qed.

Lemma park_list_NoDup : NoDup park_list.*1 ∧ NoDup park_list.*2.
Proof using HT0.
  assert (NoDup (reverse (merge_sort seq_le S0))) as Hn by (rewrite reverse_sorted_perm; apply NoDup_filter, NoDup_table, HT0).
  assert (∀ x, x ∈ reverse (merge_sort seq_le S0) → x ∈ T0 ∧ fr_project x = p) as Hsub.
  { intros x. rewrite reverse_sorted_perm, list_elem_of_filter. intros [[Hp _] Hx]. done. }
  unfold pairs. rewrite <-!list_fmap_compose. split.
  - apply (NoDup_ids_sub _ T0); [apply HT0|done|]. intros x Hx. by apply Hsub.
  - by apply (NoDup_seqs p _ T0).
Qed.

Lemma elem_of_park_list x : x ∈ park_list ↔ ∃ r, r ∈ T0 ∧ suffix r ∧ x = (fr_id r, fr_seq r).
Proof using.
  unfold pairs. rewrite list_elem_of_fmap. setoid_rewrite reverse_sorted_perm. setoid_rewrite list_elem_of_filter. naive_solver.
Qed.

Lemma parked_map_lookup l r :
  l ⊆ park_list → NoDup l.*1 → r ∈ T0 →
  parked_map offset l !! fr_id r = if decide (fr_id r ∈ l.*1) then Some (fr_seq r + offset) else None.
Proof using HT0.
  intros Hsub Hn Hr. unfold parked_map. assert (((λ x : Z * Z, (x.1, x.2 + offset)) <$> l).*1 = l.*1) as Hfst by (by rewrite <-list_fmap_compose).
  case_decide as Hin.
  - apply elem_of_list_to_map_1; [by rewrite Hfst|]. apply list_elem_of_fmap in Hin as (x & Hid & Hx).
    destruct (proj1 (elem_of_park_list x) (Hsub x Hx)) as (r0 & Hr0 & _ & ->). cbn in Hid.
    assert (r = r0) as <- by (by apply (NoDup_ids_eq T0 _ _ (wf_ids T0 HT0))). apply list_elem_of_fmap. by exists (fr_id r, fr_seq r).
  - apply not_elem_of_list_to_map_1. by rewrite Hfst.
Qed.

(** Rows of the plan keep their project. *)
Lemma old_project pc t l r r0 :
  run_inv pc t l → r ∈ t → r0 ∈ T0 → fr_id r = fr_id r0 → fr_project r = fr_project r0.
Proof using HT0 HL0.
  intros Hi Hr Hr0 Hid. destruct (ri_old _ _ _ Hi r Hr) as (x & Hx & Hxi & Hp & _); [rewrite Hid; by apply HL0|].
  rewrite <-Hp. by rewrite (NoDup_ids_eq T0 x r0 (wf_ids T0 HT0)) by (done || congruence).
Qed.

Lemma plan_row pc t l r :
  run_inv pc t l → r ∈ of_project p t → fr_id r ≤ L0 →
  ∃ r0, r0 ∈ T0 ∧ fr_project r0 = p ∧ fr_id r0 = fr_id r ∧ fr_seq r = place pc r0.
Proof using.
  intros Hi [Hr Hp]%elem_of_project Hle. destruct (ri_old _ _ _ Hi r Hr Hle) as (r0 & ? & ? & Hpr & Hs).
  exists r0. split_and!; [done|congruence|done|by apply Hs].
Qed.

(** Parking a chunk. *)
Lemma parking_step todo n t l :
  run_inv (R_parking todo) t l → (1 ≤ n)%nat →
  ∃ t', park_rows (take n todo) offset t = Ok t' ∧ run_inv (R_parking (drop n todo)) t' l.
Proof using HT0 HL0 Hbound.
  intros Hi Hn. destruct (ri_pc _ _ _ Hi) as (k & Hk & Htodo). destruct park_list_NoDup as [Hnd1 Hnd2].
  assert (todo ⊆ park_list) as Hsub by (rewrite Htodo; intros x Hx; rewrite <-(take_drop k park_list); apply elem_of_app; by right).
  assert (NoDup todo.*1 ∧ NoDup todo.*2) as [Ht1 Ht2].
  { rewrite Htodo, !fmap_drop. rewrite <-(take_drop k park_list.*1) in Hnd1. rewrite <-(take_drop k park_list.*2) in Hnd2.
    apply NoDup_app in Hnd1 as (_ & _ & ?). by apply NoDup_app in Hnd2 as (_ & _ & ?). }
  rewrite <-(take_drop n todo), !fmap_app in Ht1, Ht2. apply NoDup_app in Ht1 as (Ht1 & Hdisj & _). apply NoDup_app in Ht2 as (Ht2 & _ & _).
  assert (take n todo ⊆ todo) as Htake by (intros x Hx; rewrite <-(take_drop n todo); apply elem_of_app; by left).
  assert (∀ x, x ∈ take n todo → ∃ r0, r0 ∈ T0 ∧ suffix r0 ∧ x = (fr_id r0, fr_seq r0)) as Hrows by (intros x Hx; by apply elem_of_park_list, Hsub, Htake).
  destruct (ri_room _ _ _ Hi) as [Htop Hnew].
  exists (reindex (parked_map offset (take n todo)) t). split.
  - unfold park_rows. apply (set_indexes_free p); [apply Hi| | | |].
    + by rewrite <-list_fmap_compose.
    + rewrite <-list_fmap_compose. replace (snd ∘ (λ x : Z * Z, (x.1, x.2 + offset)) <$> take n todo) with ((λ v, v + offset) <$> (take n todo).*2) by (by rewrite <-list_fmap_compose).
      apply NoDup_fmap_2; [intros ? ?; lia|done].
    + intros a r (x & -> & (r0 & Hr0 & [Hp _] & ->)%Hrows)%list_elem_of_fmap Hr Hid. cbn in Hid. by rewrite (old_project _ _ _ r r0 Hi Hr Hr0 Hid).
    + intros a z r (x & -> & Hx)%list_elem_of_fmap Hz Hzi Hr Hp Hs. destruct (Hrows x Hx) as (r0 & Hr0 & Hs0 & ->). cbn in Hzi, Hs |- *.
      assert (r ∈ of_project p t) as Hrp by (by apply elem_of_project).
      destruct (decide (fr_id r ≤ L0)) as [Hle|Hgt].
      * destruct (plan_row _ _ _ r Hi Hrp Hle) as (x0 & Hx0 & Hpx & Hidx & Hsx). rewrite <-Hidx. f_equal.
        rewrite Hsx in Hs. unfold place in Hs. pose proof (parked_above r0 x0 Hr0 Hx0 Hpx).
        destruct (decide (suffix x0)) as [Hsx0|]; [|lia]. destruct (decide (fr_id x0 ∈ todo.*1)); [lia|].
        apply (wf_unique T0 HT0); [done|done|destruct Hs0; congruence|lia].
      * specialize (Hnew r Hrp ltac:(lia)). pose proof (max_seq_bound (of_project p T0) r0 (proj2 (elem_of_project p T0 r0) (conj Hr0 (proj1 Hs0)))). lia.
  - apply (run_inv_moved (R_parking todo)); [apply Hi| | | | |].
    + exists (k + n)%nat. split; [lia|]. rewrite Htodo, drop_drop. done.
    + split.
      * destruct Htop as (r & [Hr Hp]%elem_of_project & Hle). exists (moved (parked_map offset (take n todo)) r).
        split; [rewrite elem_of_project, reindex_moved; split; [by apply list_elem_of_fmap_2|done]|]. cbn. unfold new_seq.
        destruct (parked_map offset (take n todo) !! fr_id r) as [v|] eqn:Hv; [|done]. cbn.
        apply elem_of_list_to_map_2 in Hv. apply list_elem_of_fmap in Hv as (x & [= Hid ->] & Hx). destruct (Hrows x Hx) as (r0 & Hr0 & Hs0 & ->). cbn in *.
        assert (fr_id r ≤ L0) as Hle0 by (rewrite Hid; by apply HL0).
        destruct (plan_row _ _ _ r Hi) as (x0 & Hx0 & Hpx & Hidx & Hsx); [by apply elem_of_project|done|].
        assert (x0 = r0) as -> by (apply (NoDup_ids_eq T0 _ _ (wf_ids T0 HT0)); congruence).
        rewrite Hsx in Hle. unfold place in Hle. rewrite decide_True in Hle by done.
        rewrite decide_True in Hle by (apply Htake in Hx; apply list_elem_of_fmap; by exists (fr_id r0, fr_seq r0)).
        pose proof (max_seq_bound (of_project p T0) r0 (proj2 (elem_of_project p T0 r0) (conj Hr0 Hpx))).
        pose proof (offset_above p (Some b) T0 r0 Hr0 Hpx). pose proof (wf_pos T0 HT0 r0 Hr0). lia.
      * rewrite reindex_moved. intros y [(r & -> & Hr)%list_elem_of_fmap Hp]%elem_of_project Hgt. cbn in Hgt. cbn. unfold new_seq.
        destruct (parked_map offset (take n todo) !! fr_id r) as [v|] eqn:Hv; [|apply Hnew; [by apply elem_of_project|done]]. exfalso.
        apply elem_of_list_to_map_2 in Hv. apply list_elem_of_fmap in Hv as (x & [= Hid ->] & Hx). destruct (Hrows x Hx) as (r0 & Hr0 & _ & ->). cbn in Hid.
        specialize (HL0 r0 Hr0). lia.
    + intros r Hr [v Hv]. apply elem_of_list_to_map_2 in Hv. apply list_elem_of_fmap in Hv as (x & [= Hid ->] & Hx).
      destruct (Hrows x Hx) as (r0 & Hr0 & [Hp _] & ->). cbn in Hid. split; [by rewrite (old_project _ _ _ r r0 Hi Hr Hr0 Hid)|]. rewrite Hid. by apply HL0.
    + intros r r0 Hr [Hr0 Hp0]%elem_of_project Hid Hs. unfold new_seq. rewrite <-Hid. rewrite parked_map_lookup; [|by intros x Hx; apply Hsub, Htake|done|done].
      rewrite Hs. unfold place.
      assert (fr_id r0 ∈ todo.*1 ↔ fr_id r0 ∈ (take n todo).*1 ∨ fr_id r0 ∈ (drop n todo).*1) as Hsplit by (rewrite <-(take_drop n todo) at 1; rewrite fmap_app; apply elem_of_app).
      destruct (decide (fr_id r0 ∈ (take n todo).*1)) as [Hin|Hout]; cbn.
      * assert (suffix r0) as Hs0.
        { apply list_elem_of_fmap in Hin as (x & Hidx & Hx). destruct (Hrows x Hx) as (z & Hz & Hsz & ->). cbn in Hidx.
          by rewrite (NoDup_ids_eq T0 r0 z (wf_ids T0 HT0)). }
        rewrite decide_True by done. rewrite decide_False; [done|]. intros Hd. by apply (Hdisj (fr_id r0)).
      * destruct (decide (suffix r0)); [|done]. repeat case_decide; tauto || lia.
    + intros r x x0 Hr Hx Hgt [Hx0 Hp0]%elem_of_project Hid _. pose proof (place_top (drop n todo) x0 Hx0 Hp0). specialize (Hnew r Hr Hgt). lia.
Qed.

Lemma after_parking_inv todo t l : run_inv (R_parking todo) t l → run_inv (after_parking todo) t l.
Proof using.
  intros Hi. destruct todo as [|x todo]; [|done]. cbn [after_parking].
  destruct Hi as [[Hwf Hids Hold Hafter Hcap] _ _]. constructor; [|done|done]. constructor; [done|done| |done|done].
  intros r Hr Hle. destruct (Hold r Hr Hle) as (r0 & Hr0 & Hid & Hp & Hs). exists r0. split_and!; [done..|]. intros Hpr. rewrite (Hs Hpr).
  unfold place. destruct (decide (suffix r0)); [|done]. rewrite !decide_False by apply not_elem_of_nil. done.
Qed.

(** Giving a chunk its final indexes. *)
Lemma chunk_assignment n c a :
  a ∈ number_from (start + Z.of_nat n) (take c (drop n order)) →
  ∃ i r0, (n ≤ i < n + c)%nat ∧ S0 !! i = Some r0 ∧ r0 ∈ T0 ∧ suffix r0 ∧ a = (fr_id r0, final r0) ∧ final r0 = start + Z.of_nat i.
Proof using HT0.
  destruct a as [id v]. intros (j & Hj & ->)%elem_of_number_from. apply lookup_take_Some in Hj as [Hj Hlt]. rewrite lookup_drop, list_lookup_fmap in Hj.
  apply fmap_Some in Hj as (r0 & Hi & ->). exists (n + j)%nat, r0. pose proof Hi as [Hr0 Hs]%list_elem_of_lookup_2%elem_of_suffix_rows.
  destruct (final_spec r0 Hr0 Hs) as (i & Hi' & Hf & _).
  assert (NoDup S0) as Hnd by (eapply NoDup_fmap_1, NoDup_suffix_ids, HT0). rewrite <-(NoDup_lookup _ _ _ _ Hnd Hi Hi') in Hf.
  split_and!; [lia|lia|done|done|done|f_equal; lia|lia].
Qed.

Lemma assigned_lookup n c r :
  r ∈ T0 → suffix r →
  (list_to_map (number_from (start + Z.of_nat n) (take c (drop n order))) : gmap Z Z) !! fr_id r =
  if decide (fr_id r ∈ take (n + c) order ∧ fr_id r ∉ take n order) then Some (final r) else None.
Proof using HT0.
  intros Hr Hs. assert (NoDup S0) as Hnd by (eapply NoDup_fmap_1, NoDup_suffix_ids, HT0).
  destruct (final_spec r Hr Hs) as (i & Hi & Hf & _).
  assert (∀ m, fr_id r ∈ take m order ↔ (i < m)%nat) as Htake.
  { intros m. rewrite (elem_of_order m r Hr Hs). split; [|by exists i]. intros (j & Hlt & Hj). by rewrite (NoDup_lookup _ _ _ _ Hnd Hi Hj). }
  case_decide as Hd; rewrite !Htake in Hd.
  - apply elem_of_list_to_map_1.
    + rewrite number_from_fst. rewrite <-fmap_drop, <-fmap_take. apply (NoDup_ids_sub _ T0); [apply HT0| |].
      * apply (sublist_NoDup _ S0); [done|]. etrans; [apply sublist_take|apply sublist_drop].
      * intros x Hx. apply (elem_of_suffix_rows p (Some b)). eapply subseteq_drop, subseteq_take, Hx.
    + apply elem_of_number_from. exists (i - n)%nat. rewrite lookup_take_lt, lookup_drop, list_lookup_fmap by lia.
      replace (n + (i - n))%nat with i by lia. rewrite Hi. split; [done|lia].
  - apply not_elem_of_list_to_map_1. rewrite list_elem_of_fmap. intros (a & Hid & Ha). destruct (chunk_assignment _ _ _ Ha) as (j & r0 & Hj & Hl & Hr0 & _ & -> & _).
    cbn in Hid. rewrite (NoDup_ids_eq T0 r r0 (wf_ids T0 HT0)) in Hi by done. rewrite (NoDup_lookup _ _ _ _ Hnd Hi Hl) in Hd. lia.
Qed.

Lemma assigning_step n c t l :
  run_inv (R_assigning n) t l →
  ∃ t', set_sequence_indexes (number_from (start + Z.of_nat n) (take c (drop n order))) t = Ok t' ∧ run_inv (R_assigning (n + c)) t' l.
Proof using HT0 HL0 Hbound.
  intros Hi. set (a := number_from (start + Z.of_nat n) (take c (drop n order))).
  assert (NoDup S0) as Hnd by (eapply NoDup_fmap_1, NoDup_suffix_ids, HT0).
  assert (∀ i r0, S0 !! i = Some r0 → (n ≤ i)%nat → r0 ∈ T0 → suffix r0 → fr_id r0 ∉ take n order) as Hnot.
  { intros i r0 Hl Hle Hr0 Hs0 (j & Hlt & Hj)%elem_of_order; [|done..]. rewrite (NoDup_lookup _ _ _ _ Hnd Hl Hj) in Hle. lia. }
  (* where a live row of the chunk stands *)
  assert (∀ x r0, x ∈ t → r0 ∈ T0 → suffix r0 → fr_id x = fr_id r0 → fr_id r0 ∉ take n order →
    x ∈ of_project p t ∧ fr_id x ≤ L0 ∧ fr_seq x = fr_seq r0 + offset) as Hlive.
  { intros x r0 Hx Hr0 Hs0 Hid Hn. pose proof (old_project _ _ _ x r0 Hi Hx Hr0 Hid) as Hp.
    assert (x ∈ of_project p t) as Hxp by (apply elem_of_project; split; [done|rewrite Hp; apply Hs0]).
    assert (fr_id x ≤ L0) as Hle by (rewrite Hid; by apply HL0). split; [done|]. split; [done|].
    destruct (plan_row _ _ _ x Hi Hxp Hle) as (x0 & Hx0 & _ & Hidx & Hs).
    rewrite (NoDup_ids_eq T0 x0 r0 (wf_ids T0 HT0)) in Hs by (done || congruence).
    rewrite Hs. unfold place. by rewrite decide_True, decide_False. }
  exists (reindex (list_to_map a) t). split.
  - apply (set_indexes_free p); [apply Hi| |apply number_from_snd| |].
    + unfold a. rewrite number_from_fst. apply (sublist_NoDup _ order); [apply NoDup_suffix_ids, HT0|]. etrans; [apply sublist_take|apply sublist_drop].
    + intros x r (i & r0 & _ & _ & Hr0 & Hs0 & -> & _)%chunk_assignment Hr Hid. cbn in Hid. rewrite (old_project _ _ _ r r0 Hi Hr Hr0 Hid). apply Hs0.
    + intros y x r (i & r0 & Hin & Hl & Hr0 & Hs0 & -> & Hf)%chunk_assignment Hx Hxi Hr Hp Hs. cbn in Hxi, Hs |- *.
      destruct (Hlive x r0 Hx Hr0 Hs0 Hxi) as (Hxp & Hxl & Hxs); [by apply (Hnot i); [|lia|..]|].
      assert (r ∈ of_project p t) as Hrp by (by apply elem_of_project). pose proof (targets_below r0 Hr0). pose proof Hl as Hlt%lookup_lt_Some.
      destruct (decide (fr_id r ≤ L0)) as [Hle|Hgt]; [|pose proof (ri_after _ _ _ Hi r x Hrp Hxp ltac:(lia) Hxl); lia].
      destruct (plan_row _ _ _ r Hi Hrp Hle) as (z & Hz & Hpz & Hzi & Hzs). rewrite <-Hzi. f_equal. rewrite Hzs in Hs. unfold place in Hs.
      pose proof (targets_below z Hz). destruct (decide (suffix z)) as [Hsz|Hnz].
      * destruct (decide (fr_id z ∈ take n order)); [|lia]. destruct (final_spec z Hz Hsz) as (j & Hj & Hfj & _). assert (i = j) as -> by lia. congruence.
      * pose proof (below_start p (Some b) T0 z Hz Hpz Hnz). lia.
  - apply (run_inv_moved (R_assigning n)); [apply Hi|done|done| | |].
    + intros r Hr [v Hv]. apply elem_of_list_to_map_2 in Hv. apply chunk_assignment in Hv as (i & r0 & Hin & Hl & Hr0 & Hs0 & [= Hid _] & _).
      destruct (Hlive r r0 Hr Hr0 Hs0 Hid) as ([_ Hp]%elem_of_project & ? & _); [by apply (Hnot i); [|lia|..]|]. done.
    + intros r r0 Hr [Hr0 Hp0]%elem_of_project Hid Hs. unfold new_seq. rewrite <-Hid. rewrite Hs. unfold place. destruct (decide (suffix r0)) as [Hs0|Hn0].
      * unfold a. rewrite assigned_lookup by done. assert (fr_id r0 ∈ take n order → fr_id r0 ∈ take (n + c) order).
        { rewrite !elem_of_order by done. intros (i & ? & ?). exists i. split; [lia|done]. }
        repeat case_decide; cbn; tauto.
      * destruct (list_to_map a !! fr_id r0) as [v|] eqn:Hv; [|done]. exfalso. apply elem_of_list_to_map_2 in Hv.
        apply chunk_assignment in Hv as (i & z & _ & _ & Hz & Hsz & [= Hidz _] & _). by rewrite (NoDup_ids_eq T0 r0 z (wf_ids T0 HT0)) in Hn0.
    + intros r x x0 Hr Hx Hgt [Hx0 Hp0]%elem_of_project Hid Hs. assert (fr_id x ≤ L0) as Hle by (rewrite <-Hid; by apply HL0).
      pose proof (ri_after _ _ _ Hi r x Hr Hx Hgt Hle) as Hlt. pose proof (targets_below x0 Hx0). rewrite Hs in Hlt. unfold place in Hlt |- *.
      destruct (decide (suffix x0)) as [Hs0|]; [|lia]. destruct (final_spec x0 Hx0 Hs0) as (i & _ & _ & ?).
      destruct (decide (fr_id x0 ∈ take (n + c) order)) as [|Hn']; [case_decide; lia|]. rewrite decide_False in Hlt; [done|].
      intros Hin. apply Hn'. revert Hin. rewrite !elem_of_order by done. intros (j & ? & ?). exists j. split; [lia|done].
Qed.

Lemma assigned_all n t l :
  (length order ≤ n)%nat → run_inv (R_assigning n) t l → run_inv (R_compacting (start + Z.of_nat (length order))) t l.
Proof using HT0.
  intros Hlen Hi. destruct Hi as [[Hwf Hids Hold Hafter Hcap] _ _]. constructor; [|done|cbn; rewrite length_fmap; lia]. constructor; [done|done| |done|done].
  intros r Hr Hle. destruct (Hold r Hr Hle) as (r0 & Hr0 & Hid & Hp & Hs). exists r0. split_and!; [done..|]. intros Hpr. rewrite (Hs Hpr).
  unfold place. destruct (decide (suffix r0)) as [Hs0|]; [|done]. rewrite decide_True; [done|]. rewrite take_ge by done.
  apply list_elem_of_fmap. exists r0. split; [done|]. by apply elem_of_suffix_rows.
Qed.

(** Moving rows without changing their order. *)
Lemma run_inv_monotone pc pc' g t l :
  run_core pc t l → plan_pc pc' → run_room pc' (reindex g t) → (∀ r0, place pc' r0 = place pc r0) →
  (∀ r, r ∈ t → fr_project r ≠ p ∨ fr_id r ≤ L0 → new_seq g r = fr_seq r) →
  (∀ r, r ∈ t → 1 ≤ new_seq g r) →
  (∀ r r', r ∈ of_project p t → r' ∈ of_project p t → fr_seq r < fr_seq r' → new_seq g r < new_seq g r') →
  run_inv pc' (reindex g t) l.
Proof using.
  intros [Hwf Hids Hold Hafter Hcap] Hpc' Hroom Hplace Hsame Hpos Hmono.
  assert (∀ r', r' ∈ of_project p (reindex g t) → ∃ r, r' = moved g r ∧ r ∈ of_project p t) as Hin.
  { intros r'. rewrite elem_of_project, reindex_moved. intros [(r & -> & Hr)%list_elem_of_fmap Hp]. exists r. split; [done|]. by apply elem_of_project. }
  constructor; [|done|done]. constructor.
  - constructor.
    + rewrite reindex_ids. apply Hwf.
    + rewrite reindex_moved. intros y y' (r & -> & Hr)%list_elem_of_fmap (r' & -> & Hr')%list_elem_of_fmap Hp Hs. cbn in Hp, Hs. f_equal.
      apply (wf_unique t Hwf); [done|done|done|]. destruct (decide (fr_project r = p)) as [Hpr|Hpr].
      * pose proof (Hmono r r' (proj2 (elem_of_project p t r) (conj Hr Hpr)) (proj2 (elem_of_project p t r') (conj Hr' (eq_trans (eq_sym Hp) Hpr)))).
        pose proof (Hmono r' r (proj2 (elem_of_project p t r') (conj Hr' (eq_trans (eq_sym Hp) Hpr))) (proj2 (elem_of_project p t r) (conj Hr Hpr))). lia.
      * rewrite !Hsame in Hs by (done || left; congruence). done.
    + rewrite reindex_moved. intros y (r & -> & Hr)%list_elem_of_fmap. by apply Hpos.
  - split; [apply Hids|]. rewrite reindex_moved. intros y (r & -> & Hr)%list_elem_of_fmap. exact (proj2 Hids r Hr).
  - rewrite reindex_moved. intros y (r & -> & Hr)%list_elem_of_fmap Hle. cbn in Hle. destruct (Hold r Hr Hle) as (r0 & Hr0 & Hid & Hpr & Hs).
    exists r0. split; [done|]. split; [done|]. split; [done|]. cbn. intros Hp. rewrite Hsame, Hplace by (done || by right). by apply Hs.
  - intros y z (r & -> & Hr)%Hin (x & -> & Hx)%Hin Hgt Hle. apply Hmono; [done|done|]. by apply Hafter.
  - intros y z (r & -> & Hr)%Hin (r' & -> & Hr')%Hin Hgt Hlt. apply Hmono; [done|done|]. by apply Hcap.
Qed.

Lemma plan_below_tail next t l r :
  run_inv (R_compacting next) t l → r ∈ of_project p t → next ≤ fr_seq r → L0 < fr_id r.
Proof using HT0.
  intros Hi Hr Hle. destruct (decide (L0 < fr_id r)) as [|Hold]; [done|].
  destruct (plan_row _ _ _ r Hi Hr ltac:(lia)) as (r0 & Hr0 & Hp & _ & Hs). pose proof (ri_room _ _ _ Hi) as Hroom. change (start + K ≤ next) in Hroom.
  unfold place in Hs. cbv beta iota in Hs. destruct (decide (suffix r0)) as [Hs0|Hn].
  - destruct (final_spec r0 Hr0 Hs0) as (_ & _ & _ & ?). lia.
  - pose proof (below_start p (Some b) T0 r0 Hr0 Hp Hn). lia.
Qed.

Lemma compacting_step next m t l :
  let tail := take m (merge_sort seq_le (filter (λ r, fr_project r = p ∧ next ≤ fr_seq r) t)) in
  run_inv (R_compacting next) t l →
  ∃ t', set_sequence_indexes (moves_down next tail) t = Ok t' ∧
    run_inv R_done t' l ∧ run_inv (R_compacting (next + Z.of_nat (length tail))) t' l.
Proof using HT0.
  intros tail Hi. pose proof (ri_wf _ _ _ Hi) as Hwf. destruct (tail_facts p next m t Hwf) as (Hs & Hnd & Hin & Hrest).
  exists (reindex (list_to_map (number_from next (fr_id <$> tail))) t). split; [by apply (compact_ok p); [apply Hwf|..]|].
  pose proof (ri_room _ _ _ Hi) as Hroom. change (start + K ≤ next) in Hroom. pose proof (start_bound p (Some b) T0 (wf_pos T0 HT0)).
  assert (∀ r, r ∈ t → fr_project r ≠ p ∨ fr_id r ≤ L0 → new_seq (list_to_map (number_from next (fr_id <$> tail))) r = fr_seq r) as Hsame.
  { intros r Hr Hor. destruct (tail_moves p next m t Hwf r Hr) as [[_ ?]|(i & Hl & _)]; [done|exfalso]. apply list_elem_of_lookup_2 in Hl.
    destruct (Hin r Hl) as (_ & Hp & Hle). destruct Hor as [?|Hold]; [done|].
    pose proof (plan_below_tail next t l r Hi (proj2 (elem_of_project p t r) (conj Hr Hp)) Hle). lia. }
  assert (∀ r, r ∈ t → 1 ≤ new_seq (list_to_map (number_from next (fr_id <$> tail))) r) as Hpos.
  { intros r Hr. pose proof (wf_pos t Hwf r Hr). destruct (tail_moves p next m t Hwf r Hr) as [[_ Hn]|(i & _ & Hn & _)]; unfold tail; rewrite Hn; lia. }
  split; eapply run_inv_monotone; try exact (ri_core _ _ _ Hi); try done; try (intros r r'; by apply tail_monotone); cbn [run_room]; lia.
Qed.

(** ** What happens between the transactions *)
Lemma capture_inv pc t l r :
  run_inv pc t l → fr_id r = l + 1 → fr_seq r = next_index (fr_project r) t → run_inv pc (t ++ [r]) (l + 1).
Proof using.
  intros [[Hwf [Hl Hids] Hold Hafter Hcap] Hpc Hroom] Hid Hseq.
  assert (∀ x, x ∈ t ++ [r] ↔ x ∈ t ∨ x = r) as Happ by (intros x; by rewrite elem_of_app, list_elem_of_singleton).
  assert (∀ x, x ∈ t → fr_project x = fr_project r → fr_seq x < fr_seq r) as Hmax.
  { intros x Hx Hp. rewrite Hseq. unfold next_index.
    pose proof (max_seq_bound (of_project (fr_project r) t) x (proj2 (elem_of_project _ _ _) (conj Hx Hp))). lia. }
  assert (∀ x, x ∈ of_project p (t ++ [r]) ↔ x ∈ of_project p t ∨ (x = r ∧ fr_project r = p)) as Hproj.
  { intros x. rewrite !elem_of_project, Happ. naive_solver. }
  constructor; [constructor|done|].
  - constructor.
    + rewrite fmap_app. apply NoDup_app. split_and!; [apply Hwf| |apply NoDup_singleton].
      intros i (x & -> & Hx)%list_elem_of_fmap Heq%list_elem_of_singleton. specialize (Hids x Hx). lia.
    + intros x y [Hx| ->]%Happ [Hy| ->]%Happ Hp Hs; [by apply (wf_unique t Hwf)| | |done].
      * pose proof (Hmax x Hx Hp). lia.
      * pose proof (Hmax y Hy (eq_sym Hp)). lia.
    + intros x [Hx| ->]%Happ; [by apply Hwf|]. rewrite Hseq. unfold next_index. pose proof (start_bound (fr_project r) None t (wf_pos t Hwf)). lia.
  - split; [lia|]. intros x [Hx| ->]%Happ; [specialize (Hids x Hx); lia|lia].
  - intros x [Hx| ->]%Happ Hle; [by apply Hold|lia].
  - intros x y [Hx|[-> Hp]]%Hproj [Hy|[-> _]]%Hproj Hgt Hle; [by apply Hafter|lia| |lia]. apply elem_of_project in Hy as [Hy Hpy]. apply Hmax; [done|congruence].
  - intros x y [Hx|[-> Hp]]%Hproj [Hy|[-> Hp']]%Hproj Hgt Hlt; [by apply Hcap| | |lia].
    + apply elem_of_project in Hx as [Hx Hpx]. apply Hmax; [done|congruence].
    + apply elem_of_project in Hy as [Hy _]. specialize (Hids y Hy). lia.
  - destruct pc; try done. destruct Hroom as [(x & Hx & Hle) Hnew]. split.
    + exists x. split; [|done]. apply Hproj. by left.
    + intros y [Hy|[-> Hp]]%Hproj Hgt; [by apply Hnew|]. apply elem_of_project in Hx as [Hx Hpx]. pose proof (Hmax x Hx ltac:(congruence)). lia.
Qed.

Lemma edit_inv pc t l h :
  (∀ r, fr_id (h r) = fr_id r ∧ fr_project (h r) = fr_project r ∧ fr_seq (h r) = fr_seq r) → run_inv pc t l → run_inv pc (h <$> t) l.
Proof using.
  intros Hh [[Hwf [Hl Hids] Hold Hafter Hcap] Hpc Hroom].
  assert (∀ x, x ∈ of_project p (h <$> t) → ∃ r, x = h r ∧ r ∈ of_project p t) as Hproj.
  { intros x [(r & -> & Hr)%list_elem_of_fmap Hp]%elem_of_project. exists r. split; [done|]. apply elem_of_project. split; [done|]. by rewrite <-(proj1 (proj2 (Hh r))). }
  assert (∀ r, fr_id (h r) = fr_id r) as Hi by apply Hh. assert (∀ r, fr_project (h r) = fr_project r) as Hp by apply Hh.
  assert (∀ r, fr_seq (h r) = fr_seq r) as Hs by apply Hh.
  constructor; [constructor|done|].
  - constructor.
    + rewrite <-list_fmap_compose. rewrite (list_fmap_ext (fr_id ∘ h) fr_id t); [apply Hwf|]. intros. cbn. apply Hi.
    + intros x y (r & -> & Hr)%list_elem_of_fmap (r' & -> & Hr')%list_elem_of_fmap. rewrite !Hp, !Hs. intros. f_equal. by apply (wf_unique t Hwf).
    + intros x (r & -> & Hr)%list_elem_of_fmap. rewrite Hs. by apply Hwf.
  - split; [done|]. intros x (r & -> & Hr)%list_elem_of_fmap. rewrite Hi. by apply Hids.
  - intros x (r & -> & Hr)%list_elem_of_fmap. rewrite Hi, Hp, Hs. by apply Hold.
  - intros x y (r & -> & Hr)%Hproj (r' & -> & Hr')%Hproj. rewrite !Hi, !Hs. by apply Hafter.
  - intros x y (r & -> & Hr)%Hproj (r' & -> & Hr')%Hproj. rewrite !Hi, !Hs. by apply Hcap.
  - destruct pc; try done. destruct Hroom as [(x & [Hx Hpx]%elem_of_project & Hle) Hnew]. split.
    + exists (h x). rewrite Hs. split; [|done]. apply elem_of_project. rewrite Hp. split; [by apply list_elem_of_fmap_2|done].
    + intros y (r & -> & Hr)%Hproj. rewrite Hi, Hs. by apply Hnew.
Qed.

Lemma delete_inv pc t l r :
  run_inv pc t l → r ∈ t → (match pc with R_parking _ => fr_project r = p | _ => False end → ¬ is_highest t r) →
  run_inv pc (filter (λ x, fr_id x ≠ fr_id r) t) l.
Proof using.
  intros [[Hwf [Hl Hids] Hold Hafter Hcap] Hpc Hroom] Hr Hguard.
  assert (∀ x, x ∈ filter (λ x, fr_id x ≠ fr_id r) t → x ∈ t) as Hsub by (intros x [_ ?]%list_elem_of_filter; done).
  assert (∀ x, x ∈ of_project p (filter (λ x, fr_id x ≠ fr_id r) t) → x ∈ of_project p t) as Hproj.
  { intros x [Hx Hp]%elem_of_project. apply elem_of_project. split; [by apply Hsub|done]. }
  constructor; [constructor|done|].
  - constructor.
    + apply (NoDup_ids_sub _ t); [apply Hwf|apply NoDup_filter, NoDup_table, Hwf|done].
    + intros x y Hx%Hsub Hy%Hsub. by apply (wf_unique t Hwf).
    + intros x Hx%Hsub. by apply Hwf.
  - split; [done|]. intros x Hx%Hsub. by apply Hids.
  - intros x Hx%Hsub. by apply Hold.
  - intros x y Hx%Hproj Hy%Hproj. by apply Hafter.
  - intros x y Hx%Hproj Hy%Hproj. by apply Hcap.
  - destruct pc; try done. destruct Hroom as [(x & Hxp & Hle) Hnew]. split; [|intros y Hy%Hproj; by apply Hnew].
    pose proof Hxp as [Hx Hp]%elem_of_project. destruct (decide (fr_id x = fr_id r)) as [Heq|Hne].
    + assert (x = r) as -> by (apply (NoDup_ids_eq t); [apply Hwf|done..]).
      assert (∃ y, y ∈ t ∧ fr_project y = p ∧ fr_seq r < fr_seq y) as (y & Hy & Hpy & Hlt).
      { specialize (Hguard Hp). destruct (decide (Exists (λ y, fr_project y = p ∧ fr_seq r < fr_seq y) t)) as [(y & Hy & Hpy & Hlt)%Exists_exists|Hn]; [by exists y|].
        destruct Hguard. intros y Hy Hpy. destruct (decide (fr_seq r < fr_seq y)) as [Hlt|]; [|lia]. destruct Hn. apply Exists_exists. exists y. split; [done|]. split; [congruence|done]. }
      exists y. split; [|lia]. apply elem_of_project. split; [|done]. apply list_elem_of_filter. split; [|done].
      intros He. rewrite (NoDup_ids_eq t y r (wf_ids t Hwf) Hy Hr He) in Hlt. lia.
    + exists x. split; [|done]. apply elem_of_project. split; [|done]. by apply list_elem_of_filter.
Qed.

(** ** The run *)
Definition the_plan (n : nat) : Renumber := MkRenumber p n start offset order.
Definition shelf_inv (n : nat) (s : Shelf) : Prop :=
  match sh_run s with
  | Some (rn, pc) => rn = the_plan n ∧ run_inv pc (sh_frames s) (sh_last_id s)
  | None => run_inv R_done (sh_frames s) (sh_last_id s)
  end.

Lemma chunk_inv n pc t l :
  (1 ≤ n)%nat → run_inv pc t l → ∃ t' pc', renumber_step (the_plan n) pc t = Ok (t', pc') ∧ run_inv pc' t' l.
Proof using HT0 HL0 Hbound.
  intros Hn Hi. destruct pc as [todo|m|next|]; cbn [renumber_step the_plan rn_chunk rn_offset rn_order rn_start rn_project].
  - destruct (parking_step todo n t l Hi Hn) as (t' & -> & Hi'). eexists _, _. split; [done|]. by apply after_parking_inv.
  - destruct (assigning_step m n t l Hi) as (t' & -> & Hi'). eexists _, _. split; [done|].
    destruct (m + n <? length order)%nat eqn:Hlt; [done|]. apply Nat.ltb_ge in Hlt. by apply (assigned_all (m + n)).
  - unfold compact_tail. destruct (compacting_step next (Z.to_nat RENUMBER_CHUNK_ROWS) t l Hi) as (t' & -> & Hd & Hc). eexists _, _. split; [done|].
    by destruct (Z.of_nat _ <? RENUMBER_CHUNK_ROWS).
  - by exists t, R_done.
Qed.

Lemma shelf_inv_step n s s' : (1 ≤ n)%nat → shelf_inv n s → shelf_step s s' → shelf_inv n s'.
Proof using HT0 HL0 Hbound.
  intros Hn Hi Hst. destruct Hst as [s s' Hb|t l rn pc t' pc' Hst].
  - assert (∃ pc, run_inv pc (sh_frames s) (sh_last_id s) ∧ match sh_run s with Some (rn, pc') => rn = the_plan n ∧ pc' = pc | None => pc = R_done end) as (pc & Hpc & Hrun).
    { unfold shelf_inv in Hi. destruct (sh_run s) as [[rn pc]|]; [destruct Hi; by exists pc|by exists R_done]. }
    assert (run_inv pc (sh_frames s') (sh_last_id s') ∧ sh_run s' = sh_run s) as [Hpc' Hrun'].
    { destruct Hb as [t l run r Hid Hseq|t l run id f Hf|t l run r Hr Hg]; cbn in *; (split; [|done]).
      - by apply capture_inv.
      - unfold modify. apply edit_inv; [|done]. intros r. case_decide; [apply Hf|done].
      - apply delete_inv; [done|done|]. intros Hp. apply Hg. destruct run as [[rn pc']|]; [destruct Hrun as [-> ->]|by rewrite Hrun in Hp].
        by destruct pc. }
    unfold shelf_inv. rewrite Hrun'. destruct (sh_run s) as [[rn pc']|]; [destruct Hrun as [-> ->]; done|by subst pc].
  - destruct Hi as [-> Hi]. cbn in Hi. destruct (chunk_inv n pc t l Hn Hi) as (t'' & pc'' & Hst' & Hi'). rewrite Hst in Hst'. injection Hst' as <- <-.
    by destruct pc'.
Qed.

Lemma shelf_inv_steps n s s' : (1 ≤ n)%nat → shelf_inv n s → rtc shelf_step s s' → shelf_inv n s'.
Proof using HT0 HL0 Hbound. intros Hn Hi. induction 1 as [|s s1 s' Hst _ IH]; [done|]. apply IH. by apply (shelf_inv_step n s). Qed.

(** The first transaction parks the top of the project. *)
Lemma plan_start : run_core (R_parking park_list) T0 L0.
Proof using HT0 HL0.
  constructor; [done|done| | |].
  - intros r Hr _. exists r. split_and!; [done..|]. intros Hp. unfold place. destruct (decide (suffix r)) as [Hs|]; [|done].
    rewrite decide_True; [done|]. apply list_elem_of_fmap. exists (fr_id r, fr_seq r). split; [done|]. apply elem_of_park_list. by exists r.
  - intros r x [Hr _]%elem_of_project _ Hgt. specialize (HL0 r Hr). lia.
  - intros r x [Hr _]%elem_of_project _ Hgt. specialize (HL0 r Hr). lia.
Qed.

Lemma park_list_top x l : park_list = x :: l → ∃ r, r ∈ T0 ∧ suffix r ∧ x = (fr_id r, fr_seq r) ∧ max_seq (of_project p T0) = Some (fr_seq r).
Proof using HT0 Hbound.
  intros Hl. assert (park_list !! 0%nat = Some x) as (r & Hr & Hs & -> & H0)%park_list_lookup by (by rewrite Hl). exists r. split_and!; [done..|].
  pose proof (proj2 (elem_of_project p T0 r) (conj Hr (proj1 Hs))) as Hrp. pose proof (max_seq_bound _ r Hrp) as Hle.
  pose proof (max_seq_spec (of_project p T0)) as Hm. destruct (max_seq (of_project p T0)) as [m|]; [|rewrite Hm in Hrp; by apply elem_of_nil in Hrp].
  destruct Hm as [(z & [Hz Hpz]%elem_of_project & <-) _]. cbn in Hle. f_equal. destruct (decide (suffix z)) as [Hsz|Hnz].
  - assert (z ∈ reverse (merge_sort seq_le S0)) as [j Hj]%list_elem_of_lookup by (rewrite reverse_sorted_perm, list_elem_of_filter; done).
    destruct j as [|j]; [congruence|]. pose proof (StronglySorted_reverse_lookup (merge_sort seq_le S0) 0 (S j) r z) as Hsrt.
    specialize (Hsrt ltac:(apply StronglySorted_merge_sort; apply _) H0 Hj ltac:(lia)). lia.
  - pose proof (prefix_below z r Hz Hpz Hnz Hr Hs). lia.
Qed.

Notation rows := (reverse (merge_sort seq_le S0)).
Lemma first_chunk_inv n t' :
  (1 ≤ n)%nat → park_list ≠ [] → park_rows (take n park_list) offset T0 = Ok t' → run_inv (after_parking (drop n park_list)) t' L0.
Proof using HT0 HL0 Hbound.
  intros Hn Hne Hpark.
  assert (NoDup rows ∧ ∀ x, x ∈ rows → x ∈ T0 ∧ fr_project x = p ∧ suffix x) as [Hnd Hrows].
  { split; [rewrite reverse_sorted_perm; apply NoDup_filter, NoDup_table, HT0|]. intros x. rewrite reverse_sorted_perm, list_elem_of_filter. intros [Hs Hx]. split_and!; [done|apply Hs|done]. }
  assert (take n park_list = pairs (take n rows)) as Htake by (unfold pairs; by rewrite fmap_take).
  assert (∀ x, x ∈ take n rows → x ∈ T0 ∧ fr_project x = p) as Hsub by (intros x Hx; destruct (Hrows x) as (? & ? & _); [by eapply subseteq_take|done]).
  assert (NoDup (take n rows)) as Hndt by (apply (sublist_NoDup _ rows); [done|apply sublist_take]).
  rewrite Htake, (park_ok p) in Hpark by (try done; try apply offset_above). injection Hpark as <-.
  assert (∀ r, r ∈ T0 → new_seq (parked_map offset (pairs (take n rows))) r = if decide (r ∈ take n rows) then fr_seq r + offset else fr_seq r) as Hnew.
  { intros r Hr. unfold new_seq. rewrite (parked_lookup p T0) by (done || apply HT0). by case_decide. }
  apply after_parking_inv. apply (run_inv_moved (R_parking park_list)); [apply plan_start| | | | |].
  - exists n. done.
  - split.
    + assert (∃ x l, park_list = x :: l) as (x & l & Hl) by (destruct park_list as [|x l]; [done|by exists x, l]). destruct (park_list_top x l Hl) as (r & Hr & Hs & -> & Hmax). exists (moved (parked_map offset (pairs (take n rows))) r).
      split; [rewrite elem_of_project, reindex_moved; split; [by apply list_elem_of_fmap_2|apply Hs]|]. cbn [moved fr_seq set_seq]. rewrite Hnew, Hmax by done.
      rewrite decide_True; [cbn; lia|]. assert (∃ z, rows !! 0%nat = Some z ∧ (fr_id z, fr_seq z) = (fr_id r, fr_seq r)) as (z & Hz & [= Hid _]).
      { assert (park_list !! 0%nat = Some (fr_id r, fr_seq r)) as H0 by (by rewrite Hl). unfold pairs in H0. rewrite list_lookup_fmap, fmap_Some in H0. destruct H0 as (z & Hz & He). by exists z. }
      apply list_elem_of_lookup. exists 0%nat. rewrite lookup_take_lt by lia. rewrite Hz. f_equal.
      apply (NoDup_ids_eq T0); [apply HT0|apply Hrows; by eapply list_elem_of_lookup_2|done|done].
    + rewrite reindex_moved. intros y [(r & -> & Hr)%list_elem_of_fmap _]%elem_of_project Hgt. cbn in Hgt. specialize (HL0 r Hr). lia.
  - intros r Hr [v Hv]. split; [|by apply HL0]. unfold parked_map, pairs in Hv. apply elem_of_list_to_map_2 in Hv. rewrite <-list_fmap_compose in Hv.
    apply list_elem_of_fmap in Hv as (x & [= Hid _] & Hx). destruct (Hsub x Hx) as [Hx0 Hpx]. by rewrite (NoDup_ids_eq T0 r x (wf_ids T0 HT0)).
  - intros r r0 [Hr Hp]%elem_of_project [Hr0 Hp0]%elem_of_project Hid _. rewrite (NoDup_ids_eq T0 r0 r (wf_ids T0 HT0)) by done. rewrite Hnew by done. unfold place.
    destruct (decide (suffix r)) as [Hs|Hns].
    2: { rewrite decide_False; [done|]. intros Hx%subseteq_take. by destruct (Hrows r Hx) as (_ & _ & ?). }
    assert (r ∈ take n rows ∨ r ∈ drop n rows) as Hor.
    { rewrite <-elem_of_app, take_drop. rewrite reverse_sorted_perm, list_elem_of_filter. done. }
    assert (fr_id r ∈ (drop n park_list).*1 ↔ r ∈ drop n rows) as Hdrop.
    { unfold pairs. rewrite <-fmap_drop, <-list_fmap_compose, list_elem_of_fmap. split; [|intros; by exists r].
      intros (x & Hidx & Hx). cbn in Hidx. destruct (Hrows x) as (Hx0 & _); [by eapply subseteq_drop|]. by rewrite (NoDup_ids_eq T0 r x (wf_ids T0 HT0)). }
    rewrite <-(take_drop n rows) in Hnd. apply NoDup_app in Hnd as (_ & Hdis & _).
    destruct (decide (r ∈ take n rows)) as [Ht|Ht], (decide (fr_id r ∈ (drop n park_list).*1)) as [Hd|Hd]; try done.
    + exfalso. rewrite Hdrop in Hd. by apply (Hdis r).
    + exfalso. rewrite Hdrop in Hd. tauto.
  - intros r x x0 [Hr _]%elem_of_project _ Hgt. specialize (HL0 r Hr). lia.
Qed.

(** When the run is over, no two rows of the plan are in the wrong order. *)
Lemma final_ordered x y :
  x ∈ of_project p T0 → y ∈ of_project p T0 → place R_done x < place R_done y → breaks_order x y = true → False.
Proof using HT0 Hbound.
  intros Hx Hy Hlt Hb. pose proof (place_not_worse R_done x y I Hx Hy Hlt Hb) as Hseq.
  destruct (Hbound x y) as (ty & Hty & Hle); [done|]. apply elem_of_project in Hx as [Hx Hpx]. apply elem_of_project in Hy as [Hy Hpy].
  assert (suffix y) as Hsy by (split; [done|by rewrite Hty]). destruct (decide (suffix x)) as [Hsx|Hnx].
  - unfold place in Hlt. rewrite !decide_True in Hlt by done. destruct (final_spec x Hx Hsx) as (i & Hi & Hfi & _), (final_spec y Hy Hsy) as (j & Hj & Hfj & _).
    pose proof (key_le_not_breaks x y (suffix_sorted _ _ _ _ _ _ _ Hi Hj ltac:(lia))). congruence.
  - apply breaks_spec in Hb as (t & Ht & Hm). unfold in_suffix in Hnx. destruct (fr_ts x) as [tx|]; [|tauto]. destruct (decide (b ≤ tx)); [tauto|]. simplify_eq. lia.
Qed.
End run.

(** ** From the first transaction on *)
Section plan.
Context (visit : frames → frames).

Lemma bound_reaches p imported t b :
  table_wf t → renumber_bound p imported t = Some b → ∀ r r', inverted p t r r' → ∃ ts, fr_ts r' = Some ts ∧ b ≤ ts.
Proof using.
  intros Hwf Hb r r' Hi. pose proof (earliest_spec p t Hwf) as He. unfold renumber_bound in Hb.
  destruct (earliest_out_of_order_timestamp p t) as [d|]; [|by destruct (He r r')].
  destruct He as [_ He]. destruct (He r r' Hi) as [(ts & Hts & Hle) _]. exists ts. split; [done|].
  destruct (foldl keep_min None (omap fr_ts _)); injection Hb as <-; lia.
Qed.

Lemma begin_spec p imported chunk t l t1 rn pc :
  table_wf t → (∀ r, r ∈ t → fr_id r ≤ l) → begin_renumber visit p imported chunk t = Ok (t1, inr (rn, pc)) →
  ∃ b n, (∀ r r', inverted p t r r' → ∃ ts, fr_ts r' = Some ts ∧ b ≤ ts) ∧ (1 ≤ n)%nat ∧
    shelf_inv t l p b n (MkShelf t1 l (Some (rn, pc))).
Proof using.
  intros Hwf Hl Hbegin. unfold begin_renumber in Hbegin. destruct (renumber_bound p imported t) as [b|] eqn:Hb; [|done].
  pose proof (bound_reaches p imported t b Hwf Hb) as Hbound.
  destruct (_ <=? _) eqn:Hsize; [by destruct (resequence_project_from visit p (Some b) t)|].
  set (n := Z.to_nat (Z.max 1 (default RENUMBER_CHUNK_ROWS chunk))) in *. exists b, n. split; [done|].
  assert (1 ≤ n)%nat as Hn by lia. split; [done|]. apply Z.leb_gt in Hsize. rewrite <-length_suffix in Hsize.
  destruct (park_rows _ _ t) as [t'|] eqn:Hpark; [|done]. injection Hbegin as <- <- <-. split; [done|].
  apply (first_chunk_inv t l p b Hwf Hl Hbound n t' Hn); [|exact Hpark]. intros Hnil. apply (f_equal length) in Hnil.
  unfold pairs in Hnil. rewrite length_fmap, length_reverse, merge_sort_Permutation in Hnil. cbn in Hnil. lia.
Qed.

(** C7: a chunked renumbering lets captures through.  Between the transactions of a run
    frames may be captured, edited and deleted, any number of times; the highest row of the
    project stays while rows are being parked.  The next transaction then never meets a taken
    index, indexes stay unique, two frames of the plan whose timestamps were left alone are in
    the wrong order only if they were before, and never once the run is over, and every
    captured frame comes after all that was there when it was captured. *)
Theorem renumber_lets_captures_through p imported chunk t l t1 rn pc s :
  table_wf t → (∀ r, r ∈ t → fr_id r ≤ l) → begin_renumber visit p imported chunk t = Ok (t1, inr (rn, pc)) →
  rtc shelf_step (MkShelf t1 l (Some (rn, pc))) s →
  table_wf (sh_frames s) ∧
  match sh_run s with Some (rn', pc') => ∃ next, renumber_step rn' pc' (sh_frames s) = Ok next | None => True end ∧
  (∀ r r' r0 r0', inverted p (sh_frames s) r r' → r0 ∈ t → r0' ∈ t →
     fr_id r = fr_id r0 → fr_ts r = fr_ts r0 → fr_id r' = fr_id r0' → fr_ts r' = fr_ts r0' →
     inverted p t r0 r0' ∧ sh_run s ≠ None) ∧
  ∀ r x, r ∈ of_project p (sh_frames s) → x ∈ of_project p (sh_frames s) → l < fr_id r → fr_id x < fr_id r → fr_seq x < fr_seq r.
Proof using.
  intros Hwf Hl Hbegin Hrun. destruct (begin_spec _ _ _ _ _ _ _ _ Hwf Hl Hbegin) as (b & n & Hbound & Hn & Hi).
  apply (shelf_inv_steps t l p b Hwf Hl Hbound n _ _ Hn Hi) in Hrun. clear Hi.
  assert (∃ pc', run_inv t l p b pc' (sh_frames s) (sh_last_id s) ∧
    match sh_run s with Some (rn', pc2) => rn' = the_plan t p b n ∧ pc2 = pc' | None => pc' = R_done end) as (pc' & Hi & Hpc).
  { unfold shelf_inv in Hrun. destruct (sh_run s) as [[rn' pc']|]; [destruct Hrun; by exists pc'|by exists R_done]. }
  split; [apply Hi|]. split.
  { destruct (sh_run s) as [[rn' pc2]|]; [|done]. destruct Hpc as [-> ->].
    destruct (chunk_inv t l p b Hwf Hl Hbound n pc' (sh_frames s) (sh_last_id s) Hn Hi) as (t' & pc2 & ? & _). by exists (t', pc2). }
  split.
  - intros r r' r0 r0' (Hr & Hr' & Hlt & Hb) Hr0 Hr0' Hid Hts Hid' Hts'.
    destruct (plan_row _ _ _ _ _ _ _ r Hi Hr) as (x & Hx & Hpx & Hxi & Hxs); [rewrite Hid; by apply Hl|].
    destruct (plan_row _ _ _ _ _ _ _ r' Hi Hr') as (y & Hy & Hpy & Hyi & Hys); [rewrite Hid'; by apply Hl|].
    assert (x = r0) as -> by (apply (NoDup_ids_eq t); [apply Hwf|done|done|congruence]).
    assert (y = r0') as -> by (apply (NoDup_ids_eq t); [apply Hwf|done|done|congruence]).
    assert (breaks_order r0 r0' = true) as Hb0 by (rewrite <-Hb; unfold breaks_order; by rewrite Hts, Hts', Hid, Hid').
    pose proof (proj2 (elem_of_project p t r0) (conj Hr0 Hpx)) as Hp0. pose proof (proj2 (elem_of_project p t r0') (conj Hr0' Hpy)) as Hp0'.
    rewrite Hxs, Hys in Hlt. split.
    + split_and!; [done|done| |done]. by apply (place_not_worse t p b Hwf Hbound pc' r0 r0' (ri_pc _ _ _ _ _ _ _ Hi)).
    + intros Hnone. rewrite Hnone in Hpc. subst pc'. by apply (final_ordered t p b Hwf Hbound r0 r0').
  - intros r x Hr Hx Hgt Hlt. destruct (decide (fr_id x ≤ l)) as [Hle|Hn'].
    + by apply (ri_after _ _ _ _ _ _ _ Hi).
    + apply (ri_captured _ _ _ _ _ _ _ Hi); [done|done|lia|done].
Qed.
End plan.

(** ** Instances *)
(** The second project of the shelf, one row per transaction. *)
Definition first_chunk : frames := modify 7 (set_seq 13) shelf.
Definition plan_of_shelf : Renumber := MkRenumber 2 1 1 9 [6; 7; 4; 5].
Definition after_first : run_pc := R_parking [(6, 3); (5, 2); (4, 1)].
(** Then frame 8 is captured, before the next row is parked. *)
Definition captured_meanwhile : frames := first_chunk ++ [frame 8 2 14 (Some 60)].
Definition second_chunk : frames := modify 6 (set_seq 12) captured_meanwhile.

Lemma renumber_lets_captures_through_witness :
  begin_renumber reverse 2 [] (Some 1) shelf = Ok (first_chunk, inr (plan_of_shelf, after_first)) ∧
  table_wf second_chunk ∧
  ∃ next, renumber_step plan_of_shelf (R_parking [(5, 2); (4, 1)]) second_chunk = Ok next.
Proof.
  assert (begin_renumber reverse 2 [] (Some 1) shelf = Ok (first_chunk, inr (plan_of_shelf, after_first))) as Hb by (vm_compute; reflexivity).
  split; [exact Hb|].
  assert (rtc shelf_step (MkShelf first_chunk 7 (Some (plan_of_shelf, after_first)))
            (MkShelf second_chunk 8 (Some (plan_of_shelf, R_parking [(5, 2); (4, 1)])))) as Hrun.
  { eapply rtc_l; [apply s_between, (b_capture first_chunk 7 _ (frame 8 2 14 (Some 60))); vm_compute; reflexivity|].
    eapply rtc_l; [|apply rtc_refl]. refine (s_chunk captured_meanwhile 8 plan_of_shelf after_first second_chunk (R_parking [(5, 2); (4, 1)]) _).
    vm_compute. reflexivity. }
  destruct (renumber_lets_captures_through reverse 2 [] (Some 1) shelf 7 first_chunk plan_of_shelf after_first _ shelf_wf
    ltac:(apply Forall_forall; vm_compute; repeat constructor; discriminate) Hb Hrun) as (Hwf & Hnext & _).
  split; [exact Hwf|exact Hnext].
Defined.

(** The highest row matters: once it is parked, it alone keeps a capture above the suffix.
    When it is deleted before the next chunk, frame 8 takes an index that the run will
    assign, and the run ends in an integrity error. *)
Definition top_deleted : frames := filter (λ r, fr_id r ≠ 7) first_chunk.
Lemma deleted_top_breaks_renumber :
  next_index 2 top_deleted = 4 ∧
  finish_renumber 20 plan_of_shelf after_first (top_deleted ++ [frame 8 2 4 (Some 60)]) = Some (Raise IntegrityError).
Proof. split; vm_compute; reflexivity. Qed.
