(* ===== verification/FrameDims.v ===== *)
(** * The cache of predominant dimensions (storage/frames.py)

    Every project's most common frame size, from a histogram that is kept per project and
    extended by the frames added since.  A session that soft-deletes, restores or deletes
    frames marks its projects ([FrameTable.mark_dimensions_dirty]); after its commit a hook
    drops the entry and raises the generation of each of them.  A computation keeps the
    generation it found and stores its histogram only if that has not moved.

    [dims_step] interleaves the computations, statement by statement, with captures,
    committed sessions, renumberings and the hooks.  Each statement of a computation reads
    what is committed at that moment.  A session that has inserted frames and not committed
    them does not ask for the dimensions.  The cache of a second engine is a cache of its own. *)

From S2P Require Import Prelude PyTime FrameTable FrameOrder FrameOrderFacts FrameEdits.
From stdpp Require Import options.
Local Open Scope Z_scope.

(** ** Histograms *)
Notation histogram := (gmap (Z * Z) Z).
Definition dims (r : FrameRow) : option (Z * Z) :=
  match fr_width r, fr_height r with Some w, Some h => Some (w, h) | _, _ => None end.
Definition bump (d : Z * Z) (h : histogram) : histogram := <[d := default 0 (h !! d) + 1]> h.
Definition tally (rows : frames) : histogram := foldr bump ∅ (omap dims rows).

Definition in_ids (after_id up_to_id : option Z) (id : Z) : Prop :=
  match after_id with Some a => a < id | None => True end ∧ match up_to_id with Some u => id ≤ u | None => True end.
#[export] Instance in_ids_dec after_id up_to_id id : Decision (in_ids after_id up_to_id id).
Proof. unfold in_ids. destruct after_id, up_to_id; apply _. Defined.
Definition sized (p : Z) (after_id up_to_id : option Z) (r : FrameRow) : Prop :=
  fr_project r = p ∧ fr_state r = fs_active ∧ in_ids after_id up_to_id (fr_id r).

(** [_dimension_histogram] *)
Definition dimension_histogram (p : Z) (after_id up_to_id : option Z) (t : frames) : histogram :=
  tally (filter (sized p after_id up_to_id) t).

(** [Counter.update] with a counter. *)
Definition add_counts : histogram → histogram → histogram := union_with (λ a b, Some (a + b)).

(** [_histogram_mode]: the greatest by count, width and height. *)
Definition less_common (x y : (Z * Z) * Z) : bool :=
  (x.2 <? y.2) || (x.2 =? y.2) && ((x.1.1 <? y.1.1) || (x.1.1 =? y.1.1) && (x.1.2 <? y.1.2)).
Definition pick (best : option ((Z * Z) * Z)) (x : (Z * Z) * Z) : option ((Z * Z) * Z) :=
  match best with
  | None => Some x
  | Some b => if less_common b x then Some x else best
  end.
Definition histogram_mode (h : histogram) : option (Z * Z) :=
  fst <$> foldl pick None (filter (λ x, 0 < x.2) (map_to_list h)).

(** ** The cache *)
Definition DIMS_CACHE_MAX_PROJECTS : nat := 256.

Record DimensionsEntry := MkDims {
  de_max_frame_id : option Z;
  de_frame_count : Z;
  de_histogram : histogram;
}.
(** The entries are an ordered dict, the least recently used first. *)
Record DimsCache := MkCache {
  dc_entries : list (Z * DimensionsEntry);
  dc_generations : gmap Z Z;
}.
Definition entry_of (p : Z) (l : list (Z * DimensionsEntry)) : option DimensionsEntry :=
  snd <$> (snd <$> list_find (λ x, x.1 = p) l).
Definition generation_of (p : Z) (c : DimsCache) : Z := default 0 (dc_generations c !! p).
Definition without (p : Z) (l : list (Z * DimensionsEntry)) : list (Z * DimensionsEntry) := filter (λ x, x.1 ≠ p) l.

Definition move_to_end (p : Z) (l : list (Z * DimensionsEntry)) : list (Z * DimensionsEntry) :=
  match entry_of p l with Some e => without p l ++ [(p, e)] | None => l end.

(** [invalidate_predominant_dimensions] *)
Definition invalidate (p : Z) (c : DimsCache) : DimsCache :=
  MkCache (without p (dc_entries c)) (<[p := generation_of p c + 1]> (dc_generations c)).

(** ** One call of [predominant_dimensions], statement by statement *)
(** The key: the counter of the project's row, and its highest frame id. *)
Definition dims_key (p : Z) (t : frames) (counts : gmap Z Z) : option (Z * option Z) :=
  n ← counts !! p; Some (n, foldl keep_max None (fr_id <$> of_project p t)).

Inductive dims_pc :=
  | D_start
  | D_keyed (frame_count : Z) (max_id : option Z)
  | D_fetched (frame_count : Z) (max_id : option Z) (generation : Z) (entry : option DimensionsEntry)
  | D_extending (frame_count : Z) (max_id : Z) (generation : Z) (entry : DimensionsEntry)
  | D_recomputing (frame_count : Z) (max_id : option Z) (generation : Z)
  | D_computed (frame_count : Z) (max_id : option Z) (generation : Z) (h : histogram)
  | D_returned (answer : option (Z * Z)).

Definition read_key (p : Z) (t : frames) (counts : gmap Z Z) : dims_pc :=
  match dims_key p t counts with
  | None => D_returned None
  | Some (n, max_id) => D_keyed n max_id
  end.

(** Under the lock: the generation and the entry; a hit returns. *)
Definition fetch (p frame_count : Z) (max_id : option Z) (c : DimsCache) : DimsCache * dims_pc :=
  let entry := entry_of p (dc_entries c) in
  (MkCache (move_to_end p (dc_entries c)) (dc_generations c),
   match entry with
   | Some e =>
       if bool_decide (de_max_frame_id e = max_id) && bool_decide (de_frame_count e = frame_count)
       then D_returned (histogram_mode (de_histogram e))
       else D_fetched frame_count max_id (generation_of p c) entry
   | None => D_fetched frame_count max_id (generation_of p c) entry
   end).

(** [_extend_histogram], the count of the added rows. *)
Definition check_added (p frame_count : Z) (max_id : option Z) (generation : Z) (entry : option DimensionsEntry) (t : frames) : dims_pc :=
  match entry, max_id with
  | Some e, Some m =>
      if match de_max_frame_id e with None => true | Some m0 => m0 <? m end then
        let added := Z.of_nat (length (filter (λ r, fr_project r = p ∧ default 0 (de_max_frame_id e) < fr_id r ∧ fr_id r ≤ m) t)) in
        if frame_count - de_frame_count e =? added then D_extending frame_count m generation e
        else D_recomputing frame_count max_id generation
      else D_recomputing frame_count max_id generation
  | _, _ => D_recomputing frame_count max_id generation
  end.
(** The rest of it: the rows since. *)
Definition extend_histogram (p : Z) (e : DimensionsEntry) (m : Z) (t : frames) : histogram :=
  add_counts (de_histogram e) (dimension_histogram p (de_max_frame_id e) (Some m) t).
Definition recompute (p : Z) (max_id : option Z) (t : frames) : histogram :=
  match max_id with None => ∅ | Some m => dimension_histogram p None (Some m) t end.

(** Under the lock again: the store, unless the project was invalidated since. *)
Definition store (p frame_count : Z) (max_id : option Z) (generation : Z) (h : histogram) (c : DimsCache) : DimsCache :=
  if generation_of p c =? generation then
    let l := without p (dc_entries c) ++ [(p, MkDims max_id frame_count h)] in
    MkCache (drop (length l - DIMS_CACHE_MAX_PROJECTS) l) (dc_generations c)
  else c.

(** The statement at [pc]. *)
Definition dims_turn (p : Z) (t : frames) (counts : gmap Z Z) (c : DimsCache) (pc : dims_pc) : DimsCache * dims_pc :=
  match pc with
  | D_start => (c, read_key p t counts)
  | D_keyed n m => fetch p n m c
  | D_fetched n m g e => (c, check_added p n m g e t)
  | D_extending n m g e => (c, D_computed n (Some m) g (extend_histogram p e m t))
  | D_recomputing n m g => (c, D_computed n m g (recompute p m t))
  | D_computed n m g h => (store p n m g h c, D_returned (histogram_mode h))
  | D_returned answer => (c, D_returned answer)
  end.

(** A call with nothing in between: five statements at most. *)
Fixpoint dims_turns (fuel : nat) (p : Z) (t : frames) (counts : gmap Z Z) (c : DimsCache) (pc : dims_pc) : DimsCache * dims_pc :=
  match fuel with
  | O => (c, pc)
  | S fuel => let '(c', pc') := dims_turn p t counts c pc in dims_turns fuel p t counts c' pc'
  end.
Definition predominant_dimensions (p : Z) (s : FrameSession) (c : DimsCache) : DimsCache * option (Z * Z) :=
  if decide (p ∈ ss_dims_dirty s) then (c, histogram_mode (dimension_histogram p None None (ss_frames s)))
  else match dims_turns 5 p (ss_frames s) (ss_counts s) c D_start with
       | (c', D_returned answer) => (c', answer)
       | (c', _) => (c', None)
       end.

(** [dimension_mismatch] *)
Definition dimension_mismatch (r : FrameRow) (predominant : option (Z * Z)) : bool :=
  match predominant, dims r with
  | Some d, Some d' => negb (bool_decide (d' = d))
  | _, _ => false
  end.

(** ** Everything at once *)
Record DimsWorld := MkWorld {
  dw_frames : frames;
  dw_counts : gmap Z Z;
  dw_last_id : Z;
  dw_cache : DimsCache;
  dw_pending : list Z;
  dw_calls : gmap Z (Z * dims_pc);
}.

Inductive dims_step (contained : Z → string → option string) : DimsWorld → DimsWorld → Prop :=
  | ds_capture t n l c hooks calls r :
      fr_id r = l + 1 →
      dims_step contained (MkWorld t n l c hooks calls)
        (MkWorld (t ++ [r]) (<[fr_project r := default 0 (n !! fr_project r) + 1]> n) (l + 1) c hooks calls)
  | ds_commit t n l c hooks calls s :
      rtc (edit_step contained) (MkSession t n [] ∅ ∅) s →
      dims_step contained (MkWorld t n l c hooks calls)
        (MkWorld (ss_frames s) (ss_counts s) l c (hooks ++ elements (ss_dims_dirty s)) calls)
  | ds_renumber t t' n l c hooks calls :
      same_but_index t t' → dims_step contained (MkWorld t n l c hooks calls) (MkWorld t' n l c hooks calls)
  | ds_hook t n l c hooks p hooks' calls :
      dims_step contained (MkWorld t n l c (hooks ++ p :: hooks') calls) (MkWorld t n l (invalidate p c) (hooks ++ hooks') calls)
  | ds_call t n l c hooks calls i p :
      calls !! i = None → dims_step contained (MkWorld t n l c hooks calls) (MkWorld t n l c hooks (<[i := (p, D_start)]> calls))
  | ds_turn t n l c hooks calls i p pc c' pc' :
      calls !! i = Some (p, pc) → dims_turn p t n c pc = (c', pc') →
      dims_step contained (MkWorld t n l c hooks calls) (MkWorld t n l c' hooks (<[i := (p, pc')]> calls))
  | ds_return t n l c hooks calls i p answer :
      calls !! i = Some (p, D_returned answer) →
      dims_step contained (MkWorld t n l c hooks calls) (MkWorld t n l c hooks (delete i calls)).

Definition fresh_cache : DimsCache := MkCache [] ∅.
Definition dims_start (t : frames) (n : gmap Z Z) (l : Z) : DimsWorld := MkWorld t n l fresh_cache [] ∅.

(** ** Facts about histograms *)
Definition count_of (d : Z * Z) (rows : frames) : nat := length (filter (λ r, dims r = Some d) rows).

Lemma tally_lookup rows d : tally rows !! d = if decide (count_of d rows = 0%nat) then None else Some (Z.of_nat (count_of d rows)).
Proof.
  unfold tally, count_of. induction rows as [|r rows IH]; [done|]. rewrite filter_cons.
  change (omap dims (r :: rows)) with (match dims r with Some y => y :: omap dims rows | None => omap dims rows end).
  destruct (dims r) as [d'|] eqn:Hr.
  - cbn [foldr]. unfold bump at 1. destruct (decide (d' = d)) as [->|Hne].
    + rewrite lookup_insert_eq, IH, (decide_True _ _ (eq_refl (Some d))). cbn [length].
      rewrite (decide_False (P := S _ = 0%nat)) by done. f_equal. case_decide; cbn; lia.
    + rewrite lookup_insert_ne by done. rewrite IH. rewrite (decide_False (P := Some d' = Some d)) by congruence. done.
  - rewrite (decide_False (P := None = Some d)) by done. apply IH.
Qed.

Lemma tally_ext l l' : (∀ d, count_of d l = count_of d l') → tally l = tally l'.
Proof. intros He. apply map_eq. intros d. by rewrite !tally_lookup, He. Qed.

Lemma count_app d l l' : count_of d (l ++ l') = (count_of d l + count_of d l')%nat.
Proof. unfold count_of. by rewrite filter_app, length_app. Qed.

Lemma tally_add l l' : add_counts (tally l) (tally l') = tally (l ++ l').
Proof.
  apply map_eq. intros d. unfold add_counts. rewrite lookup_union_with, !tally_lookup, count_app.
  repeat case_decide; cbn; try done; try (f_equal; lia); lia.
Qed.

(** What a histogram sees of a row. *)
Definition face (r : FrameRow) : Z * frame_state * option (Z * Z) := (fr_id r, fr_state r, dims r).
Definition faces (p : Z) (t : frames) : list (Z * frame_state * option (Z * Z)) := face <$> of_project p t.

Lemma histogram_faces p a u t t' : faces p t = faces p t' → dimension_histogram p a u t = dimension_histogram p a u t'.
Proof.
  intros Hf. apply tally_ext. intros d.
  assert (∀ t, count_of d (filter (sized p a u) t) =
    length (filter (λ x : Z * frame_state * option (Z * Z), x.1.2 = fs_active ∧ in_ids a u x.1.1 ∧ x.2 = Some d) (faces p t))) as Heq; [|by rewrite !Heq, Hf].
  clear. intros t. unfold count_of, faces, of_project. induction t as [|r t IH]; [done|]. rewrite !filter_cons.
  destruct (decide (fr_project r = p)) as [Hp|Hp].
  - cbn [fmap list_fmap]. rewrite filter_cons. unfold face at 1. cbn [fst snd].
    destruct (decide (sized p a u r)) as [(_ & Hst & Hid)|Hs].
    + rewrite filter_cons. destruct (decide (dims r = Some d)) as [Hd|Hd].
      * rewrite decide_True by done. cbn. by rewrite IH.
      * rewrite decide_False by (intros (_ & _ & ?); done). apply IH.
    + rewrite decide_False; [apply IH|]. intros (Hst & Hid & _). by destruct Hs.
  - rewrite decide_False by (intros (? & _); done). apply IH.
Qed.

(** Frames up to an id, and after it. *)
Lemma histogram_split p m0 m t :
  (∀ r, r ∈ t → 1 ≤ fr_id r) → default 0 m0 ≤ m →
  add_counts (dimension_histogram p None (Some (default 0 m0)) t) (dimension_histogram p m0 (Some m) t) =
  dimension_histogram p None (Some m) t.
Proof.
  intros Hpos Hle. unfold dimension_histogram. rewrite tally_add. apply tally_ext. intros d. rewrite count_app. unfold count_of.
  induction t as [|r t IH]; [done|]. rewrite !filter_cons. specialize (IH (λ x Hx, Hpos x (list_elem_of_further _ _ _ Hx))).
  specialize (Hpos r (list_elem_of_here _ _)).
  assert (sized p None (Some m) r ↔ sized p None (Some (default 0 m0)) r ∨ sized p m0 (Some m) r) as Hor.
  { unfold sized, in_ids. destruct m0 as [z|]; cbn in *; [destruct (decide (fr_id r ≤ z))|]; intuition lia. }
  assert (sized p None (Some (default 0 m0)) r → ¬ sized p m0 (Some m) r) as Hnot.
  { unfold sized, in_ids. destruct m0; cbn in *; intuition lia. }
  destruct (decide (sized p None (Some (default 0 m0)) r)), (decide (sized p m0 (Some m) r)), (decide (sized p None (Some m) r)); try tauto;
    rewrite ?filter_cons; destruct (decide (dims r = Some d)); cbn [length]; lia.
Qed.

(** ** What a session changes, it marks *)
Definition marks_faces (t : frames) (s : FrameSession) : Prop :=
  NoDup (fr_id <$> ss_frames s) ∧ fr_id <$> ss_frames s ⊆ fr_id <$> t ∧
  ∀ p, p ∉ ss_dims_dirty s → faces p (ss_frames s) = faces p t.

Lemma modify_faces p id f t :
  (∀ r, fr_project (f r) = fr_project r) → (∀ r, r ∈ t → fr_id r = id → fr_project r = p → face (f r) = face r) →
  faces p (modify id f t) = faces p t.
Proof.
  intros Hp Hf. unfold faces, of_project, modify. induction t as [|r t IH]; [done|]. cbn [fmap list_fmap]. rewrite !filter_cons.
  assert (fr_project (if decide (fr_id r = id) then f r else r) = fr_project r) as -> by (case_decide; [apply Hp|done]).
  specialize (IH (λ x Hx, Hf x (list_elem_of_further _ _ _ Hx))).
  destruct (decide (fr_project r = p)) as [Hr|Hr]; [|apply IH]. cbn [fmap list_fmap]. f_equal; [|apply IH].
  case_decide; [|done]. by apply Hf; [left|..].
Qed.

Lemma marks_modify t id f r (mark : bool) s s' :
  (∀ r, fr_id (f r) = fr_id r ∧ fr_project (f r) = fr_project r) → (mark = true ∨ ∀ r, face (f r) = face r) →
  get_row id (ss_frames s) = Some r → ss_frames s' = modify id f (ss_frames s) →
  ss_dims_dirty s' = (if mark then {[fr_project r]} ∪ ss_dims_dirty s else ss_dims_dirty s) →
  marks_faces t s → marks_faces t s'.
Proof.
  intros Hf Hmark Hg Hfr Hd (Hn & Hsub & Hfaces). apply get_row_spec in Hg as [Hr Hid]; [|done]. unfold marks_faces. rewrite Hfr, Hd.
  rewrite modify_ids by (intros; apply Hf). split; [done|]. split; [done|]. intros p Hp. rewrite <-Hfaces by (destruct mark; set_solver).
  apply modify_faces; [intros; apply Hf|]. intros x Hx Hxi Hxp. destruct Hmark as [->|Hsame]; [|apply Hsame]. exfalso.
  rewrite (NoDup_ids_eq (ss_frames s) x r) in Hxp by (done || congruence). set_solver.
Qed.

Lemma apply_many_marks t ids actor mutate action active s :
  (∀ r, fr_id (mutate r) = fr_id r ∧ fr_project (mutate r) = fr_project r) → (active = true ∨ ∀ r, face (mutate r) = face r) →
  marks_faces t s → marks_faces t (apply_many ids actor mutate action active s).2.
Proof.
  intros Hm Hact Hs. unfold apply_many.
  pose proof (foldl_keeps (λ acc : BulkResult * FrameSession * list AuditRow, marks_faces t acc.1.2)
    (apply_one (load_frames_by_id (ss_frames s) ids) mutate action active actor) ids (MkBulk [] [], s, [])) as Hk.
  destruct (foldl _ _ ids) as [[res s'] evs]. cbn [fst snd] in *. apply Hk; [|done].
  intros [[res0 s0] evs0] id H0. cbn [apply_one fst snd] in *.
  destruct (if decide (id ∈ _) then get_row id (ss_frames s0) else None) as [r|] eqn:Hg; [|done]. cbn [fst snd].
  destruct (decide (id ∈ _)); [|done]. eapply (marks_modify t id mutate r active s0); [done|done|done| | |done]; by destruct active.
Qed.

Lemma offset_many_marks t ids seconds actor s : marks_faces t s → marks_faces t (offset_timestamps_many ids seconds actor s).2.
Proof.
  intros Hs. unfold offset_timestamps_many.
  pose proof (foldl_keeps (λ acc : OffsetResult * FrameSession * list AuditRow, marks_faces t acc.1.2)
    (offset_one (load_frames_by_id (ss_frames s) ids) seconds actor) ids (MkOffset [] [] [], s, [])) as Hk.
  destruct (foldl _ _ ids) as [[res s'] evs]. cbn [fst snd] in *. apply Hk; [|done].
  intros [[res0 s0] evs0] id H0. cbn [offset_one fst snd] in *.
  destruct (if decide (id ∈ _) then get_row id (ss_frames s0) else None) as [r|] eqn:Hg; [|done].
  destruct (fr_ts r) as [ts|]; [|done]. cbn [fst snd]. destruct (decide (id ∈ _)); [|done].
  eapply (marks_modify t id _ r false s0); [| |exact Hg|reflexivity|reflexivity|exact H0]; [done|by right].
Qed.

Lemma filter_within {A} (P Q : A → Prop) `{!∀ x, Decision (P x), !∀ x, Decision (Q x)} (l : list A) :
  (∀ x, x ∈ l → P x → Q x) → filter P (filter Q l) = filter P l.
Proof.
  induction l as [|x l IH]; [done|]. intros Himp. specialize (IH (λ y Hy, Himp y (list_elem_of_further _ _ _ Hy))).
  specialize (Himp x (list_elem_of_here _ _)). rewrite !filter_cons. destruct (decide (P x)) as [HP|HP].
  - rewrite decide_True by auto. rewrite filter_cons_True by done. by rewrite IH.
  - destruct (decide (Q x)); [rewrite filter_cons_False by done|]; apply IH.
Qed.

Lemma edit_step_marks contained t s s' : edit_step contained s s' → marks_faces t s → marks_faces t s'.
Proof.
  intros Hs Hm.
  destruct Hs as [s id actor s' Ho|s id actor s' Ho|s now id actor s' Ho|s id actor s' Ho|s id ts actor s' Ho|
                  s ids actor|s ids actor|s now ids actor|s ids actor|s ids seconds actor|s id actor files s' files' Ho].
  1-5: unfold soft_delete, restore, exclude, include, edit_capture_timestamp, get_frame in Ho;
    destruct (get_row id (ss_frames s)) as [r|] eqn:Hg; [|done]; injection Ho as <-.
  1-2: eapply (marks_modify t id _ r true s); [| |exact Hg|reflexivity|reflexivity|exact Hm]; [done|by left].
  1-3: eapply (marks_modify t id _ r false s); [| |exact Hg|reflexivity|reflexivity|exact Hm]; [done|by right].
  1-2: by apply apply_many_marks; [|left|].
  1-2: by apply apply_many_marks; [|right|].
  - by apply offset_many_marks.
  - unfold permanent_delete, get_frame in Ho. cbn [negb] in Ho. destruct (get_row id (ss_frames s)) as [r|] eqn:Hg; [|done].
    injection Ho as <- _. destruct Hm as (Hn & Hsub & Hfaces). apply get_row_spec in Hg as [Hr Hid]; [|done]. unfold marks_faces. cbn.
    split; [|split].
    + apply (NoDup_ids_sub _ (ss_frames s)); [done|by apply NoDup_filter, NoDup_table|]. intros x [_ ?]%list_elem_of_filter. done.
    + intros i (x & -> & [_ Hx]%list_elem_of_filter)%list_elem_of_fmap. apply Hsub. by apply list_elem_of_fmap_2.
    + intros p Hp. rewrite <-Hfaces by set_solver. unfold faces, of_project. f_equal. apply filter_within. intros x Hx Hxp Hxi.
      rewrite (NoDup_ids_eq (ss_frames s) x r) in Hxp by (done || congruence). set_solver.
Qed.

Lemma edits_mark contained t n s : NoDup (fr_id <$> t) → rtc (edit_step contained) (MkSession t n [] ∅ ∅) s → marks_faces t s.
Proof.
  intros Hn Hrun. assert (marks_faces t (MkSession t n [] ∅ ∅)) as Hs by (split; [done|split; [done|done]]).
  revert Hs. generalize (MkSession t n [] ∅ ∅) Hrun. clear. intros s0. induction 1 as [|x y z Hxy _ IH]; [done|]. intros Hs.
  by apply IH, (edit_step_marks contained t x).
Qed.

(** ** The cache is right unless a hook is due *)
Definition accurate (t : frames) (p : Z) (m : option Z) (h : histogram) : Prop :=
  h = dimension_histogram p None (Some (default 0 m)) t.
Definition id_known (w : DimsWorld) (m : option Z) : Prop := 0 ≤ default 0 m ≤ dw_last_id w.
(** A generation nothing has happened to since. *)
Definition current (w : DimsWorld) (p g : Z) : Prop := g = generation_of p (dw_cache w) ∧ p ∉ dw_pending w.
Definition entry_ok (w : DimsWorld) (p : Z) (e : DimensionsEntry) (fresh : Prop) : Prop :=
  id_known w (de_max_frame_id e) ∧ (fresh → accurate (dw_frames w) p (de_max_frame_id e) (de_histogram e)).

Definition call_ok (w : DimsWorld) (p : Z) (pc : dims_pc) : Prop :=
  match pc with
  | D_start | D_returned _ => True
  | D_keyed _ m => id_known w m
  | D_fetched _ m g e =>
      id_known w m ∧ g ≤ generation_of p (dw_cache w) ∧ match e with Some e => entry_ok w p e (current w p g) | None => True end
  | D_extending _ m g e =>
      id_known w (Some m) ∧ g ≤ generation_of p (dw_cache w) ∧ entry_ok w p e (current w p g) ∧ default 0 (de_max_frame_id e) ≤ m
  | D_recomputing _ m g => id_known w m ∧ g ≤ generation_of p (dw_cache w)
  | D_computed _ m g h =>
      id_known w m ∧ g ≤ generation_of p (dw_cache w) ∧ (current w p g → accurate (dw_frames w) p m h)
  end.

Record dims_inv (w : DimsWorld) : Prop := {
  di_nodup : NoDup (fr_id <$> dw_frames w);
  di_ids : 0 ≤ dw_last_id w ∧ ∀ r, r ∈ dw_frames w → 1 ≤ fr_id r ≤ dw_last_id w;
  di_entries : ∀ p e, (p, e) ∈ dc_entries (dw_cache w) → entry_ok w p e (p ∉ dw_pending w);
  di_calls : ∀ i p pc, dw_calls w !! i = Some (p, pc) → call_ok w p pc;
  di_bound : (length (dc_entries (dw_cache w)) ≤ DIMS_CACHE_MAX_PROJECTS)%nat;
}.

Lemma entry_of_elem p e l : entry_of p l = Some e → (p, e) ∈ l.
Proof.
  unfold entry_of. destruct (list_find (λ x, x.1 = p) l) as [[i [p' e']]|] eqn:Hf; [|done]. cbn. intros [= ->].
  apply list_find_Some in Hf as (Hx & Hp & _). cbn in Hp. subst p'. by eapply list_elem_of_lookup_2.
Qed.

Lemma elem_of_without p x l : x ∈ without p l ↔ x ∈ l ∧ x.1 ≠ p.
Proof. unfold without. rewrite list_elem_of_filter. tauto. Qed.

Lemma move_to_end_sub p x l : x ∈ move_to_end p l → x ∈ l.
Proof.
  unfold move_to_end. destruct (entry_of p l) as [e|] eqn:He; [|done].
  intros [[? _]%elem_of_without| ->%list_elem_of_singleton]%elem_of_app; [done|]. by apply entry_of_elem.
Qed.

Lemma length_without p e l : (p, e) ∈ l → (length (without p l) < length l)%nat.
Proof.
  unfold without. induction l as [|x l IH]; [by intros ?%elem_of_nil|]. intros [<-|Hin]%elem_of_cons; rewrite filter_cons.
  - rewrite decide_False by (cbn; tauto). cbn. pose proof (length_filter (λ x : Z * DimensionsEntry, x.1 ≠ p) l). lia.
  - specialize (IH Hin). case_decide; cbn; lia.
Qed.

Lemma move_to_end_length p l : (length (move_to_end p l) ≤ length l)%nat.
Proof.
  unfold move_to_end. destruct (entry_of p l) as [e|] eqn:He; [|done]. apply entry_of_elem, length_without in He. rewrite length_app. cbn. lia.
Qed.

(** Later frames and other projects do not show in a histogram. *)
Lemma histogram_capture p u r t : u < fr_id r → dimension_histogram p None (Some u) (t ++ [r]) = dimension_histogram p None (Some u) t.
Proof.
  intros Hlt. unfold dimension_histogram. rewrite filter_app, (filter_cons_False (sized p None (Some u)) r []); [by rewrite filter_nil, app_nil_r|].
  intros (_ & _ & _ & ?). lia.
Qed.

Lemma histogram_none p u t : (∀ r, r ∈ t → u < fr_id r) → dimension_histogram p None (Some u) t = ∅.
Proof.
  intros Hgt. unfold dimension_histogram. replace (filter (sized p None (Some u)) t) with (@nil FrameRow); [done|].
  symmetry. induction t as [|r t IH]; [done|]. rewrite filter_cons_False.
  - apply IH. intros x Hx. apply Hgt. by right.
  - intros (_ & _ & _ & Hle). specialize (Hgt r (list_elem_of_here _ _)). lia.
Qed.

Lemma histogram_all p u t : (∀ r, r ∈ t → fr_project r = p → fr_id r ≤ u) → dimension_histogram p None (Some u) t = dimension_histogram p None None t.
Proof.
  intros Hle. unfold dimension_histogram. f_equal. induction t as [|r t IH]; [done|]. rewrite !filter_cons.
  rewrite IH by (intros x Hx; apply Hle; by right). specialize (Hle r (list_elem_of_here _ _)).
  destruct (decide (sized p None (Some u) r)) as [Hs|Hs], (decide (sized p None None r)) as [Hs'|Hs']; try done; exfalso; unfold sized, in_ids in *; tauto.
Qed.

Lemma same_faces p t t' : same_but_index t t' → faces p t = faces p t'.
Proof.
  unfold faces, of_project. induction 1 as [|r r' t t' [v ->] _ IH]; [done|]. rewrite !filter_cons. cbn [set_seq fr_project].
  destruct (decide (fr_project r = p)); [|done]. cbn. by rewrite IH.
Qed.

Lemma same_ids t t' : same_but_index t t' → fr_id <$> t = fr_id <$> t'.
Proof. induction 1 as [|r r' t t' [v ->] _ IH]; [done|]. cbn. by rewrite IH. Qed.

Lemma entry_ok_mono w w' p e (fresh fresh' : Prop) :
  dw_last_id w ≤ dw_last_id w' → (fresh' → fresh) →
  (fresh' → ∀ u, 0 ≤ u ≤ dw_last_id w → dimension_histogram p None (Some u) (dw_frames w') = dimension_histogram p None (Some u) (dw_frames w)) →
  entry_ok w p e fresh → entry_ok w' p e fresh'.
Proof.
  intros Hl Hf Hh [Hid Hacc]. split; [unfold id_known in *; lia|]. intros Hnew. unfold accurate. rewrite Hh by done. by apply Hacc, Hf.
Qed.

Lemma call_ok_mono w w' p pc :
  dw_last_id w ≤ dw_last_id w' → generation_of p (dw_cache w) ≤ generation_of p (dw_cache w') →
  (∀ g, g ≤ generation_of p (dw_cache w) → current w' p g → current w p g) →
  (∀ g, current w' p g → g ≤ generation_of p (dw_cache w) →
     ∀ u, 0 ≤ u ≤ dw_last_id w → dimension_histogram p None (Some u) (dw_frames w') = dimension_histogram p None (Some u) (dw_frames w)) →
  call_ok w p pc → call_ok w' p pc.
Proof.
  intros Hl Hg Hc Hh. assert (∀ m, id_known w m → id_known w' m) as Hid by (unfold id_known; intros; lia).
  destruct pc as [|n m|n m g e|n m g e|n m g|n m g h|]; cbn; [done|by apply Hid| | | | |done].
  - intros (Hm & Hle & He). split_and!; [by apply Hid|lia|]. destruct e as [e|]; [|done].
    eapply entry_ok_mono; [done| | |exact He]; [by apply Hc|intros; by eapply Hh].
  - intros (Hm & Hle & He & Hem). split_and!; [by apply Hid|lia| |done].
    eapply entry_ok_mono; [done| | |exact He]; [by apply Hc|intros; by eapply Hh].
  - intros (Hm & Hle). split; [by apply Hid|lia].
  - intros (Hm & Hle & Hacc). split_and!; [by apply Hid|lia|]. intros Hcur. unfold accurate.
    rewrite (Hh g) by (done || apply Hm). by apply Hacc, Hc.
Qed.

(** The table moves, the cache does not. *)
Lemma world_table_inv t n l c hooks calls t' n' l' hooks' :
  NoDup (fr_id <$> t') → (∀ r, r ∈ t' → 1 ≤ fr_id r ≤ l') → l ≤ l' → (∀ p, p ∉ hooks' → p ∉ hooks) →
  (∀ p u, p ∉ hooks' → 0 ≤ u ≤ l → dimension_histogram p None (Some u) t' = dimension_histogram p None (Some u) t) →
  dims_inv (MkWorld t n l c hooks calls) → dims_inv (MkWorld t' n' l' c hooks' calls).
Proof.
  intros Hn Hids Hl Hhooks Hh [_ [Hl0 _] He Hc Hb]. constructor; cbn in *; [done|split; [lia|done]| | |done].
  - intros p e Hin. eapply entry_ok_mono; [| | |by apply He]; cbn; [done|apply Hhooks|intros; by apply Hh].
  - intros i p pc Hi. eapply call_ok_mono; [| | | |by apply (Hc i)]; cbn; [done|done| |].
    + intros g _ [-> Hp]. split; [done|]. by apply Hhooks.
    + intros g [_ Hp] _ u Hu. by apply Hh.
Qed.

Lemma inv_capture t n l c hooks calls r n' :
  fr_id r = l + 1 → dims_inv (MkWorld t n l c hooks calls) → dims_inv (MkWorld (t ++ [r]) n' (l + 1) c hooks calls).
Proof.
  intros Hid Hi. pose proof (di_nodup _ Hi) as Hn. destruct (di_ids _ Hi) as [Hl Hids]. cbn in *. revert Hi. apply world_table_inv; [| |lia|done|].
  - rewrite fmap_app. apply NoDup_app. split_and!; [done| |apply NoDup_singleton].
    intros i (x & -> & Hx)%list_elem_of_fmap Heq%list_elem_of_singleton. specialize (Hids x Hx). lia.
  - intros x [Hx| ->%list_elem_of_singleton]%elem_of_app; [specialize (Hids x Hx); lia|lia].
  - intros p u _ Hu. apply histogram_capture. lia.
Qed.

Lemma inv_commit contained t n l c hooks calls s :
  rtc (edit_step contained) (MkSession t n [] ∅ ∅) s → dims_inv (MkWorld t n l c hooks calls) →
  dims_inv (MkWorld (ss_frames s) (ss_counts s) l c (hooks ++ elements (ss_dims_dirty s)) calls).
Proof.
  intros Hrun Hi. pose proof (di_nodup _ Hi) as Hn. destruct (di_ids _ Hi) as [Hl Hids]. cbn in *.
  apply edits_mark in Hrun as (Hn' & Hsub & Hfaces); [|done]. revert Hi. apply world_table_inv; [done| |lia| |].
  - intros r Hr. assert (fr_id r ∈ fr_id <$> t) as (x & -> & Hx)%list_elem_of_fmap by (by apply Hsub, list_elem_of_fmap_2). by apply Hids.
  - intros p Hp Hin. apply Hp, elem_of_app. by left.
  - intros p u Hp _. apply histogram_faces, Hfaces. intros Hin. apply Hp, elem_of_app. right. by apply elem_of_elements.
Qed.

Lemma inv_renumber t t' n l c hooks calls :
  same_but_index t t' → dims_inv (MkWorld t n l c hooks calls) → dims_inv (MkWorld t' n l c hooks calls).
Proof.
  intros Hs Hi. pose proof (di_nodup _ Hi) as Hn. destruct (di_ids _ Hi) as [Hl Hids]. cbn in *. revert Hi. apply world_table_inv; [| |done|done|].
  - by rewrite <-(same_ids t).
  - intros r Hr. assert (fr_id r ∈ fr_id <$> t) as (x & -> & Hx)%list_elem_of_fmap by (rewrite (same_ids t t') by done; by apply list_elem_of_fmap_2).
    by apply Hids.
  - intros p u _ _. symmetry. by apply histogram_faces, same_faces.
Qed.

Lemma inv_hook t n l c hooks p hooks' calls :
  dims_inv (MkWorld t n l c (hooks ++ p :: hooks') calls) → dims_inv (MkWorld t n l (invalidate p c) (hooks ++ hooks') calls).
Proof.
  intros [Hn Hids He Hc Hb]. cbn in *.
  assert (∀ q, q ≠ p → q ∉ hooks ++ hooks' → q ∉ hooks ++ p :: hooks') as Hq by (intros q Hne; rewrite !elem_of_app, elem_of_cons; tauto).
  assert (∀ q, generation_of q (invalidate p c) = if decide (q = p) then generation_of p c + 1 else generation_of q c) as Hgen.
  { intros q. unfold generation_of, invalidate at 1. cbn. case_decide as Heq; [subst q; by rewrite lookup_insert_eq|by rewrite lookup_insert_ne]. }
  constructor; cbn; [done|done| | |].
  - intros q e [Hin Hne]%elem_of_without. cbn in Hne. eapply entry_ok_mono; [| | |by apply He]; cbn; [done|by apply Hq|done].
  - intros i q pc Hi. eapply call_ok_mono; [| | | |by apply (Hc i)]; cbn; [done| | |done].
    + rewrite Hgen. case_decide; [subst q|]; lia.
    + intros g Hle [Hg Hp]. cbn in Hg. rewrite Hgen in Hg. case_decide; [subst q; lia|]. split; [done|]. by apply Hq.
  - etrans; [apply length_filter|done].
Qed.

(** One statement of a call. *)
Lemma inv_with t n l c hooks calls c' i p pc' :
  dims_inv (MkWorld t n l c hooks calls) → dc_generations c' = dc_generations c →
  (∀ q e, (q, e) ∈ dc_entries c' → entry_ok (MkWorld t n l c hooks calls) q e (q ∉ hooks)) →
  (length (dc_entries c') ≤ DIMS_CACHE_MAX_PROJECTS)%nat → call_ok (MkWorld t n l c hooks calls) p pc' →
  dims_inv (MkWorld t n l c' hooks (<[i := (p, pc')]> calls)).
Proof.
  intros [Hn Hids He Hc Hb] Hg Hent Hlen Hpc. constructor; [done|done|done| |done]. cbn in *.
  assert (∀ q pc, call_ok (MkWorld t n l c hooks calls) q pc → call_ok (MkWorld t n l c' hooks (<[i := (p, pc')]> calls)) q pc) as Hsame.
  { intros q pc. apply call_ok_mono; cbn; [done| | |done]; unfold current, generation_of; cbn; rewrite Hg; [done|]. by intros. }
  intros j q pc Hj. apply Hsame. destruct (decide (i = j)) as [<-|Hne].
  - rewrite lookup_insert_eq in Hj. by injection Hj as <- <-.
  - rewrite lookup_insert_ne in Hj by done. by apply (Hc j).
Qed.

Lemma key_known t n l c hooks calls p cnt m :
  dims_inv (MkWorld t n l c hooks calls) → dims_key p t n = Some (cnt, m) →
  id_known (MkWorld t n l c hooks calls) m ∧ ∀ r, r ∈ t → fr_project r = p → fr_id r ≤ default 0 m.
Proof.
  intros Hi Hk. destruct (di_ids _ Hi) as [Hl Hids]. cbn in *. unfold dims_key in Hk. destruct (n !! p) as [cnt'|]; [|done]. cbn in Hk. injection Hk as _ <-.
  pose proof (fold_keep_max (fr_id <$> of_project p t) None) as Hm. unfold id_known. cbn. destruct (foldl keep_max None _) as [m|].
  - destruct Hm as ([?|(r & -> & [Hr Hp]%elem_of_project)%list_elem_of_fmap] & Hle & _); [done|]. split; [specialize (Hids r Hr); cbn; lia|].
    intros x Hx Hpx. apply Hle, list_elem_of_fmap_2. by apply elem_of_project.
  - destruct Hm as [_ Hnil]. split; [cbn; lia|]. intros x Hx Hpx.
    assert (fr_id x ∈ fr_id <$> of_project p t) as Hin by (by apply list_elem_of_fmap_2, elem_of_project). rewrite Hnil in Hin. by apply elem_of_nil in Hin.
Qed.

Lemma check_added_ok w p n m g e t :
  call_ok w p (D_fetched n m g e) → call_ok w p (check_added p n m g e t).
Proof.
  intros (Hm & Hg & He). unfold check_added. destruct e as [e|]; [|done]. destruct m as [m|]; [|done].
  destruct (match de_max_frame_id e with None => true | Some m0 => m0 <? m end) eqn:Hlt; [|done]. destruct (_ =? _); [|done].
  split_and!; [done|done|done|]. unfold id_known in Hm. cbn in Hm. destruct (de_max_frame_id e) as [m0|]; cbn; [apply Z.ltb_lt in Hlt; lia|lia].
Qed.

Lemma extend_accurate t p e m :
  (∀ r, r ∈ t → 1 ≤ fr_id r) → default 0 (de_max_frame_id e) ≤ m →
  accurate t p (de_max_frame_id e) (de_histogram e) → accurate t p (Some m) (extend_histogram p e m t).
Proof. intros Hpos Hle Hacc. unfold accurate, extend_histogram. rewrite Hacc. by apply histogram_split. Qed.

Lemma recompute_accurate t p m : (∀ r, r ∈ t → 1 ≤ fr_id r) → accurate t p m (recompute p m t).
Proof.
  intros Hpos. unfold accurate, recompute. destruct m as [m|]; [done|]. symmetry. apply histogram_none. intros r Hr. specialize (Hpos r Hr). cbn. lia.
Qed.

Lemma inv_turn t n l c hooks calls i p pc c' pc' :
  dims_inv (MkWorld t n l c hooks calls) → call_ok (MkWorld t n l c hooks calls) p pc → dims_turn p t n c pc = (c', pc') →
  dims_inv (MkWorld t n l c' hooks (<[i := (p, pc')]> calls)).
Proof.
  intros Hi Hpc Hturn. pose proof Hi as [Hn [Hl Hids] He Hc Hb]. cbn in *.
  assert (∀ r, r ∈ t → 1 ≤ fr_id r) as Hpos by (intros r Hr; specialize (Hids r Hr); lia).
  destruct pc as [|cnt m|cnt m g e|cnt m g e|cnt m g|cnt m g h|ans]; cbn in Hturn; injection Hturn as <- <-.
  - apply (inv_with _ _ _ c); [done|done|done|done|]. unfold read_key. destruct (dims_key p t n) as [[cnt m]|] eqn:Hk; [|done].
    exact (proj1 (key_known _ _ _ _ _ _ _ _ _ Hi Hk)).
  - apply (inv_with _ _ _ c); [done|done| | |]; cbn.
    + intros q e Hin%move_to_end_sub. by apply He.
    + pose proof (move_to_end_length p (dc_entries c)). lia.
    + destruct (entry_of p (dc_entries c)) as [e|] eqn:Hent; [|done]. apply entry_of_elem in Hent. destruct (_ && _); [done|].
      split; [done|]. split; [done|]. destruct (He p e Hent) as [Hid Hacc]. split; [done|]. intros [_ Hp]. by apply Hacc.
  - apply (inv_with _ _ _ c); [done|done|done|done|]. by apply check_added_ok.
  - apply (inv_with _ _ _ c); [done|done|done|done|]. destruct Hpc as (Hm & Hg & [_ Hacc] & Hle). split; [done|]. split; [done|].
    intros Hcur. apply extend_accurate; [done|done|]. by apply Hacc.
  - apply (inv_with _ _ _ c); [done|done|done|done|]. destruct Hpc as [Hm Hg]. split; [done|]. split; [done|]. intros _. by apply recompute_accurate.
  - destruct Hpc as (Hm & Hg & Hacc). unfold store. destruct (generation_of p c =? g) eqn:Hgen; [|by apply (inv_with _ _ _ c)].
    apply Z.eqb_eq in Hgen. apply (inv_with _ _ _ c); [done|done| |cbn [dc_entries]; rewrite length_drop; lia|done]. cbn [dc_entries].
    intros q e Hin. apply subseteq_drop, elem_of_app in Hin as [[Hin _]%elem_of_without|Hin%list_elem_of_singleton]; [by apply He|].
    injection Hin as -> ->. split; [done|]. cbn. intros Hp. apply Hacc. split; [done|done].
  - by apply (inv_with _ _ _ c).
Qed.

Lemma dims_inv_step contained w w' : dims_step contained w w' → dims_inv w → dims_inv w'.
Proof.
  intros Hs Hi. destruct Hs as [t n l c hooks calls r Hid|t n l c hooks calls s Hrun|t t' n l c hooks calls Hsame|t n l c hooks p hooks' calls|
                              t n l c hooks calls i p Hnone|t n l c hooks calls i p pc c' pc' Hpc Hturn|t n l c hooks calls i p ans Hpc].
  - by apply (inv_capture t n).
  - by apply (inv_commit contained t n).
  - by apply (inv_renumber t).
  - by apply inv_hook.
  - destruct Hi as [Hn Hids He Hc Hb]. by apply (inv_with _ _ _ c).
  - eapply inv_turn; [exact Hi|by apply (di_calls _ Hi i)|done].
  - destruct Hi as [Hn Hids He Hc Hb]. constructor; [done|done|done| |done]. intros j q pc Hj. cbn in *. apply lookup_delete_Some in Hj as [_ Hj]. by apply (Hc j).
Qed.

(** ** The mode *)
Lemma less_common_spec x y :
  less_common x y = true ↔ x.2 < y.2 ∨ (x.2 = y.2 ∧ (x.1.1 < y.1.1 ∨ (x.1.1 = y.1.1 ∧ x.1.2 < y.1.2))).
Proof. unfold less_common. rewrite !orb_true_iff, !andb_true_iff, !orb_true_iff, !andb_true_iff, !Z.ltb_lt, !Z.eqb_eq. tauto. Qed.

Definition at_most_as_common (x y : (Z * Z) * Z) : Prop := less_common y x = false.
Lemma at_most_trans x y z : at_most_as_common x y → at_most_as_common y z → at_most_as_common x z.
Proof. unfold at_most_as_common. rewrite <-!not_true_iff_false, !less_common_spec. lia. Qed.
Lemma at_most_antisym x y : at_most_as_common x y → at_most_as_common y x → x = y.
Proof.
  unfold at_most_as_common. rewrite <-!not_true_iff_false, !less_common_spec. destruct x as [[a b] n], y as [[a' b'] n']. cbn. intros H1 H2.
  assert (n = n') as -> by lia. assert (a = a') as -> by lia. assert (b = b') as -> by lia. done.
Qed.

Lemma pick_spec l b :
  match foldl pick b l with
  | None => b = None ∧ l = []
  | Some x => (b = Some x ∨ x ∈ l) ∧ (∀ y, y ∈ l → at_most_as_common y x) ∧ ∀ y, b = Some y → at_most_as_common y x
  end.
Proof.
  assert (∀ x, at_most_as_common x x) as Hrefl by (intros x; unfold at_most_as_common; rewrite <-not_true_iff_false, less_common_spec; lia).
  revert b. induction l as [|z l IH]; intros b.
  - cbn. destruct b as [x|]; [|done]. split; [by left|]. split; [by intros ? ?%elem_of_nil|]. intros y [= ->]. apply Hrefl.
  - cbn [foldl]. specialize (IH (pick b z)). destruct (foldl pick (pick b z) l) as [x|].
    2: { destruct IH as [IH _]. destruct b as [b|]; cbn in IH; [|done]. by destruct (less_common b z). }
    destruct IH as (Hx & Hall & Hb).
    assert (at_most_as_common z x ∧ ∀ y, b = Some y → at_most_as_common y x) as [Hz Hy].
    { destruct b as [y|]; cbn in Hb; [|split; [by apply Hb|done]]. destruct (less_common y z) eqn:Hlt.
      - split; [by apply Hb|]. intros y' [= <-]. apply (at_most_trans _ z); [|by apply Hb].
        unfold at_most_as_common. rewrite <-not_true_iff_false. apply less_common_spec in Hlt. rewrite less_common_spec. lia.
      - split; [|intros y' [= <-]; by apply Hb]. apply (at_most_trans _ y); [done|by apply Hb]. }
    split; [|split; [|done]].
    + destruct Hx as [Hx|Hx]; [|right; by right]. destruct b as [y|]; cbn in Hx; [destruct (less_common y z)|]; simplify_eq; (by left) || (right; by left).
    + intros y [->|Hin]%elem_of_cons; [done|by apply Hall].
Qed.

(** A size of a project's active frames that is most common; among equally common ones the
    widest, and then the highest. *)
Definition size_count (p : Z) (t : frames) (d : Z * Z) : Z :=
  Z.of_nat (count_of d (filter (λ r, fr_project r = p ∧ fr_state r = fs_active) t)).
Definition predominant (p : Z) (t : frames) (d : Z * Z) : Prop :=
  0 < size_count p t d ∧ ∀ d', at_most_as_common (d', size_count p t d') (d, size_count p t d).

Lemma histogram_lookup p t d :
  dimension_histogram p None None t !! d = if decide (size_count p t d = 0) then None else Some (size_count p t d).
Proof.
  unfold dimension_histogram, size_count. rewrite tally_lookup.
  rewrite (list_filter_iff (sized p None None) (λ r, fr_project r = p ∧ fr_state r = fs_active)).
  - repeat case_decide; try done; lia.
  - intros r. unfold sized, in_ids. tauto.
Qed.

Lemma mode_spec p t d : histogram_mode (dimension_histogram p None None t) = Some d ↔ predominant p t d.
Proof.
  set (l := filter (λ x : (Z * Z) * Z, 0 < x.2) (map_to_list (dimension_histogram p None None t))).
  assert (∀ d n, (d, n) ∈ l ↔ n = size_count p t d ∧ 0 < n) as Hl.
  { intros d0 n. unfold l. rewrite list_elem_of_filter, elem_of_map_to_list, histogram_lookup. cbn. case_decide; split; [|lia| |]; [intuition (done || lia)|intros [? [= <-]]; lia|].
    intros [-> ?]. split; [lia|done]. }
  unfold histogram_mode. fold l. pose proof (pick_spec l None) as Hp. split.
  - destruct (foldl pick None l) as [[d0 n]|]; [|done]. cbn. intros [= ->]. destruct Hp as ([?|Hin] & Hall & _); [done|].
    apply Hl in Hin as [-> Hpos]. split; [done|]. intros d'. destruct (decide (0 < size_count p t d')) as [Hp'|Hn].
    + apply Hall, Hl. done.
    + unfold at_most_as_common. rewrite <-not_true_iff_false, less_common_spec. cbn. lia.
  - intros [Hpos Hmax]. assert ((d, size_count p t d) ∈ l) as Hin by (by apply Hl).
    destruct (foldl pick None l) as [[d0 n]|]; [|destruct Hp as [_ Hnil]; rewrite Hnil in Hin; by apply elem_of_nil in Hin].
    destruct Hp as ([?|Hin0] & Hall & _); [done|]. apply Hl in Hin0 as [-> _]. cbn. f_equal.
    pose proof (at_most_antisym _ _ (Hall _ Hin) (Hmax d0)) as Heq. by injection Heq.
Qed.

(** ** A call *)
Lemma turns_returned k p t n c ans : dims_turns k p t n c (D_returned ans) = (c, D_returned ans).
Proof. induction k as [|k IH]; [done|]. cbn. apply IH. Qed.

Lemma turns_step k p t n c pc c' pc' :
  dims_turn p t n c pc = (c', pc') → dims_turns (S k) p t n c pc = dims_turns k p t n c' pc'.
Proof. intros Ht. cbn [dims_turns]. by rewrite Ht. Qed.

(** From the fetch on, when the entry is no hit. *)
Lemma call_computes t p cnt m g e n c :
  (∀ r, r ∈ t → 1 ≤ fr_id r) → 0 ≤ default 0 m →
  match e with Some e => accurate t p (de_max_frame_id e) (de_histogram e) | None => True end →
  ∃ c', dims_turns 3 p t n c (D_fetched cnt m g e) = (c', D_returned (histogram_mode (dimension_histogram p None (Some (default 0 m)) t))).
Proof.
  intros Hpos Hm Hacc. erewrite turns_step by reflexivity.
  assert (∀ c, ∃ c', dims_turns 2 p t n c (D_recomputing cnt m g) = (c', D_returned (histogram_mode (dimension_histogram p None (Some (default 0 m)) t)))) as Hrec.
  { intros c0. cbn. rewrite (recompute_accurate t p m Hpos). by eexists. }
  unfold check_added. destruct e as [e|]; [|apply Hrec]. destruct m as [m|]; [|apply Hrec].
  destruct (match de_max_frame_id e with None => true | Some m0 => m0 <? m end) eqn:Hlt; [|apply Hrec]. destruct (_ =? _); [|apply Hrec].
  cbn [dims_turns dims_turn]. rewrite (extend_accurate t p e m Hpos); [by eexists| |done].
  destruct (de_max_frame_id e) as [m0|]; cbn in *; [apply Z.ltb_lt in Hlt|]; lia.
Qed.

Lemma call_answer t n l c hooks calls p :
  dims_inv (MkWorld t n l c hooks calls) → p ∉ hooks → is_Some (n !! p) →
  ∃ c', dims_turns 5 p t n c D_start = (c', D_returned (histogram_mode (dimension_histogram p None None t))).
Proof.
  intros Hi Hp [cnt0 Hcnt]. destruct (dims_key p t n) as [[cnt m]|] eqn:Hk; [|unfold dims_key in Hk; by rewrite Hcnt in Hk].
  destruct (key_known _ _ _ _ _ _ _ _ _ Hi Hk) as [Hm Hall]. pose proof Hi as [_ [_ Hids] He _ _]. cbn in Hids, He.
  assert (∀ r, r ∈ t → 1 ≤ fr_id r) as Hpos by (intros r Hr; specialize (Hids r Hr); lia).
  rewrite <-(histogram_all p (default 0 m)) by done.
  rewrite (turns_step _ _ _ _ _ _ c (D_keyed cnt m)) by (cbn; unfold read_key; by rewrite Hk).
  rewrite (turns_step _ _ _ _ _ _ _ _ (surjective_pairing _)). cbn [dims_turn]. unfold fetch. cbn [fst snd].
  destruct (entry_of p (dc_entries c)) as [e|] eqn:Hent; [|by apply call_computes; [|apply Hm|]].
  apply entry_of_elem, He in Hent as [Hid Hacc]. cbn in Hacc. specialize (Hacc Hp).
  destruct (bool_decide (de_max_frame_id e = m) && _) eqn:Hhit; [|by apply call_computes; [|apply Hm|]].
  apply andb_true_iff in Hhit as [<-%bool_decide_eq_true _]. rewrite <-Hacc. rewrite turns_returned. by eexists.
Qed.

(** The cached dimensions are never stale.  Whatever is captured, edited, deleted,
    renumbered and asked for at the same time, a session that asks for the predominant
    dimensions of a project gets exactly the most common size of the active frames it sees,
    with ties to the wider and then the higher, as soon as no hook of a committed change is
    still due for the project; a session with changes of its own gets it at all times.  The
    cache never holds more than its limit. *)
Theorem dimensions_never_stale contained t n l w p s d :
  NoDup (fr_id <$> t) → 0 ≤ l → (∀ r, r ∈ t → 1 ≤ fr_id r ≤ l) → rtc (dims_step contained) (dims_start t n l) w →
  (p ∈ ss_dims_dirty s ∨
   (p ∉ dw_pending w ∧ ss_frames s = dw_frames w ∧ ss_counts s = dw_counts w ∧ is_Some (ss_counts s !! p))) →
  ((predominant_dimensions p s (dw_cache w)).2 = Some d ↔ predominant p (ss_frames s) d) ∧
  (length (dc_entries (dw_cache w)) ≤ DIMS_CACHE_MAX_PROJECTS)%nat.
Proof.
  intros Hn Hl Hids Hrun Hs. assert (dims_inv w) as Hi.
  { assert (dims_inv (dims_start t n l)) as H0 by (constructor; [done|done|by intros ? ? ?%elem_of_nil|done|cbn; lia]).
    revert H0. induction Hrun as [|x y z Hxy _ IH]; [done|]. intros Hx. by apply IH, (dims_inv_step contained x). }
  split; [|apply Hi]. rewrite <-mode_spec. unfold predominant_dimensions. destruct (decide (p ∈ ss_dims_dirty s)) as [Hd|Hd]; [done|].
  destruct Hs as [?|(Hp & Hf & Hc & Hsome)]; [done|]. destruct w as [t' n' l' c hooks calls].
  cbn [dw_frames dw_counts dw_pending dw_cache] in *. rewrite Hf, Hc in *.
  destruct (call_answer t' n' l' c hooks calls p Hi Hp Hsome) as [c' ->]. done.
Qed.

(** ** An instance *)
Lemma turns_reachable contained k t n l c hooks calls i p pc :
  rtc (dims_step contained) (MkWorld t n l c hooks (<[i := (p, pc)]> calls))
    (MkWorld t n l (dims_turns k p t n c pc).1 hooks (<[i := (p, (dims_turns k p t n c pc).2)]> calls)).
Proof.
  revert c pc. induction k as [|k IH]; intros c pc; [done|]. cbn [dims_turns]. destruct (dims_turn p t n c pc) as [c' pc'] eqn:Ht.
  eapply rtc_l; [apply (ds_turn contained _ _ _ _ _ _ i p pc c' pc'); [by rewrite lookup_insert_eq|done]|].
  rewrite insert_insert_eq. apply IH.
Qed.

Definition photo (id w h : Z) : FrameRow :=
  MkFrameRow id 1 id (Some id) None (Some w) (Some h) None og_captured fs_active None false.
Definition album : frames := [photo 1 640 480; photo 2 640 480; photo 3 800 600].
(** The size was asked for, a frame was captured, and another one soft-deleted. *)
Definition album_cache : DimsCache := (dims_turns 5 1 album {[1 := 3]} fresh_cache D_start).1.
Definition album_later : FrameSession :=
  default (MkSession [] ∅ [] ∅ ∅)
    match soft_delete 1 7 (MkSession (album ++ [photo 4 800 600]) {[1 := 4]} [] ∅ ∅) with Ok s => Some s | Raise _ => None end.
Definition album_world : DimsWorld :=
  MkWorld (ss_frames album_later) (ss_counts album_later) 4 (invalidate 1 album_cache) []
    (<[0 := (1, (dims_turns 5 1 album {[1 := 3]} fresh_cache D_start).2)]> ∅).

Lemma album_reachable contained : rtc (dims_step contained) (dims_start album {[1 := 3]} 3) album_world.
Proof.
  eapply rtc_l; [apply (ds_call contained album {[1 := 3]} 3 fresh_cache [] ∅ 0 1); by rewrite lookup_empty|].
  etrans; [apply (turns_reachable contained 5)|].
  eapply rtc_l; [apply (ds_capture contained _ _ _ _ _ _ (photo 4 800 600)); reflexivity|].
  eapply rtc_l; [apply (ds_commit contained _ _ _ _ _ _ album_later)|].
  - eapply rtc_l; [|apply rtc_refl]. apply (e_soft_delete contained _ 1 7). vm_compute. reflexivity.
  - change (elements (ss_dims_dirty album_later)) with ([1] : list Z). eapply rtc_l; [apply (ds_hook contained _ _ _ _ [] 1 [])|].
    apply rtc_refl.
Qed.

(** Another session, afterwards. *)
Definition album_reader : FrameSession := MkSession (ss_frames album_later) (ss_counts album_later) [] ∅ ∅.

Lemma dimensions_never_stale_witness :
  (predominant_dimensions 1 (MkSession album {[1 := 3]} [] ∅ ∅) album_cache).2 = Some (640, 480) ∧
  ((predominant_dimensions 1 album_reader (dw_cache album_world)).2 = Some (800, 600) ∧ predominant 1 (ss_frames album_reader) (800, 600)).
Proof.
  split; [vm_compute; reflexivity|].
  assert ((predominant_dimensions 1 album_reader (dw_cache album_world)).2 = Some (800, 600)) as Hans by (vm_compute; reflexivity).
  split; [exact Hans|].
  refine (proj1 (proj1 (dimensions_never_stale (λ _ _, None) album {[1 := 3]} 3 album_world 1 album_reader (800, 600) _ _ _ (album_reachable _) _)) Hans).
  - apply (bool_decide_unpack _). vm_compute. exact I.
  - lia.
  - apply Forall_forall. vm_compute. repeat constructor; discriminate.
  - right. split; [apply not_elem_of_nil|]. split; [reflexivity|]. split; [reflexivity|]. exists 4. vm_compute. reflexivity.
Defined.
