(* ===== verification/FrameBrowse.v ===== *)
(** * Browsing frames

    The read side of storage/frames.py (pages, windows around an instant, capture gaps,
    figures of a project), the batches and jumps the browser asks for on top of it
    (web/routers/frames.py), the gap markers of the ribbon (web/ribbon.py) and the selections
    of storage/frame_selection.py.

    A page is a query of the table as it is then.  Instants are microseconds of UTC.  The
    floating-point seconds of the gap finder are the exact rationals they approximate; the
    difference of two [julianday] values is a parameter. *)

From Stdlib Require Import QArith.
From S2P Require Import Prelude PyTime PyVal Env FrameTable FrameOrder.
From stdpp Require Import sorting options.
Local Open Scope Z_scope.

(** ** Pages *)
Definition visible (p : Z) (include_deleted : bool) (r : FrameRow) : Prop :=
  fr_project r = p ∧ (include_deleted = true ∨ fr_state r = fs_active).
#[export] Instance visible_dec p include_deleted r : Decision (visible p include_deleted r).
Proof. unfold visible. apply _. Defined.
(** [ORDER BY sequence_index DESC] *)
Definition seq_ge (r r' : FrameRow) : Prop := fr_seq r' ≤ fr_seq r.
#[export] Instance seq_ge_dec r r' : Decision (seq_ge r r').
Proof. unfold seq_ge. apply _. Defined.
Definition older_than (before : option Z) (v : Z) : Prop :=
  match before with Some b => v < b | None => True end.
#[export] Instance older_than_dec before v : Decision (older_than before v).
Proof. unfold older_than. destruct before; apply _. Defined.

(** [list_frames_keyset] *)
Definition list_frames_keyset (p : Z) (before_seq : option Z) (limit : nat) (include_deleted : bool) (t : frames) : frames :=
  take limit (merge_sort seq_ge (filter (λ r, visible p include_deleted r ∧ older_than before_seq (fr_seq r)) t)).

(** [_frames_at_or_after_seq] and its public spelling *)
Definition frames_at_or_after_seq (p seq : Z) (limit : nat) (include_deleted : bool) (t : frames) : frames :=
  reverse (take limit (merge_sort seq_le (filter (λ r, visible p include_deleted r ∧ seq ≤ fr_seq r) t))).

(** [oldest_active_seq] *)
Definition oldest_active_seq (p : Z) (include_deleted : bool) (t : frames) : option Z :=
  foldl keep_min None (fr_seq <$> filter (visible p include_deleted) t).

(** [ORDER BY capture_timestamp, sequence_index]; NULL sorts first. *)
Definition time_le (r r' : FrameRow) : Prop :=
  match fr_ts r, fr_ts r' with
  | Some a, Some b => a < b ∨ (a = b ∧ fr_seq r ≤ fr_seq r')
  | None, Some _ => True
  | Some _, None => False
  | None, None => fr_seq r ≤ fr_seq r'
  end.
#[export] Instance time_le_dec r r' : Decision (time_le r r').
Proof. unfold time_le. destruct (fr_ts r), (fr_ts r'); apply _. Defined.

(** [list_frames] *)
Definition list_frames (p : Z) (limit offset : nat) (include_deleted include_excluded : bool) (t : frames) : frames :=
  take limit (drop offset (merge_sort time_le
    (filter (λ r, visible p include_deleted r ∧ (include_excluded = true ∨ fr_excluded_at r = None)) t))).

(** [resolve_seq_at_timestamp] and [resolve_window_center]: the first timed frame at or
    after the anchor. *)
Definition at_or_after (p anchor : Z) (include_deleted : bool) (r : FrameRow) : Prop :=
  visible p include_deleted r ∧ match fr_ts r with Some ts => anchor ≤ ts | None => False end.
#[export] Instance at_or_after_dec p anchor include_deleted r : Decision (at_or_after p anchor include_deleted r).
Proof. unfold at_or_after. destruct (fr_ts r); apply _. Defined.
Definition first_at_or_after (p anchor : Z) (include_deleted : bool) (t : frames) : option FrameRow :=
  head (merge_sort time_le (filter (at_or_after p anchor include_deleted) t)).
Definition resolve_seq_at_timestamp (p anchor : Z) (include_deleted : bool) (t : frames) : option Z :=
  fr_seq <$> first_at_or_after p anchor include_deleted t.
Definition resolve_window_center (p anchor : Z) (include_deleted : bool) (t : frames) : option Z * bool :=
  match first_at_or_after p anchor include_deleted t ≫= fr_ts with
  | None => (None, false)
  | Some center => (Some center, bool_decide (center = anchor))
  end.

(** The seq of the last row of a batch, when there is more. *)
Definition next_cursor (rows : frames) (has_more : bool) : option Z :=
  if has_more then fr_seq <$> last rows else None.

(** [list_frames_window] *)
Definition list_frames_window (p anchor : Z) (side_limit : nat) (include_deleted : bool) (t : frames) : frames * option Z :=
  match resolve_seq_at_timestamp p anchor include_deleted t with
  | None =>
      let newest := list_frames_keyset p None (side_limit + 1) include_deleted t in
      let has_more := (side_limit <? length newest)%nat in
      let newest := take side_limit newest in
      (newest, next_cursor newest has_more)
  | Some anchor_seq =>
      let at_or_after := frames_at_or_after_seq p anchor_seq side_limit include_deleted t in
      let older := list_frames_keyset p (Some anchor_seq) (side_limit + 1) include_deleted t in
      let has_more := (side_limit <? length older)%nat in
      let frames := at_or_after ++ take side_limit older in
      (frames, next_cursor frames has_more)
  end.

(** [count_frames_newer_than] *)
Definition of_projects (p : option Z) (r : FrameRow) : Prop :=
  match p with Some p => fr_project r = p | None => True end.
#[export] Instance of_projects_dec p r : Decision (of_projects p r).
Proof. unfold of_projects. destruct p; apply _. Defined.
Definition count_frames_newer_than (after_id : Z) (p : option Z) (include_deleted : bool) (t : frames) : Z :=
  Z.of_nat (length (filter (λ r, after_id < fr_id r ∧ of_projects p r ∧ (include_deleted = true ∨ fr_state r = fs_active)) t)).

(** [list_all_frames_keyset] *)
Definition id_ge (r r' : FrameRow) : Prop := fr_id r' ≤ fr_id r.
#[export] Instance id_ge_dec r r' : Decision (id_ge r r').
Proof. unfold id_ge. apply _. Defined.
Definition list_all_frames_keyset (before_id : option Z) (limit : nat) (include_deleted : bool) (t : frames) : frames :=
  take limit (merge_sort id_ge (filter (λ r, (include_deleted = true ∨ fr_state r = fs_active) ∧ older_than before_id (fr_id r)) t)).

(** ** The batches of the browser (web/routers/frames.py) *)
Definition FRAMES_PER_PAGE : nat := 60.

(** [_frame_batch] *)
Definition frame_batch (p : Z) (before : option Z) (include_deleted : bool) (limit : nat) (t : frames) : frames * option Z :=
  let rows := list_frames_keyset p before (limit + 1) include_deleted t in
  let has_more := (limit <? length rows)%nat in
  let rows := take limit rows in
  (rows, next_cursor rows has_more).

(** [_global_frame_batch] *)
Definition global_frame_batch (before : option Z) (include_deleted : bool) (limit : nat) (t : frames) : frames * option Z :=
  let rows := list_all_frames_keyset before (limit + 1) include_deleted t in
  let has_more := (limit <? length rows)%nat in
  let rows := take limit rows in
  (rows, if has_more then fr_id <$> last rows else None).

(** A scroll: batch after batch, each of the table as it is then, until there is no cursor;
    [None] when it is not over after the last table. *)
Fixpoint scroll (p : Z) (before : option Z) (include_deleted : bool) (limit : nat) (tables : list frames) : option frames :=
  match tables with
  | [] => None
  | t :: tables =>
      let '(rows, next) := frame_batch p before include_deleted limit t in
      match next with
      | None => Some rows
      | Some b => (λ rest, rows ++ rest) <$> scroll p (Some b) include_deleted limit tables
      end
  end.

(** ** Capture gaps *)
Definition GAP_SCAN_LIMIT : nat := 5000.
Definition GAP_PREFILTER_SLACK_SECONDS : Q := 1.

(** [_gap_scan_population] *)
Definition gap_scan_population (p : Z) (limit : nat) (t : frames) : list Z :=
  take limit (merge_sort Z.le (omap fr_ts (filter (λ r, fr_project r = p ∧ fr_state r = fs_active) t))).

(** [active_frame_time_bounds] *)
Definition active_frame_time_bounds (p : Z) (limit : nat) (t : frames) : option (Z * Z * Z) :=
  let population := gap_scan_population p limit t in
  match foldl keep_min None population, foldl keep_max None population with
  | Some first, Some last => Some (first, last, Z.of_nat (length population))
  | _, _ => None
  end.

(** A [CaptureGap] is its [before] and [after]. *)
Notation gap := (Z * Z)%type.
Definition gap_threshold (span_start span_end : Z) (min_gap_fraction : Q) : Q :=
  Qmult (total_seconds (span_end - span_start)) min_gap_fraction.
Definition longer_than (threshold : Q) (g : gap) : Prop := Qlt threshold (total_seconds (g.2 - g.1)).
#[export] Instance longer_than_dec threshold g : Decision (longer_than threshold g).
Proof. unfold longer_than. destruct (Qlt_le_dec threshold (total_seconds (g.2 - g.1))) as [Hl|Hl]; [by left|right]. by apply Qle_not_lt. Defined.

(** [find_capture_gaps] *)
Definition find_capture_gaps (frame_times : list Z) (span_start span_end : Z) (min_gap_fraction : Q) : list gap :=
  if (length frame_times <? 2)%nat || (span_end <=? span_start) then []
  else
    let ordered := merge_sort Z.le frame_times in
    filter (longer_than (gap_threshold span_start span_end min_gap_fraction)) (zip ordered (drop 1 ordered)).

(** [list_capture_gaps].  The statement filters by its own difference of the two instants
    ([julian_seconds]) and gives its rows in any order ([visit]). *)
Definition gap_le (g g' : gap) : Prop := g.2 < g'.2 ∨ (g.2 = g'.2 ∧ g.1 ≤ g'.1).
#[export] Instance gap_le_dec g g' : Decision (gap_le g g').
Proof. unfold gap_le. apply _. Defined.
Section gaps.
Context (julian_seconds : Z → Z → Q) (visit : list gap → list gap).
Definition prefilter (threshold : Q) (g : gap) : Prop :=
  Qlt (Qminus threshold GAP_PREFILTER_SLACK_SECONDS) (julian_seconds g.1 g.2).
#[export] Instance prefilter_dec threshold g : Decision (prefilter threshold g).
Proof. unfold prefilter. destruct (Qlt_le_dec (Qminus threshold GAP_PREFILTER_SLACK_SECONDS) (julian_seconds g.1 g.2)) as [Hl|Hl]; [by left|right]. by apply Qle_not_lt. Defined.
Definition list_capture_gaps (p : Z) (span_start span_end : Z) (min_gap_fraction : Q) (limit : nat) (t : frames) : list gap :=
  if span_end <=? span_start then []
  else
    let threshold := gap_threshold span_start span_end min_gap_fraction in
    let population := gap_scan_population p limit t in
    let rows := visit (filter (prefilter threshold) (zip population (drop 1 population))) in
    merge_sort gap_le (filter (longer_than threshold) rows).

(** [nearest_gap] *)
Definition pick_gap (better : Z → Z → bool) (best : option gap) (g : gap) : option gap :=
  match best with
  | None => Some g
  | Some b => if better g.1 b.1 then Some g else best
  end.
Definition nearest_gap (gaps : list gap) (anchor : Z) (next : bool) : option gap :=
  if next then foldl (pick_gap Z.ltb) None (filter (λ g, anchor < g.1) gaps)
  else foldl (pick_gap Z.gtb) None (filter (λ g, g.1 < anchor) gaps).

(** [_jump_span] *)
Definition jump_span (start_date end_date : option Z) (frame_times : list Z) (now : Z) : Z * Z :=
  let start :=
    match start_date, frame_times with
    | Some s, _ => s
    | None, first :: _ => first
    | None, [] => now - HOUR
    end in
  let stop := default now end_date in
  (start, if stop <=? start then start + HOUR else stop).

(** [_resolve_gap_anchor] *)
Definition resolve_gap_anchor (p : Z) (start_date end_date : option Z) (anchor : option Z) (next : bool) (now : Z) (t : frames)
    : option (Z * gap) :=
  match active_frame_time_bounds p GAP_SCAN_LIMIT t with
  | None => None
  | Some (first, last, count) =>
      if count <? 2 then None
      else
        let '(span_start, span_end) := jump_span start_date end_date [first] now in
        let gaps := list_capture_gaps p span_start span_end (1 # 25) GAP_SCAN_LIMIT t in
        match nearest_gap gaps (default last anchor) next with
        | None => None
        | Some g => Some (g.1, g)
        end
  end.

(** [_nearest_note] *)
Definition nearest_note (p anchor : Z) (include_deleted : bool) (t : frames) : option Z :=
  match resolve_window_center p anchor include_deleted t with
  | (Some center, false) => Some center
  | _ => None
  end.

(** [_resolve_jump]: the rows, the next cursor, the gap band and the note. *)
Inductive jump_kind := J_start | J_newest | J_next_gap | J_prev_gap.
Definition resolve_jump (p : Z) (start_date end_date : option Z) (jump : option jump_kind) (anchor : option Z)
    (include_deleted : bool) (now : Z) (t : frames) : result (frames * option Z * option gap * option Z) :=
  let newest :=
    let '(rows, next) := frame_batch p None include_deleted FRAMES_PER_PAGE t in Ok (rows, next, None, None) in
  let gap_jump (forward : bool) :=
    match resolve_gap_anchor p start_date end_date anchor forward now t with
    | None => newest
    | Some (at_, g) =>
        let '(rows, next) := list_frames_window p at_ 30 include_deleted t in
        Ok (rows, next, Some g, nearest_note p at_ include_deleted t)
    end in
  match jump with
  | Some J_start =>
      match oldest_active_seq p include_deleted t with
      | None => Ok ([], None, None, None)
      | Some oldest => Ok (frames_at_or_after_seq p oldest FRAMES_PER_PAGE include_deleted t, None, None, None)
      end
  | Some J_newest => newest
  | Some J_next_gap => gap_jump true
  | Some J_prev_gap => gap_jump false
  | None =>
      match anchor with
      | None => Raise AssertionError
      | Some at_ =>
          let '(rows, next) := list_frames_window p at_ 30 include_deleted t in
          Ok (rows, next, None, nearest_note p at_ include_deleted t)
      end
  end.
End gaps.

(** The ribbon: [_frac] and [detect_gaps] (web/ribbon.py). *)
Definition frac (at_ start stop : Z) : Q :=
  if stop - start <=? 0 then 0%Q
  else if at_ <? start then 0%Q
  else if stop <? at_ then 1%Q
  else Qdiv (total_seconds (at_ - start)) (total_seconds (stop - start)).
Definition detect_gaps (frame_times : list Z) (start stop : Z) (min_gap_fraction : Q) : list (Q * Q) :=
  if (length frame_times <? 2)%nat || (stop <=? start) then []
  else
    let ordered := merge_sort Z.le frame_times in
    (λ g : gap, (frac g.1 start stop, frac g.2 start stop)) <$>
      filter (longer_than (gap_threshold start stop min_gap_fraction)) (zip ordered (drop 1 ordered)).

(** ** Figures of projects *)
Definition active_of (p : Z) (t : frames) : frames := filter (λ r, fr_project r = p ∧ fr_state r = fs_active) t.
(** [latest_active_frame] *)
Definition latest_active_frame (p : Z) (t : frames) : option FrameRow := head (merge_sort seq_ge (active_of p t)).
(** [latest_captured_at] *)
Definition latest_captured_at (p : Z) (t : frames) : option Z :=
  foldl keep_max None (omap fr_ts (filter (λ r, fr_origin r = og_captured) (active_of p t))).
(** [sum_project_disk_usage] *)
Definition sum_project_disk_usage (p : Z) (t : frames) : Z := foldr Z.add 0 (omap fr_size (active_of p t)).

Record FrameAggregates := MkAggregates {
  fa_last_captured_at : option Z;
  fa_disk_usage_bytes : Z;
  fa_latest_frame_id : option Z;
}.
(** [project_frame_aggregates].  [GROUP BY] over the active frames of the asked projects; a
    group of the totals is there only for a project with such a frame, a preview only for a
    project with a row. *)
Definition group_totals (ids : list Z) (t : frames) : gmap Z (option Z * Z) :=
  foldr (λ r totals,
           let '(captured, size) := default (None, 0) (totals !! fr_project r) in
           <[fr_project r := (match fr_origin r, fr_ts r with og_captured, Some ts => keep_max captured ts | _, _ => captured end,
                              default 0 (fr_size r) + size)]> totals)
    ∅ (filter (λ r, fr_project r ∈ ids ∧ fr_state r = fs_active) t).
Definition project_frame_aggregates (projects : gset Z) (project_ids : list Z) (t : frames) : gmap Z FrameAggregates :=
  let ids := merge_sort Z.le (remove_dups project_ids) in
  let totals := group_totals ids t in
  let previews : gmap Z (option Z) :=
    list_to_map ((λ p, (p, fr_id <$> latest_active_frame p t)) <$> filter (λ p, p ∈ projects) ids) in
  list_to_map ((λ p, (p, let '(captured, size) := default (None, 0) (totals !! p) in
                         MkAggregates captured size (default None (previews !! p)))) <$> ids).

(** ** Selections (storage/frame_selection.py) *)
Definition MAX_DESELECTED_IDS : nat := 10000.
Inductive scope_kind := in_range | in_project.
Record RangeDescriptor := MkDescriptor {
  rd_scope : scope_kind;
  rd_project : Z;
  rd_from : option pydatetime;
  rd_to : option pydatetime;
  rd_include_deleted : bool;
  rd_deselected : list Z;
}.
(** [_to_naive_utc] *)
Definition to_naive_utc (d : pydatetime) : Z := match pdt_off d with None => pdt_wall d | Some off => pdt_wall d - off end.

(** [_base_predicate] *)
Definition in_scope (d : RangeDescriptor) (r : FrameRow) : Prop :=
  visible (rd_project d) (rd_include_deleted d) r ∧
  match rd_scope d with
  | in_project => True
  | in_range =>
      match fr_ts r with
      | None => False
      | Some ts =>
          match rd_from d with Some f => to_naive_utc f ≤ ts | None => True end ∧
          match rd_to d with Some e => ts ≤ to_naive_utc e | None => True end
      end
  end.
#[export] Instance in_scope_dec d r : Decision (in_scope d r).
Proof. unfold in_scope. destruct (rd_scope d), (fr_ts r), (rd_from d), (rd_to d); apply _. Defined.
(** [resolve], [count] and [materialize] *)
Definition resolve (d : RangeDescriptor) (t : frames) : gset Z :=
  list_to_set (fr_id <$> filter (in_scope d) t) ∖ list_to_set (rd_deselected d).
Definition count_selected (d : RangeDescriptor) (t : frames) : Z :=
  Z.of_nat (length (match rd_deselected d with
                    | [] => filter (in_scope d) t
                    | ids => filter (λ r, fr_id r ∉ ids) (filter (in_scope d) t)
                    end)).
Definition materialize (d : RangeDescriptor) (t : frames) : list Z := merge_sort Z.le (elements (resolve d t)).

Section parse.
Context `{CaptureEnv}.
(** [_parse_iso_datetime] *)
Definition parse_iso_datetime (v : pyval) (field_name : string) : result (option pydatetime) :=
  match v with
  | PNone => Ok None
  | PStr s =>
      if String.eqb (strip s) "" then Raise (DescriptorError field_name)
      else match env_fromisoformat s with
           | Some d => Ok (Some d)
           | None => Raise (DescriptorError field_name)
           end
  | _ => Raise (DescriptorError field_name)
  end.

(** [_parse_deselected_ids] *)
Fixpoint parse_ids (l : list pyval) : result (list Z) :=
  match l with
  | [] => Ok []
  | PInt z :: l => rest ← parse_ids l; Ok (z :: rest)
  | _ => Raise (DescriptorError "deselected_ids")
  end.
Definition parse_deselected_ids (v : pyval) : result (list Z) :=
  match v with
  | PNone => Ok []
  | PList l => if (MAX_DESELECTED_IDS <? length l)%nat then Raise (DescriptorError "deselected_ids") else parse_ids l
  | _ => Raise (DescriptorError "deselected_ids")
  end.

(** [a > b] of two datetimes: a naive and an aware one do not compare. *)
Definition datetime_gt (a b : pydatetime) : result bool :=
  match pdt_off a, pdt_off b with
  | None, None => Ok (pdt_wall b <? pdt_wall a)
  | Some x, Some y => Ok (pdt_wall b - y <? pdt_wall a - x)
  | _, _ => Raise TypeError
  end.
Definition parse_time_range (v : pyval) : result (option pydatetime * option pydatetime) :=
  match v with
  | PDict kvs =>
      time_from ← parse_iso_datetime (dict_get kvs "from" PNone) "time_range.from";
      time_to ← parse_iso_datetime (dict_get kvs "to" PNone) "time_range.to";
      late ← match time_from, time_to with Some a, Some b => datetime_gt a b | _, _ => Ok false end;
      if late : bool then Raise (DescriptorError "time_range") else Ok (time_from, time_to)
  | _ => Raise (DescriptorError "time_range")
  end.

(** [parse_descriptor] *)
Definition parse_descriptor (body : pyval) : result RangeDescriptor :=
  match body with
  | PDict kvs =>
      scope ← match dict_get kvs "scope" PNone with
              | PStr s => if String.eqb s "in_range" then Ok in_range
                          else if String.eqb s "in_project" then Ok in_project
                          else Raise (DescriptorError "scope")
              | _ => Raise (DescriptorError "scope")
              end;
      project ← match dict_get kvs "project_id" PNone with
                | PInt z => if z <=? 0 then Raise (DescriptorError "project_id") else Ok z
                | _ => Raise (DescriptorError "project_id")
                end;
      range ← match scope with
              | in_range => parse_time_range (dict_get kvs "time_range" PNone)
              | in_project => Ok (None, None)
              end;
      filters ← match dict_get kvs "filters" PNone with
                | PDict f => Ok f
                | v => if truthy v then Raise (DescriptorError "filters") else Ok []
                end;
      deselected ← parse_deselected_ids (dict_get kvs "deselected_ids" PNone);
      Ok (MkDescriptor scope project range.1 range.2 (truthy (dict_get filters "include_deleted" PNone)) deselected)
  | _ => Raise (DescriptorError "descriptor")
  end.
End parse.
