(* ===== verification/FrameBrowseFacts.v ===== *)
(** * Facts about browsing *)

From Stdlib Require Import QArith.
From S2P Require Import Prelude PyTime PyVal Env FrameTable FrameOrder FrameOrderFacts FrameEdits FrameBrowse.
From stdpp Require Import sorting options.
Local Open Scope Z_scope.

#[export] Instance seq_ge_total : Total seq_ge.
Proof. intros a b. unfold seq_ge. lia. Qed.
#[export] Instance seq_ge_trans : Transitive seq_ge.
Proof. intros a b c. unfold seq_ge. lia. Qed.
#[export] Instance time_le_total : Total time_le.
Proof. intros a b. unfold time_le. destruct (fr_ts a), (fr_ts b); [|by right|by left|]; lia. Qed.
#[export] Instance time_le_trans : Transitive time_le.
Proof. intros a b c. unfold time_le. destruct (fr_ts a), (fr_ts b), (fr_ts c); try done; lia. Qed.
#[export] Instance gap_le_total : Total gap_le.
Proof. intros a b. unfold gap_le. lia. Qed.
#[export] Instance gap_le_trans : Transitive gap_le.
Proof. intros a b c. unfold gap_le. lia. Qed.
#[export] Instance gap_le_antisymm : AntiSymm (=) gap_le.
Proof. intros [a b] [a' b']. unfold gap_le. cbn. intros H1 H2. f_equal; lia. Qed.

(** ** What a project shows, newest first *)
Definition newest_first (p : Z) (include_deleted : bool) (t : frames) : frames :=
  merge_sort seq_ge (filter (visible p include_deleted) t).
Notation descending := (StronglySorted (λ r r', fr_seq r' < fr_seq r)).

Lemma elem_of_newest p d t r : r ∈ newest_first p d t ↔ r ∈ t ∧ visible p d r.
Proof. unfold newest_first. rewrite merge_sort_Permutation, list_elem_of_filter. tauto. Qed.

Lemma visible_unique p d t r r' : table_wf t → r ∈ newest_first p d t → r' ∈ newest_first p d t → fr_seq r = fr_seq r' → r = r'.
Proof. intros Hwf [Hr [Hp _]]%elem_of_newest [Hr' [Hp' _]]%elem_of_newest Hs. apply (wf_unique t Hwf); congruence. Qed.

Lemma newest_descending p d t : table_wf t → descending (newest_first p d t).
Proof.
  intros Hwf. assert (StronglySorted seq_ge (newest_first p d t)) as Hs by (apply StronglySorted_merge_sort; apply _).
  assert (NoDup (newest_first p d t)) as Hnd by (unfold newest_first; rewrite merge_sort_Permutation; apply NoDup_filter, NoDup_table, Hwf).
  pose proof (λ r r', visible_unique p d t r r' Hwf) as Hu. revert Hs Hnd Hu. generalize (newest_first p d t). clear.
  induction 1 as [|r l Hs IH Hr]; [constructor|]. intros [Hn Hnd]%NoDup_cons Hu. constructor.
  - apply IH; [done|]. intros x y Hx Hy. apply Hu; by right.
  - rewrite Forall_forall in Hr |- *. intros x Hx. specialize (Hr x Hx). unfold seq_ge in Hr.
    destruct (decide (fr_seq x = fr_seq r)) as [He|]; [|lia]. destruct Hn. rewrite (Hu r x); [done|by left|by right|done].
Qed.

Lemma sorted_filter_eq (R : relation FrameRow) `{!RelDecision R, !Total R, !Transitive R} (P Q : FrameRow → Prop)
    `{!∀ r, Decision (P r), !∀ r, Decision (Q r)} t :
  (∀ r r', r ∈ t → r' ∈ t → P r → P r' → R r r' → R r' r → r = r') →
  merge_sort R (filter (λ r, P r ∧ Q r) t) = filter Q (merge_sort R (filter P t)).
Proof.
  intros Hu. apply (StronglySorted_unique_strong R).
  - intros x y. rewrite merge_sort_Permutation, list_elem_of_filter. intros [[HP _] Hx].
    rewrite list_elem_of_filter, merge_sort_Permutation, list_elem_of_filter. intros (_ & HP' & Hy). by apply Hu.
  - apply StronglySorted_merge_sort; apply _.
  - apply StronglySorted_filter, StronglySorted_merge_sort; apply _.
  - rewrite merge_sort_Permutation.
    assert (filter Q (merge_sort R (filter P t)) ≡ₚ filter Q (filter P t)) as -> by (apply filter_Permutation, merge_sort_Permutation).
    rewrite list_filter_filter. rewrite (list_filter_iff (λ r, P r ∧ Q r) (λ r, Q r ∧ P r)); [done|]. tauto.
Qed.

Lemma keyset_eq p before limit d t :
  table_wf t →
  list_frames_keyset p before limit d t = take limit (filter (λ r, older_than before (fr_seq r)) (newest_first p d t)).
Proof.
  intros Hwf. unfold list_frames_keyset, newest_first. f_equal. apply sorted_filter_eq; [apply _..|].
  intros r r' Hr Hr' [Hp _] [Hp' _]. unfold seq_ge. intros. apply (wf_unique t Hwf); [done|done|congruence|lia].
Qed.

(** A batch: a piece of what is older, and the cursor after it. *)
Lemma batch_spec p before d limit t :
  table_wf t → (1 ≤ limit)%nat →
  let L := filter (λ r, older_than before (fr_seq r)) (newest_first p d t) in
  ∃ rest, L = (frame_batch p before d limit t).1 ++ rest ∧
    match (frame_batch p before d limit t).2 with
    | None => rest = []
    | Some b => (∀ r, r ∈ (frame_batch p before d limit t).1 → b ≤ fr_seq r) ∧ (∀ r, r ∈ rest → fr_seq r < b) ∧
        (length (frame_batch p before d limit t).1 = limit) ∧ older_than before b
    end.
Proof.
  intros Hwf Hlim L. unfold frame_batch. rewrite keyset_eq by done. fold L. cbn [fst snd].
  assert (descending L) as Hd by (by apply StronglySorted_filter, newest_descending).
  rewrite take_take, length_take. replace (limit `min` (limit + 1))%nat with limit by lia.
  exists (drop limit L). split; [by rewrite take_drop|]. unfold next_cursor.
  destruct (limit <? (limit + 1) `min` length L)%nat eqn:Hmore.
  - apply Nat.ltb_lt in Hmore. destruct (last (take limit L)) as [x|] eqn:Hlast.
    2: { apply last_None in Hlast. apply (f_equal length) in Hlast. rewrite length_take in Hlast. cbn in Hlast. lia. }
    cbn. apply last_Some in Hlast as [l' Hl']. rewrite <-(take_drop limit L), Hl' in Hd. rewrite Hl'.
    assert (x ∈ L) as HxL by (rewrite <-(take_drop limit L), Hl'; apply elem_of_app; left; apply elem_of_app; right; by left).
    apply StronglySorted_app in Hd as (Hab & Hd & _). apply StronglySorted_app in Hd as (Hlx & _ & _). split_and!.
    + intros r [Hr|[->|?%elem_of_nil]%elem_of_cons]%elem_of_app; [|done|done].
      specialize (Hlx r x Hr (list_elem_of_here _ _)). cbn in Hlx. lia.
    + intros r Hr. apply (Hab x r); [|done]. apply elem_of_app. right. by left.
    + rewrite <-Hl', length_take. lia.
    + by apply list_elem_of_filter in HxL as [? _].
  - apply Nat.ltb_ge in Hmore. apply length_zero_iff_nil. rewrite length_drop. lia.
Qed.

Lemma scroll_spec p d limit tables before rows :
  (1 ≤ limit)%nat → (∀ t, t ∈ tables → table_wf t) → scroll p before d limit tables = Some rows →
  descending rows ∧
  (∀ r, r ∈ rows → older_than before (fr_seq r) ∧ ∃ t, t ∈ tables ∧ r ∈ newest_first p d t) ∧
  ∀ id v, older_than before v → (∀ t, t ∈ tables → ∃ r, r ∈ newest_first p d t ∧ fr_id r = id ∧ fr_seq r = v) →
    ∃ r, r ∈ rows ∧ fr_id r = id ∧ fr_seq r = v.
Proof.
  intros Hlim. revert before rows. induction tables as [|t tables IH]; intros before rows Hwf Hs; [done|]. cbn [scroll] in Hs.
  assert (table_wf t) as Ht by (apply Hwf; by left).
  destruct (batch_spec p before d limit t Ht Hlim) as (rest & HL & Hnext). cbn zeta in HL.
  assert (∀ r, r ∈ (frame_batch p before d limit t).1 → older_than before (fr_seq r) ∧ ∃ t', t' ∈ t :: tables ∧ r ∈ newest_first p d t') as Hpage.
  { intros r Hr. assert (r ∈ filter (λ r, older_than before (fr_seq r)) (newest_first p d t)) as Hin by (rewrite HL; apply elem_of_app; by left).
    apply list_elem_of_filter in Hin as [? ?]. split; [done|]. exists t. split; [by left|done]. }
  assert (descending ((frame_batch p before d limit t).1 ++ rest)) as Hd by (rewrite <-HL; by apply StronglySorted_filter, newest_descending).
  assert (∀ id v, older_than before v → (∀ t', t' ∈ t :: tables → ∃ r, r ∈ newest_first p d t' ∧ fr_id r = id ∧ fr_seq r = v) →
    ∃ r, r ∈ (frame_batch p before d limit t).1 ++ rest ∧ fr_id r = id ∧ fr_seq r = v) as Hin.
  { intros id v Hv Hall. destruct (Hall t) as (r & Hr & Hid & Hseq); [by left|]. exists r. split; [|done]. rewrite <-HL. apply list_elem_of_filter. by rewrite Hseq. }
  destruct (frame_batch p before d limit t) as [page next]. cbn [fst snd] in *. destruct next as [b|].
  - destruct (scroll p (Some b) d limit tables) as [later|] eqn:Hlater; [|done]. injection Hs as <-.
    destruct Hnext as (Hge & Hlt & _ & Hb). destruct (IH (Some b) later) as (Hdl & Hrl & Hcl); [intros; apply Hwf; by right|done|]. split_and!.
    + apply StronglySorted_app in Hd as (_ & Hdp & _). apply StronglySorted_app. split_and!; [|done|done].
      intros x y Hx Hy. specialize (Hge x Hx). destruct (Hrl y Hy) as [Hy' _]. cbn in Hy'. lia.
    + intros r [Hr|Hr]%elem_of_app; [by apply Hpage|]. destruct (Hrl r Hr) as [Hr' (t' & Ht' & Hin')]. cbn in Hr'. split.
      * destruct before as [b0|]; cbn in *; [lia|done].
      * exists t'. split; [by right|done].
    + intros id v Hv Hall. destruct (Hin id v Hv Hall) as (r & [Hr|Hr]%elem_of_app & Hid & Hseq).
      { exists r. split; [apply elem_of_app; by left|done]. }
      destruct (Hcl id v) as (r' & Hr' & ?); [cbn; rewrite <-Hseq; by apply Hlt|intros t' Ht'; apply Hall; by right|].
      exists r'. split; [apply elem_of_app; by right|done].
  - injection Hs as <-. subst rest. rewrite app_nil_r in Hd, Hin. done.
Qed.

Lemma scroll_static p d limit t n before :
  (1 ≤ limit)%nat → table_wf t → (length (filter (λ r, older_than before (fr_seq r)) (newest_first p d t)) < n)%nat →
  scroll p before d limit (replicate n t) = Some (filter (λ r, older_than before (fr_seq r)) (newest_first p d t)).
Proof.
  intros Hlim Hwf. revert before. induction n as [|n IH]; intros before Hn; [lia|]. cbn [replicate scroll].
  destruct (batch_spec p before d limit t Hwf Hlim) as (rest & HL & Hnext). cbn zeta in HL. rewrite HL in Hn |- *.
  destruct (frame_batch p before d limit t) as [page next]. cbn [fst snd] in *. destruct next as [b|]; [|subst rest; by rewrite app_nil_r].
  destruct Hnext as (Hge & Hlt & Hlen & Hb).
  assert (filter (λ r, older_than (Some b) (fr_seq r)) (newest_first p d t) = rest) as Hrest.
  { transitivity (filter (λ r, older_than (Some b) (fr_seq r)) (filter (λ r, older_than before (fr_seq r)) (newest_first p d t))).
    - rewrite list_filter_filter. apply list_filter_iff. intros r. cbn. destruct before as [b0|]; cbn in *; [lia|tauto].
    - rewrite HL, filter_app. rewrite (filter_none _ page), (filter_all _ rest); [done| |].
      + intros r Hr. by apply Hlt.
      + intros r Hr. specialize (Hge r Hr). cbn. lia. }
  rewrite IH; rewrite Hrest; [done|]. rewrite length_app in Hn. lia.
Qed.

(** Scrolling shows each frame once.  While frames are captured, deleted and restored
    between the batches, the rows of a scroll come in strictly descending order, so that no
    frame is shown twice, every one of them was visible in its batch, and a frame that was
    visible at its place all the time is among them.  A scroll of a project that does not
    change ends, and shows exactly its visible frames. *)
Theorem scroll_shows_each_frame_once p d limit tables :
  (1 ≤ limit)%nat → (∀ t, t ∈ tables → table_wf t) →
  (∀ rows, scroll p None d limit tables = Some rows →
     descending rows ∧
     (∀ r, r ∈ rows → ∃ t, t ∈ tables ∧ r ∈ t ∧ visible p d r) ∧
     ∀ id v, (∀ t, t ∈ tables → ∃ r, r ∈ t ∧ visible p d r ∧ fr_id r = id ∧ fr_seq r = v) →
       ∃ r, r ∈ rows ∧ fr_id r = id) ∧
  ∀ t, table_wf t → scroll p None d limit (replicate (S (length t)) t) = Some (newest_first p d t).
Proof.
  intros Hlim Hwf. split.
  - intros rows Hs. destruct (scroll_spec p d limit tables None rows Hlim Hwf Hs) as (Hd & Hr & Hc). split; [done|]. split.
    + intros r Hin. destruct (Hr r Hin) as [_ (t & Ht & Hv)]. exists t. split; [done|]. by apply elem_of_newest.
    + intros id v Hall. destruct (Hc id v I) as (r & Hin & Hid & _); [|by exists r].
      intros t Ht. destruct (Hall t Ht) as (r & Hrt & Hv & ?). exists r. split; [|done]. by apply elem_of_newest.
  - intros t Ht. rewrite scroll_static; [f_equal; by apply filter_all|done|done|].
    rewrite filter_all by done. unfold newest_first. rewrite merge_sort_Permutation.
    pose proof (length_filter (visible p d) t). lia.
Qed.

(** ** The window around an instant *)
Lemma seq_asc_desc p d t :
  table_wf t → merge_sort seq_le (filter (visible p d) t) = reverse (newest_first p d t).
Proof.
  intros Hwf. apply (StronglySorted_unique_strong seq_le).
  - intros x y. rewrite merge_sort_Permutation, list_elem_of_filter. intros [Hv Hx]. rewrite elem_of_reverse. intros [Hy [Hp _]]%elem_of_newest.
    unfold seq_le. intros. apply (wf_unique t Hwf); [done|done|destruct Hv; congruence|lia].
  - apply StronglySorted_merge_sort; apply _.
  - pose proof (newest_descending p d t Hwf) as Hd. clear -Hd. induction Hd as [|x l _ IH Hx]; [constructor|]. rewrite reverse_cons.
    apply StronglySorted_app. split_and!; [|done|repeat constructor]. rewrite Forall_forall in Hx.
    intros y z. rewrite elem_of_reverse, list_elem_of_singleton. intros Hy ->. specialize (Hx y Hy). unfold seq_le. lia.
  - rewrite reverse_Permutation. unfold newest_first. by rewrite !merge_sort_Permutation.
Qed.

(** Cutting what is visible at a row. *)
Lemma cut_older newer c older : descending (newer ++ c :: older) → filter (λ r, fr_seq r < fr_seq c) (newer ++ c :: older) = older.
Proof.
  intros (Hab & _ & [_ Hc]%StronglySorted_inv)%StronglySorted_app. rewrite Forall_forall in Hc.
  rewrite filter_app, filter_none; [|intros r Hr; specialize (Hab r c Hr (list_elem_of_here _ _)); cbn in Hab; lia].
  rewrite filter_cons_False by lia. by apply filter_all.
Qed.
Lemma cut_newer newer c older : descending (newer ++ c :: older) → filter (λ r, fr_seq c ≤ fr_seq r) (newer ++ c :: older) = newer ++ [c].
Proof.
  intros (Hab & _ & [_ Hc]%StronglySorted_inv)%StronglySorted_app. rewrite Forall_forall in Hc.
  rewrite filter_app, filter_all; [|intros r Hr; specialize (Hab r c Hr (list_elem_of_here _ _)); cbn in Hab; lia].
  rewrite filter_cons_True by lia. rewrite filter_none; [done|]. intros r Hr. specialize (Hc r Hr). cbn in Hc. lia.
Qed.

Lemma at_or_after_eq p c limit d t :
  table_wf t → frames_at_or_after_seq p c limit d t = reverse (take limit (reverse (filter (λ r, c ≤ fr_seq r) (newest_first p d t)))).
Proof.
  intros Hwf. unfold frames_at_or_after_seq. do 2 f_equal.
  etrans; [apply (sorted_filter_eq seq_le (visible p d) (λ r, c ≤ fr_seq r))|].
  - intros r r' Hr Hr' [Hp _] [Hp' _]. unfold seq_le. intros. apply (wf_unique t Hwf); [done|done|congruence|lia].
  - rewrite seq_asc_desc by done. generalize (newest_first p d t). intros l. induction l as [|x l IH]; [done|].
    rewrite reverse_cons, filter_app, IH, !filter_cons, filter_nil. case_decide; [by rewrite reverse_cons|by rewrite app_nil_r].
Qed.

Lemma first_at_or_after_spec p anchor d t :
  match first_at_or_after p anchor d t with
  | None => ∀ r, r ∈ t → ¬ at_or_after p anchor d r
  | Some c => c ∈ t ∧ at_or_after p anchor d c ∧ ∀ r, r ∈ t → at_or_after p anchor d r → time_le c r
  end.
Proof.
  unfold first_at_or_after. assert (StronglySorted time_le (merge_sort time_le (filter (at_or_after p anchor d) t))) as Hs by (apply StronglySorted_merge_sort; apply _).
  assert (∀ r, r ∈ merge_sort time_le (filter (at_or_after p anchor d) t) ↔ r ∈ t ∧ at_or_after p anchor d r) as Hin.
  { intros r. rewrite merge_sort_Permutation, list_elem_of_filter. tauto. }
  destruct (merge_sort time_le _) as [|c l]; cbn.
  - intros r Hr Ha. by apply (not_elem_of_nil r), Hin.
  - destruct (proj1 (Hin c) (list_elem_of_here _ _)) as [Hc Ha]. split; [done|]. split; [done|]. intros r Hr Har.
    assert (r ∈ c :: l) as [->|Hrl]%elem_of_cons by (by apply Hin).
    + unfold time_le. destruct (fr_ts c); lia.
    + apply StronglySorted_inv in Hs as [_ Hall]. rewrite Forall_forall in Hall. by apply Hall.
Qed.

(** In a project that is in order, the boundary divides the timed frames at the anchor. *)
Lemma boundary_divides p anchor d t c r ts :
  table_wf t → ordered p t → first_at_or_after p anchor d t = Some c → r ∈ t → visible p d r → fr_ts r = Some ts →
  anchor ≤ ts ↔ fr_seq c ≤ fr_seq r.
Proof.
  intros Hwf Hord Hc Hr Hv Hts. pose proof (first_at_or_after_spec p anchor d t) as Hspec. rewrite Hc in Hspec. destruct Hspec as (Hct & [Hcv Hca] & Hmin).
  destruct (fr_ts c) as [tc|] eqn:Htc; [|done].
  assert (r ∈ of_project p t) as Hrp by (apply elem_of_project; split; [done|apply Hv]).
  assert (c ∈ of_project p t) as Hcp by (apply elem_of_project; split; [done|apply Hcv]). split.
  - intros Hle. assert (at_or_after p anchor d r) as Har by (split; [done|by rewrite Hts]). specialize (Hmin r Hr Har). unfold time_le in Hmin.
    rewrite Htc, Hts in Hmin. destruct Hmin as [Hlt|[_ Hle']]; [|done]. destruct (decide (fr_seq c ≤ fr_seq r)) as [|Hn]; [done|]. exfalso.
    apply (Hord r c). split_and!; [done|done|lia|]. apply breaks_spec. exists tc. rewrite Hts. split; [done|lia].
  - intros Hle. destruct (decide (anchor ≤ ts)) as [|Hn]; [done|]. exfalso.
    assert (fr_seq c ≠ fr_seq r) as Hne by (intros He; assert (c = r) as -> by (by apply (project_unique p t)); congruence || (simplify_eq; lia)).
    apply (Hord c r). split_and!; [done|done|lia|]. apply breaks_spec. exists ts. rewrite Htc. split; [done|lia].
Qed.

(** The last [n] of a list. *)
Lemma reverse_take_reverse {A} n (l : list A) : ∃ l', l = l' ++ reverse (take n (reverse l)).
Proof.
  exists (reverse (drop n (reverse l))). rewrite <-reverse_app, take_drop. by rewrite reverse_involutive.
Qed.

(** The cursor after the first [side] of the older rows. *)
Lemma window_cursor A S0 L side :
  descending (A ++ L) → (1 ≤ side)%nat →
  match next_cursor (S0 ++ take side L) (side <? (side + 1) `min` length L)%nat with
  | None => drop side L = []
  | Some b => drop side L ≠ [] ∧ filter (λ r, fr_seq r < b) (A ++ L) = drop side L
  end.
Proof.
  intros Hd Hside. unfold next_cursor. destruct (side <? (side + 1) `min` length L)%nat eqn:Hmore.
  - apply Nat.ltb_lt in Hmore. assert (take side L ≠ []) as Hne by (intros He%(f_equal length); rewrite length_take in He; cbn in He; lia).
    destruct (exists_last Hne) as (T & x & HT). rewrite HT, app_assoc, last_snoc. cbn. split.
    { intros He%(f_equal length). rewrite length_drop in He. cbn in He. lia. }
    replace (A ++ L) with ((A ++ T) ++ x :: drop side L) in Hd |- *; [by apply cut_older|].
    rewrite <-(take_drop side L) at 2. rewrite HT. by rewrite <-!app_assoc.
  - apply Nat.ltb_ge in Hmore. apply length_zero_iff_nil. rewrite length_drop. lia.
Qed.

(** The window around an instant is a slice.  Its rows are consecutive visible frames,
    newest first; the cursor is missing exactly when nothing is older, and otherwise a
    scroll from it goes on with the very next frame.  The first frame at or after the
    instant is among them when there is one, and in a project that is in order it is where
    the frames at or after the instant begin; when there is none, the window is the newest
    page. *)
Theorem window_is_a_slice p anchor side d t :
  table_wf t → (1 ≤ side)%nat →
  let '(rows, next) := list_frames_window p anchor side d t in
  ∃ newer older, newest_first p d t = newer ++ rows ++ older ∧
    match next with
    | None => older = []
    | Some b => older ≠ [] ∧ filter (λ r, fr_seq r < b) (newest_first p d t) = older
    end ∧
    match first_at_or_after p anchor d t with
    | None => newer = [] ∧ ∀ r, r ∈ t → ¬ at_or_after p anchor d r
    | Some c => c ∈ rows ∧
        (ordered p t → ∀ r ts, r ∈ t → visible p d r → fr_ts r = Some ts → anchor ≤ ts ↔ fr_seq c ≤ fr_seq r)
    end.
Proof.
  intros Hwf Hside. pose proof (newest_descending p d t Hwf) as Hd. unfold list_frames_window, resolve_seq_at_timestamp.
  destruct (first_at_or_after p anchor d t) as [c|] eqn:Hc; cbn [fmap option_fmap option_map].
  - pose proof (first_at_or_after_spec p anchor d t) as Hspec. rewrite Hc in Hspec. destruct Hspec as (Hct & [Hcv _] & _).
    assert (c ∈ newest_first p d t) as (N & O & HD)%list_elem_of_split by (by apply elem_of_newest).
    rewrite at_or_after_eq, keyset_eq by done. cbn [older_than]. rewrite HD in Hd |- *.
    rewrite cut_older, cut_newer by done. destruct (reverse_take_reverse side (N ++ [c])) as [newer Hnewer].
    set (S0 := reverse (take side (reverse (N ++ [c])))) in *. rewrite take_take, length_take.
    replace (side `min` (side + 1))%nat with side by lia. exists newer, (drop side O). split_and!.
    + rewrite <-app_assoc, take_drop, app_assoc, <-Hnewer, <-app_assoc. done.
    + pose proof (window_cursor (N ++ [c]) S0 O side) as Hcur. rewrite <-app_assoc in Hcur. by apply Hcur.
    + apply elem_of_app. left. unfold S0. rewrite elem_of_reverse, reverse_snoc. destruct side; [lia|]. cbn. by left.
    + intros Hord r ts Hr Hv Hts. by eapply boundary_divides.
  - rewrite keyset_eq, filter_all by done. rewrite take_take, length_take. replace (side `min` (side + 1))%nat with side by lia.
    exists [], (drop side (newest_first p d t)). split; [by rewrite app_nil_l, take_drop|]. split.
    + by apply (window_cursor [] [] (newest_first p d t) side).
    + split; [done|]. pose proof (first_at_or_after_spec p anchor d t) as Hspec. by rewrite Hc in Hspec.
Qed.

(** ** Gaps *)
Lemma elem_of_pairs (l : list Z) g : g ∈ zip l (drop 1 l) ↔ ∃ i, l !! i = Some g.1 ∧ l !! S i = Some g.2.
Proof.
  destruct g as [a b]. rewrite elem_of_adjacent. split.
  - intros (l1 & l2 & ->). exists (length l1). rewrite !lookup_app_r by lia. rewrite Nat.sub_diag. by replace (S (length l1) - length l1)%nat with 1%nat by lia.
  - intros (i & Ha & Hb). cbn in *. exists (take i l), (drop (S (S i)) l).
    rewrite <-(take_drop_middle l i a Ha) at 1. f_equal. f_equal. apply drop_S in Hb. done.
Qed.

Lemma pairs_sorted (l : list Z) : StronglySorted Z.le l → StronglySorted gap_le (zip l (drop 1 l)).
Proof.
  induction 1 as [|x l Hs IH Hx]; [constructor|]. destruct l as [|y l]; [constructor|]. constructor; [exact IH|].
  apply Forall_forall. intros g Hg. destruct (proj1 (elem_of_pairs (y :: l) g) Hg) as (i & Ha & Hb). rewrite Forall_forall in Hx. apply StronglySorted_inv in Hs as [Hs Hy]. rewrite Forall_forall in Hy.
  pose proof (Hx y (list_elem_of_here _ _)). cbn in Hb. apply list_elem_of_lookup_2 in Hb. specialize (Hy g.2 Hb). apply list_elem_of_lookup_2 in Ha.
  specialize (Hx g.1 Ha). unfold gap_le. cbn. destruct (decide (y < g.2)); [by left|right]. split; [lia|done].
Qed.

Lemma population_sorted p limit t : StronglySorted Z.le (gap_scan_population p limit t).
Proof.
  unfold gap_scan_population. set (l := merge_sort Z.le _). assert (StronglySorted Z.le l) as Hs by (apply StronglySorted_merge_sort; apply _).
  rewrite <-(take_drop limit l) in Hs. by apply StronglySorted_app in Hs as (_ & ? & _).
Qed.

Lemma sort_sorted (l : list Z) : StronglySorted Z.le l → merge_sort Z.le l = l.
Proof.
  intros Hs. apply (StronglySorted_unique Z.le); [apply StronglySorted_merge_sort; apply _|done|apply merge_sort_Permutation].
Qed.

Section gap_facts.
Context (julian_seconds : Z → Z → Q) (visit : list gap → list gap).
Context (visit_perm : ∀ l, visit l ≡ₚ l).
Context (julian_close : ∀ a b, Qle (Qminus (total_seconds (b - a)) GAP_PREFILTER_SLACK_SECONDS) (julian_seconds a b)).

Lemma long_passes threshold g : longer_than threshold g → prefilter julian_seconds threshold g.
Proof using julian_close.
  unfold longer_than, prefilter. intros Hl. apply (Qlt_le_trans _ (Qminus (total_seconds (g.2 - g.1)) GAP_PREFILTER_SLACK_SECONDS)); [|apply julian_close].
  unfold Qminus. by apply Qplus_lt_l.
Qed.

Lemma gap_query_eq p span_start span_end fraction limit t :
  list_capture_gaps julian_seconds visit p span_start span_end fraction limit t =
  find_capture_gaps (gap_scan_population p limit t) span_start span_end fraction.
Proof using visit_perm julian_close.
  unfold list_capture_gaps, find_capture_gaps. destruct (span_end <=? span_start); [by rewrite orb_true_r|]. rewrite orb_false_r.
  set (pop := gap_scan_population p limit t). set (thr := gap_threshold span_start span_end fraction).
  assert (merge_sort gap_le (filter (longer_than thr) (visit (filter (prefilter julian_seconds thr) (zip pop (drop 1 pop))))) =
          filter (longer_than thr) (zip pop (drop 1 pop))) as ->.
  { apply (StronglySorted_unique gap_le).
    - apply StronglySorted_merge_sort; apply _.
    - apply StronglySorted_filter, pairs_sorted, population_sorted.
    - rewrite merge_sort_Permutation.
      assert (filter (longer_than thr) (visit (filter (prefilter julian_seconds thr) (zip pop (drop 1 pop)))) ≡ₚ
              filter (longer_than thr) (filter (prefilter julian_seconds thr) (zip pop (drop 1 pop)))) as -> by (by apply filter_Permutation).
      rewrite list_filter_filter. rewrite (list_filter_iff _ (longer_than thr)); [done|]. intros g. split; [tauto|]. intros Hg. split; [done|by apply long_passes]. }
  rewrite (sort_sorted pop) by apply population_sorted. destruct (length pop <? 2)%nat eqn:Hlen; [|done].
  apply Nat.ltb_lt in Hlen. destruct pop as [|a [|b pop]]; [done|done|cbn in Hlen; lia].
Qed.

(** The gap query is the gap finder.  Filtering in the database by approximate
    differences, in whatever order its rows come, and then exactly, finds the very gaps that
    walking the first timestamps of the project would, in ascending order; the markers of
    the ribbon are their positions. *)
Theorem gap_query_exact p span_start span_end fraction limit t :
  list_capture_gaps julian_seconds visit p span_start span_end fraction limit t =
    find_capture_gaps (gap_scan_population p limit t) span_start span_end fraction ∧
  detect_gaps (gap_scan_population p limit t) span_start span_end fraction =
    (λ g : gap, (frac g.1 span_start span_end, frac g.2 span_start span_end)) <$>
      list_capture_gaps julian_seconds visit p span_start span_end fraction limit t.
Proof using visit_perm julian_close.
  rewrite gap_query_eq. split; [done|]. unfold detect_gaps, find_capture_gaps. by destruct (_ || _).
Qed.
End gap_facts.

(** Stepping from gap to gap. *)
Notation ascending := (StronglySorted (λ g g' : gap, g.1 < g'.1)).
Lemma pick_first l b : (∀ g, g ∈ l → b.1 < g.1) → foldl (pick_gap Z.ltb) (Some b) l = Some b.
Proof.
  induction l as [|g l IH]; [done|]. intros Hl. cbn. rewrite (proj2 (Z.ltb_ge _ _)) by (specialize (Hl g (list_elem_of_here _ _)); lia).
  apply IH. intros x Hx. apply Hl. by right.
Qed.
Lemma pick_head l : ascending l → foldl (pick_gap Z.ltb) None l = head l.
Proof. intros Hs. destruct l as [|g l]; [done|]. cbn. apply StronglySorted_inv in Hs as [_ Hg]. rewrite Forall_forall in Hg. by apply pick_first. Qed.
Lemma pick_last l b : ascending (b :: l) → foldl (pick_gap Z.gtb) (Some b) l = last (b :: l).
Proof.
  revert b. induction l as [|g l IH]; intros b Hs; [done|]. cbn [foldl pick_gap]. apply StronglySorted_inv in Hs as [Hs Hb].
  rewrite Forall_forall in Hb. specialize (Hb g (list_elem_of_here _ _)). cbn in Hb.
  assert ((g.1 >? b.1) = true) as -> by (apply Z.gtb_lt; lia). rewrite IH by done. done.
Qed.
Lemma pick_tail l : ascending l → foldl (pick_gap Z.gtb) None l = last l.
Proof. intros Hs. destruct l as [|g l]; [done|]. by apply pick_last. Qed.

Lemma total_seconds_pos_iff d : (0 < total_seconds d)%Q ↔ 0 < d.
Proof. unfold total_seconds, Qlt. cbn. lia. Qed.
Lemma total_seconds_nonneg d : (0 <= total_seconds d)%Q ↔ 0 ≤ d.
Proof. unfold total_seconds, Qle. cbn. lia. Qed.

Lemma gaps_ascending times span_start span_end fraction :
  (0 <= fraction)%Q → ascending (find_capture_gaps times span_start span_end fraction).
Proof.
  intros Hf. unfold find_capture_gaps. destruct (_ || _) eqn:Hguard; [constructor|]. apply orb_false_iff in Hguard as [_ Hspan%Z.leb_gt].
  set (l := merge_sort Z.le times). assert (StronglySorted gap_le (zip l (drop 1 l))) as Hs by (apply pairs_sorted, StronglySorted_merge_sort; apply _).
  assert (StronglySorted Z.le l) as Hl by (apply StronglySorted_merge_sort; apply _).
  assert (∀ g, longer_than (gap_threshold span_start span_end fraction) g → g.1 < g.2) as Hpos.
  { intros g. unfold longer_than, gap_threshold. intros Hlt.
    assert (0 <= total_seconds (span_end - span_start))%Q as H0 by (apply total_seconds_nonneg; lia).
    pose proof (proj1 (total_seconds_pos_iff _) (Qle_lt_trans _ _ _ (Qmult_le_0_compat _ _ H0 Hf) Hlt)). lia. }
  clear -Hl Hs Hpos. induction l as [|x l IH]; [constructor|]. destruct l as [|y l]; [constructor|].
  apply StronglySorted_inv in Hl as [Hl Hx]. change (zip (x :: y :: l) (drop 1 (x :: y :: l))) with ((x, y) :: zip (y :: l) (drop 1 (y :: l))) in Hs |- *.
  apply StronglySorted_inv in Hs as [Hs _]. rewrite filter_cons. case_decide as Hlong; [|by apply IH].
  constructor; [by apply IH|]. apply Forall_forall. intros g [_ (i & Ha & _)%elem_of_pairs]%list_elem_of_filter. apply Hpos in Hlong. cbn in Hlong |- *.
  apply StronglySorted_inv in Hl as [_ Hy]. rewrite Forall_forall in Hy. apply list_elem_of_lookup_2 in Ha. apply elem_of_cons in Ha as [->|Ha]; [done|].
  specialize (Hy _ Ha). lia.
Qed.

(** The gap buttons step through the gaps.  From any gap, the next one in either
    direction is its neighbour in the list of gaps, and there is none exactly at the ends. *)
Theorem gap_steps_exact times span_start span_end fraction i g :
  (0 <= fraction)%Q → find_capture_gaps times span_start span_end fraction !! i = Some g →
  nearest_gap (find_capture_gaps times span_start span_end fraction) g.1 true =
    find_capture_gaps times span_start span_end fraction !! S i ∧
  nearest_gap (find_capture_gaps times span_start span_end fraction) g.1 false =
    match i with O => None | S j => find_capture_gaps times span_start span_end fraction !! j end.
Proof.
  intros Hf Hi. pose proof (gaps_ascending times span_start span_end fraction Hf) as Hs. revert Hi Hs.
  generalize (find_capture_gaps times span_start span_end fraction). intros l Hi Hs. unfold nearest_gap.
  rewrite pick_head, pick_tail by (by apply StronglySorted_filter). rewrite <-(take_drop_middle l i g Hi) in Hs.
  pose proof (lookup_lt_Some _ _ _ Hi) as Hlt. apply StronglySorted_app in Hs as (Hab & _ & [_ Hg]%StronglySorted_inv). rewrite Forall_forall in Hg.
  assert (∀ x, x ∈ take i l → x.1 < g.1) as Hbefore by (intros x Hx; apply (Hab x g Hx); by left). split.
  - rewrite <-(take_drop_middle l i g Hi) at 1. rewrite filter_app, filter_none by (intros x Hx; specialize (Hbefore x Hx); lia).
    rewrite filter_cons_False by lia. rewrite filter_all by done. rewrite app_nil_l, head_lookup, lookup_drop. f_equal. lia.
  - rewrite <-(take_drop_middle l i g Hi) at 1. rewrite filter_app, filter_all by done. rewrite filter_cons_False by lia.
    rewrite filter_none by (intros x Hx; specialize (Hg x Hx); lia). rewrite app_nil_r, last_lookup, length_take. destruct i as [|j]; [done|].
    rewrite lookup_take_lt by lia. f_equal. lia.
Qed.

(** ** Figures *)
Lemma keep_max_foldl l acc x : foldl keep_max (keep_max acc x) l = keep_max (foldl keep_max acc l) x.
Proof.
  revert acc. induction l as [|y l IH]; intros acc; [done|]. cbn. rewrite <-IH. f_equal.
  destruct acc as [a|]; cbn; repeat case_match; f_equal; lia.
Qed.
Lemma keep_max_foldr l : foldr (λ x acc, keep_max acc x) None l = foldl keep_max None l.
Proof. induction l as [|x l IH]; [done|]. cbn. rewrite IH. symmetry. exact (keep_max_foldl l None x). Qed.

(** The totals of a group, read off its rows. *)
Definition totals_of (rows : frames) : option Z * Z :=
  (foldl keep_max None (omap fr_ts (filter (λ r, fr_origin r = og_captured) rows)), foldr Z.add 0 (omap fr_size rows)).
Lemma totals_cons r rows :
  totals_of (r :: rows) =
  (match fr_origin r, fr_ts r with og_captured, Some ts => keep_max (totals_of rows).1 ts | _, _ => (totals_of rows).1 end,
   default 0 (fr_size r) + (totals_of rows).2).
Proof.
  unfold totals_of. cbn [fst snd]. f_equal.
  - rewrite <-!keep_max_foldr, filter_cons. destruct (fr_origin r); [rewrite decide_True by done|by rewrite decide_False].
    change (omap fr_ts (r :: filter (λ r, fr_origin r = og_captured) rows)) with (match fr_ts r with Some y => y :: omap fr_ts (filter (λ r, fr_origin r = og_captured) rows) | None => omap fr_ts (filter (λ r, fr_origin r = og_captured) rows) end).
    by destruct (fr_ts r).
  - change (omap fr_size (r :: rows)) with (match fr_size r with Some y => y :: omap fr_size rows | None => omap fr_size rows end).
    by destruct (fr_size r).
Qed.

Lemma group_totals_lookup ids t p : default (None, 0) (group_totals ids t !! p) = if decide (p ∈ ids) then totals_of (active_of p t) else (None, 0).
Proof.
  unfold group_totals, active_of. induction t as [|r t IH]; [by destruct (decide (p ∈ ids))|]. rewrite !filter_cons.
  destruct (decide (fr_project r ∈ ids ∧ fr_state r = fs_active)) as [[Hin Hst]|Hn].
  - cbn [foldr]. destruct (default (None, 0) (foldr _ ∅ (filter (λ r, fr_project r ∈ ids ∧ fr_state r = fs_active) t) !! fr_project r)) as [captured size] eqn:Hdef.
    destruct (decide (fr_project r = p)) as [Hp|Hp].
    + rewrite Hp in *. rewrite lookup_insert_eq. rewrite (decide_True (P := p = p ∧ _)) by done. rewrite Hdef in IH. cbn [default].
      rewrite decide_True in IH |- * by done. rewrite totals_cons, <-IH. done.
    + rewrite lookup_insert_ne by done. rewrite (decide_False (P := fr_project r = p ∧ _)) by tauto. apply IH.
  - rewrite IH. destruct (decide (p ∈ ids)) as [Hin|]; [|done]. destruct (decide (fr_project r = p ∧ fr_state r = fs_active)) as [[Hp Hst]|]; [|done].
    destruct Hn. by rewrite Hp.
Qed.

(** The figures of many projects at once are those of each.  For every asked project the
    two grouped statements give the newest own capture, the disk usage and the preview frame
    that the three queries of one project give; nothing is given for a project that was not
    asked for. *)
Theorem aggregates_match projects ids t p :
  project_frame_aggregates projects ids t !! p =
  if decide (p ∈ ids) then
    Some (MkAggregates (latest_captured_at p t) (sum_project_disk_usage p t)
            (if decide (p ∈ projects) then fr_id <$> latest_active_frame p t else None))
  else None.
Proof.
  unfold project_frame_aggregates. set (sorted := merge_sort Z.le (remove_dups ids)).
  assert (∀ q, q ∈ sorted ↔ q ∈ ids) as Hin by (intros q; unfold sorted; rewrite merge_sort_Permutation; apply elem_of_remove_dups).
  assert (NoDup sorted) as Hnd by (unfold sorted; rewrite merge_sort_Permutation; apply NoDup_remove_dups).
  assert (∀ {B} (f : Z → B) (l : list Z), NoDup l → ∀ q, (list_to_map ((λ p, (p, f p)) <$> l) : gmap Z B) !! q = if decide (q ∈ l) then Some (f q) else None) as Hmap.
  { clear. intros B f l Hl q. assert (((λ p, (p, f p)) <$> l).*1 = l) as Hfst by (rewrite <-list_fmap_compose; apply list_fmap_id).
    case_decide as Hq; [apply elem_of_list_to_map_1; [by rewrite Hfst|]; apply list_elem_of_fmap; by exists q|].
    apply not_elem_of_list_to_map_1. by rewrite Hfst. }
  rewrite (Hmap _ _ sorted Hnd). destruct (decide (p ∈ sorted)) as [Hp|Hp], (decide (p ∈ ids)) as [Hp'|Hp']; [|by rewrite Hin in Hp|by rewrite Hin in Hp|done].
  f_equal. rewrite group_totals_lookup, decide_True by done. cbn [totals_of]. f_equal.
  rewrite (Hmap _ _ (filter (λ p, p ∈ projects) sorted) (NoDup_filter _ _ Hnd)).
  destruct (decide (p ∈ projects)) as [Hpr|Hpr].
  - by rewrite decide_True by (by apply list_elem_of_filter).
  - by rewrite decide_False by (rewrite list_elem_of_filter; tauto).
Qed.

(** ** Selections *)
(** The size shown is the size applied.  The count of a selection is the number of
    frames it resolves to, the pinned list holds exactly those, once and in ascending order,
    and they are the visible frames of the scope that were not deselected. *)
Theorem selection_count_exact d t :
  NoDup (fr_id <$> t) →
  count_selected d t = Z.of_nat (size (resolve d t)) ∧
  NoDup (materialize d t) ∧ StronglySorted Z.le (materialize d t) ∧
  ∀ id, id ∈ materialize d t ↔ (∃ r, r ∈ t ∧ in_scope d r ∧ fr_id r = id) ∧ id ∉ rd_deselected d.
Proof.
  intros Hn.
  assert (∀ id, id ∈ resolve d t ↔ (∃ r, r ∈ t ∧ in_scope d r ∧ fr_id r = id) ∧ id ∉ rd_deselected d) as Hres.
  { intros id. unfold resolve. rewrite elem_of_difference, !elem_of_list_to_set, list_elem_of_fmap. setoid_rewrite list_elem_of_filter. naive_solver. }
  split_and!.
  - unfold count_selected. f_equal.
    assert (∀ l : frames, l ⊆ t → NoDup l → (∀ id, id ∈ fr_id <$> l ↔ id ∈ resolve d t) → length l = size (resolve d t)) as Hlen.
    { intros l Hsub Hl Hids. rewrite <-(length_fmap fr_id l), <-(size_list_to_set (C := gset Z)) by (by apply (NoDup_ids_sub l t)).
      f_equal. apply set_eq. intros id. by rewrite elem_of_list_to_set. }
    destruct (rd_deselected d) as [|i ids] eqn:Hd.
    + apply Hlen; [intros r [_ ?]%list_elem_of_filter; done|by apply NoDup_filter, NoDup_table|]. intros id. rewrite Hres, list_elem_of_fmap.
      setoid_rewrite list_elem_of_filter. pose proof (not_elem_of_nil id). naive_solver.
    + apply Hlen; [intros r [_ [_ ?]%list_elem_of_filter]%list_elem_of_filter; done|by apply NoDup_filter, NoDup_filter, NoDup_table|].
      intros id. rewrite Hres, list_elem_of_fmap. setoid_rewrite list_elem_of_filter. setoid_rewrite list_elem_of_filter. naive_solver.
  - unfold materialize. rewrite merge_sort_Permutation. apply NoDup_elements.
  - apply StronglySorted_merge_sort; apply _.
  - intros id. unfold materialize. rewrite merge_sort_Permutation, elem_of_elements. apply Hres.
Qed.

(** A bound with an offset and one without do not compare, and the error is not one the
    callers expect. *)
Lemma mixed_bounds_type_error `{CaptureEnv} a b w w' off :
  String.eqb (strip a) "" = false → String.eqb (strip b) "" = false →
  env_fromisoformat a = Some (PDT w None) → env_fromisoformat b = Some (PDT w' (Some off)) →
  parse_descriptor (PDict [("scope", PStr "in_range"); ("project_id", PInt 1);
                           ("time_range", PDict [("from", PStr a); ("to", PStr b)])]) = Raise TypeError.
Proof. intros Ha Hb Hfa Hfb. cbn. rewrite Ha, Hfa. cbn. rewrite Hb, Hfb. done. Qed.

(** ** Instances *)
(** Frame 3 is soft-deleted, and frame 8 captured, after the first batch. *)
Definition shelf_later : frames := modify 3 (set_state fs_soft_deleted) shelf ++ [frame 8 1 4 (Some 70)].
Lemma shelf_later_wf : table_wf shelf_later.
Proof. apply table_ok_wf. vm_compute. reflexivity. Qed.

Lemma scroll_shows_each_frame_once_witness :
  ∃ rows, scroll 1 None false 1 [shelf; shelf_later; shelf_later] = Some rows ∧ fr_id <$> rows = [3; 2; 1] ∧ descending rows ∧
    scroll 1 None false 2 (replicate (S (length shelf)) shelf) = Some (newest_first 1 false shelf).
Proof.
  destruct (scroll_shows_each_frame_once 1 false 1 [shelf; shelf_later; shelf_later]) as [Hrun _]; [lia|intros t Ht; rewrite !elem_of_cons, elem_of_nil in Ht; destruct Ht as [->|[->|[->|[]]]]; [apply shelf_wf|apply shelf_later_wf|apply shelf_later_wf]|].
  destruct (scroll_shows_each_frame_once 1 false 2 [] ltac:(lia) ltac:(by intros t ?%elem_of_nil)) as [_ Hstatic].
  destruct (scroll 1 None false 1 [shelf; shelf_later; shelf_later]) as [rows|] eqn:Hs; [|vm_compute in Hs; discriminate].
  destruct (Hrun rows eq_refl) as (Hd & _). exists rows. split; [reflexivity|]. split; [vm_compute in Hs; injection Hs as <-; reflexivity|].
  split; [exact Hd|]. exact (Hstatic shelf shelf_wf).
Defined.

Lemma window_is_a_slice_witness :
  fr_id <$> (list_frames_window 1 15 1 false shelf).1 = [2; 1] ∧ (list_frames_window 1 15 1 false shelf).2 = None ∧
  ∃ newer older, newest_first 1 false shelf = newer ++ (list_frames_window 1 15 1 false shelf).1 ++ older ∧ older = [].
Proof.
  split; [vm_compute; reflexivity|]. assert ((list_frames_window 1 15 1 false shelf).2 = None) as Hnext by (vm_compute; reflexivity). split; [exact Hnext|].
  pose proof (window_is_a_slice 1 15 1 false shelf shelf_wf ltac:(lia)) as Hw.
  destruct (list_frames_window 1 15 1 false shelf) as [rows next]. cbn [fst snd] in *. subst next.
  destruct Hw as (newer & older & Heq & Hold & _). exists newer, older. split; [exact Heq|exact Hold].
Defined.

Lemma slack_below q : (q - GAP_PREFILTER_SLACK_SECONDS <= q)%Q.
Proof. destruct q as [n d]. unfold GAP_PREFILTER_SLACK_SECONDS, Qle, Qminus, Qplus, Qopp. cbn. nia. Qed.

Lemma gap_query_exact_witness :
  list_capture_gaps (λ a b, total_seconds (b - a)) reverse 2 0 100 (1 # 25) 10 shelf = [(40, 45); (45, 50)] ∧
  find_capture_gaps (gap_scan_population 2 10 shelf) 0 100 (1 # 25) = [(40, 45); (45, 50)].
Proof.
  assert (find_capture_gaps (gap_scan_population 2 10 shelf) 0 100 (1 # 25) = [(40, 45); (45, 50)]) as Hf by (vm_compute; reflexivity).
  split; [|exact Hf]. destruct (gap_query_exact (λ a b, total_seconds (b - a)) reverse (λ l, reverse_Permutation l)
    (λ a b, slack_below _) 2 0 100 (1 # 25) 10 shelf) as [Heq _].
  rewrite Heq. exact Hf.
Defined.

Lemma gap_steps_exact_witness :
  nearest_gap (find_capture_gaps [40; 45; 50] 0 100 (1 # 25)) 40 true = Some (45, 50) ∧
  nearest_gap (find_capture_gaps [40; 45; 50] 0 100 (1 # 25)) 40 false = None.
Proof.
  assert (find_capture_gaps [40; 45; 50] 0 100 (1 # 25) !! 0%nat = Some (40, 45)) as Hg by (vm_compute; reflexivity).
  destruct (gap_steps_exact [40; 45; 50] 0 100 (1 # 25) 0 (40, 45)) as [Hn Hp]; [discriminate|exact Hg|].
  split; [etrans; [exact Hn|vm_compute; reflexivity]|exact Hp].
Defined.

(** The timed frames of the second project from 45 on, without frame 4. *)
Definition selection : RangeDescriptor := MkDescriptor in_range 2 (Some (PDT 45 None)) None false [4; 99].
Lemma selection_count_exact_witness : count_selected selection shelf = 1 ∧ size (resolve selection shelf) = 1%nat.
Proof.
  destruct (selection_count_exact selection shelf (wf_ids _ shelf_wf)) as [Hc _].
  assert (count_selected selection shelf = 1) as H1 by (vm_compute; reflexivity). split; [exact H1|]. rewrite Hc in H1. lia.
Defined.
