(* ===== verification/Sessions.v ===== *)
(** * Login sessions: security/sessions.py, security/session_revalidation.py

    The session and user tables, the lookup of a session from its token with its timeouts,
    the periodic directory re-check behind a circuit breaker, revocation, rotation and
    purging, and the gates of a request that rest on them (security/authz.py,
    security/principal.py).

    A lookup is three pieces, because the directory can take seconds to answer: it reads
    the tables, decides, and publishes column updates ([Bookkeeping]) on the tables as they
    are then.  Timestamps are microseconds of UTC; a reading of the monotonic clock is a
    count of microseconds too.  The digest of a token (SHA-256) is an argument.  The texts
    of group names are ASCII. *)

From Stdlib Require Import Ascii.
From S2P Require Import Prelude PyTime PyVal Bytes BatchedDelete.
From stdpp Require Import options.
Local Open Scope Z_scope.

(** ** Tables (db/models/user.py, db/models/session.py) *)
Inductive auth_source := as_local | as_ldap.
Inductive user_role := rl_viewer | rl_operator | rl_admin.
#[export] Instance auth_source_eq_dec : EqDecision auth_source.
Proof. solve_decision. Defined.
#[export] Instance user_role_eq_dec : EqDecision user_role.
Proof. solve_decision. Defined.

Record UserRow := MkUser {
  us_username : string;
  us_username_key : string;
  us_source : auth_source;
  us_password_hash : option string;
  us_role : user_role;
  us_enabled : bool;
}.
Record SessionRow := MkSessionRow {
  se_id : Z;
  se_user : Z;
  se_token_hash : option string;
  se_csrf_secret : option string;
  se_last_active : option Z;
  se_persistent : bool;
  se_created_at : Z;
  se_expires_at : option Z;
  se_last_revalidated_at : option Z;
  se_revoked : bool;
  se_revoked_at : option Z;
}.
#[export] Instance user_row_eq_dec : EqDecision UserRow.
Proof. solve_decision. Defined.
#[export] Instance session_row_eq_dec : EqDecision SessionRow.
Proof. solve_decision. Defined.
Record AuthTables := MkAuthTables {
  at_sessions : list SessionRow;
  at_users : gmap Z UserRow;
}.
Definition on_sessions (f : list SessionRow → list SessionRow) (t : AuthTables) : AuthTables :=
  MkAuthTables (f (at_sessions t)) (at_users t).
Definition on_users (f : gmap Z UserRow → gmap Z UserRow) (t : AuthTables) : AuthTables :=
  MkAuthTables (at_sessions t) (f (at_users t)).
Definition set_role (role : user_role) (u : UserRow) : UserRow :=
  MkUser (us_username u) (us_username_key u) (us_source u) (us_password_hash u) role (us_enabled u).

(** ** Settings (config/settings.py) *)
Record SessionSettings := MkSessionSettings {
  ss_idle_timeout : Z;
  ss_absolute_timeout : Z;
  ss_persistent_timeout : Z;
  ss_ldap_interval : Z;
  ss_keepalive_on_poll : bool;
}.

(** ** The circuit breaker: its state is [_open_until] *)
(** [allow], [record_unreachable], [record_answered] and [reset], [is_open] *)
Definition breaker_allow (now window_seconds : Z) (open_until : option Z) : bool * option Z :=
  match open_until with
  | None => (true, None)
  | Some deadline => if now <? deadline then (false, open_until) else (true, Some (now + window_seconds * SECOND))
  end.
Definition record_unreachable (now window_seconds : Z) : option Z := Some (now + window_seconds * SECOND).
Definition record_answered : option Z := None.
Definition breaker_is_open (now : Z) (open_until : option Z) : bool :=
  match open_until with None => false | Some deadline => now <? deadline end.

(** ** The directory (security/ldap_directory.py) *)
Inductive LdapOutcome :=
  | lo_authenticated | lo_invalid_credentials | lo_no_such_user | lo_server_unreachable
  | lo_config_error | lo_locked | lo_disabled.
#[export] Instance ldap_outcome_eq_dec : EqDecision LdapOutcome.
Proof. solve_decision. Defined.
Record LdapDirectoryState := MkDirectoryState {
  ld_outcome : LdapOutcome;
  ld_groups : list bytes;
  ld_detail : string;
}.
Definition DETAIL_NO_SERVER_REACHABLE : string := "no server reachable".

(** [normalize_dn] *)
Definition normalize_dn (dn : bytes) : list bytes := (λ part, lower_text (strip_by is_space part)) <$> split_at_char "," dn.
(** The group names of the settings row; an empty one is not configured. *)
Record GroupView := MkGroups { gv_admin : bytes; gv_operator : bytes; gv_viewer : bytes }.
Definition group_of (view : GroupView) (role : user_role) : bytes :=
  match role with rl_admin => gv_admin view | rl_operator => gv_operator view | rl_viewer => gv_viewer view end.
Definition ROLE_PRECEDENCE : list user_role := [rl_viewer; rl_operator; rl_admin].
(** [map_groups_to_role] *)
Definition in_group (matched_groups : list bytes) (dn : bytes) : bool :=
  bool_decide (dn ≠ []) && bool_decide (normalize_dn dn ∈ (normalize_dn <$> matched_groups)).
Definition map_groups_to_role (matched_groups : list bytes) (view : GroupView) : option user_role :=
  List.find (λ role, in_group matched_groups (group_of view role)) (reverse ROLE_PRECEDENCE).

(** [directory_unreachable] and [record_directory_result] *)
Definition directory_unreachable (outcome : LdapOutcome) (detail : string) : bool :=
  bool_decide (outcome = lo_server_unreachable) && String.eqb detail DETAIL_NO_SERVER_REACHABLE.
Definition record_directory_result (now window_seconds : Z) (outcome : LdapOutcome) (detail : string) : option Z :=
  if directory_unreachable outcome detail then record_unreachable now window_seconds else record_answered.

(** ** Sessions *)
Section sessions.
Context (digest : string → string) (cfg : SessionSettings).

Definition TOKEN_PREFIX : string := "s2.".
Definition TOUCH_INTERVAL_SECONDS : Z := 60.

(** [hash_token], [_absolute_cap_seconds], [touch_interval] *)
Definition hash_token (raw_token : string) : string := digest raw_token.
Definition absolute_cap_seconds (persistent : bool) : Z :=
  if persistent then ss_persistent_timeout cfg else ss_absolute_timeout cfg.
Definition touch_interval : Z := Z.min TOUCH_INTERVAL_SECONDS (Z.max 1 (ss_idle_timeout cfg / 10)) * SECOND.

(** The next primary key (no AUTOINCREMENT on this table). *)
Definition next_session_id (rows : list SessionRow) : Z := default 0 (foldl keep_max None (se_id <$> rows)) + 1.

(** [create_session]; [random] and [csrf] are what the generator gave. *)
Definition create_session (user_id : Z) (remember_me : bool) (now : Z) (random csrf : string) (t : AuthTables)
    : result (AuthTables * SessionRow * string) :=
  let raw_token := TOKEN_PREFIX +:+ random in
  let row := MkSessionRow (next_session_id (at_sessions t)) user_id (Some (hash_token raw_token)) (Some csrf) (Some now) remember_me
               now (Some (now + absolute_cap_seconds remember_me * SECOND)) None false None in
  if bool_decide (Some (hash_token raw_token) ∈ (se_token_hash <$> at_sessions t)) then Raise IntegrityError
  else match at_users t !! user_id with
       | None => Raise IntegrityError
       | Some _ => Ok (on_sessions (λ rows, rows ++ [row]) t, row, raw_token)
       end.

(** The row of a digest: the column is unique. *)
Definition find_session (token_hash : string) (rows : list SessionRow) : option SessionRow :=
  List.find (λ r, bool_decide (se_token_hash r = Some token_hash)) rows.

(** The first part of [get_session_row]: the row and its user, unless one of the gates is
    closed. *)
Definition last_touch (r : SessionRow) : Z := default (se_created_at r) (se_last_active r).
Definition expired (now : Z) (r : SessionRow) : bool :=
  (now >? last_touch r + ss_idle_timeout cfg * SECOND) ||
  (now >? se_created_at r + absolute_cap_seconds (se_persistent r) * SECOND) ||
  match se_expires_at r with Some e => now >? e | None => false end.
Definition read_session (raw_token : string) (now : Z) (t : AuthTables) : option (SessionRow * UserRow) :=
  if String.eqb raw_token "" then None
  else
    match find_session (hash_token raw_token) (at_sessions t) with
    | None => None
    | Some row =>
        if se_revoked row || expired now row then None
        else
          match at_users t !! se_user row with
          | None => None
          | Some user => if us_enabled user then Some (row, user) else None
          end
    end.

(** ** What a lookup writes: columns of the session row and the role of its user *)
Record Bookkeeping := MkBookkeeping {
  bk_revoked_at : option Z;
  bk_revalidated_at : option Z;
  bk_last_active : option Z;
  bk_role : option user_role;
}.
#[export] Instance bookkeeping_eq_dec : EqDecision Bookkeeping.
Proof. solve_decision. Defined.
Definition nothing_due : Bookkeeping := MkBookkeeping None None None None.

(** [_revoke] *)
Definition revoke_row (at_ : Z) (r : SessionRow) : SessionRow :=
  MkSessionRow (se_id r) (se_user r) (se_token_hash r) (se_csrf_secret r) (se_last_active r) (se_persistent r) (se_created_at r)
    (se_expires_at r) (se_last_revalidated_at r) true (Some at_).
Definition set_revalidated (at_ : Z) (r : SessionRow) : SessionRow :=
  MkSessionRow (se_id r) (se_user r) (se_token_hash r) (se_csrf_secret r) (se_last_active r) (se_persistent r) (se_created_at r)
    (se_expires_at r) (Some at_) (se_revoked r) (se_revoked_at r).
Definition set_last_active (at_ : Z) (r : SessionRow) : SessionRow :=
  MkSessionRow (se_id r) (se_user r) (se_token_hash r) (se_csrf_secret r) (Some at_) (se_persistent r) (se_created_at r)
    (se_expires_at r) (se_last_revalidated_at r) (se_revoked r) (se_revoked_at r).
Definition if_set {A B} (f : A → B → B) (o : option A) : B → B := match o with Some a => f a | None => λ b, b end.
Definition patch_row (bk : Bookkeeping) (r : SessionRow) : SessionRow :=
  if_set set_last_active (bk_last_active bk) (if_set set_revalidated (bk_revalidated_at bk) (if_set revoke_row (bk_revoked_at bk) r)).
Definition patch_user (bk : Bookkeeping) (u : UserRow) : UserRow := if_set set_role (bk_role bk) u.

(** The flush: [UPDATE ... WHERE id = ?] for the objects that changed; a row that is gone
    is a [StaleDataError]. *)
Definition touches_row (bk : Bookkeeping) : bool :=
  bool_decide (is_Some (bk_revoked_at bk) ∨ is_Some (bk_revalidated_at bk) ∨ is_Some (bk_last_active bk)).
Definition update_row (id : Z) (f : SessionRow → SessionRow) (rows : list SessionRow) : list SessionRow :=
  (λ r, if se_id r =? id then f r else r) <$> rows.
Definition apply_bookkeeping (row_id user_id : Z) (bk : Bookkeeping) (t : AuthTables) : result AuthTables :=
  if touches_row bk && negb (bool_decide (row_id ∈ (se_id <$> at_sessions t))) then Raise StaleDataError
  else if bool_decide (is_Some (bk_role bk)) && negb (bool_decide (is_Some (at_users t !! user_id))) then Raise StaleDataError
  else Ok (MkAuthTables (update_row row_id (patch_row bk) (at_sessions t)) (alter (patch_user bk) user_id (at_users t))).

(** ** The re-check: [_revalidation_due], [revalidate_ldap_session] *)
Definition revalidation_due (current : Z) (r : SessionRow) : bool :=
  match se_last_revalidated_at r with
  | None => true
  | Some last => ss_ldap_interval cfg * SECOND <=? current - last
  end.

(** One question to the directory: the clock when the breaker is asked, what the resolver
    answers ([None]: settings unresolvable), the clock when the answer is reported, and the
    group names read afterwards. *)
Record DirectoryCall := MkCall {
  dr_asked_at : Z;
  dr_state : option LdapDirectoryState;
  dr_reported_at : Z;
  dr_groups : GroupView;
}.
Definition revalidate_ldap_session (window : Z) (current : Z) (call : DirectoryCall) (row : SessionRow) (user : UserRow)
    (breaker : option Z) : bool * Bookkeeping * option Z :=
  if negb (bool_decide (us_source user = as_ldap)) then (true, nothing_due, breaker)
  else if negb (revalidation_due current row) then (true, nothing_due, breaker)
  else
    let '(allowed, breaker) := breaker_allow (dr_asked_at call) window breaker in
    if negb allowed then (true, nothing_due, breaker)
    else
      match dr_state call with
      | None => (true, nothing_due, record_answered)
      | Some state =>
          let breaker := record_directory_result (dr_reported_at call) window (ld_outcome state) (ld_detail state) in
          let revoked := (false, MkBookkeeping (Some current) None None None, breaker) in
          match ld_outcome state with
          | lo_no_such_user | lo_locked | lo_disabled => revoked
          | lo_authenticated =>
              match map_groups_to_role (ld_groups state) (dr_groups call) with
              | None => revoked
              | Some role =>
                  (true, MkBookkeeping None (Some current) None (if decide (role = us_role user) then None else Some role), breaker)
              end
          | _ => (true, nothing_due, breaker)
          end
      end.

(** ** The database session of a request: what is stored, what it sees, and whether it
    holds writes ([_has_other_writes]) *)
Record AuthTxn := MkAuthTxn {
  ax_stored : AuthTables;
  ax_view : AuthTables;
  ax_writes : bool;
}.
(** What SQLite answers to a write. *)
Inductive write_answer := wr_ok | wr_locked | wr_failed.
(** The clock of the reads and of the re-check, whether the request counts as activity, the
    question to the directory, what other requests commit between the reads and the
    bookkeeping ([li_meanwhile]: the lookup may wait for the directory in between), and the
    answers to the writes. *)
Record LookupInputs := MkLookup {
  li_now : Z;
  li_recheck_now : Z;
  li_touch : bool;
  li_call : DirectoryCall;
  li_meanwhile : AuthTables → AuthTables;
  li_flush : write_answer;
  li_commit : write_answer;
}.

(** The decision of a lookup: whether the session is kept, what is to be written, whether
    the re-check flushed, and whether losing the writes must deny. *)
Record LookupDecision := MkDecision {
  ld_kept : bool;
  ld_book : Bookkeeping;
  ld_flushes : bool;
  ld_deny : bool;
}.
Definition decide_lookup (window : Z) (i : LookupInputs) (row : SessionRow) (user : UserRow) (breaker : option Z)
    : LookupDecision * option Z :=
  let '(kept, bk, breaker) := revalidate_ldap_session window (li_recheck_now i) (li_call i) row user breaker in
  let touch := li_touch i && kept && (touch_interval <=? li_now i - last_touch row) in
  (MkDecision kept (MkBookkeeping (bk_revoked_at bk) (bk_revalidated_at bk) (if touch then Some (li_now i) else None) (bk_role bk))
     (bool_decide (is_Some (bk_revalidated_at bk))) (negb kept || bool_decide (is_Some (bk_role bk))), breaker).

(** [_recover_from_locked_bookkeeping]: roll back, and re-load unless denied. *)
Definition reload (row_id user_id : Z) (t : AuthTables) : option (SessionRow * UserRow) :=
  match List.find (λ r, se_id r =? row_id) (at_sessions t), at_users t !! user_id with
  | Some row, Some user => if se_revoked row || negb (us_enabled user) then None else Some (row, user)
  | _, _ => None
  end.
Definition recover_from_locked_bookkeeping (row_id user_id : Z) (deny : bool) (x : AuthTxn)
    : result (option (SessionRow * UserRow)) * AuthTxn :=
  (Ok (if deny then None else reload row_id user_id (ax_stored x)), MkAuthTxn (ax_stored x) (ax_stored x) false).

(** The rest of [get_session_row] with [_commit_session_bookkeeping]: flush inside the
    caller's writes, or commit at once. *)
Definition publish_lookup (i : LookupInputs) (row : SessionRow) (user : UserRow) (d : LookupDecision) (x : AuthTxn)
    : result (option (SessionRow * UserRow)) * AuthTxn :=
  let had_writes := ax_writes x in
  let answer := if ld_kept d then Some (patch_row (ld_book d) row, patch_user (ld_book d) user) else None in
  let locked (deny : bool) :=
    if had_writes then (Raise OperationalError, x) else recover_from_locked_bookkeeping (se_id row) (se_user row) deny x in
  match if ld_flushes d then li_flush i else wr_ok with
  | wr_failed => (Raise OperationalError, x)
  | wr_locked => locked true
  | wr_ok =>
      if negb had_writes && bool_decide (ld_book d = nothing_due) then (Ok answer, x)
      else
        match li_commit i with
        | wr_failed => (Raise OperationalError, x)
        | wr_locked => locked (ld_deny d)
        | wr_ok =>
            match apply_bookkeeping (se_id row) (se_user row) (ld_book d) (ax_view x) with
            | Raise e => (Raise e, x)
            | Ok t => (Ok answer, if had_writes then MkAuthTxn (ax_stored x) t true else MkAuthTxn t t false)
            end
        end
  end.

(** The transaction as the bookkeeping finds it.  A caller that holds writes holds the write
    lock, so nothing was committed meanwhile; otherwise no transaction was open (a SELECT
    opens none), and the UPDATEs and re-loads meet the tables as they are by then. *)
Definition at_publish (i : LookupInputs) (x : AuthTxn) : AuthTxn :=
  if ax_writes x then x
  else let t := li_meanwhile i (ax_stored x) in MkAuthTxn t t false.

(** [get_session_row], with the user it resolved ([lookup_session]). *)
Definition get_session_row (window : Z) (raw_token : string) (i : LookupInputs) (x : AuthTxn) (breaker : option Z)
    : result (option (SessionRow * UserRow)) * AuthTxn * option Z :=
  match read_session raw_token (li_now i) (ax_view x) with
  | None => (Ok None, x, breaker)
  | Some (row, user) =>
      let '(d, breaker) := decide_lookup window i row user breaker in
      (publish_lookup i row user d (at_publish i x), breaker)
  end.

(** ** Revocation *)
(** [revoke_session] *)
Definition revoke_session (raw_token : string) (now : Z) (t : AuthTables) : AuthTables :=
  if String.eqb raw_token "" then t
  else
    match find_session (hash_token raw_token) (at_sessions t) with
    | None => t
    | Some row => if se_revoked row then t else on_sessions (update_row (se_id row) (revoke_row now)) t
    end.
(** [revoke_all_user_sessions] *)
Definition revoke_all_user_sessions (user_id now : Z) (t : AuthTables) : AuthTables :=
  on_sessions (fmap (λ r, if bool_decide (se_user r = user_id) && negb (se_revoked r) then revoke_row now r else r)) t.
(** [revoke_directory_sessions] *)
Definition is_ldap_user (t : AuthTables) (user_id : Z) : bool :=
  match at_users t !! user_id with Some u => bool_decide (us_source u = as_ldap) | None => false end.
Definition revoke_directory_sessions (now : Z) (t : AuthTables) : AuthTables * Z :=
  (on_sessions (fmap (λ r, if is_ldap_user t (se_user r) && negb (se_revoked r) then revoke_row now r else r)) t,
   Z.of_nat (length (filter (λ r, is_ldap_user t (se_user r) && negb (se_revoked r) = true) (at_sessions t)))).
(** [rotate_session] *)
Definition rotate_session (old_token : string) (user_id : Z) (remember_me : bool) (now : Z) (random csrf : string) (t : AuthTables)
    : result (AuthTables * SessionRow * string) :=
  create_session user_id remember_me now random csrf (revoke_session old_token now t).

(** [purge_stale_sessions] *)
Definition STALE_SESSION_RETENTION : Z := 7 * DAY.
Definition is_stale (cutoff : Z) (r : SessionRow) : bool :=
  match se_revoked_at r with Some at_ => at_ <? cutoff | None => false end ||
  match se_expires_at r with Some at_ => at_ <? cutoff | None => false end.
Definition purge_stale_sessions (now batch_size max_batches : Z) (t : AuthTables) : result (AuthTables * Z) :=
  '(rows, deleted) ← prune_in_batches (λ _, is_stale (now - STALE_SESSION_RETENTION)) batch_size max_batches (at_sessions t);
  Ok (on_sessions (λ _, rows) t, deleted).

(** ** The session of a request *)
Record ResolvedSession := MkResolved {
  rs_session_id : Z;
  rs_user_id : Z;
  rs_role : user_role;
  rs_csrf_secret : string;
  rs_source : auth_source;
  rs_persistent : bool;
}.
Definition resolved_of (answer : option (SessionRow * UserRow)) : option ResolvedSession :=
  (λ '(row, user), MkResolved (se_id row) (se_user row) (us_role user) (default "" (se_csrf_secret row)) (us_source user)
                     (se_persistent row)) <$> answer.

(** [session_touch_allowed]: the passive mark, and the seconds since the last input. *)
Definition digits (s : string) : option Z :=
  if bool_decide (1 ≤ String.length s ≤ 9)%nat && forallb (λ c, bool_decide (is_Some (digit_value c))) (String.list_ascii_of_string s)
  then py_int s else None.
Definition session_touch_allowed (passive idle : option string) : bool :=
  if negb (bool_decide (passive = Some "1"%string)) then true
  else if ss_keepalive_on_poll cfg then true
  else match idle ≫= digits with
       | None => false
       | Some seconds => seconds * SECOND <? touch_interval
       end.

(** [resolve_request_session]; the attribute of [request.state] is unset, a resolution, or
    the marker of no session. *)
Definition resolve_request_session (window : Z) (cookie : option string) (i : LookupInputs)
    (state : option (option ResolvedSession)) (x : AuthTxn) (breaker : option Z)
    : result (option ResolvedSession) * option (option ResolvedSession) * AuthTxn * option Z :=
  match state with
  | Some cached => (Ok cached, state, x, breaker)
  | None =>
      match cookie with
      | None | Some ""%string => (Ok None, Some None, x, breaker)
      | Some raw_token =>
          match get_session_row window raw_token i x breaker with
          | (Raise e, x, breaker) => (Raise e, None, x, breaker)
          | (Ok answer, x, breaker) => (Ok (resolved_of answer), Some (resolved_of answer), x, breaker)
          end
      end
  end.

(** [live_principal_from_cache] *)
Definition live_principal_from_cache (t : AuthTables) (resolved : ResolvedSession) : option UserRow :=
  match List.find (λ r, se_id r =? rs_session_id resolved) (at_sessions t) with
  | None => None
  | Some row =>
      if se_revoked row || negb (se_user row =? rs_user_id resolved) then None
      else
        match at_users t !! rs_user_id resolved with
        | None => None
        | Some user => if us_enabled user then Some user else None
        end
  end.

(** [require_authenticated_session] after the resolution, [require_role] and
    [_principal_from_session]: the live user, 401 or 403. *)
Definition require_authenticated_session (t : AuthTables) (resolved : option ResolvedSession) : result UserRow :=
  match resolved ≫= live_principal_from_cache t with
  | None => Raise (HTTPException 401)
  | Some user => Ok user
  end.
Definition require_role (allowed : list user_role) (user : UserRow) : result UserRow :=
  if bool_decide (us_role user ∈ allowed) then Ok user else Raise (HTTPException 403).
Definition principal_from_session (allowed : list user_role) (t : AuthTables) (resolved : option ResolvedSession) : result UserRow :=
  user ← require_authenticated_session t resolved; require_role allowed user.
(** [reauthorize_after_body]; [None] for a request without the cookie. *)
Definition reauthorize_after_body (cookie : option string) (allowed : list user_role) (t : AuthTables)
    (resolved : option ResolvedSession) : result (option UserRow) :=
  match cookie with
  | None => Ok None
  | Some _ => user ← principal_from_session allowed t resolved; Ok (Some user)
  end.
End sessions.
