(* ===== verification/SessionsFacts.v ===== *)
(** * What the session layer guarantees

    Lookups, logins, revocations, purges and account changes interleaved as a step
    relation; the life of a session within it; the accuracy of the idle clock; what an
    answer says about the stored rows; purging and rotation; the spacing of questions to a
    directory that is down. *)

From Stdlib Require Import Ascii.
From S2P Require Import Prelude PyTime PyVal Bytes BatchedDelete Sessions.
From stdpp Require Import options.
Local Open Scope Z_scope.

Section facts.
Context (digest : string → string) (cfg : SessionSettings) (window : Z).
Notation read := (read_session digest cfg).
Notation lookup_row := (get_session_row digest cfg window).

(** ** The site: tables, the clock, the life of every session ever issued (by digest), and
    the lookups that have decided and not yet published *)
Record Life := MkLife {
  lf_created : Z;
  lf_persistent : bool;
  (** creation, and every lookup of the live session that counts as activity *)
  lf_activity : list Z;
}.
Record Pending := MkPending {
  pd_inputs : LookupInputs;
  pd_row : SessionRow;
  pd_user : UserRow;
  pd_decision : LookupDecision;
}.
Record AuthSite := MkSite {
  st_tables : AuthTables;
  st_now : Z;
  st_lives : gmap string Life;
  st_pending : list Pending;
}.
Definition note_activity (at_ : Z) (l : Life) : Life := MkLife (lf_created l) (lf_persistent l) (at_ :: lf_activity l).

Inductive auth_step : AuthSite → AuthSite → Prop :=
  | step_tick t now now' lives l : now ≤ now' → auth_step (MkSite t now lives l) (MkSite t now' lives l)
  | step_login t now lives l old user_id remember random csrf t' row raw :
      rotate_session digest cfg old user_id remember now random csrf t = Ok (t', row, raw) →
      lives !! hash_token digest raw = None →
      auth_step (MkSite t now lives l) (MkSite t' now (<[hash_token digest raw := MkLife now remember [now]]> lives) l)
  | step_read t now lives l raw i row user breaker d breaker' :
      li_now i = now → read raw now t = Some (row, user) →
      decide_lookup cfg window i row user breaker = (d, breaker') →
      auth_step (MkSite t now lives l)
        (MkSite t now (if li_touch i then alter (note_activity now) (hash_token digest raw) lives else lives) (MkPending i row user d :: l))
  | step_publish t now lives l p l' answer x :
      l ≡ₚ p :: l' →
      publish_lookup (pd_inputs p) (pd_row p) (pd_user p) (pd_decision p) (MkAuthTxn t t false) = (answer, x) →
      auth_step (MkSite t now lives l) (MkSite (ax_stored x) now lives l')
  | step_revoke t now lives l raw : auth_step (MkSite t now lives l) (MkSite (revoke_session digest raw now t) now lives l)
  | step_revoke_all t now lives l user_id :
      auth_step (MkSite t now lives l) (MkSite (revoke_all_user_sessions user_id now t) now lives l)
  | step_revoke_directory t now lives l :
      auth_step (MkSite t now lives l) (MkSite (revoke_directory_sessions now t).1 now lives l)
  | step_purge t now lives l batch_size max_batches t' n :
      purge_stale_sessions now batch_size max_batches t = Ok (t', n) →
      auth_step (MkSite t now lives l) (MkSite t' now lives l)
  (** any change of the accounts; a deletion takes the sessions with it *)
  | step_accounts t now lives l users :
      auth_step (MkSite t now lives l)
        (MkSite (MkAuthTables (filter (λ r, is_Some (users !! se_user r)) (at_sessions t)) users) now lives l).
Definition empty_site (users : gmap Z UserRow) (now : Z) : AuthSite := MkSite (MkAuthTables [] users) now ∅ [].

(** ** What an update leaves alone *)
Definition continues (r r' : SessionRow) : Prop :=
  se_id r' = se_id r ∧ se_user r' = se_user r ∧ se_token_hash r' = se_token_hash r ∧ se_persistent r' = se_persistent r ∧
  se_created_at r' = se_created_at r ∧ se_expires_at r' = se_expires_at r ∧ (se_revoked r = true → se_revoked r' = true) ∧
  (se_revoked_at r' ≠ se_revoked_at r → se_revoked r' = true).
Lemma continues_refl r : continues r r.
Proof. repeat split; done. Qed.
Lemma continues_revoke at_ r : continues r (revoke_row at_ r).
Proof. repeat split; done. Qed.
Lemma continues_patch bk r : continues r (patch_row bk r).
Proof. destruct bk as [[] [] [] ?]; repeat split; done. Qed.
Lemma patch_last_active bk r : se_last_active (patch_row bk r) = match bk_last_active bk with Some a => Some a | None => se_last_active r end.
Proof. by destruct bk as [[] [] [] ?]. Qed.

(** The rows of [t'] are rows of [t], updated; [active id a] allows a new [last_active]. *)
Definition rows_evolve (active : Z → Z → Prop) (rows rows' : list SessionRow) : Prop :=
  (NoDup (se_id <$> rows) → NoDup (se_id <$> rows')) ∧
  ∀ r', r' ∈ rows' → ∃ r, r ∈ rows ∧ continues r r' ∧
    (se_last_active r' = se_last_active r ∨ ∃ a, se_last_active r' = Some a ∧ active (se_id r) a).
Notation quietly := (rows_evolve (λ _ _, False)).
Lemma rows_evolve_refl active rows : rows_evolve active rows rows.
Proof. split; [done|]. intros r Hr. exists r. eauto using continues_refl. Qed.
Lemma rows_evolve_fmap active (f : SessionRow → SessionRow) rows :
  (∀ r, r ∈ rows → continues r (f r) ∧ (se_last_active (f r) = se_last_active r ∨ ∃ a, se_last_active (f r) = Some a ∧ active (se_id r) a)) →
  rows_evolve active rows (f <$> rows).
Proof.
  intros Hf. split.
  - assert (se_id <$> (f <$> rows) = se_id <$> rows) as ->; [|done].
    rewrite <-list_fmap_compose. apply list_fmap_ext. intros i r Hr. cbn. apply Hf. by eapply list_elem_of_lookup_2.
  - intros r' (r & -> & Hr)%list_elem_of_fmap. exists r. destruct (Hf r Hr). done.
Qed.
Lemma rows_evolve_sublist active rows rows' : rows' `sublist_of` rows → rows_evolve active rows rows'.
Proof.
  intros Hsub. split; [intros Hn; eapply sublist_NoDup; [exact Hn|by apply fmap_sublist]|].
  intros r Hr. exists r. split; [by eapply elem_of_sublist|]. split; [apply continues_refl|by left].
Qed.

Lemma revoke_session_evolves raw now t : quietly (at_sessions t) (at_sessions (revoke_session digest raw now t)).
Proof.
  unfold revoke_session. destruct (String.eqb _ _); [apply rows_evolve_refl|].
  destruct (find_session _ _) as [row|]; [|apply rows_evolve_refl]. destruct (se_revoked row); [apply rows_evolve_refl|].
  apply rows_evolve_fmap. intros r _. destruct (_ =? _); [split; [apply continues_revoke|by left]|split; [apply continues_refl|by left]].
Qed.
Lemma revoke_if_evolves (p : SessionRow → bool) now rows :
  quietly rows ((λ r, if p r then revoke_row now r else r) <$> rows).
Proof.
  apply rows_evolve_fmap. intros r _. destruct (p r); [split; [apply continues_revoke|by left]|split; [apply continues_refl|by left]].
Qed.
Lemma apply_bookkeeping_evolves id user_id bk t t' :
  apply_bookkeeping id user_id bk t = Ok t' →
  rows_evolve (λ id' a, id' = id ∧ bk_last_active bk = Some a) (at_sessions t) (at_sessions t').
Proof.
  unfold apply_bookkeeping. destruct (_ && _); [done|]. destruct (_ && _); [done|]. intros [= <-]. apply rows_evolve_fmap.
  intros r _. destruct (Z.eqb_spec (se_id r) id) as [<-|]; [|split; [apply continues_refl|by left]].
  split; [apply continues_patch|]. rewrite patch_last_active. destruct (bk_last_active bk); [right|]; eauto.
Qed.
Lemma purge_sublist now batch_size max_batches t t' n :
  purge_stale_sessions now batch_size max_batches t = Ok (t', n) →
  at_sessions t' `sublist_of` at_sessions t ∧ at_users t' = at_users t ∧
  (∀ r, r ∈ at_sessions t → r ∈ at_sessions t' ∨ is_stale (now - STALE_SESSION_RETENTION) r = true).
Proof.
  unfold purge_stale_sessions, prune_in_batches. destruct (_ <? 1); [done|]. destruct (_ <? 1); [done|]. cbn.
  destruct (prune_loop _ _ _ _ _) as [rows k] eqn:Hp. intros [= <- <-]. by apply prune_pass in Hp as (? & _ & ? & _).
Qed.

(** ** The invariant *)
Definition active_since (lives : gmap string Life) (h : string) (a : Z) : Prop :=
  ∃ l a', lives !! h = Some l ∧ a' ∈ lf_activity l ∧ a ≤ a'.
Record row_ok (lives : gmap string Life) (r : SessionRow) (h : string) (l : Life) : Prop := {
  ro_token : se_token_hash r = Some h;
  ro_lives : lives !! h = Some l;
  ro_created : se_created_at r = lf_created l;
  ro_persistent : se_persistent r = lf_persistent l;
  ro_expires : se_expires_at r = Some (lf_created l + absolute_cap_seconds cfg (lf_persistent l) * SECOND);
  ro_active : ∃ a, se_last_active r = Some a ∧ active_since lives h a;
  ro_revoked : is_Some (se_revoked_at r) → se_revoked r = true;
}.
Record auth_inv (s : AuthSite) : Prop := {
  ai_ids : NoDup (se_id <$> at_sessions (st_tables s));
  ai_hashes : NoDup (se_token_hash <$> at_sessions (st_tables s));
  ai_rows : ∀ r, r ∈ at_sessions (st_tables s) → ∃ h l, row_ok (st_lives s) r h l;
  ai_lives : ∀ h l a, st_lives s !! h = Some l → a ∈ lf_activity l → a ≤ st_now s;
  ai_pending : ∀ p a, p ∈ st_pending s → bk_last_active (ld_book (pd_decision p)) = Some a →
    a ≤ st_now s ∧ ∀ r h, r ∈ at_sessions (st_tables s) → se_id r = se_id (pd_row p) → se_token_hash r = Some h → active_since (st_lives s) h a;
}.

Lemma active_since_mono lives lives' h a :
  (∀ l, lives !! h = Some l → ∃ l', lives' !! h = Some l' ∧ lf_activity l ⊆ lf_activity l') →
  active_since lives h a → active_since lives' h a.
Proof. intros Hm (l & a' & Hl & Ha & Hle). destruct (Hm l Hl) as (l' & Hl' & Hsub). exists l', a'. eauto. Qed.

(** Updates of existing rows, with the activity a pending lookup had noted. *)
Lemma inv_evolves t now lives l t' l' :
  auth_inv (MkSite t now lives l) → l' ⊆ l → NoDup (se_token_hash <$> at_sessions t') →
  rows_evolve (λ id a, ∃ p, p ∈ l ∧ id = se_id (pd_row p) ∧ bk_last_active (ld_book (pd_decision p)) = Some a) (at_sessions t) (at_sessions t') →
  auth_inv (MkSite t' now lives l').
Proof.
  intros [Hids Hhash Hrows Hlives Hpend] Hl Hhash' [Hn Hev]. cbn in *. split; cbn; [by apply Hn|done| |done|].
  - intros r' Hr'. destruct (Hev r' Hr') as (r & Hr & (Hid & Hus & Hth & Hpe & Hcr & Hex & Hre & Hra) & Hla).
    destruct (Hrows r Hr) as (h & lf & [Hh Hlf Hc Hp He Ha Hrv]).
    exists h, lf. split; [congruence..| |].
    + destruct Hla as [->|(a & -> & p & Hp' & Hidp & Hbk)]; [done|]. exists a. split; [done|]. by eapply Hpend.
    + intros Hs. destruct (decide (se_revoked_at r' = se_revoked_at r)) as [Heq|?]; [|by apply Hra].
      apply Hre, Hrv. by rewrite <-Heq.
  - intros p a Hp Hbk. destruct (Hpend p a (Hl _ Hp) Hbk) as [Hle Hr]. split; [done|].
    intros r' h Hr' Hid' Hh'. destruct (Hev r' Hr') as (r & Hr0 & (Hid & _ & Hth & _) & _).
    apply (Hr r h Hr0); congruence.
Qed.
Lemma rows_evolve_quietly active rows rows' : quietly rows rows' → rows_evolve active rows rows'.
Proof. intros [Hn Hev]. split; [done|]. intros r' Hr'. destruct (Hev r' Hr') as (r & ? & ? & [?|(a & _ & [])]). eauto. Qed.
Lemma inv_quietly t now lives l t' :
  auth_inv (MkSite t now lives l) → NoDup (se_token_hash <$> at_sessions t') →
  quietly (at_sessions t) (at_sessions t') → auth_inv (MkSite t' now lives l).
Proof. intros Hi Hn Hq. by eapply inv_evolves, rows_evolve_quietly. Qed.
Lemma hashes_fmap (f : SessionRow → SessionRow) (rows : list SessionRow) :
  (∀ r, se_token_hash (f r) = se_token_hash r) → se_token_hash <$> (f <$> rows) = se_token_hash <$> rows.
Proof. intros Hf. rewrite <-list_fmap_compose. apply list_fmap_ext. intros i r _. apply Hf. Qed.
Lemma hashes_revoke_session raw now t :
  se_token_hash <$> at_sessions (revoke_session digest raw now t) = se_token_hash <$> at_sessions t.
Proof.
  unfold revoke_session. destruct (String.eqb _ _); [done|]. destruct (find_session _ _) as [row|]; [|done].
  destruct (se_revoked row); [done|]. apply hashes_fmap. intros r. by destruct (_ =? _).
Qed.
Lemma hashes_apply id user_id bk t t' :
  apply_bookkeeping id user_id bk t = Ok t' → se_token_hash <$> at_sessions t' = se_token_hash <$> at_sessions t.
Proof.
  unfold apply_bookkeeping. destruct (_ && _); [done|]. destruct (_ && _); [done|]. intros [= <-]. apply hashes_fmap.
  intros r. destruct (_ =? _); [apply continues_patch|done].
Qed.

(** The tables a publication leaves are the ones it found, or these with its writes. *)
Lemma publish_effect i row user d t answer x :
  publish_lookup i row user d (MkAuthTxn t t false) = (answer, x) →
  ax_stored x = t ∨ apply_bookkeeping (se_id row) (se_user row) (ld_book d) t = Ok (ax_stored x).
Proof.
  unfold publish_lookup, recover_from_locked_bookkeeping. cbn [ax_writes ax_view ax_stored negb andb].
  destruct (if ld_flushes d then _ else _); [|by intros [= _ <-]; left..].
  destruct (bool_decide (ld_book d = nothing_due)); [by intros [= _ <-]; left|].
  destruct (li_commit i); [|by intros [= _ <-]; left..].
  destruct (apply_bookkeeping _ _ _ _) as [t'|] eqn:Ha; intros [= _ <-]; [by right|by left].
Qed.

Lemma find_session_some h rows r : find_session h rows = Some r → r ∈ rows ∧ se_token_hash r = Some h.
Proof. intros [Hin Hb]%List.find_some. split; [by apply list_elem_of_In|]. by apply bool_decide_eq_true in Hb. Qed.
Lemma read_some raw now t row user :
  read raw now t = Some (row, user) →
  find_session (hash_token digest raw) (at_sessions t) = Some row ∧ se_revoked row = false ∧ expired cfg now row = false ∧
  at_users t !! se_user row = Some user ∧ us_enabled user = true.
Proof.
  unfold read_session. destruct (String.eqb _ _); [done|]. destruct (find_session _ _) as [r|]; [|done].
  destruct (se_revoked r) eqn:Hr; [done|]. destruct (expired _ _ _) eqn:He; [done|]. cbn.
  destruct (at_users t !! se_user r) as [u|] eqn:Hu; [|done]. destruct (us_enabled u) eqn:Hen; [|done]. by intros [= <- <-].
Qed.
Lemma decide_last_active i row user breaker d breaker' a :
  decide_lookup cfg window i row user breaker = (d, breaker') → bk_last_active (ld_book d) = Some a →
  a = li_now i ∧ li_touch i = true.
Proof.
  unfold decide_lookup. destruct (revalidate_ldap_session _ _ _ _ _ _ _) as [[kept bk] b]. intros [= <- _]. cbn.
  destruct (li_touch i && kept && _) eqn:Ht; [|done]. intros [= <-]. by apply andb_true_iff in Ht as [[? _]%andb_true_iff _].
Qed.

(** ** The steps keep the invariant *)
Lemma next_id_above r rows : r ∈ rows → se_id r < next_session_id rows.
Proof.
  intros Hr. unfold next_session_id. pose proof (fold_keep_max (se_id <$> rows) None) as Hf.
  destruct (foldl keep_max None (se_id <$> rows)) as [m|] eqn:He; cbn.
  - destruct Hf as (_ & Hle & _). specialize (Hle (se_id r)). pose proof (list_elem_of_fmap_2 se_id rows r Hr). naive_solver lia.
  - destruct Hf as [_ Hnil]. apply fmap_nil_inv in Hnil as ->. by apply elem_of_nil in Hr.
Qed.
Lemma active_since_insert lives h l h' a :
  lives !! h = None → active_since lives h' a → active_since (<[h := l]> lives) h' a.
Proof.
  intros Hn. apply active_since_mono. intros l' Hl'. exists l'. split; [|done]. rewrite lookup_insert_ne; [done|]. by intros ->; congruence.
Qed.
Lemma row_ok_insert lives h l r h' l' :
  lives !! h = None → row_ok lives r h' l' → row_ok (<[h := l]> lives) r h' l'.
Proof.
  intros Hn [Ht Hl Hc Hp He (a & Ha & Hs) Hr]. split; try done.
  - rewrite lookup_insert_ne; [done|]. by intros ->; congruence.
  - exists a. split; [done|by apply active_since_insert].
Qed.
Lemma row_hash lives r h l : row_ok lives r h l → is_Some (se_token_hash r ≫= (lives !!.)).
Proof. intros [-> Hl _ _ _ _ _]. by exists l. Qed.

Lemma inv_append t now lives l h user_id remember csrf row :
  row = MkSessionRow (next_session_id (at_sessions t)) user_id (Some h) csrf (Some now) remember now
          (Some (now + absolute_cap_seconds cfg remember * SECOND)) None false None →
  lives !! h = None → auth_inv (MkSite t now lives l) →
  auth_inv (MkSite (on_sessions (λ rows, rows ++ [row]) t) now (<[h := MkLife now remember [now]]> lives) l).
Proof.
  intros -> Hn [Hids Hhash Hrows Hlives Hpend]. cbn in *.
  assert (active_since (<[h := MkLife now remember [now]]> lives) h now) as Hact.
  { exists (MkLife now remember [now]), now. rewrite lookup_insert_eq. cbn. split_and!; [done|by left|done]. }
  split; cbn.
  - rewrite fmap_app. apply NoDup_app. split_and!; [done| |apply NoDup_singleton].
    intros id (r & -> & Hr)%list_elem_of_fmap Hin%list_elem_of_singleton. pose proof (next_id_above _ _ Hr). cbn in Hin. lia.
  - rewrite fmap_app. apply NoDup_app. split_and!; [done| |apply NoDup_singleton].
    intros h' (r & -> & Hr)%list_elem_of_fmap Hin%list_elem_of_singleton. cbn in Hin.
    destruct (Hrows r Hr) as (h0 & l0 & [l1 Hl1]%row_hash). rewrite Hin in Hl1. cbn in Hl1. congruence.
  - intros r [Hr|Hr%list_elem_of_singleton]%elem_of_app.
    + destruct (Hrows r Hr) as (h0 & l0 & Hok). exists h0, l0. by apply row_ok_insert.
    + exists h, (MkLife now remember [now]). subst r. split; cbn; try done; [by rewrite lookup_insert_eq|by exists now].
  - intros h0 l0 a [[<- <-]|[_ Hl0]]%lookup_insert_Some Ha; [|by eapply Hlives]. by apply list_elem_of_singleton in Ha as ->.
  - intros p a Hp Hbk. destruct (Hpend p a Hp Hbk) as [Hle Hr]. split; [done|].
    intros r h0 [Hr0| ->%list_elem_of_singleton]%elem_of_app Hid Hh0; [by eapply active_since_insert, Hr|].
    cbn in Hh0. injection Hh0 as <-. destruct Hact as (l0 & a' & Hl0 & Ha' & Hle'). exists l0, a'. split_and!; [done..|lia].
Qed.

Lemma revoke_session_users raw now t : at_users (revoke_session digest raw now t) = at_users t.
Proof.
  unfold revoke_session. destruct (String.eqb _ _); [done|]. destruct (find_session _ _) as [r|]; [|done]. by destruct (se_revoked r).
Qed.
Lemma login_spec old user_id remember now random csrf t t' row raw :
  rotate_session digest cfg old user_id remember now random csrf t = Ok (t', row, raw) →
  raw = TOKEN_PREFIX +:+ random ∧
  t' = on_sessions (λ rows, rows ++ [row]) (revoke_session digest old now t) ∧
  row = MkSessionRow (next_session_id (at_sessions (revoke_session digest old now t))) user_id (Some (hash_token digest raw)) (Some csrf)
          (Some now) remember now (Some (now + absolute_cap_seconds cfg remember * SECOND)) None false None ∧
  Some (hash_token digest raw) ∉ (se_token_hash <$> at_sessions t) ∧ is_Some (at_users t !! user_id).
Proof.
  unfold rotate_session, create_session. rewrite hashes_revoke_session. case_bool_decide as Hf; [done|].
  rewrite revoke_session_users.
  destruct (at_users t !! user_id) eqn:Hu; [|done]. intros [= <- <- <-]. split_and!; try done.
Qed.

Lemma inv_read t now lives l raw i row user breaker d breaker' :
  li_now i = now → read raw now t = Some (row, user) → decide_lookup cfg window i row user breaker = (d, breaker') →
  auth_inv (MkSite t now lives l) →
  auth_inv (MkSite t now (if li_touch i then alter (note_activity now) (hash_token digest raw) lives else lives) (MkPending i row user d :: l)).
Proof.
  intros Hnow (Hf & _)%read_some Hd [Hids Hhash Hrows Hlives Hpend]. cbn in *.
  apply find_session_some in Hf as [Hrow Hh]. set (lives' := if li_touch i then _ else _).
  assert (∀ h0 l0, lives !! h0 = Some l0 → ∃ l1, lives' !! h0 = Some l1 ∧ lf_created l1 = lf_created l0 ∧ lf_persistent l1 = lf_persistent l0 ∧
    lf_activity l0 ⊆ lf_activity l1) as Hm.
  { intros h0 l0 Hl0. subst lives'. destruct (li_touch i); [|by exists l0].
    destruct (decide (h0 = hash_token digest raw)) as [->|Hne]; [rewrite lookup_alter_eq, Hl0|rewrite lookup_alter_ne by done; by exists l0].
    cbn. eexists. split_and!; [done..|]. intros x Hx. by right. }
  assert (∀ h0 a, active_since lives h0 a → active_since lives' h0 a) as Ham.
  { intros h0 a. apply active_since_mono. intros l0 Hl0. destruct (Hm h0 l0 Hl0) as (l1 & ? & _ & _ & ?). by exists l1. }
  split; cbn; [done..| | |].
  - intros r Hr. destruct (Hrows r Hr) as (h0 & l0 & [Ht Hl Hc Hp He (a & Ha & Hs) Hre]).
    destruct (Hm h0 l0 Hl) as (l1 & Hl1 & Hc1 & Hp1 & _). exists h0, l1. split; try congruence; [by exists a; auto|done].
  - intros h0 l0 a Hl0 Ha. subst lives'. destruct (li_touch i); [|by eapply Hlives].
    apply lookup_alter_Some in Hl0 as [(<- & l1 & Hl1 & ->)|[_ Hl0]]; [|by eapply Hlives].
    cbn in Ha. apply elem_of_cons in Ha as [->|Ha]; [done|by eapply Hlives].
  - intros p a [->|Hp]%elem_of_cons Hbk; cbn in *.
    + destruct (decide_last_active _ _ _ _ _ _ _ Hd Hbk) as [-> Ht]. split; [lia|]. intros r h0 Hr Hid Hh0.
      assert (r = row) as -> by exact (NoDup_fmap_eq se_id _ _ _ Hids Hr Hrow Hid). rewrite Hh in Hh0. injection Hh0 as <-.
      destruct (Hrows row Hrow) as (h1 & l1 & [Ht1 Hl1 _ _ _ _ _]). rewrite Hh in Ht1. injection Ht1 as <-.
      subst lives'. rewrite Ht. exists (note_activity now l1), now. rewrite lookup_alter_eq, Hl1. split_and!; [done|by left|lia].
    + destruct (Hpend p a Hp Hbk) as [Hle Hr]. split; [done|]. intros r h0 Hr0 Hid Hh0. apply Ham. by eapply Hr.
Qed.

Lemma inv_publish t now lives l p l' answer x :
  l ≡ₚ p :: l' → publish_lookup (pd_inputs p) (pd_row p) (pd_user p) (pd_decision p) (MkAuthTxn t t false) = (answer, x) →
  auth_inv (MkSite t now lives l) → auth_inv (MkSite (ax_stored x) now lives l').
Proof.
  intros Hl Hpub Hi. assert (p ∈ l) as Hp by (rewrite Hl; by left). assert (l' ⊆ l) as Hsub by (intros y Hy; rewrite Hl; by right).
  apply publish_effect in Hpub as [->|Ha].
  - eapply inv_evolves; [exact Hi|done|apply (ai_hashes _ Hi)|apply rows_evolve_refl].
  - eapply inv_evolves; [exact Hi|done| |].
    + rewrite (hashes_apply _ _ _ _ _ Ha). apply (ai_hashes _ Hi).
    + destruct (apply_bookkeeping_evolves _ _ _ _ _ Ha) as [Hn Hev]. split; [done|]. intros r' Hr'.
      destruct (Hev r' Hr') as (r & Hr & Hc & [Hla|(a & Hla & Hid & Hbk)]); exists r; eauto 10.
Qed.
Lemma auth_inv_step s s' : auth_step s s' → auth_inv s → auth_inv s'.
Proof.
  intros Hstep Hi. destruct Hstep; cbn in *.
  - destruct Hi as [? ? ? Hl Hp]. split; cbn in *; [done..| |]; [intros h lf a Hlf Ha; specialize (Hl h lf a Hlf Ha); lia|].
    intros p a Hin Hbk. destruct (Hp p a Hin Hbk). split; [lia|done].
  - apply login_spec in H as (-> & -> & Hrow & _). eapply inv_append; [exact Hrow|done|].
    eapply inv_quietly; [exact Hi| |apply revoke_session_evolves]. rewrite hashes_revoke_session. apply (ai_hashes _ Hi).
  - by eapply inv_read.
  - by eapply inv_publish.
  - eapply inv_quietly; [exact Hi| |apply revoke_session_evolves]. rewrite hashes_revoke_session. apply (ai_hashes _ Hi).
  - eapply inv_quietly; [exact Hi| |apply revoke_if_evolves]. cbn. rewrite hashes_fmap; [apply (ai_hashes _ Hi)|]. intros r. by destruct (_ && _).
  - eapply inv_quietly; [exact Hi| |apply revoke_if_evolves]. cbn. rewrite hashes_fmap; [apply (ai_hashes _ Hi)|]. intros r. by destruct (_ && _).
  - apply purge_sublist in H as (Hsub & _). eapply inv_quietly; [exact Hi| |by apply rows_evolve_sublist].
    eapply sublist_NoDup; [apply (ai_hashes _ Hi)|by apply fmap_sublist].
  - eapply inv_quietly; [exact Hi| |apply rows_evolve_sublist, sublist_filter]. cbn.
    eapply sublist_NoDup; [apply (ai_hashes _ Hi)|apply fmap_sublist, sublist_filter].
Qed.
Lemma auth_inv_empty users now : auth_inv (empty_site users now).
Proof. split; cbn; [constructor..| | |]; [by intros r ?%elem_of_nil|done|by intros p a ?%elem_of_nil]. Qed.
Lemma auth_inv_reachable users now s : rtc auth_step (empty_site users now) s → auth_inv s.
Proof. intros Hr. pose proof (auth_inv_empty users now) as Hi. induction Hr; eauto using auth_inv_step. Qed.

(** ** Revocation *)
(** The rows after a step are updated rows, or have a digest that was never issued. *)
Lemma auth_step_rows s s' r' :
  auth_step s s' → r' ∈ at_sessions (st_tables s') →
  (∃ r, r ∈ at_sessions (st_tables s) ∧ continues r r') ∨ (∃ h, se_token_hash r' = Some h ∧ st_lives s !! h = None).
Proof.
  assert (∀ active rows rows', rows_evolve active rows rows' → r' ∈ rows' → ∃ r, r ∈ rows ∧ continues r r') as Hev.
  { intros active rows rows' [_ Hr] Hin. destruct (Hr _ Hin) as (r & ? & ? & _). eauto. }
  destruct 1; cbn; intros Hr'.
  - left. eauto using continues_refl.
  - apply login_spec in H as (-> & -> & -> & _). cbn in Hr'. apply elem_of_app in Hr' as [Hr'| ->%list_elem_of_singleton]; [left|right; eauto].
    by eapply Hev; [apply revoke_session_evolves|].
  - left. eauto using continues_refl.
  - left. apply publish_effect in H0 as [Heq|Ha]; [rewrite Heq in Hr'; eauto using continues_refl|].
    by eapply Hev; [eapply apply_bookkeeping_evolves|].
  - left. by eapply Hev; [apply revoke_session_evolves|].
  - left. eapply Hev; [apply revoke_if_evolves|exact Hr'].
  - left. eapply Hev; [apply revoke_if_evolves|exact Hr'].
  - left. apply purge_sublist in H as (Hsub & _). by eapply Hev; [by apply (rows_evolve_sublist (λ _ _, False))|].
  - left. apply list_elem_of_filter in Hr' as [_ Hr']. eauto using continues_refl.
Qed.
Lemma step_lives s s' h : auth_step s s' → is_Some (st_lives s !! h) → is_Some (st_lives s' !! h).
Proof.
  destruct 1; cbn; try done; intros [lf Hlf].
  - destruct (decide (h = hash_token digest raw)) as [->|]; [rewrite lookup_insert_eq|rewrite lookup_insert_ne by done]; eauto.
  - destruct (li_touch i); [|eauto]. destruct (decide (h = hash_token digest raw)) as [->|]; [rewrite lookup_alter_eq, Hlf|rewrite lookup_alter_ne by done]; cbn; eauto.
Qed.
Definition all_revoked (h : string) (s : AuthSite) : Prop :=
  is_Some (st_lives s !! h) ∧ ∀ r, r ∈ at_sessions (st_tables s) → se_token_hash r = Some h → se_revoked r = true.
Lemma all_revoked_step h s s' : auth_step s s' → all_revoked h s → all_revoked h s'.
Proof.
  intros Hstep [Hl Hr]. split; [by eapply step_lives|]. intros r' Hr' Hh.
  destruct (auth_step_rows _ _ _ Hstep Hr') as [(r & Hin & _ & _ & Hth & _ & _ & _ & Hre & _)|(h' & Hh' & Hn)]; [apply Hre, Hr; congruence|].
  rewrite Hh in Hh'. injection Hh' as <-. destruct Hl; congruence.
Qed.
Lemma all_revoked_reach h s s' : rtc auth_step s s' → all_revoked h s → all_revoked h s'.
Proof. induction 1; eauto using all_revoked_step. Qed.
Lemma revoked_not_read raw now t :
  (∀ r, r ∈ at_sessions t → se_token_hash r = Some (hash_token digest raw) → se_revoked r = true) → read raw now t = None.
Proof.
  intros Hr. destruct (read raw now t) as [[row user]|] eqn:He; [|done].
  apply read_some in He as (Hf & Hre & _). apply find_session_some in Hf as [Hin Hh]. specialize (Hr _ Hin Hh). congruence.
Qed.
Lemma find_id id rows r : List.find (λ r, se_id r =? id) rows = Some r → r ∈ rows ∧ se_id r = id.
Proof. intros [Hin Hb]%List.find_some. split; [by apply list_elem_of_In|lia]. Qed.
Lemma granted_was_read raw i x b row user x' b' :
  lookup_row raw i x b = (Ok (Some (row, user)), x', b') → is_Some (read raw (li_now i) (ax_view x)).
Proof. unfold get_session_row. destruct (read _ _ _); [by eexists|by intros [=]]. Qed.

(** C14: once a session is revoked in the stored tables, no later lookup of its token is
    granted, and no cached resolution that names its row passes the gate of a request:
    whatever lookups were in flight then, and whatever logins, re-checks, purges and
    account changes follow. *)
Theorem revoked_session_stays_denied users now s1 s2 raw r :
  rtc auth_step (empty_site users now) s1 → r ∈ at_sessions (st_tables s1) →
  se_token_hash r = Some (hash_token digest raw) → se_revoked r = true → rtc auth_step s1 s2 →
  (∀ i x b, ax_view x = st_tables s2 → lookup_row raw i x b = (Ok None, x, b)) ∧
  (∀ r' rs, r' ∈ at_sessions (st_tables s2) → se_token_hash r' = Some (hash_token digest raw) → rs_session_id rs = se_id r' →
     live_principal_from_cache (st_tables s2) rs = None).
Proof.
  intros Hr1 Hr Hh Hre Hr2. pose proof (auth_inv_reachable _ _ _ Hr1) as Hi1.
  assert (auth_inv s2) as Hi2 by (apply (auth_inv_reachable users now); by etransitivity).
  assert (all_revoked (hash_token digest raw) s2) as [_ Hall].
  { eapply all_revoked_reach; [exact Hr2|]. split.
    - destruct (ai_rows _ Hi1 r Hr) as (h & l & [Ht Hl _ _ _ _ _]). rewrite Hh in Ht. injection Ht as <-. eauto.
    - intros r' Hr' Hh'. by assert (r' = r) as -> by (apply (NoDup_fmap_eq se_token_hash _ _ _ (ai_hashes _ Hi1)); congruence). }
  split.
  - intros i x b Hx. unfold get_session_row. by rewrite Hx, revoked_not_read.
  - intros r' rs Hr' Hh' Hid. unfold live_principal_from_cache. destruct (List.find _ _) as [row|] eqn:Hf; [|done].
    apply find_id in Hf as [Hin Heq]. assert (row = r') as -> by (apply (NoDup_fmap_eq se_id _ _ _ (ai_ids _ Hi2)); congruence).
    by rewrite (Hall r').
Qed.

(** C15: no session outlives its limits: when a lookup at the present is granted, the
    present is at most the creation cap after the login that issued the token, and at most
    the idle timeout after some request that counted as activity (or that login), however
    lookups, re-checks and lost writes interleaved. *)
Theorem session_lifetime_bounded users now s raw i x b row user x' b' :
  rtc auth_step (empty_site users now) s → ax_view x = st_tables s →
  lookup_row raw i x b = (Ok (Some (row, user)), x', b') →
  ∃ l a, st_lives s !! hash_token digest raw = Some l ∧ a ∈ lf_activity l ∧ a ≤ st_now s ∧
    li_now i ≤ lf_created l + absolute_cap_seconds cfg (lf_persistent l) * SECOND ∧
    li_now i ≤ a + ss_idle_timeout cfg * SECOND.
Proof.
  intros Hi%auth_inv_reachable Hx Hg. apply granted_was_read in Hg as [[r u] Hread]. rewrite Hx in Hread.
  apply read_some in Hread as (Hf & _ & He & _). apply find_session_some in Hf as [Hr Hh].
  destruct (ai_rows _ Hi r Hr) as (h & l & [Ht Hl Hc Hp Hex (a & Ha & l' & a' & Hl' & Ha' & Hle) _]).
  rewrite Hh in Ht. injection Ht as <-. rewrite Hl in Hl'. injection Hl' as <-.
  exists l, a'. pose proof (ai_lives _ Hi _ _ _ Hl Ha').
  unfold expired, last_touch in He. rewrite Ha, Hex, Hc, Hp, !orb_false_iff, !Z.gtb_ltb, !Z.ltb_ge in He. cbn in He.
  destruct He as [[Hidle Hcap] _]. split_and!; [done..|lia].
Qed.

(** ** What an answer says about the rows *)
Lemma patch_nothing_row r : patch_row nothing_due r = r.
Proof. done. Qed.
Lemma patch_nothing_user u : patch_user nothing_due u = u.
Proof. done. Qed.
Lemma read_member raw now t row user :
  read raw now t = Some (row, user) → row ∈ at_sessions t ∧ se_token_hash row = Some (hash_token digest raw).
Proof. by intros (?%find_session_some & _)%read_some. Qed.
Lemma apply_member id user_id bk t t' row user :
  apply_bookkeeping id user_id bk t = Ok t' → row ∈ at_sessions t → se_id row = id → at_users t !! user_id = Some user →
  patch_row bk row ∈ at_sessions t' ∧ at_users t' !! user_id = Some (patch_user bk user).
Proof.
  unfold apply_bookkeeping. destruct (_ && _); [done|]. destruct (_ && _); [done|]. intros [= <-] Hr <- Hu. cbn. split.
  - apply list_elem_of_fmap. exists row. by rewrite Z.eqb_refl.
  - by rewrite lookup_alter_eq, Hu.
Qed.
Lemma patch_user_enabled bk u : us_enabled (patch_user bk u) = us_enabled u.
Proof. by destruct bk as [? ? ? []]. Qed.
Lemma patch_not_revoked bk r : bk_revoked_at bk = None → se_revoked (patch_row bk r) = se_revoked r.
Proof. destruct bk as [o [] [] ?]; cbn; by intros ->. Qed.
Lemma decide_kept i row user breaker d breaker' :
  decide_lookup cfg window i row user breaker = (d, breaker') → ld_kept d = true → bk_revoked_at (ld_book d) = None.
Proof.
  unfold decide_lookup, revalidate_ldap_session. destruct (negb _); [by intros [= <- _]|]. destruct (negb _); [by intros [= <- _]|].
  destruct (breaker_allow _ _ _) as [[] b]; cbn [negb]; [|by intros [= <- _]].
  destruct (dr_state _) as [st|]; [|by intros [= <- _]].
  destruct (ld_outcome st); try (by intros [= <- _]).
  destruct (map_groups_to_role _ _); by intros [= <- _].
Qed.

Lemma publish_stored i r u d x answer x' :
  publish_lookup i r u d x = (answer, x') → ax_writes x = false → ax_stored x = ax_view x → ax_stored x' = ax_view x'.
Proof.
  unfold publish_lookup, recover_from_locked_bookkeeping. cbn zeta. intros Hp Hw Hs. rewrite Hw in Hp.
  repeat case_match; injection Hp as _ <-; done.
Qed.
(** Whatever the write meets, a grant follows a decision to keep the session, and the answer
    is either what was read with the bookkeeping, which then is stored or empty, or what is
    stored after the writes were lost. *)
Lemma publish_granted i r u d x row user x' :
  publish_lookup i r u d x = (Ok (Some (row, user)), x') →
  (ld_kept d = true ∧ row = patch_row (ld_book d) r ∧ user = patch_user (ld_book d) u ∧
     ((ld_book d = nothing_due ∧ x' = x) ∨ apply_bookkeeping (se_id r) (se_user r) (ld_book d) (ax_view x) = Ok (ax_view x'))) ∨
  (ld_deny d = false ∧ ax_writes x = false ∧ reload (se_id r) (se_user r) (ax_stored x) = Some (row, user) ∧
     x' = MkAuthTxn (ax_stored x) (ax_stored x) false).
Proof.
  unfold publish_lookup, recover_from_locked_bookkeeping. cbn zeta.
  destruct (if ld_flushes d then _ else _); [|destruct (ax_writes x); by intros [=]|by intros [=]].
  destruct (negb (ax_writes x) && bool_decide (ld_book d = nothing_due)) eqn:Hnone.
  - apply andb_true_iff in Hnone as [_ Hb%bool_decide_eq_true]. destruct (ld_kept d); [|by intros [=]].
    intros [= <- <- <-]. left. split_and!; try done. by left.
  - destruct (li_commit i); [|destruct (ax_writes x) eqn:Hw; [by intros [=]|]|by intros [=]].
    + destruct (apply_bookkeeping _ _ _ _) as [t'|] eqn:Ha; [|by intros [=]].
      destruct (ld_kept d); [|by intros [=]]. intros [= <- <- <-]. left. split_and!; try done. right. by destruct (ax_writes x).
    + destruct (ld_deny d); [by intros [=]|]. intros [= Hre <-]. by right.
Qed.
Lemma reload_some id user_id t row user :
  reload id user_id t = Some (row, user) →
  row ∈ at_sessions t ∧ se_id row = id ∧ se_revoked row = false ∧ at_users t !! user_id = Some user ∧ us_enabled user = true.
Proof.
  unfold reload. destruct (List.find _ _) as [row0|] eqn:Hf; [|done]. apply find_id in Hf as [Hin Hid].
  destruct (at_users t !! user_id) as [user0|] eqn:Hu; [|done]. destruct (se_revoked row0 || _) eqn:Ho; [done|].
  intros [= <- <-]. apply orb_false_iff in Ho as [? Hen%negb_false_iff]. by split_and!.
Qed.
Lemma decide_deny i row user breaker d breaker' :
  decide_lookup cfg window i row user breaker = (d, breaker') → ld_deny d = false → ld_kept d = true.
Proof.
  unfold decide_lookup. destruct (revalidate_ldap_session _ _ _ _ _ _ _) as [[kept bk] b]. intros [= <- _]. cbn.
  intros [Hk%negb_false_iff _]%orb_false_iff. done.
Qed.
Lemma apply_user id user_id bk t t' user :
  apply_bookkeeping id user_id bk t = Ok t' → at_users t !! user_id = Some user → at_users t' !! user_id = Some (patch_user bk user).
Proof.
  unfold apply_bookkeeping. destruct (_ && _); [done|]. destruct (_ && _); [done|]. intros [= <-] Hu. cbn. by rewrite lookup_alter_eq, Hu.
Qed.
Lemma apply_role id user_id bk t t' role :
  apply_bookkeeping id user_id bk t = Ok t' → bk_role bk = Some role → ∃ u, at_users t' !! user_id = Some u ∧ us_role u = role.
Proof.
  unfold apply_bookkeeping. intros Ha Hr. rewrite Hr in Ha. destruct (_ && _) in Ha; [done|]. rewrite bool_decide_true in Ha by by eexists.
  case_bool_decide as Hu; [|done]. destruct Hu as [u Hu]. injection Ha as <-. exists (patch_user bk u). cbn. rewrite lookup_alter_eq, Hu.
  split; [done|]. unfold patch_user. by rewrite Hr.
Qed.
Lemma patch_user_role bk u : us_role (patch_user bk u) ≠ us_role u → bk_role bk = Some (us_role (patch_user bk u)).
Proof. by destruct bk as [? ? ? [role|]]. Qed.

(** C16: a session is only honoured on what was decided and stored, however long the lookup
    waits for the directory and whatever other requests commit meanwhile.  When a lookup
    gives a row and a user, the session was live when it was read ([r], [u]) and the
    re-check decided to keep it; the row given is of that session and not revoked, the user
    given is enabled; a role that differs from the one read is stored when the lookup
    returns; and if nobody else changed the row and the user meanwhile, the answer is the
    row and the user as stored then.  (A revocation that commits while the lookup waits
    leaves this one answer standing; the next lookup reads it.)  Outside a caller's transaction the tables it returns
    are the committed ones. *)
Theorem answer_is_stored raw i x b row user x' b' :
  let y := at_publish i x in
  lookup_row raw i x b = (Ok (Some (row, user)), x', b') →
  ∃ r u d, read raw (li_now i) (ax_view x) = Some (r, u) ∧
    decide_lookup cfg window i r u b = (d, b') ∧ ld_kept d = true ∧
    se_id row = se_id r ∧ se_revoked row = false ∧ us_enabled user = true ∧
    (us_role user ≠ us_role u → ∃ u', at_users (ax_view x') !! se_user r = Some u' ∧ us_role u' = us_role user) ∧
    (r ∈ at_sessions (ax_view y) → at_users (ax_view y) !! se_user r = Some u →
       row ∈ at_sessions (ax_view x') ∧ at_users (ax_view x') !! se_user r = Some user) ∧
    (ax_writes x = false → ax_stored x' = ax_view x').
Proof.
  cbv zeta. unfold get_session_row. destruct (read _ _ _) as [[r u]|] eqn:Hread; [|by intros [=]].
  destruct (decide_lookup _ _ _ _ _ _) as [d b0] eqn:Hd. destruct (read_some _ _ _ _ _ Hread) as (_ & Hre & _ & Hu & Hen).
  assert (ax_writes x = false → ax_stored (at_publish i x) = ax_view (at_publish i x)) as Hy by (unfold at_publish; by intros ->).
  assert (ax_writes (at_publish i x) = ax_writes x) as Hyw by (unfold at_publish; by destruct (ax_writes x) eqn:?).
  destruct (publish_lookup _ _ _ _ _) as [a x1] eqn:Hp. intros [= -> <- <-]. exists r, u, d.
  pose proof (publish_stored _ _ _ _ _ _ _ Hp) as Hsv.
  apply publish_granted in Hp as [(Hk & -> & -> & Hb)|(Hdn & Hw & Hrl & ->)].
  - destruct (continues_patch (ld_book d) r) as (Hid & _). rewrite patch_not_revoked, patch_user_enabled by by eapply decide_kept.
    split_and!; try done; [| |intros Hw; apply Hsv; [congruence|auto]].
    + intros Hrole%patch_user_role. destruct Hb as [[Hb _]|Ha]; [by rewrite Hb in Hrole|]. by eapply apply_role.
    + intros Hr Hu'. destruct Hb as [[-> ->]|Ha]; [by rewrite patch_nothing_row, patch_nothing_user|].
      by apply (apply_member _ _ _ _ _ _ _ Ha Hr eq_refl).
  - apply reload_some in Hrl as (Hin & Hid & Hrv & Hus & Hue). cbn. rewrite Hyw in Hw. rewrite Hy in Hin, Hus by done.
    split_and!; try done; [by eapply decide_deny|rewrite Hy by done; eauto|].
    intros Hr Hu'. rewrite Hy by done. done.
Qed.

(** ** The directory's refusals *)
Definition refuses (call : DirectoryCall) : bool :=
  match dr_state call with
  | Some st =>
      match ld_outcome st with
      | lo_no_such_user | lo_locked | lo_disabled => true
      | lo_authenticated => bool_decide (map_groups_to_role (ld_groups st) (dr_groups call) = None)
      | _ => false
      end
  | None => false
  end.

(** When a directory session's re-check is due and may be asked, a definite refusal
    (account gone, locked, directory login switched off, no mapped group) ends the session:
    the lookup does not grant, whatever SQLite answers, and unless the write was lost no row
    of that session is left unrevoked in the tables it leaves; only when another request
    deleted the row meanwhile does it fail instead of answering. *)
Theorem directory_refusal_ends_session raw i x b row user :
  read raw (li_now i) (ax_view x) = Some (row, user) → us_source user = as_ldap →
  revalidation_due cfg (li_recheck_now i) row = true → (breaker_allow (dr_asked_at (li_call i)) window b).1 = true →
  refuses (li_call i) = true →
  (∀ a, (lookup_row raw i x b).1.1 ≠ Ok (Some a)) ∧
  (li_commit i = wr_ok → ((lookup_row raw i x b).1.1 = Ok None ∨ (lookup_row raw i x b).1.1 = Raise StaleDataError) ∧
     ∀ r, r ∈ at_sessions (ax_view (lookup_row raw i x b).1.2) → se_id r = se_id row → se_revoked r = true).
Proof.
  intros Hread Hs Hdue Hask Href. unfold get_session_row. rewrite Hread.
  assert (decide_lookup cfg window i row user b =
    (MkDecision false (MkBookkeeping (Some (li_recheck_now i)) None None None) false true, (decide_lookup cfg window i row user b).2)) as ->.
  { unfold decide_lookup, revalidate_ldap_session. rewrite Hs, Hdue. cbn [negb bool_decide decide].
    rewrite bool_decide_true by done. cbn [negb].
    destruct (breaker_allow _ _ _) as [ok b0]. cbn in Hask. subst ok. cbn [negb]. unfold refuses in Href.
    destruct (dr_state _) as [st|]; [|done]. destruct (ld_outcome st); try done; try (cbn; by rewrite andb_false_r).
    apply bool_decide_eq_true in Href as ->. cbn. by rewrite andb_false_r. }
  cbn zeta beta iota. unfold publish_lookup, recover_from_locked_bookkeeping. cbn [ld_flushes ld_book ld_kept ld_deny].
  rewrite (bool_decide_false (_ = nothing_due)) by done. rewrite andb_false_r.
  set (y := at_publish i x). unfold apply_bookkeeping. cbn [touches_row bk_role bk_revoked_at].
  split.
  - intros a. destruct (li_commit i), (ax_writes y); cbn; repeat case_match; done.
  - intros ->. cbn. case_bool_decide as Hin; cbn.
    + split; [by left|]. destruct (ax_writes y); cbn; intros r (r0 & -> & Hr0)%list_elem_of_fmap; destruct (Z.eqb_spec (se_id r0) (se_id row)); done.
    + split; [by right|]. intros r Hr Hid. destruct Hin. rewrite <-Hid. by apply list_elem_of_fmap_2.
Qed.

(** ** Purging *)
Lemma find_session_unique h rows r :
  NoDup (se_token_hash <$> rows) → r ∈ rows → se_token_hash r = Some h → find_session h rows = Some r.
Proof.
  intros Hn Hr Hh. destruct (find_session h rows) as [r'|] eqn:Hf.
  - apply find_session_some in Hf as [Hr' Hh']. f_equal. apply (NoDup_fmap_eq se_token_hash _ _ _ Hn Hr' Hr). congruence.
  - apply List.find_none with (x := r) in Hf; [|by apply list_elem_of_In]. by apply bool_decide_eq_false in Hf.
Qed.
Lemma find_session_absent h rows : (∀ r, r ∈ rows → se_token_hash r ≠ Some h) → find_session h rows = None.
Proof. intros Hn. destruct (find_session h rows) as [r|] eqn:Hf; [|done]. apply find_session_some in Hf as [Hr Hh]. by destruct (Hn r). Qed.
Lemma stale_not_live now n r :
  (is_Some (se_revoked_at r) → se_revoked r = true) → now ≤ n → is_stale (now - STALE_SESSION_RETENTION) r = true →
  se_revoked r || expired cfg n r = true.
Proof.
  unfold is_stale, expired. intros Hre Hn [Ha|He]%orb_true_iff.
  - destruct (se_revoked_at r); [|done]. by rewrite Hre.
  - destruct (se_expires_at r) as [e|]; [|done]. rewrite !orb_true_iff, !Z.gtb_ltb, !Z.ltb_lt. right. right.
    apply Z.ltb_lt in He. unfold STALE_SESSION_RETENTION, DAY, HOUR, MINUTE, SECOND in He. lia.
Qed.

(** Purging is invisible to lookups: in any reachable state, a pass leaves the answer
    of every lookup, at this and every later instant, as it was. *)
Theorem purge_is_invisible users now0 s batch_size max_batches t' deleted raw n :
  rtc auth_step (empty_site users now0) s →
  purge_stale_sessions (st_now s) batch_size max_batches (st_tables s) = Ok (t', deleted) → st_now s ≤ n →
  read raw n t' = read raw n (st_tables s).
Proof.
  intros Hi%auth_inv_reachable Hp Hn. apply purge_sublist in Hp as (Hsub & Hus & Hin).
  assert (NoDup (se_token_hash <$> at_sessions t')) as Hnd by (eapply sublist_NoDup; [apply (ai_hashes _ Hi)|by apply fmap_sublist]).
  unfold read_session. destruct (String.eqb raw ""); [done|]. rewrite Hus.
  destruct (find_session (hash_token digest raw) (at_sessions (st_tables s))) as [r|] eqn:Hf.
  - apply find_session_some in Hf as [Hr Hh]. destruct (Hin r Hr) as [Hr'|Hst].
    + by rewrite (find_session_unique _ _ r Hnd).
    + destruct (ai_rows _ Hi r Hr) as (h & l & Hok). rewrite (stale_not_live (st_now s) n r); [|apply (ro_revoked _ _ _ _ Hok)|done..].
      destruct (find_session (hash_token digest raw) (at_sessions t')) as [r'|] eqn:Hf'; [|done].
      apply find_session_some in Hf' as [Hr' Hh']. pose proof (elem_of_sublist _ _ _ Hr' Hsub) as Hr''.
      rewrite (NoDup_fmap_eq se_token_hash _ _ _ (ai_hashes _ Hi) Hr'' Hr) by congruence.
      by rewrite (stale_not_live (st_now s) n r); [|apply (ro_revoked _ _ _ _ Hok)|done..].
  - rewrite find_session_absent; [done|]. intros r' Hr' Hh'. pose proof (elem_of_sublist _ _ _ Hr' Hsub) as Hr.
    by rewrite (find_session_unique _ _ r' (ai_hashes _ Hi) Hr Hh') in Hf.
Qed.

(** ** Rotation *)
Lemma fresh_not_expired id user_id h csrf now remember :
  0 ≤ ss_idle_timeout cfg → 0 ≤ absolute_cap_seconds cfg remember →
  expired cfg now (MkSessionRow id user_id h csrf (Some now) remember now (Some (now + absolute_cap_seconds cfg remember * SECOND)) None false None) = false.
Proof. intros Hidle Hcap. unfold expired, last_touch. cbn. rewrite !orb_false_iff, !Z.gtb_ltb, !Z.ltb_ge. unfold SECOND. lia. Qed.
Lemma read_fresh raw now t row user :
  raw ≠ ""%string → se_token_hash row = Some (hash_token digest raw) → Some (hash_token digest raw) ∉ (se_token_hash <$> at_sessions t) →
  se_revoked row = false → expired cfg now row = false → at_users t !! se_user row = Some user → us_enabled user = true →
  read raw now (on_sessions (λ rows, rows ++ [row]) t) = Some (row, user).
Proof.
  intros Hraw Hh Hfresh Hre Hex Hu Hen. unfold read_session. rewrite (proj2 (String.eqb_neq _ _)) by done. cbn [on_sessions at_sessions at_users].
  assert (find_session (hash_token digest raw) (at_sessions t ++ [row]) = Some row) as ->.
  { revert Hfresh. unfold find_session. induction (at_sessions t) as [|r rows IH]; cbn; intros Hf; [by rewrite bool_decide_true|].
    apply not_elem_of_cons in Hf as [Hr Hf]. rewrite bool_decide_false by done. by apply IH. }
  by rewrite Hre, Hex, Hu, Hen.
Qed.

(** A login replaces the session: the token it found in the cookie is dead at once and
    for good, and the one it issues is live for its user, with the row it returned. *)
Theorem rotation_replaces_session users now0 s old user_id user remember random csrf t' row raw n :
  rtc auth_step (empty_site users now0) s →
  rotate_session digest cfg old user_id remember (st_now s) random csrf (st_tables s) = Ok (t', row, raw) →
  hash_token digest old ≠ hash_token digest raw → at_users (st_tables s) !! user_id = Some user → us_enabled user = true →
  0 ≤ ss_idle_timeout cfg → 0 ≤ absolute_cap_seconds cfg remember →
  read old n t' = None ∧ read raw (st_now s) t' = Some (row, user).
Proof.
  intros Hi%auth_inv_reachable Hrot Hne Hu Hen Hidle Hcap. apply login_spec in Hrot as (Hraw & -> & Hrow & Hfresh & _). split.
  - unfold read_session. destruct (String.eqb old "") eqn:Hold; [done|]. cbn [on_sessions at_sessions].
    destruct (find_session (hash_token digest old) _) as [r|] eqn:Hf; [|done].
    apply find_session_some in Hf as [[Hr| ->%list_elem_of_singleton]%elem_of_app Hh]; [|subst row; cbn in Hh; congruence].
    assert (se_revoked r = true) as ->; [|done]. revert Hr. unfold revoke_session. rewrite Hold.
    destruct (find_session (hash_token digest old) (at_sessions (st_tables s))) as [r0|] eqn:Hf0.
    + apply find_session_some in Hf0 as [Hr0 Hh0]. destruct (se_revoked r0) eqn:Hre0.
      * intros Hr. by rewrite (NoDup_fmap_eq se_token_hash _ _ _ (ai_hashes _ Hi) Hr Hr0) by congruence.
      * intros (r1 & -> & Hr1)%list_elem_of_fmap. destruct (Z.eqb_spec (se_id r1) (se_id r0)) as [|Hid]; [done|]. destruct Hid. f_equal.
        apply (NoDup_fmap_eq se_token_hash _ _ _ (ai_hashes _ Hi) Hr1 Hr0). congruence.
    + intros Hr. by rewrite (find_session_unique _ _ r (ai_hashes _ Hi) Hr Hh) in Hf0.
  - subst row. apply read_fresh; [by rewrite Hraw|done|by rewrite hashes_revoke_session|done|by apply fresh_not_expired|by rewrite revoke_session_users|done].
Qed.

(** ** The idle clock *)
(** Lookups one after the other, all of them granted. *)
Fixpoint visits (raw : string) (l : list LookupInputs) (x : AuthTxn) (b : option Z) : option AuthTxn :=
  match l with
  | [] => Some x
  | i :: l => match lookup_row raw i x b with (Ok (Some _), x, b) => visits raw l x b | _ => None end
  end.
(** Its write goes through, and nothing is committed while it runs. *)
Definition undisturbed (i : LookupInputs) : Prop := li_commit i = wr_ok ∧ ∀ t, li_meanwhile i t = t.
(** The instant of the last one that counts as activity. *)
Definition last_activity (since : Z) (l : list LookupInputs) : Z := foldl (λ at_ i, if li_touch i then li_now i else at_) since l.
Definition due (i : LookupInputs) (row : SessionRow) : bool := li_touch i && (touch_interval cfg <=? li_now i - last_touch row).
Definition touched (i : LookupInputs) (row : SessionRow) : SessionRow := if due i row then set_last_active (li_now i) row else row.

Lemma touch_interval_pos : 0 < touch_interval cfg.
Proof. unfold touch_interval, TOUCH_INTERVAL_SECONDS, SECOND. lia. Qed.
Lemma decide_local i row user b :
  us_source user = as_local →
  decide_lookup cfg window i row user b =
    (MkDecision true (MkBookkeeping None None (if due i row then Some (li_now i) else None) None) false false, b).
Proof. intros Hs. unfold decide_lookup, revalidate_ldap_session, due. rewrite Hs. by destruct (li_touch i). Qed.

(** The state of a session that is visited. *)
Record visited (raw : string) (row0 : SessionRow) (user : UserRow) (t : AuthTables) (row : SessionRow) : Prop := {
  vs_ids : NoDup (se_id <$> at_sessions t);
  vs_hashes : NoDup (se_token_hash <$> at_sessions t);
  vs_row : row ∈ at_sessions t;
  vs_token : se_token_hash row = Some (hash_token digest raw);
  vs_same : continues row0 row;
  vs_live : se_revoked row = false;
  vs_user : at_users t !! se_user row = Some user;
}.
Lemma visited_find raw row0 user t row : visited raw row0 user t row → find_session (hash_token digest raw) (at_sessions t) = Some row.
Proof. intros Hv. apply find_session_unique; apply Hv. Qed.
Lemma visited_touch raw row0 user t row i :
  visited raw row0 user t row →
  visited raw row0 user (MkAuthTables (update_row (se_id row) (set_last_active (li_now i)) (at_sessions t)) (alter (λ u, u) (se_user row) (at_users t)))
    (set_last_active (li_now i) row).
Proof.
  intros [Hi Hh Hr Ht Hs Hl Hu]. split; cbn; try done.
  - apply (rows_evolve_fmap (λ _ _, True)); [|done]. intros r _. destruct (_ =? _); [|split; [apply continues_refl|by left]].
    split; [apply (continues_patch (MkBookkeeping None None (Some (li_now i)) None))|right; by eexists].
  - unfold update_row. rewrite hashes_fmap; [done|]. intros r. by destruct (_ =? _).
  - apply list_elem_of_fmap. exists row. by rewrite Z.eqb_refl.
  - by rewrite lookup_alter_eq, Hu.
Qed.
Lemma visit_local raw row0 user t row i b a x b' :
  visited raw row0 user t row → us_source user = as_local → undisturbed i →
  lookup_row raw i (MkAuthTxn t t false) b = (Ok (Some a), x, b') →
  ∃ t', x = MkAuthTxn t' t' false ∧ visited raw row0 user t' (touched i row).
Proof.
  intros Hv Hs [Hc Hm]. unfold get_session_row. cbn [ax_view]. destruct (read raw (li_now i) t) as [[r u]|] eqn:Hread; [|by intros [=]].
  apply read_some in Hread as (Hf & _ & _ & Hu & _). rewrite (visited_find _ _ _ _ _ Hv) in Hf. injection Hf as <-.
  rewrite (vs_user _ _ _ _ _ Hv) in Hu. injection Hu as <-.
  rewrite decide_local by done. unfold publish_lookup, touched, at_publish. cbn [ld_flushes ax_writes negb andb ld_book ld_kept ax_view ax_stored]. rewrite Hm.
  destruct (due i row).
  - rewrite bool_decide_false by done. rewrite Hc. unfold apply_bookkeeping.
    rewrite (bool_decide_true (se_id row ∈ _)) by (apply list_elem_of_fmap_2, Hv). cbn. intros [= _ <- _]. eexists. split; [done|].
    by apply visited_touch.
  - rewrite bool_decide_true by done. intros [= _ <- _]. by exists t.
Qed.

Lemma visits_track raw row0 user l : ∀ t row since b x,
  us_source user = as_local → Forall undisturbed l → visited raw row0 user t row →
  StronglySorted Z.le (since :: (li_now <$> l)) → last_touch row ≤ since < last_touch row + touch_interval cfg →
  visits raw l (MkAuthTxn t t false) b = Some x →
  ∃ t' row', x = MkAuthTxn t' t' false ∧ visited raw row0 user t' row' ∧
    last_touch row' ≤ last_activity since l < last_touch row' + touch_interval cfg.
Proof.
  induction l as [|i l IH]; intros t row since b x Hs Hc Hv Hsort Hb; cbn [visits].
  { intros [= <-]. exists t, row. eauto. }
  apply Forall_cons in Hc as [Hci Hc]. cbn in Hsort. apply StronglySorted_inv in Hsort as [Hsort [Hle Hall]%Forall_cons].
  destruct (lookup_row raw i _ b) as [[[[a|]|] x1] b1] eqn:Hg; [|done..]. apply (visit_local _ _ _ _ _ _ _ _ _ _ Hv Hs Hci) in Hg as (t1 & -> & Hv1).
  intros Hvis. eapply IH in Hvis; [|done|done|exact Hv1| |]; [exact Hvis| |].
  - destruct (li_touch i); [done|]. apply StronglySorted_inv in Hsort as [Hsort _]. by constructor.
  - pose proof touch_interval_pos. unfold touched, due. destruct (li_touch i); cbn [andb]; [|done].
    destruct (Z.leb_spec (touch_interval cfg) (li_now i - last_touch row)); cbn; lia.
Qed.

(** The idle clock runs from the last activity: after any sequence of granted lookups
    of a local session whose writes went through undisturbed, a lookup more than the idle timeout after
    the last one that counted as activity is refused, and one up to a touch interval
    earlier than that, within the creation cap, is granted. *)
Theorem idle_clock_tracks_activity raw row user l t since b x n :
  us_source user = as_local → us_enabled user = true → raw ≠ ""%string → Forall undisturbed l →
  visited raw row user t row → last_touch row = since → StronglySorted Z.le (since :: (li_now <$> l)) →
  visits raw l (MkAuthTxn t t false) b = Some x →
  (last_activity since l + ss_idle_timeout cfg * SECOND < n → read raw n (ax_view x) = None) ∧
  (n ≤ last_activity since l + ss_idle_timeout cfg * SECOND - touch_interval cfg →
   n ≤ se_created_at row + absolute_cap_seconds cfg (se_persistent row) * SECOND → (∀ e, se_expires_at row = Some e → n ≤ e) →
   is_Some (read raw n (ax_view x))).
Proof.
  intros Hs Hen Hraw Hc Hv Hsince Hsort Hvis. pose proof touch_interval_pos.
  destruct (visits_track _ _ _ _ _ _ _ _ _ Hs Hc Hv Hsort ltac:(lia) Hvis) as (t' & row' & -> & Hv' & Hb). cbn [ax_view].
  unfold read_session. rewrite (proj2 (String.eqb_neq _ _)) by done.
  rewrite (visited_find _ _ _ _ _ Hv'), (vs_live _ _ _ _ _ Hv'), (vs_user _ _ _ _ _ Hv'), Hen. cbn [orb].
  destruct (vs_same _ _ _ _ _ Hv') as (_ & _ & _ & Hp & Hcr & Hex & _). unfold expired. rewrite Hp, Hcr, Hex. split.
  - intros Hn. by rewrite (proj2 (Z.gtb_lt _ _)) by lia.
  - intros Hn Hcap He. assert (∀ p q, p ≤ q → (p >? q) = false) as Hg by (intros p q; rewrite Z.gtb_ltb, Z.ltb_ge; done).
    rewrite !Hg by lia. destruct (se_expires_at row) as [e|]; [rewrite (Hg n e) by (by apply He)|]; by eexists.
Qed.

(** ** The breaker in an outage *)
(** Questions and reports of a directory that cannot be reached, in the order the lock
    admits them; the result is the instants of the questions that were let through. *)
Inductive outage_event := ev_ask (at_ : Z) | ev_unreachable (at_ : Z).
Definition event_at (e : outage_event) : Z := match e with ev_ask a | ev_unreachable a => a end.
Fixpoint asked (l : list outage_event) (b : option Z) : list Z :=
  match l with
  | [] => []
  | ev_ask at_ :: l => let '(allowed, b) := breaker_allow at_ window b in if allowed then at_ :: asked l b else asked l b
  | ev_unreachable at_ :: l => asked l (record_unreachable at_ window)
  end.
Lemma asked_after l : ∀ deadline since,
  0 ≤ window → StronglySorted Z.le (since :: (event_at <$> l)) → deadline ≤ since + window * SECOND →
  Forall (λ a, deadline ≤ a) (asked l (Some deadline)) ∧
  StronglySorted (λ a a', a + window * SECOND ≤ a') (asked l (Some deadline)).
Proof.
  induction l as [|e l IH]; intros deadline since Hw Hsort Hd; [split; constructor|].
  cbn in Hsort. apply StronglySorted_inv in Hsort as [Hsort [Hle _]%Forall_cons].
  destruct e as [at_|at_]; cbn [asked event_at] in *.
  - unfold breaker_allow. destruct (Z.ltb_spec at_ deadline) as [Hlt|Hge]; [apply (IH deadline at_); [done..|lia]|].
    destruct (IH (at_ + window * SECOND) at_ Hw Hsort ltac:(lia)) as [Hall Hss]. split; [|by constructor].
    constructor; [lia|]. eapply Forall_impl; [exact Hall|]. intros a Ha. cbn in Ha. unfold SECOND in *. lia.
  - destruct (IH (at_ + window * SECOND) at_ Hw Hsort ltac:(lia)) as [Hall Hss]. split; [|done].
    eapply Forall_impl; [exact Hall|]. intros a Ha. cbn in Ha. unfold SECOND in *. lia.
Qed.

(** While the directory stays unreachable, the questions that the breaker lets through
    after it has opened are at least its window apart, and the first waits for the window
    to end, whatever the number of requests that want to ask and the moments at which
    earlier questions report. *)
Theorem outage_asks_are_spaced opened_at l :
  0 ≤ window → StronglySorted Z.le (opened_at :: (event_at <$> l)) →
  let asks := asked l (record_unreachable opened_at window) in
  Forall (λ a, opened_at + window * SECOND ≤ a) asks ∧ StronglySorted (λ a a', a + window * SECOND ≤ a') asks.
Proof. intros Hw Hsort. by apply (asked_after l _ opened_at). Qed.
End facts.

(** ** Concrete runs *)
Definition plain (s : string) : string := s.
Definition demo_cfg : SessionSettings := MkSessionSettings 1800 86400 2592000 900 false.
Definition ann : UserRow := MkUser "ann" "ann" as_local (Some "hash"%string) rl_admin true.
Definition dora : UserRow := MkUser "dora" "dora" as_ldap None rl_viewer true.
Definition demo_users : gmap Z UserRow := {[1 := ann; 2 := dora]}.
Definition no_answer : DirectoryCall := MkCall 0 None 0 (MkGroups [] [] []).
Definition plain_visit (at_ : Z) : LookupInputs := MkLookup (at_ * SECOND) (at_ * SECOND) true no_answer id wr_ok wr_ok.
Definition token : string := "s2.A".
Definition login_row : SessionRow :=
  MkSessionRow 1 1 (Some token) (Some "C"%string) (Some 0) false 0 (Some (86400 * SECOND)) None false None.
Definition login_tables : AuthTables := MkAuthTables [login_row] demo_users.
Definition login_site : AuthSite := MkSite login_tables 0 {[token := MkLife 0 false [0]]} [].
Lemma login_reached : rtc (auth_step plain demo_cfg 60) (empty_site demo_users 0) login_site.
Proof.
  apply rtc_once. apply (step_login plain demo_cfg 60 (MkAuthTables [] demo_users) 0 ∅ [] "" 1 false "A" "C" login_tables login_row token); reflexivity.
Qed.
Definition revoked_row : SessionRow := revoke_row 0 login_row.
Definition revoked_site : AuthSite := MkSite (MkAuthTables [revoked_row] demo_users) 0 {[token := MkLife 0 false [0]]} [].
Lemma revoked_reached : rtc (auth_step plain demo_cfg 60) (empty_site demo_users 0) revoked_site.
Proof. eapply rtc_r; [exact login_reached|]. exact (step_revoke plain demo_cfg 60 login_tables 0 {[token := MkLife 0 false [0]]} [] token). Qed.

Lemma revoked_session_stays_denied_witness :
  get_session_row plain demo_cfg 60 token (plain_visit 5) (MkAuthTxn (st_tables revoked_site) (st_tables revoked_site) false) None =
    (Ok None, MkAuthTxn (st_tables revoked_site) (st_tables revoked_site) false, None).
Proof.
  refine (proj1 (revoked_session_stays_denied plain demo_cfg 60 demo_users 0 revoked_site revoked_site token revoked_row revoked_reached
    _ eq_refl eq_refl (rtc_refl _ _)) (plain_visit 5) (MkAuthTxn (st_tables revoked_site) (st_tables revoked_site) false) None eq_refl). apply list_elem_of_singleton. reflexivity.
Defined.

Definition visited_row : SessionRow := set_last_active (120 * SECOND) login_row.
Definition visited_tables : AuthTables := MkAuthTables [visited_row] (alter (λ u, u) 1 demo_users).
Lemma visit_granted :
  get_session_row plain demo_cfg 60 token (plain_visit 120) (MkAuthTxn login_tables login_tables false) None =
    (Ok (Some (visited_row, ann)), MkAuthTxn visited_tables visited_tables false, None).
Proof. reflexivity. Qed.
Lemma session_lifetime_bounded_witness :
  ∃ l a, st_lives login_site !! hash_token plain token = Some l ∧ a ∈ lf_activity l ∧ a ≤ st_now login_site ∧
    120 * SECOND ≤ lf_created l + absolute_cap_seconds demo_cfg (lf_persistent l) * SECOND ∧ 120 * SECOND ≤ a + ss_idle_timeout demo_cfg * SECOND.
Proof.
  exact (session_lifetime_bounded plain demo_cfg 60 demo_users 0 login_site token (plain_visit 120) (MkAuthTxn login_tables login_tables false) None
    visited_row ann _ None login_reached eq_refl visit_granted).
Defined.
(** Another request revokes the session while the lookup is under way: the touch is written
    to the revoked row, and the answer is the row that was read. *)
Definition overtaken_visit : LookupInputs :=
  MkLookup (120 * SECOND) (120 * SECOND) true no_answer (revoke_session plain token 0) wr_ok wr_ok.
Definition overtaken_tables : AuthTables := MkAuthTables [set_last_active (120 * SECOND) revoked_row] (alter (λ u, u) 1 demo_users).
Lemma overtaken_granted :
  get_session_row plain demo_cfg 60 token overtaken_visit (MkAuthTxn login_tables login_tables false) None =
    (Ok (Some (visited_row, ann)), MkAuthTxn overtaken_tables overtaken_tables false, None).
Proof. reflexivity. Qed.
Lemma answer_is_stored_witness :
  ∃ r u d, read_session plain demo_cfg token (120 * SECOND) login_tables = Some (r, u) ∧
    decide_lookup demo_cfg 60 overtaken_visit r u None = (d, None) ∧ ld_kept d = true ∧
    se_id visited_row = se_id r ∧ se_revoked visited_row = false ∧ us_enabled ann = true ∧
    (us_role ann ≠ us_role u → ∃ u', at_users overtaken_tables !! se_user r = Some u' ∧ us_role u' = us_role ann) ∧
    (r ∈ at_sessions (revoke_session plain token 0 login_tables) → at_users (revoke_session plain token 0 login_tables) !! se_user r = Some u →
       visited_row ∈ at_sessions overtaken_tables ∧ at_users overtaken_tables !! se_user r = Some ann) ∧
    (false = false → overtaken_tables = overtaken_tables).
Proof.
  exact (answer_is_stored plain demo_cfg 60 token overtaken_visit (MkAuthTxn login_tables login_tables false) None visited_row ann
    (MkAuthTxn overtaken_tables overtaken_tables false) None overtaken_granted).
Defined.

(** A directory session whose re-check is due, and an answer that the account is gone. *)
Definition dora_row : SessionRow :=
  MkSessionRow 1 2 (Some token) (Some "C"%string) (Some 0) true 0 (Some (2592000 * SECOND)) (Some 0) false None.
Definition dora_tables : AuthTables := MkAuthTables [dora_row] demo_users.
Definition gone : DirectoryCall := MkCall 0 (Some (MkDirectoryState lo_no_such_user [] "")) 0 (MkGroups [] [] []).
Definition gone_visit (commit : write_answer) : LookupInputs := MkLookup (1000 * SECOND) (1000 * SECOND) true gone id wr_ok commit.
Lemma directory_refusal_ends_session_witness :
  (get_session_row plain demo_cfg 60 token (gone_visit wr_locked) (MkAuthTxn dora_tables dora_tables false) None).1.1 ≠ Ok (Some (dora_row, dora)).
Proof.
  exact (proj1 (directory_refusal_ends_session plain demo_cfg 60 token (gone_visit wr_locked) (MkAuthTxn dora_tables dora_tables false) None
    dora_row dora eq_refl eq_refl eq_refl eq_refl eq_refl) (dora_row, dora)).
Defined.
Lemma purge_is_invisible_witness :
  read_session plain demo_cfg token (120 * SECOND) login_tables = read_session plain demo_cfg token (120 * SECOND) (st_tables login_site).
Proof.
  refine (purge_is_invisible plain demo_cfg 60 demo_users 0 login_site 5000 20 login_tables 0 token (120 * SECOND) login_reached eq_refl _).
  discriminate.
Defined.
Definition second_row : SessionRow :=
  MkSessionRow 2 1 (Some "s2.B"%string) (Some "D"%string) (Some 0) true 0 (Some (2592000 * SECOND)) None false None.
Lemma rotation_replaces_session_witness :
  read_session plain demo_cfg token 0 (MkAuthTables [revoked_row; second_row] demo_users) = None ∧
  read_session plain demo_cfg "s2.B" 0 (MkAuthTables [revoked_row; second_row] demo_users) = Some (second_row, ann).
Proof.
  refine (rotation_replaces_session plain demo_cfg 60 demo_users 0 login_site token 1 ann true "B" "D"
    (MkAuthTables [revoked_row; second_row] demo_users) second_row "s2.B" 0 login_reached eq_refl _ eq_refl eq_refl _ _); discriminate.
Defined.
Lemma idle_clock_tracks_activity_witness :
  read_session plain demo_cfg token (1921 * SECOND) visited_tables = None.
Proof.
  refine (proj1 (idle_clock_tracks_activity plain demo_cfg 60 token login_row ann [plain_visit 120] login_tables 0 None
    (MkAuthTxn visited_tables visited_tables false) (1921 * SECOND) eq_refl eq_refl _ _ _ eq_refl _ eq_refl) eq_refl).
  - discriminate.
  - apply Forall_singleton. by split.
  - split; [apply NoDup_singleton|apply NoDup_singleton|by apply list_elem_of_singleton|reflexivity|apply continues_refl|reflexivity|reflexivity].
  - constructor; [constructor; constructor|]. apply Forall_singleton. discriminate.
Defined.
Lemma outage_asks_are_spaced_witness :
  let asks := asked 60 [ev_ask (10 * SECOND); ev_ask (60 * SECOND); ev_ask (61 * SECOND); ev_unreachable (70 * SECOND); ev_ask (130 * SECOND)]
                (record_unreachable 0 60) in
  Forall (λ a, 0 + 60 * SECOND ≤ a) asks ∧ StronglySorted (λ a a', a + 60 * SECOND ≤ a') asks.
Proof.
  refine (outage_asks_are_spaced 60 0 [ev_ask (10 * SECOND); ev_ask (60 * SECOND); ev_ask (61 * SECOND); ev_unreachable (70 * SECOND); ev_ask (130 * SECOND)] _ _).
  - discriminate.
  - repeat constructor; discriminate.
Defined.

(** The comment on a lost touch says it moves the idle expiry by one interval.  It moves it
    by the age of the stored value: after a request at 29 minutes whose touch met a locked
    database, a request a minute and a second later is refused. *)
Lemma missed_touch_expires_early :
  let x := MkAuthTxn login_tables login_tables false in
  let locked := MkLookup (1740 * SECOND) (1740 * SECOND) true no_answer id wr_ok wr_locked in
  get_session_row plain demo_cfg 60 token locked x None = (Ok (Some (login_row, ann)), x, None) ∧
  get_session_row plain demo_cfg 60 token (plain_visit 1801) x None = (Ok None, x, None).
Proof. split; reflexivity. Qed.
