(* ===== verification/Accounts.v ===== *)
(** * Accounts and sign-in: services/users.py, security/login.py, web/routers/auth.py

    User administration with its lock-out guards, first-run setup, local and directory
    sign-in, on the tables of [Sessions].  Hashing of passwords (Argon2) and the texts of
    messages are arguments or left out; names are ASCII texts, for which NFKC is the
    identity and case folding is lower case.

    A use-case that guards and then writes is written as the two pieces it is: SQLite's
    driver opens a transaction before the first write, so the guard reads outside of it. *)

From Stdlib Require Import Ascii.
From S2P Require Import Prelude PyTime PyVal Bytes Sessions SessionsFacts.
From stdpp Require Import options.
Local Open Scope Z_scope.

(** ** Names (usernames.py) *)
Definition normalize_username (value : string) : string := strip value.
Definition username_key (value : string) : string :=
  String.string_of_list_ascii (lower_text (String.list_ascii_of_string (strip value))).

(** ** The state: the tables and the AUTOINCREMENT counter of the user table *)
Record Accounts := MkAccounts {
  ac_tables : AuthTables;
  ac_last_user : Z;
}.
Definition users_of (a : Accounts) : gmap Z UserRow := at_users (ac_tables a).
Definition set_tables (t : AuthTables) (a : Accounts) : Accounts := MkAccounts t (ac_last_user a).
Definition set_user (id : Z) (u : UserRow) (t : AuthTables) : AuthTables := on_users <[id := u]> t.
Definition set_enabled (enabled : bool) (u : UserRow) : UserRow :=
  MkUser (us_username u) (us_username_key u) (us_source u) (us_password_hash u) (us_role u) enabled.
Definition set_hash (hash : option string) (u : UserRow) : UserRow :=
  MkUser (us_username u) (us_username_key u) (us_source u) hash (us_role u) (us_enabled u).

(** A new row; the key and the name are unique columns. *)
Definition taken (u : UserRow) (users : gmap Z UserRow) : bool :=
  bool_decide (map_Exists (λ _ v, us_username_key v = us_username_key u ∨ us_username v = us_username u) users).
Definition insert_user (u : UserRow) (a : Accounts) : result (Accounts * Z) :=
  if taken u (users_of a) then Raise IntegrityError
  else Ok (MkAccounts (set_user (ac_last_user a + 1) u (ac_tables a)) (ac_last_user a + 1), ac_last_user a + 1).

(** [User.username_key == key], [.one_or_none()] *)
Definition user_by_key (key : string) (users : gmap Z UserRow) : option (Z * UserRow) :=
  List.find (λ p, String.eqb (us_username_key p.2) key) (map_to_list users).

(** ** Administrators *)
Definition real_admin (u : UserRow) : Prop := us_role u = rl_admin ∧ is_Some (us_password_hash u) ∧ us_enabled u = true.
#[export] Instance real_admin_dec u : Decision (real_admin u).
Proof. unfold real_admin. apply _. Defined.
(** [_enabled_admin_count], [_is_last_enabled_admin], [first_run_needed] *)
Definition enabled_admin_count (users : gmap Z UserRow) : Z := Z.of_nat (length (filter (λ p, real_admin p.2) (map_to_list users))).
Definition is_last_enabled_admin (users : gmap Z UserRow) (target : UserRow) : bool :=
  bool_decide (real_admin target) && (enabled_admin_count users <=? 1).
Definition first_run_needed (users : gmap Z UserRow) : bool := bool_decide (¬ map_Exists (λ _ u, real_admin u) users).

Section accounts.
Context (hash_password : string → string) (verify_password : string → string → bool) (needs_rehash : string → bool)
        (password_min_length : Z).

Definition password_length (p : string) : Z := Z.of_nat (String.length p).
Definition get_user (id : Z) (a : Accounts) : result UserRow :=
  match users_of a !! id with Some u => Ok u | None => Raise NotFoundError end.

(** ** services/users.py *)
(** [create_user] *)
Definition create_user (username password : string) (role : option user_role) (confirm : option string) (a : Accounts)
    : result (Accounts * Z) :=
  let username := normalize_username username in
  if String.eqb username "" || String.eqb password "" then Raise ValidationError
  else
    match role with
    | None => Raise ValidationError
    | Some role =>
        if match confirm with Some c => negb (String.eqb password c) | None => false end then Raise ValidationError
        else if password_length password <? password_min_length then Raise ValidationError
        else match insert_user (MkUser username (username_key username) as_local (Some (hash_password password)) role true) a with
             | Raise IntegrityError => Raise ConflictError
             | r => r
             end
    end.

(** [edit_user_role]: the guard, and the write it decides on *)
Definition edit_role_guard (id : Z) (role : option user_role) (a : Accounts) : result (option user_role) :=
  target ← get_user id a;
  match role with
  | None => Raise ValidationError
  | Some role =>
      if bool_decide (us_role target = rl_admin) && negb (bool_decide (role = rl_admin)) && is_last_enabled_admin (users_of a) target
      then Raise ConflictError
      else Ok (if decide (role = us_role target) then None else Some role)
  end.
Definition edit_role_write (id : Z) (role : option user_role) (a : Accounts) : Accounts :=
  match role with
  | None => a
  | Some role => set_tables (on_users (alter (set_role role) id) (ac_tables a)) a
  end.
Definition edit_user_role (id : Z) (role : option user_role) (a : Accounts) : result Accounts :=
  change ← edit_role_guard id role a; Ok (edit_role_write id change a).

(** [reset_user_password] *)
Definition reset_user_password (id : Z) (password confirm : option string) (now : Z) (a : Accounts) : result Accounts :=
  target ← get_user id a;
  if negb (bool_decide (us_source target = as_local)) then Raise ValidationError
  else
    let revoke (a : Accounts) := set_tables (revoke_all_user_sessions id now (ac_tables a)) a in
    match password with
    | None | Some ""%string => Ok (revoke a)
    | Some password =>
        if match confirm with Some c => negb (String.eqb password c) | None => false end then Raise ValidationError
        else if password_length password <? password_min_length then Raise ValidationError
        else Ok (revoke (set_tables (set_user id (set_hash (Some (hash_password password)) target) (ac_tables a)) a))
    end.

(** [revoke_user_sessions] *)
Definition revoke_user_sessions (id now : Z) (a : Accounts) : result Accounts :=
  _ ← get_user id a; Ok (set_tables (revoke_all_user_sessions id now (ac_tables a)) a).

(** [disable_user]: the guard says whether to write. *)
Definition disable_guard (id : Z) (a : Accounts) : result bool :=
  target ← get_user id a;
  if is_last_enabled_admin (users_of a) target then Raise ConflictError else Ok (us_enabled target).
Definition disable_write (id now : Z) (a : Accounts) : Accounts :=
  set_tables (revoke_all_user_sessions id now (on_users (alter (set_enabled false) id) (ac_tables a))) a.
Definition disable_user (id now : Z) (a : Accounts) : result Accounts :=
  enabled ← disable_guard id a; Ok (if enabled : bool then disable_write id now a else a).

(** [enable_user] *)
Definition enable_user (id : Z) (a : Accounts) : result Accounts :=
  target ← get_user id a;
  Ok (if us_enabled target then a else set_tables (set_user id (set_enabled true target) (ac_tables a)) a).

(** [delete_user]; the foreign key takes the sessions of the row with it. *)
Definition delete_guard (id : Z) (a : Accounts) : result unit :=
  target ← get_user id a;
  if is_last_enabled_admin (users_of a) target then Raise ConflictError else Ok tt.
Definition delete_write (id : Z) (a : Accounts) : Accounts :=
  set_tables (MkAuthTables (filter (λ r, se_user r ≠ id) (at_sessions (ac_tables a))) (delete id (users_of a))) a.
Definition delete_user (id : Z) (a : Accounts) : result Accounts :=
  _ ← delete_guard id a; Ok (delete_write id a).

(** ** security/login.py *)
(** [create_local_user], [create_initial_admin] *)
Definition create_local_user (username password : string) (role : user_role) (a : Accounts) : result (Accounts * Z) :=
  let username := normalize_username username in
  insert_user (MkUser username (username_key username) as_local (Some (hash_password password)) role true) a.
Definition create_initial_admin (username password : string) (a : Accounts) : result (Accounts * Z) :=
  create_local_user username password rl_admin a.

(** [change_password] *)
Definition change_password (id : Z) (user : UserRow) (new_password : string) (now : Z) (a : Accounts) : Accounts :=
  set_tables (revoke_all_user_sessions id now (set_user id (set_hash (Some (hash_password new_password)) user) (ac_tables a))) a.

(** [authenticate_user] *)
Definition authenticate_user (username password : string) (a : Accounts) : Accounts * option (Z * UserRow) :=
  match user_by_key (username_key username) (users_of a) with
  | None => (a, None)
  | Some (id, user) =>
      if negb (us_enabled user) || negb (bool_decide (us_source user = as_local)) then (a, None)
      else
        match us_password_hash user with
        | None | Some ""%string => (a, None)
        | Some hash =>
            if negb (verify_password password hash) then (a, None)
            else if needs_rehash hash then
              let user := set_hash (Some (hash_password password)) user in (set_tables (set_user id user (ac_tables a)) a, Some (id, user))
            else (a, Some (id, user))
        end
  end.

(** ** Directory sign-in *)
(** [provision_user] (security/ldap_directory.py) *)
Definition provision_user (username : string) (role : user_role) (a : Accounts) : result (Accounts * (Z * UserRow)) :=
  match user_by_key (username_key username) (users_of a) with
  | Some (id, existing) =>
      if negb (bool_decide (us_source existing = as_ldap)) then Raise LdapProvisioningError
      else
        let user := MkUser username (username_key username) as_ldap None role (us_enabled existing) in
        Ok (set_tables (set_user id user (ac_tables a)) a, (id, user))
  | None =>
      let user := MkUser username (username_key username) as_ldap None role true in
      '(a, id) ← insert_user user a; Ok (a, (id, user))
  end.

(** [LoginOutcome], [LoginResolution] *)
Inductive login_resolution :=
  | login_authenticated (id : Z) (user : UserRow)
  | login_denied
  | login_directory_unavailable.
(** One question to the directory at sign-in: whether it is enabled, the clock at the
    question and at the answer, the answer, the groups, and the directory's spelling of the
    name. *)
Record DirectoryLogin := MkDirectoryLogin {
  dl_enabled : bool;
  dl_asked_at : Z;
  dl_reported_at : Z;
  dl_state : LdapDirectoryState;
  dl_groups : GroupView;
  dl_username : string;
}.
(** [_directory_was_unavailable] *)
Definition directory_was_unavailable (st : LdapDirectoryState) : bool :=
  bool_decide (ld_outcome st = lo_config_error) || directory_unreachable (ld_outcome st) (ld_detail st).

(** [_resolve_login] *)
Definition resolve_login (window : Z) (username password : string) (d : DirectoryLogin) (a : Accounts) (breaker : option Z)
    : result (Accounts * option Z * login_resolution) :=
  match authenticate_user username password a with
  | (a, Some (id, user)) => Ok (a, breaker, login_authenticated id user)
  | (a, None) =>
      if negb (dl_enabled d) then Ok (a, breaker, login_denied)
      else
        let '(allowed, breaker) := breaker_allow (dl_asked_at d) window breaker in
        if negb allowed then Ok (a, breaker, login_directory_unavailable)
        else
          let breaker := record_directory_result (dl_reported_at d) window (ld_outcome (dl_state d)) (ld_detail (dl_state d)) in
          if decide (ld_outcome (dl_state d) = lo_authenticated) then
            match map_groups_to_role (ld_groups (dl_state d)) (dl_groups d) with
            | None => Ok (a, breaker, login_denied)
            | Some role =>
                match provision_user (dl_username d) role a with
                | Ok (a, (id, user)) => Ok (a, breaker, login_authenticated id user)
                | Raise LdapProvisioningError => Ok (a, breaker, login_denied)
                | Raise e => Raise e
                end
            end
          else Ok (a, breaker, if directory_was_unavailable (dl_state d) then login_directory_unavailable else login_denied)
  end.

(** [_complete_login] with its reservation settled: the session it issues, with the clock of
    the directory re-check started. *)
Definition complete_login (digest : string → string) (cfg : SessionSettings) (window : Z) (username password old_token : string)
    (remember_me : bool) (now : Z) (random csrf : string) (d : DirectoryLogin) (a : Accounts) (breaker : option Z)
    : result (Accounts * option Z * option (SessionRow * string)) :=
  '(a, breaker, r) ← resolve_login window username password d a breaker;
  match r with
  | login_authenticated id user =>
      '(t, row, raw) ← rotate_session digest cfg old_token id remember_me now random csrf (ac_tables a);
      let seed := if decide (us_source user = as_ldap) then set_revalidated now else λ r, r in
      Ok (set_tables (on_sessions (update_row (se_id row) seed) t) a, breaker, Some (seed row, raw))
  | _ => Ok (a, breaker, None)
  end.

(** ** First-run setup: [first_run_submit] after its form checks, inside the lock *)
Definition first_run_create (username password : string) (a : Accounts) : result (option (Accounts * Z)) :=
  if negb (first_run_needed (users_of a)) then Ok None
  else
    match user_by_key (username_key username) (users_of a) with
    | Some _ => Ok None
    | None => Some <$> create_initial_admin username password a
    end.

(** ** An administrator remains *)
Definition has_admin (users : gmap Z UserRow) : Prop := map_Exists (λ _ u, real_admin u) users.
(** Requests one after the other, re-checks of directory accounts, and whatever happens to
    the sessions. *)
Inductive account_step : Accounts → Accounts → Prop :=
  | as_create username password role confirm a a' id : create_user username password role confirm a = Ok (a', id) → account_step a a'
  | as_edit id role a a' : edit_user_role id role a = Ok a' → account_step a a'
  | as_reset id password confirm now a a' : reset_user_password id password confirm now a = Ok a' → account_step a a'
  | as_revoke id now a a' : revoke_user_sessions id now a = Ok a' → account_step a a'
  | as_disable id now a a' : disable_user id now a = Ok a' → account_step a a'
  | as_enable id a a' : enable_user id a = Ok a' → account_step a a'
  | as_delete id a a' : delete_user id a = Ok a' → account_step a a'
  | as_change id user password now a : users_of a !! id = Some user → us_source user = as_local →
      account_step a (change_password id user password now a)
  | as_sign_in window username password d a b a' b' r : resolve_login window username password d a b = Ok (a', b', r) → account_step a a'
  | as_recheck id user role a : users_of a !! id = Some user → us_source user = as_ldap →
      account_step a (set_tables (on_users (alter (set_role role) id) (ac_tables a)) a)
  | as_sessions rows a : account_step a (set_tables (on_sessions (λ _, rows) (ac_tables a)) a).

Record accounts_ok (a : Accounts) : Prop := {
  ao_ldap : ∀ id u, users_of a !! id = Some u → us_source u = as_ldap → us_password_hash u = None;
  ao_ids : ∀ id u, users_of a !! id = Some u → id ≤ ac_last_user a;
}.
Lemma has_admin_insert users id u :
  has_admin users → (∀ v, users !! id = Some v → real_admin v → real_admin u) → has_admin (<[id := u]> users).
Proof.
  intros (id' & v & Hv & Hr) H. destruct (decide (id' = id)) as [->|Hne].
  - exists id, u. rewrite lookup_insert_eq. eauto.
  - exists id', v. by rewrite lookup_insert_ne.
Qed.
Definition other_than (id : Z) (users : gmap Z UserRow) : Prop := ∃ id' u, id' ≠ id ∧ users !! id' = Some u ∧ real_admin u.
Lemma other_alter users f id : other_than id users → has_admin (alter f id users).
Proof. intros (id' & u & Hne & Hu & Hr). exists id', u. by rewrite lookup_alter_ne. Qed.
Lemma other_admin users id : 1 < enabled_admin_count users → other_than id users.
Proof.
  unfold enabled_admin_count. intros Hc.
  assert (NoDup ((filter (λ p : Z * UserRow, real_admin p.2) (map_to_list users)).*1)) as Hn.
  { eapply sublist_NoDup; [apply (NoDup_fst_map_to_list users)|apply fmap_sublist, sublist_filter]. }
  assert (∀ p, p ∈ filter (λ p : Z * UserRow, real_admin p.2) (map_to_list users) → users !! p.1 = Some p.2 ∧ real_admin p.2) as Hin.
  { intros [k u] [Hr Hm]%list_elem_of_filter. by apply elem_of_map_to_list in Hm. }
  destruct (filter _ _) as [|[k1 u1] [|[k2 u2] l]]; cbn in Hc; [lia..|].
  apply NoDup_cons in Hn as [Hk _]. cbn in Hk. apply not_elem_of_cons in Hk as [Hk _].
  destruct (decide (k1 = id)) as [->|Hne].
  - exists k2, u2. split; [done|]. apply (Hin (k2, u2)). right. by left.
  - exists k1, u1. split; [done|]. apply (Hin (k1, u1)). by left.
Qed.
(** What the guards establish: an administrator other than the target. *)
Lemma not_last_other users id target :
  has_admin users → users !! id = Some target → is_last_enabled_admin users target = false → other_than id users.
Proof.
  intros (id0 & u0 & Hu0 & Hr0) Ht Hl. unfold is_last_enabled_admin in Hl. apply andb_false_iff in Hl as [Hl%bool_decide_eq_false|Hl].
  - exists id0, u0. split; [|done]. intros ->. congruence.
  - apply other_admin. lia.
Qed.

(** The shapes of a change: the row of one account replaced, a new account, one deleted. *)
Lemma ok_replace a id u v t :
  accounts_ok a → users_of a !! id = Some v → (us_source u = as_ldap → us_password_hash u = None) →
  at_users t = <[id := u]> (users_of a) → accounts_ok (set_tables t a).
Proof.
  intros [Hl Hi] Hv Hu Ht. unfold set_tables. split; unfold users_of; cbn; rewrite Ht; intros id' w [[<- <-]|[_ Hw]]%lookup_insert_Some; eauto.
Qed.
Lemma ok_alter a id f t :
  accounts_ok a → (∀ u, us_source (f u) = us_source u ∧ us_password_hash (f u) = us_password_hash u) →
  at_users t = alter f id (users_of a) → accounts_ok (set_tables t a).
Proof.
  intros [Hl Hi] Hf Ht. unfold set_tables. split; unfold users_of; cbn; rewrite Ht;
    intros id' w [(<- & u & Hu & ->)|[_ Hw]]%lookup_alter_Some; eauto. destruct (Hf u) as [-> ->]. eauto.
Qed.
Lemma insert_user_spec u a a' id :
  accounts_ok a → (us_source u = as_ldap → us_password_hash u = None) → insert_user u a = Ok (a', id) →
  accounts_ok a' ∧ id = ac_last_user a + 1 ∧ users_of a !! id = None ∧ users_of a' = <[id := u]> (users_of a).
Proof.
  intros [Hl Hi] Hu. unfold insert_user. destruct (taken _ _); [done|]. intros [= <- <-].
  assert (users_of a !! (ac_last_user a + 1) = None) as Hn.
  { destruct (users_of a !! (ac_last_user a + 1)) as [v|] eqn:Hv; [|done]. specialize (Hi _ _ Hv). lia. }
  split_and!; [|done..]. split; unfold users_of; cbn; intros id' w [[<- <-]|[_ Hw]]%lookup_insert_Some; eauto; [lia|].
  specialize (Hi _ _ Hw). cbn in Hi. lia.
Qed.
Lemma same_users a t : accounts_ok a → at_users t = users_of a → accounts_ok (set_tables t a).
Proof. intros [Hl Hi] Ht. split; unfold users_of; cbn; rewrite Ht; eauto. Qed.
Lemma user_by_key_some key users id u : user_by_key key users = Some (id, u) → users !! id = Some u ∧ us_username_key u = key.
Proof.
  intros [Hin Hk]%List.find_some. split; [by apply elem_of_map_to_list, list_elem_of_In|]. by apply String.eqb_eq in Hk.
Qed.
Lemma get_user_ok id a u : get_user id a = Ok u → users_of a !! id = Some u.
Proof. unfold get_user. destruct (users_of a !! id); [by intros [= <-]|done]. Qed.

(** What signing in does to the accounts. *)
Lemma authenticate_spec username password a a' r :
  authenticate_user username password a = (a', r) →
  match r with
  | None => a' = a
  | Some (id, user) => ∃ u hash, users_of a !! id = Some u ∧ us_password_hash u = Some hash ∧ verify_password password hash = true ∧
      us_source u = as_local ∧ us_enabled u = true ∧ us_username_key u = username_key username ∧
      (user = u ∧ a' = a ∨ user = set_hash (Some (hash_password password)) u ∧ a' = set_tables (set_user id user (ac_tables a)) a)
  end.
Proof.
  unfold authenticate_user. destruct (user_by_key _ _) as [[id u]|] eqn:Hk; [|by intros [= <- <-]].
  apply user_by_key_some in Hk as [Hu Hkey]. destruct (us_enabled u) eqn:Hen; [|by intros [= <- <-]].
  case_bool_decide as Hs; cbn [negb orb]; [|by intros [= <- <-]].
  destruct (us_password_hash u) as [hash|] eqn:Hh; [|by intros [= <- <-]]. destruct hash as [|c hash]; [by intros [= <- <-]|].
  destruct (verify_password password (String c hash)) eqn:Hv; cbn [negb]; [|by intros [= <- <-]].
  destruct (needs_rehash _); intros [= <- <-]; exists u, (String c hash); split_and!; auto.
Qed.
Lemma provision_spec username role a a' id user :
  accounts_ok a → provision_user username role a = Ok (a', (id, user)) →
  accounts_ok a' ∧ us_source user = as_ldap ∧ us_role user = role ∧ users_of a' = <[id := user]> (users_of a) ∧
  (users_of a !! id = None ∨ ∃ u, users_of a !! id = Some u ∧ us_source u = as_ldap).
Proof.
  intros Hok. unfold provision_user. destruct (user_by_key _ _) as [[id0 u]|] eqn:Hk.
  - apply user_by_key_some in Hk as [Hu _]. case_bool_decide as Hs; [|done]. cbn. intros [= <- <- <-].
    split_and!; [eapply ok_replace; [done|exact Hu| |reflexivity]; done|done..|right; eauto].
  - intros ([a1 id1] & Hi & [= <- <- <-])%bind_ok.
    apply insert_user_spec in Hi as (Hok' & -> & Hn & Hus); [|done|done]. split_and!; auto.
Qed.

Lemma resolve_login_users window username password d a b a' b' r :
  accounts_ok a → resolve_login window username password d a b = Ok (a', b', r) →
  accounts_ok a' ∧ (users_of a' = users_of a ∨
    (∃ id u, users_of a !! id = Some u ∧ us_source u = as_local ∧ r = login_authenticated id (set_hash (Some (hash_password password)) u) ∧
       users_of a' = <[id := set_hash (Some (hash_password password)) u]> (users_of a)) ∨
    (∃ id user, r = login_authenticated id user ∧ users_of a' = <[id := user]> (users_of a) ∧ us_source user = as_ldap ∧
       (users_of a !! id = None ∨ ∃ u, users_of a !! id = Some u ∧ us_source u = as_ldap))).
Proof.
  intros Hok. unfold resolve_login. destruct (authenticate_user username password a) as [a1 [[id user]|]] eqn:Ha; apply authenticate_spec in Ha.
  - destruct Ha as (u & hash & Hu & Hh & _ & Hs & _ & _ & [[-> ->]|[-> ->]]); intros [= <- <- <-]; [auto|].
    split; [eapply ok_replace; [done|exact Hu| |reflexivity]; cbn; congruence|]. right. left. exists id, u. auto.
  - subst a1. destruct (negb (dl_enabled d)); [intros [= <- _ _]; auto|]. destruct (breaker_allow _ _ _) as [[] b0]; cbn [negb]; [|intros [= <- _ _]; auto].
    destruct (decide _) as [Hd|_]; [|intros [= <- _ _]; auto]. destruct (map_groups_to_role _ _) as [role|]; [|intros [= <- _ _]; auto].
    destruct (provision_user _ _ _) as [[a2 [id user]]|e] eqn:Hp; [|by destruct e; intros [=]; subst; auto].
    intros [= <- _ <-]. apply provision_spec in Hp as (? & ? & _ & ? & ?); [|done]. split; [done|]. right. right. exists id, user. auto.
Qed.

Lemma account_step_ok a a' : account_step a a' → accounts_ok a → accounts_ok a'.
Proof.
  destruct 1 as [username password role confirm a a' id Hc|id role a a' Hc|id password confirm now a a' Hc|id now a a' Hc|id now a a' Hc|
    id a a' Hc|id a a' Hc|id user password now a Hu Hs|window username password d a b a' b' r Hc|id user role a Hu Hs|rows a]; intros Hok.
  - revert Hc. unfold create_user. destruct (_ || _); [done|]. destruct role; [|done]. destruct (match confirm with Some _ => _ | None => _ end); [done|].
    destruct (_ <? _); [done|]. destruct (insert_user _ _) as [[a1 id1]|[]] eqn:Hi; try done. intros [= <- _]. by apply insert_user_spec in Hi as (? & _).
  - revert Hc. unfold edit_user_role. intros (change & _ & [= <-])%bind_ok. destruct change; [|done]. by eapply ok_alter; [done| |reflexivity].
  - revert Hc. unfold reset_user_password. intros (target & Hu%get_user_ok & Hc)%bind_ok. case_bool_decide as Hs; [|done]. cbn [negb] in Hc.
    destruct password as [[|c password]|]; [by injection Hc as <-; apply same_users| |by injection Hc as <-; apply same_users].
    destruct (match confirm with Some _ => _ | None => _ end); [done|]. destruct (_ <? _); [done|]. injection Hc as <-.
    eapply (ok_replace a id _ target); [done|done| |reflexivity]; cbn; congruence.
  - revert Hc. unfold revoke_user_sessions. intros (target & _ & [= <-])%bind_ok. by apply same_users.
  - revert Hc. unfold disable_user. intros ([] & _ & [= <-])%bind_ok; [|done]. by eapply ok_alter; [done| |reflexivity].
  - revert Hc. unfold enable_user. intros (target & Hu%get_user_ok & [= <-])%bind_ok. destruct (us_enabled target); [done|].
    eapply (ok_replace a id _ target); [done|done| |reflexivity]; apply (ao_ldap _ Hok _ _ Hu).
  - revert Hc. unfold delete_user. intros ([] & _ & [= <-])%bind_ok. destruct Hok as [Hl Hi].
    split; unfold users_of; cbn; intros id' u [_ Hu]%lookup_delete_Some; eauto.
  - eapply (ok_replace a id _ user); [done|done| |reflexivity]; cbn; congruence.
  - by apply resolve_login_users in Hc as [? _].
  - by eapply ok_alter; [done| |reflexivity].
  - by apply same_users.
Qed.

Lemma edit_role_admin id role a a' : has_admin (users_of a) → edit_user_role id role a = Ok a' → has_admin (users_of a').
Proof.
  intros Ha. unfold edit_user_role, edit_role_guard. intros (change & (target & Hu%get_user_ok & Hg)%bind_ok & [= <-])%bind_ok.
  destruct role as [role|]; [|done]. destruct (_ && _ && _) eqn:Hd; [done|]. injection Hg as <-. destruct (decide (role = us_role target)) as [|Hne]; [done|].
  unfold users_of. cbn. destruct (is_last_enabled_admin (users_of a) target) eqn:Hl; [|by eapply other_alter, not_last_other].
  rewrite andb_true_r in Hd. destruct Ha as (id0 & u0 & Hu0 & Hr0). destruct (decide (id0 = id)) as [->|Hid]; [|apply other_alter; by exists id0, u0].
  exists id, (set_role role u0). fold (users_of a). rewrite lookup_alter_eq, Hu0. split; [done|]. assert (u0 = target) as -> by congruence.
  destruct Hr0 as (Hadm & Hh & Hen). rewrite Hadm in Hd, Hne. by destruct role.
Qed.
Lemma account_step_admin a a' : account_step a a' → accounts_ok a → has_admin (users_of a) → has_admin (users_of a').
Proof.
  destruct 1 as [username password role confirm a a' id Hc|id role a a' Hc|id password confirm now a a' Hc|id now a a' Hc|id now a a' Hc|
    id a a' Hc|id a a' Hc|id user password now a Hu Hs|window username password d a b a' b' r Hc|id user role a Hu Hs|rows a]; intros Hok Ha.
  - revert Hc. unfold create_user. destruct (_ || _); [done|]. destruct role; [|done]. destruct (match confirm with Some _ => _ | None => _ end); [done|].
    destruct (_ <? _); [done|]. destruct (insert_user _ _) as [[a1 id1]|[]] eqn:Hi; try done. intros [= <- _].
    apply insert_user_spec in Hi as (_ & -> & Hn & ->); [|done..]. apply has_admin_insert; [done|]. intros v Hv. by rewrite Hn in Hv.
  - by eapply edit_role_admin.
  - revert Hc. unfold reset_user_password. intros (target & Hu%get_user_ok & Hc)%bind_ok. case_bool_decide as Hs; [|done]. cbn [negb] in Hc.
    destruct password as [[|c password]|]; [by injection Hc as <-| |by injection Hc as <-].
    destruct (match confirm with Some _ => _ | None => _ end); [done|]. destruct (_ <? _); [done|]. injection Hc as <-.
    apply has_admin_insert; [done|]. intros v Hv (? & ? & ?). assert (v = target) as -> by (unfold users_of in *; congruence). split_and!; [done|by eexists|done].
  - revert Hc. unfold revoke_user_sessions. by intros (target & _ & [= <-])%bind_ok.
  - revert Hc. unfold disable_user, disable_guard. intros (enabled & (target & Hu%get_user_ok & Hg)%bind_ok & [= <-])%bind_ok.
    destruct (is_last_enabled_admin _ _) eqn:Hl; [done|]. injection Hg as <-. destruct (us_enabled target); [|done].
    by eapply other_alter, not_last_other.
  - revert Hc. unfold enable_user. intros (target & Hu%get_user_ok & [= <-])%bind_ok. destruct (us_enabled target) eqn:Hen; [done|].
    apply has_admin_insert; [done|]. intros v Hv (_ & _ & ?). unfold users_of in *. congruence.
  - revert Hc. unfold delete_user, delete_guard. intros ([] & (target & Hu%get_user_ok & Hg)%bind_ok & [= <-])%bind_ok.
    destruct (is_last_enabled_admin _ _) eqn:Hl; [done|]. destruct (not_last_other _ _ _ Ha Hu Hl) as (id' & u & Hne & Hu' & Hr).
    exists id', u. unfold users_of. cbn. by rewrite lookup_delete_ne.
  - apply has_admin_insert; [done|]. intros v Hv (? & ? & ?). assert (v = user) as -> by (unfold users_of in *; congruence). split_and!; [done|by eexists|done].
  - apply resolve_login_users in Hc as [_ [->|[(id & u & Hu & _ & _ & ->)|(id & user & _ & -> & _ & Hor)]]];
      [done|apply has_admin_insert; [done|]|apply has_admin_insert; [done|]|done].
    + intros v Hv (? & ? & ?). assert (v = u) as -> by (unfold users_of in *; congruence). split_and!; [done|by eexists|done].
    + intros v Hv (_ & [h Hh] & _). destruct Hor as [Hn|(u & Hu & Hs)]; [by rewrite Hn in Hv|].
      rewrite Hu in Hv. injection Hv as <-. by rewrite (ao_ldap _ Hok _ _ Hu Hs) in Hh.
  - destruct Ha as (id0 & u0 & Hu0 & Hr0 & [h Hh] & Hen). apply other_alter. exists id0, u0. split; [|split; [done|]].
    + intros ->. rewrite Hu in Hu0. injection Hu0 as <-. rewrite (ao_ldap _ Hok _ _ Hu Hs) in Hh. done.
    + split_and!; [done|by eexists|done].
  - done.
Qed.

(** C22: the system keeps an administrator who can sign in: from an account table with an
    enabled administrator that has a password, no sequence of requests (creations, role
    edits, password resets and changes, disabling, enabling, deletions, sign-ins with
    directory provisioning) and directory re-checks leaves none; so first-run setup stays
    closed. *)
Theorem administrator_remains a a' :
  accounts_ok a → has_admin (users_of a) → rtc account_step a a' →
  has_admin (users_of a') ∧ ∀ username password, first_run_create username password a' = Ok None.
Proof.
  intros Hok Ha Hr. assert (has_admin (users_of a')) as Ha'.
  { induction Hr as [|a1 a2 a3 Hs Hr IH]; [done|]. apply IH; [by eapply account_step_ok|by eapply account_step_admin]. }
  split; [done|]. intros username password. unfold first_run_create, first_run_needed. rewrite bool_decide_false; [done|]. by intros [].
Qed.

(** ** Changes that end sessions *)
Inductive ends_sessions (id now : Z) (a : Accounts) : Accounts → Prop :=
  | es_disable user a' : users_of a !! id = Some user → us_enabled user = true → disable_user id now a = Ok a' → ends_sessions id now a a'
  | es_reset password confirm a' : reset_user_password id password confirm now a = Ok a' → ends_sessions id now a a'
  | es_change user password : ends_sessions id now a (change_password id user password now a)
  | es_revoke a' : revoke_user_sessions id now a = Ok a' → ends_sessions id now a a'
  | es_delete a' : delete_user id a = Ok a' → ends_sessions id now a a'.
Lemma revoke_all_revokes id now t r : r ∈ at_sessions (revoke_all_user_sessions id now t) → se_user r = id → se_revoked r = true.
Proof.
  intros (r0 & -> & _)%list_elem_of_fmap. destruct (decide (se_user r0 = id)) as [<-|Hne].
  - rewrite bool_decide_true by done. by destruct (se_revoked r0) eqn:Hre.
  - by rewrite bool_decide_false.
Qed.

(** Disabling an account, resetting or changing its password, revoking its sessions and
    deleting it end every session it has: no token resolves to it afterwards, at any time
    and even when the account is enabled again. *)
Theorem account_change_ends_sessions digest cfg id now a a' a'' raw n row user :
  ends_sessions id now a a' → (a'' = a' ∨ enable_user id a' = Ok a'') →
  read_session digest cfg raw n (ac_tables a'') = Some (row, user) → se_user row ≠ id.
Proof.
  intros He Hor Hread Hid. destruct (read_some _ _ _ _ _ _ _ Hread) as (Hf & Hre & _). apply find_session_some in Hf as [Hr _].
  assert (at_sessions (ac_tables a'') = at_sessions (ac_tables a')) as Hs.
  { destruct Hor as [->|(target & _ & [= <-])%bind_ok]; [done|]. by destruct (us_enabled target). }
  rewrite Hs in Hr. clear Hor Hread Hs. assert (se_revoked row = true); [|congruence]. destruct He as [u a' Hu Hen Hc|password confirm a' Hc| |a' Hc|a' Hc].
  - revert Hc. unfold disable_user, disable_guard, get_user. rewrite Hu. cbn. destruct (is_last_enabled_admin _ _); [done|]. cbn. rewrite Hen. intros [= <-].
    exact (revoke_all_revokes _ _ _ _ Hr Hid).
  - revert Hc. unfold reset_user_password. intros (target & _ & Hc)%bind_ok. destruct (negb _); [done|].
    destruct password as [[|c password]|]; [injection Hc as <-; exact (revoke_all_revokes _ _ _ _ Hr Hid)| |injection Hc as <-; exact (revoke_all_revokes _ _ _ _ Hr Hid)].
    destruct (match confirm with Some _ => _ | None => _ end); [done|]. destruct (_ <? _); [done|]. injection Hc as <-. exact (revoke_all_revokes _ _ _ _ Hr Hid).
  - exact (revoke_all_revokes _ _ _ _ Hr Hid).
  - revert Hc. unfold revoke_user_sessions. intros (target & _ & [= <-])%bind_ok. exact (revoke_all_revokes _ _ _ _ Hr Hid).
  - revert Hc. unfold delete_user. intros ([] & _ & [= <-])%bind_ok. cbn in Hr. by apply list_elem_of_filter in Hr as [? _].
Qed.

(** ** Sign-in *)
(** C29: a sign-in proves something: it yields a local account only with the password of an
    enabled local account under that name, and a directory account only on the directory's
    authentication together with a mapped group, which gives the role; and a directory
    sign-in never touches a local account. *)
Theorem sign_in_needs_proof window username password d a b a' b' id user :
  accounts_ok a → resolve_login window username password d a b = Ok (a', b', login_authenticated id user) →
  (us_source user = as_local ∧ us_enabled user = true ∧ us_username_key user = username_key username ∧
     ∃ u hash, users_of a !! id = Some u ∧ us_password_hash u = Some hash ∧ verify_password password hash = true) ∨
  (us_source user = as_ldap ∧ dl_enabled d = true ∧ ld_outcome (dl_state d) = lo_authenticated ∧
     map_groups_to_role (ld_groups (dl_state d)) (dl_groups d) = Some (us_role user) ∧
     ∀ id' u, users_of a !! id' = Some u → us_source u = as_local → users_of a' !! id' = Some u).
Proof.
  intros Hok. unfold resolve_login. destruct (authenticate_user username password a) as [a1 [[id1 user1]|]] eqn:Ha; apply authenticate_spec in Ha.
  - destruct Ha as (u & hash & Hu & Hh & Hv & Hs & Hen & Hk & Hor). intros [= _ _ -> ->]. left.
    destruct Hor as [[-> _]|[-> _]]; split_and!; try done; exists u, hash; done.
  - subst a1. destruct (dl_enabled d); cbn [negb]; [|done]. destruct (breaker_allow _ _ _) as [[] b0]; cbn [negb]; [|done].
    destruct (decide _) as [Hd|_]; [|by destruct (directory_was_unavailable _)]. destruct (map_groups_to_role _ _) as [role|]; [|done].
    destruct (provision_user _ _ _) as [[a2 [id2 user2]]|e] eqn:Hp; [|by destruct e]. intros [= <- _ -> ->]. right.
    apply provision_spec in Hp as (_ & Hs & Hrole & Hus & Hor); [|done]. split_and!; [done..|by rewrite Hrole|].
    intros id' u Hu Hsu. rewrite Hus, lookup_insert_ne; [done|]. intros <-. destruct Hor as [Hn|(v & Hv & Hsv)]; congruence.
Qed.
End accounts.

(** ** Concrete runs *)
Definition check_plain (password hash : string) : bool := String.eqb password hash.
Definition rehash_never (hash : string) : bool := false.
Definition bob : UserRow := MkUser "bob" "bob" as_local (Some "b"%string) rl_admin true.
Definition two_admins : Accounts := MkAccounts (MkAuthTables [login_row] {[1 := ann; 2 := bob]}) 2.
Lemma two_admins_ok : accounts_ok two_admins.
Proof.
  split; unfold users_of; cbn; intros id u [[<- <-]|[_ [<- <-]%lookup_singleton_Some]]%lookup_insert_Some; cbn; done || lia.
Qed.
Definition bob_disabled : Accounts := disable_write 2 0 two_admins.
Lemma administrator_remains_witness :
  has_admin (users_of bob_disabled) ∧ ∀ username password, first_run_create plain username password bob_disabled = Ok None.
Proof.
  refine (administrator_remains plain check_plain rehash_never 8 two_admins bob_disabled two_admins_ok _ (rtc_once _ _ _)).
  - exists 1, ann. split; [reflexivity|]. split; [reflexivity|]. split; [by eexists|reflexivity].
  - apply (as_disable plain check_plain rehash_never 8 2 0). vm_compute. reflexivity.
Defined.
Lemma account_change_ends_sessions_witness :
  read_session plain demo_cfg token 0 (ac_tables bob_disabled) = Some (login_row, ann) ∧ se_user login_row ≠ 2.
Proof.
  assert (read_session plain demo_cfg token 0 (ac_tables bob_disabled) = Some (login_row, ann)) as Hr by (vm_compute; reflexivity).
  split; [exact Hr|]. refine (account_change_ends_sessions plain 8 plain demo_cfg 2 0 two_admins bob_disabled _ token 0 login_row ann _ (or_introl eq_refl) Hr).
  apply (es_disable plain 8 2 0 two_admins bob); [reflexivity|reflexivity|]. vm_compute. reflexivity.
Defined.
Definition directory_off : DirectoryLogin := MkDirectoryLogin false 0 0 (MkDirectoryState lo_disabled [] "") (MkGroups [] [] []) "".
Lemma sign_in_needs_proof_witness :
  resolve_login plain check_plain rehash_never 60 "Bob" "b" directory_off two_admins None = Ok (two_admins, None, login_authenticated 2 bob) ∧
  check_plain "b" "b" = true.
Proof.
  assert (resolve_login plain check_plain rehash_never 60 "Bob" "b" directory_off two_admins None = Ok (two_admins, None, login_authenticated 2 bob)) as H
    by (vm_compute; reflexivity).
  split; [exact H|]. destruct (sign_in_needs_proof plain check_plain rehash_never 60 "Bob" "b" directory_off two_admins None two_admins None 2 bob two_admins_ok H)
    as [(_ & _ & _ & u & hash & Hu & Hh & Hv)|(Hs & _)]; [|discriminate Hs].
  injection Hu as <-. injection Hh as <-. exact Hv.
Defined.

(** The guard and the write of a request are not one transaction.  Two administrators who
    disable each other at the same time both pass the guard, and the system is left without
    an administrator and with first-run setup open. *)
Lemma concurrent_disables_lock_out :
  disable_guard 1 two_admins = Ok true ∧ disable_guard 2 two_admins = Ok true ∧
  first_run_needed (users_of (disable_write 2 0 (disable_write 1 0 two_admins))) = true.
Proof. vm_compute. auto. Qed.

(** Disabling is said to stop an account from signing in; a directory sign-in does not look
    at the flag, so a disabled directory account still gets a session row, a sign-in record
    and its throttle reservation released. *)
Definition dora_disabled : Accounts := MkAccounts (MkAuthTables [] {[2 := set_enabled false dora]}) 2.
Definition dora_login : DirectoryLogin :=
  MkDirectoryLogin true 0 0 (MkDirectoryState lo_authenticated [b "cn=viewers"] "") (MkGroups [] [] (b "CN=Viewers")) "dora".
Lemma disabled_directory_user_signs_in :
  ∃ a' user, resolve_login plain check_plain rehash_never 60 "dora" "x" dora_login dora_disabled None = Ok (a', None, login_authenticated 2 user) ∧
    us_enabled user = false.
Proof. eexists _, _. split; [vm_compute; reflexivity|reflexivity]. Qed.
