(* ===== verification/Csrf.v ===== *)
(** * Request forgery tokens and security cookies: security/csrf.py, web/presession.py,
    security/cookie_header.py

    Tokens masked with a one-time pad, the pre-session of the sign-in page, and the strict
    reading of a cookie.  A byte is a [Z] below 256; a presented token is the list of the
    code points of its text; a header is a latin-1 text.  What the random generator gave is
    an argument. *)

From Stdlib Require Import Ascii.
From S2P Require Import Prelude PyVal Bytes.
From stdpp Require Import options.
Local Open Scope Z_scope.

Definition is_byte (x : Z) : Prop := 0 ≤ x < 256.
Definition is_sextet (x : Z) : Prop := 0 ≤ x < 64.

(** ** base64.urlsafe_b64encode without its padding, and urlsafe_b64decode *)
Definition encode_char (n : Z) : Z :=
  if n <? 26 then 65 + n else if n <? 52 then 71 + n else if n <? 62 then n - 4 else if n =? 62 then 45 else 95.
Definition decode_char (c : Z) : option Z :=
  if (65 <=? c) && (c <=? 90) then Some (c - 65)
  else if (97 <=? c) && (c <=? 122) then Some (c - 71)
  else if (48 <=? c) && (c <=? 57) then Some (c + 4)
  else if c =? 45 then Some 62
  else if c =? 95 then Some 63
  else None.
Fixpoint sextets (l : list Z) : list Z :=
  match l with
  | x :: y :: z :: l => x / 4 :: x mod 4 * 16 + y / 16 :: y mod 16 * 4 + z / 64 :: z mod 64 :: sextets l
  | [x; y] => [x / 4; x mod 4 * 16 + y / 16; y mod 16 * 4]
  | [x] => [x / 4; x mod 4 * 16]
  | [] => []
  end.
(** A single character left over is [binascii.Error]; unused low bits are ignored. *)
Fixpoint unsextets (l : list Z) : option (list Z) :=
  match l with
  | p :: q :: r :: s :: l => (λ rest, p * 4 + q / 16 :: q mod 16 * 16 + r / 4 :: r mod 4 * 64 + s :: rest) <$> unsextets l
  | [p; q; r] => Some [p * 4 + q / 16; q mod 16 * 16 + r / 4]
  | [p; q] => Some [p * 4 + q / 16]
  | [p] => None
  | [] => Some []
  end.
Definition b64_encode (l : list Z) : list Z := encode_char <$> sextets l.
Definition b64_decode (text : list Z) : option (list Z) := mapM decode_char text ≫= unsextets.

(** ** security/csrf.py *)
(** [_xor], [_masked_length], [mask_secret] *)
Definition xor (left right : list Z) : list Z := zip_with Z.lxor left right.
Definition masked_length (secret_length : Z) : Z := (4 * 2 * secret_length + 2) / 3.
Definition mask_secret (pad secret : list Z) : list Z := b64_encode (pad ++ xor pad secret).
(** [_unmask] *)
Definition unmask (presented : list Z) (secret_length : nat) : option (list Z) :=
  if negb (Z.of_nat (length presented) =? masked_length (Z.of_nat secret_length)) then None
  else if bool_decide (presented = []) || negb (forallb (λ c, bool_decide (is_Some (decode_char c))) presented) then None
  else
    match b64_decode presented with
    | None => None
    | Some blob => if negb (length blob =? 2 * secret_length)%nat then None
                   else Some (xor (take secret_length blob) (drop secret_length blob))
    end.
(** [verify_csrf] *)
Definition verify_csrf (expected presented : option (list Z)) : bool :=
  match expected, presented with
  | Some ((_ :: _) as secret), Some ((_ :: _) as presented) =>
      match unmask presented (length secret) with
      | None => false
      | Some candidate => bool_decide (secret = candidate)
      end
  | _, _ => false
  end.
(** [issue_csrf] for a session row: [ValueError] without a secret. *)
Definition issue_csrf (pad : list Z) (secret : option (list Z)) : result (list Z) :=
  match secret with
  | None | Some [] => Raise (ValueError "csrf_secret")
  | Some secret => Ok (mask_secret pad secret)
  end.
(** [fetch_site_rejected] *)
Definition fetch_site_rejected (header : option bytes) : bool :=
  match header with
  | None | Some [] => false
  | Some value => let v := lower_text (strip_by latin1_space value) in bool_decide (v = b "cross-site" ∨ v = b "same-site")
  end.

(** ** security/cookie_header.py: [cookie_lookup] *)
(** The pairs of all the headers, in order; a piece without a separator is skipped. *)
Definition cookie_pairs (headers : list bytes) : list (bytes * bytes) :=
  headers ≫= λ header, split_at_char ";" header ≫= λ piece,
    match partition_at "=" piece with (name, true, value) => [(name, value)] | _ => [] end.
Fixpoint scan_pairs (name : bytes) (found : list bytes) (l : list (bytes * bytes)) : option (list bytes) :=
  match l with
  | [] => Some found
  | (raw_name, value) :: l =>
      if decide (strip_by is_blank raw_name = name) then scan_pairs name (found ++ [strip_by is_blank value]) l
      else if decide (strip_by latin1_space raw_name = name) then None
      else scan_pairs name found l
  end.
Definition cookie_lookup (headers : list bytes) (name : bytes) : option bytes * bool :=
  match scan_pairs name [] (cookie_pairs headers) with
  | None => (None, true)
  | Some [] => (None, false)
  | Some [value] => (Some value, false)
  | Some _ => (None, true)
  end.
Definition cookie_value (headers : list bytes) (name : bytes) : option bytes := (cookie_lookup headers name).1.

(** ** security/authz.py: the name of a cookie *)
Definition HOST_PREFIX : bytes := b "__Host-".
Definition prefixed_cookie_name (name : bytes) : bytes := if decide (HOST_PREFIX `prefix_of` name) then name else HOST_PREFIX ++ name.
Definition cookie_name (host_prefix https : bool) (name : bytes) : bytes := if host_prefix && https then prefixed_cookie_name name else name.
(** [session_cookie_value] *)
Definition session_cookie_value (host_prefix https : bool) (configured : bytes) (headers : list bytes) : option bytes :=
  cookie_value headers (cookie_name host_prefix https configured).

(** ** web/presession.py *)
Definition PRESESSION_COOKIE : bytes := b "tlm_presession".
Definition codes (s : bytes) : list Z := char_code <$> s.
Definition well_formed (value : bytes) : bool :=
  bool_decide (length value = 43)%nat && forallb (λ c, bool_decide (is_Some (decode_char (char_code c)))) value.
(** [_existing_secret], [presession_for], [presession_valid] *)
Definition existing_secret (host_prefix https : bool) (headers : list bytes) : option bytes :=
  match cookie_value headers (cookie_name host_prefix https PRESESSION_COOKIE) with
  | Some value => if well_formed value then Some value else None
  | None => None
  end.
Definition presession_for (host_prefix https : bool) (headers : list bytes) (minted : bytes) : bytes * bool :=
  match existing_secret host_prefix https headers with
  | Some existing => (existing, false)
  | None => (minted, true)
  end.
Definition presession_valid (host_prefix https : bool) (headers : list bytes) (presented : option (list Z)) : bool :=
  match existing_secret host_prefix https headers, presented with
  | Some secret, Some ((_ :: _) as presented) => verify_csrf (Some (codes secret)) (Some presented)
  | _, _ => false
  end.

(** ** Round trip of the encoding *)
Lemma decode_encode_char n : is_sextet n → decode_char (encode_char n) = Some n.
Proof.
  unfold is_sextet, encode_char, decode_char. intros Hn.
  destruct (Z.ltb_spec n 26), (Z.ltb_spec n 52), (Z.ltb_spec n 62), (Z.eqb_spec n 62); try lia;
    repeat (first [rewrite (proj2 (Z.leb_le _ _)) by lia|rewrite (proj2 (Z.leb_gt _ _)) by lia|rewrite (proj2 (Z.eqb_neq _ _)) by lia]; cbn [andb]);
    try (f_equal; lia).
Qed.

(** Induction three bytes at a time. *)
Lemma triples_ind (P : list Z → Prop) :
  P [] → (∀ x, P [x]) → (∀ x y, P [x; y]) → (∀ x y z l, P l → P (x :: y :: z :: l)) → ∀ l, P l.
Proof.
  intros H0 H1 H2 H3. fix IH 1. intros [|x [|y [|z l]]]; [exact H0|apply H1|apply H2|apply H3, IH].
Qed.
Lemma sextets_range l : Forall is_byte l → Forall is_sextet (sextets l).
Proof.
  unfold is_byte, is_sextet. induction l as [|x|x y|x y z l' IH] using triples_ind; cbn [sextets]; intros Hl; decompose_Forall_hyps;
    repeat constructor; try divmod; by apply IH.
Qed.
Lemma unsextets_sextets l : Forall is_byte l → unsextets (sextets l) = Some l.
Proof.
  unfold is_byte. induction l as [|x|x y|x y z l' IH] using triples_ind; cbn [sextets unsextets]; intros Hl; decompose_Forall_hyps; [done|..].
  - repeat f_equal; divmod.
  - repeat f_equal; divmod.
  - rewrite IH by done. cbn. repeat f_equal; divmod.
Qed.
Lemma sextets_length l : Z.of_nat (length (sextets l)) = (4 * Z.of_nat (length l) + 2) / 3.
Proof.
  induction l as [|x|x y|x y z l' IH] using triples_ind; [done..|]. cbn [sextets length]. rewrite !Nat2Z.inj_succ, IH. divmod.
Qed.
Lemma decode_chars l : Forall is_sextet l → mapM decode_char (encode_char <$> l) = Some l.
Proof. intros Hl. apply mapM_Some_2, Forall2_fmap_l, Forall_Forall2_diag. eapply Forall_impl; [exact Hl|]. apply decode_encode_char. Qed.
Lemma b64_roundtrip l : Forall is_byte l → b64_decode (b64_encode l) = Some l.
Proof. intros Hl. unfold b64_decode, b64_encode. rewrite decode_chars by by apply sextets_range. cbn. by apply unsextets_sextets. Qed.
Lemma encoded_chars l : Forall is_byte l → forallb (λ c, bool_decide (is_Some (decode_char c))) (b64_encode l) = true.
Proof.
  intros Hl%sextets_range. unfold b64_encode. induction Hl as [|n l' Hn Hl IH]; [done|]. cbn. rewrite decode_encode_char by done.
  by rewrite bool_decide_true by done.
Qed.

(** ** Masking *)
Lemma lxor_byte x y : is_byte x → is_byte y → is_byte (Z.lxor x y).
Proof.
  unfold is_byte. intros Hx Hy. split; [apply Z.lxor_nonneg; lia|].
  destruct (decide (Z.lxor x y = 0)) as [->|Hne]; [lia|]. assert (0 < Z.lxor x y) by (assert (0 ≤ Z.lxor x y) by (apply Z.lxor_nonneg; lia); lia).
  apply (Z.log2_lt_pow2 _ 8); [done|]. eapply Z.le_lt_trans; [apply Z.log2_lxor; lia|].
  apply Z.max_lub_lt; [destruct (decide (x = 0)) as [->|]|destruct (decide (y = 0)) as [->|]]; try done; apply Z.log2_lt_pow2; lia.
Qed.
Lemma xor_length p s : length p = length s → length (xor p s) = length s.
Proof. intros Hl. unfold xor. rewrite length_zip_with. lia. Qed.
Lemma xor_bytes p s : Forall is_byte p → Forall is_byte s → Forall is_byte (xor p s).
Proof.
  intros Hp. revert s. induction Hp as [|x p Hx Hp IH]; intros [|y s] Hs; try constructor; inversion_clear Hs; [by apply lxor_byte|by apply IH].
Qed.
Lemma xor_twice p s : length p = length s → xor p (xor p s) = s.
Proof.
  revert s. induction p as [|x p IH]; intros [|y s] Hl; cbn in *; try done. f_equal; [|by apply IH; lia].
  by rewrite <-Z.lxor_assoc, Z.lxor_nilpotent, Z.lxor_0_l.
Qed.
Lemma masked_length_inj m n : 0 ≤ m → 0 ≤ n → masked_length m = masked_length n → m = n.
Proof. unfold masked_length. intros. divmod. Qed.
Lemma mask_length pad secret :
  length pad = length secret → Z.of_nat (length (mask_secret pad secret)) = masked_length (Z.of_nat (length secret)).
Proof.
  intros Hl. unfold mask_secret, b64_encode. rewrite length_fmap, sextets_length, length_app, xor_length by done. unfold masked_length.
  f_equal. lia.
Qed.
Lemma unmask_mask pad secret n :
  length pad = length secret → Forall is_byte pad → Forall is_byte secret → secret ≠ [] →
  unmask (mask_secret pad secret) n = if decide (n = length secret) then Some secret else None.
Proof.
  intros Hl Hp Hs Hne. unfold unmask. rewrite mask_length by done. destruct (decide (n = length secret)) as [->|Hn].
  - rewrite Z.eqb_refl. cbn [negb].
    assert (Forall is_byte (pad ++ xor pad secret)) as Hb by (apply Forall_app; split; [done|by apply xor_bytes]).
    fold (mask_secret pad secret) in *. assert (mask_secret pad secret = b64_encode (pad ++ xor pad secret)) as -> by done.
    rewrite bool_decide_false, (encoded_chars _ Hb), (b64_roundtrip _ Hb); cbn [negb orb].
    + rewrite length_app, xor_length by done. rewrite (proj2 (Nat.eqb_eq _ _)) by lia. cbn [negb].
      rewrite <-Hl, take_app_length, drop_app_length. by rewrite xor_twice.
    + unfold b64_encode. destruct pad as [|x [|y [|z pad]]], secret as [|x' [|y' [|z' secret]]]; done.
  - destruct (Z.eqb_spec (masked_length (Z.of_nat (length secret))) (masked_length (Z.of_nat n))) as [Heq|]; [|done].
    apply masked_length_inj in Heq; lia.
Qed.

Lemma verify_mask pad secret other :
  length pad = length secret → Forall is_byte pad → Forall is_byte secret → secret ≠ [] →
  verify_csrf (Some other) (Some (mask_secret pad secret)) = bool_decide (other = secret).
Proof.
  intros Hl Hp Hs Hne. unfold verify_csrf. destruct other as [|o other]; [by rewrite bool_decide_false by congruence|].
  assert (mask_secret pad secret ≠ []) as Hm.
  { intros Hm. pose proof (mask_length pad secret Hl) as Hlen. rewrite Hm in Hlen. destruct secret as [|x secret]; [done|].
    cbn [length] in Hlen. unfold masked_length in Hlen. divmod. }
  destruct (mask_secret pad secret) as [|c cs] eqn:Hc; [done|]. rewrite <-Hc, unmask_mask by done. destruct (decide _) as [|Hn]; [done|].
  rewrite bool_decide_false; [done|]. by intros <-.
Qed.

Lemma verified_decodes secret presented :
  verify_csrf (Some secret) (Some presented) = true →
  ∃ pad, length pad = length secret ∧ b64_decode presented = Some (pad ++ xor pad secret) ∧ presented ≠ secret.
Proof.
  unfold verify_csrf, unmask. destruct secret as [|o secret]; [done|]. destruct presented as [|c presented]; [done|].
  destruct (Z.eqb_spec (Z.of_nat (length (c :: presented))) (masked_length (Z.of_nat (length (o :: secret))))) as [Hlen|]; [|done]. cbn [negb].
  destruct (_ || _); [done|]. destruct (b64_decode _) as [blob|]; [|done].
  destruct (Nat.eqb_spec (length blob) (2 * length (o :: secret))) as [Hb|]; [|done]. cbn [negb].
  case_bool_decide as Hs; [|done]. intros _. exists (take (length (o :: secret)) blob). split_and!.
  - rewrite length_take. lia.
  - f_equal. rewrite Hs at 3. rewrite xor_twice; [by rewrite take_drop|]. rewrite length_take, length_drop. lia.
  - intros Heq. rewrite Heq in Hlen. unfold masked_length in Hlen. cbn [length] in Hlen. divmod.
Qed.

(** C31: a token is good for its own secret and no other, and nothing else is a token:
    whatever the pad, the token issued for a secret verifies against that secret and against
    no other secret of any length; and what verifies decodes to a pad of the secret's length
    followed by the secret under that pad, so the bare secret is never accepted. *)
Theorem csrf_tokens_exact secret :
  Forall is_byte secret → secret ≠ [] →
  (∀ pad other, length pad = length secret → Forall is_byte pad →
     verify_csrf (Some other) (Some (mask_secret pad secret)) = bool_decide (other = secret)) ∧
  (∀ presented, verify_csrf (Some secret) (Some presented) = true →
     ∃ pad, length pad = length secret ∧ b64_decode presented = Some (pad ++ xor pad secret) ∧ presented ≠ secret).
Proof. intros Hs Hne. split; [intros pad other Hl Hp; by apply verify_mask|intros presented; apply verified_decodes]. Qed.

(** ** Cookies *)
Lemma scan_pairs_spec name l : ∀ found result,
  scan_pairs name found l = Some result →
  result = found ++ ((λ p, strip_by is_blank p.2) <$> filter (λ p : bytes * bytes, strip_by is_blank p.1 = name) l) ∧
  ∀ p, p ∈ l → strip_by latin1_space p.1 = name → strip_by is_blank p.1 = name.
Proof.
  induction l as [|[n v] l IH]; intros found result; cbn [scan_pairs].
  { intros [= <-]. split; [by rewrite app_nil_r|]. by intros p ?%elem_of_nil. }
  destruct (decide (strip_by is_blank n = name)) as [Hn|Hn].
  - intros [-> Hall]%IH. rewrite filter_cons_True by done. split; [by rewrite <-app_assoc|]. intros p [->|Hp]%elem_of_cons; [done|by apply Hall].
  - destruct (decide (strip_by latin1_space n = name)) as [|Hs]; [done|]. intros [-> Hall]%IH. rewrite filter_cons_False by done. split; [done|].
    intros p [->|Hp]%elem_of_cons ?; [done|by apply Hall].
Qed.
Definition exact_values (headers : list bytes) (name : bytes) : list bytes :=
  (λ p : bytes * bytes, strip_by is_blank p.2) <$> filter (λ p : bytes * bytes, strip_by is_blank p.1 = name) (cookie_pairs headers).
Definition near_miss (headers : list bytes) (name : bytes) : Prop :=
  ∃ p, p ∈ cookie_pairs headers ∧ strip_by latin1_space p.1 = name ∧ strip_by is_blank p.1 ≠ name.
Lemma scan_pairs_none name l : ∀ found,
  scan_pairs name found l = None → ∃ p, p ∈ l ∧ strip_by latin1_space p.1 = name ∧ strip_by is_blank p.1 ≠ name.
Proof.
  induction l as [|[n v] l IH]; intros found; cbn [scan_pairs]; [done|].
  destruct (decide (strip_by is_blank n = name)) as [Hn|Hn].
  - intros (p & Hp & ?)%IH. exists p. split; [by right|done].
  - destruct (decide (strip_by latin1_space n = name)) as [Hs|Hs]; [intros _; exists (n, v); split; [by left|done]|].
    intros (p & Hp & ?)%IH. exists p. split; [by right|done].
Qed.

(** A cookie is read only when its name is there exactly once and nothing else could be
    mistaken for it: the lookup gives a value exactly when that is the one value of the
    exact name in all the headers and no name matches only after the trimming of other
    white space; and it says ambiguous exactly when there are several or such a name. *)
Theorem cookie_read_exact headers name v :
  (cookie_lookup headers name = (Some v, false) ↔ exact_values headers name = [v] ∧ ¬ near_miss headers name) ∧
  ((cookie_lookup headers name).2 = true ↔ (2 ≤ length (exact_values headers name))%nat ∨ near_miss headers name).
Proof.
  unfold cookie_lookup, near_miss. destruct (scan_pairs name [] (cookie_pairs headers)) as [l|] eqn:Hs.
  - apply scan_pairs_spec in Hs as [-> Hall]. cbn [app]. fold (exact_values headers name).
    assert (¬ ∃ p, p ∈ cookie_pairs headers ∧ strip_by latin1_space p.1 = name ∧ strip_by is_blank p.1 ≠ name) as Hno by (intros (p & Hp & ? & ?); eauto).
    destruct (exact_values headers name) as [|x [|y l]]; cbn; naive_solver lia.
  - apply scan_pairs_none in Hs. cbn. naive_solver.
Qed.

(** ** The pre-session *)
Lemma char_code_byte c : is_byte (char_code c).
Proof. unfold is_byte, char_code. pose proof (nat_ascii_bounded c). lia. Qed.
Lemma codes_bytes s : Forall is_byte (codes s).
Proof. apply Forall_fmap, Forall_true. intros c. apply char_code_byte. Qed.
Lemma char_code_inj c c' : char_code c = char_code c' → c = c'.
Proof. unfold char_code. intros Hc%Nat2Z.inj. by rewrite <-(ascii_nat_embedding c), Hc, ascii_nat_embedding. Qed.
#[export] Instance codes_inj : Inj (=) (=) codes.
Proof. apply list_fmap_eq_inj. intros c c'. apply char_code_inj. Qed.
Lemma existing_well_formed hp https headers s : existing_secret hp https headers = Some s → length s = 43%nat.
Proof.
  unfold existing_secret. destruct (cookie_value _ _) as [value|]; [|done]. destruct (well_formed value) eqn:Hw; [|done]. intros [= <-].
  unfold well_formed in Hw. by apply andb_true_iff in Hw as [?%bool_decide_eq_true _].
Qed.

(** The form of the sign-in page is accepted exactly from the browser that was given
    it: a token rendered for a pre-session secret verifies when the request carries the
    cookie with that secret, under the name this request reads, and with any other cookie
    or none it does not. *)
Theorem presession_bound hp https headers pad s :
  length pad = length s → Forall is_byte pad → length s = 43%nat →
  presession_valid hp https headers (Some (mask_secret pad (codes s))) = bool_decide (existing_secret hp https headers = Some s).
Proof.
  intros Hl Hp Hs. unfold presession_valid. destruct (existing_secret hp https headers) as [s'|] eqn:He; [|by rewrite bool_decide_false].
  assert (codes s ≠ []) as Hne by (intros Hn; apply (f_equal length) in Hn; unfold codes in Hn; rewrite length_fmap in Hn; cbn in Hn; lia).
  assert (length pad = length (codes s)) as Hl' by (unfold codes; by rewrite length_fmap).
  pose proof (verify_mask pad (codes s) (codes s') Hl' Hp (codes_bytes s) Hne) as Hb.
  destruct (mask_secret pad (codes s)) as [|c cs]; [|].
  - rewrite bool_decide_false; [done|]. intros [= ->]. cbn in Hb. destruct (codes s); [done|]. by rewrite bool_decide_true in Hb.
  - rewrite Hb. apply bool_decide_ext. split; [by intros ->%(inj codes)|by intros [= ->]].
Qed.

(** ** Concrete tokens *)
Definition short_secret : list Z := [115; 51; 99; 114].
Definition short_pad : list Z := [1; 200; 3; 77].
Lemma csrf_tokens_exact_witness :
  verify_csrf (Some short_secret) (Some (mask_secret short_pad short_secret)) = true ∧
  verify_csrf (Some [115; 51]) (Some (mask_secret short_pad short_secret)) = false ∧
  ∃ pad, length pad = 4%nat ∧ b64_decode (mask_secret short_pad short_secret) = Some (pad ++ xor pad short_secret) ∧
    mask_secret short_pad short_secret ≠ short_secret.
Proof.
  assert (Forall is_byte short_pad) as Hp by (repeat constructor; done). assert (Forall is_byte short_secret) as Hs by (repeat constructor; done).
  destruct (csrf_tokens_exact short_secret Hs ltac:(done)) as [Hmask Hsound]. split; [|split].
  - exact (Hmask short_pad short_secret eq_refl Hp).
  - exact (Hmask short_pad [115; 51] eq_refl Hp).
  - apply Hsound. reflexivity.
Defined.
Definition minted : bytes := replicate 43 "A"%char.
Definition cookie_header : list bytes := [b "lang=en; __Host-tlm_presession=" ++ minted].
Lemma presession_bound_witness :
  presession_valid true true cookie_header (Some (mask_secret (replicate 43 9) (codes minted))) = true ∧
  presession_valid true true [b "tlm_presession=" ++ minted] (Some (mask_secret (replicate 43 9) (codes minted))) = false.
Proof.
  assert (Forall is_byte (replicate 43 9)) as Hp by (apply Forall_replicate; done). split.
  - exact (presession_bound true true cookie_header (replicate 43 9) minted eq_refl Hp eq_refl).
  - exact (presession_bound true true [b "tlm_presession=" ++ minted] (replicate 43 9) minted eq_refl Hp eq_refl).
Defined.
