(* ===== verification/IpAddress.v ===== *)
(** * Addresses and networks: the ipaddress module

    What security/ssrf.py, security/pinned_http.py, security/proxy_networks.py and
    security/throttle.py use of Python's [ipaddress]: reading and printing of IPv4 and IPv6
    addresses and networks, membership, and the tables behind [is_private],
    [is_reserved] and the like (Python 3.11).  A text is latin-1.  An address is a number
    below 2^32 or 2^128; an IPv6 address may carry a scope id. *)

From Stdlib Require Import Ascii.
From S2P Require Import Prelude PyTime PyVal Bytes.
From stdpp Require Import options.
Local Open Scope Z_scope.

Inductive ip :=
  | V4 (n : Z)
  | V6 (n : Z) (scope : option bytes).
#[export] Instance ip_eq_dec : EqDecision ip.
Proof. solve_decision. Defined.
Definition ip_int (i : ip) : Z := match i with V4 n | V6 n _ => n end.
Definition is_v6 (i : ip) : bool := match i with V4 _ => false | V6 _ _ => true end.

(** ** Digits *)
Definition hex_digit (n : Z) : ascii := ascii_of_nat (Z.to_nat (if n <? 10 then 48 + n else 87 + n)).
Definition hex_value (c : ascii) : option Z :=
  let n := char_code c in
  if (48 <=? n) && (n <=? 57) then Some (n - 48)
  else if (97 <=? n) && (n <=? 102) then Some (n - 87)
  else if (65 <=? n) && (n <=? 70) then Some (n - 55)
  else None.
Definition digit (c : ascii) : option Z :=
  let n := char_code c in if (48 <=? n) && (n <=? 57) then Some (n - 48) else None.
Fixpoint read_digits (base : Z) (value : ascii → option Z) (acc : Z) (s : bytes) : option Z :=
  match s with
  | [] => Some acc
  | c :: s => match value c with Some d => read_digits base value (acc * base + d) s | None => None end
  end.

(** ** IPv4: [_parse_octet], [_ip_int_from_string], [_string_from_ip_int] *)
Definition parse_octet (s : bytes) : option Z :=
  match s with
  | [] => None
  | c :: rest =>
      if bool_decide (3 < length s)%nat || (Ascii.eqb c "0" && bool_decide (rest ≠ [])) then None
      else match read_digits 10 digit 0 s with Some n => if n <=? 255 then Some n else None | None => None end
  end.
Definition parse_v4_int (s : bytes) : option Z :=
  match split_at_char "." s with
  | [o1; o2; o3; o4] =>
      match parse_octet o1, parse_octet o2, parse_octet o3, parse_octet o4 with
      | Some n1, Some n2, Some n3, Some n4 => Some (((n1 * 256 + n2) * 256 + n3) * 256 + n4)
      | _, _, _, _ => None
      end
  | _ => None
  end.
Definition octet_text (n : Z) : bytes :=
  if n <? 10 then [hex_digit n]
  else if n <? 100 then [hex_digit (n / 10); hex_digit (n mod 10)]
  else [hex_digit (n / 100); hex_digit (n / 10 mod 10); hex_digit (n mod 10)].
Fixpoint join_with (sep : ascii) (l : list bytes) : bytes :=
  match l with
  | [] => []
  | [s] => s
  | s :: l => s ++ sep :: join_with sep l
  end.
Definition v4_text (n : Z) : bytes :=
  join_with "." (octet_text <$> [n / 2 ^ 24 mod 256; n / 2 ^ 16 mod 256; n / 2 ^ 8 mod 256; n mod 256]).

(** ** IPv6: [_parse_hextet], [_ip_int_from_string] *)
Definition parse_hextet (s : bytes) : option Z :=
  if bool_decide (s = []) || bool_decide (4 < length s)%nat then None else read_digits 16 hex_value 0 s.
Definition hextet_text (n : Z) : bytes :=
  if n <? 16 then [hex_digit n]
  else if n <? 256 then [hex_digit (n / 16); hex_digit (n mod 16)]
  else if n <? 4096 then [hex_digit (n / 256); hex_digit (n / 16 mod 16); hex_digit (n mod 16)]
  else [hex_digit (n / 4096); hex_digit (n / 256 mod 16); hex_digit (n / 16 mod 16); hex_digit (n mod 16)].
(** [ip_int <<= 16; ip_int |= hextet] *)
Definition push_hextet (acc h : Z) : Z := Z.lor (Z.shiftl acc 16) h.
Definition join_hextets (acc : Z) (l : list Z) : Z := foldl push_hextet acc l.

(** The IPv4 suffix, as the two hextets it stands for. *)
Definition expand_suffix (parts : list bytes) : option (list bytes) :=
  match last parts with
  | Some p =>
      if bool_decide ("."%char ∈ p) then
        match parse_v4_int p with
        | Some n => Some (removelast parts ++ [hextet_text (n / 2 ^ 16); hextet_text (n mod 2 ^ 16)])
        | None => None
        end
      else Some parts
  | None => Some parts
  end.
(** The indices of the empty parts but the first and the last. *)
Fixpoint empty_parts (i : nat) (l : list bytes) : list nat :=
  match l with
  | [] | [_] => []
  | p :: l => if decide (p = []) then i :: empty_parts (S i) l else empty_parts (S i) l
  end.
(** How many parts stand before and after the [::], or [None] for an error. *)
Definition counts_at (parts : list bytes) (skip : nat) : option (nat * nat) :=
  let hi := skip in
  let lo := (length parts - skip - 1)%nat in
  let first_empty := bool_decide (head parts = Some []) in
  let last_empty := bool_decide (last parts = Some []) in
  let hi := if first_empty then (hi - 1)%nat else hi in
  let lo := if last_empty then (lo - 1)%nat else lo in
  if (first_empty && negb (hi =? 0)%nat) || (last_empty && negb (lo =? 0)%nat) || (8 <=? hi + lo)%nat then None
  else Some (hi, lo).
Definition parse_v6_int (s : bytes) : option Z :=
  if bool_decide (s = []) then None
  else
    let parts := split_at_char ":" s in
    if bool_decide (length parts < 3)%nat then None
    else
      match expand_suffix parts with
      | None => None
      | Some parts =>
          if bool_decide (9 < length parts)%nat then None
          else
            match empty_parts 1 (tail parts) with
            | [] =>
                if negb (length parts =? 8)%nat || bool_decide (head parts = Some []) || bool_decide (last parts = Some []) then None
                else join_hextets 0 <$> mapM parse_hextet parts
            | [skip] =>
                match counts_at parts skip with
                | None => None
                | Some (hi, lo) =>
                    match mapM parse_hextet (take hi parts), mapM parse_hextet (drop (length parts - lo) parts) with
                    | Some high, Some low =>
                        Some (join_hextets (Z.shiftl (join_hextets 0 high) (16 * Z.of_nat (8 - (hi + lo)))) low)
                    | _, _ => None
                    end
                end
            | _ => None
            end
      end.

(** [_compress_hextets], [_string_from_ip_int]: the longest run of zeroes, the first of them. *)
Record zero_state := MkRun { rn_best_start : nat; rn_best_len : nat; rn_start : option nat; rn_len : nat }.
Definition run_step (st : zero_state) (index : nat) (hextet : bytes) : zero_state :=
  if decide (hextet = ["0"%char]) then
    let len := S (rn_len st) in
    let start := default index (rn_start st) in
    if bool_decide (rn_best_len st < len)%nat then MkRun start len (Some start) len
    else MkRun (rn_best_start st) (rn_best_len st) (Some start) len
  else MkRun (rn_best_start st) (rn_best_len st) None 0.
Fixpoint zero_run (st : zero_state) (index : nat) (l : list bytes) : zero_state :=
  match l with
  | [] => st
  | h :: l => zero_run (run_step st index h) (S index) l
  end.
Definition compress_hextets (l : list bytes) : list bytes :=
  let st := zero_run (MkRun 0 0 None 0) 0 l in
  let start := rn_best_start st in
  let stop := (start + rn_best_len st)%nat in
  if bool_decide (1 < rn_best_len st)%nat then
    let l' := take start l ++ [[]] ++ drop stop l ++ (if decide (stop = length l) then [[]] else []) in
    if decide (start = 0%nat) then [] :: l' else l'
  else l.
Definition hextets (n : Z) : list Z := (λ i, Z.shiftr n (16 * (7 - i)) mod 2 ^ 16) <$> seqZ 0 8.
Definition v6_text (n : Z) : bytes := join_with ":" (compress_hextets (hextet_text <$> hextets n)).

(** ** Addresses: [ip_address], [str], [ipv4_mapped] *)
Definition parse_v4 (s : bytes) : option ip := if bool_decide ("/"%char ∈ s) then None else V4 <$> parse_v4_int s.
Definition parse_v6 (s : bytes) : option ip :=
  if bool_decide ("/"%char ∈ s) then None
  else
    match partition_at "%" s with
    | (addr, false, _) => (λ n, V6 n None) <$> parse_v6_int addr
    | (addr, true, scope) =>
        if bool_decide (scope = []) || bool_decide ("%"%char ∈ scope) then None
        else (λ n, V6 n (Some scope)) <$> parse_v6_int addr
    end.
Definition ip_address (s : bytes) : option ip := match parse_v4 s with Some i => Some i | None => parse_v6 s end.
Definition ip_text (i : ip) : bytes :=
  match i with
  | V4 n => v4_text n
  | V6 n None => v6_text n
  | V6 n (Some scope) => v6_text n ++ "%"%char :: scope
  end.
Definition ipv4_mapped (n : Z) : option Z := if Z.shiftr n 32 =? 65535 then Some (n mod 2 ^ 32) else None.

(** ** Networks: [ip_network(..., strict=False)]; a scope id stays when there were no host
    bits to clear. *)
Record network := MkNet { nw_v6 : bool; nw_base : Z; nw_prefix : Z; nw_scope : option bytes }.
#[export] Instance network_eq_dec : EqDecision network.
Proof. solve_decision. Defined.
Definition width (v6 : bool) : Z := if v6 then 128 else 32.
(** [int & netmask]: the host bits cleared *)
Definition masked (v6 : bool) (prefix n : Z) : Z := Z.ldiff n (Z.ones (width v6 - prefix)).
Definition make_network (i : ip) (prefix : Z) : network :=
  let base := masked (is_v6 i) prefix (ip_int i) in
  MkNet (is_v6 i) base prefix (match i with V6 n scope => if base =? n then scope else None | V4 _ => None end).
Definition prefix_from_text (max_prefix : Z) (s : bytes) : option Z :=
  if bool_decide (s = []) then None
  else match read_digits 10 digit 0 s with Some n => if n <=? max_prefix then Some n else None | None => None end.
(** [_prefix_from_ip_string]: a netmask, or else a hostmask *)
Definition prefix_from_mask (s : bytes) : option Z :=
  match parse_v4_int s with
  | None => None
  | Some m =>
      match List.find (λ p, m =? masked false p (Z.ones 32)) (seqZ 0 33) with
      | Some p => Some p
      | None => List.find (λ p, Z.lxor m (Z.ones 32) =? masked false p (Z.ones 32)) (seqZ 0 33)
      end
  end.
Definition v4_network (s : bytes) : option network :=
  match split_at_char "/" s with
  | [addr] => i ← parse_v4 addr; Some (make_network i 32)
  | [addr; mask] =>
      i ← parse_v4 addr;
      p ← match prefix_from_text 32 mask with Some p => Some p | None => prefix_from_mask mask end;
      Some (make_network i p)
  | _ => None
  end.
Definition v6_network (s : bytes) : option network :=
  match split_at_char "/" s with
  | [addr] => i ← parse_v6 addr; Some (make_network i 128)
  | [addr; mask] => i ← parse_v6 addr; p ← prefix_from_text 128 mask; Some (make_network i p)
  | _ => None
  end.
Definition ip_network (s : bytes) : option network := match v4_network s with Some w => Some w | None => v6_network s end.
(** [str(network)]; a prefix length is below 256 *)
Definition network_text (w : network) : bytes :=
  ip_text (if nw_v6 w then V6 (nw_base w) (nw_scope w) else V4 (nw_base w)) ++ "/"%char :: octet_text (nw_prefix w).
(** [ip in net] *)
Definition in_network (i : ip) (w : network) : bool :=
  Bool.eqb (is_v6 i) (nw_v6 w) && (masked (nw_v6 w) (nw_prefix w) (ip_int i) =? nw_base w).
Definition in_any (i : ip) (networks : list network) : bool := existsb (in_network i) networks.

(** ** The special ranges *)
Definition networks (l : list string) : list network := omap (λ s, ip_network (b s)) l.
Definition PRIVATE_NETWORKS : list network := networks
  ["0.0.0.0/8"; "10.0.0.0/8"; "127.0.0.0/8"; "169.254.0.0/16"; "172.16.0.0/12"; "192.0.0.0/24"; "192.0.0.170/31"; "192.0.2.0/24";
   "192.168.0.0/16"; "198.18.0.0/15"; "198.51.100.0/24"; "203.0.113.0/24"; "240.0.0.0/4"; "255.255.255.255/32";
   "::1/128"; "::/128"; "::ffff:0:0/96"; "64:ff9b:1::/48"; "100::/64"; "2001::/23"; "2001:db8::/32"; "2002::/16"; "fc00::/7"; "fe80::/10"]%string.
Definition PRIVATE_EXCEPTIONS : list network := networks
  ["192.0.0.9/32"; "192.0.0.10/32"; "2001:1::1/128"; "2001:1::2/128"; "2001:3::/32"; "2001:4:112::/48"; "2001:20::/28"; "2001:30::/28"]%string.
Definition RESERVED_NETWORKS : list network := networks
  ["240.0.0.0/4"; "::/8"; "100::/8"; "200::/7"; "400::/6"; "800::/5"; "1000::/4"; "4000::/3"; "6000::/3"; "8000::/3"; "a000::/3"; "c000::/3";
   "e000::/4"; "f000::/5"; "f800::/6"; "fe00::/9"]%string.
(** The tables of the two versions in one: membership looks at the version. *)
Definition is_private (i : ip) : bool := in_any i PRIVATE_NETWORKS && negb (in_any i PRIVATE_EXCEPTIONS).
Definition is_reserved (i : ip) : bool := in_any i RESERVED_NETWORKS.
Definition is_multicast (i : ip) : bool := in_any i (networks ["224.0.0.0/4"; "ff00::/8"]%string).
Definition is_loopback (i : ip) : bool := match i with V4 _ => in_any i (networks ["127.0.0.0/8"]%string) | V6 n _ => n =? 1 end.
Definition is_link_local (i : ip) : bool := in_any i (networks ["169.254.0.0/16"; "fe80::/10"]%string).
Definition is_unspecified (i : ip) : bool := ip_int i =? 0.
