(* ===== verification/IpAddressFacts.v ===== *)
(** * Addresses: printing and reading are inverse, membership is an interval *)

From Stdlib Require Import Ascii.
From S2P Require Import Prelude PyTime PyVal Bytes IpAddress.
From stdpp Require Import options.
Local Open Scope Z_scope.

(** ** Digits *)
Definition hex_char (c : ascii) : Prop := is_Some (hex_value c).
Lemma hex_digit_code n : 0 ≤ n < 16 → char_code (hex_digit n) = if n <? 10 then 48 + n else 87 + n.
Proof.
  intros Hn. unfold char_code, hex_digit. rewrite nat_ascii_embedding; destruct (Z.ltb_spec n 10); lia.
Qed.
Lemma hex_value_digit n : 0 ≤ n < 16 → hex_value (hex_digit n) = Some n.
Proof.
  intros Hn. unfold hex_value. rewrite hex_digit_code by done. destruct (Z.ltb_spec n 10).
  - rewrite (proj2 (Z.leb_le _ _)), (proj2 (Z.leb_le _ _)) by lia. cbn. f_equal. lia.
  - rewrite (proj2 (Z.leb_le 48 _)), (proj2 (Z.leb_gt _ 57)) by lia. cbn [andb].
    rewrite (proj2 (Z.leb_le 97 _)), (proj2 (Z.leb_le _ 102)) by lia. cbn. f_equal. lia.
Qed.
Lemma digit_digit n : 0 ≤ n < 10 → digit (hex_digit n) = Some n.
Proof.
  intros Hn. unfold digit. rewrite hex_digit_code by lia. rewrite (proj2 (Z.ltb_lt n 10)) by lia.
  rewrite (proj2 (Z.leb_le _ _)), (proj2 (Z.leb_le _ _)) by lia. cbn. f_equal. lia.
Qed.
Lemma hex_digit_char n : 0 ≤ n < 16 → hex_char (hex_digit n).
Proof. intros Hn. unfold hex_char. rewrite hex_value_digit by done. by eexists. Qed.
Lemma hex_no_char c s : hex_value c = None → Forall hex_char s → c ∉ s.
Proof. intros Hc Hs Hin. rewrite Forall_forall in Hs. destruct (Hs c Hin) as [x Hx]. congruence. Qed.

(** ** Octets and hextets *)
Lemma octet_text_hex n : 0 ≤ n < 256 → Forall hex_char (octet_text n).
Proof.
  intros Hn. unfold octet_text. destruct (Z.ltb_spec n 10); [|destruct (Z.ltb_spec n 100)]; repeat constructor; apply hex_digit_char; divmod.
Qed.
Lemma hex_digit_zero n : 0 ≤ n < 16 → Ascii.eqb (hex_digit n) "0" = (n =? 0).
Proof.
  intros Hn. destruct (Z.eqb_spec n 0) as [->|Hne]; [done|]. apply Ascii.eqb_neq. intros Heq.
  apply (f_equal char_code) in Heq. rewrite hex_digit_code in Heq by done. destruct (n <? 10); change (char_code "0") with 48 in Heq; lia.
Qed.
Lemma read_octet_text n : 0 ≤ n < 256 → read_digits 10 digit 0 (octet_text n) = Some n.
Proof.
  intros Hn. unfold octet_text. destruct (Z.ltb_spec n 10); [|destruct (Z.ltb_spec n 100)]; cbn [read_digits]; rewrite !digit_digit by divmod; f_equal; divmod.
Qed.
Lemma parse_octet_text n : 0 ≤ n < 256 → parse_octet (octet_text n) = Some n.
Proof.
  intros Hn. pose proof (read_octet_text n Hn) as Hr. unfold octet_text, parse_octet in *.
  destruct (Z.ltb_spec n 10); [|destruct (Z.ltb_spec n 100)]; rewrite Hr; cbn [length]; rewrite hex_digit_zero by divmod;
    rewrite bool_decide_false by lia; cbn [orb].
  - rewrite bool_decide_false, andb_false_r by (intros []; done). by rewrite (proj2 (Z.leb_le _ _)) by lia.
  - rewrite (proj2 (Z.eqb_neq _ _)) by divmod. cbn [andb]. by rewrite (proj2 (Z.leb_le _ _)) by lia.
  - rewrite (proj2 (Z.eqb_neq _ _)) by divmod. cbn [andb]. by rewrite (proj2 (Z.leb_le _ _)) by lia.
Qed.
Lemma hextet_text_hex n : 0 ≤ n < 65536 → Forall hex_char (hextet_text n).
Proof.
  intros Hn. unfold hextet_text. destruct (Z.ltb_spec n 16); [|destruct (Z.ltb_spec n 256); [|destruct (Z.ltb_spec n 4096)]];
    repeat constructor; apply hex_digit_char; divmod.
Qed.
Lemma hextet_text_nonempty n : hextet_text n ≠ [].
Proof. unfold hextet_text. by repeat case_match. Qed.
Lemma parse_hextet_text n : 0 ≤ n < 65536 → parse_hextet (hextet_text n) = Some n.
Proof.
  intros Hn. unfold parse_hextet. rewrite bool_decide_false by apply hextet_text_nonempty. unfold hextet_text.
  destruct (Z.ltb_spec n 16); [|destruct (Z.ltb_spec n 256); [|destruct (Z.ltb_spec n 4096)]]; cbn [length read_digits];
    rewrite bool_decide_false by lia; cbn [orb]; rewrite !hex_value_digit by divmod; f_equal; divmod.
Qed.

(** ** Splitting what was joined *)
Lemma split_no_sep c s : c ∉ s → split_at_char c s = [s].
Proof.
  induction s as [|x s IH]; intros Hc; [done|]. apply not_elem_of_cons in Hc as [Hx Hs]. cbn.
  rewrite IH by done. by destruct (Ascii.eqb_spec x c) as [->|].
Qed.
Lemma split_app_sep c s t : c ∉ s → split_at_char c (s ++ c :: t) = s :: split_at_char c t.
Proof.
  induction s as [|x s IH]; intros Hc; cbn; [by rewrite Ascii.eqb_refl|]. apply not_elem_of_cons in Hc as [Hx Hs].
  rewrite IH by done. by destruct (Ascii.eqb_spec x c) as [->|].
Qed.
Lemma split_join c l : l ≠ [] → Forall (λ s, c ∉ s) l → split_at_char c (join_with c l) = l.
Proof.
  induction l as [|s [|s' l] IH]; intros Hne Hl; [done| |]; inversion_clear Hl as [|? ? Hs Hrest].
  - by apply split_no_sep.
  - change (join_with c (s :: s' :: l)) with (s ++ c :: join_with c (s' :: l)). rewrite split_app_sep, IH; done.
Qed.
Lemma join_chars (P : ascii → Prop) c l : P c → Forall (Forall P) l → Forall P (join_with c l).
Proof.
  intros Hc. induction l as [|s [|s' l] IH]; intros Hl; [constructor| |]; inversion_clear Hl as [|? ? Hs Hrest]; [done|].
  change (join_with c (s :: s' :: l)) with (s ++ c :: join_with c (s' :: l)). apply Forall_app. split; [done|]. constructor; auto.
Qed.

(** ** IPv4 *)
Lemma v4_octets n : 0 ≤ n < 2 ^ 32 →
  Forall (λ o, 0 ≤ o < 256) [n / 2 ^ 24 mod 256; n / 2 ^ 16 mod 256; n / 2 ^ 8 mod 256; n mod 256].
Proof. intros Hn. repeat constructor; divmod. Qed.
Lemma parse_v4_text n : 0 ≤ n < 2 ^ 32 → parse_v4_int (v4_text n) = Some n.
Proof.
  intros Hn. unfold parse_v4_int, v4_text. pose proof (v4_octets n Hn) as Ho. rewrite split_join; [|done|].
  - cbn [fmap list_fmap]. decompose_Forall_hyps. rewrite !parse_octet_text by done. f_equal. divmod.
  - apply Forall_fmap. eapply Forall_impl; [exact Ho|]. intros o Hr. by apply hex_no_char, octet_text_hex.
Qed.
Definition v4_char (c : ascii) : Prop := hex_char c ∨ c = "."%char.
Lemma v4_text_chars n : 0 ≤ n < 2 ^ 32 → Forall v4_char (v4_text n).
Proof.
  intros Hn. apply join_chars; [by right|]. apply Forall_fmap. eapply Forall_impl; [exact (v4_octets n Hn)|].
  intros o Ho. eapply Forall_impl; [exact (octet_text_hex o Ho)|]. by left.
Qed.

(** ** Hextets *)
Lemma land_shifted a h k : 0 ≤ k → 0 ≤ h < 2 ^ k → Z.land (Z.shiftl a k) h = 0.
Proof.
  intros Hk Hh. apply Z.bits_inj'. intros i Hi. rewrite Z.land_spec, Z.bits_0, Z.shiftl_spec by done.
  destruct (decide (i < k)) as [Hlt|Hge]; [by rewrite Z.testbit_neg_r by lia|].
  rewrite <- (Z.mod_small h (2 ^ k)) by done. rewrite Z.mod_pow2_bits_high by lia. apply andb_false_r.
Qed.
Lemma push_hextet_add acc h : 0 ≤ h < 65536 → push_hextet acc h = acc * 65536 + h.
Proof.
  intros Hh. unfold push_hextet. pose proof (land_shifted acc h 16 ltac:(lia) Hh) as H0.
  rewrite <- Z.lxor_lor, <- Z.add_nocarry_lxor by done. by rewrite Z.shiftl_mul_pow2 by lia.
Qed.
Definition is_hextet (h : Z) : Prop := 0 ≤ h < 65536.
Lemma hextets_range n : Forall is_hextet (hextets n).
Proof. unfold hextets, is_hextet. apply Forall_fmap, Forall_true. intros i. cbn. apply Z.mod_pos_bound. lia. Qed.
Lemma hextets_length n : length (hextets n) = 8%nat.
Proof. unfold hextets. by rewrite length_fmap, length_seqZ. Qed.
Lemma join_hextets_app acc l l' : join_hextets acc (l ++ l') = join_hextets (join_hextets acc l) l'.
Proof. apply foldl_app. Qed.
Lemma join_zeroes acc k : join_hextets acc (replicate k 0) = Z.shiftl acc (16 * Z.of_nat k).
Proof.
  revert acc. induction k as [|k IH]; intros acc; [done|]. cbn [replicate]. change (join_hextets acc (0 :: replicate k 0))
    with (join_hextets (push_hextet acc 0) (replicate k 0)). rewrite IH. unfold push_hextet. rewrite Z.lor_0_r, Z.shiftl_shiftl by lia.
  f_equal. lia.
Qed.
Lemma join_hextets_of n : 0 ≤ n < 2 ^ 128 → join_hextets 0 (hextets n) = n.
Proof.
  intros Hn. unfold hextets. change (seqZ 0 8) with [0; 1; 2; 3; 4; 5; 6; 7]. cbn [fmap list_fmap]. rewrite !Z.shiftr_div_pow2 by lia.
  unfold join_hextets. cbn [foldl]. rewrite !push_hextet_add by (apply Z.mod_pos_bound; lia). divmod.
Qed.

(** ** The run of zeroes that is left out *)
Definition all_at {A} (x : A) (l : list A) (start len : nat) : Prop := ∀ i, (start ≤ i < start + len)%nat → l !! i = Some x.
Notation zeroes_at := (all_at ["0"%char]).
Record run_ok (pre : list bytes) (st : zero_state) : Prop := {
  ro_best : (rn_best_start st + rn_best_len st ≤ length pre)%nat;
  ro_zeroes : zeroes_at pre (rn_best_start st) (rn_best_len st);
  ro_current : match rn_start st with
               | Some s => (s + rn_len st = length pre)%nat ∧ zeroes_at pre s (rn_len st)
               | None => rn_len st = 0%nat
               end;
}.
Lemma zeroes_app l x start len : (start + len ≤ length l)%nat → zeroes_at l start len → zeroes_at (l ++ [x]) start len.
Proof. intros Hl Hz i Hi. rewrite lookup_app_l by lia. by apply Hz. Qed.
Lemma run_step_ok pre st h : run_ok pre st → run_ok (pre ++ [h]) (run_step st (length pre) h).
Proof.
  intros [Hb Hz Hc]. pose proof (zeroes_app pre h _ _ Hb Hz) as Hz'. unfold run_step. destruct (decide _) as [->|_].
  - assert (∃ s, default (length pre) (rn_start st) = s ∧ (s + S (rn_len st) = length (pre ++ [["0"%char]]))%nat ∧
              zeroes_at (pre ++ [["0"%char]]) s (S (rn_len st))) as (s & -> & Hs & Hsz).
    { exists (default (length pre) (rn_start st)). rewrite length_app. cbn [length]. destruct (rn_start st) as [s|]; cbn; (split; [done|]).
      - destruct Hc as [Hs Hsz]. split; [lia|]. intros i Hi. destruct (decide (i = length pre)) as [->|Hne]; [by rewrite list_lookup_middle|].
        rewrite lookup_app_l by lia. apply Hsz. lia.
      - rewrite Hc. split; [lia|]. intros i Hi. assert (i = length pre) as -> by lia. by rewrite list_lookup_middle. }
    rewrite length_app in Hs. cbn [length] in Hs. case_bool_decide; split; cbn [rn_best_start rn_best_len rn_start rn_len];
      rewrite ?length_app; cbn [length]; first [lia|done|split; [lia|done]].
  - split; cbn [rn_best_start rn_best_len rn_start rn_len]; [rewrite length_app; lia|done|done].
Qed.
Lemma zero_run_ok l pre st : run_ok pre st → run_ok (pre ++ l) (zero_run st (length pre) l).
Proof.
  revert pre st. induction l as [|h l IH]; intros pre st Hok; cbn [zero_run]; [by rewrite app_nil_r|].
  specialize (IH (pre ++ [h]) (run_step st (length pre) h) (run_step_ok _ _ _ Hok)). rewrite length_app, Nat.add_1_r, <- app_assoc in IH. exact IH.
Qed.
Lemma all_at_cut {A} (x : A) l start len :
  (start + len ≤ length l)%nat → all_at x l start len → l = take start l ++ replicate len x ++ drop (start + len) l.
Proof.
  intros Hle Hz. rewrite <- (take_drop start l) at 1. f_equal. rewrite <- (take_drop len (drop start l)), drop_drop. f_equal.
  symmetry. apply replicate_as_elem_of. rewrite length_take, length_drop. split; [lia|]. intros y [i Hi]%list_elem_of_lookup.
  apply lookup_take_Some in Hi as [Hi Hlt]. rewrite lookup_drop in Hi. rewrite Hz in Hi by lia. congruence.
Qed.

(** ** Reading back what was printed *)
Lemma empty_parts_skip i l rest : Forall (.≠ []) l → rest ≠ [] → empty_parts i (l ++ rest) = empty_parts (i + length l) rest.
Proof.
  revert i. induction l as [|p l IH]; intros i Hl Hr; cbn [app length]; [by rewrite Nat.add_0_r|].
  inversion_clear Hl as [|? ? Hp Hrest]. destruct (l ++ rest) as [|q t] eqn:He; [by apply app_nil in He as [_ ->]|].
  change (empty_parts i (p :: q :: t)) with (if decide (p = []) then i :: empty_parts (S i) (q :: t) else empty_parts (S i) (q :: t)).
  rewrite decide_False by done. rewrite IH by done. f_equal. lia.
Qed.
Lemma empty_parts_none i l : Forall (.≠ []) l → empty_parts i l = [].
Proof.
  destruct (decide (l = [])) as [->|Hne]; [done|]. intros Hl. destruct (exists_last Hne) as (l' & p & ->).
  apply Forall_app in Hl as [Hl _]. by rewrite empty_parts_skip.
Qed.
Lemma empty_parts_cons i rest : rest ≠ [] → empty_parts i ([] :: rest) = i :: empty_parts (S i) rest.
Proof. by destruct rest. Qed.
Definition texts (l : list Z) : list bytes := hextet_text <$> l.
Lemma texts_length l : length (texts l) = length l.
Proof. apply length_fmap. Qed.
Lemma texts_nonempty l : Forall (.≠ []) (texts l).
Proof. apply Forall_fmap, Forall_true. intros h. apply hextet_text_nonempty. Qed.
Lemma texts_hex l : Forall is_hextet l → Forall (Forall hex_char) (texts l).
Proof. intros Hl. apply Forall_fmap. eapply Forall_impl; [exact Hl|]. apply hextet_text_hex. Qed.
Lemma parse_texts l : Forall is_hextet l → mapM parse_hextet (texts l) = Some l.
Proof.
  intros Hl. apply mapM_Some_2, Forall2_fmap_l, Forall_Forall2_diag. eapply Forall_impl; [exact Hl|]. apply parse_hextet_text.
Qed.

(** The second half of the reader, on the parts of a text that has only hex digits in them. *)
Definition parse_parts (parts : list bytes) : option Z :=
  match empty_parts 1 (tail parts) with
  | [] =>
      if negb (length parts =? 8)%nat || bool_decide (head parts = Some []) || bool_decide (last parts = Some []) then None
      else join_hextets 0 <$> mapM parse_hextet parts
  | [skip] =>
      match counts_at parts skip with
      | None => None
      | Some (hi, lo) =>
          match mapM parse_hextet (take hi parts), mapM parse_hextet (drop (length parts - lo) parts) with
          | Some high, Some low => Some (join_hextets (Z.shiftl (join_hextets 0 high) (16 * Z.of_nat (8 - (hi + lo)))) low)
          | _, _ => None
          end
      end
  | _ => None
  end.
Lemma parse_v6_parts parts :
  (3 ≤ length parts ≤ 9)%nat → Forall (Forall hex_char) parts → parse_v6_int (join_with ":" parts) = parse_parts parts.
Proof.
  intros Hlen Hhex. assert (split_at_char ":" (join_with ":" parts) = parts) as Hs.
  { apply split_join; [intros ->; cbn in Hlen; lia|]. eapply Forall_impl; [exact Hhex|]. intros s. by apply hex_no_char. }
  unfold parse_v6_int. rewrite Hs. rewrite bool_decide_false by (intros He; rewrite He in Hs; subst parts; cbn in Hlen; lia).
  rewrite bool_decide_false by lia. assert (expand_suffix parts = Some parts) as ->.
  { unfold expand_suffix. destruct (last parts) as [p|] eqn:Hp; [|done]. rewrite bool_decide_false; [done|].
    apply hex_no_char; [done|]. rewrite Forall_forall in Hhex. apply Hhex. by apply last_Some_elem_of. }
  by rewrite bool_decide_false by lia.
Qed.
Lemma parse_full l : Forall is_hextet l → length l = 8%nat → parse_parts (texts l) = Some (join_hextets 0 l).
Proof.
  intros Hl H8. unfold parse_parts. pose proof (texts_nonempty l) as Hne. rewrite empty_parts_none by (destruct (texts l); [done|by inversion_clear Hne]).
  rewrite texts_length, H8, Nat.eqb_refl. rewrite parse_texts by done. cbn [negb orb].
  rewrite bool_decide_false, bool_decide_false; [done|..].
  - intros He%last_Some_elem_of. rewrite Forall_forall in Hne. by apply (Hne []).
  - intros He%head_Some_elem_of. rewrite Forall_forall in Hne. by apply (Hne []).
Qed.
(** The four shapes of a text with a [::]: something before it or not, something after it
    or not. *)
Definition with_gap (pre post : list Z) : list bytes :=
  (if decide (pre = []) then [[]] else []) ++ texts pre ++ [[]] ++ texts post ++ (if decide (post = []) then [[]] else []).
Lemma last_texts_ne (l : list Z) : l ≠ [] → last (texts l) ≠ Some [].
Proof. intros _ He%last_Some_elem_of. pose proof (texts_nonempty l) as Hne. rewrite Forall_forall in Hne. by apply (Hne []). Qed.
Lemma gap_skip pre post :
  empty_parts 1 (tail (with_gap pre post)) = [if decide (pre = []) then 1%nat else length pre].
Proof.
  unfold with_gap.
  assert (∀ i, empty_parts i (texts post ++ (if decide (post = []) then [[]] else [])) = []) as Hpost.
  { intros i. destruct (decide (post = [])) as [->|_]; [done|]. rewrite app_nil_r. apply empty_parts_none, texts_nonempty. }
  assert (texts post ++ (if decide (post = []) then [[]] else []) ≠ []) as Hrest by (by destruct post).
  destruct (decide (pre = [])) as [->|Hpre]; cbn [app tail texts fmap list_fmap].
  - by rewrite empty_parts_cons, Hpost.
  - destruct pre as [|h pre]; [done|]. cbn [texts fmap list_fmap app tail length].
    rewrite (empty_parts_skip 1 (texts pre)) by (done || apply texts_nonempty). rewrite empty_parts_cons, Hpost by done.
    rewrite texts_length. f_equal.
Qed.
Lemma gap_counts pre post :
  (length pre + length post < 8)%nat →
  counts_at (with_gap pre post) (if decide (pre = []) then 1%nat else length pre) = Some (length pre, length post).
Proof.
  intros Hlt. unfold counts_at, with_gap.
  assert (∀ l : list bytes, l ≠ [] → ∀ q, last (q ++ l) = last l) as Hlast.
  { intros l Hl q. rewrite last_app. by destruct (last l) eqn:He; [|apply last_None in He]. }
  assert (bool_decide (last (with_gap pre post) = Some []) = bool_decide (post = [])) as Hl.
  { apply bool_decide_ext. unfold with_gap. rewrite (app_assoc (texts pre)), (app_assoc _ (texts pre ++ [[]])), Hlast by (by destruct post).
    destruct (decide (post = [])) as [->|Hpost]; [done|]. rewrite app_nil_r. split; [|done]. intros He. by destruct (last_texts_ne post Hpost). }
  unfold with_gap in Hl. rewrite Hl. destruct (decide (pre = [])) as [->|Hpre].
  - rewrite bool_decide_true by done. rewrite !length_app. rewrite !texts_length. cbn [length].
    destruct (decide (post = [])) as [->|Hpost]; cbn [length bool_decide decide_rel]; [done|]. rewrite bool_decide_false by done. cbn [andb negb orb].
    replace (1 + (0 + (1 + (length post + 0))) - 1 - 1)%nat with (length post) by lia. cbn [Nat.sub Nat.eqb negb andb orb Nat.add].
    by rewrite (proj2 (Nat.leb_gt _ _)) by (cbn in Hlt; lia).
  - rewrite bool_decide_false by (destruct pre as [|h pre]; [done|]; cbn; intros [= He]; by apply hextet_text_nonempty in He).
    rewrite !length_app. rewrite !texts_length. cbn [length andb orb].
    destruct (decide (post = [])) as [->|Hpost].
    + cbn [length]. rewrite bool_decide_true by done. replace (0 + (length pre + (1 + (0 + 1))) - length pre - 1 - 1)%nat with 0%nat by lia.
      cbn [Nat.eqb negb andb orb]. cbn in Hlt. by rewrite (proj2 (Nat.leb_gt _ _)) by lia.
    + rewrite bool_decide_false by done. cbn [andb orb length].
      replace (0 + (length pre + (1 + (length post + 0))) - length pre - 1)%nat with (length post) by lia.
      by rewrite (proj2 (Nat.leb_gt _ _)) by lia.
Qed.
Lemma gap_halves pre post :
  take (length pre) (with_gap pre post) = texts pre ∧
  drop (length (with_gap pre post) - length post) (with_gap pre post) = texts post.
Proof.
  unfold with_gap. split.
  - destruct (decide (pre = [])) as [->|_]; [done|]. cbn [app]. rewrite take_app_le by (rewrite texts_length; lia).
    apply take_ge. rewrite texts_length. lia.
  - destruct (decide (post = [])) as [->|_]; [cbn [length]; rewrite Nat.sub_0_r; apply drop_all|]. rewrite app_nil_r, !app_assoc.
    apply drop_app_length'. rewrite !length_app. rewrite !texts_length. lia.
Qed.
Lemma parse_gap pre post k :
  Forall is_hextet pre → Forall is_hextet post → (0 < k)%nat → (length pre + k + length post = 8)%nat →
  parse_parts (with_gap pre post) = Some (join_hextets 0 (pre ++ replicate k 0 ++ post)).
Proof.
  intros Hpre Hpost Hk H8. unfold parse_parts. rewrite gap_skip, gap_counts by lia. destruct (gap_halves pre post) as [-> ->].
  rewrite !parse_texts by done. rewrite !join_hextets_app, join_zeroes. do 3 f_equal. lia.
Qed.
Lemma hextet_text_zero h : is_hextet h → hextet_text h = ["0"%char] → h = 0.
Proof. intros Hh He. pose proof (parse_hextet_text h Hh) as Hp. rewrite He in Hp. vm_compute in Hp. congruence. Qed.
Lemma texts_all_at l start len : Forall is_hextet l → zeroes_at (texts l) start len → all_at 0 l start len.
Proof.
  intros Hl Hz i Hi. specialize (Hz i Hi). unfold texts in Hz. rewrite list_lookup_fmap in Hz. destruct (l !! i) as [h|] eqn:Hh; [|done].
  cbn in Hz. injection Hz as Hz. f_equal. apply hextet_text_zero; [|done]. by eapply Forall_lookup_1.
Qed.
Lemma compress_shape l :
  Forall is_hextet l →
  compress_hextets (texts l) = texts l ∨
  ∃ pre k post, l = pre ++ replicate k 0 ++ post ∧ (1 < k)%nat ∧ compress_hextets (texts l) = with_gap pre post.
Proof.
  intros Hl. unfold compress_hextets. set (st := zero_run _ _ _).
  assert (run_ok (texts l) st) as [Hb Hz _].
  { apply (zero_run_ok (texts l) [] (MkRun 0 0 None 0)). split; cbn; [lia| |done]. intros i Hi. cbn in Hi. lia. }
  case_bool_decide as Hk; [right|by left]. rewrite texts_length in Hb. pose proof (texts_all_at l _ _ Hl Hz) as Hz'.
  pose proof (all_at_cut 0 l _ _ Hb Hz') as Hcut. exists (take (rn_best_start st) l), (rn_best_len st), (drop (rn_best_start st + rn_best_len st) l).
  split_and!; [done|done|]. unfold with_gap, texts. rewrite !fmap_take, !fmap_drop, length_fmap.
  assert (take (rn_best_start st) l = [] ↔ rn_best_start st = 0%nat) as Hpre.
  { split; [|by intros ->]. intros He%(f_equal length). rewrite length_take in He. cbn in He. lia. }
  assert (drop (rn_best_start st + rn_best_len st) l = [] ↔ (rn_best_start st + rn_best_len st = length l)%nat) as Hpost.
  { split; [|intros ->; apply drop_all]. intros He%(f_equal length). rewrite length_drop in He. cbn in He. lia. }
  rewrite (decide_ext _ _ _ _ Hpre), (decide_ext _ _ _ _ Hpost). by destruct (decide (rn_best_start st = 0%nat)).
Qed.

(** ** IPv6 *)
Definition v6_char (c : ascii) : Prop := hex_char c ∨ c = ":"%char.
Lemma v6_parts n : ∃ parts, v6_text n = join_with ":" parts ∧ (3 ≤ length parts ≤ 9)%nat ∧ Forall (Forall hex_char) parts ∧
  parse_parts parts = Some (join_hextets 0 (hextets n)).
Proof.
  unfold v6_text. exists (compress_hextets (texts (hextets n))). split; [done|].
  pose proof (hextets_range n) as Hr. pose proof (hextets_length n) as H8. destruct (compress_shape _ Hr) as [->|(pre & k & post & Hl & Hk & ->)].
  - rewrite texts_length, H8. split_and!; [lia|lia|by apply texts_hex|by apply parse_full].
  - rewrite Hl in Hr, H8. apply Forall_app in Hr as [Hpre [_ Hpost]%Forall_app]. rewrite !length_app, length_replicate in H8.
    split_and!; [..|rewrite Hl; apply parse_gap; (done || lia)].
    + unfold with_gap. rewrite !length_app, !texts_length. repeat case_decide; cbn [length]; destruct pre, post; cbn [length]; first [done|lia].
    + unfold with_gap. rewrite !length_app, !texts_length. repeat case_decide; cbn [length]; destruct pre, post; cbn [length] in *; first [done|lia].
    + unfold with_gap. repeat (apply Forall_app; split); try (by apply texts_hex); by repeat case_decide; repeat constructor.
Qed.
Lemma parse_v6_text n : 0 ≤ n < 2 ^ 128 → parse_v6_int (v6_text n) = Some n.
Proof.
  intros Hn. destruct (v6_parts n) as (parts & -> & Hlen & Hhex & Hp). by rewrite parse_v6_parts, Hp, join_hextets_of.
Qed.
Lemma v6_text_chars n : Forall v6_char (v6_text n).
Proof.
  destruct (v6_parts n) as (parts & -> & _ & Hhex & _). apply join_chars; [by right|]. eapply Forall_impl; [exact Hhex|].
  intros s Hs. eapply Forall_impl; [exact Hs|]. by left.
Qed.

(** ** What can be read *)
Definition ip_ok (i : ip) : Prop :=
  match i with
  | V4 n => 0 ≤ n < 2 ^ 32
  | V6 n scope => 0 ≤ n < 2 ^ 128 ∧ match scope with Some s => s ≠ [] ∧ "%"%char ∉ s ∧ "/"%char ∉ s | None => True end
  end.
Lemma read_digits_range base value s acc n :
  0 < base → (∀ c d, value c = Some d → 0 ≤ d < base) → 0 ≤ acc → read_digits base value acc s = Some n →
  0 ≤ n < (acc + 1) * base ^ Z.of_nat (length s).
Proof.
  intros Hb Hv. revert acc. induction s as [|c s IH]; intros acc Hacc; cbn [read_digits length].
  - intros [= <-]. rewrite Z.pow_0_r. lia.
  - destruct (value c) as [d|] eqn:Hd; [|done]. intros Hr. apply Hv in Hd. apply IH in Hr; [|nia].
    rewrite Nat2Z.inj_succ, Z.pow_succ_r by lia. pose proof (Z.pow_pos_nonneg base (Z.of_nat (length s)) Hb ltac:(lia)). nia.
Qed.
Lemma read_digits_all base value s acc n c : read_digits base value acc s = Some n → c ∈ s → is_Some (value c).
Proof.
  revert acc. induction s as [|x s IH]; intros acc; cbn [read_digits]; [by intros _ ?%elem_of_nil|].
  destruct (value x) as [d|] eqn:Hd; [|done]. intros Hr [->|Hc]%elem_of_cons; [by eexists|by eapply IH].
Qed.
Lemma digit_range c d : digit c = Some d → 0 ≤ d < 10.
Proof. unfold digit. destruct (_ && _) eqn:Hb; [|done]. intros [= <-]. lia. Qed.
Lemma hex_value_range c d : hex_value c = Some d → 0 ≤ d < 16.
Proof. unfold hex_value. repeat case_match; intros [= <-]; lia. Qed.
Lemma parse_octet_spec s n : parse_octet s = Some n → 0 ≤ n < 256 ∧ ∀ c, c ∈ s → is_Some (digit c).
Proof.
  destruct s as [|x s]; [done|]. unfold parse_octet. destruct (_ || _); [done|]. destruct (read_digits _ _ _ _) as [m|] eqn:Hr; [|done].
  destruct (Z.leb_spec m 255); [|done]. intros [= <-]. split; [|intros c; by eapply read_digits_all].
  apply read_digits_range in Hr; [lia|lia|exact digit_range|lia].
Qed.
Lemma parse_hextet_range s n : parse_hextet s = Some n → is_hextet n.
Proof.
  unfold parse_hextet. destruct (bool_decide_reflect (s = [])); [done|]. destruct (bool_decide_reflect (4 < length s)%nat) as [|Hl]; [done|].
  cbn [orb]. intros Hr. apply read_digits_range in Hr; [|lia|exact hex_value_range|lia]. unfold is_hextet. split; [lia|].
  eapply Z.lt_le_trans; [apply Hr|]. rewrite Z.mul_1_l. apply (Z.pow_le_mono_r 16 _ 4); lia.
Qed.
Lemma split_elem c x s : x ≠ c → x ∈ s → ∃ p, p ∈ split_at_char c s ∧ x ∈ p.
Proof.
  intros Hx. induction s as [|y s IH]; [by intros ?%elem_of_nil|]. intros [->|Hin]%elem_of_cons; cbn.
  - destruct (Ascii.eqb_spec y c) as [|_]; [done|]. destruct (split_at_char c s) as [|q l]; eexists; (split; [by left|by left]).
  - destruct (IH Hin) as (p & Hp & Hxp). destruct (Ascii.eqb_spec y c) as [_|_]; [exists p; by split; [right|]|].
    destruct (split_at_char c s) as [|q l]; [by apply elem_of_nil in Hp|]. apply elem_of_cons in Hp as [->|Hp].
    + exists (y :: q). split; [by left|by right].
    + exists p. split; [by right|done].
Qed.
Lemma parse_v4_spec s n : parse_v4_int s = Some n → 0 ≤ n < 2 ^ 32 ∧ ":"%char ∉ s.
Proof.
  unfold parse_v4_int. destruct (split_at_char _ _) as [|o1 [|o2 [|o3 [|o4 [|]]]]] eqn:Hs; try done.
  destruct (parse_octet o1) as [n1|] eqn:H1, (parse_octet o2) as [n2|] eqn:H2, (parse_octet o3) as [n3|] eqn:H3, (parse_octet o4) as [n4|] eqn:H4; try done.
  apply parse_octet_spec in H1 as [R1 D1], H2 as [R2 D2], H3 as [R3 D3], H4 as [R4 D4]. intros [= <-]. split; [lia|].
  intros (p & Hp & Hc)%(split_elem "."); [|done]. rewrite Hs in Hp.
  repeat (apply elem_of_cons in Hp as [->|Hp]; [match goal with D : _ |- _ => destruct (D _ Hc); done end|]). by apply elem_of_nil in Hp.
Qed.
Lemma join_range l acc m :
  Forall is_hextet l → 0 ≤ acc < 2 ^ m → 0 ≤ m → 0 ≤ join_hextets acc l < 2 ^ (m + 16 * Z.of_nat (length l)).
Proof.
  intros Hl. revert acc m. induction Hl as [|h l Hh Hl IH]; intros acc m Hacc Hm; cbn [length].
  - rewrite Z.mul_0_r, Z.add_0_r. exact Hacc.
  - change (join_hextets acc (h :: l)) with (join_hextets (push_hextet acc h) l). rewrite push_hextet_add by done.
    replace (m + 16 * Z.of_nat (S (length l))) with (m + 16 + 16 * Z.of_nat (length l)) by lia. apply IH; [|lia].
    unfold is_hextet in Hh. rewrite Z.pow_add_r by lia. change (2 ^ 16) with 65536. lia.
Qed.
Lemma mapM_hextets l l' : mapM parse_hextet l = Some l' → Forall is_hextet l' ∧ length l' = length l.
Proof.
  intros Hm%mapM_Some_1. split; [|by symmetry; eapply Forall2_length]. eapply Forall2_Forall_r; [exact Hm|].
  apply Forall_true. intros s h. apply parse_hextet_range.
Qed.
Lemma counts_at_small parts skip hi lo : counts_at parts skip = Some (hi, lo) → (hi + lo < 8)%nat.
Proof.
  unfold counts_at. case_match; [done|]. intros [= <- <-]. match goal with H : _ = false |- _ => apply orb_false_iff in H as [_ H] end.
  by apply Nat.leb_gt.
Qed.
Lemma parse_v6_range s n : parse_v6_int s = Some n → 0 ≤ n < 2 ^ 128.
Proof.
  unfold parse_v6_int. case_bool_decide; [done|]. case_bool_decide; [done|]. destruct (expand_suffix _) as [parts|]; [|done].
  case_bool_decide; [done|]. destruct (empty_parts _ _) as [|skip [|]]; [| |done].
  - destruct (length parts =? 8)%nat eqn:H8; [|done]. apply Nat.eqb_eq in H8. cbn [negb orb]. case_match; [done|].
    intros (l & [Hl Hlen]%mapM_hextets & ->)%fmap_Some. pose proof (join_range l 0 0 Hl ltac:(lia) ltac:(lia)) as Hr. by rewrite Hlen, H8 in Hr.
  - destruct (counts_at parts skip) as [[hi lo]|] eqn:Hc; [|done]. apply counts_at_small in Hc.
    destruct (mapM _ (take _ _)) as [high|] eqn:Hh; [|done]. destruct (mapM _ (drop _ _)) as [low|] eqn:Hw; [|done]. intros [= <-].
    apply mapM_hextets in Hh as [Hh Lh], Hw as [Hw Lw]. rewrite <- join_zeroes, <- !join_hextets_app.
    set (k := (8 - (hi + lo))%nat). assert (Forall is_hextet (high ++ replicate k 0 ++ low)) as Hall.
    { repeat (apply Forall_app; split); [done| |done]. apply Forall_replicate. unfold is_hextet. lia. }
    pose proof (join_range _ 0 0 Hall ltac:(lia) ltac:(lia)) as [Hlo Hhi]. split; [exact Hlo|]. eapply Z.lt_le_trans; [exact Hhi|].
    apply Z.pow_le_mono_r; [lia|]. rewrite !length_app, length_replicate, Lh, Lw, length_take, length_drop. lia.
Qed.

(** ** The round trip *)
Lemma partition_spec c s before found after :
  partition_at c s = (before, found, after) → c ∉ before ∧ s = if found then before ++ c :: after else before.
Proof.
  revert before. induction s as [|x s IH]; intros before; cbn; [intros [= <- <- <-]; split; [apply not_elem_of_nil|done]|].
  destruct (Ascii.eqb_spec x c) as [->|Hne]; [intros [= <- <- <-]; split; [apply not_elem_of_nil|done]|].
  destruct (partition_at c s) as [[u f] v]. intros [= <- <- <-]. destruct (IH u eq_refl) as [Hu ->]. split; [by apply not_elem_of_cons|].
  by destruct f.
Qed.
Lemma partition_absent c s : c ∉ s → partition_at c s = (s, false, []).
Proof.
  induction s as [|x s IH]; [done|]. intros [Hx Hs]%not_elem_of_cons. cbn. rewrite IH by done. by destruct (Ascii.eqb_spec x c) as [->|].
Qed.
Lemma partition_first c s t : c ∉ s → partition_at c (s ++ c :: t) = (s, true, t).
Proof.
  induction s as [|x s IH]; cbn; [by rewrite Ascii.eqb_refl|]. intros [Hx Hs]%not_elem_of_cons. rewrite IH by done. by destruct (Ascii.eqb_spec x c) as [->|].
Qed.
Lemma ip_address_ok s i : ip_address s = Some i → ip_ok i.
Proof.
  unfold ip_address, parse_v4, parse_v6. destruct (bool_decide_reflect ("/"%char ∈ s)) as [|Hs]; [done|].
  destruct (parse_v4_int s) as [n|] eqn:H4; cbn.
  { intros [= <-]. by apply parse_v4_spec in H4 as [? _]. }
  destruct (partition_at "%" s) as [[addr found] scope] eqn:Hp. apply partition_spec in Hp as [_ ->]. destruct found.
  - destruct (bool_decide_reflect (scope = [])) as [|Hne]; [done|]. destruct (bool_decide_reflect ("%"%char ∈ scope)) as [|Hpc]; [done|]. cbn [orb].
    intros (n & Hn%parse_v6_range & ->)%fmap_Some. split_and!; [apply Hn..|done|done|]. intros Hin. apply Hs, elem_of_app. right. by right.
  - intros (n & Hn%parse_v6_range & ->)%fmap_Some. done.
Qed.
Lemma join_has_sep c l : (2 ≤ length l)%nat → c ∈ join_with c l.
Proof. destruct l as [|s [|s' l]]; cbn; [lia..|]. intros _. apply elem_of_app. right. by left. Qed.
Lemma v6_not_v4 n t : parse_v4_int (v6_text n ++ t) = None.
Proof.
  destruct (parse_v4_int _) as [m|] eqn:H4; [|done]. apply parse_v4_spec in H4 as [_ Hc]. exfalso. apply Hc, elem_of_app. left.
  destruct (v6_parts n) as (parts & -> & Hlen & _). apply join_has_sep. lia.
Qed.
Lemma v6_absent c n : hex_value c = None → c ≠ ":"%char → c ∉ v6_text n.
Proof. intros Hc Hne Hin. pose proof (v6_text_chars n) as Hf. rewrite Forall_forall in Hf. destruct (Hf c Hin) as [[x Hx]|]; congruence. Qed.
Lemma v4_absent c n : 0 ≤ n < 2 ^ 32 → hex_value c = None → c ≠ "."%char → c ∉ v4_text n.
Proof.
  intros Hn Hc Hne Hin. pose proof (v4_text_chars n Hn) as Hf. rewrite Forall_forall in Hf. destruct (Hf c Hin) as [[x Hx]|]; congruence.
Qed.
Lemma text_roundtrip i : ip_ok i → ip_address (ip_text i) = Some i.
Proof.
  unfold ip_address, parse_v4, parse_v6. destruct i as [n|n [scope|]]; cbn [ip_ok ip_text].
  - intros Hn. rewrite bool_decide_false by by apply v4_absent. by rewrite parse_v4_text.
  - intros (Hn & Hne & Hpc & Hsl). rewrite bool_decide_false.
    + rewrite v6_not_v4. cbn. rewrite partition_first by by apply v6_absent. rewrite bool_decide_false, bool_decide_false by done.
      cbn. by rewrite parse_v6_text.
    + intros [Hin|[?|Hin]%elem_of_cons]%elem_of_app; [|done|done]. by apply v6_absent in Hin.
  - intros [Hn _]. rewrite bool_decide_false by by apply v6_absent. pose proof (v6_not_v4 n []) as H4. rewrite app_nil_r in H4. rewrite H4. cbn.
    rewrite partition_absent by by apply v6_absent. cbn. by rewrite parse_v6_text.
Qed.
(** Printing and reading of addresses are inverse: a text that reads as an address
    prints, in its canonical form, as a text that reads as the same address, whatever
    spelling, run of zeroes, IPv4 suffix or scope id it had; so equal canonical texts are
    equal addresses. *)
Theorem address_roundtrip s i :
  ip_address s = Some i → ip_address (ip_text i) = Some i ∧ ∀ s' j, ip_address s' = Some j → ip_text i = ip_text j → i = j.
Proof.
  intros Hi%ip_address_ok. split; [by apply text_roundtrip|]. intros s' j Hj%ip_address_ok He.
  pose proof (text_roundtrip i Hi) as H1. rewrite He, text_roundtrip in H1 by done. congruence.
Qed.
Lemma address_roundtrip_witness :
  ip_address (b "2001:DB8::1.2.3.4%eth0") = Some (V6 42540766411282592856903984951670735620 (Some (b "eth0"))) ∧
  ip_address (b "2001:db8::102:304%eth0") = Some (V6 42540766411282592856903984951670735620 (Some (b "eth0"))).
Proof.
  assert (ip_address (b "2001:DB8::1.2.3.4%eth0") = Some (V6 42540766411282592856903984951670735620 (Some (b "eth0")))) as H by (vm_compute; reflexivity).
  split; [exact H|]. exact (proj1 (address_roundtrip _ _ H)).
Defined.

(** ** A network is an interval *)
Lemma masked_div v6 p n : p ≤ width v6 → masked v6 p n = n / 2 ^ (width v6 - p) * 2 ^ (width v6 - p).
Proof. intros Hp. unfold masked. by rewrite Z.ldiff_ones_r, Z.shiftl_mul_pow2, Z.shiftr_div_pow2 by lia. Qed.
Definition net_ok (w : network) : Prop := 0 ≤ nw_prefix w ≤ width (nw_v6 w) ∧ masked (nw_v6 w) (nw_prefix w) (nw_base w) = nw_base w.
#[export] Instance net_ok_dec w : Decision (net_ok w).
Proof. unfold net_ok. apply _. Defined.
(** The addresses of a network, from the first to the one after the last. *)
Definition span (w : network) : Z * Z := (nw_base w, nw_base w + 2 ^ (width (nw_v6 w) - nw_prefix w)).
Definition within (n : Z) (s : Z * Z) : bool := (s.1 <=? n) && (n <? s.2).
Lemma in_network_span i w : net_ok w → in_network i w = Bool.eqb (is_v6 i) (nw_v6 w) && within (ip_int i) (span w).
Proof.
  intros [Hp Hb]. unfold in_network, within, span. f_equal. cbn [fst snd]. rewrite masked_div in Hb |- * by lia.
  assert (0 < 2 ^ (width (nw_v6 w) - nw_prefix w)) as Hpos by (apply Z.pow_pos_nonneg; lia). set (m := 2 ^ _) in *.
  pose proof (Z.div_mod (ip_int i) m ltac:(lia)) as Hd. pose proof (Z.mod_pos_bound (ip_int i) m Hpos) as Hr.
  set (q := ip_int i / m) in *. set (k := nw_base w / m) in *. apply eq_true_iff_eq.
  rewrite Z.eqb_eq, andb_true_iff, Z.leb_le, Z.ltb_lt. split; [nia|]. intros [Hlo Hhi]. rewrite <- Hb in *. assert (k = q) by nia. congruence.
Qed.
(** A set of intervals; the tables as the intervals of one version. *)
Definition inside (l : list (Z * Z)) (n : Z) : bool := existsb (within n) l.
Definition spans (v6 : bool) (l : list network) : list (Z * Z) := span <$> filter (λ w, nw_v6 w = v6) l.
Lemma in_any_spans i l : Forall net_ok l → in_any i l = inside (spans (is_v6 i) l) (ip_int i).
Proof.
  intros Hl. unfold in_any, inside, spans. induction Hl as [|w l Hw Hl IH]; [done|]. cbn [existsb]. rewrite IH, in_network_span, filter_cons by done.
  destruct (is_v6 i), (nw_v6 w) eqn:Hv; cbn [Bool.eqb andb]; destruct (decide _); congruence || done.
Qed.
(** A combination of interval sets is constant between the ends of the intervals: it is
    decided by the largest end below. *)
Definition ends (l : list (Z * Z)) : list Z := l ≫= λ s, [s.1; s.2].
Lemma within_floor s n q (pts : list Z) :
  s.1 ∈ pts → s.2 ∈ pts → q ≤ n → (∀ p, p ∈ pts → p ≤ n → p ≤ q) → within n s = within q s.
Proof.
  intros H1 H2 Hq Hmax. unfold within. pose proof (Hmax _ H1). pose proof (Hmax _ H2). apply eq_true_iff_eq.
  rewrite !andb_true_iff, !Z.leb_le, !Z.ltb_lt. lia.
Qed.
Lemma inside_floor l n q (pts : list Z) : ends l ⊆ pts → q ≤ n → (∀ p, p ∈ pts → p ≤ n → p ≤ q) → inside l n = inside l q.
Proof.
  unfold ends. intros Hsub Hq Hmax. induction l as [|s l IH]; [done|]. cbn [inside existsb]. change (existsb (within n) l) with (inside l n).
  change (existsb (within q) l) with (inside l q). rewrite IH by set_solver. f_equal. eapply within_floor; [..|exact Hq|exact Hmax]; set_solver.
Qed.
Lemma floor_exists (pts : list Z) n p : p ∈ pts → p ≤ n → ∃ q, q ∈ pts ∧ q ≤ n ∧ ∀ p, p ∈ pts → p ≤ n → p ≤ q.
Proof.
  revert p. induction pts as [|x pts IH]; intros p; [by intros ?%elem_of_nil|]. intros Hp Hle.
  destruct (decide (Exists (λ y, y ≤ n) pts)) as [(y & Hy & Hyn)%Exists_exists|Hno].
  - destruct (IH y Hy Hyn) as (q & Hq & Hqn & Hmax). destruct (decide (x ≤ n ∧ q < x)) as [[Hx Hqx]|Hx].
    + exists x. split_and!; [by left|done|]. intros p' [->|Hp']%elem_of_cons Hle'; [done|]. specialize (Hmax p' Hp' Hle'). lia.
    + exists q. split_and!; [by right|done|]. intros p' [->|Hp']%elem_of_cons Hle'; [lia|]. by apply Hmax.
  - assert (∀ y, y ∈ pts → ¬ y ≤ n) as Hn by (intros y Hy Hyn; apply Hno, Exists_exists; eauto).
    apply elem_of_cons in Hp as [->|Hp]; [|by destruct (Hn p Hp)]. exists x. split_and!; [by left|done|].
    intros p' [->|Hp']%elem_of_cons Hle'; [done|]. by destruct (Hn p' Hp').
Qed.
(** To know a combination of interval sets everywhere it is enough to look at the ends. *)
Lemma interval_sets_agree (sets : list (list (Z * Z))) (f : list bool → bool) bound n :
  0 ≤ n < bound → forallb (λ p, (bound <=? p) || f ((λ l, inside l p) <$> sets)) (0 :: (sets ≫= ends)) = true →
  f ((λ l, inside l n) <$> sets) = true.
Proof.
  intros [Hn Hb] Hall. destruct (floor_exists (0 :: (sets ≫= ends)) n 0) as (q & Hq & Hqn & Hmax); [by left|done|].
  rewrite forallb_forall in Hall. specialize (Hall q). rewrite (proj2 (Z.leb_gt _ _)) in Hall by lia. rewrite <- Hall by by apply list_elem_of_In.
  cbn [orb]. f_equal. apply list_fmap_ext. intros k l Hl%list_elem_of_lookup_2. eapply inside_floor; [|exact Hqn|exact Hmax].
  intros p Hp. right. apply list_elem_of_bind. eauto.
Qed.

(** ** Networks *)
Lemma masked_idem v6 p n : p ≤ width v6 → masked v6 p (masked v6 p n) = masked v6 p n.
Proof.
  intros Hp. rewrite !masked_div by done. rewrite Z.div_mul by (apply Z.pow_nonzero; lia). done.
Qed.
Lemma masked_range v6 p n : p ≤ width v6 → 0 ≤ n → 0 ≤ masked v6 p n ≤ n.
Proof.
  intros Hp Hn. rewrite masked_div by done. assert (0 < 2 ^ (width v6 - p)) by (apply Z.pow_pos_nonneg; lia).
  pose proof (Z.div_pos n _ Hn H). pose proof (Z.mul_div_le n _ H). nia.
Qed.
Lemma prefix_text p v6 : 0 ≤ p ≤ width v6 → prefix_from_text (width v6) (octet_text p) = Some p.
Proof.
  intros Hp. assert (0 ≤ p < 256) as Hp' by (destruct v6; cbn in Hp; lia). unfold prefix_from_text. rewrite read_octet_text by done.
  rewrite bool_decide_false by (unfold octet_text; by repeat case_match). by rewrite (proj2 (Z.leb_le _ _)) by lia.
Qed.
Lemma prefix_from_text_range m s p : prefix_from_text m s = Some p → 0 ≤ p ≤ m.
Proof.
  unfold prefix_from_text. case_bool_decide; [done|]. destruct (read_digits _ _ _ _) as [n|] eqn:Hr; [|done]. destruct (Z.leb_spec n m); [|done].
  intros [= <-]. apply read_digits_range in Hr; [lia|lia|exact digit_range|lia].
Qed.
Lemma prefix_from_mask_range s p : prefix_from_mask s = Some p → 0 ≤ p ≤ 32.
Proof.
  unfold prefix_from_mask. destruct (parse_v4_int s) as [m|]; [|done]. destruct (List.find _ _) as [q|] eqn:Hf.
  - intros [= <-]. apply List.find_some in Hf as [Hin%list_elem_of_In _]. apply elem_of_seqZ in Hin. lia.
  - intros [Hin%list_elem_of_In _]%List.find_some. apply elem_of_seqZ in Hin. lia.
Qed.
Lemma parse_v4_ok s i : parse_v4 s = Some i → ip_ok i ∧ is_v6 i = false.
Proof. unfold parse_v4. case_bool_decide; [done|]. intros (n & [? _]%parse_v4_spec & ->)%fmap_Some. done. Qed.
Lemma parse_v6_ok s i : parse_v6 s = Some i → ip_ok i ∧ is_v6 i = true.
Proof.
  intros Hi. destruct (parse_v4 s) as [j|] eqn:H4.
  - exfalso. unfold parse_v4 in H4. unfold parse_v6 in Hi. case_bool_decide; [done|]. apply fmap_Some in H4 as (n & [_ Hc]%parse_v4_spec & _).
    assert (∀ t m, parse_v6_int t = Some m → ":"%char ∈ t) as Hcolon.
    { intros t m. unfold parse_v6_int. case_bool_decide; [done|]. destruct (bool_decide_reflect (":"%char ∈ t)) as [|Hno]; [done|].
      by rewrite (split_no_sep ":" t Hno). }
    destruct (partition_at "%" s) as [[addr found] scope] eqn:Hp. apply partition_spec in Hp as [_ ->].
    destruct found; [destruct (_ || _); [done|]|]; apply fmap_Some in Hi as (m & Hm%Hcolon & _); apply Hc; [|done]. apply elem_of_app. by left.
  - split; [apply (ip_address_ok s); unfold ip_address; by rewrite H4|]. unfold parse_v6 in Hi. case_bool_decide; [done|].
    destruct (partition_at "%" s) as [[addr []] scope]; [destruct (_ || _); [done|]|]; by apply fmap_Some in Hi as (n & _ & ->).
Qed.
Lemma ip_network_made s w : ip_network s = Some w → ∃ i p, w = make_network i p ∧ ip_ok i ∧ 0 ≤ p ≤ width (is_v6 i).
Proof.
  unfold ip_network. destruct (v4_network s) as [w'|] eqn:H4.
  - intros [= ->]. unfold v4_network in H4. destruct (split_at_char _ s) as [|addr [|mask []]]; try done.
    + apply bind_Some in H4 as (i & [Hi Hv]%parse_v4_ok & [= <-]). exists i, 32. rewrite Hv. split_and!; (done || lia).
    + apply bind_Some in H4 as (i & [Hi Hv]%parse_v4_ok & (p & Hp & [= <-])%bind_Some). exists i, p. rewrite Hv. split_and!; [done|done|..];
        (destruct (prefix_from_text 32 mask) eqn:Ht; [injection Hp as <-; apply prefix_from_text_range in Ht|apply prefix_from_mask_range in Hp]; cbn; lia).
  - intros H6. unfold v6_network in H6. destruct (split_at_char _ s) as [|addr [|mask []]]; try done.
    + apply bind_Some in H6 as (i & [Hi Hv]%parse_v6_ok & [= <-]). exists i, 128. rewrite Hv. split_and!; (done || lia).
    + apply bind_Some in H6 as (i & [Hi Hv]%parse_v6_ok & (p & Hp%prefix_from_text_range & [= <-])%bind_Some). exists i, p. rewrite Hv. split_and!; (done || apply Hp).
Qed.
(** The address a network prints. *)
Definition network_ip (w : network) : ip := if nw_v6 w then V6 (nw_base w) (nw_scope w) else V4 (nw_base w).
Lemma made_spec i p : ip_ok i → 0 ≤ p ≤ width (is_v6 i) →
  let w := make_network i p in ip_ok (network_ip w) ∧ is_v6 (network_ip w) = is_v6 i ∧ make_network (network_ip w) p = w ∧ nw_prefix w = p.
Proof.
  intros Hi Hp. unfold make_network, network_ip. destruct i as [n|n sc]; cbn [is_v6 ip_int nw_v6 nw_base nw_scope nw_prefix] in *.
  - pose proof (masked_range false p n (proj2 Hp) (proj1 Hi)). rewrite masked_idem by lia. split_and!; [cbn in *; lia..|done|done|done].
  - destruct Hi as [Hn Hsc]. pose proof (masked_range true p n (proj2 Hp) (proj1 Hn)). rewrite masked_idem, Z.eqb_refl by lia.
    split; [split; [lia|by destruct (masked true p n =? n)]|split_and!; done].
Qed.
Lemma text_no_slash i : ip_ok i → "/"%char ∉ ip_text i.
Proof.
  destruct i as [n|n [scope|]]; cbn [ip_ok ip_text].
  - intros Hn. by apply v4_absent.
  - intros (_ & _ & _ & Hs) [Hin|[?|Hin]%elem_of_cons]%elem_of_app; [|done|done]. by apply v6_absent in Hin.
  - intros _. by apply v6_absent.
Qed.
Lemma network_roundtrip s w : ip_network s = Some w → ip_network (network_text w) = Some w.
Proof.
  intros (i & p & -> & Hi & Hp)%ip_network_made. destruct (made_spec i p Hi Hp) as (Hok & Hv & Hm & Hpr). set (w := make_network i p) in *.
  change (network_text w) with (ip_text (network_ip w) ++ "/"%char :: octet_text (nw_prefix w)). rewrite Hpr.
  pose proof (text_roundtrip _ Hok) as Hrt. unfold ip_network, v4_network, v6_network, ip_address in *.
  assert (0 ≤ p < 256) as Hp' by (destruct (is_v6 i); cbn in Hp; lia).
  rewrite (split_app_sep "/"), (split_no_sep "/" (octet_text p)) by (by apply text_no_slash || by apply hex_no_char, octet_text_hex).
  destruct (parse_v4 (ip_text (network_ip w))) as [j|] eqn:H4.
  - injection Hrt as ->. apply parse_v4_ok in H4 as [_ H4]. rewrite Hv in H4. rewrite H4 in Hp. cbn [mbind option_bind].
    change 32 with (width false). rewrite (prefix_text p false Hp). cbn [mbind option_bind]. by rewrite Hm.
  - cbn [mbind option_bind]. rewrite Hrt. apply parse_v6_ok in Hrt as [_ H6]. rewrite Hv in H6. rewrite H6 in Hp. cbn [mbind option_bind].
    change 128 with (width true). rewrite (prefix_text p true Hp). cbn [mbind option_bind]. by rewrite Hm.
Qed.
