(* ===== verification/Ssrf.v ===== *)
(** * Outbound requests: security/ssrf.py, security/pinned_http.py,
    security/credential_binding.py, security/ssrf_settings_service.py

    The guard that decides whether an address may be connected to, the resolution of a host
    to validated addresses with its cache, the backend that dials them, the containment of
    the default login, and the subnets an administrator saves.

    What the resolver ([getaddrinfo]), the clock and the network answer is an input; the
    parser of httpx is an argument.  Clock readings are microseconds.  An exception carries
    a fixed text instead of one with the host in it. *)

From Stdlib Require Import Ascii.
From S2P Require Import Prelude PyTime PyVal Bytes IpAddress.
From stdpp Require Import sorting options.
Local Open Scope Z_scope.

(** ** The guard *)
Definition text_strip (s : bytes) : bytes := strip_by latin1_space s.
Definition ALWAYS_DENIED : list network :=
  networks ["127.0.0.0/8"; "::1/128"; "169.254.0.0/16"; "fe80::/10"; "0.0.0.0/8"; "::/128"]%string.
Definition CLOUD_METADATA_V4 : option ip := ip_address (b "169.254.169.254").
Definition PRIVATE_RANGES : list network :=
  networks ["10.0.0.0/8"; "172.16.0.0/12"; "192.168.0.0/16"; "100.64.0.0/10"; "fc00::/7"]%string.

(** [_normalise], [_parse_allowed_subnets] *)
Definition normalise (i : ip) : ip :=
  match i with
  | V6 n _ => match ipv4_mapped n with Some m => V4 m | None => i end
  | V4 _ => i
  end.
Definition parse_allowed_subnets (subnets : list bytes) : list network := omap (λ entry, ip_network (text_strip entry)) subnets.

Record policy := MkPolicy { po_allow_private : bool; po_subnets : list bytes }.
#[export] Instance policy_eq_dec : EqDecision policy.
Proof. solve_decision. Defined.

(** [assert_address_allowed]: after the parse *)
Definition check_ip (p : policy) (i : ip) : result ip :=
  if bool_decide (Some i = CLOUD_METADATA_V4) then Raise (SsrfError "cloud metadata")
  else if in_any i ALWAYS_DENIED then Raise (SsrfError "always blocked")
  else if is_loopback i || is_link_local i || is_unspecified i then Raise (SsrfError "loopback, link-local or unspecified")
  else if is_multicast i then Raise (SsrfError "multicast")
  else if is_reserved i then Raise (SsrfError "reserved")
  else if in_any i PRIVATE_RANGES || is_private i then
    if po_allow_private p then
      if in_any i (parse_allowed_subnets (po_subnets p)) then Ok i else Raise (SsrfError "not in an allowed subnet")
    else Raise (SsrfError "private")
  else Ok i.
Definition assert_address_allowed (p : policy) (address : bytes) : result ip :=
  match ip_address (text_strip address) with
  | None => Raise (SsrfError "not an address")
  | Some i => check_ip p (normalise i)
  end.

(** ** Resolution *)
(** The loop over the answers of the resolver: each address once, in order. *)
Definition ordered_addresses (infos : list bytes) : list bytes :=
  foldl (λ ordered addr, if bool_decide (addr ∈ ordered) then ordered else ordered ++ [addr]) [] infos.
(** [_resolve_and_validate], [resolve_and_check], [resolve_and_check_pinned] *)
Definition resolve_and_check (p : policy) (host : bytes) (answer : result (list bytes)) : result (list ip) :=
  match ip_address (text_strip host) with
  | Some _ => i ← assert_address_allowed p host; Ok [i]
  | None =>
      infos ← answer;
      match ordered_addresses infos with
      | [] => Raise (SsrfError "no address")
      | ordered => traverse (assert_address_allowed p) ordered
      end
  end.
Definition resolve_and_check_pinned (p : policy) (host : bytes) (answer : result (list bytes)) : result (option bytes) :=
  validated ← resolve_and_check p host answer; Ok (ip_text <$> head validated).

(** [except socket.gaierror] *)
Definition gai_denied {A} (r : result A) : result A :=
  match r with Raise GaiError => Raise (SsrfError "did not resolve") | r => r end.
(** [assert_allowed_url]; [hostname] is what [urlsplit] found. *)
Definition assert_allowed_url (p : policy) (hostname : option bytes) (answer : result (list bytes)) : result unit :=
  match hostname with
  | None | Some [] => Raise (SsrfError "no host")
  | Some host => _ ← gai_denied (resolve_and_check p host answer); Ok tt
  end.

(** ** The cache of allowed resolutions: [_ResolutionCache], oldest entry first *)
Definition resolution_key : Type := bytes * bool * list bytes.
Definition resolution_cache : Type := list (resolution_key * (Z * list bytes)).
Definition URL_CACHE_TTL : Z := 60 * SECOND.
Definition URL_CACHE_MAX_ENTRIES : nat := 512.
Definition without_key (key : resolution_key) (c : resolution_cache) : resolution_cache := filter (λ e, e.1 ≠ key) c.
Definition cache_get (now : Z) (key : resolution_key) (c : resolution_cache) : option (list bytes) * resolution_cache :=
  match List.find (λ e, bool_decide (e.1 = key)) c with
  | None => (None, c)
  | Some (_, (expires, addresses)) =>
      if expires <=? now then (None, without_key key c) else (Some addresses, without_key key c ++ [(key, (expires, addresses))])
  end.
Definition cache_put (now : Z) (key : resolution_key) (addresses : list bytes) (c : resolution_cache) : resolution_cache :=
  let c := without_key key c ++ [(key, (now + URL_CACHE_TTL, addresses))] in drop (length c - URL_CACHE_MAX_ENTRIES) c.

(** [_cache_key]: texts are sorted by their code points. *)
Fixpoint text_leb (s t : bytes) : bool :=
  match s, t with
  | [], _ => true
  | _ :: _, [] => false
  | x :: s, y :: t => if char_code x <? char_code y then true else if char_code y <? char_code x then false else text_leb s t
  end.
Definition text_le (s t : bytes) : Prop := text_leb s t = true.
#[export] Instance text_le_dec : RelDecision text_le.
Proof. intros s t. unfold text_le. apply _. Defined.
Definition resolution_key_of (p : policy) (host : bytes) : resolution_key :=
  (rstrip_by (is_char ".") (lower_text host), po_allow_private p, merge_sort text_le (remove_dups (text_strip <$> po_subnets p))).
(** [_literal_ip] *)
Definition is_bracket (c : ascii) : bool := Ascii.eqb c "[" || Ascii.eqb c "]".
Definition literal_ip (host : bytes) : option bytes := ip_text <$> ip_address (strip_by is_bracket (text_strip host)).

(** [pinned_addresses_async] up to its [await], and after it; [pinned_addresses] is the two
    together. *)
Inductive pin_turn :=
  | pin_done (r : result (list bytes))
  | pin_miss (key : resolution_key).
Definition pin_lookup (p : policy) (host : bytes) (now : Z) (c : resolution_cache) : pin_turn * resolution_cache :=
  match literal_ip host with
  | Some literal => (pin_done (i ← assert_address_allowed p literal; Ok [ip_text i]), c)
  | None =>
      match cache_get now (resolution_key_of p host) c with
      | (Some ((_ :: _) as cached), c) => (pin_done (Ok cached), c)
      | (_, c) => (pin_miss (resolution_key_of p host), c)
      end
  end.
Definition pin_finish (p : policy) (host : bytes) (key : resolution_key) (answer : result (list bytes)) (now : Z) (c : resolution_cache)
    : result (list bytes) * resolution_cache :=
  match gai_denied (resolve_and_check p host answer) with
  | Raise e => (Raise e, c)
  | Ok addresses => let validated := ip_text <$> addresses in (Ok validated, cache_put now key validated c)
  end.
(** One question to the resolver: the clock before it, the answer, the clock after it. *)
Record resolver_call := MkRc { rc_asked_at : Z; rc_answer : result (list bytes); rc_answered_at : Z }.
Definition pinned_addresses (p : policy) (host : bytes) (call : resolver_call) (c : resolution_cache)
    : result (list bytes) * resolution_cache :=
  match pin_lookup p host (rc_asked_at call) c with
  | (pin_done r, c) => (r, c)
  | (pin_miss key, c) => pin_finish p host key (rc_answer call) (rc_answered_at call) c
  end.
(** [resolved_ips_for] *)
Definition resolved_ips_for (p : policy) (hostname : option bytes) (now : Z) (c : resolution_cache) : option (list bytes) * resolution_cache :=
  match hostname with
  | None | Some [] => (None, c)
  | Some host =>
      match literal_ip host with
      | Some literal => (match assert_address_allowed p literal with Ok _ => Some [literal] | Raise _ => None end, c)
      | None => cache_get now (resolution_key_of p host) c
      end
  end.

(** ** Dialling: security/pinned_http.py *)
(** [address_inside_subnets] *)
Definition address_inside_subnets (subnets : list bytes) (address : bytes) : bool :=
  match ip_address address with
  | None => false
  | Some i => in_any (normalise i) (parse_allowed_subnets subnets)
  end.
(** [_ContainedStream] *)
Record stream := MkStream { st_address : bytes; st_answer_inside : bool }.
#[export] Instance stream_eq_dec : EqDecision stream.
Proof. solve_decision. Defined.
(** What the inner backend does for an address. *)
Inductive dial_answer := dial_opened | dial_refused (e : pyexc) | dial_raised (e : pyexc).
Fixpoint dial_each (dial : bytes → dial_answer) (answer_inside : bool) (last_error : option pyexc) (addresses : list bytes) : result stream :=
  match addresses with
  | [] => Raise (default (ConnectError "no address") last_error)
  | a :: addresses =>
      match dial a with
      | dial_opened => Ok (MkStream a answer_inside)
      | dial_refused e => dial_each dial answer_inside (Some e) addresses
      | dial_raised e => Raise e
      end
  end.
(** [connect_tcp] after the resolution, with the subnets it had read before it *)
Definition ssrf_blocked {A} (r : result A) : result A :=
  match r with Raise (SsrfError _) => Raise (ConnectError "blocked") | r => r end.
Definition connect_resolved (contained : bool) (subnets : list bytes) (resolution : result (list bytes)) (dial : bytes → dial_answer)
    : result stream :=
  addresses ← ssrf_blocked resolution;
  let answer_inside := forallb (address_inside_subnets subnets) addresses in
  if contained && negb answer_inside then Raise (ConnectError "contained") else dial_each dial answer_inside None addresses.
(** [_ContainedStream.write]: the address the bytes go to *)
Definition stream_write (contained : bool) (live_subnets : list bytes) (s : stream) : result bytes :=
  if contained && negb (st_answer_inside s && address_inside_subnets live_subnets (st_address s)) then Raise (ConnectError "contained")
  else Ok (st_address s).

(** ** The default login: security/credential_binding.py *)
Section binding.
(** [httpx.URL]: the host and the userinfo of a text, [None] when it raises. *)
Context (httpx_url : bytes → option (bytes * bytes)).

Definition unsafe_char (c : ascii) : bool := Ascii.eqb c "\" || Ascii.eqb c " " || (char_code c <? 32).
(** [target_host] *)
Definition target_host (allow_userinfo : bool) (value : option bytes) : option bytes :=
  match value with
  | None => None
  | Some value =>
      let text := text_strip value in
      if bool_decide (text = []) || existsb unsafe_char text then None
      else
        let text := if bool_decide (is_Some (Bytes.find (b "://") text)) then text else b "http://" ++ text in
        match httpx_url text with
        | None => None
        | Some (host, userinfo) =>
            if negb (bool_decide (userinfo = [])) && negb allow_userinfo then None
            else match rstrip_by (is_char ".") host with [] => None | host => Some host end
        end
  end.
(** [value is None or not value.strip()] *)
Definition is_unset (value : option bytes) : bool := match value with None => true | Some v => bool_decide (text_strip v = []) end.
Record camera_targets := MkTargets { ct_address : option bytes; ct_snapshot_uri : option bytes; ct_stream_uri : option bytes }.
(** [camera_credential_targets] *)
Definition camera_credential_targets (camera : camera_targets) : list (option bytes) :=
  [ct_address camera; ct_snapshot_uri camera; ct_stream_uri camera].

(** [_as_ips], [_resolve_ips] *)
Definition as_ips (addresses : list bytes) : list ip := default [] (mapM (λ a, normalise <$> ip_address a) addresses).
Definition resolve_ips (subnets : list bytes) (host : bytes) (call : resolver_call) (c : resolution_cache)
    : result (list ip) * resolution_cache :=
  match pinned_addresses (MkPolicy true subnets) host call c with
  | (Ok addresses, c) => (Ok (as_ips addresses), c)
  | (Raise (SsrfError _), c) | (Raise UnicodeError, c) => (Ok [], c)
  | (Raise e, c) => (Raise e, c)
  end.

(** [may_substitute_default] and [default_still_bound]: the loop over the targets *)
Fixpoint all_inside (subnets : list bytes) (calls : bytes → resolver_call) (checked : nat) (targets : list (option bytes)) (c : resolution_cache)
    : result bool * resolution_cache :=
  match targets with
  | [] => (Ok (bool_decide (0 < checked)%nat), c)
  | value :: targets =>
      if is_unset value then all_inside subnets calls checked targets c
      else
        match target_host true value with
        | None => (Ok false, c)
        | Some host =>
            match resolve_ips subnets host (calls host) c with
            | (Raise e, c) => (Raise e, c)
            | (Ok addresses, c) =>
                if bool_decide (addresses = []) || negb (forallb (λ i, in_any i (parse_allowed_subnets subnets)) addresses) then (Ok false, c)
                else all_inside subnets calls (S checked) targets c
            end
        end
  end.
Definition may_substitute_default (targets : list (option bytes)) (subnets : list bytes) (calls : bytes → resolver_call) (c : resolution_cache)
    : result bool * resolution_cache :=
  if bool_decide (parse_allowed_subnets subnets = []) then (Ok false, c) else all_inside subnets calls 0 targets c.
(** [bound_default_credentials] *)
Definition bound_default_credentials {A} (targets : list (option bytes)) (default : option A) (subnets : list bytes)
    (calls : bytes → resolver_call) (c : resolution_cache) : result (option A) * resolution_cache :=
  match default with
  | None => (Ok None, c)
  | Some login =>
      match may_substitute_default targets subnets calls c with
      | (Raise e, c) => (Raise e, c)
      | (Ok released, c) => (Ok (if released : bool then Some login else None), c)
      end
  end.
(** [uses_bound_default], [default_withheld] *)
Record credential_config := MkCredentials {
  cc_own_username : option bytes;
  cc_inherit_default : bool;
  cc_has_default : bool;
  cc_withheld : bool;
}.
Definition has_own (config : credential_config) : bool := match cc_own_username config with None | Some [] => false | Some _ => true end.
Definition uses_bound_default (config : credential_config) : bool :=
  negb (has_own config) && cc_inherit_default config && cc_has_default config.
Definition default_withheld (config : credential_config) : bool :=
  negb (has_own config) && cc_inherit_default config && cc_withheld config.
(** [introduces_new_host] *)
Definition introduces_new_host (before after : list (option bytes)) : bool :=
  let known := omap (target_host true) before in
  existsb (λ value, negb (is_unset value) && match target_host true value with None => true | Some host => negb (bool_decide (host ∈ known)) end)
    after.
End binding.

(** ** The saved subnets: security/ssrf_settings_service.py *)
(** [normalise_subnets] *)
Fixpoint normalise_from (normalised invalid : list bytes) (entries : list bytes) : list bytes * list bytes :=
  match entries with
  | [] => (normalised, invalid)
  | raw :: entries =>
      let text := text_strip raw in
      if bool_decide (text = []) then normalise_from normalised invalid entries
      else
        match ip_network text with
        | None => normalise_from normalised (invalid ++ [text]) entries
        | Some w =>
            if bool_decide (network_text w ∈ normalised) then normalise_from normalised invalid entries
            else normalise_from (normalised ++ [network_text w]) invalid entries
        end
  end.
Definition normalise_subnets (entries : list bytes) : list bytes * list bytes := normalise_from [] [] entries.
(** [load_settings] and [update_settings] on the one row; [effective_subnets],
    [apply_to_runtime] *)
Definition load_settings (row : option (list bytes)) : list bytes := match row with None => [] | Some l => filter (.≠ []) l end.
Definition update_settings (subnets : list bytes) (row : option (list bytes)) : option (list bytes) := Some (filter (.≠ []) subnets).
Definition effective_subnets (config_subnets db_subnets : list bytes) : list bytes :=
  foldl (λ out subnet, if bool_decide (subnet = []) || bool_decide (subnet ∈ out) then out else out ++ [subnet]) [] (config_subnets ++ db_subnets).
Definition apply_to_runtime (config_subnets : list bytes) (row : option (list bytes)) : list bytes :=
  effective_subnets config_subnets (load_settings row).
