(* ===== verification/SsrfFacts.v ===== *)
(** * Outbound requests: what is reached

    The verdict of the guard against a list of ranges, the resolution cache, and every
    connection and send of the program as a step relation. *)

From Stdlib Require Import Ascii.
From S2P Require Import Prelude PyTime PyVal Bytes IpAddress IpAddressFacts Ssrf.
From stdpp Require Import sorting options.
Local Open Scope Z_scope.

(** ** The verdict *)
Definition tier1 (i : ip) : bool :=
  bool_decide (Some i = CLOUD_METADATA_V4) || in_any i ALWAYS_DENIED || (is_loopback i || is_link_local i || is_unspecified i) ||
  is_multicast i || is_reserved i.
Definition tier2 (i : ip) : bool := in_any i PRIVATE_RANGES || is_private i.
Lemma check_ip_spec p i j :
  check_ip p i = Ok j ↔
  j = i ∧ tier1 i = false ∧ (tier2 i = false ∨ po_allow_private p = true ∧ in_any i (parse_allowed_subnets (po_subnets p)) = true).
Proof.
  unfold check_ip, tier1. fold (tier2 i). destruct (bool_decide _); [naive_solver|]. destruct (in_any i ALWAYS_DENIED); [naive_solver|].
  destruct (_ || is_unspecified i); [naive_solver|]. destruct (is_multicast i); [naive_solver|]. destruct (is_reserved i); [naive_solver|].
  cbn [orb]. destruct (tier2 i), (po_allow_private p), (in_any i (parse_allowed_subnets _)); naive_solver.
Qed.

(** The ranges of addresses that the default policy lets through, by their first and last
    address. *)
Definition PUBLIC_RANGES : list (string * string) :=
  [("1.0.0.0", "9.255.255.255"); ("11.0.0.0", "100.63.255.255"); ("100.128.0.0", "126.255.255.255"); ("128.0.0.0", "169.253.255.255");
   ("169.255.0.0", "172.15.255.255"); ("172.32.0.0", "191.255.255.255"); ("192.0.0.9", "192.0.0.10"); ("192.0.1.0", "192.0.1.255");
   ("192.0.3.0", "192.167.255.255"); ("192.169.0.0", "198.17.255.255"); ("198.20.0.0", "198.51.99.255"); ("198.51.101.0", "203.0.112.255");
   ("203.0.114.0", "223.255.255.255");
   ("2000::", "2000:ffff:ffff:ffff:ffff:ffff:ffff:ffff"); ("2001:1::1", "2001:1::2"); ("2001:3::", "2001:3:ffff:ffff:ffff:ffff:ffff:ffff");
   ("2001:4:112::", "2001:4:112:ffff:ffff:ffff:ffff:ffff"); ("2001:20::", "2001:3f:ffff:ffff:ffff:ffff:ffff:ffff");
   ("2001:200::", "2001:db7:ffff:ffff:ffff:ffff:ffff:ffff"); ("2001:db9::", "2001:ffff:ffff:ffff:ffff:ffff:ffff:ffff");
   ("2003::", "3fff:ffff:ffff:ffff:ffff:ffff:ffff:ffff"); ("fec0::", "feff:ffff:ffff:ffff:ffff:ffff:ffff:ffff")]%string.
Definition in_public_range (i : ip) (r : string * string) : bool :=
  match ip_address (b r.1), ip_address (b r.2) with
  | Some lo, Some hi => Bool.eqb (is_v6 i) (is_v6 lo) && (ip_int lo <=? ip_int i) && (ip_int i <=? ip_int hi)
  | _, _ => false
  end.
Definition no_opt_in : policy := MkPolicy false [].
Definition range_spans (v6 : bool) : list (Z * Z) :=
  omap (λ r, match ip_address (b r.1), ip_address (b r.2) with
             | Some lo, Some hi => if Bool.eqb v6 (is_v6 lo) then Some (ip_int lo, ip_int hi + 1) else None
             | _, _ => None
             end) PUBLIC_RANGES.
Lemma in_range_spans i : existsb (in_public_range i) PUBLIC_RANGES = inside (range_spans (is_v6 i)) (ip_int i).
Proof.
  unfold range_spans, inside. induction PUBLIC_RANGES as [|r l IH]; [done|]. cbn [existsb omap list_omap]. rewrite IH. unfold in_public_range.
  destruct (ip_address _) as [lo|]; [|done]. destruct (ip_address _) as [hi|]; [|done]. destruct (Bool.eqb _ _); [|done]. cbn [existsb andb]. f_equal.
  unfold within. cbn [fst snd]. f_equal. apply eq_true_iff_eq. rewrite Z.leb_le, Z.ltb_lt. lia.
Qed.
(** The tables behind the two tiers, as interval sets. *)
Definition tier_sets (v6 : bool) : list (list (Z * Z)) :=
  [if v6 then [] else [(2852039166, 2852039167)]; spans v6 ALWAYS_DENIED; if v6 then [(1, 2)] else spans false (networks ["127.0.0.0/8"]%string);
   spans v6 (networks ["169.254.0.0/16"; "fe80::/10"]%string); [(0, 1)]; spans v6 (networks ["224.0.0.0/4"; "ff00::/8"]%string);
   spans v6 RESERVED_NETWORKS; spans v6 PRIVATE_RANGES; spans v6 PRIVATE_NETWORKS; spans v6 PRIVATE_EXCEPTIONS].
Definition public_of (l : list bool) : bool :=
  match l with
  | [meta; always; loopback; link_local; unspecified; multicast; reserved; ranges; private; exceptions] =>
      negb (meta || always || (loopback || link_local || unspecified) || multicast || reserved) && negb (ranges || (private && negb exceptions))
  | _ => false
  end.
Lemma one_point x n : inside [(x, x + 1)] n = (n =? x).
Proof. unfold inside, within. cbn [existsb fst snd]. rewrite orb_false_r. apply eq_true_iff_eq. rewrite andb_true_iff, Z.leb_le, Z.ltb_lt, Z.eqb_eq. lia. Qed.
Lemma tables_ok :
  Forall net_ok ALWAYS_DENIED ∧ Forall net_ok PRIVATE_RANGES ∧ Forall net_ok PRIVATE_NETWORKS ∧ Forall net_ok PRIVATE_EXCEPTIONS ∧
  Forall net_ok RESERVED_NETWORKS ∧ Forall net_ok (networks ["127.0.0.0/8"]%string) ∧
  Forall net_ok (networks ["169.254.0.0/16"; "fe80::/10"]%string) ∧ Forall net_ok (networks ["224.0.0.0/4"; "ff00::/8"]%string).
Proof. split_and!; (apply (bool_decide_eq_true_1 _); vm_compute; reflexivity). Qed.
Lemma metadata_point i : bool_decide (Some i = CLOUD_METADATA_V4) = inside (if is_v6 i then [] else [(2852039166, 2852039167)]) (ip_int i).
Proof.
  assert (CLOUD_METADATA_V4 = Some (V4 2852039166)) as -> by (vm_compute; reflexivity). destruct i as [n|n sc]; cbn [is_v6 ip_int].
  - rewrite (one_point 2852039166). apply eq_true_iff_eq. rewrite bool_decide_eq_true, Z.eqb_eq. naive_solver.
  - by rewrite bool_decide_false.
Qed.
Lemma tiers_inside i : negb (tier1 i) && negb (tier2 i) = public_of ((λ l, inside l (ip_int i)) <$> tier_sets (is_v6 i)).
Proof.
  destruct tables_ok as (H1 & H2 & H3 & H4 & H5 & H6 & H7 & H8). unfold tier1, tier2, is_reserved, is_private, is_multicast, is_link_local, is_unspecified.
  rewrite metadata_point, (in_any_spans i _ H1), (in_any_spans i _ H2), (in_any_spans i _ H3), (in_any_spans i _ H4), (in_any_spans i _ H5),
    (in_any_spans i _ H7), (in_any_spans i _ H8), <- (one_point 0 (ip_int i)).
  assert (is_loopback i = inside (if is_v6 i then [(1, 2)] else spans false (networks ["127.0.0.0/8"]%string)) (ip_int i)) as ->.
  { destruct i as [n|n sc]; cbn [is_loopback is_v6]; [exact (in_any_spans (V4 n) _ H6)|symmetry; exact (one_point 1 n)]. }
  reflexivity.
Qed.
Lemma ranges_agree v6 n : 0 ≤ n < 2 ^ width v6 → public_of ((λ l, inside l n) <$> tier_sets v6) = inside (range_spans v6) n.
Proof.
  intros Hn. apply eqb_prop. set (f := λ l, match l with pub :: l => Bool.eqb (public_of l) pub | [] => false end).
  apply (interval_sets_agree (range_spans v6 :: tier_sets v6) f _ n Hn). destruct v6; vm_compute; reflexivity.
Qed.
Lemma ip_int_range i : ip_ok i → 0 ≤ ip_int i < 2 ^ width (is_v6 i).
Proof. destruct i as [n|n sc]; cbn; [done|tauto]. Qed.
Lemma normalise_ok i : ip_ok i → ip_ok (normalise i).
Proof.
  destruct i as [n|n sc]; cbn [normalise]; [done|]. intros Hok. unfold ipv4_mapped. destruct (_ =? _); [|done]. cbn. apply Z.mod_pos_bound. lia.
Qed.
(** The default policy lets through exactly the addresses of a short list of ranges: a
    text is accepted when it reads as an address that is, after an IPv4 address mapped into
    IPv6 is taken as the IPv4 address, inside one of them. *)
Theorem default_policy_exact s :
  is_ok (assert_address_allowed no_opt_in s) ↔ ∃ i, ip_address (text_strip s) = Some i ∧ existsb (in_public_range (normalise i)) PUBLIC_RANGES = true.
Proof.
  unfold assert_address_allowed, is_ok. destruct (ip_address (text_strip s)) as [i|] eqn:Hi.
  - apply ip_address_ok, normalise_ok, ip_int_range in Hi. trans (negb (tier1 (normalise i)) && negb (tier2 (normalise i)) = true).
    + setoid_rewrite check_ip_spec. rewrite andb_true_iff, !negb_true_iff. split; [|intros [H1 H2]; exists (normalise i); auto].
      intros (j & _ & H1 & [H2|[H2 _]]); [done|discriminate H2].
    + rewrite tiers_inside, (ranges_agree _ _ Hi), <- in_range_spans. split; [eauto|]. by intros (j & [= <-] & Hj).
  - split; [by intros []|]. by intros (j & ? & _).
Qed.

(** ** Validated addresses *)
Lemma in_allowed i l :
  in_any i (parse_allowed_subnets l) = true ↔ ∃ e w, e ∈ (text_strip <$> l) ∧ ip_network e = Some w ∧ in_network i w = true.
Proof.
  unfold in_any, parse_allowed_subnets. rewrite existsb_exists. setoid_rewrite <- list_elem_of_In. setoid_rewrite list_elem_of_omap.
  setoid_rewrite list_elem_of_fmap. split.
  - intros (w & (e & He & Hw) & Hi). eauto 7.
  - intros (? & w & (e & -> & He) & Hw & Hi). eauto 7.
Qed.
(** Policies with the same cache key give the same verdict. *)
Lemma key_subnets p q h h' : resolution_key_of p h = resolution_key_of q h' → ∀ e, e ∈ (text_strip <$> po_subnets p) ↔ e ∈ (text_strip <$> po_subnets q).
Proof.
  unfold resolution_key_of. intros [= _ _ Hs] e.
  assert (∀ l : list bytes, e ∈ merge_sort text_le (remove_dups l) ↔ e ∈ l) as Hm.
  { intros l. rewrite merge_sort_Permutation. apply elem_of_remove_dups. }
  by rewrite <- Hm, Hs, Hm.
Qed.
Lemma key_verdict p q h h' i j : resolution_key_of p h = resolution_key_of q h' → check_ip p i = Ok j → check_ip q i = Ok j.
Proof.
  intros Hk. rewrite !check_ip_spec. assert (po_allow_private p = po_allow_private q) as <- by (unfold resolution_key_of in Hk; congruence).
  rewrite !in_allowed. intros (Hj & H1 & [H2|(Ha & e & w & He & Hw)]); [auto|]. split_and!; [done..|]. right.
  split; [done|]. exists e, w. split; [by apply (key_subnets p q h h' Hk)|done].
Qed.
(** An address text that the guard accepted under a policy, in its canonical form. *)
Definition validated (p : policy) (a : bytes) : Prop := ∃ i, ip_address a = Some i ∧ normalise i = i ∧ check_ip p i = Ok i.
Lemma normalise_idem i : normalise (normalise i) = normalise i.
Proof. destruct i as [n|n sc]; [done|]. cbn [normalise]. destruct (ipv4_mapped n) eqn:Hm; [done|]. cbn [normalise]. by rewrite Hm. Qed.
Lemma assert_validated p s i : assert_address_allowed p s = Ok i → validated p (ip_text i).
Proof.
  unfold assert_address_allowed. destruct (ip_address (text_strip s)) as [j|] eqn:Hj; [|done]. intros Hc. pose proof Hc as Hc'.
  apply check_ip_spec in Hc' as [-> _]. apply ip_address_ok, normalise_ok in Hj. exists (normalise j).
  split_and!; [by apply text_roundtrip|apply normalise_idem|done].
Qed.
Lemma traverse_validated p l l' : traverse (assert_address_allowed p) l = Ok l' → Forall (validated p) (ip_text <$> l').
Proof.
  revert l'. induction l as [|s l IH]; cbn [traverse]; intros l'; [intros [= <-]; constructor|].
  intros (i & Hi & (l2 & Hl & [= <-])%bind_ok)%bind_ok. constructor; [by eapply assert_validated|by apply IH].
Qed.
Lemma resolve_validated p host answer l : resolve_and_check p host answer = Ok l → Forall (validated p) (ip_text <$> l).
Proof.
  unfold resolve_and_check. destruct (ip_address (text_strip host)) as [j|].
  - intros (i & Hi & [= <-])%bind_ok. repeat constructor. by eapply assert_validated.
  - intros (infos & _ & Hl)%bind_ok. destruct (ordered_addresses infos); [done|]. by apply traverse_validated in Hl.
Qed.
Lemma gai_denied_ok {A} (r : result A) x : gai_denied r = Ok x → r = Ok x.
Proof. by destruct r as [|[]]. Qed.

(** ** The cache *)
Definition entry_valid (e : resolution_key * (Z * list bytes)) : Prop := ∀ p host, resolution_key_of p host = e.1 → Forall (validated p) e.2.2.
Definition cache_valid (c : resolution_cache) : Prop := Forall entry_valid c.
Lemma new_entry_valid p host t l : Forall (validated p) l → entry_valid (resolution_key_of p host, (t, l)).
Proof.
  intros Hl q h Hk. eapply Forall_impl; [exact Hl|]. intros a (i & Hi & Hn & Hv). exists i. split_and!; [done..|]. by eapply key_verdict.
Qed.
Definition cache_entry_ok (now : Z) (log : list (Z * resolution_key * list bytes)) (e : resolution_key * (Z * list bytes)) : Prop :=
  (∃ t, (t, e.1, e.2.2) ∈ log ∧ t ≤ now ∧ e.2.1 = t + URL_CACHE_TTL) ∧ entry_valid e.
Lemma entry_later now now' log log' e : cache_entry_ok now log e → now ≤ now' → log ⊆ log' → cache_entry_ok now' log' e.
Proof. intros [(t & Ht & Hle & Hx) Hv] Hn Hl. split; [|done]. exists t. split_and!; [by apply Hl|lia|done]. Qed.
Lemma without_sub key c : without_key key c ⊆ c.
Proof. intros e [_ He]%list_elem_of_filter. done. Qed.
Lemma get_spec now key c r c' :
  cache_get now key c = (r, c') → (c' ⊆ c ∧ (length c' ≤ length c)%nat) ∧ ∀ addresses, r = Some addresses → ∃ t, (key, (t, addresses)) ∈ c ∧ now < t.
Proof.
  unfold cache_get. destruct (List.find _ c) as [[k [t a]]|] eqn:Hf; [|intros [= <- <-]; done].
  apply List.find_some in Hf as [Hin%list_elem_of_In Hk%bool_decide_eq_true_1]. cbn in Hk. subst k.
  assert (length (without_key key c) < length c)%nat as Hlen.
  { eapply length_filter_lt; [exact Hin|]. cbn. auto. }
  destruct (Z.leb_spec t now); intros [= <- <-]; (split; [split|]).
  - apply without_sub.
  - lia.
  - done.
  - intros e [He|He%list_elem_of_singleton]%elem_of_app; [by apply without_sub in He|by subst].
  - rewrite length_app. cbn. lia.
  - intros a' [= <-]. eauto.
Qed.
Lemma put_spec now key a c e : e ∈ cache_put now key a c → e ∈ c ∨ e = (key, (now + URL_CACHE_TTL, a)).
Proof.
  unfold cache_put. set (l := without_key key c ++ _). intros He. assert (e ∈ l) as Hl.
  { rewrite <- (take_drop (length l - URL_CACHE_MAX_ENTRIES) l). apply elem_of_app. by right. }
  apply elem_of_app in Hl as [Hc%without_sub|Hc%list_elem_of_singleton]; auto.
Qed.
Lemma put_bounded now key a c : (length (cache_put now key a c) ≤ URL_CACHE_MAX_ENTRIES)%nat.
Proof. unfold cache_put. rewrite length_drop. lia. Qed.

(** ** Connections and sends *)
(** Where a transport takes its subnets from: fixed ones, or the live setting. *)
Definition subnets_now (source : option (list bytes)) (live : list bytes) : list bytes := default live source.
(** A resolution in flight; [Some] for a connection, with the source of its subnets and
    whether the request carries the default login. *)
Record lookup_task := MkTask {
  lt_policy : policy;
  lt_host : bytes;
  lt_connect : option (option (list bytes) * bool);
}.
Record dial_task := MkDial { dt_policy : policy; dt_source : option (list bytes); dt_contained : bool; dt_resolution : result (list bytes) }.
Record connection := MkConn { cn_policy : policy; cn_source : option (list bytes); cn_stream : stream }.
(** A send: its address, the policy its connection was made under, and, when the request
    carries the default login, the subnets at that moment. *)
Record send := MkSend { sd_address : bytes; sd_policy : policy; sd_contained : bool; sd_live : list bytes }.
Record net_site := MkNetSite {
  ns_now : Z;
  ns_live : list bytes;
  ns_cache : resolution_cache;
  ns_log : list (Z * resolution_key * list bytes);
  ns_lookups : list lookup_task;
  ns_dials : list dial_task;
  ns_conns : list connection;
  ns_sent : list send;
}.
Definition new_dial (task : lookup_task) (r : result (list bytes)) : list dial_task :=
  match lt_connect task with Some (source, contained) => [MkDial (lt_policy task) source contained r] | None => [] end.
(** A caller asks with any policy; a transport asks with the subnets it reads now. *)
Definition task_ok (live : list bytes) (task : lookup_task) : Prop :=
  match lt_connect task with Some (source, _) => po_subnets (lt_policy task) = subnets_now source live | None => True end.

Inductive net_step : net_site → net_site → Prop :=
  | net_tick now now' live c log l d k sent : now ≤ now' → net_step (MkNetSite now live c log l d k sent) (MkNetSite now' live c log l d k sent)
  | net_edit now live live' c log l d k sent : net_step (MkNetSite now live c log l d k sent) (MkNetSite now live' c log l d k sent)
  | net_clear now live c log l d k sent : net_step (MkNetSite now live c log l d k sent) (MkNetSite now live [] log l d k sent)
  | net_ask now live c log l d k sent task r c' :
      task_ok live task → pin_lookup (lt_policy task) (lt_host task) now c = (pin_done r, c') →
      net_step (MkNetSite now live c log l d k sent) (MkNetSite now live c' log l (new_dial task r ++ d) k sent)
  | net_miss now live c log l d k sent task key c' :
      task_ok live task → pin_lookup (lt_policy task) (lt_host task) now c = (pin_miss key, c') →
      net_step (MkNetSite now live c log l d k sent) (MkNetSite now live c' log (task :: l) d k sent)
  | net_resolve now live c log l1 l2 d k sent task answer r c' :
      pin_finish (lt_policy task) (lt_host task) (resolution_key_of (lt_policy task) (lt_host task)) answer now c = (r, c') →
      net_step (MkNetSite now live c log (l1 ++ task :: l2) d k sent)
        (MkNetSite now live c' (match r with Ok a => [(now, resolution_key_of (lt_policy task) (lt_host task), a)] | Raise _ => [] end ++ log) (l1 ++ l2)
           (new_dial task r ++ d) k sent)
  | net_dial now live c log l d1 d2 k sent t dial r :
      connect_resolved (dt_contained t) (po_subnets (dt_policy t)) (dt_resolution t) dial = r →
      net_step (MkNetSite now live c log l (d1 ++ t :: d2) k sent)
        (MkNetSite now live c log l (d1 ++ d2) (match r with Ok s => [MkConn (dt_policy t) (dt_source t) s] | Raise _ => [] end ++ k) sent)
  | net_write now live c log l d k sent cn contained a :
      cn ∈ k → stream_write contained (subnets_now (cn_source cn) live) (cn_stream cn) = Ok a →
      net_step (MkNetSite now live c log l d k sent)
        (MkNetSite now live c log l d k (MkSend a (cn_policy cn) contained (subnets_now (cn_source cn) live) :: sent))
  | net_close now live c log l d k k' sent : k' ⊆ k → net_step (MkNetSite now live c log l d k sent) (MkNetSite now live c log l d k' sent).
Definition fresh_net_site (now : Z) (live : list bytes) : net_site := MkNetSite now live [] [] [] [] [] [].

Definition resolution_ok (p : policy) (r : result (list bytes)) : Prop := ∀ l, r = Ok l → Forall (validated p) l.
Record net_inv (s : net_site) : Prop := {
  ni_cache : Forall (cache_entry_ok (ns_now s) (ns_log s)) (ns_cache s);
  ni_bound : (length (ns_cache s) ≤ URL_CACHE_MAX_ENTRIES)%nat;
  ni_dials : Forall (λ t, resolution_ok (dt_policy t) (dt_resolution t)) (ns_dials s);
  ni_conns : Forall (λ cn, validated (cn_policy cn) (st_address (cn_stream cn))) (ns_conns s);
  ni_sent : Forall (λ sd, validated (sd_policy sd) (sd_address sd) ∧
                          (sd_contained sd = true → address_inside_subnets (sd_live sd) (sd_address sd) = true)) (ns_sent s);
}.
Lemma lookup_spec p host now log c turn c' :
  Forall (cache_entry_ok now log) c → pin_lookup p host now c = (turn, c') →
  Forall (cache_entry_ok now log) c' ∧ (length c' ≤ length c)%nat ∧
  match turn with pin_done r => resolution_ok p r | pin_miss key => key = resolution_key_of p host end.
Proof.
  intros Hc. unfold pin_lookup. destruct (literal_ip host) as [literal|].
  - intros [= <- <-]. split_and!; [done|done|]. intros l (i & Hi & [= <-])%bind_ok. repeat constructor. by eapply assert_validated.
  - destruct (cache_get now (resolution_key_of p host) c) as [r c1] eqn:Hg. apply get_spec in Hg as [[Hsub Hlen] Hr].
    assert (Forall (cache_entry_ok now log) c1) as Hc1 by (rewrite Forall_forall in Hc |- *; intros e He; by apply Hc, Hsub).
    destruct r as [[|a l]|]; intros [= <- <-]; (split_and!; [done|done|]); [done| |done]. intros l' [= <-].
    destruct (Hr _ eq_refl) as (t & Hin & _). rewrite Forall_forall in Hc. destruct (Hc _ Hin) as [_ Hv]. exact (Hv p host eq_refl).
Qed.
Lemma finish_spec p host answer now log c r c' :
  Forall (cache_entry_ok now log) c → (length c ≤ URL_CACHE_MAX_ENTRIES)%nat → pin_finish p host (resolution_key_of p host) answer now c = (r, c') →
  Forall (cache_entry_ok now (match r with Ok a => [(now, resolution_key_of p host, a)] | Raise _ => [] end ++ log)) c' ∧
  (length c' ≤ URL_CACHE_MAX_ENTRIES)%nat ∧ resolution_ok p r.
Proof.
  intros Hc Hlen. unfold pin_finish. destruct (gai_denied _) as [l|e] eqn:Hg; intros [= <- <-]; [|done].
  apply gai_denied_ok, resolve_validated in Hg. split_and!; [|apply put_bounded|by intros l' [= <-]].
  apply Forall_forall. intros e [He| ->]%put_spec.
  - rewrite Forall_forall in Hc. eapply entry_later; [by apply Hc|done|]. by apply list_subseteq_app_r.
  - split; [|by apply new_entry_valid]. exists now. split_and!; [by left|done|done].
Qed.
Lemma dial_spec dial inside last l s : dial_each dial inside last l = Ok s → st_address s ∈ l ∧ st_answer_inside s = inside.
Proof.
  revert last. induction l as [|a l IH]; intros last; cbn [dial_each]; [done|].
  destruct (dial a); [intros [= <-]; split; [by left|done]| |done]. intros [Hin Hs]%IH. split; [by right|done].
Qed.
Lemma new_dial_ok task r d :
  resolution_ok (lt_policy task) r → Forall (λ t, resolution_ok (dt_policy t) (dt_resolution t)) d →
  Forall (λ t, resolution_ok (dt_policy t) (dt_resolution t)) (new_dial task r ++ d).
Proof. intros Hr Hd. apply Forall_app. split; [|done]. unfold new_dial. destruct (lt_connect task) as [[source contained]|]; repeat constructor. done. Qed.
Lemma net_inv_step s s' : net_inv s → net_step s s' → net_inv s'.
Proof.
  intros [Hc Hb Hd Hk Hs] Hst. destruct Hst; cbn in *.
  - split; cbn; try done. eapply Forall_impl; [exact Hc|]. intros e He. by eapply entry_later.
  - by split.
  - split; cbn; (done || lia || constructor).
  - apply lookup_spec with (log := log) in H0 as (Hc' & Hlen & Hr); [|done]. split; cbn; [done|lia| |done|done]. by apply new_dial_ok.
  - apply lookup_spec with (log := log) in H0 as (Hc' & Hlen & Hr); [|done]. split; cbn; done || lia.
  - apply finish_spec with (log := log) in H as (Hc' & Hlen & Hr); [|done|done]. split; cbn; [done|done| |done|done]. by apply new_dial_ok.
  - apply Forall_app in Hd as [Hd1 [Ht Hd2]%Forall_cons]. split; cbn; [done|done|by apply Forall_app| |done].
    destruct r as [st|e]; cbn; [|done]. constructor; [|done]. cbn. unfold connect_resolved in H. apply bind_ok in H as (addresses & Hl & Hdial).
    destruct (_ && _); [done|]. apply dial_spec in Hdial as [Hin _]. assert (dt_resolution t = Ok addresses) as Hr by (by destruct (dt_resolution t) as [|[]]).
    specialize (Ht _ Hr). rewrite Forall_forall in Ht. by apply Ht.
  - split; cbn; [done|done|done|done|]. constructor; [|done]. cbn. unfold stream_write in H0. destruct contained; cbn in H0.
    + destruct (_ && _) eqn:Hg; [|done]. injection H0 as <-. apply andb_true_iff in Hg as [_ Hg]. rewrite Forall_forall in Hk. split; [by apply Hk|done].
    + injection H0 as <-. rewrite Forall_forall in Hk. split; [by apply Hk|done].
  - split; cbn; try done. rewrite Forall_forall in Hk |- *. intros cn Hcn. by apply Hk, H.
Qed.
Lemma net_inv_reachable now live s : rtc net_step (fresh_net_site now live) s → net_inv s.
Proof. apply rtc_ind_r; [|intros ? ? _ Hst Hi; by eapply net_inv_step]. split; cbn; first [lia|constructor]. Qed.

(** C21: every byte goes where the guard allows: whatever callers share the resolution
    cache, whatever the resolver answers in between, and however an administrator edits the
    subnets, a send goes to an address that is loopback, link-local, unspecified, multicast
    or reserved under no policy; to a private one only if the transport honours an opt-in
    and a subnet it read for this connection holds the address; and, when the request
    carries the default login, only inside the subnets of that moment, also on a connection
    that was kept open. *)
Theorem outbound_stays_validated now live s sd :
  rtc net_step (fresh_net_site now live) s → sd ∈ ns_sent s →
  ∃ i, ip_address (sd_address sd) = Some i ∧ tier1 i = false ∧
    (tier2 i = true → po_allow_private (sd_policy sd) = true ∧ in_any i (parse_allowed_subnets (po_subnets (sd_policy sd))) = true) ∧
    (sd_contained sd = true → in_any i (parse_allowed_subnets (sd_live sd)) = true).
Proof.
  intros [_ _ _ _ Hs]%net_inv_reachable Hsd. rewrite Forall_forall in Hs. destruct (Hs sd Hsd) as [(i & Hi & Hn & Hc) Hin].
  apply check_ip_spec in Hc as (_ & H1 & H2). exists i. split_and!; [done|done| |].
  - intros Ht. destruct H2 as [H2|H2]; [congruence|done].
  - intros Hct. specialize (Hin Hct). unfold address_inside_subnets in Hin. by rewrite Hi, Hn in Hin.
Qed.
(** An answer from the cache is recent and was made under the same policy: the
    addresses a lookup serves without asking the resolver are those of a resolution of the
    same host, by case and trailing dot, and the same set of subnets, less than a minute
    ago; and the cache never holds more than its limit. *)
Theorem cached_answer_is_recent now live s p host l c' :
  rtc net_step (fresh_net_site now live) s → literal_ip host = None → pin_lookup p host (ns_now s) (ns_cache s) = (pin_done (Ok l), c') →
  (∃ t, (t, resolution_key_of p host, l) ∈ ns_log s ∧ t ≤ ns_now s < t + URL_CACHE_TTL) ∧ (length (ns_cache s) ≤ URL_CACHE_MAX_ENTRIES)%nat.
Proof.
  intros [Hc Hb _ _ _]%net_inv_reachable Hl. unfold pin_lookup. rewrite Hl. destruct (cache_get _ _ _) as [r c1] eqn:Hg.
  apply get_spec in Hg as [_ Hr]. destruct r as [[|a l']|]; [done| |done]. intros [= <- _]. destruct (Hr _ eq_refl) as (e & Hin & Hlt).
  rewrite Forall_forall in Hc. destruct (Hc _ Hin) as [(t & Ht & Hle & He) _]. cbn in *. split; [|done]. exists t. split; [done|]. lia.
Qed.

(** ** The default login *)
Section binding.
Context (httpx_url : bytes → option (bytes * bytes)).

(** What the loop establishes about each target, given a cache that only holds validated
    answers. *)
Lemma pinned_valid p host call c r c' :
  cache_valid c → pinned_addresses p host call c = (r, c') → cache_valid c' ∧ resolution_ok p r.
Proof.
  intros Hc. unfold pinned_addresses, pin_lookup. destruct (literal_ip host) as [literal|].
  - intros [= <- <-]. split; [done|]. intros l (i & Hi & [= <-])%bind_ok. repeat constructor. by eapply assert_validated.
  - destruct (cache_get _ _ c) as [g c1] eqn:Hg. apply get_spec in Hg as [[Hsub _] Hr].
    assert (cache_valid c1) as Hc1 by (unfold cache_valid in *; rewrite Forall_forall in Hc |- *; intros e He; by apply Hc, Hsub).
    assert (∀ turn, pin_finish p host (resolution_key_of p host) (rc_answer call) (rc_answered_at call) c1 = turn → cache_valid turn.2 ∧ resolution_ok p turn.1) as Hfin.
    { intros turn <-. unfold pin_finish. destruct (gai_denied _) as [l|e] eqn:Hd; [|done]. apply gai_denied_ok, resolve_validated in Hd. cbn. split; [|by intros l' [= <-]].
      apply Forall_forall. intros e [He| ->]%put_spec; [unfold cache_valid in Hc1; rewrite Forall_forall in Hc1; by apply Hc1|].
      by apply new_entry_valid. }
    destruct g as [[|a l]|]; [intros He; by apply (Hfin (r, c'))| |intros He; by apply (Hfin (r, c'))].
    intros [= <- <-]. split; [done|]. intros l' [= <-]. destruct (Hr _ eq_refl) as (t & Hin & _). unfold cache_valid in Hc. rewrite Forall_forall in Hc.
    exact (Hc _ Hin p host eq_refl).
Qed.
(** A target whose host was resolved, under the camera policy, to addresses that are all
    inside the subnets. *)
Definition target_inside (subnets : list bytes) (calls : bytes → resolver_call) (value : option bytes) : Prop :=
  ∃ host c c' l, target_host httpx_url true value = Some host ∧ cache_valid c ∧
    pinned_addresses (MkPolicy true subnets) host (calls host) c = (Ok l, c') ∧ l ≠ [] ∧ Forall (λ a, address_inside_subnets subnets a = true) l.
Lemma all_inside_spec subnets calls n targets c c' :
  cache_valid c → all_inside httpx_url subnets calls n targets c = (Ok true, c') →
  (∀ value, value ∈ targets → is_unset value = false → target_inside subnets calls value) ∧
  ((0 < n)%nat ∨ ∃ value, value ∈ targets ∧ is_unset value = false).
Proof.
  revert n c. induction targets as [|value targets IH]; intros n c Hc; cbn [all_inside].
  - intros [= Hn%bool_decide_eq_true_1 _]. split; [by intros ? ?%elem_of_nil|by left].
  - destruct (is_unset value) eqn:Hu.
    { intros Hr. destruct (IH n c Hc Hr) as [Hall Hex]. split; [|destruct Hex as [|(v & Hv & Hvu)]; [by left|right; exists v; split; [by right|done]]].
      intros v [->|Hv]%elem_of_cons Hvu; [congruence|by apply Hall]. }
    destruct (target_host httpx_url true value) as [host|] eqn:Hh; [|done]. unfold resolve_ips.
    destruct (pinned_addresses _ host (calls host) c) as [r c1] eqn:Hp. pose proof (pinned_valid _ _ _ _ _ _ Hc Hp) as [Hc1 Hr].
    destruct r as [l|e]; [|by destruct e]. destruct (bool_decide_reflect (as_ips l = [])) as [|Hne]; [done|]. cbn [orb].
    destruct (forallb _ (as_ips l)) eqn:Hf; [|done]. cbn [negb]. intros Hrest. destruct (IH (S n) c1 Hc1 Hrest) as [Hall _].
    split; [|right; exists value; split; [by left|done]]. intros v [->|Hv]%elem_of_cons Hvu; [|by apply Hall].
    exists host, c, c1, l. split_and!; [done|done|done|by intros ->|]. rewrite forallb_forall in Hf. apply Forall_forall. intros a Ha.
    unfold as_ips in Hf, Hne. destruct (mapM _ l) as [l'|] eqn:Hm; [|done]. cbn in Hf. apply mapM_Some_1 in Hm.
    apply list_elem_of_lookup in Ha as [k Hk]. destruct (Forall2_lookup_l _ _ _ _ _ Hm Hk) as (i & Hi & Hai). unfold address_inside_subnets.
    destruct (ip_address a) as [j|]; [|done]. cbn in Hai. injection Hai as ->. apply Hf, list_elem_of_In. by eapply list_elem_of_lookup_2.
Qed.
(** The default login is released only towards the allowed subnets: when binding gives
    it out, there is a target, and every target that is set names a host whose every
    resolved address, as the connections dial it, lies inside the subnets of the decision. *)
Theorem default_released_inside {A} targets (login : A) subnets calls c c' :
  cache_valid c → bound_default_credentials httpx_url targets (Some login) subnets calls c = (Ok (Some login), c') →
  (∃ value, value ∈ targets ∧ is_unset value = false) ∧
  ∀ value, value ∈ targets → is_unset value = false → target_inside subnets calls value.
Proof.
  intros Hc. unfold bound_default_credentials, may_substitute_default. case_bool_decide; [done|].
  destruct (all_inside _ _ _ _ _ _) as [[[]|e] c1] eqn:Ha; [|done|done]. intros _. apply all_inside_spec in Ha as [Hall [Hz|Hex]]; [lia|by split|done].
Qed.
(** An edit keeps stored credentials only for known hosts: when it is not said to
    introduce a new host, every value it sets reads as a host that the camera already had. *)
Theorem kept_hosts_were_known before after value :
  introduces_new_host httpx_url before after = false → value ∈ after → is_unset value = false →
  ∃ host old, target_host httpx_url true value = Some host ∧ old ∈ before ∧ target_host httpx_url true old = Some host.
Proof.
  unfold introduces_new_host. intros Hn Hv Hu. rewrite <- not_true_iff_false, existsb_exists in Hn.
  destruct (target_host httpx_url true value) as [host|] eqn:Hh.
  - destruct (decide (host ∈ omap (target_host httpx_url true) before)) as [(old & Ho & Hold)%list_elem_of_omap|Hni]; [eauto|].
    exfalso. apply Hn. exists value. split; [by apply list_elem_of_In|]. by rewrite Hu, Hh, bool_decide_false.
  - exfalso. apply Hn. exists value. split; [by apply list_elem_of_In|]. by rewrite Hu, Hh.
Qed.
End binding.

(** ** The saved subnets *)
Lemma hex_not_space c : hex_char c → latin1_space c = false.
Proof. intros [x Hx]. destruct c as [[] [] [] [] [] [] [] []]; vm_compute in Hx |- *; congruence. Qed.
Lemma last_digit p : 0 ≤ p < 256 → ∃ s d, octet_text p = s ++ [d] ∧ hex_char d.
Proof.
  intros Hp. pose proof (octet_text_hex p Hp) as Hf. destruct (octet_text p) as [|c l] eqn:He using rev_ind.
  - exfalso. revert He. unfold octet_text. by repeat case_match.
  - apply Forall_app in Hf as [_ Hc]. inversion_clear Hc. eauto.
Qed.
Lemma first_char i : ip_ok i → ∃ c s, ip_text i = c :: s ∧ latin1_space c = false.
Proof.
  intros Hi. assert (∃ P : ascii → Prop, (∀ c, P c → latin1_space c = false) ∧ ∃ s t, ip_text i = s ++ t ∧ Forall P s ∧ s ≠ []) as (P & HP & s & t & -> & Hs & Hne).
  { pose proof (text_roundtrip i Hi) as Hrt. destruct i as [n|n sc].
    - exists v4_char. split; [by intros c [?%hex_not_space| ->]|]. exists (v4_text n), []. rewrite app_nil_r. split_and!; [done|by apply v4_text_chars|].
      intros He. cbn [ip_text] in Hrt. rewrite He in Hrt. vm_compute in Hrt. done.
    - exists v6_char. split; [by intros c [?%hex_not_space| ->]|]. exists (v6_text n), (match sc with Some sc => "%"%char :: sc | None => [] end).
      split_and!; [destruct sc; cbn [ip_text]; [done|by rewrite app_nil_r]|apply v6_text_chars|].
      destruct (v6_parts n) as (parts & Hp & Hlen & _). rewrite Hp. intros He. assert (":"%char ∈ join_with ":" parts) as Hin by (apply join_has_sep; lia).
      rewrite He in Hin. by apply elem_of_nil in Hin. }
  destruct s as [|c s]; [done|]. exists c, (s ++ t). split; [done|]. inversion_clear Hs. by apply HP.
Qed.
Lemma network_text_stripped s w : ip_network s = Some w → text_strip (network_text w) = network_text w.
Proof.
  intros (i & p & -> & Hi & Hp)%ip_network_made. destruct (made_spec i p Hi Hp) as (Hok & _ & _ & Hpr). set (w := make_network i p) in *.
  change (network_text w) with (ip_text (network_ip w) ++ "/"%char :: octet_text (nw_prefix w)). rewrite Hpr.
  destruct (first_char _ Hok) as (c & t & -> & Hc). destruct (last_digit p) as (l & d & -> & Hd); [destruct (is_v6 i); cbn in Hp; lia|].
  unfold text_strip. change ((c :: t) ++ "/"%char :: l ++ [d]) with (c :: t ++ (("/"%char :: l) ++ [d])). rewrite app_assoc.
  apply strip_by_ends; [done|by apply hex_not_space].
Qed.
Lemma normalise_from_spec entries norm inv norm' inv' :
  normalise_from norm inv entries = (norm', inv') →
  (∀ t, t ∈ norm' ↔ t ∈ norm ∨ ∃ e w, e ∈ (text_strip <$> entries) ∧ e ≠ [] ∧ ip_network e = Some w ∧ t = network_text w) ∧
  (∀ t, t ∈ inv' ↔ t ∈ inv ∨ (t ∈ (text_strip <$> entries) ∧ t ≠ [] ∧ ip_network t = None)) ∧ (NoDup norm → NoDup norm').
Proof.
  revert norm inv. induction entries as [|raw entries IH]; intros norm inv; cbn [normalise_from fmap list_fmap].
  - intros [= <- <-]. setoid_rewrite elem_of_nil. naive_solver.
  - setoid_rewrite elem_of_cons. case_bool_decide as He.
    { rewrite He. intros (H1 & H2 & H3)%IH. setoid_rewrite H1. setoid_rewrite H2. naive_solver. }
    destruct (ip_network (text_strip raw)) as [w|] eqn:Hw.
    + case_bool_decide as Hin; intros (H1 & H2 & H3)%IH; setoid_rewrite H1; setoid_rewrite H2; (split_and!; [|naive_solver|]).
      * naive_solver.
      * done.
      * setoid_rewrite elem_of_app. setoid_rewrite list_elem_of_singleton. naive_solver.
      * intros Hn. apply H3, NoDup_app. split_and!; [done| |apply NoDup_singleton]. by intros t Ht ->%list_elem_of_singleton.
    + intros (H1 & H2 & H3)%IH. setoid_rewrite H1. setoid_rewrite H2. split_and!; [naive_solver| |done].
      setoid_rewrite elem_of_app. setoid_rewrite list_elem_of_singleton. naive_solver.
Qed.
(** The subnets an administrator saves mean what was typed: the canonical list lets the
    guard accept exactly what the typed entries let it accept, no entry is there twice, and
    the entries sent back as invalid are exactly those that are not blank and would match
    nothing. *)
Theorem saved_subnets_mean_the_same entries norm invalid :
  normalise_subnets entries = (norm, invalid) →
  (∀ i, in_any i (parse_allowed_subnets norm) = in_any i (parse_allowed_subnets entries)) ∧ NoDup norm ∧
  ∀ t, t ∈ invalid ↔ t ∈ (text_strip <$> entries) ∧ t ≠ [] ∧ ip_network t = None.
Proof.
  intros (H1 & H2 & H3)%normalise_from_spec. split_and!; [|by apply H3, NoDup_nil|].
  - intros i. apply eq_true_iff_eq. rewrite !in_allowed. split.
    + intros (x & w & (t & -> & [?%elem_of_nil|(e & w' & He & _ & Hw' & ->)]%H1)%list_elem_of_fmap & Hw & Hi); [done|].
      rewrite (network_text_stripped _ _ Hw'), (network_roundtrip _ _ Hw') in Hw. injection Hw as ->. eauto.
    + intros (e & w & He & Hw & Hi). exists (network_text w), w. split_and!; [|by eapply network_roundtrip|done].
      apply list_elem_of_fmap. exists (network_text w). split; [by erewrite network_text_stripped|]. apply H1. right. exists e, w. split_and!; [done| |done|done].
      intros ->. vm_compute in Hw. done.
  - intros t. rewrite H2. split; [by intros [?%elem_of_nil|]|auto].
Qed.

(** ** Concrete runs *)
Definition lan : list bytes := [b "10.0.0.0/8"].
Definition camera_policy : policy := MkPolicy true lan.
Definition camera_task : lookup_task := MkTask camera_policy (b "cam.local.") (Some (None, true)).
Definition camera_ip : bytes := b "10.1.2.3".
Definition camera_key : resolution_key := resolution_key_of camera_policy (b "CAM.local").
Definition camera_cache : resolution_cache := [(camera_key, (URL_CACHE_TTL, [camera_ip]))].
Definition camera_stream : stream := MkStream camera_ip true.
Definition resolved_site : net_site :=
  MkNetSite 0 lan camera_cache [(0, camera_key, [camera_ip])] [] [MkDial camera_policy None true (Ok [camera_ip])] [] [].
Definition sent_site : net_site :=
  MkNetSite 0 lan camera_cache [(0, camera_key, [camera_ip])] [] [] [MkConn camera_policy None camera_stream]
    [MkSend camera_ip camera_policy true lan].
Lemma resolved_reached : rtc net_step (fresh_net_site 0 lan) resolved_site.
Proof.
  eapply rtc_l; [refine (net_miss 0 lan [] [] [] [] [] [] camera_task camera_key [] eq_refl _); vm_compute; reflexivity|].
  apply rtc_once. refine (net_resolve 0 lan [] [] [] [] [] [] [] camera_task (Ok [camera_ip]) (Ok [camera_ip]) camera_cache _). vm_compute. reflexivity.
Qed.
Lemma sent_reached : rtc net_step (fresh_net_site 0 lan) sent_site.
Proof.
  etransitivity; [exact resolved_reached|].
  eapply rtc_l; [refine (net_dial 0 lan camera_cache _ [] [] [] [] [] _ (λ _, dial_opened) (Ok camera_stream) _); vm_compute; reflexivity|].
  apply rtc_once. refine (net_write 0 lan camera_cache _ [] [] _ [] (MkConn camera_policy None camera_stream) true camera_ip _ _); [by left|].
  vm_compute. reflexivity.
Qed.
Lemma outbound_stays_validated_witness :
  ∃ i, ip_address camera_ip = Some i ∧ tier1 i = false ∧
    (tier2 i = true → true = true ∧ in_any i (parse_allowed_subnets lan) = true) ∧ (true = true → in_any i (parse_allowed_subnets lan) = true).
Proof.
  refine (outbound_stays_validated 0 lan sent_site (MkSend camera_ip camera_policy true lan) sent_reached _). by left.
Defined.
Lemma cached_answer_is_recent_witness :
  (∃ t, (t, camera_key, [camera_ip]) ∈ [(0, camera_key, [camera_ip])] ∧ t ≤ 0 < t + URL_CACHE_TTL) ∧ (length camera_cache ≤ URL_CACHE_MAX_ENTRIES)%nat.
Proof.
  refine (cached_answer_is_recent 0 lan resolved_site camera_policy (b "CAM.local") [camera_ip] camera_cache resolved_reached _ _); vm_compute; reflexivity.
Defined.
Definition demo_url (text : bytes) : option (bytes * bytes) := Some (drop 7 text, []).
Definition camera_call (host : bytes) : resolver_call := MkRc 0 (Ok [camera_ip]) 0.
Lemma default_released_inside_witness :
  (∃ value, value ∈ [Some (b "cam"); None] ∧ is_unset value = false) ∧
  (Some (b "cam") ∈ [Some (b "cam"); None] → is_unset (Some (b "cam")) = false → target_inside demo_url lan camera_call (Some (b "cam"))).
Proof.
  assert (bound_default_credentials demo_url [Some (b "cam"); None] (Some tt) lan camera_call [] =
    (Ok (Some tt), cache_put 0 (resolution_key_of camera_policy (b "cam")) [camera_ip] [])) as H by (vm_compute; reflexivity).
  destruct (default_released_inside demo_url _ tt lan camera_call [] _ (Forall_nil_2 _) H) as [H1 H2]. split; [exact H1|exact (H2 (Some (b "cam")))].
Defined.
Lemma kept_hosts_were_known_witness :
  ∃ host old, target_host demo_url true (Some (b "cam.")) = Some host ∧ old ∈ [Some (b "cam")] ∧ target_host demo_url true old = Some host.
Proof. refine (kept_hosts_were_known demo_url [Some (b "cam")] [Some (b "cam.")] (Some (b "cam.")) _ _ _); [vm_compute; reflexivity|by left|reflexivity]. Defined.
Lemma saved_subnets_mean_the_same_witness :
  NoDup [b "10.0.16.0/24"; b "fd00::/64"].
Proof.
  refine (proj1 (proj2 (saved_subnets_mean_the_same [b "10.0.16.30/24"; b " x"; b ""; b "FD00::1/64 "; b "10.0.16.99/255.255.255.0"]
    [b "10.0.16.0/24"; b "fd00::/64"] [b "x"] _))). vm_compute. reflexivity.
Defined.
