(* ===== verification/CameraConfig.v ===== *)
(** * The camera configuration of a capture

    capture/camera_config.py: the snapshot of a camera row that a capture is built
    from, its fingerprint, and the login it resolves to, over the stored secrets of
    security/crypto.py, the saved default login of
    security/camera_defaults_service.py and the binding of that login to the camera's
    hosts ([Ssrf]).  cameras/registry.py decides the same login for an adapter that is
    built without a session ([effective_credentials]).

    A credential document is a map from field names to texts.  The cipher and the
    digest of the fingerprint are arguments; what is fingerprinted is
    [config_material]. *)

From Stdlib Require Import Ascii.
From S2P Require Import Prelude PyTime PyVal Bytes IpAddress Ssrf.
From stdpp Require Import options.
Local Open Scope Z_scope.

(** [str.lower] and the substring test on ASCII texts. *)
Fixpoint str_lower (s : string) : string :=
  match s with EmptyString => EmptyString | String c s => String (lower_char c) (str_lower s) end.
Fixpoint str_contains (needle s : string) : bool :=
  String.prefix needle s || match s with EmptyString => false | String _ s => str_contains needle s end.

(** A credential document, by field name. *)
Abbreviation credential_document := (gmap string bytes).

(** ** Stored secrets: security/crypto.py *)
Section crypto.
(** Fernet: [cipher.encrypt] and [cipher.decrypt] ([None] for [InvalidToken]). *)
Context (cipher_encrypt : bytes → bytes) (cipher_decrypt : bytes → option bytes).

Definition PREFIX : bytes := b "enc:v1:".
(** [is_encrypted]: the value starts with the prefix *)
Definition is_encrypted (value : bytes) : bool := bool_decide (take (length PREFIX) value = PREFIX).
Definition encrypt_secret (plaintext : bytes) : bytes :=
  match plaintext with [] => [] | _ => PREFIX ++ cipher_encrypt plaintext end.
Definition decrypt_secret (token : bytes) : option bytes :=
  match token with
  | [] => Some []
  | _ => if negb (is_encrypted token) then Some token else cipher_decrypt (drop (length PREFIX) token)
  end.
Definition is_secret_field (key : string) : bool :=
  let lowered := str_lower key in
  str_contains "password" lowered || str_contains "secret" lowered || str_contains "token" lowered.

Definition encrypt_field (key : string) (value : bytes) : bytes := if is_secret_field key then encrypt_secret value else value.
Definition decrypt_field (key : string) (value : bytes) : option bytes := if is_secret_field key then decrypt_secret value else Some value.
Definition encrypt_credentials (credentials : option credential_document) : option credential_document :=
  match credentials with
  | None => None
  | Some d => Some (map_imap (λ key value, Some (encrypt_field key value)) d)
  end.
(** [decrypt_credentials]; the outer [None] is [InvalidToken], which one bad field is
    enough for *)
Definition decrypt_credentials (credentials : option credential_document) : option (option credential_document) :=
  match credentials with
  | None => Some None
  | Some d => if bool_decide (map_Forall (λ key value, is_Some (decrypt_field key value)) d) then Some (Some (map_imap decrypt_field d)) else None
  end.
End crypto.

(** ** Rows *)
Record CameraRow := MkCameraRow {
  cr_protocol : option bytes;
  cr_address : option bytes;
  cr_credentials : option credential_document;
  cr_inherit_default : bool;
  cr_snapshot_uri : option bytes;
  cr_stream_uri : option bytes;
  cr_default_resolution : option bytes;
  cr_updated_at : option Z;
  cr_allow_basic_over_http : bool;
  cr_tls_pinned_cert_pem : option bytes;
}.
(** [CameraDefaultCredentials] *)
Record DefaultsRow := MkDefaultsRow { dr_enabled : bool; dr_username : option bytes; dr_password : option bytes }.

(** [CaptureCameraConfig] *)
Record CaptureCameraConfig := MkCameraConfig {
  cg_protocol : option bytes;
  cg_address : option bytes;
  cg_credentials : option credential_document;
  cg_inherit_default : bool;
  cg_snapshot_uri : option bytes;
  cg_stream_uri : option bytes;
  cg_default_resolution : option bytes;
  cg_updated_at : option Z;
  cg_default_credentials : option (bytes * bytes);
  cg_config_version : option bytes;
  cg_allow_basic_over_http : bool;
  cg_tls_pinned_cert_pem : option bytes;
  cg_default_withheld : bool;
}.

(** [value or None] *)
Definition or_none (value : option bytes) : option bytes := match value with Some [] => None | v => v end.
Definition username_of (credentials : option credential_document) : option bytes := credentials ≫= (.!! "username").
Definition has_own_credentials (credentials : option credential_document) : bool :=
  match username_of credentials with None | Some [] => false | Some _ => true end.
Definition needs_default_credentials (inherit_default : bool) (credentials : option credential_document) : bool :=
  inherit_default && negb (has_own_credentials credentials).

(** ** The fingerprint *)
Inductive material_item :=
  | mi_text (value : option bytes)
  | mi_credentials (value : option credential_document)
  | mi_flag (value : bool)
  | mi_no_defaults
  | mi_defaults (row : option (bool * option bytes * option bytes))
  | mi_basic_over_http
  | mi_pinned (pem : bytes).
(** [config_version], up to the digest *)
Definition config_material (camera : CameraRow) (defaults : option DefaultsRow) : list material_item :=
  let default_part :=
    if needs_default_credentials (cr_inherit_default camera) (cr_credentials camera)
    then mi_defaults ((λ d, (dr_enabled d, dr_username d, dr_password d)) <$> defaults)
    else mi_no_defaults in
  [mi_text (cr_protocol camera); mi_text (cr_address camera); mi_credentials (cr_credentials camera);
   mi_flag (cr_inherit_default camera); mi_text (cr_snapshot_uri camera); mi_text (cr_stream_uri camera);
   mi_text (cr_default_resolution camera); default_part]
  ++ (if cr_allow_basic_over_http camera then [mi_basic_over_http] else [])
  ++ match or_none (cr_tls_pinned_cert_pem camera) with Some pem => [mi_pinned pem] | None => [] end.
Definition config_version (digest : list material_item → bytes) (camera : CameraRow) (defaults : option DefaultsRow) : bytes :=
  digest (config_material camera defaults).

(** ** The login *)
Section login.
Context (cipher_decrypt : bytes → option bytes).

(** [resolve_default_credentials]; the outer [None] is [InvalidToken] *)
Definition resolve_default_credentials (row : option DefaultsRow) : option (option (bytes * bytes)) :=
  match row with
  | None => Some None
  | Some d =>
      match dr_enabled d, or_none (dr_username d) with
      | true, Some username =>
          match or_none (dr_password d) with
          | None => Some (Some (username, []))
          | Some token => (λ password, Some (username, password)) <$> decrypt_secret cipher_decrypt token
          end
      | _, _ => Some None
      end
  end.

(** [credentials_from] (cameras/http_jpeg.py) on a decrypted document *)
Definition login_of (document : credential_document) : option (bytes * bytes) :=
  match or_none (document !! "username") with
  | None => None
  | Some username => Some (username, default [] (document !! "password"))
  end.
(** [effective_credentials]; the outer [None] is [InvalidToken] *)
Definition effective_credentials (credentials : option credential_document) (inherit_default : bool) (default_login : option (bytes * bytes))
    : option (option (bytes * bytes)) :=
  own ← match credentials with
        | None => Some None
        | Some _ => (λ d, d ≫= login_of) <$> decrypt_credentials cipher_decrypt credentials
        end;
  Some match own with
       | Some login => Some login
       | None => if inherit_default then default_login else None
       end.

(** [resolve_capture_credentials] *)
Definition resolve_capture_credentials (config : CaptureCameraConfig) : result (option (bytes * bytes)) :=
  let inherited := if cg_inherit_default config then cg_default_credentials config else None in
  if has_own_credentials (cg_credentials config) then
    match decrypt_credentials cipher_decrypt (cg_credentials config) with
    | None => Raise CredentialDecryptError
    | Some d => Ok match d ≫= login_of with Some login => Some login | None => inherited end
    end
  else Ok inherited.

(** ** Loading *)
Context (httpx_url : bytes → option (bytes * bytes)) (digest : list material_item → bytes).
Definition config_targets (config : CaptureCameraConfig) : camera_targets :=
  MkTargets (cg_address config) (cg_snapshot_uri config) (cg_stream_uri config).
(** What [uses_bound_default] and [default_withheld] read of a configuration. *)
Definition binding_view (config : CaptureCameraConfig) : credential_config :=
  MkCredentials (username_of (cg_credentials config)) (cg_inherit_default config) (bool_decide (is_Some (cg_default_credentials config)))
    (cg_default_withheld config).

(** the snapshot read inside the session *)
Definition read_config (camera : CameraRow) (defaults : option DefaultsRow) : result CaptureCameraConfig :=
  let needs_default := needs_default_credentials (cr_inherit_default camera) (cr_credentials camera) in
  match (if needs_default then resolve_default_credentials defaults else Some None) with
  | None => Raise CredentialDecryptError
  | Some default_credentials =>
      Ok (MkCameraConfig (cr_protocol camera) (cr_address camera) (cr_credentials camera) (cr_inherit_default camera)
            (cr_snapshot_uri camera) (cr_stream_uri camera) (cr_default_resolution camera) (cr_updated_at camera) default_credentials
            (Some (config_version digest camera (if needs_default then defaults else None)))
            (cr_allow_basic_over_http camera) (or_none (cr_tls_pinned_cert_pem camera)) false)
  end.
Definition set_default (login : option (bytes * bytes)) (withheld : bool) (c : CaptureCameraConfig) : CaptureCameraConfig :=
  MkCameraConfig (cg_protocol c) (cg_address c) (cg_credentials c) (cg_inherit_default c) (cg_snapshot_uri c) (cg_stream_uri c)
    (cg_default_resolution c) (cg_updated_at c) login (cg_config_version c) (cg_allow_basic_over_http c) (cg_tls_pinned_cert_pem c) withheld.
(** the binding after the session is released *)
Definition bind_default (subnets : list bytes) (calls : bytes → resolver_call) (cache : resolution_cache) (config : CaptureCameraConfig)
    : result CaptureCameraConfig * resolution_cache :=
  match cg_default_credentials config with
  | None => (Ok config, cache)
  | Some login =>
      match bound_default_credentials httpx_url (camera_credential_targets (config_targets config)) (Some login) subnets calls cache with
      | (Raise e, cache) => (Raise e, cache)
      | (Ok bound, cache) => (Ok (set_default bound (bool_decide (bound = None)) config), cache)
      end
  end.
(** [load_capture_config] *)
Definition load_capture_config (camera : option CameraRow) (defaults : option DefaultsRow) (subnets : list bytes)
    (calls : bytes → resolver_call) (cache : resolution_cache) : result (option CaptureCameraConfig) * resolution_cache :=
  match camera with
  | None => (Ok None, cache)
  | Some camera =>
      match read_config camera defaults with
      | Raise e => (Raise e, cache)
      | Ok config =>
          match bind_default subnets calls cache config with
          | (Raise e, cache) => (Raise e, cache)
          | (Ok config, cache) => (Ok (Some config), cache)
          end
      end
  end.
End login.

(** ** Facts *)
(** Which fields are secret does not change when they are encrypted, and an encrypted
    field is recognised by its prefix. *)
Lemma decrypt_encrypt_secret (enc : bytes → bytes) (dec : bytes → option bytes) (plaintext : bytes) :
  (∀ x, dec (enc x) = Some x) → decrypt_secret dec (encrypt_secret enc plaintext) = Some plaintext.
Proof.
  intros Hcipher. destruct plaintext as [|c s]; [done|].
  exact (Hcipher (c :: s)).
Qed.
Lemma decrypt_encrypt_field (enc : bytes → bytes) (dec : bytes → option bytes) (key : string) (value : bytes) :
  (∀ x, dec (enc x) = Some x) → decrypt_field dec key (encrypt_field enc key value) = Some value.
Proof. intros Hcipher. unfold decrypt_field, encrypt_field. by case_match; [apply decrypt_encrypt_secret|]. Qed.

(** A credential document that was stored with its secret fields encrypted is read
    back as it was, for any cipher whose decryption undoes its encryption. *)
Theorem credentials_roundtrip (enc : bytes → bytes) (dec : bytes → option bytes) (credentials : option credential_document) :
  (∀ x, dec (enc x) = Some x) → decrypt_credentials dec (encrypt_credentials enc credentials) = Some credentials.
Proof.
  intros Hcipher. destruct credentials as [d|]; [|done]. unfold encrypt_credentials, decrypt_credentials.
  rewrite bool_decide_eq_true_2.
  - do 2 f_equal. apply map_eq. intros key. rewrite !map_lookup_imap. destruct (d !! key) as [value|]; [|done].
    cbn. by apply decrypt_encrypt_field.
  - intros key value Hkey. rewrite map_lookup_imap in Hkey. apply bind_Some in Hkey as (v & _ & [= <-]).
    rewrite decrypt_encrypt_field by done. eauto.
Qed.
Lemma credentials_roundtrip_witness :
  decrypt_credentials (λ x, Some (reverse x)) (encrypt_credentials reverse (Some {["username" := b "root"; "password" := b "hunter2"]}))
  = Some (Some {["username" := b "root"; "password" := b "hunter2"]}).
Proof. apply (credentials_roundtrip reverse (λ x, Some (reverse x))). intros x. by rewrite reverse_involutive. Defined.

(** The configuration without its time stamp and fingerprint. *)
Definition capture_fields (c : CaptureCameraConfig) : CaptureCameraConfig :=
  MkCameraConfig (cg_protocol c) (cg_address c) (cg_credentials c) (cg_inherit_default c) (cg_snapshot_uri c) (cg_stream_uri c)
    (cg_default_resolution c) None (cg_default_credentials c) None (cg_allow_basic_over_http c) (cg_tls_pinned_cert_pem c)
    (cg_default_withheld c).
Definition map_result {A B} (f : A → B) (r : result A) : result B := match r with Ok a => Ok (f a) | Raise e => Raise e end.

Lemma material_fields (camera camera' : CameraRow) (d d' : option DefaultsRow) :
  config_material camera d = config_material camera' d' →
  cr_protocol camera = cr_protocol camera' ∧ cr_address camera = cr_address camera' ∧ cr_credentials camera = cr_credentials camera' ∧
  cr_inherit_default camera = cr_inherit_default camera' ∧ cr_snapshot_uri camera = cr_snapshot_uri camera' ∧
  cr_stream_uri camera = cr_stream_uri camera' ∧ cr_default_resolution camera = cr_default_resolution camera' ∧
  cr_allow_basic_over_http camera = cr_allow_basic_over_http camera' ∧
  or_none (cr_tls_pinned_cert_pem camera) = or_none (cr_tls_pinned_cert_pem camera') ∧
  (needs_default_credentials (cr_inherit_default camera) (cr_credentials camera) = true → d = d').
Proof.
  unfold config_material. cbn [app]. intros [= Hpr Had Hcr Hin Hsn Hst Hre Hdef Htail].
  rewrite <- Hcr, <- Hin in Hdef. repeat split; try done.
  1-2: repeat case_match; naive_solver.
  intros Hneed. rewrite Hneed in Hdef. destruct d as [[]|], d' as [[]|]; naive_solver.
Qed.

Lemma same_material_same_config (dec : bytes → option bytes) (digest : list material_item → bytes)
    (camera camera' : CameraRow) (d d' : option DefaultsRow) :
  config_material camera d = config_material camera' d' →
  map_result capture_fields (read_config dec digest camera d) = map_result capture_fields (read_config dec digest camera' d').
Proof.
  intros (Hpr & Had & Hcr & Hin & Hsn & Hst & Hre & Hba & Hpin & Hdef)%material_fields.
  unfold read_config. rewrite <- Hcr, <- Hin.
  destruct (needs_default_credentials _ _) eqn:Hneed; [rewrite (Hdef eq_refl); case_match; [|done]|];
    unfold map_result, capture_fields; cbn; congruence.
Qed.
(** The fingerprint covers everything a capture is built from: two states of the
    camera row and of the default-login row with the same fingerprinted material are
    read as the same configuration, up to the time of the last edit. *)
Theorem fingerprint_covers_config (dec : bytes → option bytes) (digest : list material_item → bytes)
    (camera camera' : CameraRow) (d d' : option DefaultsRow) :
  config_material camera d = config_material camera' d' →
  map_result capture_fields (read_config dec digest camera d) = map_result capture_fields (read_config dec digest camera' d').
Proof. apply same_material_same_config. Qed.
Definition demo_camera (address : bytes) (updated : Z) : CameraRow :=
  MkCameraRow (Some (b "onvif")) (Some address) None true None None None (Some updated) false None.
Definition demo_defaults (password : bytes) : DefaultsRow := MkDefaultsRow true (Some (b "fleet")) (Some password).
Lemma fingerprint_covers_config_witness :
  map_result capture_fields (read_config Some (λ _, []) (demo_camera (b "10.0.0.7") 5) (Some (demo_defaults (b "x"))))
  = map_result capture_fields (read_config Some (λ _, []) (demo_camera (b "10.0.0.7") 9) (Some (demo_defaults (b "x")))).
Proof.
  apply (fingerprint_covers_config Some (λ _, []) (demo_camera (b "10.0.0.7") 5) (demo_camera (b "10.0.0.7") 9)
           (Some (demo_defaults (b "x"))) (Some (demo_defaults (b "x")))). reflexivity.
Defined.

(** A username is not a secret field, so decryption keeps it. *)
Lemma decrypted_username (dec : bytes → option bytes) (d d' : credential_document) :
  decrypt_credentials dec (Some d) = Some (Some d') → d' !! "username" = d !! "username".
Proof.
  unfold decrypt_credentials. case_bool_decide; [|done]. intros [= <-]. rewrite map_lookup_imap.
  by destruct (d !! "username").
Qed.
Lemma own_login (dec : bytes → option bytes) (d d' : credential_document) :
  decrypt_credentials dec (Some d) = Some (Some d') → bool_decide (is_Some (login_of d')) = has_own_credentials (Some d).
Proof.
  intros Hd%decrypted_username. unfold login_of, has_own_credentials, username_of. rewrite Hd. cbn.
  by destruct (d !! "username") as [[|]|].
Qed.

(** The login a capture session resolves, reading the default only when the camera
    needs it, is the login the adapter factory decides with the default always at hand,
    whenever the camera's document and the default can be decrypted. *)
Theorem session_login_is_effective (dec : bytes → option bytes) (digest : list material_item → bytes) (camera : CameraRow)
    (defaults : option DefaultsRow) (default_login : option (bytes * bytes)) :
  is_Some (decrypt_credentials dec (cr_credentials camera)) → resolve_default_credentials dec defaults = Some default_login →
  ∃ config login, read_config dec digest camera defaults = Ok config ∧ resolve_capture_credentials dec config = Ok login ∧
    effective_credentials dec (cr_credentials camera) (cr_inherit_default camera) default_login = Some login.
Proof.
  intros [doc Hdoc] Hdefault. unfold read_config, needs_default_credentials. rewrite Hdefault.
  unfold resolve_capture_credentials, effective_credentials.
  destruct (cr_credentials camera) as [d|] eqn:Hcr.
  - assert (∃ d', doc = Some d') as [d' ->]
      by (unfold decrypt_credentials in Hdoc; case_bool_decide; [injection Hdoc as <-; eauto|done]).
    pose proof (own_login _ _ _ Hdoc) as Hown. rewrite Hdoc. cbn.
    destruct (has_own_credentials (Some d)) eqn:Hhas; rewrite ?andb_false_r, ?andb_true_r; cbn.
    + apply bool_decide_eq_true in Hown as [login Hlogin]. eexists _, _. split; [done|]. cbn. rewrite Hhas. cbn in Hdoc. rewrite Hdoc. cbn. by rewrite Hlogin.
    + apply bool_decide_eq_false, eq_None_not_Some in Hown. rewrite Hown.
      destruct (cr_inherit_default camera); eexists _, _; (split; [done|]); cbn; by rewrite Hhas.
  - cbn. rewrite andb_true_r. destruct (cr_inherit_default camera); cbn; eauto 10.
Qed.
Lemma session_login_is_effective_witness :
  ∃ config login, read_config Some (λ _, []) (demo_camera (b "10.0.0.7") 5) (Some (demo_defaults (b "pw"))) = Ok config ∧
    resolve_capture_credentials Some config = Ok login ∧
    effective_credentials Some None true (Some (b "fleet", b "pw")) = Some login.
Proof.
  apply (session_login_is_effective Some (λ _, []) (demo_camera (b "10.0.0.7") 5) (Some (demo_defaults (b "pw")))).
  - by eexists.
  - reflexivity.
Defined.
