(* ===== verification/EventTriggers.v ===== *)
(** * Event triggers and the listener

    capture/event_triggers.py parses a project's stored triggers, finds the trigger a
    camera event is for, and decides with an [EdgeTracker] whether the event is a rising
    edge.  The listener of capture/supervisor.py adds a cooldown per topic and a bounded
    queue of captures ([consume_event]), paces its subscriptions ([resubscribe]) and
    reports them to the camera's health book.

    Monotonic readings are microseconds ([Z]); the draws of [uuid4] are a function of the
    index of a record.  Records and stored documents are those of [PyVal]; a [dict] of
    strings is a list of pairs with distinct names. *)

From Stdlib Require Import Ascii QArith Qminmax.
From S2P Require Import Prelude PyTime PyVal Env Bytes Anchors Runner CameraHealth Ssrf.
From stdpp Require Import options.
Local Open Scope Z_scope.

(** ** Topics: cameras/events.py *)
Fixpoint join_on (sep : ascii) (l : list string) : string :=
  match l with [] => EmptyString | [s] => s | s :: l => s +:+ String sep (join_on sep l) end.
(** [segment.rpartition(":")[2].strip()] *)
Definition local_name (segment : string) : string := strip (List.last (split_on ":" segment) EmptyString).
(** [canonicalize_topic] *)
Definition canonicalize_topic (raw_topic : string) : string :=
  join_on "/" (filter (.≠ EmptyString) (local_name <$> split_on "/" (strip raw_topic))).

(** ** Triggers *)
Record EventTrigger := MkTrigger {
  et_id : string;
  et_topic_id : string;
  et_label : string;
  et_category : string;
  et_enabled : bool;
  et_cooldown_seconds : Z;
}.
#[export] Instance EventTrigger_eq_dec : EqDecision EventTrigger.
Proof. solve_decision. Defined.
Definition text_or_empty (v : pyval) : string := match v with PStr s => s | _ => EmptyString end.
(** [_parse_one] *)
Definition parse_one (fresh : nat → string) (index : nat) (record : list (string * pyval)) : result EventTrigger :=
  match dict_get record "topic_id" PNone with
  | PStr raw_topic =>
      if bool_decide (strip raw_topic = EmptyString) then Raise (ValueError "topic_id")
      else
        let topic_id := canonicalize_topic raw_topic in
        if bool_decide (topic_id = EmptyString) then Raise (ValueError "topic_id")
        else
          let trigger_id :=
            match dict_get record "id" PNone with
            | PStr raw_id => if bool_decide (strip raw_id = EmptyString) then fresh index else strip raw_id
            | _ => fresh index
            end in
          match dict_get record "cooldown_seconds" (PInt 0) with
          | PInt cooldown =>
              if cooldown <? 0 then Raise (ValueError "cooldown_seconds")
              else Ok (MkTrigger trigger_id topic_id (text_or_empty (dict_get record "label" PNone))
                         (text_or_empty (dict_get record "category" PNone)) (truthy (dict_get record "enabled" (PBool true))) cooldown)
          | _ => Raise (ValueError "cooldown_seconds")
          end
  | _ => Raise (ValueError "topic_id")
  end.
Fixpoint parse_records (fresh : nat → string) (index : nat) (records : list pyval) : result (list EventTrigger) :=
  match records with
  | [] => Ok []
  | PDict record :: records =>
      match parse_one fresh index record with
      | Raise e => Raise e
      | Ok t => match parse_records fresh (S index) records with Raise e => Raise e | Ok ts => Ok (t :: ts) end
      end
  | _ :: _ => Raise (ValueError "mapping")
  end.
(** [parse_triggers] *)
Definition parse_triggers (fresh : nat → string) (stored : pyval) : result (list EventTrigger) :=
  if negb (truthy stored) then Ok []
  else match stored with PList records => parse_records fresh 0 records | _ => Raise (ValueError "event_triggers") end.
(** [serialize_trigger] *)
Definition serialize_trigger (t : EventTrigger) : pyval :=
  PDict [("id", PStr (et_id t)); ("topic_id", PStr (et_topic_id t)); ("label", PStr (et_label t)); ("category", PStr (et_category t));
         ("enabled", PBool (et_enabled t)); ("cooldown_seconds", PInt (et_cooldown_seconds t))].

(** [CameraEvent]: what the rules read of it; [ce_operation] is [event_operation]. *)
Record CameraEvent := MkEvent {
  ce_topic_id : string;
  ce_active : option bool;
  ce_source : list (bytes * bytes);
  ce_operation : option string;
}.
(** [trigger_for_topic], [match_trigger] *)
Definition trigger_for_topic (event : CameraEvent) (triggers : list EventTrigger) : option EventTrigger :=
  let event_topic := canonicalize_topic (ce_topic_id event) in
  List.find (λ t, et_enabled t && String.eqb (et_topic_id t) event_topic) triggers.
Definition match_trigger (event : CameraEvent) (triggers : list EventTrigger) : option EventTrigger :=
  if bool_decide (ce_active event = Some false) then None else trigger_for_topic event triggers.

(** ** Rising edges *)
Definition EDGE_EXPIRY_FLOOR : Z := 60 * SECOND.
Definition EDGE_EXPIRY_COOLDOWNS : Z := 4.
Definition EDGE_MAX_ENTRIES : nat := 256.
Definition EDGE_MAX_ENTRIES_PER_TOPIC : nat := 32.
Definition EDGE_MAX_LIFETIME : Z := 600 * SECOND.
Definition EDGE_MAX_SOURCE_ITEMS : nat := 8.
Definition EDGE_MAX_SOURCE_TEXT : nat := 64.
Definition OPERATION_INITIALIZED : string := "Initialized".
Definition pair_le (x y : bytes * bytes) : Prop := if bool_decide (x.1 = y.1) then text_le x.2 y.2 else text_le x.1 y.1.
#[export] Instance pair_le_dec : RelDecision pair_le.
Proof. intros x y. unfold pair_le. case_bool_decide; apply _. Defined.
(** [_bounded_source] *)
Definition bounded_source (source : list (bytes * bytes)) : gset (bytes * bytes) :=
  list_to_set ((λ item, (take EDGE_MAX_SOURCE_TEXT item.1, take EDGE_MAX_SOURCE_TEXT item.2))
    <$> take EDGE_MAX_SOURCE_ITEMS (merge_sort pair_le source)).
Abbreviation edge_key := (string * gset (bytes * bytes))%type.
Definition key_of_event (event : CameraEvent) : edge_key := (canonicalize_topic (ce_topic_id event), bounded_source (ce_source event)).

(** [EdgeTracker]: the entries in the order of an [OrderedDict], with the value and the
    instant it lapses. *)
Abbreviation EdgeTracker := (list (edge_key * (bool * Z))).
Definition edge_lookup (key : edge_key) (l : EdgeTracker) : option (bool * Z) := snd <$> List.find (λ e, bool_decide (e.1 = key)) l.
Definition edge_without (key : edge_key) (l : EdgeTracker) : EdgeTracker := filter (λ e, e.1 ≠ key) l.
(** [self._entries[key] = value; self._entries.move_to_end(key)] *)
Definition edge_put (key : edge_key) (value : bool * Z) (l : EdgeTracker) : EdgeTracker := edge_without key l ++ [(key, value)].
(** [_prune] *)
Definition edge_prune (now : Z) (l : EdgeTracker) : EdgeTracker := filter (λ e, now < e.2.2) l.
Definition of_topic (topic : string) (e : edge_key * (bool * Z)) : bool := String.eqb e.1.1 topic.
(** the first loop of [_enforce_caps] drops that many of the oldest entries of a topic *)
Fixpoint drop_of_topic (topic : string) (n : nat) (l : EdgeTracker) : EdgeTracker :=
  match l with
  | [] => []
  | e :: l => match n with
              | O => e :: l
              | S n' => if of_topic topic e then drop_of_topic topic n' l else e :: drop_of_topic topic n l
              end
  end.
Definition count_topic (topic : string) (l : EdgeTracker) : nat := length (filter (λ e, of_topic topic e = true) l).
(** [_enforce_caps] *)
Definition enforce_caps (topic : string) (l : EdgeTracker) : EdgeTracker :=
  let l := drop_of_topic topic (count_topic topic l - EDGE_MAX_ENTRIES_PER_TOPIC) l in
  drop (length l - EDGE_MAX_ENTRIES) l.
Definition edge_expiry (trigger : EventTrigger) : Z :=
  Z.min (Z.max (et_cooldown_seconds trigger * EDGE_EXPIRY_COOLDOWNS * SECOND) EDGE_EXPIRY_FLOOR) EDGE_MAX_LIFETIME.
(** the value an entry stands for at an instant *)
Definition edge_value (now : Z) (previous : option (bool * Z)) : option bool :=
  match previous with Some (active, lapses) => if now <? lapses then Some active else None | None => None end.
(** [should_fire] *)
Definition should_fire (event : CameraEvent) (trigger : EventTrigger) (now : Z) (l : EdgeTracker) : bool * EdgeTracker :=
  let initialized := bool_decide (ce_operation event = Some OPERATION_INITIALIZED) in
  match ce_active event with
  | None => (negb initialized, l)
  | Some active =>
      let key := key_of_event event in
      let previous := edge_lookup key l in
      let previous_active := edge_value now previous in
      let l' :=
        if bool_decide (previous_active = Some active) then match previous with Some v => edge_put key v l | None => l end
        else enforce_caps key.1 (edge_put key (active, now + edge_expiry trigger) (edge_prune now l)) in
      (negb initialized && active && negb (bool_decide (previous_active = Some true)), l')
  end.

(** ** The listener: capture/supervisor.py *)
Definition LISTENER_QUEUE_SIZE : nat := 8.
(** [_EventCaptureQueue]: the jobs waiting, and how many were dropped *)
Record CaptureQueue := MkQueue { cq_jobs : list (CameraEvent * EventTrigger); cq_dropped : nat }.
(** [offer] *)
Definition offer (job : CameraEvent * EventTrigger) (q : CaptureQueue) : CaptureQueue :=
  if bool_decide (LISTENER_QUEUE_SIZE ≤ length (cq_jobs q))%nat
  then MkQueue (tail (cq_jobs q) ++ [job]) (S (cq_dropped q))
  else MkQueue (cq_jobs q ++ [job]) (cq_dropped q).
(** What outlives a subscription ([_run_listener]). *)
Record ListenerMemory := MkMemory { lm_last_fired : gmap string Z; lm_tracker : EdgeTracker; lm_queue : CaptureQueue }.
Definition new_memory : ListenerMemory := MkMemory ∅ [] (MkQueue [] 0).
(** one event of [_consume_event_source]; the answer says which trigger it fired *)
Definition consume_event (triggers : list EventTrigger) (now : Z) (event : CameraEvent) (m : ListenerMemory)
    : option EventTrigger * ListenerMemory :=
  match trigger_for_topic event triggers with
  | None => (None, m)
  | Some trigger =>
      let '(fires, tracker) := should_fire event trigger now (lm_tracker m) in
      let m := MkMemory (lm_last_fired m) tracker (lm_queue m) in
      if negb fires then (None, m)
      else
        let topic := ce_topic_id event in
        if match lm_last_fired m !! topic with Some previous => now - previous <? et_cooldown_seconds trigger * SECOND | None => false end
        then (None, m)
        else (Some trigger, MkMemory (<[topic := now]> (lm_last_fired m)) (lm_tracker m) (offer (event, trigger) (lm_queue m)))
  end.
(** the triggers of a subscription: a malformed list matches nothing *)
Definition subscription_triggers (fresh : nat → string) (stored : pyval) : list EventTrigger :=
  match parse_triggers fresh stored with Ok ts => ts | Raise _ => [] end.
(** The events of a listener's life, with the capture jobs they queued and when. *)
Fixpoint consume_all (triggers : list EventTrigger) (events : list (Z * CameraEvent)) (m : ListenerMemory)
    : list (Z * CameraEvent * EventTrigger) * ListenerMemory :=
  match events with
  | [] => ([], m)
  | (now, event) :: events =>
      let '(fired, m) := consume_event triggers now event m in
      let '(rest, m) := consume_all triggers events m in
      (match fired with Some t => (now, event, t) :: rest | None => rest end, m)
  end.

(** [_EventCaptureQueue._consume]: one job at a time, in the order they were queued; of
    jobs given by the instant they were queued and how long they take, the instants they
    start, [free] being when the consumer is next free *)
Fixpoint run_starts (free : Z) (jobs : list (Z * Z)) : list Z :=
  match jobs with
  | [] => []
  | (queued, duration) :: jobs => let start := Z.max free queued in start :: run_starts (start + duration) jobs
  end.

(** ** Subscriptions *)
Inductive transport := vapix_websocket | onvif_pullpoint.
#[export] Instance transport_eq_dec : EqDecision transport.
Proof. solve_decision. Defined.
(** [ListenerState]: the fields the rules read. *)
Record ListenerState := MkListener {
  li_transport : option transport;
  li_consecutive_failures : Z;
  li_downgrades : Z;
  li_attempt_subscribed : bool;
  li_downgrade_reported : bool;
}.
Definition new_listener : ListenerState := MkListener None 0 0 false false.
Definition set_subscribed (v : bool) (failures : Z) (l : ListenerState) : ListenerState :=
  MkListener (li_transport l) failures (li_downgrades l) v (li_downgrade_reported l).
(** [_mark_subscribed] *)
Definition mark_subscribed (camera project : Z) (l : ListenerState) (book : CameraHealthBook)
    : option HealthTransition * ListenerState * CameraHealthBook :=
  if li_attempt_subscribed l then (None, l, book)
  else let '(t, book) := record_listener_success camera project book in (t, set_subscribed true 0 l, book).
(** [listener_subscribed] *)
Definition listener_subscribed (camera project : Z) (tr : transport) (l : ListenerState) (book : CameraHealthBook)
    : option HealthTransition * ListenerState * CameraHealthBook :=
  let reported := if bool_decide (tr = vapix_websocket) then false else li_downgrade_reported l in
  mark_subscribed camera project
    (MkListener (Some tr) (li_consecutive_failures l) (li_downgrades l) (li_attempt_subscribed l) reported) book.
(** [listener_downgraded]; the answer says whether the warning is written *)
Definition listener_downgraded (to_transport : transport) (l : ListenerState) : bool * ListenerState :=
  (negb (li_downgrade_reported l),
   MkListener (Some to_transport) (li_consecutive_failures l) (li_downgrades l + 1) (li_attempt_subscribed l) true).
(** [_note_listener_failure]; the first answer is whether the camera's session is dropped *)
Definition note_listener_failure (camera project : Z) (exc : capture_exc) (text : string) (l : ListenerState) (book : CameraHealthBook)
    : bool * option HealthTransition * ListenerState * CameraHealthBook :=
  let kind := classify_failure exc in
  let dropped := bool_decide (kind = fk_auth) in
  if li_attempt_subscribed l then (dropped, None, l, book)
  else
    let l := set_subscribed false (li_consecutive_failures l + 1) l in
    if bool_decide (kind = fk_local) then (dropped, None, l, book)
    else let '(t, book) := record_listener_failure camera project text book in (dropped, t, l, book).
(** the pacing of [_run_listener]: the attempt count and the delay before the next
    subscription, after one that lived that long *)
Definition LISTENER_HEALTHY_SECONDS : Q := 60.
Definition LISTENER_MIN_RESUBSCRIBE : Q := 5.
Definition resubscribe (base maximum jitter lived : Q) (error : option capture_exc) (attempt : Z) : Z * Q :=
  let healthy := Qle_bool LISTENER_HEALTHY_SECONDS lived in
  let attempt := if healthy then 0 else attempt in
  let failed := match error with Some _ => true | None => false end in
  let attempt := if failed || negb healthy then attempt + 1 else attempt in
  let auth := match error with Some e => bool_decide (classify_failure e = fk_auth) | None => false end in
  (attempt, Qmax (Qmax LISTENER_MIN_RESUBSCRIBE (Qmult 2 base)) (backoff_delay attempt base maximum jitter auth)).
