(* ===== verification/EventTriggersFacts.v ===== *)
(** * Facts about event triggers and the listener *)

From Stdlib Require Import Ascii QArith Qminmax.
From S2P Require Import Prelude PyTime PyVal Env Bytes Anchors AnchorsFacts Runner CameraHealth Ssrf EventTriggers.
From stdpp Require Import options.
Local Open Scope Z_scope.

(** ** Topics *)
Lemma str_app_nil (s : string) : s +:+ EmptyString = s.
Proof. induction s as [|c s IH]; [done|]. change (String c (s +:+ EmptyString) = String c s). by rewrite IH. Qed.
Lemma str_app_assoc (s t u : string) : s +:+ (t +:+ u) = (s +:+ t) +:+ u.
Proof. induction s as [|c s IH]; [done|]. change (String c (s +:+ (t +:+ u)) = String c ((s +:+ t) +:+ u)). by rewrite IH. Qed.
Fixpoint lacks (c : ascii) (s : string) : bool := match s with EmptyString => true | String d s => negb (Ascii.eqb d c) && lacks c s end.
Lemma split_on_lacks (sep : ascii) (s : string) : Forall (λ p, lacks sep p = true) (split_on sep s).
Proof.
  induction s as [|c s IH]; [by repeat constructor|]. cbn. destruct (Ascii.eqb c sep) eqn:Hc; [by constructor|].
  destruct (split_on sep s) as [|p ps]; [constructor; [cbn; by rewrite Hc|done]|].
  apply Forall_cons in IH as [Hp Hps]. constructor; [|done]. cbn. by rewrite Hc, Hp.
Qed.
Lemma split_on_app (sep : ascii) (s t : string) : lacks sep s = true → split_on sep (s +:+ String sep t) = s :: split_on sep t.
Proof.
  induction s as [|c s IH]; intros Hs.
  - change (split_on sep (String sep t) = EmptyString :: split_on sep t). cbn. by rewrite Ascii.eqb_refl.
  - cbn in Hs. apply andb_true_iff in Hs as [Hc Hs]. apply negb_true_iff in Hc.
    change (split_on sep (String c (s +:+ String sep t)) = String c s :: split_on sep t). cbn [split_on]. by rewrite Hc, IH.
Qed.
Lemma split_on_whole (sep : ascii) (s : string) : lacks sep s = true → split_on sep s = [s].
Proof.
  induction s as [|c s IH]; [done|]. cbn. intros [Hc Hs]%andb_true_iff. apply negb_true_iff in Hc. by rewrite Hc, IH.
Qed.
Lemma split_join_on (sep : ascii) (l : list string) : l ≠ [] → Forall (λ p, lacks sep p = true) l → split_on sep (join_on sep l) = l.
Proof.
  induction l as [|s [|t l] IH]; [done|intros _ [Hs _]%Forall_cons; by apply split_on_whole|].
  intros _ [Hs Hl]%Forall_cons. change (split_on sep (s +:+ String sep (join_on sep (t :: l))) = s :: t :: l).
  rewrite split_on_app by done. by rewrite IH.
Qed.
Lemma lacks_lstrip (c : ascii) (s : string) : lacks c s = true → lacks c (lstrip s) = true.
Proof. induction s as [|d s IH]; [done|]. cbn. intros Hs. case_match; [|done]. apply andb_true_iff in Hs as [_ Hs]. auto. Qed.
Lemma lacks_rstrip (c : ascii) (s : string) : lacks c s = true → lacks c (rstrip s) = true.
Proof.
  induction s as [|d s IH]; [done|]. cbn. intros [Hd Hs]%andb_true_iff. specialize (IH Hs).
  destruct (rstrip s) as [|e t]; [destruct (is_space d); cbn; by rewrite ?Hd|]. cbn in *. by rewrite Hd.
Qed.
Lemma lacks_strip (c : ascii) (s : string) : lacks c s = true → lacks c (strip s) = true.
Proof. intros Hs. by apply lacks_rstrip, lacks_lstrip. Qed.

(** A segment of a canonical topic. *)
Record segment_ok (s : string) : Prop := {
  so_some : s ≠ EmptyString;
  so_slash : lacks "/" s = true;
  so_colon : lacks ":" s = true;
  so_strip : strip s = s;
}.
Lemma split_last_lacks (sep : ascii) (s : string) : lacks sep (List.last (split_on sep s) EmptyString) = true.
Proof.
  pose proof (split_on_lacks sep s) as Hall. revert Hall. generalize (split_on sep s). intros l.
  induction l as [|p [|q l] IH]; [done|by intros [Hp _]%Forall_cons|]. intros [_ Hl]%Forall_cons. by apply IH.
Qed.
Lemma lacks_last_of (c sep : ascii) (s : string) : lacks c s = true → lacks c (List.last (split_on sep s) EmptyString) = true.
Proof.
  intros Hs. assert (Hall : Forall (λ p, lacks c p = true) (split_on sep s)).
  { revert Hs. induction s as [|d s IH]; [by repeat constructor|]. cbn. intros [Hd Hs]%andb_true_iff. specialize (IH Hs).
    destruct (Ascii.eqb d sep); [by constructor|]. destruct (split_on sep s) as [|p ps]; [constructor; [cbn; by rewrite Hd|done]|].
    apply Forall_cons in IH as [Hp Hps]. constructor; [|done]. cbn. by rewrite Hd, Hp. }
  revert Hall. generalize (split_on sep s). intros l.
  induction l as [|p [|q l] IH]; [done|by intros [Hp _]%Forall_cons|]. intros [_ Hl]%Forall_cons. by apply IH.
Qed.
Lemma local_name_ok (s : string) : lacks "/" s = true → local_name s ≠ EmptyString → segment_ok (local_name s).
Proof.
  intros Hs Hne. split; [done| | |].
  - apply lacks_strip, lacks_last_of, Hs.
  - apply lacks_strip, split_last_lacks.
  - apply strip_idem.
Qed.
Lemma local_name_fixed (s : string) : segment_ok s → local_name s = s.
Proof. intros [_ _ Hc Hs]. unfold local_name. by rewrite split_on_whole. Qed.

(** Stripping sees the two ends of a text. *)
Lemma lstrip_app (s t : string) : s ≠ EmptyString → lstrip s = s → lstrip (s +:+ t) = s +:+ t.
Proof.
  destruct s as [|c s]; [done|]. intros _ Hs. change (lstrip (String c (s +:+ t)) = String c (s +:+ t)). cbn in Hs |- *.
  destruct (is_space c); [|done]. exfalso. assert (Hlen : ∀ u, (String.length (lstrip u) ≤ String.length u)%nat).
  { induction u as [|d u IH]; [done|]. cbn. case_match; cbn; lia. }
  specialize (Hlen s). rewrite Hs in Hlen. cbn in Hlen. lia.
Qed.
Lemma rstrip_app (s t : string) : t ≠ EmptyString → rstrip t = t → rstrip (s +:+ t) = s +:+ t.
Proof.
  intros Hne Ht. induction s as [|c s IH]; [done|]. change (rstrip (String c (s +:+ t)) = String c (s +:+ t)). cbn [rstrip]. rewrite IH.
  destruct (s +:+ t) as [|d u] eqn:E; [|done]. exfalso. destruct s as [|e s]; [by apply Hne|discriminate E].
Qed.
Lemma strip_ends (s : string) : strip s = s → lstrip s = s ∧ rstrip s = s.
Proof.
  unfold strip. intros Hs. destruct (lstrip_head s) as [Hl|(c & s' & Hl & Hc)].
  - rewrite Hl in Hs. cbn in Hs. by subst s.
  - split; [|rewrite <- Hs at 1; rewrite rstrip_idem; done].
    rewrite Hl in Hs. cbn [rstrip] in Hs. rewrite Hc in Hs. destruct (rstrip s') as [|d u]; subst s; cbn; by rewrite Hc.
Qed.
Lemma join_ends (l : list string) : l ≠ [] → Forall segment_ok l →
  let s := join_on "/" l in s ≠ EmptyString ∧ lstrip s = s ∧ rstrip s = s.
Proof.
  induction l as [|s [|t l] IH]; [done|intros _ [[H1 _ _ H4] _]%Forall_cons; cbn; by split; [|apply strip_ends]|].
  intros _ [[H1 _ _ H4] Hl]%Forall_cons. destruct (IH ltac:(done) Hl) as (IH1 & IH2 & IH3). apply strip_ends in H4 as [H4 H5].
  change (join_on "/" (s :: t :: l)) with (s +:+ String "/" (join_on "/" (t :: l))). clear IH. generalize dependent (join_on "/" (t :: l)). intros u IH1 IH2 IH3.
  assert (Hr : rstrip (String "/" u) = String "/" u) by (cbn [rstrip]; rewrite IH3; by destruct u).
  split_and!; [by destruct s|by apply lstrip_app|by apply rstrip_app].
Qed.
Lemma canonical_segments (raw : string) :
  ∃ l, canonicalize_topic raw = join_on "/" l ∧ Forall segment_ok l.
Proof.
  unfold canonicalize_topic. eexists. split; [done|]. apply Forall_forall. intros s [Hne Hin]%list_elem_of_filter.
  apply list_elem_of_fmap in Hin as (p & -> & Hp). apply local_name_ok; [|done].
  pose proof (split_on_lacks "/" (strip raw)) as Hall. rewrite Forall_forall in Hall. by apply Hall.
Qed.
Lemma canonical_fixed (l : list string) : Forall segment_ok l → canonicalize_topic (join_on "/" l) = join_on "/" l.
Proof.
  intros Hl. destruct (decide (l = [])) as [->|Hne]; [done|]. unfold canonicalize_topic.
  destruct (join_ends l Hne Hl) as (_ & H1 & H2). unfold strip. rewrite H1, H2.
  rewrite split_join_on by (done || (eapply Forall_impl; [exact Hl|by intros s []])). f_equal.
  assert (Hmap : local_name <$> l = l) by (clear -Hl; induction Hl as [|s l Hs _ IH]; [done|cbn; by rewrite local_name_fixed, IH]).
  rewrite Hmap. clear -Hl. induction Hl as [|s l Hs _ IH]; [done|]. rewrite filter_cons_True by apply Hs. by rewrite IH.
Qed.
Lemma canonicalize_idem (raw : string) : canonicalize_topic (canonicalize_topic raw) = canonicalize_topic raw.
Proof. destruct (canonical_segments raw) as (l & -> & Hl). by apply canonical_fixed. Qed.
Lemma canonical_strip (raw : string) : strip (canonicalize_topic raw) = canonicalize_topic raw.
Proof.
  destruct (canonical_segments raw) as (l & -> & Hl). destruct (decide (l = [])) as [->|Hne]; [done|].
  destruct (join_ends l Hne Hl) as (_ & H1 & H2). unfold strip. by rewrite H1, H2.
Qed.

(** ** The stored list *)
(** What every parsed trigger satisfies. *)
Record trigger_wf (t : EventTrigger) : Prop := {
  tw_id : et_id t ≠ EmptyString ∧ strip (et_id t) = et_id t;
  tw_topic : et_topic_id t ≠ EmptyString ∧ canonicalize_topic (et_topic_id t) = et_topic_id t ∧ strip (et_topic_id t) = et_topic_id t;
  tw_cooldown : 0 ≤ et_cooldown_seconds t;
}.
Lemma parse_one_wf (fresh : nat → string) (i : nat) (record : list (string * pyval)) (t : EventTrigger) :
  fresh_ok fresh → parse_one fresh i record = Ok t → trigger_wf t.
Proof.
  intros Hfresh. unfold parse_one. destruct (dict_get record "topic_id" PNone) as [| | | |raw| | |]; try done.
  case_bool_decide; [done|]. case_bool_decide as Htopic; [done|].
  destruct (dict_get record "cooldown_seconds" (PInt 0)) as [| |z| | | | |]; try done. destruct (z <? 0) eqn:Hz; [done|]. intros [= <-].
  split; cbn; [|split_and!; [done|apply canonicalize_idem|apply canonical_strip]|lia].
  destruct (dict_get record "id" PNone) as [| | | |id| | |]; try apply Hfresh. case_bool_decide as Hid; [apply Hfresh|]. split; [done|apply strip_idem].
Qed.
Lemma serialize_parse (fresh : nat → string) (i : nat) (t : EventTrigger) :
  trigger_wf t → ∃ record, serialize_trigger t = PDict record ∧ parse_one fresh i record = Ok t.
Proof.
  intros [[Hid Hid'] (Htopic & Htopic' & Htopic'') Hcd]. eexists. split; [done|]. unfold parse_one. cbn.
  rewrite Htopic'', Htopic', Hid', !bool_decide_eq_false_2 by done. replace (et_cooldown_seconds t <? 0) with false by lia. by destruct t.
Qed.
Lemma parse_records_wf (fresh : nat → string) (records : list pyval) (i : nat) (ts : list EventTrigger) :
  fresh_ok fresh → parse_records fresh i records = Ok ts → Forall trigger_wf ts.
Proof.
  intros Hfresh. revert i ts. induction records as [|v records IH]; intros i ts; cbn; [by intros [= <-]|].
  destruct v as [| | | | | |record|]; try done. destruct (parse_one fresh i record) as [t|] eqn:Ht; [|done].
  destruct (parse_records fresh (S i) records) as [ts'|] eqn:Hts; [|done]. intros [= <-].
  constructor; [by eapply parse_one_wf|by eapply IH].
Qed.
Lemma parse_serialized (fresh : nat → string) (ts : list EventTrigger) (i : nat) :
  Forall trigger_wf ts → parse_records fresh i (serialize_trigger <$> ts) = Ok ts.
Proof.
  intros Hts. revert i. induction Hts as [|t ts Ht _ IH]; intros i; [done|].
  destruct (serialize_parse fresh i t Ht) as (record & Hser & Hparse). rewrite fmap_cons, Hser. cbn. by rewrite Hparse, IH.
Qed.
(** Parsed triggers are a normal form: writing them back to the stored list and
    parsing that gives the same triggers again, whatever identities are drawn then. *)
Theorem triggers_roundtrip (fresh fresh' : nat → string) (stored : pyval) (ts : list EventTrigger) :
  fresh_ok fresh → parse_triggers fresh stored = Ok ts → parse_triggers fresh' (PList (serialize_trigger <$> ts)) = Ok ts.
Proof.
  intros Hfresh. unfold parse_triggers at 1. destruct (negb (truthy stored)); [by intros [= <-]|].
  destruct stored; try done. intros Hts%parse_records_wf; [|done]. unfold parse_triggers.
  destruct ts as [|t ts]; [done|]. cbn [negb truthy fmap list_fmap]. by apply (parse_serialized fresh' (t :: ts)).
Qed.
Lemma triggers_roundtrip_witness :
  parse_triggers (λ _, "00") (PList (serialize_trigger <$> [MkTrigger "f" "Device/IO/VirtualInput" "door" "" true 30]))
  = Ok [MkTrigger "f" "Device/IO/VirtualInput" "door" "" true 30].
Proof.
  apply (triggers_roundtrip (λ _, "f") (λ _, "00")
           (PList [PDict [("topic_id", PStr " tns1:Device/tnsaxis:IO//VirtualInput/ "); ("label", PStr "door"); ("cooldown_seconds", PInt 30)]])).
  - by intros i.
  - vm_compute. reflexivity.
Defined.

(** ** The edge tracker *)
Definition keys (l : EdgeTracker) : list edge_key := l.*1.
Lemma edge_lookup_Some (key : edge_key) (v : bool * Z) (l : EdgeTracker) :
  NoDup (keys l) → edge_lookup key l = Some v ↔ (key, v) ∈ l.
Proof.
  unfold edge_lookup, keys. induction l as [|[k w] l IH]; intros Hnd; cbn; [by rewrite elem_of_nil|].
  rewrite fmap_cons in Hnd. apply NoDup_cons in Hnd as [Hnot Hnd]. case_bool_decide as Hk; cbn in *.
  - subst k. rewrite elem_of_cons. split; [intros [= ->]; by left|]. intros [[= ->]|Hin]; [done|].
    destruct Hnot. apply list_elem_of_fmap. by exists (key, v).
  - rewrite IH, elem_of_cons by done. split; [by right|]. intros [[= -> ->]|]; done.
Qed.
Lemma edge_lookup_None (key : edge_key) (l : EdgeTracker) : edge_lookup key l = None ↔ key ∉ keys l.
Proof.
  unfold edge_lookup, keys. induction l as [|[k w] l IH]; cbn; [by split; [intros _ ?%elem_of_nil|]|].
  rewrite elem_of_cons. case_bool_decide as Hk; cbn in *; [naive_solver|]. rewrite IH. naive_solver.
Qed.
Lemma keys_without (key : edge_key) (l : EdgeTracker) : keys (edge_without key l) = filter (.≠ key) (keys l).
Proof.
  unfold keys, edge_without. induction l as [|e l IH]; [done|]. rewrite fmap_cons.
  destruct (decide (e.1 ≠ key)); [rewrite !filter_cons_True by done; cbn; by rewrite IH|rewrite !filter_cons_False by done; apply IH].
Qed.
Lemma keys_put (key : edge_key) (v : bool * Z) (l : EdgeTracker) : keys (edge_put key v l) = filter (.≠ key) (keys l) ++ [key].
Proof. unfold edge_put, keys. rewrite fmap_app. f_equal. apply keys_without. Qed.
Lemma NoDup_put (key : edge_key) (v : bool * Z) (l : EdgeTracker) : NoDup (keys l) → NoDup (keys (edge_put key v l)).
Proof.
  intros Hnd. rewrite keys_put. apply NoDup_app. split_and!; [by apply NoDup_filter| |apply NoDup_singleton].
  intros k [Hne _]%list_elem_of_filter ->%list_elem_of_singleton. done.
Qed.
Lemma prune_sublist (now : Z) (l : EdgeTracker) : edge_prune now l `sublist_of` l.
Proof. apply sublist_filter. Qed.
Lemma drop_of_topic_sublist (topic : string) (n : nat) (l : EdgeTracker) : drop_of_topic topic n l `sublist_of` l.
Proof.
  revert n. induction l as [|e l IH]; intros [|n]; cbn; [done..|]. case_match; [by apply sublist_cons|by apply sublist_skip].
Qed.
Lemma enforce_caps_sublist (topic : string) (l : EdgeTracker) : enforce_caps topic l `sublist_of` l.
Proof. unfold enforce_caps. etransitivity; [apply sublist_drop|apply drop_of_topic_sublist]. Qed.
Lemma keys_sublist (l k : EdgeTracker) : l `sublist_of` k → keys l `sublist_of` keys k.
Proof. apply fmap_sublist. Qed.
Lemma count_sublist (topic : string) (l k : EdgeTracker) : l `sublist_of` k → (count_topic topic l ≤ count_topic topic k)%nat.
Proof.
  unfold count_topic. intros Hs. induction Hs as [|e l k _ IH|e l k _ IH]; [done| |]; rewrite ?filter_cons; case_decide; cbn; lia.
Qed.
Lemma count_drop_of_topic (topic : string) (n : nat) (l : EdgeTracker) :
  count_topic topic (drop_of_topic topic n l) = (count_topic topic l - n)%nat.
Proof.
  unfold count_topic. revert n. induction l as [|e l IH]; intros [|n]; [done..|cbn; lia|]. cbn [drop_of_topic].
  destruct (of_topic topic e) eqn:He; [|rewrite !filter_cons_False by congruence; apply IH].
  rewrite IH, filter_cons_True by done. cbn. lia.
Qed.

(** Its bounds. *)
Record tracker_ok (l : EdgeTracker) : Prop := {
  to_distinct : NoDup (keys l);
  to_length : (length l ≤ EDGE_MAX_ENTRIES)%nat;
  to_topic : ∀ topic, (count_topic topic l ≤ EDGE_MAX_ENTRIES_PER_TOPIC)%nat;
}.
Lemma put_same (key : edge_key) (v : bool * Z) (l : EdgeTracker) :
  NoDup (keys l) → edge_lookup key l = Some v → edge_put key v l ≡ₚ l.
Proof.
  intros Hnd Hv. apply NoDup_Permutation.
  - eapply NoDup_fmap_1. by apply NoDup_put.
  - by eapply NoDup_fmap_1.
  - intros [k w]. unfold edge_put, edge_without. rewrite elem_of_app, list_elem_of_filter, list_elem_of_singleton. cbn.
    apply edge_lookup_Some in Hv as Hin; [|done]. split; [naive_solver|]. intros Hw. destruct (decide (k = key)) as [->|]; [|by left].
    right. apply edge_lookup_Some in Hw; [|done]. congruence.
Qed.
Lemma count_permutation (topic : string) (l k : EdgeTracker) : l ≡ₚ k → count_topic topic l = count_topic topic k.
Proof. intros Hp. unfold count_topic. by rewrite Hp. Qed.
Lemma count_put_other (topic : string) (key : edge_key) (v : bool * Z) (l : EdgeTracker) :
  topic ≠ key.1 → (count_topic topic (edge_put key v l) ≤ count_topic topic l)%nat.
Proof.
  intros Hne. unfold edge_put, count_topic. rewrite filter_app, length_app, (filter_cons_False _ (key, v)), filter_nil.
  - cbn. pose proof (count_sublist topic (edge_without key l) l (sublist_filter _ _)) as Hc. unfold count_topic in Hc. lia.
  - unfold of_topic. cbn. rewrite String.eqb_eq. congruence.
Qed.
Lemma tracker_ok_put (key : edge_key) (v : bool * Z) (now : Z) (l : EdgeTracker) :
  tracker_ok l → tracker_ok (enforce_caps key.1 (edge_put key v (edge_prune now l))).
Proof.
  intros [Hnd Hlen Htopic].
  assert (Hput : NoDup (keys (edge_put key v (edge_prune now l)))).
  { apply NoDup_put. eapply sublist_NoDup; [exact Hnd|]. apply keys_sublist, prune_sublist. }
  split.
  - eapply sublist_NoDup; [exact Hput|]. apply keys_sublist, enforce_caps_sublist.
  - unfold enforce_caps. rewrite length_drop. lia.
  - intros topic. destruct (decide (topic = key.1)) as [->|Hne].
    + unfold enforce_caps. etransitivity; [apply count_sublist, sublist_drop|]. rewrite count_drop_of_topic. lia.
    + etransitivity; [apply count_sublist, enforce_caps_sublist|]. etransitivity; [by apply count_put_other|].
      etransitivity; [apply count_sublist, prune_sublist|]. apply Htopic.
Qed.
Lemma tracker_ok_fire (event : CameraEvent) (trigger : EventTrigger) (now : Z) (l : EdgeTracker) :
  tracker_ok l → tracker_ok (should_fire event trigger now l).2.
Proof.
  intros Hok. unfold should_fire. destruct (ce_active event) as [active|]; [|done]. cbn [snd]. case_bool_decide; [|by apply tracker_ok_put].
  destruct (edge_lookup (key_of_event event) l) as [v|] eqn:Hv; [|done]. destruct Hok as [Hnd Hlen Htopic].
  pose proof (put_same _ _ _ Hnd Hv) as Hp. split; [by apply NoDup_put|by rewrite Hp|]. intros topic. by rewrite (count_permutation _ _ _ Hp).
Qed.

(** The tracker as one would state it: for each instance of an event the value it last
    changed to, with the instant at which that is forgotten. *)
Definition edge_spec : Type := edge_key → option (bool * Z).
Definition spec_fire (event : CameraEvent) (trigger : EventTrigger) (now : Z) (m : edge_spec) : bool * edge_spec :=
  let initialized := bool_decide (ce_operation event = Some OPERATION_INITIALIZED) in
  match ce_active event with
  | None => (negb initialized, m)
  | Some active =>
      let key := key_of_event event in
      let known := edge_value now (m key) in
      (negb initialized && active && negb (bool_decide (known = Some true)),
       if bool_decide (known = Some active) then m else λ k, if bool_decide (k = key) then Some (active, now + edge_expiry trigger) else m k)
  end.
Fixpoint fire_all (events : list (Z * CameraEvent * EventTrigger)) (l : EdgeTracker) : list bool :=
  match events with
  | [] => []
  | (now, e, t) :: events => let '(fires, l) := should_fire e t now l in fires :: fire_all events l
  end.
Fixpoint spec_all (events : list (Z * CameraEvent * EventTrigger)) (m : edge_spec) : list bool :=
  match events with
  | [] => []
  | (now, e, t) :: events => let '(fires, m) := spec_fire e t now m in fires :: spec_all events m
  end.
Definition agrees (now : Z) (l : EdgeTracker) (m : edge_spec) : Prop :=
  ∀ key t, now ≤ t → edge_value t (edge_lookup key l) = edge_value t (m key).

Lemma lookup_put (key k : edge_key) (v : bool * Z) (l : EdgeTracker) :
  NoDup (keys l) → edge_lookup k (edge_put key v l) = if bool_decide (k = key) then Some v else edge_lookup k l.
Proof.
  intros Hnd. pose proof (NoDup_put key v l Hnd) as Hput. apply option_eq. intros w. rewrite edge_lookup_Some by done.
  unfold edge_put, edge_without. rewrite elem_of_app, list_elem_of_filter, list_elem_of_singleton. cbn.
  case_bool_decide as Hk; [naive_solver|]. rewrite edge_lookup_Some by done. naive_solver.
Qed.
Lemma lookup_prune (now t : Z) (k : edge_key) (l : EdgeTracker) :
  NoDup (keys l) → now ≤ t → edge_value t (edge_lookup k (edge_prune now l)) = edge_value t (edge_lookup k l).
Proof.
  intros Hnd Ht. assert (Hp : NoDup (keys (edge_prune now l))) by (eapply sublist_NoDup; [exact Hnd|]; apply keys_sublist, prune_sublist).
  destruct (edge_lookup k (edge_prune now l)) as [v|] eqn:Hv.
  - apply edge_lookup_Some in Hv as [_ Hin]%list_elem_of_filter; [|done]. by apply edge_lookup_Some in Hin as ->.
  - destruct (edge_lookup k l) as [[a z]|] eqn:Hl; [|done]. apply edge_lookup_Some in Hl; [|done]. cbn.
    destruct (t <? z) eqn:Hz; [|done]. apply edge_lookup_None in Hv. destruct Hv. apply list_elem_of_fmap. exists (k, (a, z)).
    split; [done|]. apply list_elem_of_filter. cbn. split; [lia|done].
Qed.
Lemma caps_idle (topic : string) (l : EdgeTracker) :
  (length l ≤ EDGE_MAX_ENTRIES)%nat → (count_topic topic l ≤ EDGE_MAX_ENTRIES_PER_TOPIC)%nat → enforce_caps topic l = l.
Proof.
  intros Hlen Hcount. unfold enforce_caps. replace (count_topic topic l - EDGE_MAX_ENTRIES_PER_TOPIC)%nat with 0%nat by lia.
  replace (drop_of_topic topic 0 l) with l by (by destruct l). by replace (length l - EDGE_MAX_ENTRIES)%nat with 0%nat by lia.
Qed.
Lemma count_topic_keys (topic : string) (l : EdgeTracker) : count_topic topic l = length (filter (λ k : edge_key, k.1 = topic) (keys l)).
Proof.
  unfold count_topic, keys. induction l as [|e l IH]; [done|]. rewrite fmap_cons. destruct (decide (e.1.1 = topic)) as [He|He].
  - rewrite !filter_cons_True by (done || by apply String.eqb_eq). cbn. by rewrite IH.
  - rewrite !filter_cons_False by (done || (unfold of_topic; rewrite String.eqb_eq; done)). done.
Qed.
(** A tracker over few keys. *)
Lemma few_keys (K : list edge_key) (topic : string) (l : EdgeTracker) :
  NoDup (keys l) → keys l ⊆ K → (length K ≤ EDGE_MAX_ENTRIES)%nat →
  (length (filter (λ k : edge_key, k.1 = topic) K) ≤ EDGE_MAX_ENTRIES_PER_TOPIC)%nat → enforce_caps topic l = l.
Proof.
  intros Hnd Hsub Hlen Htopic. apply caps_idle.
  - transitivity (length (keys l)); [by unfold keys; rewrite length_fmap|]. etransitivity; [|exact Hlen].
    apply submseteq_length, NoDup_submseteq; [done|]. intros k. apply Hsub.
  - rewrite count_topic_keys. etransitivity; [|exact Htopic]. apply submseteq_length, NoDup_submseteq; [by apply NoDup_filter|].
    intros k [Hk Hin]%list_elem_of_filter. apply list_elem_of_filter. split; [done|by apply Hsub].
Qed.
Lemma fire_agrees (K : list edge_key) (event : CameraEvent) (trigger : EventTrigger) (now : Z) (l : EdgeTracker) (m : edge_spec) :
  NoDup (keys l) → keys l ⊆ K → key_of_event event ∈ K → (length K ≤ EDGE_MAX_ENTRIES)%nat →
  (∀ topic, (length (filter (λ k : edge_key, k.1 = topic) K) ≤ EDGE_MAX_ENTRIES_PER_TOPIC)%nat) → agrees now l m →
  let '(fires, l') := should_fire event trigger now l in
  let '(fires', m') := spec_fire event trigger now m in fires = fires' ∧ NoDup (keys l') ∧ keys l' ⊆ K ∧ agrees now l' m'.
Proof.
  intros Hnd Hsub Hkey Hlen Htopic Hag. unfold should_fire, spec_fire. destruct (ce_active event) as [active|]; [|done].
  set (key := key_of_event event) in *. rewrite (Hag key now) by lia. split; [done|].
  case_bool_decide as Hsame.
  - destruct (edge_lookup key l) as [v|] eqn:Hv; [|done]. split_and!; [by apply NoDup_put| |].
    + rewrite keys_put. intros k [[_ Hk]%list_elem_of_filter| ->%list_elem_of_singleton]%elem_of_app; [by apply Hsub|done].
    + intros k t Ht. rewrite lookup_put by done. case_bool_decide; [subst k; rewrite <- Hv|]; by apply Hag.
  - assert (Hnd1 : NoDup (keys (edge_prune now l))) by (eapply sublist_NoDup; [exact Hnd|]; apply keys_sublist, prune_sublist).
    set (l1 := edge_put key (active, now + edge_expiry trigger) (edge_prune now l)).
    assert (Hsub1 : keys l1 ⊆ K).
    { subst l1. rewrite keys_put. intros k [[_ Hk]%list_elem_of_filter| ->%list_elem_of_singleton]%elem_of_app; [|done].
      apply Hsub. eapply sublist_subseteq; [apply keys_sublist, prune_sublist|exact Hk]. }
    assert (Hnd2 : NoDup (keys l1)) by (by apply NoDup_put). rewrite (few_keys K) by done.
    split_and!; [done|done|]. intros k t Ht. subst l1. rewrite lookup_put by done.
    case_bool_decide; [done|]. rewrite lookup_prune by done. by apply Hag.
Qed.
(** As long as the events come from few instances (256, and 32 of a topic), the
    tracker with its pruning, its recency order and its caps decides exactly as the
    specification does that remembers, for each instance, the value it last changed to
    until that lapses. *)
Theorem edge_tracker_exact (K : list edge_key) (events : list (Z * CameraEvent * EventTrigger)) :
  StronglySorted Z.le ((λ e, e.1.1) <$> events) → (∀ e, e ∈ events → key_of_event e.1.2 ∈ K) →
  (length K ≤ EDGE_MAX_ENTRIES)%nat →
  (∀ topic, (length (filter (λ k : edge_key, k.1 = topic) K) ≤ EDGE_MAX_ENTRIES_PER_TOPIC)%nat) →
  fire_all events [] = spec_all events (λ _, None).
Proof.
  intros Hsorted Hkeys Hlen Htopic.
  assert (Hgen : ∀ now l m, NoDup (keys l) → keys l ⊆ K → agrees now l m → (∀ e, e ∈ events → now ≤ e.1.1) →
            fire_all events l = spec_all events m).
  { induction events as [|[[t e] tr] events IH]; intros now l m Hnd Hsub Hag Hlow; [done|].
    cbn in Hsorted. apply StronglySorted_inv in Hsorted as [Hsorted Hle]. rewrite Forall_fmap, Forall_forall in Hle.
    assert (Hag' : agrees t l m). { intros k t' Ht'. apply Hag. specialize (Hlow (t, e, tr) ltac:(by left)). cbn in Hlow. lia. }
    pose proof (fire_agrees K e tr t l m Hnd Hsub (Hkeys (t, e, tr) ltac:(by left)) Hlen Htopic Hag') as Hstep.
    cbn [fire_all spec_all]. destruct (should_fire e tr t l) as [f l'], (spec_fire e tr t m) as [f' m'].
    destruct Hstep as (-> & Hnd' & Hsub' & Hag''). f_equal. apply (IH Hsorted) with t; try done. intros x Hx. apply Hkeys. by right. }
  destruct events as [|[[t e] tr] events]; [done|]. apply (Hgen t); try done; [apply NoDup_nil_2|intros k ?%elem_of_nil; done|].
  cbn in Hsorted. apply StronglySorted_inv in Hsorted as [_ Hle]. rewrite Forall_fmap, Forall_forall in Hle.
  intros x [->|Hx]%elem_of_cons; [done|by apply Hle].
Qed.
Definition demo_event (topic : string) (active : option bool) : CameraEvent := MkEvent topic active [(b "port", b "1")] None.
Definition demo_trigger30 : EventTrigger := MkTrigger "t" "Device/IO" "" "" true 30.
Definition demo_events : list (Z * CameraEvent * EventTrigger) :=
  (λ x : Z * option bool, (x.1 * SECOND, demo_event "tns1:Device/IO" x.2, demo_trigger30)) <$>
    [(0, Some true); (5, Some true); (9, Some false); (10, Some true); (140, Some true); (150, None)].
Lemma edge_tracker_exact_witness : fire_all demo_events [] = [true; false; false; true; true; true].
Proof.
  transitivity (spec_all demo_events (λ _, None)); [|vm_compute; reflexivity].
  apply (edge_tracker_exact [key_of_event (demo_event "tns1:Device/IO" None)]).
  - vm_compute. repeat constructor; discriminate.
  - unfold demo_events. intros e (x & -> & _)%list_elem_of_fmap. by left.
  - unfold EDGE_MAX_ENTRIES. cbn [length]. lia.
  - intros topic. etransitivity; [apply length_filter|]. unfold EDGE_MAX_ENTRIES_PER_TOPIC. cbn [length]. lia.
Defined.

(** Whatever a camera sends, the tracker stays within its bounds: at most 256
    entries, at most 32 of a topic. *)
Theorem edge_tracker_bounded (triggers : list EventTrigger) (events : list (Z * CameraEvent)) :
  let l := lm_tracker (consume_all triggers events new_memory).2 in
  (length l ≤ 256)%nat ∧ ∀ topic, (count_topic topic l ≤ 32)%nat.
Proof.
  assert (Hgen : ∀ m, tracker_ok (lm_tracker m) → tracker_ok (lm_tracker (consume_all triggers events m).2)).
  { induction events as [|[now e] events IH]; intros m Hok; [done|]. cbn [consume_all].
    assert (Hok' : tracker_ok (lm_tracker (consume_event triggers now e m).2)).
    { unfold consume_event. destruct (trigger_for_topic e triggers) as [t|]; [|done].
      pose proof (tracker_ok_fire e t now _ Hok) as Hf. destruct (should_fire e t now (lm_tracker m)) as [f l]. by repeat case_match. }
    destruct (consume_event triggers now e m) as [f m']. specialize (IH m' Hok').
    by destruct (consume_all triggers events m') as [rest m'']. }
  destruct (Hgen new_memory) as [_ Hlen Htopic]; [|by split].
  split; [apply NoDup_nil_2|cbn; lia|]. intros topic. unfold count_topic. cbn. lia.
Qed.

(** ** The cooldown and the queue *)
(** An event that fires: its trigger, its edge, and its distance from the last capture of
    its topic. *)
Lemma consume_fired (triggers : list EventTrigger) (now : Z) (e : CameraEvent) (m m' : ListenerMemory) (tr : EventTrigger) :
  consume_event triggers now e m = (Some tr, m') →
  match_trigger e triggers = Some tr ∧ ce_operation e ≠ Some OPERATION_INITIALIZED ∧
  (∀ p, lm_last_fired m !! ce_topic_id e = Some p → et_cooldown_seconds tr * SECOND ≤ now - p) ∧
  lm_last_fired m' = <[ce_topic_id e := now]> (lm_last_fired m) ∧ lm_queue m' = offer (e, tr) (lm_queue m).
Proof.
  unfold consume_event, match_trigger. destruct (trigger_for_topic e triggers) as [tr'|]; [|done].
  destruct (should_fire e tr' now (lm_tracker m)) as [fires l] eqn:Hf. destruct fires; [|done]. cbn.
  destruct (match lm_last_fired m !! _ with Some _ => _ | None => _ end) eqn:Hcool; [done|]. intros [= <- <-]. cbn.
  assert (Hedge : ce_active e ≠ Some false ∧ ce_operation e ≠ Some OPERATION_INITIALIZED).
  { unfold should_fire in Hf. destruct (ce_active e) as [[]|]; injection Hf as Hf _; revert Hf; case_bool_decide; done. }
  destruct Hedge as [Hactive Hop]. rewrite bool_decide_eq_false_2 by done. split_and!; try done.
  intros p Hp. rewrite Hp in Hcool. lia.
Qed.
Lemma consume_quiet (triggers : list EventTrigger) (now : Z) (e : CameraEvent) (m m' : ListenerMemory) :
  consume_event triggers now e m = (None, m') → lm_last_fired m' = lm_last_fired m ∧ lm_queue m' = lm_queue m.
Proof.
  unfold consume_event. destruct (trigger_for_topic e triggers) as [tr|]; [|by intros [= <-]].
  destruct (should_fire e tr now (lm_tracker m)) as [[] l]; cbn; [|by intros [= <-]]. case_match; [by intros [= <-]|done].
Qed.
Lemma later_than_last (triggers : list EventTrigger) (events : list (Z * CameraEvent)) (m : ListenerMemory) (topic : string) (p : Z) :
  lm_last_fired m !! topic = Some p → StronglySorted Z.le events.*1 → (∀ x, x ∈ events → p ≤ x.1) →
  ∀ t e tr, (t, e, tr) ∈ (consume_all triggers events m).1 → ce_topic_id e = topic → et_cooldown_seconds tr * SECOND ≤ t - p.
Proof.
  revert m p. induction events as [|[now x] events IH]; intros m p Hp Hsorted Hlow t e tr; cbn [consume_all]; [by intros ?%elem_of_nil|].
  cbn in Hsorted. apply StronglySorted_inv in Hsorted as [Hsorted Hle]. rewrite Forall_fmap, Forall_forall in Hle.
  pose proof (Hlow (now, x) ltac:(by left)) as Hnow. cbn in Hnow.
  destruct (consume_event triggers now x m) as [[tx|] m'] eqn:Hx; destruct (consume_all triggers events m') as [rest m''] eqn:Hrest; cbn.
  - apply consume_fired in Hx as (_ & _ & Hcool & Hlast & _). intros [[= -> -> ->]|Hin]%elem_of_cons Htopic; [subst topic; by apply Hcool|].
    destruct (decide (ce_topic_id x = topic)) as [Heq|Hne].
    + specialize (IH m' now). rewrite Hlast, Heq, lookup_insert_eq, Hrest in IH. specialize (IH eq_refl Hsorted Hle t e tr Hin Htopic). lia.
    + specialize (IH m' p). rewrite Hlast, lookup_insert_ne, Hrest in IH by done. eapply IH; eauto. intros y Hy. apply Hlow. by right.
  - apply consume_quiet in Hx as [Hlast _]. intros Hin Htopic. specialize (IH m' p). rewrite Hlast, Hrest in IH.
    eapply IH; eauto. intros y Hy. apply Hlow. by right.
Qed.
Lemma fired_edges (triggers : list EventTrigger) (events : list (Z * CameraEvent)) (m : ListenerMemory) (t : Z) (e : CameraEvent) (tr : EventTrigger) :
  (t, e, tr) ∈ (consume_all triggers events m).1 →
  match_trigger e triggers = Some tr ∧ ce_operation e ≠ Some OPERATION_INITIALIZED ∧ (t, e) ∈ events.
Proof.
  revert m. induction events as [|[now x] events IH]; intros m; cbn [consume_all]; [by intros ?%elem_of_nil|].
  destruct (consume_event triggers now x m) as [[tx|] m'] eqn:Hx; specialize (IH m'); destruct (consume_all triggers events m') as [rest m''];
    cbn in *; [intros [[= -> -> ->]|Hin]%elem_of_cons|intros Hin]; try (destruct (IH Hin) as (? & ? & ?); split_and!; [done|done|by right]).
  apply consume_fired in Hx as (? & ? & _). split_and!; [done|done|by left].
Qed.
Lemma match_trigger_enabled (e : CameraEvent) (triggers : list EventTrigger) (tr : EventTrigger) :
  match_trigger e triggers = Some tr →
  tr ∈ triggers ∧ et_enabled tr = true ∧ et_topic_id tr = canonicalize_topic (ce_topic_id e) ∧ ce_active e ≠ Some false.
Proof.
  unfold match_trigger, trigger_for_topic. case_bool_decide as Ha; [done|]. intros Hf. apply find_some in Hf as [Hin Hp].
  apply andb_true_iff in Hp as [He Ht%String.eqb_eq]. by rewrite list_elem_of_In.
Qed.
Lemma match_trigger_topic (e e' : CameraEvent) (triggers : list EventTrigger) (tr tr' : EventTrigger) :
  ce_topic_id e = ce_topic_id e' → match_trigger e triggers = Some tr → match_trigger e' triggers = Some tr' → tr = tr'.
Proof. unfold match_trigger, trigger_for_topic. intros ->. repeat case_bool_decide; congruence. Qed.

(** C34: over the life of a listener, subscriptions that come and go included, every
    capture job an event queues is for an enabled trigger that watches the event's topic,
    never for a clear or for the state a subscription begins with, and two jobs of one
    topic are queued at least the trigger's cooldown apart.  (When the queued jobs run is
    another matter: [slow_capture_closes_the_gap].) *)
Theorem queued_captures_spaced (triggers : list EventTrigger) (events : list (Z * CameraEvent)) (i : nat) (t : Z) (e : CameraEvent) (tr : EventTrigger) :
  StronglySorted Z.le events.*1 → (consume_all triggers events new_memory).1 !! i = Some (t, e, tr) →
  (tr ∈ triggers ∧ et_enabled tr = true ∧ et_topic_id tr = canonicalize_topic (ce_topic_id e) ∧ ce_active e ≠ Some false ∧
   ce_operation e ≠ Some OPERATION_INITIALIZED) ∧
  ∀ j t' e' tr', (consume_all triggers events new_memory).1 !! j = Some (t', e', tr') → (i < j)%nat → ce_topic_id e' = ce_topic_id e →
    tr' = tr ∧ et_cooldown_seconds tr * SECOND ≤ t' - t.
Proof.
  intros Hsorted Hi. pose proof (fired_edges triggers events new_memory t e tr (list_elem_of_lookup_2 _ _ _ Hi)) as (Hm & Hop & _).
  split; [destruct (match_trigger_enabled _ _ _ Hm) as (? & ? & ? & ?); by split_and!|]. intros j t' e' tr' Hj Hij Htopic.
  pose proof (fired_edges triggers events new_memory t' e' tr' (list_elem_of_lookup_2 _ _ _ Hj)) as (Hm' & _ & _).
  assert (tr' = tr) as -> by (by eapply match_trigger_topic). split; [done|]. clear Hm Hm' Hop. revert i j Hi Hj Hij.
  generalize new_memory. induction events as [|[now x] events IH]; intros m i j Hi Hj Hij; [by destruct i|].
  cbn in Hsorted. apply StronglySorted_inv in Hsorted as [Hsorted Hle]. rewrite Forall_fmap, Forall_forall in Hle. cbn [consume_all] in *.
  destruct (consume_event triggers now x m) as [[tx|] m'] eqn:Hx; specialize (IH Hsorted m');
    pose proof (later_than_last triggers events m' (ce_topic_id x) now) as Hlater;
    destruct (consume_all triggers events m') as [rest m'']; cbn in *; [|by eapply IH].
  destruct j as [|j]; [lia|]. destruct i as [|i]; [|apply (IH i j); auto; lia]. injection Hi as -> -> ->.
  apply consume_fired in Hx as (_ & _ & _ & Hlast & _). rewrite Hlast, lookup_insert_eq in Hlater.
  apply (Hlater eq_refl Hsorted Hle t' e' tr); [|done]. by eapply list_elem_of_lookup_2.
Qed.
Lemma queued_captures_spaced_witness :
  (consume_all [demo_trigger30] (fst <$> demo_events) new_memory).1 !! 0%nat
    = Some (0, demo_event "tns1:Device/IO" (Some true), demo_trigger30) ∧
  et_cooldown_seconds demo_trigger30 * SECOND ≤ 140 * SECOND - 0.
Proof.
  split; [vm_compute; reflexivity|].
  apply (queued_captures_spaced [demo_trigger30] (fst <$> demo_events) 0 0 (demo_event "tns1:Device/IO" (Some true)) demo_trigger30) with
    (j := 1%nat) (e' := demo_event "tns1:Device/IO" (Some true)) (tr' := demo_trigger30).
  - vm_compute. repeat constructor; discriminate.
  - vm_compute. reflexivity.
  - vm_compute. reflexivity.
  - lia.
  - reflexivity.
Defined.

(** The consumer runs its jobs one at a time: while a slow capture runs the next ones wait,
    and then run back to back, closer than the cooldown they were queued with. *)
Theorem slow_capture_closes_the_gap :
  let io active := demo_event "tns1:Device/IO" (Some active) in
  let events := [(0, io true); (15 * SECOND, io false); (30 * SECOND, io true); (45 * SECOND, io false); (60 * SECOND, io true)] in
  let queued := (λ x, x.1.1) <$> (consume_all [demo_trigger30] events new_memory).1 in
  et_cooldown_seconds demo_trigger30 = 30 ∧ queued = [0; 30 * SECOND; 60 * SECOND] ∧
  run_starts 0 (zip queued [60 * SECOND; SECOND; SECOND]) = [0; 60 * SECOND; 61 * SECOND].
Proof. vm_compute. done. Qed.

Lemma tail_drop {A} (n : nat) (l : list A) : tail (drop n l) = drop (S n) l.
Proof. revert n. induction l as [|x l IH]; intros [|n]; try done. apply IH. Qed.
(** While no queued capture has run, the queue of a listener holds the newest
    captures its events caused, at most eight, and counts the older ones as dropped. *)
Theorem queue_keeps_newest (triggers : list EventTrigger) (events : list (Z * CameraEvent)) :
  let '(fired, m) := consume_all triggers events new_memory in
  cq_jobs (lm_queue m) = drop (cq_dropped (lm_queue m)) ((λ x, (x.1.2, x.2)) <$> fired) ∧
  (length (cq_jobs (lm_queue m)) = length fired `min` 8)%nat.
Proof.
  assert (Hgen : ∀ m (seen : list (CameraEvent * EventTrigger)),
    cq_jobs (lm_queue m) = drop (cq_dropped (lm_queue m)) seen → cq_dropped (lm_queue m) = (length seen - 8)%nat →
    let '(fired, m') := consume_all triggers events m in
    let all := seen ++ ((λ x, (x.1.2, x.2)) <$> fired) in
    cq_jobs (lm_queue m') = drop (cq_dropped (lm_queue m')) all ∧ cq_dropped (lm_queue m') = (length all - 8)%nat).
  { induction events as [|[now x] events IH]; intros m seen Hj Hd; cbn [consume_all]; [by rewrite app_nil_r|].
    destruct (consume_event triggers now x m) as [[tx|] m'] eqn:Hx.
    - apply consume_fired in Hx as (_ & _ & _ & _ & Hq). specialize (IH m' (seen ++ [(x, tx)])).
      assert (Hoff : cq_jobs (lm_queue m') = drop (cq_dropped (lm_queue m')) (seen ++ [(x, tx)]) ∧
                     cq_dropped (lm_queue m') = (length (seen ++ [(x, tx)]) - 8)%nat).
      { rewrite Hq. unfold offer, LISTENER_QUEUE_SIZE. rewrite Hj, length_drop, Hd, length_app. cbn [length].
        case_bool_decide as Hfull; cbn [cq_jobs cq_dropped].
        - rewrite tail_drop. split; [|lia]. rewrite drop_app_le by lia. done.
        - rewrite drop_app_le by lia. split; [done|lia]. }
      destruct Hoff as [Hj' Hd']. specialize (IH Hj' Hd'). destruct (consume_all triggers events m') as [rest m''].
      rewrite fmap_cons. cbn [fst snd]. by rewrite <- app_assoc in IH.
    - apply consume_quiet in Hx as [_ Hq]. specialize (IH m' seen). rewrite Hq in IH. specialize (IH Hj Hd).
      by destruct (consume_all triggers events m'). }
  specialize (Hgen new_memory [] eq_refl eq_refl). destruct (consume_all triggers events new_memory) as [fired m]. cbn [app] in Hgen.
  destruct Hgen as [Hj Hd]. split; [done|]. rewrite Hj, length_drop, Hd, length_fmap. lia.
Qed.

(** ** Pacing *)
Local Open Scope Q_scope.
(** Subscriptions are at least five seconds and twice the base delay apart however the
    last one ended, and only one that lived a minute starts the count of attempts over. *)
Theorem subscriptions_paced (base maximum jitter lived : Q) (error : option capture_exc) (attempt : Z) :
  let '(attempt', delay) := resubscribe base maximum jitter lived error attempt in
  5 <= delay ∧ 2 * base <= delay ∧ ((attempt' = attempt + 1)%Z ∨ 60 <= lived ∧ (0 <= attempt' <= 1)%Z).
Proof.
  unfold resubscribe. set (d := backoff_delay _ _ _ _ _). split; [|split].
  - eapply Qle_trans; [|apply Q.le_max_l]. apply Q.le_max_l.
  - eapply Qle_trans; [|apply Q.le_max_l]. apply Q.le_max_r.
  - destruct (Qle_bool LISTENER_HEALTHY_SECONDS lived) eqn:Hh; cbn.
    + right. split; [by apply Qle_bool_iff|]. destruct error; cbn; lia.
    + left. by destruct error.
Qed.
