(* ===== verification/Reconcile.v ===== *)
(** * Reconciliation: the supervisor's registries against the project rows

    The supervisor (capture/supervisor.py) keeps one runner task per capturing project
    and one listener task per project with an enabled event trigger.  A pass reads the
    rows that qualify and converges both registries to them: it relaunches what died or
    is wedged, launches what is missing, stops what no longer qualifies and restarts what
    was edited.  A stop cancels a task and waits for it, so a pass is spread over time;
    [sup_step] interleaves its steps with tasks that end, heartbeats and edits of the rows.

    Both registries go through the same four stages, so they are one map, keyed by the
    [kind] of the task and the project.  The text of events and log lines, the note about
    the gap since the last frame and the eviction of unused HTTP clients are left out. *)

From Stdlib Require Import SpecFloat QArith Qminmax.
From S2P Require Import Prelude PyTime PyVal Env Bytes FrameWriter Anchors Runner CameraHealth CameraConfig.
From stdpp Require Import options.
Local Open Scope Z_scope.

(** ** [==] on stored documents *)
Definition float_is_int (f : spec_float) (z : Z) : bool :=
  match f with
  | S754_zero _ => z =? 0
  | S754_finite s m e =>
      let v := if s then Z.neg m else Z.pos m in
      if 0 <=? e then v * 2 ^ e =? z else v =? z * 2 ^ (- e)
  | _ => false
  end.
Fixpoint py_lookup (kvs : list (string * pyval)) (key : string) : option pyval :=
  match kvs with [] => None | (k, v) :: kvs => if String.eqb k key then Some v else py_lookup kvs key end.
Fixpoint py_eq (x y : pyval) {struct x} : bool :=
  match x, y with
  | PNone, PNone => true
  | PBool a, PBool b => Bool.eqb a b
  | PBool a, PInt b => Z.b2z a =? b
  | PInt a, PBool b => a =? Z.b2z b
  | PInt a, PInt b => a =? b
  | PFloat f, PFloat g => SFeqb f g
  | PFloat f, PInt b => float_is_int f b
  | PFloat f, PBool b => float_is_int f (Z.b2z b)
  | PInt a, PFloat g => float_is_int g a
  | PBool a, PFloat g => float_is_int g (Z.b2z a)
  | PStr s, PStr t => String.eqb s t
  | PList l, PList m =>
      (fix items (l m : list pyval) := match l, m with [], [] => true | v :: l, w :: m => py_eq v w && items l m | _, _ => false end) l m
  | PDict d, PDict e =>
      bool_decide (length d = length e) &&
      (fix entries (d : list (string * pyval)) :=
         match d with
         | [] => true
         | (k, v) :: d => match py_lookup e k with Some w => py_eq v w | None => false end && entries d
         end) d
  | PDatetime s, PDatetime t =>
      match pdt_off s, pdt_off t with
      | None, None => pdt_wall s =? pdt_wall t
      | Some o, Some o' => pdt_wall s - o =? pdt_wall t - o'
      | _, _ => false
      end
  | _, _ => false
  end.
Definition opt_eq {A} (eqb : A → A → bool) (x y : option A) : bool :=
  match x, y with None, None => true | Some a, Some b => eqb a b | _, _ => false end.

(** ** Rows and targets *)
(** [Project]: a JSON column is [None] when it is SQL [NULL]. *)
Record ProjectRow := MkProjectRow {
  jr_id : Z;
  jr_camera_id : Z;
  jr_lifecycle : lifecycle;
  jr_interval : option Z;
  jr_schedule : option (list (string * pyval));
  jr_storage_path : option string;
  jr_stream_id : option string;
  jr_ptz_preset : option string;
  jr_ptz_pan : option float;
  jr_ptz_tilt : option float;
  jr_ptz_zoom : option float;
  jr_start_date : option Z;
  jr_end_date : option Z;
  jr_max_frame_count : option Z;
  jr_frame_count : Z;
  jr_exact_time_anchors : option pyval;
  jr_event_triggers : option pyval;
  jr_active_since : option Z;
  jr_created_at : Z;
}.
Record SupCamera := MkSupCamera { sc_row : CameraRow; sc_latitude : option float; sc_longitude : option float }.
(** The tables a pass reads. *)
Record Tables := MkTables { tb_projects : list ProjectRow; tb_cameras : gmap Z SupCamera; tb_defaults : option DefaultsRow }.

(** [CaptureTarget], in full but for the project's name; [Runner.CaptureTarget] is what
    its loop reads. *)
Record Target := MkSupTarget {
  tg_project_id : Z;
  tg_camera_id : Z;
  tg_interval_seconds : option Z;
  tg_schedule : option (list (string * pyval));
  tg_latitude : option float;
  tg_longitude : option float;
  tg_storage_path : option string;
  tg_stream_id : option string;
  tg_ptz_preset : option string;
  tg_ptz_pan : option float;
  tg_ptz_tilt : option float;
  tg_ptz_zoom : option float;
  tg_start_date : option Z;
  tg_end_date : option Z;
  tg_max_frame_count : option Z;
  tg_exact_time_anchors : pyval;
  tg_event_triggers : pyval;
  tg_active_since : option Z;
  tg_camera_version : option bytes;
}.

(** [_resolve_geolocation] *)
Definition resolve_geolocation (camera : SupCamera) : option float * option float :=
  match sc_latitude camera, sc_longitude camera with Some lat, Some lon => (Some lat, Some lon) | _, _ => (None, None) end.

Section read.
Context (default_interval_seconds : Z) (digest : list material_item → bytes).

(** [target_from_rows] *)
Definition target_from_rows (project : ProjectRow) (camera : SupCamera) (camera_version : option bytes) : Target :=
  let interval := match jr_interval project with None => None | Some n => Some (if n =? 0 then default_interval_seconds else n) end in
  let location := resolve_geolocation camera in
  MkSupTarget (jr_id project) (jr_camera_id project) interval (jr_schedule project) location.1 location.2
    (jr_storage_path project) (jr_stream_id project) (jr_ptz_preset project) (jr_ptz_pan project) (jr_ptz_tilt project)
    (jr_ptz_zoom project) (jr_start_date project) (jr_end_date project) (jr_max_frame_count project)
    (default PNone (jr_exact_time_anchors project)) (default PNone (jr_event_triggers project))
    (Some (default (jr_created_at project) (jr_active_since project))) camera_version.

(** the join: an active project with its camera, which must have a protocol *)
Definition usable_camera (db : Tables) (project : ProjectRow) : option SupCamera :=
  if bool_decide (jr_lifecycle project = lc_active) then
    camera ← tb_cameras db !! jr_camera_id project;
    if bool_decide (is_Some (cr_protocol (sc_row camera))) then Some camera else None
  else None.
Definition capture_configured (project : ProjectRow) : bool :=
  bool_decide (is_Some (jr_interval project)) || bool_decide (is_Some (jr_exact_time_anchors project)).
Definition row_end_reason (now : Z) (project : ProjectRow) : option end_reason :=
  campaign_end_reason now (jr_end_date project) (jr_frame_count project) (jr_max_frame_count project).
(** [_load_targets], the read: the targets, and the campaigns that are over *)
Definition target_of_row (now : Z) (db : Tables) (project : ProjectRow) : option Target :=
  camera ← usable_camera db project;
  if capture_configured project && bool_decide (row_end_reason now project = None)
  then Some (target_from_rows project camera (Some (config_version digest (sc_row camera) (tb_defaults db))))
  else None.
Definition ended_of_row (now : Z) (db : Tables) (project : ProjectRow) : option (Z * end_reason) :=
  _ ← usable_camera db project;
  if capture_configured project then (λ reason, (jr_id project, reason)) <$> row_end_reason now project else None.
Definition set_lifecycle (l : lifecycle) (p : ProjectRow) : ProjectRow :=
  MkProjectRow (jr_id p) (jr_camera_id p) l (jr_interval p) (jr_schedule p) (jr_storage_path p) (jr_stream_id p) (jr_ptz_preset p)
    (jr_ptz_pan p) (jr_ptz_tilt p) (jr_ptz_zoom p) (jr_start_date p) (jr_end_date p) (jr_max_frame_count p) (jr_frame_count p)
    (jr_exact_time_anchors p) (jr_event_triggers p) (jr_active_since p) (jr_created_at p).
(** [_end_campaign]: the row is archived unless it is gone or already is; the answer
    says whether the event was written *)
Definition end_campaign (id : Z) (db : Tables) : bool * Tables :=
  (existsb (λ p, (jr_id p =? id) && negb (bool_decide (jr_lifecycle p = lc_archived))) (tb_projects db),
   MkTables ((λ p, if jr_id p =? id then set_lifecycle lc_archived p else p) <$> tb_projects db) (tb_cameras db) (tb_defaults db)).
(** [_load_targets] *)
Definition load_targets (now : Z) (db : Tables) : list Target * Tables :=
  (omap (target_of_row now db) (tb_projects db),
   foldl (λ db e, (end_campaign e.1 db).2) db (omap (ended_of_row now db) (tb_projects db))).

(** [_has_enabled_event_trigger]: iterating anything but a list, a text or a document
    raises *)
Definition enabled_entry (trigger : pyval) : bool :=
  match trigger with PDict kvs => truthy (dict_get kvs "enabled" (PBool false)) | _ => false end.
Definition has_enabled_event_trigger (triggers : pyval) : result bool :=
  if negb (truthy triggers) then Ok false
  else match triggers with
       | PList l => Ok (existsb enabled_entry l)
       | PStr _ | PDict _ => Ok false
       | _ => Raise TypeError
       end.
(** [_load_listener_targets]: the target of a row has the project's own interval, and no
    campaign bounds *)
Definition listener_target (project : ProjectRow) (camera : SupCamera) (camera_version : option bytes) : Target :=
  let location := resolve_geolocation camera in
  MkSupTarget (jr_id project) (jr_camera_id project) (jr_interval project) (jr_schedule project) location.1 location.2
    (jr_storage_path project) (jr_stream_id project) (jr_ptz_preset project) (jr_ptz_pan project) (jr_ptz_tilt project)
    (jr_ptz_zoom project) None None None
    (default PNone (jr_exact_time_anchors project)) (default PNone (jr_event_triggers project)) None camera_version.
Definition listener_target_of_row (db : Tables) (project : ProjectRow) : result (option Target) :=
  match usable_camera db project, jr_event_triggers project with
  | Some camera, Some triggers =>
      match has_enabled_event_trigger triggers with
      | Raise e => Raise e
      | Ok enabled =>
          Ok (if enabled then Some (listener_target project camera (Some (config_version digest (sc_row camera) (tb_defaults db)))) else None)
      end
  | _, _ => Ok None
  end.
Fixpoint listener_targets_of (db : Tables) (projects : list ProjectRow) : result (list Target) :=
  match projects with
  | [] => Ok []
  | project :: projects =>
      match listener_target_of_row db project, listener_targets_of db projects with
      | Raise e, _ => Raise e
      | _, Raise e => Raise e
      | Ok None, Ok l => Ok l
      | Ok (Some t), Ok l => Ok (t :: l)
      end
  end.
Definition load_listener_targets (db : Tables) : result (list Target) := listener_targets_of db (tb_projects db).
End read.

(** [_loop_affecting_fields], [_listener_affecting_fields]: whether two targets agree on
    them *)
Definition same_loop_fields (x y : Target) : bool :=
  opt_eq Z.eqb (tg_interval_seconds x) (tg_interval_seconds y) && (tg_camera_id x =? tg_camera_id y) &&
  opt_eq (λ d e, py_eq (PDict d) (PDict e)) (tg_schedule x) (tg_schedule y) &&
  opt_eq String.eqb (tg_storage_path x) (tg_storage_path y) && opt_eq String.eqb (tg_stream_id x) (tg_stream_id y) &&
  opt_eq String.eqb (tg_ptz_preset x) (tg_ptz_preset y) && opt_eq SFeqb (tg_ptz_pan x) (tg_ptz_pan y) &&
  opt_eq SFeqb (tg_ptz_tilt x) (tg_ptz_tilt y) && opt_eq SFeqb (tg_ptz_zoom x) (tg_ptz_zoom y) &&
  py_eq (tg_exact_time_anchors x) (tg_exact_time_anchors y).
Definition same_listener_fields (x y : Target) : bool :=
  (tg_camera_id x =? tg_camera_id y) && py_eq (tg_event_triggers x) (tg_event_triggers y).

(** ** Registries *)
Inductive kind := k_capture | k_listener.
#[export] Instance kind_eq_dec : EqDecision kind.
Proof. solve_decision. Defined.
#[export] Instance kind_countable : Countable kind.
Proof.
  refine (inj_countable' (λ k, match k with k_capture => true | k_listener => false end)
            (λ b : bool, if b then k_capture else k_listener) _).
  by intros [].
Defined.
Definition same_fields (k : kind) : Target → Target → bool :=
  match k with k_capture => same_loop_fields | k_listener => same_listener_fields end.

(** How a task ended. *)
Inductive task_status := ts_live | ts_returned | ts_failed | ts_cancelled.
#[export] Instance task_status_eq_dec : EqDecision task_status.
Proof. solve_decision. Defined.
Record Task := MkTask { tk_key : kind * Z; tk_status : task_status }.

(** [_ProjectRunner] with the fields of its [CaptureState] a pass reads, and
    [_ListenerRunner]: the task, what it was launched for, whether its loop ended with its
    campaign ([state == "stopped"]), its relaunches, its heartbeat, and for a listener
    when it may be relaunched. *)
Record Registered := MkRegistered {
  rg_target : Target;
  rg_task : Z;
  rg_stopped : bool;
  rg_restarts : Z;
  rg_started_mono : Q;
  rg_last_cycle_mono : option Q;
  rg_relaunch_not_before : option Q;
}.

(** [_wedge_threshold]; [ANCHOR_JITTER_MAX] is five seconds *)
Record WedgeSettings := MkWedge { ws_max_idle_sleep : Q; ws_timeout : Q; ws_backoff_base : Q; ws_backoff_max : Q }.
Definition wedge_threshold (cfg : WedgeSettings) : Q :=
  Qplus (Qplus (Qplus (Qmult 2 (Qmax 1 (ws_max_idle_sleep cfg))) (Qmult 2 (ws_timeout cfg))) 60) 5.

Inductive problem := pb_cancelled | pb_failed | pb_exited | pb_wedged.
(** [_runner_problem] *)
Definition runner_problem (cfg : WedgeSettings) (mono : Q) (status : task_status) (r : Registered) : option problem :=
  match status with
  | ts_cancelled => Some pb_cancelled
  | ts_failed => Some pb_failed
  | ts_returned => if rg_stopped r then None else Some pb_exited
  | ts_live =>
      let beat := default (rg_started_mono r) (rg_last_cycle_mono r) in
      if Qle_bool (Qminus mono beat) (wedge_threshold cfg) then None else Some pb_wedged
  end.
(** the health pass of [_reconcile_listeners] *)
Definition listener_problem (mono : Q) (status : task_status) (r : Registered) : option problem :=
  if bool_decide (status = ts_live) then None
  else match rg_relaunch_not_before r with
       | Some t => if Qle_bool t mono then Some pb_exited else None
       | None => Some pb_exited
       end.
Definition problem_of (cfg : WedgeSettings) (k : kind) (mono : Q) (status : task_status) (r : Registered) : option problem :=
  match k with k_capture => runner_problem cfg mono status r | k_listener => listener_problem mono status r end.
(** [_on_listener_done], for a task that was not cancelled *)
Definition LISTENER_MIN_RESUBSCRIBE_SECONDS : Q := 5.
Definition relaunch_instant (cfg : WedgeSettings) (mono : Q) (r : Registered) : Q :=
  Qplus mono (Qmax (backoff_delay (rg_restarts r + 1) (ws_backoff_base cfg) (ws_backoff_max cfg) 0 false) LISTENER_MIN_RESUBSCRIBE_SECONDS).

(** ** A pass *)
Inductive stage := sg_health | sg_launch | sg_stale | sg_changed.
#[export] Instance stage_eq_dec : EqDecision stage.
Proof. solve_decision. Defined.
(** Where a pass is: the registry and the stage it is at, the rows it read for it, the
    relaunches it counted, the projects still to visit, the project and the
    entry it has taken out and whose cancelled task it waits for (with whether that task
    was still running), and every target it has read. *)
Record Pass := MkPass {
  pa_kind : kind;
  pa_stage : stage;
  pa_qualifying : gmap Z Target;
  pa_restarts : gmap Z Z;
  pa_todo : list Z;
  pa_await : option (Z * Registered * bool);
  pa_targets : list Target;
}.
Inductive sup_event := se_relaunched (k : kind) (project : Z).
(** The supervisor: [sp_observed] is what the last pass reported to the camera sessions. *)
Record Sup := MkSup {
  sp_runners : gmap (kind * Z) Registered;
  sp_tasks : gmap Z Task;
  sp_next : Z;
  sp_pass : option Pass;
  sp_stopped : bool;
  sp_tables : Tables;
  sp_book : CameraHealthBook;
  sp_transitions : list HealthTransition;
  sp_events : list sup_event;
  sp_observed : list Target;
}.
Definition set_pass (p : option Pass) (s : Sup) : Sup :=
  MkSup (sp_runners s) (sp_tasks s) (sp_next s) p (sp_stopped s) (sp_tables s) (sp_book s) (sp_transitions s) (sp_events s) (sp_observed s).
Definition set_runners (m : gmap (kind * Z) Registered) (s : Sup) : Sup :=
  MkSup m (sp_tasks s) (sp_next s) (sp_pass s) (sp_stopped s) (sp_tables s) (sp_book s) (sp_transitions s) (sp_events s) (sp_observed s).
Definition set_tables (db : Tables) (s : Sup) : Sup :=
  MkSup (sp_runners s) (sp_tasks s) (sp_next s) (sp_pass s) (sp_stopped s) db (sp_book s) (sp_transitions s) (sp_events s) (sp_observed s).
Definition set_book (b : CameraHealthBook) (ts : list HealthTransition) (s : Sup) : Sup :=
  MkSup (sp_runners s) (sp_tasks s) (sp_next s) (sp_pass s) (sp_stopped s) (sp_tables s) b ts (sp_events s) (sp_observed s).

(** [_launch], [_launch_listener] *)
Definition launch (k : kind) (t : Target) (restarts : Z) (mono : Q) (s : Sup) : Sup :=
  MkSup (<[(k, tg_project_id t) := MkRegistered t (sp_next s) false restarts mono None None]> (sp_runners s))
    (<[sp_next s := MkTask (k, tg_project_id t) ts_live]> (sp_tasks s)) (sp_next s + 1)
    (sp_pass s) (sp_stopped s) (sp_tables s) (sp_book s) (sp_transitions s) (sp_events s) (sp_observed s).
Definition status_of (s : Sup) (task : Z) : task_status := from_option tk_status ts_cancelled (sp_tasks s !! task).

(** [_stop_listener] after its wait: the camera's streak of this project is forgotten and,
    when the project has no listener any more and no other listener watches the camera,
    its alert resolved *)
Definition watches (camera : Z) (e : (kind * Z) * Registered) : bool :=
  bool_decide (e.1.1 = k_listener) && (tg_camera_id (rg_target e.2) =? camera).
Definition forget_stopped (retire : bool) (target : Target) (s : Sup) : Sup :=
  let camera := tg_camera_id target in
  let book := forget_listener camera (tg_project_id target) (sp_book s) in
  if retire && negb (existsb (watches camera) (map_to_list (sp_runners s))) then
    match resolve_events camera book with
    | (Some t, book) => set_book book (sp_transitions s ++ [t]) s
    | (None, book) => set_book book (sp_transitions s) s
    end
  else set_book book (sp_transitions s) s.
Definition is_live (status : task_status) : bool := bool_decide (status = ts_live).

(** The projects of a registry. *)
Definition registered (k : kind) (s : Sup) : list Z :=
  omap (λ e : (kind * Z) * Registered, if bool_decide (e.1.1 = k) then Some e.1.2 else None) (map_to_list (sp_runners s)).
Definition stale_of (k : kind) (qualifying : gmap Z Target) (s : Sup) : list Z :=
  filter (λ p, qualifying !! p = None) (registered k s).
Definition differs (k : kind) (s : Sup) (e : Z * Target) : bool :=
  match sp_runners s !! (k, e.1) with Some r => negb (same_fields k (rg_target r) e.2) | None => false end.
Definition changed_of (k : kind) (qualifying : gmap Z Target) (s : Sup) : list Z :=
  fst <$> filter (λ e, differs k s e = true) (map_to_list qualifying).
Definition by_project (targets : list Target) : gmap Z Target := list_to_map ((λ t, (tg_project_id t, t)) <$> reverse targets).

Definition move_pass (sg : stage) (todo : list Z) (pa : Pass) : Pass :=
  MkPass (pa_kind pa) sg (pa_qualifying pa) (pa_restarts pa) todo None (pa_targets pa).
Definition set_todo (todo : list Z) (pa : Pass) : Pass := move_pass (pa_stage pa) todo pa.
Definition count_restart (p n : Z) (pa : Pass) : Pass :=
  MkPass (pa_kind pa) (pa_stage pa) (pa_qualifying pa) (<[p := n]> (pa_restarts pa)) (pa_todo pa) (pa_await pa) (pa_targets pa).
Definition set_await (a : option (Z * Registered * bool)) (pa : Pass) : Pass :=
  MkPass (pa_kind pa) (pa_stage pa) (pa_qualifying pa) (pa_restarts pa) (pa_todo pa) a (pa_targets pa).
Definition emit_event (e : sup_event) (s : Sup) : Sup :=
  MkSup (sp_runners s) (sp_tasks s) (sp_next s) (sp_pass s) (sp_stopped s) (sp_tables s) (sp_book s) (sp_transitions s)
    (sp_events s ++ [e]) (sp_observed s).
Definition set_observed (targets : list Target) (s : Sup) : Sup :=
  MkSup (sp_runners s) (sp_tasks s) (sp_next s) (sp_pass s) (sp_stopped s) (sp_tables s) (sp_book s) (sp_transitions s)
    (sp_events s) targets.

(** [_stop_runner], [_stop_listener] up to the wait: the entry leaves the registry and its
    task is cancelled *)
Definition begin_stop (p : Z) (r : Registered) (pa : Pass) (s : Sup) : Sup :=
  set_pass (Some (set_await (Some (p, r, is_live (status_of s (rg_task r)))) pa)) (set_runners (delete (pa_kind pa, p) (sp_runners s)) s).

Section pass.
Context (cfg : WedgeSettings) (default_interval_seconds : Z) (digest : list material_item → bytes).

(** One project of a stage; [pa] is already past it. *)
Definition visit (mono : Q) (p : Z) (pa : Pass) (s : Sup) : Sup :=
  let k := pa_kind pa in
  match pa_stage pa, sp_runners s !! (k, p), pa_qualifying pa !! p with
  | sg_health, Some r, Some _ =>
      match problem_of cfg k mono (status_of s (rg_task r)) r with
      | Some _ => begin_stop p r (count_restart p (rg_restarts r + 1) pa) s
      | None => set_pass (Some pa) s
      end
  | sg_launch, None, Some t => launch k t (default 0 (pa_restarts pa !! p)) mono (set_pass (Some pa) s)
  | sg_stale, Some r, _ | sg_changed, Some r, _ => begin_stop p r pa s
  | sg_changed, None, Some t => launch k t 0 mono (set_pass (Some pa) s)
  | _, _, _ => set_pass (Some pa) s
  end.
(** What follows the wait for a cancelled task. *)
Definition after_stop (mono : Q) (written : bool) (p : Z) (r : Registered) (pa : Pass) (s : Sup) : Sup :=
  let k := pa_kind pa in
  let s := match k with
           | k_capture => s
           | k_listener => forget_stopped (bool_decide (pa_stage pa = sg_stale)) (rg_target r) s
           end in
  match pa_stage pa with
  | sg_health => if written then emit_event (se_relaunched k p) s else s
  | sg_changed => match pa_qualifying pa !! p with Some t => launch k t 0 mono s | None => s end
  | _ => s
  end.
(** The end of a stage. *)
Definition next_stage (pa : Pass) (s : Sup) : Sup :=
  let k := pa_kind pa in
  match pa_stage pa with
  | sg_health => set_pass (Some (move_pass sg_launch (map_to_list (pa_qualifying pa)).*1 pa)) s
  | sg_launch => set_pass (Some (move_pass sg_stale (stale_of k (pa_qualifying pa) s) pa)) s
  | sg_stale => set_pass (Some (move_pass sg_changed (changed_of k (pa_qualifying pa) s) pa)) s
  | sg_changed =>
      match k with
      | k_listener => set_observed (pa_targets pa) (set_pass None s)
      | k_capture =>
          match load_listener_targets digest (sp_tables s) with
          | Raise _ => set_pass None s
          | Ok targets =>
              set_pass (Some (MkPass k_listener sg_health (by_project targets) ∅ (registered k_listener s) None (pa_targets pa ++ targets))) s
          end
      end
  end.
(** One turn of a pass, [None] while it waits for a task to end ([_cancel_and_wait]: an
    error of that task other than its cancellation ends the pass); [written]: whether the
    event of a relaunch could be written. *)
Definition pass_turn (mono : Q) (written : bool) (s : Sup) : option Sup :=
  pa ← sp_pass s;
  match pa_await pa with
  | Some (p, r, waited) =>
      let status := status_of s (rg_task r) in
      if is_live status then None
      else if waited && bool_decide (status = ts_failed) then Some (set_pass None s)
      else Some (after_stop mono written p r pa (set_pass (Some (set_await None pa)) s))
  | None => Some match pa_todo pa with p :: rest => visit mono p (set_todo rest pa) s | [] => next_stage pa s end
  end.
(** [_reconcile_once_locked]: the read that begins a pass *)
Definition begin_pass (now : Z) (s : Sup) : Sup :=
  let '(targets, db) := load_targets default_interval_seconds digest now (sp_tables s) in
  set_pass (Some (MkPass k_capture sg_health (by_project targets) ∅ (registered k_capture s) None targets)) (set_tables db s).

(** A task ends: the state of the runner it belongs to says whether its campaign did, and
    a listener gets the instant of its relaunch ([_on_listener_done]). *)
Definition note_end (how : task_status) (campaign_over : bool) (mono : Q) (k : kind) (r : Registered) : Registered :=
  match k with
  | k_capture =>
      MkRegistered (rg_target r) (rg_task r) (rg_stopped r || (campaign_over && bool_decide (how = ts_returned))) (rg_restarts r)
        (rg_started_mono r) (rg_last_cycle_mono r) (rg_relaunch_not_before r)
  | k_listener =>
      MkRegistered (rg_target r) (rg_task r) (rg_stopped r) (rg_restarts r) (rg_started_mono r) (rg_last_cycle_mono r)
        (if bool_decide (how = ts_cancelled) then rg_relaunch_not_before r else Some (relaunch_instant cfg mono r))
  end.
Definition note_beat (mono : Q) (r : Registered) : Registered :=
  MkRegistered (rg_target r) (rg_task r) (rg_stopped r) (rg_restarts r) (rg_started_mono r) (Some mono) (rg_relaunch_not_before r).
Definition on_task (id : Z) (f : Registered → Registered) (r : Registered) : Registered := if rg_task r =? id then f r else r.
Definition end_task (id : Z) (t : Task) (how : task_status) (campaign_over : bool) (mono : Q) (s : Sup) : Sup :=
  MkSup (alter (on_task id (note_end how campaign_over mono (tk_key t).1)) (tk_key t) (sp_runners s))
    (<[id := MkTask (tk_key t) how]> (sp_tasks s)) (sp_next s) (sp_pass s) (sp_stopped s) (sp_tables s) (sp_book s)
    (sp_transitions s) (sp_events s) (sp_observed s).
(** [stop]: the pass is cancelled first, then every task; the registries are kept *)
Definition stop_supervisor (s : Sup) : Sup :=
  MkSup (sp_runners s) (sp_tasks s) (sp_next s) None true (sp_tables s) (sp_book s) (sp_transitions s) (sp_events s) (sp_observed s).

(** ** Steps *)
Inductive pass_step : Sup → Sup → Prop :=
  | ps_turn mono written s s' : pass_turn mono written s = Some s' → pass_step s s'.
Inductive env_step : Sup → Sup → Prop :=
  | es_end id t how campaign_over mono s :
      sp_tasks s !! id = Some t → tk_status t = ts_live → how ≠ ts_live →
      env_step s (end_task id t how campaign_over mono s)
  | es_beat id t mono s :
      sp_tasks s !! id = Some t → tk_status t = ts_live →
      env_step s (set_runners (alter (on_task id (note_beat mono)) (tk_key t) (sp_runners s)) s)
  | es_edit db s : env_step s (set_tables db s)
  | es_book book transitions s : env_step s (set_book book transitions s).
Inductive sup_step : Sup → Sup → Prop :=
  | ss_begin now s : sp_pass s = None → sp_stopped s = false → sup_step s (begin_pass now s)
  | ss_pass s s' : pass_step s s' → sup_step s s'
  | ss_env s s' : env_step s s' → sup_step s s'
  | ss_fail s : sup_step s (match sp_pass s with
                            | Some pa => if bool_decide (pa_await pa = None) then set_pass None s else s
                            | None => s
                            end)
  | ss_stop s : sup_step s (stop_supervisor s).
End pass.

(** [start]: the rows that qualify are launched before the first pass *)
Definition start (default_interval_seconds : Z) (digest : list material_item → bytes) (now : Z) (mono : Q) (db : Tables)
    (book : CameraHealthBook) : Sup :=
  let '(targets, db') := load_targets default_interval_seconds digest now db in
  let listeners := match load_listener_targets digest db' with Ok l => l | Raise _ => [] end in
  let empty := MkSup ∅ ∅ 0 None false db' book [] [] [] in
  let s := foldl (λ s t, launch k_capture t 0 mono s) empty targets in
  let s := foldl (λ s t, launch k_listener t 0 mono s) s listeners in
  set_observed (targets ++ listeners) s.
