(* ===== verification/ReconcileFacts.v ===== *)
(** * Facts about reconciliation

    In every state the supervisor reaches, whatever ends, beats or is edited between the
    turns of a pass: a project has at most one running task of each kind ([base_ok]), and
    a pass that gets to the end of a registry leaves in it exactly the projects that
    qualified, with the configuration it read ([pass_ok]).  Every pass ends. *)

From Stdlib Require Import SpecFloat QArith Qminmax.
From S2P Require Import Prelude PyTime PyVal Env Bytes FrameWriter Anchors Runner CameraHealth CameraConfig EventTriggers Reconcile.
From stdpp Require Import options.
Local Open Scope Z_scope.

(** The fields of a supervisor after an operation. *)
Ltac sup_cbn :=
  cbn [sp_runners sp_tasks sp_next sp_pass sp_stopped sp_tables set_pass set_runners set_tables set_book set_observed emit_event launch
       begin_stop end_task stop_supervisor].

(** ** Tasks and entries *)
(** The task a pass waits for. *)
Definition awaiting (s : Sup) : option ((kind * Z) * Z) :=
  pa ← sp_pass s; a ← pa_await pa; Some ((pa_kind pa, a.1.1), rg_task a.1.2).
Definition owned (s : Sup) (key : kind * Z) (id : Z) : Prop :=
  (∃ r, sp_runners s !! key = Some r ∧ rg_task r = id) ∨ awaiting s = Some (key, id).
Record base_ok (s : Sup) : Prop := {
  b_fresh : ∀ id t, sp_tasks s !! id = Some t → id < sp_next s;
  b_entry : ∀ key r, sp_runners s !! key = Some r →
      (∃ st, sp_tasks s !! rg_task r = Some (MkTask key st)) ∧ tg_project_id (rg_target r) = key.2;
  b_await : ∀ key id, awaiting s = Some (key, id) → sp_runners s !! key = None ∧ ∃ st, sp_tasks s !! id = Some (MkTask key st);
  b_live : ∀ id key, sp_tasks s !! id = Some (MkTask key ts_live) → sp_stopped s = false → owned s key id;
  b_unique : ∀ id id' key, sp_tasks s !! id = Some (MkTask key ts_live) → sp_tasks s !! id' = Some (MkTask key ts_live) → id = id';
  b_stopped : sp_stopped s = true → sp_pass s = None;
}.
Lemma base_ok_ext (s s' : Sup) :
  base_ok s → sp_runners s' = sp_runners s → sp_tasks s' = sp_tasks s → sp_next s' = sp_next s → sp_pass s' = sp_pass s →
  sp_stopped s' = sp_stopped s → base_ok s'.
Proof.
  intros [H1 H2 H3 H4 H5 H6] Hr Ht Hn Hp Hs.
  split; unfold owned, awaiting in *; rewrite ?Hr, ?Ht, ?Hn, ?Hp, ?Hs; done.
Qed.
Lemma status_live (s : Sup) (id : Z) : status_of s id = ts_live → ∃ key, sp_tasks s !! id = Some (MkTask key ts_live).
Proof. unfold status_of. destruct (sp_tasks s !! id) as [[key st]|]; cbn; [intros ->; eauto|done]. Qed.
Lemma live_status (s : Sup) (id : Z) (key : kind * Z) : sp_tasks s !! id = Some (MkTask key ts_live) → status_of s id = ts_live.
Proof. unfold status_of. by intros ->. Qed.

(** A pass moves on without waiting, or past a task that has ended. *)
Lemma base_set_pass (p : option Pass) (s : Sup) :
  base_ok s → sp_stopped s = false ∨ p = None → awaiting (set_pass p s) = None →
  (∀ key id, awaiting s = Some (key, id) → status_of s id ≠ ts_live) → base_ok (set_pass p s).
Proof.
  intros [H1 H2 H3 H4 H5 H6] Hgo Haw Hended. split; sup_cbn; try done.
  - intros key id Hx. congruence.
  - intros id key Hid Hs. destruct (H4 id key Hid Hs) as [Hr|Ha]; [by left|].
    exfalso. by apply (Hended key id Ha), (live_status _ _ key).
  - intros Hs. destruct Hgo; congruence.
Qed.
Lemma base_begin_stop (p : Z) (r : Registered) (pa : Pass) (s : Sup) :
  base_ok s → awaiting s = None → sp_stopped s = false → sp_runners s !! (pa_kind pa, p) = Some r → base_ok (begin_stop p r pa s).
Proof.
  intros [H1 H2 H3 H4 H5 H6] Haw Hs Hr. split; sup_cbn; try done.
  - intros key r' [Hne Hr']%lookup_delete_Some. by apply H2.
  - intros key id [= <- <-]. rewrite lookup_delete_eq. split; [done|]. by apply H2.
  - intros id key Hid _. destruct (H4 id key Hid Hs) as [(r' & Hr' & <-)|Ha]; [|by rewrite Haw in Ha].
    destruct (decide (key = (pa_kind pa, p))) as [->|Hne].
    + right. unfold awaiting. cbn. by simplify_eq.
    + left. exists r'. sup_cbn. by rewrite lookup_delete_ne.
  - by rewrite Hs.
Qed.
Lemma base_launch (k : kind) (t : Target) (n : Z) (mono : Q) (s : Sup) :
  base_ok s → awaiting s = None → sp_stopped s = false → sp_runners s !! (k, tg_project_id t) = None → base_ok (launch k t n mono s).
Proof.
  intros [H1 H2 H3 H4 H5 H6] Haw Hs Hnone.
  assert (Hnew : sp_tasks s !! sp_next s = None)
    by (destruct (sp_tasks s !! sp_next s) as [t'|] eqn:E; [apply H1 in E; lia|done]).
  assert (Hdead : ∀ id, sp_tasks s !! id ≠ Some (MkTask (k, tg_project_id t) ts_live)).
  { intros id Hid. destruct (H4 id _ Hid Hs) as [(r & Hr & _)|Ha]; congruence. }
  split; sup_cbn; try done.
  - intros id t' [[<- _]|[_ Hid]]%lookup_insert_Some; [lia|]. apply H1 in Hid. lia.
  - intros key r [[<- <-]|[Hne Hr]]%lookup_insert_Some; cbn.
    + split; [|done]. exists ts_live. by rewrite lookup_insert_eq.
    + destruct (H2 key r Hr) as [[st Hst] Hp]. split; [|done]. exists st. rewrite lookup_insert_ne; [done|congruence].
  - intros key id. change (awaiting _) with (awaiting s). by rewrite Haw.
  - intros id key [[<- [= <-]]|[Hne Hid]]%lookup_insert_Some _.
    + left. eexists. sup_cbn. by rewrite lookup_insert_eq.
    + destruct (H4 id key Hid Hs) as [(r & Hr & <-)|Ha]; [|congruence].
      left. exists r. split; [|done]. sup_cbn. rewrite lookup_insert_ne; [done|]. intros <-. congruence.
  - intros id id' key [[<- [= <-]]|[Hne Hid]]%lookup_insert_Some [[<- Heq]|[Hne' Hid']]%lookup_insert_Some; try done.
    + by apply Hdead in Hid'.
    + injection Heq as <-. by apply Hdead in Hid.
    + by apply (H5 id id' key).
Qed.

(** ** Steps of the environment *)
(** The same entries, up to what their tasks report. *)
Definition alike (m m' : gmap (kind * Z) Registered) : Prop :=
  ∀ key, match m !! key, m' !! key with
         | None, None => True
         | Some r, Some r' => rg_target r' = rg_target r ∧ rg_task r' = rg_task r
         | _, _ => False
         end.
Lemma alike_refl (m : gmap (kind * Z) Registered) : alike m m.
Proof. intros key. by destruct (m !! key). Qed.
Lemma alike_alter (id : Z) (f : Registered → Registered) (key : kind * Z) (m : gmap (kind * Z) Registered) :
  (∀ r, rg_target (f r) = rg_target r ∧ rg_task (f r) = rg_task r) → alike m (alter (on_task id f) key m).
Proof.
  intros Hf key'. destruct (decide (key' = key)) as [->|Hne]; [rewrite lookup_alter_eq|rewrite lookup_alter_ne by done];
    destruct (m !! _) as [r|]; cbn; try done.
  unfold on_task. case_match; [apply Hf|done].
Qed.
Lemma alike_some (m m' : gmap (kind * Z) Registered) (key : kind * Z) (r' : Registered) :
  alike m m' → m' !! key = Some r' → ∃ r, m !! key = Some r ∧ rg_target r' = rg_target r ∧ rg_task r' = rg_task r.
Proof. intros Ha Hr. specialize (Ha key). rewrite Hr in Ha. destruct (m !! key) as [r|]; [by exists r|done]. Qed.
Lemma alike_none (m m' : gmap (kind * Z) Registered) (key : kind * Z) : alike m m' → m' !! key = None ↔ m !! key = None.
Proof. intros Ha. specialize (Ha key). by destruct (m !! key), (m' !! key). Qed.
Lemma alike_is_Some (m m' : gmap (kind * Z) Registered) (key : kind * Z) : alike m m' → is_Some (m' !! key) ↔ is_Some (m !! key).
Proof. intros Ha. rewrite <- !not_eq_None_Some. by rewrite (alike_none m m' key Ha). Qed.

(** What a step of the environment leaves: the pass, the entries up to reports, and of
    the tasks their keys and their ends. *)
Record env_frame (s s' : Sup) : Prop := {
  ef_alike : alike (sp_runners s) (sp_runners s');
  ef_pass : sp_pass s' = sp_pass s;
  ef_next : sp_next s' = sp_next s;
  ef_stopped : sp_stopped s' = sp_stopped s;
  ef_kept : ∀ id key st, sp_tasks s !! id = Some (MkTask key st) → ∃ st', sp_tasks s' !! id = Some (MkTask key st');
  ef_live : ∀ id key, sp_tasks s' !! id = Some (MkTask key ts_live) → sp_tasks s !! id = Some (MkTask key ts_live);
  ef_dom : ∀ id t, sp_tasks s' !! id = Some t → is_Some (sp_tasks s !! id);
}.
Lemma env_step_frame (cfg : WedgeSettings) (s s' : Sup) : env_step cfg s s' → env_frame s s'.
Proof.
  intros []; split; sup_cbn; try done; try (by eauto); try apply alike_refl.
  - apply alike_alter. intros r. by destruct (tk_key t).1.
  - intros id' key st Hid. destruct (decide (id' = id)) as [->|Hne].
    + rewrite lookup_insert_eq. simplify_eq. by eexists.
    + rewrite lookup_insert_ne by done. eauto.
  - intros id' key [[<- Heq]|[_ Hid]]%lookup_insert_Some; [|done]. injection Heq as _ Heq. congruence.
  - intros id' t' [[<- _]|[_ Hid]]%lookup_insert_Some; eauto.
  - apply alike_alter. by intros r.
Qed.
Lemma awaiting_frame (s s' : Sup) : env_frame s s' → awaiting s' = awaiting s.
Proof. intros Hf. unfold awaiting. by rewrite (ef_pass _ _ Hf). Qed.
Lemma base_env (s s' : Sup) : env_frame s s' → base_ok s → base_ok s'.
Proof.
  intros Hf [H1 H2 H3 H4 H5 H6]. pose proof (awaiting_frame _ _ Hf) as Haw. destruct Hf as [Ha Hp Hn Hs Hk Hl Hd]. split.
  - intros id t Hid. rewrite Hn. destruct (Hd id t Hid) as [t' Ht']. eauto.
  - intros key r' (r & Hr & -> & ->)%(alike_some _ _ _ _ Ha). destruct (H2 key r Hr) as [[st Hst] Hproj]. eauto.
  - intros key id. rewrite Haw. intros [Hnone [st Hst]]%H3. split; [by apply (alike_none _ _ _ Ha)|]. eauto.
  - intros id key Hid%Hl. rewrite Hs. intros Hgo. destruct (H4 id key Hid Hgo) as [(r & Hr & <-)|Hw].
    + left. specialize (Ha key). rewrite Hr in Ha. destruct (sp_runners s' !! key) as [r'|]; [|done]. exists r'. by split; [|apply Ha].
    + right. by rewrite Haw.
  - intros id id' key Hid%Hl Hid'%Hl. eauto.
  - rewrite Hs, Hp. done.
Qed.

(** ** The stages of a pass *)
Definition waits_for (pa : Pass) (p : Z) : Prop := ∃ r w, pa_await pa = Some (p, r, w).
Definition stage_ok (pa : Pass) (m : gmap (kind * Z) Registered) : Prop :=
  let k := pa_kind pa in
  let qualifying := pa_qualifying pa in
  match pa_stage pa with
  | sg_health => True
  | sg_launch => ∀ p, is_Some (qualifying !! p) → p ∈ pa_todo pa ∨ is_Some (m !! (k, p))
  | sg_stale =>
      (∀ p, is_Some (qualifying !! p) → is_Some (m !! (k, p))) ∧
      (∀ p, is_Some (m !! (k, p)) → is_Some (qualifying !! p) ∨ p ∈ pa_todo pa) ∧
      (∀ p, p ∈ pa_todo pa ∨ waits_for pa p → qualifying !! p = None)
  | sg_changed =>
      (∀ p, is_Some (qualifying !! p) ↔ is_Some (m !! (k, p)) ∨ waits_for pa p) ∧
      (∀ p r t, m !! (k, p) = Some r → qualifying !! p = Some t →
         p ∈ pa_todo pa ∧ same_fields k (rg_target r) t = false ∨ p ∉ pa_todo pa ∧ (rg_target r = t ∨ same_fields k (rg_target r) t = true)) ∧
      NoDup (pa_todo pa) ∧ (∀ p, waits_for pa p → p ∉ pa_todo pa)
  end.
Record pass_ok (pa : Pass) (m : gmap (kind * Z) Registered) : Prop := {
  po_keys : ∀ p t, pa_qualifying pa !! p = Some t → tg_project_id t = p;
  po_stage : stage_ok pa m;
}.
Definition sup_ok (s : Sup) : Prop := base_ok s ∧ ∀ pa, sp_pass s = Some pa → pass_ok pa (sp_runners s).

Lemma pass_ok_alike (pa : Pass) (m m' : gmap (kind * Z) Registered) : alike m m' → pass_ok pa m → pass_ok pa m'.
Proof.
  intros Ha [Hkeys Hstage]. split; [done|]. revert Hstage. unfold stage_ok. destruct (pa_stage pa); [done| | |].
  - intros H p Hq. rewrite (alike_is_Some _ _ _ Ha). eauto.
  - intros (H1 & H2 & H3). split_and!; [|intros p|done]; [intros p|]; rewrite (alike_is_Some _ _ _ Ha); eauto.
  - intros (H1 & H2 & H3 & H4). split_and!; [|intros p r' t|done|done]; [intros p; rewrite (alike_is_Some _ _ _ Ha); eauto|].
    intros (r & Hr & -> & _)%(alike_some _ _ _ _ Ha). eauto.
Qed.
Lemma by_project_keys (targets : list Target) (p : Z) (t : Target) : by_project targets !! p = Some t → tg_project_id t = p.
Proof. unfold by_project. intros (t' & [= -> ->] & _)%elem_of_list_to_map_2%list_elem_of_fmap. done. Qed.
Lemma elem_of_registered (k : kind) (s : Sup) (p : Z) : p ∈ registered k s ↔ is_Some (sp_runners s !! (k, p)).
Proof.
  unfold registered. rewrite list_elem_of_omap. split.
  - intros ([[k' p'] r] & Hin%elem_of_map_to_list & He). cbn in He. case_bool_decide; naive_solver.
  - intros [r Hr]. exists ((k, p), r). split; [by apply elem_of_map_to_list|]. cbn. by rewrite bool_decide_eq_true_2.
Qed.
Lemma elem_of_stale (k : kind) (qualifying : gmap Z Target) (s : Sup) (p : Z) :
  p ∈ stale_of k qualifying s ↔ qualifying !! p = None ∧ is_Some (sp_runners s !! (k, p)).
Proof. unfold stale_of. by rewrite list_elem_of_filter, elem_of_registered. Qed.
Lemma elem_of_changed (k : kind) (qualifying : gmap Z Target) (s : Sup) (p : Z) :
  p ∈ changed_of k qualifying s ↔
  ∃ r t, sp_runners s !! (k, p) = Some r ∧ qualifying !! p = Some t ∧ same_fields k (rg_target r) t = false.
Proof.
  unfold changed_of. rewrite list_elem_of_fmap. split.
  - intros ([p' t] & -> & [Hd Hin%elem_of_map_to_list]%list_elem_of_filter). unfold differs in Hd. cbn in *.
    destruct (sp_runners s !! (k, p')) as [r|]; [|done]. apply negb_true_iff in Hd. eauto.
  - intros (r & t & Hr & Ht & Hd). exists (p, t). split; [done|]. apply list_elem_of_filter.
    split; [|by apply elem_of_map_to_list]. unfold differs. cbn. by rewrite Hr, Hd.
Qed.
Lemma NoDup_changed (k : kind) (qualifying : gmap Z Target) (s : Sup) : NoDup (changed_of k qualifying s).
Proof. unfold changed_of. apply sublist_NoDup with (map_to_list qualifying).*1; [apply NoDup_fst_map_to_list|]. apply fmap_sublist, sublist_filter. Qed.

(** The operations on a pass, at the registry they leave. *)
Lemma stage_ok_skip (pa : Pass) (p : Z) (rest : list Z) (m : gmap (kind * Z) Registered) :
  pa_todo pa = p :: rest → pa_await pa = None → stage_ok pa m →
  match pa_stage pa with
  | sg_health => True
  | sg_launch => is_Some (m !! (pa_kind pa, p)) ∨ pa_qualifying pa !! p = None
  | sg_stale | sg_changed => m !! (pa_kind pa, p) = None ∧ pa_qualifying pa !! p = None
  end → stage_ok (set_todo rest pa) m.
Proof.
  intros Htodo Haw. unfold stage_ok, waits_for. rewrite Htodo, Haw. cbn. destruct (pa_stage pa); [done| | |].
  - intros H Hp q Hq. destruct (H q Hq) as [[->|?]%elem_of_cons|?]; [|by left|by right].
    destruct Hp as [Hp|Hp]; [by right|]. rewrite Hp in Hq. by destruct Hq.
  - intros (H1 & H2 & H3) [Hp Hq]. split_and!; [done| |].
    + intros q Hm. destruct (H2 q Hm) as [?|[->|?]%elem_of_cons]; [by left| |by right]. rewrite Hp in Hm. by destruct Hm.
    + intros q [?|?]; [|naive_solver]. apply H3. left. by right.
  - intros (H1 & H2 & H3 & _) [Hp Hq]. apply NoDup_cons in H3 as [Hnot H3]. split_and!; [done| |done|naive_solver].
    intros q r t Hm Ht. destruct (decide (q = p)) as [->|Hne]; [congruence|].
    destruct (H2 q r t Hm Ht) as [[Hin ?]|[Hin ?]]; rewrite elem_of_cons in Hin; [left|right]; naive_solver.
Qed.
Lemma stage_ok_stop (pa : Pass) (p : Z) (rest : list Z) (r : Registered) (w : bool) (m : gmap (kind * Z) Registered) :
  pa_todo pa = p :: rest → pa_await pa = None → stage_ok pa m → m !! (pa_kind pa, p) = Some r → pa_stage pa ≠ sg_launch →
  stage_ok (set_await (Some (p, r, w)) (set_todo rest pa)) (delete (pa_kind pa, p) m).
Proof.
  intros Htodo Haw. unfold stage_ok, waits_for. rewrite Htodo, Haw. cbn. destruct (pa_stage pa); [done|done| |].
  - intros (H1 & H2 & H3) Hr _. assert (Hp : pa_qualifying pa !! p = None) by (apply H3; left; by left). split_and!.
    + intros q Hq. destruct (decide (q = p)) as [->|Hne]; [rewrite Hp in Hq; by destruct Hq|].
      rewrite lookup_delete_ne by congruence. by apply H1.
    + intros q Hm. destruct (decide (q = p)) as [->|Hne]; [rewrite lookup_delete_eq in Hm; by destruct Hm|].
      rewrite lookup_delete_ne in Hm by congruence. destruct (H2 q Hm) as [?|[->|?]%elem_of_cons]; [by left|done|by right].
    + intros q [?|(r' & w' & [= -> _ _])]; [|done]. apply H3. left. by right.
  - intros (H1 & H2 & H3 & _) Hr _. apply NoDup_cons in H3 as [Hnot H3]. split_and!; [|intros q r' t|done|naive_solver].
    + intros q. rewrite H1. destruct (decide (q = p)) as [->|Hne].
      * rewrite lookup_delete_eq, Hr. split; [|naive_solver]. intros _. right. eauto.
      * rewrite lookup_delete_ne by congruence. split; intros [?|(r' & w' & [=])]; [by left|by left|congruence].
    + intros [Hne Hm]%lookup_delete_Some Ht. assert (q ≠ p) by congruence.
      destruct (H2 q r' t Hm Ht) as [[Hin ?]|[Hin ?]]; rewrite elem_of_cons in Hin; [left|right]; naive_solver.
Qed.
Lemma stage_ok_launch (pa : Pass) (p : Z) (rest : list Z) (r : Registered) (m : gmap (kind * Z) Registered) :
  pa_todo pa = p :: rest → pa_await pa = None → stage_ok pa m → pa_stage pa = sg_launch →
  stage_ok (set_todo rest pa) (<[(pa_kind pa, p) := r]> m).
Proof.
  intros Htodo Haw Hok Hst. unfold stage_ok in *. cbn. rewrite Hst, Htodo in *. intros q Hq.
  destruct (decide (q = p)) as [->|Hne]; [rewrite lookup_insert_eq; by right; eexists|]. rewrite lookup_insert_ne by congruence.
  destruct (Hok q Hq) as [[->|?]%elem_of_cons|?]; [done|by left|by right].
Qed.
Lemma stage_ok_relaunch (pa : Pass) (p : Z) (r r' : Registered) (w : bool) (t : Target) (m : gmap (kind * Z) Registered) :
  pa_await pa = Some (p, r, w) → stage_ok pa m → pa_stage pa = sg_changed → pa_qualifying pa !! p = Some t →
  m !! (pa_kind pa, p) = None → rg_target r' = t →
  stage_ok (set_await None pa) (<[(pa_kind pa, p) := r']> m).
Proof.
  intros Haw Hok Hst Ht Hm Hr. unfold stage_ok, waits_for in *. cbn. rewrite Hst, Haw in *. destruct Hok as (H1 & H2 & H3 & H4).
  assert (Hnot : p ∉ pa_todo pa) by eauto. split_and!; [| |done|naive_solver].
  - intros q. rewrite H1. destruct (decide (q = p)) as [->|Hne].
    + rewrite lookup_insert_eq. split; [left; by eexists|right; eauto].
    + rewrite lookup_insert_ne by congruence. split; intros [?|(x & y & [=])]; [by left|congruence|by left].
  - intros q x y Hx Hy. destruct (decide (q = p)) as [->|Hne].
    + rewrite lookup_insert_eq in Hx. right. split; [done|]. left. congruence.
    + rewrite lookup_insert_ne in Hx by congruence. eauto.
Qed.
Lemma stage_ok_resume (pa : Pass) (m : gmap (kind * Z) Registered) :
  stage_ok pa m → pa_stage pa ≠ sg_changed → stage_ok (set_await None pa) m.
Proof.
  unfold stage_ok, waits_for. cbn. destruct (pa_stage pa); [done|done| |done].
  intros (H1 & H2 & H3) _. split_and!; [done|done|]. intros p [?|(r & w & [=])]. eauto.
Qed.
Lemma stage_ok_next (pa : Pass) (s : Sup) :
  pa_todo pa = [] → pa_await pa = None → stage_ok pa (sp_runners s) →
  match pa_stage pa with
  | sg_health => stage_ok (move_pass sg_launch (map_to_list (pa_qualifying pa)).*1 pa) (sp_runners s)
  | sg_launch => stage_ok (move_pass sg_stale (stale_of (pa_kind pa) (pa_qualifying pa) s) pa) (sp_runners s)
  | sg_stale => stage_ok (move_pass sg_changed (changed_of (pa_kind pa) (pa_qualifying pa) s) pa) (sp_runners s)
  | sg_changed => True
  end.
Proof.
  intros Htodo Haw. unfold stage_ok, waits_for. rewrite Htodo, Haw. cbn. destruct (pa_stage pa); [| | |done].
  - intros _ p [t Ht]. left. apply list_elem_of_fmap. exists (p, t). split; [done|]. by apply elem_of_map_to_list.
  - intros H. split_and!.
    + intros p Hp. by destruct (H p Hp) as [?%elem_of_nil|].
    + intros p Hm. destruct (pa_qualifying pa !! p) eqn:Hq; [left; by eexists|right; by apply elem_of_stale].
    + intros p [Hin|(r & w & [=])]. by apply elem_of_stale in Hin as [].
  - intros (H1 & H2 & H3). split_and!.
    + intros p. split; [by left; eauto|]. intros [Hm|(r & w & [=])]. by destruct (H2 p Hm) as [?|?%elem_of_nil].
    + intros p r t Hr Ht. destruct (same_fields (pa_kind pa) (rg_target r) t) eqn:Hf; [right|left]; (split; [|by auto]).
      * rewrite elem_of_changed. intros (r' & t' & Hr' & Ht' & Hd). congruence.
      * apply elem_of_changed. eauto.
    + apply NoDup_changed.
    + intros p (r & w & [=]).
Qed.

(** A pass that is between projects, and the registry. *)
Lemma sup_ok_pass (pa : Pass) (s : Sup) :
  base_ok s → sp_pass s = Some pa → pa_await pa = None → stage_ok pa (sp_runners s) →
  (∀ p t, pa_qualifying pa !! p = Some t → tg_project_id t = p) → sup_ok s.
Proof. intros Hb Hp _ Hst Hk. split; [done|]. intros pa' Hpa. by simplify_eq. Qed.
Lemma awaiting_none (pa : Pass) (s : Sup) : sp_pass s = Some pa → pa_await pa = None → awaiting s = None.
Proof. unfold awaiting. intros -> H. cbn. by rewrite H. Qed.
Lemma pass_running (pa : Pass) (s : Sup) : base_ok s → sp_pass s = Some pa → sp_stopped s = false.
Proof. intros Hb Hp. destruct (sp_stopped s) eqn:E; [|done]. apply (b_stopped _ Hb) in E. congruence. Qed.
Lemma base_idle_pass (pa pa' : Pass) (s : Sup) :
  base_ok s → sp_pass s = Some pa → pa_await pa = None → pa_await pa' = None → base_ok (set_pass (Some pa') s).
Proof.
  intros Hb Hp Haw Haw'. apply base_set_pass; [done|left; by eapply pass_running|by eapply awaiting_none|].
  intros key id. by rewrite (awaiting_none pa).
Qed.

Section runs.
Context (cfg : WedgeSettings) (default_interval_seconds : Z) (digest : list material_item → bytes).

Lemma sup_ok_visit (mono : Q) (p : Z) (rest : list Z) (pa : Pass) (s : Sup) :
  sup_ok s → sp_pass s = Some pa → pa_await pa = None → pa_todo pa = p :: rest → sup_ok (visit cfg mono p (set_todo rest pa) s).
Proof.
  intros [Hb Hpok] Hp Haw Htodo. destruct (Hpok pa Hp) as [Hkeys Hst].
  pose proof (pass_running _ _ Hb Hp) as Hgo. pose proof (awaiting_none _ _ Hp Haw) as Hnone.
  assert (Hskip : stage_ok (set_todo rest pa) (sp_runners s) → sup_ok (set_pass (Some (set_todo rest pa)) s)).
  { intros Hs. apply (sup_ok_pass (set_todo rest pa)); try done. by eapply base_idle_pass. }
  assert (Hstop : ∀ r restarts, sp_runners s !! (pa_kind pa, p) = Some r → pa_stage pa ≠ sg_launch →
            sup_ok (begin_stop p r (MkPass (pa_kind pa) (pa_stage pa) (pa_qualifying pa) restarts rest None (pa_targets pa)) s)).
  { intros r restarts Hr Hne. split; [by apply base_begin_stop|]. intros pa' [= <-]. split; [done|].
    sup_cbn. by apply (stage_ok_stop pa p rest r (is_live (status_of s (rg_task r))) (sp_runners s)) in Hst. }
  assert (Hlaunch : ∀ t n, pa_qualifying pa !! p = Some t → sp_runners s !! (pa_kind pa, p) = None → pa_stage pa = sg_launch →
            sup_ok (launch (pa_kind pa) t n mono (set_pass (Some (set_todo rest pa)) s))).
  { intros t n Ht Hr Hl. rewrite <- (Hkeys p t Ht) in Hr. apply (sup_ok_pass (set_todo rest pa)); try done.
    - apply base_launch; try done. by eapply base_idle_pass.
    - sup_cbn. rewrite (Hkeys p t Ht). by eapply stage_ok_launch. }
  pose proof (stage_ok_skip pa p rest (sp_runners s) Htodo Haw Hst) as Hsk.
  unfold visit, count_restart, set_todo, move_pass in *. cbn [pa_kind pa_stage pa_qualifying pa_restarts pa_todo pa_await pa_targets].
  destruct (pa_stage pa) eqn:Hstage, (sp_runners s !! (pa_kind pa, p)) as [r|] eqn:Hr, (pa_qualifying pa !! p) as [t|] eqn:Ht;
    try (apply Hskip, Hsk; by eauto); try (by apply Hlaunch); try (apply (Hstop r (pa_restarts pa)); congruence).
  - case_match; [by apply Hstop|by apply Hskip].
  - exfalso. unfold stage_ok in Hst. rewrite Hstage in Hst. destruct Hst as (H1 & _).
    assert (is_Some (sp_runners s !! (pa_kind pa, p))) as [] by (apply H1; by eexists). congruence.
  - exfalso. unfold stage_ok, waits_for in Hst. rewrite Hstage, Haw in Hst. destruct Hst as (H1 & _).
    assert (is_Some (pa_qualifying pa !! p)) as [[]|(? & ? & [=])]%H1 by (by eexists). congruence.
Qed.

Lemma forget_stopped_same (retire : bool) (t : Target) (s : Sup) :
  sp_runners (forget_stopped retire t s) = sp_runners s ∧ sp_tasks (forget_stopped retire t s) = sp_tasks s ∧
  sp_next (forget_stopped retire t s) = sp_next s ∧ sp_pass (forget_stopped retire t s) = sp_pass s ∧
  sp_stopped (forget_stopped retire t s) = sp_stopped s.
Proof. unfold forget_stopped. by repeat case_match. Qed.
Lemma sup_ok_ext (s s' : Sup) :
  sup_ok s → sp_runners s' = sp_runners s → sp_tasks s' = sp_tasks s → sp_next s' = sp_next s → sp_pass s' = sp_pass s →
  sp_stopped s' = sp_stopped s → sup_ok s'.
Proof. intros [Hb Hp] Hr ? ? Hpass ?. split; [by eapply base_ok_ext|]. intros pa. rewrite Hpass, Hr. apply Hp. Qed.

Lemma sup_ok_after_stop (mono : Q) (written : bool) (p : Z) (r : Registered) (w : bool) (pa : Pass) (s : Sup) :
  sup_ok s → sp_pass s = Some pa → pa_await pa = Some (p, r, w) → status_of s (rg_task r) ≠ ts_live →
  sup_ok (after_stop mono written p r pa (set_pass (Some (set_await None pa)) s)).
Proof.
  intros [Hb Hpok] Hp Haw Hended. destruct (Hpok pa Hp) as [Hkeys Hst].
  assert (Hwait : awaiting s = Some ((pa_kind pa, p), rg_task r)) by (unfold awaiting; rewrite Hp; cbn; by rewrite Haw).
  destruct (b_await _ Hb _ _ Hwait) as [Hnone _].
  set (s1 := set_pass (Some (set_await None pa)) s).
  assert (Hb1 : base_ok s1).
  { apply base_set_pass; [done|left; by eapply pass_running|done|]. intros key id. rewrite Hwait. by intros [= <- <-]. }
  unfold after_stop.
  set (s2 := match pa_kind pa with k_capture => s1 | k_listener => _ end).
  assert (Hsame : sp_runners s2 = sp_runners s ∧ sp_tasks s2 = sp_tasks s ∧ sp_next s2 = sp_next s ∧
                  sp_pass s2 = Some (set_await None pa) ∧ sp_stopped s2 = sp_stopped s)
    by (subst s2; destruct (pa_kind pa); [done|apply (forget_stopped_same _ _ s1)]).
  destruct Hsame as (Hr2 & Ht2 & Hn2 & Hp2 & Hs2).
  assert (Hb2 : base_ok s2) by (apply (base_ok_ext s1); try done).
  assert (Hplain : pa_stage pa ≠ sg_changed → sup_ok s2).
  { intros Hne. apply (sup_ok_pass (set_await None pa)); try done. rewrite Hr2. by apply stage_ok_resume. }
  destruct (pa_stage pa) eqn:Hstage.
  - destruct written; [|by apply Hplain]. by apply (sup_ok_ext s2); [apply Hplain|..].
  - by apply Hplain.
  - by apply Hplain.
  - assert (is_Some (pa_qualifying pa !! p)) as [t Ht].
    { unfold stage_ok, waits_for in Hst. rewrite Hstage, Haw in Hst. apply Hst. right. eauto. }
    rewrite Ht. pose proof (Hkeys p t Ht) as Hid. apply (sup_ok_pass (set_await None pa)); try done.
    + apply base_launch; [done|by eapply awaiting_none| |by rewrite Hr2, Hid]. rewrite Hs2. by eapply pass_running.
    + sup_cbn. rewrite Hr2, Hid. by eapply stage_ok_relaunch.
Qed.
Lemma sup_ok_next (pa : Pass) (s : Sup) :
  sup_ok s → sp_pass s = Some pa → pa_await pa = None → pa_todo pa = [] → sup_ok (next_stage digest pa s).
Proof.
  intros [Hb Hpok] Hp Haw Htodo. destruct (Hpok pa Hp) as [Hkeys Hst].
  pose proof (stage_ok_next pa s Htodo Haw Hst) as Hnext.
  assert (Hend : sup_ok (set_pass None s)).
  { split; [|done]. apply base_set_pass; [done|by right|done|]. intros key id. by rewrite (awaiting_none pa). }
  unfold next_stage. destruct (pa_stage pa).
  1-3: eapply sup_ok_pass; [by eapply base_idle_pass|done|done|done|done].
  destruct (pa_kind pa); [|by apply (sup_ok_ext (set_pass None s))]. case_match; [|done].
  eapply sup_ok_pass; [by eapply base_idle_pass|done|done|done|]. intros p t. apply by_project_keys.
Qed.
Lemma sup_ok_turn (mono : Q) (written : bool) (s s' : Sup) : sup_ok s → pass_turn cfg digest mono written s = Some s' → sup_ok s'.
Proof.
  intros Hok. unfold pass_turn. destruct (sp_pass s) as [pa|] eqn:Hp; [|done]. cbn.
  destruct (pa_await pa) as [[[p r] w]|] eqn:Haw.
  - unfold is_live. case_bool_decide as Hlive; [done|].
    assert (Hwait : awaiting s = Some ((pa_kind pa, p), rg_task r)) by (unfold awaiting; rewrite Hp; cbn; by rewrite Haw).
    destruct (w && _) eqn:Hfail; intros [= <-]; [|by eapply sup_ok_after_stop].
    split; [|done]. apply base_set_pass; [apply Hok|by right|done|]. intros key id. rewrite Hwait. by intros [= <- <-].
  - intros [= <-]. destruct (pa_todo pa) as [|p rest] eqn:Htodo; [by apply sup_ok_next|by apply sup_ok_visit].
Qed.
Lemma sup_ok_step (s s' : Sup) : sup_step cfg default_interval_seconds digest s s' → sup_ok s → sup_ok s'.
Proof.
  intros [now s0 Hidle Hgo|s0 s1 [mono written ? ? Hturn]|s0 s1 Henv%env_step_frame|s0|s0] Hok.
  - unfold begin_pass. destruct (load_targets _ _ _ _) as [targets db]. destruct Hok as [Hb _].
    eapply sup_ok_pass; [|done|done|done|by intros p t; apply by_project_keys].
    apply (base_ok_ext (set_pass (Some (MkPass k_capture sg_health (by_project targets) ∅ (registered k_capture s0) None targets)) s0)); try done.
    apply base_set_pass; [done|by left|done|]. unfold awaiting. by rewrite Hidle.
  - by eapply sup_ok_turn.
  - destruct Hok as [Hb Hpok]. split; [by eapply base_env|]. intros pa. rewrite (ef_pass _ _ Henv). intros Hp%Hpok.
    by eapply pass_ok_alike; [apply Henv|].
  - destruct (sp_pass s0) as [pa|] eqn:Hp; [|done]. case_bool_decide as Haw; [|done]. split; [|done].
    apply base_set_pass; [apply Hok|by right|done|]. intros key id. by rewrite (awaiting_none pa).
  - destruct Hok as [[H1 H2 H3 H4 H5 H6] _]. split; [|done]. by split.
Qed.

(** ** The start *)
Lemma base_launches (k : kind) (mono : Q) (targets : list Target) (s : Sup) :
  base_ok s → sp_pass s = None → sp_stopped s = false → NoDup (tg_project_id <$> targets) →
  (∀ t, t ∈ targets → sp_runners s !! (k, tg_project_id t) = None) →
  let s' := foldl (λ s t, launch k t 0 mono s) s targets in base_ok s' ∧ sp_pass s' = None ∧ sp_stopped s' = false ∧
    (∀ key, key.1 ≠ k → sp_runners s' !! key = sp_runners s !! key).
Proof.
  revert s. induction targets as [|t targets IH]; intros s Hb Hp Hs Hnd Hfree; [by split_and!|].
  rewrite fmap_cons in Hnd. apply NoDup_cons in Hnd as [Hnot Hnd]. cbn [foldl].
  destruct (IH (launch k t 0 mono s)) as (Hb' & Hp' & Hs' & Hsame); try done.
  - apply base_launch; [done| |done|apply Hfree; by left]. unfold awaiting. by rewrite Hp.
  - intros t' Ht'. sup_cbn. rewrite lookup_insert_ne; [apply Hfree; by right|].
    intros [= Heq]. apply Hnot. rewrite Heq. by apply list_elem_of_fmap_2.
  - split_and!; [done|done|done|]. intros key Hk. rewrite Hsame by done. sup_cbn. apply lookup_insert_ne. by intros <-.
Qed.

Lemma target_ids (now : Z) (db : Tables) (projects : list ProjectRow) :
  (tg_project_id <$> omap (target_of_row default_interval_seconds digest now db) projects) `sublist_of` (jr_id <$> projects).
Proof.
  induction projects as [|p projects IH]; [done|]. cbn.
  destruct (target_of_row default_interval_seconds digest now db p) as [t|] eqn:Ht; [|by apply sublist_cons].
  cbn. replace (tg_project_id t) with (jr_id p); [by apply sublist_skip|].
  unfold target_of_row in Ht. destruct (usable_camera db p); [|done]. cbn in Ht. case_match; [|done]. by injection Ht as <-.
Qed.
Lemma listener_target_ids (db : Tables) (projects : list ProjectRow) (l : list Target) :
  listener_targets_of digest db projects = Ok l → (tg_project_id <$> l) `sublist_of` (jr_id <$> projects).
Proof.
  revert l. induction projects as [|p projects IH]; intros l; cbn; [by intros [= <-]|].
  destruct (listener_target_of_row digest db p) as [[t|]|e] eqn:Ht, (listener_targets_of digest db projects) as [l'|e'];
    intros [= <-]; cbn.
  - replace (tg_project_id t) with (jr_id p); [by apply sublist_skip, IH|].
    unfold listener_target_of_row in Ht. repeat case_match; try done. by injection Ht as <-.
  - by apply sublist_cons, IH.
Qed.
Lemma ended_ids (ended : list (Z * end_reason)) (db : Tables) :
  jr_id <$> tb_projects (foldl (λ db e, (end_campaign e.1 db).2) db ended) = jr_id <$> tb_projects db.
Proof.
  revert db. induction ended as [|e ended IH]; intros db; [done|]. cbn [foldl]. rewrite IH. cbn.
  rewrite <- list_fmap_compose. apply list_fmap_ext. intros i p _. cbn. by case_match.
Qed.
Lemma sup_ok_start (now : Z) (mono : Q) (db : Tables) (book : CameraHealthBook) :
  NoDup (jr_id <$> tb_projects db) → sup_ok (start default_interval_seconds digest now mono db book).
Proof.
  intros Hnd. unfold start, load_targets.
  set (targets := omap _ _). set (db' := foldl _ _ _). set (empty := MkSup _ _ _ _ _ _ _ _ _ _).
  assert (Hempty : base_ok empty) by (by split).
  destruct (base_launches k_capture mono targets empty) as (Hb1 & Hp1 & Hs1 & Hsame1); try done.
  { eapply sublist_NoDup; [exact Hnd|apply target_ids]. }
  set (s1 := foldl _ empty targets) in *. set (listeners := match _ with Ok l => l | Raise _ => [] end).
  destruct (base_launches k_listener mono listeners s1) as (Hb2 & Hp2 & Hs2 & _); try done.
  { subst listeners. destruct (load_listener_targets digest db') as [l|e] eqn:Hl; [|apply NoDup_nil_2].
    apply listener_target_ids in Hl. subst db'. rewrite ended_ids in Hl. by eapply sublist_NoDup. }
  { intros t _. by rewrite Hsame1. }
  split; [by eapply base_ok_ext|]. sup_cbn. by rewrite Hp2.
Qed.
Lemma launches_idle (k : kind) (mono : Q) (targets : list Target) (s : Sup) :
  sp_pass (foldl (λ s t, launch k t 0 mono s) s targets) = sp_pass s.
Proof. revert s. induction targets as [|t targets IH]; intros s; [done|]. cbn [foldl]. by rewrite IH. Qed.
Lemma start_idle (now : Z) (mono : Q) (db : Tables) (book : CameraHealthBook) :
  sp_pass (start default_interval_seconds digest now mono db book) = None.
Proof. unfold start. destruct (load_targets _ _ _ _) as [targets db']. sup_cbn. by rewrite !launches_idle. Qed.
Lemma sup_ok_reachable (now : Z) (mono : Q) (db : Tables) (book : CameraHealthBook) (s : Sup) :
  NoDup (jr_id <$> tb_projects db) →
  rtc (sup_step cfg default_interval_seconds digest) (start default_interval_seconds digest now mono db book) s → sup_ok s.
Proof.
  intros Hnd Hrun. pose proof (sup_ok_start now mono db book Hnd) as Hok.
  induction Hrun as [|s1 s2 s3 Hstep _ IH]; [done|]. apply IH. by eapply sup_ok_step.
Qed.
End runs.

(** ** Theorems *)
(** C4: whatever ends, beats or is edited while passes run, and across a stop of the
    supervisor, a project never has two running tasks of one kind: no two capture loops
    and no two event listeners. *)
Theorem one_task_per_project (cfg : WedgeSettings) (default_interval_seconds : Z) (digest : list material_item → bytes) (now : Z) (mono : Q)
    (db : Tables) (book : CameraHealthBook) (s : Sup) (id id' : Z) (key : kind * Z) :
  NoDup (jr_id <$> tb_projects db) →
  rtc (sup_step cfg default_interval_seconds digest) (start default_interval_seconds digest now mono db book) s →
  sp_tasks s !! id = Some (MkTask key ts_live) → sp_tasks s !! id' = Some (MkTask key ts_live) → id = id'.
Proof. intros Hnd Hrun. apply (b_unique _ (proj1 (sup_ok_reachable _ _ _ _ _ _ _ _ Hnd Hrun))). Qed.

(** The turns left: the stages to come, then the projects to visit and the wait. *)
Definition phase (pa : Pass) : nat :=
  match pa_kind pa with k_capture => 4 | k_listener => 0 end +
  match pa_stage pa with sg_health => 4 | sg_launch => 3 | sg_stale => 2 | sg_changed => 1 end.
Definition turns_left (s : Sup) : nat * nat :=
  match sp_pass s with
  | None => (0, 0)%nat
  | Some pa => (phase pa, 2 * length (pa_todo pa) + match pa_await pa with Some _ => 1 | None => 0 end)%nat
  end.
Definition fewer (x y : nat * nat) : Prop := (x.1 < y.1 ∨ x.1 = y.1 ∧ x.2 < y.2)%nat.
Lemma phase_pos (pa : Pass) : (0 < phase pa)%nat.
Proof. unfold phase. destruct (pa_kind pa), (pa_stage pa); lia. Qed.
Lemma after_stop_pass (mono : Q) (written : bool) (p : Z) (r : Registered) (pa : Pass) (s : Sup) :
  sp_pass (after_stop mono written p r pa s) = sp_pass s.
Proof.
  unfold after_stop. set (s2 := match pa_kind pa with k_capture => s | k_listener => _ end).
  assert (Hsame : sp_pass s2 = sp_pass s) by (subst s2; destruct (pa_kind pa); [done|apply forget_stopped_same]).
  by repeat case_match.
Qed.
Lemma turn_leaves_fewer (cfg : WedgeSettings) (digest : list material_item → bytes) (mono : Q) (written : bool) (s s' : Sup) :
  pass_turn cfg digest mono written s = Some s' → fewer (turns_left s') (turns_left s).
Proof.
  unfold pass_turn, turns_left at 2. destruct (sp_pass s) as [pa|] eqn:Hp; [|done]. cbn. pose proof (phase_pos pa) as Hpos.
  destruct (pa_await pa) as [[[p r] w]|] eqn:Haw.
  - case_match; [done|]. case_match; intros [= <-]; unfold turns_left; [left; cbn; lia|].
    rewrite after_stop_pass. cbn. right. cbn. split; [done|lia].
  - intros [= <-]. destruct (pa_todo pa) as [|p rest] eqn:Htodo.
    + unfold next_stage, turns_left. left. destruct (pa_stage pa) eqn:Hs, (pa_kind pa) eqn:Hk;
        try destruct (load_listener_targets _ _);
        unfold set_pass, set_observed, move_pass, phase; cbn [fst sp_pass pa_kind pa_stage]; rewrite ?Hs, ?Hk; lia.
    + right. unfold visit. cbn [pa_stage pa_kind pa_qualifying set_todo move_pass].
      repeat case_match; unfold turns_left, begin_stop, count_restart, set_todo, move_pass; cbn; unfold phase; cbn; split; lia || done.
Qed.

(** C38: every pass ends.  However edits, heartbeats and ends of tasks fall between its
    turns, it takes finitely many, and it can always take the next one unless it waits
    for a task it has cancelled and that is still running. *)
Theorem pass_terminates (cfg : WedgeSettings) (digest : list material_item → bytes) (s : Sup) :
  sn (λ s s', ∃ s1, rtc (env_step cfg) s s1 ∧ pass_step cfg digest s1 s') s ∧
  (sp_pass s = None ∨ (∃ key id, awaiting s = Some (key, id) ∧ status_of s id = ts_live) ∨ ∃ s', pass_step cfg digest s s').
Proof.
  split.
  - remember (turns_left s) as n eqn:Hn. assert (Hle : n = turns_left s) by done. clear Hn.
    revert s Hle. destruct n as [n m]. revert m. induction (lt_wf n) as [n _ IHn].
    intros m. induction (lt_wf m) as [m _ IHm]. intros s Hs. constructor. intros s' (s1 & Henv & Hstep).
    assert (Hturn : fewer (turns_left s') (turns_left s1)) by (destruct Hstep; by eapply turn_leaves_fewer).
    assert (Hsame : turns_left s1 = turns_left s).
    { unfold turns_left. replace (sp_pass s1) with (sp_pass s); [done|]. clear -Henv.
      induction Henv as [|x y z Hxy%env_step_frame _ IH]; [done|]. by rewrite <- IH, (ef_pass _ _ Hxy). }
    rewrite Hsame, <- Hs in Hturn. destruct (turns_left s') as [n' m'] eqn:Hs'. destruct Hturn as [Hlt|[Heq Hlt]]; cbn in *.
    + by apply (IHn n' Hlt m').
    + subst n'. by apply (IHm m' Hlt).
  - destruct (sp_pass s) as [pa|] eqn:Hp; [right|by left]. destruct (pass_turn cfg digest 0 true s) as [s'|] eqn:Hturn.
    + right. exists s'. by econstructor.
    + left. unfold pass_turn in Hturn. rewrite Hp in Hturn. cbn in Hturn.
      destruct (pa_await pa) as [[[p r] w]|] eqn:Haw; [|done]. unfold is_live in Hturn. case_bool_decide as Hlive; [|by case_match].
      exists (pa_kind pa, p), (rg_task r). split; [|done]. unfold awaiting. rewrite Hp. cbn. by rewrite Haw.
Qed.

(** ** What a pass read *)
Section reads.
Context (cfg : WedgeSettings) (default_interval_seconds : Z) (digest : list material_item → bytes).
Local Notation step := (sup_step cfg default_interval_seconds digest).

(** A project wants a capture loop at [now], with target [t]: it is active, its camera
    exists and has a protocol, it has an interval or anchors, and its campaign is neither
    past its end date nor at its frame count. *)
Definition wants_capture (now : Z) (db : Tables) (row : ProjectRow) (t : Target) : Prop :=
  jr_lifecycle row = lc_active ∧
  (∃ camera, tb_cameras db !! jr_camera_id row = Some camera ∧ cr_protocol (sc_row camera) ≠ None ∧
     t = target_from_rows default_interval_seconds row camera (Some (config_version digest (sc_row camera) (tb_defaults db)))) ∧
  (jr_interval row ≠ None ∨ jr_exact_time_anchors row ≠ None) ∧
  (∀ e, jr_end_date row = Some e → now < e) ∧ (∀ m, jr_max_frame_count row = Some m → jr_frame_count row < m).
(** It wants an event listener: an entry of its stored triggers is enabled. *)
Definition wants_listener (db : Tables) (row : ProjectRow) (t : Target) : Prop :=
  jr_lifecycle row = lc_active ∧
  (∃ camera, tb_cameras db !! jr_camera_id row = Some camera ∧ cr_protocol (sc_row camera) ≠ None ∧
     t = listener_target row camera (Some (config_version digest (sc_row camera) (tb_defaults db)))) ∧
  ∃ triggers entry, jr_event_triggers row = Some (PList triggers) ∧ PDict entry ∈ triggers ∧
    truthy (dict_get entry "enabled" (PBool false)) = true.
Definition wants (k : kind) (now : Z) (db : Tables) (row : ProjectRow) (t : Target) : Prop :=
  match k with k_capture => wants_capture now db row t | k_listener => wants_listener db row t end.

Lemma usable_camera_some (db : Tables) (row : ProjectRow) (camera : SupCamera) :
  usable_camera db row = Some camera ↔
  jr_lifecycle row = lc_active ∧ tb_cameras db !! jr_camera_id row = Some camera ∧ cr_protocol (sc_row camera) ≠ None.
Proof.
  unfold usable_camera. case_bool_decide; [|naive_solver]. rewrite bind_Some. setoid_rewrite not_eq_None_Some. split.
  - intros (c & Hc & Hp). case_bool_decide; [|done]. by injection Hp as <-.
  - intros (_ & Hc & Hp). exists camera. split; [done|]. by rewrite bool_decide_true.
Qed.
Lemma row_end_reason_none (now : Z) (row : ProjectRow) :
  row_end_reason now row = None ↔
  (∀ e, jr_end_date row = Some e → now < e) ∧ (∀ m, jr_max_frame_count row = Some m → jr_frame_count row < m).
Proof.
  unfold row_end_reason, campaign_end_reason. split.
  - intros H. split; intros x Hx; rewrite Hx in H; repeat case_match; try done; lia.
  - intros [He Hm]. destruct (jr_end_date row) as [e|]; [specialize (He e eq_refl)|];
      (destruct (jr_max_frame_count row) as [m|]; [specialize (Hm m eq_refl)|]); repeat case_match; try done; lia.
Qed.
Lemma target_of_row_some (now : Z) (db : Tables) (row : ProjectRow) (t : Target) :
  target_of_row default_interval_seconds digest now db row = Some t ↔ wants_capture now db row t.
Proof.
  unfold target_of_row, wants_capture. rewrite bind_Some. setoid_rewrite usable_camera_some.
  assert (capture_configured row = true ↔ jr_interval row ≠ None ∨ jr_exact_time_anchors row ≠ None) as Hconf.
  { unfold capture_configured. by rewrite orb_true_iff, !bool_decide_eq_true, <-!not_eq_None_Some. }
  split.
  - intros (camera & (Hl & Hc & Hp) & Ht). destruct (capture_configured row && _) eqn:Hb; [|done].
    apply andb_true_iff in Hb as [Hcf Hend%bool_decide_eq_true]. injection Ht as <-.
    apply row_end_reason_none in Hend. split_and!; [done|by exists camera|by apply Hconf|apply Hend|apply Hend].
  - intros (Hl & (camera & Hc & Hp & ->) & Hcf & He & Hm). exists camera. split; [done|].
    rewrite (proj2 Hconf Hcf), bool_decide_true; [done|]. by apply row_end_reason_none.
Qed.
Lemma enabled_trigger_some (triggers : pyval) :
  has_enabled_event_trigger triggers = Ok true ↔
  ∃ l entry, triggers = PList l ∧ PDict entry ∈ l ∧ truthy (dict_get entry "enabled" (PBool false)) = true.
Proof.
  unfold has_enabled_event_trigger. split.
  - destruct (negb (truthy triggers)); [done|]. destruct triggers as [| | | | |l| |]; try done. intros [= H].
    apply existsb_exists in H as (x & Hx%list_elem_of_In & He). destruct x as [| | | | | |kvs|]; try done. by exists l, kvs.
  - intros (l & entry & -> & Hin & He). destruct l as [|x l]; [by apply elem_of_nil in Hin|]. cbn [truthy negb].
    f_equal. apply existsb_exists. exists (PDict entry). split; [by apply list_elem_of_In|done].
Qed.
Lemma listener_targets_some (db : Tables) (rows : list ProjectRow) (l : list Target) (t : Target) :
  listener_targets_of digest db rows = Ok l → t ∈ l ↔ ∃ row, row ∈ rows ∧ wants_listener db row t.
Proof.
  assert (∀ row x, listener_target_of_row digest db row = Ok x → x = Some t ↔ wants_listener db row t) as Hrow.
  { intros row x. unfold listener_target_of_row, wants_listener.
    destruct (usable_camera db row) as [camera|] eqn:Hu; cycle 1.
    { intros [= <-]. split; [done|]. intros (Hl & (c & Hc & Hp & _) & _).
      assert (usable_camera db row = Some c) as Hu'; [by apply usable_camera_some|congruence]. }
    apply usable_camera_some in Hu as (Hl & Hc & Hp). destruct (jr_event_triggers row) as [triggers|]; cycle 1.
    { intros [= <-]. split; [done|]. by intros (_ & _ & ? & ? & ? & _). }
    destruct (has_enabled_event_trigger triggers) as [[]|e] eqn:He; intros [= <-].
    - split; [|by intros (_ & (c & Hc' & _ & ->) & _); simplify_eq]. intros [= <-].
      apply enabled_trigger_some in He as (ts & entry & -> & Hin & He). split_and!; [done|by exists camera|by exists ts, entry].
    - split; [done|]. intros (_ & _ & ts & entry & [= ->] & Hin & Hen).
      assert (has_enabled_event_trigger (PList ts) = Ok true) as He'; [|congruence].
      apply enabled_trigger_some. by exists ts, entry. }
  revert l. induction rows as [|row rows IH]; intros l; cbn; [intros [= <-]; set_solver|].
  destruct (listener_target_of_row digest db row) as [x|] eqn:Hx; [|done].
  pose proof (Hrow row x Hx) as Hiff.
  destruct (listener_targets_of digest db rows) as [l'|] eqn:Hl; [|by destruct x]. specialize (IH l' eq_refl).
  setoid_rewrite elem_of_cons. destruct x as [t0|]; intros [= <-]; rewrite ?elem_of_cons, IH; naive_solver.
Qed.

(** The targets a pass reads from the tables, by project. *)
Definition read_targets (k : kind) (now : Z) (db : Tables) : option (list Target) :=
  match k with
  | k_capture => Some (load_targets default_interval_seconds digest now db).1
  | k_listener => match load_listener_targets digest db with Ok l => Some l | Raise _ => None end
  end.
Lemma read_targets_wanted (k : kind) (now : Z) (db : Tables) (l : list Target) (p : Z) (t : Target) :
  read_targets k now db = Some l → NoDup (jr_id <$> tb_projects db) →
  by_project l !! p = Some t ↔ ∃ row, row ∈ tb_projects db ∧ jr_id row = p ∧ wants k now db row t.
Proof.
  intros Hl Hnd.
  assert (NoDup (tg_project_id <$> l) ∧ ∀ t, t ∈ l ↔ ∃ row, row ∈ tb_projects db ∧ wants k now db row t) as [Hids Hin].
  { destruct k; cbn in Hl.
    - injection Hl as <-. split; [eapply sublist_NoDup; [exact Hnd|apply target_ids]|]. intros t'.
      rewrite list_elem_of_omap. by setoid_rewrite target_of_row_some.
    - destruct (load_listener_targets digest db) as [l'|] eqn:Hll; [|done]. injection Hl as <-.
      split; [eapply sublist_NoDup; [exact Hnd|by eapply listener_target_ids]|]. intros t'. by eapply listener_targets_some. }
  assert (∀ row t, wants k now db row t → tg_project_id t = jr_id row) as Hid.
  { by destruct k; intros row t' (_ & (camera & _ & _ & ->) & _). }
  unfold by_project. rewrite <-elem_of_list_to_map; cycle 1.
  { rewrite <-list_fmap_compose. change (NoDup (tg_project_id <$> reverse l)). by rewrite fmap_reverse, reverse_Permutation. }
  rewrite list_elem_of_fmap. setoid_rewrite elem_of_reverse. setoid_rewrite Hin. split.
  - intros (t' & [= -> ->] & row & Hrow & Hw). exists row. split_and!; [done|by rewrite <-(Hid row t')|done].
  - intros (row & Hrow & <- & Hw). exists t. split; [by rewrite (Hid row t)|by exists row].
Qed.

(** The step that reads the rows for a registry: the beginning of a pass, or its turn from
    the capture loops to the listeners. *)
Definition reads (k : kind) (now : Z) (s s' : Sup) : Prop :=
  match k with
  | k_capture => sp_pass s = None ∧ s' = begin_pass default_interval_seconds digest now s
  | k_listener => ∃ pa, sp_pass s = Some pa ∧ pa_kind pa = k_capture ∧ pa_stage pa = sg_changed ∧ pa_todo pa = [] ∧
                        pa_await pa = None ∧ s' = next_stage digest pa s
  end.
Definition in_pass (k : kind) (s : Sup) : Prop := pa_kind <$> sp_pass s = Some k.
(** A step within the pass over one registry. *)
Definition pass_goes_on (k : kind) (s s' : Sup) : Prop := in_pass k s ∧ step s s' ∧ in_pass k s'.

Lemma visit_keeps (mono : Q) (p : Z) (pa : Pass) (s : Sup) :
  ∃ pa', sp_pass (visit cfg mono p pa s) = Some pa' ∧ pa_kind pa' = pa_kind pa ∧ pa_qualifying pa' = pa_qualifying pa.
Proof. unfold visit. repeat case_match; by eexists. Qed.

(** A turn either stays with the rows it read, ends the pass, or reads the listeners'. *)
Lemma turn_reads (mono : Q) (written : bool) (s s' : Sup) (pa pa' : Pass) :
  pass_turn cfg digest mono written s = Some s' → sp_pass s = Some pa → sp_pass s' = Some pa' →
  (pa_kind pa' = pa_kind pa ∧ pa_qualifying pa' = pa_qualifying pa) ∨
  (pa_kind pa' = k_listener ∧ reads k_listener 0 s s' ∧
   ∃ l, read_targets k_listener 0 (sp_tables s) = Some l ∧ pa_qualifying pa' = by_project l).
Proof.
  unfold pass_turn. intros Ht Hp Hp'. rewrite Hp in Ht. cbn in Ht. destruct (pa_await pa) as [[[p r] w]|] eqn:Haw.
  - left. destruct (is_live _); [done|]. destruct (w && _); injection Ht as <-; [done|].
    rewrite after_stop_pass in Hp'. by injection Hp' as <-.
  - injection Ht as <-. destruct (pa_todo pa) as [|p rest] eqn:Htodo.
    + unfold next_stage in Hp'. unfold reads, read_targets.
      destruct (pa_stage pa) eqn:Hstage; try (left; by injection Hp' as <-).
      destruct (pa_kind pa) eqn:Hk; [|done]. destruct (load_listener_targets digest (sp_tables s)) as [l|] eqn:Hl; [|done].
      right. injection Hp' as <-. split; [done|]. split; [by exists pa|]. by exists l.
    + left. destruct (visit_keeps mono p (set_todo rest pa) s) as (pa1 & Hp1 & Hk & Hq). rewrite Hp1 in Hp'.
      by injection Hp' as <-.
Qed.

(** Every pass goes back to the read that began it. *)
Definition read_at (s0 s : Sup) (pa : Pass) : Prop :=
  ∃ sr s1 now l, rtc step s0 sr ∧ reads (pa_kind pa) now sr s1 ∧ rtc (pass_goes_on (pa_kind pa)) s1 s ∧
    read_targets (pa_kind pa) now (sp_tables sr) = Some l ∧ pa_qualifying pa = by_project l.
Lemma pass_reads (s0 s : Sup) (pa : Pass) : sp_pass s0 = None → rtc step s0 s → sp_pass s = Some pa → read_at s0 s pa.
Proof.
  intros H0 Hrun. revert pa. revert s Hrun. apply (rtc_ind_r (λ s, ∀ pa, sp_pass s = Some pa → read_at s0 s pa)); [congruence|].
  intros s s' Hrun Hstep IH pa' Hp'.
  assert (∀ pa, sp_pass s = Some pa → pa_kind pa' = pa_kind pa → pa_qualifying pa' = pa_qualifying pa → read_at s0 s' pa') as Hstay.
  { intros pa Hp Hk Hq. destruct (IH pa Hp) as (sr & s1 & now & l & H1 & H2 & H3 & H4 & H5).
    exists sr, s1, now, l. rewrite Hk, Hq. split_and!; try done. eapply rtc_r; [exact H3|].
    unfold pass_goes_on, in_pass. rewrite Hp, Hp'. cbn. by rewrite Hk. }
  pose proof Hstep as Hany. destruct Hstep as [now s Hidle Hgo|s s' Hturn|s s' Henv|s|s].
  - assert (pa_kind pa' = k_capture ∧ pa_qualifying pa' = by_project (load_targets default_interval_seconds digest now (sp_tables s)).1) as [Hk Hq].
    { unfold begin_pass in Hp'. destruct (load_targets _ _ _ _) as [targets db]. by injection Hp' as <-. }
    eexists s, _, now, _. rewrite Hk. split_and!; [done|done|reflexivity|done|done].
  - destruct Hturn as [mono written s s' Hturn].
    destruct (sp_pass s) as [pa|] eqn:Hp; [|by unfold pass_turn in Hturn; rewrite Hp in Hturn].
    destruct (turn_reads _ _ _ _ pa pa' Hturn Hp Hp') as [[Hk Hq]|(Hk & Hr & l & Hl & Hq)]; [by apply (Hstay pa)|].
    exists s, s', 0, l. rewrite Hk. by split_and!.
  - pose proof (ef_pass _ _ (env_step_frame _ _ _ Henv)) as Hsame. apply (Hstay pa'); [congruence|done|done].
  - destruct (sp_pass s) as [pa|] eqn:Hp; [|by rewrite Hp in Hp'].
    case_bool_decide; [done|]. apply (Hstay pa'); congruence.
  - done.
Qed.
End reads.

(** C6: a pass that reaches the end of a registry has converged it to the rows it read when
    it began on that registry, some steps earlier ([sr]): registered are exactly the
    projects that wanted a loop (or listener) there and then, each launched for the target
    made from its row or for one that agrees with it on the fields that call for a
    restart. *)
Theorem pass_converges (cfg : WedgeSettings) (default_interval_seconds : Z) (digest : list material_item → bytes) (now : Z) (mono : Q)
    (db : Tables) (book : CameraHealthBook) (s : Sup) (pa : Pass) :
  let s0 := start default_interval_seconds digest now mono db book in
  let step := sup_step cfg default_interval_seconds digest in
  let k := pa_kind pa in
  NoDup (jr_id <$> tb_projects db) → rtc step s0 s →
  sp_pass s = Some pa → pa_stage pa = sg_changed → pa_todo pa = [] → pa_await pa = None →
  ∃ sr s1 at_read, rtc step s0 sr ∧ reads default_interval_seconds digest k at_read sr s1 ∧
    rtc (pass_goes_on cfg default_interval_seconds digest k) s1 s ∧
    (NoDup (jr_id <$> tb_projects (sp_tables sr)) →
     let wanted p t := ∃ row, row ∈ tb_projects (sp_tables sr) ∧ jr_id row = p ∧
                              wants default_interval_seconds digest k at_read (sp_tables sr) row t in
     (∀ p t, wanted p t → is_Some (sp_runners s !! (k, p))) ∧
     ∀ p r, sp_runners s !! (k, p) = Some r →
       ∃ t, wanted p t ∧ (rg_target r = t ∨ same_fields k (rg_target r) t = true)).
Proof.
  cbv zeta. intros Hnd Hrun Hp Hstage Htodo Haw. destruct (sup_ok_reachable _ _ _ _ _ _ _ _ Hnd Hrun) as [_ Hpok].
  destruct (Hpok pa Hp) as [_ Hst]. unfold stage_ok, waits_for in Hst. rewrite Hstage, Htodo, Haw in Hst.
  destruct Hst as (H1 & H2 & _).
  destruct (pass_reads cfg default_interval_seconds digest _ s pa (start_idle _ _ _ _ _ _) Hrun Hp)
    as (sr & s1 & at_read & l & Hr1 & Hr2 & Hr3 & Hl & Hq).
  exists sr, s1, at_read. split_and!; [done..|]. intros Hnd'.
  setoid_rewrite <-(read_targets_wanted _ _ _ _ _ _ _ _ Hl Hnd'). rewrite <-Hq. split.
  - intros p t Ht. destruct (H1 p) as [Hq1 _]. destruct Hq1 as [?|(? & ? & [=])]; [by eexists|done].
  - intros p r Hr. destruct (H1 p) as [_ Hq1]. destruct Hq1 as [t Ht]; [left; by eexists|].
    exists t. split; [done|]. destruct (H2 p r t Hr Ht) as [[[]%elem_of_nil _]|[_ ?]]; done.
Qed.

(** ** Why an entry goes *)
(** An entry that a pass takes out died or is wedged, no longer qualifies, or was edited. *)
Definition stop_cause (cfg : WedgeSettings) (s : Sup) (k : kind) (p : Z) (r : Registered) : Prop :=
  ∃ pa, sp_pass s = Some pa ∧ pa_kind pa = k ∧
    match pa_stage pa with
    | sg_health => is_Some (pa_qualifying pa !! p) ∧ ∃ mono, is_Some (problem_of cfg k mono (status_of s (rg_task r)) r)
    | sg_launch => False
    | sg_stale => pa_qualifying pa !! p = None
    | sg_changed => ∃ t, pa_qualifying pa !! p = Some t ∧ same_fields k (rg_target r) t = false
    end.
Definition still_registered (s' : Sup) (key : kind * Z) (r : Registered) : Prop :=
  ∃ r', sp_runners s' !! key = Some r' ∧ rg_task r' = rg_task r ∧ rg_target r' = rg_target r.
Lemma kept (s s' : Sup) (key : kind * Z) (r : Registered) :
  sp_runners s !! key = Some r → sp_runners s' !! key = sp_runners s !! key → still_registered s' key r.
Proof. intros Hr Heq. exists r. by rewrite Heq. Qed.
Lemma visit_cause (cfg : WedgeSettings) (mono : Q) (p : Z) (rest : list Z) (pa : Pass) (s : Sup) (k : kind) (q : Z) (r : Registered) :
  sup_ok s → sp_pass s = Some pa → pa_await pa = None → pa_todo pa = p :: rest → sp_runners s !! (k, q) = Some r →
  still_registered (visit cfg mono p (set_todo rest pa) s) (k, q) r ∨ stop_cause cfg s k q r.
Proof.
  intros [Hb Hpok] Hp Haw Htodo Hr. destruct (Hpok pa Hp) as [Hkeys Hst].
  destruct (decide ((k, q) = (pa_kind pa, p))) as [[= -> ->]|Hne].
  - unfold visit. cbn [pa_stage pa_kind pa_qualifying set_todo move_pass]. rewrite Hr. unfold stage_ok in Hst. rewrite Htodo in Hst.
    destruct (pa_stage pa) eqn:Hstage; [destruct (pa_qualifying pa !! p) as [t|] eqn:Ht; [case_match|]| | |];
      try (by left; eapply kept).
    + right. exists pa. rewrite Hstage, Ht. split_and!; try done; exists mono; by eexists.
    + right. exists pa. rewrite Hstage. split_and!; try done. apply Hst. left. by left.
    + right. exists pa. rewrite Hstage. split_and!; try done. destruct Hst as (H1 & H2 & _).
      assert (is_Some (pa_qualifying pa !! p)) as [t Ht] by (apply H1; left; by eexists). exists t. split; [done|].
      destruct (H2 p r t Hr Ht) as [[_ ?]|[Hnot _]]; [done|]. destruct Hnot. by left.
  - left. apply (kept s); [done|]. unfold visit. cbn [pa_stage pa_kind pa_qualifying set_todo move_pass].
    assert (Hdel : delete (pa_kind pa, p) (sp_runners s) !! (k, q) = sp_runners s !! (k, q)) by (by rewrite lookup_delete_ne).
    assert (Hins : ∀ t x, pa_qualifying pa !! p = Some t → <[(pa_kind pa, tg_project_id t) := x]> (sp_runners s) !! (k, q) = sp_runners s !! (k, q))
      by (intros t x Ht; rewrite (Hkeys p t Ht); by rewrite lookup_insert_ne).
    repeat case_match; sup_cbn; auto.
Qed.
Lemma turn_cause (cfg : WedgeSettings) (digest : list material_item → bytes) (mono : Q) (written : bool) (s s' : Sup) (k : kind) (q : Z)
    (r : Registered) :
  sup_ok s → pass_turn cfg digest mono written s = Some s' → sp_runners s !! (k, q) = Some r →
  still_registered s' (k, q) r ∨ stop_cause cfg s k q r.
Proof.
  intros Hok. unfold pass_turn. destruct (sp_pass s) as [pa|] eqn:Hp; [|done]. cbn. intros Hturn Hr.
  destruct (pa_await pa) as [[[p x] w]|] eqn:Haw.
  - left. case_match; [done|]. case_match; injection Hturn as <-; [by apply (kept s)|].
    destruct Hok as [Hb Hpok]. destruct (Hpok pa Hp) as [Hkeys _].
    assert (Hwait : awaiting s = Some ((pa_kind pa, p), rg_task x)) by (unfold awaiting; rewrite Hp; cbn; by rewrite Haw).
    destruct (b_await _ Hb _ _ Hwait) as [Hnone _]. apply (kept s); [done|]. unfold after_stop.
    set (s2 := match pa_kind pa with k_capture => _ | k_listener => _ end).
    assert (Hr2 : sp_runners s2 = sp_runners s) by (subst s2; destruct (pa_kind pa); [done|];
      by rewrite (proj1 (forget_stopped_same _ _ (set_pass (Some (set_await None pa)) s)))).
    destruct (pa_stage pa); [destruct written|..]; [sup_cbn; by rewrite ?Hr2..|].
    destruct (pa_qualifying pa !! p) as [t|] eqn:Ht; [|by rewrite Hr2]. sup_cbn. rewrite Hr2, (Hkeys p t Ht), lookup_insert_ne; [done|congruence].
  - injection Hturn as <-. destruct (pa_todo pa) as [|p rest] eqn:Htodo; [|by apply visit_cause].
    left. apply (kept s); [done|]. unfold next_stage. by repeat case_match.
Qed.
Lemma step_cause (cfg : WedgeSettings) (default_interval_seconds : Z) (digest : list material_item → bytes) (s s' : Sup) (k : kind) (q : Z)
    (r : Registered) :
  sup_ok s → sup_step cfg default_interval_seconds digest s s' → sp_runners s !! (k, q) = Some r →
  still_registered s' (k, q) r ∨ stop_cause cfg s k q r.
Proof.
  intros Hok Hstep Hr. destruct Hstep as [now s0 Hidle Hgo|s0 s1 [mono written ? ? Hturn]|s0 s1 Henv%env_step_frame|s0|s0].
  - left. apply (kept s0); [done|]. unfold begin_pass. by destruct (load_targets _ _ _ _).
  - by eapply turn_cause.
  - left. pose proof (ef_alike _ _ Henv (k, q)) as Ha. rewrite Hr in Ha. destruct (sp_runners s1 !! (k, q)) as [r'|] eqn:Hr'; [|done].
    exists r'. naive_solver.
  - left. apply (kept s0); [done|]. by repeat case_match.
  - left. by apply (kept s0).
Qed.

(** A step of the supervisor leaves a registered runner or listener in place, with its
    task and the target it was launched for, unless a pass found that it died or is
    wedged, that its project no longer qualifies, or that a field that calls for a
    restart was edited. *)
Theorem runner_stops_for_cause (cfg : WedgeSettings) (default_interval_seconds : Z) (digest : list material_item → bytes) (now : Z) (mono : Q)
    (db : Tables) (book : CameraHealthBook) (s s' : Sup) (k : kind) (p : Z) (r : Registered) :
  NoDup (jr_id <$> tb_projects db) →
  rtc (sup_step cfg default_interval_seconds digest) (start default_interval_seconds digest now mono db book) s →
  sup_step cfg default_interval_seconds digest s s' → sp_runners s !! (k, p) = Some r →
  still_registered s' (k, p) r ∨ stop_cause cfg s k p r.
Proof. intros Hnd Hrun. apply step_cause. by eapply sup_ok_reachable. Qed.

(** A runner whose loop ended with its campaign is kept by every pass its project
    qualifies for with the same configuration: a project that is reactivated before a
    pass has seen it archived is never captured again. *)
Theorem finished_runner_is_kept (cfg : WedgeSettings) (default_interval_seconds : Z) (digest : list material_item → bytes) (now : Z) (mono : Q)
    (db : Tables) (book : CameraHealthBook) (s s' : Sup) (p : Z) (r : Registered) :
  NoDup (jr_id <$> tb_projects db) →
  rtc (sup_step cfg default_interval_seconds digest) (start default_interval_seconds digest now mono db book) s →
  sup_step cfg default_interval_seconds digest s s' → sp_runners s !! (k_capture, p) = Some r →
  status_of s (rg_task r) = ts_returned → rg_stopped r = true →
  (∀ pa, sp_pass s = Some pa → pa_kind pa = k_capture →
     ∃ t, pa_qualifying pa !! p = Some t ∧ same_fields k_capture (rg_target r) t = true) →
  still_registered s' (k_capture, p) r.
Proof.
  intros Hnd Hrun Hstep Hr Hst Hstopped Hqual.
  destruct (step_cause cfg default_interval_seconds digest s s' k_capture p r) as [?|(pa & Hp & Hk & Hcause)]; try done.
  { by eapply sup_ok_reachable. }
  destruct (Hqual pa Hp Hk) as (t & Ht & Hsame). rewrite Ht in Hcause. destruct (pa_stage pa); [|done|done|].
  - destruct Hcause as (_ & m & b & Hb). unfold problem_of, runner_problem in Hb. by rewrite Hst, Hstopped in Hb.
  - destruct Hcause as (t' & Ht' & Hd). congruence.
Qed.

(** ** A run *)
(** Some turns of a pass. *)
Fixpoint turns (cfg : WedgeSettings) (digest : list material_item → bytes) (n : nat) (s : Sup) : option Sup :=
  match n with O => Some s | S n => s ← pass_turn cfg digest 0 true s; turns cfg digest n s end.
Definition run_turns (cfg : WedgeSettings) (digest : list material_item → bytes) (n : nat) (s : Sup) : Sup := default s (turns cfg digest n s).
Lemma run_turns_steps (cfg : WedgeSettings) (default_interval_seconds : Z) (digest : list material_item → bytes) (n : nat) (s : Sup) :
  rtc (sup_step cfg default_interval_seconds digest) s (run_turns cfg digest n s).
Proof.
  unfold run_turns. destruct (turns cfg digest n s) as [s'|] eqn:Hs; [|done]. cbn. revert s Hs.
  induction n as [|n IH]; intros s; cbn; [by intros [= <-]|]. intros (s1 & Hturn & Hrest)%bind_Some.
  eapply rtc_l; [by apply ss_pass; econstructor|]. by apply IH.
Qed.
Definition demo_wedge : WedgeSettings := MkWedge 30 10 5 300.
Definition demo_trigger : pyval := PList [PDict [("topic_id", PStr "Device/IO"); ("enabled", PBool true)]].
Definition demo_row (camera : Z) (interval : option Z) : ProjectRow :=
  MkProjectRow 5 camera lc_active interval None None None None None None None None None None 0 None (Some demo_trigger) None 0.
Definition demo_tables (camera : Z) (interval : option Z) : Tables :=
  MkTables [demo_row camera interval]
    {[1 := MkSupCamera (demo_camera (b "10.0.0.7") 0) None None; 2 := MkSupCamera (demo_camera (b "10.0.0.8") 0) None None]} None.
Definition demo_digest : list material_item → bytes := λ _, [].
(** A project that is started, edited, and restarted by a pass once its task [old] has
    been cancelled; [before] and [after] are the turns around that cancellation. *)
Definition demo_start (interval : option Z) (book : CameraHealthBook) : Sup := start 60 demo_digest 0 0 (demo_tables 1 interval) book.
Definition demo_edited (interval : option Z) (book : CameraHealthBook) (db : Tables) : Sup :=
  begin_pass 60 demo_digest 1 (set_tables db (demo_start interval book)).
Definition demo_restarted (k : kind) (interval : option Z) (book : CameraHealthBook) (db : Tables) (before after : nat) : Sup :=
  run_turns demo_wedge demo_digest after
    (end_task demo_wedge 0 (MkTask (k, 5) ts_live) ts_cancelled false 0 (run_turns demo_wedge demo_digest before (demo_edited interval book db))).
Lemma demo_restart_run (k : kind) (interval : option Z) (book : CameraHealthBook) (db : Tables) (before after : nat) :
  sp_pass (demo_start interval book) = None → sp_stopped (demo_start interval book) = false →
  sp_tasks (run_turns demo_wedge demo_digest before (demo_edited interval book db)) !! 0 = Some (MkTask (k, 5) ts_live) →
  rtc (sup_step demo_wedge 60 demo_digest) (demo_start interval book) (demo_restarted k interval book db before after).
Proof.
  intros Hidle Hgo Hlive. eapply rtc_l; [apply ss_env, (es_edit _ db)|]. eapply rtc_l; [by apply (ss_begin _ _ _ 1)|].
  etransitivity; [apply (run_turns_steps _ _ _ before)|].
  eapply rtc_l; [|apply run_turns_steps]. by apply ss_env, es_end.
Qed.
Lemma demo_rows_distinct (camera : Z) (interval : option Z) : NoDup (jr_id <$> tb_projects (demo_tables camera interval)).
Proof. apply NoDup_singleton. Qed.

(** A changed interval: the pass stops the loop, waits for it, and launches it anew. *)
Definition demo_interval_edit : Sup := demo_restarted k_capture (Some 60) (new_book 3) (demo_tables 1 (Some 120)) 6 1.
Lemma demo_interval_run : rtc (sup_step demo_wedge 60 demo_digest) (demo_start (Some 60) (new_book 3)) demo_interval_edit.
Proof. apply demo_restart_run; vm_compute; reflexivity. Qed.
Lemma one_task_per_project_witness :
  sp_tasks demo_interval_edit !! 2 = Some (MkTask (k_capture, 5) ts_live) ∧ sp_next demo_interval_edit - 1 = 2.
Proof.
  split; [vm_compute; reflexivity|].
  apply (one_task_per_project demo_wedge 60 demo_digest 0 0 (demo_tables 1 (Some 60)) (new_book 3) demo_interval_edit _ 2 (k_capture, 5)).
  - apply demo_rows_distinct.
  - apply demo_interval_run.
  - vm_compute. reflexivity.
  - vm_compute. reflexivity.
Defined.
Lemma pass_converges_witness :
  ∃ sr s1 at_read, rtc (sup_step demo_wedge 60 demo_digest) (demo_start (Some 60) (new_book 3)) sr ∧
    reads 60 demo_digest k_capture at_read sr s1 ∧
    rtc (pass_goes_on demo_wedge 60 demo_digest k_capture) s1 demo_interval_edit ∧
    (NoDup (jr_id <$> tb_projects (sp_tables sr)) →
     let wanted p t := ∃ row, row ∈ tb_projects (sp_tables sr) ∧ jr_id row = p ∧
                              wants 60 demo_digest k_capture at_read (sp_tables sr) row t in
     (∀ p t, wanted p t → is_Some (sp_runners demo_interval_edit !! (k_capture, p))) ∧
     ∀ p r, sp_runners demo_interval_edit !! (k_capture, p) = Some r →
       ∃ t, wanted p t ∧ (rg_target r = t ∨ same_fields k_capture (rg_target r) t = true)).
Proof.
  destruct (sp_pass demo_interval_edit) as [pa|] eqn:Hp; [|vm_compute in Hp; discriminate Hp].
  assert (Hpa : Some pa = sp_pass demo_interval_edit) by (by rewrite Hp). vm_compute in Hpa. injection Hpa as ->.
  apply (pass_converges demo_wedge 60 demo_digest 0 0 (demo_tables 1 (Some 60)) (new_book 3) demo_interval_edit _
    (demo_rows_distinct _ _) demo_interval_run Hp eq_refl eq_refl eq_refl).
Defined.
Lemma runner_stops_for_cause_witness :
  still_registered (stop_supervisor demo_interval_edit) (k_capture, 5)
    (default (MkRegistered (target_from_rows 60 (demo_row 1 None) (MkSupCamera (demo_camera [] 0) None None) None) 0 false 0 0 None None)
       (sp_runners demo_interval_edit !! (k_capture, 5)))
  ∨ stop_cause demo_wedge demo_interval_edit k_capture 5
    (default (MkRegistered (target_from_rows 60 (demo_row 1 None) (MkSupCamera (demo_camera [] 0) None None) None) 0 false 0 0 None None)
       (sp_runners demo_interval_edit !! (k_capture, 5))).
Proof.
  apply (runner_stops_for_cause demo_wedge 60 demo_digest 0 0 (demo_tables 1 (Some 60)) (new_book 3) demo_interval_edit).
  - apply demo_rows_distinct.
  - apply demo_interval_run.
  - apply ss_stop.
  - vm_compute. reflexivity.
Defined.

(** A listener that moves to another camera leaves the old camera's [events_unavailable]
    alert standing, although nothing watches that camera any more. *)
Definition demo_moved_listener : Sup := demo_restarted k_listener None (seed_events [1] (new_book 3)) (demo_tables 2 None) 10 2.
Theorem moved_listener_leaves_alert :
  rtc (sup_step demo_wedge 60 demo_digest) (demo_start None (seed_events [1] (new_book 3))) demo_moved_listener ∧
  sp_pass demo_moved_listener = None ∧ is_events_unavailable (sp_book demo_moved_listener) 1 = true ∧
  existsb (watches 1) (map_to_list (sp_runners demo_moved_listener)) = false ∧
  tg_camera_id ∘ rg_target <$> sp_runners demo_moved_listener !! (k_listener, 5) = Some 2.
Proof. split; [apply demo_restart_run; vm_compute; reflexivity|]. split_and!; vm_compute; reflexivity. Qed.

(** The start date and the location, which a running loop reads from the target it was
    launched for, are not among the fields that restart it. *)
Theorem start_date_edit_not_applied (t : Target) (start_date : option Z) (latitude longitude : option float) :
  same_loop_fields t t = true →
  same_loop_fields t
    (MkSupTarget (tg_project_id t) (tg_camera_id t) (tg_interval_seconds t) (tg_schedule t) latitude longitude (tg_storage_path t)
       (tg_stream_id t) (tg_ptz_preset t) (tg_ptz_pan t) (tg_ptz_tilt t) (tg_ptz_zoom t) start_date (tg_end_date t)
       (tg_max_frame_count t) (tg_exact_time_anchors t) (tg_event_triggers t) (tg_active_since t) (tg_camera_version t)) = true.
Proof. done. Qed.
(** Stored triggers that are not a list make the read of every listener raise. *)
Theorem bad_triggers_stop_listeners (digest : list material_item → bytes) :
  load_listener_targets digest
    (MkTables [demo_row 1 None; MkProjectRow 6 1 lc_active None None None None None None None None None None None 0 None (Some (PInt 1)) None 0]
       (tb_cameras (demo_tables 1 None)) None) = Raise TypeError.
Proof. reflexivity. Qed.
(** A stored trigger without an [enabled] flag is live for the listener and does not
    qualify its project for one. *)
Theorem absent_flag_differs (fresh : nat → string) :
  parse_triggers fresh (PList [PDict [("topic_id", PStr "motion")]]) = Ok [MkTrigger (fresh 0%nat) "motion" EmptyString EmptyString true 0] ∧
  has_enabled_event_trigger (PList [PDict [("topic_id", PStr "motion")]]) = Ok false.
Proof. split; reflexivity. Qed.
