(* ===== verification/CameraSessions.v ===== *)
(** * Camera sessions

    capture/camera_sessions.py keeps one session per camera: its configuration and login
    as last loaded.  A call of [get] is a small program with awaits ([Getter]): a cached
    session that carries the shared default login, or was refused it, is asked about
    again; a miss loads in a worker thread, one load at a time per camera.  Meanwhile a
    reconcile pass reports the versions it read ([observe]), an authentication failure
    drops a session ([invalidate]), and rows and policy are edited: [site_step].

    A session is an object that callers and the registry share, so sessions live in a
    heap and are named by the load that made them; [cs_generation] records the generation
    its load began in, which the code keeps in a local variable.

    The adapters' caches ([TtlCache]) are a component of their own; the HTTP negotiation
    state of a session is left out.  The capture slots and the PTZ position of a camera
    are [CaptureSlots]. *)

From S2P Require Import Prelude PyTime PyVal Env Bytes IpAddress Ssrf CameraConfig.
From stdpp Require Import options.
Local Open Scope Z_scope.

(** ** Adapter caches *)
Section ttl_cache.
Context {K V : Type} `{Countable K}.
Definition ADAPTER_CACHE_TTL : Z := 3600 * SECOND.
Record TtlCache := MkTtl { tc_ttl : Z; tc_entries : gmap K (V * Z) }.
Definition new_ttl_cache (ttl : Z) : TtlCache := MkTtl ttl ∅.
Definition ttl_get (now : Z) (key : K) (c : TtlCache) : option V * TtlCache :=
  match tc_entries c !! key with
  | None => (None, c)
  | Some (value, expires) => if expires <=? now then (None, MkTtl (tc_ttl c) (delete key (tc_entries c))) else (Some value, c)
  end.
Definition ttl_put (now : Z) (key : K) (value : V) (c : TtlCache) : TtlCache :=
  MkTtl (tc_ttl c) (<[key := (value, now + tc_ttl c)]> (tc_entries c)).
Definition ttl_drop (key : K) (c : TtlCache) : TtlCache := MkTtl (tc_ttl c) (delete key (tc_entries c)).
Definition ttl_clear (c : TtlCache) : TtlCache := MkTtl (tc_ttl c) ∅.
End ttl_cache.
Arguments TtlCache K V {_ _}.

(** ** Sessions *)
Definition WITHHELD_RECHECK : Z := 15 * SECOND.
Record CameraSession := MkSession {
  cs_camera_id : Z;
  cs_config_version : option bytes;
  cs_config : CaptureCameraConfig;
  cs_credentials : option (bytes * bytes);
  cs_binding_decided_at : Z;
  cs_generation : Z;
}.
Definition set_decided (now : Z) (s : CameraSession) : CameraSession :=
  MkSession (cs_camera_id s) (cs_config_version s) (cs_config s) (cs_credentials s) now (cs_generation s).

(** [CameraSessionRegistry]: the cached sessions by camera (as names in the heap), the
    generations, the versions of the last pass, and the number of loads. *)
Record Registry := MkRegistry {
  ry_sessions : gmap Z Z;
  ry_heap : gmap Z CameraSession;
  ry_generations : gmap Z Z;
  ry_known : gmap Z (option bytes);
  ry_loads : Z;
}.
Definition new_registry : Registry := MkRegistry ∅ ∅ ∅ ∅ 0.
Definition generation_at (camera : Z) (g : Registry) : Z := default 0 (ry_generations g !! camera).
(** [cached] *)
Definition cached (camera : Z) (g : Registry) : option CameraSession := id ← ry_sessions g !! camera; ry_heap g !! id.
(** [invalidate] *)
Definition drop_session (camera : Z) (g : Registry) : Registry :=
  MkRegistry (delete camera (ry_sessions g)) (ry_heap g) (<[camera := generation_at camera g + 1]> (ry_generations g)) (ry_known g) (ry_loads g).
(** [invalidate_all]: every camera with a session, then every one with a generation *)
Definition drop_all_sessions (g : Registry) : Registry :=
  foldl (λ g camera, drop_session camera g) g ((map_to_list (ry_sessions g)).*1 ++ (map_to_list (ry_generations g)).*1).
(** [observe] *)
Definition outdated (versions : gmap Z (option bytes)) (g : Registry) (entry : Z * Z) : bool :=
  match versions !! entry.1, ry_heap g !! entry.2 with
  | Some v, Some s => negb (bool_decide (v = cs_config_version s))
  | _, _ => true
  end.
Definition observe (versions : gmap Z (option bytes)) (g : Registry) : Registry :=
  let g' := MkRegistry (ry_sessions g) (ry_heap g) (ry_generations g) versions (ry_loads g) in
  foldl (λ g' entry, if outdated versions g entry then drop_session entry.1 g' else g') g' (map_to_list (ry_sessions g)).
(** [_may_store] *)
Definition may_store (camera generation : Z) (version : option bytes) (g : Registry) : bool :=
  bool_decide (generation_at camera g = generation) &&
  match ry_known g !! camera with Some (Some known) => bool_decide (Some known = version) | _ => true end.
(** the end of [_load_session] *)
Definition store_loaded (camera generation now : Z) (config : CaptureCameraConfig) (credentials : option (bytes * bytes)) (g : Registry)
    : Z * Registry :=
  let id := ry_loads g in
  let s := MkSession camera (cg_config_version config) config credentials now generation in
  let sessions := if may_store camera generation (cg_config_version config) g then <[camera := id]> (ry_sessions g) else ry_sessions g in
  (id, MkRegistry sessions (<[id := s]> (ry_heap g)) (ry_generations g) (ry_known g) (ry_loads g + 1)).

(** ** The question about the default login *)
Inductive binding := bd_holds | bd_ask.
(** [_binding_holds], [_withheld_verdict_holds] up to the question *)
Definition binding_question (now : Z) (s : CameraSession) : binding * CameraSession :=
  let view := binding_view (cs_config s) in
  if default_withheld view then
    if now - cs_binding_decided_at s <? WITHHELD_RECHECK then (bd_holds, s) else (bd_ask, set_decided now s)
  else if negb (uses_bound_default view) then (bd_holds, s)
  else (bd_ask, s).
(** and from the answer on: whether the session may be used *)
Definition binding_answer (bound : bool) (s : CameraSession) : bool :=
  if default_withheld (binding_view (cs_config s)) then negb bound else bound.
Definition put_session (id : Z) (s : CameraSession) (g : Registry) : Registry :=
  MkRegistry (ry_sessions g) (<[id := s]> (ry_heap g)) (ry_generations g) (ry_known g) (ry_loads g).
(** a session that may not be used is dropped if it is still the cached one *)
Definition drop_if_current (camera id : Z) (g : Registry) : Registry :=
  if bool_decide (ry_sessions g !! camera = Some id) then drop_session camera g else g.

(** ** Calls of [get] *)
Inductive Getter :=
  | gt_start (camera : Z)
  | gt_check (locked : bool) (camera id : Z)
  | gt_wait (camera : Z)
  | gt_loading (camera generation : Z)
  | gt_loaded (camera generation : Z) (answer : result (option (CaptureCameraConfig * option (bytes * bytes))))
  | gt_done (camera : Z) (answer : result Z).
(** Whether a call holds the load lock of a camera. *)
Definition holds_lock (camera : Z) (t : Getter) : bool :=
  match t with gt_check true c _ | gt_loading c _ | gt_loaded c _ _ => c =? camera | _ => false end.
(** the look into the cache at the top of [get] and again under the lock *)
Definition look (locked : bool) (camera now : Z) (g : Registry) : Getter * Registry :=
  let miss := if locked then gt_loading camera (generation_at camera g) else gt_wait camera in
  match ry_sessions g !! camera with
  | None => (miss, g)
  | Some id =>
      match ry_heap g !! id with
      | None => (miss, g)
      | Some s =>
          match binding_question now s with
          | (bd_holds, _) => (gt_done camera (Ok id), g)
          | (bd_ask, s) => (gt_check locked camera id, put_session id s g)
          end
      end
  end.
Definition answered (locked : bool) (camera id : Z) (bound : result bool) (g : Registry) : Getter * Registry :=
  match bound, ry_heap g !! id with
  | Raise e, _ => (gt_done camera (Raise e), g)
  | _, None => (gt_done camera (Ok id), g)
  | Ok bound, Some s =>
      if binding_answer bound s then (gt_done camera (Ok id), g)
      else let g := drop_if_current camera id g in
           (if locked then gt_loading camera (generation_at camera g) else gt_wait camera, g)
  end.
(** [_load_session] after the load *)
Definition finish_load (camera generation now : Z) (answer : result (option (CaptureCameraConfig * option (bytes * bytes)))) (g : Registry)
    : Getter * Registry :=
  match answer with
  | Raise CredentialDecryptError => (gt_done camera (Raise (OtherCaptureError "decrypt")), g)
  | Raise e => (gt_done camera (Raise e), g)
  | Ok None => (gt_done camera (Raise CameraMissingError), g)
  | Ok (Some (config, credentials)) => let '(id, g) := store_loaded camera generation now config credentials g in (gt_done camera (Ok id), g)
  end.

(** The registry, the calls in flight, and what they and the passes read: [st_read] is the
    snapshot a pass in progress has taken, [st_seen] the last one that was reported. *)
Record Site := MkSite {
  st_registry : Registry;
  st_calls : gmap Z Getter;
  st_rows : gmap Z CameraRow;
  st_defaults : option DefaultsRow;
  st_subnets : list bytes;
  st_cache : resolution_cache;
  st_now : Z;
  st_read : gmap Z (CameraRow * option DefaultsRow);
  st_seen : gmap Z (CameraRow * option DefaultsRow);
}.
Definition set_call (t : Z) (x : Getter * Registry) (w : Site) : Site :=
  MkSite x.2 (<[t := x.1]> (st_calls w)) (st_rows w) (st_defaults w) (st_subnets w) (st_cache w) (st_now w) (st_read w) (st_seen w).
Definition set_registry (g : Registry) (w : Site) : Site :=
  MkSite g (st_calls w) (st_rows w) (st_defaults w) (st_subnets w) (st_cache w) (st_now w) (st_read w) (st_seen w).
Definition set_cache (c : resolution_cache) (w : Site) : Site :=
  MkSite (st_registry w) (st_calls w) (st_rows w) (st_defaults w) (st_subnets w) c (st_now w) (st_read w) (st_seen w).

Section sessions.
Context (cipher_decrypt : bytes → option bytes) (httpx_url : bytes → option (bytes * bytes)) (digest : list material_item → bytes).

(** [_load]: the configuration and the login it resolves to *)
Definition load (camera : option CameraRow) (defaults : option DefaultsRow) (subnets : list bytes) (calls : bytes → resolver_call)
    (cache : resolution_cache) : result (option (CaptureCameraConfig * option (bytes * bytes))) * resolution_cache :=
  match load_capture_config cipher_decrypt httpx_url digest camera defaults subnets calls cache with
  | (Raise e, cache) => (Raise e, cache)
  | (Ok None, cache) => (Ok None, cache)
  | (Ok (Some config), cache) =>
      match resolve_capture_credentials cipher_decrypt config with
      | Raise e => (Raise e, cache)
      | Ok credentials => (Ok (Some (config, credentials)), cache)
      end
  end.
(** [default_still_bound] for a session *)
Definition default_still_bound (s : CameraSession) (subnets : list bytes) (calls : bytes → resolver_call) (cache : resolution_cache)
    : result bool * resolution_cache :=
  may_substitute_default httpx_url (camera_credential_targets (config_targets (cs_config s))) subnets calls cache.
Definition seen_versions (seen : gmap Z (CameraRow * option DefaultsRow)) : gmap Z (option bytes) :=
  (λ x : CameraRow * option DefaultsRow, Some (config_version digest x.1 x.2)) <$> seen.

Inductive site_step : Site → Site → Prop :=
  | st_call t camera w : st_calls w !! t = None → site_step w (set_call t (gt_start camera, st_registry w) w)
  | st_look t camera w :
      st_calls w !! t = Some (gt_start camera) →
      site_step w (set_call t (look false camera (st_now w) (st_registry w)) w)
  | st_answer t locked camera id s calls bound cache w :
      st_calls w !! t = Some (gt_check locked camera id) → ry_heap (st_registry w) !! id = Some s →
      default_still_bound s (st_subnets w) calls (st_cache w) = (bound, cache) →
      site_step w (set_cache cache (set_call t (answered locked camera id bound (st_registry w)) w))
  | st_acquire t camera w :
      st_calls w !! t = Some (gt_wait camera) → map_Forall (λ _ c, holds_lock camera c = false) (st_calls w) →
      site_step w (set_call t (look true camera (st_now w) (st_registry w)) w)
  | st_load t camera generation calls answer cache w :
      st_calls w !! t = Some (gt_loading camera generation) →
      load (st_rows w !! camera) (st_defaults w) (st_subnets w) calls (st_cache w) = (answer, cache) →
      site_step w (set_cache cache (set_call t (gt_loaded camera generation answer, st_registry w) w))
  | st_finish t camera generation answer w :
      st_calls w !! t = Some (gt_loaded camera generation answer) →
      site_step w (set_call t (finish_load camera generation (st_now w) answer (st_registry w)) w)
  | st_abandon t w :
      site_step w (MkSite (st_registry w) (delete t (st_calls w)) (st_rows w) (st_defaults w) (st_subnets w) (st_cache w) (st_now w)
                     (st_read w) (st_seen w))
  | st_invalidate camera w : site_step w (set_registry (drop_session camera (st_registry w)) w)
  | st_edit rows defaults subnets cache now w :
      st_now w ≤ now →
      site_step w (MkSite (st_registry w) (st_calls w) rows defaults subnets cache now (st_read w) (st_seen w))
  | st_pass_read cameras w :
      site_step w (MkSite (st_registry w) (st_calls w) (st_rows w) (st_defaults w) (st_subnets w) (st_cache w) (st_now w)
                     ((λ row, (row, st_defaults w)) <$> filter (λ e, e.1 ∈ (cameras : gset Z)) (st_rows w)) (st_seen w))
  | st_pass_observe w :
      site_step w (MkSite (observe (seen_versions (st_read w)) (st_registry w)) (st_calls w) (st_rows w) (st_defaults w) (st_subnets w)
                     (st_cache w) (st_now w) (st_read w) (st_read w)).
End sessions.
