(* ===== verification/CameraSessionsFacts.v ===== *)
(** * Facts about camera sessions *)

From Stdlib Require Import Ascii.
From S2P Require Import Prelude PyTime PyVal Env Bytes IpAddress Ssrf CameraConfig CameraSessions.
From stdpp Require Import options.
Local Open Scope Z_scope.

Section facts.
Context (cipher_decrypt : bytes → option bytes) (httpx_url : bytes → option (bytes * bytes)) (digest : list material_item → bytes).
Local Abbreviation step := (site_step cipher_decrypt httpx_url digest).

(** A configuration as a load leaves it: as read, or, when the binding rule refused its
    default login, as read without that login and marked so. *)
Definition as_bound (config read : CaptureCameraConfig) : Prop :=
  config = read ∨ (is_Some (cg_default_credentials read) ∧ config = set_default None true read).
(** The rows a configuration was read from, and the login it resolves to. *)
Definition loaded_from (config : CaptureCameraConfig) (credentials : option (bytes * bytes)) (row : CameraRow) (d : option DefaultsRow) : Prop :=
  cg_config_version config = Some (config_version digest row d) ∧
  resolve_capture_credentials cipher_decrypt config = Ok credentials ∧
  ∃ read, read_config cipher_decrypt digest row d = Ok read ∧ as_bound config read.
(** The targets of a camera row. *)
Definition row_targets (row : CameraRow) : camera_targets := MkTargets (cr_address row) (cr_snapshot_uri row) (cr_stream_uri row).

Lemma version_defaults (row : CameraRow) (d : option DefaultsRow) :
  config_version digest row (if needs_default_credentials (cr_inherit_default row) (cr_credentials row) then d else None) = config_version digest row d.
Proof. unfold config_version, config_material. by destruct (needs_default_credentials _ _). Qed.
Lemma read_config_version (row : CameraRow) (d : option DefaultsRow) (config : CaptureCameraConfig) :
  read_config cipher_decrypt digest row d = Ok config → cg_config_version config = Some (config_version digest row d).
Proof. unfold read_config. case_match; [|done]. intros [= <-]. cbn. by rewrite version_defaults. Qed.
Lemma read_config_fresh (row : CameraRow) (d : option DefaultsRow) (config : CaptureCameraConfig) :
  read_config cipher_decrypt digest row d = Ok config → cg_default_withheld config = false ∧ config_targets config = row_targets row.
Proof. unfold read_config. case_match; [|done]. by intros [= <-]. Qed.
Lemma load_facts (row : option CameraRow) (d : option DefaultsRow) (subnets : list bytes) (calls : bytes → resolver_call)
    (cache cache' : resolution_cache) (config : CaptureCameraConfig) (credentials : option (bytes * bytes)) :
  load cipher_decrypt httpx_url digest row d subnets calls cache = (Ok (Some (config, credentials)), cache') →
  ∃ camera, row = Some camera ∧ loaded_from config credentials camera d ∧ config_targets config = row_targets camera ∧
    (is_Some (cg_default_credentials config) →
     may_substitute_default httpx_url (camera_credential_targets (row_targets camera)) subnets calls cache = (Ok true, cache')).
Proof.
  unfold load, load_capture_config. destruct row as [camera|]; [|done].
  destruct (read_config cipher_decrypt digest camera d) as [read|] eqn:Hread; [|done]. unfold bind_default.
  pose proof (read_config_version _ _ _ Hread) as Hv. destruct (read_config_fresh _ _ _ Hread) as [Hw Htargets].
  destruct (cg_default_credentials read) as [login|] eqn:Hlogin.
  - unfold bound_default_credentials. rewrite Htargets. destruct (may_substitute_default _ _ _ _ _) as [[bound|] c1] eqn:Hsub; [|done].
    destruct (resolve_capture_credentials _ _) as [cr|] eqn:Hres; [|done]. intros [= <- <- <-]. exists camera. split; [done|].
    destruct bound; (split; [split_and!; [done|done|exists read; split; [done|]]|split; [done|]]).
    + left. destruct read. cbn in *. by subst.
    + done.
    + right. by split; [eexists|].
    + by intros [? [=]].
  - destruct (resolve_capture_credentials _ _) as [cr|] eqn:Hres; [|done]. intros [= <- <- <-]. exists camera.
    split_and!; [done|split_and!; [done|done|exists read; by split; [|left]]|done|]. rewrite Hlogin. by intros [? [=]].
Qed.

(** ** The registry *)
Record session_ok (s : CameraSession) : Prop := {
  sk_version : cs_config_version s = cg_config_version (cs_config s);
  sk_rows : ∃ row d, loaded_from (cs_config s) (cs_credentials s) row d;
}.
Record registry_ok (g : Registry) : Prop := {
  rk_ids : ∀ id s, ry_heap g !! id = Some s → id < ry_loads g;
  rk_heap : ∀ id s, ry_heap g !! id = Some s → session_ok s;
  rk_cached : ∀ camera id, ry_sessions g !! camera = Some id →
      ∃ s, ry_heap g !! id = Some s ∧ cs_camera_id s = camera ∧ cs_generation s = generation_at camera g ∧
           ∀ v, ry_known g !! camera = Some (Some v) → cs_config_version s = Some v;
}.
Lemma registry_ok_new : registry_ok new_registry.
Proof. by split. Qed.
Lemma generation_drop (camera c : Z) (g : Registry) :
  generation_at c (drop_session camera g) = if bool_decide (c = camera) then generation_at camera g + 1 else generation_at c g.
Proof.
  unfold generation_at at 1. cbn. case_bool_decide as Hc; [subst c; by rewrite lookup_insert_eq|by rewrite lookup_insert_ne].
Qed.
Lemma registry_ok_drop (camera : Z) (g : Registry) : registry_ok g → registry_ok (drop_session camera g).
Proof.
  intros [H1 H2 H3]. split; [done|done|]. intros c id. cbn. intros [Hne Hid]%lookup_delete_Some.
  destruct (H3 c id Hid) as (s & Hs & Hc & Hgen & Hv). exists s. rewrite generation_drop, bool_decide_eq_false_2 by done. by split_and!.
Qed.
Lemma registry_ok_drop_current (camera id : Z) (g : Registry) : registry_ok g → registry_ok (drop_if_current camera id g).
Proof. intros Hok. unfold drop_if_current. case_bool_decide; [by apply registry_ok_drop|done]. Qed.
Lemma registry_ok_put (id now : Z) (s : CameraSession) (g : Registry) :
  registry_ok g → ry_heap g !! id = Some s → registry_ok (put_session id (set_decided now s) g).
Proof.
  intros [H1 H2 H3] Hs. split; cbn.
  - intros i x [[<- <-]|[_ Hi]]%lookup_insert_Some; eauto.
  - intros i x [[<- <-]|[_ Hi]]%lookup_insert_Some; [|by eauto]. destruct (H2 id s Hs) as [Ha Hb]. by split.
  - intros c i Hi. destruct (H3 c i Hi) as (x & Hx & Hc & Hgen & Hv). destruct (decide (i = id)) as [->|Hne].
    + rewrite Hs in Hx. injection Hx as <-. exists (set_decided now s). rewrite lookup_insert_eq. by split_and!.
    + exists x. rewrite lookup_insert_ne by done. by split_and!.
Qed.
Lemma registry_ok_store (camera generation now : Z) (config : CaptureCameraConfig) (credentials : option (bytes * bytes)) (g : Registry)
    (row : CameraRow) (d : option DefaultsRow) :
  registry_ok g → loaded_from config credentials row d → registry_ok (store_loaded camera generation now config credentials g).2.
Proof.
  intros [H1 H2 H3] Hfrom. assert (Hnew : ry_heap g !! ry_loads g = None)
    by (destruct (ry_heap g !! ry_loads g) eqn:E; [apply H1 in E; lia|done]). split; cbn.
  - intros i x [[<- _]|[_ Hi]]%lookup_insert_Some; [lia|]. apply H1 in Hi. lia.
  - intros i x [[<- <-]|[_ Hi]]%lookup_insert_Some; [|by eauto]. split; [done|by exists row, d].
  - intros c i Hi. unfold generation_at in *. cbn.
    assert (Hold : ry_sessions g !! c = Some i → ∃ s, <[ry_loads g := MkSession camera (cg_config_version config) config credentials now generation]>
              (ry_heap g) !! i = Some s ∧ cs_camera_id s = c ∧ cs_generation s = default 0 (ry_generations g !! c) ∧
              ∀ v, ry_known g !! c = Some (Some v) → cs_config_version s = Some v).
    { intros Hc. destruct (H3 c i Hc) as (x & Hx & Hrest). exists x. rewrite lookup_insert_ne; [done|congruence]. }
    destruct (may_store camera generation (cg_config_version config) g) eqn:Hm; [|by apply Hold].
    apply lookup_insert_Some in Hi as [[<- <-]|[_ Hi]]; [|by apply Hold].
    apply andb_true_iff in Hm as [Hgen%bool_decide_eq_true Hknown]. eexists. rewrite lookup_insert_eq. split_and!; [done|done|by cbn|].
    intros v Hv. rewrite Hv in Hknown. cbn. by apply bool_decide_eq_true in Hknown.
Qed.
(** After an observation no cached session is outdated. *)
Lemma observe_fold (versions : gmap Z (option bytes)) (g0 : Registry) (l : list (Z * Z)) (g : Registry) :
  let g' := foldl (λ g entry, if outdated versions g0 entry then drop_session entry.1 g else g) g l in
  ry_heap g' = ry_heap g ∧ ry_known g' = ry_known g ∧ ry_loads g' = ry_loads g ∧
  ∀ c id, ry_sessions g' !! c = Some id →
    ry_sessions g !! c = Some id ∧ generation_at c g' = generation_at c g ∧ ∀ i, (c, i) ∈ l → outdated versions g0 (c, i) = false.
Proof.
  revert g. induction l as [|[c0 i0] l IH]; intros g; cbn [foldl fst]; [split_and!; try done; intros c id Hc; split_and!; try done; by intros i ?%elem_of_nil|].
  destruct (IH (if outdated versions g0 (c0, i0) then drop_session c0 g else g)) as (Hheap & Hknown & Hloads & Hrest).
  destruct (outdated versions g0 (c0, i0)) eqn:Hout; (split_and!; [done..|]); intros c id Hc; destruct (Hrest c id Hc) as (Hs & Hgen & Hl).
  - cbn in Hs. apply lookup_delete_Some in Hs as [Hne Hs]. split_and!; [done| |].
    + rewrite Hgen. cbn [fst]. by rewrite generation_drop, bool_decide_eq_false_2.
    + intros i [[= -> ->]|Hi]%elem_of_cons; [done|by apply Hl].
  - split_and!; [done|done|]. intros i [[= -> ->]|Hi]%elem_of_cons; [done|by apply Hl].
Qed.
Lemma registry_ok_observe (versions : gmap Z (option bytes)) (g : Registry) : registry_ok g → registry_ok (observe versions g).
Proof.
  intros [H1 H2 H3]. unfold observe.
  destruct (observe_fold versions g (map_to_list (ry_sessions g)) (MkRegistry (ry_sessions g) (ry_heap g) (ry_generations g) versions (ry_loads g)))
    as (Hheap & Hknown & Hloads & Hrest).
  set (g' := foldl _ _ _) in *. split.
  - intros id s. rewrite Hheap, Hloads. apply H1.
  - intros id s. rewrite Hheap. apply H2.
  - intros c id Hc. destruct (Hrest c id Hc) as (Hs & Hgen & Hl). cbn in Hs. destruct (H3 c id Hs) as (s & Hheap' & Hcam & Hg & _).
    exists s. rewrite Hheap, Hgen, Hknown. cbn. split_and!; [done|done|done|]. intros v Hv.
    specialize (Hl id ltac:(by apply elem_of_map_to_list)). unfold outdated in Hl. cbn in Hl. rewrite Hv, Hheap' in Hl.
    by apply negb_false_iff, bool_decide_eq_true in Hl.
Qed.

(** ** Calls, passes and edits *)
Definition call_ok (t : Getter) : Prop :=
  match t with
  | gt_loaded _ _ (Ok (Some (config, credentials))) => ∃ row d, loaded_from config credentials row d
  | _ => True
  end.
Record site_ok (w : Site) : Prop := {
  so_registry : registry_ok (st_registry w);
  so_known : ry_known (st_registry w) = seen_versions digest (st_seen w);
  so_calls : map_Forall (λ _ t, call_ok t) (st_calls w);
  so_lock : ∀ camera t t' x x', st_calls w !! t = Some x → st_calls w !! t' = Some x' →
      holds_lock camera x = true → holds_lock camera x' = true → t = t';
}.
(** A step of one call: what it may change of the registry, and that it takes no lock it
    did not hold or find free. *)
Lemma site_ok_call (t : Z) (x : Getter * Registry) (cache : resolution_cache) (w : Site) :
  site_ok w → registry_ok x.2 → ry_known x.2 = ry_known (st_registry w) → call_ok x.1 →
  (∀ camera, holds_lock camera x.1 = true →
     (∃ y, st_calls w !! t = Some y ∧ holds_lock camera y = true) ∨ map_Forall (λ _ c, holds_lock camera c = false) (st_calls w)) →
  site_ok (set_cache cache (set_call t x w)).
Proof.
  intros [H1 H2 H3 H4] Hreg Hknown Hcall Hlock. split; cbn; [done|by rewrite Hknown| |].
  - by apply map_Forall_insert_2.
  - intros camera a a' y y' Hy Hy' Hl Hl'.
    assert (Hsame : ∀ b z, b ≠ t → <[t := x.1]> (st_calls w) !! b = Some z → holds_lock camera z = true → holds_lock camera x.1 = true → False).
    { intros b z Hne Hz Hlz Hlx. rewrite lookup_insert_ne in Hz by done. destruct (Hlock camera Hlx) as [(q & Hq & Hlq)|Hfree].
      - apply Hne. by apply (H4 camera b t z q).
      - apply Hfree in Hz. congruence. }
    destruct (decide (a = t)) as [->|Ha], (decide (a' = t)) as [->|Ha']; [done| | |].
    + rewrite lookup_insert_eq in Hy. injection Hy as <-. exfalso. by eapply (Hsame a' y').
    + rewrite lookup_insert_eq in Hy'. injection Hy' as <-. exfalso. by eapply (Hsame a y).
    + rewrite lookup_insert_ne in Hy, Hy' by done. by eapply H4.
Qed.
Lemma question_session (now : Z) (s : CameraSession) : ∃ at_, (binding_question now s).2 = set_decided at_ s.
Proof.
  unfold binding_question. assert (Hid : s = set_decided (cs_binding_decided_at s) s) by (by destruct s).
  repeat case_match; cbn; eauto.
Qed.
Lemma look_ok (locked : bool) (camera now : Z) (g : Registry) :
  registry_ok g → registry_ok (look locked camera now g).2 ∧ ry_known (look locked camera now g).2 = ry_known g ∧
  call_ok (look locked camera now g).1 ∧ ∀ c, holds_lock c (look locked camera now g).1 = true → locked = true ∧ c = camera.
Proof.
  intros Hok. unfold look. destruct (ry_sessions g !! camera) as [id|].
  2: { destruct locked; split_and!; try done; cbn; intros c; lia. }
  destruct (ry_heap g !! id) as [s|] eqn:Hs.
  2: { destruct locked; split_and!; try done; cbn; intros c; lia. }
  destruct (question_session now s) as [at_ Hq]. destruct (binding_question now s) as [[] s'].
  - by split_and!.
  - cbn in Hq. subst s'. split_and!; [by apply registry_ok_put|done|done|]. intros c. destruct locked; cbn; [|done]. intros ?. split; [done|lia].
Qed.
Lemma answered_ok (locked : bool) (camera id : Z) (bound : result bool) (g : Registry) :
  registry_ok g → registry_ok (answered locked camera id bound g).2 ∧ ry_known (answered locked camera id bound g).2 = ry_known g ∧
  call_ok (answered locked camera id bound g).1 ∧ ∀ c, holds_lock c (answered locked camera id bound g).1 = true → locked = true ∧ c = camera.
Proof.
  intros Hok. unfold answered. destruct bound as [bound|]; [|by split_and!]. destruct (ry_heap g !! id) as [s|]; [|by split_and!].
  destruct (binding_answer bound s); [by split_and!|]. cbn [fst snd]. split_and!.
  - by apply registry_ok_drop_current.
  - unfold drop_if_current. by case_match.
  - by destruct locked.
  - intros c. destruct locked; cbn; [|done]. intros ?. split; [done|lia].
Qed.
Lemma finish_ok (camera generation now : Z) (answer : result (option (CaptureCameraConfig * option (bytes * bytes)))) (g : Registry) :
  registry_ok g → call_ok (gt_loaded camera generation answer) →
  registry_ok (finish_load camera generation now answer g).2 ∧ ry_known (finish_load camera generation now answer g).2 = ry_known g ∧
  call_ok (finish_load camera generation now answer g).1 ∧ ∀ c, holds_lock c (finish_load camera generation now answer g).1 = false.
Proof.
  intros Hok Hcall. unfold finish_load. destruct answer as [[[config credentials]|]|e]; [|by split_and!|by destruct e; split_and!].
  destruct Hcall as (row & d & Hfrom).
  pose proof (registry_ok_store camera generation now config credentials g row d Hok Hfrom) as Hst.
  destruct (store_loaded camera generation now config credentials g) as [id g'] eqn:E. unfold store_loaded in E. injection E as _ <-.
  by split_and!.
Qed.
Lemma site_ok_step (w w' : Site) : step w w' → site_ok w → site_ok w'.
Proof.
  intros Hstep Hok. pose proof Hok as [H1 H2 H3 H4].
  destruct Hstep as [t c w Ht|t c w Ht|t l c id s calls bound cache w Ht Hs Hb|t c w Ht Hfree|t c g calls answer cache w Ht Hl|t c g answer w Ht
    |t w|c w|rows d subnets cache now w Hnow|cams w|w].
  - apply (site_ok_call t (gt_start c, st_registry w) (st_cache w)); done.
  - destruct (look_ok false c (st_now w) _ H1) as (? & ? & ? & Hlock).
    apply (site_ok_call t _ (st_cache w)); try done. intros camera Hc. by destruct (Hlock camera Hc).
  - destruct (answered_ok l c id bound _ H1) as (? & ? & ? & Hlock). apply site_ok_call; try done.
    intros camera Hc. destruct (Hlock camera Hc) as [-> ->]. left. eexists. split; [done|]. cbn. lia.
  - destruct (look_ok true c (st_now w) _ H1) as (? & ? & ? & Hlock).
    apply (site_ok_call t _ (st_cache w)); try done. intros camera Hc. destruct (Hlock camera Hc) as [_ ->]. by right.
  - apply site_ok_call; try done.
    + cbn. destruct answer as [[[config credentials]|]|]; try done. apply load_facts in Hl as (row & _ & Hfrom & _). by eexists _, _.
    + cbn. intros camera Hc. left. eexists. split; [done|done].
  - destruct (finish_ok c g (st_now w) answer _ H1 (H3 t _ Ht)) as (? & ? & ? & Hlock).
    apply (site_ok_call t _ (st_cache w)); try done. intros camera. by rewrite Hlock.
  - split; cbn; try done; [by apply map_Forall_delete|]. intros camera a a' x x' [_ Hx]%lookup_delete_Some [_ Hx']%lookup_delete_Some.
    by eapply H4.
  - split; cbn; try done. by apply registry_ok_drop.
  - by split.
  - by split.
  - split; cbn; try done; [by apply registry_ok_observe|]. unfold observe.
    by destruct (observe_fold (seen_versions digest (st_read w)) (st_registry w) (map_to_list (ry_sessions (st_registry w)))
      (MkRegistry (ry_sessions (st_registry w)) (ry_heap (st_registry w)) (ry_generations (st_registry w)) (seen_versions digest (st_read w))
         (ry_loads (st_registry w)))) as (_ & -> & _).
Qed.
Definition new_site (rows : gmap Z CameraRow) (defaults : option DefaultsRow) (subnets : list bytes) (now : Z) : Site :=
  MkSite new_registry ∅ rows defaults subnets [] now ∅ ∅.
Lemma site_ok_reachable (rows : gmap Z CameraRow) (defaults : option DefaultsRow) (subnets : list bytes) (now : Z) (w : Site) :
  rtc step (new_site rows defaults subnets now) w → site_ok w.
Proof.
  intros Hrun. assert (Hok : site_ok (new_site rows defaults subnets now)).
  { split; cbn; [apply registry_ok_new|unfold seen_versions; by rewrite fmap_empty|done|done]. }
  induction Hrun as [|x y z Hstep _ IH]; [done|]. apply IH. by eapply site_ok_step.
Qed.
End facts.

(** ** Theorems *)
(** C10: the session a camera has in the cache was loaded after the last time it was
    invalidated, its login is the one its configuration resolves to, and when the last
    completed reconcile pass saw the camera, its configuration is, but for time stamp and
    fingerprint, the one of the rows that pass read, default login included, or that one
    with the default login withheld; whatever edits, loads, checks and failures overlapped
    (for a fingerprint without collisions). *)
Theorem cached_session_is_current (dec : bytes → option bytes) (url : bytes → option (bytes * bytes)) (digest : list material_item → bytes)
    (rows : gmap Z CameraRow) (defaults : option DefaultsRow) (subnets : list bytes) (now camera id : Z) (w : Site) :
  (∀ x y, digest x = digest y → x = y) → rtc (site_step dec url digest) (new_site rows defaults subnets now) w →
  ry_sessions (st_registry w) !! camera = Some id →
  ∃ s, ry_heap (st_registry w) !! id = Some s ∧ cs_camera_id s = camera ∧ cs_generation s = generation_at camera (st_registry w) ∧
    resolve_capture_credentials dec (cs_config s) = Ok (cs_credentials s) ∧
    ∀ row d, st_seen w !! camera = Some (row, d) →
      ∃ config, read_config dec digest row d = Ok config ∧ as_bound (capture_fields (cs_config s)) (capture_fields config).
Proof.
  intros Hinj Hrun Hid. destruct (site_ok_reachable _ _ _ _ _ _ _ _ Hrun) as [[_ Hheap Hcached] Hknown _ _].
  destruct (Hcached camera id Hid) as (s & Hs & Hcam & Hgen & Hv). exists s.
  destruct (Hheap id s Hs) as [Hversion (row' & d' & Hver & Hres & read & Hread & Hbound)].
  split_and!; [done..|]. intros row d Hseen.
  assert (Hmat : config_material row' d' = config_material row d).
  { apply Hinj. specialize (Hv (config_version digest row d)). rewrite Hknown in Hv. unfold seen_versions in Hv.
    rewrite lookup_fmap, Hseen in Hv. specialize (Hv eq_refl). unfold config_version in *. congruence. }
  apply (same_material_same_config dec digest) in Hmat. rewrite Hread in Hmat.
  destruct (read_config dec digest row d) as [config|]; [|done]. cbn in Hmat. injection Hmat as Hmat. exists config. split; [done|].
  assert (capture_fields read = capture_fields config) as <- by (unfold capture_fields; congruence).
  destruct Hbound as [->|[Hlogin ->]]; [by left|right]. by split.
Qed.

(** The loads of a camera do not overlap: of the calls in flight at most one is past
    the load lock of that camera, whatever is cancelled or dropped meanwhile. *)
Theorem one_load_at_a_time (dec : bytes → option bytes) (url : bytes → option (bytes * bytes)) (digest : list material_item → bytes)
    (rows : gmap Z CameraRow) (defaults : option DefaultsRow) (subnets : list bytes) (now camera t t' : Z) (x x' : Getter) (w : Site) :
  rtc (site_step dec url digest) (new_site rows defaults subnets now) w → st_calls w !! t = Some x → st_calls w !! t' = Some x' →
  holds_lock camera x = true → holds_lock camera x' = true → t = t'.
Proof. intros Hrun. apply (so_lock _ _ _ (site_ok_reachable _ _ _ _ _ _ _ _ Hrun)). Qed.


(** ** A run *)
(** A fingerprint without collisions: an encoding of the material. *)
Definition item_code (i : material_item) : option bytes + (option (gmap string bytes) + (bool + (option (bool * option bytes * option bytes) + option bytes))) :=
  match i with
  | mi_text v => inl v
  | mi_credentials v => inr (inl v)
  | mi_flag v => inr (inr (inl v))
  | mi_defaults r => inr (inr (inr (inl r)))
  | mi_no_defaults => inr (inr (inr (inr None)))
  | mi_basic_over_http => inr (inr (inr (inr (Some []))))
  | mi_pinned p => inr (inr (inr (inr (Some ("p"%char :: p)))))
  end.
Fixpoint pos_text (p : positive) : bytes :=
  match p with xH => [] | xO p => "0"%char :: pos_text p | xI p => "1"%char :: pos_text p end.
Definition demo_fingerprint (m : list material_item) : bytes := pos_text (encode (item_code <$> m)).
Lemma pos_text_inj (p q : positive) : pos_text p = pos_text q → p = q.
Proof.
  revert q. induction p as [p IH|p IH|]; intros [q|q|] Heq; cbn in Heq; try discriminate; try done; injection Heq as Heq; by rewrite (IH q).
Qed.
Lemma item_code_inj (i j : material_item) : item_code i = item_code j → i = j.
Proof. destruct i, j; cbn; intros Heq; congruence. Qed.
Lemma demo_fingerprint_inj (x y : list material_item) : demo_fingerprint x = demo_fingerprint y → x = y.
Proof.
  intros Heq%pos_text_inj. assert (Heq' : item_code <$> x = item_code <$> y) by by apply (inj encode).
  clear Heq. revert y Heq'. induction x as [|i x IH]; intros [|j y]; cbn; try done. intros [= Hi Hx]. f_equal; [by apply item_code_inj|by apply IH].
Qed.

(** A pass that sees the camera, then a capture that loads it with the default login. *)
Definition demo_host (text : bytes) : option (bytes * bytes) := Some (drop 7 text, []).
Definition demo_subnets : list bytes := [b "10.0.0.0/8"].
Definition demo_resolver (host : bytes) : resolver_call := MkRc 0 (Ok [host]) 0.
Definition demo_camera_row : CameraRow := demo_camera (b "10.0.0.7") 0.
Definition demo_login : option DefaultsRow := Some (demo_defaults (b "pw")).
Definition demo_site : Site := new_site {[1 := demo_camera_row]} demo_login demo_subnets 0.
Definition demo_seen : gmap Z (CameraRow * option DefaultsRow) := {[1 := (demo_camera_row, demo_login)]}.
Definition demo_loaded := load Some demo_host demo_fingerprint (Some demo_camera_row) demo_login demo_subnets demo_resolver [].
Definition demo_registry : Registry := MkRegistry ∅ ∅ ∅ (seen_versions demo_fingerprint demo_seen) 0.
Definition demo_at (x : Getter * Registry) (cache : resolution_cache) : Site :=
  MkSite x.2 {[0 := x.1]} {[1 := demo_camera_row]} demo_login demo_subnets cache 0 demo_seen demo_seen.
Definition demo_before : Site := demo_at (gt_loaded 1 0 demo_loaded.1, demo_registry) demo_loaded.2.
Definition demo_after : Site := demo_at (finish_load 1 0 0 demo_loaded.1 demo_registry) demo_loaded.2.
Lemma demo_run : rtc (site_step Some demo_host demo_fingerprint) demo_site demo_before.
Proof.
  eapply rtc_l; [apply (st_pass_read _ _ _ {[1]})|]. eapply rtc_l; [apply st_pass_observe|].
  eapply rtc_l; [apply (st_call _ _ _ 0 1); reflexivity|]. eapply rtc_l; [apply (st_look _ _ _ 0 1); reflexivity|].
  eapply rtc_l; [apply (st_acquire _ _ _ 0 1); [reflexivity|apply (bool_decide_unpack _); vm_compute; exact I]|].
  eapply rtc_l; [apply (st_load _ _ _ 0 1 0 demo_resolver demo_loaded.1 demo_loaded.2); [vm_compute; reflexivity|]|].
  - cbn. vm_compute. reflexivity.
  - match goal with |- rtc _ ?x ?y => replace x with y; [done|vm_compute; reflexivity] end.
Qed.
Lemma demo_finish : site_step Some demo_host demo_fingerprint demo_before demo_after.
Proof.
  replace demo_after with (set_call 0 (finish_load 1 0 (st_now demo_before) demo_loaded.1 (st_registry demo_before)) demo_before);
    [by apply st_finish|vm_compute; reflexivity].
Qed.

Lemma cached_session_is_current_witness :
  ∃ s, ry_heap (st_registry demo_after) !! 0 = Some s ∧ cs_camera_id s = 1 ∧ cs_generation s = generation_at 1 (st_registry demo_after) ∧
    resolve_capture_credentials Some (cs_config s) = Ok (cs_credentials s) ∧
    ∀ row d, st_seen demo_after !! 1 = Some (row, d) →
      ∃ config, read_config Some demo_fingerprint row d = Ok config ∧ as_bound (capture_fields (cs_config s)) (capture_fields config).
Proof.
  apply (cached_session_is_current Some demo_host demo_fingerprint {[1 := demo_camera_row]} demo_login demo_subnets 0 1 0 demo_after demo_fingerprint_inj);
    [exact (rtc_r _ _ _ demo_run demo_finish)|vm_compute; reflexivity].
Defined.
Lemma one_load_at_a_time_witness : st_calls demo_before !! 0 = Some (gt_loaded 1 0 demo_loaded.1) ∧ 0 = 0.
Proof.
  split; [reflexivity|].
  apply (one_load_at_a_time Some demo_host demo_fingerprint {[1 := demo_camera_row]} demo_login demo_subnets 0 1 0 0
           (gt_loaded 1 0 demo_loaded.1) (gt_loaded 1 0 demo_loaded.1) demo_before demo_run); reflexivity.
Defined.

(** ** Adapter caches *)
(** A value is served until its time is up, and only under its key. *)
Lemma ttl_get_put {K V} `{Countable K} (t now : Z) (k k' : K) (v : V) (c : TtlCache K V) :
  (ttl_get now k' (ttl_put t k v c)).1 =
  if bool_decide (k' = k) then (if t + tc_ttl c <=? now then None else Some v) else (ttl_get now k' c).1.
Proof.
  unfold ttl_get, ttl_put. cbn. case_bool_decide as Hk.
  - subst k'. rewrite lookup_insert_eq. by destruct (_ <=? _).
  - rewrite lookup_insert_ne by congruence. destruct (tc_entries c !! k') as [[x expires]|]; [|done]. by destruct (_ <=? _).
Qed.
