(* ===== verification/CaptureSlots.v ===== *)
(** * Capture slots and the PTZ position of a camera

    capture/camera_sessions.py bounds the captures on one camera with a semaphore, two at
    a time or one when a project on the camera uses PTZ, and remembers the position the
    last confirmed move left the camera in; supervisor._apply_ptz moves the camera under
    the slot.  [slot_step] interleaves the captures on one camera at their awaits: the
    wait for the slot, the move, the capture itself, and a cancellation or a timeout at
    any of them.

    The semaphore is asyncio's: a count and a queue of futures, where a release hands its
    slot to the first future that is not done and the task behind it resumes later.  A
    change of mode replaces the semaphore, so semaphores live in a heap; [sm_initial] is
    the count a semaphore was made with, which the code does not keep.  [sl_camera] is
    where the camera stands, which the code cannot see: a confirmed move ends there, any
    other move leaves it anywhere. *)

From Stdlib Require Import SpecFloat.
From S2P Require Import Prelude PyTime PyVal Env Bytes FrameWriter CameraHealth CameraConfig Reconcile.
From stdpp Require Import options.
Local Open Scope Z_scope.

Definition SHARED_SLOT_CAPACITY : Z := 2.
Definition PTZ_POSITION_TRUST : Z := 600 * SECOND.

(** ** Positions *)
Inductive ptz_position :=
  | pz_raw (pan tilt zoom : option float)
  | pz_preset (preset : string).
(** [ptz_position_of]: a raw position, any one value set, wins over a preset *)
Definition ptz_position_of (target : Target) : option ptz_position :=
  match tg_ptz_pan target, tg_ptz_tilt target, tg_ptz_zoom target with
  | None, None, None => pz_preset <$> tg_ptz_preset target
  | pan, tilt, zoom => Some (pz_raw pan tilt zoom)
  end.
(** [==] on the tuples *)
Definition position_eq (x y : ptz_position) : bool :=
  match x, y with
  | pz_raw p t z, pz_raw p' t' z' => opt_eq SFeqb p p' && opt_eq SFeqb t t' && opt_eq SFeqb z z'
  | pz_preset s, pz_preset s' => String.eqb s s'
  | _, _ => false
  end.

(** ** The semaphore *)
Inductive future := fu_pending | fu_granted | fu_cancelled.
#[global] Instance future_eq_dec : EqDecision future.
Proof. solve_decision. Defined.
Record Semaphore := MkSem { sm_initial : Z; sm_value : Z; sm_waiters : list (Z * future) }.
Definition new_semaphore (n : Z) : Semaphore := MkSem n n [].
(** [locked] *)
Definition sem_locked (s : Semaphore) : bool :=
  (sm_value s =? 0) || existsb (λ w, negb (bool_decide (w.2 = fu_cancelled))) (sm_waiters s).
(** the first future of a task, and what the queue is without or with another one *)
Fixpoint waiter_of (t : Z) (ws : list (Z * future)) : option future :=
  match ws with [] => None | (t', f) :: ws => if t' =? t then Some f else waiter_of t ws end.
Fixpoint remove_waiter (t : Z) (ws : list (Z * future)) : list (Z * future) :=
  match ws with [] => [] | (t', f) :: ws => if t' =? t then ws else (t', f) :: remove_waiter t ws end.
(** [Future.cancel]: a future that is done stays as it is *)
Fixpoint cancel_waiter (t : Z) (ws : list (Z * future)) : list (Z * future) :=
  match ws with
  | [] => []
  | (t', f) :: ws =>
      if t' =? t then (t', match f with fu_pending => fu_cancelled | _ => f end) :: ws else (t', f) :: cancel_waiter t ws
  end.
Fixpoint grant_first (ws : list (Z * future)) : option (list (Z * future)) :=
  match ws with
  | [] => None
  | (t, fu_pending) :: ws => Some ((t, fu_granted) :: ws)
  | w :: ws => cons w <$> grant_first ws
  end.
(** [_wake_up_next] *)
Definition wake_up_next (s : Semaphore) : Semaphore :=
  match grant_first (sm_waiters s) with
  | None => s
  | Some ws => MkSem (sm_initial s) (sm_value s - 1) ws
  end.
Definition sem_release (s : Semaphore) : Semaphore := wake_up_next (MkSem (sm_initial s) (sm_value s + 1) (sm_waiters s)).
(** [acquire] up to its await; [true]: the slot is taken at once *)
Definition sem_acquire (t : Z) (s : Semaphore) : bool * Semaphore :=
  if sem_locked s then (false, MkSem (sm_initial s) (sm_value s) (sm_waiters s ++ [(t, fu_pending)]))
  else (true, MkSem (sm_initial s) (sm_value s - 1) (sm_waiters s)).
(** [acquire] after its await: with the slot, or with a cancellation *)
Definition sem_resume (t : Z) (s : Semaphore) : Semaphore :=
  let s := MkSem (sm_initial s) (sm_value s) (remove_waiter t (sm_waiters s)) in
  if 0 <? sm_value s then wake_up_next s else s.
Definition sem_unwind (t : Z) (s : Semaphore) : Semaphore :=
  let s' := MkSem (sm_initial s) (sm_value s) (remove_waiter t (sm_waiters s)) in
  match waiter_of t (sm_waiters s) with
  | Some fu_cancelled => s'
  | _ => wake_up_next (MkSem (sm_initial s') (sm_value s' + 1) (sm_waiters s'))
  end.
Definition sem_cancel (t : Z) (s : Semaphore) : Semaphore := MkSem (sm_initial s) (sm_value s) (cancel_waiter t (sm_waiters s)).

(** ** Captures on one camera *)
(** Where a capture is: waiting for its slot (and whether it was cancelled there), holding
    it, moving the camera, or in position and capturing. *)
Inductive Capture :=
  | cp_waiting (sem : Z) (want : option ptz_position) (cancelled : bool)
  | cp_holding (sem : Z) (want : option ptz_position)
  | cp_moving (sem : Z) (position : ptz_position)
  | cp_capturing (sem : Z) (want : option ptz_position).
Definition slot_of (c : Capture) : option Z :=
  match c with cp_waiting _ _ _ => None | cp_holding i _ | cp_moving i _ | cp_capturing i _ => Some i end.

(** [_CameraRuntime], the captures in flight, whether the camera is among
    [_ptz_cameras], the camera itself and the clock. *)
Record Slots := MkSlots {
  sl_exclusive : bool;
  sl_current : Z;
  sl_semaphores : gmap Z Semaphore;
  sl_position : option ptz_position;
  sl_position_at : Z;
  sl_captures : gmap Z Capture;
  sl_ptz : bool;
  sl_camera : option ptz_position;
  sl_now : Z;
}.
Definition new_slots (ptz : bool) (camera : option ptz_position) (now : Z) : Slots :=
  MkSlots false 0 {[0 := new_semaphore SHARED_SLOT_CAPACITY]} None 0 ∅ ptz camera now.
Definition set_semaphore (i : Z) (s : Semaphore) (w : Slots) : Slots :=
  MkSlots (sl_exclusive w) (sl_current w) (<[i := s]> (sl_semaphores w)) (sl_position w) (sl_position_at w) (sl_captures w) (sl_ptz w)
    (sl_camera w) (sl_now w).
Definition set_captures (cs : gmap Z Capture) (w : Slots) : Slots :=
  MkSlots (sl_exclusive w) (sl_current w) (sl_semaphores w) (sl_position w) (sl_position_at w) cs (sl_ptz w) (sl_camera w) (sl_now w).
Definition set_camera (camera : option ptz_position) (w : Slots) : Slots :=
  MkSlots (sl_exclusive w) (sl_current w) (sl_semaphores w) (sl_position w) (sl_position_at w) (sl_captures w) (sl_ptz w) camera (sl_now w).
(** [note_position], [position_confirmed] *)
Definition note_position (position : option ptz_position) (w : Slots) : Slots :=
  MkSlots (sl_exclusive w) (sl_current w) (sl_semaphores w) position (sl_now w) (sl_captures w) (sl_ptz w) (sl_camera w) (sl_now w).
Definition position_confirmed (position : ptz_position) (w : Slots) : bool :=
  match sl_position w with
  | None => false
  | Some noted => position_eq noted position && (sl_now w - sl_position_at w <? PTZ_POSITION_TRUST)
  end.
(** [semaphore_for]: a change of mode starts a new semaphore *)
Definition semaphore_for (exclusive : bool) (w : Slots) : Slots :=
  if Bool.eqb exclusive (sl_exclusive w) then w
  else MkSlots exclusive (sl_current w + 1)
         (<[sl_current w + 1 := new_semaphore (if exclusive then 1 else SHARED_SLOT_CAPACITY)]> (sl_semaphores w))
         (sl_position w) (sl_position_at w) (sl_captures w) (sl_ptz w) (sl_camera w) (sl_now w).
(** [capture_slot] up to the wait *)
Definition enter_slot (t : Z) (want : option ptz_position) (w : Slots) : Slots :=
  let w := semaphore_for (bool_decide (is_Some want) || sl_ptz w) w in
  let i := sl_current w in
  match sl_semaphores w !! i with
  | None => w
  | Some s =>
      let '(taken, s) := sem_acquire t s in
      set_captures (<[t := if taken then cp_holding i want else cp_waiting i want false]> (sl_captures w)) (set_semaphore i s w)
  end.
(** the end of [capture_slot], on every way out of its body *)
Definition leave_slot (t i : Z) (w : Slots) : Slots :=
  match sl_semaphores w !! i with
  | None => w
  | Some s => set_captures (delete t (sl_captures w)) (set_semaphore i (sem_release s) w)
  end.
(** [_apply_ptz] up to the move; the camera then is wherever the move takes it *)
Definition apply_ptz (t i : Z) (want : option ptz_position) (camera : option ptz_position) (w : Slots) : Slots :=
  match want with
  | None => set_captures (<[t := cp_capturing i want]> (sl_captures w)) w
  | Some p =>
      if position_confirmed p w then set_captures (<[t := cp_capturing i want]> (sl_captures w)) w
      else set_captures (<[t := cp_moving i p]> (sl_captures w)) (set_camera camera (note_position None w))
  end.
(** and after a move that was confirmed *)
Definition finish_ptz (t i : Z) (p : ptz_position) (w : Slots) : Slots :=
  set_captures (<[t := cp_capturing i (Some p)]> (sl_captures w)) (note_position (Some p) (set_camera (Some p) w)).

Inductive slot_step : Slots → Slots → Prop :=
  | sl_enter t want w : sl_captures w !! t = None → slot_step w (enter_slot t want w)
  | sl_resume t i want s w :
      sl_captures w !! t = Some (cp_waiting i want false) → sl_semaphores w !! i = Some s → waiter_of t (sm_waiters s) = Some fu_granted →
      slot_step w (set_captures (<[t := cp_holding i want]> (sl_captures w)) (set_semaphore i (sem_resume t s) w))
  | sl_cancel t i want s w :
      sl_captures w !! t = Some (cp_waiting i want false) → sl_semaphores w !! i = Some s →
      slot_step w (set_captures (<[t := cp_waiting i want true]> (sl_captures w)) (set_semaphore i (sem_cancel t s) w))
  | sl_unwind t i want s w :
      sl_captures w !! t = Some (cp_waiting i want true) → sl_semaphores w !! i = Some s →
      slot_step w (set_captures (delete t (sl_captures w)) (set_semaphore i (sem_unwind t s) w))
  | sl_apply t i want camera w : sl_captures w !! t = Some (cp_holding i want) → slot_step w (apply_ptz t i want camera w)
  | sl_moved t i p w : sl_captures w !! t = Some (cp_moving i p) → slot_step w (finish_ptz t i p w)
  | sl_move_fails t i p camera w : sl_captures w !! t = Some (cp_moving i p) → slot_step w (leave_slot t i (set_camera camera w))
  | sl_leave t i want c w :
      sl_captures w !! t = Some c → c = cp_holding i want ∨ c = cp_capturing i want → slot_step w (leave_slot t i w)
  | sl_report ptz w :
      slot_step w (MkSlots (sl_exclusive w) (sl_current w) (sl_semaphores w) (sl_position w) (sl_position_at w) (sl_captures w) ptz
                     (sl_camera w) (sl_now w))
  | sl_tick now w :
      sl_now w ≤ now →
      slot_step w (MkSlots (sl_exclusive w) (sl_current w) (sl_semaphores w) (sl_position w) (sl_position_at w) (sl_captures w) (sl_ptz w)
                     (sl_camera w) now).
