(* ===== verification/CaptureSlotsFacts.v ===== *)
(** * Capture slots: how many captures run, who is next, and where the camera stands

    The semaphore is accounted for slot by slot ([sem_ok]) and its queue against the
    captures that wait ([queue_ok]); both hold in every reachable state ([slots_ok]).
    While every pass reports the camera as a PTZ camera the captures on it go one at a
    time, so the position the registry trusts is the camera's ([ptz_ok]). *)

From Stdlib Require Import SpecFloat Sorted.
From S2P Require Import Prelude PyTime PyVal Env Bytes FrameWriter CameraHealth CameraConfig Reconcile CaptureSlots.
From stdpp Require Import options.
Local Open Scope Z_scope.

(** ** The queue of a semaphore *)
Definition one_granted (f : future) : Z := match f with fu_granted => 1 | _ => 0 end.
Fixpoint granted (ws : list (Z * future)) : Z := match ws with [] => 0 | (_, f) :: ws => one_granted f + granted ws end.
(** nobody who still waits is ahead of somebody who was let in *)
Definition in_turn (x y : Z * future) : Prop := x.2 = fu_pending → y.2 ≠ fu_granted.
Abbreviation fair := (StronglySorted in_turn).

Lemma granted_nonneg (ws : list (Z * future)) : 0 ≤ granted ws.
Proof. induction ws as [|[t f] ws IH]; cbn; [lia|]. destruct f; cbn; lia. Qed.
Lemma granted_app (ws ws' : list (Z * future)) : granted (ws ++ ws') = granted ws + granted ws'.
Proof. induction ws as [|[t f] ws IH]; cbn; lia. Qed.
Lemma granted_elem (ws : list (Z * future)) : 0 < granted ws → ∃ t, (t, fu_granted) ∈ ws.
Proof.
  induction ws as [|[t f] ws IH]; cbn; [lia|]. destruct f; cbn; [|exists t; left|]; intros [t' Ht']%IH; exists t'; by right.
Qed.
Lemma elem_granted (t : Z) (ws : list (Z * future)) : (t, fu_granted) ∈ ws → 0 < granted ws.
Proof.
  intros Hin. apply list_elem_of_split in Hin as (l & l' & ->). rewrite granted_app. cbn.
  pose proof (granted_nonneg l). pose proof (granted_nonneg l'). lia.
Qed.
Lemma waiter_of_elem (t : Z) (f : future) (ws : list (Z * future)) : waiter_of t ws = Some f → (t, f) ∈ ws.
Proof.
  induction ws as [|[t' f'] ws IH]; cbn; [done|]. destruct (Z.eqb_spec t' t) as [->|]; [intros [= ->]; left|]. intros. right. auto.
Qed.
Lemma elem_waiter_of (t : Z) (f : future) (ws : list (Z * future)) : NoDup ws.*1 → (t, f) ∈ ws → waiter_of t ws = Some f.
Proof.
  induction ws as [|[t' f'] ws IH]; cbn; [by intros _ ?%elem_of_nil|]. intros [Hnot Hnd]%NoDup_cons [[= -> ->]|Hin]%elem_of_cons.
  - by rewrite Z.eqb_refl.
  - destruct (Z.eqb_spec t' t) as [->|]; [|by apply IH]. destruct Hnot. apply list_elem_of_fmap. by exists (t, f).
Qed.
Lemma waiter_of_keys (t : Z) (ws : list (Z * future)) : t ∈ ws.*1 → is_Some (waiter_of t ws).
Proof.
  induction ws as [|[t' f'] ws IH]; cbn; [by intros ?%elem_of_nil|]. intros Hin. destruct (Z.eqb_spec t' t); [by eexists|].
  apply IH. by apply elem_of_cons in Hin as [->|].
Qed.

(** What one step on behalf of [t] may do to the entries of the others. *)
Definition others (t : Z) (ws ws' : list (Z * future)) : Prop :=
  (∀ t' f', t' ≠ t → (t', f') ∈ ws' → ∃ f, (t', f) ∈ ws ∧ (f ≠ fu_pending → f' = f)) ∧
  (∀ t', t' ≠ t → t' ∈ ws.*1 → t' ∈ ws'.*1).
Lemma others_refl (t : Z) (ws : list (Z * future)) : others t ws ws.
Proof. split; eauto. Qed.
Lemma others_trans (t : Z) (x y z : list (Z * future)) : others t x y → others t y z → others t x z.
Proof.
  intros [H1 H2] [H3 H4]. split; [|eauto]. intros t' f' Hne Hin. destruct (H3 t' f' Hne Hin) as (f & Hf & Hff).
  destruct (H1 t' f Hne Hf) as (f0 & Hf0 & Hff0). exists f0. split; [done|]. intros Hp. specialize (Hff0 Hp). subst f. auto.
Qed.

Lemma remove_waiter_sublist (t : Z) (ws : list (Z * future)) : sublist (remove_waiter t ws) ws.
Proof. induction ws as [|[t' f] ws IH]; cbn; [constructor|]. destruct (t' =? t); by constructor. Qed.
Lemma remove_waiter_gone (t : Z) (ws : list (Z * future)) : NoDup ws.*1 → t ∉ (remove_waiter t ws).*1.
Proof.
  induction ws as [|[t' f] ws IH]; cbn; [by intros _ ?%elem_of_nil|]. intros [Hnot Hnd]%NoDup_cons.
  destruct (Z.eqb_spec t' t) as [->|]; [done|]. cbn. intros [->|Hin]%elem_of_cons; [done|]. by apply IH in Hin.
Qed.
Lemma remove_waiter_others (t : Z) (ws : list (Z * future)) : others t ws (remove_waiter t ws).
Proof.
  split.
  - intros t' f' _ Hin. exists f'. split; [|done]. by eapply elem_of_sublist; [|apply remove_waiter_sublist].
  - intros t' Hne. induction ws as [|[t0 f] ws IH]; cbn; [done|]. intros Hin. destruct (Z.eqb_spec t0 t) as [->|]; cbn.
    + by apply elem_of_cons in Hin as [->|].
    + apply elem_of_cons in Hin as [->|Hin]; [left|right; auto].
Qed.
Lemma remove_waiter_granted (t : Z) (f : future) (ws : list (Z * future)) :
  waiter_of t ws = Some f → granted ws = granted (remove_waiter t ws) + one_granted f.
Proof.
  induction ws as [|[t' f'] ws IH]; cbn; [done|]. destruct (t' =? t); cbn; [intros [= ->]; lia|]. intros ->%IH. lia.
Qed.
Lemma cancel_waiter_keys (t : Z) (ws : list (Z * future)) : (cancel_waiter t ws).*1 = ws.*1.
Proof. induction ws as [|[t' f] ws IH]; cbn; [done|]. destruct (t' =? t); cbn; by f_equal. Qed.
Lemma cancel_waiter_granted (t : Z) (ws : list (Z * future)) : granted (cancel_waiter t ws) = granted ws.
Proof. induction ws as [|[t' f] ws IH]; cbn; [done|]. destruct (t' =? t); cbn; [by destruct f|by rewrite IH]. Qed.
Lemma cancel_waiter_in (t t' : Z) (f' : future) (ws : list (Z * future)) :
  (t', f') ∈ cancel_waiter t ws → (t', f') ∈ ws ∨ t' = t ∧ f' = fu_cancelled.
Proof.
  induction ws as [|[t0 f] ws IH]; cbn; [by intros ?%elem_of_nil|]. destruct (Z.eqb_spec t0 t) as [->|].
  - intros [Heq|Hin]%elem_of_cons; [|left; by right]. injection Heq as -> ->. destruct f; [by right|left; left|left; left].
  - intros [Heq|Hin]%elem_of_cons; [left; rewrite Heq; left|]. destruct (IH Hin) as [|]; [left; by right|by right].
Qed.
Lemma cancel_waiter_not_pending (t : Z) (ws : list (Z * future)) : NoDup ws.*1 → (t, fu_pending) ∉ cancel_waiter t ws.
Proof.
  intros Hnd Hin. pose proof Hnd as Hnd'. rewrite <-(cancel_waiter_keys t) in Hnd'. apply (elem_waiter_of _ _ _ Hnd') in Hin.
  revert Hin. clear. induction ws as [|[t0 f] ws IH]; cbn; [done|]. destruct (t0 =? t) eqn:Heq; cbn; rewrite Heq; [by destruct f|done].
Qed.
Lemma grant_first_keys (ws ws' : list (Z * future)) : grant_first ws = Some ws' → ws'.*1 = ws.*1.
Proof.
  revert ws'. induction ws as [|[t f] ws IH]; intros ws'; cbn; [done|].
  destruct f; [by intros [= <-]|..]; intros (x & Hx & ->)%fmap_Some; cbn; by rewrite (IH x).
Qed.
Lemma grant_first_granted (ws ws' : list (Z * future)) : grant_first ws = Some ws' → granted ws' = granted ws + 1.
Proof.
  revert ws'. induction ws as [|[t f] ws IH]; intros ws'; cbn; [done|].
  destruct f; [intros [= <-]; cbn; lia|..]; intros (x & Hx & ->)%fmap_Some; cbn; rewrite (IH x Hx); lia.
Qed.
Lemma grant_first_in (ws ws' : list (Z * future)) (t : Z) (f' : future) :
  grant_first ws = Some ws' → (t, f') ∈ ws' → ∃ f, (t, f) ∈ ws ∧ (f ≠ fu_pending → f' = f) ∧ (f' = fu_pending → f = fu_pending).
Proof.
  revert ws'. induction ws as [|[t0 f] ws IH]; intros ws'; cbn; [done|].
  destruct f; [intros [= <-] [[= -> ->]|Hin]%elem_of_cons; [exists fu_pending; split; [left|done]|exists f'; split; [by right|done]]|..];
    intros (x & Hx & ->)%fmap_Some [[= -> ->]|Hin]%elem_of_cons; try (eexists; split; [left|done]);
    destruct (IH x Hx Hin) as (f & Hf & Hff); exists f; (split; [by right|done]).
Qed.
Lemma grant_first_none (ws : list (Z * future)) (t : Z) : grant_first ws = None → (t, fu_pending) ∉ ws.
Proof.
  induction ws as [|[t0 f] ws IH]; cbn; [by intros _ ?%elem_of_nil|].
  destruct f; [done|..]; intros Hn%fmap_None [[= ->]|Hin]%elem_of_cons; by apply (IH Hn).
Qed.

(** ** Turns *)
Lemma turn_done (x : Z * future) (ws : list (Z * future)) : x.2 ≠ fu_pending → Forall (in_turn x) ws.
Proof. intros Hx. apply Forall_true. by intros y ?. Qed.
Lemma fair_sublist (ws ws' : list (Z * future)) : sublist ws' ws → fair ws → fair ws'.
Proof.
  induction 1 as [|x l l' Hsub IH|x l l' Hsub IH]; intros Hf; [done|apply StronglySorted_inv in Hf as [Hf Hx]..]; [|by apply IH].
  constructor; [by apply IH|]. rewrite !Forall_forall in *. intros y Hy. apply Hx. by eapply elem_of_sublist.
Qed.
Lemma fair_snoc (t : Z) (ws : list (Z * future)) : fair ws → fair (ws ++ [(t, fu_pending)]).
Proof.
  induction 1 as [|x l Hl IH Hx]; cbn; [repeat constructor|]. constructor; [done|]. apply Forall_app. split; [done|]. by repeat constructor.
Qed.
Lemma fair_grant (ws ws' : list (Z * future)) : grant_first ws = Some ws' → fair ws → fair ws'.
Proof.
  revert ws'. induction ws as [|[t f] ws IH]; intros ws'; cbn; [done|]. intros Hg [Hf Hx]%StronglySorted_inv.
  destruct f; [injection Hg as <-; constructor; [done|by apply turn_done]|..];
    apply fmap_Some in Hg as (x & Hg & ->); (constructor; [by apply IH|by apply turn_done]).
Qed.
Lemma fair_cancel (t : Z) (ws : list (Z * future)) : fair ws → fair (cancel_waiter t ws).
Proof.
  induction ws as [|[t' f] ws IH]; cbn; [done|]. intros [Hf Hx]%StronglySorted_inv. destruct (Z.eqb_spec t' t) as [->|].
  - destruct f; (constructor; [done|]); [by apply turn_done|done|done].
  - constructor; [by apply IH|]. apply Forall_forall. intros [t0 f0] [Hin|[-> ->]]%cancel_waiter_in; [|done].
    rewrite Forall_forall in Hx. by apply Hx.
Qed.

(** ** The account of a semaphore *)
(** [h] captures hold a slot: every slot is free, handed to a waiter or held, and a slot
    is only free while somebody waits when a waiter is about to pass it on. *)
Record sem_ok (s : Semaphore) (h : Z) : Prop := MkSemOk {
  se_value : 0 ≤ sm_value s;
  se_initial : 1 ≤ sm_initial s;
  se_balance : sm_value s + granted (sm_waiters s) + h = sm_initial s;
  se_fair : fair (sm_waiters s);
  se_passed_on : ∀ t, 0 < sm_value s → (t, fu_pending) ∈ sm_waiters s → 0 < granted (sm_waiters s);
}.
Lemma wake_up_next_ok (n v h : Z) (ws : list (Z * future)) :
  1 ≤ n → 0 < v → v + granted ws + h = n → fair ws → sem_ok (wake_up_next (MkSem n v ws)) h.
Proof.
  intros Hn Hv Hb Hf. unfold wake_up_next. cbn. destruct (grant_first ws) as [ws'|] eqn:Hg.
  - pose proof (grant_first_granted _ _ Hg). pose proof (granted_nonneg ws).
    constructor; cbn; [lia|done|lia|by eapply fair_grant|intros; lia].
  - constructor; cbn; [lia|done|done|done|]. intros t _ Hin. by apply (grant_first_none _ t) in Hg.
Qed.
Lemma sem_release_ok (s : Semaphore) (h : Z) : sem_ok s (h + 1) → sem_ok (sem_release s) h.
Proof. intros []. apply wake_up_next_ok; [done|lia|lia|done]. Qed.
Lemma sem_acquire_ok (t : Z) (s s' : Semaphore) (h : Z) (taken : bool) :
  sem_ok s h → sem_acquire t s = (taken, s') → sem_ok s' (if taken then h + 1 else h).
Proof.
  intros [Hv Hn Hb Hf Hp]. unfold sem_acquire, sem_locked. destruct (Z.eqb_spec (sm_value s) 0) as [Hz|Hz]; cbn.
  - intros [= <- <-]. constructor; cbn; [done|done|rewrite granted_app; cbn; lia|by apply fair_snoc|lia].
  - destruct (existsb _ _) eqn:He; intros [= <- <-].
    + constructor; cbn; [done|done|rewrite granted_app; cbn; lia|by apply fair_snoc|]. intros _ Hpos _. rewrite granted_app. cbn.
      apply existsb_exists in He as ([t' f] & Hin%list_elem_of_In & Hc%negb_true_iff%bool_decide_eq_false). cbn in Hc.
      destruct f; [specialize (Hp t' Hpos Hin); lia|apply elem_granted in Hin; lia|done].
    + constructor; cbn; [lia|done|lia|done|]. intros t' _ Hin. exfalso. apply not_true_iff_false in He. apply He, existsb_exists.
      exists (t', fu_pending). by rewrite <-list_elem_of_In.
Qed.
Lemma sem_resume_ok (t : Z) (s : Semaphore) (h : Z) :
  sem_ok s h → waiter_of t (sm_waiters s) = Some fu_granted → sem_ok (sem_resume t s) (h + 1).
Proof.
  intros [Hv Hn Hb Hf Hp] Hw. pose proof (remove_waiter_granted _ _ _ Hw) as Hg. cbn in Hg.
  pose proof (fair_sublist _ _ (remove_waiter_sublist t (sm_waiters s)) Hf). unfold sem_resume. cbn. destruct (Z.ltb_spec 0 (sm_value s)).
  - apply wake_up_next_ok; [done|done|lia|done].
  - constructor; cbn; [done|done|lia|done|lia].
Qed.
Lemma remove_cancelled_pending (t t' : Z) (ws : list (Z * future)) : (t', fu_pending) ∈ remove_waiter t ws → (t', fu_pending) ∈ ws.
Proof. intros Hin. by eapply elem_of_sublist; [|apply remove_waiter_sublist]. Qed.
Lemma sem_unwind_ok (t : Z) (s : Semaphore) (h : Z) (f : future) :
  sem_ok s h → waiter_of t (sm_waiters s) = Some f → f ≠ fu_pending → sem_ok (sem_unwind t s) h.
Proof.
  intros [Hv Hn Hb Hf Hp] Hw Hne. pose proof (remove_waiter_granted _ _ _ Hw) as Hg.
  pose proof (fair_sublist _ _ (remove_waiter_sublist t (sm_waiters s)) Hf). unfold sem_unwind. cbn. rewrite Hw.
  destruct f; [done| |]; cbn in Hg.
  - apply wake_up_next_ok; [done|lia|lia|done].
  - constructor; cbn; [done|done|lia|done|]. intros t' Hpos Hin%remove_cancelled_pending. specialize (Hp t' Hpos Hin). lia.
Qed.
Lemma sem_cancel_ok (t : Z) (s : Semaphore) (h : Z) : sem_ok s h → sem_ok (sem_cancel t s) h.
Proof.
  intros [Hv Hn Hb Hf Hp]. constructor; cbn; [done|done|by rewrite cancel_waiter_granted|by apply fair_cancel|].
  intros t' Hpos [Hin|[_ ?]]%cancel_waiter_in; [|done]. rewrite cancel_waiter_granted. by apply (Hp t').
Qed.

(** ** Slots held and queues *)
Definition holders (i : Z) (cs : gmap Z Capture) : Z := Z.of_nat (size (filter (λ e : Z * Capture, slot_of e.2 = Some i) cs)).
Definition sem_of (c : Capture) : Z := match c with cp_waiting i _ _ | cp_holding i _ | cp_moving i _ | cp_capturing i _ => i end.
Definition held (i : Z) (c : option Capture) : Z := if bool_decide ((c ≫= slot_of) = Some i) then 1 else 0.
Lemma held_elsewhere (i : Z) (c : option Capture) : (∀ x, c = Some x → sem_of x ≠ i) → held i c = 0.
Proof.
  intros Hc. unfold held. rewrite bool_decide_false; [done|]. destruct c as [x|]; cbn; [|done]. specialize (Hc x eq_refl).
  destruct x; cbn in *; congruence.
Qed.
Lemma held_here (i : Z) (c : Capture) : slot_of c = Some i → held i (Some c) = 1.
Proof. intros Hc. unfold held. by rewrite bool_decide_true. Qed.
Lemma held_waiting (i j : Z) (want : option ptz_position) (b : bool) : held i (Some (cp_waiting j want b)) = 0.
Proof. unfold held. by rewrite bool_decide_false. Qed.
Lemma held_none (i : Z) : held i None = 0.
Proof. unfold held. by rewrite bool_decide_false. Qed.
Lemma holders_add (i t : Z) (c : option Capture) (cs : gmap Z Capture) :
  cs !! t = None → holders i (partial_alter (λ _, c) t cs) = holders i cs + held i c.
Proof.
  intros Hn. unfold holders, held. destruct c as [c|]; cbn.
  - change (partial_alter (λ _, Some c) t cs) with (<[t := c]> cs). case_bool_decide as Hc.
    + rewrite map_filter_insert_True, map_size_insert_None by (try done; apply map_lookup_filter_None; by left). lia.
    + rewrite map_filter_insert_False, delete_id by done. lia.
  - change (partial_alter (λ _, None) t cs) with (delete t cs). rewrite delete_id by done. rewrite bool_decide_false by done. lia.
Qed.
Lemma alter_delete (t : Z) (c : option Capture) (cs : gmap Z Capture) : partial_alter (λ _, c) t (delete t cs) = partial_alter (λ _, c) t cs.
Proof.
  apply map_eq. intros j. destruct (decide (j = t)) as [->|]; [by rewrite !lookup_partial_alter_eq|].
  rewrite !lookup_partial_alter_ne, lookup_delete_ne by done. done.
Qed.
Lemma holders_alter (i t : Z) (c : option Capture) (cs : gmap Z Capture) :
  holders i (partial_alter (λ _, c) t cs) + held i (cs !! t) = holders i cs + held i c.
Proof.
  pose proof (holders_add i t c (delete t cs) (lookup_delete_eq cs t)) as H1.
  pose proof (holders_add i t (cs !! t) (delete t cs) (lookup_delete_eq cs t)) as H2.
  rewrite alter_delete in H1, H2. rewrite partial_alter_self in H2. lia.
Qed.

Record queue_ok (i : Z) (ws : list (Z * future)) (cs : gmap Z Capture) : Prop := MkQueueOk {
  qu_once : NoDup ws.*1;
  qu_waits : ∀ t f, (t, f) ∈ ws → ∃ want c, cs !! t = Some (cp_waiting i want c) ∧ (c = true → f ≠ fu_pending);
  qu_all : ∀ t want c, cs !! t = Some (cp_waiting i want c) → t ∈ ws.*1;
}.
Lemma queue_ok_at (i t : Z) (ws ws' : list (Z * future)) (cs : gmap Z Capture) (c : option Capture) :
  queue_ok i ws cs → others t ws ws' → NoDup ws'.*1 →
  (∀ f, (t, f) ∈ ws' → ∃ want b, c = Some (cp_waiting i want b) ∧ (b = true → f ≠ fu_pending)) →
  (∀ want b, c = Some (cp_waiting i want b) → t ∈ ws'.*1) → queue_ok i ws' (partial_alter (λ _, c) t cs).
Proof.
  intros [H1 H2 H3] [Ho Hk] Hnd Hin Hall. constructor; [done|..].
  - intros t' f' Hf'. destruct (decide (t' = t)) as [->|Hne]; [rewrite lookup_partial_alter_eq; by apply Hin|].
    rewrite lookup_partial_alter_ne by done. destruct (Ho t' f' Hne Hf') as (f & Hf & Hff). destruct (H2 t' f Hf) as (want & b & Hc & Hb).
    exists want, b. split; [done|]. intros Hbt. specialize (Hb Hbt). by rewrite (Hff Hb).
  - intros t' want b. destruct (decide (t' = t)) as [->|Hne]; [rewrite lookup_partial_alter_eq; by apply Hall|].
    rewrite lookup_partial_alter_ne by done. intros Hc%H3. by apply Hk.
Qed.
Lemma queue_ok_other (i t : Z) (ws : list (Z * future)) (cs : gmap Z Capture) (c : option Capture) :
  queue_ok i ws cs → (∀ x, cs !! t = Some x → sem_of x ≠ i) → (∀ x, c = Some x → sem_of x ≠ i) → queue_ok i ws (partial_alter (λ _, c) t cs).
Proof.
  intros Hq Hold Hnew. apply (queue_ok_at i t ws ws cs c Hq (others_refl t ws)); [by destruct Hq|..].
  - intros f Hin. destruct Hq as [_ H2 _]. destruct (H2 t f Hin) as (want & b & Hc & _). by destruct (Hold _ Hc).
  - intros want b Hc. by destruct (Hnew _ Hc).
Qed.

Record slots_ok (w : Slots) : Prop := MkSlotsOk {
  ss_current : ∃ s, sl_semaphores w !! sl_current w = Some s ∧ sm_initial s = if sl_exclusive w then 1 else SHARED_SLOT_CAPACITY;
  ss_latest : ∀ i s, sl_semaphores w !! i = Some s → i ≤ sl_current w;
  ss_sems : ∀ i s, sl_semaphores w !! i = Some s →
    (sm_initial s = 1 ∨ sm_initial s = SHARED_SLOT_CAPACITY) ∧ sem_ok s (holders i (sl_captures w)) ∧ queue_ok i (sm_waiters s) (sl_captures w);
  ss_refer : ∀ t c, sl_captures w !! t = Some c → is_Some (sl_semaphores w !! sem_of c);
}.
Lemma slots_ok_at (w w' : Slots) (i t : Z) (s s' : Semaphore) (c : option Capture) :
  slots_ok w → sl_semaphores w !! i = Some s → sl_exclusive w' = sl_exclusive w → sl_current w' = sl_current w →
  sl_semaphores w' = <[i := s']> (sl_semaphores w) → sl_captures w' = partial_alter (λ _, c) t (sl_captures w) →
  (∀ x, sl_captures w !! t = Some x → sem_of x = i) → (∀ x, c = Some x → sem_of x = i) → sm_initial s' = sm_initial s →
  sem_ok s' (holders i (sl_captures w) + held i c - held i (sl_captures w !! t)) →
  queue_ok i (sm_waiters s') (partial_alter (λ _, c) t (sl_captures w)) → slots_ok w'.
Proof.
  intros [H1 H2 H3 H4] Hs He Hc Hss Hcs Hold Hnew Hinit Hok Hq. constructor; rewrite ?He, ?Hc, ?Hss, ?Hcs.
  - destruct H1 as (x & Hx & Hn). destruct (decide (i = sl_current w)) as [Heq|Hne].
    + exists s'. rewrite <-Heq, lookup_insert_eq in *. split; [done|]. congruence.
    + exists x. by rewrite lookup_insert_ne.
  - intros j x. destruct (decide (i = j)) as [<-|Hne]; [intros _; by apply (H2 i s)|]. rewrite lookup_insert_ne by done. by apply H2.
  - intros j x. pose proof (holders_alter j t c (sl_captures w)) as Hh. destruct (decide (i = j)) as [<-|Hne].
    + rewrite lookup_insert_eq. intros [= <-]. destruct (H3 i s Hs) as (Hcap & _ & _). rewrite Hinit. split_and!; [done| |done].
      replace (holders i _) with (holders i (sl_captures w) + held i c - held i (sl_captures w !! t)) by lia. done.
    + rewrite lookup_insert_ne by done. intros Hx. destruct (H3 j x Hx) as (Hcap & Hsem & Hqj). split_and!; [done|..].
      * rewrite (held_elsewhere j c), (held_elsewhere j (sl_captures w !! t)) in Hh; [|intros y Hy%Hold; lia|intros y Hy%Hnew; lia].
        replace (holders j _) with (holders j (sl_captures w)) by lia. done.
      * apply queue_ok_other; [done|intros y Hy%Hold; lia|intros y Hy%Hnew; lia].
  - intros t' x. rewrite lookup_insert_is_Some. destruct (decide (t' = t)) as [->|Hne].
    + rewrite lookup_partial_alter_eq. intros Hx%Hnew. by left.
    + rewrite lookup_partial_alter_ne by done. intros Hx%H4. destruct (decide (i = sem_of x)); [by left|by right].
Qed.

(** ** Every step keeps the account *)
Lemma wake_keys (s : Semaphore) : (sm_waiters (wake_up_next s)).*1 = (sm_waiters s).*1.
Proof. unfold wake_up_next. destruct (grant_first (sm_waiters s)) eqn:Hg; [|done]. by apply grant_first_keys. Qed.
Lemma wake_initial (s : Semaphore) : sm_initial (wake_up_next s) = sm_initial s.
Proof. unfold wake_up_next. by destruct (grant_first (sm_waiters s)). Qed.
Lemma wake_others (t : Z) (s : Semaphore) : others t (sm_waiters s) (sm_waiters (wake_up_next s)).
Proof.
  split; [|intros t' _; by rewrite wake_keys]. unfold wake_up_next. destruct (grant_first (sm_waiters s)) as [ws|] eqn:Hg; [|by eauto].
  intros t' f' _ Hin. destruct (grant_first_in _ _ _ _ Hg Hin) as (f & Hf & Hff & _). eauto.
Qed.
Lemma not_queued (i t : Z) (ws : list (Z * future)) (cs : gmap Z Capture) :
  queue_ok i ws cs → (∀ want b, cs !! t ≠ Some (cp_waiting i want b)) → t ∉ ws.*1.
Proof.
  intros [_ H2 _] Hnot Hin. apply list_elem_of_fmap in Hin as ([t' f] & -> & Hin). destruct (H2 _ _ Hin) as (want & b & Hc & _).
  by apply (Hnot want b).
Qed.
Lemma gone_at (i t : Z) (ws ws' : list (Z * future)) (cs : gmap Z Capture) (c : option Capture) :
  queue_ok i ws cs → others t ws ws' → NoDup ws'.*1 → t ∉ ws'.*1 → (∀ want b, c ≠ Some (cp_waiting i want b)) →
  queue_ok i ws' (partial_alter (λ _, c) t cs).
Proof.
  intros Hq Ho Hnd Hnot Hc. apply (queue_ok_at i t ws ws' cs c Hq Ho Hnd).
  - intros f Hin. destruct Hnot. apply list_elem_of_fmap. by exists (t, f).
  - intros want b ->. by destruct (Hc want b).
Qed.
Lemma release_queue (i t : Z) (s : Semaphore) (cs : gmap Z Capture) :
  queue_ok i (sm_waiters s) cs → (∀ want b, cs !! t ≠ Some (cp_waiting i want b)) →
  queue_ok i (sm_waiters (sem_release s)) (partial_alter (λ _, None) t cs).
Proof.
  intros Hq Hnot. apply (gone_at i t (sm_waiters s)); [done|apply (wake_others t (MkSem _ _ _))|..]; unfold sem_release; rewrite ?wake_keys; cbn;
    [by destruct Hq|by apply (not_queued i t _ cs)|done].
Qed.
Lemma removed_queue (i t : Z) (s : Semaphore) (cs : gmap Z Capture) (c : option Capture) (s' : Semaphore) :
  queue_ok i (sm_waiters s) cs → (∀ want b, c ≠ Some (cp_waiting i want b)) →
  (∃ n v, s' = MkSem n v (remove_waiter t (sm_waiters s)) ∨ s' = wake_up_next (MkSem n v (remove_waiter t (sm_waiters s)))) →
  queue_ok i (sm_waiters s') (partial_alter (λ _, c) t cs).
Proof.
  intros Hq Hc (n & v & Hs'). assert (Hnd : NoDup (sm_waiters s).*1) by by destruct Hq.
  assert (Hnd' : NoDup (remove_waiter t (sm_waiters s)).*1).
  { eapply sublist_NoDup; [exact Hnd|]. apply fmap_sublist, remove_waiter_sublist. }
  pose proof (remove_waiter_gone t _ Hnd) as Hgone. pose proof (remove_waiter_others t (sm_waiters s)) as Ho.
  apply (gone_at i t (sm_waiters s)); [done|..|done]; destruct Hs' as [->| ->]; rewrite ?wake_keys; cbn; try done.
  eapply others_trans; [exact Ho|]. apply (wake_others t (MkSem _ _ _)).
Qed.
Lemma acquire_queue (i t : Z) (want : option ptz_position) (taken : bool) (s s' : Semaphore) (cs : gmap Z Capture) :
  queue_ok i (sm_waiters s) cs → cs !! t = None → sem_acquire t s = (taken, s') →
  queue_ok i (sm_waiters s') (partial_alter (λ _, Some (if taken then cp_holding i want else cp_waiting i want false)) t cs).
Proof.
  intros Hq Hn. assert (Hnot : t ∉ (sm_waiters s).*1) by (apply (not_queued i t _ cs Hq); congruence).
  unfold sem_acquire. destruct (sem_locked s); intros [= <- <-]; cbn.
  - apply (queue_ok_at i t (sm_waiters s)); [done|..].
    + split; [|intros t' _; rewrite fmap_app; cbn; set_solver].
      intros t' f' Hne [Hin|Hin%list_elem_of_singleton]%elem_of_app; [by eauto|]. congruence.
    + rewrite fmap_app. apply NoDup_app. cbn. split_and!; [by destruct Hq|set_solver|apply NoDup_singleton].
    + intros f _. by exists want, false.
    + intros _ _ _. rewrite fmap_app. cbn. set_solver.
  - apply (gone_at i t (sm_waiters s)); [done|apply others_refl|by destruct Hq|done|done].
Qed.
Lemma cancel_queue (i t : Z) (want : option ptz_position) (ws : list (Z * future)) (cs : gmap Z Capture) :
  queue_ok i ws cs → t ∈ ws.*1 → queue_ok i (cancel_waiter t ws) (partial_alter (λ _, Some (cp_waiting i want true)) t cs).
Proof.
  intros Hq Hin. apply (queue_ok_at i t ws); [done|..]; rewrite ?cancel_waiter_keys; [|by destruct Hq| |done].
  - split; [|intros t' _; by rewrite cancel_waiter_keys]. intros t' f' Hne [Hin'|[]]%cancel_waiter_in; [by eauto|done].
  - intros f Hf. exists want, true. split; [done|]. intros _ ->. revert Hf. apply cancel_waiter_not_pending. by destruct Hq.
Qed.
Lemma semaphore_for_ok (b : bool) (w : Slots) : slots_ok w → slots_ok (semaphore_for b w).
Proof.
  intros Hok. unfold semaphore_for. destruct (Bool.eqb b (sl_exclusive w)); [done|]. destruct Hok as [H1 H2 H3 H4].
  assert (Hnew : ∀ t c, sl_captures w !! t = Some c → sem_of c ≠ sl_current w + 1).
  { intros t c [s Hs]%H4. specialize (H2 _ _ Hs). lia. }
  constructor; cbn.
  - exists (new_semaphore (if b then 1 else SHARED_SLOT_CAPACITY)). by rewrite lookup_insert_eq.
  - intros i s. destruct (decide (i = sl_current w + 1)) as [->|Hne]; [lia|]. rewrite lookup_insert_ne by done. intros Hs%H2. lia.
  - intros i s. destruct (decide (i = sl_current w + 1)) as [->|Hne]; [|rewrite lookup_insert_ne by done; apply H3].
    rewrite lookup_insert_eq. intros [= <-]. cbn. split_and!; [by destruct b; [left|right]|..].
    + assert (holders (sl_current w + 1) (sl_captures w) = 0) as ->.
      { unfold holders. replace (filter _ _) with (∅ : gmap Z Capture); [by rewrite map_size_empty|]. symmetry. apply map_empty_filter.
        intros t c Hc%Hnew Hs. destruct c; cbn in *; congruence. }
      constructor; cbn; [by destruct b|by destruct b|lia|constructor|by intros t _ ?%elem_of_nil].
    + constructor; cbn; [constructor|by intros t f ?%elem_of_nil|]. intros t want c Hc. by destruct (Hnew _ _ Hc).
  - intros t c Hc. destruct (H4 _ _ Hc) as [s Hs]. rewrite lookup_insert_ne by (intros Heq; by apply (Hnew t c Hc)). by exists s.
Qed.
Lemma enter_slot_ok (t : Z) (want : option ptz_position) (w : Slots) :
  slots_ok w → sl_captures w !! t = None → slots_ok (enter_slot t want w).
Proof.
  intros Hok Hn. unfold enter_slot. set (b := _ || _). pose proof (semaphore_for_ok b w Hok) as Hok'.
  assert (Hn' : sl_captures (semaphore_for b w) !! t = None) by (unfold semaphore_for; by destruct (Bool.eqb _ _)).
  set (w' := semaphore_for b w) in *. clearbody w'. destruct (ss_current _ Hok') as (s & Hs & _). rewrite Hs.
  destruct (sem_acquire t s) as [taken s'] eqn:Ha. destruct (ss_sems _ Hok' _ _ Hs) as (_ & Hsem & Hq).
  eapply (slots_ok_at w' _ (sl_current w') t s s' (Some (if taken then _ else _))); try done; cbn.
  - by rewrite Hn'.
  - intros x [= <-]. by destruct taken.
  - unfold sem_acquire in Ha. destruct (sem_locked s); by injection Ha as _ <-.
  - rewrite Hn', held_none. eapply sem_acquire_ok in Hsem; [|exact Ha]. destruct taken; rewrite ?held_waiting, ?held_here by done.
    + by replace (_ + 1 - 0) with (holders (sl_current w') (sl_captures w') + 1) by lia.
    + by replace (_ + 0 - 0) with (holders (sl_current w') (sl_captures w')) by lia.
  - by apply (acquire_queue _ _ _ _ s).
Qed.
Lemma leave_slot_ok (t i : Z) (c : Capture) (w : Slots) :
  slots_ok w → sl_captures w !! t = Some c → slot_of c = Some i → slots_ok (leave_slot t i w).
Proof.
  intros Hok Hc Hi. unfold leave_slot. destruct (sl_semaphores w !! i) as [s|] eqn:Hs; [|done].
  destruct (ss_sems _ Hok _ _ Hs) as (_ & Hsem & Hq).
  eapply (slots_ok_at w _ i t s (sem_release s) None); try done; cbn.
  - intros x. rewrite Hc. intros [= <-]. destruct c; cbn in *; congruence.
  - unfold sem_release. by rewrite wake_initial.
  - rewrite Hc, held_none, held_here by done. apply sem_release_ok. by replace (_ + 1) with (holders i (sl_captures w)) by lia.
  - apply release_queue; [done|]. intros want b. rewrite Hc. intros [= ->]. done.
Qed.
(** a capture that stays in its slot *)
Lemma same_slot_ok (t i : Z) (c c' : Capture) (w w' : Slots) :
  slots_ok w → sl_captures w !! t = Some c → slot_of c = Some i → slot_of c' = Some i → sl_exclusive w' = sl_exclusive w →
  sl_current w' = sl_current w → sl_semaphores w' = sl_semaphores w → sl_captures w' = <[t := c']> (sl_captures w) → slots_ok w'.
Proof.
  intros Hok Hc Hi Hi' He Hcur Hss Hcs. assert (Hsem_of : sem_of c = i ∧ sem_of c' = i) by (by destruct c, c'; cbn in *; simplify_eq).
  destruct (ss_refer _ Hok _ _ Hc) as [s Hs]. rewrite (proj1 Hsem_of) in Hs. destruct (ss_sems _ Hok _ _ Hs) as (_ & Hsem & Hq).
  apply (slots_ok_at w w' i t s s (Some c')); try done.
  - by rewrite insert_id.
  - intros x. rewrite Hc. intros [= <-]. by destruct Hsem_of.
  - intros x [= <-]. by destruct Hsem_of.
  - rewrite Hc, !held_here by done. by replace (_ + 1 - 1) with (holders i (sl_captures w)) by lia.
  - apply (gone_at i t (sm_waiters s)); [done|apply others_refl|by destruct Hq| |].
    + apply (not_queued i t _ _ Hq). intros want b. rewrite Hc. by intros [= ->].
    + by intros want b [= ->].
Qed.
Lemma set_camera_ok (camera : option ptz_position) (w : Slots) : slots_ok w → slots_ok (set_camera camera w).
Proof. intros []. by constructor. Qed.
Lemma waiting_flag (t i : Z) (want : option ptz_position) (b : bool) (s : Semaphore) (w : Slots) :
  slots_ok w → sl_captures w !! t = Some (cp_waiting i want b) → sl_semaphores w !! i = Some s →
  ∃ f, waiter_of t (sm_waiters s) = Some f ∧ (b = true → f ≠ fu_pending).
Proof.
  intros Hok Hc Hs. destruct (ss_sems _ Hok _ _ Hs) as (_ & _ & [_ H2 H3]). destruct (waiter_of_keys t _ (H3 _ _ _ Hc)) as [f Hf].
  exists f. split; [done|]. destruct (H2 _ _ (waiter_of_elem _ _ _ Hf)) as (want' & b' & Hc' & Hb). rewrite Hc in Hc'. by injection Hc' as _ <-.
Qed.
Lemma slots_ok_step (w w' : Slots) : slots_ok w → slot_step w w' → slots_ok w'.
Proof.
  intros Hok Hstep. destruct Hstep as [t want w Hn|t i want s w Hc Hs Hg|t i want s w Hc Hs|t i want s w Hc Hs|t i want camera w Hc|t i p w Hc
    |t i p camera w Hc|t i want c w Hc Hor|ptz w|now w Hnow].
  - by apply enter_slot_ok.
  - destruct (ss_sems _ Hok _ _ Hs) as (_ & Hsem & Hq).
    apply (slots_ok_at w _ i t s (sem_resume t s) (Some (cp_holding i want))); try done; cbn.
    + intros x. rewrite Hc. by intros [= <-].
    + by intros x [= <-].
    + unfold sem_resume. destruct (0 <? _); by rewrite ?wake_initial.
    + rewrite Hc, held_waiting, held_here by done. eapply sem_resume_ok in Hsem; [|exact Hg].
      by replace (_ + 1 - 0) with (holders i (sl_captures w) + 1) by lia.
    + apply (removed_queue i t s); [done|done|]. unfold sem_resume. destruct (0 <? _); eauto.
  - destruct (ss_sems _ Hok _ _ Hs) as (_ & Hsem & Hq).
    apply (slots_ok_at w _ i t s (sem_cancel t s) (Some (cp_waiting i want true))); try done; cbn.
    + intros x. rewrite Hc. by intros [= <-].
    + by intros x [= <-].
    + rewrite Hc, !held_waiting. apply sem_cancel_ok. by replace (_ + 0 - 0) with (holders i (sl_captures w)) by lia.
    + apply cancel_queue; [done|]. by eapply qu_all.
  - destruct (ss_sems _ Hok _ _ Hs) as (_ & Hsem & Hq). destruct (waiting_flag _ _ _ _ _ _ Hok Hc Hs) as (f & Hf & Hp).
    apply (slots_ok_at w _ i t s (sem_unwind t s) None); try done; cbn.
    + intros x. rewrite Hc. by intros [= <-].
    + unfold sem_unwind. destruct (waiter_of t (sm_waiters s)) as [[]|]; by rewrite ?wake_initial.
    + rewrite Hc, held_waiting, held_none. replace (_ + 0 - 0) with (holders i (sl_captures w)) by lia. apply (sem_unwind_ok t s _ f); auto.
    + unfold sem_unwind. rewrite Hf. apply (removed_queue i t s); [done|done|]. destruct f; eauto.
  - unfold apply_ptz. destruct want as [p|]; [destruct (position_confirmed p w)|].
    + by apply (same_slot_ok t i _ (cp_capturing i (Some p)) w _ Hok Hc).
    + by apply (same_slot_ok t i _ (cp_moving i p) w _ Hok Hc).
    + by apply (same_slot_ok t i _ (cp_capturing i None) w _ Hok Hc).
  - by apply (same_slot_ok t i _ (cp_capturing i (Some p)) w _ Hok Hc).
  - eapply leave_slot_ok; [by apply set_camera_ok|done|done].
  - eapply leave_slot_ok; [done|done|]. by destruct Hor as [->| ->].
  - by destruct Hok.
  - by destruct Hok.
Qed.
Lemma new_slots_ok (ptz : bool) (camera : option ptz_position) (now : Z) : slots_ok (new_slots ptz camera now).
Proof.
  constructor; cbn.
  - exists (new_semaphore SHARED_SLOT_CAPACITY). by rewrite lookup_singleton_eq.
  - intros i s [<- _]%lookup_singleton_Some. done.
  - intros i s [<- <-]%lookup_singleton_Some. split_and!; [by right|..]; constructor; cbn; try done; try (by intros t ? ?%elem_of_nil); constructor.
  - done.
Qed.
Lemma slots_ok_reachable (ptz : bool) (camera : option ptz_position) (now : Z) (w : Slots) :
  rtc slot_step (new_slots ptz camera now) w → slots_ok w.
Proof.
  intros Hrun. pose proof (new_slots_ok ptz camera now) as Hok. induction Hrun as [|x y z Hstep _ IH]; [done|]. by apply IH; eapply slots_ok_step.
Qed.

(** ** One capture at a time on a PTZ camera *)
Lemma holders_nonneg (i : Z) (cs : gmap Z Capture) : 0 ≤ holders i cs.
Proof. unfold holders. lia. Qed.
Lemma captures_delete (i t : Z) (c : Capture) (cs : gmap Z Capture) :
  cs !! t = Some c → slot_of c = Some i → holders i cs = holders i (delete t cs) + 1.
Proof.
  intros Hc Hi. pose proof (holders_alter i t None cs) as H. rewrite Hc, held_none, held_here in H by done.
  change (partial_alter _ t cs) with (delete t cs) in H. lia.
Qed.
Lemma sole_holder (i t t' : Z) (c c' : Capture) (cs : gmap Z Capture) :
  holders i cs ≤ 1 → cs !! t = Some c → slot_of c = Some i → cs !! t' = Some c' → slot_of c' = Some i → t' = t.
Proof.
  intros Hle Hc Hi Hc' Hi'. destruct (decide (t' = t)) as [|Hne]; [done|]. rewrite (captures_delete i t c cs Hc Hi) in Hle.
  rewrite (captures_delete i t' c' (delete t cs)) in Hle by (try done; by rewrite lookup_delete_ne).
  pose proof (holders_nonneg i (delete t' (delete t cs))). lia.
Qed.

(** steps after which the camera is still reported as a PTZ camera *)
Definition ptz_step (w w' : Slots) : Prop := slot_step w w' ∧ sl_ptz w' = true.
Record ptz_ok (w : Slots) : Prop := MkPtzOk {
  pz_slots : slots_ok w;
  pz_reported : sl_ptz w = true;
  pz_exclusive : sl_exclusive w = true ∨ sl_captures w = ∅;
  pz_current : ∀ t c, sl_captures w !! t = Some c → sem_of c = sl_current w;
  pz_camera : ∀ q, sl_position w = Some q → sl_camera w = Some q;
  pz_moving : ∀ t i p, sl_captures w !! t = Some (cp_moving i p) → sl_position w = None;
  pz_ready : ∀ t i p, sl_captures w !! t = Some (cp_capturing i (Some p)) → ∃ q, sl_position w = Some q ∧ (q = p ∨ position_eq q p = true);
}.
Lemma ptz_alone (w : Slots) (t t' i i' : Z) (c c' : Capture) :
  ptz_ok w → sl_captures w !! t = Some c → slot_of c = Some i → sl_captures w !! t' = Some c' → slot_of c' = Some i' → t' = t.
Proof.
  intros [Hok _ Hex Hcur _ _ _] Hc Hi Hc' Hi'. destruct Hex as [Hex|He]; [|by rewrite He in Hc].
  assert (sem_of c = i ∧ sem_of c' = i') as [H1 H2] by (by destruct c, c'; cbn in *; simplify_eq).
  rewrite (Hcur _ _ Hc) in H1. rewrite (Hcur _ _ Hc') in H2. subst i i'. destruct (ss_current _ Hok) as (s & Hs & Hn). rewrite Hex in Hn.
  destruct (ss_sems _ Hok _ _ Hs) as (_ & [Hv _ Hb _ _] & _). pose proof (granted_nonneg (sm_waiters s)).
  by apply (sole_holder (sl_current w) t t' c c' (sl_captures w)); [lia|..].
Qed.
(** a step of one capture that leaves position and camera alone *)
Lemma ptz_ok_at (w w' : Slots) (t : Z) (c : option Capture) :
  ptz_ok w → slots_ok w' → sl_ptz w' = true → (sl_exclusive w' = true ∨ sl_captures w' = ∅) → sl_position w' = sl_position w →
  sl_camera w' = sl_camera w → sl_captures w' = partial_alter (λ _, c) t (sl_captures w) →
  (∀ t' x, sl_captures w' !! t' = Some x → sem_of x = sl_current w') → (∀ i p, c ≠ Some (cp_moving i p)) →
  (∀ i p, c = Some (cp_capturing i (Some p)) → ∃ q, sl_position w = Some q ∧ (q = p ∨ position_eq q p = true)) → ptz_ok w'.
Proof.
  intros [_ _ _ _ H5 H6 H7] Hok Hp He Hpos Hcam Hcs Hcur Hm Hr. constructor; try done; rewrite ?Hpos, ?Hcam, ?Hcs; [done|..];
    intros t' i p; (destruct (decide (t' = t)) as [->|Hne]; [rewrite lookup_partial_alter_eq|rewrite lookup_partial_alter_ne by done]).
  - intros Hc. by destruct (Hm i p).
  - apply H6.
  - apply Hr.
  - apply H7.
Qed.
(** the same when the semaphore in use stays *)
Lemma ptz_ok_same (w w' : Slots) (t : Z) (c0 : Capture) (c : option Capture) :
  ptz_ok w → slots_ok w' → sl_captures w !! t = Some c0 → (∀ x, c = Some x → sem_of x = sem_of c0) →
  sl_ptz w' = sl_ptz w → sl_exclusive w' = sl_exclusive w → sl_current w' = sl_current w → sl_position w' = sl_position w →
  sl_camera w' = sl_camera w → sl_captures w' = partial_alter (λ _, c) t (sl_captures w) → (∀ i p, c ≠ Some (cp_moving i p)) →
  (∀ i p, c = Some (cp_capturing i (Some p)) → ∃ q, sl_position w = Some q ∧ (q = p ∨ position_eq q p = true)) → ptz_ok w'.
Proof.
  intros Hz Hok Hc0 Hsem Hp He Hcur Hpos Hcam Hcs Hm Hr. apply (ptz_ok_at w w' t c); try done; destruct Hz as [_ H2 H3 H4 _ _ _].
  - by rewrite Hp.
  - destruct H3 as [H3|H3]; [left; by rewrite He|]. by rewrite H3 in Hc0.
  - intros t' x. rewrite Hcs, Hcur. destruct (decide (t' = t)) as [->|Hne].
    + rewrite lookup_partial_alter_eq. intros ->%Hsem. by eapply H4.
    + rewrite lookup_partial_alter_ne by done. apply H4.
Qed.
Lemma enter_captures (t : Z) (want : option ptz_position) (w : Slots) :
  sl_ptz w = true → slots_ok w → ∃ c,
    sl_captures (enter_slot t want w) = <[t := c]> (sl_captures w) ∧ sem_of c = sl_current (enter_slot t want w) ∧
    sl_exclusive (enter_slot t want w) = true ∧ (sl_exclusive w = true → sl_current (enter_slot t want w) = sl_current w) ∧
    sl_position (enter_slot t want w) = sl_position w ∧ sl_camera (enter_slot t want w) = sl_camera w ∧
    (∀ i p, c ≠ cp_moving i p) ∧ (∀ i p, c ≠ cp_capturing i p).
Proof.
  intros Hp Hok. unfold enter_slot. rewrite Hp, orb_true_r. pose proof (semaphore_for_ok true w Hok) as [(s & Hs & _) _ _ _].
  rewrite Hs. destruct (sem_acquire t s) as [taken s']. cbn. exists (if taken then cp_holding (sl_current (semaphore_for true w)) want
    else cp_waiting (sl_current (semaphore_for true w)) want false).
  unfold semaphore_for in *. destruct (sl_exclusive w) eqn:He; cbn in *; rewrite ?He; split_and!; try done; by destruct taken.
Qed.
Lemma enter_ptz_ok (t : Z) (want : option ptz_position) (w : Slots) :
  ptz_ok w → sl_captures w !! t = None → sl_ptz (enter_slot t want w) = true → ptz_ok (enter_slot t want w).
Proof.
  intros Hz Hn Hp. pose proof (enter_slot_ok t want w (pz_slots _ Hz) Hn) as Hok.
  destruct (enter_captures t want w (pz_reported _ Hz) (pz_slots _ Hz)) as (c & Hcs & Hsem & Hex & Hcur & Hpos & Hcam & Hm & Hr).
  apply (ptz_ok_at w _ t (Some c)); try done; [by left|..].
  - intros t' x. rewrite Hcs. destruct (decide (t' = t)) as [->|Hne]; [rewrite lookup_insert_eq; by intros [= <-]|].
    rewrite lookup_insert_ne by done. intros Hx. destruct (pz_exclusive _ Hz) as [He|He]; [|by rewrite He in Hx].
    rewrite (Hcur He). by eapply pz_current.
  - intros i p [= ->]. by destruct (Hm i p).
  - intros i p [= ->]. by destruct (Hr i (Some p)).
Qed.
Lemma apply_ptz_ok (t i : Z) (want camera : option ptz_position) (w : Slots) :
  ptz_ok w → sl_captures w !! t = Some (cp_holding i want) → slots_ok (apply_ptz t i want camera w) → ptz_ok (apply_ptz t i want camera w).
Proof.
  intros Hz Hc. unfold apply_ptz. destruct want as [p|].
  - destruct (position_confirmed p w) eqn:Hconf; intros Hok.
    + apply (ptz_ok_same w _ t _ (Some (cp_capturing i (Some p))) Hz Hok Hc); try done; [by intros x [= <-]|]. intros _ _ [= _ <-].
      unfold position_confirmed in Hconf. destruct (sl_position w) as [q|]; [|done]. apply andb_prop in Hconf as [Hconf _]. eauto.
    + destruct Hz as [H1 H2 H3 H4 H5 H6 H7]. pose proof (ptz_alone w t) as Halone. constructor; cbn; try done.
      * destruct H3 as [H3|H3]; [by left|]. by rewrite H3 in Hc.
      * intros t' x. destruct (decide (t' = t)) as [->|Hne]; [rewrite lookup_insert_eq; intros [= <-]; by apply (H4 t _ Hc)|].
        rewrite lookup_insert_ne by done. apply H4.
      * intros t' j q. destruct (decide (t' = t)) as [->|Hne]; [by rewrite lookup_insert_eq|]. rewrite lookup_insert_ne by done. intros Hx.
        by destruct Hne; eapply (Halone t' i j).
  - intros Hok. by apply (ptz_ok_same w _ t _ (Some (cp_capturing i None)) Hz Hok Hc); try done; intros x [= <-].
Qed.
Lemma finish_ptz_ok (t i : Z) (p : ptz_position) (w : Slots) :
  ptz_ok w → sl_captures w !! t = Some (cp_moving i p) → slots_ok (finish_ptz t i p w) → ptz_ok (finish_ptz t i p w).
Proof.
  intros Hz Hc Hok. pose proof (λ t' i', ptz_alone w t t' i i' (cp_moving i p)) as Halone. destruct Hz as [H1 H2 H3 H4 H5 H6 H7]. constructor; cbn; try done.
  - destruct H3 as [H3|H3]; [by left|]. by rewrite H3 in Hc.
  - intros t' x. destruct (decide (t' = t)) as [->|Hne]; [rewrite lookup_insert_eq; intros [= <-]; by apply (H4 t _ Hc)|].
    rewrite lookup_insert_ne by done. apply H4.
  - intros t' j q. destruct (decide (t' = t)) as [->|Hne]; [by rewrite lookup_insert_eq|]. rewrite lookup_insert_ne by done. intros Hx.
    by destruct Hne; eapply (Halone t' j).
  - intros t' j q. destruct (decide (t' = t)) as [->|Hne].
    + rewrite lookup_insert_eq. intros [= <- <-]. eauto.
    + rewrite lookup_insert_ne by done. intros Hx. by destruct Hne; eapply (Halone t' j).
Qed.
Lemma leave_ptz_ok (t i : Z) (c : Capture) (camera : option ptz_position) (w : Slots) :
  ptz_ok w → sl_captures w !! t = Some c → slot_of c = Some i → (sl_camera w = camera ∨ ∃ p, c = cp_moving i p) →
  slots_ok (leave_slot t i (set_camera camera w)) → ptz_ok (leave_slot t i (set_camera camera w)).
Proof.
  intros Hz Hc Hi Hcam Hok. pose proof (λ t' i', ptz_alone w t t' i i' c) as Halone. revert Hok. unfold leave_slot. cbn.
  destruct (ss_refer _ (pz_slots _ Hz) _ _ Hc) as [s Hs]. assert (Hsem : sem_of c = i) by (by destruct c; cbn in *; simplify_eq).
  rewrite Hsem in Hs. rewrite Hs. intros Hok. pose proof Hz as [H1 H2 H3 H4 H5 H6 H7]. constructor; cbn; try done.
  - destruct H3 as [H3|H3]; [by left|]. by rewrite H3 in Hc.
  - intros t' x [_ Hx]%lookup_delete_Some. by apply (H4 t').
  - intros q Hq. destruct Hcam as [<-|[p ->]]; [by apply H5|]. by rewrite (H6 _ _ _ Hc) in Hq.
  - intros t' j p [_ Hx]%lookup_delete_Some. by apply (H6 t' j p).
  - intros t' j p [_ Hx]%lookup_delete_Some. by apply (H7 t' j p).
Qed.
Lemma set_same_camera (w : Slots) : set_camera (sl_camera w) w = w.
Proof. by destruct w. Qed.
Lemma ptz_ok_step (w w' : Slots) : ptz_ok w → ptz_step w w' → ptz_ok w'.
Proof.
  intros Hz [Hstep Hp]. pose proof (slots_ok_step _ _ (pz_slots _ Hz) Hstep) as Hok.
  destruct Hstep as [t want w Hn|t i want s w Hc Hs Hg|t i want s w Hc Hs|t i want s w Hc Hs|t i want camera w Hc|t i p w Hc
    |t i p camera w Hc|t i want c w Hc Hor|ptz w|now w Hnow].
  - by apply enter_ptz_ok.
  - by apply (ptz_ok_same w _ t _ (Some (cp_holding i want)) Hz Hok Hc); try done; intros x [= <-].
  - by apply (ptz_ok_same w _ t _ (Some (cp_waiting i want true)) Hz Hok Hc); try done; intros x [= <-].
  - by apply (ptz_ok_same w _ t _ None Hz Hok Hc).
  - by apply apply_ptz_ok.
  - by apply finish_ptz_ok.
  - by apply (leave_ptz_ok t i (cp_moving i p)); eauto.
  - rewrite <-(set_same_camera w) in Hok |- *. apply (leave_ptz_ok t i c); try done; [by destruct Hor as [->| ->]|by left].
  - by destruct Hz.
  - by destruct Hz.
Qed.

(** ** Theorems *)
(** Each semaphore's slots add up, whatever was cancelled, timed out or failed on the
    way: those free, those handed to a waiter that has not resumed and those held make up
    the count it began with, two, or one in PTZ mode; so no more captures than that run on
    it at a time. *)
Theorem slots_not_overdrawn (ptz : bool) (camera : option ptz_position) (now i : Z) (s : Semaphore) (w : Slots) :
  rtc slot_step (new_slots ptz camera now) w → sl_semaphores w !! i = Some s →
  0 ≤ sm_value s ∧ sm_value s + granted (sm_waiters s) + holders i (sl_captures w) = sm_initial s ∧ sm_initial s ≤ SHARED_SLOT_CAPACITY ∧
  (i = sl_current w → sl_exclusive w = true → holders i (sl_captures w) ≤ 1).
Proof.
  intros Hrun Hs. pose proof (slots_ok_reachable _ _ _ _ Hrun) as Hok. destruct (ss_sems _ Hok _ _ Hs) as (Hcap & [Hv _ Hb _ _] & _).
  pose proof (granted_nonneg (sm_waiters s)). split_and!; [done|done|destruct Hcap as [->| ->]; unfold SHARED_SLOT_CAPACITY; lia|].
  intros -> He. destruct (ss_current _ Hok) as (s' & Hs' & Hn). rewrite He in Hn. assert (s' = s) as -> by congruence. lia.
Qed.

(** A capture that waits for a slot waits for somebody: another capture holds a slot
    of that semaphore or has been handed one, and nobody who queued after it has. *)
Theorem waiting_has_a_cause (ptz : bool) (camera : option ptz_position) (now i t : Z) (s : Semaphore) (l l' : list (Z * future)) (w : Slots) :
  rtc slot_step (new_slots ptz camera now) w → sl_semaphores w !! i = Some s → sm_waiters s = l ++ (t, fu_pending) :: l' →
  (∃ t' c, t' ≠ t ∧ sl_captures w !! t' = Some c ∧
     (slot_of c = Some i ∨ sem_of c = i ∧ waiter_of t' (sm_waiters s) = Some fu_granted)) ∧
  (∀ t', (t', fu_granted) ∉ l').
Proof.
  intros Hrun Hs Hw. pose proof (slots_ok_reachable _ _ _ _ Hrun) as Hok. destruct (ss_sems _ Hok _ _ Hs) as (_ & [Hv Hn Hb Hf Hp] & [H1 H2 H3]).
  assert (Hin : (t, fu_pending) ∈ sm_waiters s) by (rewrite Hw; set_solver). split.
  - assert (0 < granted (sm_waiters s) ∨ 0 < holders i (sl_captures w)) as [Hg|Hh].
    { destruct (decide (0 < sm_value s)) as [Hpos|]; [left; by apply (Hp t)|]. destruct (decide (0 < granted (sm_waiters s))); [by left|].
      right. pose proof (granted_nonneg (sm_waiters s)). lia. }
    + apply granted_elem in Hg as [t' Ht']. destruct (H2 _ _ Ht') as (want & c & Hc & _). exists t', (cp_waiting i want c).
      split_and!; [|done|right; split; [done|by apply elem_waiter_of]].
      intros ->. apply (elem_waiter_of _ _ _ H1) in Ht', Hin. congruence.
    + destruct (map_choose (filter (λ e : Z * Capture, slot_of e.2 = Some i) (sl_captures w))) as (t' & c & Hc).
      { intros He. unfold holders in Hh. rewrite He, map_size_empty in Hh. lia. }
      apply map_lookup_filter_Some in Hc as [Hc Hi]. exists t', c. split_and!; [|done|by left]. intros ->.
      destruct (H2 _ _ Hin) as (want & b & Hc' & _). rewrite Hc in Hc'. by injection Hc' as ->.
  - intros t' Hin'. rewrite Hw in Hf. clear -Hf Hin'. induction l as [|x l IH]; cbn in Hf; apply StronglySorted_inv in Hf as [Hf Hx]; [|by apply IH].
    rewrite Forall_forall in Hx. by apply (Hx _ Hin').
Qed.

(** C9: while every reconcile pass reports the camera as a PTZ camera, a capture for a
    project with a position runs with the camera there: the move it made was confirmed,
    or the skipped one had been, nothing has moved the camera since, and no other capture
    is in a slot. *)
Theorem captures_in_position (camera : option ptz_position) (now t i : Z) (p : ptz_position) (w : Slots) :
  rtc ptz_step (new_slots true camera now) w → sl_captures w !! t = Some (cp_capturing i (Some p)) →
  (∃ q, sl_camera w = Some q ∧ (q = p ∨ position_eq q p = true)) ∧
  (∀ t' c, sl_captures w !! t' = Some c → is_Some (slot_of c) → t' = t).
Proof.
  intros Hrun Hc. assert (Hz : ptz_ok w).
  { assert (Hz : ptz_ok (new_slots true camera now)) by (constructor; cbn; try done; [apply new_slots_ok|by right]).
    clear Hc. induction Hrun as [|x y z Hstep _ IH]; [done|]. by apply IH; eapply ptz_ok_step. }
  split.
  - destruct (pz_ready _ Hz _ _ _ Hc) as (q & Hq & Hqp). exists q. split; [by apply (pz_camera _ Hz)|done].
  - intros t' c Hc' [i' Hi']. by eapply (ptz_alone w t t' i i').
Qed.

(** ** Runs *)
Definition demo_gate : ptz_position := pz_preset "gate".
Definition demo_yard : ptz_position := pz_preset "yard".
Definition demo_idle : Slots := new_slots true None 0.
(** two projects with a position: the second one waits *)
Definition demo_entered : Slots := enter_slot 1 (Some demo_gate) demo_idle.
Definition demo_queued : Slots := enter_slot 2 (Some demo_yard) demo_entered.
(** the first one moves the camera and captures *)
Definition demo_in_move : Slots := apply_ptz 1 1 (Some demo_gate) None demo_queued.
Definition demo_in_place : Slots := finish_ptz 1 1 demo_gate demo_in_move.
Lemma demo_enters : ptz_step demo_idle demo_entered ∧ ptz_step demo_entered demo_queued.
Proof. split; (split; [apply sl_enter; reflexivity|reflexivity]). Qed.
Lemma demo_moves : ptz_step demo_queued demo_in_move ∧ ptz_step demo_in_move demo_in_place.
Proof. split; (split; [|reflexivity]); [by apply sl_apply|by apply sl_moved]. Qed.
Lemma demo_queue_run : rtc slot_step demo_idle demo_queued.
Proof. destruct demo_enters as [[H1 _] [H2 _]]. eapply rtc_l; [exact H1|]. eapply rtc_l; [exact H2|done]. Qed.
Lemma slots_not_overdrawn_witness :
  ∃ s, sl_semaphores demo_queued !! 1 = Some s ∧
    (0 ≤ sm_value s ∧ sm_value s + granted (sm_waiters s) + holders 1 (sl_captures demo_queued) = sm_initial s ∧
     sm_initial s ≤ SHARED_SLOT_CAPACITY ∧
     (1 = sl_current demo_queued → sl_exclusive demo_queued = true → holders 1 (sl_captures demo_queued) ≤ 1)).
Proof.
  exists (MkSem 1 0 [(2, fu_pending)]). split; [reflexivity|].
  apply (slots_not_overdrawn true None 0 1 (MkSem 1 0 [(2, fu_pending)]) demo_queued demo_queue_run). reflexivity.
Defined.
Lemma waiting_has_a_cause_witness :
  (∃ t' c, t' ≠ 2 ∧ sl_captures demo_queued !! t' = Some c ∧
     (slot_of c = Some 1 ∨ sem_of c = 1 ∧ waiter_of t' [(2, fu_pending)] = Some fu_granted)) ∧
  (∀ t', (t', fu_granted) ∉ ([] : list (Z * future))).
Proof. apply (waiting_has_a_cause true None 0 1 2 (MkSem 1 0 [(2, fu_pending)]) [] [] demo_queued demo_queue_run); reflexivity. Defined.
Lemma captures_in_position_witness :
  (∃ q, sl_camera demo_in_place = Some q ∧ (q = demo_gate ∨ position_eq q demo_gate = true)) ∧
  (∀ t' c, sl_captures demo_in_place !! t' = Some c → is_Some (slot_of c) → t' = 1).
Proof.
  apply (captures_in_position None 0 1 1 demo_gate demo_in_place); [|reflexivity].
  destruct demo_enters as [H1 H2], demo_moves as [H3 H4]. by repeat (eapply rtc_l; [eassumption|]).
Defined.

(** A change of mode lets a PTZ project move the camera while another project's capture is
    running: the new mode's semaphore does not know of the slots held on the old one. *)
Lemma mode_change_moves_camera :
  ∃ w i j, rtc slot_step (new_slots false None 0) w ∧ sl_captures w !! 1 = Some (cp_capturing i None) ∧
    sl_captures w !! 2 = Some (cp_moving j demo_gate) ∧ sl_ptz w = true ∧ sl_exclusive w = true.
Proof.
  set (w1 := apply_ptz 1 0 None None (enter_slot 1 None (new_slots false None 0))).
  exists (apply_ptz 2 1 (Some demo_gate) None (enter_slot 2 (Some demo_gate) (MkSlots (sl_exclusive w1) (sl_current w1) (sl_semaphores w1) (sl_position w1)
    (sl_position_at w1) (sl_captures w1) true (sl_camera w1) (sl_now w1)))), 0, 1. split; [|by repeat split].
  eapply rtc_l; [by apply (sl_enter 1 None)|]. eapply rtc_l; [by apply (sl_apply 1 0 None None)|].
  eapply rtc_l; [apply (sl_report true)|]. eapply rtc_l; [by apply (sl_enter 2 (Some demo_gate))|].
  eapply rtc_l; [by apply (sl_apply 2 1 (Some demo_gate) None)|done].
Qed.
