(* ===== verification/StoragePathsFacts.v ===== *)
(** * Facts about storage paths

    [realpath] ends and follows every link ([canonical]); being inside a directory is
    transitive, and two directories a file is inside of are nested, as long as the parent
    of a directory does not depend on the name it is reached by ([coherent]). *)

From S2P Require Import Prelude PyTime StoragePaths.
From stdpp Require Import options.
Local Open Scope Z_scope.

(** ** Names and texts *)
Definition name_ok (n : text) : Prop := void n = false ∧ n ≠ DOTDOT ∧ bad_name n = false ∧ SEP ∉ n.
Lemma split_sep_nonempty (t : text) : split_sep t ≠ [].
Proof. destruct t as [|c t]; cbn; [done|]. destruct (split_sep t); [done|]. by destruct (c =? SEP). Qed.
Lemma split_sep_names (t : text) : Forall (λ n, SEP ∉ n) (split_sep t).
Proof.
  induction t as [|c t IH]; cbn; [repeat constructor; set_solver|]. destruct (split_sep t) as [|w ws] eqn:Hs; [by apply split_sep_nonempty in Hs|].
  destruct (Z.eqb_spec c SEP) as [->|Hne]; [constructor; [set_solver|done]|]. apply Forall_cons in IH as [Hw Hws].
  constructor; [|done]. rewrite elem_of_cons. naive_solver.
Qed.
Lemma split_sep_free (t : text) : SEP ∉ t → split_sep t = [t].
Proof.
  induction t as [|c t IH]; cbn; [done|]. rewrite elem_of_cons. intros Hn. rewrite IH by naive_solver.
  destruct (Z.eqb_spec c SEP); [naive_solver|done].
Qed.
Lemma split_sep_app (n t : text) : SEP ∉ n → split_sep (n ++ SEP :: t) = n :: split_sep t.
Proof.
  induction n as [|c n IH]; cbn.
  - intros _. destruct (split_sep t) eqn:Hs; [by apply split_sep_nonempty in Hs|done].
  - rewrite elem_of_cons. intros Hn. rewrite IH by naive_solver. destruct (Z.eqb_spec c SEP); [naive_solver|done].
Qed.
Lemma split_joined (p : path) (n : text) :
  SEP ∉ n → Forall (λ n, SEP ∉ n) p → split_sep (n ++ flat_map (λ name : text, SEP :: name) p) = n :: p.
Proof.
  revert n. induction p as [|m p IH]; intros n Hn Hp; cbn [flat_map]; [by rewrite app_nil_r, split_sep_free|].
  apply Forall_cons in Hp as [Hm Hp]. change ((SEP :: m) ++ ?t) with (SEP :: m ++ t). rewrite split_sep_app by done. by rewrite IH.
Qed.
Lemma split_path_text (p : path) : Forall (λ n, SEP ∉ n) p → p ≠ [] → split_sep (path_text p) = [] :: p.
Proof.
  intros Hp Hne. destruct p as [|n p]; [done|]. apply (split_joined (n :: p) []); [set_solver|done].
Qed.

(** ** Paths without links *)
Definition canonical (fs : Fs) (p : path) : Prop := Forall name_ok p ∧ ∀ q, q `prefix_of` p → q ≠ [] → fs_links fs !! q = None.
Lemma prefix_snoc_cases {A} (q p : list A) (x : A) : q `prefix_of` p ++ [x] → q `prefix_of` p ∨ q = p ++ [x].
Proof.
  intros [k Hk]. destruct k as [|y k _] using rev_ind; [right; by rewrite app_nil_r in Hk|].
  rewrite app_assoc in Hk. apply app_inj_tail in Hk as [Hk _]. left. by exists k.
Qed.
Lemma canonical_nil (fs : Fs) : canonical fs [].
Proof. split; [constructor|]. intros q ->%prefix_nil_inv. done. Qed.
Lemma removelast_prefix {A} (p : list A) : removelast p `prefix_of` p.
Proof. destruct p as [|x p _] using rev_ind; [done|]. rewrite removelast_last. by eexists. Qed.
Lemma canonical_prefix (fs : Fs) (p q : path) : canonical fs p → q `prefix_of` p → canonical fs q.
Proof.
  intros [Hn Hl] Hq. split; [destruct Hq as [k ->]; by apply Forall_app in Hn as [? _]|]. intros r Hr. apply Hl. by etrans.
Qed.
Lemma canonical_snoc (fs : Fs) (p : path) (n : text) : canonical fs p → name_ok n → fs_links fs !! (p ++ [n]) = None → canonical fs (p ++ [n]).
Proof.
  intros [Hn Hl] Hname Hlink. split; [apply Forall_app; split; [done|by constructor]|].
  intros q [Hq| ->]%prefix_snoc_cases Hne; [by apply Hl|done].
Qed.

(** ** [_joinrealpath] *)
Definition seen_ok (fs : Fs) (seen : gmap path (option path)) : Prop := ∀ k p, seen !! k = Some (Some p) → canonical fs p.
Lemma seen_ok_mark (fs : Fs) (k : path) (seen : gmap path (option path)) : seen_ok fs seen → seen_ok fs (<[k := None]> seen).
Proof. intros Hs j p. destruct (decide (j = k)) as [->|]; [by rewrite lookup_insert_eq|]. rewrite lookup_insert_ne by done. apply Hs. Qed.
Lemma seen_ok_found (fs : Fs) (k q : path) (seen : gmap path (option path)) : seen_ok fs seen → canonical fs q → seen_ok fs (<[k := Some q]> seen).
Proof.
  intros Hs Hq j p. destruct (decide (j = k)) as [->|]; [rewrite lookup_insert_eq; by intros [= ->]|]. rewrite lookup_insert_ne by done. apply Hs.
Qed.
Definition joins_ok (fs : Fs) (resolve : gmap path (option path) → path → list text → joined) : Prop :=
  ∀ seen cur names p seen', seen_ok fs seen → canonical fs cur → Forall (λ n, SEP ∉ n) names →
    resolve seen cur names = jr_ok p seen' → canonical fs p ∧ seen_ok fs seen'.
Lemma walk_ok (fs : Fs) (resolve : gmap path (option path) → path → list text → joined) : joins_ok fs resolve → joins_ok fs (walk fs resolve).
Proof.
  intros Hres seen cur names. revert seen cur. induction names as [|name names IH]; intros seen cur p seen' Hseen Hcur Hnames; cbn.
  { by intros [= <- <-]. }
  apply Forall_cons in Hnames as [Hname Hnames]. destruct (void name) eqn:Hvoid; [by apply IH|].
  case_bool_decide as Hdd; [apply IH; [done|eapply canonical_prefix; [done|apply removelast_prefix]|done]|].
  destruct (bad_name name) eqn:Hbad; [done|]. destruct (fs_links fs !! (cur ++ [name])) as [target|] eqn:Hlink.
  - destruct (seen !! (cur ++ [name])) as [[q|]|] eqn:Hs; [apply IH; [done|by eapply Hseen|done]|done|].
    destruct (resolve _ _ _) as [q seen2|q| |] eqn:Hr; try done.
    apply Hres in Hr as [Hq Hseen2]; [|by apply seen_ok_mark|destruct (isabs target); [apply canonical_nil|done]|apply split_sep_names].
    apply IH; [by apply seen_ok_found|done|done].
  - apply IH; [done|by apply canonical_snoc|done].
Qed.
Lemma join_real_ok (fs : Fs) (fuel : nat) : joins_ok fs (join_real fs fuel).
Proof. induction fuel as [|fuel IH]; [done|]. cbn. by apply walk_ok. Qed.

(** The fuel: a call for a link has one link less to resolve. *)
Definition unseen (fs : Fs) (seen : gmap path (option path)) : nat := size (filter (λ e : path * text, seen !! e.1 = None) (fs_links fs)).
Definition grows (seen seen' : gmap path (option path)) : Prop := ∀ k, seen' !! k = None → seen !! k = None.
Lemma unseen_grows (fs : Fs) (seen seen' : gmap path (option path)) : grows seen seen' → (unseen fs seen' ≤ unseen fs seen)%nat.
Proof. intros Hg. apply map_subseteq_size, map_filter_strong_subseteq_ext. intros k x. cbn. intros [Hk Hx]. split; [by apply Hg|done]. Qed.
Lemma unseen_mark (fs : Fs) (k : path) (target : text) (v : option path) (seen : gmap path (option path)) :
  fs_links fs !! k = Some target → seen !! k = None → (unseen fs (<[k := v]> seen) < unseen fs seen)%nat.
Proof.
  intros Hk Hs. unfold unseen. apply map_subset_size.
  apply map_subset_alt. split.
  - apply map_filter_strong_subseteq_ext. intros j x. cbn. intros [Hj Hx]. split; [|done].
    destruct (decide (j = k)) as [->|]; [by rewrite lookup_insert_eq in Hj|by rewrite lookup_insert_ne in Hj].
  - exists k. split; [apply map_lookup_filter_None; right; intros x Hx; cbn; by rewrite lookup_insert_eq|].
    exists target. by apply map_lookup_filter_Some.
Qed.
Definition joins_total (fs : Fs) (n : nat) (resolve : gmap path (option path) → path → list text → joined) : Prop :=
  ∀ seen cur names, (unseen fs seen < n)%nat →
    resolve seen cur names ≠ jr_fuel ∧ ∀ p seen', resolve seen cur names = jr_ok p seen' → grows seen seen'.
Lemma walk_total (fs : Fs) (n : nat) (resolve : gmap path (option path) → path → list text → joined) :
  joins_total fs n resolve → joins_total fs (S n) (walk fs resolve).
Proof.
  intros Hres seen cur names. revert seen cur. induction names as [|name names IH]; intros seen cur Hn; cbn.
  { split; [done|]. by intros p seen' [= _ <-] k. }
  destruct (void name); [by apply IH|]. case_bool_decide; [by apply IH|]. destruct (bad_name name); [done|].
  destruct (fs_links fs !! (cur ++ [name])) as [target|] eqn:Hlink; [|by apply IH].
  destruct (seen !! (cur ++ [name])) as [[q|]|] eqn:Hs; [by apply IH|done|].
  pose proof (unseen_mark fs _ _ None seen Hlink Hs) as Hmark.
  destruct (Hres (<[cur ++ [name] := None]> seen) (if isabs target then [] else cur) (split_sep target) ltac:(lia)) as [Hfuel Hgrow].
  destruct (resolve _ _ _) as [q seen2|q| |] eqn:Hr; [|done|done|done]. specialize (Hgrow _ _ eq_refl).
  assert (Hg : grows seen (<[cur ++ [name] := Some q]> seen2)).
  { intros k Hk. destruct (decide (k = cur ++ [name])) as [->|]; [done|]. rewrite lookup_insert_ne in Hk by done.
    specialize (Hgrow k Hk). by rewrite lookup_insert_ne in Hgrow. }
  pose proof (unseen_grows fs _ _ Hg). destruct (IH (<[cur ++ [name] := Some q]> seen2) q ltac:(lia)) as [H1 H2].
  split; [done|]. intros p seen' Hp k Hk. apply Hg. by apply (H2 p seen' Hp).
Qed.
Lemma join_real_total (fs : Fs) (n : nat) : joins_total fs n (join_real fs n).
Proof. induction n as [|n IH]; [intros ? ? ?; lia|]. cbn. by apply walk_total. Qed.
Lemma join_from_total (fs : Fs) (cur : path) (names : list text) : join_from fs cur names ≠ jr_fuel.
Proof. apply (join_real_total fs). unfold unseen. apply Nat.lt_succ_r, map_subseteq_size, map_filter_subseteq. Qed.
(** Where the links do not loop, the real path has none in it. *)
Lemma join_from_canonical (fs : Fs) (cur : path) (t : text) (p : path) (seen : gmap path (option path)) :
  canonical fs cur → join_from fs cur (split_sep t) = jr_ok p seen → canonical fs p.
Proof.
  intros Hcur Hj. eapply join_real_ok in Hj as [Hp _]; [done|by intros k q ?|done|apply split_sep_names].
Qed.
(** A real path resolves to itself. *)
Lemma walk_canonical (fs : Fs) (resolve : gmap path (option path) → path → list text → joined) (seen : gmap path (option path)) (cur rest : path) :
  canonical fs (cur ++ rest) → walk fs resolve seen cur rest = jr_ok (cur ++ rest) seen.
Proof.
  revert cur. induction rest as [|n rest IH]; intros cur Hc; cbn; [by rewrite app_nil_r|].
  pose proof Hc as [Hn Hl]. apply Forall_app in Hn as [_ [(Hv & Hd & Hb & _) _]%Forall_cons]. rewrite Hv, Hb.
  rewrite bool_decide_false by done. assert (Heq : cur ++ n :: rest = (cur ++ [n]) ++ rest) by (by rewrite <- app_assoc).
  rewrite Hl; [rewrite Heq in Hc |- *; by apply IH|rewrite Heq; by eexists|by destruct cur].
Qed.
Lemma realpath_canonical (fs : Fs) (p : path) : canonical fs p → realpath fs (path_text p) = Ok p.
Proof.
  intros Hp. assert (Habs : isabs (path_text p) = true) by (by destruct p). unfold realpath, real_from, join_from. rewrite Habs.
  cbn [join_real]. destruct p as [|n p]; [done|].
  assert (Hs : Forall (λ n, SEP ∉ n) (n :: p)) by (eapply Forall_impl; [apply Hp|by intros x (_ & _ & _ & ?)]).
  rewrite split_path_text by done.
  change (walk fs (join_real fs (size (fs_links fs))) ∅ [] ([] :: n :: p)) with (walk fs (join_real fs (size (fs_links fs))) ∅ [] (n :: p)).
  by rewrite (walk_canonical fs _ ∅ [] (n :: p)).
Qed.

(** ** Being inside *)
Definition coherent (fs : Fs) : Prop :=
  ∀ p q i, fs_identity fs p = Some i → fs_identity fs q = Some i →
    fs_identity fs (dirname p) = fs_identity fs (dirname q) ∧ is_Some (fs_identity fs (dirname p)).
(** the same directory, by name or by identity *)
Definition same_dir (fs : Fs) (a root : path) : Prop := a = root ∨ ∃ i, fs_identity fs root = Some i ∧ fs_identity fs a = Some i.
Lemma is_within_spec (fs : Fs) (p root : path) : is_within fs p root = true ↔ ∃ n, (n ≤ length p)%nat ∧ same_dir fs (take n p) root.
Proof.
  unfold is_within, same_dir. rewrite orb_true_iff, bool_decide_eq_true. split.
  - intros [[k ->]|Hid]; [exists (length root); rewrite take_app_length, length_app; split; [lia|by left]|].
    destruct (fs_identity fs root) as [i|] eqn:Hi; [|done]. apply existsb_exists in Hid as (a & Ha%list_elem_of_In & Heq%bool_decide_eq_true).
    apply list_elem_of_fmap in Ha as (n & -> & Hn%elem_of_reverse%elem_of_seq). exists n. split; [lia|]. right. by exists i.
  - intros (n & Hn & [Heq|(i & Hi & Ha)]); [left; rewrite <- Heq; exists (drop n p); by rewrite take_drop|right].
    rewrite Hi. apply existsb_exists. exists (take n p). rewrite <- list_elem_of_In, bool_decide_eq_true. split; [|done].
    apply list_elem_of_fmap. exists n. split; [done|]. apply elem_of_reverse, elem_of_seq. lia.
Qed.
Definition up (k : nat) (p : path) : path := take (length p - k) p.
Lemma up_succ (k : nat) (p : path) : up (S k) p = dirname (up k p).
Proof.
  unfold up, dirname. destruct (decide (length p ≤ k)%nat) as [Hle|Hlt].
  - replace (length p - S k)%nat with 0%nat by lia. by replace (length p - k)%nat with 0%nat by lia.
  - replace (length p - k)%nat with (S (length p - S k)) by lia. rewrite removelast_firstn; [done|]. lia.
Qed.
Lemma same_identity_up (fs : Fs) (k : nat) (p q : path) (i : Z * Z) :
  coherent fs → fs_identity fs p = Some i → fs_identity fs q = Some i →
  ∃ j, fs_identity fs (up k p) = Some j ∧ fs_identity fs (up k q) = Some j.
Proof.
  intros Hco Hp Hq. induction k as [|k (j & Hj & Hj')].
  - exists i. unfold up. by rewrite !Nat.sub_0_r, !firstn_all.
  - rewrite !up_succ. destruct (Hco _ _ _ Hj Hj') as [Heq [j' Hj'']]. exists j'. by rewrite <- Heq.
Qed.
Lemma same_dir_up (fs : Fs) (k : nat) (p q : path) : coherent fs → same_dir fs p q → same_dir fs (up k p) (up k q).
Proof.
  intros Hco [->|(i & Hi & Hi')]; [by left|]. destruct (same_identity_up fs k p q i Hco Hi' Hi) as (j & Hj & Hj'). right. eauto.
Qed.
Lemma same_dir_trans (fs : Fs) (p q r : path) : same_dir fs p q → same_dir fs q r → same_dir fs p r.
Proof. intros [->|(i & Hi & Hi')] [->|(j & Hj & Hj')]; unfold same_dir in *; [by left|by right; eauto|by right; eauto|]. right. exists j. split; [done|congruence]. Qed.
Lemma same_dir_sym (fs : Fs) (p q : path) : same_dir fs p q → same_dir fs q p.
Proof. intros [->|(i & Hi & Hi')]; [by left|]. right. eauto. Qed.
Lemma within_trans (fs : Fs) (p q r : path) : coherent fs → is_within fs p q = true → is_within fs q r = true → is_within fs p r = true.
Proof.
  rewrite !is_within_spec. intros Hco (n & Hn & Hpq) (m & Hm & Hqr).
  pose proof (same_dir_up fs (length q - m) _ _ Hco Hpq) as Hup. unfold up in Hup at 2. replace (length q - (length q - m))%nat with m in Hup by lia.
  pose proof (same_dir_trans fs _ _ _ Hup Hqr) as Hr. unfold up in Hr. rewrite take_take in Hr.
  eexists. split; [|exact Hr]. rewrite length_take. lia.
Qed.
Lemma within_nested (fs : Fs) (f s d : path) : coherent fs → is_within fs f s = true → is_within fs f d = true → is_within fs s d = true ∨ is_within fs d s = true.
Proof.
  assert (Hwlog : ∀ n m s d, coherent fs → (n ≤ m)%nat → (m ≤ length f)%nat → same_dir fs (take n f) s → same_dir fs (take m f) d → is_within fs d s = true).
  { clear. intros n m s d Hco Hnm Hm Hs Hd. apply is_within_spec. exists (length d - (m - n))%nat. split; [lia|].
    pose proof (same_dir_up fs (m - n) _ _ Hco Hd) as Hup. apply (same_dir_trans fs _ (up (m - n) (take m f))); [by apply same_dir_sym|].
    unfold up. rewrite take_take, length_take. by replace ((m `min` length f - (m - n)) `min` m)%nat with n by lia. }
  intros Hco (n & Hn & Hs)%is_within_spec (m & Hm & Hd)%is_within_spec. destruct (decide (n ≤ m)%nat).
  - right. by apply (Hwlog n m).
  - left. apply (Hwlog m n); [done|lia|done|done|done].
Qed.

(** ** What the policy accepts *)
Lemma find_none_offends (fs : Fs) (p frames : path) (protected : list path) :
  overlaps_protected fs p protected frames = None → ∀ d, d ∈ protected → offends fs p frames d = false.
Proof. unfold overlaps_protected. intros Hf d Hd. by eapply find_none; [|apply list_elem_of_In]. Qed.
Record accepted (fs : Fs) (settings : PathSettings) (is_admin : bool) (project_id : option Z) (others : list text) (t : text) (real frames : path)
    (protected : list path) : Prop := MkAccepted {
  ac_text : check_storage_path_text t = Ok tt;
  ac_real : realpath fs t = Ok real;
  ac_frames : realpath fs (pt_frames_root settings) = Ok frames;
  ac_protected : protected_dirs fs settings = Ok protected;
  ac_above : ∀ d, d ∈ protected → is_within fs d real = false;
  ac_below_frames : is_within fs frames real = false;
  ac_inside : ∀ d, d ∈ protected → offends fs real frames d = false ∧ offends fs (dirname real) frames d = false;
  ac_layout : layout_collision settings real frames project_id = false;
  ac_others : ∀ o, o ∈ others → same_real_path fs real o = false;
  ac_roots : is_admin = false → ∃ roots root, allowed_roots fs settings = Ok roots ∧ root ∈ roots ∧
    is_within fs real root = true ∧ is_within fs (dirname real) root = true;
}.
Lemma existsb_none {A} (f : A → bool) (l : list A) : existsb f l = false → ∀ x, x ∈ l → f x = false.
Proof. intros Hf x Hx. apply not_true_is_false. intros Ht. apply not_true_iff_false in Hf. apply Hf, existsb_exists. exists x. by rewrite <- list_elem_of_In. Qed.
Lemma validate_accepts (fs : Fs) (raw : option text) (settings : PathSettings) (is_admin : bool) (project_id : option Z) (others : list text) (real : path) :
  validate_storage_path fs raw settings is_admin project_id others = Ok (Some real) →
  ∃ t frames protected, strip_text <$> raw = Some t ∧ accepted fs settings is_admin project_id others t real frames protected.
Proof.
  unfold validate_storage_path. destruct (strip_text <$> raw) as [[|c t]|]; [done| |done]. set (tx := c :: t).
  destruct (check_storage_path_text tx) as [[]|] eqn:Hc; [|done]. cbn [mbind result_bind]. destruct (realpath fs tx) as [r|] eqn:Hr; [|done].
  destruct (realpath fs (pt_frames_root settings)) as [frames|] eqn:Hfr; [|done]. destruct (protected_dirs fs settings) as [protected|] eqn:Hp; [|done].
  cbn [mbind result_bind]. destruct (existsb _ protected) eqn:H1; [done|]. destruct (is_within fs frames r) eqn:H2; [done|].
  cbn [existsb]. destruct (bool_decide _ || _) eqn:H3; [done|]. destruct (layout_collision _ _ _ _) eqn:H4; [done|].
  destruct (existsb _ others) eqn:H5; [done|]. intros Hend. exists tx, frames, protected. split; [done|].
  apply orb_false_iff in H3 as [H3 [H3' _]%orb_false_iff]. rewrite bool_decide_eq_false, <- eq_None_not_Some in H3, H3'.
  assert (r = real ∧ (is_admin = false → ∃ roots root, allowed_roots fs settings = Ok roots ∧ root ∈ roots ∧
    is_within fs r root = true ∧ is_within fs (dirname r) root = true)) as [-> Hroots].
  { destruct is_admin; [by injection Hend as ->|]. cbn [mbind result_bind] in Hend. destruct (allowed_roots fs settings) as [roots|] eqn:Ha; [|done]. cbn [mbind result_bind] in Hend.
    destruct (existsb _ roots) eqn:He; [|done]. injection Hend as ->. split; [done|]. intros _.
    apply existsb_exists in He as (root & Hin%list_elem_of_In & [? ?]%andb_prop). eauto 10. }
  constructor; try done; [by apply existsb_none|intros d Hd|by apply existsb_none]. split; by eapply find_none_offends.
Qed.
Lemma checked_text_absolute (t : text) : check_storage_path_text t = Ok tt → isabs t = true.
Proof. unfold check_storage_path_text. repeat (destruct (existsb _ _); [done|]). destruct (_ <? _); [done|]. by destruct (isabs t). Qed.
(** What is inside an accepted directory is outside every protected one, the frames tree
    apart. *)
Lemma accepted_outside (fs : Fs) (p frames d f : path) :
  coherent fs → is_within fs d p = false → offends fs p frames d = false → is_within fs f p = true → is_within fs f d = true →
  is_within fs f frames = true ∧ is_within fs d frames = false.
Proof.
  intros Hco Habove Hoff Hfp Hfd. destruct (within_nested fs f p d Hco Hfp Hfd) as [Hpd|?]; [|congruence].
  unfold offends in Hoff. rewrite Hpd in Hoff. apply negb_false_iff in Hoff as [[_ ?%negb_true_iff]%andb_prop Hpf]%andb_prop.
  split; [by apply (within_trans fs f p)|done].
Qed.
Lemma contained_within (fs : Fs) (settings : PathSettings) (project : ProjectRef) (stored : text) (bounds : list path) (f : path) :
  contained_in fs settings project stored bounds = Ok f → ∃ bound, bound ∈ bounds ∧ is_within fs f bound = true.
Proof.
  unfold contained_in. destruct (realpath fs _) as [real|]; [|done]. destruct (existsb _ bounds) eqn:He; [|done].
  intros [= <-]. apply existsb_exists in He as (bound & Hin%list_elem_of_In & Hw). eauto.
Qed.

(** ** Ids as names *)
Lemma int_of_snoc (t : text) (c : Z) : int_of (t ++ [c]) = 10 * int_of t + (c - 48).
Proof. unfold int_of. by rewrite foldl_snoc. Qed.
Lemma digits_of_int (fuel : nat) (n : Z) : 0 ≤ n < Z.of_nat fuel → int_of (digits_of fuel n) = n.
Proof.
  revert n. induction fuel as [|fuel IH]; intros n Hn; [lia|]. cbn [digits_of]. destruct (Z.ltb_spec n 10) as [Hlt|Hge]; [cbn; lia|].
  rewrite int_of_snoc, IH by (split; [apply Z.div_pos; lia|apply Z.div_lt_upper_bound; lia]). pose proof (Z.div_mod n 10). lia.
Qed.
Lemma id_text_int (n : Z) : 0 ≤ n → int_of (id_text n) = n.
Proof. intros Hn. apply digits_of_int. lia. Qed.
Lemma digits_of_digits (fuel : nat) (n : Z) : 0 ≤ n < Z.of_nat fuel → is_digits (digits_of fuel n) = true.
Proof.
  unfold is_digits. revert n. induction fuel as [|fuel IH]; intros n Hn; [lia|]. cbn [digits_of]. destruct (Z.ltb_spec n 10) as [Hlt|Hge].
  - rewrite bool_decide_false by done. cbn. rewrite !andb_true_iff. split_and!; [lia|lia|done].
  - specialize (IH (n / 10)). rewrite andb_true_iff in IH |- *. destruct IH as [_ IH]; [split; [apply Z.div_pos; lia|apply Z.div_lt_upper_bound; lia]|].
    split; [apply negb_true_iff, bool_decide_eq_false; by destruct (digits_of fuel (n / 10))|]. rewrite forallb_app, IH. cbn.
    pose proof (Z.mod_pos_bound n 10). rewrite !andb_true_iff. split_and!; [lia|lia|done].
Qed.
Lemma id_text_digits (n : Z) : 0 ≤ n → is_digits (id_text n) = true.
Proof. intros Hn. apply digits_of_digits. lia. Qed.
Lemma digits_name_ok (t : text) : is_digits t = true → name_ok t.
Proof.
  unfold is_digits. rewrite andb_true_iff. intros [Hne%negb_true_iff%bool_decide_eq_false Hd]. rewrite forallb_forall in Hd.
  assert (Hc : ∀ c, c ∈ t → 48 ≤ c ≤ 57). { intros c Hc%list_elem_of_In%Hd. lia. }
  assert (Hdot : 46 ∉ t) by (intros Hin%Hc; lia). unfold name_ok. split_and!.
  - unfold void. apply bool_decide_eq_false. intros [->| ->]; [done|]. apply Hdot. unfold DOT. set_solver.
  - intros ->. apply Hdot. unfold DOTDOT. set_solver.
  - unfold bad_name. apply not_true_is_false. intros (c & Hin%list_elem_of_In & Hu)%existsb_exists. apply Hc in Hin. unfold unencodable in Hu. lia.
  - intros Hin%Hc. unfold SEP in Hin. lia.
Qed.

(** ** The directories of projects *)
(** no chain of links comes back to itself *)
Definition loop_free (fs : Fs) : Prop := ∀ cur names p, join_from fs cur names ≠ jr_loop p.
Lemma walk_app (fs : Fs) (resolve : gmap path (option path) → path → list text → joined) (seen : gmap path (option path)) (cur : path) (a b : list text) :
  walk fs resolve seen cur (a ++ b) =
  match walk fs resolve seen cur a with jr_ok p seen' => walk fs resolve seen' p b | jr_loop p => jr_loop (p ++ b) | r => r end.
Proof.
  revert seen cur. induction a as [|n a IH]; intros seen cur; [done|]. cbn [walk app].
  destruct (void n); [apply IH|]. case_bool_decide; [apply IH|]. destruct (bad_name n); [done|].
  destruct (fs_links fs !! (cur ++ [n])); [|apply IH]. destruct (seen !! (cur ++ [n])) as [[q|]|]; [apply IH|by rewrite app_assoc|].
  destruct (resolve _ _ _); [apply IH|by rewrite app_assoc|done|done].
Qed.
Lemma real_canonical (fs : Fs) (t : text) (p : path) : loop_free fs → isabs t = true → realpath fs t = Ok p → canonical fs p.
Proof.
  intros Hlf Ha. unfold realpath, real_from. rewrite Ha. destruct (join_from fs [] (split_sep t)) as [q seen|q| |] eqn:Hj; [|by apply Hlf in Hj|done|done].
  intros [= <-]. by eapply join_from_canonical; [apply canonical_nil|].
Qed.
Lemma realpath_under (fs : Fs) (dir name : text) (p : path) :
  loop_free fs → isabs dir = true → name_ok name → realpath fs dir = Ok p → fs_links fs !! (p ++ [name]) = None →
  realpath fs (under dir name) = Ok (p ++ [name]).
Proof.
  intros Hlf Ha (Hv & Hd & Hb & Hs) Hp Hl. assert (Hsplit : split_sep (under dir name) = split_sep dir ++ [name]).
  { unfold under. clear Ha Hp. induction dir as [|c dir IH]; cbn.
    - rewrite split_sep_free by done. done.
    - rewrite IH. destruct (split_sep dir) as [|w ws] eqn:Hw; [by apply split_sep_nonempty in Hw|]. cbn. by destruct (c =? SEP). }
  unfold realpath in *. replace (isabs (under dir name)) with (isabs dir) by (by destruct dir). rewrite Ha in *. rewrite Hsplit.
  unfold real_from, join_from in *. cbn [join_real] in *. rewrite walk_app.
  destruct (walk fs _ ∅ [] (split_sep dir)) as [q seen|q| |] eqn:Hj; [|by destruct (Hlf [] (split_sep dir) q)|done|done].
  injection Hp as ->. cbn. rewrite Hv, Hb, Hl. by rewrite bool_decide_false.
Qed.

Section directories.
Context (fs : Fs) (settings : PathSettings) (frames : path).
Context (Hloop : loop_free fs) (Habs : isabs (pt_frames_root settings) = true) (Hroot : realpath fs (pt_frames_root settings) = Ok frames)
  (Hplain : ∀ id, fs_links fs !! (frames ++ [id_text id]) = None).
Lemma default_dir_real (id : Z) : 0 ≤ id → realpath fs (default_frame_dir settings id) = Ok (frames ++ [id_text id]).
Proof using All. intros Hid. apply realpath_under; try done. by apply digits_name_ok, id_text_digits. Qed.

(** every stored path was accepted for its project, and no two are the same *)
Definition column_ok (id : Z) (v : option text) : Prop :=
  0 ≤ id ∧ ∀ s, v = Some s → ∃ real, s = path_text real ∧ canonical fs real ∧ layout_collision settings real frames (Some id) = false.
Definition table_ok (t : gmap Z (option text)) : Prop :=
  map_Forall column_ok t ∧ ∀ i j s, t !! i = Some (Some s) → t !! j = Some (Some s) → i = j.
Lemma other_paths_in (id j : Z) (c : Z) (s : text) (t : gmap Z (option text)) :
  j ≠ id → t !! j = Some (Some (c :: s)) → c :: s ∈ other_storage_paths id t.
Proof using.
  intros Hne Hj. apply list_elem_of_omap. exists (j, Some (c :: s)). split; [by apply elem_of_map_to_list|]. cbn. by rewrite bool_decide_false.
Qed.
Lemma path_text_cons (p : path) : ∃ c s, path_text p = c :: s.
Proof using. destruct p as [|n p]; cbn; by eexists _, _. Qed.
Lemma table_ok_step (t t' : gmap Z (option text)) : table_ok t → storage_step fs settings t t' → table_ok t'.
Proof using All.
  intros [Hcol Huniq] Hstep. destruct Hstep as [id t Hid Hn|is_admin id raw t t' Hup|id t].
  - split; [apply map_Forall_insert_2; [by split|done]|]. intros i j s. rewrite !lookup_insert_Some. intros [[_ ?]|[_ Hi]] [[_ ?]|[_ Hj]]; try done. by eapply Huniq.
  - unfold update_storage_path in Hup. destruct (t !! id) as [stored|] eqn:Hid; [|done]. destruct (storage_path_unchanged raw stored); [by injection Hup as <-|].
    unfold checked_storage_path in Hup. destruct (validate_storage_path _ _ _ _ _ _) as [v|e] eqn:Hv; [|by destruct e]. cbn in Hup. injection Hup as <-.
    destruct (Hcol id _ Hid) as [Hpos _]. destruct v as [real|]; cbn.
    + apply validate_accepts in Hv as (tx & fr & pr & Hraw & Hac). assert (fr = frames) as -> by (pose proof (ac_frames _ _ _ _ _ _ _ _ _ Hac); congruence).
      assert (Hcan : canonical fs real).
      { apply (real_canonical fs tx); [done| |apply (ac_real _ _ _ _ _ _ _ _ _ Hac)]. apply checked_text_absolute, (ac_text _ _ _ _ _ _ _ _ _ Hac). }
      assert (Hnew : ∀ j s, j ≠ id → t !! j = Some (Some s) → s ≠ path_text real).
      { intros j s Hne Hj ->. destruct (path_text_cons real) as (c & s & Heq). rewrite Heq in Hj.
        pose proof (ac_others _ _ _ _ _ _ _ _ _ Hac _ (other_paths_in id j c s t Hne Hj)) as Hs. unfold same_real_path in Hs.
        rewrite <- Heq, realpath_canonical in Hs by done. by rewrite bool_decide_eq_false in Hs. }
      split; [apply map_Forall_insert_2; [split; [done|intros s [= <-]; exists real; by split_and!; [..|apply (ac_layout _ _ _ _ _ _ _ _ _ Hac)]]|done]|].
      intros i j s. rewrite !lookup_insert_Some. intros [[Hi1 Hi]|[Hi1 Hi]] [[Hj1 Hj]|[Hj1 Hj]]; [congruence| | |by eapply Huniq].
      * injection Hi as <-. by destruct (Hnew j (path_text real)).
      * injection Hj as <-. by destruct (Hnew i (path_text real)).
    + split; [apply map_Forall_insert_2; [by split|done]|]. intros i j s. rewrite !lookup_insert_Some.
      intros [[_ ?]|[_ Hi]] [[_ ?]|[_ Hj]]; try done. by eapply Huniq.
  - split; [by apply map_Forall_delete|]. intros i j s [_ Hi]%lookup_delete_Some [_ Hj]%lookup_delete_Some. by eapply Huniq.
Qed.
Lemma frame_dir_real (id : Z) (v : option text) :
  column_ok id v → ∃ p, realpath fs (frame_dir settings (MkProjectRef id v)) = Ok p ∧
    match v with Some s => s = path_text p ∧ layout_collision settings p frames (Some id) = false | None => p = frames ++ [id_text id] end.
Proof using All.
  intros [Hpos Hv]. destruct v as [s|]; [|eexists; split; [by apply default_dir_real|done]].
  destruct (Hv s eq_refl) as (real & -> & Hcan & Hl). exists real. split; [|done].
  unfold frame_dir. cbn. destruct (path_text_cons real) as (c & s & Heq). rewrite Heq, <- Heq. by apply realpath_canonical.
Qed.
Lemma custom_not_default (i j : Z) (p : path) : 0 ≤ j → i ≠ j → layout_collision settings p frames (Some i) = false → p ≠ frames ++ [id_text j].
Proof using.
  intros Hj Hne Hl ->. unfold layout_collision, dirname, basename in Hl. rewrite removelast_last, last_last, id_text_digits, id_text_int in Hl by done.
  apply orb_false_iff in Hl as [_ Hl]. rewrite bool_decide_true in Hl by done. cbn in Hl. lia.
Qed.
End directories.

(** ** Theorems *)
(** C26: of a project whose storage path the policy accepted, no stored value names a file
    in a protected directory (the data directory with the database, the keys, tokens,
    certificates, reports and thumbnails): what resolves inside one is inside the frames
    tree, or inside the project's default directory.  Directories may have several names
    (links, names that differ by case), but each has one parent ([coherent]): nothing is
    bind-mounted or hard-linked to a second place.  With the data directory mounted below
    an accepted path the claim fails ([mount_below_accepted_path]). *)
Theorem frames_stay_out_of_protected (fs : Fs) (settings : PathSettings) (raw : option text) (is_admin : bool) (project_id : option Z)
    (others : list text) (project : ProjectRef) (value : text) (real frames f d : path) (protected : list path) :
  coherent fs → validate_storage_path fs raw settings is_admin project_id others = Ok (Some real) → canonical fs real →
  pf_storage_path project = Some (path_text real) → resolve_contained_frame_path fs settings project value = Ok f →
  realpath fs (pt_frames_root settings) = Ok frames → protected_dirs fs settings = Ok protected → d ∈ protected → is_within fs f d = true →
  (is_within fs f frames = true ∧ is_within fs d frames = false) ∨
  ∃ dflt, realpath fs (default_frame_dir settings (pf_id project)) = Ok dflt ∧ is_within fs f dflt = true.
Proof.
  intros Hco Hv Hcan Hst Hf Hfr Hpr Hd Hfd. apply validate_accepts in Hv as (t & fr & pr & _ & Hac).
  assert (fr = frames) as -> by (pose proof (ac_frames _ _ _ _ _ _ _ _ _ Hac); congruence).
  assert (pr = protected) as -> by (pose proof (ac_protected _ _ _ _ _ _ _ _ _ Hac); congruence).
  unfold resolve_contained_frame_path, frame_boundaries in Hf.
  assert (Hdir : realpath fs (frame_dir settings project) = Ok real).
  { unfold frame_dir. rewrite Hst. destruct (path_text_cons real) as (c & s & Heq). rewrite Heq, <- Heq. by apply realpath_canonical. }
  rewrite Hdir in Hf. destruct (realpath fs (default_frame_dir settings (pf_id project))) as [dflt|] eqn:Hdf; [|done].
  cbn [mbind result_bind] in Hf. apply contained_within in Hf as (bound & Hb & Hfb).
  assert (bound = real ∨ bound = dflt) as [->| ->] by (case_bool_decide; set_solver); [left|right; eauto].
  destruct (ac_inside _ _ _ _ _ _ _ _ _ Hac d Hd) as [Hoff _].
  by apply (accepted_outside fs real frames d f Hco (ac_above _ _ _ _ _ _ _ _ _ Hac d Hd) Hoff).
Qed.

(** C27: the frame directories of two projects, default directories included, never
    resolve to the same path, whatever storage paths are set, cleared and refused while
    projects come and go.  The edits come one after the other, each seeing what the one
    before it wrote; the links of the file system stay as they are, do not loop, and none
    stands at a numbered directory of the frames root.  Resolved paths are compared as the
    policy compares them, by name: two names of one directory
    ([alias_of_default_directory_accepted]) and edits that overlap
    (ProjectsFacts.[overlapping_edits_share_a_path]) are beyond it. *)
Theorem frame_directories_resolve_apart (fs : Fs) (settings : PathSettings) (frames p q : path) (t : gmap Z (option text)) (i j : Z) (v v' : option text) :
  loop_free fs → isabs (pt_frames_root settings) = true → realpath fs (pt_frames_root settings) = Ok frames →
  (∀ id, fs_links fs !! (frames ++ [id_text id]) = None) → rtc (storage_step fs settings) ∅ t →
  t !! i = Some v → t !! j = Some v' → i ≠ j →
  realpath fs (frame_dir settings (MkProjectRef i v)) = Ok p → realpath fs (frame_dir settings (MkProjectRef j v')) = Ok q → p ≠ q.
Proof.
  intros Hloop Habs Hroot Hplain Hrun Hi Hj Hne Hp Hq. assert (Hok : table_ok fs settings frames t).
  { assert (Hok : table_ok fs settings frames ∅) by (split; [apply map_Forall_empty|done]). clear -Hloop Habs Hroot Hplain Hrun Hok.
    induction Hrun as [|x y z Hstep _ IH]; [done|]. by apply IH; eapply table_ok_step. }
  destruct Hok as [Hcol Huniq]. pose proof (Hcol i v Hi) as Hci. pose proof (Hcol j v' Hj) as Hcj.
  destruct (frame_dir_real fs settings frames Hloop Habs Hroot Hplain i v Hci) as (p' & Hp' & Hpv).
  destruct (frame_dir_real fs settings frames Hloop Habs Hroot Hplain j v' Hcj) as (q' & Hq' & Hqv).
  rewrite Hp in Hp'. rewrite Hq in Hq'. injection Hp' as <-. injection Hq' as <-. intros <-.
  destruct Hci as [Hi0 _], Hcj as [Hj0 _]. destruct v as [s|], v' as [s'|].
  - destruct Hpv as [-> _], Hqv as [-> _]. apply Hne. by eapply Huniq.
  - destruct Hpv as [_ Hl]. by apply (custom_not_default settings frames i j p Hj0 Hne Hl).
  - destruct Hqv as [_ Hl]. by apply (custom_not_default settings frames j i p Hi0 (not_eq_sym Hne) Hl).
  - rewrite Hpv in Hqv. apply app_inj_tail in Hqv as [_ Heq]. apply Hne. by rewrite <- (id_text_int i), <- (id_text_int j), Heq.
Qed.

(** Pruning the thumbnail cache removes nothing outside it: a whole directory only if
    it is strictly inside the cache and belongs to no live project, and otherwise only
    files in the making, in the cache directory of a project. *)
Theorem prune_stays_in_cache (fs : Fs) (dirs : listing) (settings : PathSettings) (live : gset Z) (now : Z) (op : disk_op) :
  op ∈ prune_thumbnail_cache fs dirs settings live now →
  ∃ root id dir, realpath fs (thumbnail_cache_root settings) = Ok root ∧ realpath fs (thumbnail_cache_dir settings id) = Ok dir ∧
    dir ≠ root ∧ is_within fs dir root = true ∧
    ((op = op_rmtree dir ∧ id ∉ live) ∨
     (id ∈ live ∧ ∃ name, op = op_unlink (dir ++ [name]) ∧ text_contains THUMBNAIL_TEMP_MARKER name = true)).
Proof.
  unfold prune_thumbnail_cache. destruct (dirs _) as [entries|]; [|by intros ?%elem_of_nil].
  intros (id & _ & Hop%list_elem_of_In)%list_elem_of_In%in_flat_map. unfold prune_one, contained_thumbnail_dir in Hop.
  destruct (realpath fs (thumbnail_cache_root settings)) as [root|] eqn:Hr; [|by apply elem_of_nil in Hop].
  destruct (realpath fs (thumbnail_cache_dir settings id)) as [dir|] eqn:Hd; [|by apply elem_of_nil in Hop]. cbn [mbind result_bind] in Hop.
  destruct (bool_decide (dir = root) || negb (is_within fs dir root)) eqn:Hc; [by apply elem_of_nil in Hop|].
  apply orb_false_iff in Hc as [Hne%bool_decide_eq_false Hw%negb_false_iff]. exists root, id, dir. split_and!; [done..|].
  case_bool_decide as Hl; [right; split; [done|]|left].
  - unfold stale_temp_files in Hop. destruct (dirs dir) as [es|]; [|by apply elem_of_nil in Hop].
    apply list_elem_of_fmap in Hop as (e & -> & [[Hm _] _]%list_elem_of_filter). eauto.
  - unfold remove_tree in Hop. case_bool_decide; [by apply elem_of_nil in Hop|]. by apply list_elem_of_singleton in Hop as ->.
Qed.

(** The report of orphans lists exactly the regular files, old enough, that lie in the
    frame directory of a project and that no frame of a project with that directory
    refers to. *)
Theorem orphans_exact (settings : PathSettings) (dirs : listing) (projects : list ProjectRef) (rows : list (Z * option text)) (min_age now : Z) (p : path) :
  (∃ o, o ∈ find_orphan_files settings dirs projects rows None min_age now ∧ or_path o = p) ↔
  ∃ project entries e, project ∈ projects ∧ dirs (directory_of settings project) = Some entries ∧ e ∈ entries ∧ en_kind e = ek_file ∧
    en_mtime e ≤ now - min_age ∧ p = directory_of settings project ++ [en_name e] ∧
    ∀ other stored, other ∈ projects → directory_of settings other = directory_of settings project → stored ≠ [] →
      (pf_id other, Some stored) ∈ rows → normpath (split_sep (resolve_absolute settings (pf_id other) stored)) ≠ p.
Proof.
  unfold find_orphan_files. set (scan := orphans_in _ _ _ _ _ _).
  assert (Hknown : ∀ d q, q ∈ known_paths settings rows (members_of settings projects d) ↔ ∃ other stored, other ∈ projects ∧
    directory_of settings other = d ∧ stored ≠ [] ∧ (pf_id other, Some stored) ∈ rows ∧ normpath (split_sep (resolve_absolute settings (pf_id other) stored)) = q).
  { intros d q. unfold known_paths. rewrite list_elem_of_omap. split.
    - intros ([id [[|c s]|]] & Hin & Hx); try done. cbn [fst snd] in Hx. case_bool_decide as Hm; [|done]. injection Hx as <-.
      apply list_elem_of_fmap in Hm as (other & -> & [Hd Ho]%list_elem_of_filter). by exists other, (c :: s).
    - intros (other & stored & Ho & Hd & Hs & Hin & <-). destruct stored as [|c s]; [done|]. exists (pf_id other, Some (c :: s)). split; [done|].
      cbn [fst snd]. rewrite bool_decide_true; [done|]. apply list_elem_of_fmap. exists other. split; [done|]. by apply list_elem_of_filter. }
  split.
  - intros (o & (d & Hd%list_elem_of_In & Ho%list_elem_of_In)%list_elem_of_In%in_flat_map & <-).
    rewrite merge_sort_Permutation in Hd. apply list_elem_of_filter in Hd as [_ (project & -> & Hproj)%elem_of_remove_dups%list_elem_of_fmap].
    unfold scan, orphans_in, scan_directory in Ho. destruct (dirs _) as [entries|] eqn:Hl; [|by apply elem_of_nil in Ho].
    apply list_elem_of_fmap in Ho as (e & -> & [Hor He]%list_elem_of_filter). rewrite merge_sort_Permutation in He.
    unfold is_orphan in Hor. apply andb_prop in Hor as [[Hk%bool_decide_eq_true Hn%negb_true_iff%bool_decide_eq_false]%andb_prop Ht].
    exists project, entries, e. split_and!; try done; [lia|]. intros other stored Ho Hod Hs Hin Heq. apply Hn, Hknown. by exists other, stored.
  - intros (project & entries & e & Hproj & Hl & He & Hk & Ht & -> & Hno).
    exists (MkOrphan (List.hd 0 (members_of settings projects (directory_of settings project))) (directory_of settings project ++ [en_name e]) (en_size e)
              (ends_with TEMP_SUFFIX (en_name e))). split; [|done].
    apply list_elem_of_In, in_flat_map. exists (directory_of settings project). rewrite <- !list_elem_of_In. split.
    + rewrite merge_sort_Permutation. apply list_elem_of_filter. split; [done|]. apply elem_of_remove_dups, list_elem_of_fmap. by exists project.
    + unfold scan, orphans_in, scan_directory. rewrite Hl. apply list_elem_of_fmap. exists e. split; [done|]. apply list_elem_of_filter.
      rewrite merge_sort_Permutation. split; [|done]. unfold is_orphan. rewrite bool_decide_true by done. rewrite bool_decide_false; [cbn; lia|].
      intros (other & stored & Ho & Hd & Hs & Hin & Heq)%Hknown. by apply (Hno other stored).
Qed.

(** ** Examples *)
Definition demo_path_settings : PathSettings :=
  MkPathSettings (ascii_text "/data") (ascii_text "/data/frames") [ascii_text "/data/key"; ascii_text "/etc/tlm/config.toml"] None (ascii_text "renders").
(** a file system without links, in which every name is a directory of its own *)
Definition demo_fs : Fs := MkFs ∅ (λ p, Some (Z.pos (encode p), 0)) [].
Lemma demo_fs_coherent : coherent demo_fs.
Proof. intros p q i [= <-] [= Heq]. apply (inj encode) in Heq as ->. split; [done|by eexists]. Qed.
Lemma no_links_loop_free (fs : Fs) : fs_links fs = ∅ → loop_free fs.
Proof.
  intros He cur names p. unfold join_from. cbn [join_real]. generalize (join_real fs (size (fs_links fs))). intros resolve.
  generalize (∅ : gmap path (option path)). revert cur.
  induction names as [|n names IH]; intros cur seen; cbn; [done|]. destruct (void n); [apply IH|]. case_bool_decide; [apply IH|].
  destruct (bad_name n); [done|]. rewrite He, lookup_empty. apply IH.
Qed.
Definition demo_real : path := [ascii_text "data"; ascii_text "frames"; ascii_text "site"; ascii_text "a"].
Definition demo_frame : path := demo_real ++ [ascii_text "x.jpg"].
Definition demo_frames : path := [ascii_text "data"; ascii_text "frames"].
Definition demo_protected : list path :=
  [[ascii_text "data"]; [ascii_text "data"; ascii_text "thumbnails"]; [ascii_text "data"; ascii_text "reports"]; [ascii_text "etc"; ascii_text "tlm"]].
Lemma frames_stay_out_of_protected_witness :
  (is_within demo_fs demo_frame demo_frames = true ∧ is_within demo_fs [ascii_text "data"] demo_frames = false) ∨
  ∃ dflt, realpath demo_fs (default_frame_dir demo_path_settings 7) = Ok dflt ∧ is_within demo_fs demo_frame dflt = true.
Proof.
  apply (frames_stay_out_of_protected demo_fs demo_path_settings (Some (path_text demo_real)) false (Some 7) []
           (MkProjectRef 7 (Some (path_text demo_real))) (path_text demo_frame) demo_real demo_frames demo_frame [ascii_text "data"] demo_protected).
  - exact demo_fs_coherent.
  - vm_compute. reflexivity.
  - split; [|intros q _ _; apply lookup_empty]. repeat (apply Forall_cons; split; [split_and!; [reflexivity|discriminate|reflexivity|]|]); [..|by apply Forall_nil];
      by apply (bool_decide_unpack _); vm_compute.
  - reflexivity.
  - vm_compute. reflexivity.
  - vm_compute. reflexivity.
  - vm_compute. reflexivity.
  - left.
  - vm_compute. reflexivity.
Defined.
Definition demo_column : gmap Z (option text) := <[2 := Some (ascii_text "/media/b")]> (<[2 := None]> (<[1 := None]> ∅)).
Lemma frame_directories_resolve_apart_witness : [ascii_text "data"; ascii_text "frames"; ascii_text "1"] ≠ [ascii_text "media"; ascii_text "b"].
Proof.
  apply (frame_directories_resolve_apart demo_fs demo_path_settings demo_frames _ _ demo_column 1 2 None (Some (ascii_text "/media/b")));
    [by apply no_links_loop_free|reflexivity|vm_compute; reflexivity|intros id; apply lookup_empty| |reflexivity|reflexivity|discriminate|
     vm_compute; reflexivity|vm_compute; reflexivity].
  eapply rtc_l; [apply (sp_create _ _ 1); [lia|reflexivity]|]. eapply rtc_l; [apply (sp_create _ _ 2); [lia|reflexivity]|].
  eapply rtc_l; [|done]. apply (sp_update _ _ true 2 (Some (ascii_text "/media/b"))). vm_compute. reflexivity.
Defined.
Definition demo_listing : listing := λ p,
  if bool_decide (p = [ascii_text "data"; ascii_text "thumbnails"]) then Some [MkDirEntry (ascii_text "3") ek_dir 0 0] else None.
Lemma prune_stays_in_cache_witness :
  ∃ root id dir, realpath demo_fs (thumbnail_cache_root demo_path_settings) = Ok root ∧ realpath demo_fs (thumbnail_cache_dir demo_path_settings id) = Ok dir ∧
    dir ≠ root ∧ is_within demo_fs dir root = true ∧
    ((op_rmtree [ascii_text "data"; ascii_text "thumbnails"; ascii_text "3"] = op_rmtree dir ∧ id ∉ (∅ : gset Z)) ∨
     (id ∈ (∅ : gset Z) ∧ ∃ name, op_rmtree [ascii_text "data"; ascii_text "thumbnails"; ascii_text "3"] = op_unlink (dir ++ [name]) ∧
        text_contains THUMBNAIL_TEMP_MARKER name = true)).
Proof. apply (prune_stays_in_cache demo_fs demo_listing demo_path_settings ∅ 0). vm_compute. left. Defined.

(** A file whose row belongs to a project that has moved on to another directory is
    reported as one without a row. *)
Definition demo_dir_p : listing := λ p, if bool_decide (p = [ascii_text "p"]) then Some [MkDirEntry (ascii_text "a.jpg") ek_file 0 9] else None.
Lemma moved_project_file_reported :
  (2, Some (ascii_text "/p/a.jpg")) ∈ [(2, Some (ascii_text "/p/a.jpg"))] ∧
  find_orphan_files demo_path_settings demo_dir_p
    [MkProjectRef 1 (Some (ascii_text "/p")); MkProjectRef 2 (Some (ascii_text "/q"))] [(2, Some (ascii_text "/p/a.jpg"))] None 60 100 =
    [MkOrphan 1 [ascii_text "p"; ascii_text "a.jpg"] 9 false].
Proof. split; [left|vm_compute; reflexivity]. Qed.

(** Where names differ only by case a project may be given the default directory of
    another one: the collision is looked for by name, not by identity. *)
Definition lower_point (c : Z) : Z := if (65 <=? c) && (c <=? 90) then c + 32 else c.
Definition caseless_fs : Fs := MkFs ∅ (λ p, Some (Z.pos (encode (map (map lower_point) p)), 0)) [].
Lemma alias_of_default_directory_accepted :
  validate_storage_path caseless_fs (Some (ascii_text "/DATA/frames/5")) demo_path_settings false (Some 7) [] =
    Ok (Some [ascii_text "DATA"; ascii_text "frames"; ascii_text "5"]) ∧
  realpath caseless_fs (default_frame_dir demo_path_settings 5) = Ok [ascii_text "data"; ascii_text "frames"; ascii_text "5"] ∧
  same_dir caseless_fs [ascii_text "DATA"; ascii_text "frames"; ascii_text "5"] [ascii_text "data"; ascii_text "frames"; ascii_text "5"].
Proof. split_and!; [vm_compute; reflexivity|vm_compute; reflexivity|]. right. eexists. by split. Qed.

(** A bind mount gives the data directory a second name below a path that is accepted;
    a stored value may then name the key in it, which lies inside the protected
    directory by identity. *)
Definition mount_point : path := [ascii_text "media"; ascii_text "a"; ascii_text "m"].
Definition unmounted (p : path) : path :=
  if bool_decide (mount_point `prefix_of` p) then ascii_text "data" :: drop 3 p else p.
Definition mounted_fs : Fs := MkFs ∅ (λ p, Some (Z.pos (encode (unmounted p)), 0)) [].
Lemma mount_below_accepted_path :
  let project := MkProjectRef 7 (Some (ascii_text "/media/a")) in
  validate_storage_path mounted_fs (Some (ascii_text "/media/a")) demo_path_settings true (Some 7) [] = Ok (Some (take 2 mount_point)) ∧
  resolve_contained_frame_path mounted_fs demo_path_settings project (ascii_text "/media/a/m/key") = Ok (mount_point ++ [ascii_text "key"]) ∧
  is_within mounted_fs (mount_point ++ [ascii_text "key"]) [ascii_text "data"] = true ∧
  is_within mounted_fs (mount_point ++ [ascii_text "key"]) demo_frames = false.
Proof. by split_and!; vm_compute. Qed.
