(* ===== verification/RequestOrigin.v ===== *)
(** * Where a request comes from, and where it may be sent

    security/proxy_networks.py, the effective client, the [Host] header and the HTTPS
    redirect of web/middleware.py, the peer policy and the bearer token of
    security/token.py, and web/safe_redirect.py.

    A header value is latin-1 text, one character a byte; names are in lower case, as
    ASGI has them.  How Starlette answers [headers.get] when a name is repeated is an
    interface, [HeaderLookup]; what it makes of [request.url] is part of a [Request]. *)

From Stdlib Require Import Ascii.
From Stdlib Require Import DecimalString.
From S2P Require Import Prelude PyVal Bytes Multipart IpAddress.
From stdpp Require Import options.
Local Open Scope Z_scope.

Abbreviation header_list := (list (bytes * bytes)).

(** ** Requests *)
Record Request := MkRequest {
  rq_method : bytes;
  (** [scope["path"]], in UTF-8 *)
  rq_path : bytes;
  rq_raw_path : option bytes;
  rq_query : bytes;
  (** the TCP peer *)
  rq_client : option bytes;
  rq_headers : header_list;
  (** [request.url]: its scheme and path, and its host name if it has one and parses *)
  rq_url_scheme : bytes;
  rq_url_path : bytes;
  rq_url_hostname : option bytes;
}.

(** [headers.getlist(name)]: every value, in order. *)
Definition getlist (name : bytes) (headers : header_list) : list bytes :=
  omap (λ h, if decide (h.1 = name) then Some h.2 else None) headers.
(** [headers.get(name)] answers one of the values, and [None] only without one. *)
Class HeaderLookup := header_get : bytes → header_list → option bytes.
Class HeaderLaws `{HeaderLookup} := header_get_spec : ∀ name headers,
  match header_get name headers with Some value => value ∈ getlist name headers | None => getlist name headers = [] end.
(** The first value. *)
Definition first_value : HeaderLookup := λ name headers, head (getlist name headers).
#[export] Instance first_value_laws : @HeaderLaws first_value.
Proof.
  intros name headers. unfold header_get, first_value. destruct (getlist name headers) as [|v l]; cbn; [done|by left].
Qed.

(** ** security/proxy_networks.py *)
Definition fold_mapped (i : ip) : ip :=
  match i with V6 n _ => match ipv4_mapped n with Some m => V4 m | None => i end | V4 _ => i end.
(** [parse_networks]: what is no network is dropped *)
Definition parse_networks (entries : list bytes) : list network := omap ip_network entries.
(** [parse_address] *)
Definition parse_address (value : option bytes) : option ip :=
  match value with
  | None | Some [] => None
  | Some text => fold_mapped <$> ip_address text
  end.
(** [in_networks] *)
Definition in_networks (address : ip) (nets : list network) : bool :=
  existsb (λ n, Bool.eqb (is_v6 address) (nw_v6 n) && in_network address n) nets.

Definition HTTPS : bytes := b "https".
Definition HTTP : bytes := b "http".
Definition strip_value (s : bytes) : bytes := strip_by latin1_space s.
Definition first_item (s : bytes) : bytes := default [] (head (split_at_char "," s)).

Section origin.
Context `{HeaderLookup}.
Definition header (name : string) (r : Request) : option bytes := header_get (b name) (rq_headers r).

(** ** web/middleware.py: the effective client *)
(** [_forwarded_scheme] *)
Definition says_https (value : bytes) : bytes :=
  if decide (lower_text (strip_value (first_item value)) = HTTPS) then HTTPS else HTTP.
Definition forwarded_scheme (r : Request) : option bytes :=
  match header "x-forwarded-proto" r with
  | None | Some [] => None
  | Some value => Some (says_https value)
  end.
(** The loop of [_leftmost_untrusted_hop], on the hops in reverse *)
Fixpoint walk_hops (trusted : list network) (hops : list bytes) : option bytes :=
  match hops with
  | [] => None
  | hop :: hops =>
      match parse_address (Some (strip_value hop)) with
      | None => walk_hops trusted hops
      | Some address => if in_networks address trusted then walk_hops trusted hops else Some (ip_text address)
      end
  end.
Definition leftmost_untrusted_hop (trusted : list network) (r : Request) : option bytes :=
  match header "x-forwarded-for" r with
  | None | Some [] => None
  | Some value => walk_hops trusted (reverse (split_at_char "," value))
  end.
Definition or_text (value : option bytes) (other : bytes) : bytes :=
  match value with None | Some [] => other | Some text => text end.
(** [resolve_effective_client]: the client's address and the scheme *)
Definition resolve_effective_client (trusted_proxies : list bytes) (r : Request) : bytes * bytes :=
  let peer_ip := or_text (rq_client r) (b "unknown") in
  let peer_scheme := if decide (rq_url_scheme r = HTTPS) then HTTPS else HTTP in
  let trusted := parse_networks trusted_proxies in
  match parse_address (rq_client r) with
  | None => (peer_ip, peer_scheme)
  | Some peer =>
      if negb (in_networks peer trusted) then (peer_ip, peer_scheme)
      else (or_text (leftmost_untrusted_hop trusted r) peer_ip, or_text (forwarded_scheme r) peer_scheme)
  end.

(** ** The [Host] header *)
(** [_is_port_suffix] *)
Definition is_digit (c : ascii) : bool := (48 <=? char_code c) && (char_code c <=? 57).
Definition is_port_suffix (value : bytes) : bool :=
  match value with
  | c :: digits => Ascii.eqb c ":" && (0 <? len digits) && (len digits <=? 5) && forallb is_digit digits
  | [] => false
  end.
(** [HOST_NAME_PATTERN.fullmatch] *)
Definition is_label_char (c : ascii) : bool :=
  let n := char_code c in is_digit c || ((97 <=? n) && (n <=? 122)) || Ascii.eqb c "_" || Ascii.eqb c "-".
Definition is_host_name (name : bytes) : bool :=
  forallb (λ label, negb (bool_decide (label = [])) && forallb is_label_char label) (split_at_char "." name).
Definition drop_dot (s : bytes) : bytes := match reverse s with c :: s' => if Ascii.eqb c "." then reverse s' else s | [] => s end.
(** [_normalise_host] *)
Definition normalise_host (host : bytes) : bytes :=
  let host := drop_dot (lower_text host) in
  match ip_address host with Some i => ip_text i | None => host end.
(** [_parse_host_header] *)
Definition parse_host_header (raw : bytes) : option bytes :=
  let value := lower_text raw in
  match value with
  | c :: tail =>
      if Ascii.eqb c "[" then
        match partition_at "]" tail with
        | (literal, found, rest) =>
            if negb found || (negb (bool_decide (rest = [])) && negb (is_port_suffix rest)) then None
            else ip_text <$> parse_v6 literal
        end
      else
        match partition_at ":" value with
        | (name, found, port) =>
            if found && negb (is_port_suffix (":"%char :: port)) then None
            else let name := drop_dot name in if is_host_name name then Some (normalise_host name) else None
        end
  | [] =>
      (* the pattern refuses the empty name *)
      None
  end.
(** [request_host] *)
Definition request_host (r : Request) : option bytes :=
  match header "host" r with
  | None | Some [] => None
  | Some raw =>
      match parse_host_header raw with
      | None => None
      | Some host =>
          match rq_url_hostname r with
          | None => None
          | Some url_host => if decide (normalise_host url_host = host) then Some host else None
          end
      end
  end.
(** [host_allowed] *)
Definition host_allowed (host : bytes) (allowed : list bytes) : bool :=
  bool_decide (host ∈ allowed) ||
  existsb (λ entry, match entry with
                    | c1 :: ((c2 :: _) as suffix) => Ascii.eqb c1 "*" && Ascii.eqb c2 "." && bool_decide (suffix `suffix_of` host)
                    | _ => false
                    end) allowed.
Definition ALWAYS_ALLOWED_HOSTS : list bytes := b <$> ["127.0.0.1"; "localhost"; "::1"]%string.

(** ** The HTTPS redirect *)
Definition decimal (n : Z) : bytes := b (NilZero.string_of_int (Z.to_int n)).
(** [_https_url] *)
Definition redirect_netloc (r : Request) (https_port : Z) : bytes :=
  let host := default (b "localhost") (request_host r) in
  let host := if bool_decide (":"%char ∈ host) then b "[" ++ host ++ b "]" else host in
  if https_port =? 443 then host else host ++ b ":" ++ decimal https_port.
Definition redirect_path (r : Request) : bytes :=
  let raw_path := or_text (rq_raw_path r) (rq_path r) in
  match raw_path with c :: _ => if Ascii.eqb c "/" then raw_path else b "/" | [] => b "/" end.
Definition https_url (r : Request) (https_port : Z) : bytes :=
  b "https://" ++ redirect_netloc r https_port ++ redirect_path r ++
  (if decide (rq_query r = []) then [] else b "?" ++ rq_query r).

(** ** security/token.py: the peer policy *)
(** [_forwarded_client] on the hops in reverse *)
Fixpoint walk_clients (trusted : list network) (hops : list bytes) : option ip :=
  match hops with
  | [] => None
  | hop :: hops =>
      match parse_address (Some (strip_value hop)) with
      | None => None
      | Some address => if in_networks address trusted then walk_clients trusted hops else Some address
      end
  end.
Definition forwarded_hops (r : Request) : list bytes := getlist (b "x-forwarded-for") (rq_headers r) ≫= split_at_char ",".
Definition forwarded_client (trusted : list network) (r : Request) : option ip :=
  walk_clients trusted (reverse (forwarded_hops r)).
(** [_forwarded_proto] *)
Definition forwarded_proto (r : Request) : bytes :=
  match getlist (b "x-forwarded-proto") (rq_headers r) with
  | [value] => says_https value
  | _ => HTTP
  end.
Definition FORWARDED_HEADERS : list string := ["x-forwarded-for"; "x-forwarded-proto"; "forwarded"]%string.
Definition is_forwarded (r : Request) : bool :=
  existsb (λ name, negb (bool_decide (getlist (b name) (rq_headers r) = []))) FORWARDED_HEADERS.
(** [peer_allowed] *)
Definition peer_allowed (allowed_clients trusted_proxies : list bytes) (require_https : bool) (r : Request) : bool :=
  match parse_address (rq_client r) with
  | None => false
  | Some peer =>
      let allowed := parse_networks allowed_clients in
      let trusted := parse_networks trusted_proxies in
      if is_forwarded r && in_networks peer trusted then
        match forwarded_client trusted r with
        | None => false
        | Some client =>
            if is_loopback client && negb (is_loopback peer) then false
            else in_networks client allowed && (bool_decide (forwarded_proto r = HTTPS) || negb require_https)
        end
      else if is_forwarded r && is_loopback peer then false
      else if negb (in_networks peer allowed) then false
      else if is_loopback peer || negb require_https then true
      else bool_decide (rq_url_scheme r = HTTPS)
  end.

(** ** The bearer token *)
(** [verify_token] *)
Definition verify_token (received expected : bytes) : bool :=
  if decide (expected = []) then false else bool_decide (received = expected).
(** [_extract_bearer] *)
Definition BEARER_PREFIX : bytes := b "Bearer ".
Definition extract_bearer (r : Request) : option bytes :=
  match header "authorization" r with
  | None => None
  | Some value => if decide (BEARER_PREFIX `prefix_of` value) then Some (strip_value (drop (length BEARER_PREFIX) value)) else None
  end.
(** [enforce_token_peer], [require_local_token]; the token file answers the token or 503 *)
Definition enforce_token_peer (allowed_clients trusted_proxies : list bytes) (r : Request) : result () :=
  if peer_allowed allowed_clients trusted_proxies true r then Ok () else Raise (HTTPException 403).
Definition require_local_token (allowed_clients trusted_proxies : list bytes) (token_file : result bytes) (r : Request) : result () :=
  _ ← enforce_token_peer allowed_clients trusted_proxies r;
  expected ← token_file;
  match extract_bearer r with
  | None => Raise (HTTPException 401)
  | Some received => if verify_token received expected then Ok () else Raise (HTTPException 401)
  end.
End origin.

(** ** web/safe_redirect.py *)
Definition MAX_PATH_LENGTH : Z := 2048.
Definition NON_NAVIGABLE_PREFIXES : list bytes := b <$> ["/partials/"; "/alerts/"]%string.
(** [_plain_ascii] *)
Definition path_char (c : ascii) : bool := (32 <? char_code c) && (char_code c <? 127) && negb (Ascii.eqb c "092").
Definition plain_ascii (value : bytes) : bool := forallb path_char value.
(** The path of [urlsplit] for a value with one leading slash: up to the query or fragment *)
Fixpoint url_path_of (value : bytes) : bytes :=
  match value with
  | [] => []
  | c :: value => if Ascii.eqb c "?" || Ascii.eqb c "#" then [] else c :: url_path_of value
  end.
(** [urllib.parse.unquote_to_bytes]: a percent sign with two hexadecimal digits *)
Fixpoint unquote_bytes (s : bytes) : bytes :=
  match s with
  | [] => []
  | c :: rest =>
      if Ascii.eqb c "%" then
        match rest with
        | h :: ((l :: rest'') as rest') =>
            match hex_value h, hex_value l with
            | Some x, Some y => ascii_of_nat (Z.to_nat (16 * x + y)) :: unquote_bytes rest''
            | _, _ => c :: unquote_bytes rest
            end
        | _ => c :: unquote_bytes rest
        end
      else c :: unquote_bytes rest
  end.
(** The decoded path, as code points *)
Definition unquoted (path : bytes) : text := utf8_decode (unquote_bytes path).
Fixpoint segments (t : text) : list text :=
  match t with
  | [] => [[]]
  | c :: t => if c =? 47 then [] :: segments t else match segments t with s :: l => (c :: s) :: l | [] => [[c]] end
  end.
Definition points (s : bytes) : text := char_code <$> s.
Definition DOT_SEGMENTS : list text := [[46]; [46; 46]].
Definition slash_once (t : text) : bool := bool_decide ([47] `prefix_of` t) && negb (bool_decide ([47; 47] `prefix_of` t)).
Definition rewritten_point (c : Z) : bool := (c <? 32) || (c =? 127) || (c =? 92).
(** [safe_local_path] *)
Definition safe_local_path (max_length : Z) (value : option bytes) : option bytes :=
  match value with
  | None | Some [] => None
  | Some v =>
      if (max_length <? len v) || negb (plain_ascii v) then None
      else if negb (slash_once (points v)) then None
      else
        let path := url_path_of v in
        let decoded := unquoted path in
        if negb (bool_decide (decoded = points path)) && (negb (slash_once decoded) || existsb rewritten_point decoded) then None
        else if existsb (λ s, bool_decide (s ∈ DOT_SEGMENTS)) (segments decoded) then None
        else if existsb (λ p, bool_decide (points p `prefix_of` decoded)) NON_NAVIGABLE_PREFIXES then None
        else Some v
  end.

Example safe_examples :
  safe_local_path MAX_PATH_LENGTH <$> [Some (b "/projects/3?next=//x"); Some (b "//evil.example"); Some (b "/%2F%2Fevil"); Some (b "/%5Cevil"); Some (b "/a/%2e%2E/b"); Some (b "/partials/x"); Some (b "/a%252Fb"); None]
  = [Some (b "/projects/3?next=//x"); None; None; None; None; None; Some (b "/a%252Fb"); None].
Proof. vm_compute. reflexivity. Qed.
Example decimal_8443 : decimal 8443 = b "8443".
Proof. vm_compute. reflexivity. Qed.
Example host_examples :
  parse_host_header <$> [b "Example.COM:8443"; b "[::1]:80"; b "[0:0:0:0:0:0:0:1]"; b "a@b"; b "::1"; b "host."; b "h:123456"; b "010.0.0.1"]
  = [Some (b "example.com"); Some (b "::1"); Some (b "::1"); None; None; Some (b "host"); None; Some (b "010.0.0.1")].
Proof. vm_compute. reflexivity. Qed.
