(* ===== verification/RequestOriginFacts.v ===== *)
(** * Facts about the origin of a request

    A client cannot choose the address it is counted under, nor the one the bearer token
    is judged by; a redirect keeps the host of its request; a path that passes
    [safe_local_path] leaves a browser on this origin, at the path that was checked. *)

From Stdlib Require Import Ascii.
From Stdlib Require Import DecimalString.
From S2P Require Import Prelude PyVal Bytes Multipart IpAddress IpAddressFacts RequestOrigin.
From stdpp Require Import options.
Local Open Scope Z_scope.

(** ** Texts of addresses *)
Lemma lstrip_clean p s : Forall (λ c, p c = false) s → lstrip_by p s = s.
Proof. destruct s as [|c s]; [done|]. intros [Hc _]%Forall_cons. cbn. by rewrite Hc. Qed.
Lemma strip_clean p s : Forall (λ c, p c = false) s → strip_by p s = s.
Proof.
  intros Hs. unfold strip_by, rstrip_by. rewrite (lstrip_clean p s), lstrip_clean by (done || by apply Forall_reverse). apply reverse_involutive.
Qed.
(** An address as a proxy writes it: in range, without a scope, IPv4 where it is mapped. *)
Definition plain_ip (i : ip) : Prop := ip_ok i ∧ fold_mapped i = i ∧ match i with V6 _ (Some _) => False | _ => True end.
Definition address_char (c : ascii) : Prop := latin1_space c = false ∧ c ≠ ","%char.
Lemma hex_or c : is_Some (hex_value c) ∨ c = "."%char ∨ c = ":"%char → address_char c.
Proof.
  intros Hc. split.
  - destruct Hc as [[x Hx]|[->| ->]]; [|done..]. revert Hx. destruct c as [[] [] [] [] [] [] [] []]; vm_compute; done.
  - intros ->. destruct Hc as [[x Hx]|[?|?]]; [by vm_compute in Hx|done..].
Qed.
Lemma plain_text_chars i : plain_ip i → Forall address_char (ip_text i).
Proof.
  intros (Hok & _ & Hs). destruct i as [n|n [scope|]]; [|done|]; cbn [ip_text ip_ok] in *.
  - eapply Forall_impl; [exact (v4_text_chars n Hok)|]. intros c [Hc|Hc]; apply hex_or; auto.
  - eapply Forall_impl; [exact (v6_text_chars n)|]. intros c [Hc|Hc]; apply hex_or; auto.
Qed.
Lemma parse_plain i : plain_ip i → parse_address (Some (strip_value (ip_text i))) = Some i.
Proof.
  intros Hi. pose proof (plain_text_chars i Hi) as Hc. unfold strip_value. rewrite strip_clean by (eapply Forall_impl; [exact Hc|by intros ? []]).
  destruct Hi as (Hok & Hf & _). pose proof (text_roundtrip i Hok) as Hr. unfold parse_address. destruct (ip_text i); [done|]. rewrite Hr. cbn. by rewrite Hf.
Qed.
Lemma parse_plain_blank i : plain_ip i → parse_address (Some (strip_value (b " " ++ ip_text i))) = Some i.
Proof. apply parse_plain. Qed.
Lemma split_cut c s t : split_at_char c (s ++ c :: t) = split_at_char c s ++ split_at_char c t.
Proof.
  induction s as [|x s IH]; cbn [app split_at_char]; [by rewrite Ascii.eqb_refl|]. rewrite IH. destruct (Ascii.eqb x c); [done|].
  destruct (split_at_char c s) eqn:Hs; [|done]. exfalso. destruct s as [|y s]; cbn in Hs; [done|]. destruct (Ascii.eqb y c), (split_at_char c s); done.
Qed.
Lemma plain_no_comma i : plain_ip i → split_at_char "," (b " " ++ ip_text i) = [b " " ++ ip_text i] ∧ split_at_char "," (ip_text i) = [ip_text i].
Proof.
  intros Hi%plain_text_chars. assert (","%char ∉ ip_text i) as Hn by (rewrite Forall_forall in Hi; intros [_ Hne]%Hi; done).
  split; apply split_no_sep; [|done]. change (b " " ++ ip_text i) with (" "%char :: ip_text i). by rewrite not_elem_of_cons.
Qed.

(** ** A request through a chain of proxies

    Each proxy adds the address it was called from at the end of [X-Forwarded-For]; the
    client may have sent a value of its own. *)
Definition append_hop (value : bytes) (from : ip) : bytes := value ++ b ", " ++ ip_text from.
Definition forwarded_value (forged : option bytes) (client : ip) (proxies : list ip) : bytes :=
  foldl append_hop (match forged with None => ip_text client | Some value => append_hop value client end) proxies.
(** How a request of [client] reaches the server: from the client itself, with any headers,
    or from the last of a chain of trusted proxies; [lines] are header lines of the name
    that come before the one the proxies extend. *)
Inductive arrives (trusted_proxies : list bytes) (lines : list bytes) (r : Request) (client : ip) : Prop :=
  | arrives_direct :
      rq_client r = Some (ip_text client) → in_networks client (parse_networks trusted_proxies) = false →
      arrives trusted_proxies lines r client
  | arrives_relayed forged proxies peer :
      rq_client r = Some (ip_text peer) → plain_ip peer → Forall plain_ip proxies →
      in_networks client (parse_networks trusted_proxies) = false →
      Forall (λ p, in_networks p (parse_networks trusted_proxies) = true) (peer :: proxies) →
      getlist (b "x-forwarded-for") (rq_headers r) = lines ++ [forwarded_value forged client proxies] →
      arrives trusted_proxies lines r client.

Lemma forwarded_hops_end forged client proxies :
  plain_ip client → Forall plain_ip proxies →
  ∃ rest piece, reverse (split_at_char "," (forwarded_value forged client proxies)) =
    ((λ p, b " " ++ ip_text p) <$> reverse proxies) ++ piece :: rest ∧ parse_address (Some (strip_value piece)) = Some client.
Proof.
  intros Hc Hps. unfold forwarded_value. induction proxies as [|p proxies IH] using rev_ind.
  - destruct (plain_no_comma client Hc) as [Hb Hn]. destruct forged as [value|]; cbn [foldl].
    + unfold append_hop. change (b ", " ++ ip_text client) with (","%char :: b " " ++ ip_text client). rewrite split_cut, Hb, reverse_snoc.
      eexists _, _. split; [done|]. by apply parse_plain_blank.
    + rewrite Hn. exists [], (ip_text client). split; [done|]. by apply parse_plain.
  - apply Forall_app in Hps as [Hps [Hp _]%Forall_cons]. destruct (IH Hps) as (rest & piece & Hr & Hpc). rewrite foldl_snoc. set (v := foldl _ _ _) in *.
    unfold append_hop. change (b ", " ++ ip_text p) with (","%char :: b " " ++ ip_text p). rewrite split_cut, (proj1 (plain_no_comma p Hp)), reverse_snoc, Hr, reverse_snoc.
    by exists rest, piece.
Qed.
Lemma walks_past trusted proxies piece rest client :
  Forall plain_ip proxies → Forall (λ p, in_networks p trusted = true) proxies → parse_address (Some (strip_value piece)) = Some client →
  in_networks client trusted = false →
  let hops := ((λ p, b " " ++ ip_text p) <$> proxies) ++ piece :: rest in
  walk_hops trusted hops = Some (ip_text client) ∧ walk_clients trusted hops = Some client.
Proof.
  intros Hps Ht Hpc Hc. induction proxies as [|p proxies IH]; cbn [fmap list_fmap app walk_hops walk_clients].
  - by rewrite Hpc, Hc.
  - apply Forall_cons in Hps as [Hp Hps], Ht as [Hpt Ht]. rewrite parse_plain_blank, Hpt by done. by apply IH.
Qed.
Lemma client_text_plain i : plain_ip i → parse_address (Some (ip_text i)) = Some i.
Proof. intros Hi. pose proof (parse_plain i Hi) as Hp. unfold strip_value in Hp. rewrite strip_clean in Hp; [done|]. eapply Forall_impl; [by apply plain_text_chars|by intros ? []]. Qed.
Lemma plain_text_nonempty i other : plain_ip i → or_text (Some (ip_text i)) other = ip_text i.
Proof. intros Hi%client_text_plain. by destruct (ip_text i). Qed.

Section client.
Context `{HeaderLaws}.
(** A client cannot choose the address it is counted under: called directly its
    headers are ignored, and behind any chain of trusted proxies that extend one
    [X-Forwarded-For] line its own address is found, whatever it wrote there itself. *)
Theorem client_not_forgeable (trusted_proxies : list bytes) (r : Request) (client : ip) :
  plain_ip client → arrives trusted_proxies [] r client → (resolve_effective_client trusted_proxies r).1 = ip_text client.
Proof using Type*.
  intros Hc [Hr Hn|forged proxies peer Hr Hpeer Hps Hn [Hpt Ht]%Forall_cons Hx]; unfold resolve_effective_client; rewrite Hr, client_text_plain by done.
  - rewrite Hn. cbn [negb fst]. by apply plain_text_nonempty.
  - rewrite Hpt. cbn [negb fst]. unfold leftmost_untrusted_hop, header. pose proof (header_get_spec (b "x-forwarded-for") (rq_headers r)) as Hh.
    rewrite Hx in Hh. destruct (header_get _ _) as [value|]; [|done]. cbn in Hh. apply list_elem_of_singleton in Hh as ->.
    destruct (forwarded_hops_end forged client proxies Hc Hps) as (rest & piece & Hrev & Hpc).
    destruct (forwarded_value forged client proxies) as [|c v] eqn:Hv.
    { cbn in Hrev. apply (f_equal length) in Hrev. rewrite length_app, length_fmap, length_reverse in Hrev. cbn in Hrev.
      assert (proxies = [] ∧ rest = []) as [-> ->] by (split; apply length_zero_iff_nil; lia). unfold forwarded_value in Hv. cbn in Hv.
      destruct forged; [by apply app_nil in Hv as [_ ?]|]. pose proof (client_text_plain client Hc) as Hp. by rewrite Hv in Hp. }
    rewrite Hrev. destruct (walks_past (parse_networks trusted_proxies) (reverse proxies) piece rest client) as [-> _]; try done; try by apply Forall_reverse.
    by apply plain_text_nonempty.
Qed.
End client.
(** C19: the bearer token is judged by the address of the client itself: whichever way a
    request comes and whatever lines the client put into [X-Forwarded-For], the token is
    accepted only if that address is among the allowed ones. *)
Theorem token_judged_by_client (allowed trusted_proxies lines : list bytes) (require_https : bool) (r : Request) (client : ip) :
  plain_ip client → arrives trusted_proxies lines r client → peer_allowed allowed trusted_proxies require_https r = true →
  in_networks client (parse_networks allowed) = true.
Proof.
  intros Hc [Hr Hn|forged proxies peer Hr Hpeer Hps Hn [Hpt Ht]%Forall_cons Hx]; unfold peer_allowed; rewrite Hr, client_text_plain by done.
  - rewrite Hn, andb_false_r. destruct (is_forwarded r && is_loopback client); [done|]. by destruct (in_networks client (parse_networks allowed)).
  - rewrite Hpt. assert (is_forwarded r = true) as ->.
    { unfold is_forwarded, FORWARDED_HEADERS. cbn [existsb]. rewrite Hx. rewrite bool_decide_false by (by intros [_ ?]%app_nil). done. }
    cbn [andb]. unfold forwarded_client, forwarded_hops. rewrite Hx, bind_app, reverse_app. cbn [mbind list_bind]. rewrite app_nil_r.
    destruct (forwarded_hops_end forged client proxies Hc Hps) as (rest & piece & -> & Hpc). rewrite <- app_assoc.
    destruct (walks_past (parse_networks trusted_proxies) (reverse proxies) piece (rest ++ reverse (lines ≫= split_at_char ",")) client) as [_ Hw];
      try done; try by apply Forall_reverse.
    cbn [app] in Hw |- *. rewrite Hw. destruct (is_loopback client && _); [done|]. by intros [? _]%andb_true_iff.
Qed.

Definition proxy_list : list bytes := [b "10.0.0.0/8"].
Definition far_client : ip := V4 3405803781. (* 203.0.113.5 *)
Definition near_proxy : ip := V4 167772417. (* 10.0.1.1 *)
Definition relayed (lines : list bytes) (extra : header_list) : Request :=
  MkRequest (b "GET") (b "/") None [] (Some (b "10.0.0.2")) (((λ l, (b "x-forwarded-for", l)) <$> lines) ++ extra) HTTP (b "/") None.
Lemma client_not_forgeable_witness :
  (@resolve_effective_client first_value proxy_list (relayed [b "127.0.0.1, 203.0.113.5, 10.0.1.1"] [])).1 = b "203.0.113.5".
Proof.
  apply (@client_not_forgeable first_value first_value_laws proxy_list _ far_client); [vm_compute; repeat split; discriminate|].
  apply (arrives_relayed _ [] _ far_client (Some (b "127.0.0.1")) [near_proxy] (V4 167772162)); try reflexivity.
  - vm_compute. repeat split; discriminate.
  - repeat constructor; vm_compute; discriminate.
  - repeat constructor.
Defined.
Lemma token_judged_by_client_witness :
  let r := relayed [b "127.0.0.1"; b "203.0.113.5, 10.0.1.1"] [(b "x-forwarded-proto", b "https")] in
  peer_allowed [b "203.0.113.0/24"] proxy_list true r = true ∧ in_networks far_client (parse_networks [b "203.0.113.0/24"]) = true.
Proof.
  split; [vm_compute; reflexivity|].
  apply (token_judged_by_client [b "203.0.113.0/24"] proxy_list [b "127.0.0.1"] true
    (relayed [b "127.0.0.1"; b "203.0.113.5, 10.0.1.1"] [(b "x-forwarded-proto", b "https")]) far_client); [vm_compute; repeat split; discriminate| |vm_compute; reflexivity].
  apply (arrives_relayed _ [b "127.0.0.1"] _ far_client None [near_proxy] (V4 167772162)); try reflexivity.
  - vm_compute. repeat split; discriminate.
  - repeat constructor; vm_compute; discriminate.
  - repeat constructor.
Defined.

(** ** What the comments say otherwise *)
(** A proxy that adds a header line of its own instead of extending the client's: only the
    first line is read, and the client is counted under the address it wrote. *)
Lemma second_forwarded_line_ignored :
  (@resolve_effective_client first_value proxy_list (relayed [b "198.51.100.7"; b "203.0.113.5"] [])).1 = b "198.51.100.7" ∧
  forwarded_client (parse_networks proxy_list) (relayed [b "198.51.100.7"; b "203.0.113.5"] []) = Some far_client.
Proof. by vm_compute. Qed.
(** A hop that does not parse, here with a port, is skipped, and what the client wrote to
    the left of it is believed; the token policy refuses such a chain. *)
Lemma malformed_hop_believes_client :
  (@resolve_effective_client first_value proxy_list (relayed [b "198.51.100.7, 203.0.113.5:4711"] [])).1 = b "198.51.100.7" ∧
  forwarded_client (parse_networks proxy_list) (relayed [b "198.51.100.7, 203.0.113.5:4711"] []) = None.
Proof. by vm_compute. Qed.
(** The hop taken is the right-most untrusted one, not the left-most. *)
Lemma rightmost_hop_taken :
  (@resolve_effective_client first_value proxy_list (relayed [b "198.51.100.7, 203.0.113.5"] [])).1 = b "203.0.113.5".
Proof. by vm_compute. Qed.

(** ** Allowed hosts *)
(** A host passes when it is an entry, or a subdomain of an entry with a wildcard. *)
Theorem host_allowed_exact host allowed :
  host_allowed host allowed = true ↔ host ∈ allowed ∨ ∃ domain sub, b "*." ++ domain ∈ allowed ∧ host = sub ++ b "." ++ domain.
Proof.
  unfold host_allowed. rewrite orb_true_iff, bool_decide_eq_true, existsb_exists. f_equiv. split.
  - intros ([|c1 [|c2 entry]] & Hin & He); [done..|]. rewrite !andb_true_iff, bool_decide_eq_true in He. destruct He as [[->%Ascii.eqb_eq ->%Ascii.eqb_eq] [sub ->]].
    exists entry, sub. split; [by apply list_elem_of_In|done].
  - intros (domain & sub & Hin & ->). exists (b "*." ++ domain). split; [by apply list_elem_of_In|]. cbn. apply bool_decide_eq_true. by eexists.
Qed.

(** ** The HTTPS redirect *)
(** The characters that end an authority, and the one that ends its user information. *)
Definition url_delimiter (c : ascii) : Prop := c = "/"%char ∨ c = "?"%char ∨ c = "#"%char ∨ c = "@"%char.
Definition host_char (c : ascii) : Prop := ¬ url_delimiter c.
Lemma host_char_code c : host_char c ↔ char_code c ∉ [47; 63; 35; 64].
Proof.
  unfold host_char, url_delimiter. rewrite !not_elem_of_cons. change 47 with (char_code "/"). change 63 with (char_code "?").
  change 35 with (char_code "#"). change 64 with (char_code "@"). unfold char_code. split.
  - intros Hc. split_and!; [..|apply not_elem_of_nil]; intros He%Nat2Z.inj; apply Hc; apply (f_equal ascii_of_nat) in He; rewrite !ascii_nat_embedding in He; auto.
  - intros (? & ? & ? & ? & _) [->|[->|[->| ->]]]; done.
Qed.
Lemma lower_host_char c : host_char c → host_char (lower_char c).
Proof. rewrite !host_char_code. destruct c as [[] [] [] [] [] [] [] []]; vm_compute; set_solver. Qed.
Lemma hex_host_char c : is_Some (hex_value c) ∨ c = "."%char ∨ c = ":"%char → host_char c.
Proof.
  intros Hc [->|[->|[->| ->]]]; (destruct Hc as [[x Hx]|[?|?]]; [by vm_compute in Hx|done..]).
Qed.
Lemma ip_text_host_chars s i : ip_address s = Some i → Forall host_char s → Forall host_char (ip_text i).
Proof.
  intros Hi Hs. pose proof (ip_address_ok s i Hi) as Hok.
  assert (∀ n, Forall host_char (v6_text n)) as H6.
  { intros n. eapply Forall_impl; [exact (v6_text_chars n)|]. intros c [Hc|Hc]; apply hex_host_char; auto. }
  destruct i as [n|n [scope|]]; cbn [ip_text ip_ok] in *.
  - eapply Forall_impl; [exact (v4_text_chars n Hok)|]. intros c [Hc|Hc]; apply hex_host_char; auto.
  - apply Forall_app. split; [done|]. constructor; [by intros [?|[?|[?|?]]]|]. revert Hi. unfold ip_address, parse_v4, parse_v6.
    case_bool_decide; [done|]. destruct (parse_v4_int s); [done|]. cbn [fmap option_fmap option_map].
    destruct (partition_at "%" s) as [[addr []] rest] eqn:Hp; [|by destruct (parse_v6_int addr)].
    destruct (bool_decide _ || _); [done|]. destruct (parse_v6_int addr); [|done]. intros [= _ ->]. apply partition_spec in Hp as [_ ->].
    by apply Forall_app in Hs as [_ [_ ?]%Forall_cons].
  - done.
Qed.
Lemma drop_dot_chars (P : ascii → Prop) s : Forall P s → Forall P (drop_dot s).
Proof.
  intros Hs. unfold drop_dot. destruct (reverse s) as [|c t] eqn:Hr; [done|]. destruct (Ascii.eqb c "."); [|done].
  apply (f_equal reverse) in Hr. rewrite reverse_involutive in Hr. subst s. apply Forall_reverse in Hs. rewrite reverse_involutive in Hs.
  apply Forall_cons in Hs as [_ ?]. by apply Forall_reverse.
Qed.
Lemma normalise_host_chars host : Forall host_char host → Forall host_char (normalise_host host).
Proof.
  intros Hh. assert (Forall host_char (drop_dot (lower_text host))) as Hd.
  { apply drop_dot_chars. unfold lower_text. apply Forall_fmap. eapply Forall_impl; [exact Hh|]. exact lower_host_char. }
  unfold normalise_host. destruct (ip_address _) eqn:Hi; [|done]. by eapply ip_text_host_chars.
Qed.
Lemma decimal_chars n : Forall host_char (decimal n).
Proof.
  assert (∀ u, Forall host_char (b (NilEmpty.string_of_uint u))) as Hu.
  { unfold b. induction u; cbn; constructor; done || by intros [?|[?|[?|?]]]. }
  unfold decimal, NilZero.string_of_int. destruct (Z.to_int n) as [u|u]; unfold NilZero.string_of_uint; destruct u;
    try apply Hu; unfold b; cbn; repeat constructor; try (by intros [?|[?|[?|?]]]); apply Hu.
Qed.
(** The authority of an absolute URL, as every parser delimits it. *)
Fixpoint until_delimiter (s : bytes) : bytes :=
  match s with
  | [] => []
  | c :: s => if Ascii.eqb c "/" || Ascii.eqb c "?" || Ascii.eqb c "#" then [] else c :: until_delimiter s
  end.
Definition authority (url : bytes) : bytes := until_delimiter (drop (length (b "https://")) url).
Lemma until_delimiter_app s t : Forall host_char s → until_delimiter (s ++ "/"%char :: t) = s.
Proof.
  induction 1 as [|c s Hc _ IH]; [done|]. cbn [app until_delimiter]. rewrite IH.
  destruct (Ascii.eqb_spec c "/"), (Ascii.eqb_spec c "?"), (Ascii.eqb_spec c "#"); try done; exfalso; apply Hc; unfold url_delimiter; auto.
Qed.
Section redirect.
Context `{HeaderLookup}.
Lemma redirect_netloc_chars r port :
  (∀ host, rq_url_hostname r = Some host → Forall host_char host) → Forall host_char (redirect_netloc r port).
Proof using Type*.
  intros Hurl. assert (Forall host_char (default (b "localhost") (request_host r))) as Hh.
  { unfold request_host. destruct (header "host" r) as [[|c raw]|]; cbn [default]; try (unfold b; cbn; repeat constructor; by intros [?|[?|[?|?]]]).
    destruct (parse_host_header _) as [host|], (rq_url_hostname r) as [url_host|]; try destruct (decide _) as [<-|]; cbn [default];
      try (unfold b; cbn; repeat constructor; by intros [?|[?|[?|?]]]).
    by apply normalise_host_chars, Hurl. }
  unfold redirect_netloc. set (host := default _ _) in *.
  assert (Forall host_char (if bool_decide (":"%char ∈ host) then b "[" ++ host ++ b "]" else host)) as Hb.
  { case_bool_decide; [|done]. rewrite !Forall_app. split_and!; [|done|]; unfold b; cbn; repeat constructor; by intros [?|[?|[?|?]]]. }
  destruct (port =? 443); [done|]. rewrite !Forall_app. split_and!; [done| |apply decimal_chars]. unfold b; cbn; repeat constructor; by intros [?|[?|[?|?]]].
Qed.
(** The HTTPS redirect keeps the host of its request: whatever the [Host] header and
    the request target are, the authority of the target URL is the validated host (or
    localhost) with the HTTPS port, without user information. *)
Theorem redirect_keeps_host (r : Request) (port : Z) :
  (∀ host, rq_url_hostname r = Some host → Forall host_char host) →
  authority (https_url r port) = redirect_netloc r port ∧ "@"%char ∉ authority (https_url r port).
Proof using Type*.
  intros Hurl. pose proof (redirect_netloc_chars r port Hurl) as Hn.
  assert (authority (https_url r port) = redirect_netloc r port) as ->.
  { unfold authority, https_url. rewrite drop_app_length. assert (∃ t, redirect_path r = "/"%char :: t) as [t ->].
    { unfold redirect_path. destruct (or_text _ _) as [|c p]; [by exists []|]. destruct (Ascii.eqb_spec c "/") as [->|]; by eexists. }
    cbn [app]. by apply until_delimiter_app. }
  split; [done|]. intros Hin. rewrite Forall_forall in Hn. apply (Hn _ Hin). unfold url_delimiter. auto.
Qed.
End redirect.
Definition odd_request : Request :=
  MkRequest (b "GET") (b "@evil.example") (Some (b "@evil.example")) (b "x=1") (Some (b "203.0.113.5")) [(b "host", b "[2001:DB8::1]:8080")] HTTP
    (b "@evil.example") (Some (b "2001:db8::1")).
Lemma redirect_keeps_host_witness :
  authority (@https_url first_value odd_request 8443) = b "[2001:db8::1]:8443" ∧ "@"%char ∉ authority (@https_url first_value odd_request 8443).
Proof.
  apply (@redirect_keeps_host first_value odd_request 8443). intros host. cbn. intros [= <-]. repeat constructor; by intros [?|[?|[?|?]]].
Defined.

(** ** Local redirect targets *)
(** Decoding a path does not look across a slash. *)
Lemma unquote_cut s t : unquote_bytes (s ++ "/"%char :: t) = unquote_bytes s ++ "/"%char :: unquote_bytes t.
Proof.
  remember (length s) as n eqn:Hn. revert s Hn. induction n as [n IH] using lt_wf_ind. intros s ->.
  destruct s as [|c s]; [done|]. cbn [app unquote_bytes]. destruct (Ascii.eqb c "%").
  2: { cbn [app]. f_equal. apply (IH (length s)); [cbn; lia|done]. }
  destruct s as [|h [|l s]]; cbn [app].
  - change (unquote_bytes []) with (@nil ascii). destruct t as [|x t]; [done|]. change (hex_value "/") with (@None Z). done.
  - assert (Hx : unquote_bytes (h :: "/"%char :: t) = unquote_bytes [h] ++ "/"%char :: unquote_bytes t) by (apply (IH 1%nat ltac:(cbn; lia) [h]); done).
    change (hex_value "/") with (@None Z). destruct (hex_value h); cbn [app]; by rewrite Hx.
  - destruct (hex_value h) as [x|], (hex_value l) as [y|]; cbn [app]; f_equal;
      [apply (IH (length s) ltac:(cbn; lia) s eq_refl)|apply (IH (length (h :: l :: s)) ltac:(cbn; lia) (h :: l :: s) eq_refl)..].
Qed.
Lemma in_range_slash lo hi : 47 < lo → in_range "/" lo hi = false.
Proof. intros Hlo. unfold in_range. change (char_code "/") with 47. destruct (Z.leb_spec lo 47); [lia|done]. Qed.
Lemma second_slash c : second_ok c "/" = false.
Proof. unfold second_ok. cbv zeta. repeat case_match; by rewrite in_range_slash. Qed.
Lemma utf8_cut s t : utf8_decode (s ++ "/"%char :: t) = utf8_decode s ++ 47 :: utf8_decode t.
Proof.
  remember (length s) as n eqn:Hn. revert s Hn. induction n as [n IH] using lt_wf_ind. intros s ->.
  assert (IH' : ∀ s', (length s' < length s)%nat → utf8_decode (s' ++ "/"%char :: t) = utf8_decode s' ++ 47 :: utf8_decode t) by (intros s' Hl; exact (IH _ Hl s' eq_refl)).
  clear IH. destruct s as [|c0 s]; [done|]. cbn [app utf8_decode].
  assert (∀ x s', (length s' < length (c0 :: s))%nat → x :: utf8_decode (s' ++ "/"%char :: t) = (x :: utf8_decode s') ++ 47 :: utf8_decode t) as Hx
    by (intros x s' Hl; cbn [app]; f_equal; by apply IH').
  assert (Hs0 : ∀ x, x :: utf8_decode ("/"%char :: t) = [x] ++ 47 :: utf8_decode t) by done.
  destruct (in_range c0 0 127); [apply Hx; cbn; lia|].
  destruct (in_range c0 194 223).
  { destruct s as [|c1 s]; cbn [app]; [rewrite in_range_slash by lia; apply Hs0|].
    destruct (in_range c1 128 191); [apply Hx; cbn; lia|apply (Hx _ (c1 :: s)); cbn; lia]. }
  destruct (in_range c0 224 239).
  { destruct s as [|c1 s]; cbn [app]; [rewrite second_slash; apply Hs0|]. destruct (second_ok c0 c1); [|apply (Hx _ (c1 :: s)); cbn; lia].
    destruct s as [|c2 s]; cbn [app]; [rewrite in_range_slash by lia; apply Hs0|].
    destruct (in_range c2 128 191); [apply Hx; cbn; lia|apply (Hx _ (c2 :: s)); cbn; lia]. }
  destruct (in_range c0 240 244); [|apply Hx; cbn; lia].
  destruct s as [|c1 s]; cbn [app]; [rewrite second_slash; apply Hs0|]. destruct (second_ok c0 c1); [|apply (Hx _ (c1 :: s)); cbn; lia].
  destruct s as [|c2 s]; cbn [app]; [rewrite in_range_slash by lia; apply Hs0|]. destruct (in_range c2 128 191); [|apply (Hx _ (c2 :: s)); cbn; lia].
  destruct s as [|c3 s]; cbn [app]; [rewrite in_range_slash by lia; apply Hs0|].
  destruct (in_range c3 128 191); [apply Hx; cbn; lia|apply (Hx _ (c3 :: s)); cbn; lia].
Qed.
Lemma segments_cut s t : segments (s ++ 47 :: t) = segments s ++ segments t.
Proof.
  induction s as [|x s IH]; [done|]. cbn [app segments]. rewrite IH. destruct (x =? 47); [done|]. destruct (segments s) eqn:Hs; [|done].
  exfalso. destruct s as [|y s]; [done|]. cbn in Hs. destruct (y =? 47), (segments s); done.
Qed.
(** The segments of a piece between slashes are segments of the whole. *)
Lemma piece_segments path piece : piece ∈ split_at_char "/" path → segments (unquoted piece) ⊆ segments (unquoted path).
Proof.
  remember (length path) as n eqn:Hn. revert path Hn. induction n as [n IH] using lt_wf_ind. intros path ->.
  destruct (partition_at "/" path) as [[before found] after] eqn:Hp. apply partition_spec in Hp as [Hb Hpath]. destruct found; subst path.
  - rewrite split_app_sep by done. unfold unquoted in *. rewrite unquote_cut, utf8_cut, segments_cut.
    intros [->|Hin]%elem_of_cons; [set_solver|]. etrans; [eapply (IH (length after)); [rewrite length_app; cbn; lia|done|done]|set_solver].
  - rewrite split_no_sep by done. by intros ->%list_elem_of_singleton.
Qed.

(** *** What a browser makes of a reference on a page of this origin

    The rules of the URL standard for http and https: tabs and line ends are dropped, a
    backslash is a slash, two slashes lead to another host, and dot segments, also encoded
    ones, are resolved.  [None] is a reference that is no path on this origin. *)
Definition browser_drops (c : ascii) : bool := (char_code c =? 9) || (char_code c =? 10) || (char_code c =? 13).
Definition browser_trims (c : ascii) : bool := char_code c <=? 32.
Definition browser_slash (c : ascii) : ascii := if Ascii.eqb c "092" then "/"%char else c.
Definition browser_text (v : bytes) : bytes := filter (λ c, browser_drops c = false) (strip_by browser_trims v).
Definition single_dot (s : bytes) : bool := bool_decide (lower_text s ∈ b <$> ["."; "%2e"]%string).
Definition double_dot (s : bytes) : bool := bool_decide (lower_text s ∈ b <$> [".."; ".%2e"; "%2e."; "%2e%2e"]%string).
Definition closing (l : list bytes) : list bytes := match l with [] => [[]] | _ => [] end.
Fixpoint resolve_dots (done : list bytes) (l : list bytes) : list bytes :=
  match l with
  | [] => done
  | s :: l =>
      if double_dot s then resolve_dots (removelast done ++ closing l) l
      else if single_dot s then resolve_dots (done ++ closing l) l
      else resolve_dots (done ++ [s]) l
  end.
Definition browser_path (v : bytes) : option (list bytes) :=
  match browser_slash <$> url_path_of (browser_text v) with
  | c :: rest =>
      if negb (Ascii.eqb c "/") then None
      else match rest with
           | c' :: _ => if Ascii.eqb c' "/" then None else Some (resolve_dots [] (split_at_char "/" rest))
           | [] => Some [[]]
           end
  | [] => None
  end.

Lemma path_char_facts c : path_char c = true → browser_drops c = false ∧ browser_trims c = false ∧ browser_slash c = c.
Proof.
  unfold path_char, browser_drops, browser_trims, browser_slash. intros [[Hlo Hhi]%andb_true_iff Hb]%andb_true_iff. apply Z.ltb_lt in Hlo, Hhi.
  apply negb_true_iff in Hb. rewrite Hb. split_and!; [|by apply Z.leb_gt|done]. by rewrite !orb_false_iff, !Z.eqb_neq; lia.
Qed.
Lemma plain_browser_text v : plain_ascii v = true → browser_text v = v ∧ browser_slash <$> url_path_of v = url_path_of v.
Proof.
  unfold plain_ascii. intros Hv. rewrite forallb_forall in Hv. assert (Forall (λ c, path_char c = true) v) as Hf
    by (apply Forall_forall; intros c Hc; apply Hv, list_elem_of_In; done). clear Hv. split.
  - unfold browser_text. rewrite strip_clean by (eapply Forall_impl; [exact Hf|]; intros c Hc; apply path_char_facts, Hc).
    apply filter_all. intros c Hc. rewrite Forall_forall in Hf. by apply path_char_facts, Hf.
  - induction Hf as [|c v Hc _ IH]; [done|]. cbn [url_path_of]. destruct (Ascii.eqb c "?" || Ascii.eqb c "#"); [done|]. cbn [fmap list_fmap].
    destruct (path_char_facts c Hc) as (_ & _ & ->). f_equal. exact IH.
Qed.
Lemma resolve_dots_id done l : Forall (λ s, double_dot s = false ∧ single_dot s = false) l → resolve_dots done l = done ++ l.
Proof.
  intros Hl. revert done. induction Hl as [|s l [Hd Hs] _ IH]; intros done; cbn [resolve_dots]; [by rewrite app_nil_r|].
  rewrite Hd, Hs, IH, <- app_assoc. done.
Qed.
Lemma lower_dot c : lower_char c = "."%char → c = "."%char.
Proof. destruct c as [[] [] [] [] [] [] [] []]; vm_compute; done. Qed.
Lemma lower_percent c : lower_char c = "%"%char → c = "%"%char.
Proof. destruct c as [[] [] [] [] [] [] [] []]; vm_compute; done. Qed.
Lemma lower_two c : lower_char c = "2"%char → c = "2"%char.
Proof. destruct c as [[] [] [] [] [] [] [] []]; vm_compute; done. Qed.
Lemma lower_e c : lower_char c = "e"%char → c = "e"%char ∨ c = "E"%char.
Proof. destruct c as [[] [] [] [] [] [] [] []]; vm_compute; auto; done. Qed.
(** Every spelling of a dot segment is one once it is decoded. *)
Lemma dot_spellings s : double_dot s = true ∨ single_dot s = true → unquoted s ∈ DOT_SEGMENTS.
Proof.
  unfold double_dot, single_dot, lower_text. rewrite !bool_decide_eq_true. intros Hs.
  assert (∃ t, lower_char <$> s = t ∧ t ∈ b <$> ["."; "%2e"; ".."; ".%2e"; "%2e."; "%2e%2e"]%string) as (t & Ht & Hin) by (eexists; split; [done|]; cbn; set_solver).
  clear Hs. cbn in Hin. repeat (apply elem_of_cons in Hin as [->|Hin]); [..|by apply elem_of_nil in Hin];
    repeat match goal with
    | H : [] = lower_char <$> ?l |- _ => symmetry in H; apply fmap_nil_inv in H; subst
    | H : _ :: _ = lower_char <$> ?l |- _ => symmetry in H
    | H : lower_char <$> ?l = _ :: _ |- _ => apply fmap_cons_inv in H as (? & ? & ? & ? & ?); subst
    | H : "."%char = lower_char _ |- _ => symmetry in H; apply lower_dot in H; subst
    | H : "%"%char = lower_char _ |- _ => symmetry in H; apply lower_percent in H; subst
    | H : "2"%char = lower_char _ |- _ => symmetry in H; apply lower_two in H; subst
    | H : "e"%char = lower_char _ |- _ => symmetry in H; apply lower_e in H as [H|H]; subst
    end; (left; vm_compute; reflexivity) || (right; left; vm_compute; reflexivity).
Qed.

Lemma slash_once_inv v : slash_once (points v) = true → ∃ rest, v = "/"%char :: rest ∧ ¬ ["/"%char] `prefix_of` rest.
Proof.
  assert (∀ c, char_code c = 47 → c = "/"%char) as Hc by (intros c; destruct c as [[] [] [] [] [] [] [] []]; vm_compute; done).
  unfold slash_once. rewrite andb_true_iff, negb_true_iff, bool_decide_eq_true, bool_decide_eq_false. destruct v as [|c v]; [by intros [[? ?] _]|].
  cbn [points fmap list_fmap]. intros [[k Hk] Hno]. injection Hk as Hk _. apply Hc in Hk as ->. exists v. split; [done|].
  intros [t ->]. apply Hno. by eexists.
Qed.
Lemma safe_local_path_inv max_length value v :
  safe_local_path max_length value = Some v →
  value = Some v ∧ plain_ascii v = true ∧ slash_once (points v) = true ∧
  (∀ s, s ∈ segments (unquoted (url_path_of v)) → s ∉ DOT_SEGMENTS) ∧
  ∀ p, p ∈ NON_NAVIGABLE_PREFIXES → ¬ points p `prefix_of` unquoted (url_path_of v).
Proof.
  unfold safe_local_path. destruct value as [[|c u]|]; [done| |done]. set (w := c :: u).
  destruct (_ || negb (plain_ascii w)) eqn:Hp; [done|]. apply orb_false_iff in Hp as [_ Hp%negb_false_iff].
  destruct (slash_once (points w)) eqn:Hs; [|done]. cbn [negb]. destruct (negb _ && _); [done|].
  destruct (existsb (λ s, bool_decide (s ∈ DOT_SEGMENTS)) _) eqn:Hd; [done|].
  destruct (existsb (λ p, bool_decide (points p `prefix_of` unquoted (url_path_of w))) _) eqn:Hn; [done|]. intros [= <-].
  split_and!; try done.
  - intros s Hs' Hdot. apply not_true_iff_false in Hd. apply Hd, existsb_exists. exists s. split; [by apply list_elem_of_In|]. by apply bool_decide_eq_true.
  - intros p Hin Hpre. apply not_true_iff_false in Hn. apply Hn, existsb_exists. exists p. split; [by apply list_elem_of_In|]. by apply bool_decide_eq_true.
Qed.
Lemma no_dot_piece path piece :
  (∀ s, s ∈ segments (unquoted ("/"%char :: path)) → s ∉ DOT_SEGMENTS) → piece ∈ split_at_char "/" path → unquoted piece ∈ DOT_SEGMENTS → False.
Proof.
  intros Hno Hin Hdot. apply (Hno (unquoted piece)); [|done]. apply (piece_segments ("/"%char :: path) piece).
  - cbn. by right.
  - unfold DOT_SEGMENTS in Hdot. repeat (apply elem_of_cons in Hdot as [->|Hdot]); [by left..|by apply elem_of_nil in Hdot].
Qed.

(** C33: a value that passes [safe_local_path] leads a browser to this origin and to the
    path as it is written: nothing of it is dropped, resolved or taken for a host, and
    after decoding it is no fragment endpoint. *)
Theorem safe_path_stays_here (max_length : Z) (value : option bytes) (v : bytes) :
  safe_local_path max_length value = Some v →
  value = Some v ∧ (∃ rest, url_path_of v = "/"%char :: rest ∧ browser_path v = Some (split_at_char "/" rest)) ∧
  ∀ p, p ∈ NON_NAVIGABLE_PREFIXES → ¬ points p `prefix_of` unquoted (url_path_of v).
Proof.
  intros Hs. apply safe_local_path_inv in Hs as (-> & Hplain & Hslash & Hdots & Hnav). split; [done|].
  split; [|done]. destruct (plain_browser_text v Hplain) as [Ht Hb]. apply slash_once_inv in Hslash as (rest & Hv & Hne).
  unfold browser_path. rewrite Ht, Hb. subst v. cbn [url_path_of Ascii.eqb Bool.eqb orb] in *. exists (url_path_of rest). split; [done|].
  cbn [Ascii.eqb Bool.eqb negb]. set (path := url_path_of rest) in *.
  assert (Hid : resolve_dots [] (split_at_char "/" path) = split_at_char "/" path).
  { apply resolve_dots_id, Forall_forall. intros piece Hp. pose proof (dot_spellings piece) as Hdot.
    destruct (double_dot piece), (single_dot piece); try done; exfalso; refine (no_dot_piece _ _ Hdots Hp (Hdot _)); auto. }
  destruct path as [|c path'] eqn:Hpath; [done|]. rewrite Hid. destruct (Ascii.eqb_spec c "/") as [->|]; [|done].
  exfalso. apply Hne. destruct rest as [|x rest]; [done|]. cbn in Hpath. destruct (Ascii.eqb x "?" || Ascii.eqb x "#"); [done|]. injection Hpath as -> _. by eexists.
Qed.
Lemma safe_path_stays_here_witness :
  safe_local_path MAX_PATH_LENGTH (Some (b "/projects/7/frames?at=..")) = Some (b "/projects/7/frames?at=..") ∧
  browser_path (b "/projects/7/frames?at=..") = Some [b "projects"; b "7"; b "frames"].
Proof.
  split; [vm_compute; reflexivity|].
  destruct (safe_path_stays_here MAX_PATH_LENGTH (Some (b "/projects/7/frames?at=..")) (b "/projects/7/frames?at=..")) as (_ & (rest & Hr & Hb) & _); [vm_compute; reflexivity|].
  vm_compute in Hr. injection Hr as <-. exact Hb.
Defined.
