(* ===== verification/ApiToken.v ===== *)
(** * The local API token file

    security/token.py: the token file of the service, its creation by several processes,
    its rotation, and [TokenFileCache], which reads it once and again when it changed.
    The part of the module that judges a request is in [RequestOrigin].

    A version of the file is an inode with its times; what [_file_key] says of it (that
    replaced or rewritten files differ) is that every change gets a key not used before.
    The text of a token file is ASCII. *)

From Stdlib Require Import Ascii.
From S2P Require Import Prelude PyVal Bytes.
From stdpp Require Import options.
Local Open Scope Z_scope.

(** ** Files *)
Record TokenFile := MkTokenFile {
  tf_regular : bool;
  (** [open] refuses it: a symbolic link, or no permission *)
  tf_opens : bool;
  tf_uid : Z;
  tf_gid : Z;
  tf_mode : Z;
  tf_content : bytes;
  tf_inode : Z;
  tf_key : Z;
}.
Definition TOKEN_FILE_MODE : Z := 384. (* 0o600 *)
Definition LOOSE_MODE_BITS : Z := 63. (* 0o077 *)
Definition TOKEN_READ_LIMIT : nat := 4096.
(** [handle.read(_TOKEN_READ_LIMIT).strip()] *)
Definition token_text (content : bytes) : bytes := strip_by latin1_space (take TOKEN_READ_LIMIT content).
Definition set_mode (mode key : Z) (f : TokenFile) : TokenFile :=
  MkTokenFile (tf_regular f) (tf_opens f) (tf_uid f) (tf_gid f) mode (tf_content f) (tf_inode f) key.

(** What a read answers: the token and the key, a missing file, or [TokenFileError]. *)
Inductive read_answer := rd_token (value : bytes) (key : Z) | rd_missing | rd_unusable (wrong_owner : bool).

(** [_read_validated]: [uid] is the process's, [None] without POSIX ownership; [fresh] is
    the key the file has after its mode was changed. *)
Definition tighten (uid : option Z) (fresh : Z) (f : TokenFile) : TokenFile :=
  if negb (Z.land (tf_mode f) LOOSE_MODE_BITS =? 0) then match uid with Some _ => set_mode TOKEN_FILE_MODE fresh f | None => f end else f.
Definition read_validated (uid : option Z) (fresh : Z) (file : option TokenFile) : read_answer * option TokenFile :=
  match file with
  | None => (rd_missing, None)
  | Some f =>
      if negb (tf_opens f) then (rd_unusable false, file)
      else if negb (tf_regular f) then (rd_unusable false, file)
      else if match uid with Some u => negb (tf_uid f =? u) | None => false end then (rd_unusable true, file)
      else
        let f := tighten uid fresh f in
        if decide (token_text (tf_content f) = []) then (rd_unusable false, Some f)
        else (rd_token (token_text (tf_content f)) (tf_key f), Some f)
  end.
(** [read_token_file], the client's read, by the process [uid]; [dir_owner] owns the
    directory. *)
Definition read_token_file (uid : option Z) (dir_owner : Z) (file : option TokenFile) : read_answer :=
  match file with
  | None => rd_missing
  | Some f =>
      if negb (tf_opens f) then rd_unusable false
      else if negb (tf_regular f) then rd_unusable false
      else if bool_decide (uid = Some 0) && (negb (tf_uid f =? dir_owner) || negb (Z.land (tf_mode f) LOOSE_MODE_BITS =? 0)) then rd_unusable false
      else if decide (token_text (tf_content f) = []) then rd_unusable false
      else rd_token (token_text (tf_content f)) (tf_key f)
  end.
(** [rotate_token_file] by the process [uid] with group [gid]; [inode] and [key] are the
    new file's *)
Definition rotate_token_file (uid : option Z) (gid : Z) (token : bytes) (inode key : Z) (file : option TokenFile) : option (option TokenFile) :=
  match file with
  | None => None
  | Some f =>
      if negb (tf_regular f) then None
      else if match uid with Some 0 | None => false | Some u => negb (tf_uid f =? u) end then None
      else
        let '(owner, group) := match uid with Some 0 => (tf_uid f, tf_gid f) | Some u => (u, gid) | None => (tf_uid f, gid) end in
        Some (Some (MkTokenFile true true owner group TOKEN_FILE_MODE token inode key))
  end.

(** ** [TokenFileCache.get], statement by statement *)
Inductive get_answer := ga_token (value : bytes) | ga_unusable (wrong_owner : bool) | ga_missing.
Inductive get_pc :=
  | gt_entry
  | gt_stat (entry : Z * bytes)
  | gt_wait
  | gt_read
  (** inside [ensure_token_file]: its read, the exclusive creation, the write to the new
      file where there are no hard links, and the read after a lost race *)
  | gt_ensure
  | gt_publish
  | gt_fill (inode : Z)
  | gt_lost
  | gt_reread
  | gt_done (answer : get_answer).
Record Call := MkCall {
  cl_pc : get_pc;
  (** the texts the file had since the call began, for the statements about it *)
  cl_since : list bytes;
}.
Record TokenWorld := MkTokenWorld {
  tw_file : option TokenFile;
  (** every version so far: what its key stands for *)
  tw_versions : gmap Z bytes;
  tw_inodes : gset Z;
  tw_entry : option (Z * bytes);
  tw_lock : option Z;
  tw_calls : gmap Z Call;
}.
Definition text_of (file : option TokenFile) : list bytes := match file with Some f => [token_text (tf_content f)] | None => [] end.
Definition note_text (file : option TokenFile) (c : Call) : Call := MkCall (cl_pc c) (text_of file ++ cl_since c).
(** The file changes: its version is recorded, and every call that runs has seen it. *)
Definition set_file (file : option TokenFile) (w : TokenWorld) : TokenWorld :=
  MkTokenWorld file (match file with Some f => <[tf_key f := token_text (tf_content f)]> (tw_versions w) | None => tw_versions w end)
    (match file with Some f => {[tf_inode f]} ∪ tw_inodes w | None => tw_inodes w end)
    (tw_entry w) (tw_lock w) (note_text file <$> tw_calls w).
Definition set_entry (entry : option (Z * bytes)) (w : TokenWorld) : TokenWorld :=
  MkTokenWorld (tw_file w) (tw_versions w) (tw_inodes w) entry (tw_lock w) (tw_calls w).
Definition set_lock (lock : option Z) (w : TokenWorld) : TokenWorld :=
  MkTokenWorld (tw_file w) (tw_versions w) (tw_inodes w) (tw_entry w) lock (tw_calls w).
Definition goto (t : Z) (pc : get_pc) (w : TokenWorld) : TokenWorld :=
  MkTokenWorld (tw_file w) (tw_versions w) (tw_inodes w) (tw_entry w) (tw_lock w) (alter (λ c, MkCall pc (cl_since c)) t (tw_calls w)).
Definition return_ (t : Z) (answer : get_answer) (w : TokenWorld) : TokenWorld := goto t (gt_done answer) (set_lock None w).

(** The process's uid and group, whether the file system has hard links, and what a turn
    takes from outside: the key and the inode of a file it makes, and random text. *)
Record Turn := MkTurn { tu_key : Z; tu_inode : Z; tu_random : bytes }.
Section cache.
Context (uid : option Z) (gid : Z) (links : bool).
Definition own_uid : Z := default 0 uid.
Definition new_file (content : bytes) (u : Turn) : TokenFile := MkTokenFile true true own_uid gid TOKEN_FILE_MODE content (tu_inode u) (tu_key u).
(** A read that may change the mode; a world with the same file is left alone. *)
Definition file_read (u : Turn) (w : TokenWorld) : read_answer * TokenWorld :=
  let '(answer, file) := read_validated uid (tu_key u) (tw_file w) in
  (answer, match file, tw_file w with
           | Some f, Some f0 => if tf_key f =? tf_key f0 then w else set_file file w
           | _, _ => w
           end).
(** The last statements of [get] after a read that is to be the answer. *)
Definition finish_get (t : Z) (answer : read_answer) (w : TokenWorld) : TokenWorld :=
  match answer with
  | rd_token value key => return_ t (ga_token value) (set_entry (Some (key, value)) w)
  | rd_missing => return_ t ga_missing w
  | rd_unusable wrong_owner => return_ t (ga_unusable wrong_owner) w
  end.
(** [_publish_exclusive] *)
Definition publish_exclusive (t : Z) (u : Turn) (w : TokenWorld) : TokenWorld :=
  match tw_file w with
  | Some _ => goto t gt_lost w
  | None =>
      if links then goto t gt_reread (set_file (Some (new_file (tu_random u) u)) w)
      else goto t (gt_fill (tu_inode u)) (set_file (Some (new_file [] u)) w)
  end.
Definition fill (inode : Z) (u : Turn) (w : TokenWorld) : TokenWorld :=
  match tw_file w with
  | Some f =>
      if tf_inode f =? inode
      then set_file (Some (MkTokenFile (tf_regular f) (tf_opens f) (tf_uid f) (tf_gid f) (tf_mode f) (tu_random u) inode (tu_key u))) w
      else w
  | None => w
  end.
Definition get_turn (t : Z) (pc : get_pc) (u : Turn) (w : TokenWorld) : option TokenWorld :=
  match pc with
  | gt_entry => Some (goto t (match tw_entry w with Some e => gt_stat e | None => gt_wait end) w)
  | gt_stat (key, value) =>
      match tw_file w with
      | Some f => Some (goto t (if tf_key f =? key then gt_done (ga_token value) else gt_wait) w)
      | None => Some (goto t gt_wait w)
      end
  | gt_wait => match tw_lock w with Some _ => None | None => Some (goto t gt_read (set_lock (Some t) w)) end
  | gt_read =>
      let '(answer, w) := file_read u w in
      Some (match answer with
            | rd_token _ _ => finish_get t answer w
            | rd_missing => goto t gt_ensure w
            | rd_unusable _ => finish_get t answer (set_entry None w)
            end)
  | gt_ensure =>
      let '(answer, w) := file_read u w in
      Some (match answer with
            | rd_token _ _ => goto t gt_reread w
            | rd_missing => goto t gt_publish w
            | rd_unusable _ => finish_get t answer w
            end)
  | gt_publish => Some (publish_exclusive t u w)
  | gt_fill inode => Some (goto t gt_reread (fill inode u w))
  | gt_lost =>
      let '(answer, w) := file_read u w in
      Some (match answer with rd_token _ _ => goto t gt_reread w | _ => finish_get t answer w end)
  | gt_reread => let '(answer, w) := file_read u w in Some (finish_get t answer w)
  | gt_done _ => None
  end.

(** ** Calls and changes of the file by others *)
Definition fresh_turn (u : Turn) (w : TokenWorld) : Prop := tw_versions w !! tu_key u = None ∧ tu_inode u ∉ tw_inodes w.
Inductive token_step : TokenWorld → TokenWorld → Prop :=
  | ts_call t w :
      tw_calls w !! t = None →
      token_step w (MkTokenWorld (tw_file w) (tw_versions w) (tw_inodes w) (tw_entry w) (tw_lock w)
                      (<[t := MkCall gt_entry (text_of (tw_file w))]> (tw_calls w)))
  | ts_turn t c u w w' :
      tw_calls w !! t = Some c → fresh_turn u w → get_turn t (cl_pc c) u w = Some w' → token_step w w'
  | ts_return t c w :
      tw_calls w !! t = Some c → (∃ answer, cl_pc c = gt_done answer) →
      token_step w (MkTokenWorld (tw_file w) (tw_versions w) (tw_inodes w) (tw_entry w) (tw_lock w) (delete t (tw_calls w)))
  | ts_rotate caller group token inode key file w :
      tw_versions w !! key = None → inode ∉ tw_inodes w → rotate_token_file caller group token inode key (tw_file w) = Some file →
      token_step w (set_file file w)
  (** anybody else replaces the file or changes its owner or mode: a new version *)
  | ts_replace f w : tw_versions w !! tf_key f = None → token_step w (set_file (Some f) w)
  | ts_remove w : token_step w (set_file None w).
End cache.
Definition fresh_world (file : option TokenFile) : TokenWorld :=
  set_file file (MkTokenWorld None ∅ ∅ None None ∅).
(** [_token_or_503], [current_local_token]: what a request dependency gets *)
Definition token_or_503 (answer : get_answer) : result bytes :=
  match answer with
  | ga_token value => Ok value
  | ga_unusable _ => Raise (HTTPException 503)
  | ga_missing => Raise OSError
  end.

Example rotated :
  let file := Some (MkTokenFile true true 5 5 420 (b "abc ") 1 1) in
  (read_validated (Some 5) 2 file).1 = rd_token (b "abc") 2 ∧ (read_validated (Some 6) 2 file).1 = rd_unusable true ∧
  (read_validated (Some 5) 2 <$> rotate_token_file (Some 0) 0 (b "def") 2 3 file) = Some (rd_token (b "def") 3, Some (MkTokenFile true true 5 5 384 (b "def") 2 3)).
Proof. by vm_compute. Qed.
