(* ===== verification/ApiTokenFacts.v ===== *)
(** * Facts about the token file cache

    Whoever rotates, removes, replaces or creates the file while calls of [get] are under
    way, a token that is answered was the file's at a moment of the call. *)

From Stdlib Require Import Ascii.
From S2P Require Import Prelude PyVal Bytes ApiToken.
From stdpp Require Import options.
Local Open Scope Z_scope.

Section facts.
Context (uid : option Z) (gid : Z) (links : bool).
Implicit Types w : TokenWorld.

(** ** What is remembered of the file *)
Definition known (w : TokenWorld) (entry : Z * bytes) : Prop := tw_versions w !! entry.1 = Some entry.2.
Definition call_ok (w : TokenWorld) (c : Call) : Prop :=
  match cl_pc c with
  | gt_stat entry => known w entry
  | gt_done (ga_token value) => value ∈ cl_since c
  | _ => True
  end.
Record token_inv (w : TokenWorld) : Prop := {
  ti_file : ∀ f, tw_file w = Some f → tw_versions w !! tf_key f = Some (token_text (tf_content f));
  ti_entry : ∀ e, tw_entry w = Some e → known w e;
  ti_calls : map_Forall (λ _ c, call_ok w c ∧ text_of (tw_file w) ⊆ cl_since c) (tw_calls w);
}.

Lemma call_ok_weaken w w' c extra :
  (∀ k v, tw_versions w !! k = Some v → tw_versions w' !! k = Some v) → call_ok w c → call_ok w' (MkCall (cl_pc c) (extra ++ cl_since c)).
Proof.
  unfold call_ok, known. intros Hv. cbn [cl_pc cl_since]. destruct (cl_pc c) as [|entry| | | | | | | |[value| |]]; try done; [by intros ?%Hv|set_solver].
Qed.
Lemma set_file_inv file w : (∀ f, file = Some f → tw_versions w !! tf_key f = None) → token_inv w → token_inv (set_file file w).
Proof.
  intros Hfresh [Hf He Hc]. assert (Hv : ∀ k v, tw_versions w !! k = Some v → tw_versions (set_file file w) !! k = Some v).
  { intros k v Hk. cbn [tw_versions set_file]. destruct file as [f|]; [|done]. rewrite lookup_insert_ne; [done|]. intros <-. by rewrite Hfresh in Hk. }
  split.
  - cbn [tw_file tw_versions set_file]. intros f ->. by rewrite lookup_insert_eq.
  - cbn [tw_entry set_file]. intros e ?%He. by apply Hv.
  - cbn [tw_calls tw_file]. intros t c. cbn [set_file tw_calls]. rewrite lookup_fmap. intros (c' & Hc' & ->)%fmap_Some.
    destruct (Hc t c' Hc') as [Hp Hs]. split; [by apply call_ok_weaken with w|]. cbn [set_file tw_file note_text cl_since]. set_solver.
Qed.
(** A move of one call. *)
Lemma goto_inv t pc w :
  token_inv w → (∀ c, tw_calls w !! t = Some c → call_ok w (MkCall pc (cl_since c))) → token_inv (goto t pc w).
Proof.
  intros [Hf He Hc] Hpc. split; [done|done|]. intros t' c'. cbn [goto tw_calls tw_file]. destruct (decide (t' = t)) as [->|Hne].
  - rewrite lookup_alter_eq. intros (c & Hc' & ->)%fmap_Some. split; [exact (Hpc c Hc')|]. by apply (Hc t c Hc').
  - rewrite lookup_alter_ne by done. apply Hc.
Qed.
Lemma set_entry_inv e w : token_inv w → (∀ e', e = Some e' → known w e') → token_inv (set_entry e w).
Proof. intros [Hf He Hc] Hk. by split. Qed.
Lemma set_lock_inv l w : token_inv w → token_inv (set_lock l w).
Proof. by intros [Hf He Hc]; split. Qed.

(** What a read answers is the text of the file it leaves. *)
Lemma read_validated_spec u file answer file' :
  read_validated uid u file = (answer, file') →
  match file, file' with
  | Some f, Some f' => tf_content f' = tf_content f ∧ (f' = f ∨ tf_key f' = u)
  | None, None => True
  | _, _ => False
  end ∧
  (∀ value key, answer = rd_token value key → ∃ f, file' = Some f ∧ value = token_text (tf_content f) ∧ key = tf_key f).
Proof.
  unfold read_validated. destruct file as [f|]; [|by intros [= <- <-]].
  destruct (tf_opens f), (tf_regular f); cbn [negb]; try by intros [= <- <-]; split; [split; [done|by left]|].
  destruct (match uid with Some _ => _ | None => _ end); [by intros [= <- <-]; split; [split; [done|by left]|]|].
  assert (tf_content (tighten uid u f) = tf_content f ∧ (tighten uid u f = f ∨ tf_key (tighten uid u f) = u)) as Ht.
  { unfold tighten. destruct (negb _); [|by split; [|left]]. destruct uid; [split; [done|by right]|by split; [|left]]. }
  case_decide; intros [= <- <-]; (split; [done|]); intros value key; [done|]. intros [= <- <-]. by eexists.
Qed.
Lemma file_read_inv u w answer w' :
  token_inv w → fresh_turn u w → file_read uid u w = (answer, w') →
  token_inv w' ∧ dom (tw_calls w') = dom (tw_calls w) ∧
  (∀ value key, answer = rd_token value key → known w' (key, value) ∧ value ∈ text_of (tw_file w')).
Proof.
  intros Hinv [Hfresh _]. unfold file_read. destruct (read_validated uid (tu_key u) (tw_file w)) as [a file'] eqn:Hr. intros [= -> <-].
  apply read_validated_spec in Hr as [Hfile Ha]. destruct (tw_file w) as [f|] eqn:Hf, file' as [f'|]; try done.
  - destruct Hfile as [Hcont Hkey]. destruct (Z.eqb_spec (tf_key f') (tf_key f)) as [He|Hne].
    + split; [done|]. split; [done|]. intros value key (f'' & [= <-] & -> & ->)%Ha. rewrite Hf. cbn [text_of].
      split; [|rewrite Hcont; by left]. unfold known. cbn [fst snd]. rewrite He, Hcont. by apply (ti_file w Hinv).
    + destruct Hkey as [->|Hkey]; [done|]. split; [|split].
      * apply set_file_inv; [|done]. intros ? [= <-]. by rewrite Hkey.
      * cbn [set_file tw_calls]. apply dom_fmap_L.
      * intros value key (f'' & [= <-] & -> & ->)%Ha. cbn [set_file tw_file text_of]. split; [|by left]. unfold known. cbn [set_file tw_versions fst snd].
        by rewrite lookup_insert_eq.
  - split; [done|]. split; [done|]. by intros value key (f'' & ? & _)%Ha.
Qed.
Lemma finish_get_inv t answer w :
  token_inv w → (∀ value key, answer = rd_token value key → known w (key, value) ∧ value ∈ text_of (tw_file w)) → token_inv (finish_get t answer w).
Proof.
  intros Hinv Ha. unfold finish_get, return_. destruct answer as [value key| |].
  - destruct (Ha value key eq_refl) as [Hk Hv]. apply goto_inv.
    + apply set_lock_inv, set_entry_inv; [done|]. by intros ? [= <-].
    + intros c Hc. unfold call_ok. cbn [cl_pc cl_since]. cbn in Hc. destruct (ti_calls w Hinv t c Hc) as [_ Hs]. by apply Hs.
  - by apply goto_inv; [apply set_lock_inv|].
  - by apply goto_inv; [apply set_lock_inv|].
Qed.
Lemma get_turn_inv t pc u w w' c :
  token_inv w → tw_calls w !! t = Some c → cl_pc c = pc → fresh_turn u w → get_turn uid gid links t pc u w = Some w' → token_inv w'.
Proof.
  intros Hinv Hc Hpc Hu Ht. pose proof (file_read_inv u w) as Hread.
  destruct pc as [|[key value]| | | | |inode| | |answer]; cbn [get_turn] in Ht; try (destruct (file_read uid u w) as [a w1] eqn:Hr;
    specialize (Hread a w1 Hinv Hu eq_refl) as (Hi1 & Hd1 & Ha1); injection Ht as <-; destruct a as [value key| |]; try (by apply goto_inv);
    apply finish_get_inv; try done; try (by apply set_entry_inv)).
  - injection Ht as <-. apply goto_inv; [done|]. intros c' _. unfold call_ok. cbn [cl_pc]. destruct (tw_entry w) as [e|] eqn:He; [by apply (ti_entry w Hinv)|done].
  - destruct (tw_file w) as [f|] eqn:Hf; injection Ht as <-; [|by apply goto_inv]. apply goto_inv; [done|]. intros c' Hc'.
    destruct (Z.eqb_spec (tf_key f) key) as [<-|]; [|done]. unfold call_ok. cbn [cl_pc cl_since].
    destruct (ti_calls w Hinv t c Hc) as [Hok Hs]. unfold call_ok in Hok. rewrite Hpc in Hok. unfold known in Hok. cbn [fst snd] in Hok.
    rewrite (ti_file w Hinv f Hf) in Hok. injection Hok as <-. rewrite Hc in Hc'. injection Hc' as <-. apply Hs. rewrite Hf. by left.
  - destruct (tw_lock w); [done|]. injection Ht as <-. by apply goto_inv; [apply set_lock_inv|].
  - destruct Hu as [Hk Hi]. injection Ht as <-. unfold publish_exclusive. destruct (tw_file w); [by apply goto_inv|].
    destruct links; (apply goto_inv; [|done]; apply set_file_inv; [|done]; by intros ? [= <-]).
  - destruct Hu as [Hk Hi]. injection Ht as <-. apply goto_inv; [|done]. unfold fill. destruct (tw_file w) as [f|]; [|done].
    destruct (tf_inode f =? inode); [|done]. apply set_file_inv; [|done]. by intros ? [= <-].
  - done.
Qed.
Lemma token_inv_step w w' : token_step uid gid links w w' → token_inv w → token_inv w'.
Proof.
  intros Hstep Hinv. destruct Hstep as [t w Hn|t c u w w' Hc Hu Ht|t c w Hc _|caller group token inode key file w Hk Hi Hr|f w Hk|w].
  - destruct Hinv as [Hf He Hcs]. split; [done|done|]. cbn [tw_calls tw_file]. apply map_Forall_insert; [done|]. split; [|done]. by split.
  - by eapply get_turn_inv.
  - destruct Hinv as [Hf He Hcs]. split; [done|done|]. cbn [tw_calls tw_file]. by apply map_Forall_delete.
  - apply set_file_inv; [|done]. unfold rotate_token_file in Hr. destruct (tw_file w) as [f|]; [|done].
    destruct (negb _); [done|]. destruct caller as [[|n|n]|]; repeat (destruct (negb _); [done|]); injection Hr as <-; by intros ? [= <-].
  - apply set_file_inv; [|done]. by intros ? [= <-].
  - by apply set_file_inv.
Qed.

(** C20: a token that a call of [get] answers was the text of the token file at a moment
    between the beginning and the end of the call, whoever rotates, removes, replaces or
    creates the file meanwhile: a rotation takes effect with the next call. *)
Theorem token_answer_is_current file w t c value :
  rtc (token_step uid gid links) (fresh_world file) w → tw_calls w !! t = Some c → cl_pc c = gt_done (ga_token value) → value ∈ cl_since c.
Proof.
  intros Hrun Hc Hpc. assert (Hinv : token_inv (fresh_world file)).
  { apply set_file_inv; [done|]. split; [done|done|]. apply map_Forall_empty. }
  assert (token_inv w) as Hw by (clear Hc; induction Hrun as [|x y z Hs _ IH]; [done|by apply IH, (token_inv_step x)]).
  destruct (ti_calls w Hw t c Hc) as [Hok _]. unfold call_ok in Hok. by rewrite Hpc in Hok.
Qed.
(** Where there are hard links, a call changes no token that is there: of several
    creators the first one's token stays. *)
Theorem creation_never_overwrites t pc u w w' f :
  links = true → (∀ inode, pc ≠ gt_fill inode) → tw_file w = Some f → get_turn uid gid links t pc u w = Some w' →
  ∃ f', tw_file w' = Some f' ∧ tf_content f' = tf_content f.
Proof.
  intros Hl Hnf Hf Ht. assert (Hread : ∀ a w1, file_read uid u w = (a, w1) → ∃ f', tw_file w1 = Some f' ∧ tf_content f' = tf_content f).
  { unfold file_read. destruct (read_validated uid (tu_key u) (tw_file w)) as [a file'] eqn:Hr. rewrite Hf in Hr. intros a' w1 [= <- <-].
    apply read_validated_spec in Hr as [Hfile _]. destruct file' as [f'|]; [|done]. rewrite Hf. destruct (tf_key f' =? tf_key f); [by exists f|].
    exists f'. by destruct Hfile. }
  destruct pc as [|[key value]| | | | |inode| | |answer]; cbn [get_turn] in Ht; try (destruct (file_read uid u w) as [a w1] eqn:Hr;
    specialize (Hread a w1 eq_refl) as (f' & Hf' & Hc'); injection Ht as <-; destruct a; exists f'; done).
  - injection Ht as <-. by exists f.
  - rewrite Hf in Ht. injection Ht as <-. by exists f.
  - destruct (tw_lock w); [done|]. injection Ht as <-. by exists f.
  - injection Ht as <-. unfold publish_exclusive. rewrite Hf. by exists f.
  - by destruct (Hnf inode).
  - done.
Qed.
End facts.

(** ** A rotation during a call *)
Definition old_file : TokenFile := MkTokenFile true true 5 5 384 (b "old") 1 1.
Definition turn2 : Turn := MkTurn 10 10 (b "made").
Definition token_turns (t : Z) (n : nat) (w : TokenWorld) : TokenWorld :=
  Nat.iter n (λ w, match tw_calls w !! t with Some c => default w (get_turn (Some 5) 5 true t (cl_pc c) turn2 w) | None => w end) w.
Definition called (t : Z) (w : TokenWorld) : TokenWorld :=
  MkTokenWorld (tw_file w) (tw_versions w) (tw_inodes w) (tw_entry w) (tw_lock w) (<[t := MkCall gt_entry (text_of (tw_file w))]> (tw_calls w)).
Definition before_rotation : TokenWorld := token_turns 1 3 (called 1 (fresh_world (Some old_file))).
Definition after_rotation : TokenWorld := token_turns 2 4 (called 2 (set_file (Some (MkTokenFile true true 5 5 384 (b "new") 2 2)) before_rotation)).
Lemma token_turns_steps t n w :
  fresh_turn turn2 (token_turns t n w) → rtc (token_step (Some 5) 5 true) w (token_turns t n w) →
  rtc (token_step (Some 5) 5 true) w (token_turns t (S n) w).
Proof.
  intros Hu Hr. etrans; [exact Hr|]. change (token_turns t (S n) w) with (match tw_calls (token_turns t n w) !! t with
    | Some c => default (token_turns t n w) (get_turn (Some 5) 5 true t (cl_pc c) turn2 (token_turns t n w)) | None => token_turns t n w end).
  destruct (tw_calls (token_turns t n w) !! t) as [c|] eqn:Hc; [|apply rtc_refl]. destruct (get_turn _ _ _ _ _ _ _) eqn:Ht; cbn [default]; [|apply rtc_refl].
  apply rtc_once. by eapply ts_turn.
Qed.
Lemma token_answer_is_current_witness :
  tw_calls after_rotation !! 2 = Some (MkCall (gt_done (ga_token (b "new"))) [b "new"]) ∧ b "new" ∈ [b "new"].
Proof.
  split; [vm_compute; reflexivity|].
  refine (token_answer_is_current (Some 5) 5 true (Some old_file) after_rotation 2 (MkCall (gt_done (ga_token (b "new"))) [b "new"]) (b "new") _ _ _); [|vm_compute; reflexivity|reflexivity].
  assert (∀ w, bool_decide (tw_versions w !! 10 = None) && bool_decide (10 ∉ tw_inodes w) = true → fresh_turn turn2 w) as Hfresh
    by (intros w Hw; rewrite andb_true_iff, !bool_decide_eq_true in Hw; exact Hw).
  etrans; [|do 4 (apply token_turns_steps; [apply Hfresh; vm_compute; reflexivity|]); apply rtc_refl].
  etrans; [|apply rtc_once, ts_call; vm_compute; reflexivity].
  etrans; [|eapply rtc_once, (ts_rotate _ _ _ (Some 0) 0 (b "new") 2 2); [vm_compute; reflexivity|apply (bool_decide_eq_true_1 (2 ∉ _)); vm_compute; reflexivity|reflexivity]].
  etrans; [|do 3 (apply token_turns_steps; [apply Hfresh; vm_compute; reflexivity|]); apply rtc_refl].
  apply rtc_once, ts_call. reflexivity.
Defined.
