(* ===== verification/RequestGates.v ===== *)
(** * The gates in front of the routes

    web/middleware.py and web/body_limit.py: the layers a request passes in the order of
    web/app_wiring.py (allowed hosts, body limit, effective scheme, HTTPS redirect, first
    run, API credentials, request forgery), each of which answers or hands on.

    The body of a request is the list of the ASGI messages the server still has for it;
    when they are used up the client has gone.  The session lookup is an interface,
    [SessionResolver], which [Sessions.resolve_request_session] implements. *)

From Stdlib Require Import Ascii.
From S2P Require Import Prelude PyVal Bytes Multipart Upload Csrf Sessions IpAddress RequestOrigin.
From stdpp Require Import options.
Local Open Scope Z_scope.

(** ** Messages *)
Inductive message := http_request (body : bytes) (more_body : bool) | http_disconnect.
Definition body_of (m : message) : bytes := match m with http_request body _ => body | http_disconnect => [] end.

(** ** web/body_limit.py *)
Record GateSettings := MkGates {
  (** [None] when the setting is [*] *)
  gs_allowed_hosts : option (list bytes);
  gs_trusted_proxies : list bytes;
  gs_redirect_http_to_https : bool;
  gs_https_port : Z;
  gs_api_token_allowed_clients : list bytes;
  gs_cookie_name : bytes;
  gs_host_prefix : bool;
  gs_max_request_body_bytes : Z;
  gs_max_default_body_bytes : Z;
  gs_max_image_bytes : Z;
  gs_max_upload_bytes : Z;
}.
Definition AUTH_FORM_MAX_BYTES : Z := 64 * 1024.
Definition AUTH_FORM_PATHS : list bytes := b <$> ["/login"; "/first-run"; "/logout"]%string.
Definition DEBUG_API_PREFIX : bytes := b "/api/v1/system/debug/".
Definition URLENCODED_FORM_MAX_BYTES : Z := 1024 * 1024.
Definition UPLOAD_OVERHEAD_BYTES : Z := 64 * 1024.
Definition REPORT_BACKSTOP_MARGIN_BYTES : Z := 1024 * 1024.
Definition URLENCODED_CONTENT_TYPE : bytes := b "application/x-www-form-urlencoded".
Definition REPORT_FORM_PATH : bytes := b "/report".
Definition REPORT_FORM_OVERHEAD_BYTES : Z := 256 * 1024.
Definition starts (s : bytes) (prefix : bytes) : bool := bool_decide (prefix `prefix_of` s).
(** [_FRAME_IMPORT_PATH] and [_FRAME_UPLOAD_PATH], [fullmatch] *)
Definition is_frame_path (prefixed : bool) (last : string) (path : bytes) : bool :=
  match split_at_char "/" path with
  | [[]; api; v1; projects; id; frames; action] =>
      bool_decide (api = b "api") && bool_decide (v1 = b "v1") && bool_decide (projects = b "projects") && negb (bool_decide (id = [])) &&
      bool_decide (frames = b "frames") && bool_decide (action = b last)
  | [[]; projects; id; frames; action] =>
      negb prefixed && bool_decide (projects = b "projects") && negb (bool_decide (id = [])) &&
      bool_decide (frames = b "frames") && bool_decide (action = b last)
  | _ => false
  end.
Definition is_frame_import (path : bytes) : bool := is_frame_path false "import" path.
Definition is_frame_upload (path : bytes) : bool := is_frame_path true "upload" path.
(** [is_urlencoded], [report_body_limit], [body_limit_for] *)
Definition is_urlencoded (content_type : bytes) : bool := starts content_type URLENCODED_CONTENT_TYPE.
Definition report_body_limit (gs : GateSettings) : Z := gs_max_upload_bytes gs + REPORT_FORM_OVERHEAD_BYTES.
Definition POST : bytes := b "POST".
Definition body_limit_for (method path content_type : bytes) (gs : GateSettings) : Z :=
  let post := bool_decide (method = POST) in
  let limit :=
    if bool_decide (path ∈ AUTH_FORM_PATHS) || starts path DEBUG_API_PREFIX then AUTH_FORM_MAX_BYTES
    else if post && is_frame_import path && negb (is_urlencoded content_type) then gs_max_request_body_bytes gs
    else if post && is_frame_upload path && negb (is_urlencoded content_type) then gs_max_image_bytes gs + UPLOAD_OVERHEAD_BYTES
    else if post && bool_decide (path = REPORT_FORM_PATH) then report_body_limit gs + REPORT_BACKSTOP_MARGIN_BYTES
    else if is_urlencoded content_type then URLENCODED_FORM_MAX_BYTES
    else gs_max_default_body_bytes gs in
  Z.min limit (gs_max_request_body_bytes gs).
(** [_declared_length] *)
Definition declared_length (value : option bytes) : option Z :=
  match strip_value <$> value with
  | None | Some [] => None
  | Some raw => if forallb is_digit raw then Some (foldl (λ n c, 10 * n + (char_code c - 48)) 0 raw) else None
  end.
(** [wrapped_receive], for all the messages a layer below may ask for: what it is given,
    with the bytes received so far *)
Fixpoint wrapped_receive (max_bytes received : Z) (messages : list message) : list message :=
  match messages with
  | [] => []
  | http_disconnect :: messages => http_disconnect :: wrapped_receive max_bytes received messages
  | http_request body more :: messages =>
      let received := received + len body in
      (if received >? max_bytes then http_disconnect else http_request body more) :: wrapped_receive max_bytes received messages
  end.
Definition body_bytes (messages : list message) : Z := foldr (λ m n, len (body_of m) + n) 0 messages.

(** ** The session of a request *)
Class SessionResolver (W : Type) :=
  resolve_session : option string → option (option ResolvedSession) → W → result (option ResolvedSession) * option (option ResolvedSession) * W.
(** The answer is kept on the request; without a cookie there is none. *)
Class ResolverLaws W `{SessionResolver W} := {
  resolve_cached cookie answer w : resolve_session cookie (Some answer) w = (Ok answer, Some answer, w);
  resolve_keeps cookie w answer state w' : resolve_session cookie None w = (Ok answer, state, w') → state = Some answer;
  resolve_no_cookie cookie w : cookie = None ∨ cookie = Some EmptyString → (resolve_session cookie None w).1.1 = Ok None;
}.
(** [resolve_request_session] over the tables of a transaction; what the lookup reads
    beside them (times, the directory, what the writes answer) comes with the state. *)
Definition request_sessions (digest : string → string) (cfg : SessionSettings) (window : Z) : SessionResolver (LookupInputs * AuthTxn * option Z) :=
  λ cookie state w,
    let '(i, x, breaker) := w in
    let '(answer, state, x, breaker) := resolve_request_session digest cfg window cookie i state x breaker in
    (answer, state, (i, x, breaker)).
#[export] Instance request_sessions_laws digest cfg window : @ResolverLaws _ (request_sessions digest cfg window).
Proof.
  split; unfold resolve_session, request_sessions, resolve_request_session.
  - by intros cookie answer [[i x] breaker].
  - intros cookie [[i x] breaker] answer state w'. destruct cookie as [[|c s]|]; [by intros [= <- <- _]| |by intros [= <- <- _]].
    destruct (get_session_row _ _ _ _ _ _ _) as [[[a|e] x'] breaker']; [|done]. by intros [= <- <- _].
  - by intros cookie [[i x] breaker] [->| ->].
Qed.

Section gates.
Context `{HeaderLookup} {W : Type} `{SessionResolver W} (gs : GateSettings).

(** [session_cookie_value] as the session layer takes it, [has_session_cookie] *)
Definition session_cookie (https : bool) (r : Request) : option string :=
  String.string_of_list_ascii <$> session_cookie_value (gs_host_prefix gs) https (gs_cookie_name gs) (getlist (b "cookie") (rq_headers r)).
Definition has_session_cookie (https : bool) (r : Request) : bool := bool_decide (is_Some (session_cookie https r)).
Definition content_type (r : Request) : bytes := default [] (header "content-type" r).

(** ** The first layers: [None] hands the request on *)
(** [AllowedHostsMiddleware.__call__] *)
Definition allowed_hosts_gate (r : Request) : option Z :=
  match gs_allowed_hosts gs with
  | None => None
  | Some hosts =>
      match request_host r with
      | Some host => if host_allowed host (hosts ++ ALWAYS_ALLOWED_HOSTS) then None else Some 400
      | None => Some 400
      end
  end.
(** [BodyLimitMiddleware.__call__]: the refusal before anything is read *)
Definition request_limit (r : Request) : Z := body_limit_for (rq_method r) (rq_path r) (content_type r) gs.
Definition body_limit_gate (r : Request) : option Z :=
  match declared_length (header "content-length" r) with
  | Some declared => if declared >? request_limit r then Some 413 else None
  | None => None
  end.
(** [HttpsRedirectMiddleware.__call__] *)
Definition REDIRECT_EXEMPT_PREFIXES : list bytes := b <$> ["/api/"; "/healthz"]%string.
Definition https_redirect_gate (scheme : bytes) (r : Request) : option Z :=
  if negb (existsb (starts (rq_url_path r)) REDIRECT_EXEMPT_PREFIXES) && gs_redirect_http_to_https gs && negb (bool_decide (scheme = HTTPS))
  then Some 308 else None.
(** [_first_run_state]: [latch] is whether the database is in [_SETUP_COMPLETE], [needed]
    what [first_run_needed] answers *)
Inductive setup_state := st_needed | st_complete | st_unknown.
Definition first_run_state (latch : bool) (needed : result bool) : setup_state * bool :=
  if latch then (st_complete, true)
  else match needed with
       | Raise _ => (st_unknown, false)
       | Ok true => (st_needed, false)
       | Ok false => (st_complete, true)
       end.
(** [FirstRunGateMiddleware.__call__] *)
Definition FIRST_RUN_ALLOW_PREFIXES : list bytes := b <$> ["/first-run"; "/static"; "/healthz"; "/api/"]%string.
Definition GATE_PASS_METHODS : list bytes := b <$> ["GET"; "HEAD"]%string.
Definition first_run_gate (latch : bool) (needed : result bool) (r : Request) : option Z * bool :=
  if existsb (starts (rq_url_path r)) FIRST_RUN_ALLOW_PREFIXES then (None, latch)
  else
    let '(state, latch) := first_run_state latch needed in
    match state with
    | st_needed => (Some 303, latch)
    | st_unknown => (if bool_decide (rq_method r ∈ GATE_PASS_METHODS) then None else Some 503, latch)
    | st_complete => (None, latch)
    end.

(** ** [ApiBearerGateMiddleware] *)
Definition SAFE_METHODS : list bytes := b <$> ["GET"; "HEAD"; "OPTIONS"; "TRACE"]%string.
Definition is_safe (r : Request) : bool := bool_decide (rq_method r ∈ SAFE_METHODS).
Definition API_PREFIX : bytes := b "/api/v1/".
Definition API_UNGATED_PREFIXES : list bytes := b <$> ["/api/v1/metrics"; "/api/v1/system/debug"]%string.
(** [api_requires_bearer] *)
Definition api_requires_bearer (r : Request) : bool :=
  negb (is_safe r) && starts (rq_path r) API_PREFIX && negb (existsb (starts (rq_path r)) API_UNGATED_PREFIXES).
Definition local_token (token_file : result bytes) (r : Request) : result () :=
  require_local_token (gs_api_token_allowed_clients gs) (gs_trusted_proxies gs) token_file r.
(** ** security/principal.py: who a route acts for *)
Record Principal := MkPrincipal { pn_user_id : Z; pn_role : user_role }.
Definition SENTINEL_ADMIN_USER_ID : Z := 1.
Definition sentinel_admin : Principal := MkPrincipal SENTINEL_ADMIN_USER_ID rl_admin.
(** [_principal_from_session], on the answer of the session lookup *)
Definition session_principal (allowed : list user_role) (tables : AuthTables) (answer : result (option ResolvedSession)) : result Principal :=
  resolved ← answer;
  user ← principal_from_session allowed tables resolved;
  Ok (MkPrincipal (default 0 (rs_user_id <$> resolved)) (us_role user)).
(** [_principal_from_local_token] *)
Definition principal_from_local_token (token_file : result bytes) (r : Request) : result Principal :=
  _ ← local_token token_file r; Ok sentinel_admin.
(** [require_admin_principal] and [require_operator_or_admin_principal], by the roles *)
Definition require_principal (allowed : list user_role) (https : bool) (token_file : result bytes) (tables : AuthTables) (r : Request)
    (state : option (option ResolvedSession)) (w : W) : result Principal :=
  match session_cookie https r with
  | Some cookie => session_principal allowed tables (resolve_session (Some cookie) state w).1.1
  | None => principal_from_local_token token_file r
  end.
(** [require_metrics_reader]: [None] is a reader that is no user *)
Definition token_matches (peer : bool) (received : bytes) (token_file : result bytes) : result bool :=
  if peer then expected ← token_file; Ok (verify_token received expected) else Ok false.
Definition require_metrics_reader (metrics_allowed_clients : list bytes) (https : bool) (token_file metrics_file : result bytes) (tables : AuthTables)
    (r : Request) (state : option (option ResolvedSession)) (w : W) : result (option Principal) :=
  match session_cookie https r with
  | Some cookie => principal ← session_principal [rl_admin] tables (resolve_session (Some cookie) state w).1.1; Ok (Some principal)
  | None =>
      let admin_peer := peer_allowed (gs_api_token_allowed_clients gs) (gs_trusted_proxies gs) true r in
      let metrics_peer := peer_allowed metrics_allowed_clients (gs_trusted_proxies gs) false r in
      if negb (admin_peer || metrics_peer) then Raise (HTTPException 403)
      else
        match extract_bearer r with
        | None => Raise (HTTPException 401)
        | Some received =>
            is_admin ← token_matches admin_peer received token_file;
            if (is_admin : bool) then Ok (Some sentinel_admin)
            else is_reader ← token_matches metrics_peer received metrics_file;
                 if (is_reader : bool) then Ok None else Raise (HTTPException 401)
        end
  end.

(** A hop to the database: the state before it, the tables of the live check, and whether
    its transaction commits *)
Record Hop := MkHop { hp_tables : AuthTables; hp_commits : bool }.
(** The status an exception becomes in [_credential_refusal] *)
Definition refusal_of (e : pyexc) : Z := match e with HTTPException status => status | _ => 503 end.
(** [_credential_refusal] *)
Definition credential_refusal (https : bool) (token_file : result bytes) (hop : Hop) (r : Request) (state : option (option ResolvedSession)) (w : W)
    : option Z * option (option ResolvedSession) * W :=
  match local_token token_file r with
  | Raise e => (Some (refusal_of e), state, w)
  | Ok _ =>
      if negb (has_session_cookie https r) then (None, state, w)
      else
        match resolve_session (session_cookie https r) state w with
        | (Raise e, state, w) => (Some (refusal_of e), state, w)
        | (Ok resolved, state, w) =>
            let user := resolved ≫= live_principal_from_cache (hp_tables hop) in
            (if negb (hp_commits hop) then Some 503 else match user with Some _ => None | None => Some 401 end, state, w)
        end
  end.
(** [ApiBearerGateMiddleware.__call__] *)
Definition or_falsy (value : option bytes) : bool := match value with None | Some [] => false | Some _ => true end.
Definition api_gate (https : bool) (token_file : result bytes) (hop : Hop) (r : Request) (state : option (option ResolvedSession)) (w : W)
    : option Z * option (option ResolvedSession) * W :=
  if negb (api_requires_bearer r) then (None, state, w)
  else if or_falsy (extract_bearer r) || has_session_cookie https r then credential_refusal https token_file hop r state w
  else
    (match enforce_token_peer (gs_api_token_allowed_clients gs) (gs_trusted_proxies gs) r with
     | Ok _ => Some 401
     | Raise e => Some (refusal_of e)
     end, state, w).

(** ** [_BodyRecorder]: what was pulled from the server, and what it still has *)
Record Recorder := MkRecorder { rc_messages : list message; rc_server : list message }.
Definition recorder_receive (rc : Recorder) : message * Recorder :=
  match rc_server rc with
  | m :: server => (m, MkRecorder (rc_messages rc ++ [m]) server)
  | [] => (http_disconnect, MkRecorder (rc_messages rc ++ [http_disconnect]) [])
  end.
Definition replaying_receive (rc : Recorder) : list message := rc_messages rc ++ rc_server rc.

(** ** The presented token *)
Definition CSRF_FORM_FIELD : bytes := b "csrf_token".
(** The events of one feed in [_streamed_first_part_token]: an answer, or to go on *)
Fixpoint scan_events (value : bytes) (started : bool) (events : list MultipartEvent) : option (option text) * bytes * bool :=
  match events with
  | [] => (None, value, started)
  | PartStart name filename _ :: events =>
      if started || negb (bool_decide (name = CSRF_FORM_FIELD)) || bool_decide (is_Some filename) then (Some None, value, started)
      else scan_events value true events
  | PartData data :: events => scan_events (value ++ data) started events
  | PartEnd :: _ => (Some (Some (utf8_decode (take (Z.to_nat MAX_FIELD_BYTES) value))), value, started)
  | FormEnd :: _ => (Some None, value, started)
  end.
(** The loop, over the messages the server has *)
Fixpoint first_part_loop (delimiter : bytes) (p : MultipartParser) (value : bytes) (started : bool) (recorded server : list message)
    : option text * Recorder :=
  match server with
  | [] => (None, MkRecorder (recorded ++ [http_disconnect]) [])
  | http_disconnect :: server => (None, MkRecorder (recorded ++ [http_disconnect]) server)
  | (http_request body more as m) :: server =>
      let recorded := recorded ++ [m] in
      match feed delimiter p body with
      | Raise _ => (None, MkRecorder recorded server)
      | Ok (p, events) =>
          match scan_events value started events with
          | (Some answer, _, _) => (answer, MkRecorder recorded server)
          | (None, value, started) =>
              if more then first_part_loop delimiter p value started recorded server else (None, MkRecorder recorded server)
          end
      end
  end.
(** [_streamed_first_part_token] *)
Definition streamed_first_part_token (rc : Recorder) (content_type : bytes) : option text * Recorder :=
  match multipart_boundary content_type with
  | None => (None, rc)
  | Some boundary => first_part_loop (delimiter_of boundary) new_parser [] false (rc_messages rc) (rc_server rc)
  end.
(** [read_body_limited], or [request.body()] without a limit: the messages are read to the
    last one of the body, unless the limit is passed or the client goes first *)
Definition over (limit : option Z) (total : Z) : bool := match limit with Some limit => total >? limit | None => false end.
Fixpoint read_stream (limit : option Z) (total : Z) (recorded server : list message) : result bytes * Recorder :=
  match server with
  | [] => (Raise (ConnectError "ClientDisconnect"), MkRecorder (recorded ++ [http_disconnect]) [])
  | http_disconnect :: server => (Raise (ConnectError "ClientDisconnect"), MkRecorder (recorded ++ [http_disconnect]) server)
  | (http_request body more as m) :: server =>
      let recorded := recorded ++ [m] in
      let total := total + len body in
      if over limit total then (Raise BodyTooLargeError, MkRecorder recorded server)
      else if more then let '(rest, rc) := read_stream limit total recorded server in (rest ≫= λ rest, Ok (body ++ rest), rc)
      else (Ok body, MkRecorder recorded server)
  end.
Definition read_body (limit : option Z) (rc : Recorder) : result bytes * Recorder := read_stream limit 0 (rc_messages rc) (rc_server rc).
(** [_multipart_body] *)
Definition multipart_body (r : Request) (rc : Recorder) : result bytes * Recorder :=
  read_body (if decide (rq_url_path r = REPORT_FORM_PATH) then Some (report_body_limit gs) else None) rc.
(** [urllib.parse.parse_qsl] on UTF-8 text: pairs with a value, decoded *)
Definition plus_to_space (c : ascii) : ascii := if Ascii.eqb c "+" then " "%char else c.
Definition parse_qsl (body : bytes) : list (text * text) :=
  omap (λ pair, match partition_at "=" pair with
                | (name, true, (_ :: _) as value) => Some (unquoted (plus_to_space <$> name), unquoted (plus_to_space <$> value))
                | _ => None
                end) (split_at_char "&" body).
(** [dict(pairs).get(name)]: the last value *)
Definition last_value (name : text) (pairs : list (text * text)) : option text :=
  last (omap (λ p, if decide (p.1 = name) then Some p.2 else None) pairs).
(** [parsed_form], reading the field *)
Definition form_token (r : Request) (decodes : bytes → bool) (rc : Recorder) : result (option text) * Recorder :=
  if negb (is_urlencoded (content_type r)) then (Ok None, rc)
  else
    match read_body (Some (request_limit r)) rc with
    | (Raise BodyTooLargeError, rc) => (Raise (HTTPException 413), rc)
    | (Raise e, rc) => (Raise e, rc)
    | (Ok body, rc) => (if decodes body then Ok (last_value (points CSRF_FORM_FIELD) (parse_qsl body)) else Raise UnicodeError, rc)
    end.
Definition MULTIPART : bytes := b "multipart/form-data".
(** [_presented_token] *)
Definition presented_token (r : Request) (decodes : bytes → bool) (rc : Recorder) : result (option text) * Recorder :=
  match header "x-csrf-token" r with
  | Some ((_ :: _) as token) => (Ok (Some (codes token)), rc)
  | _ =>
      let multipart := starts (content_type r) MULTIPART in
      if multipart && is_frame_import (rq_path r) then let '(token, rc) := streamed_first_part_token rc (content_type r) in (Ok token, rc)
      else if is_frame_import (rq_path r) || is_frame_upload (rq_path r) then (Ok None, rc)
      else if multipart then
        match multipart_body r rc with
        | (Raise e, rc) => (Raise e, rc)
        | (Ok body, rc) => (Ok (form_fields (parse_multipart body (content_type r)) !! CSRF_FORM_FIELD), rc)
        end
      else form_token r decodes rc
  end.

(** ** [CsrfMiddleware] *)
Inductive expected := ex_none | ex_deny | ex_secret (secret : text).
(** [_expected_secret] *)
Definition expected_secret (https : bool) (commits : bool) (r : Request) (state : option (option ResolvedSession)) (w : W)
    : expected * option (option ResolvedSession) * W :=
  match session_cookie https r with
  | None | Some EmptyString => (ex_none, state, w)
  | cookie =>
      match resolve_session cookie state w with
      | (Raise _, _, w) => (ex_deny, None, w)
      | (Ok resolved, state, w) =>
          if negb commits then (ex_deny, None, w)
          else match resolved with
               | None => (ex_none, state, w)
               | Some session => (match rs_csrf_secret session with EmptyString => ex_deny | secret => ex_secret (codes (b secret)) end, state, w)
               end
      end
  end.
Inductive verdict :=
  | answered (status : Z)
  | raised (e : pyexc)
  (** handed on, with the messages the next layer receives *)
  | passed (messages : list message).
Definition too_large (e : pyexc) : bool := match e with BodyTooLargeError => true | HTTPException status => status =? 413 | _ => false end.
(** [CsrfMiddleware.__call__]: the verdict, the messages it pulled, and the session kept on
    the request *)
Definition csrf_gate (https : bool) (commits : bool) (decodes : bytes → bool) (r : Request) (messages : list message)
    (state : option (option ResolvedSession)) (w : W) : verdict * list message * option (option ResolvedSession) * W :=
  if is_safe r || negb (has_session_cookie https r) then (passed messages, [], state, w)
  else
    let '(expect, state, w) := expected_secret https commits r state w in
    let '(answer, pulled) :=
      match expect with
      | ex_none => (passed messages, [])
      | ex_deny => (answered 403, [])
      | ex_secret secret =>
          if fetch_site_rejected (header "sec-fetch-site" r) then (answered 403, [])
          else
            match presented_token r decodes (MkRecorder [] messages) with
            | (Raise e, rc) => (if too_large e then answered 413 else raised e, rc_messages rc)
            | (Ok presented, rc) => (if verify_csrf (Some secret) presented then passed (replaying_receive rc) else answered 403, rc_messages rc)
            end
      end in
    (answer, pulled, state, w).

(** ** The whole stack, as [mount_web] orders it

    [handle] answers what happens to a request: a status, an exception, or the route with
    the client and scheme it is given, its messages and the session kept on the request. *)
Record Surroundings := MkSurroundings {
  su_needed : result bool;
  su_token_file : result bytes;
  su_api_hop : Hop;
  su_csrf_commits : bool;
  (** [bytes.decode("utf-8")] *)
  su_decodes : bytes → bool;
}.
Inductive GateOutcome :=
  | refused (status : Z)
  | failed (e : pyexc)
  | routed (client scheme : bytes) (messages : list message) (state : option (option ResolvedSession)) (w : W).
(** [BodyLimitMiddleware] once a layer below has pulled [pulled] of the messages: past the
    limit, its 413 stands for whatever they answer or raise *)
Definition overflowed (r : Request) (messages pulled : list message) : bool :=
  body_bytes (take (length pulled) messages) >? request_limit r.
Definition handle (latch : bool) (su : Surroundings) (r : Request) (messages : list message) (w : W) : GateOutcome * bool :=
  match allowed_hosts_gate r with Some status => (refused status, latch) | None =>
  match body_limit_gate r with Some status => (refused status, latch) | None =>
  let '(client, scheme) := resolve_effective_client (gs_trusted_proxies gs) r in
  let https := bool_decide (scheme = HTTPS) in
  match https_redirect_gate scheme r with Some status => (refused status, latch) | None =>
  match first_run_gate latch (su_needed su) r with (Some status, latch) => (refused status, latch) | (None, latch) =>
  match api_gate https (su_token_file su) (su_api_hop su) r None w with (Some status, _, _) => (refused status, latch) | (None, state, w) =>
  match csrf_gate https (su_csrf_commits su) (su_decodes su) r (wrapped_receive (request_limit r) 0 messages) state w with
  | (answered status, pulled, _, _) => (refused (if overflowed r messages pulled then 413 else status), latch)
  | (raised e, pulled, _, _) => (if overflowed r messages pulled then refused 413 else failed e, latch)
  | (passed messages, _, state, w) => (routed client scheme messages state w, latch)
  end end end end end end.
End gates.
