(* ===== verification/RequestGatesFacts.v ===== *)
(** * Facts about the gates

    A request reaches its route only past every gate; it acts for a session only with that
    session's token; and the route sees the body as it came, within its limit. *)

From Stdlib Require Import Ascii.
From S2P Require Import Prelude PyVal PyTime Bytes Multipart Upload Csrf Sessions SessionsFacts IpAddress RequestOrigin RequestGates.
From stdpp Require Import options.
Local Open Scope Z_scope.

(** ** The body *)
Lemma chunk_len_nonneg s : 0 ≤ len s.
Proof. unfold len. lia. Qed.
Lemma body_bytes_nonneg messages : 0 ≤ body_bytes messages.
Proof. induction messages as [|m messages IH]; cbn [body_bytes foldr]; [done|]. pose proof (chunk_len_nonneg (body_of m)). unfold body_bytes in IH. lia. Qed.
Lemma wrapped_spent max received messages : max < received → body_bytes (wrapped_receive max received messages) = 0.
Proof.
  revert received. induction messages as [|[body more|] messages IH]; intros received Hr; cbn [wrapped_receive]; [done| |by apply IH].
  pose proof (chunk_len_nonneg body). rewrite (proj2 (Z.gtb_lt _ _)) by lia. apply IH. lia.
Qed.
Lemma wrapped_bound max received messages : received ≤ max → received + body_bytes (wrapped_receive max received messages) ≤ max.
Proof.
  revert received. induction messages as [|[body more|] messages IH]; intros received Hr; cbn [wrapped_receive]; [by rewrite Z.add_0_r| |by apply IH].
  rewrite Z.gtb_ltb. destruct (Z.ltb_spec max (received + len body)) as [Ho|Hle].
  - change (body_bytes (http_disconnect :: ?l)) with (body_bytes l).
    change (body_bytes (http_disconnect :: wrapped_receive max (received + len body) messages)) with (body_bytes (wrapped_receive max (received + len body) messages)).
    rewrite wrapped_spent by done. lia.
  - change (body_bytes (http_request body more :: wrapped_receive max (received + len body) messages))
      with (len body + body_bytes (wrapped_receive max (received + len body) messages)). specialize (IH _ Hle). lia.
Qed.
Lemma wrapped_id max received messages : received + body_bytes messages ≤ max → wrapped_receive max received messages = messages.
Proof.
  revert received. induction messages as [|[body more|] messages IH]; intros received Hr; cbn [wrapped_receive]; [done| |by f_equal; apply IH].
  change (body_bytes (http_request body more :: messages)) with (len body + body_bytes messages) in Hr. pose proof (body_bytes_nonneg messages).
  rewrite Z.gtb_ltb. destruct (Z.ltb_spec max (received + len body)); [lia|]. f_equal. apply IH. lia.
Qed.

(** ** The recorder: what was pulled for a token is there for the route *)
Lemma read_stream_keeps limit total recorded server body rc :
  read_stream limit total recorded server = (Ok body, rc) → replaying_receive rc = recorded ++ server.
Proof.
  revert total recorded body. induction server as [|[chunk more|] server IH]; intros total recorded body; cbn [read_stream]; [done| |done].
  destruct (over _ _); [done|]. destruct more.
  - destruct (read_stream _ _ _ _) as [[rest|] rc'] eqn:Hr; [|done]. intros [= _ <-]. rewrite (IH _ _ _ Hr). by rewrite <- app_assoc.
  - intros [= _ <-]. unfold replaying_receive. cbn [rc_messages rc_server]. by rewrite <- app_assoc.
Qed.
Lemma first_part_keeps delimiter p value started recorded server token rc :
  first_part_loop delimiter p value started recorded server = (Some token, rc) → replaying_receive rc = recorded ++ server.
Proof.
  revert p value started recorded. induction server as [|[chunk more|] server IH]; intros p value started recorded; cbn [first_part_loop]; [done| |done].
  destruct (feed _ _ _) as [[p' events]|]; [|done]. destruct (scan_events _ _ _) as [[[answer|] value'] started'].
  - intros [= _ <-]. unfold replaying_receive. cbn [rc_messages rc_server]. by rewrite <- app_assoc.
  - destruct more; [|done]. intros Hr. rewrite (IH _ _ _ _ Hr). by rewrite <- app_assoc.
Qed.

Section gates.
Context `{HeaderLookup} {W : Type} `{SessionResolver W} (gs : GateSettings).
Lemma presented_keeps r decodes messages token rc :
  presented_token gs r decodes (MkRecorder [] messages) = (Ok (Some token), rc) → replaying_receive rc = messages.
Proof.
  unfold presented_token, streamed_first_part_token, multipart_body, form_token, read_body. cbn [rc_messages rc_server].
  assert (Hbody : ∀ limit f (answer : option text), match read_stream limit 0 [] messages with (Raise e, rc) => (Raise e, rc) | (Ok body, rc) => (f body, rc) end =
    (Ok answer, rc) → replaying_receive rc = messages).
  { intros limit f answer. destruct (read_stream limit 0 [] messages) as [[body|] rc'] eqn:Hr; [|done]. intros [= _ <-]. by apply read_stream_keeps in Hr. }
  destruct (header "x-csrf-token" r) as [[|c t]|]; try (by intros [= _ <-]).
  all: destruct (starts _ MULTIPART && is_frame_import _).
  1, 3: destruct (multipart_boundary _) as [boundary|]; [|done];
    (destruct (first_part_loop _ _ _ _ _ _) as [[a|] rc'] eqn:Hf; [|done]); intros [= _ <-]; by apply first_part_keeps in Hf.
  all: destruct (is_frame_import _ || is_frame_upload _); [done|]; destruct (starts _ MULTIPART).
  1, 3: intros Hp; exact (Hbody _ (λ body, Ok (form_fields (parse_multipart body (content_type r)) !! CSRF_FORM_FIELD)) _ Hp).
  all: destruct (negb _); [done|]; destruct (read_stream _ 0 [] messages) as [[body|e] rc'] eqn:Hr; [|by destruct e].
  all: intros [= _ <-]; by apply read_stream_keeps in Hr.
Qed.
Lemma csrf_gate_passes https commits decodes r messages state w messages' pulled state' w' :
  csrf_gate gs https commits decodes r messages state w = (passed messages', pulled, state', w') → messages' = messages.
Proof.
  unfold csrf_gate. destruct (is_safe r || _); [by intros [= <- _ _ _]|]. destruct (expected_secret _ _ _ _ _ _) as [[[| |secret] st] v]; try done; [by intros [= <- _ _ _]|].
  destruct (fetch_site_rejected _); [done|]. destruct (presented_token _ _ _ _) as [[[token|]|e] rc] eqn:Hp.
  - destruct (verify_csrf _ _); [|done]. intros [= <- _ _ _]. by apply presented_keeps in Hp.
  - by destruct secret.
  - by destruct (too_large e).
Qed.

(** What a request that is routed has passed. *)
Lemma handle_routed latch su r messages w client scheme ms state w' latch' :
  handle gs latch su r messages w = (routed client scheme ms state w', latch') →
  let https := bool_decide (scheme = HTTPS) in
  allowed_hosts_gate gs r = None ∧ body_limit_gate gs r = None ∧ resolve_effective_client (gs_trusted_proxies gs) r = (client, scheme) ∧
  https_redirect_gate gs scheme r = None ∧ first_run_gate latch (su_needed su) r = (None, latch') ∧
  ∃ st1 w1 pulled, api_gate gs https (su_token_file su) (su_api_hop su) r None w = (None, st1, w1) ∧
    csrf_gate gs https (su_csrf_commits su) (su_decodes su) r (wrapped_receive (request_limit gs r) 0 messages) st1 w1 = (passed ms, pulled, state, w').
Proof.
  unfold handle. destruct (allowed_hosts_gate gs r); [done|]. destruct (body_limit_gate gs r); [done|].
  destruct (resolve_effective_client _ r) as [c s]. destruct (https_redirect_gate gs s r) eqn:Hr; [done|].
  destruct (first_run_gate latch _ r) as [[?|] l] eqn:Hf; [done|].
  destruct (api_gate gs _ _ _ r None w) as [[[?|] st1] w1] eqn:Ha; [done|].
  destruct (csrf_gate gs _ _ _ r _ st1 w1) as [[[v pulled] st2] w2] eqn:Hc. destruct v; [done| |].
  - by destruct (overflowed _ _ _ _).
  - intros [= <- <- <- <- <- <-]. split_and!; try done. eauto.
Qed.

(** What reaches the route is the body as the server received it, though the layers
    in front may have read it for a token, cut off at the limit of the route: never more
    bytes than the limit, and all of them when they fit. *)
Theorem body_reaches_route latch su r messages w client scheme ms state w' latch' :
  handle gs latch su r messages w = (routed client scheme ms state w', latch') → 0 ≤ request_limit gs r →
  ms = wrapped_receive (request_limit gs r) 0 messages ∧ body_bytes ms ≤ request_limit gs r ≤ gs_max_request_body_bytes gs ∧
  (body_bytes messages ≤ request_limit gs r → ms = messages).
Proof.
  intros (_ & _ & _ & _ & _ & st1 & w1 & pulled & _ & Hc)%handle_routed Hl. apply csrf_gate_passes in Hc as ->. split; [done|]. split.
  - pose proof (wrapped_bound (request_limit gs r) 0 messages Hl). split; [lia|]. unfold request_limit, body_limit_for. apply Z.le_min_r.
  - intros Hfit. by apply wrapped_id.
Qed.


(** ** The session a request acts for *)
Context `{!ResolverLaws W}.
(** A resolution leaves its answer on the request. *)
Lemma resolved_is_kept cookie state w answer state' w' : resolve_session cookie state w = (Ok answer, state', w') → state' = Some answer.
Proof using Type*.
  destruct state as [a|]; [|by intros ?%resolve_keeps]. rewrite resolve_cached. by intros [= -> <- _].
Qed.
Definition no_cookie (cookie : option string) : Prop := cookie = None ∨ cookie = Some EmptyString.
Lemma resolve_nothing cookie state w answer state' w' :
  no_cookie cookie → state = None ∨ state = Some None → resolve_session cookie state w = (Ok answer, state', w') → answer = None.
Proof using Type*.
  intros Hn [->| ->] Hr; [|rewrite resolve_cached in Hr; by injection Hr as <- _ _]. pose proof (resolve_no_cookie cookie w Hn) as Ha.
  rewrite Hr in Ha. by injection Ha.
Qed.
Lemma api_gate_state https token_file hop r w state' w' :
  no_cookie (session_cookie gs https r) → api_gate gs https token_file hop r None w = (None, state', w') → state' = None ∨ state' = Some None.
Proof using Type*.
  intros Hn. unfold api_gate, credential_refusal. destruct (negb _); [intros [= <- _]; by left|].
  destruct (or_falsy _ || _); [|by destruct (enforce_token_peer _ _ r)].
  destruct (local_token gs _ r); [|done]. destruct (negb _); [intros [= <- _]; by left|].
  destruct (resolve_session _ None w) as [[[answer|e] st] v] eqn:Hr; [|done]. intros [= _ <- _]. right. pose proof (resolved_is_kept _ _ _ _ _ _ Hr) as ->.
  f_equal. by eapply resolve_nothing; [exact Hn|left|exact Hr].
Qed.
Lemma csrf_gate_session https commits decodes r messages state w ms pulled state' w' :
  csrf_gate gs https commits decodes r messages state w = (passed ms, pulled, state', w') → is_safe r = false →
  (no_cookie (session_cookie gs https r) ∧ state' = state) ∨ state' = Some None ∨
  ∃ session token rc, state' = Some (Some session) ∧ fetch_site_rejected (header "sec-fetch-site" r) = false ∧
    presented_token gs r decodes (MkRecorder [] messages) = (Ok (Some token), rc) ∧
    verify_csrf (Some (codes (b (rs_csrf_secret session)))) (Some token) = true.
Proof using Type*.
  intros Hc Hs. unfold csrf_gate in Hc. rewrite Hs in Hc. cbn [orb] in Hc. unfold has_session_cookie in Hc.
  destruct (session_cookie gs https r) as [cookie|] eqn:Hck; cycle 1.
  { rewrite bool_decide_false in Hc by (by intros []). cbn [negb] in Hc. injection Hc as _ _ <- _. left. split; [by left|done]. }
  rewrite bool_decide_true in Hc by done. cbn [negb] in Hc. unfold expected_secret in Hc. rewrite Hck in Hc.
  destruct cookie as [|c cookie]; [injection Hc as _ _ <- _; left; split; [by right|done]|]. right.
  destruct (resolve_session _ state w) as [[[answer|e] st] v] eqn:Hr; [|done]. pose proof (resolved_is_kept _ _ _ _ _ _ Hr) as ->.
  destruct (negb commits); [done|]. destruct answer as [session|]; [|injection Hc as _ _ <- _; by left]. right.
  destruct (rs_csrf_secret session) as [|x secret] eqn:Hsec; [done|]. destruct (fetch_site_rejected _) eqn:Hfs; [done|].
  destruct (presented_token _ _ _ _) as [[[token|]|e] rc] eqn:Hp; [| |by destruct (too_large e)].
  - destruct (verify_csrf _ (Some token)) eqn:Hv; [|done]. injection Hc as _ _ <- _. exists session, token, rc. by rewrite Hsec.
  - done.
Qed.
(** C17: a request that changes something acts for a session only with a token of that
    session: whatever the route asks for later, it is given a user only if the request
    presented, in its header or its form, a value that verifies against the secret of the
    session that user is taken from, and did not come from another site. *)
Theorem session_needs_token latch su r messages w client scheme ms state w1 latch' later resolved state2 w2 allowed tables user :
  handle gs latch su r messages w = (routed client scheme ms state w1, latch') → is_safe r = false →
  resolve_session (session_cookie gs (bool_decide (scheme = HTTPS)) r) state later = (Ok resolved, state2, w2) →
  principal_from_session allowed tables resolved = Ok user →
  ∃ session token rc, resolved = Some session ∧ rs_user_id session ∈ dom (at_users tables) ∧ fetch_site_rejected (header "sec-fetch-site" r) = false ∧
    presented_token gs r (su_decodes su) (MkRecorder [] ms) = (Ok (Some token), rc) ∧
    verify_csrf (Some (codes (b (rs_csrf_secret session)))) (Some token) = true.
Proof using Type*.
  intros (_ & _ & _ & _ & _ & st1 & v1 & pulled & Ha & Hc)%handle_routed Hs Hr Hp. pose proof (csrf_gate_passes _ _ _ _ _ _ _ _ _ _ _ Hc) as Hms.
  assert (∃ session, resolved = Some session ∧ rs_user_id session ∈ dom (at_users tables)) as (session & -> & Hu).
  { unfold principal_from_session, require_authenticated_session in Hp. destruct resolved as [session|]; [|done]. exists session. split; [done|].
    cbn [mbind option_bind] in Hp. unfold live_principal_from_cache in Hp. destruct (List.find _ _); [|done]. destruct (_ || _); [done|].
    destruct (at_users tables !! rs_user_id session) eqn:Hl; [|done]. by eapply elem_of_dom_2. }
  destruct (csrf_gate_session _ _ _ _ _ _ _ _ _ _ _ Hc Hs) as [[Hn ->]|[->|(session' & token & rc & -> & Hf & Ht & Hv)]].
  - apply api_gate_state in Ha; [|done]. pose proof (resolve_nothing _ _ _ _ _ _ Hn Ha Hr). done.
  - rewrite resolve_cached in Hr. done.
  - rewrite resolve_cached in Hr. injection Hr as <- _ _. rewrite Hms. by exists session', token, rc.
Qed.
End gates.

(** The metrics token reads and no more: a principal for the metrics is an administrator's
    live session, or the local token from a peer it is accepted from; the reader without a
    principal had the metrics token from a peer of its own list. *)
Theorem metrics_reader_exact `{HeaderLookup} {W : Type} `{SessionResolver W} (gs : GateSettings) clients https token_file metrics_file tables r state w answer :
  require_metrics_reader gs clients https token_file metrics_file tables r state w = Ok answer →
  match session_cookie gs https r, answer with
  | Some _, Some principal => pn_role principal = rl_admin ∧ pn_user_id principal ∈ dom (at_users tables)
  | None, Some principal => principal = sentinel_admin ∧ local_token gs token_file r = Ok ()
  | None, None => peer_allowed clients (gs_trusted_proxies gs) false r = true ∧
                  ∃ received expected, extract_bearer r = Some received ∧ metrics_file = Ok expected ∧ verify_token received expected = true
  | Some _, None => False
  end.
Proof.
  unfold require_metrics_reader. destruct (session_cookie gs https r) as [cookie|].
  - unfold session_principal. destruct (resolve_session _ state w).1.1 as [resolved|]; [|done]. cbn [mbind result_bind].
    unfold principal_from_session, require_authenticated_session, require_role. destruct resolved as [session|]; [|done]. cbn [mbind option_bind].
    unfold live_principal_from_cache. destruct (List.find _ _); [|done]. destruct (_ || _); [done|].
    destruct (at_users tables !! rs_user_id session) as [user|] eqn:Hu; [|done]. destruct (us_enabled user); [|done]. cbn [mbind result_bind].
    case_bool_decide as Hr; [|done]. cbn [mbind result_bind]. intros [= <-]. cbn. split; [by apply list_elem_of_singleton in Hr|by eapply elem_of_dom_2].
  - destruct (negb _); [done|]. unfold local_token, require_local_token, enforce_token_peer. destruct (extract_bearer r) as [received|]; [|done].
    unfold token_matches. destruct (peer_allowed (gs_api_token_allowed_clients gs) _ true r), (peer_allowed clients _ false r);
      destruct token_file as [expected|]; try done; cbn [mbind result_bind]; try (destruct (verify_token received expected); [by intros [= <-]|]);
      try done; destruct metrics_file as [m|]; try done; cbn [mbind result_bind]; (destruct (verify_token received m) eqn:Hv; [|done]); intros [= <-]; eauto 10.
Qed.

(** ** A form posted by a signed-in user *)
Definition site_gates : GateSettings := MkGates (Some [b "cam.example"]) [] true 443 [b "127.0.0.1"] (b "sid") true 1000 500 200 300.
#[local] Instance site_sessions : SessionResolver (LookupInputs * AuthTxn * option Z) := request_sessions plain demo_cfg 60.
#[local] Existing Instance first_value.
Definition site_state : LookupInputs * AuthTxn * option Z := (plain_visit 120, MkAuthTxn login_tables login_tables false, None).
Definition quiet_site : Surroundings := MkSurroundings (Ok false) (Ok (b "secret")) (MkHop login_tables true) true (λ _, true).
Definition signed_post : Request :=
  MkRequest POST (b "/projects/3/rename") None [] (Some (b "203.0.113.5"))
    [(b "host", b "cam.example"); (b "cookie", b "__Host-sid=s2.A"); (b "content-type", URLENCODED_CONTENT_TYPE)]
    HTTPS (b "/projects/3/rename") (Some (b "cam.example")).
Definition signed_body : list message := [http_request (b "name=x&csrf_to") true; http_request (b "ken=AUI") false].
Definition signed_session : ResolvedSession := MkResolved 1 1 rl_admin "C" as_local false.
Definition signed_result : GateOutcome * bool := handle site_gates false quiet_site signed_post signed_body site_state.
Lemma signed_routed :
  ∃ w, signed_result = (routed (b "203.0.113.5") HTTPS signed_body (Some (Some signed_session)) w, true).
Proof. eexists. vm_compute. reflexivity. Qed.
Lemma body_reaches_route_witness :
  ∃ client scheme ms state w, signed_result = (routed client scheme ms state w, true) ∧ ms = signed_body.
Proof.
  destruct signed_routed as [w Hr]. eexists _, _, _, _, _. split; [exact Hr|].
  apply (body_reaches_route site_gates false quiet_site signed_post signed_body site_state _ _ _ _ _ _ Hr); vm_compute; discriminate.
Defined.
Lemma session_needs_token_witness :
  ∃ token rc, presented_token site_gates signed_post (λ _, true) (MkRecorder [] signed_body) = (Ok (Some token), rc) ∧
    verify_csrf (Some (codes (b "C"))) (Some token) = true.
Proof.
  destruct signed_routed as [w Hr].
  destruct (session_needs_token site_gates false quiet_site signed_post signed_body site_state _ _ _ _ _ _ site_state (Some signed_session) (Some (Some signed_session)) site_state [rl_admin] login_tables ann Hr)
    as (session & token & rc & Hs & _ & _ & Hp & Hv); [reflexivity|vm_compute; reflexivity|vm_compute; reflexivity|].
  injection Hs as <-. exists token, rc. split; [exact Hp|exact Hv].
Defined.
(** A request without credentials is told 401 although the token file cannot be read; the
    route would answer 503. *)
Lemma early_401_for_503 :
  let r := MkRequest POST (b "/api/v1/projects") None [] (Some (b "127.0.0.1")) [] HTTP (b "/api/v1/projects") None in
  (api_gate site_gates false (Raise (HTTPException 503)) (MkHop login_tables true) r None site_state).1.1 = Some 401 ∧
  require_principal site_gates [rl_admin] false (Raise (HTTPException 503)) login_tables r None site_state = Raise (HTTPException 503).
Proof. by vm_compute. Qed.
(** A token of another site's form does not pass, and a failed lookup passes nothing. *)
Example cross_site_refused :
  (handle site_gates false quiet_site (MkRequest POST (rq_path signed_post) None [] (rq_client signed_post) ((b "sec-fetch-site", b "cross-site") :: rq_headers signed_post)
     HTTPS (rq_url_path signed_post) (Some (b "cam.example"))) signed_body site_state).1 = refused 403.
Proof. by vm_compute. Qed.
