(* ===== verification/Projects.v ===== *)
(** * Project and milestone use-cases

    services/projects.py and services/milestones.py: creating, editing, cloning, pausing,
    resuming and deleting projects, and the milestones in their timelines, with the
    columns of db/models/project.py that they write.

    A use-case reads before its transaction begins and writes at its flush, so it gets two
    databases: [seen], what its queries answered, and [db], what the flush meets.  The
    flush of an edit writes the columns whose new value differs from the one that was read,
    and no statement at all when none does; a row that is gone then goes unnoticed, where
    an UPDATE of it raises.  The name is UNIQUE and the camera a foreign key, checked at the
    flush.  The storage policy is a parameter here ([StoragePaths] models it); texts are
    ASCII. *)

From Stdlib Require Import SpecFloat QArith Ascii.
From S2P Require Import Prelude PyTime PyVal Env Bytes FrameWriter Schedule RenderScheduler CameraConfig Reconcile.
From stdpp Require Import options.
Local Open Scope Z_scope.

Abbreviation document := (list (string * pyval)).

(** ** Rows *)
Record Project := MkProject {
  pw_name : string;
  pw_camera_id : Z;
  pw_interval : option Z;
  pw_start_date : option Z;
  pw_end_date : option Z;
  pw_max_frame_count : option Z;
  pw_schedule : option document;
  pw_render_schedule : option document;
  pw_archive_schedule : option document;
  pw_post_render_actions : option pyval;
  pw_storage_path : option string;
  pw_stream_id : option string;
  pw_stream_label : option string;
  pw_ptz_preset : option string;
  pw_ptz_pan : option float;
  pw_ptz_tilt : option float;
  pw_ptz_zoom : option float;
  pw_exact_time_anchors : option pyval;
  pw_event_triggers : option pyval;
  pw_lifecycle : lifecycle;
  pw_active_since : option Z;
  pw_frame_count : Z;
  pw_created_at : Z;
}.
(** What the supervisor reads of it. *)
Definition project_row (id : Z) (p : Project) : ProjectRow :=
  MkProjectRow id (pw_camera_id p) (pw_lifecycle p) (pw_interval p) (pw_schedule p) (pw_storage_path p) (pw_stream_id p) (pw_ptz_preset p)
    (pw_ptz_pan p) (pw_ptz_tilt p) (pw_ptz_zoom p) (pw_start_date p) (pw_end_date p) (pw_max_frame_count p) (pw_frame_count p)
    (pw_exact_time_anchors p) (pw_event_triggers p) (pw_active_since p) (pw_created_at p).
Record Milestone := MkMilestone {
  ms_project : Z;
  ms_user : Z;
  ms_label : option string;
  ms_frame_index : option Z;
  ms_timestamp : option Z;
}.
Inductive audit_kind := au_created | au_updated | au_deleted | au_cloned | au_paused | au_resumed | au_lifecycle | au_milestone.
Record ProjectsDb := MkProjectsDb {
  pd_projects : gmap Z Project;
  (** AUTOINCREMENT: the largest id ever given out *)
  pd_last_project : Z;
  (** each camera, and whether it has a protocol *)
  pd_cameras : gmap Z bool;
  pd_milestones : gmap Z Milestone;
  pd_last_milestone : Z;
  pd_audit : list (Z * Z * audit_kind);
}.
Definition on_projects (f : gmap Z Project → gmap Z Project) (db : ProjectsDb) : ProjectsDb :=
  MkProjectsDb (f (pd_projects db)) (pd_last_project db) (pd_cameras db) (pd_milestones db) (pd_last_milestone db) (pd_audit db).
Definition on_milestones (f : gmap Z Milestone → gmap Z Milestone) (db : ProjectsDb) : ProjectsDb :=
  MkProjectsDb (pd_projects db) (pd_last_project db) (pd_cameras db) (f (pd_milestones db)) (pd_last_milestone db) (pd_audit db).
Definition on_cameras (f : gmap Z bool → gmap Z bool) (db : ProjectsDb) : ProjectsDb :=
  MkProjectsDb (pd_projects db) (pd_last_project db) (f (pd_cameras db)) (pd_milestones db) (pd_last_milestone db) (pd_audit db).
Definition set_frame_count (n : Z) (p : Project) : Project :=
  MkProject (pw_name p) (pw_camera_id p) (pw_interval p) (pw_start_date p) (pw_end_date p) (pw_max_frame_count p) (pw_schedule p)
    (pw_render_schedule p) (pw_archive_schedule p) (pw_post_render_actions p) (pw_storage_path p) (pw_stream_id p) (pw_stream_label p)
    (pw_ptz_preset p) (pw_ptz_pan p) (pw_ptz_tilt p) (pw_ptz_zoom p) (pw_exact_time_anchors p) (pw_event_triggers p) (pw_lifecycle p)
    (pw_active_since p) n (pw_created_at p).
(** [_audit], with the acting user *)
Definition audit (actor project : Z) (kind : audit_kind) (db : ProjectsDb) : ProjectsDb :=
  MkProjectsDb (pd_projects db) (pd_last_project db) (pd_cameras db) (pd_milestones db) (pd_last_milestone db) (pd_audit db ++ [(project, actor, kind)]).
Inductive Effect := CAPTURE_RECONCILE | RENDER_NOTIFY.

(** ** Inputs *)
Inductive Field :=
  | fd_name | fd_camera_id | fd_interval | fd_start_date | fd_end_date | fd_max_frame_count | fd_storage_path | fd_schedule
  | fd_render_schedule | fd_archive_schedule | fd_post_render_actions | fd_stream_id | fd_stream_label | fd_exact_time_anchors
  | fd_event_triggers | fd_ptz_preset | fd_ptz_pan | fd_ptz_tilt | fd_ptz_zoom.
#[export] Instance field_eq_dec : EqDecision Field.
Proof. solve_decision. Defined.
Record ProjectSpec := MkSpec {
  sp_name : option string;
  sp_camera_id : option Z;
  sp_interval : option Z;
  sp_start_date : option Z;
  sp_end_date : option Z;
  sp_max_frame_count : option Z;
  sp_storage_path : option string;
  sp_schedule : option document;
  sp_render_schedule : option document;
  sp_archive_schedule : option document;
  sp_post_render_actions : option pyval;
  sp_stream_id : option string;
  sp_stream_label : option string;
  sp_exact_time_anchors : option pyval;
  sp_event_triggers : option pyval;
  sp_ptz_preset : option string;
  sp_ptz_pan : option float;
  sp_ptz_tilt : option float;
  sp_ptz_zoom : option float;
  sp_fields_set : list Field;
}.

(** ** encode/overlay.py: what an overlay may say *)
Definition TIMESTAMP_FORMAT_MAX_LENGTH : nat := 64.
Definition TEXT_CONTENT_MAX_LENGTH : nat := 1000.
Definition TIMESTAMP_DIRECTIVES : bytes := b "aAbBdHIjmMpSyYzZ%".
Definition DEFAULT_TIMESTAMP_FORMAT : string := "%Y-%m-%d %H:%M:%S".
Definition format_char (c : ascii) : bool :=
  let n := char_code c in
  ((48 <=? n) && (n <=? 57)) || ((65 <=? n) && (n <=? 90)) || ((97 <=? n) && (n <=? 122)) || bool_decide (c ∈ b " _./:%-").
Fixpoint directives_ok (s : bytes) : bool :=
  match s with
  | [] => true
  | c :: s => if Ascii.eqb c "%" then match s with [] => false | d :: s => bool_decide (d ∈ TIMESTAMP_DIRECTIVES) && directives_ok s end else directives_ok s
  end.
(** [validate_timestamp_format], [validate_text_content] *)
Definition validate_timestamp_format (fmt : pyval) : result () :=
  match fmt with
  | PStr s =>
      if String.eqb s EmptyString then Raise (ValueError "timestamp_format")
      else if bool_decide (TIMESTAMP_FORMAT_MAX_LENGTH < String.length s)%nat then Raise (ValueError "timestamp_format")
      else if negb (forallb format_char (b s)) then Raise (ValueError "timestamp_format")
      else if negb (directives_ok (b s)) then Raise (ValueError "timestamp_format")
      else Ok ()
  | _ => Raise (ValueError "timestamp_format")
  end.
Definition validate_text_content (content : pyval) : result () :=
  match content with
  | PStr s => if bool_decide (TEXT_CONTENT_MAX_LENGTH < String.length s)%nat then Raise (ValueError "text_content") else Ok ()
  | _ => Raise (ValueError "text_content")
  end.

(** ** Checks *)
Definition has_key (kvs : document) (key : string) : bool := existsb (λ kv, String.eqb kv.1 key) kvs.
(** [ValueError] as [ValidationError] *)
Definition as_validation {A} (m : result A) : result A :=
  match m with Raise (ValueError _) => Raise ValidationError | m => m end.
(** [_validate_schedule] *)
Definition not_positive (f : option pyfloat) : bool :=
  match f with
  | None => true
  | Some (F_finite q) => Qle_bool q 0
  | Some (F_inf negative) => negative
  | Some F_nan => false
  end.
Definition validate_schedule (schedule : option document) : result () :=
  match schedule with
  | None => Ok ()
  | Some kvs =>
      if negb (truthy (dict_get kvs "enabled" (PBool false))) then Ok ()
      else if not_positive (to_float (dict_get kvs "interval_seconds" PNone)) then Raise ValidationError
      else Ok ()
  end.
(** [_validate_render_overlay] *)
Definition overlay_texts (overlay : document) : result () :=
  _ ← (if has_key overlay "timestamp_format" then validate_timestamp_format (dict_get overlay "timestamp_format" PNone) else Ok ());
  match dict_get overlay "text_content" PNone with PNone => Ok () | content => validate_text_content content end.
Definition validate_render_overlay (schedule : option document) : result () :=
  match schedule with
  | None => Ok ()
  | Some kvs =>
      if negb (has_key kvs "overlay_config") then Ok ()
      else match dict_get kvs "overlay_config" PNone with
           | PNone => Ok ()
           | PDict overlay => as_validation (overlay_texts overlay)
           | _ => Raise ValidationError
           end
  end.
(** [_validate_post_render_actions] *)
Definition action_ok (action : pyval) : bool :=
  match action with
  | PDict kvs => match dict_get kvs "type" PNone with PStr s => negb (String.eqb (strip s) EmptyString) | _ => false end
  | _ => false
  end.
Definition validate_post_render_actions (actions : option pyval) : result () :=
  match actions with
  | None | Some PNone => Ok ()
  | Some (PList l) => if forallb action_ok l then Ok () else Raise ValidationError
  | Some _ => Raise ValidationError
  end.
(** [_sanitised_render_schedule] *)
Fixpoint dict_set (kvs : document) (key : string) (v : pyval) : document :=
  match kvs with
  | [] => [(key, v)]
  | (k, w) :: kvs => if String.eqb k key then (k, v) :: kvs else (k, w) :: dict_set kvs key v
  end.
Definition sanitised_render_schedule (schedule : option document) : option document :=
  match schedule with
  | None => None
  | Some kvs =>
      match dict_get kvs "overlay_config" PNone with
      | PDict overlay =>
          if negb (has_key overlay "timestamp_format") then Some kvs
          else match validate_timestamp_format (dict_get overlay "timestamp_format" PNone) with
               | Ok _ => Some kvs
               | Raise _ => Some (dict_set kvs "overlay_config" (PDict (dict_set overlay "timestamp_format" (PStr DEFAULT_TIMESTAMP_FORMAT))))
               end
      | _ => Some kvs
      end
  end.
(** [_storage_path_unchanged] *)
Definition none_if_empty (s : option string) : option string := match s with Some EmptyString => None | s => s end.
Definition path_unchanged (raw stored : option string) : bool :=
  bool_decide (none_if_empty (Some (strip (default EmptyString raw))) = none_if_empty stored).

Section services.
Context `{CaptureEnv}.
(** [validate_storage_path] for the project, with the paths of the others *)
Context (policy : Z → option string → list string → result (option string)).

(** [_validate_capture_schedule] *)
Definition validate_capture_schedule (schedule : option document) : result () :=
  match schedule with None => Ok () | Some _ => as_validation (_ ← parse_schedule schedule; Ok ()) end.
(** [_get_project_or_404], [_require_capture_camera], [_require_unique_name] *)
Definition get_project (db : ProjectsDb) (id : Z) : result Project := match pd_projects db !! id with Some p => Ok p | None => Raise NotFoundError end.
Definition require_capture_camera (db : ProjectsDb) (camera : Z) : result () :=
  match pd_cameras db !! camera with None => Raise NotFoundError | Some false => Raise ValidationError | Some true => Ok () end.
Definition name_taken (name : string) (except : option Z) (db : ProjectsDb) : bool :=
  bool_decide (map_Exists (λ id p, pw_name p = name ∧ Some id ≠ except) (pd_projects db)).
Definition require_unique_name (db : ProjectsDb) (name : string) (except : option Z) : result () :=
  if name_taken name except db then Raise ConflictError else Ok ().
Definition clean_name (name : option string) : result string :=
  match strip (default EmptyString name) with EmptyString => Raise ValidationError | name => Ok name end.
(** [_checked_storage_path] *)
Definition other_paths (db : ProjectsDb) (id : Z) : list string :=
  omap (λ ip, if decide (ip.1 = id) then None else none_if_empty (pw_storage_path ip.2)) (map_to_list (pd_projects db)).
Definition checked_path (db : ProjectsDb) (id : Z) (raw : option string) : result (option string) :=
  match policy id raw (other_paths db id) with Raise (StoragePathError _) => Raise ValidationError | answer => answer end.

(** ** Flushes: the UNIQUE name and the foreign key; both read as a taken name *)
Definition conflicts (p : Project) (except : option Z) (db : ProjectsDb) : bool :=
  name_taken (pw_name p) except db || bool_decide (pd_cameras db !! pw_camera_id p = None).
Definition flush_insert (p : Project) (db : ProjectsDb) : result (ProjectsDb * Z) :=
  if conflicts p None db then Raise ConflictError
  else
    let id := pd_last_project db + 1 in
    Ok (MkProjectsDb (<[id := p]> (pd_projects db)) id (pd_cameras db) (pd_milestones db) (pd_last_milestone db) (pd_audit db), id).
Definition flush_update (id : Z) (f : Project → Project) (db : ProjectsDb) : result ProjectsDb :=
  match pd_projects db !! id with
  | None => Raise StaleDataError
  | Some p => if conflicts (f p) (Some id) db then Raise ConflictError else Ok (on_projects <[id := f p]> db)
  end.

(** ** Columns *)
(** The columns an assignment of [lifecycle_state] writes, [_stamp_active_since] included,
    to a row that was read as [seen]. *)
Definition becomes_active (state : lifecycle) (seen : Project) : bool :=
  bool_decide (state = lc_active) && negb (bool_decide (pw_lifecycle seen = lc_active)).
Definition lifecycle_changed (state : lifecycle) (seen : Project) : bool := negb (bool_decide (state = pw_lifecycle seen)).
Definition assign_lifecycle (state : lifecycle) (now : Z) (seen p : Project) : Project :=
  MkProject (pw_name p) (pw_camera_id p) (pw_interval p) (pw_start_date p) (pw_end_date p) (pw_max_frame_count p) (pw_schedule p)
    (pw_render_schedule p) (pw_archive_schedule p) (pw_post_render_actions p) (pw_storage_path p) (pw_stream_id p) (pw_stream_label p)
    (pw_ptz_preset p) (pw_ptz_pan p) (pw_ptz_tilt p) (pw_ptz_zoom p) (pw_exact_time_anchors p) (pw_event_triggers p)
    (if lifecycle_changed state seen then state else pw_lifecycle p)
    (if becomes_active state seen && negb (bool_decide (pw_active_since seen = Some now)) then Some now else pw_active_since p)
    (pw_frame_count p) (pw_created_at p).
(** A [None] that is assigned to a JSON column is stored as JSON null, which is not SQL
    [NULL]; only the supervisor's two queries tell them apart. *)
Definition json_column (v : option pyval) : option pyval := Some (default PNone v).
Definition json_same (x y : option pyval) : bool := py_eq (default PNone x) (default PNone y).
Definition document_same : option document → option document → bool := opt_eq (λ d e, py_eq (PDict d) (PDict e)).
(** The columns [update_project] assigns whose value is not the one that was read: those
    its UPDATE names *)
Definition column_differs (spec : ProjectSpec) (name : string) (camera : Z) (path : option (option string)) (seen : Project) (f : Field) : bool :=
  negb match f with
       | fd_name => bool_decide (name = pw_name seen)
       | fd_camera_id => camera =? pw_camera_id seen
       | fd_interval => bool_decide (sp_interval spec = pw_interval seen)
       | fd_start_date => bool_decide (sp_start_date spec = pw_start_date seen)
       | fd_end_date => bool_decide (sp_end_date spec = pw_end_date seen)
       | fd_max_frame_count => bool_decide (sp_max_frame_count spec = pw_max_frame_count seen)
       | fd_storage_path => match path with Some path => bool_decide (path = pw_storage_path seen) | None => true end
       | fd_schedule => document_same (sp_schedule spec) (pw_schedule seen)
       | fd_render_schedule => document_same (sp_render_schedule spec) (pw_render_schedule seen)
       | fd_archive_schedule => document_same (sp_archive_schedule spec) (pw_archive_schedule seen)
       | fd_post_render_actions => json_same (sp_post_render_actions spec) (pw_post_render_actions seen)
       | fd_stream_id => bool_decide (sp_stream_id spec = pw_stream_id seen)
       | fd_stream_label => bool_decide (sp_stream_label spec = pw_stream_label seen)
       | fd_exact_time_anchors => json_same (sp_exact_time_anchors spec) (pw_exact_time_anchors seen)
       | fd_event_triggers => json_same (sp_event_triggers spec) (pw_event_triggers seen)
       | fd_ptz_preset => bool_decide (sp_ptz_preset spec = pw_ptz_preset seen)
       | fd_ptz_pan => opt_eq SFeqb (sp_ptz_pan spec) (pw_ptz_pan seen)
       | fd_ptz_tilt => opt_eq SFeqb (sp_ptz_tilt spec) (pw_ptz_tilt seen)
       | fd_ptz_zoom => opt_eq SFeqb (sp_ptz_zoom spec) (pw_ptz_zoom seen)
       end.
Definition written_columns (spec : ProjectSpec) (name : string) (camera : Z) (path : option (option string)) (seen : Project) : list Field :=
  List.filter (column_differs spec name camera path seen) (sp_fields_set spec).
(** The UPDATE of [update_project]: a column it names gets the given value *)
Definition apply_updates (columns : list Field) (spec : ProjectSpec) (name : string) (camera : Z) (path : option (option string)) (p : Project) : Project :=
  let given {A : Type} (f : Field) (new old : A) : A := if decide (f ∈ columns) then new else old in
  MkProject (given fd_name name (pw_name p)) (given fd_camera_id camera (pw_camera_id p)) (given fd_interval (sp_interval spec) (pw_interval p))
    (given fd_start_date (sp_start_date spec) (pw_start_date p)) (given fd_end_date (sp_end_date spec) (pw_end_date p))
    (given fd_max_frame_count (sp_max_frame_count spec) (pw_max_frame_count p)) (given fd_schedule (sp_schedule spec) (pw_schedule p))
    (given fd_render_schedule (sp_render_schedule spec) (pw_render_schedule p))
    (given fd_archive_schedule (sp_archive_schedule spec) (pw_archive_schedule p))
    (given fd_post_render_actions (sp_post_render_actions spec) (pw_post_render_actions p))
    (given fd_storage_path (default (pw_storage_path p) path) (pw_storage_path p))
    (given fd_stream_id (sp_stream_id spec) (pw_stream_id p)) (given fd_stream_label (sp_stream_label spec) (pw_stream_label p))
    (given fd_ptz_preset (sp_ptz_preset spec) (pw_ptz_preset p)) (given fd_ptz_pan (sp_ptz_pan spec) (pw_ptz_pan p))
    (given fd_ptz_tilt (sp_ptz_tilt spec) (pw_ptz_tilt p)) (given fd_ptz_zoom (sp_ptz_zoom spec) (pw_ptz_zoom p))
    (given fd_exact_time_anchors (json_column (sp_exact_time_anchors spec)) (pw_exact_time_anchors p))
    (given fd_event_triggers (json_column (sp_event_triggers spec)) (pw_event_triggers p)) (pw_lifecycle p) (pw_active_since p) (pw_frame_count p) (pw_created_at p).

(** ** Use-cases *)
(** [create_project] *)
Definition create_project (seen db : ProjectsDb) (actor now : Z) (spec : ProjectSpec) : result (ProjectsDb * Z * list Effect) :=
  name ← clean_name (sp_name spec);
  camera ← match sp_camera_id spec with Some camera => Ok camera | None => Raise AssertionError end;
  _ ← require_capture_camera seen camera;
  _ ← validate_capture_schedule (sp_schedule spec);
  _ ← require_unique_name seen name None;
  let project := MkProject name camera (sp_interval spec) (sp_start_date spec) (sp_end_date spec) (sp_max_frame_count spec) (sp_schedule spec)
                   None None None None None None None None None None None None lc_active (Some now) 0 now in
  '(db, id) ← flush_insert project db;
  Ok (audit actor id au_created db, id, [CAPTURE_RECONCILE]).
(** [update_project] *)
Definition when {A} (spec : ProjectSpec) (f : Field) (check : result A) (absent : A) : result A :=
  if decide (f ∈ sp_fields_set spec) then check else Ok absent.
Definition update_project (seen db : ProjectsDb) (actor id : Z) (spec : ProjectSpec) : result (ProjectsDb * list Effect) :=
  project ← get_project seen id;
  name ← when spec fd_name (name ← clean_name (sp_name spec); _ ← require_unique_name seen name (Some id); Ok name) EmptyString;
  camera ← when spec fd_camera_id
    (match sp_camera_id spec with Some camera => _ ← require_capture_camera seen camera; Ok camera | None => Raise AssertionError end) 0;
  _ ← when spec fd_schedule (validate_capture_schedule (sp_schedule spec)) ();
  _ ← when spec fd_render_schedule (_ ← validate_render_overlay (sp_render_schedule spec); validate_schedule (sp_render_schedule spec)) ();
  _ ← when spec fd_archive_schedule (validate_schedule (sp_archive_schedule spec)) ();
  _ ← when spec fd_post_render_actions (validate_post_render_actions (sp_post_render_actions spec)) ();
  path ← when spec fd_storage_path
    (if path_unchanged (sp_storage_path spec) (pw_storage_path project) then Ok None
     else path ← checked_path seen id (sp_storage_path spec); Ok (Some path)) None;
  let columns := written_columns spec name camera path project in
  db ← match columns with [] => Ok db | _ => flush_update id (apply_updates columns spec name camera path) db end;
  Ok (audit actor id au_updated db, [CAPTURE_RECONCILE]).
(** [delete_project]: the milestones go with their project; a row that is gone is only
    warned about *)
Definition delete_project (seen db : ProjectsDb) (actor id : Z) : result (ProjectsDb * list Effect) :=
  _ ← get_project seen id;
  let db := on_milestones (filter (λ im, ms_project im.2 ≠ id)) (on_projects (delete id) db) in
  Ok (audit actor id au_deleted db, [CAPTURE_RECONCILE]).
(** [_clone_from], [clone_project] *)
Definition clone_from (source : Project) (name : string) (now : Z) : Project :=
  MkProject name (pw_camera_id source) (pw_interval source) (pw_start_date source) (pw_end_date source) (pw_max_frame_count source)
    (pw_schedule source) (sanitised_render_schedule (pw_render_schedule source)) (pw_archive_schedule source) (pw_post_render_actions source)
    None None None None None None None None None lc_active (Some now) 0 now.
Definition clone_project (seen db : ProjectsDb) (actor now source_id : Z) (name : string) : result (ProjectsDb * Z * list Effect) :=
  source ← get_project seen source_id;
  clean ← clean_name (Some name);
  _ ← require_unique_name seen clean None;
  '(db, id) ← flush_insert (clone_from source clean now) db;
  Ok (audit actor id au_cloned db, id, [CAPTURE_RECONCILE]).
(** [pause_project], [resume_project], [set_project_lifecycle] *)
Definition write_lifecycle (seen db : ProjectsDb) (actor now id : Z) (state : lifecycle) (kind : audit_kind) : result (ProjectsDb * list Effect) :=
  project ← get_project seen id;
  db ← (if lifecycle_changed state project then flush_update id (assign_lifecycle state now project) db else Ok db);
  Ok (audit actor id kind db, [CAPTURE_RECONCILE]).
Definition pause_project (seen db : ProjectsDb) (actor now id : Z) : result (ProjectsDb * list Effect) :=
  write_lifecycle seen db actor now id lc_paused au_paused.
Definition resume_project (seen db : ProjectsDb) (actor now id : Z) : result (ProjectsDb * list Effect) :=
  project ← get_project seen id;
  if negb (bool_decide (pw_lifecycle project = lc_paused)) then Raise ConflictError
  else write_lifecycle seen db actor now id lc_active au_resumed.
Definition set_project_lifecycle (seen db : ProjectsDb) (actor now id : Z) (state : lifecycle) : result (ProjectsDb * list Effect) :=
  write_lifecycle seen db actor now id state au_lifecycle.

(** ** services/milestones.py *)
(** [_get_milestone_or_404], [_require_position] *)
Definition get_milestone (db : ProjectsDb) (project id : Z) : result Milestone :=
  match pd_milestones db !! id with
  | Some m => if ms_project m =? project then Ok m else Raise NotFoundError
  | None => Raise NotFoundError
  end.
Definition require_position (frame timestamp : option Z) : result () :=
  match frame, timestamp with None, None => Raise ValidationError | _, _ => Ok () end.
(** [create_milestone] *)
Definition create_milestone (seen db : ProjectsDb) (actor project : Z) (label : option string) (frame timestamp : option Z) : result (ProjectsDb * Z) :=
  _ ← get_project seen project;
  _ ← require_position frame timestamp;
  match pd_projects db !! project with
  | None => Raise IntegrityError
  | Some _ =>
      let id := pd_last_milestone db + 1 in
      Ok (audit actor project au_milestone
            (MkProjectsDb (pd_projects db) (pd_last_project db) (pd_cameras db) (<[id := MkMilestone project actor label frame timestamp]> (pd_milestones db)) id (pd_audit db)), id)
  end.
(** A milestone's spec: the label, and a position field where it was given. *)
Record MilestoneSpec := MkMilestoneSpec { mp_label : option string; mp_frame : option (option Z); mp_timestamp : option (option Z) }.
(** [update_milestone] *)
Definition update_milestone (seen db : ProjectsDb) (actor project id : Z) (spec : MilestoneSpec) : result ProjectsDb :=
  m ← get_milestone seen project id;
  let label := match mp_label spec with Some l => Some l | None => ms_label m end in
  let frame := default (ms_frame_index m) (mp_frame spec) in
  let timestamp := default (ms_timestamp m) (mp_timestamp spec) in
  _ ← require_position frame timestamp;
  (* the columns that differ from what was read *)
  let written {A : Type} `{EqDecision A} (new old current : A) : A := if decide (new = old) then current else new in
  if bool_decide (label = ms_label m ∧ frame = ms_frame_index m ∧ timestamp = ms_timestamp m) then Ok (audit actor project au_milestone db)
  else match pd_milestones db !! id with
       | None => Raise StaleDataError
       | Some c =>
           let c' := MkMilestone (ms_project c) (ms_user c) (written label (ms_label m) (ms_label c))
                       (written frame (ms_frame_index m) (ms_frame_index c)) (written timestamp (ms_timestamp m) (ms_timestamp c)) in
           Ok (audit actor project au_milestone (on_milestones <[id := c']> db))
       end.
(** [delete_milestone] *)
Definition delete_milestone (seen db : ProjectsDb) (actor project id : Z) : result ProjectsDb :=
  _ ← get_milestone seen project id; Ok (audit actor project au_milestone (on_milestones (delete id) db)).
End services.

(** ** Requests over time

    The state is the database and all it was before; a use-case reads any of these. *)
Inductive project_step `{CaptureEnv} (policy : Z → option string → list string → result (option string))
    : list ProjectsDb * ProjectsDb → list ProjectsDb * ProjectsDb → Prop :=
  | pt_create seen olds db actor now spec db' id effects :
      seen ∈ db :: olds → create_project seen db actor now spec = Ok (db', id, effects) → project_step policy (olds, db) (db :: olds, db')
  | pt_clone seen olds db actor now source name db' id effects :
      seen ∈ db :: olds → clone_project seen db actor now source name = Ok (db', id, effects) → project_step policy (olds, db) (db :: olds, db')
  | pt_update seen olds db actor id spec db' effects :
      seen ∈ db :: olds →
      update_project policy seen db actor id spec = Ok (db', effects) → project_step policy (olds, db) (db :: olds, db')
  | pt_lifecycle seen olds db actor now id state kind db' effects :
      seen ∈ db :: olds →
      write_lifecycle seen db actor now id state kind = Ok (db', effects) → project_step policy (olds, db) (db :: olds, db')
  | pt_delete seen olds db actor id db' effects :
      seen ∈ db :: olds → delete_project seen db actor id = Ok (db', effects) → project_step policy (olds, db) (db :: olds, db')
  | pt_create_milestone seen olds db actor project label frame timestamp db' id :
      seen ∈ db :: olds → create_milestone seen db actor project label frame timestamp = Ok (db', id) → project_step policy (olds, db) (db :: olds, db')
  | pt_update_milestone seen olds db actor project id spec db' :
      seen ∈ db :: olds → update_milestone seen db actor project id spec = Ok db' → project_step policy (olds, db) (db :: olds, db')
  | pt_delete_milestone seen olds db actor project id db' :
      seen ∈ db :: olds → delete_milestone seen db actor project id = Ok db' → project_step policy (olds, db) (db :: olds, db')
  (** frames are counted, and cameras come, change and go: not one that a project has *)
  | pt_count olds db id n :
      0 ≤ n →
      project_step policy (olds, db) (db :: olds, on_projects (alter (set_frame_count n) id) db)
  | pt_camera olds db camera protocol :
      project_step policy (olds, db) (db :: olds, on_cameras <[camera := protocol]> db)
  | pt_camera_gone olds db camera :
      map_Forall (λ _ p, pw_camera_id p ≠ camera) (pd_projects db) →
      project_step policy (olds, db) (db :: olds, on_cameras (delete camera) db).
Definition empty_db : ProjectsDb := MkProjectsDb ∅ 0 ∅ ∅ 0 [].

(** ** The startup warning about shared paths *)
(** [_warn_on_shared_storage_paths] on the rows with a path; [real] is [os.path.realpath],
    [None] where it raises *)
Definition group_paths (real : string → option string) (rows : list (Z * string)) : gmap string (list Z) :=
  foldl (λ groups row, match real row.2 with
                       | Some r => <[r := default [] (groups !! r) ++ [row.1]]> groups
                       | None => groups
                       end) ∅ rows.
Definition warn_on_shared_storage_paths (real : string → option string) (rows : list (Z * string)) : Z :=
  foldr (λ owners n, (if bool_decide (length (owners.2 : list Z) < 2)%nat then 0 else Z.of_nat (length owners.2)) + n) 0 (map_to_list (group_paths real rows)).
