(* ===== verification/ProjectsFacts.v ===== *)
(** * Facts about projects and milestones

    Whatever requests overlap, the rows stay well formed: names are unique, stored
    documents are ones their readers accept, no project lacks its camera and no milestone
    its project.  A milestone keeps a position as long as each edit read the row it writes;
    two edits that overlap can leave none.  An edit changes the columns it names and no
    other. *)

From Stdlib Require Import QArith Ascii.
From S2P Require Import Prelude PyTime PyVal Env Bytes FrameWriter Schedule ScheduleFacts RenderScheduler CameraConfig Reconcile Projects.
From stdpp Require Import options.
Local Open Scope Z_scope.

Section facts.
Context `{CaptureEnv} (policy : Z → option string → list string → result (option string)).

(** ** Well-formed rows *)
Record project_ok (p : Project) : Prop := {
  po_trimmed : ∃ raw, pw_name p = strip raw;
  po_named : pw_name p ≠ EmptyString;
  po_schedule : validate_capture_schedule (pw_schedule p) = Ok ();
  po_overlay : validate_render_overlay (pw_render_schedule p) = Ok ();
  po_render : validate_schedule (pw_render_schedule p) = Ok ();
  po_archive : validate_schedule (pw_archive_schedule p) = Ok ();
  po_actions : validate_post_render_actions (pw_post_render_actions p) = Ok ();
}.
Record projects_ok (db : ProjectsDb) : Prop := {
  do_rows : map_Forall (λ id p, project_ok p ∧ id ≤ pd_last_project db ∧ is_Some (pd_cameras db !! pw_camera_id p)) (pd_projects db);
  do_names : ∀ i j p q, pd_projects db !! i = Some p → pd_projects db !! j = Some q → pw_name p = pw_name q → i = j;
  do_milestones : map_Forall (λ id m, is_Some (pd_projects db !! ms_project m) ∧ id ≤ pd_last_milestone db) (pd_milestones db);
}.

Lemma audit_ok actor project kind db : projects_ok db → projects_ok (audit actor project kind db).
Proof. intros []. by split. Qed.
Lemma not_taken name except db : name_taken name except db = false → ∀ i p, pd_projects db !! i = Some p → pw_name p = name → except = Some i.
Proof.
  unfold name_taken. rewrite bool_decide_eq_false. intros Hno i p Hp Hn. destruct (decide (except = Some i)) as [|Hne]; [done|].
  exfalso. apply Hno. exists i, p. split_and!; congruence.
Qed.
Lemma conflicts_false p except db :
  conflicts p except db = false → (∀ i q, pd_projects db !! i = Some q → pw_name q = pw_name p → except = Some i) ∧ is_Some (pd_cameras db !! pw_camera_id p).
Proof.
  unfold conflicts. intros [Hn Hc]%orb_false_iff. split; [by apply not_taken|]. apply bool_decide_eq_false in Hc. by destruct (pd_cameras db !! _).
Qed.
Lemma flush_insert_ok p db db' id : projects_ok db → project_ok p → flush_insert p db = Ok (db', id) → projects_ok db'.
Proof.
  intros [Hr Hn Hm] Hp. unfold flush_insert. destruct (conflicts p None db) eqn:Hc; [done|]. apply conflicts_false in Hc as [Hnew Hcam].
  intros [= <- <-]. set (id := pd_last_project db + 1).
  assert (Hfresh : pd_projects db !! id = None).
  { destruct (pd_projects db !! id) as [q|] eqn:Hq; [|done]. destruct (Hr _ _ Hq) as (_ & Hle & _). lia. }
  split; cbn [pd_projects pd_last_project pd_cameras pd_milestones pd_last_milestone].
  - apply map_Forall_insert; [done|]. split; [split_and!; [done|lia|done]|]. intros i q Hq. destruct (Hr i q Hq) as (? & ? & ?). split_and!; [done|lia|done].
  - intros i j q q'. destruct (decide (i = id)) as [->|Hi], (decide (j = id)) as [->|Hj]; rewrite ?lookup_insert_eq, ?lookup_insert_ne by done; try done.
    + intros [= <-] Hq' He. by specialize (Hnew _ _ Hq' (eq_sym He)).
    + intros Hq [= <-] He. by specialize (Hnew _ _ Hq He).
    + apply Hn.
  - intros i m Hi. destruct (Hm i m Hi) as ([q Hq] & Hpos). split; [|done]. rewrite lookup_insert_ne; [by exists q|]. intros Heq. rewrite <- Heq, Hfresh in Hq. done.
Qed.
Lemma flush_update_ok id f db db' :
  projects_ok db → (∀ p, pd_projects db !! id = Some p → project_ok p → project_ok (f p)) → flush_update id f db = Ok db' → projects_ok db'.
Proof.
  intros [Hr Hn Hm] Hf. unfold flush_update. destruct (pd_projects db !! id) as [p|] eqn:Hp; [|done]. destruct (conflicts _ _ _) eqn:Hc; [done|].
  apply conflicts_false in Hc as [Hnew Hcam]. intros [= <-]. destruct (Hr id p Hp) as (Hok & Hle & _).
  split; cbn [on_projects pd_projects pd_last_project pd_cameras pd_milestones pd_last_milestone].
  - apply map_Forall_insert_2; [|done]. split_and!; [by apply Hf|done|done].
  - intros i j q q'. destruct (decide (i = id)) as [->|Hi], (decide (j = id)) as [->|Hj]; rewrite ?lookup_insert_eq, ?lookup_insert_ne by done; try done.
    + intros [= <-] Hq' He. specialize (Hnew _ _ Hq' (eq_sym He)). congruence.
    + intros Hq [= <-] He. specialize (Hnew _ _ Hq He). congruence.
    + apply Hn.
  - intros i m Hi. destruct (Hm i m Hi) as ([q Hq] & Hpos). split; [|done]. destruct (decide (ms_project m = id)) as [->|];
      [rewrite lookup_insert_eq; by eexists|rewrite lookup_insert_ne by done; by exists q].
Qed.
Lemma clean_name_ok raw name : clean_name raw = Ok name → (∃ s, name = strip s) ∧ name ≠ EmptyString.
Proof.
  unfold clean_name. destruct (strip (default EmptyString raw)) as [|c s] eqn:Hs; [done|]. intros [= <-]. split; [|done]. exists (default EmptyString raw). by rewrite Hs.
Qed.

(** ** The use-cases *)
(** One guard of a use-case that answered. *)
Ltac pass_guard H := match type of H with (?m ≫= _) = Ok _ => let Hm := fresh "Hguard" in destruct m eqn:Hm; [cbn [mbind result_bind] in H|discriminate H] end.
Lemma create_ok seen db actor now spec db' id effects :
  projects_ok db → create_project seen db actor now spec = Ok (db', id, effects) → projects_ok db'.
Proof.
  intros Hdb Hc. unfold create_project in Hc. do 6 pass_guard Hc. destruct a4 as [db1 id1]. injection Hc as <- _ _. apply audit_ok.
  apply clean_name_ok in Hguard as [Htrim Hne]. eapply flush_insert_ok; [done| |done]. by destruct a2; split.
Qed.
(** A schedule whose overlay passes is copied as it is. *)
Lemma sanitised_id schedule : validate_render_overlay schedule = Ok () → sanitised_render_schedule schedule = schedule.
Proof.
  unfold validate_render_overlay, sanitised_render_schedule. destruct schedule as [kvs|]; [|done]. destruct (has_key kvs "overlay_config") eqn:Hk; cbn [negb].
  - destruct (dict_get kvs "overlay_config" PNone) as [| | | | | |overlay|]; try done. unfold as_validation, overlay_texts.
    destruct (has_key overlay "timestamp_format"); [|done]. cbn [negb]. destruct (validate_timestamp_format _) as [[]|e]; [done|]. by destruct e.
  - intros _. assert (dict_get kvs "overlay_config" PNone = PNone) as ->; [|done]. induction kvs as [|[k v] kvs IH]; [done|].
    cbn [has_key existsb fst] in Hk. apply orb_false_iff in Hk as [Hk1 Hk2]. cbn [dict_get]. rewrite Hk1. by apply IH.
Qed.
Lemma clone_ok seen db actor now source name db' id effects :
  projects_ok seen → projects_ok db → clone_project seen db actor now source name = Ok (db', id, effects) → projects_ok db'.
Proof.
  intros Hseen Hdb Hc. unfold clone_project in Hc. do 4 pass_guard Hc. destruct a2 as [db1 id1]. injection Hc as <- _ _. apply audit_ok.
  unfold get_project in Hguard. destruct (pd_projects seen !! source) as [p|] eqn:Hp; [|done]. injection Hguard as <-.
  apply clean_name_ok in Hguard0 as [Htrim Hne]. destruct (do_rows seen Hseen _ _ Hp) as ([] & _). eapply flush_insert_ok; [done| |done].
  split; cbn [clone_from pw_name pw_schedule pw_render_schedule pw_archive_schedule pw_post_render_actions]; rewrite ?sanitised_id by done; done.
Qed.
Lemma when_ok {A} spec f (check : result A) absent a : when spec f check absent = Ok a → f ∈ sp_fields_set spec → check = Ok a.
Proof. unfold when. by destruct (decide _). Qed.
Lemma update_ok seen db actor id spec db' effects :
  projects_ok db → update_project policy seen db actor id spec = Ok (db', effects) → projects_ok db'.
Proof.
  intros Hdb Hc. unfold update_project in Hc. do 9 pass_guard Hc. injection Hc as <- _. apply audit_ok.
  set (columns := written_columns _ _ _ _ _) in Hguard7. assert (∀ f, f ∈ columns → f ∈ sp_fields_set spec) as Hsub.
  { intros f Hf%list_elem_of_In%List.filter_In. apply list_elem_of_In, Hf. }
  clearbody columns. assert (db = a7 ∨ flush_update id (apply_updates columns spec a0 a1 a6) db = Ok a7) as [<-|Hflush]; [|done|].
  { destruct columns; [left; by injection Hguard7 as <-|by right]. }
  eapply flush_update_ok; [done| |done].
  intros p _ [Ht Hn Hs Ho Hr Ha Hp]. repeat match goal with u : () |- _ => destruct u end. split; unfold apply_updates; cbn.
  all: destruct (decide _) as [Hin%Hsub|]; [|done].
  - pose proof (when_ok _ _ _ _ _ Hguard0 Hin) as Hw. pass_guard Hw. pass_guard Hw. injection Hw as <-. by destruct (clean_name_ok _ _ Hguard8).
  - pose proof (when_ok _ _ _ _ _ Hguard0 Hin) as Hw. pass_guard Hw. pass_guard Hw. injection Hw as <-. by destruct (clean_name_ok _ _ Hguard8).
  - exact (when_ok _ _ _ _ _ Hguard2 Hin).
  - pose proof (when_ok _ _ _ _ _ Hguard3 Hin) as Hw. pass_guard Hw. by repeat match goal with u : () |- _ => destruct u end.
  - pose proof (when_ok _ _ _ _ _ Hguard3 Hin) as Hw. by pass_guard Hw.
  - exact (when_ok _ _ _ _ _ Hguard4 Hin).
  - exact (when_ok _ _ _ _ _ Hguard5 Hin).
Qed.
Lemma assign_lifecycle_ok state now seen p : project_ok p → project_ok (assign_lifecycle state now seen p).
Proof. by intros []. Qed.
Lemma lifecycle_ok seen db actor now id state kind db' effects :
  projects_ok db → write_lifecycle seen db actor now id state kind = Ok (db', effects) → projects_ok db'.
Proof.
  intros Hdb Hc. unfold write_lifecycle in Hc. do 2 pass_guard Hc. injection Hc as <- _. apply audit_ok.
  destruct (lifecycle_changed state a); [|by injection Hguard0 as <-]. eapply flush_update_ok; [done| |done]. intros p _. apply assign_lifecycle_ok.
Qed.
Lemma delete_ok seen db actor id db' effects : projects_ok db → delete_project seen db actor id = Ok (db', effects) → projects_ok db'.
Proof.
  intros [Hr Hn Hm] Hc. unfold delete_project in Hc. pass_guard Hc. injection Hc as <- _.
  apply audit_ok. split; cbn [on_projects on_milestones pd_projects pd_last_project pd_cameras pd_milestones pd_last_milestone].
  - by apply map_Forall_delete.
  - intros i j q q' [_ Hq]%lookup_delete_Some [_ Hq']%lookup_delete_Some. by apply Hn.
  - intros i m [Hi Hne]%map_lookup_filter_Some. destruct (Hm i m Hi) as ([q Hq] & ?). split; [|done]. exists q. by rewrite lookup_delete_ne.
Qed.
Lemma create_milestone_ok seen db actor project label frame timestamp db' id :
  projects_ok db → create_milestone seen db actor project label frame timestamp = Ok (db', id) → projects_ok db'.
Proof.
  intros [Hr Hn Hm] Hc. unfold create_milestone in Hc. do 2 pass_guard Hc. destruct (pd_projects db !! project) as [p|] eqn:Hp; [|done]. injection Hc as <- _.
  apply audit_ok. split; cbn [pd_projects pd_last_project pd_cameras pd_milestones pd_last_milestone]; [done|done|].
  intros i m. rewrite lookup_insert_Some. intros [[<- <-]|[_ Hi]].
  - cbn [ms_project]. split; [by exists p|lia].
  - destruct (Hm i m Hi) as (? & ?). split; [done|lia].
Qed.
Lemma get_milestone_ok db project id m : get_milestone db project id = Ok m → pd_milestones db !! id = Some m ∧ ms_project m = project.
Proof. unfold get_milestone. destruct (pd_milestones db !! id) as [m'|]; [|done]. destruct (Z.eqb_spec (ms_project m') project); [|done]. by intros [= <-]. Qed.
Lemma update_milestone_ok seen db actor project id spec db' : projects_ok db → update_milestone seen db actor project id spec = Ok db' → projects_ok db'.
Proof.
  intros Hdb Hc. unfold update_milestone in Hc. do 2 pass_guard Hc. case_bool_decide; [injection Hc as <-; by apply audit_ok|].
  destruct (pd_milestones db !! id) as [c|] eqn:Hi; [|done]. injection Hc as <-. apply audit_ok. destruct Hdb as [Hr Hn Hm].
  split; cbn [on_milestones pd_projects pd_last_project pd_cameras pd_milestones pd_last_milestone]; [done|done|].
  apply map_Forall_insert_2; [|done]. exact (Hm id c Hi).
Qed.
Lemma delete_milestone_ok seen db actor project id db' : projects_ok db → delete_milestone seen db actor project id = Ok db' → projects_ok db'.
Proof.
  intros [Hr Hn Hm] Hc. unfold delete_milestone in Hc. pass_guard Hc. injection Hc as <-. apply audit_ok.
  split; cbn [on_milestones pd_projects pd_last_project pd_cameras pd_milestones pd_last_milestone]; [done|done|]. by apply map_Forall_delete.
Qed.
Lemma count_ok n id db : projects_ok db → projects_ok (on_projects (alter (set_frame_count n) id) db).
Proof.
  intros [Hr Hn Hm]. split; cbn [on_projects pd_projects pd_last_project pd_cameras pd_milestones pd_last_milestone].
  - intros i p. rewrite lookup_alter_Some. intros [(-> & q & Hq & ->)|[_ Hp]]; [|by apply Hr]. destruct (Hr _ _ Hq) as ([] & ? & ?). by split_and!.
  - assert (Hback : ∀ i p, alter (set_frame_count n) id (pd_projects db) !! i = Some p → ∃ q, pd_projects db !! i = Some q ∧ pw_name q = pw_name p).
    { intros i p. rewrite lookup_alter_Some. intros [(-> & q & Hq & ->)|[_ Hp]]; eauto. }
    intros i j p q (p' & Hp & <-)%Hback (q' & Hq & <-)%Hback. by apply Hn.
  - intros i m Hi. destruct (Hm i m Hi) as ([q Hq] & ?). split; [|done]. apply lookup_alter_is_Some. by exists q.
Qed.
Lemma camera_ok camera protocol db : projects_ok db → projects_ok (on_cameras <[camera := protocol]> db).
Proof.
  intros [Hr Hn Hm]. split; cbn [on_cameras pd_projects pd_last_project pd_cameras pd_milestones pd_last_milestone]; [|done|done].
  intros i p Hp. destruct (Hr _ _ Hp) as (? & ? & ?). split_and!; [done|done|]. rewrite lookup_insert_is_Some. destruct (decide (camera = pw_camera_id p)); auto.
Qed.
Lemma camera_gone_ok camera db :
  map_Forall (λ _ p, pw_camera_id p ≠ camera) (pd_projects db) → projects_ok db → projects_ok (on_cameras (delete camera) db).
Proof.
  intros Hfree [Hr Hn Hm]. split; cbn [on_cameras pd_projects pd_last_project pd_cameras pd_milestones pd_last_milestone]; [|done|done].
  intros i p Hp. destruct (Hr _ _ Hp) as (? & ? & ?). split_and!; [done|done|]. rewrite lookup_delete_ne; [done|]. specialize (Hfree _ _ Hp). cbn in Hfree. congruence.
Qed.

(** ** Every history *)
Lemma step_ok s s' : project_step policy s s' → Forall projects_ok (s.2 :: s.1) → Forall projects_ok (s'.2 :: s'.1).
Proof.
  intros Hstep Hall. pose proof (Forall_inv Hall) as Hdb. rewrite Forall_forall in Hall. apply Forall_cons.
  split; [|rewrite <- Forall_forall in Hall; by destruct Hstep]. destruct Hstep; cbn [fst snd] in *.
  - by eapply create_ok.
  - eapply clone_ok; [|done|done]. by apply Hall.
  - by eapply update_ok.
  - by eapply lifecycle_ok.
  - by eapply delete_ok.
  - by eapply create_milestone_ok.
  - by eapply update_milestone_ok.
  - by eapply delete_milestone_ok.
  - by apply count_ok.
  - by apply camera_ok.
  - by apply camera_gone_ok.
Qed.
Lemma empty_ok : projects_ok empty_db.
Proof. split; cbn [empty_db pd_projects pd_milestones]; try apply map_Forall_empty. intros ???? Hp. by rewrite lookup_empty in Hp. Qed.
Lemma reachable_ok olds db : rtc (project_step policy) ([], empty_db) (olds, db) → projects_ok db.
Proof.
  intros Hrtc. enough (Forall projects_ok ((olds, db).2 :: (olds, db).1)) as Hall by exact (Forall_inv Hall). revert Hrtc.
  apply (rtc_ind_r (λ s, Forall projects_ok (s.2 :: s.1))); [constructor; [apply empty_ok|constructor]|]. intros s s' _ Hstep Hs. by eapply step_ok.
Qed.

(** C37: however requests overlap, and whatever an earlier state each of them read, the
    rows stay well formed: no two projects have one name, every name is trimmed and not
    empty, every stored schedule, overlay and action list is one its check accepts, every
    project has its camera, every milestone its project, and no id is above the last one
    given out.  (That a milestone has a position is not among it: see
    [overlapping_edits_clear_position].) *)
Theorem projects_stay_well_formed olds db : rtc (project_step policy) ([], empty_db) (olds, db) → projects_ok db.
Proof. apply reachable_ok. Qed.

(** The render scheduler runs an accepted schedule that is enabled, unless its interval is
    not a number. *)
Lemma accepted_schedule_runs kvs :
  validate_schedule (Some kvs) = Ok () → truthy (dict_get kvs "enabled" (PBool false)) = true →
  is_Some (interval_seconds (PDict kvs)) ∨ to_float (dict_get kvs "interval_seconds" PNone) = Some F_nan.
Proof.
  intros Hv He. destruct kvs as [|kv kvs]; [done|]. unfold validate_schedule, not_positive in Hv. unfold interval_seconds.
  remember (kv :: kvs) as doc eqn:Hd. assert (truthy (PDict doc) = true) as -> by (by rewrite Hd). rewrite He in *. cbn [negb] in *.
  destruct (dict_get doc "interval_seconds" PNone) as [|[]|z|f|s|l|d|] eqn:Hi; try done; cbn [to_float] in *; eauto.
  - destruct (Qle_bool _ 0); [done|eauto].
  - destruct f as [|[]| |]; cbn [to_float] in *; try done; eauto. destruct (Qle_bool _ 0); [done|eauto].
  - destruct (float_of_text s) as [[q|[]|]|]; try done; eauto. destruct (Qle_bool _ 0); [done|eauto].
Qed.

(** ** What an edit writes *)
(** An edit writes its project's row, if anything, and an audit entry; it keeps a column
    it does not name or whose value is the one it read, and never moves the lifecycle or
    the frame count. *)
Lemma edit_row seen db actor id spec db' effects :
  update_project policy seen db actor id spec = Ok (db', effects) →
  pd_milestones db' = pd_milestones db ∧ pd_cameras db' = pd_cameras db ∧ pd_audit db' = pd_audit db ++ [(id, actor, au_updated)] ∧
  (pd_projects db' = pd_projects db ∨
   ∃ p p', pd_projects db !! id = Some p ∧ pd_projects db' = <[id := p']> (pd_projects db) ∧
    (fd_name ∉ sp_fields_set spec → pw_name p' = pw_name p) ∧ (fd_camera_id ∉ sp_fields_set spec → pw_camera_id p' = pw_camera_id p) ∧
    (fd_schedule ∉ sp_fields_set spec → pw_schedule p' = pw_schedule p) ∧
    (fd_storage_path ∉ sp_fields_set spec → pw_storage_path p' = pw_storage_path p) ∧
    (fd_render_schedule ∉ sp_fields_set spec → pw_render_schedule p' = pw_render_schedule p) ∧
    pw_lifecycle p' = pw_lifecycle p ∧ pw_active_since p' = pw_active_since p ∧ pw_frame_count p' = pw_frame_count p).
Proof.
  intros Hc. unfold update_project in Hc. do 9 pass_guard Hc. injection Hc as <- _.
  set (columns := written_columns _ _ _ _ _) in Hguard7. assert (∀ f, f ∉ sp_fields_set spec → f ∉ columns) as Hsub.
  { intros f Hno Hf%list_elem_of_In%List.filter_In. apply Hno, list_elem_of_In, Hf. }
  clearbody columns. assert (db = a7 ∨ flush_update id (apply_updates columns spec a0 a1 a6) db = Ok a7) as [<-|Hflush]; [|split_and!; by auto|].
  { destruct columns; [left; by injection Hguard7 as <-|by right]. }
  unfold flush_update in Hflush. destruct (pd_projects db !! id) as [p|]; [|done]. destruct (conflicts _ _ _); [done|]. injection Hflush as <-.
  split_and!; [done..|]. right. exists p, (apply_updates columns spec a0 a1 a6 p). unfold apply_updates. cbn.
  split_and!; try done; intros Hno%Hsub; by rewrite decide_False.
Qed.
(** A timestamp format that passes the check has no character with which it could leave
    its quotes or start a drawtext function, and no control character. *)
Lemma accepted_format_plain s : validate_timestamp_format (PStr s) = Ok () → Forall (λ c, 32 ≤ char_code c < 127 ∧ c ∉ b "'\,;[]{}()$") (b s).
Proof.
  unfold validate_timestamp_format. destruct (String.eqb _ _); [done|]. case_bool_decide; [done|]. destruct (forallb _ _) eqn:Hf; [|done]. intros _.
  apply Forall_forall. intros c Hc. rewrite forallb_forall in Hf. apply list_elem_of_In, Hf in Hc. clear -Hc.
  destruct c as [[] [] [] [] [] [] [] []]; try (vm_compute in Hc; discriminate Hc); (split; [vm_compute; split; discriminate || reflexivity|]).
  all: apply (bool_decide_unpack _); vm_compute; exact I.
Qed.

(** ** The lifecycle and the supervisor *)
(** A change of the lifecycle on the row it read: the row has the state afterwards, and
    nothing of it but the state and the moment it became active has changed. *)
Lemma write_lifecycle_row seen db actor now id state kind db' effects :
  pd_projects seen !! id = pd_projects db !! id →
  write_lifecycle seen db actor now id state kind = Ok (db', effects) →
  ∃ p, pd_projects db !! id = Some p ∧ pd_projects db' = <[id := assign_lifecycle state now p p]> (pd_projects db) ∧
       pw_lifecycle (assign_lifecycle state now p p) = state.
Proof.
  intros Hsame Hc. unfold write_lifecycle, get_project in Hc. rewrite Hsame in Hc. destruct (pd_projects db !! id) as [p|] eqn:Hp; [|done].
  cbn [mbind result_bind] in Hc. exists p. split; [done|].
  assert (pw_lifecycle (assign_lifecycle state now p p) = state) as Hst.
  { cbn. unfold lifecycle_changed. case_bool_decide; [by subst|done]. }
  split; [|exact Hst]. destruct (lifecycle_changed state p) eqn:Hch; pass_guard Hc; injection Hc as <- _.
  - unfold flush_update in Hguard. rewrite Hp in Hguard. destruct (conflicts _ _ _); [done|]. by injection Hguard as <-.
  - injection Hguard as <-. symmetry. apply (insert_id (pd_projects db)). rewrite Hp. f_equal.
    unfold assign_lifecycle. rewrite Hch. unfold lifecycle_changed in Hch. apply negb_false_iff, bool_decide_eq_true in Hch. subst state.
    assert (becomes_active (pw_lifecycle p) p = false) as ->; [|by destruct p].
    unfold becomes_active. by destruct (bool_decide _).
Qed.
(** Resuming succeeds only when the row it read was paused; that row is active from now
    on. *)
Lemma resume_row seen db actor now id db' effects p :
  pd_projects seen !! id = pd_projects db !! id → pd_projects db !! id = Some p → pw_active_since p ≠ Some now →
  resume_project seen db actor now id = Ok (db', effects) →
  pw_lifecycle p = lc_paused ∧ ∃ p', pd_projects db' !! id = Some p' ∧ pw_lifecycle p' = lc_active ∧ pw_active_since p' = Some now.
Proof.
  intros Hsame Hp Hnow Hr. unfold resume_project in Hr. unfold get_project at 1 in Hr. rewrite Hsame, Hp in Hr. cbn [mbind result_bind] in Hr.
  destruct (decide (pw_lifecycle p = lc_paused)) as [Hpaused|Hne]; [rewrite bool_decide_true in Hr by done|by rewrite bool_decide_false in Hr by done].
  cbn [negb] in Hr. apply write_lifecycle_row in Hr as (p' & Hp' & -> & Hst); [|done]. assert (p' = p) as -> by congruence. rewrite lookup_insert_eq.
  split; [done|]. eexists. split_and!; [done|done|]. unfold assign_lifecycle, becomes_active. cbn [pw_active_since].
  rewrite Hpaused, (bool_decide_false (pw_active_since p = Some now)) by done. done.
Qed.
(** The rows as a reconciliation pass selects them. *)
Definition selected_rows (db : ProjectsDb) : list ProjectRow := (λ ip, project_row ip.1 ip.2) <$> map_to_list (pd_projects db).
Lemma elem_of_targets default_interval digest when cameras defaults db t :
  t ∈ (load_targets default_interval digest when (MkTables (selected_rows db) cameras defaults)).1 ↔
  ∃ p, pd_projects db !! tg_project_id t = Some p ∧
       target_of_row default_interval digest when (MkTables [] cameras defaults) (project_row (tg_project_id t) p) = Some t.
Proof.
  unfold load_targets. cbn [fst tb_projects]. rewrite list_elem_of_omap. unfold selected_rows. split.
  - intros (row & (ip & -> & Hin)%list_elem_of_fmap & Ht). destruct ip as [i p]. apply elem_of_map_to_list in Hin. cbn [fst snd] in Ht.
    assert (tg_project_id t = i) as Hid; [|exists p; rewrite Hid; done].
    unfold target_of_row in Ht. apply bind_Some in Ht as (camera & _ & Ht). destruct (_ && _); [|done]. by injection Ht as <-.
  - intros (p & Hp & Ht). exists (project_row (tg_project_id t) p). split; [|done]. apply list_elem_of_fmap. exists (tg_project_id t, p).
    split; [done|]. by apply elem_of_map_to_list.
Qed.
Lemma inactive_no_target default_interval digest when db id p :
  pw_lifecycle p ≠ lc_active → target_of_row default_interval digest when db (project_row id p) = None.
Proof. intros Hne. unfold target_of_row, usable_camera. cbn [project_row jr_lifecycle]. by rewrite (bool_decide_false (pw_lifecycle p = lc_active)) by done. Qed.

(** Pausing or archiving a project takes its capture target, and only its, away from
    the next reconciliation pass: the pass finds exactly the targets it would have found
    of the other projects, whatever the time, the cameras and the settings.  The request
    read the row it writes. *)
Theorem leaving_active_removes_one_target default_interval digest when cameras defaults seen db actor now id state kind db' effects :
  state ≠ lc_active → pd_projects seen !! id = pd_projects db !! id → write_lifecycle seen db actor now id state kind = Ok (db', effects) →
  ∀ t, t ∈ (load_targets default_interval digest when (MkTables (selected_rows db') cameras defaults)).1 ↔
       t ∈ (load_targets default_interval digest when (MkTables (selected_rows db) cameras defaults)).1 ∧ tg_project_id t ≠ id.
Proof.
  intros Hstate Hsame Hw t. destruct (write_lifecycle_row _ _ _ _ _ _ _ _ _ Hsame Hw) as (p & Hp & Hrows & Hst). rewrite !elem_of_targets, Hrows.
  destruct (decide (tg_project_id t = id)) as [Hid|Hid].
  - rewrite Hid, lookup_insert_eq. split; [|by intros [_ ?]]. intros (q & Hq & Ht). injection Hq as <-. rewrite inactive_no_target in Ht; congruence.
  - rewrite lookup_insert_ne by done. by split; [intros ?; split|intros [? _]].
Qed.

(** ** The shared-path warning *)
(** The projects of one resolved path, in the order of the rows. *)
Definition owners (real : string → option string) (r : string) (rows : list (Z * string)) : list Z :=
  omap (λ row, if decide (real row.2 = Some r) then Some row.1 else None) rows.
Lemma group_lookup real rows r : group_paths real rows !! r = match owners real r rows with [] => None | l => Some l end.
Proof.
  unfold group_paths. induction rows as [|row rows IH] using rev_ind; [done|]. rewrite foldl_snoc. unfold owners in *. rewrite omap_app. cbn [omap list_omap].
  destruct (real row.2) as [r'|] eqn:Hreal; [|rewrite decide_False, app_nil_r by done; exact IH]. destruct (decide (r' = r)) as [->|Hne].
  - rewrite lookup_insert_eq, decide_True, IH by done. by destruct (omap _ rows).
  - rewrite lookup_insert_ne, decide_False, app_nil_r by (done || congruence). exact IH.
Qed.
Lemma shared_sum (l : list (string * list Z)) :
  foldr (λ owners n, (if bool_decide (length (owners.2 : list Z) < 2)%nat then 0 else Z.of_nat (length owners.2)) + n) 0 l = 0 ↔
  Forall (λ o, (length o.2 < 2)%nat) l.
Proof.
  assert (Hpos : ∀ l : list (string * list Z),
    0 ≤ foldr (λ owners n, (if bool_decide (length (owners.2 : list Z) < 2)%nat then 0 else Z.of_nat (length owners.2)) + n) 0 l).
  { clear. induction l as [|o l IH]; cbn [foldr]; [lia|]. case_bool_decide; lia. }
  induction l as [|o l IH]; cbn [foldr]; [by split|]. rewrite Forall_cons, <- IH. specialize (Hpos l). case_bool_decide; lia.
Qed.
(** No warning says exactly that no directory is two projects'. *)
Lemma no_shared_warning real rows :
  warn_on_shared_storage_paths real rows = 0 ↔ ∀ r, (length (owners real r rows) < 2)%nat.
Proof.
  unfold warn_on_shared_storage_paths. rewrite shared_sum, Forall_forall. split.
  - intros Hall r. destruct (owners real r rows) as [|o l] eqn:Ho; [cbn; lia|]. apply (Hall (r, o :: l)), elem_of_map_to_list. by rewrite group_lookup, Ho.
  - intros Hall [r l] Hin. apply elem_of_map_to_list in Hin. rewrite group_lookup in Hin. specialize (Hall r). by destruct (owners real r rows); simplify_eq.
Qed.

(** ** Milestones *)
(** An edit of a milestone that read the row it writes leaves it a position. *)
Lemma current_edit_keeps_position seen db actor project id spec db' m' :
  pd_milestones seen !! id = pd_milestones db !! id → update_milestone seen db actor project id spec = Ok db' →
  (∀ m, pd_milestones db !! id = Some m → require_position (ms_frame_index m) (ms_timestamp m) = Ok ()) →
  pd_milestones db' !! id = Some m' → require_position (ms_frame_index m') (ms_timestamp m') = Ok ().
Proof.
  intros Hsame Hc Hpos Hm'. unfold update_milestone in Hc. do 2 pass_guard Hc. apply get_milestone_ok in Hguard as [Hm _]. rewrite Hsame in Hm.
  case_bool_decide; [injection Hc as <-; cbn in Hm'; by apply Hpos|]. rewrite Hm in Hc. injection Hc as <-.
  cbn in Hm'. rewrite lookup_insert_eq in Hm'. injection Hm' as <-. cbn [ms_frame_index ms_timestamp]. destruct a0. rewrite <- Hguard0.
  f_equal; case_decide; congruence.
Qed.

(** ** Where the code and its documentation part *)
(** A clone has the interval of its source and none of its scheduled times: without an
    interval, the clone captures nothing. *)
Lemma clone_without_interval_idle source name now id :
  pw_interval source = None → capture_configured (project_row id (clone_from source name now)) = false.
Proof. intros Hi. unfold capture_configured. cbn [project_row clone_from jr_interval jr_exact_time_anchors pw_interval pw_exact_time_anchors]. by rewrite Hi. Qed.
(** An interval that is not a number passes the check and is off for the scheduler. *)
Lemma nan_interval_accepted :
  let schedule := [("enabled", PBool true); ("interval_seconds", PStr "nan")] in
  validate_schedule (Some schedule) = Ok () ∧ interval_seconds (PDict schedule) = None.
Proof. by split; vm_compute. Qed.
(** A camera that is deleted between the check and the flush is reported as a taken name. *)
Lemma lost_camera_reads_as_taken_name seen db actor now spec camera name :
  sp_camera_id spec = Some camera → clean_name (sp_name spec) = Ok name → pd_cameras seen !! camera = Some true → pd_cameras db !! camera = None →
  validate_capture_schedule (sp_schedule spec) = Ok () → name_taken name None seen = false → name_taken name None db = false →
  create_project seen db actor now spec = Raise ConflictError.
Proof.
  intros Hc Hn Hseen Hdb Hs Hfree Hfree'. unfold create_project, require_capture_camera, require_unique_name, flush_insert, conflicts.
  rewrite Hn. cbn [mbind result_bind]. rewrite Hc. cbn [mbind result_bind]. rewrite Hseen. cbn [mbind result_bind]. rewrite Hs. cbn [mbind result_bind].
  rewrite Hfree. cbn [mbind result_bind pw_name pw_camera_id]. by rewrite Hfree', Hdb.
Qed.
End facts.

(** ** A history: one camera, two projects, overlapping edits *)
Definition accept_any (id : Z) (raw : option string) (others : list string) : result (option string) :=
  match raw with
  | Some path => if bool_decide (path ∈ others) then Raise (StoragePathError EmptyString) else Ok raw
  | None => Ok None
  end.
Definition no_spec : ProjectSpec := MkSpec None None None None None None None None None None None None None None None None None None None [].
Definition demo_gate : document := [("timezone", PStr "UTC")].
Definition demo_create (name : string) : ProjectSpec :=
  MkSpec (Some name) (Some 7) (Some 60) None None None None (Some demo_gate) None None None None None None None None None None None [].
Definition demo_move : ProjectSpec :=
  MkSpec None None None None None None (Some "/srv/frames") None None None None None None None None None None None None [fd_storage_path].
Definition ok_db {A} (m : result (ProjectsDb * A)) : ProjectsDb := match m with Ok (db, _) => db | Raise _ => empty_db end.
Definition ok_created (m : result (ProjectsDb * Z * list Effect)) : ProjectsDb := match m with Ok (db, _, _) => db | Raise _ => empty_db end.
Definition with_camera : ProjectsDb := on_cameras <[7 := true]> empty_db.
Definition demo_one : ProjectsDb := ok_created (create_project (H := demo_env) with_camera with_camera 1 100 (demo_create " roof ")).
(** the second creation read the database before the first one's flush *)
Definition demo_two : ProjectsDb := ok_created (create_project (H := demo_env) with_camera demo_one 1 101 (demo_create "yard")).
Definition demo_moved_one : ProjectsDb := ok_db (update_project (H := demo_env) accept_any demo_two demo_two 1 1 demo_move).
Definition demo_moved_two : ProjectsDb := ok_db (update_project (H := demo_env) accept_any demo_two demo_moved_one 1 2 demo_move).
Definition demo_paused : ProjectsDb := ok_db (pause_project demo_moved_two demo_moved_two 1 102 1).
Lemma overlapping_history :
  rtc (project_step (H := demo_env) accept_any) ([], empty_db)
    ([demo_moved_two; demo_moved_one; demo_two; demo_one; with_camera; empty_db], demo_paused).
Proof.
  eapply rtc_l; [exact (pt_camera accept_any [] empty_db 7 true)|].
  eapply rtc_l; [apply (pt_create (H := demo_env) accept_any with_camera) with (actor := 1) (now := 100) (spec := demo_create " roof ") (id := 1) (effects := [CAPTURE_RECONCILE]);
    [set_solver|vm_compute; reflexivity]|].
  eapply rtc_l; [apply (pt_create (H := demo_env) accept_any with_camera) with (actor := 1) (now := 101) (spec := demo_create "yard") (id := 2) (effects := [CAPTURE_RECONCILE]);
    [set_solver|vm_compute; reflexivity]|].
  eapply rtc_l; [apply (pt_update (H := demo_env) accept_any demo_two) with (actor := 1) (id := 1) (spec := demo_move) (effects := [CAPTURE_RECONCILE]);
    [set_solver|vm_compute; reflexivity]|].
  eapply rtc_l; [apply (pt_update (H := demo_env) accept_any demo_two) with (actor := 1) (id := 2) (spec := demo_move) (effects := [CAPTURE_RECONCILE]);
    [set_solver|vm_compute; reflexivity]|].
  eapply rtc_l; [apply (pt_lifecycle (H := demo_env) accept_any demo_moved_two) with (actor := 1) (now := 102) (id := 1) (state := lc_paused) (kind := au_paused) (effects := [CAPTURE_RECONCILE]);
    [set_solver|vm_compute; reflexivity]|].
  apply rtc_refl.
Qed.
Lemma projects_stay_well_formed_witness : projects_ok (H := demo_env) demo_paused ∧ pw_name <$> pd_projects demo_paused !! 1 = Some "roof".
Proof. split; [exact (projects_stay_well_formed (H := demo_env) accept_any _ _ overlapping_history)|vm_compute; reflexivity]. Defined.
Definition empty_digest (items : list material_item) : bytes := [].
Definition demo_cameras : gmap Z SupCamera := {[ 7 := MkSupCamera (MkCameraRow (Some (b "onvif")) (Some (b "10.0.0.7")) None true None None None (Some 0) false None) None None ]}.
Definition demo_targets (db : ProjectsDb) : list Z :=
  tg_project_id <$> (load_targets 60 empty_digest 102 (MkTables (selected_rows db) demo_cameras None)).1.
Lemma leaving_active_removes_one_target_witness :
  1 ∈ demo_targets demo_moved_two ∧
  (∀ t, t ∈ (load_targets 60 empty_digest 102 (MkTables (selected_rows demo_paused) demo_cameras None)).1 ↔
        t ∈ (load_targets 60 empty_digest 102 (MkTables (selected_rows demo_moved_two) demo_cameras None)).1 ∧ tg_project_id t ≠ 1).
Proof.
  split; [apply (bool_decide_unpack _); vm_compute; exact I|].
  apply (leaving_active_removes_one_target 60 empty_digest 102 demo_cameras None demo_moved_two demo_moved_two 1 102 1 lc_paused au_paused demo_paused [CAPTURE_RECONCILE]);
    [discriminate|reflexivity|vm_compute; reflexivity].
Defined.
(** Two edits that overlap give two projects one directory: each check ran before the
    other's flush, and no constraint follows. *)
Lemma overlapping_edits_share_a_path :
  rtc (project_step (H := demo_env) accept_any) ([], empty_db)
    ([demo_moved_two; demo_moved_one; demo_two; demo_one; with_camera; empty_db], demo_paused) ∧
  (pw_storage_path <$> pd_projects demo_paused !! 1) = Some (Some "/srv/frames") ∧
  (pw_storage_path <$> pd_projects demo_paused !! 2) = Some (Some "/srv/frames") ∧
  update_project (H := demo_env) accept_any demo_moved_one demo_moved_one 1 2 demo_move = Raise ValidationError.
Proof. split; [exact overlapping_history|]. by split_and!; vm_compute. Qed.
(** Two edits of one milestone that overlap, one clearing its frame and one its timestamp:
    each sees the other position and passes the check, and the milestone has none. *)
Definition ok_result {A} (m : result A) (dflt : A) : A := match m with Ok a => a | Raise _ => dflt end.
Definition demo_marked : ProjectsDb := (ok_result (create_milestone demo_two demo_two 1 1 (Some "roof on") (Some 12) (Some 500)) (empty_db, 0)).1.
Definition demo_unframed : ProjectsDb := ok_result (update_milestone demo_marked demo_marked 1 1 1 (MkMilestoneSpec None (Some None) None)) empty_db.
Definition demo_unplaced : ProjectsDb := ok_result (update_milestone demo_marked demo_unframed 1 1 1 (MkMilestoneSpec None None (Some None))) empty_db.
Lemma overlapping_edits_clear_position :
  update_milestone demo_marked demo_marked 1 1 1 (MkMilestoneSpec None (Some None) None) = Ok demo_unframed ∧
  update_milestone demo_marked demo_unframed 1 1 1 (MkMilestoneSpec None None (Some None)) = Ok demo_unplaced ∧
  pd_milestones demo_unplaced !! 1 = Some (MkMilestone 1 1 (Some "roof on") None None) ∧
  update_milestone demo_unframed demo_unframed 1 1 1 (MkMilestoneSpec None None (Some None)) = Raise ValidationError.
Proof. by split_and!; vm_compute. Qed.
(** Two edits of one project that overlap keep both of their columns: each flush writes only
    what it changed. *)
Definition demo_faster : ProjectSpec :=
  MkSpec None None (Some 30) None None None None None None None None None None None None None None None None [fd_interval].
Lemma overlapping_edits_merge :
  let db1 := ok_db (update_project (H := demo_env) accept_any demo_two demo_two 1 1 demo_move) in
  let db2 := ok_db (update_project (H := demo_env) accept_any demo_two db1 1 1 demo_faster) in
  (λ p, (pw_storage_path p, pw_interval p)) <$> pd_projects db2 !! 1 = Some (Some "/srv/frames", Some 30).
Proof. by vm_compute. Qed.
